(* ===== verification/_CoqProject ===== *)
-Q . S2P
Prelude.v
StateM.v
Bits.v
Bytes.v
Common.v
Protocol.v
Interfaces.v
PriceBitmap.v
OrderStore.v
OrderIndex.v
Structures.v
ReferenceBook.v
OrderBook.v
BookRefine.v
BookEquiv.v
BookRules.v
BookQueries.v
BookLaws.v
BookTheorems.v
Engine.v
Risk.v
SpscQueue.v
LatencyHistogram.v
ClientIds.v
Journal.v
SeqStream.v
OrdMap.v
MdFeed.v
FeedLaws.v
Gateway.v
GatewayLaws.v
Replica.v
L3.v
L3Laws.v
L3Infer.v
Md.v
BookApi.v
Mirror.v
MirrorLaws.v
Rng.v
Doubles.v
TextFormat.v
DiffFeed.v
DiffFeedLaws.v
L3Replay.v
L3ReplayLaws.v
L3Emit.v
L3Exchange.v
L3Track.v
L3Honest.v
L3Learn.v
L3Exact.v
Workload.v
WorkloadLaws.v
Wasm.v
WasmBench.v
Pipeline.v
PipelineLaws.v
MdReplay.v
MdReplayLaws.v
Mm.v
MmSim.v
MmLaws.v
MmSimLaws.v
MmRuns.v
Features.v
FeaturesLaws.v
