(* ===== verification/Prelude.v ===== *)
(** * DoppelMatch (exsim): a verification library for the matching engine and its exchange

    ** The program

    A price-time-priority matching engine in C++20 ([include/exsim/*.hpp], header only) and the exchange around it
    ([tools/]): a TCP gateway decodes binary orders, numbers them, writes them to a journal, multicasts them to hot
    backups, hands them to a risk gate and the engine, answers the clients and publishes market data. Everything from the
    numbering to the engine is deterministic, and recovery, replication and differential testing rest on that.

    [[
    clients --TCP--> gateway --> numbering --> journal --> risk gate --> engine --> reports, market data
                                     |                                     |
                                     +--UDP--> replicas                    one book per symbol: ladder, bitmap,
                                                                           order store, order index
    ]]

    ** The files, the code they model, and what they show

    - This file: machine integers, arrays with bounds ([l.[i]], [l.[i <- v]]; no result is an access out of bounds), the
      generic lemmas and the tactics. [Bits]: [countr_zero], [countl_zero], [bit_ceil], [rotl]. [Bytes]: packed
      little-endian structures. [OrdMap]: [std::map] with integer keys as what its iterators visit.
    - [Common] (common.hpp): enumerations with their values, commands, events.
    - [PriceBitmap] (price_bitmap.hpp), [OrderStore] (order_store.hpp), [OrderIndex] (order_index.hpp): the book's data
      structures with their loops and machine words. [Structures] proves that, through any operations, they are a set of
      levels with nearest-neighbour queries, a stack of free slots over three interchangeable layouts, and a finite map in
      Robin Hood order under both hash policies.
    - [Interfaces]: the type classes through which the book uses them ([OrderFields], [IdIndex], [LevelSet] and their
      laws). [OrderBook] (order_book.hpp) is generic in the three, as the C++ template is; [ReferenceBook]
      (reference_book.hpp) is the textbook book that specifies the matching rules.
    - [BookRefine], [BookEquiv]: the simulation between the two books, operation by operation. [BookQueries]: queries and
      the audit [check_invariants]. [BookRules], [BookLaws]: the rules of the exchange on the reference book.
      [BookTheorems] carries them to the order book from construction on: same events for any commands, no undefined
      behaviour and termination, price-time priority, limits respected, fill-or-kill all or nothing, quantity conserved,
      post-only, cancel, modify, layout independence, and the one place where the two books differ
      ([fok_wrapped_aggregate]).
    - [Engine] (matching_engine.hpp, sinks.hpp): one book per symbol, over a class of books; the digest of an event
      stream. [Risk] (risk.hpp): the pre-trade checks and the rate limiter, over a class of engines.
    - [Protocol] (protocol.hpp, wire_file.hpp): the codec of commands and reports, and captures. [ClientIds]
      (client_ids.hpp): exchange-assigned ids, SipHash. [Journal] (journal.hpp): CRC-32C, the record format, reading,
      recovery from any surviving prefix, detection of damage.
    - [SpscQueue] (spsc_queue.hpp): the lock-free ring under any interleaving and any stale load.
      [LatencyHistogram] (latency_histogram.hpp): accuracy of the percentiles.
    - [SeqStream] (seqstream.hpp): publisher and subscriber of the command stream over a network that loses, duplicates
      and reorders. [MdFeed] (mdfeed.hpp): the level-2 feed; [FeedLaws] proves a subscriber in sync exact.
    - [Gateway], [GatewayLaws] (tools/gateway.hpp, tools/exsim_server.cpp): the serving loop as a function of what the
      system calls return; recovery rebuilds the engine, and what a client is sent follows the journal's flush.
      [Replica] (tools/exsim_replica.cpp): bootstrap, the replica's loop, failover.
    - [L3], [L3Laws] (l3.hpp): the exchange's book rebuilt from its messages, with its iterators. [L3Infer]
      (tools/exsim_l3replay.cpp, first pass): accounts inferred from self-trade prevention. [Md] (md.hpp): the capture
      reader.
    - [StateM]: the state-and-failure monad of the second pass of the replay, with its weakest preconditions and the
      combinators of an invariant kept. [BookApi]: the class of books a tool can be run over, with its laws; both books are
      instances. [Mirror], [MirrorLaws] (md_mirror.hpp): a captured level-2 book turned into orders of a book of this
      program; it shows the market, best first, and never trades with itself.
    - [Rng] (common.hpp's generator and its doubles), [TextFormat] (decimal fields of lines), [DiffFeed]
      (tools/exsim_difffeed.cpp): the generator of random command streams, their text and its reader. [DiffFeedLaws]: both
      books print the same text for every seed.
    - [L3Replay] (tools/exsim_l3replay.cpp, second pass): the exchange's messages drive an engine and a truth book side by
      side, episode by episode. [L3ReplayLaws]: every operation has a result and two levels of recursion are enough;
      [L3Emit]: the file of emitted commands is exactly what the engine saw, and reading it back rebuilds the engine's book.
    - [L3Exchange]: an exchange with the reference rules that publishes its messages, as the specification of what the
      replay reads. [L3Track]: the truth book lists what the exchange's book lists. [L3Learn]: the first pass learns what
      the second needs of each arrival. [L3Honest]: message by message the second pass follows the exchange. [L3Exact]:
      together, a day is replayed exactly; and the two kinds of day, with modifies that trade, on which the program
      reports an exact exchange as failing.
    - [Workload], [WorkloadLaws] (workload.hpp): synthetic order flow drawn against a live engine. The generator never
      aborts and its table of live orders is always exactly the orders in the books.
    - [Wasm], [WasmBench] (wasm/engine_wasm.cpp): the browser's C interface, its session of calls against the same
      interface over the reference book; the throughput test, with its clock as an argument.
    - [Pipeline] (tools/exsim_pipeline.cpp, tools/exsim_replay.cpp): three threads joined by two rings, as a step relation
      over their program counters, and the replay tool. [PipelineLaws]: no interleaving changes the results, and the
      threads can always reach their joins.
    - [MdReplay], [MdReplayLaws] (tools/exsim_mdreplay.cpp): the validation of a replayed capture. What a market that tells
      the truth publishes validates, gaps and resyncs included.
    - [Doubles]: operations of doubles, rounded one by one, and their bounds. [Mm] (mm.hpp): a market maker's virtual quotes,
      strategies and volatility. [MmSim] (mm_sim.hpp): the simulation over a replayed capture, to its result. [MmLaws],
      [MmSimLaws]: fills and queue positions of one quote, the account of a run. [MmRuns]: whatever the capture, the
      inventory is that of the fills and within its limit; on the capture of a market that tells the truth, the simulation
      runs to its result.

    ** How code becomes definitions

    An unsigned value of width w is an integer in [[0, 2^w)] and arithmetic that can leave the range is written with its
    truncation ([u8] ... [u64]); a signed operation that can overflow gives no result. A function that can read or write
    out of bounds, overflow, or throw where nothing catches is an [option]: the theorems show the result exists. State is
    passed explicitly; a callback ([sink.on_event]) is the list of what it is called with, in order. Sockets, files,
    clocks and fault injectors are arguments: what a call delivers, and whether it fails.

    ** Fuel

    Loops that are not structural take fuel and have no result without it; every theorem that uses one shows it has
    enough. A sweep visits at most [n_] levels and [capacity] slots of each; probes of the index at most the number of
    its slots; decoding loops one step for each byte at most; [flush] and retransmission one for each sequence number;
    the union-find's [find] one for each entry, since a parent is a smaller id.

    ** Findings

    Where the code does not do what it means to, PROJECT.json records it with its line: the wrapping level aggregate
    ([fok_wrapped_aggregate]); signed overflow on prices chosen by a client in [OrderBook::add] and in the risk gate's
    collar; a short capture read past its end; reports that leave before the journal's flush; the end of the feed when the
    last packet is lost; retransmission of commands not yet flushed; two ways the replay misreports a modify that trades;
    a shallower snapshot reported as a mismatch; the market-making simulation reading the best price of an empty side.

    ** Not modelled

    Page-aligned memory, clocks, CPU pinning, argument parsing, printing, signals, sockets and files themselves:
    operating-system effects. [LatencyHistogram::mean] (one quotient). Doubles are rounded operation by operation, as the
    language has it; a build that lets the compiler fuse a product with a sum can differ in the last bit. [pow], [exp],
    [log1p] and [log] of the C library are arguments. The measuring programs (bench/, fuzz/, most of tools/) drive the
    components modelled here and print. PROJECT.json lists every part with its reason.

    ** Plan

    The remaining tools: the queue study, the features, the journal tool.
*)
From Stdlib Require Export ZArith Lia.
From stdpp Require Export base numbers gmap sets option list.

#[export] Set Default Goal Selector "!".
#[global] Open Scope Z_scope.

(** ** Machine integers

    A value of an unsigned C++ type of width [w] is an integer in [[0, 2^w)]; arithmetic that can leave the
    range is written with the truncation of the result type, as the language defines it. *)

Definition u8 (x : Z) : Z := x mod 256.
Definition u16 (x : Z) : Z := x mod 65536.
Definition u32 (x : Z) : Z := x mod 4294967296.
Definition u64 (x : Z) : Z := x mod 18446744073709551616.

(** Two's complement: the value of a 64-bit pattern read as [std::int64_t]. *)
Definition i64 (x : Z) : Z := (x + 9223372036854775808) mod 18446744073709551616 - 9223372036854775808.

Definition in_u8 (x : Z) : Prop := 0 <= x < 256.
Definition in_u16 (x : Z) : Prop := 0 <= x < 65536.
Definition in_u32 (x : Z) : Prop := 0 <= x < 4294967296.
Definition in_u64 (x : Z) : Prop := 0 <= x < 18446744073709551616.
Definition in_i64 (x : Z) : Prop := -9223372036854775808 <= x < 9223372036854775808.

(** ** Fixed-size arrays

    [PageArray], [std::vector] and [std::array] indexed by an integer. An access outside the bounds is undefined
    behaviour in C++: here it has no result, so a theorem that an operation returns [Some] also states that every
    access it makes is in bounds. *)

Definition alen {A} (a : list A) : Z := Z.of_nat (length a).
Definition in_range {A} (a : list A) (i : Z) : bool := (0 <=? i) && (i <? alen a).
Definition aget {A} (a : list A) (i : Z) : option A := if in_range a i then a !! Z.to_nat i else None.
Definition aset {A} (a : list A) (i : Z) (v : A) : option (list A) :=
  if in_range a i then Some (<[Z.to_nat i := v]> a) else None.
Definition amake {A} (n : Z) (v : A) : list A := replicate (Z.to_nat n) v.

Declare Scope exsim_scope.
Delimit Scope exsim_scope with exsim.
Notation "a .[ i ]" := (aget a i) (at level 1, i at level 200, left associativity, format "a .[ i ]") : exsim_scope.
Notation "a .[ i <- v ]" := (aset a i v)
  (at level 1, i at level 200, v at level 200, left associativity, format "a .[ i  <-  v ]") : exsim_scope.
#[global] Open Scope exsim_scope.

(** ** Tactics *)

(** Boolean tests of the code, turned into the propositions they decide. *)
Ltac to_prop :=
  repeat match goal with
    | H : (_ && _) = true |- _ => apply andb_prop in H as [? ?]
    | H : (_ && _) = false |- _ => apply andb_false_iff in H
    | H : (_ || _) = true |- _ => apply orb_prop in H
    | H : (_ || _) = false |- _ => apply orb_false_elim in H as [? ?]
    | H : negb _ = true |- _ => apply negb_true_iff in H
    | H : negb _ = false |- _ => apply negb_false_iff in H
    | H : (_ =? _)%Z = true |- _ => apply Z.eqb_eq in H
    | H : (_ =? _)%Z = false |- _ => apply Z.eqb_neq in H
    | H : (_ <? _)%Z = true |- _ => apply Z.ltb_lt in H
    | H : (_ <? _)%Z = false |- _ => apply Z.ltb_ge in H
    | H : (_ <=? _)%Z = true |- _ => apply Z.leb_le in H
    | H : (_ <=? _)%Z = false |- _ => apply Z.leb_gt in H
    | H : bool_decide _ = true |- _ => apply bool_decide_eq_true_1 in H
    | H : bool_decide _ = false |- _ => apply bool_decide_eq_false_1 in H
    end.

(** Case analysis on the test of an [if] of the goal, with the test as a proposition. *)
Ltac case_if :=
  match goal with
  | |- context [if ?b then _ else _] =>
      let E := fresh "E" in destruct b eqn:E; to_prop
  end.

(** Inverts successful binds: [x <- e; k = Some r] gives the intermediate results. *)
Ltac inv_bind :=
  repeat match goal with
    | H : mbind _ _ = Some _ |- _ => apply bind_Some in H; destruct H as (? & ? & H)
    | H : Some _ = Some _ |- _ => injection H as H; subst
    | H : None = Some _ |- _ => discriminate H
    end.

(** Linear arithmetic with division and remainder by literals. *)
Ltac divmod := Z.to_euclidean_division_equations; lia.

Ltac words := unfold in_u8, in_u16, in_u32, in_u64, in_i64, u8, u16, u32, u64, i64 in *.

(** ** Lemmas on machine integers *)

Lemma u8_small x : in_u8 x -> u8 x = x.
Proof. words. intros. by rewrite Z.mod_small. Qed.
Lemma u16_small x : in_u16 x -> u16 x = x.
Proof. words. intros. by rewrite Z.mod_small. Qed.
Lemma u32_small x : in_u32 x -> u32 x = x.
Proof. words. intros. by rewrite Z.mod_small. Qed.
Lemma u64_small x : in_u64 x -> u64 x = x.
Proof. words. intros. by rewrite Z.mod_small. Qed.
Lemma i64_small x : in_i64 x -> i64 x = x.
Proof. words. intros. rewrite Z.mod_small; lia. Qed.
Lemma in_u8_u8 x : in_u8 (u8 x).
Proof. words. apply Z.mod_pos_bound. lia. Qed.
Lemma in_u16_u16 x : in_u16 (u16 x).
Proof. words. apply Z.mod_pos_bound. lia. Qed.
Lemma in_u32_u32 x : in_u32 (u32 x).
Proof. words. apply Z.mod_pos_bound. lia. Qed.
Lemma in_u64_u64 x : in_u64 (u64 x).
Proof. words. apply Z.mod_pos_bound. lia. Qed.
Lemma in_i64_i64 x : in_i64 (i64 x).
Proof. words. pose proof (Z.mod_pos_bound (x + 9223372036854775808) 18446744073709551616). lia. Qed.

Lemma u64_add_l x y : u64 (u64 x + y) = u64 (x + y).
Proof. words. by rewrite Zplus_mod_idemp_l. Qed.

Create HintDb exsim discriminated.
#[export] Hint Resolve in_u8_u8 in_u16_u16 in_u32_u32 in_u64_u64 in_i64_i64 : exsim.

(** ** Lemmas on arrays *)

Section arrays.
Context {A : Type}.
Implicit Types (a : list A) (i j : Z) (v : A).

Lemma alen_nonneg a : 0 <= alen a.
Proof. unfold alen. lia. Qed.

Lemma in_range_true a i : in_range a i = true <-> 0 <= i < alen a.
Proof. unfold in_range. rewrite andb_true_iff, Z.leb_le, Z.ltb_lt. done. Qed.

Lemma aget_Some a i v : a.[i] = Some v <-> 0 <= i /\ a !! Z.to_nat i = Some v.
Proof.
  unfold aget. destruct (in_range a i) eqn:E.
  - apply in_range_true in E. naive_solver lia.
  - split; [done|]. intros [Hi Hv]. apply lookup_lt_Some in Hv.
    assert (in_range a i = true) by (apply in_range_true; unfold alen; lia). congruence.
Qed.

Lemma aget_bound a i v : a.[i] = Some v -> 0 <= i < alen a.
Proof. unfold aget. destruct (in_range a i) eqn:E; [|done]. intros _. by apply in_range_true. Qed.

Lemma aget_is_Some a i : 0 <= i < alen a -> exists v, a.[i] = Some v.
Proof.
  intros Hi. destruct (lookup_lt_is_Some_2 a (Z.to_nat i)) as [v Hv]; [unfold alen in Hi; lia|].
  exists v. apply aget_Some. split; [lia|done].
Qed.

Lemma aset_is_Some a i v : 0 <= i < alen a -> exists a', a.[i <- v] = Some a'.
Proof. intros Hi. unfold aset. rewrite (proj2 (in_range_true a i)) by done. eauto. Qed.

Lemma alen_aset a i v a' : a.[i <- v] = Some a' -> alen a' = alen a.
Proof. unfold aset, alen. case_if; intros; simplify_eq. by rewrite length_insert. Qed.

Lemma aget_aset a i v a' j : a.[i <- v] = Some a' -> a'.[j] = if j =? i then Some v else a.[j].
Proof.
  intros H. pose proof (alen_aset _ _ _ _ H) as Hl. unfold aset in H.
  destruct (in_range a i) eqn:E; simplify_eq. apply in_range_true in E.
  assert (in_range (<[Z.to_nat i:=v]> a) j = in_range a j) as Hr by (unfold in_range; by rewrite Hl).
  unfold aget. rewrite Hr. destruct (Z.eqb_spec j i) as [->|Hne].
  - rewrite (proj2 (in_range_true _ _)) by done. rewrite list_lookup_insert_eq; [done|unfold alen in E; lia].
  - destruct (in_range a j) eqn:Ej; [|done]. apply in_range_true in Ej.
    rewrite list_lookup_insert_ne; [done|lia].
Qed.

Lemma aget_aset_eq a i v a' : a.[i <- v] = Some a' -> a'.[i] = Some v.
Proof. intros H. rewrite (aget_aset _ _ _ _ _ H), Z.eqb_refl. done. Qed.

Lemma aget_aset_ne a i v a' j : a.[i <- v] = Some a' -> j <> i -> a'.[j] = a.[j].
Proof. intros H Hj. rewrite (aget_aset _ _ _ _ _ H). by rewrite (proj2 (Z.eqb_neq j i)). Qed.

Lemma alen_amake n v : 0 <= n -> alen (amake n v) = n.
Proof. intros. unfold alen, amake. rewrite length_replicate. lia. Qed.

Lemma aget_snoc a x i : (a ++ [x]).[i] = if i =? alen a then Some x else a.[i].
Proof.
  destruct (Z.eqb_spec i (alen a)) as [->|Hi].
  - apply aget_Some. split; [apply alen_nonneg|]. unfold alen. by rewrite Nat2Z.id, list_lookup_middle.
  - apply option_eq. intros v. rewrite !aget_Some. unfold alen in Hi. split; intros [H0 H]; (split; [done|]).
    + assert (Z.to_nat i < length (a ++ [x]))%nat as Hl by (by eapply lookup_lt_Some). rewrite length_app in Hl. cbn in Hl. by rewrite lookup_app_l in H by lia.
    + by apply lookup_app_l_Some.
Qed.

Lemma aget_amake n v i : 0 <= i < n -> (amake n v).[i] = Some v.
Proof. intros. apply aget_Some. split; [lia|]. apply lookup_replicate. split; [done|lia]. Qed.

(** Two arrays of one length with the same elements are equal. *)
Lemma arr_eq a b : alen a = alen b -> (forall i, 0 <= i < alen a -> a.[i] = b.[i]) -> a = b.
Proof.
  intros Hl H. apply list_eq_same_length with (length a); [unfold alen in Hl; lia|done|].
  intros k x y Hk Hx Hy. apply lookup_lt_Some in Hx as Hkx.
  assert (a.[Z.of_nat k] = Some x) as Ha by (apply aget_Some; rewrite Nat2Z.id; split; [lia|done]).
  assert (b.[Z.of_nat k] = Some y) as Hb by (apply aget_Some; rewrite Nat2Z.id; split; [lia|done]).
  rewrite H in Ha by (unfold alen; lia). congruence.
Qed.
End arrays.

(** A stepped read or write that is known to be in bounds. *)
Ltac aget_ex a i x H := destruct (aget_is_Some a i) as [x H].
Ltac aset_ex a i v x H := destruct (aset_is_Some a i v) as [x H].

(** ** Sums *)

Definition zsum (l : list Z) : Z := foldr Z.add 0 l.

Lemma zsum_app l1 l2 : zsum (l1 ++ l2) = zsum l1 + zsum l2.
Proof. induction l1 as [|x l1 IH]; simpl; [done|]. rewrite IH. lia. Qed.

Lemma zsum_bound (m : Z) l : 0 <= m -> Forall (fun x => 0 <= x <= m) l -> 0 <= zsum l <= m * Z.of_nat (length l).
Proof. intros Hm. induction 1 as [|x l Hx _ IH]; simpl; [lia|]. nia. Qed.
