(* ===== verification/StateM.v ===== *)
(** * Programs that change an object and can fail

    The members of a class that change its fields through many calls are computations of a state monad over [option]: no
    result is undefined behaviour or an uncaught exception. [wp F m Q s] says that [m] run from [s] ends in [Q], or fails
    where [F] holds: total correctness for [F := False], invariants for [F := True]. *)
From S2P Require Import Prelude.

Definition M (S A : Type) : Type := S -> option (S * A).

#[export] Instance M_ret S : MRet (M S) := fun A a s => Some (s, a).
#[export] Instance M_bind S : MBind (M S) := fun A B f m s => match m s with Some (s', a) => f a s' | None => None end.

Section operations.
Context {S : Type}.
Definition gets {A} (f : S -> A) : M S A := fun s => Some (s, f s).
Definition update (f : S -> S) : M S unit := fun s => Some (f s, tt).
Definition lift {A} (o : option A) : M S A := fun s => match o with Some a => Some (s, a) | None => None end.
Definition fail {A} : M S A := fun _ => None.
Definition when (b : bool) (m : M S unit) : M S unit := if b then m else mret tt.
(** [for (x : l) f(x)]. *)
Fixpoint for_each {A} (l : list A) (f : A -> M S unit) : M S unit :=
  match l with [] => mret tt | x :: l => f x;; for_each l f end.
(** A loop whose calls append to one vector. *)
Fixpoint for_append {A B} (l : list A) (f : A -> M S (list B)) : M S (list B) :=
  match l with [] => mret [] | x :: l => es ← f x; es' ← for_append l f; mret (es ++ es') end.
End operations.

Section wp.
Context {S : Type}.
Implicit Types (s : S) (F : Prop).

Definition wp {A} F (m : M S A) (Q : A -> S -> Prop) s : Prop := match m s with Some (s', a) => Q a s' | None => F end.

Lemma wp_ret {A} F (a : A) Q s : Q a s -> wp F (mret a) Q s.
Proof. done. Qed.
Lemma wp_bind {A B} F (m : M S A) (f : A -> M S B) Q s : wp F m (fun a => wp F (f a) Q) s -> wp F (m ≫= f) Q s.
Proof. unfold wp, mbind, M_bind. by destruct (m s) as [[s' a]|]. Qed.
Lemma wp_gets {A} F (f : S -> A) Q s : Q (f s) s -> wp F (gets f) Q s.
Proof. done. Qed.
Lemma wp_update F f Q s : Q tt (f s) -> wp F (update f) Q s.
Proof. done. Qed.
Lemma wp_lift {A} F (o : option A) (Q : A -> S -> Prop) s : (forall a, o = Some a -> Q a s) -> (o = None -> F) -> wp F (lift o) Q s.
Proof. unfold wp, lift. destruct o; auto. Qed.
Lemma wp_mono {A} F (m : M S A) (Q Q' : A -> S -> Prop) s : wp F m Q s -> (forall a s', Q a s' -> Q' a s') -> wp F m Q' s.
Proof. unfold wp. destruct (m s) as [[s' a]|]; auto. Qed.
Lemma wp_when F b m (Q : unit -> S -> Prop) s : (b = true -> wp F m Q s) -> (b = false -> Q tt s) -> wp F (when b m) Q s.
Proof. destruct b; cbn; intros H1 H2; [by apply H1|by apply H2]. Qed.
Lemma wp_if {A} F (b : bool) (m1 m2 : M S A) Q s : (b = true -> wp F m1 Q s) -> (b = false -> wp F m2 Q s) -> wp F (if b then m1 else m2) Q s.
Proof. destruct b; auto. Qed.

Lemma for_each_ext {A} (l : list A) (f g : A -> M S unit) s : (forall x s, x ∈ l -> f x s = g x s) -> for_each l f s = for_each l g s.
Proof.
  revert s. induction l as [|x l IH]; intros s Hf; [done|]. cbn [for_each]. unfold mbind, M_bind. rewrite Hf by set_solver.
  destruct (g x s) as [[s1 ?]|]; [|done]. apply IH. set_solver.
Qed.

Lemma for_each_app {A} (l l' : list A) (f : A -> M S unit) s :
  for_each (l ++ l') f s = match for_each l f s with Some (s', _) => for_each l' f s' | None => None end.
Proof.
  revert s. induction l as [|x l IH]; intros s; [done|]. cbn [app for_each]. unfold mbind, M_bind. destruct (f x s) as [[s1 ?]|]; [apply IH|done].
Qed.

(** A loop keeps what its body keeps. *)
Lemma wp_for_each {A} F (P : S -> Prop) (l : list A) f s :
  (forall x s, x ∈ l -> P s -> wp F (f x) (fun _ => P) s) -> P s -> wp F (for_each l f) (fun _ => P) s.
Proof.
  revert s. induction l as [|x l IH]; intros s Hf Hs; cbn [for_each]; [by apply wp_ret|]. apply wp_bind.
  eapply wp_mono; [apply Hf; [set_solver|done]|]. intros ? s' Hs'. apply IH; [|done]. intros. apply Hf; [set_solver|done].
Qed.
Lemma wp_for_append {A B} F (P : S -> Prop) (l : list A) (f : A -> M S (list B)) s :
  (forall x s, x ∈ l -> P s -> wp F (f x) (fun _ => P) s) -> P s -> wp F (for_append l f) (fun _ => P) s.
Proof.
  revert s. induction l as [|x l IH]; intros s Hf Hs; cbn [for_append]; [by apply wp_ret|]. apply wp_bind.
  eapply wp_mono; [apply Hf; [set_solver|done]|]. intros es s' Hs'. apply wp_bind.
  eapply wp_mono; [apply IH; [|done]; intros; apply Hf; [set_solver|done]|]. intros es' s'' Hs''. by apply wp_ret.
Qed.

Lemma wp_run {A} F (m : M S A) Q s s' a : wp F m Q s -> m s = Some (s', a) -> Q a s'.
Proof. unfold wp. intros H E. by rewrite E in H. Qed.
Lemma wp_total {A} (m : M S A) Q s : wp False m Q s -> exists s' a, m s = Some (s', a) /\ Q a s'.
Proof. unfold wp. destruct (m s) as [[s' a]|]; [eauto|done]. Qed.
End wp.

(** ** Operations that keep an invariant *)

Section keeps.
Context {S : Type} {F : Prop} {P : S -> Prop}.

Definition keeps {A} (m : M S A) : Prop := forall s, P s -> wp F m (fun _ => P) s.
Lemma wp_keeps {A} (m : M S A) (Q : A -> S -> Prop) s : keeps m -> P s -> (forall a s', P s' -> Q a s') -> wp F m Q s.
Proof. intros Hm Hs HQ. eapply wp_mono; [by apply Hm|]. auto. Qed.
Lemma keeps_bind {A B} (m : M S A) (f : A -> M S B) : keeps m -> (forall a, keeps (f a)) -> keeps (m ≫= f).
Proof. intros Hm Hf s Hs. apply wp_bind. eapply wp_keeps; [done..|]. intros a s' Hs'. by apply Hf. Qed.
Lemma keeps_ret {A} (a : A) : keeps (mret a).
Proof. intros s Hs. by apply wp_ret. Qed.
Lemma keeps_when b m : keeps m -> keeps (when b m).
Proof. intros Hm s Hs. apply wp_when; intros _; [by apply Hm|done]. Qed.
Lemma keeps_if {A} (b : bool) (m m' : M S A) : keeps m -> keeps m' -> keeps (if b then m else m').
Proof. by destruct b. Qed.
Lemma keeps_for {A} (l : list A) (f : A -> M S unit) : (forall x, x ∈ l -> keeps (f x)) -> keeps (for_each l f).
Proof. intros Hf s Hs. apply wp_for_each; [|done]. intros x s' Hx Hs'. by apply Hf. Qed.
Lemma keeps_append {A B} (l : list A) (f : A -> M S (list B)) : (forall x, x ∈ l -> keeps (f x)) -> keeps (for_append l f).
Proof. intros Hf s Hs. apply wp_for_append; [|done]. intros x s' Hx Hs'. by apply Hf. Qed.
(** A field is read: what is known of it may be used. *)
Lemma keeps_gets {A B} (f : S -> A) (k : A -> M S B) : (forall s, P s -> wp F (k (f s)) (fun _ => P) s) -> keeps (gets f ≫= k).
Proof. intros Hk s Hs. apply wp_bind, wp_gets. by apply Hk. Qed.
Lemma keeps_fact {A B} (f : S -> A) (R : A -> Prop) (k : A -> M S B) : (forall s, P s -> R (f s)) -> (forall a, R a -> keeps (k a)) -> keeps (gets f ≫= k).
Proof. intros HP Hk. apply keeps_gets. intros s Hs. apply Hk; auto. Qed.
Lemma keeps_read {A B} (f : S -> A) (k : A -> M S B) : (forall a, keeps (k a)) -> keeps (gets f ≫= k).
Proof. intros Hk. apply keeps_gets. intros s Hs. by apply Hk. Qed.
Lemma keeps_lift {A B} (o : option A) a (k : A -> M S B) : o = Some a -> keeps (k a) -> keeps (lift o ≫= k).
Proof. intros -> Hk s Hs. apply wp_bind, wp_lift; [|done]. intros ? [= ->]. by apply Hk. Qed.
Lemma keeps_update f : (forall s, P s -> P (f s)) -> keeps (update f).
Proof. intros Hf s Hs. apply wp_update. auto. Qed.
(** Where failure is allowed. *)
Lemma keeps_try {A B} (o : option A) (k : A -> M S B) : F -> (forall a, o = Some a -> keeps (k a)) -> keeps (lift o ≫= k).
Proof. intros HF Hk s Hs. apply wp_bind, wp_lift; [|done]. intros a Ha. by apply Hk. Qed.
Lemma keeps_fail {A} : F -> keeps (fail (A := A)).
Proof. by intros HF s Hs. Qed.
End keeps.
Arguments keeps {S} F P {A} m.

(** The structure of an operation that keeps an invariant. *)
Ltac keep_step :=
  lazymatch goal with
  | |- keeps _ _ (mret _) => apply keeps_ret
  | |- keeps _ _ (mbind _ (gets _)) => apply keeps_read; intros ?
  | |- keeps _ _ (mbind _ _) => apply keeps_bind; [|intros ?]
  | |- keeps _ _ (when _ _) => apply keeps_when
  | |- keeps _ _ (if _ then _ else _) => apply keeps_if
  end.

(** One step of a computation: the rules in the order of its text. *)
Ltac wp_step :=
  lazymatch goal with
  | |- wp _ (mret _) _ _ => apply wp_ret
  | |- wp _ (mbind _ _) _ _ => apply wp_bind
  | |- wp _ (gets _) _ _ => apply wp_gets
  | |- wp _ (update _) _ _ => apply wp_update
  | |- wp _ (when _ _) _ _ => apply wp_when; intros ?
  | |- wp _ (if _ then _ else _) _ _ => apply wp_if; intros ?
  end.
