(* ===== verification/Bits.v ===== *)
(** * The bit operations of the C++ standard library that the code uses ([<bit>])

    [std::countr_zero], [std::countl_zero], [std::bit_ceil] and [std::rotl] on unsigned words, and the lemmas on
    single bits the bitmap, the index, the journal and the hashes share. *)
From S2P Require Import Prelude.

(** [~0ull]. *)
Definition ones64 : Z := 18446744073709551615.

Fixpoint ctz_pos (p : positive) : Z :=
  match p with
  | xO p => 1 + ctz_pos p
  | _ => 0
  end.

Definition countr_zero (x : Z) : Z := match x with Zpos p => ctz_pos p | _ => 64 end.
Definition countl_zero (x : Z) : Z := match x with Zpos _ => 63 - Z.log2 x | _ => 64 end.
Definition bit_ceil (x : Z) : Z := if x <=? 1 then 1 else 2 ^ Z.log2_up x.
Definition rotl64 (x k : Z) : Z := Z.lor (u64 (Z.shiftl x k)) (Z.shiftr x (64 - k)).

(** ** Shifts and masks as arithmetic *)

Lemma shiftr6 x : Z.shiftr x 6 = x / 64.
Proof. by rewrite Z.shiftr_div_pow2. Qed.
Lemma shiftr12 x : Z.shiftr x 12 = x / 64 / 64.
Proof. rewrite Z.shiftr_div_pow2 by lia. by rewrite Z.div_div. Qed.
Lemma land63 x : Z.land x 63 = x mod 64.
Proof. change 63 with (Z.ones 6). by rewrite Z.land_ones. Qed.

(** Concatenating disjoint bit fields is addition. *)
Lemma lor_shiftl_add a b k : 0 <= k -> 0 <= b < 2 ^ k -> Z.lor (Z.shiftl a k) b = a * 2 ^ k + b.
Proof.
  intros Hk Hb. rewrite Z.shiftl_mul_pow2 by done.
  assert (Z.land (a * 2 ^ k) b = 0) as Hd.
  { apply Z.bits_inj'. intros j Hj. rewrite Z.land_spec, Z.bits_0.
    destruct (Z.lt_ge_cases j k) as [Hjk|Hjk].
    - by rewrite Z.mul_pow2_bits_low.
    - destruct (Z.eq_dec b 0) as [->|]; [by rewrite Z.bits_0, andb_false_r|].
      rewrite (Z.bits_above_log2 b j), andb_false_r; [done|lia|].
      apply Z.log2_lt_pow2; [lia|]. eapply Z.lt_le_trans; [apply Hb|]. by apply Z.pow_le_mono_r. }
  pose proof (Z.add_lor_land (a * 2 ^ k) b). lia.
Qed.

Lemma lor6 a b : 0 <= b < 64 -> Z.lor (Z.shiftl a 6) b = 64 * a + b.
Proof. intros. rewrite lor_shiftl_add by lia. lia. Qed.

(** ** Words as finite sets of bits *)

Lemma testbit_high x k : in_u64 x -> 64 <= k -> Z.testbit x k = false.
Proof.
  words. intros Hx Hk. destruct (Z.eq_dec x 0) as [->|]; [apply Z.bits_0|].
  apply Z.bits_above_log2; [lia|]. apply Z.log2_lt_pow2; [lia|].
  eapply Z.lt_le_trans; [apply Hx|]. change 18446744073709551616 with (2 ^ 64). by apply Z.pow_le_mono_r.
Qed.

Lemma u64_ext x y : in_u64 x -> in_u64 y -> (forall k, 0 <= k < 64 -> Z.testbit x k = Z.testbit y k) -> x = y.
Proof.
  intros Hx Hy H. apply Z.bits_inj'. intros k Hk. destruct (Z.lt_ge_cases k 64).
  - by apply H.
  - by rewrite !testbit_high.
Qed.

Lemma u64_testbit x k : 0 <= k -> Z.testbit (u64 x) k = (k <? 64) && Z.testbit x k.
Proof.
  intros Hk. unfold u64. change 18446744073709551616 with (2 ^ 64).
  destruct (Z.ltb_spec k 64).
  - by rewrite Z.mod_pow2_bits_low.
  - by rewrite Z.mod_pow2_bits_high.
Qed.

Lemma in_u64_bits x : 0 <= x -> (forall k, 64 <= k -> Z.testbit x k = false) -> in_u64 x.
Proof.
  intros H0 H. assert (x = u64 x) as ->; [|apply in_u64_u64].
  apply Z.bits_inj'. intros k Hk. rewrite u64_testbit by done.
  destruct (Z.ltb_spec k 64); [done|]. by rewrite H.
Qed.

Lemma in_u64_lor x y : in_u64 x -> in_u64 y -> in_u64 (Z.lor x y).
Proof.
  intros Hx Hy. apply in_u64_bits; [apply Z.lor_nonneg; words; lia|].
  intros k Hk. by rewrite Z.lor_spec, !testbit_high.
Qed.
Lemma in_u64_land_l x y : in_u64 x -> in_u64 (Z.land x y).
Proof.
  intros Hx. apply in_u64_bits; [apply Z.land_nonneg; words; lia|].
  intros k Hk. by rewrite Z.land_spec, testbit_high.
Qed.
Lemma in_u64_lxor x y : in_u64 x -> in_u64 y -> in_u64 (Z.lxor x y).
Proof.
  intros Hx Hy. apply in_u64_bits; [apply Z.lxor_nonneg; words; lia|].
  intros k Hk. by rewrite Z.lxor_spec, !testbit_high.
Qed.
Lemma in_u64_shiftr x k : in_u64 x -> 0 <= k -> in_u64 (Z.shiftr x k).
Proof.
  intros Hx Hk. apply in_u64_bits; [apply Z.shiftr_nonneg; words; lia|].
  intros j Hj. rewrite Z.shiftr_spec by lia. by rewrite testbit_high by (done || lia).
Qed.
Lemma in_u64_ones64 : in_u64 ones64.
Proof. unfold in_u64, ones64. lia. Qed.
#[export] Hint Resolve in_u64_ones64 in_u64_lor in_u64_land_l in_u64_lxor in_u64_shiftr : exsim.

Lemma testbit_one_shift k j : 0 <= k -> Z.testbit (Z.shiftl 1 k) j = (j =? k).
Proof.
  intros Hk. rewrite Z.shiftl_1_l. destruct (Z.eqb_spec j k) as [->|].
  - by apply Z.pow2_bits_true.
  - apply Z.pow2_bits_false. done.
Qed.

Lemma testbit_ones64 j : 0 <= j < 64 -> Z.testbit ones64 j = true.
Proof. intros. change ones64 with (Z.ones 64). by apply Z.ones_spec_low. Qed.

Lemma nonzero_bit x : in_u64 x -> x <> 0 -> exists k, 0 <= k < 64 /\ Z.testbit x k = true.
Proof.
  intros Hx Hn. exists (Z.log2 x). split.
  - split; [apply Z.log2_nonneg|]. apply Z.log2_lt_pow2; [words; lia|]. apply Hx.
  - apply Z.bit_log2. words. lia.
Qed.

Lemma zero_no_bits x : in_u64 x -> (forall k, 0 <= k < 64 -> Z.testbit x k = false) -> x = 0.
Proof.
  intros Hx H. apply u64_ext; [done|words; lia|]. intros k Hk. by rewrite H, Z.bits_0.
Qed.

(** ** [countr_zero] and [countl_zero] find the lowest and the highest set bit *)

Lemma ctz_pos_spec p :
  0 <= ctz_pos p /\ Z.testbit (Zpos p) (ctz_pos p) = true /\
  (forall j, 0 <= j < ctz_pos p -> Z.testbit (Zpos p) j = false).
Proof.
  induction p as [p IH|p IH|]; cbn [ctz_pos]; [split_and!; [lia|done|lia]| |split_and!; [lia|done|lia]].
  destruct IH as (H0 & H1 & H2). change (Zpos p~0) with (2 * Zpos p). split_and!.
  - lia.
  - by rewrite Z.add_1_l, Z.testbit_even_succ.
  - intros j Hj. destruct (Z.eq_dec j 0) as [->|]; [by rewrite Z.testbit_even_0|].
    replace j with (Z.succ (j - 1)) by lia. rewrite Z.testbit_even_succ by lia. apply H2. lia.
Qed.

Lemma countr_zero_spec x : in_u64 x -> x <> 0 ->
  0 <= countr_zero x < 64 /\ Z.testbit x (countr_zero x) = true /\
  (forall j, 0 <= j < countr_zero x -> Z.testbit x j = false).
Proof.
  intros Hx Hn. destruct x as [|p|p]; [done| |words; lia].
  destruct (ctz_pos_spec p) as (H0 & H1 & H2). simpl countr_zero. split_and!; [done| |done|done].
  destruct (Z.lt_ge_cases (ctz_pos p) 64); [done|]. by rewrite testbit_high in H1.
Qed.

Lemma countl_zero_spec x : in_u64 x -> x <> 0 ->
  0 <= 63 - countl_zero x < 64 /\ Z.testbit x (63 - countl_zero x) = true /\
  (forall j, 63 - countl_zero x < j -> Z.testbit x j = false).
Proof.
  intros Hx Hn. destruct x as [|p|p]; [done| |words; lia].
  unfold countl_zero. replace (63 - (63 - Z.log2 (Z.pos p))) with (Z.log2 (Z.pos p)) by lia. split_and!.
  - apply Z.log2_nonneg.
  - apply Z.log2_lt_pow2; [lia|]. apply Hx.
  - by apply Z.bit_log2.
  - intros j Hj. by apply Z.bits_above_log2.
Qed.

Lemma mod_ne a b c : 0 < a - b < c -> a mod c <> b mod c.
Proof.
  intros Hab E. assert (0 < c) by lia. pose proof (Z.div_mod a c ltac:(lia)) as Ha. pose proof (Z.div_mod b c ltac:(lia)) as Hb.
  assert (a - b = c * (a / c - b / c)) as Hd by lia.
  destruct (Z.le_gt_cases (a / c - b / c) 0); [|assert (1 <= a / c - b / c) by lia]; nia.
Qed.

(** The mask of a power of two is the remainder, whatever the wrapping of the counter. *)
Lemma u64_land_mask X k : 0 <= k <= 64 -> Z.land (u64 X) (2 ^ k - 1) = X mod 2 ^ k.
Proof.
  intros Hk. replace (2 ^ k - 1) with (Z.ones k) by (rewrite Z.ones_equiv; lia). rewrite Z.land_ones by lia. unfold u64.
  change 18446744073709551616 with (2 ^ 64). replace (2 ^ 64) with (2 ^ k * 2 ^ (64 - k)) by (rewrite <- Z.pow_add_r; [f_equal; lia|lia..]).
  rewrite Z.rem_mul_r by (apply Z.pow_nonzero || apply Z.pow_pos_nonneg; lia).
  rewrite (Z.mul_comm (2 ^ k)), Z.mod_add, Z.mod_mod; [done|apply Z.pow_nonzero; lia..].
Qed.

