(* ===== verification/Bytes.v ===== *)
(** * Little-endian bytes and packed structures

    The formats of the program are packed little-endian structures read and written with [memcpy]: a structure is the
    list of its fields' widths in bytes. A byte is an integer in [[0, 256)]. *)
From S2P Require Import Prelude.

Definition bytes (l : list Z) : Prop := Forall in_u8 l.

(** The [n] little-endian bytes of [x], and the integer they hold. *)
Fixpoint le (n : nat) (x : Z) : list Z :=
  match n with O => [] | S n => u8 x :: le n (x / 256) end.
Fixpoint of_le (l : list Z) : Z :=
  match l with [] => 0 | b :: l => b + 256 * of_le l end.

(** [memcpy] of a packed structure with fields of the given widths: to and from memory. *)
Fixpoint pack (fs : list (nat * Z)) : list Z :=
  match fs with [] => [] | (n, x) :: fs => le n x ++ pack fs end.
Fixpoint unpack (ws : list nat) (l : list Z) : list Z :=
  match ws with [] => [] | n :: ws => of_le (take n l) :: unpack ws (drop n l) end.

Definition fits (f : nat * Z) : Prop := 0 <= f.2 < 256 ^ Z.of_nat f.1.

Lemma length_le n x : length (le n x) = n.
Proof. revert x. induction n as [|n IH]; intros x; simpl; [done|]. by rewrite IH. Qed.

Lemma bytes_le n x : bytes (le n x).
Proof. revert x. induction n as [|n IH]; intros x; constructor; [apply in_u8_u8|apply IH]. Qed.

Lemma of_le_le n x : of_le (le n x) = x mod 256 ^ Z.of_nat n.
Proof.
  revert x. induction n as [|n IH]; intros x; [by rewrite Z.mod_1_r|].
  rewrite Nat2Z.inj_succ, Z.pow_succ_r by lia. simpl. rewrite IH. unfold u8.
  pose proof (Z.pow_pos_nonneg 256 (Z.of_nat n)). rewrite Z.rem_mul_r by lia. done.
Qed.

Lemma le_of_le l : bytes l -> le (length l) (of_le l) = l.
Proof.
  induction 1 as [|b l Hb _ IH]; simpl; [done|]. unfold in_u8 in Hb.
  assert (u8 (b + 256 * of_le l) = b) as -> by (unfold u8; divmod).
  assert ((b + 256 * of_le l) / 256 = of_le l) as -> by divmod. by rewrite IH.
Qed.

Lemma of_le_bound l : bytes l -> 0 <= of_le l < 256 ^ Z.of_nat (length l).
Proof.
  induction 1 as [|b l Hb _ IH]; simpl length; [simpl; lia|]. rewrite Nat2Z.inj_succ, Z.pow_succ_r by lia.
  unfold in_u8 in Hb. simpl. lia.
Qed.

Lemma bytes_app l1 l2 : bytes (l1 ++ l2) <-> bytes l1 /\ bytes l2.
Proof. apply Forall_app. Qed.
Lemma bytes_take n l : bytes l -> bytes (take n l).
Proof. apply Forall_take. Qed.
Lemma bytes_drop n l : bytes l -> bytes (drop n l).
Proof. apply Forall_drop. Qed.

Lemma bytes_pack fs : bytes (pack fs).
Proof. induction fs as [|[n x] fs IH]; [constructor|]. apply bytes_app. split; [apply bytes_le|done]. Qed.

Lemma length_pack fs : length (pack fs) = sum_list (fst <$> fs).
Proof. induction fs as [|[n x] fs IH]; simpl; [done|]. by rewrite length_app, length_le, IH. Qed.

(** What was packed is read back, whatever follows it in memory. *)
Lemma unpack_pack fs rest : Forall fits fs -> unpack (fst <$> fs) (pack fs ++ rest) = snd <$> fs.
Proof.
  induction 1 as [|[n x] fs Hx _ IH]; simpl; [done|]. rewrite <- app_assoc.
  rewrite take_app_length' by (by rewrite length_le). rewrite drop_app_length' by (by rewrite length_le).
  unfold fits in Hx. simpl in Hx. rewrite of_le_le, Z.mod_small by done. f_equal. exact IH.
Qed.

(** What is read, packed again, is what was there. *)
Lemma pack_unpack ws l : bytes l -> (sum_list ws <= length l)%nat -> pack (zip ws (unpack ws l)) = take (sum_list ws) l.
Proof.
  revert l. induction ws as [|n ws IH]; intros l Hl Hn; simpl in *; [done|].
  rewrite IH; [|by apply bytes_drop|rewrite length_drop; lia].
  replace n with (length (take n l)) at 1 by (rewrite length_take; lia). rewrite le_of_le by (by apply bytes_take).
  by rewrite take_take_drop.
Qed.

Lemma unpack_bound ws l : bytes l -> (sum_list ws <= length l)%nat -> Forall fits (zip ws (unpack ws l)).
Proof.
  revert l. induction ws as [|n ws IH]; intros l Hl Hn; simpl in *; [constructor|]. constructor.
  - unfold fits. simpl. pose proof (of_le_bound _ (bytes_take n l Hl)) as Hb. rewrite length_take in Hb.
    by replace (n `min` length l)%nat with n in Hb by lia.
  - apply IH; [by apply bytes_drop|]. rewrite length_drop. lia.
Qed.

Lemma unpack_app ws l1 l2 : (sum_list ws <= length l1)%nat -> unpack ws (l1 ++ l2) = unpack ws l1.
Proof.
  revert l1. induction ws as [|n ws IH]; intros l1 Hn; simpl in *; [done|].
  rewrite take_app_le, drop_app_le by lia. rewrite IH; [done|]. rewrite length_drop. lia.
Qed.

Lemma unpack_prefix ws1 ws2 l : unpack ws1 l = take (length ws1) (unpack (ws1 ++ ws2) l).
Proof. revert l. induction ws1 as [|n ws1 IH]; intros l; simpl; [done|]. by rewrite <- IH. Qed.

Lemma length_unpack ws l : length (unpack ws l) = length ws.
Proof. revert l. induction ws as [|n ws IH]; intros l; simpl; [done|]. by rewrite IH. Qed.

(** A signed 64-bit field is its two's complement pattern. *)
Lemma i64_u64 x : in_i64 x -> i64 (u64 x) = x.
Proof. words. intros. divmod. Qed.
Lemma u64_i64 x : in_u64 x -> u64 (i64 x) = x.
Proof. words. intros. divmod. Qed.

(** Splits a list of known length into its elements. *)
Ltac explode v H :=
  lazymatch type of H with
  | length v = S _ => destruct v as [|? v]; [discriminate H|]; apply (f_equal pred) in H; cbn [length pred] in H; explode v H
  | length v = O => apply nil_length_inv in H; subst v
  end.
(** The fields of the packed structure that [unpack ws p] reads, as variables. *)
Ltac read_fields ws p :=
  let H := fresh in let v := fresh "v" in
  pose proof (length_unpack ws p) as H; let n := eval vm_compute in (length ws) in change (length ws) with n in H; set (v := unpack ws p) in *; clearbody v; explode v H.
(** Their bounds. *)
Ltac fields :=
  repeat match goal with H : Forall fits (_ :: _) |- _ => apply Forall_cons in H as [? H] | H : fits _ |- _ => unfold fits in H; simpl in H end.
