(* ===== verification/Common.v ===== *)
(** * Core domain types (common.hpp)

    Identifiers, prices and quantities are integers of the widths the code gives them: [OrderId], [Qty] 64-bit
    unsigned, [Price] 64-bit signed, [SymbolId], [OwnerId], store slots 32-bit unsigned. *)
From S2P Require Import Prelude.

(** The null slot, [0xFFFF'FFFF]. *)
Definition kNil : Z := 4294967295.

Inductive Side := Buy | Sell.
Inductive OrdType := Limit | Market.
Inductive Tif := Day | Ioc | Fok.
Inductive MsgType := NewOrder | Cancel | Modify.
Inductive Stp := StpNone | CancelResting | CancelIncoming | DecrementCancel.
Inductive EventType := Accepted | Rejected | Trade | Canceled | Modified.
Inductive Reason :=
  | NoReason | InvalidOrderId | InvalidQty | InvalidPrice | DuplicateOrderId | UnknownOrder | UnknownSymbol
  | WouldCross | BookFull | UserCanceled | IocExpired | FokUnfilled | SelfTrade
  | RiskMaxQty | RiskMaxNotional | RiskCollar | RiskRateLimit | RiskHalted | UnknownOwner.

#[export] Instance Side_eq_dec : EqDecision Side.
Proof. solve_decision. Defined.
#[export] Instance OrdType_eq_dec : EqDecision OrdType.
Proof. solve_decision. Defined.
#[export] Instance Tif_eq_dec : EqDecision Tif.
Proof. solve_decision. Defined.
#[export] Instance MsgType_eq_dec : EqDecision MsgType.
Proof. solve_decision. Defined.
#[export] Instance Stp_eq_dec : EqDecision Stp.
Proof. solve_decision. Defined.
#[export] Instance EventType_eq_dec : EqDecision EventType.
Proof. solve_decision. Defined.
#[export] Instance Reason_eq_dec : EqDecision Reason.
Proof. solve_decision. Defined.

(** The underlying values of the enumerations. *)
Definition Side_to_Z (s : Side) : Z := match s with Buy => 0 | Sell => 1 end.
Definition OrdType_to_Z (o : OrdType) : Z := match o with Limit => 0 | Market => 1 end.
Definition Tif_to_Z (t : Tif) : Z := match t with Day => 0 | Ioc => 1 | Fok => 2 end.
Definition MsgType_to_Z (m : MsgType) : Z := match m with NewOrder => 1 | Cancel => 2 | Modify => 3 end.
Definition Stp_to_Z (s : Stp) : Z :=
  match s with StpNone => 0 | CancelResting => 1 | CancelIncoming => 2 | DecrementCancel => 3 end.
Definition EventType_to_Z (e : EventType) : Z :=
  match e with Accepted => 1 | Rejected => 2 | Trade => 3 | Canceled => 4 | Modified => 5 end.
Definition Reason_to_Z (r : Reason) : Z :=
  match r with
  | NoReason => 0 | InvalidOrderId => 1 | InvalidQty => 2 | InvalidPrice => 3 | DuplicateOrderId => 4
  | UnknownOrder => 5 | UnknownSymbol => 6 | WouldCross => 7 | BookFull => 8 | UserCanceled => 9
  | IocExpired => 10 | FokUnfilled => 11 | SelfTrade => 12 | RiskMaxQty => 13 | RiskMaxNotional => 14
  | RiskCollar => 15 | RiskRateLimit => 16 | RiskHalted => 17 | UnknownOwner => 18
  end.

Definition kFlagPostOnly : Z := 1.
Definition kStpShift : Z := 1.
Definition kStpMask : Z := 6.

Definition stp_flag (s : Stp) : Z := u8 (Z.shiftl (Stp_to_Z s) kStpShift).

(** [static_cast<Stp>(v)] for the two-bit values that reach it. *)
Definition Stp_of_Z (v : Z) : Stp :=
  if v =? 1 then CancelResting else if v =? 2 then CancelIncoming else if v =? 3 then DecrementCancel else StpNone.

Definition effective_stp (flags : Z) (book_default : Stp) : Stp :=
  let v := Z.shiftr (Z.land flags kStpMask) kStpShift in
  if negb (v =? 0) then Stp_of_Z v else book_default.

Definition opposite (s : Side) : Side := match s with Buy => Sell | Sell => Buy end.

(** A decoded inbound request. *)
Record Command := mkCommand {
  c_order_id : Z;
  c_price : Z;
  c_seq : Z;
  c_ts : Z;
  c_qty : Z;
  c_owner : Z;
  c_symbol : Z;
  c_type : MsgType;
  c_side : Side;
  c_ord_type : OrdType;
  c_tif : Tif;
  c_flags : Z;
}.

(** An outbound execution event. The byte that [Event{}] zero-initialises in the [request] field is no
    enumerator of [MsgType], hence the option. *)
Record Event := mkEvent {
  e_order_id : Z;
  e_maker_id : Z;
  e_price : Z;
  e_qty : Z;
  e_leaves : Z;
  e_symbol : Z;
  e_type : EventType;
  e_reason : Reason;
  e_side : Side;
  e_request : option MsgType;
}.

#[export] Instance Command_eq_dec : EqDecision Command.
Proof. solve_decision. Defined.
#[export] Instance Event_eq_dec : EqDecision Event.
Proof. solve_decision. Defined.

Definition accepted_event (sym id : Z) (side : Side) (px qty : Z) : Event :=
  mkEvent id 0 px qty 0 sym Accepted NoReason side None.

Definition rejected_event (c : Command) (r : Reason) : Event :=
  mkEvent (c_order_id c) 0 0 0 0 (c_symbol c) Rejected r (c_side c) (Some (c_type c)).

Definition trade_event (sym taker maker : Z) (taker_side : Side) (px qty maker_leaves : Z) : Event :=
  mkEvent taker maker px qty maker_leaves sym Trade NoReason taker_side None.

Definition canceled_event (sym id : Z) (side : Side) (px qty : Z) (r : Reason) : Event :=
  mkEvent id 0 px qty 0 sym Canceled r side None.

Definition modified_event (sym id : Z) (side : Side) (px qty : Z) : Event :=
  mkEvent id 0 px qty 0 sym Modified NoReason side None.

(** Decrement-and-cancel self-trade prevention reduced an order to [new_qty] without a trade. *)
Definition stp_decrement_event (sym id : Z) (side : Side) (px new_qty : Z) : Event :=
  mkEvent id 0 px new_qty 0 sym Modified SelfTrade side None.

Record BookConfig := mkBookConfig {
  cfg_min_price : Z;
  cfg_num_levels : Z;
  cfg_max_orders : Z;
  cfg_stp : Stp;
}.

Record OrderView := mkOrderView { v_price : Z; v_qty : Z; v_side : Side; v_owner : Z }.
#[export] Instance OrderView_eq_dec : EqDecision OrderView.
Proof. solve_decision. Defined.

(** The values a [Command] object can hold. *)
Definition command_wf (c : Command) : Prop :=
  in_u64 (c_order_id c) /\ in_i64 (c_price c) /\ in_u64 (c_seq c) /\ in_u64 (c_ts c) /\ in_u64 (c_qty c) /\
  in_u32 (c_owner c) /\ in_u32 (c_symbol c) /\ in_u8 (c_flags c).

Lemma opposite_involutive s : opposite (opposite s) = s.
Proof. by destruct s. Qed.

(** The self-trade mode an order asks for is the one the book applies to it. *)
Lemma effective_stp_flag s d : s <> StpNone -> effective_stp (stp_flag s) d = s.
Proof. by destruct s, d. Qed.

Lemma effective_stp_default d : effective_stp 0 d = d.
Proof. by destruct d. Qed.
