(* ===== verification/Protocol.v ===== *)
(** * The binary order-entry protocol (protocol.hpp, wire_file.hpp)

    The codec of commands and execution reports, and captures of whole message streams. *)
From S2P Require Import Prelude Bytes Common.

Module Wire.

Definition kVersion : Z := 1.
Definition kReportType : Z := 16.
Definition kReportDone : Z := 255.

(** Field widths of the packed structures. *)
Definition header_ws : list nat := [2; 1; 1; 4; 8]%nat.
Definition new_order_ws : list nat := header_ws ++ [8; 8; 8; 4; 1; 1; 1; 1]%nat.
Definition cancel_ws : list nat := header_ws ++ [8]%nat.
Definition modify_ws : list nat := header_ws ++ [8; 8; 8]%nat.
Definition report_ws : list nat := header_ws ++ [8; 8; 8; 8; 8; 1; 1; 1; 1; 4]%nat.

Definition sizeof (ws : list nat) : Z := Z.of_nat (sum_list ws).
Definition kHeaderSize : Z := sizeof header_ws.
Definition kMaxMessageSize : Z := sizeof new_order_ws.
Definition kReportSize : Z := sizeof report_ws.

(** ** Commands *)

Inductive DecodeStatus := Ok | Incomplete | Malformed.
#[export] Instance DecodeStatus_eq_dec : EqDecision DecodeStatus.
Proof. solve_decision. Defined.

Record DecodeResult := mkResult { status : DecodeStatus; consumed : Z; decoded : option Command }.

Definition Side_of_byte (b : Z) : Side := if b =? 0 then Buy else Sell.
Definition OrdType_of_byte (b : Z) : OrdType := if b =? 0 then Limit else Market.
Definition Tif_of_byte (b : Z) : Tif := if b =? 0 then Day else if b =? 1 then Ioc else Fok.

(** The message bodies, after their headers: the fields past the first five. *)
Definition decode_body (p : list Z) (len type symbol seq : Z) : option Command :=
  if type =? MsgType_to_Z NewOrder then
    if negb (len =? sizeof new_order_ws) then None else
    match unpack new_order_ws p with
    | [_; _; _; _; _; order_id; price; qty; owner; side; ord_type; tif; flags] =>
        if (1 <? side) || (1 <? ord_type) || (2 <? tif) then None else
        Some (mkCommand order_id (i64 price) seq 0 qty owner symbol NewOrder (Side_of_byte side) (OrdType_of_byte ord_type)
          (Tif_of_byte tif) flags)
    | _ => None
    end
  else if type =? MsgType_to_Z Cancel then
    if negb (len =? sizeof cancel_ws) then None else
    match unpack cancel_ws p with
    | [_; _; _; _; _; order_id] => Some (mkCommand order_id 0 seq 0 0 0 symbol Cancel Buy Limit Day 0)
    | _ => None
    end
  else if type =? MsgType_to_Z Modify then
    if negb (len =? sizeof modify_ws) then None else
    match unpack modify_ws p with
    | [_; _; _; _; _; order_id; price; qty] => Some (mkCommand order_id (i64 price) seq 0 qty 0 symbol Modify Buy Limit Day 0)
    | _ => None
    end
  else None.

(** [decode(p, avail, out)], with [avail] the length of [p]; [decoded] is [out] where the status is [Ok]. *)
Definition decode (p : list Z) : DecodeResult :=
  if alen p <? kHeaderSize then mkResult Incomplete 0 None else
  match unpack header_ws p with
  | [len; type; version; symbol; seq] =>
      if len <? kHeaderSize then mkResult Malformed 0 None else
      if alen p <? len then mkResult Incomplete 0 None else
      if negb (version =? kVersion) then mkResult Malformed len None else
      match decode_body p len type symbol seq with
      | Some c => mkResult Ok len (Some c)
      | None => mkResult Malformed len None
      end
  | _ => mkResult Malformed 0 None
  end.

Definition header (ws : list nat) (type symbol seq : Z) : list Z := [u16 (sizeof ws); type; kVersion; symbol; seq].

(** The fields [encode] writes, with their widths. *)
Definition encode_fields (c : Command) : list (nat * Z) :=
  match c_type c with
  | NewOrder => zip new_order_ws (header new_order_ws (MsgType_to_Z NewOrder) (c_symbol c) (c_seq c) ++
      [c_order_id c; u64 (c_price c); c_qty c; c_owner c; Side_to_Z (c_side c); OrdType_to_Z (c_ord_type c); Tif_to_Z (c_tif c);
       c_flags c])
  | Cancel => zip cancel_ws (header cancel_ws (MsgType_to_Z Cancel) (c_symbol c) (c_seq c) ++ [c_order_id c])
  | Modify => zip modify_ws (header modify_ws (MsgType_to_Z Modify) (c_symbol c) (c_seq c) ++
      [c_order_id c; u64 (c_price c); c_qty c])
  end.
Definition encode (c : Command) : list Z := pack (encode_fields c).

(** What the wire carries of a command. *)
Definition wire_view (c : Command) : Command :=
  match c_type c with
  | NewOrder => mkCommand (c_order_id c) (c_price c) (c_seq c) 0 (c_qty c) (c_owner c) (c_symbol c) NewOrder (c_side c)
      (c_ord_type c) (c_tif c) (c_flags c)
  | Cancel => mkCommand (c_order_id c) 0 (c_seq c) 0 0 0 (c_symbol c) Cancel Buy Limit Day 0
  | Modify => mkCommand (c_order_id c) (c_price c) (c_seq c) 0 (c_qty c) 0 (c_symbol c) Modify Buy Limit Day 0
  end.

(** ** Execution reports *)

Record ExecReport := mkReport {
  x_symbol : Z; x_seq : Z; x_order_id : Z; x_maker_id : Z; x_price : Z; x_qty : Z; x_leaves : Z;
  x_event_type : Z; x_reason : Z; x_side : Z; x_request : Z;
}.

Definition report_fields (r : ExecReport) : list (nat * Z) :=
  zip report_ws (header report_ws kReportType (x_symbol r) (x_seq r) ++
    [x_order_id r; x_maker_id r; u64 (x_price r); x_qty r; x_leaves r; x_event_type r; x_reason r; x_side r; x_request r; 0]).
Definition request_byte (m : option MsgType) : Z := match m with None => 0 | Some m => MsgType_to_Z m end.
Definition report_of (e : Event) (client_seq : Z) : ExecReport :=
  mkReport (e_symbol e) client_seq (e_order_id e) (e_maker_id e) (e_price e) (e_qty e) (e_leaves e)
    (EventType_to_Z (e_type e)) (Reason_to_Z (e_reason e)) (Side_to_Z (e_side e)) (request_byte (e_request e)).
Definition encode_report (e : Event) (client_seq : Z) : list Z := pack (report_fields (report_of e client_seq)).
Definition encode_done (symbol client_seq : Z) : list Z :=
  pack (report_fields (mkReport symbol client_seq 0 0 0 0 0 kReportDone 0 0 0)).

(** The client's [memcpy] of a report. *)
Definition read_report (p : list Z) : option ExecReport :=
  if alen p <? kReportSize then None else
  match unpack report_ws p with
  | [_; _; _; symbol; seq; order_id; maker_id; price; qty; leaves; event_type; reason; side; request; _] =>
      Some (mkReport symbol seq order_id maker_id (i64 price) qty leaves event_type reason side request)
  | _ => None
  end.

Definition EventType_of_byte (b : Z) : option EventType :=
  if b =? 1 then Some Accepted else if b =? 2 then Some Rejected else if b =? 3 then Some Trade
  else if b =? 4 then Some Canceled else if b =? 5 then Some Modified else None.
Definition reasons : list Reason :=
  [NoReason; InvalidOrderId; InvalidQty; InvalidPrice; DuplicateOrderId; UnknownOrder; UnknownSymbol; WouldCross; BookFull;
   UserCanceled; IocExpired; FokUnfilled; SelfTrade; RiskMaxQty; RiskMaxNotional; RiskCollar; RiskRateLimit; RiskHalted;
   UnknownOwner].
Definition MsgType_of_byte (b : Z) : option (option MsgType) :=
  if b =? 0 then Some None else if b =? 1 then Some (Some NewOrder) else if b =? 2 then Some (Some Cancel)
  else if b =? 3 then Some (Some Modify) else None.

(** [report_to_event]: no event for a Done marker. The casts of the code give a value for any byte; a report with a byte
    that names no enumerator has no [Event] here ([Unnamed]). *)
Inductive ReportEvent := Done | Unnamed | EventOf (e : Event).
Definition report_to_event (r : ExecReport) : ReportEvent :=
  if x_event_type r =? kReportDone then Done else
  match EventType_of_byte (x_event_type r), reasons.[x_reason r], MsgType_of_byte (x_request r) with
  | Some t, Some why, Some req =>
      if 1 <? x_side r then Unnamed else
      EventOf (mkEvent (x_order_id r) (x_maker_id r) (x_price r) (x_qty r) (x_leaves r) (x_symbol r) t why
        (Side_of_byte (x_side r)) req)
  | _, _, _ => Unnamed
  end.

(** The values an [Event] object can hold. *)
Definition event_wf (e : Event) : Prop :=
  in_u64 (e_order_id e) /\ in_u64 (e_maker_id e) /\ in_i64 (e_price e) /\ in_u64 (e_qty e) /\ in_u64 (e_leaves e) /\
  in_u32 (e_symbol e).

(** ** Captures *)

Definition encode_stream (cmds : list Command) : list Z := c ← cmds; encode c.

Record DecodeStats := mkStats { st_ok : Z; st_malformed : Z; st_truncated : bool }.

(** The loop of [decode_stream]; [fuel] bounds the messages, each of at least one byte. *)
Fixpoint decode_loop (fuel : nat) (buf : list Z) (st : DecodeStats) : option (list Command * DecodeStats) :=
  match fuel with
  | O => None
  | S fuel =>
      match buf with
      | [] => Some ([], st)
      | _ =>
          let r := decode buf in
          match status r, decoded r with
          | Ok, Some c =>
              '(out, st) ← decode_loop fuel (drop (Z.to_nat (consumed r)) buf) (mkStats (st_ok st + 1) (st_malformed st) (st_truncated st));
              Some (c :: out, st)
          | Malformed, _ =>
              if negb (consumed r =? 0) then
                decode_loop fuel (drop (Z.to_nat (consumed r)) buf) (mkStats (st_ok st) (st_malformed st + 1) (st_truncated st))
              else Some ([], mkStats (st_ok st) (st_malformed st) true)
          | _, _ => Some ([], mkStats (st_ok st) (st_malformed st) true)
          end
      end
  end.
Definition decode_stream (buf : list Z) : option (list Command * DecodeStats) :=
  decode_loop (S (length buf)) buf (mkStats 0 0 false).

(** ** The codec's laws *)

Ltac fits_all :=
  repeat (apply Forall_cons; split; [unfold fits, kVersion, kReportType, kReportDone; simpl; words; try divmod|]); try by apply Forall_nil.

Lemma encode_fits c : command_wf c -> Forall fits (encode_fields c).
Proof.
  intros (? & ? & ? & ? & ? & ? & ? & ?). unfold encode_fields, header.
  destruct (c_type c); cbn [zip_with app header_ws new_order_ws cancel_ws modify_ws]; fits_all.
  - by destruct (c_side c); simpl; lia.
  - by destruct (c_ord_type c); simpl; lia.
  - by destruct (c_tif c); simpl; lia.
Qed.

Definition type_ws (m : MsgType) : list nat := match m with NewOrder => new_order_ws | Cancel => cancel_ws | Modify => modify_ws end.

Lemma encode_ws c : fst <$> encode_fields c = type_ws (c_type c).
Proof. unfold encode_fields. by destruct (c_type c). Qed.

Lemma length_encode c : alen (encode c) = sizeof (type_ws (c_type c)).
Proof. unfold alen, encode, sizeof. by rewrite length_pack, encode_ws. Qed.

Lemma type_ws_header m : exists ws, type_ws m = header_ws ++ ws.
Proof. destruct m; eexists; reflexivity. Qed.

Lemma decode_good p len type symbol seq c : 16 <= len <= alen p ->
  unpack header_ws p = [len; type; kVersion; symbol; seq] -> decode_body p len type symbol seq = Some c ->
  decode p = mkResult Ok len (Some c).
Proof.
  intros Hl Hh Hb. unfold decode. change kHeaderSize with 16. rewrite Hh, Hb, !(proj2 (Z.ltb_ge _ _)) by lia. done.
Qed.

Lemma decode_encode c rest : command_wf c ->
  decode (encode c ++ rest) = mkResult Ok (alen (encode c)) (Some (wire_view c)).
Proof.
  intros Hc. pose proof (unpack_pack (encode_fields c) rest (encode_fits c Hc)) as Hu. rewrite encode_ws in Hu.
  fold (encode c) in Hu. destruct (type_ws_header (c_type c)) as [ws Hws].
  assert (unpack header_ws (encode c ++ rest) = take 5 (snd <$> encode_fields c)) as Hh by (by rewrite <- Hu, (unpack_prefix _ ws), <- Hws).
  pose proof (length_encode c) as Hl.
  assert (alen (encode c ++ rest) = alen (encode c) + alen rest) as Ha by (unfold alen; rewrite length_app; lia).
  pose proof (alen_nonneg rest). destruct Hc as (_ & Hpx & _). pose proof (i64_u64 _ Hpx) as Hi.
  apply (decode_good _ _ (MsgType_to_Z (c_type c)) (c_symbol c) (c_seq c)).
  - rewrite Ha, Hl. destruct (c_type c); unfold sizeof; simpl; lia.
  - rewrite Hh, Hl. unfold encode_fields. by destruct (c_type c).
  - rewrite Hl. unfold decode_body, wire_view. unfold encode_fields in Hu. destruct (c_type c); cbn [type_ws] in *;
      rewrite Z.eqb_refl; cbn [negb MsgType_to_Z Z.eqb Pos.eqb]; rewrite Hu; simpl; rewrite ?Hi; [|done..].
    by destruct (c_side c), (c_ord_type c), (c_tif c).
Qed.

(** Every outcome of [decode], by the header. *)
Lemma decode_cases p :
  (alen p < 16 /\ decode p = mkResult Incomplete 0 None) \/
  exists len type version symbol seq, unpack header_ws p = [len; type; version; symbol; seq] /\ 16 <= alen p /\
    ((len < 16 /\ decode p = mkResult Malformed 0 None) \/
     (16 <= len /\ alen p < len /\ decode p = mkResult Incomplete 0 None) \/
     (16 <= len <= alen p /\ version = kVersion /\ exists c, decode_body p len type symbol seq = Some c /\
        decode p = mkResult Ok len (Some c)) \/
     (16 <= len <= alen p /\ decode p = mkResult Malformed len None)).
Proof.
  unfold decode. change kHeaderSize with 16. destruct (Z.ltb_spec (alen p) 16); [by left|right].
  pose proof (length_unpack header_ws p) as Hl. destruct (unpack header_ws p) as [|len [|type [|version [|symbol [|seq [|]]]]]] eqn:Hu; try done.
  exists len, type, version, symbol, seq. split; [done|]. split; [done|].
  destruct (Z.ltb_spec len 16); [by left|]. destruct (Z.ltb_spec (alen p) len); [by right; left|]. right. right.
  destruct (Z.eqb_spec version kVersion); simpl; [|by right]. destruct (decode_body p len type symbol seq) as [c|] eqn:Hb; [left|by right].
  split; [done|]. split; [done|]. eauto.
Qed.

Lemma zip_take5 ws p a b c d e : unpack header_ws p = [a; b; c; d; e] -> take 5 (unpack (header_ws ++ ws) p) = [a; b; c; d; e].
Proof. intros H. by rewrite <- H, (unpack_prefix header_ws ws). Qed.

Lemma side_byte b : 0 <= b <= 1 -> Side_to_Z (Side_of_byte b) = b.
Proof. intros. unfold Side_of_byte. destruct (Z.eqb_spec b 0); simpl; lia. Qed.
Lemma ord_type_byte b : 0 <= b <= 1 -> OrdType_to_Z (OrdType_of_byte b) = b.
Proof. intros. unfold OrdType_of_byte. destruct (Z.eqb_spec b 0); simpl; lia. Qed.
Lemma tif_byte b : 0 <= b <= 2 -> Tif_to_Z (Tif_of_byte b) = b.
Proof. intros. unfold Tif_of_byte. destruct (Z.eqb_spec b 0); [|destruct (Z.eqb_spec b 1)]; simpl; lia. Qed.

(** Only the [len] bytes of the message are looked at, and they are the encoding of what was decoded. *)
Lemma decode_body_canonical p len type symbol seq c : bytes p -> 16 <= len <= alen p ->
  unpack header_ws p = [len; type; kVersion; symbol; seq] -> decode_body p len type symbol seq = Some c ->
  encode c = take (Z.to_nat len) p /\ command_wf c /\ wire_view c = c.
Proof.
  intros Hp Hlen Hh Hb.
  assert (forall ws fs, len = sizeof ws -> zip ws (unpack ws p) = fs -> pack fs = take (Z.to_nat len) p) as Hpack.
  { intros ws fs -> <-. unfold sizeof, alen in *. rewrite pack_unpack by (done || lia). by rewrite Nat2Z.id. }
  assert (forall ws, len = sizeof ws -> Forall fits (zip ws (unpack ws p))) as Hfit.
  { intros ws ->. unfold sizeof, alen in *. apply unpack_bound; [done|lia]. }
  unfold decode_body in Hb. unfold encode, encode_fields. destruct (Z.eqb_spec type (MsgType_to_Z NewOrder)) as [->|_]; [|
    destruct (Z.eqb_spec type (MsgType_to_Z Cancel)) as [->|_]; [|destruct (Z.eqb_spec type (MsgType_to_Z Modify)) as [->|_]; [|done]]].
  - destruct (Z.eqb_spec len (sizeof new_order_ws)) as [Hl|]; [|done]. simpl negb in Hb. cbn iota in Hb.
    pose proof (zip_take5 [8; 8; 8; 4; 1; 1; 1; 1]%nat _ _ _ _ _ _ Hh) as H5. change (header_ws ++ _) with new_order_ws in H5.
    specialize (Hfit _ Hl). specialize (Hpack _ _ Hl eq_refl). read_fields new_order_ws p.
    simpl in H5. injection H5 as -> -> -> -> ->. destruct (_ || _) eqn:Eb; [done|]. to_prop. injection Hb as <-.
    cbn [c_type zip_with new_order_ws header_ws app] in Hfit. fields.
    split; [|split; [unfold command_wf; simpl; unfold in_u8, in_u32, in_u64; split_and!; auto with exsim; lia|done]].
    rewrite <- Hpack, Hl. cbn [c_type c_symbol c_seq c_order_id c_price c_qty c_owner c_side c_ord_type c_tif c_flags].
    by rewrite u64_i64, side_byte, ord_type_byte, tif_byte by (words; lia).
  - destruct (Z.eqb_spec len (sizeof cancel_ws)) as [Hl|]; [|done]. simpl negb in Hb. cbn iota in Hb.
    pose proof (zip_take5 [8]%nat _ _ _ _ _ _ Hh) as H5. change (header_ws ++ _) with cancel_ws in H5.
    specialize (Hfit _ Hl). specialize (Hpack _ _ Hl eq_refl). read_fields cancel_ws p.
    simpl in H5. injection H5 as -> -> -> -> ->. injection Hb as <-. cbn [c_type zip_with cancel_ws header_ws app] in Hfit. fields.
    split; [|split; [unfold command_wf; simpl; unfold in_u8, in_u32, in_u64, in_i64; split_and!; lia|done]]. by rewrite <- Hpack, Hl.
  - destruct (Z.eqb_spec len (sizeof modify_ws)) as [Hl|]; [|done]. simpl negb in Hb. cbn iota in Hb.
    pose proof (zip_take5 [8; 8; 8]%nat _ _ _ _ _ _ Hh) as H5. change (header_ws ++ _) with modify_ws in H5.
    specialize (Hfit _ Hl). specialize (Hpack _ _ Hl eq_refl). read_fields modify_ws p.
    simpl in H5. injection H5 as -> -> -> -> ->. injection Hb as <-. cbn [c_type zip_with modify_ws header_ws app] in Hfit. fields.
    split; [|split; [unfold command_wf; simpl; unfold in_u8, in_u32, in_u64; split_and!; auto with exsim; lia|done]].
    rewrite <- Hpack, Hl. cbn [c_type c_symbol c_seq c_order_id c_price c_qty]. by rewrite u64_i64 by (words; lia).
Qed.

(** ** Reports *)

Definition report_wf (r : ExecReport) : Prop :=
  in_u32 (x_symbol r) /\ in_u64 (x_seq r) /\ in_u64 (x_order_id r) /\ in_u64 (x_maker_id r) /\ in_i64 (x_price r) /\
  in_u64 (x_qty r) /\ in_u64 (x_leaves r) /\ in_u8 (x_event_type r) /\ in_u8 (x_reason r) /\ in_u8 (x_side r) /\ in_u8 (x_request r).

Lemma report_fits r : report_wf r -> Forall fits (report_fields r).
Proof.
  intros (? & ? & ? & ? & ? & ? & ? & ? & ? & ? & ?). unfold report_fields, header.
  cbn [zip_with app header_ws report_ws]. fits_all.
Qed.

Lemma length_report r : alen (pack (report_fields r)) = 64.
Proof. unfold alen. by rewrite length_pack. Qed.

Lemma read_report_pack r rest : report_wf r -> read_report (pack (report_fields r) ++ rest) = Some r.
Proof.
  intros Hr. pose proof (unpack_pack (report_fields r) rest (report_fits r Hr)) as Hu.
  change (fst <$> report_fields r) with report_ws in Hu. unfold read_report. change kReportSize with 64.
  pose proof (length_report r) as Hl. unfold alen in *. rewrite length_app, (proj2 (Z.ltb_ge _ _)) by lia. rewrite Hu.
  unfold report_fields. simpl. rewrite i64_u64 by apply Hr. by destruct r.
Qed.

Lemma reason_byte w : reasons.[Reason_to_Z w] = Some w.
Proof. by destruct w. Qed.

Lemma report_of_wf e seq : event_wf e -> in_u64 seq -> report_wf (report_of e seq).
Proof.
  intros (? & ? & ? & ? & ? & ?) ?. unfold report_wf, in_u8. simpl. split_and!; try done.
  all: try (by destruct (e_type e)); try (by destruct (e_reason e)); try (by destruct (e_side e)).
  all: by destruct (e_request e) as [[]|].
Qed.

Lemma report_to_event_of e seq : report_to_event (report_of e seq) = EventOf e.
Proof.
  unfold report_to_event, report_of. simpl.
  assert (EventType_to_Z (e_type e) =? kReportDone = false) as -> by (by destruct (e_type e)).
  assert (EventType_of_byte (EventType_to_Z (e_type e)) = Some (e_type e)) as -> by (by destruct (e_type e)).
  rewrite reason_byte. assert (MsgType_of_byte (request_byte (e_request e)) = Some (e_request e)) as -> by (by destruct (e_request e) as [[]|]).
  destruct e as [? ? ? ? ? ? ? ? sd rq]. by destruct sd.
Qed.

(** ** Captures *)

Lemma decode_loop_ok fuel buf st r c rest : decode buf = r -> status r = Ok -> decoded r = Some c -> buf <> [] ->
  drop (Z.to_nat (consumed r)) buf = rest ->
  decode_loop (S fuel) buf st = '(out, st) ← decode_loop fuel rest (mkStats (st_ok st + 1) (st_malformed st) (st_truncated st)); Some (c :: out, st).
Proof. intros Hr Hs Hd Hb <-. destruct buf as [|b buf]; [done|]. cbn [decode_loop]. by rewrite Hr, Hs, Hd. Qed.

Lemma decode_loop_stream cmds : Forall command_wf cmds -> forall fuel st, (length cmds < fuel)%nat ->
  decode_loop fuel (encode_stream cmds) st =
    Some (wire_view <$> cmds, mkStats (st_ok st + Z.of_nat (length cmds)) (st_malformed st) (st_truncated st)).
Proof.
  induction 1 as [|c cmds Hc _ IH]; intros [|fuel] st Hf; simpl in Hf; try lia.
  { simpl. destruct st. do 3 f_equal. simpl. lia. }
  change (encode_stream (c :: cmds)) with (encode c ++ encode_stream cmds).
  pose proof (decode_encode c (encode_stream cmds) Hc) as Hd. pose proof (length_encode c) as Hl.
  assert (0 < sizeof (type_ws (c_type c))) as Hpos by (destruct (c_type c); unfold sizeof; simpl; lia).
  erewrite (decode_loop_ok fuel _ _ _ (wire_view c) (encode_stream cmds) Hd); [|done|done| |].
  - rewrite IH by lia. simpl. do 3 f_equal. lia.
  - unfold alen in Hl. destruct (encode c); [simpl in Hl; lia|done].
  - simpl. unfold alen. rewrite Nat2Z.id. by rewrite drop_app_length.
Qed.

(** Each message is the encoding of what was decoded, so a capture of any bytes yields well-formed commands. *)
Lemma decode_loop_total fuel : forall buf st, bytes buf -> (length buf < fuel)%nat ->
  exists out st', decode_loop fuel buf st = Some (out, st') /\ Forall command_wf out /\
    st_ok st' = st_ok st + Z.of_nat (length out) /\ st_malformed st <= st_malformed st'.
Proof.
  induction fuel as [|fuel IH]; intros buf st Hb Hf; [lia|]. cbn [decode_loop].
  destruct buf as [|b buf0] eqn:Ebuf; [eexists _, _; split_and!; [done|constructor|simpl; lia|lia]|]. rewrite <- Ebuf in *.
  assert (forall n, 16 <= n -> (length (drop (Z.to_nat n) buf) < fuel)%nat) as Hlt.
  { intros n Hn. rewrite length_drop. subst buf. simpl in *. lia. }
  destruct (decode_cases buf) as [[_ ->]|(len & ty & v & sy & sq & Hu & _ & [[_ ->]|[(_ & _ & ->)|[(Hl & -> & c & Hbody & ->)|[Hl ->]]]])];
    cbn [status decoded consumed]; try by (eexists _, _; split_and!; [done|constructor|simpl; lia|simpl; lia]).
  - destruct (IH (drop (Z.to_nat len) buf) (mkStats (st_ok st + 1) (st_malformed st) (st_truncated st))) as (out & st' & -> & Hw & Ho & Hm);
      [by apply bytes_drop|apply Hlt; lia|]. simpl in *. exists (c :: out), st'. split; [done|].
    destruct (decode_body_canonical buf len ty sy sq c Hb Hl Hu Hbody) as (_ & Hcw & _). split_and!; [by constructor|simpl; lia|lia].
  - rewrite (proj2 (Z.eqb_neq len 0)) by lia. simpl.
    destruct (IH (drop (Z.to_nat len) buf) (mkStats (st_ok st) (st_malformed st + 1) (st_truncated st))) as (out & st' & -> & Hw & Ho & Hm);
      [by apply bytes_drop|apply Hlt; lia|]. simpl in *. exists out, st'. split_and!; try done. lia.
Qed.

(** ** Properties *)

(** C10: a command survives the wire: decoding its encoding, whatever follows in the buffer, consumes exactly the message
    and gives back everything the wire carries. *)
Theorem command_round_trip c rest : command_wf c ->
  decode (encode c ++ rest) = mkResult Ok (alen (encode c)) (Some (wire_view c)).
Proof. apply decode_encode. Qed.


(** An execution report survives the wire: the client rebuilds exactly the event the gateway encoded, and tells the
    Done marker apart. *)
Theorem report_round_trip e seq symbol rest : event_wf e -> in_u64 seq -> in_u32 symbol ->
  report_to_event <$> read_report (encode_report e seq ++ rest) = Some (EventOf e) /\
  report_to_event <$> read_report (encode_done symbol seq ++ rest) = Some Done /\
  alen (encode_report e seq) = kReportSize /\ alen (encode_done symbol seq) = kReportSize.
Proof.
  intros He Hs Hy. unfold encode_report, encode_done. rewrite !read_report_pack, !length_report; [| |by apply report_of_wf].
  - simpl. by rewrite report_to_event_of.
  - unfold report_wf, in_u8, in_u64, in_i64, kReportDone in *. simpl. split_and!; try done; lia.
Qed.

(** A capture of commands decodes to them, with every message counted and none malformed. *)
Theorem capture_round_trip cmds : Forall command_wf cmds ->
  decode_stream (encode_stream cmds) = Some (wire_view <$> cmds, mkStats (Z.of_nat (length cmds)) 0 false).
Proof.
  intros Hc. unfold decode_stream. rewrite decode_loop_stream; [done|done|].
  assert (length cmds <= length (encode_stream cmds))%nat; [|lia]. clear Hc. induction cmds as [|c cmds IH]; [simpl; lia|].
  change (encode_stream (c :: cmds)) with (encode c ++ encode_stream cmds). rewrite length_app.
  pose proof (length_encode c) as Hl. unfold alen, sizeof in Hl. destruct (c_type c); simpl in *; lia.
Qed.

(** ** Witnesses *)

Definition demo_order : Command := mkCommand 7 (-3) 12 0 500 9 1 NewOrder Sell Limit Ioc 5.
Lemma demo_order_wf : command_wf demo_order.
Proof. unfold command_wf, demo_order. simpl. words. lia. Qed.

Lemma command_round_trip_witness : decode (encode demo_order ++ [1; 2]) = mkResult Ok 48 (Some demo_order).
Proof. exact (command_round_trip demo_order [1; 2] demo_order_wf). Defined.


Lemma report_round_trip_witness : report_to_event <$> read_report (encode_report (trade_event 1 7 3 Buy (-2) 5 4) 12) =
  Some (EventOf (trade_event 1 7 3 Buy (-2) 5 4)).
Proof.
  rewrite <- (app_nil_r (encode_report _ _)). apply (report_round_trip (trade_event 1 7 3 Buy (-2) 5 4) 12 1 []);
    unfold event_wf; simpl; words; lia.
Defined.

Lemma capture_round_trip_witness : decode_stream (encode_stream [demo_order; demo_order]) =
  Some ([demo_order; demo_order], mkStats 2 0 false).
Proof. apply (capture_round_trip [demo_order; demo_order]). repeat constructor; apply demo_order_wf. Defined.

End Wire.
