(* ===== verification/Interfaces.v ===== *)
(** * What the order book relies on

    The book is a template over its store and its index hash, and uses the price bitmap through a handful of
    operations. Each component promises its laws here as a type class; the book's theorems (OrderBook, BookRefine)
    are proved against the classes, and the components (PriceBitmap, OrderIndex, OrderStore) provide the instances. *)
From S2P Require Import Prelude Common.

(** ** A set of price levels with nearest-neighbour queries (PriceBitmap) *)

Class LevelSet (B : Type) := {
  ls_make : Z -> option B;
  ls_set : B -> Z -> option B;
  ls_clear : B -> Z -> option B;
  ls_test : B -> Z -> option bool;
  ls_find_next : B -> Z -> option Z;
  ls_find_prev : B -> Z -> option Z;
}.

(** [r] is the smallest member of [X] that is at least [i], or [n] if there is none. *)
Definition next_of (X : gset Z) (n i r : Z) : Prop :=
  (r ∈ X /\ i <= r \/ r = n) /\ (forall j, j ∈ X -> i <= j -> r <= j).

(** [r] is the largest member of [X] that is at most [i], or -1 if there is none. *)
Definition prev_of (X : gset Z) (i r : Z) : Prop :=
  (r ∈ X /\ r <= i \/ r = -1) /\ (forall j, j ∈ X -> j <= i -> j <= r).

(** The sizes [PriceBitmap] accepts. *)
Definition level_count_ok (n : Z) : Prop := 0 < n <= 1073741824 /\ n mod 64 = 0.

Class LevelSetLaws (B : Type) `{LevelSet B} := {
  (** [ls_rep b n X]: [b] is a well-formed set of size [n] holding the levels [X]. *)
  ls_rep : B -> Z -> gset Z -> Prop;
  ls_rep_range b n X i : ls_rep b n X -> i ∈ X -> 0 <= i < n;
  ls_rep_make n : level_count_ok n -> exists b, ls_make n = Some b /\ ls_rep b n ∅;
  ls_rep_set b n X i : ls_rep b n X -> 0 <= i < n -> exists b', ls_set b i = Some b' /\ ls_rep b' n ({[i]} ∪ X);
  ls_rep_clear b n X i : ls_rep b n X -> 0 <= i < n -> exists b', ls_clear b i = Some b' /\ ls_rep b' n (X ∖ {[i]});
  ls_rep_test b n X i : ls_rep b n X -> 0 <= i < n -> ls_test b i = Some (bool_decide (i ∈ X));
  ls_rep_next b n X i : ls_rep b n X -> exists r, ls_find_next b i = Some r /\ next_of X n i r;
  ls_rep_prev b n X i : ls_rep b n X -> exists r, ls_find_prev b i = Some r /\ prev_of X i r;
}.

(** ** A map from order ids to store slots that reads the keys back from the store (OrderIndex) *)

Class IdIndex (I : Type) := {
  ix_make : Z -> I;
  ix_find : I -> Z -> (Z -> option Z) -> option Z;
  ix_insert : I -> Z -> Z -> option I;
  ix_erase_known : I -> Z -> Z -> option I;
  ix_erase : I -> Z -> (Z -> option Z) -> option (I * Z);
  ix_size : I -> Z;
}.

(** [key_of] answers for every slot of [m] with the key that maps to it. *)
Definition keys_from (m : gmap Z Z) (key_of : Z -> option Z) : Prop :=
  forall k s, m !! k = Some s -> key_of s = Some k.

Class IdIndexLaws (I : Type) `{IdIndex I} := {
  (** [ix_rep i cap m]: [i] holds exactly the pairs of [m] and has room for [cap] of them. *)
  ix_rep : I -> Z -> gmap Z Z -> Prop;
  ix_rep_make cap : 0 < cap < kNil -> ix_rep (ix_make cap) cap ∅;
  ix_rep_find i cap m k key_of : ix_rep i cap m -> keys_from m key_of ->
    ix_find i k key_of = Some (default kNil (m !! k));
  ix_rep_insert i cap m k s : ix_rep i cap m -> m !! k = None -> Z.of_nat (size m) < cap ->
    0 <= s < kNil -> (forall k', m !! k' <> Some s) -> exists i', ix_insert i k s = Some i' /\ ix_rep i' cap (<[k:=s]> m);
  ix_rep_erase_known i cap m k s : ix_rep i cap m -> m !! k = Some s ->
    exists i', ix_erase_known i k s = Some i' /\ ix_rep i' cap (delete k m);
  ix_rep_erase i cap m k key_of : ix_rep i cap m -> keys_from m key_of ->
    exists i', ix_erase i k key_of = Some (i', default kNil (m !! k)) /\ ix_rep i' cap (delete k m);
  ix_rep_size i cap m : ix_rep i cap m -> ix_size i = Z.of_nat (size m);
}.

(** ** The storage of resting orders: a layout policy (OrderStore) *)

(** The fields of one order that the engine reads back. *)
Record OrderRec := mkRec {
  r_id : Z;
  r_qty : Z;
  r_next : Z;
  r_prev : Z;
  r_level : Z;
  r_owner : Z;
  r_side : Side;
}.

Class OrderFields (S : Type) := {
  of_make : Z -> S;
  of_id : S -> Z -> option Z;
  of_qty : S -> Z -> option Z;
  of_next : S -> Z -> option Z;
  of_prev : S -> Z -> option Z;
  of_level : S -> Z -> option Z;
  of_owner : S -> Z -> option Z;
  of_side : S -> Z -> option Side;
  of_set_qty : S -> Z -> Z -> option S;
  of_set_next : S -> Z -> Z -> option S;
  of_set_prev : S -> Z -> Z -> option S;
  (** [init s id qty level owner side ts] *)
  of_init : S -> Z -> Z -> Z -> Z -> Z -> Side -> Z -> option S;
}.

Definition rec_set_qty (v : Z) (r : OrderRec) : OrderRec :=
  mkRec (r_id r) v (r_next r) (r_prev r) (r_level r) (r_owner r) (r_side r).
Definition rec_set_next (v : Z) (r : OrderRec) : OrderRec :=
  mkRec (r_id r) (r_qty r) v (r_prev r) (r_level r) (r_owner r) (r_side r).
Definition rec_set_prev (v : Z) (r : OrderRec) : OrderRec :=
  mkRec (r_id r) (r_qty r) (r_next r) v (r_level r) (r_owner r) (r_side r).
Definition rec_init (id qty level owner : Z) (side : Side) (r : OrderRec) : OrderRec :=
  mkRec id qty (r_next r) (r_prev r) level owner side.

(** [upd s f ρ ρ']: the records [ρ'] are those of [ρ] with [f] applied to slot [s]. *)
Definition upd (s : Z) (f : OrderRec -> OrderRec) (ρ ρ' : Z -> option OrderRec) : Prop :=
  forall t, ρ' t = (if t =? s then f <$> ρ t else ρ t).

Class OrderFieldsLaws (S : Type) `{OrderFields S} := {
  (** The layout's own well-formedness, and the record of a slot, if there is such a slot. *)
  of_ok : S -> Prop;
  of_rec : S -> Z -> option OrderRec;
  of_ok_make cap : of_ok (of_make cap);
  of_rec_make cap s : 0 <= cap -> is_Some (of_rec (of_make cap) s) <-> 0 <= s < cap;
  of_rec_id σ s : of_ok σ -> of_id σ s = r_id <$> of_rec σ s;
  of_rec_qty σ s : of_ok σ -> of_qty σ s = r_qty <$> of_rec σ s;
  of_rec_next σ s : of_ok σ -> of_next σ s = r_next <$> of_rec σ s;
  of_rec_prev σ s : of_ok σ -> of_prev σ s = r_prev <$> of_rec σ s;
  of_rec_level σ s : of_ok σ -> of_level σ s = r_level <$> of_rec σ s;
  of_rec_owner σ s : of_ok σ -> of_owner σ s = r_owner <$> of_rec σ s;
  of_rec_side σ s : of_ok σ -> of_side σ s = r_side <$> of_rec σ s;
  of_rec_set_qty σ s v : of_ok σ -> is_Some (of_rec σ s) -> exists σ', of_set_qty σ s v = Some σ' /\ of_ok σ' /\
    upd s (rec_set_qty v) (of_rec σ) (of_rec σ');
  of_rec_set_next σ s v : of_ok σ -> is_Some (of_rec σ s) -> exists σ', of_set_next σ s v = Some σ' /\ of_ok σ' /\
    upd s (rec_set_next v) (of_rec σ) (of_rec σ');
  of_rec_set_prev σ s v : of_ok σ -> is_Some (of_rec σ s) -> exists σ', of_set_prev σ s v = Some σ' /\ of_ok σ' /\
    upd s (rec_set_prev v) (of_rec σ) (of_rec σ');
  of_rec_init σ s id qty level owner side ts : of_ok σ -> is_Some (of_rec σ s) ->
    exists σ', of_init σ s id qty level owner side ts = Some σ' /\ of_ok σ' /\
    upd s (rec_init id qty level owner side) (of_rec σ) (of_rec σ');
}.

Lemma upd_eq s f ρ ρ' r : upd s f ρ ρ' -> ρ s = Some r -> ρ' s = Some (f r).
Proof. intros H Hr. by rewrite H, Z.eqb_refl, Hr. Qed.

Lemma upd_ne s f ρ ρ' t : upd s f ρ ρ' -> t <> s -> ρ' t = ρ t.
Proof. intros H Ht. by rewrite H, (proj2 (Z.eqb_neq t s)). Qed.

Lemma upd_is_Some s f ρ ρ' t : upd s f ρ ρ' -> is_Some (ρ' t) <-> is_Some (ρ t).
Proof. intros H. rewrite H. destruct (t =? s); [|done]. by rewrite fmap_is_Some. Qed.
