(* ===== verification/PriceBitmap.v ===== *)
(** * The two-level occupancy bitset over the price ladder (price_bitmap.hpp)

    Level 0 has one bit per price level, level 1 one bit per non-zero word of level 0. The theorems show that the
    structure is a set of levels: [set], [clear] and [test] are insertion, deletion and membership, and [find_next]
    and [find_prev] return the nearest member. *)
From S2P Require Import Prelude Bits Common Interfaces.

Module PriceBitmap.

Record t := mk { n_ : Z; words_ : list Z; summary_ : list Z }.

Definition bit (i : Z) : Z := Z.shiftl 1 (Z.land i 63).

(** The constructor; [None] is [std::invalid_argument]. *)
Definition make (n : Z) : option t :=
  if (n =? 0) || negb (n mod 64 =? 0) || (1073741824 <? n) then None
  else Some (mk n (amake (n / 64) 0) (amake ((n / 64 + 63) / 64) 0)).

Definition set (b : t) (i : Z) : option t :=
  let u := u32 i in
  w ← (words_ b).[Z.shiftr u 6];
  ws ← (words_ b).[Z.shiftr u 6 <- Z.lor w (bit u)];
  s ← (summary_ b).[Z.shiftr u 12];
  ss ← (summary_ b).[Z.shiftr u 12 <- Z.lor s (bit (Z.shiftr u 6))];
  Some (mk (n_ b) ws ss).

Definition clear (b : t) (i : Z) : option t :=
  let u := u32 i in
  let w := Z.shiftr u 6 in
  x ← (words_ b).[w];
  let x' := Z.ldiff x (bit u) in
  ws ← (words_ b).[w <- x'];
  if x' =? 0 then
    s ← (summary_ b).[Z.shiftr w 6];
    ss ← (summary_ b).[Z.shiftr w 6 <- Z.ldiff s (bit w)];
    Some (mk (n_ b) ws ss)
  else Some (mk (n_ b) ws (summary_ b)).

Definition test (b : t) (i : Z) : option bool :=
  let u := u32 i in
  w ← (words_ b).[Z.shiftr u 6];
  Some (negb (Z.land w (bit u) =? 0)).

(** [while (sm == 0) { if (++s >= summary_.size()) return n_; sm = summary_[s]; }]: the word found and its index,
    or [Some None] for the early return. The loop advances [s], so its fuel is the length of the summary. *)
Fixpoint scan_up (ss : list Z) (fuel : nat) (s sm : Z) : option (option (Z * Z)) :=
  if sm =? 0 then
    match fuel with
    | O => None
    | S fuel =>
        let s := s + 1 in
        if alen ss <=? s then Some None else
        sm ← ss.[s];
        scan_up ss fuel s sm
    end
  else Some (Some (s, sm)).

Definition find_next (b : t) (i : Z) : option Z :=
  if n_ b <=? i then Some (n_ b) else
  let i := if i <? 0 then 0 else i in
  let u := u32 i in
  let w := Z.shiftr u 6 in
  x ← (words_ b).[w];
  let m := Z.land x (u64 (Z.shiftl ones64 (Z.land u 63))) in
  if negb (m =? 0) then Some (Z.lor (Z.shiftl w 6) (countr_zero m)) else
  let w := w + 1 in
  if alen (words_ b) <=? w then Some (n_ b) else
  let s := Z.shiftr w 6 in
  y ← (summary_ b).[s];
  let sm := Z.land y (u64 (Z.shiftl ones64 (Z.land w 63))) in
  found ← scan_up (summary_ b) (length (summary_ b)) s sm;
  match found with
  | None => Some (n_ b)
  | Some (s, sm) =>
      let w := Z.lor (Z.shiftl s 6) (countr_zero sm) in
      x ← (words_ b).[w];
      Some (Z.lor (Z.shiftl w 6) (countr_zero x))
  end.

(** [while (sm == 0) { if (--s < 0) return -1; sm = summary_[s]; }] *)
Fixpoint scan_down (ss : list Z) (fuel : nat) (s sm : Z) : option (option (Z * Z)) :=
  if sm =? 0 then
    match fuel with
    | O => None
    | S fuel =>
        let s := s - 1 in
        if s <? 0 then Some None else
        sm ← ss.[s];
        scan_down ss fuel s sm
    end
  else Some (Some (s, sm)).

Definition find_prev (b : t) (i : Z) : option Z :=
  if i <? 0 then Some (-1) else
  let i := if n_ b <=? i then n_ b - 1 else i in
  let u := u32 i in
  let w := Z.shiftr u 6 in
  x ← (words_ b).[w];
  let m := Z.land x (Z.shiftr ones64 (63 - Z.land u 63)) in
  if negb (m =? 0) then Some (Z.lor (Z.shiftl w 6) (63 - countl_zero m)) else
  if w =? 0 then Some (-1) else
  let w := w - 1 in
  let s := Z.shiftr w 6 in
  y ← (summary_ b).[s];
  let sm := Z.land y (Z.shiftr ones64 (63 - Z.land w 63)) in
  found ← scan_down (summary_ b) (length (summary_ b)) s sm;
  match found with
  | None => Some (-1)
  | Some (s, sm) =>
      let w := Z.lor (Z.shiftl s 6) (63 - countl_zero sm) in
      x ← (words_ b).[w];
      Some (Z.lor (Z.shiftl w 6) (63 - countl_zero x))
  end.

#[export] Instance level_set : LevelSet t := {
  ls_make := make; ls_set := set; ls_clear := clear; ls_test := test;
  ls_find_next := find_next; ls_find_prev := find_prev;
}.

(** ** The set a bitmap denotes *)

(** Bit [j] of an array of 64-bit words. *)
Definition wbit (ws : list Z) (j : Z) : bool :=
  match ws.[j / 64] with Some w => Z.testbit w (j mod 64) | None => false end.

Definition words_ok (ws : list Z) : Prop := forall k w, ws.[k] = Some w -> in_u64 w.

(** The invariant: the sizes fit [n_], words are 64-bit, and a summary bit is set exactly for a non-zero word. *)
Record wf (b : t) : Prop := {
  wf_n : level_count_ok (n_ b);
  wf_words_len : alen (words_ b) = n_ b / 64;
  wf_summary_len : alen (summary_ b) = (n_ b / 64 + 63) / 64;
  wf_words : words_ok (words_ b);
  wf_summary : words_ok (summary_ b);
  wf_link : forall k, 0 <= k -> wbit (summary_ b) k = match (words_ b).[k] with Some w => negb (w =? 0) | None => false end;
}.

Definition rep (b : t) (n : Z) (X : gset Z) : Prop :=
  wf b /\ n_ b = n /\ (forall j, j ∈ X -> 0 <= j < n) /\ (forall j, 0 <= j < n -> wbit (words_ b) j = bool_decide (j ∈ X)).

(** ** Lemmas on one word *)

Lemma first_in_word x k : in_u64 x -> 0 <= k < 64 ->
  let m := Z.land x (u64 (Z.shiftl ones64 k)) in
  in_u64 m /\ (forall j, 0 <= j < 64 -> Z.testbit m j = (k <=? j) && Z.testbit x j).
Proof.
  intros Hx Hk m. split; [unfold m; auto with exsim|]. intros j Hj. unfold m.
  rewrite Z.land_spec, u64_testbit, Z.shiftl_spec by lia. rewrite (proj2 (Z.ltb_lt j 64)) by lia.
  destruct (Z.leb_spec k j).
  - rewrite testbit_ones64 by lia. by rewrite andb_comm.
  - rewrite (Z.testbit_neg_r _ (j - k)) by lia. by rewrite andb_comm.
Qed.

Lemma last_in_word x k : in_u64 x -> 0 <= k < 64 ->
  let m := Z.land x (Z.shiftr ones64 (63 - k)) in
  in_u64 m /\ (forall j, 0 <= j < 64 -> Z.testbit m j = (j <=? k) && Z.testbit x j).
Proof.
  intros Hx Hk m. split; [unfold m; auto with exsim|]. intros j Hj. unfold m.
  rewrite Z.land_spec, Z.shiftr_spec by lia. destruct (Z.leb_spec j k).
  - rewrite testbit_ones64 by lia. by rewrite andb_comm.
  - rewrite (testbit_high ones64) by (auto with exsim || lia). by rewrite andb_comm.
Qed.

Lemma land_bit x i : 0 <= i -> negb (Z.land x (bit i) =? 0) = Z.testbit x (i mod 64).
Proof.
  intros Hi. unfold bit. rewrite land63. assert (0 <= i mod 64 < 64) by divmod.
  destruct (Z.testbit x (i mod 64)) eqn:E.
  - apply negb_true_iff, Z.eqb_neq. intros H0. apply (f_equal (fun z => Z.testbit z (i mod 64))) in H0.
    rewrite Z.land_spec, testbit_one_shift, Z.eqb_refl, E, Z.bits_0 in H0 by lia. done.
  - apply negb_false_iff, Z.eqb_eq. apply Z.bits_inj'. intros j Hj.
    rewrite Z.land_spec, testbit_one_shift, Z.bits_0 by lia.
    destruct (Z.eqb_spec j (i mod 64)) as [->|]; [by rewrite E|by rewrite andb_false_r].
Qed.

Lemma testbit_lor_bit x i j : 0 <= i -> Z.testbit (Z.lor x (bit i)) j = Z.testbit x j || (j =? i mod 64).
Proof. intros. unfold bit. rewrite land63, Z.lor_spec, testbit_one_shift; [done|divmod]. Qed.

Lemma testbit_ldiff_bit x i j : 0 <= i -> Z.testbit (Z.ldiff x (bit i)) j = Z.testbit x j && negb (j =? i mod 64).
Proof. intros. unfold bit. rewrite land63, Z.ldiff_spec, testbit_one_shift; [done|divmod]. Qed.

Lemma in_u64_bit i : 0 <= i -> in_u64 (bit i).
Proof.
  intros Hi. unfold bit. rewrite land63. assert (0 <= i mod 64 < 64) as Hm by divmod.
  apply in_u64_bits; [by apply Z.shiftl_nonneg|]. intros k Hk. rewrite testbit_one_shift by lia.
  apply Z.eqb_neq. lia.
Qed.

Lemma in_u64_ldiff x y : in_u64 x -> in_u64 (Z.ldiff x y).
Proof.
  intros Hx. apply in_u64_bits; [apply Z.ldiff_nonneg; left; words; lia|].
  intros k Hk. by rewrite Z.ldiff_spec, testbit_high.
Qed.
#[local] Hint Resolve in_u64_bit in_u64_ldiff : exsim.

(** ** Lemmas on arrays of words *)

Lemma wbit_aset ws q v ws' j : ws.[q <- v] = Some ws' ->
  wbit ws' j = if j / 64 =? q then Z.testbit v (j mod 64) else wbit ws j.
Proof. intros H. unfold wbit. rewrite (aget_aset _ _ _ _ _ H). by destruct (_ =? _). Qed.

Lemma words_ok_aset ws q v ws' : ws.[q <- v] = Some ws' -> words_ok ws -> in_u64 v -> words_ok ws'.
Proof.
  intros H Hok Hv k w Hw. rewrite (aget_aset _ _ _ _ _ H) in Hw. destruct (_ =? _); [by simplify_eq|by eapply Hok].
Qed.

Lemma wbit_word ws q w k : ws.[q] = Some w -> 0 <= k < 64 -> wbit ws (64 * q + k) = Z.testbit w k.
Proof.
  intros H Hk. unfold wbit. replace ((64 * q + k) / 64) with q by divmod.
  replace ((64 * q + k) mod 64) with k by divmod. by rewrite H.
Qed.

Lemma wbit_out ws j : 64 * alen ws <= j -> wbit ws j = false.
Proof.
  intros Hj. unfold wbit. destruct (ws.[j / 64]) eqn:E; [|done]. apply aget_bound in E. divmod.
Qed.

(** Setting one bit, clearing one bit. *)
Lemma wbit_set ws i w ws' j : 0 <= i -> 0 <= j -> ws.[i / 64] = Some w -> ws.[i / 64 <- Z.lor w (bit i)] = Some ws' ->
  wbit ws' j = (j =? i) || wbit ws j.
Proof.
  intros Hi Hj Hw H. rewrite (wbit_aset _ _ _ _ _ H), testbit_lor_bit by done. unfold wbit.
  destruct (Z.eqb_spec (j / 64) (i / 64)) as [Eq|Nq].
  - rewrite Eq, Hw. destruct (Z.eqb_spec (j mod 64) (i mod 64)), (Z.eqb_spec j i); subst; try done;
      try (exfalso; divmod); by rewrite orb_comm.
  - destruct (Z.eqb_spec j i); [by subst|done].
Qed.

Lemma wbit_clear ws i w ws' j : 0 <= i -> 0 <= j -> ws.[i / 64] = Some w -> ws.[i / 64 <- Z.ldiff w (bit i)] = Some ws' ->
  wbit ws' j = negb (j =? i) && wbit ws j.
Proof.
  intros Hi Hj Hw H. rewrite (wbit_aset _ _ _ _ _ H), testbit_ldiff_bit by done. unfold wbit.
  destruct (Z.eqb_spec (j / 64) (i / 64)) as [Eq|Nq].
  - rewrite Eq, Hw. destruct (Z.eqb_spec (j mod 64) (i mod 64)), (Z.eqb_spec j i); subst; try done;
      try (exfalso; divmod); by rewrite andb_comm.
  - destruct (Z.eqb_spec j i); [by subst|done].
Qed.

(** ** Operations on the set *)

Lemma in_band b i : wf b -> 0 <= i < n_ b ->
  u32 i = i /\ 0 <= i / 64 < alen (words_ b) /\ 0 <= i / 64 / 64 < alen (summary_ b).
Proof.
  intros [[Hn Hm] Hw Hs _ _ _] Hi. rewrite Hw, Hs. split; [|divmod]. apply u32_small. words. lia.
Qed.

Lemma rep_make n : level_count_ok n -> exists b, make n = Some b /\ rep b n ∅.
Proof.
  intros [Hn Hm]. unfold make.
  rewrite (proj2 (Z.eqb_neq n 0)), (proj2 (Z.eqb_eq (n mod 64) 0)), (proj2 (Z.ltb_ge 1073741824 n)) by lia.
  simpl. eexists. split; [done|]. assert (0 <= n / 64 /\ 0 <= (n / 64 + 63) / 64) as [H1 H2] by divmod.
  assert (forall k w m, (amake m 0).[k] = Some w -> 0 <= m -> w = 0) as Hz.
  { intros k w m Hk Hm'. pose proof (aget_bound _ _ _ Hk) as Hb. rewrite alen_amake in Hb by done.
    rewrite aget_amake in Hk by done. congruence. }
  assert (forall m j, 0 <= m -> wbit (amake m 0) j = false) as Hb.
  { intros m j Hm'. unfold wbit. destruct ((amake m 0).[j / 64]) eqn:E; [|done].
    apply Hz in E as ->; [apply Z.bits_0|done]. }
  split_and!; [|done|set_solver|].
  - split; simpl; try done.
    + by rewrite alen_amake.
    + by rewrite alen_amake.
    + intros k w Hk. apply Hz in Hk as ->; [words; lia|done].
    + intros k w Hk. apply Hz in Hk as ->; [words; lia|done].
    + intros k Hk. rewrite Hb by done. destruct ((amake (n / 64) 0).[k]) eqn:E; [|done].
      by apply Hz in E as ->.
  - intros j Hj. simpl. rewrite Hb by done. symmetry. by apply bool_decide_eq_false_2, not_elem_of_empty.
Qed.

Lemma rep_test b n X i : rep b n X -> 0 <= i < n -> test b i = Some (bool_decide (i ∈ X)).
Proof.
  intros (Hwf & Hn & _ & Hb) Hi. destruct (in_band b i) as (Hu & Hw & _); [done|lia|].
  unfold test. rewrite Hu, !shiftr6. aget_ex (words_ b) (i / 64) w Ew; [done|]. rewrite Ew. simpl. f_equal.
  rewrite land_bit by lia. rewrite <- Hb by done. unfold wbit. by rewrite Ew.
Qed.

Lemma nonzero_lor_bit w i : in_u64 w -> 0 <= i -> Z.lor w (bit i) <> 0.
Proof.
  intros Hw Hi H0. apply (f_equal (fun z => Z.testbit z (i mod 64))) in H0.
  by rewrite testbit_lor_bit, Z.eqb_refl, orb_true_r, Z.bits_0 in H0.
Qed.

Lemma rep_set b n X i : rep b n X -> 0 <= i < n -> exists b', set b i = Some b' /\ rep b' n ({[i]} ∪ X).
Proof.
  intros (Hwf & Hn & HX & Hb) Hi. destruct (in_band b i) as (Hu & Hw & Hs); [done|lia|]. pose proof Hwf as [].
  unfold set. rewrite Hu, shiftr6, shiftr12.
  aget_ex (words_ b) (i / 64) w Ew; [done|]. rewrite Ew. simpl.
  aset_ex (words_ b) (i / 64) (Z.lor w (bit i)) ws Ews; [done|]. rewrite Ews. simpl.
  aget_ex (summary_ b) (i / 64 / 64) y Ey; [done|]. rewrite Ey. simpl.
  aset_ex (summary_ b) (i / 64 / 64) (Z.lor y (bit (i / 64))) ss Ess; [done|]. rewrite Ess. simpl.
  assert (0 <= i) as Hi0 by lia. assert (0 <= i / 64) as Hi64 by lia. assert (in_u64 w) as Hw64 by eauto. assert (in_u64 y) as Hy64 by eauto.
  eexists. split; [done|]. split_and!; [|done|set_solver|].
  - split; simpl; try done.
    + rewrite (alen_aset _ _ _ _ Ews). congruence.
    + rewrite (alen_aset _ _ _ _ Ess). congruence.
    + eapply words_ok_aset; eauto with exsim.
    + eapply words_ok_aset; eauto with exsim.
    + intros k Hk. rewrite (wbit_set _ _ _ _ _ Hi64 Hk Ey Ess), wf_link0, (aget_aset _ _ _ _ _ Ews) by done.
      destruct (Z.eqb_spec k (i / 64)) as [->|]; [|done]. simpl. symmetry.
      apply negb_true_iff, Z.eqb_neq, nonzero_lor_bit; [done|lia].
  - intros j Hj. simpl. rewrite (wbit_set _ _ _ _ _ (proj1 Hi) (proj1 Hj) Ew Ews), Hb by done.
    destruct (Z.eqb_spec j i) as [->|]; case_bool_decide; case_bool_decide; set_solver.
Qed.

Lemma rep_clear b n X i : rep b n X -> 0 <= i < n -> exists b', clear b i = Some b' /\ rep b' n (X ∖ {[i]}).
Proof.
  intros (Hwf & Hn & HX & Hb) Hi. destruct (in_band b i) as (Hu & Hw & Hs); [done|lia|]. pose proof Hwf as [].
  unfold clear. rewrite Hu, !shiftr6.
  aget_ex (words_ b) (i / 64) w Ew; [done|]. rewrite Ew. simpl.
  aset_ex (words_ b) (i / 64) (Z.ldiff w (bit i)) ws Ews; [done|]. rewrite Ews. simpl.
  assert (0 <= i) as Hi0 by lia. assert (0 <= i / 64) as Hi64 by lia. assert (in_u64 w) as Hw64 by eauto.
  assert (forall j, 0 <= j < n -> wbit ws j = bool_decide (j ∈ X ∖ {[i]})) as Hbits.
  { intros j Hj. rewrite (wbit_clear _ _ _ _ _ (proj1 Hi) (proj1 Hj) Ew Ews), Hb by done.
    destruct (Z.eqb_spec j i) as [->|]; simpl; repeat case_bool_decide; set_solver. }
  destruct (Z.eqb_spec (Z.ldiff w (bit i)) 0) as [Hz|Hz].
  - aget_ex (summary_ b) (i / 64 / 64) y Ey; [done|]. rewrite Ey. simpl.
    aset_ex (summary_ b) (i / 64 / 64) (Z.ldiff y (bit (i / 64))) ss Ess; [done|]. rewrite Ess. simpl.
    assert (in_u64 y) as Hy64 by eauto. eexists. split; [done|]. split_and!; [|done|set_solver|done]. split; simpl; try done.
    + rewrite (alen_aset _ _ _ _ Ews). congruence.
    + rewrite (alen_aset _ _ _ _ Ess). congruence.
    + eapply words_ok_aset; eauto with exsim.
    + eapply words_ok_aset; eauto with exsim.
    + intros k Hk. rewrite (wbit_clear _ _ _ _ _ Hi64 Hk Ey Ess), wf_link0, (aget_aset _ _ _ _ _ Ews) by done.
      destruct (Z.eqb_spec k (i / 64)) as [->|]; [|done]. simpl. by rewrite Hz.
  - eexists. split; [done|]. split_and!; [|done|set_solver|done]. split; simpl; try done.
    + rewrite (alen_aset _ _ _ _ Ews). congruence.
    + eapply words_ok_aset; eauto with exsim.
    + intros k Hk. rewrite wf_link0, (aget_aset _ _ _ _ _ Ews) by done.
      destruct (Z.eqb_spec k (i / 64)) as [->|]; [|done]. rewrite Ew.
      rewrite (proj2 (Z.eqb_neq (Z.ldiff w (bit i)) 0)) by done.
      destruct (Z.eqb_spec w 0) as [->|]; [by rewrite Z.ldiff_0_l in Hz|done].
Qed.

(** ** Nearest set bit

    [window_up ws lo s m]: [m] holds the bits of word [s] at or above [lo], and no bit of [ws] in [[lo, 64 s)] is
    set; [window_down] is the mirror image. *)

Definition window_up (ws : list Z) (lo s m : Z) : Prop :=
  in_u64 m /\ (forall k, 0 <= k < 64 -> Z.testbit m k = (lo <=? 64 * s + k) && wbit ws (64 * s + k)) /\
  (forall j, lo <= j < 64 * s -> wbit ws j = false).

Definition window_down (ws : list Z) (hi s m : Z) : Prop :=
  in_u64 m /\ (forall k, 0 <= k < 64 -> Z.testbit m k = (64 * s + k <=? hi) && wbit ws (64 * s + k)) /\
  (forall j, 64 * s + 64 <= j <= hi -> wbit ws j = false).

(** [r] is the first set bit at or above [lo], the last one at or below [hi]. *)
Definition first_bit (ws : list Z) (lo r : Z) : Prop :=
  lo <= r /\ wbit ws r = true /\ (forall j, lo <= j < r -> wbit ws j = false).
Definition last_bit (ws : list Z) (hi r : Z) : Prop :=
  r <= hi /\ wbit ws r = true /\ (forall j, r < j <= hi -> wbit ws j = false).

Lemma window_up_word ws q x lo : words_ok ws -> ws.[q] = Some x -> q = lo / 64 ->
  window_up ws lo q (Z.land x (u64 (Z.shiftl ones64 (lo mod 64)))).
Proof.
  intros Hok Hx ->. destruct (first_in_word x (lo mod 64)) as [H1 H2]; [by eapply Hok|divmod|].
  split_and!; [done| |intros j Hj; exfalso; divmod]. intros k Hk. rewrite H2 by done.
  rewrite (wbit_word _ _ _ _ Hx Hk). f_equal.
  destruct (Z.leb_spec (lo mod 64) k), (Z.leb_spec lo (64 * (lo / 64) + k)); try done; exfalso; divmod.
Qed.

Lemma window_down_word ws q x hi : words_ok ws -> ws.[q] = Some x -> q = hi / 64 ->
  window_down ws hi q (Z.land x (Z.shiftr ones64 (63 - hi mod 64))).
Proof.
  intros Hok Hx ->. destruct (last_in_word x (hi mod 64)) as [H1 H2]; [by eapply Hok|divmod|].
  split_and!; [done| |intros j Hj; exfalso; divmod]. intros k Hk. rewrite H2 by done.
  rewrite (wbit_word _ _ _ _ Hx Hk). f_equal.
  destruct (Z.leb_spec k (hi mod 64)), (Z.leb_spec (64 * (hi / 64) + k) hi); try done; exfalso; divmod.
Qed.

Lemma window_up_zero ws lo s m j : window_up ws lo s m -> m = 0 -> lo <= j < 64 * s + 64 -> wbit ws j = false.
Proof.
  intros (Hm & Hb & Hlo) -> Hj. destruct (Z.lt_ge_cases j (64 * s)); [apply Hlo; lia|].
  specialize (Hb (j - 64 * s)). rewrite Z.bits_0 in Hb. replace (64 * s + (j - 64 * s)) with j in Hb by lia.
  rewrite (proj2 (Z.leb_le _ _)) in Hb by lia. symmetry. apply Hb. lia.
Qed.

Lemma window_down_zero ws hi s m j : window_down ws hi s m -> m = 0 -> 64 * s <= j <= hi -> wbit ws j = false.
Proof.
  intros (Hm & Hb & Hhi) -> Hj. destruct (Z.le_gt_cases (64 * s + 64) j); [apply Hhi; lia|].
  specialize (Hb (j - 64 * s)). rewrite Z.bits_0 in Hb. replace (64 * s + (j - 64 * s)) with j in Hb by lia.
  rewrite (proj2 (Z.leb_le _ _)) in Hb by lia. symmetry. apply Hb. lia.
Qed.

Lemma window_up_next ws lo s m x : words_ok ws -> window_up ws lo s m -> m = 0 -> lo <= 64 * s + 64 ->
  ws.[s + 1] = Some x -> window_up ws lo (s + 1) x.
Proof.
  intros Hok Hw Hz Hs Hx. split_and!; [by eapply Hok| |].
  - intros k Hk. rewrite (wbit_word _ _ _ _ Hx Hk). by rewrite (proj2 (Z.leb_le _ _)) by lia.
  - intros j Hj. apply (window_up_zero _ _ _ _ _ Hw Hz). lia.
Qed.

Lemma window_down_next ws hi s m x : words_ok ws -> window_down ws hi s m -> m = 0 -> 64 * s - 1 <= hi ->
  ws.[s - 1] = Some x -> window_down ws hi (s - 1) x.
Proof.
  intros Hok Hw Hz Hs Hx. split_and!; [by eapply Hok| |].
  - intros k Hk. rewrite (wbit_word _ _ _ _ Hx Hk). by rewrite (proj2 (Z.leb_le _ _)) by lia.
  - intros j Hj. apply (window_down_zero _ _ _ _ _ Hw Hz). lia.
Qed.

Lemma window_up_found ws lo s m : window_up ws lo s m -> m <> 0 ->
  0 <= countr_zero m < 64 /\ first_bit ws lo (64 * s + countr_zero m).
Proof.
  intros (Hm & Hb & Hlo) Hn. destruct (countr_zero_spec m Hm Hn) as (Hc & Ht & Hf). split; [done|].
  rewrite Hb in Ht by done. to_prop. split_and!; [lia|done|]. intros j Hj.
  destruct (Z.lt_ge_cases j (64 * s)); [apply Hlo; lia|]. specialize (Hf (j - 64 * s)).
  rewrite Hb in Hf by lia. replace (64 * s + (j - 64 * s)) with j in Hf by lia.
  rewrite (proj2 (Z.leb_le _ _)) in Hf by lia. apply Hf. lia.
Qed.

Lemma window_down_found ws hi s m : window_down ws hi s m -> m <> 0 ->
  0 <= 63 - countl_zero m < 64 /\ last_bit ws hi (64 * s + (63 - countl_zero m)).
Proof.
  intros (Hm & Hb & Hhi) Hn. destruct (countl_zero_spec m Hm Hn) as (Hc & Ht & Hf). split; [done|].
  rewrite Hb in Ht by done. to_prop. split_and!; [lia|done|]. intros j Hj.
  destruct (Z.le_gt_cases (64 * s + 64) j); [apply Hhi; lia|]. specialize (Hf (j - 64 * s)).
  rewrite Hb in Hf by lia. replace (64 * s + (j - 64 * s)) with j in Hf by lia.
  rewrite (proj2 (Z.leb_le _ _)) in Hf by lia. apply Hf. lia.
Qed.

(** Scanning the words upwards (downwards) terminates within the fuel and finds the first (last) set bit. *)
Lemma scan_up_spec ss lo fuel : words_ok ss -> forall s sm, window_up ss lo s sm -> lo <= 64 * s + 64 ->
  0 <= s < alen ss -> alen ss - s <= Z.of_nat fuel -> exists res, scan_up ss fuel s sm = Some res /\
  match res with
  | None => forall j, lo <= j -> wbit ss j = false
  | Some (s', sm') => 0 <= s' /\ 0 <= countr_zero sm' < 64 /\ first_bit ss lo (64 * s' + countr_zero sm')
  end.
Proof.
  intros Hok. induction fuel as [|fuel IH]; intros s sm Hw Hlo Hs Hf; [lia|].
  simpl. destruct (Z.eqb_spec sm 0) as [Hz|Hz].
  - destruct (Z.leb_spec (alen ss) (s + 1)) as [Hl|Hl].
    + eexists. split; [done|]. simpl. intros j Hj. destruct (Z.lt_ge_cases j (64 * s + 64)); [|apply wbit_out; lia].
      by apply (window_up_zero _ _ _ _ _ Hw Hz).
    + aget_ex ss (s + 1) x Ex; [lia|]. rewrite Ex. simpl.
      apply IH; [by eapply window_up_next|lia|lia|lia].
  - eexists. split; [done|]. simpl. split; [lia|]. by apply window_up_found.
Qed.

Lemma scan_down_spec ss hi fuel : words_ok ss -> forall s sm, window_down ss hi s sm -> 64 * s - 1 <= hi ->
  0 <= s < alen ss -> s < Z.of_nat fuel -> exists res, scan_down ss fuel s sm = Some res /\
  match res with
  | None => forall j, 0 <= j <= hi -> wbit ss j = false
  | Some (s', sm') => 0 <= s' /\ 0 <= 63 - countl_zero sm' < 64 /\ last_bit ss hi (64 * s' + (63 - countl_zero sm'))
  end.
Proof.
  intros Hok. induction fuel as [|fuel IH]; intros s sm Hw Hhi Hs Hf; [lia|].
  simpl. destruct (Z.eqb_spec sm 0) as [Hz|Hz].
  - destruct (Z.ltb_spec (s - 1) 0) as [Hl|Hl].
    + eexists. split; [done|]. simpl. intros j Hj. apply (window_down_zero _ _ _ _ _ Hw Hz). lia.
    + aget_ex ss (s - 1) x Ex; [lia|]. rewrite Ex. simpl.
      apply IH; [by eapply window_down_next|lia|lia|lia].
  - eexists. split; [done|]. simpl. split; [lia|]. by apply window_down_found.
Qed.

(** A first (last) bit of the whole array is the nearest member of the set. *)
Lemma first_bit_next b n X i r : rep b n X -> 0 <= i -> first_bit (words_ b) i r -> next_of X n i r.
Proof.
  intros (Hwf & Hn & HX & Hb) Hi (Hle & Ht & Hf).
  assert (r < n) as Hr.
  { destruct (Z.lt_ge_cases r n); [done|]. rewrite wbit_out in Ht; [done|]. rewrite (wf_words_len _ Hwf), Hn.
    destruct (wf_n _ Hwf). divmod. }
  split.
  - left. rewrite Hb in Ht by lia. to_prop. done.
  - intros j Hj Hij. destruct (Z.le_gt_cases r j); [done|]. specialize (HX j Hj).
    specialize (Hf j). rewrite Hb in Hf by lia. rewrite bool_decide_eq_true_2 in Hf by done. discriminate Hf. lia.
Qed.

Lemma last_bit_prev b n X i r : rep b n X -> 0 <= r -> i < n -> last_bit (words_ b) i r -> prev_of X i r.
Proof.
  intros (Hwf & Hn & HX & Hb) Hr Hi (Hle & Ht & Hf). split.
  - left. rewrite Hb in Ht by lia. to_prop. done.
  - intros j Hj Hij. destruct (Z.le_gt_cases j r); [done|]. specialize (HX j Hj).
    specialize (Hf j). rewrite Hb in Hf by lia. rewrite bool_decide_eq_true_2 in Hf by done. discriminate Hf. lia.
Qed.

Lemma no_next b n X i : rep b n X -> (forall j, i <= j < n -> wbit (words_ b) j = false) -> next_of X n i n.
Proof.
  intros (Hwf & Hn & HX & Hb) H. split; [by right|]. intros j Hj Hij. specialize (HX j Hj).
  specialize (H j). rewrite Hb, bool_decide_eq_true_2 in H by done. discriminate H. lia.
Qed.

Lemma no_prev b n X i : rep b n X -> (forall j, 0 <= j <= i -> wbit (words_ b) j = false) -> prev_of X i (-1).
Proof.
  intros (Hwf & Hn & HX & Hb) H. split; [by right|]. intros j Hj Hij. specialize (HX j Hj).
  specialize (H j). rewrite Hb, bool_decide_eq_true_2 in H by done. discriminate H. lia.
Qed.

(** A clear summary bit stands for 64 clear bits, a set one for a non-zero word. *)
Lemma summary_clear b j : wf b -> 0 <= j -> wbit (summary_ b) (j / 64) = false -> wbit (words_ b) j = false.
Proof.
  intros [] Hj H. rewrite wf_link0 in H by divmod. unfold wbit. destruct ((words_ b).[j / 64]) as [w|]; [|done].
  to_prop. subst. apply Z.bits_0.
Qed.

Lemma summary_set b k : wf b -> 0 <= k -> wbit (summary_ b) k = true -> exists w, (words_ b).[k] = Some w /\ w <> 0 /\ in_u64 w.
Proof.
  intros [] Hk H. rewrite wf_link0 in H by done. destruct ((words_ b).[k]) as [w|] eqn:E; [|done].
  to_prop. eauto.
Qed.

Lemma rep_next b n X i0 : rep b n X -> exists r, find_next b i0 = Some r /\ next_of X n i0 r.
Proof.
  intros Hrep. pose proof Hrep as (Hwf & Hn & HX & _). unfold find_next. rewrite Hn.
  destruct (Z.leb_spec n i0) as [Hi0|Hi0].
  { eexists. split; [done|]. split; [by right|]. intros j Hj. specialize (HX j Hj). lia. }
  set (i := if i0 <? 0 then 0 else i0).
  assert (0 <= i < n) as Hi by (unfold i; destruct (wf_n _ Hwf); destruct (Z.ltb_spec i0 0); lia).
  assert (forall r, next_of X n i r -> next_of X n i0 r) as Hmono.
  { intros r [H1 H2]. unfold i in *. destruct (Z.ltb_spec i0 0); [|done]. split.
    - destruct H1 as [[H1 H1']|H1]; [left; split; [done|lia]|by right].
    - intros j Hj Hij. apply H2; [done|]. specialize (HX j Hj). lia. }
  destruct (in_band b i) as (Hu & Hw & Hs); [done|lia|]. rewrite Hu, !shiftr6, !land63.
  aget_ex (words_ b) (i / 64) x Ex; [done|]. rewrite Ex. simpl.
  pose proof (window_up_word _ _ _ i (wf_words _ Hwf) Ex eq_refl) as Hwin.
  set (m := Z.land x _) in *. destruct (Z.eqb_spec m 0) as [Hm|Hm]; simpl.
  2:{ destruct (window_up_found _ _ _ _ Hwin Hm) as [Hc Hf]. eexists. split; [done|]. rewrite lor6 by done.
      apply Hmono. eapply first_bit_next; [done|lia|done]. }
  assert (forall j, i <= j < 64 * (i / 64 + 1) -> wbit (words_ b) j = false) as Hclear.
  { intros j Hj. apply (window_up_zero _ _ _ _ _ Hwin Hm). lia. }
  destruct (Z.leb_spec (alen (words_ b)) (i / 64 + 1)) as [Hlast|Hlast].
  { eexists. split; [done|]. apply Hmono. eapply no_next; [done|]. intros j Hj. apply Hclear.
    rewrite (wf_words_len _ Hwf), Hn in Hlast. destruct (wf_n _ Hwf). divmod. }
  set (w := i / 64 + 1) in *.
  assert (0 <= w / 64 < alen (summary_ b)) as Hws.
  { rewrite (wf_summary_len _ Hwf). rewrite (wf_words_len _ Hwf) in Hlast. divmod. }
  aget_ex (summary_ b) (w / 64) y Ey; [done|]. rewrite Ey. simpl.
  pose proof (window_up_word _ _ _ w (wf_summary _ Hwf) Ey eq_refl) as Hwin2.
  destruct (scan_up_spec (summary_ b) w (length (summary_ b)) (wf_summary _ Hwf) _ _ Hwin2)
    as (res & Hres & Hspec); [divmod|done|unfold alen; lia|].
  rewrite Hres. simpl. destruct res as [[s sm]|].
  - destruct Hspec as (Hs0 & Hc & Hle & Ht & Hf). rewrite lor6 by done.
    set (k := 64 * s + countr_zero sm) in *.
    destruct (summary_set b k) as (v & Ev & Hv & Hv64); [done|lia|done|]. rewrite Ev. simpl.
    eexists. split; [done|]. apply Hmono.
    destruct (countr_zero_spec v Hv64 Hv) as (Hc' & Ht' & Hf'). rewrite lor6 by done.
    eapply first_bit_next; [done|lia|]. split_and!; [divmod| |].
    + by rewrite (wbit_word _ _ _ _ Ev).
    + intros j Hj. destruct (Z.lt_ge_cases j (64 * w)); [apply Hclear; lia|].
      destruct (Z.lt_ge_cases j (64 * k)).
      * apply summary_clear; [done|lia|]. apply Hf. divmod.
      * replace j with (64 * k + (j - 64 * k)) by lia. rewrite (wbit_word _ _ _ _ Ev) by lia. apply Hf'. lia.
  - eexists. split; [done|]. apply Hmono. eapply no_next; [done|]. intros j Hj.
    destruct (Z.lt_ge_cases j (64 * w)); [apply Hclear; lia|]. apply summary_clear; [done|lia|]. apply Hspec. divmod.
Qed.

Lemma rep_prev b n X i0 : rep b n X -> exists r, find_prev b i0 = Some r /\ prev_of X i0 r.
Proof.
  intros Hrep. pose proof Hrep as (Hwf & Hn & HX & _). unfold find_prev. rewrite Hn.
  destruct (Z.ltb_spec i0 0) as [Hi0|Hi0].
  { eexists. split; [done|]. split; [by right|]. intros j Hj. specialize (HX j Hj). lia. }
  set (i := if n <=? i0 then n - 1 else i0).
  assert (0 <= i < n) as Hi by (unfold i; destruct (wf_n _ Hwf); destruct (Z.leb_spec n i0); lia).
  assert (forall r, prev_of X i r -> prev_of X i0 r) as Hmono.
  { intros r [H1 H2]. unfold i in *. destruct (Z.leb_spec n i0); [|done]. split.
    - destruct H1 as [[H1 H1']|H1]; [left; split; [done|lia]|by right].
    - intros j Hj Hij. apply H2; [done|]. specialize (HX j Hj). lia. }
  destruct (in_band b i) as (Hu & Hw & Hs); [done|lia|]. rewrite Hu, !shiftr6, !land63.
  aget_ex (words_ b) (i / 64) x Ex; [done|]. rewrite Ex. simpl.
  pose proof (window_down_word _ _ _ i (wf_words _ Hwf) Ex eq_refl) as Hwin.
  set (m := Z.land x _) in *. destruct (Z.eqb_spec m 0) as [Hm|Hm]; simpl.
  2:{ destruct (window_down_found _ _ _ _ Hwin Hm) as [Hc Hf]. eexists. split; [done|]. rewrite lor6 by done.
      apply Hmono. eapply last_bit_prev; [done|lia|lia|done]. }
  assert (forall j, 64 * (i / 64) <= j <= i -> wbit (words_ b) j = false) as Hclear.
  { intros j Hj. apply (window_down_zero _ _ _ _ _ Hwin Hm). lia. }
  destruct (Z.eqb_spec (i / 64) 0) as [Hfirst|Hfirst].
  { eexists. split; [done|]. apply Hmono. eapply no_prev; [done|]. intros j Hj. apply Hclear. lia. }
  set (w := i / 64 - 1) in *.
  assert (0 <= w / 64 < alen (summary_ b)) as Hws by divmod.
  aget_ex (summary_ b) (w / 64) y Ey; [done|]. rewrite Ey. simpl.
  pose proof (window_down_word _ _ _ w (wf_summary _ Hwf) Ey eq_refl) as Hwin2.
  destruct (scan_down_spec (summary_ b) w (length (summary_ b)) (wf_summary _ Hwf) _ _ Hwin2)
    as (res & Hres & Hspec); [divmod|done|unfold alen in Hws; lia|].
  rewrite Hres. simpl. destruct res as [[s sm]|].
  - destruct Hspec as (Hs0 & Hc & Hle & Ht & Hf). rewrite lor6 by done.
    set (k := 64 * s + (63 - countl_zero sm)) in *.
    destruct (summary_set b k) as (v & Ev & Hv & Hv64); [done|lia|done|]. rewrite Ev. simpl.
    eexists. split; [done|]. apply Hmono.
    destruct (countl_zero_spec v Hv64 Hv) as (Hc' & Ht' & Hf'). rewrite lor6 by done.
    eapply last_bit_prev; [done|lia|lia|]. split_and!; [divmod| |].
    + by rewrite (wbit_word _ _ _ _ Ev).
    + intros j Hj. destruct (Z.le_gt_cases (64 * (i / 64)) j); [apply Hclear; lia|].
      destruct (Z.lt_ge_cases j (64 * k + 64)).
      * replace j with (64 * k + (j - 64 * k)) by lia. rewrite (wbit_word _ _ _ _ Ev) by lia. apply Hf'. lia.
      * apply summary_clear; [done|lia|]. apply Hf. divmod.
  - eexists. split; [done|]. apply Hmono. eapply no_prev; [done|]. intros j Hj.
    destruct (Z.le_gt_cases (64 * (i / 64)) j); [apply Hclear; lia|].
    apply summary_clear; [done|lia|]. apply Hspec. divmod.
Qed.

#[export] Program Instance level_set_laws : LevelSetLaws t := {|
  ls_rep := rep;
  ls_rep_make := rep_make;
  ls_rep_set := rep_set;
  ls_rep_clear := rep_clear;
  ls_rep_test := rep_test;
  ls_rep_next := rep_next;
  ls_rep_prev := rep_prev;
|}.
Next Obligation. intros b n X i (_ & _ & HX & _). apply HX. Qed.

End PriceBitmap.
