(* ===== verification/OrderStore.v ===== *)
(** * Resting-order storage (order_store.hpp)

    A preallocated slab with an embedded LIFO free list ([FreeListStore]) over three memory layouts: an array of
    structures ([AosStore]), a structure of arrays ([SoaStore]) and a hot/cold split ([HybridStore]). The free list is
    proved once, for any layout; the layouts are instances of [OrderFields] and its laws, so they are interchangeable
    for every client. *)
From S2P Require Import Prelude Common Interfaces.

(** Reads element [s], applies [f], writes it back. *)
Definition amodify {A} (a : list A) (s : Z) (f : A -> A) : option (list A) := x ← a.[s]; a.[s <- f x].

Lemma amodify_Some {A} (a : list A) s f x : a.[s] = Some x ->
  exists a', amodify a s f = Some a' /\ alen a' = alen a /\ forall t, a'.[t] = if t =? s then f <$> a.[t] else a.[t].
Proof.
  intros Hx. unfold amodify. rewrite Hx. simpl. pose proof (aget_bound _ _ _ Hx) as Hb.
  aset_ex a s (f x) a' Ha'; [done|]. exists a'. split_and!; [done|by eapply alen_aset|].
  intros t. rewrite (aget_aset _ _ _ _ _ Ha'). destruct (Z.eqb_spec t s) as [->|]; [by rewrite Hx|done].
Qed.

Module FreeListStore.
Section store.
Context {S : Type} `{OrderFields S}.

Record t := mk { self : S; free_ : Z; cap_ : Z; live_ : Z }.

(** [for (i = 0; i < cap; ++i) next(i) = i + 1 < cap ? i + 1 : kNil;] *)
Fixpoint link_free (cap : Z) (fuel : nat) (i : Z) (σ : S) : option S :=
  match fuel with
  | O => Some σ
  | Datatypes.S fuel =>
      σ ← of_set_next σ i (if i + 1 <? cap then i + 1 else kNil);
      link_free cap fuel (i + 1) σ
  end.

Definition build_free_list (cap : Z) (σ : S) : option t :=
  σ ← link_free cap (Z.to_nat cap) 0 σ;
  Some (mk σ (if negb (cap =? 0) then 0 else kNil) cap 0).

Definition make (cap : Z) : option t := build_free_list cap (of_make cap).

Definition alloc (st : t) : option (t * Z) :=
  let s := free_ st in
  if negb (s =? kNil) then
    n ← of_next (self st) s;
    Some (mk (self st) n (cap_ st) (u32 (live_ st + 1)), s)
  else Some (st, s).

Definition release (st : t) (s : Z) : option t :=
  σ ← of_set_next (self st) s (free_ st);
  Some (mk σ s (cap_ st) (u32 (live_ st - 1))).

Definition capacity (st : t) : Z := cap_ st.
Definition live (st : t) : Z := live_ st.

(** The derived class's mutations, on the whole store. *)
Definition with_self (st : t) (o : option S) : option t := σ ← o; Some (mk σ (free_ st) (cap_ st) (live_ st)).
End store.
Arguments t : clear implicits.

(** ** The free list *)

(** Following [next] from [s] visits exactly [l] and ends at [kNil]. *)
Fixpoint chain (ρ : Z -> option OrderRec) (s : Z) (l : list Z) : Prop :=
  match l with
  | [] => s = kNil
  | x :: l => s = x /\ exists r, ρ x = Some r /\ chain ρ (r_next r) l
  end.

(** A chain only depends on the [next] fields of its slots. *)
Lemma chain_frame ρ ρ' l : (forall x, x ∈ l -> r_next <$> ρ' x = r_next <$> ρ x) -> forall s, chain ρ s l -> chain ρ' s l.
Proof.
  induction l as [|x l IH]; intros Hf s Hc; simpl in *; [done|]. destruct Hc as (-> & r & Hr & Hc). split; [done|].
  specialize (Hf x) as Hx. rewrite Hr in Hx. destruct (ρ' x) as [r'|] eqn:Hr'; [|by discriminate Hx; set_solver].
  exists r'. split; [done|]. assert (r_next r' = r_next r) as -> by (by assert (Some (r_next r') = Some (r_next r)) by (apply Hx; set_solver); simplify_eq).
  apply IH; [|done]. intros y Hy. apply Hf. set_solver.
Qed.

Section laws.
Context {S : Type} `{OrderFieldsLaws S}.
Implicit Types (st : t S) (fl : list Z).

(** The store has [cap] slots; exactly those of [fl] are free, in the order they will be handed out. *)
Record rep st (cap : Z) fl : Prop := {
  rep_cap : cap_ st = cap;
  rep_cap_range : 0 < cap < kNil;
  rep_ok : of_ok (self st);
  rep_slots s : is_Some (of_rec (self st) s) <-> 0 <= s < cap;
  rep_chain : chain (of_rec (self st)) (free_ st) fl;
  rep_nodup : NoDup fl;
  rep_range s : s ∈ fl -> 0 <= s < cap;
  rep_live : live_ st = cap - Z.of_nat (length fl);
  rep_live_range : 0 <= live_ st <= cap;
}.

Lemma alloc_empty st cap : rep st cap [] -> alloc st = Some (st, kNil).
Proof. intros [_ _ _ _ Hc _ _ _ _]. simpl in Hc. unfold alloc. by rewrite Hc. Qed.

Lemma alloc_cons st cap s fl : rep st cap (s :: fl) ->
  exists st', alloc st = Some (st', s) /\ self st' = self st /\ rep st' cap fl.
Proof.
  intros [Hcap Hcr Hok Hsl Hc Hnd Hr Hl Hlr]. destruct Hc as (Hs & r & Hrec & Hc). unfold alloc. rewrite Hs.
  assert (0 <= s < cap) as Hsr by (apply Hr; set_solver). rewrite (proj2 (Z.eqb_neq s kNil)) by lia. simpl.
  rewrite of_rec_next by done. rewrite Hrec. simpl. eexists. split; [done|]. split; [done|].
  apply NoDup_cons in Hnd as [Hn Hnd]. simpl in Hl. unfold kNil in *.
  assert (u32 (live_ st + 1) = live_ st + 1) as Hu by (apply u32_small; words; lia).
  split; simpl; try done; try lia. intros x Hx. apply Hr. set_solver.
Qed.

Lemma release_spec st cap fl s : rep st cap fl -> 0 <= s < cap -> s ∉ fl ->
  exists st', release st s = Some st' /\ rep st' cap (s :: fl) /\
    (exists v, upd s (rec_set_next v) (of_rec (self st)) (of_rec (self st'))).
Proof.
  intros [Hcap Hcr Hok Hsl Hc Hnd Hr Hl Hlr] Hs Hfl. unfold release.
  destruct (of_rec_set_next (self st) s (free_ st)) as (σ & Hσ & Hok' & Hu); [done|by apply Hsl|].
  rewrite Hσ. simpl. eexists. split; [done|]. split; [|by eexists].
  assert (Z.of_nat (length (s :: fl)) <= cap) as Hlen.
  { assert (length (s :: fl) <= length (seqZ 0 cap))%nat as Hle.
    { apply submseteq_length. apply NoDup_submseteq; [by apply NoDup_cons|]. intros x Hx. apply elem_of_seqZ.
      apply elem_of_cons in Hx as [->|Hx]; [lia|]. specialize (Hr x Hx). lia. }
    rewrite length_seqZ in Hle. lia. }
  simpl in Hlen. unfold kNil in *.
  assert (u32 (live_ st - 1) = live_ st - 1) as Hu32 by (apply u32_small; words; lia).
  split; simpl; try done; try lia.
  - intros t. rewrite (upd_is_Some _ _ _ _ _ Hu). apply Hsl.
  - split; [done|]. destruct (proj2 (Hsl s) Hs) as [r Hr']. exists (rec_set_next (free_ st) r).
    split; [by eapply upd_eq|]. simpl. eapply chain_frame; [|done].
    intros x Hx. rewrite (upd_ne _ _ _ _ _ Hu); [done|]. intros ->. done.
  - by apply NoDup_cons.
  - intros x Hx. apply elem_of_cons in Hx as [->|Hx]; [done|by apply Hr].
Qed.

(** A fresh store hands out the slots 0, 1, ..., cap - 1. *)
Lemma link_free_spec cap n : forall i σ, i + Z.of_nat n = cap -> 0 <= i -> of_ok σ ->
  (forall s, is_Some (of_rec σ s) <-> 0 <= s < cap) ->
  exists σ', link_free cap n i σ = Some σ' /\ of_ok σ' /\ (forall s, is_Some (of_rec σ' s) <-> 0 <= s < cap) /\
    (forall s, s < i -> of_rec σ' s = of_rec σ s) /\
    (forall s, i <= s < cap -> r_next <$> of_rec σ' s = Some (if s + 1 <? cap then s + 1 else kNil)).
Proof.
  induction n as [|n IH]; intros i σ Hin Hi Hok Hs; simpl.
  { exists σ. split_and!; try done. intros s Hsi. lia. }
  destruct (of_rec_set_next σ i (if i + 1 <? cap then i + 1 else kNil)) as (σ1 & -> & Hok1 & Hu); [done|apply Hs; lia|].
  simpl. destruct (IH (i + 1) σ1) as (σ' & Hl & Hok' & Hs' & Hlo & Hhi); [lia|lia|done| |].
  { intros s. rewrite (upd_is_Some _ _ _ _ _ Hu). apply Hs. }
  exists σ'. split_and!; try done.
  - intros s Hsi. rewrite Hlo by lia. apply (upd_ne _ _ _ _ _ Hu). lia.
  - intros s Hsi. destruct (Z.eq_dec s i) as [->|]; [|apply Hhi; lia].
    rewrite Hlo by lia. destruct (proj2 (Hs i)) as [r Hr]; [lia|]. by rewrite (upd_eq _ _ _ _ _ Hu Hr).
Qed.

Lemma make_spec cap : 0 < cap < kNil -> exists st, make cap = Some st /\ rep st cap (seqZ 0 cap).
Proof.
  intros Hc. unfold make, build_free_list.
  destruct (link_free_spec cap (Z.to_nat cap) 0 (of_make cap)) as (σ & -> & Hok & Hs & _ & Hn);
    [lia|lia|apply of_ok_make|intros s; apply of_rec_make; lia|].
  simpl. rewrite (proj2 (Z.eqb_neq cap 0)) by lia. eexists. split; [done|]. simpl.
  assert (forall k i, Z.of_nat k + i = cap -> 0 <= i -> chain (of_rec σ) (if i <? cap then i else kNil) (seqZ i (Z.of_nat k))) as Hch.
  { induction k as [|k IH]; intros i Hk Hi.
    - rewrite (proj2 (Z.ltb_ge i cap)) by lia. done.
    - rewrite (proj2 (Z.ltb_lt i cap)), seqZ_cons by lia. split; [done|].
      specialize (Hn i). destruct (of_rec σ i) as [r|] eqn:Hr; [|discriminate Hn; lia].
      exists r. split; [done|]. replace (Z.pred (Z.of_nat (Datatypes.S k))) with (Z.of_nat k) by lia.
      assert (Some (r_next r) = Some (if i + 1 <? cap then i + 1 else kNil)) as He by (apply Hn; lia).
      injection He as ->. apply IH; lia. }
  split; simpl; try done; try lia.
  - specialize (Hch (Z.to_nat cap) 0). rewrite (proj2 (Z.ltb_lt 0 cap)), Z2Nat.id in Hch by lia. apply Hch; lia.
  - apply NoDup_seqZ.
  - intros s Hs'. apply elem_of_seqZ in Hs'. lia.
  - rewrite length_seqZ. lia.
Qed.
End laws.
End FreeListStore.

(** ** The three layouts *)

Module AosStore.
Record Order := mkOrder {
  id : Z; ts : Z; qty : Z; orig_qty : Z; next : Z; prev : Z; level : Z; owner : Z; side : Side; flags : Z
}.
Definition t : Type := list Order.
Definition make (cap : Z) : t := amake cap (mkOrder 0 0 0 0 0 0 0 0 Buy 0).
Definition set_qty (v : Z) (o : Order) : Order :=
  mkOrder (id o) (ts o) v (orig_qty o) (next o) (prev o) (level o) (owner o) (side o) (flags o).
Definition set_next (v : Z) (o : Order) : Order :=
  mkOrder (id o) (ts o) (qty o) (orig_qty o) v (prev o) (level o) (owner o) (side o) (flags o).
Definition set_prev (v : Z) (o : Order) : Order :=
  mkOrder (id o) (ts o) (qty o) (orig_qty o) (next o) v (level o) (owner o) (side o) (flags o).
Definition init (σ : t) (s i q l w : Z) (sd : Side) (tm : Z) : option t :=
  amodify σ s (fun o => mkOrder i tm q q (next o) (prev o) l w sd 0).

#[export] Instance fields : OrderFields t := {
  of_make := make;
  of_id σ s := id <$> σ.[s];
  of_qty σ s := qty <$> σ.[s];
  of_next σ s := next <$> σ.[s];
  of_prev σ s := prev <$> σ.[s];
  of_level σ s := level <$> σ.[s];
  of_owner σ s := owner <$> σ.[s];
  of_side σ s := side <$> σ.[s];
  of_set_qty σ s v := amodify σ s (set_qty v);
  of_set_next σ s v := amodify σ s (set_next v);
  of_set_prev σ s v := amodify σ s (set_prev v);
  of_init := init;
}.
End AosStore.

Module SoaStore.
Record t := mk {
  id_ : list Z; ts_ : list Z; qty_ : list Z; orig_qty_ : list Z; next_ : list Z; prev_ : list Z; level_ : list Z;
  owner_ : list Z; side_ : list Side
}.
Definition make (cap : Z) : t :=
  mk (amake cap 0) (amake cap 0) (amake cap 0) (amake cap 0) (amake cap 0) (amake cap 0) (amake cap 0) (amake cap 0)
     (amake cap Buy).
Definition set_qty (σ : t) (s v : Z) : option t :=
  a ← (qty_ σ).[s <- v];
  Some (mk (id_ σ) (ts_ σ) a (orig_qty_ σ) (next_ σ) (prev_ σ) (level_ σ) (owner_ σ) (side_ σ)).
Definition set_next (σ : t) (s v : Z) : option t :=
  a ← (next_ σ).[s <- v];
  Some (mk (id_ σ) (ts_ σ) (qty_ σ) (orig_qty_ σ) a (prev_ σ) (level_ σ) (owner_ σ) (side_ σ)).
Definition set_prev (σ : t) (s v : Z) : option t :=
  a ← (prev_ σ).[s <- v];
  Some (mk (id_ σ) (ts_ σ) (qty_ σ) (orig_qty_ σ) (next_ σ) a (level_ σ) (owner_ σ) (side_ σ)).
Definition init (σ : t) (s i q l w : Z) (sd : Side) (tm : Z) : option t :=
  a1 ← (id_ σ).[s <- i]; a2 ← (ts_ σ).[s <- tm]; a3 ← (qty_ σ).[s <- q]; a4 ← (orig_qty_ σ).[s <- q];
  a5 ← (level_ σ).[s <- l]; a6 ← (owner_ σ).[s <- w]; a7 ← (side_ σ).[s <- sd];
  Some (mk a1 a2 a3 a4 (next_ σ) (prev_ σ) a5 a6 a7).

#[export] Instance fields : OrderFields t := {
  of_make := make;
  of_id σ s := (id_ σ).[s];
  of_qty σ s := (qty_ σ).[s];
  of_next σ s := (next_ σ).[s];
  of_prev σ s := (prev_ σ).[s];
  of_level σ s := (level_ σ).[s];
  of_owner σ s := (owner_ σ).[s];
  of_side σ s := (side_ σ).[s];
  of_set_qty := set_qty;
  of_set_next := set_next;
  of_set_prev := set_prev;
  of_init := init;
}.
End SoaStore.

Module HybridStore.
(** What the engine reads or writes after insertion. *)
Record Record_ := mkRecord {
  id : Z; qty : Z; next : Z; prev : Z; level : Z; owner : Z; side : Side; flags : Z; pad : Z
}.
(** Written once on insert and never read by the engine. *)
Record Audit := mkAudit { ts : Z; orig_qty : Z }.
Record t := mk { rec_ : list Record_; audit_ : list Audit }.
Definition make (cap : Z) : t := mk (amake cap (mkRecord 0 0 0 0 0 0 Buy 0 0)) (amake cap (mkAudit 0 0)).
Definition set_qty (v : Z) (r : Record_) : Record_ :=
  mkRecord (id r) v (next r) (prev r) (level r) (owner r) (side r) (flags r) (pad r).
Definition set_next (v : Z) (r : Record_) : Record_ :=
  mkRecord (id r) (qty r) v (prev r) (level r) (owner r) (side r) (flags r) (pad r).
Definition set_prev (v : Z) (r : Record_) : Record_ :=
  mkRecord (id r) (qty r) (next r) v (level r) (owner r) (side r) (flags r) (pad r).
Definition on_rec (σ : t) (s : Z) (f : Record_ -> Record_) : option t := a ← amodify (rec_ σ) s f; Some (mk a (audit_ σ)).
Definition init (σ : t) (s i q l w : Z) (sd : Side) (tm : Z) : option t :=
  a ← amodify (rec_ σ) s (fun r => mkRecord i q (next r) (prev r) l w sd 0 (pad r));
  b ← (audit_ σ).[s <- mkAudit tm q];
  Some (mk a b).

#[export] Instance fields : OrderFields t := {
  of_make := make;
  of_id σ s := id <$> (rec_ σ).[s];
  of_qty σ s := qty <$> (rec_ σ).[s];
  of_next σ s := next <$> (rec_ σ).[s];
  of_prev σ s := prev <$> (rec_ σ).[s];
  of_level σ s := level <$> (rec_ σ).[s];
  of_owner σ s := owner <$> (rec_ σ).[s];
  of_side σ s := side <$> (rec_ σ).[s];
  of_set_qty σ s v := on_rec σ s (set_qty v);
  of_set_next σ s v := on_rec σ s (set_next v);
  of_set_prev σ s v := on_rec σ s (set_prev v);
  of_init := init;
}.
End HybridStore.

(** ** The layouts satisfy the laws *)

(** An array of records seen through a projection: [amodify] is [upd]. *)
Lemma amodify_upd {A} (proj : A -> OrderRec) (f : A -> A) (g : OrderRec -> OrderRec) (a : list A) s :
  (forall x, proj (f x) = g (proj x)) -> is_Some (proj <$> a.[s]) ->
  exists a', amodify a s f = Some a' /\ alen a' = alen a /\ upd s g (fun t => proj <$> a.[t]) (fun t => proj <$> a'.[t]).
Proof.
  intros Hf [r Hr]. destruct (a.[s]) as [x|] eqn:Hx; [|done].
  destruct (amodify_Some a s f x Hx) as (a' & Ha' & Hl & Ht). exists a'. split_and!; [done..|].
  intros t. rewrite Ht. destruct (Z.eqb_spec t s) as [->|]; [|done]. by rewrite Hx; simpl; rewrite Hf.
Qed.

Lemma amake_dom {A} cap (v : A) s : 0 <= cap -> is_Some ((amake cap v).[s]) <-> 0 <= s < cap.
Proof.
  intros Hc. split.
  - intros [x Hx]. apply aget_bound in Hx. by rewrite alen_amake in Hx.
  - intros Hs. rewrite aget_amake by done. by eexists.
Qed.

Module AosLaws.
Import AosStore.
Definition proj (o : Order) : OrderRec := mkRec (id o) (qty o) (next o) (prev o) (level o) (owner o) (side o).

Ltac get := intros; simpl; by rewrite <- option_fmap_compose.

#[export] Program Instance laws : OrderFieldsLaws t := {|
  of_ok _ := True;
  of_rec σ s := proj <$> σ.[s];
|}.
Next Obligation. done. Qed.
Next Obligation. intros cap s Hc. rewrite fmap_is_Some. by apply amake_dom. Qed.
Next Obligation. get. Qed.
Next Obligation. get. Qed.
Next Obligation. get. Qed.
Next Obligation. get. Qed.
Next Obligation. get. Qed.
Next Obligation. get. Qed.
Next Obligation. get. Qed.
Next Obligation.
  intros σ s v _ Hs. destruct (amodify_upd proj (set_qty v) (rec_set_qty v) σ s) as (a & Ha & _ & Hu); [done..|]. by exists a.
Qed.
Next Obligation.
  intros σ s v _ Hs. destruct (amodify_upd proj (set_next v) (rec_set_next v) σ s) as (a & Ha & _ & Hu); [done..|]. by exists a.
Qed.
Next Obligation.
  intros σ s v _ Hs. destruct (amodify_upd proj (set_prev v) (rec_set_prev v) σ s) as (a & Ha & _ & Hu); [done..|]. by exists a.
Qed.
Next Obligation.
  intros σ s i q l w sd tm _ Hs.
  destruct (amodify_upd proj (fun o => mkOrder i tm q q (next o) (prev o) l w sd 0) (rec_init i q l w sd) σ s)
    as (a & Ha & _ & Hu); [done..|]. by exists a.
Qed.
End AosLaws.

Module HybridLaws.
Import HybridStore.
Definition proj (r : Record_) : OrderRec := mkRec (id r) (qty r) (next r) (prev r) (level r) (owner r) (side r).
Definition ok (σ : t) : Prop := alen (audit_ σ) = alen (rec_ σ).

Ltac get := intros; simpl; by rewrite <- option_fmap_compose.

Lemma on_rec_spec σ s f g : (forall x, proj (f x) = g (proj x)) -> ok σ -> is_Some (proj <$> (rec_ σ).[s]) ->
  exists σ', on_rec σ s f = Some σ' /\ ok σ' /\ upd s g (fun t => proj <$> (rec_ σ).[t]) (fun t => proj <$> (rec_ σ').[t]).
Proof.
  intros Hf Hok Hs. destruct (amodify_upd proj f g (rec_ σ) s Hf Hs) as (a & Ha & Hl & Hu).
  unfold on_rec. rewrite Ha. eexists. split; [done|]. split; [|done]. unfold ok in *. simpl. congruence.
Qed.

#[export] Program Instance laws : OrderFieldsLaws t := {|
  of_ok := ok;
  of_rec σ s := proj <$> (rec_ σ).[s];
|}.
Next Obligation. intros cap. unfold ok. simpl. unfold alen, amake. by rewrite !length_replicate. Qed.
Next Obligation. intros cap s Hc. rewrite fmap_is_Some. by apply amake_dom. Qed.
Next Obligation. get. Qed.
Next Obligation. get. Qed.
Next Obligation. get. Qed.
Next Obligation. get. Qed.
Next Obligation. get. Qed.
Next Obligation. get. Qed.
Next Obligation. get. Qed.
Next Obligation. intros σ s v Hok Hs. by apply on_rec_spec. Qed.
Next Obligation. intros σ s v Hok Hs. by apply on_rec_spec. Qed.
Next Obligation. intros σ s v Hok Hs. by apply on_rec_spec. Qed.
Next Obligation.
  intros σ s i q l w sd tm Hok Hs. simpl. unfold init.
  destruct (amodify_upd proj (fun r => mkRecord i q (next r) (prev r) l w sd 0 (pad r)) (rec_init i q l w sd) (rec_ σ) s)
    as (a & Ha & Hl & Hu); [done..|]. rewrite Ha. simpl.
  assert (0 <= s < alen (audit_ σ)) as Hb.
  { rewrite Hok. destruct Hs as [r Hr]. destruct ((rec_ σ).[s]) eqn:E; [|done]. by eapply aget_bound. }
  aset_ex (audit_ σ) s (mkAudit tm q) b Hb'; [done|]. rewrite Hb'. simpl.
  eexists. split; [done|]. split; [|done]. unfold ok in *. simpl. rewrite (alen_aset _ _ _ _ Hb'). congruence.
Qed.
End HybridLaws.

Module SoaLaws.
Import SoaStore.

(** Nine arrays of one length. *)
Record ok_ (σ : t) (n : Z) : Prop := {
  ok_id : alen (id_ σ) = n; ok_ts : alen (ts_ σ) = n; ok_qty : alen (qty_ σ) = n; ok_oq : alen (orig_qty_ σ) = n;
  ok_next : alen (next_ σ) = n; ok_prev : alen (prev_ σ) = n; ok_level : alen (level_ σ) = n;
  ok_owner : alen (owner_ σ) = n; ok_side : alen (side_ σ) = n;
}.
Definition ok (σ : t) : Prop := exists n, ok_ σ n.

Definition rec (σ : t) (s : Z) : option OrderRec :=
  i ← (id_ σ).[s]; q ← (qty_ σ).[s]; n ← (next_ σ).[s]; p ← (prev_ σ).[s]; l ← (level_ σ).[s]; w ← (owner_ σ).[s];
  d ← (side_ σ).[s]; Some (mkRec i q n p l w d).

Lemma rec_in σ n s : ok_ σ n -> 0 <= s < n -> exists i q nx p l w d,
  (id_ σ).[s] = Some i /\ (qty_ σ).[s] = Some q /\ (next_ σ).[s] = Some nx /\ (prev_ σ).[s] = Some p /\
  (level_ σ).[s] = Some l /\ (owner_ σ).[s] = Some w /\ (side_ σ).[s] = Some d /\ rec σ s = Some (mkRec i q nx p l w d).
Proof.
  intros [] Hs. aget_ex (id_ σ) s i Hi; [lia|]. aget_ex (qty_ σ) s q Hq; [lia|]. aget_ex (next_ σ) s nx Hn; [lia|].
  aget_ex (prev_ σ) s p Hp; [lia|]. aget_ex (level_ σ) s l Hl; [lia|]. aget_ex (owner_ σ) s w Hw; [lia|].
  aget_ex (side_ σ) s d Hd; [lia|]. exists i, q, nx, p, l, w, d. split_and!; try done.
  unfold rec. by rewrite Hi, Hq, Hn, Hp, Hl, Hw, Hd.
Qed.

Lemma aget_out {A} (a : list A) s : ~ (0 <= s < alen a) -> a.[s] = None.
Proof. intros Hs. destruct (a.[s]) eqn:E; [|done]. apply aget_bound in E. done. Qed.

Lemma rec_dom σ n s : ok_ σ n -> is_Some (rec σ s) <-> 0 <= s < n.
Proof.
  intros Hok. split.
  - intros [r Hr]. unfold rec in Hr. apply bind_Some in Hr as (i & Hi & _). apply aget_bound in Hi.
    by rewrite (ok_id _ _ Hok) in Hi.
  - intros Hs. destruct (rec_in _ _ _ Hok Hs) as (i & q & nx & p & l & w & d & _ & _ & _ & _ & _ & _ & _ & ->). by eexists.
Qed.

(** Every field is read from the record. *)
Lemma field_spec {A} σ s (field : t -> list A) (f : OrderRec -> A) : ok σ ->
  (forall n i q nx p l w d, ok_ σ n -> 0 <= s < n -> (id_ σ).[s] = Some i -> (qty_ σ).[s] = Some q -> (next_ σ).[s] = Some nx ->
    (prev_ σ).[s] = Some p -> (level_ σ).[s] = Some l -> (owner_ σ).[s] = Some w -> (side_ σ).[s] = Some d ->
    (field σ).[s] = Some (f (mkRec i q nx p l w d))) ->
  (forall n, ok_ σ n -> alen (field σ) = n) -> (field σ).[s] = f <$> rec σ s.
Proof.
  intros [n Hok] Hf Hl. destruct (decide (0 <= s < n)) as [Hs|Hs].
  - destruct (rec_in _ _ _ Hok Hs) as (i & q & nx & p & l & w & d & ? & ? & ? & ? & ? & ? & ? & ->). simpl. by eapply Hf.
  - destruct (rec σ s) eqn:E; simpl.
    + exfalso. apply Hs. apply (rec_dom σ n s Hok). by rewrite E; eexists.
    + apply aget_out. by rewrite (Hl n).
Qed.

(** A write to some of the arrays at [s] changes the record of [s] only. *)
Lemma rec_frame σ σ' n s g : ok_ σ n -> ok_ σ' n -> 0 <= s < n ->
  (forall t, t <> s -> (id_ σ').[t] = (id_ σ).[t] /\ (qty_ σ').[t] = (qty_ σ).[t] /\ (next_ σ').[t] = (next_ σ).[t] /\
    (prev_ σ').[t] = (prev_ σ).[t] /\ (level_ σ').[t] = (level_ σ).[t] /\ (owner_ σ').[t] = (owner_ σ).[t] /\
    (side_ σ').[t] = (side_ σ).[t]) ->
  rec σ' s = g <$> rec σ s -> upd s g (rec σ) (rec σ').
Proof.
  intros Hok Hok' Hs Hne He t. destruct (Z.eqb_spec t s) as [->|Ht]; [done|].
  destruct (Hne t Ht) as (E1 & E2 & E3 & E4 & E5 & E6 & E7). unfold rec. by rewrite E1, E2, E3, E4, E5, E6, E7.
Qed.

Ltac setter field :=
  intros σ s v [n Hok] Hs; apply (rec_dom _ _ _ Hok) in Hs;
  destruct (aset_is_Some (field σ) s v) as [a Ha]; [by destruct Hok; lia|];
  destruct (rec_in _ _ _ Hok Hs) as (i & q & nx & p & l & w & d & ? & ? & ? & ? & ? & ? & ? & Hr);
  simpl; unfold set_qty, set_next, set_prev; rewrite Ha; simpl;
  match goal with |- exists σ', Some ?x = Some σ' /\ _ => assert (ok_ x n) as Hok' by
    (destruct Hok; split; simpl; try done; by rewrite (alen_aset _ _ _ _ Ha)) end;
  eexists; split; [done|]; split; [by exists n|]; apply (rec_frame _ _ n); [done|done|done| |];
  [ intros t Ht; simpl; split_and!; try done; by apply (aget_aset_ne _ _ _ _ _ Ha)
  | rewrite Hr; unfold rec; simpl; rewrite (aget_aset_eq _ _ _ _ Ha); repeat (match goal with H : _ = Some _ |- _ => rewrite H end; simpl); done ].

Lemma init_spec σ s i q l w sd tm : ok σ -> is_Some (rec σ s) ->
  exists σ', init σ s i q l w sd tm = Some σ' /\ ok σ' /\ upd s (rec_init i q l w sd) (rec σ) (rec σ').
Proof.
  intros [n Hok] Hs. apply (rec_dom _ _ _ Hok) in Hs. pose proof Hok as [].
  aset_ex (id_ σ) s i a1 H1; [lia|]. aset_ex (ts_ σ) s tm a2 H2; [lia|]. aset_ex (qty_ σ) s q a3 H3; [lia|].
  aset_ex (orig_qty_ σ) s q a4 H4; [lia|]. aset_ex (level_ σ) s l a5 H5; [lia|]. aset_ex (owner_ σ) s w a6 H6; [lia|].
  aset_ex (side_ σ) s sd a7 H7; [lia|]. unfold init. rewrite H1, H2, H3, H4, H5, H6, H7. simpl.
  match goal with |- exists σ', Some ?x = Some σ' /\ _ => assert (ok_ x n) as Hok' end.
  { split; simpl; try done.
    all: match goal with H : aset _ _ _ = Some ?a |- alen ?a = _ => by rewrite (alen_aset _ _ _ _ H) end. }
  eexists. split; [done|]. split; [by exists n|]. apply (rec_frame _ _ n); [done|done|done| |].
  - intros t Ht. simpl. split_and!; try done.
    all: match goal with H : aset _ _ _ = Some ?a |- aget ?a _ = _ => by apply (aget_aset_ne _ _ _ _ _ H) end.
  - destruct (rec_in _ _ _ Hok Hs) as (i0 & q0 & nx & p & l0 & w0 & d & ? & ? & Hn & Hp & ? & ? & ? & ->).
    unfold rec. simpl. rewrite (aget_aset_eq _ _ _ _ H1), (aget_aset_eq _ _ _ _ H3), (aget_aset_eq _ _ _ _ H5),
      (aget_aset_eq _ _ _ _ H6), (aget_aset_eq _ _ _ _ H7), Hn, Hp. done.
Qed.

Ltac get := intros σ s Hok; simpl; apply field_spec; [done| |]; [by intros; simplify_eq|by intros n []].

#[export] Program Instance laws : OrderFieldsLaws t := {| of_ok := ok; of_rec := rec; of_rec_init := init_spec |}.
Next Obligation.
  intros cap. exists (Z.max 0 cap). split; simpl; unfold alen, amake; rewrite length_replicate; lia.
Qed.
Next Obligation.
  intros cap s Hc. apply rec_dom. split; simpl; by rewrite alen_amake.
Qed.
Next Obligation. get. Qed.
Next Obligation. get. Qed.
Next Obligation. get. Qed.
Next Obligation. get. Qed.
Next Obligation. get. Qed.
Next Obligation. get. Qed.
Next Obligation. get. Qed.
Next Obligation. setter qty_. Qed.
Next Obligation. setter next_. Qed.
Next Obligation. setter prev_. Qed.
End SoaLaws.
