(* ===== verification/OrderIndex.v ===== *)
(** * Order id to store slot: open addressing with Robin Hood order (order_index.hpp)

    One array of [{fingerprint, slot}] pairs, linear probing, insertion in Robin Hood order, backward-shift deletion.
    The table does not hold the keys: it confirms a fingerprint match through the caller's [key_of]. The theorems show
    that, under either hash policy and for every table that is not full, it is a finite map from ids to slots, that
    every probe loop ends, and that the Robin Hood order is kept. *)
From S2P Require Import Prelude Bits Common Interfaces.

(** A hash policy: the 32-bit fingerprint of an id, given the number of bits of the table size. *)
Class HashPolicy := {
  fingerprint : Z -> Z -> Z;
  fingerprint_u32 k bits : in_u32 (fingerprint k bits);
}.

(** Murmur3 fmix64. *)
Definition scatter_fingerprint (k bits : Z) : Z :=
  let k := Z.lxor k (Z.shiftr k 33) in
  let k := u64 (k * 18397679294719823053) in
  let k := Z.lxor k (Z.shiftr k 33) in
  let k := u64 (k * 14181476777654086739) in
  let k := Z.lxor k (Z.shiftr k 33) in
  u32 k.

Definition locality_fingerprint (k bits : Z) : Z := u32 (Z.lxor k (Z.shiftr k bits)).

Definition ScatterHash : HashPolicy := {|
  fingerprint := scatter_fingerprint;
  fingerprint_u32 k bits := in_u32_u32 _;
|}.
Definition LocalityHash : HashPolicy := {|
  fingerprint := locality_fingerprint;
  fingerprint_u32 k bits := in_u32_u32 _;
|}.

Module OrderIndex.

(** [kNil] in [value] marks an empty slot. *)
Record Slot := mkSlot { fp : Z; value : Z }.

(** The table of an index under the hash policy [h]. *)
Record t (h : HashPolicy) := mk { mask_ : Z; bits_ : Z; slots_ : list Slot; size_ : Z }.
Arguments mk {h} _ _ _ _.
Arguments mask_ {h} _.
Arguments bits_ {h} _.
Arguments slots_ {h} _.
Arguments size_ {h} _.

Section index.
Context {h : HashPolicy}.
Abbreviation t := (t h).

Definition make (max_entries : Z) : t :=
  let mask := u32 (bit_ceil (Z.max (2 * max_entries) 16) - 1) in
  mk mask (countr_zero (mask + 1)) (amake (mask + 1) (mkSlot 0 kNil)) 0.

(** Probe distance of the entry at slot [i] from its home slot. *)
Definition dist (mask i f : Z) : Z := Z.land (u32 (i - f)) mask.
Definition next (mask i : Z) : Z := Z.land (u32 (i + 1)) mask.

(** The probe loop of [find] and [erase]: the position and the store slot of [key], or [Some None] when a slot shows
    that the key is absent. [fuel] bounds the iterations of [for (;;)]; the table's size is enough. *)
Fixpoint probe (mask : Z) (slots : list Slot) (f key : Z) (key_of : Z -> option Z) (fuel : nat) (i d : Z)
    : option (option (Z * Z)) :=
  match fuel with
  | O => None
  | S fuel =>
      s ← slots.[i];
      if (value s =? kNil) || (dist mask i (fp s) <? d) then Some None else
      if fp s =? f then
        k ← key_of (value s);
        if k =? key then Some (Some (i, value s)) else probe mask slots f key key_of fuel (next mask i) (u32 (d + 1))
      else probe mask slots f key key_of fuel (next mask i) (u32 (d + 1))
  end.

Definition find (x : t) (key : Z) (key_of : Z -> option Z) : option Z :=
  let f := fingerprint key (bits_ x) in
  r ← probe (mask_ x) (slots_ x) f key key_of (length (slots_ x)) (Z.land f (mask_ x)) 0;
  Some (match r with Some (_, v) => v | None => kNil end).

Fixpoint insert_loop (mask : Z) (fuel : nat) (slots : list Slot) (cur : Slot) (i d : Z) : option (list Slot) :=
  match fuel with
  | O => None
  | S fuel =>
      s ← slots.[i];
      if value s =? kNil then slots.[i <- cur] else
      let sd := dist mask i (fp s) in
      if sd <? d then
        slots ← slots.[i <- cur];
        insert_loop mask fuel slots s (next mask i) (u32 (sd + 1))
      else insert_loop mask fuel slots cur (next mask i) (u32 (d + 1))
  end.

Definition insert (x : t) (key v : Z) : option t :=
  let cur := mkSlot (fingerprint key (bits_ x)) v in
  slots ← insert_loop (mask_ x) (length (slots_ x)) (slots_ x) cur (Z.land (fp cur) (mask_ x)) 0;
  Some (mk (mask_ x) (bits_ x) slots (u64 (size_ x + 1))).

(** The shift of [remove_at]: stops at an empty slot or at an entry in its home slot. *)
Fixpoint shift_back (mask : Z) (fuel : nat) (slots : list Slot) (hole j : Z) : option (list Slot * Z) :=
  match fuel with
  | O => None
  | S fuel =>
      s ← slots.[j];
      if negb (value s =? kNil) && negb (dist mask j (fp s) =? 0) then
        slots ← slots.[hole <- s];
        shift_back mask fuel slots j (next mask j)
      else Some (slots, hole)
  end.

Definition remove_at (x : t) (hole : Z) : option t :=
  '(slots, hole) ← shift_back (mask_ x) (length (slots_ x)) (slots_ x) hole (next (mask_ x) hole);
  s ← slots.[hole];
  slots ← slots.[hole <- mkSlot (fp s) kNil];
  Some (mk (mask_ x) (bits_ x) slots (u64 (size_ x - 1))).

(** [while (slots_[i].value != value) i = (i + 1) & mask_;] *)
Fixpoint seek (mask : Z) (slots : list Slot) (v : Z) (fuel : nat) (i : Z) : option Z :=
  match fuel with
  | O => None
  | S fuel => s ← slots.[i]; if value s =? v then Some i else seek mask slots v fuel (next mask i)
  end.

Definition erase_known (x : t) (key v : Z) : option t :=
  let f := fingerprint key (bits_ x) in
  i ← seek (mask_ x) (slots_ x) v (length (slots_ x)) (Z.land f (mask_ x));
  remove_at x i.

Definition erase (x : t) (key : Z) (key_of : Z -> option Z) : option (t * Z) :=
  let f := fingerprint key (bits_ x) in
  r ← probe (mask_ x) (slots_ x) f key key_of (length (slots_ x)) (Z.land f (mask_ x)) 0;
  match r with
  | Some (i, v) => x ← remove_at x i; Some (x, v)
  | None => Some (x, kNil)
  end.

Definition size (x : t) : Z := size_ x.
Definition slot_count (x : t) : Z := mask_ x + 1.

(** The test-only audit: along a run, the distance from home grows by at most one per slot. *)
Definition slot_ordered (mask : Z) (slots : list Slot) (i : Z) : bool :=
  match slots.[i], slots.[Z.land (u32 (i - 1)) mask] with
  | Some s, Some p =>
      (value s =? kNil) ||
      let d := dist mask i (fp s) in
      negb ((0 <? d) && ((value p =? kNil) || (dist mask (Z.land (u32 (i - 1)) mask) (fp p) + 1 <? d)))
  | _, _ => false
  end.
Definition robin_hood_ordered (x : t) : bool :=
  forallb (fun i => slot_ordered (mask_ x) (slots_ x) (Z.of_nat i)) (seq 0 (length (slots_ x))).

End index.

(** ** Arithmetic of a table of [2^b] slots *)

Definition pow2_size (N : Z) : Prop := exists b, 4 <= b <= 32 /\ N = 2 ^ b.

Lemma pow2_size_bounds N : pow2_size N -> 16 <= N <= 4294967296.
Proof.
  intros (b & Hb & ->). change 16 with (2 ^ 4). change 4294967296 with (2 ^ 32). split; apply Z.pow_le_mono_r; lia.
Qed.

Lemma land_mask N x : pow2_size N -> Z.land x (N - 1) = x mod N.
Proof.
  intros (b & Hb & ->). replace (2 ^ b - 1) with (Z.ones b); [by rewrite Z.land_ones by lia|].
  rewrite Z.ones_equiv. lia.
Qed.

Lemma land_u32_mask N x : pow2_size N -> Z.land (u32 x) (N - 1) = x mod N.
Proof.
  intros HN. rewrite land_mask by done. destruct HN as (b & Hb & ->). unfold u32. change 4294967296 with (2 ^ 32).
  apply Z.mod_mod_divide. exists (2 ^ (32 - b)). rewrite <- Z.pow_add_r by lia. f_equal. lia.
Qed.

Section table.
Context (N : Z) (HN : pow2_size N).

Definition nxt (i : Z) : Z := (i + 1) mod N.
Definition prv (i : Z) : Z := (i - 1) mod N.
Definition dst (i f : Z) : Z := (i - f) mod N.

Lemma dist_dst i f : dist (N - 1) i f = dst i f.
Proof. by apply land_u32_mask. Qed.
Lemma next_nxt i : next (N - 1) i = nxt i.
Proof. by apply land_u32_mask. Qed.

Lemma N_pos : 16 <= N <= 4294967296.
Proof. by apply pow2_size_bounds. Qed.

Lemma mod_range x : 0 <= x mod N < N.
Proof. pose proof N_pos. apply Z.mod_pos_bound. lia. Qed.

(** Congruence modulo the table size, for slots in range. *)
Lemma mod_eq x y k : 0 <= y < N -> x = y + k * N -> x mod N = y.
Proof. intros Hy ->. rewrite Z.mod_add by lia. by apply Z.mod_small. Qed.

Lemma nxt_cases i : 0 <= i < N -> nxt i = if i =? N - 1 then 0 else i + 1.
Proof.
  pose proof N_pos. intros Hi. unfold nxt. destruct (Z.eqb_spec i (N - 1)) as [->|].
  - apply (mod_eq _ _ 1); lia.
  - apply (mod_eq _ _ 0); lia.
Qed.

Lemma prv_cases i : 0 <= i < N -> prv i = if i =? 0 then N - 1 else i - 1.
Proof.
  pose proof N_pos. intros Hi. unfold prv. destruct (Z.eqb_spec i 0) as [->|].
  - apply (mod_eq _ _ (-1)); lia.
  - apply (mod_eq _ _ 0); lia.
Qed.

Lemma prv_nxt i : 0 <= i < N -> prv (nxt i) = i.
Proof.
  pose proof N_pos. intros Hi. rewrite nxt_cases by done. destruct (Z.eqb_spec i (N - 1)); rewrite prv_cases by lia;
    case_if; lia.
Qed.

Lemma nxt_prv i : 0 <= i < N -> nxt (prv i) = i.
Proof.
  pose proof N_pos. intros Hi. rewrite prv_cases by done. destruct (Z.eqb_spec i 0); rewrite nxt_cases by lia;
    case_if; lia.
Qed.

Lemma nxt_ne i : 0 <= i < N -> nxt i <> i.
Proof. pose proof N_pos. intros Hi. rewrite nxt_cases by done. case_if; lia. Qed.

Lemma prv_ne i : 0 <= i < N -> prv i <> i.
Proof. pose proof N_pos. intros Hi. rewrite prv_cases by done. case_if; lia. Qed.

(** One step forward adds one to the distance, unless it comes back to the home slot. *)
Lemma dst_nxt i f : 0 <= i < N -> dst (nxt i) f = if dst i f =? N - 1 then 0 else dst i f + 1.
Proof.
  pose proof N_pos. intros Hi. unfold dst, nxt. rewrite Zminus_mod_idemp_l.
  pose proof (mod_range (i - f)). pose proof (Z.div_mod (i - f) N). replace (i + 1 - f) with (i - f + 1) by lia.
  set (q := (i - f) / N) in *. set (r := (i - f) mod N) in *. destruct (Z.eqb_spec r (N - 1)).
  - apply (mod_eq _ _ (q + 1)); lia.
  - apply (mod_eq _ _ q); lia.
Qed.

Lemma dst_prv i f : 0 <= i < N -> dst (prv i) f = if dst i f =? 0 then N - 1 else dst i f - 1.
Proof.
  pose proof N_pos. intros Hi. unfold dst, prv. rewrite Zminus_mod_idemp_l.
  pose proof (mod_range (i - f)). pose proof (Z.div_mod (i - f) N). replace (i - 1 - f) with (i - f - 1) by lia.
  set (q := (i - f) / N) in *. set (r := (i - f) mod N) in *. destruct (Z.eqb_spec r 0).
  - apply (mod_eq _ _ (q - 1)); lia.
  - apply (mod_eq _ _ q); lia.
Qed.

Lemma dst_range i f : 0 <= dst i f < N.
Proof. apply mod_range. Qed.

Lemma dst_home f : dst (f mod N) f = 0.
Proof. unfold dst. rewrite Zminus_mod_idemp_l, Z.sub_diag. apply Z.mod_0_l. pose proof N_pos. lia. Qed.

(** Two slots at the same distance from one home are the same slot. *)
Lemma dst_inj i j f : 0 <= i < N -> 0 <= j < N -> dst i f = dst j f -> i = j.
Proof.
  pose proof N_pos. unfold dst. intros Hi Hj He. pose proof (Z.div_mod (i - f) N). pose proof (Z.div_mod (j - f) N).
  generalize dependent ((i - f) / N). generalize dependent ((j - f) / N). rewrite He. intros a Ha b Hb.
  assert (i - j = N * (b - a)) by lia. assert (b - a = 0) by nia. nia.
Qed.

(** One step forward is one step nearer to another slot. *)
Lemma dst_to i j : 0 <= i < N -> 0 <= j < N -> i <> j -> dst j (nxt i) = dst j i - 1.
Proof.
  pose proof N_pos. unfold dst, nxt. intros Hi Hj Hne. rewrite Zminus_mod_idemp_r.
  pose proof (mod_range (j - i)). pose proof (Z.div_mod (j - i) N). set (q := (j - i) / N) in *.
  assert ((j - i) mod N <> 0) by (intros He; assert (q = 0) by nia; nia).
  apply (mod_eq _ _ q); lia.
Qed.

End table.

(** ** What a table holds *)

Section contents.
Context (N : Z) (HN : pow2_size N) (F : Z -> Z).
Implicit Types (slots : list Slot) (i j hole d : Z) (e : Slot) (m : gmap Z Z).
#[local] Abbreviation dst := (dst N).
#[local] Abbreviation nxt := (nxt N).
#[local] Abbreviation prv := (prv N).

Definition occ slots i e : Prop := slots.[i] = Some e /\ value e <> kNil.

(** Robin Hood order: an entry away from home follows an entry whose distance is at most one less. *)
Definition rh slots : Prop :=
  forall i e, occ slots i e -> 0 < dst i (fp e) ->
  exists e', occ slots (prv i) e' /\ dst i (fp e) <= dst (prv i) (fp e') + 1.

(** [e] is the entry of some key of [m]. *)
Definition entry_of m e : Prop := value e <> kNil /\ exists k, m !! k = Some (value e) /\ fp e = F k.

(** The slots other than [hole] (a slot whose entry has been moved), with the pending entry [pend], hold exactly the
    entries of [m]. The steady state has [hole = -1] and no pending entry. *)
Record cont slots hole (pend : option Slot) m : Prop := {
  ct_len : alen slots = N;
  ct_slot i e : occ slots i e -> i <> hole -> entry_of m e;
  ct_pend e : pend = Some e -> entry_of m e;
  ct_key k v : m !! k = Some v ->
    pend = Some (mkSlot (F k) v) \/ exists i, i <> hole /\ slots.[i] = Some (mkSlot (F k) v);
  ct_uniq i j e e' : occ slots i e -> occ slots j e' -> i <> hole -> j <> hole -> value e = value e' -> i = j;
  ct_pend_uniq i e e' : pend = Some e' -> occ slots i e -> i <> hole -> value e <> value e';
  ct_val k v : m !! k = Some v -> 0 <= v < kNil;
  ct_inj k k' v : m !! k = Some v -> m !! k' = Some v -> k = k';
}.

Lemma occ_range slots i e : alen slots = N -> occ slots i e -> 0 <= i < N.
Proof. intros Hl [Hi _]. apply aget_bound in Hi. lia. Qed.

(** A table with fewer entries than slots has an empty slot. *)
Lemma empty_slot slots pend m : cont slots (-1) pend m -> Z.of_nat (base.size m) < N ->
  exists i e, 0 <= i < N /\ slots.[i] = Some e /\ value e = kNil.
Proof.
  intros Hc Hm. destruct (decide (Exists (fun e => value e = kNil) slots)) as [He|He].
  - apply Exists_exists in He as (e & Hin & He). apply list_elem_of_lookup in Hin as [i Hi].
    exists (Z.of_nat i), e. assert (slots.[Z.of_nat i] = Some e) as Hg.
    { apply aget_Some. rewrite Nat2Z.id. split; [lia|done]. }
    split_and!; try done; [lia|]. apply aget_bound in Hg. rewrite (ct_len _ _ _ _ Hc) in Hg. lia.
  - exfalso. apply not_Exists_Forall in He; [|solve_decision].
    assert (forall (i : nat) e, slots !! i = Some e -> occ slots (Z.of_nat i) e) as Hocc.
    { intros i e Hi. split; [apply aget_Some; rewrite Nat2Z.id; split; [lia|done]|].
      by apply (Forall_lookup_1 _ _ _ _ He Hi). }
    assert (length (value <$> slots) <= length ((map_to_list m).*2))%nat as Hle.
    { apply submseteq_length, NoDup_submseteq.
      - apply NoDup_alt. intros i j v Hi Hj. rewrite list_lookup_fmap in Hi, Hj.
        apply fmap_Some in Hi as (e & Hi & ->). apply fmap_Some in Hj as (e' & Hj & Hv).
        enough (Z.of_nat i = Z.of_nat j) by lia. eapply (ct_uniq _ _ _ _ Hc); eauto; lia.
      - intros v Hv. apply list_elem_of_fmap in Hv as (e & -> & Hin). apply list_elem_of_lookup in Hin as [i Hi].
        destruct (ct_slot _ _ _ _ Hc (Z.of_nat i) e) as (_ & k & Hk & _); [by apply Hocc|lia|].
        apply list_elem_of_fmap. exists (k, value e). split; [done|]. by apply elem_of_map_to_list. }
    rewrite !length_fmap, length_map_to_list in Hle. pose proof (ct_len _ _ _ _ Hc) as Hl. unfold alen in Hl. lia.
Qed.

(** Walking back from an entry, its distance runs down to zero through occupied slots. *)
Lemma rh_back slots j e : alen slots = N -> rh slots -> occ slots j e ->
  forall n, Z.of_nat n <= dst j (fp e) ->
  exists e', occ slots ((j - Z.of_nat n) mod N) e' /\ dst j (fp e) - Z.of_nat n <= dst ((j - Z.of_nat n) mod N) (fp e').
Proof.
  intros Hl Hrh Ho n. pose proof (occ_range _ _ _ Hl Ho) as Hj. induction n as [|n IH]; intros Hn.
  - exists e. rewrite Z.sub_0_r, Z.mod_small by done. split; [done|lia].
  - destruct IH as (e' & Ho' & Hd); [lia|]. set (i := (j - Z.of_nat n) mod N) in *.
    destruct (Hrh i e' Ho') as (e'' & Ho'' & Hd''); [lia|].
    replace ((j - Z.of_nat (S n)) mod N) with (prv i); [exists e''; split; [done|lia]|].
    unfold prv, i. rewrite Zminus_mod_idemp_l. f_equal. lia.
Qed.

(** Seen from the home slot: the [d]-th slot of the way to an entry is occupied, by an entry at distance [d] or more. *)
Lemma rh_path slots j e d : alen slots = N -> rh slots -> occ slots j e -> 0 <= d <= dst j (fp e) ->
  exists e', occ slots ((fp e + d) mod N) e' /\ d <= dst ((fp e + d) mod N) (fp e').
Proof.
  intros Hl Hrh Ho Hd. pose proof (occ_range _ _ _ Hl Ho) as Hj.
  destruct (rh_back _ _ _ Hl Hrh Ho (Z.to_nat (dst j (fp e) - d))) as (e' & Ho' & Hd'); [lia|].
  rewrite Z2Nat.id in * by lia. replace ((fp e + d) mod N) with ((j - (dst j (fp e) - d)) mod N).
  - exists e'. split; [done|lia].
  - unfold OrderIndex.dst. rewrite <- Zminus_mod_idemp_r, Zminus_mod_idemp_l, Zminus_mod_idemp_r. f_equal. lia.
Qed.

(** An empty slot bounds every distance by less than [N - 1]. *)
Lemma rh_not_far slots i0 e0 i e : alen slots = N -> rh slots -> 0 <= i0 < N -> slots.[i0] = Some e0 -> value e0 = kNil ->
  occ slots i e -> dst i (fp e) < N - 1.
Proof.
  intros Hl Hrh Hi0 He0 Hv Ho. pose proof (occ_range _ _ _ Hl Ho) as Hi. pose proof (dst_range N HN i (fp e)).
  destruct (Z.lt_ge_cases (dst i (fp e)) (N - 1)) as [|Hge]; [done|]. exfalso.
  destruct (rh_back _ _ _ Hl Hrh Ho (Z.to_nat ((i - i0) mod N))) as (e' & [Ho' Hv'] & _).
  { pose proof (mod_range N HN (i - i0)). lia. }
  rewrite Z2Nat.id in Ho' by (apply (mod_range N HN)). rewrite Zminus_mod_idemp_r in Ho'.
  replace ((i - (i - i0)) mod N) with i0 in Ho' by (rewrite Z.mod_small; lia). congruence.
Qed.

(** *** Reading *)

Section read.
Context slots m (key_of : Z -> option Z) (i0 : Z) (e0 : Slot).
Hypotheses (Hc : cont slots (-1) None m) (Hrh : rh slots) (Hkeys : keys_from m key_of).
Hypotheses (Hi0 : 0 <= i0 < N) (He0 : slots.[i0] = Some e0) (Hv0 : value e0 = kNil).

Lemma probe_spec k fuel d : 0 <= d <= dst i0 (F k) -> dst i0 (F k) - d < Z.of_nat fuel ->
  (forall p v, slots.[p] = Some (mkSlot (F k) v) -> m !! k = Some v -> d <= dst p (F k)) ->
  exists r, probe (N - 1) slots (F k) k key_of fuel ((F k + d) mod N) d = Some r /\
    match r with Some (p, v) => slots.[p] = Some (mkSlot (F k) v) /\ m !! k = Some v | None => m !! k = None end.
Proof.
  pose proof (ct_len _ _ _ _ Hc) as Hl. revert d. induction fuel as [|fuel IH]; intros d Hd Hf Hp; [lia|].
  pose proof (mod_range N HN (F k + d)) as Hi. set (i := (F k + d) mod N) in *.
  pose proof (dst_range N HN i0 (F k)) as Hr0. aget_ex slots i s Hs; [lia|]. simpl. rewrite Hs. simpl.
  rewrite dist_dst, next_nxt by done.
  assert (dst i (F k) = d) as Hdi.
  { unfold i, OrderIndex.dst. rewrite Zminus_mod_idemp_l. replace (F k + d - F k) with d by lia.
    apply Z.mod_small. lia. }
  destruct ((value s =? kNil) || (dst i (fp s) <? d)) eqn:Estop.
  { exists None. split; [done|]. destruct (m !! k) as [v|] eqn:Hk; [|done]. exfalso.
    destruct (ct_key _ _ _ _ Hc _ _ Hk) as [?|(p & _ & Hpp)]; [done|]. pose proof (ct_val _ _ _ _ Hc _ _ Hk).
    destruct (rh_path slots p (mkSlot (F k) v) d) as (e' & [Ho Hne] & Hle); [done..|split; simpl; [done|lia]| |].
    { simpl. split; [lia|]. by apply (Hp p v). }
    simpl in Ho, Hle. fold i in Ho, Hle. rewrite Hs in Ho. injection Ho as <-. to_prop. lia. }
  to_prop. assert (occ slots i s) as Ho by done.
  assert (nxt i = (F k + (d + 1)) mod N) as Hn.
  { unfold i, OrderIndex.nxt. rewrite Zplus_mod_idemp_l. f_equal. lia. }
  assert (d <> dst i0 (F k)) as Hdne.
  { intros He. rewrite <- Hdi in He. apply dst_inj in He; [|done..]. congruence. }
  assert (u32 (d + 1) = d + 1) as Hu by (apply u32_small; words; pose proof (N_pos N HN); lia).
  assert ((fp s = F k -> m !! k = Some (value s) -> False) ->
    exists r, probe (N - 1) slots (F k) k key_of fuel (nxt i) (u32 (d + 1)) = Some r /\
    match r with Some (p, v) => slots.[p] = Some (mkSlot (F k) v) /\ m !! k = Some v | None => m !! k = None end)
    as Hgo.
  { intros Hno. rewrite Hu, Hn. apply IH; [lia..|]. intros p v Hpp Hk. specialize (Hp p v Hpp Hk).
    enough (d <> dst p (F k)) by lia. intros He. rewrite <- Hdi in He. apply dst_inj in He; [|done..|].
    - subst p. rewrite Hs in Hpp. injection Hpp as ->. by apply Hno.
    - apply aget_bound in Hpp. lia. }
  destruct (Z.eqb_spec (fp s) (F k)) as [Hfp|Hfp]; [|apply Hgo; done].
  destruct (ct_slot _ _ _ _ Hc i s Ho) as (_ & k' & Hk' & _); [lia|]. rewrite (Hkeys _ _ Hk'). simpl.
  destruct (Z.eqb_spec k' k) as [->|Hkk].
  - exists (Some (i, value s)). split; [done|]. split; [|done]. rewrite <- Hfp. by destruct s.
  - apply Hgo. intros _ Hk. apply Hkk. by apply (ct_inj _ _ _ _ Hc _ _ (value s)).
Qed.

Lemma seek_spec k v p fuel d : m !! k = Some v -> slots.[p] = Some (mkSlot (F k) v) ->
  0 <= d <= dst p (F k) -> dst p (F k) - d < Z.of_nat fuel ->
  seek (N - 1) slots v fuel ((F k + d) mod N) = Some p.
Proof.
  intros Hk Hp. pose proof (ct_len _ _ _ _ Hc) as Hl. pose proof (ct_val _ _ _ _ Hc _ _ Hk).
  assert (occ slots p (mkSlot (F k) v)) as Hop by (split; simpl; [done|lia]).
  pose proof (occ_range _ _ _ Hl Hop) as Hpr. pose proof (dst_range N HN p (F k)).
  revert d. induction fuel as [|fuel IH]; intros d Hd Hf; [lia|].
  pose proof (mod_range N HN (F k + d)) as Hi. set (i := (F k + d) mod N) in *.
  aget_ex slots i s Hs; [lia|]. simpl. rewrite Hs. simpl. rewrite next_nxt by done.
  destruct (Z.eqb_spec (value s) v) as [Hv|Hv].
  - f_equal. apply (ct_uniq _ _ _ _ Hc _ _ s (mkSlot (F k) v)); [split; [done|lia]|done|lia|lia|done].
  - replace (nxt i) with ((F k + (d + 1)) mod N).
    + apply IH; [|lia]. enough (d <> dst p (F k)) by lia. intros ->. apply Hv.
      enough (i = p) as Hip by (rewrite Hip, Hp in Hs; by injection Hs as <-).
      apply (dst_inj N HN _ _ (F k)); [done..|]. unfold i, OrderIndex.dst. rewrite Zminus_mod_idemp_l.
      replace (F k + (p - F k) mod N - F k) with ((p - F k) mod N) by lia. by rewrite Zmod_mod.
    + unfold i, OrderIndex.nxt. rewrite Zplus_mod_idemp_l. f_equal. lia.
Qed.
End read.

(** *** Writing *)

(** Moving the pending entry into an occupied slot makes the entry it displaces the pending one. *)
Lemma cont_swap slots slots' i cur s m : cont slots (-1) (Some cur) m -> occ slots i s -> slots.[i <- cur] = Some slots' ->
  cont slots' (-1) (Some s) m.
Proof.
  intros Hc Ho Ha. pose proof (aget_bound _ _ _ (proj1 Ho)) as Hi.
  assert (forall j e, occ slots' j e -> j = i /\ e = cur \/ j <> i /\ occ slots j e) as Hocc.
  { intros j e [Hj Hv]. rewrite (aget_aset _ _ _ _ _ Ha) in Hj. destruct (Z.eqb_spec j i); [left; naive_solver|].
    right. done. }
  constructor.
  - rewrite (alen_aset _ _ _ _ Ha). apply (ct_len _ _ _ _ Hc).
  - intros j e Hj Hne. apply Hocc in Hj as [[-> ->]|[? Hj]]; [by apply (ct_pend _ _ _ _ Hc)|].
    by apply (ct_slot _ _ _ _ Hc j).
  - intros e [= <-]. apply (ct_slot _ _ _ _ Hc i); [done|lia].
  - intros k v Hk. destruct (ct_key _ _ _ _ Hc _ _ Hk) as [Hp|(j & Hj & Hs)].
    + injection Hp as ->. right. exists i. split; [lia|]. apply (aget_aset_eq _ _ _ _ Ha).
    + destruct (decide (j = i)) as [->|Hne]; [left; destruct Ho; congruence|].
      right. exists j. split; [done|]. by rewrite (aget_aset_ne _ _ _ _ _ Ha).
  - intros j j' e e' Hj Hj' Hn Hn' Hv. apply Hocc in Hj as [[-> ->]|[? Hj]], Hj' as [[-> ->]|[? Hj']]; [done| | |].
    + destruct (ct_pend_uniq _ _ _ _ Hc j' e' cur); [done..|congruence].
    + destruct (ct_pend_uniq _ _ _ _ Hc j e cur); [done..|congruence].
    + by apply (ct_uniq _ _ _ _ Hc j j' e e').
  - intros j e e' [= <-] Hj Hne Hv. apply Hocc in Hj as [[-> ->]|[? Hj]].
    + apply (ct_pend_uniq _ _ _ _ Hc i s cur); [done..|congruence].
    + assert (j = i); [|done]. apply (ct_uniq _ _ _ _ Hc j i e s); [done|done|lia|lia|done].
  - apply (ct_val _ _ _ _ Hc).
  - apply (ct_inj _ _ _ _ Hc).
Qed.

(** Moving the pending entry into an empty slot. *)
Lemma cont_fill slots slots' i cur s m : cont slots (-1) (Some cur) m -> slots.[i] = Some s -> value s = kNil ->
  slots.[i <- cur] = Some slots' -> cont slots' (-1) None m.
Proof.
  intros Hc Hs Hsv Ha. pose proof (aget_bound _ _ _ Hs) as Hi.
  assert (forall j e, occ slots' j e -> j = i /\ e = cur \/ j <> i /\ occ slots j e) as Hocc.
  { intros j e [Hj Hv]. rewrite (aget_aset _ _ _ _ _ Ha) in Hj. destruct (Z.eqb_spec j i); [left; naive_solver|].
    right. done. }
  constructor.
  - rewrite (alen_aset _ _ _ _ Ha). apply (ct_len _ _ _ _ Hc).
  - intros j e Hj Hne. apply Hocc in Hj as [[-> ->]|[? Hj]]; [by apply (ct_pend _ _ _ _ Hc)|].
    by apply (ct_slot _ _ _ _ Hc j).
  - done.
  - intros k v Hk. right. destruct (ct_key _ _ _ _ Hc _ _ Hk) as [Hp|(j & Hj & Hp)].
    + injection Hp as ->. exists i. split; [lia|]. apply (aget_aset_eq _ _ _ _ Ha).
    + exists j. split; [done|]. rewrite (aget_aset_ne _ _ _ _ _ Ha); [done|]. intros ->.
      pose proof (ct_val _ _ _ _ Hc _ _ Hk). rewrite Hs in Hp. injection Hp as ->. simpl in Hsv. lia.
  - intros j j' e e' Hj Hj' Hn Hn' Hv. apply Hocc in Hj as [[-> ->]|[? Hj]], Hj' as [[-> ->]|[? Hj']]; [done| | |].
    + destruct (ct_pend_uniq _ _ _ _ Hc j' e' cur); [done..|congruence].
    + destruct (ct_pend_uniq _ _ _ _ Hc j e cur); [done..|congruence].
    + by apply (ct_uniq _ _ _ _ Hc j j' e e').
  - done.
  - apply (ct_val _ _ _ _ Hc).
  - apply (ct_inj _ _ _ _ Hc).
Qed.

(** A new pair starts as the pending entry. *)
Lemma cont_start slots m k v : cont slots (-1) None m -> m !! k = None -> 0 <= v < kNil ->
  (forall k', m !! k' <> Some v) -> cont slots (-1) (Some (mkSlot (F k) v)) (<[k:=v]> m).
Proof.
  intros Hc Hk Hv Hfresh.
  assert (forall e, entry_of m e -> entry_of (<[k:=v]> m) e) as Hent.
  { intros e (He & k' & Hk' & Hf). split; [done|]. exists k'. rewrite lookup_insert_ne by congruence. done. }
  constructor.
  - apply (ct_len _ _ _ _ Hc).
  - intros i e Ho Hi. apply Hent. by apply (ct_slot _ _ _ _ Hc i).
  - intros e [= <-]. split; simpl; [lia|]. exists k. by rewrite lookup_insert_eq.
  - intros k' v' Hk'. apply lookup_insert_Some in Hk' as [[-> ->]|[Hne Hk']]; [by left|].
    destruct (ct_key _ _ _ _ Hc _ _ Hk') as [?|?]; [done|by right].
  - apply (ct_uniq _ _ _ _ Hc).
  - intros i e e' [= <-] Ho Hi Hve. destruct (ct_slot _ _ _ _ Hc i e Ho Hi) as (_ & k' & Hk' & _).
    apply (Hfresh k'). simpl in Hve. congruence.
  - intros k' v' Hk'. apply lookup_insert_Some in Hk' as [[-> ->]|[Hne Hk']]; [done|].
    by apply (ct_val _ _ _ _ Hc k').
  - intros k1 k2 v' H1 H2. apply lookup_insert_Some in H1 as [[E1 E2]|[? H1]], H2 as [[E3 E4]|[? H2]];
      [congruence| | |].
    + destruct (Hfresh k2). congruence.
    + destruct (Hfresh k1). congruence.
    + by apply (ct_inj _ _ _ _ Hc k1 k2 v').
Qed.

(** Putting an entry into a slot keeps the Robin Hood order when its predecessor and its successor allow it. *)
Lemma rh_put slots slots' i e : alen slots = N -> rh slots -> slots.[i <- e] = Some slots' -> value e <> kNil ->
  (0 < dst i (fp e) -> exists e', occ slots (prv i) e' /\ dst i (fp e) <= dst (prv i) (fp e') + 1) ->
  (forall e', occ slots (nxt i) e' -> 0 < dst (nxt i) (fp e') -> dst (nxt i) (fp e') <= dst i (fp e) + 1) ->
  rh slots'.
Proof.
  intros Hl Hrh Ha Hv Hprev Hnext j x [Hj Hxv] Hd. pose proof Ha as Hb. apply aget_aset_eq, aget_bound in Hb.
  rewrite (alen_aset _ _ _ _ Ha), Hl in Hb. rewrite (aget_aset _ _ _ _ _ Ha) in Hj.
  assert (forall e', occ slots (prv j) e' -> prv j <> i -> occ slots' (prv j) e') as Hkeep.
  { intros e' [Ho Hov] Hne. split; [|done]. by rewrite (aget_aset_ne _ _ _ _ _ Ha). }
  destruct (Z.eqb_spec j i) as [->|Hne].
  - injection Hj as ->. destruct (Hprev Hd) as (e' & Ho & Hle). exists e'. split; [|done].
    apply Hkeep; [done|]. by apply prv_ne.
  - pose proof (aget_bound _ _ _ Hj) as Hjr. rewrite Hl in Hjr. destruct (decide (prv j = i)) as [Hp|Hp].
    + exists e. rewrite Hp. split; [split; [by apply (aget_aset_eq _ _ _ _ Ha)|done]|].
      assert (nxt i = j) as Hn by (rewrite <- Hp; by apply nxt_prv). rewrite <- Hn in *. by apply Hnext.
    + destruct (Hrh j x) as (e' & Ho & Hle); [done..|]. exists e'. auto.
Qed.

Lemma insert_loop_spec m i0 e0 fuel slots cur i d : cont slots (-1) (Some cur) m -> rh slots ->
  0 <= i0 < N -> slots.[i0] = Some e0 -> value e0 = kNil -> 0 <= i < N -> d = dst i (fp cur) ->
  (d = 0 \/ exists e', occ slots (prv i) e' /\ d <= dst (prv i) (fp e') + 1) -> dst i0 i < Z.of_nat fuel ->
  exists slots', insert_loop (N - 1) fuel slots cur i d = Some slots' /\ cont slots' (-1) None m /\ rh slots'.
Proof.
  revert slots cur i d. induction fuel as [|fuel IH]; intros slots cur i d Hc Hrh Hi0 He0 Hv0 Hi Hd Hprev Hf.
  { pose proof (dst_range N HN i0 i). lia. }
  pose proof (ct_len _ _ _ _ Hc) as Hl. destruct (ct_pend _ _ _ _ Hc cur eq_refl) as [Hcv _].
  aget_ex slots i s Hs; [lia|]. simpl. rewrite Hs. simpl. rewrite dist_dst, next_nxt by done.
  assert (0 < dst i (fp cur) -> exists e', occ slots (prv i) e' /\ dst i (fp cur) <= dst (prv i) (fp e') + 1) as Hprev'.
  { destruct Hprev as [|Hp]; [lia|]. by rewrite <- Hd. }
  aset_ex slots i cur slots' Ha; [lia|]. destruct (Z.eqb_spec (value s) kNil) as [Hsv|Hsv].
  { exists slots'. split; [done|]. split; [by apply (cont_fill slots _ i cur s)|].
    apply (rh_put slots _ i cur); try done. intros e' Ho Hpos. destruct (Hrh _ _ Ho Hpos) as (e'' & [Ho' ?] & _).
    rewrite prv_nxt in Ho' by done. congruence. }
  assert (occ slots i s) as Ho by done.
  assert (dst i (fp s) < N - 1) as Hfar by (eapply rh_not_far; [| | |exact He0| |]; done).
  assert (i <> i0) as Hii0 by congruence.
  assert (dst i0 (nxt i) < Z.of_nat fuel) as Hf' by (rewrite dst_to by done; lia).
  pose proof (N_pos N HN). pose proof (dst_range N HN i (fp s)). pose proof (dst_range N HN i (fp cur)).
  destruct (Z.ltb_spec (dst i (fp s)) d) as [Hlt|Hge].
  - rewrite Ha. simpl. apply IH; try done.
    + by apply (cont_swap slots _ i cur s).
    + apply (rh_put slots _ i cur); try done. intros e' Ho' Hpos. destruct (Hrh _ _ Ho' Hpos) as (e'' & [Ho'' ?] & Hle).
      rewrite prv_nxt in Ho'', Hle by done. assert (e'' = s) by congruence. subst e''. lia.
    + by rewrite (aget_aset_ne _ _ _ _ _ Ha).
    + by apply mod_range.
    + rewrite dst_nxt by done. case_if; [lia|]. rewrite u32_small; [done|]. words. lia.
    + right. exists cur. rewrite prv_nxt by done. split; [split; [by apply (aget_aset_eq _ _ _ _ Ha)|done]|].
      rewrite u32_small; [lia|]. words. lia.
  - apply IH; try done.
    + by apply mod_range.
    + rewrite dst_nxt by done. rewrite <- Hd. case_if; [lia|]. rewrite u32_small; [done|]. words. lia.
    + right. exists s. rewrite prv_nxt by done. split; [done|]. rewrite u32_small; [lia|]. words. lia.
Qed.

(** Moving an entry into the hole makes its old slot the hole. *)
Lemma cont_move slots slots' hole j e m : cont slots hole None m -> 0 <= hole -> occ slots j e -> j <> hole ->
  slots.[hole <- e] = Some slots' -> cont slots' j None m.
Proof.
  intros Hc Hh Ho Hne Ha.
  assert (forall x y, occ slots' x y -> x <> j -> x = hole /\ y = e \/ x <> hole /\ occ slots x y) as Hocc.
  { intros x y [Hx Hv] Hxj. rewrite (aget_aset _ _ _ _ _ Ha) in Hx. destruct (Z.eqb_spec x hole); [left; naive_solver|].
    right. done. }
  constructor.
  - rewrite (alen_aset _ _ _ _ Ha). apply (ct_len _ _ _ _ Hc).
  - intros x y Hx Hxj. apply Hocc in Hx as [[-> ->]|[? Hx]]; [|by apply (ct_slot _ _ _ _ Hc x)|done].
    by apply (ct_slot _ _ _ _ Hc j).
  - done.
  - intros k v Hk. right. destruct (ct_key _ _ _ _ Hc _ _ Hk) as [?|(x & Hx & Hs)]; [done|].
    destruct (decide (x = j)) as [->|Hxj].
    + exists hole. split; [done|]. rewrite (aget_aset_eq _ _ _ _ Ha). destruct Ho. congruence.
    + exists x. split; [done|]. by rewrite (aget_aset_ne _ _ _ _ _ Ha).
  - intros x x' y y' Hx Hx' Hn Hn' Hv.
    apply Hocc in Hx as [[-> ->]|[? Hx]], Hx' as [[-> ->]|[? Hx']]; try done.
    + destruct Hn'. symmetry. by apply (ct_uniq _ _ _ _ Hc j x' e y').
    + destruct Hn. by apply (ct_uniq _ _ _ _ Hc x j y e).
    + by apply (ct_uniq _ _ _ _ Hc x x' y y').
  - done.
  - apply (ct_val _ _ _ _ Hc).
  - apply (ct_inj _ _ _ _ Hc).
Qed.

(** Emptying the hole gives the steady state. *)
Lemma cont_clear slots slots' hole f m : cont slots hole None m -> 0 <= hole ->
  slots.[hole <- mkSlot f kNil] = Some slots' -> cont slots' (-1) None m.
Proof.
  intros Hc Hh Ha.
  assert (forall x y, occ slots' x y -> x <> hole /\ occ slots x y) as Hocc.
  { intros x y [Hx Hv]. rewrite (aget_aset _ _ _ _ _ Ha) in Hx. destruct (Z.eqb_spec x hole).
    - injection Hx as <-. by destruct Hv.
    - split; [done|]. by split. }
  constructor.
  - rewrite (alen_aset _ _ _ _ Ha). apply (ct_len _ _ _ _ Hc).
  - intros x y Hx _. apply Hocc in Hx as [? Hx]. by apply (ct_slot _ _ _ _ Hc x).
  - done.
  - intros k v Hk. right. destruct (ct_key _ _ _ _ Hc _ _ Hk) as [?|(x & Hx & Hs)]; [done|].
    exists x. split; [apply aget_bound in Hs; lia|]. by rewrite (aget_aset_ne _ _ _ _ _ Ha).
  - intros x x' y y' Hx Hx' _ _ Hv. apply Hocc in Hx as [? Hx], Hx' as [? Hx'].
    by apply (ct_uniq _ _ _ _ Hc x x' y y').
  - done.
  - apply (ct_val _ _ _ _ Hc).
  - apply (ct_inj _ _ _ _ Hc).
Qed.

(** Removing a pair makes the slot of its entry the hole. *)
Lemma cont_hole slots p k v m : cont slots (-1) None m -> m !! k = Some v -> slots.[p] = Some (mkSlot (F k) v) ->
  cont slots p None (delete k m).
Proof.
  intros Hc Hk Hp. pose proof (ct_val _ _ _ _ Hc _ _ Hk).
  assert (occ slots p (mkSlot (F k) v)) as Hop by (split; simpl; [done|lia]).
  assert (forall x y, occ slots x y -> x <> -1) as Hm1 by (intros x y [Hx _]; apply aget_bound in Hx; lia).
  constructor.
  - apply (ct_len _ _ _ _ Hc).
  - intros x y Hx Hxp. destruct (ct_slot _ _ _ _ Hc x y Hx) as (Hy & k' & Hk' & Hf); [by eapply Hm1|]. split; [done|].
    exists k'. split; [|done]. rewrite lookup_delete_ne; [done|]. intros <-. apply Hxp.
    apply (ct_uniq _ _ _ _ Hc x p y (mkSlot (F k) v)); eauto. simpl. congruence.
  - done.
  - intros k' v' Hk'. apply lookup_delete_Some in Hk' as [Hne Hk']. right.
    destruct (ct_key _ _ _ _ Hc _ _ Hk') as [?|(x & Hx & Hs)]; [done|]. exists x. split; [|done].
    intros ->. rewrite Hp in Hs. injection Hs as _ <-. apply Hne. by apply (ct_inj _ _ _ _ Hc k k' v).
  - intros x x' y y' Hx Hx' _ _. apply (ct_uniq _ _ _ _ Hc); eauto.
  - done.
  - intros k' v' Hk'. apply lookup_delete_Some in Hk' as [_ Hk']. by apply (ct_val _ _ _ _ Hc k').
  - intros k1 k2 v' H1 H2. apply lookup_delete_Some in H1 as [_ H1], H2 as [_ H2]. by apply (ct_inj _ _ _ _ Hc k1 k2 v').
Qed.

Lemma shift_back_spec m i0 e0 fuel slots hole eh : cont slots hole None m -> rh slots ->
  0 <= i0 < N -> slots.[i0] = Some e0 -> value e0 = kNil -> occ slots hole eh -> dst i0 (nxt hole) < Z.of_nat fuel ->
  exists slots' hole', shift_back (N - 1) fuel slots hole (nxt hole) = Some (slots', hole') /\
    cont slots' hole' None m /\ rh slots' /\ 0 <= hole' < N /\
    (forall e, occ slots' (nxt hole') e -> dst (nxt hole') (fp e) = 0).
Proof.
  revert slots hole eh. induction fuel as [|fuel IH]; intros slots hole eh Hc Hrh Hi0 He0 Hv0 Hoh Hf.
  { pose proof (dst_range N HN i0 (nxt hole)). lia. }
  pose proof (ct_len _ _ _ _ Hc) as Hl. pose proof (occ_range _ _ _ Hl Hoh) as Hhr.
  pose proof (mod_range N HN (hole + 1)) as Hnr. fold (OrderIndex.nxt N hole) in Hnr.
  aget_ex slots (nxt hole) s Hs; [lia|]. simpl. rewrite Hs. simpl. rewrite dist_dst, next_nxt by done.
  destruct (negb (value s =? kNil) && negb (dst (nxt hole) (fp s) =? 0)) eqn:Eg.
  - to_prop. assert (occ slots (nxt hole) s) as Ho by done. pose proof (dst_range N HN (nxt hole) (fp s)).
    destruct (Hrh _ _ Ho) as (e' & Hoh' & Hle); [lia|]. rewrite prv_nxt in Hoh', Hle by done.
    assert (e' = eh) by (destruct Hoh, Hoh'; congruence). subst e'.
    assert (nxt hole <> hole) as Hnh by (by apply nxt_ne). assert (hole <> i0) as Hhi by (destruct Hoh; congruence).
    assert (nxt hole <> i0) as Hni by congruence.
    assert (dst hole (fp s) = dst (nxt hole) (fp s) - 1) as Hds.
    { rewrite <- (prv_nxt N HN hole) at 1 by done. rewrite dst_prv by done. case_if; [lia|done]. }
    aset_ex slots hole s slots' Ha; [lia|]. rewrite Ha. simpl. apply (IH _ _ s).
    + by apply (cont_move slots _ hole (nxt hole) s); [|lia|..].
    + apply (rh_put slots _ hole s); try done.
      * intros Hpos. destruct (Hrh _ _ Hoh) as (e' & Hoe & Hle'); [lia|]. exists e'. split; [done|]. lia.
      * intros e' Ho' _. assert (e' = s) by (destruct Ho'; congruence). subst e'. lia.
    + done.
    + by rewrite (aget_aset_ne _ _ _ _ _ Ha).
    + done.
    + split; [|done]. by rewrite (aget_aset_ne _ _ _ _ _ Ha).
    + rewrite dst_to by done. lia.
  - exists slots, hole. split_and!; try done; try lia. intros e [Ho Hov]. assert (e = s) by congruence. subst e.
    apply andb_false_iff in Eg as [Eg|Eg]; to_prop; [by destruct Hov|done].
Qed.

Lemma remove_spec m k v p slots i0 e0 : cont slots (-1) None m -> rh slots ->
  0 <= i0 < N -> slots.[i0] = Some e0 -> value e0 = kNil -> m !! k = Some v -> slots.[p] = Some (mkSlot (F k) v) ->
  exists slots1 hole s slots',
    shift_back (N - 1) (length slots) slots p (next (N - 1) p) = Some (slots1, hole) /\ slots1.[hole] = Some s /\
    slots1.[hole <- mkSlot (fp s) kNil] = Some slots' /\ cont slots' (-1) None (delete k m) /\ rh slots'.
Proof.
  intros Hc Hrh Hi0 He0 Hv0 Hk Hp. pose proof (ct_len _ _ _ _ Hc) as Hl. pose proof (ct_val _ _ _ _ Hc _ _ Hk) as Hv.
  assert (occ slots p (mkSlot (F k) v)) as Hop by (split; simpl; [done|lia]).
  rewrite next_nxt by done.
  destruct (shift_back_spec (delete k m) i0 e0 (length slots) slots p (mkSlot (F k) v))
    as (slots1 & hole & He & Hc1 & Hrh1 & Hh & Hend); try done.
  { by apply (cont_hole slots p k v). }
  { pose proof (dst_range N HN i0 (nxt p)). unfold alen in Hl. lia. }
  pose proof (ct_len _ _ _ _ Hc1) as Hl1. aget_ex slots1 hole s Hs; [lia|].
  aset_ex slots1 hole (mkSlot (fp s) kNil) slots' Ha; [lia|].
  exists slots1, hole, s, slots'. split_and!; try done; [by apply (cont_clear slots1 _ hole (fp s)); [|lia|]|].
  intros j e [Hj Hjv] Hd. pose proof (aget_bound _ _ _ Hj) as Hjr. rewrite (alen_aset _ _ _ _ Ha), Hl1 in Hjr.
  rewrite (aget_aset _ _ _ _ _ Ha) in Hj. destruct (Z.eqb_spec j hole) as [->|Hne].
  { injection Hj as <-. by destruct Hjv. }
  destruct (Hrh1 j e) as (e' & [Ho Hov] & Hle); [done..|]. exists e'. split; [|done]. split; [|done].
  rewrite (aget_aset_ne _ _ _ _ _ Ha); [done|]. intros Hpj.
  assert (nxt hole = j) as Hn by (rewrite <- Hpj; by apply nxt_prv).
  specialize (Hend e). rewrite Hn in Hend. assert (dst j (fp e) = 0) by (by apply Hend). lia.
Qed.

End contents.

(** ** The abstraction: a table is a finite map *)

Record rep {h} (x : t h) (cap : Z) (m : gmap Z Z) : Prop := {
  rep_size : pow2_size (mask_ x + 1);
  rep_cont : cont (mask_ x + 1) (fun k => fingerprint k (bits_ x)) (slots_ x) (-1) None m;
  rep_rh : rh (mask_ x + 1) (slots_ x);
  rep_count : size_ x = Z.of_nat (base.size m);
  rep_cap : Z.of_nat (base.size m) <= cap < mask_ x + 1;
}.

Lemma table_size cap : 0 < cap < kNil ->
  pow2_size (u32 (bit_ceil (Z.max (2 * cap) 16) - 1) + 1) /\ cap < u32 (bit_ceil (Z.max (2 * cap) 16) - 1) + 1.
Proof.
  unfold kNil. intros Hc. set (x := Z.max (2 * cap) 16). unfold bit_ceil. rewrite (proj2 (Z.leb_gt x 1)) by lia.
  pose proof (Z.log2_up_spec x). assert (4 <= Z.log2_up x) by (apply Z.log2_up_le_lin in x || (change 4 with (Z.log2_up 16);
    apply Z.log2_up_le_mono; lia)).
  assert (Z.log2_up x <= 33) by (change 33 with (Z.log2_up 8589934592); apply Z.log2_up_le_mono; lia).
  destruct (decide (Z.log2_up x = 33)) as [He|Hne].
  - rewrite He. change (u32 (2 ^ 33 - 1) + 1) with 4294967296. split; [exists 32; lia|lia].
  - assert (2 ^ Z.log2_up x <= 2 ^ 32) by (apply Z.pow_le_mono_r; lia).
    assert (2 ^ 4 <= 2 ^ Z.log2_up x) by (apply Z.pow_le_mono_r; lia).
    rewrite u32_small by (words; lia). split; [exists (Z.log2_up x); lia|lia].
Qed.

Section rep_lemmas.
Context {h : HashPolicy}.
Implicit Types (x : t h) (m : gmap Z Z).

Lemma make_rep cap : 0 < cap < kNil -> rep (make cap) cap ∅.
Proof.
  intros Hc. destruct (table_size cap Hc) as [Hp Hlt]. pose proof (pow2_size_bounds _ Hp).
  assert (forall i e, ~ occ (slots_ (make cap)) i e) as Hno.
  { intros i e [Hs Hv]. pose proof (aget_bound _ _ _ Hs) as Hb. simpl in Hs, Hb. rewrite alen_amake in Hb by lia.
    rewrite aget_amake in Hs by lia. injection Hs as <-. by apply Hv. }
  split; try done.
  - constructor; try done.
    + simpl. rewrite alen_amake; lia.
    + intros i e Ho. by destruct (Hno i e).
    + intros i j e e' Ho. by destruct (Hno i e).
  - intros i e Ho. by destruct (Hno i e).
  - rewrite map_size_empty. simpl in *. lia.
Qed.

Lemma rep_empty_slot x cap m : rep x cap m ->
  exists i e, 0 <= i < mask_ x + 1 /\ (slots_ x).[i] = Some e /\ value e = kNil.
Proof. intros [Hp Hc ? ? ?]. apply (empty_slot _ _ _ _ _ Hc). lia. Qed.

(** The two lookups run the same probe loop. *)
Lemma rep_probe x cap m k key_of : rep x cap m -> keys_from m key_of ->
  exists r, probe (mask_ x) (slots_ x) (fingerprint k (bits_ x)) k key_of (length (slots_ x))
    (Z.land (fingerprint k (bits_ x)) (mask_ x)) 0 = Some r /\
  match r with
  | Some (p, v) => (slots_ x).[p] = Some (mkSlot (fingerprint k (bits_ x)) v) /\ m !! k = Some v
  | None => m !! k = None
  end.
Proof.
  intros Hr Hk. destruct (rep_empty_slot _ _ _ Hr) as (i0 & e0 & Hi0 & He0 & Hv0). destruct Hr as [Hp Hc Hrh Hn Hcap].
  pose proof (dst_range _ Hp i0 (fingerprint k (bits_ x))).
  destruct (probe_spec (mask_ x + 1) Hp (fun k => fingerprint k (bits_ x)) (slots_ x) m key_of i0 e0 Hc Hrh Hk Hi0 He0 Hv0 k (length (slots_ x)) 0)
    as (r & He & Hspec).
  - lia.
  - pose proof (ct_len _ _ _ _ _ _ Hc) as Hl. unfold alen in Hl. lia.
  - intros p v _ _. apply dst_range. done.
  - exists r. split; [|done]. rewrite Z.add_0_r, <- land_mask in He by done.
    replace (mask_ x + 1 - 1) with (mask_ x) in He by lia. done.
Qed.

Lemma find_spec x cap m k key_of : rep x cap m -> keys_from m key_of -> find x k key_of = Some (default kNil (m !! k)).
Proof.
  intros Hr Hk. destruct (rep_probe x cap m k key_of Hr Hk) as (r & He & Hs). unfold find. rewrite He. simpl.
  destruct r as [[p v]|]; [destruct Hs as [_ ->]|rewrite Hs]; done.
Qed.

Lemma insert_spec x cap m k v : rep x cap m -> m !! k = None -> Z.of_nat (base.size m) < cap -> 0 <= v < kNil ->
  (forall k', m !! k' <> Some v) -> exists x', insert x k v = Some x' /\ rep x' cap (<[k:=v]> m).
Proof.
  intros Hr Hk Hsz Hv Hf. destruct (rep_empty_slot _ _ _ Hr) as (i0 & e0 & Hi0 & He0 & Hv0).
  destruct Hr as [Hp Hc Hrh Hn Hcap]. set (f := fingerprint k (bits_ x)). pose proof (pow2_size_bounds _ Hp).
  assert (Z.land f (mask_ x) = f mod (mask_ x + 1)) as Hl by (rewrite <- land_mask by done; f_equal; lia).
  destruct (insert_loop_spec (mask_ x + 1) Hp (fun k => fingerprint k (bits_ x)) (<[k:=v]> m) i0 e0 (length (slots_ x))
    (slots_ x) (mkSlot f v) (Z.land f (mask_ x)) 0) as (slots' & He & Hc' & Hrh'); try done.
  - by apply (cont_start (mask_ x + 1) (fun k => fingerprint k (bits_ x)) (slots_ x) m k v).
  - rewrite Hl. by apply mod_range.
  - rewrite Hl. symmetry. by apply dst_home.
  - by left.
  - pose proof (ct_len _ _ _ _ _ _ Hc) as Hlen. unfold alen in Hlen.
    pose proof (dst_range _ Hp i0 (Z.land f (mask_ x))). lia.
  - replace (mask_ x + 1 - 1) with (mask_ x) in He by lia.
    exists (mk (mask_ x) (bits_ x) slots' (u64 (size_ x + 1))). unfold insert. fold f. simpl. rewrite He. split; [done|].
    assert (base.size (<[k:=v]> m) = S (base.size m)) as Hs by (by apply map_size_insert_None).
    split; simpl; [done..| |]; rewrite Hs; [|lia]. rewrite Hn, u64_small; [lia|]. words. lia.
Qed.

Lemma remove_rep x cap m k v p : rep x cap m -> m !! k = Some v ->
  (slots_ x).[p] = Some (mkSlot (fingerprint k (bits_ x)) v) -> exists x', remove_at x p = Some x' /\ rep x' cap (delete k m).
Proof.
  intros Hr Hk Hs. destruct (rep_empty_slot _ _ _ Hr) as (i0 & e0 & Hi0 & He0 & Hv0).
  destruct Hr as [Hp Hc Hrh Hn Hcap]. pose proof (pow2_size_bounds _ Hp).
  destruct (remove_spec (mask_ x + 1) Hp (fun k => fingerprint k (bits_ x)) m k v p (slots_ x) i0 e0)
    as (s1 & hole & s & s' & He & Hg & Ha & Hc' & Hrh');
    try done.
  replace (mask_ x + 1 - 1) with (mask_ x) in He by lia.
  exists (mk (mask_ x) (bits_ x) s' (u64 (size_ x - 1))). unfold remove_at. rewrite He. simpl. rewrite Hg. simpl.
  rewrite Ha. split; [done|].
  assert (base.size (delete k m) = pred (base.size m)) as Hsz by (apply map_size_delete_Some; eauto).
  assert (base.size m <> 0%nat) by (intros H0; apply map_size_empty_inv in H0; subst; done).
  split; simpl; [done..| |]; rewrite Hsz; [|lia]. rewrite Hn, u64_small; [lia|]. words. lia.
Qed.

Lemma erase_known_spec x cap m k v : rep x cap m -> m !! k = Some v ->
  exists x', erase_known x k v = Some x' /\ rep x' cap (delete k m).
Proof.
  intros Hr Hk. destruct (rep_empty_slot _ _ _ Hr) as (i0 & e0 & Hi0 & He0 & Hv0). pose proof Hr as [Hp Hc Hrh Hn Hcap].
  destruct (ct_key _ _ _ _ _ _ Hc _ _ Hk) as [?|(p & _ & Hs)]; [done|].
  destruct (remove_rep _ _ _ _ _ _ Hr Hk Hs) as (x' & Hx & Hr'). exists x'. split; [|done].
  unfold erase_known. pose proof (dst_range _ Hp p (fingerprint k (bits_ x))).
  pose proof (ct_len _ _ _ _ _ _ Hc) as Hl. unfold alen in Hl.
  pose proof (seek_spec _ Hp (fun k => fingerprint k (bits_ x)) _ _ Hc k v p (length (slots_ x)) 0 Hk Hs) as He.
  rewrite Z.add_0_r, <- land_mask in He by done. replace (mask_ x + 1 - 1) with (mask_ x) in He by lia.
  rewrite He by lia. done.
Qed.

Lemma erase_spec x cap m k key_of : rep x cap m -> keys_from m key_of ->
  exists x', erase x k key_of = Some (x', default kNil (m !! k)) /\ rep x' cap (delete k m).
Proof.
  intros Hr Hk. destruct (rep_probe x cap m k key_of Hr Hk) as (r & He & Hs). unfold erase. rewrite He. simpl.
  destruct r as [[p v]|].
  - destruct Hs as [Hs Hm]. destruct (remove_rep _ _ _ _ _ _ Hr Hm Hs) as (x' & -> & Hr'). exists x'.
    rewrite Hm. done.
  - exists x. rewrite Hs, delete_id by done. done.
Qed.

Lemma rep_ordered x cap m : rep x cap m -> robin_hood_ordered x = true.
Proof.
  intros [Hp Hc Hrh _ _]. unfold robin_hood_ordered. pose proof (ct_len _ _ _ _ _ _ Hc) as Hl.
  apply forallb_forall. intros n Hn. apply in_seq in Hn. unfold alen in Hl. set (i := Z.of_nat n).
  assert (0 <= i < mask_ x + 1) as Hi by lia. set (N := mask_ x + 1) in *.
  replace (mask_ x) with (N - 1) by lia. unfold slot_ordered. rewrite land_u32_mask by done. fold (prv N i).
  aget_ex (slots_ x) i s Hs; [unfold alen; lia|].
  aget_ex (slots_ x) (prv N i) p Hpp; [pose proof (mod_range N Hp (i - 1)); unfold alen, prv; lia|].
  rewrite Hs, Hpp, !dist_dst by done. destruct (Z.eqb_spec (value s) kNil) as [|Hv]; [done|]. simpl.
  apply negb_true_iff, andb_false_iff. destruct (Z.ltb_spec 0 (dst N i (fp s))) as [Hd|]; [right|by left].
  destruct (Hrh i s) as (e & [He Hev] & Hle); [done..|]. rewrite Hpp in He. injection He as <-.
  apply orb_false_iff. split; [by apply Z.eqb_neq|apply Z.ltb_ge; lia].
Qed.
End rep_lemmas.

#[export] Instance id_index (h : HashPolicy) : IdIndex (t h) := {
  ix_make := make;
  ix_find := find;
  ix_insert := insert;
  ix_erase_known := erase_known;
  ix_erase := erase;
  ix_size := size;
}.

#[export] Program Instance id_index_laws (h : HashPolicy) : IdIndexLaws (t h) := {
  ix_rep := rep;
  ix_rep_make := make_rep;
  ix_rep_find := find_spec;
  ix_rep_insert := insert_spec;
  ix_rep_erase_known := erase_known_spec;
  ix_rep_erase := erase_spec;
}.
Next Obligation. intros h x cap m Hr. apply (rep_count _ _ _ Hr). Qed.

End OrderIndex.
