(* ===== verification/Structures.v ===== *)
(** * The book's data structures, as a client uses them

    Whatever a client does with a price bitmap, an order index or an order store, from their construction on, they behave
    as a set of levels, a finite map and a stack of free slots. *)
From S2P Require Import Prelude Common Interfaces PriceBitmap OrderStore OrderIndex.

Module Structures.

(** ** Price bitmap *)

Inductive BitOp := BSet (i : Z) | BClear (i : Z).
Definition bit_level (o : BitOp) : Z := match o with BSet i | BClear i => i end.
Definition bit_step (b : PriceBitmap.t) (o : BitOp) : option PriceBitmap.t :=
  match o with BSet i => PriceBitmap.set b i | BClear i => PriceBitmap.clear b i end.
Fixpoint bit_run (b : PriceBitmap.t) (ops : list BitOp) : option PriceBitmap.t :=
  match ops with [] => Some b | o :: ops => b ← bit_step b o; bit_run b ops end.
Fixpoint levels_after (X : gset Z) (ops : list BitOp) : gset Z :=
  match ops with
  | [] => X
  | BSet i :: ops => levels_after ({[i]} ∪ X) ops
  | BClear i :: ops => levels_after (X ∖ {[i]}) ops
  end.

Lemma bit_run_rep n ops : forall b X, PriceBitmap.rep b n X -> Forall (fun o => 0 <= bit_level o < n) ops ->
  exists b', bit_run b ops = Some b' /\ PriceBitmap.rep b' n (levels_after X ops).
Proof.
  induction ops as [|o ops IH]; intros b X Hb Ho; simpl; [eauto|]. apply Forall_cons in Ho as [Hi Ho].
  destruct o as [i|i]; simpl in *.
  - destruct (PriceBitmap.rep_set b n X i Hb Hi) as (b' & -> & Hb'). by apply IH.
  - destruct (PriceBitmap.rep_clear b n X i Hb Hi) as (b' & -> & Hb'). by apply IH.
Qed.

(** C8: a price bitmap of an accepted size is a set of levels: after any sets and clears of levels in range, [test] is
    membership, and [find_next] and [find_prev], given any integer, give the nearest level at or above (at or below) it,
    or the size (or -1) where there is none. *)
Theorem price_bitmap_is_set n ops : level_count_ok n -> Forall (fun o => 0 <= bit_level o < n) ops ->
  exists b b', PriceBitmap.make n = Some b /\ bit_run b ops = Some b' /\ let X := levels_after ∅ ops in
    (forall i, 0 <= i < n -> PriceBitmap.test b' i = Some (bool_decide (i ∈ X))) /\
    (forall i, exists r, PriceBitmap.find_next b' i = Some r /\ next_of X n i r) /\
    (forall i, exists r, PriceBitmap.find_prev b' i = Some r /\ prev_of X i r).
Proof.
  intros Hn Ho. destruct (PriceBitmap.rep_make n Hn) as (b & Hb & Hr). destruct (bit_run_rep n ops b ∅ Hr Ho) as (b' & Hb' & Hr').
  exists b, b'. split; [done|]. split; [done|]. split_and!; intros i.
  - by apply PriceBitmap.rep_test.
  - by apply PriceBitmap.rep_next.
  - by eapply PriceBitmap.rep_prev.
Qed.

Lemma price_bitmap_is_set_witness : exists b b', PriceBitmap.make 8192 = Some b /\
  bit_run b [BSet 3; BSet 8000; BClear 3; BSet 4097] = Some b' /\ exists r, PriceBitmap.find_next b' 4 = Some r.
Proof.
  destruct (price_bitmap_is_set 8192 [BSet 3; BSet 8000; BClear 3; BSet 4097]) as (b & b' & H1 & H2 & _ & H & _).
  - unfold level_count_ok. split; [lia|reflexivity].
  - repeat constructor; simpl; lia.
  - exists b, b'. split; [exact H1|]. split; [exact H2|]. destruct (H 4) as (r & Hr & _). exists r. exact Hr.
Defined.

(** ** Order index *)

Inductive IndexOp := IInsert (k s : Z) | IErase (k : Z) (key_of : Z -> option Z) | IEraseKnown (k s : Z).

Section index.
Context {h : HashPolicy}.

Definition index_step (x : OrderIndex.t h) (o : IndexOp) : option (OrderIndex.t h) :=
  match o with
  | IInsert k s => OrderIndex.insert x k s
  | IErase k key_of => fst <$> OrderIndex.erase x k key_of
  | IEraseKnown k s => OrderIndex.erase_known x k s
  end.
Fixpoint index_run (x : OrderIndex.t h) (ops : list IndexOp) : option (OrderIndex.t h) :=
  match ops with [] => Some x | o :: ops => x ← index_step x o; index_run x ops end.

Definition map_step (m : gmap Z Z) (o : IndexOp) : gmap Z Z :=
  match o with IInsert k s => <[k:=s]> m | IErase k _ | IEraseKnown k _ => delete k m end.
(** What the index asks of its client. *)
Definition op_ok (cap : Z) (m : gmap Z Z) (o : IndexOp) : Prop :=
  match o with
  | IInsert k s => m !! k = None /\ Z.of_nat (size m) < cap /\ 0 <= s < kNil /\ forall k', m !! k' <> Some s
  | IErase k key_of => keys_from m key_of
  | IEraseKnown k s => m !! k = Some s
  end.
Fixpoint ops_ok (cap : Z) (m : gmap Z Z) (ops : list IndexOp) : Prop :=
  match ops with [] => True | o :: ops => op_ok cap m o /\ ops_ok cap (map_step m o) ops end.

Lemma index_run_rep cap ops : forall (x : OrderIndex.t h) m, OrderIndex.rep x cap m -> ops_ok cap m ops ->
  exists x', index_run x ops = Some x' /\ OrderIndex.rep x' cap (foldl map_step m ops).
Proof.
  induction ops as [|o ops IH]; intros x m Hx Ho; simpl; [eauto|]. destruct Ho as [Ho Hos].
  destruct o as [k s|k key_of|k s]; simpl in *.
  - destruct Ho as (? & ? & ? & ?). destruct (OrderIndex.insert_spec x cap m k s Hx) as (x' & -> & Hx'); [done..|]. by apply IH.
  - destruct (OrderIndex.erase_spec x cap m k key_of Hx Ho) as (x' & -> & Hx'). by apply IH.
  - destruct (OrderIndex.erase_known_spec x cap m k s Hx Ho) as (x' & -> & Hx'). by apply IH.
Qed.
End index.

(** C9: an order index built for [cap] entries is a finite map, under either hash: after any operations within its
    contract every probe loop ends, lookups give the map's answer through any faithful [key_of], the size is the map's,
    and the Robin Hood order of the table holds. *)
Theorem order_index_is_map (h : HashPolicy) cap ops : 0 < cap < kNil -> ops_ok cap ∅ ops ->
  exists x : OrderIndex.t h, index_run (OrderIndex.make cap) ops = Some x /\ let m := foldl map_step ∅ ops in
    OrderIndex.robin_hood_ordered x = true /\ OrderIndex.size x = Z.of_nat (size m) /\
    forall k key_of, keys_from m key_of -> OrderIndex.find x k key_of = Some (default kNil (m !! k)).
Proof.
  intros Hc Ho. destruct (index_run_rep cap ops _ ∅ (OrderIndex.make_rep (h := h) cap Hc) Ho) as (x & Hx & Hr).
  exists x. split; [done|]. split; [by eapply OrderIndex.rep_ordered|]. split; [apply (OrderIndex.rep_count _ _ _ Hr)|].
  intros k key_of. by apply (OrderIndex.find_spec x cap).
Qed.

Lemma fresh_slot (m : gmap Z Z) s : bool_decide (map_Forall (fun _ s' => s' <> s) m) = true -> forall k, m !! k <> Some s.
Proof. intros H%bool_decide_eq_true k Hk. exact (H k s Hk eq_refl). Qed.
Lemma keys_from_bool (m : gmap Z Z) key_of : bool_decide (map_Forall (fun k s => key_of s = Some k) m) = true -> keys_from m key_of.
Proof. intros H%bool_decide_eq_true k s Hk. exact (H k s Hk). Qed.

Definition demo_index_ops : list IndexOp :=
  [IInsert 7 0; IInsert 23 1; IInsert 39 2; IEraseKnown 7 0; IInsert 55 0; IErase 23 (fun s => [55; 23; 39].[s])].

Lemma order_index_is_map_witness : exists x : OrderIndex.t LocalityHash, index_run (OrderIndex.make 4) demo_index_ops = Some x /\
  OrderIndex.robin_hood_ordered x = true /\ OrderIndex.size x = 2.
Proof.
  destruct (order_index_is_map LocalityHash 4 demo_index_ops) as (x & H & Ho & Hs & _); [unfold kNil; lia| |exists x; by split_and!].
  cbn [ops_ok demo_index_ops op_ok map_step]. unfold kNil. split_and!; try done; try lia;
    try (apply fresh_slot; vm_compute; reflexivity). apply keys_from_bool. vm_compute. reflexivity.
Defined.

(** ** Order store *)

Inductive StoreOp := Alloc | Release (s : Z).

Section store.
Context {S : Type} `{OrderFieldsLaws S}.

(** The store after the operations, and the slots [alloc] answered with. *)
Fixpoint store_run (st : FreeListStore.t S) (ops : list StoreOp) : option (FreeListStore.t S * list Z) :=
  match ops with
  | [] => Some (st, [])
  | Alloc :: ops => '(st, s) ← FreeListStore.alloc st; '(st, l) ← store_run st ops; Some (st, s :: l)
  | Release s :: ops => st ← FreeListStore.release st s; store_run st ops
  end.

(** The same on a stack of free slots; [None] where a slot is released that is not in use. *)
Fixpoint stack_run (cap : Z) (fl : list Z) (ops : list StoreOp) : option (list Z * list Z) :=
  match ops with
  | [] => Some (fl, [])
  | Alloc :: ops =>
      match fl with
      | [] => '(fl, l) ← stack_run cap [] ops; Some (fl, kNil :: l)
      | s :: fl => '(fl, l) ← stack_run cap fl ops; Some (fl, s :: l)
      end
  | Release s :: ops =>
      if bool_decide (0 <= s < cap /\ s ∉ fl) then stack_run cap (s :: fl) ops else None
  end.

Lemma store_run_rep cap ops : forall (st : FreeListStore.t S) fl fl' l, FreeListStore.rep st cap fl ->
  stack_run cap fl ops = Some (fl', l) -> exists st', store_run st ops = Some (st', l) /\ FreeListStore.rep st' cap fl'.
Proof.
  induction ops as [|[|s] ops IH]; intros st fl fl' l Hst Hr; simpl in *.
  - simplify_eq. eauto.
  - destruct fl as [|s fl].
    + rewrite (FreeListStore.alloc_empty st cap) by done. simpl. destruct (stack_run cap [] ops) as [[f l']|] eqn:E; [|done].
      simplify_eq/=. destruct (IH st [] _ _ Hst E) as (st' & -> & ?). eexists. by split.
    + destruct (FreeListStore.alloc_cons st cap s fl Hst) as (st1 & -> & _ & Hst1). simpl.
      destruct (stack_run cap fl ops) as [[f l']|] eqn:E; [|done].
      simplify_eq/=. destruct (IH st1 fl _ _ Hst1 E) as (st' & -> & ?). eexists. by split.
  - case_bool_decide as Hs; [|done]. destruct (FreeListStore.release_spec st cap fl s Hst) as (st1 & -> & Hst1 & _); [apply Hs..|].
    by apply (IH st1 (s :: fl)).
Qed.

(** The free list of an order store, over any layout, is a stack of the slots not in use: [alloc] answers with the
    slot released last, or a fresh one, never with one in use, and with the null slot exactly when all are in use; the
    live count is exact. *)
Lemma order_store_is_stack cap ops fl l : 0 < cap < kNil -> stack_run cap (seqZ 0 cap) ops = Some (fl, l) ->
  exists (st st' : FreeListStore.t S), FreeListStore.make cap = Some st /\ store_run st ops = Some (st', l) /\
    FreeListStore.live st' = cap - Z.of_nat (length fl) /\ NoDup fl.
Proof.
  intros Hc Hr. destruct (FreeListStore.make_spec cap Hc) as (st & Hm & Hst).
  destruct (store_run_rep cap ops st _ _ _ Hst Hr) as (st' & Hst' & Hrep). exists st, st'. split; [done|]. split; [done|].
  split; [apply (FreeListStore.rep_live _ _ _ Hrep)|apply (FreeListStore.rep_nodup _ _ _ Hrep)].
Qed.
End store.

Import (hints) HybridStore HybridLaws.
Lemma order_store_is_stack_witness : exists st st' : FreeListStore.t HybridStore.t, FreeListStore.make 2 = Some st /\
  store_run st [Alloc; Alloc; Alloc; Release 0; Alloc] = Some (st', [0; 1; kNil; 0]) /\
  FreeListStore.live st' = 2 - 0 /\ NoDup (@nil Z).
Proof. apply (order_store_is_stack 2 _ [] [0; 1; kNil; 0]); [unfold kNil; lia|vm_compute; reflexivity]. Defined.

End Structures.
