(* ===== verification/ReferenceBook.v ===== *)
(** * The reference book (reference_book.hpp)

    The textbook order book: a sorted map from price to a FIFO queue for each side, and an index from order id to its
    place. It is the specification of the matching rules: the theorems on prices, priority, order types and
    conservation are proved about it, and BookRefine shows that the fast book gives the same events. *)
From Stdlib Require Import Sorted.
From S2P Require Import Prelude Common.

Module ReferenceBook.

Record Order := mkOrder { o_id : Z; o_qty : Z; o_owner : Z }.
Abbreviation Queue := (list Order).

(** [std::map<Price, Queue, Compare>] in iteration order; [Compare] is [std::greater] for bids, [std::less] for asks. *)
Abbreviation Book := (list (Z * list Order)).

(** The code's iterator into the queue is the queue node of the order that owns the [Loc]: a node is identified by its
    order's id, which no two nodes of a book share (proved: [ids_nodup]). *)
Record Loc := mkLoc { l_side : Side; l_price : Z }.

Record t := mk {
  symbol_ : Z;
  min_price_ : Z;
  max_price_ : Z;
  capacity_ : Z;
  stp_ : Stp;
  bids_ : Book;
  asks_ : Book;
  index_ : gmap Z Loc;
}.

Definition make (symbol : Z) (cfg : BookConfig) : t :=
  mk symbol (cfg_min_price cfg) (cfg_min_price cfg + cfg_num_levels cfg - 1) (cfg_max_orders cfg) (cfg_stp cfg) [] [] ∅.

(** ** The standard containers *)

(** [Compare] of the map of side [s]. *)
Definition before (s : Side) (p p' : Z) : bool := match s with Buy => p' <? p | Sell => p <? p' end.

Definition book (r : t) (s : Side) : Book := match s with Buy => bids_ r | Sell => asks_ r end.
Definition set_book (r : t) (s : Side) (m : Book) (index : gmap Z Loc) : t :=
  match s with
  | Buy => mk (symbol_ r) (min_price_ r) (max_price_ r) (capacity_ r) (stp_ r) m (asks_ r) index
  | Sell => mk (symbol_ r) (min_price_ r) (max_price_ r) (capacity_ r) (stp_ r) (bids_ r) m index
  end.

(** [m.find(px)]. *)
Fixpoint map_find (m : Book) (px : Z) : option Queue :=
  match m with
  | [] => None
  | (p, q) :: m => if p =? px then Some q else map_find m px
  end.

(** [m[px].push_back(o)]: [operator[]] inserts an empty queue in comparison order when there is none. *)
Fixpoint map_push_back (s : Side) (m : Book) (px : Z) (o : Order) : Book :=
  match m with
  | [] => [(px, [o])]
  | (p, q) :: m' =>
      if p =? px then (p, q ++ [o]) :: m'
      else if before s px p then (px, [o]) :: (p, q) :: m' else (p, q) :: map_push_back s m' px o
  end.

(** The queue of [px] becomes [q]; an emptied queue leaves the map. *)
Fixpoint map_put (m : Book) (px : Z) (q' : Queue) : Book :=
  match m with
  | [] => []
  | (p, q) :: m' => if p =? px then (if q' is [] then m' else (p, q') :: m') else (p, q) :: map_put m' px q'
  end.

(** [*it] for the iterator of order [id], and [q.erase(it)]. *)
Definition queue_deref (q : Queue) (id : Z) : option Order := List.find (fun o => o_id o =? id) q.
Fixpoint queue_erase (q : Queue) (id : Z) : Queue :=
  match q with [] => [] | o :: q => if o_id o =? id then q else o :: queue_erase q id end.
Definition set_qty (o : Order) (v : Z) : Order := mkOrder (o_id o) v (o_owner o).
Definition queue_update (q : Queue) (id v : Z) : Queue := (fun o => if o_id o =? id then set_qty o v else o) <$> q.

Definition deref (r : t) (l : Loc) (id : Z) : option Order := q ← map_find (book r (l_side l)) (l_price l); queue_deref q id.

(** ** Operations *)

Definition best_bid (r : t) : option Z := fst <$> head (bids_ r).
Definition best_ask (r : t) : option Z := fst <$> head (asks_ r).
Definition level_qty (q : Queue) : Z := foldl (fun s o => u64 (s + o_qty o)) 0 q.
Definition best_bid_qty (r : t) : Z := match bids_ r with [] => 0 | (_, q) :: _ => level_qty q end.
Definition best_ask_qty (r : t) : Z := match asks_ r with [] => 0 | (_, q) :: _ => level_qty q end.
Definition order_count (r : t) : Z := Z.of_nat (size (index_ r)).
Definition contains (r : t) (id : Z) : bool := bool_decide (is_Some (index_ r !! id)).

Definition find_order (r : t) (id : Z) : option (option OrderView) :=
  match index_ r !! id with
  | None => Some None
  | Some l => o ← deref r l id; Some (Some (mkOrderView (l_price l) (o_qty o) (l_side l) (o_owner o)))
  end.

(** The (price, id, quantity) triples [for_each_order] visits. *)
Definition for_each_order (r : t) (s : Side) : list (Z * Z * Z) :=
  '(px, q) ← book r s; (fun o => (px, o_id o, o_qty o)) <$> q.

Definition check_invariants (r : t) : bool :=
  match best_bid r, best_ask r with Some b, Some a => b <? a | _, _ => true end &&
  (Z.of_nat (foldr (fun '(_, q) n => length q + n)%nat 0%nat (bids_ r ++ asks_ r)) =? order_count r).

(** [in_range] of a taker of side [s]. *)
Definition in_range (s : Side) (limit p : Z) : bool := match s with Buy => p <=? limit | Sell => limit <=? p end.

Definition crosses (r : t) (s : Side) (limit : Z) : bool :=
  match book r (opposite s) with [] => false | (p, _) :: _ => in_range s limit p end.

(** The FOK pre-check. [scan_queue] gives the answer when the queue decides it, the remaining need otherwise. *)
Fixpoint scan_queue (owner : Z) (stp : Stp) (q : Queue) (need : Z) : bool + Z :=
  match q with
  | [] => inr need
  | o :: q =>
      if negb (bool_decide (stp = StpNone)) && (o_owner o =? owner) then
        if bool_decide (stp = CancelIncoming) then inl false else
        if bool_decide (stp = DecrementCancel) then
          if need <=? o_qty o then inl false else scan_queue owner stp q (need - o_qty o)
        else scan_queue owner stp q need
      else if need <=? o_qty o then inl true else scan_queue owner stp q (need - o_qty o)
  end.

Fixpoint scan (s : Side) (limit owner : Z) (stp : Stp) (m : Book) (need : Z) : bool :=
  match m with
  | [] => false
  | (p, q) :: m =>
      if negb (in_range s limit p) then false else
      match scan_queue owner stp q need with inl b => b | inr need => scan s limit owner stp m need end
  end.

Definition fillable (r : t) (s : Side) (limit qty owner : Z) (stp : Stp) : bool :=
  scan s limit owner stp (book r (opposite s)) qty.

(** What a matching loop leaves: the index, the taker's remainder, [stp_stop], and the events it emitted. *)
Record Result := mkResult { m_index : gmap Z Loc; m_qty : Z; m_stop : bool; m_events : list Event }.
Definition emit (es : list Event) (r : Result) : Result :=
  mkResult (m_index r) (m_qty r) (m_stop r) (es ++ m_events r).

Section match_side.
Context (symbol taker owner : Z) (side : Side) (limit : Z) (stp : Stp).

(** The inner loop, on the queue of price [px]. Where a partly filled front order stays, the loop's condition
    [qty > 0] fails: the fill was all of [qty]. *)
Fixpoint match_queue (px : Z) (q : Queue) (index : gmap Z Loc) (qty : Z) : Queue * Result :=
  match q with
  | [] => ([], mkResult index qty false [])
  | o :: q' =>
      if qty =? 0 then (q, mkResult index qty false []) else
      if negb (bool_decide (stp = StpNone)) && (o_owner o =? owner) then
        if bool_decide (stp = CancelIncoming) then (q, mkResult index qty true []) else
        if bool_decide (stp = DecrementCancel) && (qty <? o_qty o) then
          (set_qty o (o_qty o - qty) :: q',
           mkResult index qty true [stp_decrement_event symbol (o_id o) (opposite side) px (o_qty o - qty)])
        else
          let mq := o_qty o in
          let e := canceled_event symbol (o_id o) (opposite side) px mq SelfTrade in
          let index := delete (o_id o) index in
          if bool_decide (stp = DecrementCancel) then
            if mq =? qty then (q', mkResult index qty true [e]) else
            let qty := qty - mq in
            let '(q'', r) := match_queue px q' index qty in
            (q'', emit [e; stp_decrement_event symbol taker side limit qty] r)
          else let '(q'', r) := match_queue px q' index qty in (q'', emit [e] r)
      else
        let fill := Z.min (o_qty o) qty in
        let e := trade_event symbol taker (o_id o) side px fill (o_qty o - fill) in
        if o_qty o - fill =? 0 then
          let '(q'', r) := match_queue px q' (delete (o_id o) index) (qty - fill) in (q'', emit [e] r)
        else (set_qty o (o_qty o - fill) :: q', mkResult index (qty - fill) false [e])
  end.

(** The outer loop. A queue that stays non-empty ends it: then [qty = 0] or [stp_stop]. *)
Fixpoint match_side (m : Book) (index : gmap Z Loc) (qty : Z) : Book * Result :=
  match m with
  | [] => ([], mkResult index qty false [])
  | (p, q) :: m' =>
      if (0 <? qty) && in_range side limit p then
        let '(q', r) := match_queue p q index qty in
        match q' with
        | [] =>
            if m_stop r then (m', r) else
            let '(m'', r') := match_side m' (m_index r) (m_qty r) in (m'', emit (m_events r) r')
        | _ => ((p, q') :: m', r)
        end
      else (m, mkResult index qty false [])
  end.
End match_side.

(** [match]: the new book, the remainder, [stp_stop] and the events. *)
Definition match_ (r : t) (taker owner : Z) (side : Side) (limit qty : Z) (stp : Stp) : t * Z * bool * list Event :=
  let '(m, x) := match_side (symbol_ r) taker owner side limit stp (book r (opposite side)) (index_ r) qty in
  (set_book r (opposite side) m (m_index x), m_qty x, m_stop x, m_events x).

Definition rest (r : t) (id owner : Z) (side : Side) (px qty : Z) : t * list Event :=
  if capacity_ r <=? order_count r then (r, [canceled_event (symbol_ r) id side px qty BookFull]) else
  (set_book r side (map_push_back side (book r side) px (mkOrder id qty owner)) (<[id := mkLoc side px]> (index_ r)), []).

(** [remove], then [index_.erase(it)]. *)
Definition remove (r : t) (l : Loc) (id : Z) : option t :=
  q ← map_find (book r (l_side l)) (l_price l);
  Some (set_book r (l_side l) (map_put (book r (l_side l)) (l_price l) (queue_erase q id)) (delete id (index_ r))).

Definition out_of_band (r : t) (px : Z) : bool := (px <? min_price_ r) || (max_price_ r <? px).

Definition add (r : t) (c : Command) : t * list Event :=
  if c_order_id c =? 0 then (r, [rejected_event c InvalidOrderId]) else
  if c_qty c =? 0 then (r, [rejected_event c InvalidQty]) else
  let market := bool_decide (c_ord_type c = Market) in
  if negb market && out_of_band r (c_price c) then (r, [rejected_event c InvalidPrice]) else
  let limit := if market then match c_side c with Buy => max_price_ r | Sell => min_price_ r end else c_price c in
  if contains r (c_order_id c) then (r, [rejected_event c DuplicateOrderId]) else
  if negb (Z.land (c_flags c) kFlagPostOnly =? 0) && crosses r (c_side c) limit then (r, [rejected_event c WouldCross]) else
  let px := if market then 0 else c_price c in
  let acc := accepted_event (symbol_ r) (c_order_id c) (c_side c) px (c_qty c) in
  let stp := effective_stp (c_flags c) (stp_ r) in
  if bool_decide (c_tif c = Fok) && negb (fillable r (c_side c) limit (c_qty c) (c_owner c) stp) then
    (r, [acc; canceled_event (symbol_ r) (c_order_id c) (c_side c) px (c_qty c) FokUnfilled]) else
  let '(r, left_, stp_stop, evs) := match_ r (c_order_id c) (c_owner c) (c_side c) limit (c_qty c) stp in
  if left_ =? 0 then (r, acc :: evs) else
  if stp_stop then (r, acc :: evs ++ [canceled_event (symbol_ r) (c_order_id c) (c_side c) px left_ SelfTrade]) else
  if market || negb (bool_decide (c_tif c = Day)) then
    (r, acc :: evs ++ [canceled_event (symbol_ r) (c_order_id c) (c_side c) px left_ IocExpired]) else
  let '(r, evs') := rest r (c_order_id c) (c_owner c) (c_side c) limit left_ in
  (r, acc :: evs ++ evs').

Definition cancel (r : t) (c : Command) : option (t * list Event) :=
  match index_ r !! c_order_id c with
  | None => Some (r, [rejected_event c UnknownOrder])
  | Some l =>
      o ← deref r l (c_order_id c);
      r' ← remove r l (c_order_id c);
      Some (r', [canceled_event (symbol_ r) (c_order_id c) (l_side l) (l_price l) (o_qty o) UserCanceled])
  end.

Definition modify (r : t) (c : Command) : option (t * list Event) :=
  if c_qty c =? 0 then Some (r, [rejected_event c InvalidQty]) else
  match index_ r !! c_order_id c with
  | None => Some (r, [rejected_event c UnknownOrder])
  | Some l =>
      if out_of_band r (c_price c) then Some (r, [rejected_event c InvalidPrice]) else
      o ← deref r l (c_order_id c);
      let md := modified_event (symbol_ r) (c_order_id c) (l_side l) (c_price c) (c_qty c) in
      if (c_price c =? l_price l) && (c_qty c <=? o_qty o) then
        q ← map_find (book r (l_side l)) (l_price l);
        Some (set_book r (l_side l) (map_put (book r (l_side l)) (l_price l) (queue_update q (c_order_id c) (c_qty c)))
          (index_ r), [md])
      else
        r ← remove r l (c_order_id c);
        let '(r, left_, stp_stop, evs) := match_ r (c_order_id c) (o_owner o) (l_side l) (c_price c) (c_qty c) (stp_ r) in
        if left_ =? 0 then Some (r, md :: evs) else
        if stp_stop then
          Some (r, md :: evs ++ [canceled_event (symbol_ r) (c_order_id c) (l_side l) (c_price c) left_ SelfTrade]) else
        let '(r, evs') := rest r (c_order_id c) (o_owner o) (l_side l) (c_price c) left_ in
        Some (r, md :: evs ++ evs')
  end.

(** One command, as the engine dispatches it. *)
Definition step (r : t) (c : Command) : option (t * list Event) :=
  match c_type c with NewOrder => Some (add r c) | Cancel => cancel r c | Modify => modify r c end.

Fixpoint run (r : t) (cs : list Command) : option (t * list Event) :=
  match cs with
  | [] => Some (r, [])
  | c :: cs => '(r, es) ← step r c; '(r, es') ← run r cs; Some (r, es ++ es')
  end.

(** ** Queues and maps *)

Definition prices (m : Book) : list Z := m.*1.
Definition keys (m : Book) : list (Z * Z) := x ← m; (fun o => (x.1, o_id o)) <$> x.2.
Definition ids (m : Book) : list Z := (keys m).*2.

(** The map order of a side, as a strict order on prices. *)
Definition lt_side (s : Side) (p p' : Z) : Prop := match s with Buy => p' < p | Sell => p < p' end.
Definition le_side (s : Side) (p p' : Z) : Prop := match s with Buy => p' <= p | Sell => p <= p' end.
Definition sorted (s : Side) (m : Book) : Prop := StronglySorted (lt_side s) (prices m).

Lemma before_lt s p p' : before s p p' = true <-> lt_side s p p'.
Proof. destruct s; simpl; lia. Qed.
Lemma in_range_le s limit p : in_range s limit p = true <-> le_side (opposite s) p limit.
Proof. destruct s; simpl; lia. Qed.

Lemma elem_of_keys m p id : (p, id) ∈ keys m <-> exists q o, (p, q) ∈ m /\ o ∈ q /\ o_id o = id.
Proof.
  unfold keys. rewrite list_elem_of_bind. split.
  - intros ([p' q] & Hin & Hm). apply list_elem_of_fmap in Hin as (o & He & Ho). simplify_eq/=. eauto.
  - intros (q & o & Hm & Ho & <-). exists (p, q). split; [|done]. apply list_elem_of_fmap. eauto.
Qed.

Lemma keys_app m1 m2 : keys (m1 ++ m2) = keys m1 ++ keys m2.
Proof. apply bind_app. Qed.
Lemma ids_app m1 m2 : ids (m1 ++ m2) = ids m1 ++ ids m2.
Proof. unfold ids. by rewrite keys_app, fmap_app. Qed.
Lemma ids_cons p q m : ids ((p, q) :: m) = (o_id <$> q) ++ ids m.
Proof. unfold ids, keys. simpl. rewrite fmap_app, <- list_fmap_compose. done. Qed.
Lemma elem_of_ids m id : id ∈ ids m <-> exists p, (p, id) ∈ keys m.
Proof.
  unfold ids. rewrite list_elem_of_fmap. split; [intros ([p i] & -> & H); eauto|intros (p & H)]. by exists (p, id).
Qed.
Lemma keys_ids m p id : (p, id) ∈ keys m -> id ∈ ids m.
Proof. intros. apply elem_of_ids. eauto. Qed.

Lemma sorted_cons s p q m : sorted s ((p, q) :: m) <-> sorted s m /\ forall p', p' ∈ prices m -> lt_side s p p'.
Proof.
  unfold sorted. simpl. split.
  - intros H. apply StronglySorted_inv in H as [? H]. rewrite Forall_forall in H. done.
  - intros [? H]. constructor; [done|]. by rewrite Forall_forall.
Qed.

Lemma sorted_suffix s m1 m2 : sorted s (m1 ++ m2) -> sorted s m2.
Proof. induction m1 as [|[p q] m1 IH]; [done|]. simpl. rewrite sorted_cons. intros [? _]. auto. Qed.

Lemma lt_side_irrefl s p : ~ lt_side s p p.
Proof. destruct s; simpl; lia. Qed.
Lemma lt_side_trans s p1 p2 p3 : lt_side s p1 p2 -> lt_side s p2 p3 -> lt_side s p1 p3.
Proof. destruct s; simpl; lia. Qed.

(** [m.find] finds the queue of a price; the map operations act there. *)
Lemma map_find_split m px q : map_find m px = Some q ->
  exists m1 m2, m = m1 ++ (px, q) :: m2 /\
    forall q', map_put m px q' = m1 ++ (if q' is [] then [] else [(px, q')]) ++ m2.
Proof.
  induction m as [|[p q0] m IH]; simpl; [done|]. destruct (Z.eqb_spec p px) as [->|Hne].
  - intros [= ->]. exists [], m. split; [done|]. by intros [|].
  - intros H. destruct (IH H) as (m1 & m2 & -> & Hp). exists ((p, q0) :: m1), m2. split; [done|].
    intros q'. by rewrite Hp.
Qed.

Lemma map_find_elem s m px q : sorted s m -> (px, q) ∈ m <-> map_find m px = Some q.
Proof.
  intros Hs. split.
  - induction m as [|[p q0] m IH]; simpl; [by intros ?%elem_of_nil|]. apply sorted_cons in Hs as [Hs Hlt].
    intros [He|Hin]%elem_of_cons; [simplify_eq; by rewrite Z.eqb_refl|].
    destruct (Z.eqb_spec p px) as [->|]; [|auto]. exfalso. apply (lt_side_irrefl s px), Hlt.
    apply list_elem_of_fmap. by exists (px, q).
  - intros H. destruct (map_find_split _ _ _ H) as (m1 & m2 & -> & _). set_solver.
Qed.

Lemma queue_deref_split q id o : queue_deref q id = Some o ->
  exists q1 q2, q = q1 ++ o :: q2 /\ o_id o = id /\ id ∉ (o_id <$> q1) /\ queue_erase q id = q1 ++ q2.
Proof.
  induction q as [|x q IH]; simpl; [done|]. destruct (Z.eqb_spec (o_id x) id) as [He|Hne].
  - intros [= ->]. exists [], q. split_and!; try done. set_solver.
  - intros H. destruct (IH H) as (q1 & q2 & -> & Hid & Hn & Her). exists (x :: q1), q2.
    split_and!; try done; [set_solver|]. by rewrite Her.
Qed.

Lemma queue_update_other q id v : id ∉ (o_id <$> q) -> queue_update q id v = q.
Proof.
  induction q as [|x q IH]; [done|]. intros Hn. unfold queue_update in *. rewrite fmap_cons.
  destruct (Z.eqb_spec (o_id x) id); [set_solver|]. f_equal. apply IH. set_solver.
Qed.

Lemma queue_update_split q1 o q2 v : NoDup (o_id <$> q1 ++ o :: q2) ->
  queue_update (q1 ++ o :: q2) (o_id o) v = q1 ++ set_qty o v :: q2.
Proof.
  rewrite fmap_app, fmap_cons. intros (_ & Hd & [Hn _]%NoDup_cons)%NoDup_app. unfold queue_update.
  rewrite fmap_app, fmap_cons, Z.eqb_refl. f_equal; [|f_equal]; apply queue_update_other; set_solver.
Qed.

Lemma queue_deref_elem q o : NoDup (o_id <$> q) -> o ∈ q -> queue_deref q (o_id o) = Some o.
Proof.
  induction q as [|x q IH]; [by intros _ ?%elem_of_nil|]. simpl. intros [Hn Hd]%NoDup_cons [->|Hin]%elem_of_cons.
  - by rewrite Z.eqb_refl.
  - destruct (Z.eqb_spec (o_id x) (o_id o)) as [He|]; [|auto]. destruct Hn. rewrite He. set_solver.
Qed.

Lemma map_push_back_prices s m px o p : p ∈ prices (map_push_back s m px o) <-> p = px \/ p ∈ prices m.
Proof.
  induction m as [|[p0 q] m IH]; simpl; [set_solver|]. destruct (Z.eqb_spec p0 px); [set_solver|].
  destruct (before s px p0); simpl; set_solver.
Qed.

Lemma map_push_back_keys s m px o : keys (map_push_back s m px o) ≡ₚ (px, o_id o) :: keys m.
Proof.
  induction m as [|[p0 q] m IH]; simpl; [done|]. destruct (Z.eqb_spec p0 px) as [->|].
  - unfold keys. simpl. rewrite fmap_app. simpl. solve_Permutation.
  - destruct (before s px p0); [done|]. change (keys ((p0, q) :: map_push_back s m px o)) with
      (((fun o => (p0, o_id o)) <$> q) ++ keys (map_push_back s m px o)). rewrite IH.
    change (keys ((p0, q) :: m)) with (((fun o => (p0, o_id o)) <$> q) ++ keys m). solve_Permutation.
Qed.

Lemma map_push_back_sorted s m px o : sorted s m -> sorted s (map_push_back s m px o).
Proof.
  induction m as [|[p0 q] m IH]; simpl; [intros _; repeat constructor|]. intros [Hs Hlt]%sorted_cons.
  destruct (Z.eqb_spec p0 px) as [->|]; [by apply sorted_cons|]. destruct (before s px p0) eqn:Eb.
  - apply before_lt in Eb. apply sorted_cons. split; [by apply sorted_cons|]. intros p' [->|Hp]%elem_of_cons; [done|].
    apply (lt_side_trans _ _ p0); auto.
  - apply sorted_cons. split; [auto|]. intros p' [->|Hp]%map_push_back_prices; [|auto].
    destruct s; simpl in *; lia.
Qed.

(** ** What the matching loops leave *)

(** [index'] is [index] without the ids [gone]. *)
Definition without (gone : list Z) (index index' : gmap Z Loc) : Prop :=
  forall id, index' !! id = if decide (id ∈ gone) then None else index !! id.

(** [q'] is [q] after a matching loop that removed the orders [gone] from its front, and possibly reduced the next. *)
Definition trimmed (gone : Queue) (q q' : Queue) : Prop :=
  q = gone ++ q' \/
  exists o tl v, q = gone ++ o :: tl /\ q' = set_qty o v :: tl /\ 0 < v < o_qty o.

Lemma without_nil index : without [] index index.
Proof. intros id. rewrite decide_False; [done|]. apply not_elem_of_nil. Qed.

Lemma without_cons x gone index index' : without gone (delete x index) index' -> without (x :: gone) index index'.
Proof.
  intros H id. rewrite H. destruct (decide (id ∈ gone)), (decide (id ∈ x :: gone)); try done; [set_solver| |].
  - apply lookup_delete_None. set_solver.
  - rewrite lookup_delete_ne; [done|]. set_solver.
Qed.

Lemma without_app g1 g2 i1 i2 i3 : without g1 i1 i2 -> without g2 i2 i3 -> without (g1 ++ g2) i1 i3.
Proof.
  intros H1 H2 id. rewrite H2. destruct (decide (id ∈ g2)), (decide (id ∈ g1 ++ g2)); try done; [set_solver| |].
  - rewrite H1. rewrite decide_True; [done|set_solver].
  - rewrite H1. rewrite decide_False; [done|set_solver].
Qed.

Lemma trimmed_nil q : trimmed [] q q.
Proof. by left. Qed.

Lemma trimmed_cons o gone q q' : trimmed gone q q' -> trimmed (o :: gone) (o :: q) q'.
Proof.
  intros [->|(o' & tl & v & -> & -> & Hv)]; [by left|]. right. by exists o', tl, v.
Qed.

Lemma trimmed_ids gone q q' : trimmed gone q q' -> o_id <$> q = (o_id <$> gone) ++ (o_id <$> q').
Proof. intros [->|(o' & tl & v & -> & -> & Hv)]; by rewrite fmap_app. Qed.

Lemma trimmed_elem gone q q' o : trimmed gone q q' -> o ∈ q' ->
  exists o0, o0 ∈ q /\ o_id o = o_id o0 /\ o_owner o = o_owner o0 /\ (o_qty o = o_qty o0 \/ 0 < o_qty o < o_qty o0).
Proof.
  intros [->|(o' & tl & v & -> & -> & Hv)].
  - intros Hin. exists o. split_and!; try done; [set_solver|by left].
  - intros [->|Hin]%elem_of_cons.
    + exists o'. split_and!; try done; [set_solver|by right].
    + exists o. split_and!; try done; [set_solver|by left].
Qed.

#[local] Hint Resolve trimmed_nil without_nil trimmed_cons without_cons : exsim.
#[local] Ltac parts := split_and!; simpl; auto with exsim; try done; try lia.

Section match_lemmas.
Context (symbol taker owner : Z) (side : Side) (limit : Z) (stp : Stp).
#[local] Abbreviation match_queue := (match_queue symbol taker owner side limit stp).
#[local] Abbreviation match_side := (match_side symbol taker owner side limit stp).

Lemma match_queue_spec px q : forall index qty q' x, 0 <= qty -> Forall (fun o => 0 < o_qty o) q ->
  match_queue px q index qty = (q', x) ->
  exists gone, trimmed gone q q' /\ without (o_id <$> gone) index (m_index x) /\ 0 <= m_qty x <= qty /\
    (q' = [] \/ m_qty x = 0 \/ m_stop x = true) /\ (m_stop x = true -> 0 < m_qty x).
Proof.
  induction q as [|o q IH]; intros index qty q' x Hq Hpos He; simpl in He.
  { simplify_eq/=. exists []. parts. }
  apply Forall_cons in Hpos as [Ho Hpos].
  assert (forall qty1 q1 x1, match_queue px q (delete (o_id o) index) qty1 = (q1, x1) -> 0 <= qty1 ->
    exists gone, trimmed gone (o :: q) q1 /\ without (o_id <$> gone) index (m_index x1) /\ 0 <= m_qty x1 <= qty1 /\
      (q1 = [] \/ m_qty x1 = 0 \/ m_stop x1 = true) /\ (m_stop x1 = true -> 0 < m_qty x1)) as Hrec.
  { intros qty1 q1 x1 H1 Hq1. destruct (IH _ _ _ _ Hq1 Hpos H1) as (gone & Ht & Hw & Hrest). exists (o :: gone).
    split; [by apply trimmed_cons|]. split; [by apply without_cons|done]. }
  destruct (Z.eqb_spec qty 0) as [->|Hne].
  { simplify_eq/=. exists []. parts. }
  destruct (negb (bool_decide (stp = StpNone)) && (o_owner o =? owner)).
  - case_bool_decide as Hci.
    { simplify_eq/=. exists []. parts. }
    case_bool_decide as Hdc; simpl in He.
    + destruct (Z.ltb_spec qty (o_qty o)) as [Hlt|Hge].
      { simplify_eq/=. exists []. parts.
        right. exists o, q, (o_qty o - qty). parts. }
      destruct (Z.eqb_spec (o_qty o) qty) as [Heq|Hneq].
      { simplify_eq/=. exists [o]. parts. }
      destruct (match_queue px q (delete (o_id o) index) (qty - o_qty o)) as [q1 x1] eqn:E1. simplify_eq/=.
      destruct (Hrec _ _ _ E1 ltac:(lia)) as (gone & ? & ? & ? & ? & ?). exists gone. parts.
    + destruct (match_queue px q (delete (o_id o) index) qty) as [q1 x1] eqn:E1. simplify_eq/=.
      destruct (Hrec _ _ _ E1 ltac:(lia)) as (gone & ? & ? & ? & ? & ?). exists gone. parts.
  - destruct (Z.eqb_spec (o_qty o - Z.min (o_qty o) qty) 0) as [Hz|Hnz].
    + destruct (match_queue px q (delete (o_id o) index) (qty - Z.min (o_qty o) qty)) as [q1 x1] eqn:E1. simplify_eq/=.
      destruct (Hrec _ _ _ E1 ltac:(lia)) as (gone & ? & ? & ? & ? & ?). exists gone. parts.
    + simplify_eq/=. exists []. parts.
      right. exists o, q, (o_qty o - Z.min (o_qty o) qty). parts.
Qed.

(** [m'] is [m] without the levels the taker emptied, and with the next level trimmed. *)
Definition swept (gone : Queue) (m m' : Book) : Prop :=
  exists m1 m2, m = m1 ++ m2 /\
    (m' = m2 /\ gone = m1 ≫= snd \/
     exists p q q' tl g, m2 = (p, q) :: tl /\ m' = (p, q') :: tl /\ q' <> [] /\ trimmed g q q' /\ gone = (m1 ≫= snd) ++ g).

Definition positive (m : Book) : Prop := Forall (fun x => x.2 <> [] /\ Forall (fun o => 0 < o_qty o) x.2) m.

Lemma swept_nil m : swept [] m m.
Proof. exists [], m. split; [done|]. by left. Qed.
#[local] Hint Resolve swept_nil : exsim.

Lemma match_side_spec m : forall index qty m' x, 0 <= qty -> positive m -> match_side m index qty = (m', x) ->
  exists gone, swept gone m m' /\ without (o_id <$> gone) index (m_index x) /\ 0 <= m_qty x <= qty /\
    (m_qty x = 0 \/ m_stop x = true \/ forall p q tl, m' = (p, q) :: tl -> in_range side limit p = false) /\
    (m_stop x = true -> 0 < m_qty x) /\
    (forall p, p ∈ prices m -> p ∉ prices m' -> in_range side limit p = true).
Proof.
  induction m as [|[p q] m IH]; intros index qty m' x Hq Hpos He; simpl in He.
  { simplify_eq/=. exists []. parts. by right; right. }
  apply Forall_cons in Hpos as [[Hne Hqp] Hpos]. simpl in Hne, Hqp.
  destruct ((0 <? qty) && in_range side limit p) eqn:Ec.
  - apply andb_prop in Ec as [Hpos' Hin]. apply Z.ltb_lt in Hpos'.
    destruct (match_queue p q index qty) as [q1 x1] eqn:E1.
    destruct (match_queue_spec _ _ _ _ _ _ Hq Hqp E1) as (g & Ht & Hw & Hle & Hend & Hst).
    destruct q1 as [|o1 q1].
    + assert (g = q) as ->. { destruct Ht as [->|(? & ? & ? & _ & ? & _)]; [by rewrite app_nil_r|done]. }
      destruct (m_stop x1) eqn:Est.
      * simplify_eq/=. exists q. parts.
        -- exists [(p, q)], m'. split; [done|]. left. simpl. by rewrite app_nil_r.
        -- intros p0 [->|?]%elem_of_cons; done.
      * destruct (match_side m (m_index x1) (m_qty x1)) as [m2 x2] eqn:E2. simplify_eq/=.
        destruct (IH _ _ _ _ (proj1 Hle) Hpos E2) as (g2 & Hs2 & Hw2 & Hle2 & Hend2 & Hst2 & Hp2).
        exists (q ++ g2). parts.
        -- destruct Hs2 as (m1 & m3 & -> & Hc). exists ((p, q) :: m1), m3. split; [done|].
           destruct Hc as [[-> ->]|(p3 & q3 & q3' & tl & g3 & -> & -> & Hn & Ht3 & ->)]; [by left|].
           right. exists p3, q3, q3', tl, g3. split_and!; try done. simpl. by rewrite app_assoc.
        -- rewrite fmap_app. by eapply without_app.
        -- intros p0 [->|Hp0]%elem_of_cons; [done|]. by apply Hp2.
    + simplify_eq/=. exists g. parts.
      * exists [], ((p, q) :: m). split; [done|]. right. exists p, q, (o1 :: q1), m, g. done.
      * destruct Hend as [?|[?|?]]; [done|by left|by right; left].
  - simplify_eq/=. exists []. parts.
    + apply andb_false_iff in Ec as [Hq0|Hin]; [left; apply Z.ltb_ge in Hq0; lia|]. right. right. congruence.
Qed.
End match_lemmas.

Lemma swept_keys gone m m' : swept gone m m' -> exists kg, keys m = kg ++ keys m' /\ kg.*2 = o_id <$> gone.
Proof.
  assert (forall m1 : Book, (keys m1).*2 = o_id <$> (m1 ≫= snd)) as Hk.
  { induction m1 as [|[p q] m1 IH]; [done|]. simpl. unfold keys in *. simpl. rewrite !fmap_app, IH.
    f_equal. by rewrite <- list_fmap_compose. }
  intros (m1 & m2 & -> & [[-> ->]|(p & q & q' & tl & g & -> & -> & Hn & Ht & ->)]).
  - exists (keys m1). rewrite keys_app. done.
  - exists (keys m1 ++ ((fun o => (p, o_id o)) <$> g)). rewrite keys_app. split.
    + unfold keys. simpl. rewrite <- !app_assoc. f_equal. rewrite app_assoc. f_equal.
      destruct Ht as [->|(o & t & v & -> & -> & _)]; by rewrite fmap_app.
    + rewrite !fmap_app, Hk. f_equal. by rewrite <- list_fmap_compose.
Qed.

Lemma swept_prices gone m m' : swept gone m m' -> exists l, prices m = l ++ prices m'.
Proof.
  intros (m1 & m2 & -> & [[-> ->]|(p & q & q' & tl & g & -> & -> & Hn & Ht & ->)]); exists (prices m1);
    unfold prices; by rewrite fmap_app.
Qed.

Lemma swept_sorted s gone m m' : swept gone m m' -> sorted s m -> sorted s m'.
Proof.
  intros (m1 & m2 & -> & [[-> ->]|(p & q & q' & tl & g & -> & -> & Hn & Ht & ->)]) Hs; apply sorted_suffix in Hs; done.
Qed.

Lemma trimmed_positive g q q' : trimmed g q q' -> Forall (fun o => 0 < o_qty o) q -> Forall (fun o => 0 < o_qty o) q'.
Proof.
  intros [->|(o & tl & v & -> & -> & Hv)]; rewrite Forall_app; [naive_solver|].
  rewrite !Forall_cons. simpl. intros (_ & _ & ?). split; [lia|done].
Qed.

Lemma swept_positive gone m m' : swept gone m m' -> positive m -> positive m'.
Proof.
  unfold positive. intros (m1 & m2 & -> & [[-> ->]|(p & q & q' & tl & g & -> & -> & Hn & Ht & ->)]);
    rewrite Forall_app; [naive_solver|]. rewrite !Forall_cons. simpl. intros (_ & (_ & Hq) & Htl).
  split_and!; try done. by apply (trimmed_positive g q).
Qed.

(** ** The invariant of the book *)

Record wf (r : t) : Prop := {
  wf_sorted s : sorted s (book r s);
  wf_pos s : positive (book r s);
  wf_ids s : NoDup (ids (book r s));
  wf_band s p : p ∈ prices (book r s) -> min_price_ r <= p <= max_price_ r;
  wf_index id l : index_ r !! id = Some l <-> (l_price l, id) ∈ keys (book r (l_side l));
  wf_uncrossed p p' : p ∈ prices (bids_ r) -> p' ∈ prices (asks_ r) -> p < p';
  wf_cap : order_count r <= capacity_ r;
}.

(** The book holds [r]'s configuration. *)
Definition same_cfg (r r' : t) : Prop :=
  symbol_ r' = symbol_ r /\ min_price_ r' = min_price_ r /\ max_price_ r' = max_price_ r /\
  capacity_ r' = capacity_ r /\ stp_ r' = stp_ r.

Lemma set_book_cfg r s m i : same_cfg r (set_book r s m i).
Proof. by destruct s. Qed.
Lemma book_set_eq r s m i : book (set_book r s m i) s = m.
Proof. by destruct s. Qed.
Lemma book_set_ne r s s' m i : s' <> s -> book (set_book r s m i) s' = book r s'.
Proof. by destruct s, s'. Qed.
Lemma index_set_book r s m i : index_ (set_book r s m i) = i.
Proof. by destruct s. Qed.

Lemma keys_prices m p id : (p, id) ∈ keys m -> p ∈ prices m.
Proof. intros (q & o & Hm & _)%elem_of_keys. apply list_elem_of_fmap. by exists (p, q). Qed.

Lemma keys_inj m p p' id : NoDup (ids m) -> (p, id) ∈ keys m -> (p', id) ∈ keys m -> p = p'.
Proof.
  unfold ids. intros Hd H1 H2. apply list_elem_of_lookup in H1 as [i H1], H2 as [j H2].
  assert (i = j) as ->; [|congruence]. eapply (NoDup_lookup _ _ _ id Hd); rewrite list_lookup_fmap;
    [by rewrite H1|by rewrite H2].
Qed.

(** An id rests on one side only. *)
Lemma wf_one_side r s s' p p' id : wf r -> (p, id) ∈ keys (book r s) -> (p', id) ∈ keys (book r s') -> s = s' /\ p = p'.
Proof.
  intros Hw H1 H2. apply (wf_index r Hw id (mkLoc s p)) in H1. apply (wf_index r Hw id (mkLoc s' p')) in H2.
  rewrite H1 in H2. by injection H2 as -> ->.
Qed.

(** Replacing one side of the book. *)
Lemma wf_set_book r s m i : wf r -> sorted s m -> positive m -> NoDup (ids m) ->
  (forall p, p ∈ prices m -> min_price_ r <= p <= max_price_ r) ->
  (forall id p, i !! id = Some (mkLoc s p) <-> (p, id) ∈ keys m) ->
  (forall id p, i !! id = Some (mkLoc (opposite s) p) <-> index_ r !! id = Some (mkLoc (opposite s) p)) ->
  (forall p p', p ∈ prices m -> p' ∈ prices (book r (opposite s)) -> lt_side s p' p) ->
  Z.of_nat (size i) <= capacity_ r -> wf (set_book r s m i).
Proof.
  intros Hw Hs Hp Hd Hb Hi Hi' Hu Hc. destruct (set_book_cfg r s m i) as (_ & E2 & E3 & E4 & _).
  assert (forall s', s' <> s -> s' = opposite s) as Hop by (by intros [] ?; destruct s).
  constructor.
  - intros s'. destruct (decide (s' = s)) as [->|Hne]; [by rewrite book_set_eq|].
    rewrite book_set_ne by done. apply (wf_sorted r Hw).
  - intros s'. destruct (decide (s' = s)) as [->|Hne]; [by rewrite book_set_eq|].
    rewrite book_set_ne by done. apply (wf_pos r Hw).
  - intros s'. destruct (decide (s' = s)) as [->|Hne]; [by rewrite book_set_eq|].
    rewrite book_set_ne by done. apply (wf_ids r Hw).
  - rewrite E2, E3. intros s' p. destruct (decide (s' = s)) as [->|Hne]; [rewrite book_set_eq; apply Hb|].
    rewrite book_set_ne by done. apply (wf_band r Hw).
  - intros id [s' p]. rewrite index_set_book. simpl. destruct (decide (s' = s)) as [->|Hne].
    + rewrite book_set_eq. apply Hi.
    + rewrite book_set_ne, (Hop s') by done. rewrite Hi'. apply (wf_index r Hw id (mkLoc (opposite s) p)).
  - intros p p' H1 H2. destruct s; simpl in *; [apply (Hu p p' H1 H2)|apply (Hu p' p H2 H1)].
  - unfold order_count. by rewrite index_set_book, E4.
Qed.

Lemma without_size gone i i' : without gone i i' -> (size i' <= size i)%nat.
Proof.
  intros H. rewrite <- !size_dom. apply subseteq_size. intros id. rewrite !elem_of_dom, H. case_decide; [|done].
  by intros [? ?].
Qed.

(** Any sweep of the opposite side keeps the book well-formed. *)
Lemma wf_swept r s gone m' i : wf r -> swept gone (book r s) m' -> without (o_id <$> gone) (index_ r) i ->
  wf (set_book r s m' i).
Proof.
  intros Hw Hs Hi. destruct (swept_keys _ _ _ Hs) as (kg & Hk & Hkg). destruct (swept_prices _ _ _ Hs) as (l & Hl).
  pose proof (wf_ids r Hw s) as Hd. unfold ids in Hd. rewrite Hk, fmap_app in Hd.
  apply NoDup_app in Hd as (Hd1 & Hdis & Hd2).
  assert (forall id p, (p, id) ∈ kg -> index_ r !! id = Some (mkLoc s p)) as Hg.
  { intros id p Hin. apply (wf_index r Hw id (mkLoc s p)). simpl. rewrite Hk. set_solver. }
  apply wf_set_book; try done.
  - by eapply swept_sorted, (wf_sorted r Hw).
  - by eapply swept_positive, (wf_pos r Hw).
  - intros p Hp. apply (wf_band r Hw s). rewrite Hl. set_solver.
  - intros id p. rewrite Hi. rewrite <- Hkg. case_decide as Hgone.
    + split; [done|]. intros Hin. destruct (Hdis id Hgone). apply list_elem_of_fmap. by exists (p, id).
    + rewrite (wf_index r Hw id (mkLoc s p)). simpl. rewrite Hk, elem_of_app. split; [|auto]. intros [Hin|]; [|done].
      destruct Hgone. apply list_elem_of_fmap. by exists (p, id).
  - intros id p. rewrite Hi. rewrite <- Hkg. case_decide as Hgone; [|done]. split; [done|]. intros Hin. exfalso.
    apply list_elem_of_fmap in Hgone as ([p' id'] & -> & Hin'). apply Hg in Hin'. simpl in Hin. rewrite Hin in Hin'.
    injection Hin' as He. by destruct s.
  - intros p p' H1 H2. assert (p ∈ prices (book r s)) as H1' by (rewrite Hl; set_solver).
    destruct s; simpl in *; [by apply (wf_uncrossed r Hw)|by apply (wf_uncrossed r Hw)].
  - pose proof (without_size _ _ _ Hi). pose proof (wf_cap r Hw). unfold order_count in *. lia.
Qed.

Lemma wf_match r taker owner side limit qty stp r' q' stop es : wf r -> 0 <= qty ->
  match_ r taker owner side limit qty stp = (r', q', stop, es) ->
  wf r' /\ same_cfg r r' /\ 0 <= q' <= qty /\ (stop = true -> 0 < q') /\
  (forall id, is_Some (index_ r' !! id) -> is_Some (index_ r !! id)) /\
  (q' = 0 \/ stop = true \/ forall p, p ∈ prices (book r' (opposite side)) -> in_range side limit p = false) /\
  book r' side = book r side.
Proof.
  intros Hw Hq. unfold match_. destruct (match_side _ _ _ _ _ _ _ _ _) as [m x] eqn:E. intros [= <- <- <- <-].
  destruct (match_side_spec _ _ _ _ _ _ _ _ _ _ _ Hq (wf_pos r Hw _) E) as (gone & Hs & Hi & Hle & Hend & Hst & _).
  split_and!; try done; try lia.
  - by eapply wf_swept.
  - apply set_book_cfg.
  - intros id [l Hid]. rewrite index_set_book, Hi in Hid. case_decide; [done|]. by exists l.
  - rewrite book_set_eq. destruct Hend as [?|[?|Hend]]; [by left|by right; left|]. right. right.
    destruct m as [|[p q] m]; [by intros p ?%elem_of_nil|]. specialize (Hend p q m eq_refl).
    assert (sorted (opposite side) ((p, q) :: m)) as Hsd by (by eapply swept_sorted, (wf_sorted r Hw)).
    apply sorted_cons in Hsd as [_ Hlt]. intros p' [->|Hp']%elem_of_cons; [done|]. apply Hlt in Hp'.
    destruct side; simpl in *; to_prop; lia.
  - by rewrite book_set_ne by (by destruct side).
Qed.

Lemma map_push_back_positive s m px o : positive m -> 0 < o_qty o -> positive (map_push_back s m px o).
Proof.
  unfold positive. intros Hm Ho. induction m as [|[p q] m IH]; simpl; [repeat constructor; simpl; done|].
  apply Forall_cons in Hm as [[Hne Hq] Hm]. simpl in *. destruct (p =? px).
  - constructor; [|done]. simpl. split; [by destruct q|]. apply Forall_app. by rewrite Forall_singleton.
  - destruct (before s px p); repeat constructor; simpl; auto.
Qed.

Lemma wf_rest r id owner side px qty r' es : wf r -> 0 < qty -> index_ r !! id = None ->
  min_price_ r <= px <= max_price_ r ->
  (forall p, p ∈ prices (book r (opposite side)) -> in_range side px p = false) ->
  rest r id owner side px qty = (r', es) -> wf r' /\ same_cfg r r'.
Proof.
  intros Hw Hq Hid Hb Hx. unfold rest. destruct (Z.leb_spec (capacity_ r) (order_count r)).
  { by intros [= <- <-]. }
  intros [= <- <-]. split; [|apply set_book_cfg].
  pose proof (map_push_back_keys side (book r side) px (mkOrder id qty owner)) as Hk.
  assert (id ∉ ids (book r side)) as Hn.
  { intros (p & Hp)%elem_of_ids. apply (wf_index r Hw id (mkLoc side p)) in Hp. congruence. }
  apply wf_set_book; try done.
  - apply map_push_back_sorted, (wf_sorted r Hw).
  - by apply map_push_back_positive, Hq; apply (wf_pos r Hw).
  - unfold ids. rewrite Hk. simpl. apply NoDup_cons. split; [done|]. apply (wf_ids r Hw).
  - intros p [->|Hp]%map_push_back_prices; [done|]. by apply (wf_band r Hw side).
  - intros i p. rewrite Hk, elem_of_cons. simpl. destruct (decide (i = id)) as [->|Hne].
    + rewrite lookup_insert_eq. split; [intros [= ->]; by left|]. intros [[= ->]|Hp]; [done|]. by apply keys_ids in Hp.
    + rewrite lookup_insert_ne by done. rewrite (wf_index r Hw i (mkLoc side p)). simpl. naive_solver.
  - intros i p. destruct (decide (i = id)) as [->|Hne]; [|by rewrite lookup_insert_ne].
    rewrite lookup_insert_eq, Hid. split; [|done]. intros [= He _]. by destruct side.
  - intros p p' [->|Hp]%map_push_back_prices Hp'.
    + specialize (Hx p' Hp'). destruct side; simpl in *; to_prop; lia.
    + destruct side; simpl in *; by apply (wf_uncrossed r Hw).
  - rewrite map_size_insert_None by done. unfold order_count in *. lia.
Qed.

(** What [index_] says about an order is what dereferencing its place finds. *)
Lemma deref_spec r id l : wf r -> index_ r !! id = Some l ->
  exists m1 q1 o q2 m2, book r (l_side l) = m1 ++ (l_price l, q1 ++ o :: q2) :: m2 /\ o_id o = id /\
    deref r l id = Some o /\ map_find (book r (l_side l)) (l_price l) = Some (q1 ++ o :: q2) /\
    queue_erase (q1 ++ o :: q2) id = q1 ++ q2 /\
    (forall q', map_put (book r (l_side l)) (l_price l) q' =
       m1 ++ (if q' is [] then [] else [(l_price l, q')]) ++ m2) /\
    (forall v, queue_update (q1 ++ o :: q2) id v = q1 ++ set_qty o v :: q2).
Proof.
  intros Hw Hl. apply (wf_index r Hw) in Hl as (q & o0 & Hq & Ho & Hid)%elem_of_keys.
  apply (map_find_elem (l_side l)) in Hq as Hf; [|apply (wf_sorted r Hw)].
  destruct (map_find_split _ _ _ Hf) as (m1 & m2 & Hm & Hput).
  assert (NoDup (o_id <$> q)) as Hd.
  { pose proof (wf_ids r Hw (l_side l)) as Hd. rewrite Hm, ids_app, ids_cons in Hd.
    by apply NoDup_app in Hd as (_ & _ & (? & _)%NoDup_app). }
  pose proof (queue_deref_elem q o0 Hd Ho) as Hde. rewrite Hid in Hde.
  destruct (queue_deref_split _ _ _ Hde) as (q1 & q2 & -> & _ & _ & Her).
  exists m1, q1, o0, q2, m2. split_and!; try done.
  - unfold deref. by rewrite Hf.
  - intros v. rewrite <- Hid. by apply queue_update_split.
Qed.

Lemma keys_split m1 p q1 o q2 m2 : keys (m1 ++ (p, q1 ++ o :: q2) :: m2) ≡ₚ
  (p, o_id o) :: keys (m1 ++ (if q1 ++ q2 is [] then [] else [(p, q1 ++ q2)]) ++ m2).
Proof.
  rewrite !keys_app. change (keys ((p, q1 ++ o :: q2) :: m2)) with
    (((fun o => (p, o_id o)) <$> (q1 ++ o :: q2)) ++ keys m2).
  destruct (q1 ++ q2) eqn:E.
  - apply app_eq_nil in E as [-> ->]. simpl. solve_Permutation.
  - rewrite <- E. change (keys [(p, q1 ++ q2)]) with (((fun o => (p, o_id o)) <$> (q1 ++ q2)) ++ []).
    rewrite app_nil_r, !fmap_app, fmap_cons. solve_Permutation.
Qed.

Lemma prices_middle m1 p (x : Book) m2 p' : prices x = [p] \/ x = [] ->
  p' ∈ prices (m1 ++ x ++ m2) -> p' = p \/ p' ∈ prices m1 \/ p' ∈ prices m2.
Proof. unfold prices. intros [H| ->]; rewrite !fmap_app, ?H; set_solver. Qed.

Lemma sorted_middle s m1 p q (x : Book) m2 : prices x = [p] \/ x = [] -> sorted s (m1 ++ (p, q) :: m2) ->
  sorted s (m1 ++ x ++ m2).
Proof.
  intros Hx. induction m1 as [|[p1 q1] m1 IH]; simpl.
  - intros [Hs Hlt]%sorted_cons. destruct Hx as [Hx| ->]; [|done]. destruct x as [|[p2 q2] [|]]; simplify_eq/=.
    by apply sorted_cons.
  - intros [Hs Hlt]%sorted_cons. apply sorted_cons. split; [auto|]. intros p' Hp'. apply Hlt.
    unfold prices in *. rewrite !fmap_app in *. destruct Hx as [Hx| ->]; rewrite ?Hx in *; set_solver.
Qed.

Lemma positive_middle m1 p q (x : Book) m2 : positive (m1 ++ (p, q) :: m2) -> positive x -> positive (m1 ++ x ++ m2).
Proof. unfold positive. rewrite !Forall_app, Forall_cons. naive_solver. Qed.

Lemma wf_remove r id l : wf r -> index_ r !! id = Some l ->
  exists r', remove r l id = Some r' /\ wf r' /\ same_cfg r r' /\ index_ r' = delete id (index_ r).
Proof.
  intros Hw Hl. destruct (deref_spec r id l Hw Hl) as (m1 & q1 & o & q2 & m2 & Hm & Hid & _ & Hf & Her & Hput & _).
  unfold remove. rewrite Hf. simpl. rewrite Her, Hput. eexists. split; [done|].
  split; [|split; [apply set_book_cfg|apply index_set_book]].
  set (x := if q1 ++ q2 is [] then [] else [(l_price l, q1 ++ q2)]).
  assert (prices x = [l_price l] \/ x = []) as Hx by (unfold x; destruct (q1 ++ q2); auto).
  pose proof (keys_split m1 (l_price l) q1 o q2 m2) as Hk. fold x in Hk. rewrite <- Hm, Hid in Hk.
  pose proof (wf_ids r Hw (l_side l)) as Hd. unfold ids in Hd. rewrite Hk in Hd. simpl in Hd.
  apply NoDup_cons in Hd as [Hn Hd]. fold (ids (m1 ++ x ++ m2)) in Hn.
  assert (forall p, p ∈ prices (m1 ++ x ++ m2) -> p ∈ prices (book r (l_side l))) as Hsub.
  { intros p Hp. apply (prices_middle _ (l_price l)) in Hp; [|done]. rewrite Hm. unfold prices in *.
    rewrite fmap_app. set_solver. }
  pose proof (wf_sorted r Hw (l_side l)) as Hs. rewrite Hm in Hs.
  pose proof (wf_pos r Hw (l_side l)) as Hp. rewrite Hm in Hp. apply wf_set_book; try done.
  - by apply (sorted_middle _ _ (l_price l) (q1 ++ o :: q2)).
  - apply (positive_middle m1 (l_price l) (q1 ++ o :: q2)); [done|]. unfold positive in *.
    rewrite Forall_app, Forall_cons in Hp. destruct Hp as (_ & [_ Hq] & _). simpl in Hq.
    unfold x. destruct (q1 ++ q2) eqn:E; constructor; [|done]. simpl. split; [done|]. rewrite <- E.
    rewrite Forall_app, Forall_cons in Hq. apply Forall_app. naive_solver.
  - intros p Hp'. by apply (wf_band r Hw (l_side l)), Hsub.
  - intros i p. destruct (decide (i = id)) as [->|Hne].
    + rewrite lookup_delete_eq. split; [done|]. intros Hp'%keys_ids. done.
    + rewrite lookup_delete_ne by done. rewrite (wf_index r Hw i (mkLoc (l_side l) p)). simpl. rewrite Hk, elem_of_cons.
      naive_solver.
  - intros i p. destruct (decide (i = id)) as [->|Hne]; [|by rewrite lookup_delete_ne].
    rewrite lookup_delete_eq, Hl. split; [done|]. intros [= He]. apply (f_equal l_side) in He. by destruct (l_side l).
  - intros p p' H1 H2. apply Hsub in H1. destruct (l_side l); simpl in *; by apply (wf_uncrossed r Hw).
  - pose proof (wf_cap r Hw). unfold order_count in *. rewrite map_size_delete_Some by eauto. lia.
Qed.

(** Reducing a resting order in place. *)
Lemma wf_amend r id l v : wf r -> index_ r !! id = Some l -> 0 < v ->
  exists q, map_find (book r (l_side l)) (l_price l) = Some q /\
    wf (set_book r (l_side l) (map_put (book r (l_side l)) (l_price l) (queue_update q id v)) (index_ r)).
Proof.
  intros Hw Hl Hv. destruct (deref_spec r id l Hw Hl) as (m1 & q1 & o & q2 & m2 & Hm & Hid & _ & Hf & _ & Hput & Hupd).
  exists (q1 ++ o :: q2). split; [done|]. rewrite Hupd, Hput. set (x := if q1 ++ set_qty o v :: q2 is [] then [] else _).
  assert (x = [(l_price l, q1 ++ set_qty o v :: q2)]) as Hx by (by unfold x; destruct q1). rewrite Hx. clear x Hx.
  set (x := [(l_price l, q1 ++ set_qty o v :: q2)]). assert (prices x = [l_price l]) as Hx by done.
  assert (keys (m1 ++ x ++ m2) = keys (book r (l_side l))) as Hk.
  { rewrite Hm, !keys_app. unfold x, keys. simpl. by rewrite !fmap_app, app_nil_r. }
  assert (prices (m1 ++ x ++ m2) = prices (book r (l_side l))) as Hpr.
  { rewrite Hm. unfold prices. by rewrite !fmap_app. }
  pose proof (wf_sorted r Hw (l_side l)) as Hs. pose proof (wf_pos r Hw (l_side l)) as Hp. rewrite Hm in Hp.
  apply wf_set_book; try done.
  - unfold sorted. by rewrite Hpr.
  - apply (positive_middle m1 (l_price l) (q1 ++ o :: q2)); [done|]. unfold positive in *.
    rewrite Forall_app, Forall_cons in Hp. destruct Hp as (_ & [_ Hq] & _). simpl in Hq. constructor; [|done]. simpl.
    split; [by destruct q1|]. rewrite Forall_app, Forall_cons in *. simpl. naive_solver.
  - unfold ids. rewrite Hk. apply (wf_ids r Hw).
  - rewrite Hpr. apply (wf_band r Hw).
  - intros i p. rewrite Hk. apply (wf_index r Hw i (mkLoc (l_side l) p)).
  - rewrite Hpr. intros p p' H1 H2. destruct (l_side l); simpl in *; by apply (wf_uncrossed r Hw).
  - apply (wf_cap r Hw).
Qed.

(** ** Every operation keeps the invariant, and dereferences no dangling iterator *)

Lemma contains_false r id : contains r id = false -> index_ r !! id = None.
Proof. unfold contains. rewrite bool_decide_eq_false, eq_None_not_Some. done. Qed.

Lemma same_cfg_trans r1 r2 r3 : same_cfg r1 r2 -> same_cfg r2 r3 -> same_cfg r1 r3.
Proof. unfold same_cfg. intuition congruence. Qed.

Lemma same_cfg_refl r : same_cfg r r.
Proof. done. Qed.

Definition limit_of (r : t) (c : Command) : Z :=
  if bool_decide (c_ord_type c = Market) then match c_side c with Buy => max_price_ r | Sell => min_price_ r end
  else c_price c.

Lemma limit_band r c : min_price_ r <= max_price_ r ->
  negb (bool_decide (c_ord_type c = Market)) && out_of_band r (c_price c) = false ->
  min_price_ r <= limit_of r c <= max_price_ r.
Proof.
  intros Hb. unfold limit_of, out_of_band. case_bool_decide; simpl; [destruct (c_side c); lia|]. intros H'. to_prop. lia.
Qed.

Lemma add_wf r c : wf r -> min_price_ r <= max_price_ r -> 0 <= c_qty c -> wf (add r c).1 /\ same_cfg r (add r c).1.
Proof.
  intros Hw Hb Hq. unfold add. fold (limit_of r c). set (px := if bool_decide _ then 0 else _). clearbody px.
  case_if; [done|]. case_if; [done|]. destruct (negb _ && out_of_band _ _) eqn:Eob; [done|].
  pose proof (limit_band r c Hb Eob) as Hlim.
  destruct (contains r (c_order_id c)) eqn:Ec; [done|]. apply contains_false in Ec. case_if; [done|]. case_if; [done|].
  destruct (match_ _ _ _ _ _ _ _) as [[[r1 q1] stop] es] eqn:Em.
  destruct (wf_match _ _ _ _ _ _ _ _ _ _ _ Hw Hq Em) as (Hw1 & Hc1 & Hq1 & Hst & Hid & Hend & _).
  destruct (Z.eqb_spec q1 0); [done|]. destruct stop; [done|]. case_if; [done|].
  destruct (rest _ _ _ _ _ _) as [r2 es2] eqn:Er.
  destruct (wf_rest r1 (c_order_id c) (c_owner c) (c_side c) (limit_of r c) q1 r2 es2) as [Hw2 Hc2]; try done; [lia| | | |].
  - apply eq_None_not_Some. intros Hs%Hid. rewrite Ec in Hs. by destruct Hs.
  - destruct Hc1 as (_ & -> & -> & _). done.
  - destruct Hend as [?|[?|Hend]]; [lia|done|done].
  - split; [done|]. by eapply same_cfg_trans.
Qed.

Lemma cancel_ok r c : wf r -> exists r' es, cancel r c = Some (r', es) /\ wf r' /\ same_cfg r r'.
Proof.
  intros Hw. unfold cancel. destruct (index_ r !! c_order_id c) as [l|] eqn:Hl; [|eexists _, _; done].
  destruct (deref_spec r _ l Hw Hl) as (m1 & q1 & o & q2 & m2 & _ & _ & -> & _).
  destruct (wf_remove r _ l Hw Hl) as (r' & -> & Hw' & Hc & _). simpl. eauto.
Qed.

Lemma modify_ok r c : wf r -> 0 <= c_qty c -> exists r' es, modify r c = Some (r', es) /\ wf r' /\ same_cfg r r'.
Proof.
  intros Hw Hq. unfold modify. destruct (Z.eqb_spec (c_qty c) 0); [eexists _, _; done|].
  destruct (index_ r !! c_order_id c) as [l|] eqn:Hl; [|eexists _, _; done].
  destruct (out_of_band r (c_price c)) eqn:Eob; [eexists _, _; done|].
  unfold out_of_band in Eob. to_prop.
  destruct (deref_spec r _ l Hw Hl) as (m1 & q1 & o & q2 & m2 & _ & _ & -> & _). simpl. case_if.
  { destruct (wf_amend r _ l (c_qty c) Hw Hl) as (q & -> & Hw'); [lia|]. simpl. eexists _, _. split; [done|].
    split; [done|]. apply set_book_cfg. }
  destruct (wf_remove r _ l Hw Hl) as (r0 & -> & Hw0 & Hc0 & Hi0). simpl.
  destruct (match_ _ _ _ _ _ _ _) as [[[r1 qty1] stop] es] eqn:Em.
  destruct (wf_match _ _ _ _ _ _ _ _ _ _ _ Hw0 Hq Em) as (Hw1 & Hc1 & Hq1 & Hst & Hid & Hend & _).
  pose proof (same_cfg_trans _ _ _ Hc0 Hc1) as Hc.
  destruct (Z.eqb_spec qty1 0); [eexists _, _; done|]. destruct stop; [eexists _, _; done|].
  destruct (rest _ _ _ _ _ _) as [r2 es2] eqn:Er.
  destruct (wf_rest r1 (c_order_id c) (o_owner o) (l_side l) (c_price c) qty1 r2 es2) as [Hw2 Hc2]; try done; [lia| | | |].
  - apply eq_None_not_Some. intros Hs%Hid. rewrite Hi0, lookup_delete_eq in Hs. by destruct Hs.
  - destruct Hc as (_ & -> & -> & _). lia.
  - destruct Hend as [?|[?|Hend]]; [lia|done|done].
  - eexists _, _. split; [done|]. split; [done|]. by eapply same_cfg_trans.
Qed.

Lemma step_ok r c : wf r -> min_price_ r <= max_price_ r -> 0 <= c_qty c ->
  exists r' es, step r c = Some (r', es) /\ wf r' /\ same_cfg r r'.
Proof.
  intros Hw Hb Hq. unfold step. destruct (c_type c).
  - destruct (add r c) as [r' es] eqn:E. pose proof (add_wf r c Hw Hb Hq) as H. rewrite E in H. eauto.
  - by apply cancel_ok.
  - by apply modify_ok.
Qed.

Lemma make_wf symbol cfg : 0 <= cfg_max_orders cfg -> wf (make symbol cfg).
Proof.
  intros Hc. constructor; simpl.
  - intros []; constructor.
  - intros []; constructor.
  - intros []; constructor.
  - intros [] p ?%elem_of_nil; done.
  - intros id [[] p]; simpl; rewrite lookup_empty; (split; [done|intros ?%elem_of_nil; done]).
  - intros p p' ?%elem_of_nil; done.
  - unfold order_count. simpl. rewrite map_size_empty. lia.
Qed.

(** Any sequence of commands runs to the end from a well-formed book. *)
Lemma run_ok cs : forall r, wf r -> min_price_ r <= max_price_ r -> Forall (fun c => 0 <= c_qty c) cs ->
  exists r' es, run r cs = Some (r', es) /\ wf r' /\ same_cfg r r'.
Proof.
  induction cs as [|c cs IH]; intros r Hw Hb Hq; simpl; [eexists _, _; done|].
  apply Forall_cons in Hq as [Hq Hqs]. destruct (step_ok r c Hw Hb Hq) as (r1 & es1 & -> & Hw1 & Hc1). simpl.
  destruct (IH r1) as (r2 & es2 & -> & Hw2 & Hc2); [done|by destruct Hc1 as (_ & -> & -> & _)|done|]. simpl.
  eexists _, _. split; [done|]. split; [done|]. by eapply same_cfg_trans.
Qed.

(** The audit the differential tests run never fails. *)
Lemma wf_check_invariants r : wf r -> check_invariants r = true.
Proof.
  intros Hw. unfold check_invariants. apply andb_true_iff. split.
  - pose proof (wf_uncrossed r Hw) as Hu. unfold best_bid, best_ask. destruct (bids_ r) as [|[b qb] ?]; [done|].
    destruct (asks_ r) as [|[a qa] ?]; [done|]. simpl. apply Z.ltb_lt, Hu; simpl; set_solver.
  - apply Z.eqb_eq. unfold order_count. f_equal.
    assert (forall m : Book, foldr (fun '(_, q) n => length q + n)%nat 0%nat m = length (ids m)) as Hlen.
    { induction m as [|[p q] m IH]; [done|]. rewrite ids_cons, length_app, length_fmap, <- IH. done. }
    rewrite Hlen, ids_app. rewrite <- size_dom.
    assert (dom (index_ r) = list_to_set (ids (bids_ r) ++ ids (asks_ r))) as ->.
    { apply set_eq. intros id. rewrite elem_of_dom, elem_of_list_to_set, elem_of_app, !elem_of_ids. split.
      - intros [[[] p] Hl]; apply (wf_index r Hw) in Hl; simpl in Hl; eauto.
      - intros [[p Hp]|[p Hp]]; [exists (mkLoc Buy p)|exists (mkLoc Sell p)]; by apply (wf_index r Hw). }
    rewrite size_list_to_set; [done|]. apply NoDup_app. split_and!; [apply (wf_ids r Hw Buy)| |apply (wf_ids r Hw Sell)].
    intros id (p & Hp)%elem_of_ids (p' & Hp')%elem_of_ids. by destruct (wf_one_side r Buy Sell p p' id Hw Hp Hp').
Qed.

End ReferenceBook.
