(* ===== verification/OrderBook.v ===== *)
(** * The order book (order_book.hpp)

    Price-time priority matching over a dense price ladder, intrusive queues of store slots, bitmaps of occupied levels
    and a hash index, generic in the store's layout, the index and the bitmap, as the C++ template is. [None] is
    undefined behaviour (an access out of bounds, a signed overflow), a loop that runs out of fuel or, in the
    constructor, the thrown exception; BookRefine shows that it does not occur. *)
From S2P Require Import Prelude Common Interfaces OrderStore.

(** Subtraction of [Price]s: signed, so an overflow is undefined. *)
Definition sub_price (a b : Z) : option Z :=
  if (-9223372036854775808 <=? a - b) && (a - b <? 9223372036854775808) then Some (a - b) else None.

Module OrderBook.

Record Level := mkLevel { lv_qty : Z; lv_head : Z; lv_tail : Z }.

Section book.
Context {S I B : Type} `{OrderFields S} `{IdIndex I} `{LevelSet B}.

Record t := mk {
  symbol_ : Z;
  min_price_ : Z;
  n_ : Z;
  stp_ : Stp;
  best_bid_ : Z;
  best_ask_ : Z;
  levels_ : list Level;
  bid_bits_ : B;
  ask_bits_ : B;
  ids_ : I;
  store_ : FreeListStore.t S;
}.

Definition make (symbol : Z) (cfg : BookConfig) : option t :=
  bids ← ls_make (cfg_num_levels cfg);
  asks ← ls_make (cfg_num_levels cfg);
  store ← FreeListStore.make (cfg_max_orders cfg);
  if (cfg_max_orders cfg =? 0) || (kNil <=? cfg_max_orders cfg) then None else
  Some (mk symbol (cfg_min_price cfg) (cfg_num_levels cfg) (cfg_stp cfg) (-1) (cfg_num_levels cfg)
    (amake (cfg_num_levels cfg) (mkLevel 0 kNil kNil)) bids asks (ix_make (cfg_max_orders cfg)) store).

(** ** Access to the parts *)

Definition with_levels (b : t) (l : list Level) : t :=
  mk (symbol_ b) (min_price_ b) (n_ b) (stp_ b) (best_bid_ b) (best_ask_ b) l (bid_bits_ b) (ask_bits_ b) (ids_ b) (store_ b).
Definition with_ids (b : t) (i : I) : t :=
  mk (symbol_ b) (min_price_ b) (n_ b) (stp_ b) (best_bid_ b) (best_ask_ b) (levels_ b) (bid_bits_ b) (ask_bits_ b) i (store_ b).
Definition with_store (b : t) (st : FreeListStore.t S) : t :=
  mk (symbol_ b) (min_price_ b) (n_ b) (stp_ b) (best_bid_ b) (best_ask_ b) (levels_ b) (bid_bits_ b) (ask_bits_ b) (ids_ b) st.

(** The bitmap and the cached best level of one side. *)
Definition bits (b : t) (s : Side) : B := match s with Buy => bid_bits_ b | Sell => ask_bits_ b end.
Definition best (b : t) (s : Side) : Z := match s with Buy => best_bid_ b | Sell => best_ask_ b end.
Definition with_bits (b : t) (s : Side) (x : B) : t :=
  match s with
  | Buy => mk (symbol_ b) (min_price_ b) (n_ b) (stp_ b) (best_bid_ b) (best_ask_ b) (levels_ b) x (ask_bits_ b) (ids_ b) (store_ b)
  | Sell => mk (symbol_ b) (min_price_ b) (n_ b) (stp_ b) (best_bid_ b) (best_ask_ b) (levels_ b) (bid_bits_ b) x (ids_ b) (store_ b)
  end.
Definition with_best (b : t) (s : Side) (x : Z) : t :=
  match s with
  | Buy => mk (symbol_ b) (min_price_ b) (n_ b) (stp_ b) x (best_ask_ b) (levels_ b) (bid_bits_ b) (ask_bits_ b) (ids_ b) (store_ b)
  | Sell => mk (symbol_ b) (min_price_ b) (n_ b) (stp_ b) (best_bid_ b) x (levels_ b) (bid_bits_ b) (ask_bits_ b) (ids_ b) (store_ b)
  end.

Definition fields (b : t) : S := FreeListStore.self (store_ b).
Definition upd_fields (b : t) (o : option S) : option t :=
  st ← FreeListStore.with_self (store_ b) o; Some (with_store b st).
Definition key_of (b : t) : Z -> option Z := of_id (fields b).

Definition level (b : t) (ix : Z) : option Level := (levels_ b).[ix].
Definition set_level (b : t) (ix : Z) (lv : Level) : option t := l ← (levels_ b).[ix <- lv]; Some (with_levels b l).
(** [lv.qty -= d] on the 64-bit aggregate of level [ix]. *)
Definition sub_level_qty (b : t) (ix d : Z) : option t :=
  lv ← level b ix; set_level b ix (mkLevel (u64 (lv_qty lv - d)) (lv_head lv) (lv_tail lv)).

(** The next best level of a side after [ix]. *)
Definition next_best (b : t) (s : Side) (ix : Z) : option Z :=
  match s with Buy => ls_find_prev (bid_bits_ b) (ix - 1) | Sell => ls_find_next (ask_bits_ b) (ix + 1) end.

Definition crosses (b : t) (s : Side) (limit : Z) : bool :=
  match s with Buy => best_ask_ b <=? limit | Sell => limit <=? best_bid_ b end.

(** [ids_.erase_known(store_.id(s), s); store_.release(s);] and the slot after [s], read before. *)
Definition drop_maker (b : t) (s : Z) : option (t * Z) :=
  nx ← of_next (fields b) s;
  id ← of_id (fields b) s;
  ids ← ix_erase_known (ids_ b) id s;
  st ← FreeListStore.release (store_ b) s;
  Some (with_store (with_ids b ids) st, nx).

(** ** Matching *)

Section sweep.
Context (side : Side) (taker taker_owner limit : Z) (stp : Stp).

(** [stp != Stp::None && store_.owner(s) == taker_owner]. *)
Definition self_trade (b : t) (s : Z) : option bool :=
  if bool_decide (stp = StpNone) then Some false else o ← of_owner (fields b) s; Some (o =? taker_owner).

(** The inner loop, on the queue of level [ix] from slot [s]: the slot it stops at, the taker's remainder, [stp_stop]
    and the events. *)
Fixpoint sweep_level (ix : Z) (fuel : nat) (b : t) (s qty : Z) : option (t * Z * Z * bool * list Event) :=
  match fuel with
  | O => None
  | Datatypes.S fuel =>
      if s =? kNil then Some (b, s, qty, false, []) else
      let px := min_price_ b + ix in
      own ← self_trade b s;
      if (own : bool) then
        if bool_decide (stp = CancelIncoming) then Some (b, s, qty, true, []) else
        mq ← of_qty (fields b) s;
        id ← of_id (fields b) s;
        if bool_decide (stp = DecrementCancel) && (qty <? mq) then
          b ← upd_fields b (of_set_qty (fields b) s (mq - qty));
          b ← sub_level_qty b ix qty;
          Some (b, s, qty, true, [stp_decrement_event (symbol_ b) id (opposite side) px (mq - qty)])
        else
          b ← sub_level_qty b ix mq;
          let e := canceled_event (symbol_ b) id (opposite side) px mq SelfTrade in
          '(b, nx) ← drop_maker b s;
          if bool_decide (stp = DecrementCancel) then
            if mq =? qty then Some (b, nx, qty, true, [e]) else
            let qty := qty - mq in
            let e' := stp_decrement_event (symbol_ b) taker side (min_price_ b + limit) qty in
            '(b, s, qty, stop, es) ← sweep_level ix fuel b nx qty;
            Some (b, s, qty, stop, e :: e' :: es)
          else
            '(b, s, qty, stop, es) ← sweep_level ix fuel b nx qty;
            Some (b, s, qty, stop, e :: es)
      else
        avail ← of_qty (fields b) s;
        id ← of_id (fields b) s;
        let fill := if avail <? qty then avail else qty in
        let left_ := avail - fill in
        let qty := qty - fill in
        b ← sub_level_qty b ix fill;
        let e := trade_event (symbol_ b) taker id side px fill left_ in
        if negb (left_ =? 0) then
          b ← upd_fields b (of_set_qty (fields b) s left_);
          Some (b, s, qty, false, [e])
        else
          '(b, nx) ← drop_maker b s;
          if qty =? 0 then Some (b, nx, qty, false, [e]) else
          '(b, s, qty, stop, es) ← sweep_level ix fuel b nx qty;
          Some (b, s, qty, stop, e :: es)
  end.

(** After the inner loop: the level's new head and, if it emptied, its retirement. *)
Definition finish_level (b : t) (ix s : Z) : option t :=
  lv ← level b ix;
  if s =? kNil then
    b ← set_level b ix (mkLevel (lv_qty lv) s kNil);
    x ← ls_clear (bits b (opposite side)) ix;
    let b := with_bits b (opposite side) x in
    nb ← next_best b (opposite side) ix;
    Some (with_best b (opposite side) nb)
  else set_level b ix (mkLevel (lv_qty lv) s (lv_tail lv)).

(** Each round retires a level or ends the loop, and a level holds at most [capacity] orders: see [sweep]. *)
Fixpoint sweep_loop (fuel : nat) (b : t) (qty : Z) : option (t * Z * bool * list Event) :=
  match fuel with
  | O => None
  | Datatypes.S fuel =>
      if negb (qty =? 0) && crosses b side limit then
        let ix := best b (opposite side) in
        lv ← level b ix;
        '(b, s, qty, stop, es) ←
          sweep_level ix (Datatypes.S (Z.to_nat (FreeListStore.capacity (store_ b)))) b (lv_head lv) qty;
        b ← finish_level b ix s;
        if (stop : bool) then Some (b, qty, true, es) else
        '(b, qty, stop, es') ← sweep_loop fuel b qty;
        Some (b, qty, stop, es ++ es')
      else Some (b, qty, false, [])
  end.

Definition sweep (b : t) (qty : Z) : option (t * Z * bool * list Event) :=
  sweep_loop (Datatypes.S (Z.to_nat (n_ b))) b qty.

(** ** The fill-or-kill pre-check *)

(** One level, order by order: the answer if the level decides it, else the need that remains. *)
Fixpoint fillable_level (b : t) (fuel : nat) (s need : Z) : option (bool + Z) :=
  match fuel with
  | O => None
  | Datatypes.S fuel =>
      if s =? kNil then Some (inr need) else
      q ← of_qty (fields b) s;
      o ← of_owner (fields b) s;
      nx ← of_next (fields b) s;
      if o =? taker_owner then
        if bool_decide (stp = CancelIncoming) then Some (inl false) else
        if bool_decide (stp = DecrementCancel) then
          if need <=? q then Some (inl false) else fillable_level b fuel nx (need - q)
        else fillable_level b fuel nx need
      else if need <=? q then Some (inl true) else fillable_level b fuel nx (need - q)
  end.

Fixpoint fillable_loop (b : t) (fuel : nat) (i need : Z) : option bool :=
  match fuel with
  | O => None
  | Datatypes.S fuel =>
      if match side with Buy => i <=? limit | Sell => (limit <=? i) && (0 <=? i) end then
        lv ← level b i;
        if bool_decide (stp = StpNone) then
          if need <=? lv_qty lv then Some true else
          i ← next_best b (opposite side) i; fillable_loop b fuel i (need - lv_qty lv)
        else
          r ← fillable_level b (Datatypes.S (Z.to_nat (FreeListStore.capacity (store_ b)))) (lv_head lv) need;
          match r with
          | inl a => Some a
          | inr need => i ← next_best b (opposite side) i; fillable_loop b fuel i need
          end
      else Some false
  end.

Definition fillable (b : t) (qty : Z) : option bool :=
  fillable_loop b (Datatypes.S (Z.to_nat (n_ b))) (best b (opposite side)) qty.
End sweep.

(** ** Resting and unlinking *)

Definition rest (b : t) (side : Side) (id owner ix qty ts : Z) : option (t * list Event) :=
  '(st, s) ← FreeListStore.alloc (store_ b);
  if s =? kNil then Some (b, [canceled_event (symbol_ b) id side (min_price_ b + ix) qty BookFull]) else
  let b := with_store b st in
  b ← upd_fields b (of_init (fields b) s id qty (u32 ix) owner side ts);
  lv ← level b ix;
  b ← upd_fields b (of_set_next (fields b) s kNil);
  b ← upd_fields b (of_set_prev (fields b) s (lv_tail lv));
  b ← (if lv_tail lv =? kNil then
         b ← set_level b ix (mkLevel (lv_qty lv) s (lv_tail lv));
         x ← ls_set (bits b side) ix;
         let b := with_bits b side x in
         Some (if match side with Buy => best_bid_ b <? ix | Sell => ix <? best_ask_ b end then with_best b side ix else b)
       else upd_fields b (of_set_next (fields b) (lv_tail lv) s));
  lv ← level b ix;
  b ← set_level b ix (mkLevel (u64 (lv_qty lv + qty)) (lv_head lv) s);
  ids ← ix_insert (ids_ b) id s;
  Some (with_ids b ids, []).

Definition unlink (b : t) (s : Z) : option t :=
  ix ← of_level (fields b) s;
  lv ← level b ix;
  n ← of_next (fields b) s;
  p ← of_prev (fields b) s;
  b ← (if s =? lv_head lv then set_level b ix (mkLevel (lv_qty lv) n (lv_tail lv))
       else upd_fields b (of_set_next (fields b) p n));
  lv ← level b ix;
  b ← (if s =? lv_tail lv then
         set_level b ix (mkLevel (lv_qty lv) (lv_head lv) (if lv_head lv =? kNil then kNil else p))
       else upd_fields b (of_set_prev (fields b) n p));
  q ← of_qty (fields b) s;
  b ← sub_level_qty b ix q;
  lv ← level b ix;
  if lv_head lv =? kNil then
    side ← of_side (fields b) s;
    x ← ls_clear (bits b side) ix;
    let b := with_bits b side x in
    if ix =? best b side then nb ← next_best b side ix; Some (with_best b side nb) else Some b
  else Some b.

(** ** The three operations *)

Definition add (b : t) (c : Command) : option (t * list Event) :=
  let side := c_side c in
  if c_order_id c =? 0 then Some (b, [rejected_event c InvalidOrderId]) else
  if c_qty c =? 0 then Some (b, [rejected_event c InvalidQty]) else
  let market := bool_decide (c_ord_type c = Market) in
  rel ← (if market then Some (match side with Buy => n_ b - 1 | Sell => 0 end) else sub_price (c_price c) (min_price_ b));
  if negb market && ((rel <? 0) || (n_ b <=? rel)) then Some (b, [rejected_event c InvalidPrice]) else
  let limit := rel in
  f ← ix_find (ids_ b) (c_order_id c) (key_of b);
  if negb (f =? kNil) then Some (b, [rejected_event c DuplicateOrderId]) else
  if negb (Z.land (c_flags c) kFlagPostOnly =? 0) && crosses b side limit then Some (b, [rejected_event c WouldCross]) else
  let px := if market then 0 else c_price c in
  let acc := accepted_event (symbol_ b) (c_order_id c) side px (c_qty c) in
  let stp := effective_stp (c_flags c) (stp_ b) in
  killed ← (if bool_decide (c_tif c = Fok) then a ← fillable side (c_owner c) limit stp b (c_qty c); Some (negb a)
            else Some false);
  if (killed : bool) then
    Some (b, [acc; canceled_event (symbol_ b) (c_order_id c) side px (c_qty c) FokUnfilled]) else
  '(b, left_, stp_stop, es) ← sweep side (c_order_id c) (c_owner c) limit stp b (c_qty c);
  if left_ =? 0 then Some (b, acc :: es) else
  if (stp_stop : bool) then
    Some (b, acc :: es ++ [canceled_event (symbol_ b) (c_order_id c) side px left_ SelfTrade]) else
  if market || negb (bool_decide (c_tif c = Day)) then
    Some (b, acc :: es ++ [canceled_event (symbol_ b) (c_order_id c) side px left_ IocExpired]) else
  '(b, es') ← rest b side (c_order_id c) (c_owner c) limit left_ (c_ts c);
  Some (b, acc :: es ++ es').

Definition cancel (b : t) (c : Command) : option (t * list Event) :=
  '(ids, s) ← ix_erase (ids_ b) (c_order_id c) (key_of b);
  let b := with_ids b ids in
  if s =? kNil then Some (b, [rejected_event c UnknownOrder]) else
  side ← of_side (fields b) s;
  leaves ← of_qty (fields b) s;
  l ← of_level (fields b) s;
  let px := min_price_ b + l in
  b ← unlink b s;
  st ← FreeListStore.release (store_ b) s;
  Some (with_store b st, [canceled_event (symbol_ b) (c_order_id c) side px leaves UserCanceled]).

(** A modified order that lost its priority comes back as an incoming order, under the book's self-trade mode. *)
Definition reenter (b : t) (side : Side) (id owner ix qty ts : Z) : option (t * list Event) :=
  '(b, left_, stp_stop, es) ← sweep side id owner ix (stp_ b) b qty;
  if left_ =? 0 then Some (b, es) else
  if (stp_stop : bool) then Some (b, es ++ [canceled_event (symbol_ b) id side (min_price_ b + ix) left_ SelfTrade]) else
  '(b, es') ← rest b side id owner ix left_ ts;
  Some (b, es ++ es').

Definition modify (b : t) (c : Command) : option (t * list Event) :=
  if c_qty c =? 0 then Some (b, [rejected_event c InvalidQty]) else
  s ← ix_find (ids_ b) (c_order_id c) (key_of b);
  if s =? kNil then Some (b, [rejected_event c UnknownOrder]) else
  rel ← sub_price (c_price c) (min_price_ b);
  if (rel <? 0) || (n_ b <=? rel) then Some (b, [rejected_event c InvalidPrice]) else
  let ix := rel in
  side ← of_side (fields b) s;
  l ← of_level (fields b) s;
  q ← of_qty (fields b) s;
  let md := modified_event (symbol_ b) (c_order_id c) side (c_price c) (c_qty c) in
  if (ix =? l) && (c_qty c <=? q) then
    b ← sub_level_qty b ix (q - c_qty c);
    b ← upd_fields b (of_set_qty (fields b) s (c_qty c));
    Some (b, [md])
  else
    owner ← of_owner (fields b) s;
    ids ← ix_erase_known (ids_ b) (c_order_id c) s;
    let b := with_ids b ids in
    b ← unlink b s;
    st ← FreeListStore.release (store_ b) s;
    let b := with_store b st in
    '(b, es) ← reenter b side (c_order_id c) owner ix (c_qty c) (c_ts c);
    Some (b, md :: es).

Definition step (b : t) (c : Command) : option (t * list Event) :=
  match c_type c with NewOrder => add b c | Cancel => cancel b c | Modify => modify b c end.

Fixpoint run (b : t) (cs : list Command) : option (t * list Event) :=
  match cs with
  | [] => Some (b, [])
  | c :: cs => '(b, es) ← step b c; '(b, es') ← run b cs; Some (b, es ++ es')
  end.

(** ** Queries *)

Definition best_bid (b : t) : option Z := if 0 <=? best_bid_ b then Some (min_price_ b + best_bid_ b) else None.
Definition best_ask (b : t) : option Z := if best_ask_ b <? n_ b then Some (min_price_ b + best_ask_ b) else None.
Definition best_bid_qty (b : t) : option Z :=
  if 0 <=? best_bid_ b then lv_qty <$> level b (best_bid_ b) else Some 0.
Definition best_ask_qty (b : t) : option Z :=
  if best_ask_ b <? n_ b then lv_qty <$> level b (best_ask_ b) else Some 0.
Definition order_count (b : t) : Z := FreeListStore.live (store_ b).
Definition contains (b : t) (id : Z) : option bool := s ← ix_find (ids_ b) id (key_of b); Some (negb (s =? kNil)).

Definition find_order (b : t) (id : Z) : option (option OrderView) :=
  s ← ix_find (ids_ b) id (key_of b);
  if s =? kNil then Some None else
  l ← of_level (fields b) s;
  q ← of_qty (fields b) s;
  side ← of_side (fields b) s;
  o ← of_owner (fields b) s;
  Some (Some (mkOrderView (min_price_ b + l) q side o)).

(** The (id, quantity) pairs of a queue from slot [s]. *)
Fixpoint visit_queue (b : t) (fuel : nat) (s : Z) : option (list (Z * Z * Side)) :=
  match fuel with
  | O => None
  | Datatypes.S fuel =>
      if s =? kNil then Some [] else
      id ← of_id (fields b) s;
      q ← of_qty (fields b) s;
      sd ← of_side (fields b) s;
      nx ← of_next (fields b) s;
      l ← visit_queue b fuel nx;
      Some ((id, q, sd) :: l)
  end.

Definition queue_at (b : t) (ix : Z) : option (list (Z * Z * Side)) :=
  lv ← level b ix; visit_queue b (Datatypes.S (Z.to_nat (FreeListStore.capacity (store_ b)))) (lv_head lv).

(** The loop that [for_each_order] and [for_each_level] share: the levels of a side, best first. *)
Fixpoint side_levels (b : t) (s : Side) (fuel : nat) (i : Z) : option (list Z) :=
  match fuel with
  | O => None
  | Datatypes.S fuel =>
      if match s with Buy => 0 <=? i | Sell => i <? n_ b end then
        j ← next_best b s i; l ← side_levels b s fuel j; Some (i :: l)
      else Some []
  end.

Definition levels_of (b : t) (s : Side) : option (list Z) := side_levels b s (Datatypes.S (Z.to_nat (n_ b))) (best b s).

Definition for_each_order (b : t) (s : Side) : option (list (Z * Z * Z)) :=
  l ← levels_of b s;
  qs ← mapM (fun i => fmap (fun x => (min_price_ b + i, x.1.1, x.1.2) : Z * Z * Z) <$> queue_at b i) l;
  Some (concat qs).

Definition for_each_level (b : t) (s : Side) : option (list (Z * Z)) :=
  l ← levels_of b s;
  mapM (fun i => (fun lv => (min_price_ b + i, lv_qty lv)) <$> level b i) l.

Definition level_qty (b : t) (s : Side) (px : Z) : option Z :=
  rel ← sub_price px (min_price_ b);
  if (rel <? 0) || (n_ b <=? rel) then Some 0 else
  x ← ls_test (bits b s) rel;
  if (x : bool) then lv_qty <$> level b rel else Some 0.

Definition for_each_order_at (b : t) (px : Z) : option (list (Z * Z * Side)) :=
  rel ← sub_price px (min_price_ b);
  if (rel <? 0) || (n_ b <=? rel) then Some [] else queue_at b rel.

(** ** The structural audit *)

(** One queue: [None] inside is a failed check, else the last slot, the sum of quantities and the orders seen. *)
Fixpoint audit_queue (b : t) (side : Side) (ix : Z) (fuel : nat) (s last sum seen : Z) : option (option (Z * Z * Z)) :=
  match fuel with
  | O => None
  | Datatypes.S fuel =>
      if s =? kNil then Some (Some (last, sum, seen)) else
      sd ← of_side (fields b) s;
      l ← of_level (fields b) s;
      q ← of_qty (fields b) s;
      if negb (bool_decide (sd = side)) || negb (l =? ix) || (q =? 0) then Some None else
      p ← (if last =? kNil then Some last else of_prev (fields b) s);
      if negb (p =? last) then Some None else
      id ← of_id (fields b) s;
      f ← ix_find (ids_ b) id (key_of b);
      if negb (f =? s) then Some None else
      let seen := seen + 1 in
      if FreeListStore.live (store_ b) <? seen then Some None else
      nx ← of_next (fields b) s;
      audit_queue b side ix fuel nx s (u64 (sum + q)) seen
  end.

(** The levels from [i] on: [None] inside is a failed check, else the orders seen. *)
Fixpoint audit_levels (b : t) (fuel : nat) (i seen : Z) : option (option Z) :=
  match fuel with
  | O => None
  | Datatypes.S fuel =>
      if n_ b <=? i then Some (Some seen) else
      lv ← level b i;
      bb ← ls_test (bid_bits_ b) i;
      ab ← ls_test (ask_bits_ b) i;
      if (bb : bool) && (ab : bool) then Some None else
      if negb bb && negb ab then
        if negb (lv_head lv =? kNil) || negb (lv_tail lv =? kNil) || negb (lv_qty lv =? 0) then Some None
        else audit_levels b fuel (i + 1) seen
      else if lv_head lv =? kNil then Some None else
      r ← audit_queue b (if bb : bool then Buy else Sell) i
            (Datatypes.S (Z.to_nat (FreeListStore.capacity (store_ b)))) (lv_head lv) kNil 0 seen;
      match r with
      | None => Some None
      | Some (last, sum, seen) =>
          if negb (last =? lv_tail lv) || negb (sum =? lv_qty lv) then Some None else audit_levels b fuel (i + 1) seen
      end
  end.

Definition check_invariants (b : t) : option bool :=
  bb ← ls_find_prev (bid_bits_ b) (n_ b - 1);
  ba ← ls_find_next (ask_bits_ b) 0;
  if negb (best_bid_ b =? bb) || negb (best_ask_ b =? ba) then Some false else
  if (0 <=? best_bid_ b) && (best_ask_ b <? n_ b) && (best_ask_ b <=? best_bid_ b) then Some false else
  r ← audit_levels b (Datatypes.S (Z.to_nat (n_ b))) 0 0;
  match r with
  | None => Some false
  | Some seen => Some ((seen =? FreeListStore.live (store_ b)) && (seen =? ix_size (ids_ b)))
  end.

End book.
Arguments t : clear implicits.

End OrderBook.
