(* ===== verification/BookRefine.v ===== *)
(** * The order book refines the reference book

    [R b r] relates a fast book to a reference book: the levels of the ladder hold the queues of the map, the bitmaps
    the prices, the cached best levels the first entries, the index and the store exactly the resting orders, the
    aggregates the sums of quantities modulo [2^64]. Every operation of [OrderBook] runs without undefined behaviour,
    ends, gives the events of [ReferenceBook]'s and keeps [R]: for every layout of the store, every index and every
    level set with the laws of [Interfaces]. *)
From Stdlib Require Import Sorted.
From S2P Require Import Prelude Common Interfaces OrderStore ReferenceBook OrderBook.
Import ReferenceBook (Order, mkOrder, o_id, o_qty, o_owner).

Module RB := ReferenceBook.
Module OB := OrderBook.

Module BookRefine.

Definition qsum (q : list Order) : Z := zsum (o_qty <$> q).

Lemma qsum_cons o q : qsum (o :: q) = o_qty o + qsum q.
Proof. done. Qed.
Lemma qsum_app q1 q2 : qsum (q1 ++ q2) = qsum q1 + qsum q2.
Proof. unfold qsum. by rewrite fmap_app, zsum_app. Qed.

Lemma u64_sub a b : u64 (u64 a - b) = u64 (a - b).
Proof. unfold u64. by rewrite Zminus_mod_idemp_l. Qed.
Lemma u64_add a b : u64 (u64 a + b) = u64 (a + b).
Proof. unfold u64. by rewrite Zplus_mod_idemp_l. Qed.

(** ** Queues as doubly linked segments *)

(** Record [x] is the stored form of order [o], resting on [side] at level [ix]. *)
Definition stores (side : Side) (ix : Z) (o : Order) (x : OrderRec) : Prop :=
  r_qty x = o_qty o /\ r_owner x = o_owner o /\ r_level x = ix /\ r_side x = side.

(** From slot [h], whose predecessor is [pv], the [next] links visit the slots of [q] and reach [nx] after [last].
    The [prev] field of a slot without predecessor is not read, hence arbitrary. *)
Fixpoint seg (ρ : Z -> option OrderRec) (M : gmap Z Z) (side : Side) (ix pv h : Z) (q : list Order) (last nx : Z) : Prop :=
  match q with
  | [] => h = nx /\ last = pv
  | o :: q => M !! o_id o = Some h /\ exists x, ρ h = Some x /\ stores side ix o x /\ (pv <> kNil -> r_prev x = pv) /\
      seg ρ M side ix h (r_next x) q last nx
  end.

Lemma seg_app ρ M side ix q1 q2 : forall pv h last nx,
  seg ρ M side ix pv h (q1 ++ q2) last nx <->
  exists l1 h2, seg ρ M side ix pv h q1 l1 h2 /\ seg ρ M side ix l1 h2 q2 last nx.
Proof.
  induction q1 as [|o q1 IH]; intros pv h last nx; simpl.
  - split; [eauto|]. intros (l1 & h2 & [-> ->] & ?). done.
  - split.
    + intros (HM & x & Hx & Hst & Hp & Hs). apply IH in Hs as (l1 & h2 & H1 & H2). exists l1, h2. split; [|done]. split; [done|]. by exists x.
    + intros (l1 & h2 & (HM & x & Hx & Hst & Hp & Hs) & H2). split; [done|]. exists x. split_and!; try done.
      apply IH. eauto.
Qed.

Lemma seg_frame ρ ρ' M M' side ix q : forall pv h last nx,
  (forall o, o ∈ q -> M' !! o_id o = M !! o_id o) ->
  (forall o s, o ∈ q -> M !! o_id o = Some s -> ρ' s = ρ s) ->
  seg ρ M side ix pv h q last nx -> seg ρ' M' side ix pv h q last nx.
Proof.
  induction q as [|o q IH]; intros pv h last nx HM Hρ; simpl; [done|]. intros (Hm & x & Hx & Hst & Hp & Hs).
  split; [rewrite HM by set_solver; done|]. exists x. rewrite (Hρ o h) by (done || set_solver).
  split_and!; try done. apply IH; [|intros o' s Ho'; apply Hρ; set_solver|done]. intros o' Ho'. apply HM. set_solver.
Qed.

(** A queue's first slot may have any [prev]. *)
Lemma seg_weaken ρ M side ix pv h o q last nx : seg ρ M side ix pv h (o :: q) last nx ->
  seg ρ M side ix kNil h (o :: q) last nx.
Proof. simpl. intros (Hm & x & Hx & Hst & _ & Hs). split; [done|]. by exists x. Qed.

Lemma seg_slot ρ M side ix q : forall pv h last nx, seg ρ M side ix pv h q last nx ->
  forall o, o ∈ q -> exists s x, M !! o_id o = Some s /\ ρ s = Some x /\ stores side ix o x.
Proof.
  induction q as [|o q IH]; intros pv h last nx; simpl; [by intros _ o ?%elem_of_nil|].
  intros (Hm & x & Hx & Hst & _ & Hs) o' [->|Ho]%elem_of_cons; eauto.
Qed.

(** The last slot of a non-empty segment, and redirecting its [next]. *)
Lemma seg_snoc ρ M side ix pv h q o last nx : seg ρ M side ix pv h (q ++ [o]) last nx ->
  exists l1 x, seg ρ M side ix pv h q l1 last /\ M !! o_id o = Some last /\ ρ last = Some x /\ stores side ix o x /\
    (l1 <> kNil -> r_prev x = l1) /\ r_next x = nx.
Proof.
  rewrite seg_app. intros (l1 & h2 & H1 & Hm & x & Hx & Hst & Hp & <- & Hl). subst. exists l1, x. done.
Qed.

(** Redirecting the link out of the last slot, and the link back of the first. *)
Definition slots_inj (M : gmap Z Z) : Prop := forall k k' t, M !! k = Some t -> M !! k' = Some t -> k = k'.

Lemma seg_set_last ρ ρ' M side ix pv h q o last nx nx' : seg ρ M side ix pv h (q ++ [o]) last nx ->
  slots_inj M -> NoDup (o_id <$> q ++ [o]) ->
  (forall o1 t1, o1 ∈ q -> M !! o_id o1 = Some t1 -> ρ' t1 = ρ t1) -> ρ' last = rec_set_next nx' <$> ρ last ->
  seg ρ' M side ix pv h (q ++ [o]) last nx'.
Proof.
  intros Hs Hinj Hnd Hq Hl. apply seg_snoc in Hs as (l1 & x & Hs & Hm & Hx & Hst & Hp & Hn). apply seg_app.
  exists l1, last. split; [by apply (seg_frame ρ _ M)|]. simpl. split; [done|]. exists (rec_set_next nx' x).
  rewrite Hl, Hx. done.
Qed.

Lemma seg_set_first ρ ρ' M side ix pv pv' p h o q last nx : seg ρ M side ix pv h (o :: q) last nx ->
  slots_inj M -> NoDup (o_id <$> o :: q) ->
  (forall o1 t1, o1 ∈ q -> M !! o_id o1 = Some t1 -> ρ' t1 = ρ t1) -> ρ' h = rec_set_prev p <$> ρ h -> (pv' <> kNil -> p = pv') ->
  seg ρ' M side ix pv' h (o :: q) last nx.
Proof.
  intros (Hm & x & Hx & Hst & _ & Hs) Hinj Hnd Hq Hh Hp. split; [done|]. exists (rec_set_prev p x). rewrite Hh, Hx.
  split_and!; try done. by apply (seg_frame ρ _ M).
Qed.

(** Unlinking the middle order of a queue. *)
Lemma seg_unlink ρ ρ' M side ix h q1 o q2 last s x :
  seg ρ M side ix kNil h (q1 ++ o :: q2) last kNil -> slots_inj M -> NoDup (o_id <$> q1 ++ o :: q2) ->
  (forall k, M !! k <> Some kNil) -> M !! o_id o = Some s -> ρ s = Some x ->
  (forall t, ρ' t = (if negb (bool_decide (q1 = [])) && (t =? r_prev x) then rec_set_next (r_next x) <$> ρ t else
                     if negb (bool_decide (q2 = [])) && (t =? r_next x) then rec_set_prev (r_prev x) <$> ρ t else ρ t)) ->
  seg ρ' M side ix kNil (if bool_decide (q1 = []) then r_next x else h) (q1 ++ q2)
    (if bool_decide (q2 = []) then (if bool_decide (q1 = []) then kNil else r_prev x) else last) kNil.
Proof.
  intros Hs Hinj Hnd Hnil Hm Hx Hρ. apply seg_app in Hs as (l1 & h2 & H1 & Hm2 & x2 & Hx2 & _ & Hp & H2).
  assert (h2 = s) as -> by congruence. assert (x2 = x) as -> by congruence.
  rewrite fmap_app, fmap_cons in Hnd. pose proof Hnd as (Hd1 & Hdis & [Hno Hd2]%NoDup_cons)%NoDup_app.
  assert (forall o1 o2 t, o1 ∈ q1 -> o2 ∈ q2 -> M !! o_id o1 = Some t -> M !! o_id o2 <> Some t) as Hsep.
  { intros o1 o2 t Ho1 Ho2 Ht1 Ht2. apply (Hdis (o_id o1)); [by apply list_elem_of_fmap_2|].
    rewrite (Hinj _ _ _ Ht1 Ht2). apply elem_of_cons. right. by apply list_elem_of_fmap_2. }
  assert (q1 <> [] -> exists q o1, q1 = q ++ [o1] /\ M !! o_id o1 = Some l1 /\ r_prev x = l1) as Hq1.
  { destruct q1 as [|o1 q _] using rev_ind; [done|]. intros _. exists q, o1. split; [done|].
    apply seg_snoc in H1 as (_ & _ & _ & Hml & _). split; [done|]. apply Hp. intros ->. by apply (Hnil (o_id o1)). }
  assert (forall o2 t, o2 ∈ q2 -> M !! o_id o2 = Some t -> q1 <> [] -> t <> r_prev x) as Hnp.
  { intros o2 t Ho2 Ht Hne ->. destruct (Hq1 Hne) as (q & o1 & -> & Hml & Hpl). rewrite Hpl in Ht.
    by apply (Hsep o1 o2 l1); [set_solver|..]. }
  assert (forall o1 t, o1 ∈ q1 -> M !! o_id o1 = Some t -> q2 <> [] -> t <> r_next x) as Hnn.
  { intros o1 t Ho1 Ht Hne ->. destruct q2 as [|o2 q2]; [done|]. destruct H2 as (Hm2' & _).
    by apply (Hsep o1 o2 (r_next x)); [|set_solver|..]. }
  apply seg_app. exists (if bool_decide (q1 = []) then kNil else r_prev x), (r_next x). split.
  - case_bool_decide as Hc1; [by subst|]. destruct (Hq1 Hc1) as (q & o1 & -> & Hml & Hpl). rewrite Hpl in *.
    apply (seg_set_last ρ _ M _ _ _ _ q o1 l1 s); try done.
    + intros o3 t3 Ho3 Ht3. rewrite Hρ. simpl. destruct (Z.eqb_spec t3 l1) as [->|].
      * exfalso. rewrite fmap_app in Hd1. apply NoDup_app in Hd1 as (_ & Hd1 & _). apply (Hd1 (o_id o3)); [by apply list_elem_of_fmap_2|].
        rewrite (Hinj _ _ _ Ht3 Hml). simpl. set_solver.
      * case_bool_decide; simpl; [done|]. rewrite (proj2 (Z.eqb_neq _ _)); [done|]. apply (Hnn o3); [set_solver|done..].
    + rewrite Hρ. simpl. by rewrite Z.eqb_refl.
  - destruct q2 as [|o2 q2].
    { rewrite (bool_decide_true ([] = [])) by done. destruct H2 as [-> ->]. by case_bool_decide. }
    rewrite (bool_decide_false (o2 :: q2 = [])) by done. pose proof (proj1 H2) as Hm2'.
    apply (seg_set_first ρ _ M _ _ s _ (r_prev x)); try done.
    + intros o3 t3 Ho3 Ht3. rewrite Hρ. rewrite (proj2 (Z.eqb_neq t3 (r_next x))), andb_false_r.
      * case_bool_decide; simpl; [done|]. rewrite (proj2 (Z.eqb_neq t3 (r_prev x))); [done|]. apply (Hnp o3); [set_solver|done..].
      * intros ->. apply NoDup_cons in Hd2 as [Hd2 _]. apply Hd2. rewrite <- (Hinj _ _ _ Ht3 Hm2'). by apply list_elem_of_fmap_2.
    + rewrite Hρ. rewrite (bool_decide_false (o2 :: q2 = [])), Z.eqb_refl by done. simpl. case_bool_decide; simpl; [done|].
      rewrite (proj2 (Z.eqb_neq _ _)); [done|]. apply (Hnp o2); [set_solver|done..].
    + by case_bool_decide.
Qed.

Section refine.
Context {S I B : Type} {OF : OrderFields S} {OFL : OrderFieldsLaws S} {IX : IdIndex I} {IXL : IdIndexLaws I}
  {LS : LevelSet B} {LSL : LevelSetLaws B}.
Abbreviation book := (OB.t S I B).
Implicit Types (b : book) (r : RB.t) (M : gmap Z Z) (fl : list Z) (m : list (Z * list Order)).

Definition recs b : Z -> option OrderRec := of_rec (OB.fields b).

(** ** The store and the index hold the resting orders [M : id -> slot] *)

Record core b (cap : Z) M fl : Prop := {
  core_store : FreeListStore.rep (OB.store_ b) cap fl;
  core_ids : ix_rep (OB.ids_ b) cap M;
  core_slot k s : M !! k = Some s -> 0 <= s < cap /\ s ∉ fl /\ exists x, recs b s = Some x /\ r_id x = k;
  core_count : Z.of_nat (size M) + Z.of_nat (length fl) = cap;
}.

Lemma core_ok b cap M fl : core b cap M fl -> of_ok (OB.fields b).
Proof. intros Hc. apply (FreeListStore.rep_ok _ _ _ (core_store _ _ _ _ Hc)). Qed.

Lemma core_inj b cap M fl k k' s : core b cap M fl -> M !! k = Some s -> M !! k' = Some s -> k = k'.
Proof.
  intros Hc H1 H2. destruct (core_slot _ _ _ _ Hc k s H1) as (_ & _ & x & Hx & <-).
  destruct (core_slot _ _ _ _ Hc k' s H2) as (_ & _ & x' & Hx' & <-). congruence.
Qed.

Lemma core_keys b cap M fl : core b cap M fl -> keys_from M (OB.key_of b).
Proof.
  intros Hc k s Hk. destruct (core_slot _ _ _ _ Hc k s Hk) as (_ & _ & x & Hx & <-). unfold OB.key_of.
  rewrite of_rec_id by (by eapply core_ok). unfold recs in Hx. by rewrite Hx.
Qed.

Lemma core_not_nil b cap M fl k s : core b cap M fl -> M !! k = Some s -> s <> kNil.
Proof.
  intros Hc Hk. destruct (core_slot _ _ _ _ Hc k s Hk) as (? & _).
  pose proof (FreeListStore.rep_cap_range _ _ _ (core_store _ _ _ _ Hc)). lia.
Qed.

(** [b'] has the same configuration, best levels and bitmaps as [b]. *)
Definition frame b b' : Prop :=
  OB.symbol_ b' = OB.symbol_ b /\ OB.min_price_ b' = OB.min_price_ b /\ OB.n_ b' = OB.n_ b /\ OB.stp_ b' = OB.stp_ b /\
  OB.best_bid_ b' = OB.best_bid_ b /\ OB.best_ask_ b' = OB.best_ask_ b /\
  OB.bid_bits_ b' = OB.bid_bits_ b /\ OB.ask_bits_ b' = OB.ask_bits_ b.

Lemma frame_refl b : frame b b.
Proof. done. Qed.
Lemma frame_trans b1 b2 b3 : frame b1 b2 -> frame b2 b3 -> frame b1 b3.
Proof. unfold frame. intuition congruence. Qed.
Lemma frame_levels b l : frame b (OB.with_levels b l).
Proof. done. Qed.

(** Updating the fields of one slot in use. *)
Lemma upd_fields_rep b cap fl (set : S -> Z -> option S) s f :
  FreeListStore.rep (OB.store_ b) cap fl -> 0 <= s < cap -> s ∉ fl ->
  (forall σ, of_ok σ -> is_Some (of_rec σ s) ->
     exists σ', set σ s = Some σ' /\ of_ok σ' /\ upd s f (of_rec σ) (of_rec σ')) ->
  exists st, OB.upd_fields b (set (OB.fields b) s) = Some (OB.with_store b st) /\ FreeListStore.rep st cap fl /\
    upd s f (recs b) (of_rec (FreeListStore.self st)).
Proof.
  intros Hr Hs Hfl Hset. destruct Hr as [Hcap Hcr Hok Hsl Hch Hnd Hrg Hl Hlr].
  destruct (Hset (OB.fields b)) as (σ' & Hσ & Hok' & Hu); [done|by apply Hsl|].
  unfold OB.upd_fields, FreeListStore.with_self. rewrite Hσ. simpl. eexists. split; [done|]. split; [|done].
  split; simpl; try done.
  - intros t. rewrite (upd_is_Some _ _ _ _ _ Hu). apply Hsl.
  - eapply FreeListStore.chain_frame; [|done]. intros t Ht. rewrite (upd_ne _ _ _ _ _ Hu); [done|]. by intros ->.
Qed.

Lemma upd_fields_spec b cap M fl (set : S -> Z -> option S) s f :
  core b cap M fl -> 0 <= s < cap -> (forall x, r_id (f x) = r_id x) -> s ∉ fl ->
  (forall σ, of_ok σ -> is_Some (of_rec σ s) ->
     exists σ', set σ s = Some σ' /\ of_ok σ' /\ upd s f (of_rec σ) (of_rec σ')) ->
  exists b', OB.upd_fields b (set (OB.fields b) s) = Some b' /\ core b' cap M fl /\ frame b b' /\
    OB.levels_ b' = OB.levels_ b /\ upd s f (recs b) (recs b').
Proof.
  intros Hc Hs Hid Hfl Hset.
  destruct (upd_fields_rep b cap fl set s f (core_store _ _ _ _ Hc) Hs Hfl Hset) as (st & Hst & Hr & Hu).
  exists (OB.with_store b st). split_and!; try done. constructor; simpl; try done.
  - apply (core_ids _ _ _ _ Hc).
  - intros k t Hk. destruct (core_slot _ _ _ _ Hc k t Hk) as (? & ? & x & Hx & Hxid). split; [done|]. split; [done|].
    unfold recs, OB.fields. simpl. rewrite Hu, Hx. destruct (t =? s); simpl; [exists (f x); by rewrite Hid|by exists x].
  - apply (core_count _ _ _ _ Hc).
Qed.

Lemma core_same b b' cap M fl : OB.store_ b' = OB.store_ b -> OB.ids_ b' = OB.ids_ b -> core b cap M fl -> core b' cap M fl.
Proof.
  intros Es Ei [Hr Hi Hs Hn]. constructor; [by rewrite Es|by rewrite Ei| |done].
  intros k s Hk. unfold recs, OB.fields. rewrite Es. by apply Hs.
Qed.

Lemma set_level_spec b ix lv0 lv : OB.level b ix = Some lv0 ->
  exists b', OB.set_level b ix lv = Some b' /\ frame b b' /\ OB.store_ b' = OB.store_ b /\ OB.ids_ b' = OB.ids_ b /\
    alen (OB.levels_ b') = alen (OB.levels_ b) /\ forall j, OB.level b' j = if j =? ix then Some lv else OB.level b j.
Proof.
  intros Hl. unfold OB.set_level. apply aget_bound in Hl. aset_ex (OB.levels_ b) ix lv l' Hs; [done|]. rewrite Hs. simpl.
  eexists. split_and!; try done. - by apply (alen_aset _ _ _ _ Hs). - intros j. apply (aget_aset _ _ _ _ _ Hs).
Qed.

Lemma sub_level_qty_spec b ix lv d : OB.level b ix = Some lv ->
  exists b', OB.sub_level_qty b ix d = Some b' /\ frame b b' /\ OB.store_ b' = OB.store_ b /\ OB.ids_ b' = OB.ids_ b /\
    alen (OB.levels_ b') = alen (OB.levels_ b) /\
    forall j, OB.level b' j = if j =? ix then Some (OB.mkLevel (u64 (OB.lv_qty lv - d)) (OB.lv_head lv) (OB.lv_tail lv))
                              else OB.level b j.
Proof. intros Hl. unfold OB.sub_level_qty. rewrite Hl. simpl. by apply (set_level_spec b ix lv). Qed.

(** Taking an order out of the index and returning its slot. *)
Lemma drop_core b cap M fl k s x : core b cap M fl -> M !! k = Some s -> recs b s = Some x ->
  exists b', OB.drop_maker b s = Some (b', r_next x) /\ core b' cap (delete k M) (s :: fl) /\ frame b b' /\
    OB.levels_ b' = OB.levels_ b /\ (forall t, t <> s -> recs b' t = recs b t).
Proof.
  intros Hc Hk Hx. pose proof (core_ok _ _ _ _ Hc) as Hok. destruct (core_slot _ _ _ _ Hc k s Hk) as (Hs & Hfl & x' & Hx' & Hid).
  assert (x' = x) as -> by congruence. unfold OB.drop_maker, recs in *.
  rewrite of_rec_next, of_rec_id by done. rewrite Hx. simpl. rewrite Hid.
  destruct (ix_rep_erase_known _ _ _ _ _ (core_ids _ _ _ _ Hc) Hk) as (i' & -> & Hi'). simpl.
  destruct (FreeListStore.release_spec _ _ _ s (core_store _ _ _ _ Hc) Hs Hfl) as (st & -> & Hst & v & Hu). simpl.
  eexists. split; [done|]. split; [|split; [done|split; [done|]]].
  - constructor; simpl; try done.
    + intros k' s' Hk'. apply lookup_delete_Some in Hk' as [Hne Hk']. assert (s' <> s) as Hss.
      { intros ->. apply Hne. by apply (core_inj b cap M fl k k' s). }
      destruct (core_slot _ _ _ _ Hc k' s' Hk') as (? & ? & y & Hy & ?). split; [done|]. split; [set_solver|].
      exists y. split; [|done]. unfold recs, OB.fields. simpl. rewrite (upd_ne _ _ _ _ _ Hu) by done. done.
    + pose proof (core_count _ _ _ _ Hc). rewrite map_size_delete_Some by eauto.
      assert (size M <> 0%nat) by (intros H0; apply map_size_empty_inv in H0; by subst). lia.
  - intros t Ht. unfold OB.fields. simpl. by apply (upd_ne _ _ _ _ _ Hu).
Qed.

(** ** One level of a sweep *)

Lemma core_recs b cap M fl s : core b cap M fl -> 0 <= s < cap -> is_Some (recs b s).
Proof. intros Hc Hs. by apply (FreeListStore.rep_slots _ _ _ (core_store _ _ _ _ Hc)). Qed.

Lemma set_qty_spec b cap M fl k s v : core b cap M fl -> M !! k = Some s ->
  exists b', OB.upd_fields b (of_set_qty (OB.fields b) s v) = Some b' /\ core b' cap M fl /\ frame b b' /\
    OB.levels_ b' = OB.levels_ b /\ upd s (rec_set_qty v) (recs b) (recs b').
Proof.
  intros Hc Hk. destruct (core_slot _ _ _ _ Hc k s Hk) as (Hs & Hfl & _).
  apply (upd_fields_spec b cap M fl (fun σ s => of_set_qty σ s v)); try done.
  intros σ Hok Hsome. by apply of_rec_set_qty.
Qed.

Section level.
Context (cap : Z) (side : Side) (taker owner limit ix : Z) (stp : Stp).

(** What the inner loop leaves in the book when it has trimmed the queue to [q'] at slot [s']. *)
Record level_left b M (lv : OB.Level) (q : list Order) b' M' fl' s' (q' : list Order) : Prop := {
  ll_core : core b' cap M' fl';
  ll_frame : frame b b';
  ll_len : alen (OB.levels_ b') = alen (OB.levels_ b);
  ll_other j : j <> ix -> OB.level b' j = OB.level b j;
  ll_level : OB.level b' ix = Some (OB.mkLevel (u64 (qsum q')) (OB.lv_head lv) (OB.lv_tail lv));
  ll_seg : exists pv, seg (recs b') M' (opposite side) ix pv s' q' (OB.lv_tail lv) kNil;
  ll_map : exists gone, o_id <$> q = gone ++ (o_id <$> q') /\ forall id, M' !! id = if decide (id ∈ gone) then None else M !! id;
  ll_recs k t : M !! k = Some t -> k ∉ (o_id <$> q) -> recs b' t = recs b t;
}.


Lemma level_left_refl b M fl lv q pv s : core b cap M fl -> OB.level b ix = Some lv -> OB.lv_qty lv = u64 (qsum q) ->
  seg (recs b) M (opposite side) ix pv s q (OB.lv_tail lv) kNil -> level_left b M lv q b M fl s q.
Proof.
  intros Hc Hl Hq Hs. split; try done; [by rewrite Hl, <- Hq; destruct lv|eauto|].
  exists []. split; [done|]. intros id. rewrite decide_False; [done|apply not_elem_of_nil].
Qed.

(** The front order is removed. *)
Lemma drop_step b M fl lv o q pv s : core b cap M fl -> OB.level b ix = Some lv ->
  OB.lv_qty lv = u64 (qsum (o :: q)) -> seg (recs b) M (opposite side) ix pv s (o :: q) (OB.lv_tail lv) kNil ->
  NoDup (o_id <$> o :: q) ->
  exists b1 b2 nx lv2, OB.sub_level_qty b ix (o_qty o) = Some b1 /\ OB.drop_maker b1 s = Some (b2, nx) /\
    OB.symbol_ b1 = OB.symbol_ b /\ frame b b2 /\ core b2 cap (delete (o_id o) M) (s :: fl) /\ OB.level b2 ix = Some lv2 /\
    OB.lv_qty lv2 = u64 (qsum q) /\ seg (recs b2) (delete (o_id o) M) (opposite side) ix s nx q (OB.lv_tail lv2) kNil /\
    forall b' M' fl' s' q', level_left b2 (delete (o_id o) M) lv2 q b' M' fl' s' q' ->
      level_left b M lv (o :: q) b' M' fl' s' q'.
Proof.
  intros Hc Hlv Hsum (Hm & x & Hx & Hst & _ & Hseg) [Hn Hnd]%NoDup_cons.
  destruct (sub_level_qty_spec b ix lv (o_qty o) Hlv) as (b1 & Hb1 & Hf1 & Es & Ei & Hlen & Hl1).
  assert (recs b1 = recs b) as Hr1 by (unfold recs, OB.fields; by rewrite Es).
  destruct (drop_core b1 cap M fl (o_id o) s x) as (b2 & Hd & Hc2 & Hf2 & Hl2 & Hr2); [by apply (core_same b)|done|by rewrite Hr1|].
  rewrite Hr1 in Hr2. set (lv2 := OB.mkLevel (u64 (qsum q)) (OB.lv_head lv) (OB.lv_tail lv)).
  assert (forall j, OB.level b2 j = if j =? ix then Some lv2 else OB.level b j) as Hlev.
  { intros j. unfold OB.level at 1. rewrite Hl2. fold (OB.level b1 j). rewrite Hl1. destruct (j =? ix); [|done].
    unfold lv2. rewrite Hsum, u64_sub, qsum_cons. do 3 f_equal. lia. }
  pose proof (frame_trans _ _ _ Hf1 Hf2) as Hf.
  exists b1, b2, (r_next x), lv2. split_and!; try done; [by destruct Hf1|by rewrite Hlev, Z.eqb_refl| |].
  - apply (seg_frame (recs b) _ M); [| |done].
    + intros o' Ho'. apply lookup_delete_ne. intros He. apply Hn. rewrite He. by apply list_elem_of_fmap_2.
    + intros o' t Ho' Ht. apply Hr2. intros ->. apply Hn.
      rewrite (core_inj _ _ _ _ _ _ _ Hc Hm Ht). by apply list_elem_of_fmap_2.
  - intros b' M' fl' s' q' [Kc Kf Kl Ko Klv Ks Km Kr]. split; try done.
    + by eapply frame_trans.
    + rewrite Kl, Hl2. done.
    + intros j Hj. rewrite Ko, Hlev by done. by rewrite (proj2 (Z.eqb_neq j ix)).
    + destruct Km as (gone & Hg & Km). exists (o_id o :: gone). split; [by rewrite fmap_cons, Hg|].
      intros id. rewrite Km. destruct (decide (id ∈ gone)), (decide (id ∈ o_id o :: gone)); try done; [set_solver| |].
      * apply lookup_delete_None. set_solver.
      * apply lookup_delete_ne. set_solver.
    + intros k t Hk Hnk. rewrite fmap_cons in Hnk. rewrite Kr with (k := k); [|rewrite lookup_delete_ne; [done|set_solver]|set_solver].
      apply Hr2. intros ->. rewrite (core_inj _ _ _ _ _ _ _ Hc Hk Hm) in Hnk. set_solver.
Qed.

(** The front order is reduced in place. *)
Lemma reduce_step b M fl lv o q pv s v b' : core b cap M fl -> OB.level b ix = Some lv ->
  OB.lv_qty lv = u64 (qsum (o :: q)) -> seg (recs b) M (opposite side) ix pv s (o :: q) (OB.lv_tail lv) kNil ->
  NoDup (o_id <$> o :: q) -> core b' cap M fl -> frame b b' -> alen (OB.levels_ b') = alen (OB.levels_ b) ->
  (forall j, OB.level b' j = if j =? ix then Some (OB.mkLevel (u64 (OB.lv_qty lv - (o_qty o - v))) (OB.lv_head lv) (OB.lv_tail lv))
                              else OB.level b j) ->
  upd s (rec_set_qty v) (recs b) (recs b') ->
  level_left b M lv (o :: q) b' M fl s (RB.set_qty o v :: q).
Proof.
  intros Hc Hlv Hsum (Hm & x & Hx & Hst & Hp & Hseg) [Hn Hnd]%NoDup_cons Hc' Hf Hlen Hl Hu. split; try done.
  - intros j Hj. by rewrite Hl, (proj2 (Z.eqb_neq j ix)).
  - rewrite Hl, Z.eqb_refl, Hsum, u64_sub, !qsum_cons. simpl. do 3 f_equal. lia.
  - exists pv. simpl. split; [done|]. exists (rec_set_qty v x). split; [by eapply upd_eq|].
    split; [by destruct Hst as (? & ? & ? & ?)|]. split; [done|]. simpl.
    apply (seg_frame (recs b) _ M); [done| |done]. intros o' t Ho' Ht. apply (upd_ne _ _ _ _ _ Hu). intros ->. apply Hn.
    rewrite (core_inj _ _ _ _ _ _ _ Hc Hm Ht). by apply list_elem_of_fmap_2.
  - exists []. split; [done|]. intros id. rewrite decide_False; [done|apply not_elem_of_nil].
  - intros k t Hk Hnk. apply (upd_ne _ _ _ _ _ Hu). intros ->. apply Hnk.
    rewrite (core_inj _ _ _ _ _ _ _ Hc Hk Hm). rewrite fmap_cons. set_solver.
Qed.

Lemma reduce_sub_set b M fl lv o q pv s v : core b cap M fl -> OB.level b ix = Some lv ->
  OB.lv_qty lv = u64 (qsum (o :: q)) -> seg (recs b) M (opposite side) ix pv s (o :: q) (OB.lv_tail lv) kNil ->
  NoDup (o_id <$> o :: q) ->
  exists b1 b2, OB.sub_level_qty b ix (o_qty o - v) = Some b1 /\ OB.upd_fields b1 (of_set_qty (OB.fields b1) s v) = Some b2 /\
    OB.symbol_ b1 = OB.symbol_ b /\ level_left b M lv (o :: q) b2 M fl s (RB.set_qty o v :: q).
Proof.
  intros Hc Hlv Hsum Hseg Hnd. pose proof (proj1 Hseg) as Hm.
  destruct (sub_level_qty_spec b ix lv (o_qty o - v) Hlv) as (b1 & Hb1 & Hf1 & Es & Ei & Hlen & Hl1).
  destruct (set_qty_spec b1 cap M fl (o_id o) s v) as (b2 & Hb2 & Hc2 & Hf2 & Hl2 & Hu); [by apply (core_same b)|done|].
  exists b1, b2. split_and!; try done; [by destruct Hf1|]. eapply reduce_step; try done.
  - by eapply frame_trans.
  - by rewrite Hl2.
  - intros j. unfold OB.level at 1. rewrite Hl2. apply Hl1.
  - unfold recs, OB.fields in *. by rewrite Es in Hu.
Qed.

Lemma reduce_set_sub b M fl lv o q pv s v : core b cap M fl -> OB.level b ix = Some lv ->
  OB.lv_qty lv = u64 (qsum (o :: q)) -> seg (recs b) M (opposite side) ix pv s (o :: q) (OB.lv_tail lv) kNil ->
  NoDup (o_id <$> o :: q) ->
  exists b1 b2, OB.upd_fields b (of_set_qty (OB.fields b) s v) = Some b1 /\ OB.sub_level_qty b1 ix (o_qty o - v) = Some b2 /\
    OB.symbol_ b2 = OB.symbol_ b /\ level_left b M lv (o :: q) b2 M fl s (RB.set_qty o v :: q).
Proof.
  intros Hc Hlv Hsum Hseg Hnd. pose proof (proj1 Hseg) as Hm.
  destruct (set_qty_spec b cap M fl (o_id o) s v) as (b1 & Hb1 & Hc1 & Hf1 & Hl1 & Hu); [done..|].
  destruct (sub_level_qty_spec b1 ix lv (o_qty o - v)) as (b2 & Hb2 & Hf2 & Es & Ei & Hlen & Hl2).
  { unfold OB.level. by rewrite Hl1. }
  pose proof (frame_trans _ _ _ Hf1 Hf2) as Hf.
  exists b1, b2. split_and!; try done; [by destruct Hf|]. eapply reduce_step; try done.
  - by apply (core_same b1).
  - by rewrite Hlen, Hl1.
  - intros j. rewrite Hl2. unfold OB.level at 1. by rewrite Hl1.
  - unfold recs, OB.fields in *. by rewrite Es.
Qed.

Lemma read_front b M fl o q pv s last : core b cap M fl -> seg (recs b) M (opposite side) ix pv s (o :: q) last kNil ->
  of_qty (OB.fields b) s = Some (o_qty o) /\ of_id (OB.fields b) s = Some (o_id o) /\
  OB.self_trade owner stp b s = Some (negb (bool_decide (stp = StpNone)) && (o_owner o =? owner)) /\ (s =? kNil) = false.
Proof.
  intros Hc (Hm & x & Hx & (E1 & E2 & E3 & E4) & _ & _). pose proof (core_ok _ _ _ _ Hc) as Hok. unfold recs in Hx.
  destruct (core_slot _ _ _ _ Hc _ _ Hm) as (_ & _ & x' & Hx' & Hid). assert (x' = x) as -> by (unfold recs in Hx'; congruence).
  unfold OB.self_trade. rewrite of_rec_qty, of_rec_id, of_rec_owner, Hx by done. simpl. rewrite E1, E2, Hid. split_and!; try done.
  - by case_bool_decide.
  - apply Z.eqb_neq. by eapply core_not_nil.
Qed.

Lemma sweep_level_spec q : forall fuel b M fl lv pv s qty index q' x,
  core b cap M fl -> OB.level b ix = Some lv -> OB.lv_qty lv = u64 (qsum q) ->
  seg (recs b) M (opposite side) ix pv s q (OB.lv_tail lv) kNil -> NoDup (o_id <$> q) ->
  0 < qty -> (length q < fuel)%nat ->
  RB.match_queue (OB.symbol_ b) taker owner side (OB.min_price_ b + limit) stp (OB.min_price_ b + ix) q index qty = (q', x) ->
  exists b' s' M' fl', OB.sweep_level side taker owner limit stp ix fuel b s qty =
      Some (b', s', RB.m_qty x, RB.m_stop x, RB.m_events x) /\
    level_left b M lv q b' M' fl' s' q'.
Proof.
  induction q as [|o q IH]; intros [|fuel] b M fl lv pv s qty index q' x Hc Hlv Hsum Hseg Hnd Hq Hf He; simpl in Hf;
    try lia; simpl in He.
  { pose proof Hseg as [-> Hl]. simplify_eq. simpl. exists b, kNil, M, fl. split; [done|]. by eapply level_left_refl. }
  destruct (read_front _ _ _ _ _ _ _ _ Hc Hseg) as (Rq & Ri & Rs & Rn). simpl. rewrite Rn, Rs. simpl.
  rewrite (proj2 (Z.eqb_neq qty 0)) in He by lia.
  destruct (drop_step _ _ _ _ _ _ _ _ Hc Hlv Hsum Hseg Hnd)
    as (b1 & b2 & nx & lv2 & Hsub & Hdrop & Esym1 & (Esym & Emin & _) & Hc2 & Hlv2 & Hsum2 & Hseg2 & Hback).
  apply NoDup_cons in Hnd as Hnd'. destruct Hnd' as [_ Hnd'].
  assert (forall qty1 q1 x1, RB.match_queue (OB.symbol_ b) taker owner side (OB.min_price_ b + limit) stp
      (OB.min_price_ b + ix) q (delete (o_id o) index) qty1 = (q1, x1) -> 0 < qty1 ->
    exists b' s' M' fl', OB.sweep_level side taker owner limit stp ix fuel b2 nx qty1 =
      Some (b', s', RB.m_qty x1, RB.m_stop x1, RB.m_events x1) /\ level_left b M lv (o :: q) b' M' fl' s' q1) as Hrec.
  { intros qty1 q1 x1 E1 Hq1. rewrite <- Esym, <- Emin in E1.
    destruct (IH fuel b2 _ _ lv2 s nx qty1 _ q1 x1 Hc2 Hlv2 Hsum2 Hseg2 Hnd' Hq1 ltac:(lia) E1)
      as (b' & s' & M' & fl' & Hsw & Hll). exists b', s', M', fl'. split; [done|]. by apply Hback. }
  assert (level_left b M lv (o :: q) b2 (delete (o_id o) M) (s :: fl) nx q) as Hpop
    by (by eapply Hback, level_left_refl).
  destruct (negb (bool_decide (stp = StpNone)) && (o_owner o =? owner)).
  - case_bool_decide as Hci.
    { simplify_eq/=. exists b, s, M, fl. split; [done|]. by eapply level_left_refl. }
    rewrite Rq, Ri. simpl. destruct (bool_decide (stp = DecrementCancel) && (qty <? o_qty o)) eqn:Edc.
    + destruct (reduce_set_sub _ _ _ _ _ _ _ _ (o_qty o - qty) Hc Hlv Hsum Hseg Hnd) as (b1' & b2' & -> & Hs2 & Es & Hll).
      replace (o_qty o - (o_qty o - qty)) with qty in Hs2 by lia. simpl. rewrite Hs2. simpl. rewrite Es. simplify_eq/=.
      eexists _, _, _, _. split; [done|]. done.
    + rewrite Hsub. simpl. rewrite Hdrop. simpl. rewrite Esym1. case_bool_decide as Hd.
      * assert (o_qty o <= qty) as Hle by (simpl in Edc; to_prop; lia).
        destruct (Z.eqb_spec (o_qty o) qty) as [Heq|Hne]; [simplify_eq/=; eauto 10|].
        destruct (RB.match_queue _ _ _ _ _ _ _ q _ (qty - o_qty o)) as [q1 x1] eqn:E1. simplify_eq/=.
        destruct (Hrec _ _ _ E1) as (b' & s' & M' & fl' & -> & Hll); [lia|].
        simpl. rewrite Esym, Emin. eauto 10.
      * destruct (RB.match_queue _ _ _ _ _ _ _ q _ qty) as [q1 x1] eqn:E1. simplify_eq/=.
        destruct (Hrec _ _ _ E1) as (b' & s' & M' & fl' & -> & Hll); [done|]. simpl. eauto 10.
  - rewrite Rq, Ri. simpl.
    assert ((if o_qty o <? qty then o_qty o else qty) = Z.min (o_qty o) qty) as ->
      by (destruct (Z.ltb_spec (o_qty o) qty); lia).
    destruct (Z.eqb_spec (o_qty o - Z.min (o_qty o) qty) 0) as [Hz|Hnz]; simpl.
    + assert (o_qty o <= qty) as Hle by lia. replace (Z.min (o_qty o) qty) with (o_qty o) in * by lia. rewrite Hsub. simpl. rewrite Hdrop. simpl. rewrite Esym1.
      destruct (Z.eqb_spec (qty - o_qty o) 0) as [Hz'|Hnz'].
      * assert (RB.match_queue (OB.symbol_ b) taker owner side (OB.min_price_ b + limit) stp (OB.min_price_ b + ix) q
          (delete (o_id o) index) (qty - o_qty o) = (q, RB.mkResult (delete (o_id o) index) (qty - o_qty o) false [])) as Hz0.
        { rewrite Hz'. by destruct q. }
        rewrite Hz0 in He. simplify_eq/=. eauto 10.
      * destruct (RB.match_queue _ _ _ _ _ _ _ q _ (qty - o_qty o)) as [q1 x1] eqn:E1. simplify_eq/=.
        destruct (Hrec _ _ _ E1) as (b' & s' & M' & fl' & -> & Hll); [lia|]. simpl. eauto 10.
    + destruct (reduce_sub_set _ _ _ _ _ _ _ _ (o_qty o - Z.min (o_qty o) qty) Hc Hlv Hsum Hseg Hnd)
        as (b1' & b2' & Hs1 & Hs2 & Es & Hll).
      replace (o_qty o - (o_qty o - Z.min (o_qty o) qty)) with (Z.min (o_qty o) qty) in Hs1 by lia.
      rewrite Hs1. simpl. rewrite Hs2. simpl. rewrite Es. simplify_eq/=. eexists _, _, _, _. split; [done|]. done.
Qed.

End level.
#[local] Arguments OB.sweep_level : simpl never.

(** ** The refinement relation *)

(** The cached best level of an empty side. *)
Definition sentinel b (s : Side) : Z := match s with Buy => -1 | Sell => OB.n_ b end.
Definition head_ix b (s : Side) m : Z := match m with [] => sentinel b s | (p, _) :: _ => p - OB.min_price_ b end.

Definition bits_rep b (s : Side) (P : list Z) : Prop :=
  exists X, ls_rep (OB.bits b s) (OB.n_ b) X /\ forall i, i ∈ X <-> OB.min_price_ b + i ∈ P.

(** Level [ix] holds the queue [q] of one side. *)
Definition level_rep b M (s : Side) (ix : Z) (q : list Order) : Prop :=
  exists lv, OB.level b ix = Some lv /\ OB.lv_qty lv = u64 (qsum q) /\
    seg (recs b) M s ix kNil (OB.lv_head lv) q (OB.lv_tail lv) kNil.

Record rel b r (cap : Z) M fl : Prop := {
  rel_symbol : OB.symbol_ b = RB.symbol_ r;
  rel_min : OB.min_price_ b = RB.min_price_ r;
  rel_max : RB.max_price_ r = OB.min_price_ b + OB.n_ b - 1;
  rel_stp : OB.stp_ b = RB.stp_ r;
  rel_cap : RB.capacity_ r = cap;
  rel_n : level_count_ok (OB.n_ b);
  rel_len : alen (OB.levels_ b) = OB.n_ b;
  rel_wf : RB.wf r;
  rel_core : core b cap M fl;
  rel_dom id : is_Some (M !! id) <-> is_Some (RB.index_ r !! id);
  rel_bits s : bits_rep b s (RB.prices (RB.book r s));
  rel_best s : OB.best b s = head_ix b s (RB.book r s);
  rel_level s p q : (p, q) ∈ RB.book r s -> level_rep b M s (p - OB.min_price_ b) q;
  rel_empty i : 0 <= i < OB.n_ b -> (forall s, OB.min_price_ b + i ∉ RB.prices (RB.book r s)) ->
    OB.level b i = Some (OB.mkLevel 0 kNil kNil);
}.

Definition R b r : Prop := exists cap M fl, rel b r cap M fl.

Lemma bits_frame b b' s P : frame b b' -> bits_rep b s P -> bits_rep b' s P.
Proof.
  intros (_ & E2 & E3 & _ & _ & _ & E7 & E8) (X & Hr & HX). exists X. rewrite E2, E3. split; [|done].
  destruct s; simpl in *; by rewrite ?E7, ?E8.
Qed.

Lemma best_frame b b' s : frame b b' -> OB.best b' s = OB.best b s.
Proof. intros (_ & _ & _ & _ & E5 & E6 & _). by destruct s. Qed.

(** The bitmap query gives the level after [ix] in the order of the side. *)
Lemma next_best_spec b s P ix m : bits_rep b s P -> RB.sorted s m ->
  (forall p, p ∈ RB.prices m <-> p ∈ P /\ RB.lt_side s (OB.min_price_ b + ix) p) ->
  OB.next_best b s ix = Some (head_ix b s m).
Proof.
  intros (X & Hr & HX) Hs Hm.
  assert (forall p q tl p', m = (p, q) :: tl -> p' ∈ RB.prices m -> p' = p \/ RB.lt_side s p p') as Hhd.
  { intros p q tl p' -> Hp. apply RB.sorted_cons in Hs as [_ Hlt]. apply elem_of_cons in Hp as [->|Hp]; auto. }
  destruct s; simpl in *.
  - destruct (ls_rep_prev _ _ _ (ix - 1) Hr) as (r & Hf & Hin & Hmax). simpl in Hf. rewrite Hf. f_equal.
    destruct m as [|[p q] m]; simpl.
    + destruct Hin as [[Hin Hle]|]; [|done]. apply HX in Hin.
      assert (OB.min_price_ b + r ∈ RB.prices []) as Hno by (apply Hm; split; [done|lia]). by apply elem_of_nil in Hno.
    + assert (p ∈ P /\ p < OB.min_price_ b + ix) as [Hp Hlt] by (apply Hm; simpl; set_solver).
      assert (p - OB.min_price_ b ∈ X) as HpX by (apply HX; by replace (_ + _) with p by lia).
      specialize (Hmax _ HpX ltac:(lia)). pose proof (ls_rep_range _ _ _ _ Hr HpX).
      destruct Hin as [[Hin Hle]|]; [|lia]. apply HX in Hin.
      destruct (Hhd p q m (OB.min_price_ b + r) eq_refl) as [|]; [apply Hm; split; [done|lia]|lia|lia].
  - destruct (ls_rep_next _ _ _ (ix + 1) Hr) as (r & Hf & Hin & Hmin). simpl in Hf. rewrite Hf. f_equal.
    destruct m as [|[p q] m]; simpl.
    + destruct Hin as [[Hin Hle]|]; [|done]. apply HX in Hin.
      assert (OB.min_price_ b + r ∈ RB.prices []) as Hno by (apply Hm; split; [done|lia]). by apply elem_of_nil in Hno.
    + assert (p ∈ P /\ OB.min_price_ b + ix < p) as [Hp Hlt] by (apply Hm; simpl; set_solver).
      assert (p - OB.min_price_ b ∈ X) as HpX by (apply HX; by replace (_ + _) with p by lia).
      specialize (Hmin _ HpX ltac:(lia)). pose proof (ls_rep_range _ _ _ _ Hr HpX).
      destruct Hin as [[Hin Hle]|]; [|lia]. apply HX in Hin.
      destruct (Hhd p q m (OB.min_price_ b + r) eq_refl) as [|]; [apply Hm; split; [done|lia]|lia|lia].
Qed.

Lemma bits_clear b s P ix : bits_rep b s P -> 0 <= ix < OB.n_ b ->
  exists x, ls_clear (OB.bits b s) ix = Some x /\
    forall P', (forall p, p ∈ P' <-> p ∈ P /\ p <> OB.min_price_ b + ix) -> bits_rep (OB.with_bits b s x) s P'.
Proof.
  intros (X & Hr & HX) Hix. destruct (ls_rep_clear _ _ _ ix Hr Hix) as (x & Hx & Hr'). exists x. split; [done|].
  intros P' HP'. exists (X ∖ {[ix]}). split; [by destruct s|]. intros i.
  replace (OB.min_price_ (OB.with_bits b s x)) with (OB.min_price_ b) by (by destruct s).
  rewrite HP', elem_of_difference, elem_of_singleton, HX. split; intros [? ?]; (split; [done|lia]).
Qed.

Lemma bits_set b s P ix : bits_rep b s P -> 0 <= ix < OB.n_ b ->
  exists x, ls_set (OB.bits b s) ix = Some x /\
    forall P', (forall p, p ∈ P' <-> p = OB.min_price_ b + ix \/ p ∈ P) -> bits_rep (OB.with_bits b s x) s P'.
Proof.
  intros (X & Hr & HX) Hix. destruct (ls_rep_set _ _ _ ix Hr Hix) as (x & Hx & Hr'). exists x. split; [done|].
  intros P' HP'. exists ({[ix]} ∪ X). split; [by destruct s|]. intros i.
  replace (OB.min_price_ (OB.with_bits b s x)) with (OB.min_price_ b) by (by destruct s).
  rewrite HP', elem_of_union, elem_of_singleton, HX. split; (intros [?|?]; [left; lia|by right]).
Qed.

(** ** What a change of one level leaves alone *)

Lemma level_rep_frame b b' M M' s ix q : OB.level b' ix = OB.level b ix ->
  (forall o, o ∈ q -> M' !! o_id o = M !! o_id o) ->
  (forall o t, o ∈ q -> M !! o_id o = Some t -> recs b' t = recs b t) ->
  level_rep b M s ix q -> level_rep b' M' s ix q.
Proof.
  intros Hl HM Hr (lv & Hlv & Hq & Hs). exists lv. rewrite Hl. split_and!; try done. by apply (seg_frame (recs b) _ M).
Qed.

Lemma price_side r s s' p : RB.wf r -> p ∈ RB.prices (RB.book r s) -> p ∈ RB.prices (RB.book r s') -> s = s'.
Proof.
  intros Hw H1 H2. destruct s, s'; simpl in *; try done.
  - pose proof (RB.wf_uncrossed r Hw p p H1 H2). lia.
  - pose proof (RB.wf_uncrossed r Hw p p H2 H1). lia.
Qed.

Lemma elem_prices (m : list (Z * list Order)) p q : (p, q) ∈ m -> p ∈ RB.prices m.
Proof. intros Hin. apply list_elem_of_fmap. by exists (p, q). Qed.

(** The orders of another level have other ids. *)
Lemma other_ids r s s' p p' q q' o : RB.wf r -> (p, q) ∈ RB.book r s -> (p', q') ∈ RB.book r s' -> o ∈ q' -> p' <> p ->
  o_id o ∉ (o_id <$> q).
Proof.
  intros Hw H1 H2 Ho Hne (o' & He & Ho')%list_elem_of_fmap. apply Hne.
  apply (RB.wf_one_side r s' s p' p (o_id o) Hw); apply RB.elem_of_keys; eauto.
Qed.

Lemma rel_band b r cap M fl s p : rel b r cap M fl -> p ∈ RB.prices (RB.book r s) -> 0 <= p - OB.min_price_ b < OB.n_ b.
Proof.
  intros Hr Hp. apply (RB.wf_band r (rel_wf _ _ _ _ _ Hr)) in Hp. rewrite (rel_max _ _ _ _ _ Hr), <- (rel_min _ _ _ _ _ Hr) in Hp.
  lia.
Qed.

Lemma opposite_ne s : opposite s <> s.
Proof. by destruct s. Qed.
Lemma side_cases s s' : s' = s \/ s' = opposite s.
Proof. destruct s, s'; auto. Qed.

(** *** Replacing one level of one side: [q] by [q'], an empty [q'] retiring the level. *)

Definition put_level (p : Z) (q' : list Order) m1 m2 : list (Z * list Order) :=
  m1 ++ (if q' is [] then [] else [(p, q')]) ++ m2.

Lemma put_level_prices p q' m1 m2 p0 : p0 ∈ RB.prices (put_level p q' m1 m2) <->
  p0 ∈ RB.prices m1 \/ p0 = p /\ q' <> [] \/ p0 ∈ RB.prices m2.
Proof. unfold put_level, RB.prices. rewrite !fmap_app. destruct q'; simpl; set_solver. Qed.

Lemma put_level_elem p q' m1 m2 p0 q0 : (p0, q0) ∈ put_level p q' m1 m2 <->
  (p0, q0) ∈ m1 ++ m2 \/ p0 = p /\ q0 = q' /\ q' <> [].
Proof. unfold put_level. destruct q'; set_solver. Qed.

Lemma sorted_distinct s m1 p q m2 : RB.sorted s (m1 ++ (p, q) :: m2) ->
  p ∉ RB.prices m1 /\ p ∉ RB.prices m2 /\ (forall p', p' ∈ RB.prices m1 -> RB.lt_side s p' p) /\
  (forall p', p' ∈ RB.prices m2 -> RB.lt_side s p p').
Proof.
  induction m1 as [|[p1 q1] m1 IH]; simpl.
  - intros [_ Hlt]%RB.sorted_cons. split_and!; try done; [apply not_elem_of_nil| |by intros ? ?%elem_of_nil].
    intros Hp%Hlt. by apply RB.lt_side_irrefl in Hp.
  - intros [Hs Hlt]%RB.sorted_cons. destruct (IH Hs) as (A & Bq & C & D).
    assert (RB.lt_side s p1 p) as H1 by (apply Hlt; unfold RB.prices; rewrite fmap_app; set_solver).
    split_and!; try done.
    + intros [->|?]%elem_of_cons; [by apply RB.lt_side_irrefl in H1|done].
    + intros p' [->|?]%elem_of_cons; auto.
Qed.

(** The relation after such a change, from what the change did to the fast book. *)
Lemma rel_put_level b r cap M fl s p q q' m1 m2 b' M' fl' i :
  rel b r cap M fl -> RB.book r s = put_level p q m1 m2 ->
  p ∉ RB.prices m1 -> p ∉ RB.prices m2 -> p ∉ RB.prices (RB.book r (opposite s)) ->
  let r' := RB.set_book r s (put_level p q' m1 m2) i in
  RB.wf r' -> core b' cap M' fl' ->
  (forall id, is_Some (M' !! id) <-> is_Some (i !! id)) ->
  OB.symbol_ b' = OB.symbol_ b -> OB.min_price_ b' = OB.min_price_ b -> OB.n_ b' = OB.n_ b -> OB.stp_ b' = OB.stp_ b ->
  alen (OB.levels_ b') = alen (OB.levels_ b) ->
  (forall j, j <> p - OB.min_price_ b -> OB.level b' j = OB.level b j) ->
  (forall id t, M !! id = Some t -> id ∉ (o_id <$> q) -> M' !! id = Some t) ->
  (forall id t, M !! id = Some t -> id ∉ (o_id <$> q) -> recs b' t = recs b t) ->
  level_rep b' M' s (p - OB.min_price_ b) q' ->
  OB.best b' (opposite s) = OB.best b (opposite s) -> OB.bits b' (opposite s) = OB.bits b (opposite s) ->
  OB.best b' s = head_ix b s (put_level p q' m1 m2) -> bits_rep b' s (RB.prices (put_level p q' m1 m2)) ->
  rel b' r' cap M' fl'.
Proof.
  intros Hr Hm Hn1 Hn2 Hno r' Hw' Hc' Hdom E1 E2 E3 E4 Hlen Hlev HM Hrecs Hnew Hb1 Hx1 Hb2 Hx2.
  destruct (RB.set_book_cfg r s (put_level p q' m1 m2) i) as (F1 & F2 & F3 & F4 & F5). fold r' in F1, F2, F3, F4, F5.
  pose proof (rel_wf _ _ _ _ _ Hr) as Hw.
  assert (q = [] \/ (p, q) ∈ RB.book r s) as Hpq.
  { destruct q as [|o q]; [by left|right]. rewrite Hm. apply put_level_elem. auto. }
  assert (RB.book r' s = put_level p q' m1 m2) as Bs by apply RB.book_set_eq.
  assert (RB.book r' (opposite s) = RB.book r (opposite s)) as Bo by (apply RB.book_set_ne, opposite_ne).
  assert (forall s0 p0 q0, (p0, q0) ∈ RB.book r s0 -> p0 <> p -> level_rep b' M' s0 (p0 - OB.min_price_ b) q0) as Hother.
  { intros s0 p0 q0 Hin Hne. pose proof (rel_level _ _ _ _ _ Hr s0 p0 q0 Hin) as Hl0.
    apply (level_rep_frame b _ M); [apply Hlev; lia| | |done].
    - intros o Ho. destruct Hl0 as (lv0 & _ & _ & Hs0). destruct (seg_slot _ _ _ _ _ _ _ _ _ Hs0 o Ho) as (t & _ & Ht & _).
      rewrite Ht. apply HM; [done|]. destruct Hpq as [->|Hpq]; [apply not_elem_of_nil|by apply (other_ids r s s0 p p0 q q0)].
    - intros o t Ho Ht. apply (Hrecs (o_id o)); [done|].
      destruct Hpq as [->|Hpq]; [apply not_elem_of_nil|by apply (other_ids r s s0 p p0 q q0)]. }
  destruct Hr as [R1 R2 R3 R4 R5 R6 R7 _ R9 R10 R11 R12 R13 R14]. constructor; try congruence; try done.
  - intros id. rewrite Hdom. unfold r'. by rewrite RB.index_set_book.
  - intros s0. destruct (side_cases s s0) as [->| ->]; [by rewrite Bs|]. rewrite Bo.
    destruct (R11 (opposite s)) as (X & HX & HX'). exists X. by rewrite Hx1, E3, E2.
  - intros s0. unfold head_ix, sentinel. rewrite E2, E3. destruct (side_cases s s0) as [->| ->]; [by rewrite Bs|].
    rewrite Bo, Hb1. apply R12.
  - intros s0 p0 q0. rewrite E2. destruct (side_cases s s0) as [->| ->].
    + rewrite Bs. intros [Hin|(-> & -> & _)]%put_level_elem; [|done].
      apply Hother; [rewrite Hm; apply put_level_elem; auto|]. intros ->. apply elem_prices in Hin. unfold RB.prices in *.
      rewrite fmap_app in Hin. set_solver.
    + rewrite Bo. intros Hin. apply Hother; [done|]. intros ->.
      by apply elem_prices in Hin.
  - intros j. rewrite E2, E3. intros Hj Hnone. pose proof (Hnone s) as Hno1. pose proof (Hnone (opposite s)) as Hno2.
    rewrite Bs, put_level_prices in Hno1. rewrite Bo in Hno2. destruct (decide (j = p - OB.min_price_ b)) as [->|Hne].
    + destruct q' as [|o q']; [|destruct Hno1; right; left; split; [lia|done]].
      destruct Hnew as (lv & Hlv & Hq & [Hh Ht]). rewrite Hlv. destruct lv; simpl in *. by subst.
    + rewrite Hlev by done. apply R14; [done|]. intros s0. destruct (side_cases s s0) as [->| ->]; [|done].
      rewrite Hm, put_level_prices. intros [?|[[? _]|?]]; [|lia|]; apply Hno1; auto.
Qed.

(** ** The sweep *)

Lemma seg_head_nil ρ M s ix pv h q last : (forall o t, o ∈ q -> M !! o_id o = Some t -> t <> kNil) ->
  seg ρ M s ix pv h q last kNil -> (h =? kNil) = match q with [] => true | _ => false end.
Proof.
  intros Hn. destruct q as [|o q]; simpl; [intros [-> _]; apply Z.eqb_refl|]. intros (Hm & _). apply Z.eqb_neq.
  apply (Hn o); [set_solver|done].
Qed.

Lemma core_seg_head b cap M fl s ix pv h q last : core b cap M fl -> seg (recs b) M s ix pv h q last kNil ->
  (h =? kNil) = match q with [] => true | _ => false end.
Proof. intros Hc. apply seg_head_nil. intros o t _ Ht. by eapply core_not_nil. Qed.

Lemma finish_spec side b r cap M fl p q m lv b1 M' fl' s' q' g i :
  rel b r cap M fl -> RB.book r (opposite side) = (p, q) :: m -> OB.level b (p - OB.min_price_ b) = Some lv ->
  level_left cap side (p - OB.min_price_ b) b M lv q b1 M' fl' s' q' ->
  RB.trimmed g q q' -> RB.without (o_id <$> g) (RB.index_ r) i ->
  exists b2, OB.finish_level side b1 (p - OB.min_price_ b) s' = Some b2 /\
    rel b2 (RB.set_book r (opposite side) (put_level p q' [] m) i) cap M' fl'.
Proof.
  intros Hr Hm Hlv [Kc Kf Kl Ko Klv (pv & Ks) (gone & Hg & Km) Kr] Ht Hi. set (s := opposite side) in *.
  pose proof (rel_wf _ _ _ _ _ Hr) as Hw.
  assert (p ∈ RB.prices (RB.book r s)) as Hp by (rewrite Hm; unfold RB.prices; simpl; set_solver).
  pose proof (rel_band _ _ _ _ _ _ _ Hr Hp) as Hix. set (ix := p - OB.min_price_ b) in *.
  assert (gone = o_id <$> g) as ->.
  { pose proof (RB.trimmed_ids _ _ _ Ht) as Ht'. rewrite Hg in Ht'. by apply app_inv_tail in Ht'. }
  pose proof (RB.wf_sorted r Hw s) as Hs. rewrite Hm in Hs. apply (sorted_distinct s []) in Hs as (_ & Hn2 & _ & Hlt).
  assert (RB.sorted s m) as Hsm.
  { pose proof (RB.wf_sorted r Hw s) as Hs. rewrite Hm in Hs. by apply RB.sorted_cons in Hs as [Hs _]. }
  assert (RB.book r s = put_level p q [] m) as Hput.
  { rewrite Hm. pose proof (RB.wf_pos r Hw s) as Hpos. rewrite Hm in Hpos. apply Forall_cons in Hpos as [[? _] _].
    by destruct q. }
  assert (p ∉ RB.prices (RB.book r (opposite s))) as Hop.
  { intros Hop. by destruct (opposite_ne s (price_side r _ _ p Hw Hop Hp)). }
  assert (RB.wf (RB.set_book r s (put_level p q' [] m) i)) as Hw'.
  { apply (RB.wf_swept r s g); [done| |done]. rewrite Hm. destruct q' as [|o' q'].
    - exists [(p, q)], m. split; [done|]. left. split; [done|]. simpl. rewrite app_nil_r.
      destruct Ht as [->|(? & ? & ? & _ & ? & _)]; [by rewrite app_nil_r|done].
    - exists [], ((p, q) :: m). split; [done|]. right. exists p, q, (o' :: q'), m, g. done. }
  assert (forall id, is_Some (M' !! id) <-> is_Some (i !! id)) as Hdom.
  { intros id. rewrite Km, Hi. case_decide; [done|]. apply (rel_dom _ _ _ _ _ Hr). }
  assert (forall id t, M !! id = Some t -> id ∉ (o_id <$> q) -> M' !! id = Some t) as HM'.
  { intros id t Hid Hn. rewrite Km, decide_False; [done|]. intros Hin. apply Hn. rewrite Hg. set_solver. }
  pose proof (core_seg_head _ _ _ _ _ _ _ _ _ _ Kc Ks) as Hnil.
  destruct Kf as (F1 & F2 & F3 & F4 & F5 & F6 & F7 & F8).
  assert (forall x, OB.bits b1 x = OB.bits b x) as Fb by (by intros []).
  assert (forall x, OB.best b1 x = OB.best b x) as Fc by (by intros []).
  destruct (set_level_spec b1 ix _ (OB.mkLevel (u64 (qsum q')) s' (if s' =? kNil then kNil else OB.lv_tail lv)) Klv)
    as (b2 & Hb2 & (G1 & G2 & G3 & G4 & G5 & G6 & G7 & G8) & Es & Ei & Gl & Glv).
  assert (level_rep b2 M' s ix q') as Hrep.
  { exists (OB.mkLevel (u64 (qsum q')) s' (if s' =? kNil then kNil else OB.lv_tail lv)).
    rewrite Glv, Z.eqb_refl. split; [done|]. split; [done|]. simpl.
    assert (recs b2 = recs b1) as -> by (unfold recs, OB.fields; by rewrite Es).
    rewrite Hnil. destruct q' as [|o' q']; [by destruct Ks as [-> _]|]. by eapply seg_weaken. }
  unfold OB.finish_level. rewrite Klv. simpl. rewrite Hnil in *. destruct q' as [|o' q'].
  - rewrite Hb2. simpl. assert (bits_rep b2 s (RB.prices (RB.book r s))) as Hbits.
    { apply (bits_frame b); [|apply (rel_bits _ _ _ _ _ Hr)]. unfold frame. intuition congruence. }
    destruct (bits_clear b2 s _ ix Hbits) as (x & Hx & Hclr); [by rewrite G3, F3|]. fold s. rewrite Hx. simpl.
    assert (OB.min_price_ b2 = OB.min_price_ b) as E2 by congruence.
    assert (bits_rep (OB.with_bits b2 s x) s (RB.prices m)) as Hbits'.
    { apply Hclr. intros p'. rewrite Hm, E2. replace (OB.min_price_ b + ix) with p by (unfold ix; lia).
      unfold RB.prices in *. simpl. rewrite elem_of_cons. split; [|tauto]. intros Hp'. split; [by right|]. by intros ->. }
    rewrite (next_best_spec _ s (RB.prices m) ix m Hbits' Hsm).
    + simpl. eexists. split; [done|].
      eapply (rel_put_level b r cap M fl s p q [] [] m); try done.
      * apply not_elem_of_nil.
      * apply (core_same b1); [by destruct s|by destruct s|done].
      * by destruct s; simpl; congruence.
      * by destruct s; simpl; congruence.
      * by destruct s; simpl; congruence.
      * by destruct s; simpl; congruence.
      * rewrite <- Kl, <- Gl. by destruct s.
      * intros j Hj. rewrite <- Ko by done. transitivity (OB.level b2 j); [by destruct s|].
        by rewrite Glv, (proj2 (Z.eqb_neq _ _)).
      * intros id t Hid Hn. rewrite <- (Kr id t Hid Hn). unfold recs, OB.fields. rewrite <- Es. by destruct s.
      * destruct Hrep as (lv' & ? & ? & ?). exists lv'. by destruct s.
      * rewrite <- Fc. destruct s; simpl; congruence.
      * rewrite <- Fb. destruct s; simpl; congruence.
      * unfold put_level. simpl. destruct s; simpl; unfold head_ix, sentinel; simpl; by rewrite ?E2, ?G3, ?F3.
      * destruct Hbits' as (X & HX & HX'). exists X. by destruct s.
    + intros p'. replace (OB.min_price_ (OB.with_bits b2 s x)) with (OB.min_price_ b) by (destruct s; simpl; congruence).
      replace (OB.min_price_ b + ix) with p by (unfold ix; lia). split; [|by intros [? _]]. intros Hp'. split; [done|auto].
  - simpl in Hb2. rewrite Hb2. eexists. split; [done|].
    eapply (rel_put_level b r cap M fl s p q (o' :: q') [] m); try done; try congruence.
    + apply not_elem_of_nil.
    + by apply (core_same b1).
    + intros j Hj. rewrite Glv, (proj2 (Z.eqb_neq _ _)) by done. by apply Ko.
    + intros id t Hid Hn. rewrite <- (Kr id t Hid Hn). unfold recs, OB.fields. by rewrite Es.
    + destruct s; simpl; congruence.
    + destruct s; simpl; congruence.
    + assert (OB.best b2 s = OB.best b s) as -> by (destruct s; simpl; congruence).
      rewrite (rel_best _ _ _ _ _ Hr s), Hm. done.
    + apply (bits_frame b); [unfold frame; intuition congruence|].
      pose proof (rel_bits _ _ _ _ _ Hr s) as Hb. by rewrite Hm in Hb.
Qed.

Lemma crosses_spec side b r cap M fl limit : rel b r cap M fl -> 0 <= limit < OB.n_ b ->
  OB.crosses b side limit = RB.crosses r side (OB.min_price_ b + limit).
Proof.
  intros Hr Hl. unfold OB.crosses, RB.crosses. pose proof (rel_best _ _ _ _ _ Hr (opposite side)) as Hb.
  destruct side; simpl in *; rewrite Hb.
  - destruct (RB.asks_ r) as [|[p q] m]; simpl; lia.
  - destruct (RB.bids_ r) as [|[p q] m]; simpl; lia.
Qed.

Lemma queue_ids r s p q : RB.wf r -> (p, q) ∈ RB.book r s -> NoDup (o_id <$> q).
Proof.
  intros Hw Hin. pose proof (RB.wf_ids r Hw s) as Hd. apply list_elem_of_split in Hin as (m1 & m2 & Hm).
  rewrite Hm, RB.ids_app, RB.ids_cons in Hd. by apply NoDup_app in Hd as (_ & _ & (? & _)%NoDup_app).
Qed.

(** A queue has at most [cap] orders: the loops' fuel is enough. *)
Lemma queue_length b r cap M fl s p q : rel b r cap M fl -> (p, q) ∈ RB.book r s -> (length q <= Z.to_nat cap)%nat.
Proof.
  intros Hr Hin. pose proof (core_count _ _ _ _ (rel_core _ _ _ _ _ Hr)) as Hc.
  assert (length (o_id <$> q) <= size M)%nat as Hle; [|rewrite length_fmap in Hle; lia].
  pose proof (queue_ids r s p q (rel_wf _ _ _ _ _ Hr) Hin) as Hd.
  rewrite <- size_dom, <- (size_list_to_set (C := gset Z)) by done. apply subseteq_size. intros id.
  rewrite elem_of_list_to_set, elem_of_dom. intros (o & -> & Ho)%list_elem_of_fmap.
  destruct (rel_level _ _ _ _ _ Hr s p q Hin) as (lv & _ & _ & Hs). destruct (seg_slot _ _ _ _ _ _ _ _ _ Hs o Ho) as (t & _ & -> & _).
  done.
Qed.

Lemma book_length b r cap M fl s : rel b r cap M fl -> (length (RB.book r s) <= Z.to_nat (OB.n_ b))%nat.
Proof.
  intros Hr. assert (NoDup (RB.prices (RB.book r s))) as Hd.
  { pose proof (RB.wf_sorted r (rel_wf _ _ _ _ _ Hr) s) as Hs. induction (RB.book r s) as [|[p q] m IH]; [constructor|].
    apply RB.sorted_cons in Hs as [Hs Hlt]. apply NoDup_cons. split; [|auto]. intros Hp%Hlt. by apply RB.lt_side_irrefl in Hp. }
  assert (length (RB.prices (RB.book r s)) <= length (seqZ (OB.min_price_ b) (OB.n_ b)))%nat as Hle.
  { apply submseteq_length, NoDup_submseteq; [done|]. intros p Hp. apply elem_of_seqZ.
    pose proof (rel_band _ _ _ _ _ _ _ Hr Hp). lia. }
  unfold RB.prices in Hle. rewrite length_fmap, length_seqZ in Hle. lia.
Qed.

Lemma set_book_twice r s m m' i i' : RB.set_book (RB.set_book r s m i) s m' i' = RB.set_book r s m' i'.
Proof. by destruct s. Qed.

Lemma set_book_id r s : RB.set_book r s (RB.book r s) (RB.index_ r) = r.
Proof. destruct r, s; done. Qed.

Lemma capacity_eq b cap M fl : core b cap M fl -> FreeListStore.capacity (OB.store_ b) = cap.
Proof. intros Hc. apply (FreeListStore.rep_cap _ _ _ (core_store _ _ _ _ Hc)). Qed.

Lemma sweep_loop_spec side taker owner limit stp fuel : forall b r cap M fl qty m' x,
  rel b r cap M fl -> 0 <= limit < OB.n_ b -> 0 <= qty -> (length (RB.book r (opposite side)) < fuel)%nat ->
  RB.match_side (RB.symbol_ r) taker owner side (RB.min_price_ r + limit) stp (RB.book r (opposite side)) (RB.index_ r) qty = (m', x) ->
  exists b' M' fl', OB.sweep_loop side taker owner limit stp fuel b qty = Some (b', RB.m_qty x, RB.m_stop x, RB.m_events x) /\
    rel b' (RB.set_book r (opposite side) m' (RB.m_index x)) cap M' fl'.
Proof.
  induction fuel as [|fuel IH]; intros b r cap M fl qty m' x Hr Hlim Hq Hf He; [lia|]. simpl.
  rewrite (crosses_spec _ _ _ _ _ _ _ Hr Hlim). unfold RB.crosses. rewrite (rel_min _ _ _ _ _ Hr).
  pose proof (rel_best _ _ _ _ _ Hr (opposite side)) as Hbest.
  destruct (RB.book r (opposite side)) as [|[p q] m] eqn:Hm; simpl in He.
  { rewrite andb_false_r. simplify_eq/=. exists b, M, fl. split; [done|]. rewrite <- Hm, set_book_id. done. }
  replace (negb (qty =? 0)) with (0 <? qty) by lia.
  destruct ((0 <? qty) && RB.in_range side (RB.min_price_ r + limit) p) eqn:Ec.
  2: { simplify_eq/=. exists b, M, fl. split; [done|]. rewrite <- Hm, set_book_id. done. }
  apply andb_prop in Ec as [Hpos _]. apply Z.ltb_lt in Hpos. pose proof (rel_wf _ _ _ _ _ Hr) as Hw.
  assert ((p, q) ∈ RB.book r (opposite side)) as Hin by (rewrite Hm; set_solver).
  simpl in Hbest. rewrite Hbest. destruct (rel_level _ _ _ _ _ Hr _ _ _ Hin) as (lv & Hlv & Hsum & Hseg).
  rewrite Hlv. simpl. destruct (RB.match_queue _ _ _ _ _ _ p q _ qty) as [q' x1] eqn:E1.
  pose proof (RB.wf_pos r Hw (opposite side)) as Hqpos. rewrite Hm in Hqpos. apply Forall_cons in Hqpos as [[_ Hqpos] _].
  destruct (RB.match_queue_spec _ _ _ _ _ _ _ _ _ _ _ _ Hq Hqpos E1) as (g & Ht & Hi & Hle & Hend & _).
  destruct (sweep_level_spec cap side taker owner limit (p - OB.min_price_ b) stp q
    (Datatypes.S (Z.to_nat (FreeListStore.capacity (OB.store_ b)))) b M fl lv kNil (OB.lv_head lv) qty (RB.index_ r) q' x1)
    as (b1 & s' & M1 & fl1 & Hsw & Hll); try done.
  { apply (rel_core _ _ _ _ _ Hr). }
  { by eapply queue_ids. }
  { rewrite (capacity_eq _ _ _ _ (rel_core _ _ _ _ _ Hr)). pose proof (queue_length _ _ _ _ _ _ _ _ Hr Hin). lia. }
  { rewrite (rel_symbol _ _ _ _ _ Hr), (rel_min _ _ _ _ _ Hr). by replace (RB.min_price_ r + (p - RB.min_price_ r)) with p by lia. }
  rewrite Hsw. simpl.
  destruct (finish_spec side b r cap M fl p q m lv b1 M1 fl1 s' q' g (RB.m_index x1) Hr Hm Hlv Hll Ht Hi)
    as (b2 & Hfin & Hr2). rewrite Hfin. simpl. unfold put_level in Hr2. simpl in Hr2.
  assert (OB.n_ b2 = OB.n_ b) as En.
  { pose proof (rel_max _ _ _ _ _ Hr) as Ha. pose proof (rel_max _ _ _ _ _ Hr2) as Hb. pose proof (rel_min _ _ _ _ _ Hr).
    pose proof (rel_min _ _ _ _ _ Hr2) as Hd. destruct side; simpl in *; lia. }
  destruct q' as [|o' q'].
  - destruct (RB.m_stop x1) eqn:Est; [simplify_eq/=; rewrite Est; eauto 10|].
    destruct (RB.match_side _ _ _ _ _ _ m _ _) as [m2 x2] eqn:E2. simplify_eq/=.
    assert (RB.symbol_ (RB.set_book r (opposite side) m (RB.m_index x1)) = RB.symbol_ r /\
      RB.min_price_ (RB.set_book r (opposite side) m (RB.m_index x1)) = RB.min_price_ r) as [Es Em] by (by destruct side).
    destruct (IH b2 _ cap M1 fl1 (RB.m_qty x1) m' x2 Hr2) as (b3 & M3 & fl3 & Hl3 & Hr3); [by rewrite En|lia| | |].
    + rewrite RB.book_set_eq. simpl in Hf. lia.
    + by rewrite Es, Em, RB.book_set_eq, RB.index_set_book.
    + rewrite Hl3. simpl. rewrite set_book_twice in Hr3. eauto 10.
  - simplify_eq/=. destruct (RB.m_stop x) eqn:Est; [eauto 10|]. destruct Hend as [?|[Hz|?]]; [done| |congruence].
    rewrite Hz. destruct fuel as [|fuel]; [lia|]. simpl. rewrite app_nil_r. eauto 10.
Qed.

Lemma sweep_spec side taker owner limit stp b r cap M fl qty r' q' stop es : rel b r cap M fl -> 0 <= limit < OB.n_ b ->
  0 <= qty -> RB.match_ r taker owner side (OB.min_price_ b + limit) qty stp = (r', q', stop, es) ->
  exists b' M' fl', OB.sweep side taker owner limit stp b qty = Some (b', q', stop, es) /\ rel b' r' cap M' fl'.
Proof.
  intros Hr Hlim Hq He. unfold RB.match_ in He. rewrite (rel_min _ _ _ _ _ Hr) in He.
  destruct (RB.match_side _ _ _ _ _ _ _ _ _) as [m x] eqn:Em. simplify_eq.
  pose proof (book_length _ _ _ _ _ (opposite side) Hr).
  destruct (sweep_loop_spec side taker owner limit stp (Datatypes.S (Z.to_nat (OB.n_ b))) b r cap M fl qty m x)
    as (b' & M' & fl' & Hs & Hr'); try done; [lia|]. eauto.
Qed.

(** ** Resting *)

Lemma push_back_split s m p o : RB.sorted s m -> RB.positive m ->
  exists q m1 m2, m = put_level p q m1 m2 /\ RB.map_push_back s m p o = put_level p (q ++ [o]) m1 m2 /\
    (forall p', p' ∈ RB.prices m1 -> RB.lt_side s p' p) /\ (forall p', p' ∈ RB.prices m2 -> RB.lt_side s p p') /\
    (q = [] \/ (p, q) ∈ m).
Proof.
  induction m as [|[p0 q0] m IH]; simpl.
  { intros _ _. exists [], [], []. split_and!; try done; try (by intros ? ?%elem_of_nil). by left. }
  intros [Hs Hlt]%RB.sorted_cons [[Hne0 _] Hpos]%Forall_cons. simpl in Hne0.
  assert (forall q, put_level p (q ++ [o]) [] m = (p, q ++ [o]) :: m) as Hput by (by intros []).
  destruct (Z.eqb_spec p0 p) as [->|Hne].
  - exists q0, [], m. rewrite Hput. split_and!; try done; [by destruct q0|by intros ? ?%elem_of_nil|]. right. set_solver.
  - destruct (RB.before s p p0) eqn:Eb.
    + apply RB.before_lt in Eb. exists [], [], ((p0, q0) :: m). split_and!; try done; [by intros ? ?%elem_of_nil| |by left].
      intros p' [->|Hp']%elem_of_cons; [done|]. apply (RB.lt_side_trans _ _ p0); auto.
    + assert (RB.lt_side s p0 p) as Hlt0 by (destruct s; simpl in *; lia).
      destruct (IH Hs Hpos) as (q & m1 & m2 & Hm & Hpb & H1 & H2 & H3). exists q, ((p0, q0) :: m1), m2.
      rewrite Hpb. split_and!; try done; [by rewrite Hm at 1| |].
      * intros p' [->|Hp']%elem_of_cons; auto.
      * destruct H3; [by left|right; set_solver].
Qed.

Lemma seg_append ρ ρ' M M' s ix h q l o t x : seg ρ M s ix kNil h q l kNil ->
  NoDup (o_id <$> q) -> (forall o1 o2 t1, o1 ∈ q -> o2 ∈ q -> M !! o_id o1 = Some t1 -> M !! o_id o2 = Some t1 -> o_id o1 = o_id o2) ->
  (forall o1, o1 ∈ q -> M' !! o_id o1 = M !! o_id o1) -> M' !! o_id o = Some t -> ρ' t = Some x -> stores s ix o x ->
  r_next x = kNil -> r_prev x = l ->
  (forall o1 t1, o1 ∈ q -> M !! o_id o1 = Some t1 -> t1 <> l -> ρ' t1 = ρ t1) ->
  (l <> kNil -> ρ' l = rec_set_next t <$> ρ l) ->
  (forall o1, o1 ∈ q -> M !! o_id o1 <> Some kNil) ->
  seg ρ' M' s ix kNil (match q with [] => t | _ => h end) (q ++ [o]) t kNil.
Proof.
  intros Hseg Hnd Hinj HM Ho Hx Hst Hnx Hpv Hr Hl Hnil. destruct q as [|o1 q1 _] using rev_ind.
  - simpl. split; [done|]. exists x. by rewrite Hnx.
  - replace (match q1 ++ [o1] with [] => t | _ => h end) with h by (by destruct q1).
    apply seg_snoc in Hseg as (l1 & x1 & Hs1 & Hm1 & Hx1 & Hst1 & Hp1 & _).
    assert (o1 ∈ q1 ++ [o1]) as Hin1 by set_solver. assert (l <> kNil) as Hln by (intros ->; by apply (Hnil o1)).
    rewrite fmap_app in Hnd. apply NoDup_app in Hnd as (_ & Hd & _). apply seg_app. exists l, t.
    split; [|simpl; split; [done|]; exists x; by rewrite Hnx].
    apply seg_app. exists l1, l. split.
    + apply (seg_frame ρ _ M); [intros o2 Ho2; apply HM; set_solver| |done]. intros o2 t2 Ho2 Ht2.
      apply (Hr o2); [set_solver|done|]. intros ->. apply (Hd (o_id o2)); [by apply list_elem_of_fmap_2|].
      rewrite (Hinj o2 o1 l) by (done || set_solver). simpl. set_solver.
    + simpl. rewrite HM by done. split; [done|]. exists (rec_set_next t x1). rewrite (Hl Hln), Hx1. done.
Qed.

(** The level at a price that the other side does not hold. *)
Lemma level_at b r cap M fl s ix q m1 m2 : rel b r cap M fl -> 0 <= ix < OB.n_ b ->
  RB.book r s = put_level (OB.min_price_ b + ix) q m1 m2 -> (q = [] \/ (OB.min_price_ b + ix, q) ∈ RB.book r s) ->
  OB.min_price_ b + ix ∉ RB.prices m1 -> OB.min_price_ b + ix ∉ RB.prices m2 ->
  OB.min_price_ b + ix ∉ RB.prices (RB.book r (opposite s)) -> level_rep b M s ix q.
Proof.
  intros Hr Hix Hm Hq H1 H2 Hop. destruct Hq as [->|Hin].
  - exists (OB.mkLevel 0 kNil kNil). split_and!; try done. apply (rel_empty _ _ _ _ _ Hr); [done|]. intros s'.
    destruct (side_cases s s') as [->| ->]; [|done]. rewrite Hm, put_level_prices. tauto.
  - pose proof (rel_level _ _ _ _ _ Hr s _ _ Hin) as Hl. by replace (OB.min_price_ b + ix - OB.min_price_ b) with ix in Hl by lia.
Qed.

Lemma core_insert b b' cap M fl s id x : core b cap M (s :: fl) -> M !! id = None ->
  FreeListStore.rep (OB.store_ b') cap fl -> ix_rep (OB.ids_ b') cap (<[id:=s]> M) -> 0 <= s < cap -> s ∉ fl ->
  recs b' s = Some x -> r_id x = id -> (forall t, t <> s -> r_id <$> recs b' t = r_id <$> recs b t) ->
  core b' cap (<[id:=s]> M) fl.
Proof.
  intros Hc Hid Hst Hix Hs Hfl Hx Hxid Hr. constructor; [done|done| |].
  - intros k t Hk. apply lookup_insert_Some in Hk as [[<- <-]|[Hne Hk]]; [eauto|].
    destruct (core_slot _ _ _ _ Hc k t Hk) as (? & Hn & y & Hy & Hyid). split; [done|]. split; [set_solver|].
    assert (t <> s) as Hts by set_solver. specialize (Hr t Hts). rewrite Hy in Hr. simpl in Hr.
    apply fmap_Some in Hr as (y' & Hy' & He). exists y'. split; [done|]. congruence.
  - pose proof (core_count _ _ _ _ Hc) as Hn. rewrite map_size_insert_None by done. simpl in Hn. lia.
Qed.

Lemma rel_size b r cap M fl : rel b r cap M fl -> RB.order_count r = Z.of_nat (size M).
Proof.
  intros Hr. unfold RB.order_count. rewrite <- !size_dom. f_equal. f_equal. apply set_eq. intros id.
  rewrite !elem_of_dom. symmetry. apply (rel_dom _ _ _ _ _ Hr).
Qed.

(** The three field updates of a new order. *)
Lemma init_order b cap fl s id qty ix owner side ts l : FreeListStore.rep (OB.store_ b) cap fl -> 0 <= s < cap -> s ∉ fl ->
  0 <= ix < 4294967296 ->
  exists st1 st2 st3 x, OB.upd_fields b (of_init (OB.fields b) s id qty (u32 ix) owner side ts) = Some (OB.with_store b st1) /\
    OB.upd_fields (OB.with_store b st1) (of_set_next (FreeListStore.self st1) s kNil) = Some (OB.with_store b st2) /\
    OB.upd_fields (OB.with_store b st2) (of_set_prev (FreeListStore.self st2) s l) = Some (OB.with_store b st3) /\
    FreeListStore.rep st3 cap fl /\ of_rec (FreeListStore.self st3) s = Some x /\
    x = mkRec id qty kNil l ix owner side /\
    (forall t, t <> s -> of_rec (FreeListStore.self st3) t = recs b t).
Proof.
  intros Hr Hs Hfl Hix.
  destruct (upd_fields_rep b cap fl (fun σ s => of_init σ s id qty (u32 ix) owner side ts) s _ Hr Hs Hfl
    (fun σ Hok Hsm => of_rec_init σ s id qty (u32 ix) owner side ts Hok Hsm)) as (st1 & E1 & R1 & U1).
  destruct (upd_fields_rep (OB.with_store b st1) cap fl (fun σ s => of_set_next σ s kNil) s _ R1 Hs Hfl
    (fun σ Hok Hsm => of_rec_set_next σ s kNil Hok Hsm)) as (st2 & E2 & R2 & U2).
  destruct (upd_fields_rep (OB.with_store b st2) cap fl (fun σ s => of_set_prev σ s l) s _ R2 Hs Hfl
    (fun σ Hok Hsm => of_rec_set_prev σ s l Hok Hsm)) as (st3 & E3 & R3 & U3).
  destruct (proj2 (FreeListStore.rep_slots _ _ _ Hr s) Hs) as [x0 Hx0].
  pose proof (upd_eq _ _ _ _ _ U1 Hx0) as X1. pose proof (upd_eq _ _ _ _ _ U2 X1) as X2. pose proof (upd_eq _ _ _ _ _ U3 X2) as X3.
  eexists st1, st2, st3, _. split_and!; [exact E1|exact E2|exact E3|exact R3|exact X3| |].
  - unfold rec_set_prev, rec_set_next, rec_init. simpl. rewrite u32_small; [done|]. words. lia.
  - intros t Ht. rewrite (upd_ne _ _ _ _ _ U3), <- (upd_ne _ _ _ _ _ U1 Ht) by done. apply (upd_ne _ _ _ _ _ U2 Ht).
Qed.

(** Linking the new order's slot [s] behind the queue: the book before the index insertion. *)
Definition link_tail b (side : Side) (ix s : Z) (lv : OB.Level) : option book :=
  if OB.lv_tail lv =? kNil then
    b ← OB.set_level b ix (OB.mkLevel (OB.lv_qty lv) s (OB.lv_tail lv));
    x ← ls_set (OB.bits b side) ix;
    let b := OB.with_bits b side x in
    Some (if match side with Buy => OB.best_bid_ b <? ix | Sell => ix <? OB.best_ask_ b end then OB.with_best b side ix else b)
  else OB.upd_fields b (of_set_next (OB.fields b) (OB.lv_tail lv) s).

Lemma head_ix_cons b s p q m1 m2 : (forall p', p' ∈ RB.prices m1 -> RB.lt_side s p' p) ->
  (forall p', p' ∈ RB.prices m2 -> RB.lt_side s p p') -> 0 <= p - OB.min_price_ b < OB.n_ b -> q <> [] ->
  head_ix b s (put_level p q m1 m2) =
  let old := head_ix b s (m1 ++ m2) in
  if match s with Buy => old <? p - OB.min_price_ b | Sell => p - OB.min_price_ b <? old end then p - OB.min_price_ b else old.
Proof.
  intros H1 H2 Hp Hq. unfold put_level. destruct q as [|o q]; [done|]. destruct m1 as [|[p1 q1] m1]; simpl.
  - destruct m2 as [|[p2 q2] m2]; simpl; [by destruct s; simpl; case_if; try lia|].
    assert (RB.lt_side s p p2) by (apply H2; unfold RB.prices; simpl; set_solver). destruct s; simpl in *; case_if; lia.
  - assert (RB.lt_side s p1 p) by (apply H1; unfold RB.prices; simpl; set_solver). destruct s; simpl in *; case_if; lia.
Qed.

Lemma level_eta (lv : OB.Level) : lv = OB.mkLevel (OB.lv_qty lv) (OB.lv_head lv) (OB.lv_tail lv).
Proof. by destruct lv. Qed.

(** What linking gives, in both cases (an empty level, and a level with a queue). *)
Record linked b M fl (cap : Z) (side : Side) (ix s : Z) (lv : OB.Level) (o : Order) (q : list Order) m1 m2 b4 : Prop := {
  lk_store : FreeListStore.rep (OB.store_ b4) cap fl;
  lk_ids : OB.ids_ b4 = OB.ids_ b;
  lk_same : OB.symbol_ b4 = OB.symbol_ b /\ OB.min_price_ b4 = OB.min_price_ b /\ OB.n_ b4 = OB.n_ b /\ OB.stp_ b4 = OB.stp_ b;
  lk_len : alen (OB.levels_ b4) = alen (OB.levels_ b);
  lk_level : exists h, OB.level b4 ix = Some (OB.mkLevel (OB.lv_qty lv) h (OB.lv_tail lv)) /\
    seg (recs b4) (<[o_id o:=s]> M) side ix kNil h (q ++ [o]) s kNil;
  lk_other j : j <> ix -> OB.level b4 j = OB.level b j;
  lk_new : r_id <$> recs b4 s = Some (o_id o);
  lk_id t : t <> s -> r_id <$> recs b4 t = r_id <$> recs b t;
  lk_recs k t : M !! k = Some t -> k ∉ (o_id <$> q) -> recs b4 t = recs b t;
  lk_best : OB.best b4 (opposite side) = OB.best b (opposite side) /\
    OB.best b4 side = head_ix b side (put_level (OB.min_price_ b + ix) (q ++ [o]) m1 m2);
  lk_bits : OB.bits b4 (opposite side) = OB.bits b (opposite side) /\
    bits_rep b4 side (RB.prices (put_level (OB.min_price_ b + ix) (q ++ [o]) m1 m2));
}.

Lemma core_not_free b cap M s fl k t : core b cap M (s :: fl) -> M !! k = Some t -> t <> s.
Proof. intros Hc Hk ->. destruct (core_slot _ _ _ _ Hc k s Hk) as (_ & Hn & _). set_solver. Qed.

Section link.
Context b r (cap : Z) M fl (s : Z) (side : Side) (ix : Z) (q : list Order) m1 m2 (o : Order)
  (st : FreeListStore.t S) (x : OrderRec) (lv : OB.Level).
Hypotheses (Hr : rel b r cap M (s :: fl)) (Hix : 0 <= ix < OB.n_ b)
  (Hm : RB.book r side = put_level (OB.min_price_ b + ix) q m1 m2)
  (H1 : forall p', p' ∈ RB.prices m1 -> RB.lt_side side p' (OB.min_price_ b + ix))
  (H2 : forall p', p' ∈ RB.prices m2 -> RB.lt_side side (OB.min_price_ b + ix) p')
  (Hlv : OB.level b ix = Some lv) (Hseg : seg (recs b) M side ix kNil (OB.lv_head lv) q (OB.lv_tail lv) kNil)
  (Hid : M !! o_id o = None) (Hs : 0 <= s < cap) (Hfl : s ∉ fl)
  (Hst : FreeListStore.rep st cap fl) (Hx : of_rec (FreeListStore.self st) s = Some x)
  (Ex : x = mkRec (o_id o) (o_qty o) kNil (OB.lv_tail lv) ix (o_owner o) side)
  (Hrest : forall t, t <> s -> of_rec (FreeListStore.self st) t = recs b t).

Lemma link_empty : q = [] -> exists b4, link_tail (OB.with_store b st) side ix s lv = Some b4 /\
  linked b M fl cap side ix s lv o q m1 m2 b4.
Proof.
  intros ->. destruct Hseg as [Hh Ht]. unfold link_tail. rewrite Ht. change (kNil =? kNil) with true. cbn iota.
  destruct (set_level_spec (OB.with_store b st) ix lv (OB.mkLevel (OB.lv_qty lv) s kNil) Hlv)
    as (b1 & -> & (F1 & F2 & F3 & F4 & F5 & F6 & F7 & F8) & Es & Ei & Hlen & Hl).
  simpl in F1, F2, F3, F4, F5, F6, F7, F8, Es, Ei, Hlen |- *.
  assert (bits_rep b1 side (RB.prices (RB.book r side))) as Hb.
  { apply (bits_frame b); [unfold frame; intuition|]. apply (rel_bits _ _ _ _ _ Hr). }
  destruct (bits_set b1 side _ ix Hb) as (y & -> & Hset); [by rewrite F3|]. simpl.
  assert (RB.book r side = m1 ++ m2) as Hm' by (by rewrite Hm).
  pose proof (rel_best _ _ _ _ _ Hr side) as Hbest. rewrite Hm' in Hbest.
  pose proof (head_ix_cons b side (OB.min_price_ b + ix) [o] m1 m2 H1 H2) as Hhd.
  replace (OB.min_price_ b + ix - OB.min_price_ b) with ix in Hhd by lia. specialize (Hhd Hix ltac:(done)).
  rewrite <- Hbest in Hhd. simpl in Hhd.
  assert (bits_rep (OB.with_bits b1 side y) side (RB.prices (put_level (OB.min_price_ b + ix) [o] m1 m2))) as Hb'.
  { apply Hset. intros p'. rewrite Hm', put_level_prices, F2. simpl. unfold RB.prices. rewrite fmap_app, elem_of_app. naive_solver. }
  set (c := match side with Buy => _ | Sell => _ end). eexists. split; [done|].
  assert (forall z, recs (if c then OB.with_best (OB.with_bits b1 side y) side ix else OB.with_bits b1 side y) z =
    of_rec (FreeListStore.self st) z) as Hrecs.
  { intros z. unfold recs, OB.fields. destruct c, side; simpl; by rewrite Es. }
  split.
  - destruct c, side; simpl; by rewrite Es.
  - destruct c, side; simpl; by rewrite Ei.
  - destruct c, side; simpl; split_and!; congruence.
  - transitivity (alen (OB.levels_ b1)); [by destruct c, side|done].
  - exists s. split; [transitivity (OB.level b1 ix); [by destruct c, side|by rewrite Hl, Z.eqb_refl, Ht]|].
    simpl. rewrite lookup_insert_eq. split; [done|]. exists x. rewrite Hrecs, Ex. by rewrite Hx, Ex.
  - intros j Hj. transitivity (OB.level b1 j); [by destruct c, side|]. by rewrite Hl, (proj2 (Z.eqb_neq _ _)).
  - by rewrite Hrecs, Hx, Ex.
  - intros t Hts. by rewrite Hrecs, Hrest.
  - intros k t Hk _. rewrite Hrecs. apply Hrest. by eapply core_not_free, Hk; apply (rel_core _ _ _ _ _ Hr).
  - simpl in *. rewrite Hhd. unfold c. destruct side; simpl in *; rewrite ?F5, ?F6; (case_if; simpl; split; congruence).
  - simpl in *. split; [destruct c, side; simpl in *; congruence|].
    destruct Hb' as (X & HX & HX'). exists X. by destruct c, side.
Qed.

Lemma link_behind : q <> [] -> exists b4, link_tail (OB.with_store b st) side ix s lv = Some b4 /\
  linked b M fl cap side ix s lv o q m1 m2 b4.
Proof.
  intros Hq. pose proof (rel_core _ _ _ _ _ Hr) as Hc.
  assert ((OB.min_price_ b + ix, q) ∈ RB.book r side) as Hin by (rewrite Hm; apply put_level_elem; auto).
  assert (exists k, k ∈ (o_id <$> q) /\ M !! k = Some (OB.lv_tail lv)) as (k & Hkq & Hk).
  { destruct q as [|ol q0 _] using rev_ind; [done|]. destruct (seg_snoc _ _ _ _ _ _ _ _ _ _ Hseg) as (l1 & y & _ & Hml & _).
    exists (o_id ol). rewrite fmap_app. set_solver. }
  destruct (core_slot _ _ _ _ Hc k _ Hk) as (Htr & Htf & _). pose proof (core_not_nil _ _ _ _ _ _ Hc Hk) as Htn.
  unfold link_tail. rewrite (proj2 (Z.eqb_neq _ _)) by done.
  destruct (upd_fields_rep (OB.with_store b st) cap fl (fun σ t => of_set_next σ t s) (OB.lv_tail lv) _ Hst Htr ltac:(set_solver)
    (fun σ Hok Hsm => of_rec_set_next σ (OB.lv_tail lv) s Hok Hsm)) as (st4 & E4 & R4 & U4).
  eexists. split; [exact E4|]. pose proof (core_not_free _ _ _ _ _ _ _ Hc Hk) as Hts. unfold recs in U4. simpl in U4.
  assert (forall t, t <> OB.lv_tail lv -> recs (OB.with_store (OB.with_store b st) st4) t = of_rec (FreeListStore.self st) t)
    as Hst4 by (intros t Ht; apply (upd_ne _ _ _ _ _ U4 Ht)).
  split; simpl; try done.
  - exists (OB.lv_head lv). split; [rewrite <- level_eta; exact Hlv|].
    replace (OB.lv_head lv) with (match q with [] => s | _ => OB.lv_head lv end) by (by destruct q).
    apply (seg_append (recs b) _ M _ side ix (OB.lv_head lv) q (OB.lv_tail lv) o s x); try done; try (by rewrite Ex).
    + by eapply queue_ids; [apply (rel_wf _ _ _ _ _ Hr)|].
    + intros o1 o2 t1 _ _ Ht1 Ht2. by apply (core_inj _ _ _ _ _ _ _ Hc Ht1 Ht2).
    + intros o1 Ho1. apply lookup_insert_ne. intros He. destruct (seg_slot _ _ _ _ _ _ _ _ _ Hseg o1 Ho1) as (t1 & _ & Ht1 & _).
      rewrite <- He in Ht1. congruence.
    + apply lookup_insert_eq.
    + rewrite Hst4 by done. exact Hx.
    + intros o1 t1 _ Ht1 Hne. rewrite Hst4 by done. by apply Hrest, (core_not_free _ _ _ _ _ _ _ Hc Ht1).
    + intros _. unfold recs, OB.fields. simpl. rewrite U4, Z.eqb_refl, Hrest by done. done.
    + intros o1 _ Ht1. by destruct (core_not_nil _ _ _ _ _ _ Hc Ht1).
  - rewrite Hst4 by done. by rewrite Hx, Ex.
  - intros t Ht. unfold recs, OB.fields. simpl. rewrite U4. pose proof (Hrest t Ht) as Hrt. unfold recs, OB.fields in Hrt.
    rewrite <- Hrt. change (OB.fields (OB.with_store b st)) with (FreeListStore.self st). destruct (t =? OB.lv_tail lv); [|done]. by destruct (of_rec (FreeListStore.self st) t).
  - intros k' t Hk' Hn. rewrite Hst4; [by apply Hrest, (core_not_free _ _ _ _ _ _ _ Hc Hk')|]. intros ->.
    apply Hn. by rewrite (core_inj _ _ _ _ _ _ _ Hc Hk' Hk).
  - split; [by destruct side|]. transitivity (OB.best b side); [by destruct side|].
    rewrite (rel_best _ _ _ _ _ Hr side), Hm. unfold put_level. destruct q; [done|]. by destruct m1.
  - split; [by destruct side|]. destruct (rel_bits _ _ _ _ _ Hr side) as (X & HX & HX'). exists X.
    split; [by destruct side|]. intros i. simpl. rewrite HX', Hm, !put_level_prices.
    assert (q ++ [o] <> []) by (by destruct q). tauto.
Qed.
End link.

(** After the link: the aggregate, the tail and the index. *)
Lemma link_done b r cap M fl s side ix q m1 m2 o lv b4 :
  rel b r cap M (s :: fl) -> 0 <= ix < OB.n_ b -> RB.book r side = put_level (OB.min_price_ b + ix) q m1 m2 ->
  OB.min_price_ b + ix ∉ RB.prices m1 -> OB.min_price_ b + ix ∉ RB.prices m2 ->
  OB.min_price_ b + ix ∉ RB.prices (RB.book r (opposite side)) ->
  OB.lv_qty lv = u64 (qsum q) -> M !! o_id o = None -> 0 <= s < cap -> s ∉ fl ->
  linked b M fl cap side ix s lv o q m1 m2 b4 ->
  RB.wf (RB.set_book r side (RB.map_push_back side (RB.book r side) (OB.min_price_ b + ix) o)
    (<[o_id o := RB.mkLoc side (OB.min_price_ b + ix)]> (RB.index_ r))) ->
  RB.map_push_back side (RB.book r side) (OB.min_price_ b + ix) o = put_level (OB.min_price_ b + ix) (q ++ [o]) m1 m2 ->
  exists b' M' fl', (lv ← OB.level b4 ix;
      b ← OB.set_level b4 ix (OB.mkLevel (u64 (OB.lv_qty lv + o_qty o)) (OB.lv_head lv) s);
      ids ← ix_insert (OB.ids_ b) (o_id o) s;
      Some (OB.with_ids b ids, [] : list Event)) = Some (b', []) /\
    rel b' (RB.set_book r side (RB.map_push_back side (RB.book r side) (OB.min_price_ b + ix) o)
      (<[o_id o := RB.mkLoc side (OB.min_price_ b + ix)]> (RB.index_ r))) cap M' fl'.
Proof.
  intros Hr Hix Hm Hn1 Hn2 Hno Hsum HM Hs Hfl Hlk Hw' Hpb. pose proof (rel_core _ _ _ _ _ Hr) as Hc.
  destruct Hlk as [K1 K2 (K3 & K4 & K5 & K6) K7 (h & K8 & K9) K10 K11 K12 K13 [K14 K15] [K16 K17]].
  rewrite K8. cbn [mbind option_bind].
  destruct (set_level_spec b4 ix _ (OB.mkLevel (u64 (OB.lv_qty lv + o_qty o)) h s) K8)
    as (b5 & Hb5 & (F1 & F2 & F3 & F4 & F5 & F6 & F7 & F8) & Es & Ei & Hlen & Hl).
  simpl. rewrite Hb5. simpl. rewrite Ei, K2.
  assert (forall k', M !! k' <> Some s) as Hns by (intros k' Hk'; by apply (core_not_free _ _ _ _ _ _ _ Hc Hk')).
  pose proof (core_count _ _ _ _ Hc) as Hcnt. pose proof (FreeListStore.rep_cap_range _ _ _ K1) as Hcr. simpl in Hcnt.
  destruct (ix_rep_insert _ _ _ (o_id o) s (core_ids _ _ _ _ Hc) HM ltac:(lia) ltac:(lia) Hns) as (i' & -> & Hi'). simpl.
  assert (forall t, recs (OB.with_ids b5 i') t = recs b4 t) as Hrecs by (intros t; unfold recs, OB.fields; simpl; by rewrite Es).
  exists (OB.with_ids b5 i'), (<[o_id o:=s]> M), fl. split; [done|]. rewrite Hpb in *.
  apply (rel_put_level b r cap M (s :: fl) side (OB.min_price_ b + ix) q (q ++ [o]) m1 m2); try done.
  - apply fmap_Some in K11 as (x & Hx & Hxid). apply (core_insert b _ cap M fl s (o_id o) x); try done.
    + by rewrite <- Es in K1.
    + rewrite Hrecs. done.
    + intros t Ht. rewrite Hrecs. by apply K12.
  - intros id. destruct (decide (id = o_id o)) as [->|Hne]; [rewrite !lookup_insert_eq; by split; eexists|].
    rewrite !lookup_insert_ne by done. apply (rel_dom _ _ _ _ _ Hr).
  - simpl. congruence.
  - simpl. congruence.
  - simpl. congruence.
  - simpl. congruence.
  - simpl. congruence.
  - intros j Hj. rewrite <- K10 by lia. change (OB.level (OB.with_ids b5 i') j) with (OB.level b5 j).
    rewrite Hl, (proj2 (Z.eqb_neq _ _)) by lia. done.
  - intros id t Hid _. rewrite lookup_insert_ne; [done|]. intros <-. congruence.
  - intros id t Hid Hn. rewrite Hrecs. by apply (K13 id).
  - replace (OB.min_price_ b + ix - OB.min_price_ b) with ix by lia.
    exists (OB.mkLevel (u64 (OB.lv_qty lv + o_qty o)) h s).
    change (OB.level (OB.with_ids b5 i') ix) with (OB.level b5 ix). rewrite Hl, Z.eqb_refl. split; [done|]. split.
    + simpl. rewrite Hsum, u64_add, qsum_app. unfold qsum. simpl. do 2 f_equal. lia.
    + simpl. apply (seg_frame (recs b4) _ (<[o_id o:=s]> M)); done.
  - rewrite <- K14. destruct side; simpl in *; congruence.
  - rewrite <- K16. destruct side; simpl in *; congruence.
  - rewrite <- K15. destruct side; simpl in *; congruence.
  - destruct K17 as (X & HX & HX'). exists X. simpl. rewrite F2, F3. split; [|done].
    destruct side; simpl in *; congruence.
Qed.

Lemma rest_spec side b r cap M fl id owner ix qty ts r' es : rel b r cap M fl -> 0 <= ix < OB.n_ b -> 0 < qty ->
  RB.index_ r !! id = None ->
  (forall p, p ∈ RB.prices (RB.book r (opposite side)) -> RB.in_range side (OB.min_price_ b + ix) p = false) ->
  RB.rest r id owner side (OB.min_price_ b + ix) qty = (r', es) ->
  exists b' M' fl', OB.rest b side id owner ix qty ts = Some (b', es) /\ rel b' r' cap M' fl'.
Proof.
  intros Hr Hix Hq Hid Hx He. pose proof (rel_core _ _ _ _ _ Hr) as Hc. pose proof (rel_wf _ _ _ _ _ Hr) as Hw.
  pose proof (rel_size _ _ _ _ _ Hr) as Hsz. pose proof (core_count _ _ _ _ Hc) as Hcnt.
  assert (M !! id = None) as HM.
  { apply eq_None_not_Some. intros Hsm%(rel_dom _ _ _ _ _ Hr). rewrite Hid in Hsm. by destruct Hsm. }
  assert (RB.wf r') as Hw'.
  { eapply RB.wf_rest; [| | | | |exact He]; try done. rewrite (rel_max _ _ _ _ _ Hr), <- (rel_min _ _ _ _ _ Hr). lia. }
  unfold RB.rest in He. rewrite (rel_cap _ _ _ _ _ Hr), Hsz in He. unfold OB.rest. destruct fl as [|s fl].
  - rewrite (FreeListStore.alloc_empty _ _ (core_store _ _ _ _ Hc)). simpl in Hcnt |- *.
    rewrite (proj2 (Z.leb_le _ _)) in He by lia. simplify_eq. change (kNil =? kNil) with true. cbn iota.
    rewrite (rel_symbol _ _ _ _ _ Hr). eauto 10.
  - destruct (FreeListStore.alloc_cons _ _ _ _ (core_store _ _ _ _ Hc)) as (st0 & -> & Eself & R0). simpl in Hcnt |- *.
    pose proof (FreeListStore.rep_range _ _ _ (core_store _ _ _ _ Hc) s ltac:(set_solver)) as Hs.
    pose proof (FreeListStore.rep_nodup _ _ _ (core_store _ _ _ _ Hc)) as [Hfl _]%NoDup_cons.
    pose proof (FreeListStore.rep_cap_range _ _ _ R0) as Hcr.
    rewrite (proj2 (Z.leb_gt _ _)) in He by lia. injection He as <- <-. rewrite (proj2 (Z.eqb_neq s kNil)) by lia.
    destruct (rel_n _ _ _ _ _ Hr) as [Hn _].
    destruct (push_back_split side (RB.book r side) (OB.min_price_ b + ix) (mkOrder id qty owner))
      as (q & m1 & m2 & Hm & Hpb & H1 & H2 & Hqin); [apply (RB.wf_sorted r Hw)|apply (RB.wf_pos r Hw)|].
    assert (OB.min_price_ b + ix ∉ RB.prices m1) as Hn1 by (intros Hp%H1; by apply RB.lt_side_irrefl in Hp).
    assert (OB.min_price_ b + ix ∉ RB.prices m2) as Hn2 by (intros Hp%H2; by apply RB.lt_side_irrefl in Hp).
    assert (OB.min_price_ b + ix ∉ RB.prices (RB.book r (opposite side))) as Hno.
    { intros Hp%Hx. destruct side; simpl in Hp; lia. }
    destruct (level_at _ _ _ _ _ _ _ _ _ _ Hr Hix Hm Hqin Hn1 Hn2 Hno) as (lv & Hlv & Hsum & Hseg).
    destruct (init_order (OB.with_store b st0) cap fl s id qty ix owner side ts (OB.lv_tail lv) R0 Hs Hfl ltac:(lia))
      as (st1 & st2 & st3 & x & E1 & E2 & E3 & R3 & Hx3 & Ex & Hrest).
    rewrite E1. cbn [mbind option_bind]. change (OB.level (OB.with_store (OB.with_store b st0) st1) ix) with (OB.level b ix).
    rewrite Hlv. cbn [mbind option_bind]. change (OB.fields (OB.with_store (OB.with_store b st0) st1)) with (FreeListStore.self st1).
    rewrite E2. cbn [mbind option_bind]. change (OB.fields (OB.with_store (OB.with_store b st0) st2)) with (FreeListStore.self st2).
    rewrite E3. cbn [mbind option_bind]. change (OB.with_store (OB.with_store b st0) st3) with (OB.with_store b st3).
    fold (link_tail (OB.with_store b st3) side ix s lv).
    assert (exists b4, link_tail (OB.with_store b st3) side ix s lv = Some b4 /\
      linked b M fl cap side ix s lv (mkOrder id qty owner) q m1 m2 b4) as (b4 & Hb4 & Hlk).
    { assert (forall t, t <> s -> of_rec (FreeListStore.self st3) t = recs b t) as Hrest'.
      { intros t Ht. rewrite Hrest by done. unfold recs, OB.fields. simpl. by rewrite Eself. }
      destruct (decide (q = [])); [eapply link_empty|eapply link_behind]; try done. }
    rewrite Hb4. cbn [mbind option_bind]. by apply (link_done b r cap M fl s side ix q m1 m2 (mkOrder id qty owner) lv b4).
Qed.

(** ** The fill-or-kill pre-check *)

(** The level aggregates have not wrapped. *)
Definition agg_ok r : Prop := forall s p q, (p, q) ∈ RB.book r s -> qsum q < 18446744073709551616.

Lemma scan_queue_none owner q : forall need, 0 < need -> Forall (fun o => 0 < o_qty o) q ->
  RB.scan_queue owner StpNone q need = if need <=? qsum q then inl true else inr (need - qsum q).
Proof.
  induction q as [|o q IH]; intros need Hn Hpos; simpl.
  - rewrite (proj2 (Z.leb_gt _ _)) by (unfold qsum; simpl; lia). f_equal. unfold qsum. simpl. lia.
  - apply Forall_cons in Hpos as [Ho Hpos]. rewrite qsum_cons.
    assert (0 <= qsum q) by (clear -Hpos; induction Hpos as [|x q Hx _ IH]; [done|rewrite qsum_cons; lia]).
    destruct (Z.leb_spec need (o_qty o)); [by rewrite (proj2 (Z.leb_le _ _)) by lia|].
    rewrite IH by (done || lia). destruct (Z.leb_spec (need - o_qty o) (qsum q)).
    + by rewrite (proj2 (Z.leb_le _ _)) by lia.
    + rewrite (proj2 (Z.leb_gt _ _)) by lia. f_equal. lia.
Qed.

Lemma scan_queue_pos owner stp q : forall need need', 0 < need -> RB.scan_queue owner stp q need = inr need' -> 0 < need'.
Proof.
  induction q as [|o q IH]; intros need need' Hn Es; simpl in Es; [by simplify_eq|].
  destruct (negb _ && _); [destruct (bool_decide (stp = CancelIncoming)); [done|]; destruct (bool_decide _); [|eauto]|];
    (destruct (Z.leb_spec need (o_qty o)); [done|]; eapply IH; [|done]; lia).
Qed.

Lemma fillable_level_spec owner stp b cap M fl s ix q : core b cap M fl -> stp <> StpNone ->
  forall fuel pv h last need, seg (recs b) M s ix pv h q last kNil -> (length q < fuel)%nat ->
  OB.fillable_level owner stp b fuel h need = Some (RB.scan_queue owner stp q need).
Proof.
  intros Hc Hstp. pose proof (core_ok _ _ _ _ Hc) as Hok. induction q as [|o q IH]; intros [|fuel] pv h last need Hseg Hf;
    simpl in Hf; try lia; simpl.
  - destruct Hseg as [-> _]. done.
  - destruct Hseg as (Hm & x & Hx & (E1 & E2 & E3 & E4) & _ & Hseg). unfold recs in Hx.
    rewrite (proj2 (Z.eqb_neq _ _)) by (by eapply core_not_nil).
    rewrite of_rec_qty, of_rec_owner, of_rec_next, Hx by done. simpl. rewrite E1, E2.
    rewrite (bool_decide_false (stp = StpNone)) by done. simpl.
    repeat (case_match; try done); (eapply IH; [done|lia]).
Qed.

#[local] Arguments OB.fillable_level : simpl never.

Lemma sorted_app_inv s m1 p q m2 : RB.sorted s (m1 ++ (p, q) :: m2) ->
  RB.sorted s m2 /\ (forall p', p' ∈ RB.prices m2 <-> p' ∈ RB.prices (m1 ++ (p, q) :: m2) /\ RB.lt_side s p p').
Proof.
  intros Hs. pose proof (RB.sorted_suffix _ _ _ Hs) as [Hs2 _]%RB.sorted_cons. split; [done|]. intros p'.
  apply sorted_distinct in Hs as (_ & _ & H1 & H2). unfold RB.prices in *. rewrite fmap_app, fmap_cons, elem_of_app, elem_of_cons.
  simpl. split; [auto|]. intros [[Hp|[->|Hp]] Hlt]; [|by apply RB.lt_side_irrefl in Hlt|done].
  specialize (H1 _ Hp). destruct (RB.lt_side_irrefl s p). by eapply RB.lt_side_trans.
Qed.

Lemma fillable_loop_spec side owner limit stp b r cap M fl m2 : rel b r cap M fl -> 0 <= limit < OB.n_ b ->
  (stp = StpNone -> agg_ok r) ->
  forall fuel m1 need, RB.book r (opposite side) = m1 ++ m2 -> 0 < need -> (length m2 < fuel)%nat ->
  OB.fillable_loop side owner limit stp b fuel (head_ix b (opposite side) m2) need =
    Some (RB.scan side (OB.min_price_ b + limit) owner stp m2 need).
Proof.
  intros Hr Hlim Hagg. pose proof (rel_wf _ _ _ _ _ Hr) as Hw. pose proof (rel_core _ _ _ _ _ Hr) as Hc.
  induction m2 as [|[p q] m2 IH]; intros [|fuel] m1 need Hm Hn Hf; simpl in Hf; try lia; cbn [OB.fillable_loop RB.scan].
  { simpl. destruct side; simpl; [rewrite (proj2 (Z.leb_gt _ _)) by lia|rewrite andb_false_r]; done. }
  assert ((p, q) ∈ RB.book r (opposite side)) as Hin by (rewrite Hm; set_solver).
  pose proof (rel_band _ _ _ _ _ _ _ Hr (elem_prices _ _ _ Hin)) as Hband. simpl.
  assert (match side with Buy => p - OB.min_price_ b <=? limit
          | Sell => (limit <=? p - OB.min_price_ b) && (0 <=? p - OB.min_price_ b) end =
          RB.in_range side (OB.min_price_ b + limit) p) as -> by (destruct side; simpl; lia).
  destruct (RB.in_range _ _ _); simpl; [|done].
  destruct (rel_level _ _ _ _ _ Hr _ _ _ Hin) as (lv & Hlv & Hsum & Hseg). rewrite Hlv. simpl.
  pose proof (RB.wf_sorted r Hw (opposite side)) as Hs. rewrite Hm in Hs. apply sorted_app_inv in Hs as [Hs2 Hp2].
  assert (OB.next_best b (opposite side) (p - OB.min_price_ b) = Some (head_ix b (opposite side) m2)) as Hnext.
  { apply (next_best_spec _ _ _ _ _ (rel_bits _ _ _ _ _ Hr (opposite side)) Hs2). intros p'. rewrite Hm, Hp2.
    by replace (OB.min_price_ b + (p - OB.min_price_ b)) with p by lia. }
  assert (RB.book r (opposite side) = (m1 ++ [(p, q)]) ++ m2) as Hm' by (by rewrite <- app_assoc).
  pose proof (RB.wf_pos r Hw (opposite side)) as Hpos. rewrite Hm in Hpos. apply Forall_app in Hpos as [_ [[_ Hpos] _]%Forall_cons].
  simpl in Hpos. case_bool_decide as Hstp.
  - subst stp. rewrite scan_queue_none by done. pose proof (Hagg eq_refl _ _ _ Hin) as Hb.
    assert (0 <= qsum q) by (clear -Hpos; induction Hpos as [|x q Hx _ IH]; [done|rewrite qsum_cons; lia]).
    rewrite Hsum, u64_small by (words; lia). destruct (Z.leb_spec need (qsum q)); [done|].
    rewrite Hnext. simpl. apply (IH _ _ _ Hm'); lia.
  - assert (length q < Datatypes.S (Z.to_nat (FreeListStore.capacity (OB.store_ b))))%nat as Hlen.
    { rewrite (capacity_eq _ _ _ _ Hc). pose proof (queue_length _ _ _ _ _ _ _ _ Hr Hin). lia. }
    rewrite (fillable_level_spec owner stp b cap M fl _ _ q Hc Hstp _ _ _ _ need Hseg Hlen). cbn [mbind option_bind].
    destruct (RB.scan_queue owner stp q need) as [a|need'] eqn:Es; [done|]. rewrite Hnext. simpl. apply (IH _ _ _ Hm'); [|lia].
    by eapply scan_queue_pos.
Qed.

Lemma fillable_spec side owner limit stp b r cap M fl qty : rel b r cap M fl -> 0 <= limit < OB.n_ b -> 0 < qty ->
  (stp = StpNone -> agg_ok r) ->
  OB.fillable side owner limit stp b qty = Some (RB.fillable r side (OB.min_price_ b + limit) qty owner stp).
Proof.
  intros Hr Hlim Hq Hagg. unfold OB.fillable, RB.fillable. rewrite (rel_best _ _ _ _ _ Hr).
  apply (fillable_loop_spec side owner limit stp b r cap M fl _ Hr Hlim Hagg _ [] qty); [done|done|].
  pose proof (book_length _ _ _ _ _ (opposite side) Hr). lia.
Qed.

(** ** Unlinking *)

(** The two link updates of [unlink], where [e1] and [e2] tell whether the order is the first and the last. *)
Lemma relink_spec b cap fl ix s lv n p (e1 e2 : bool) : FreeListStore.rep (OB.store_ b) cap fl -> OB.level b ix = Some lv ->
  (s =? OB.lv_head lv) = e1 -> (s =? OB.lv_tail lv) = e2 ->
  (e1 = false -> 0 <= p < cap /\ p ∉ fl /\ OB.lv_head lv <> kNil) -> (e2 = false -> 0 <= n < cap /\ n ∉ fl) ->
  (e2 = true -> n = kNil) -> (e1 = false -> e2 = false -> p <> n) ->
  exists b1 lv1 b2,
    (if s =? OB.lv_head lv then OB.set_level b ix (OB.mkLevel (OB.lv_qty lv) n (OB.lv_tail lv))
     else OB.upd_fields b (of_set_next (OB.fields b) p n)) = Some b1 /\
    OB.level b1 ix = Some lv1 /\
    (if s =? OB.lv_tail lv1 then
       OB.set_level b1 ix (OB.mkLevel (OB.lv_qty lv1) (OB.lv_head lv1) (if OB.lv_head lv1 =? kNil then kNil else p))
     else OB.upd_fields b1 (of_set_prev (OB.fields b1) n p)) = Some b2 /\
    FreeListStore.rep (OB.store_ b2) cap fl /\ OB.ids_ b2 = OB.ids_ b /\ frame b b2 /\
    alen (OB.levels_ b2) = alen (OB.levels_ b) /\
    OB.level b2 ix = Some (OB.mkLevel (OB.lv_qty lv) (if e1 then n else OB.lv_head lv)
      (if e2 then (if e1 then kNil else p) else OB.lv_tail lv)) /\
    (forall j, j <> ix -> OB.level b2 j = OB.level b j) /\
    (forall t, recs b2 t = (if negb e1 && (t =? p) then rec_set_next n <$> recs b t else
                            if negb e2 && (t =? n) then rec_set_prev p <$> recs b t else recs b t)).
Proof.
  intros Hr Hlv H1 H2 Hp Hn Hnil Hne. rewrite H1.
  assert (exists b1, (if e1 then OB.set_level b ix (OB.mkLevel (OB.lv_qty lv) n (OB.lv_tail lv))
     else OB.upd_fields b (of_set_next (OB.fields b) p n)) = Some b1 /\
    FreeListStore.rep (OB.store_ b1) cap fl /\ OB.ids_ b1 = OB.ids_ b /\ frame b b1 /\
    alen (OB.levels_ b1) = alen (OB.levels_ b) /\
    (forall j, OB.level b1 j = if j =? ix then Some (OB.mkLevel (OB.lv_qty lv) (if e1 then n else OB.lv_head lv) (OB.lv_tail lv))
                               else OB.level b j) /\
    (forall t, recs b1 t = if negb e1 && (t =? p) then rec_set_next n <$> recs b t else recs b t))
    as (b1 & E1 & R1 & I1 & F1 & L1 & Lv1 & U1).
  { destruct e1.
    - destruct (set_level_spec b ix lv (OB.mkLevel (OB.lv_qty lv) n (OB.lv_tail lv)) Hlv) as (b1 & ? & ? & Es & ? & ? & ?).
      exists b1. rewrite Es. split_and!; try done. intros t. unfold recs, OB.fields. by rewrite Es.
    - destruct (Hp eq_refl) as (Hpr & Hpf & _).
      destruct (upd_fields_rep b cap fl (fun σ t => of_set_next σ t n) p _ Hr Hpr Hpf (fun σ Hok Hsm => of_rec_set_next σ p n Hok Hsm))
        as (st & E & R & U). exists (OB.with_store b st). split_and!; try done. intros j.
      destruct (Z.eqb_spec j ix) as [->|]; [|done]. rewrite <- level_eta. exact Hlv. }
  rewrite E1. exists b1, (OB.mkLevel (OB.lv_qty lv) (if e1 then n else OB.lv_head lv) (OB.lv_tail lv)).
  rewrite (Lv1 ix), Z.eqb_refl. simpl.
  assert (exists b2, (if e2 then OB.set_level b1 ix (OB.mkLevel (OB.lv_qty lv) (if e1 then n else OB.lv_head lv)
        (if (if e1 then n else OB.lv_head lv) =? kNil then kNil else p))
     else OB.upd_fields b1 (of_set_prev (OB.fields b1) n p)) = Some b2 /\
    FreeListStore.rep (OB.store_ b2) cap fl /\ OB.ids_ b2 = OB.ids_ b1 /\ frame b1 b2 /\
    alen (OB.levels_ b2) = alen (OB.levels_ b1) /\
    (forall j, OB.level b2 j = if j =? ix then Some (OB.mkLevel (OB.lv_qty lv) (if e1 then n else OB.lv_head lv)
      (if e2 then (if e1 then kNil else p) else OB.lv_tail lv)) else OB.level b1 j) /\
    (forall t, recs b2 t = if negb e2 && (t =? n) then rec_set_prev p <$> recs b1 t else recs b1 t))
    as (b2 & E2 & R2 & I2 & F2 & L2 & Lv2 & U2).
  { destruct e2.
    - destruct (set_level_spec b1 ix _ (OB.mkLevel (OB.lv_qty lv) (if e1 then n else OB.lv_head lv)
        (if (if e1 then n else OB.lv_head lv) =? kNil then kNil else p)) ltac:(by rewrite (Lv1 ix), Z.eqb_refl))
        as (b2 & ? & ? & Es & ? & ? & Hl2).
      exists b2. rewrite Es. split_and!; try done; [|intros t; unfold recs, OB.fields; by rewrite Es].
      intros j. rewrite Hl2. destruct (j =? ix); [|done]. do 3 f_equal. destruct e1; [by rewrite (Hnil eq_refl)|].
      rewrite (proj2 (Z.eqb_neq _ _)); [done|]. by destruct (Hp eq_refl) as (_ & _ & ?).
    - destruct (Hn eq_refl) as (Hnr & Hnf).
      destruct (upd_fields_rep b1 cap fl (fun σ t => of_set_prev σ t p) n _ R1 Hnr Hnf (fun σ Hok Hsm => of_rec_set_prev σ n p Hok Hsm))
        as (st & E & R & U). exists (OB.with_store b1 st). split_and!; try done. intros j.
      destruct (Z.eqb_spec j ix) as [->|]; [|done]. change (OB.level (OB.with_store b1 st) ix) with (OB.level b1 ix).
      by rewrite Lv1, Z.eqb_refl. }
  exists b2. rewrite H2, E2. split_and!; try done; try congruence.
  - by eapply frame_trans.
  - by rewrite Lv2, Z.eqb_refl.
  - intros j Hj. by rewrite Lv2, Lv1, (proj2 (Z.eqb_neq _ _)).
  - intros t. rewrite U2, U1. destruct e1, e2; simpl; try done. specialize (Hne eq_refl eq_refl).
    destruct (Z.eqb_spec t n) as [->|]; [by rewrite (proj2 (Z.eqb_neq n p)) by done|]. done.
Qed.

Lemma core_delete b b' cap M fl s id : core b cap M fl -> M !! id = Some s ->
  FreeListStore.rep (OB.store_ b') cap (s :: fl) -> ix_rep (OB.ids_ b') cap (delete id M) ->
  (forall t, t <> s -> r_id <$> recs b' t = r_id <$> recs b t) -> core b' cap (delete id M) (s :: fl).
Proof.
  intros Hc Hid Hst Hix Hr. constructor; [done|done| |].
  - intros k t Hk. apply lookup_delete_Some in Hk as [Hne Hk].
    destruct (core_slot _ _ _ _ Hc k t Hk) as (? & Hn & y & Hy & Hyid). split; [done|].
    assert (t <> s) as Hts by (intros ->; apply Hne; by apply (core_inj _ _ _ _ _ _ _ Hc Hid Hk)).
    split; [set_solver|]. specialize (Hr t Hts). rewrite Hy in Hr. simpl in Hr.
    apply fmap_Some in Hr as (y' & Hy' & He). exists y'. split; [done|]. congruence.
  - pose proof (core_count _ _ _ _ Hc) as Hn. rewrite map_size_delete_Some by eauto.
    assert (size M <> 0%nat) by (intros H0; apply map_size_empty_inv in H0; by subst). simpl. lia.
Qed.

(** The slot, the record and the place of a resting order. *)
Lemma resting_spec b r cap M fl id l : rel b r cap M fl -> RB.index_ r !! id = Some l ->
  exists s x o, M !! id = Some s /\ recs b s = Some x /\ RB.deref r l id = Some o /\ o_id o = id /\
    stores (RB.l_side l) (RB.l_price l - OB.min_price_ b) o x /\ s <> kNil /\ 0 <= s < cap /\ s ∉ fl.
Proof.
  intros Hr Hl. pose proof (rel_core _ _ _ _ _ Hr) as Hc.
  destruct (RB.deref_spec r id l (rel_wf _ _ _ _ _ Hr) Hl) as (m1 & q1 & o & q2 & m2 & Hm & Hid & Hd & _).
  destruct (rel_level _ _ _ _ _ Hr (RB.l_side l) (RB.l_price l) (q1 ++ o :: q2)) as (lv & _ & _ & Hs); [rewrite Hm; set_solver|].
  destruct (seg_slot _ _ _ _ _ _ _ _ _ Hs o) as (s & x & HM & Hx & Hst); [set_solver|]. rewrite Hid in HM.
  destruct (core_slot _ _ _ _ Hc _ _ HM) as (Hsr & Hsf & _).
  exists s, x, o. split_and!; try done; try lia. by eapply core_not_nil.
Qed.

(** The queue around a resting order, as the code's links show it. *)
Lemma neighbours b cap M fl side ix q1 o q2 lv s x : core b cap M fl ->
  seg (recs b) M side ix kNil (OB.lv_head lv) (q1 ++ o :: q2) (OB.lv_tail lv) kNil -> NoDup (o_id <$> q1 ++ o :: q2) ->
  M !! o_id o = Some s -> recs b s = Some x ->
  (s =? OB.lv_head lv) = bool_decide (q1 = []) /\ (s =? OB.lv_tail lv) = bool_decide (q2 = []) /\
  (bool_decide (q1 = []) = false -> 0 <= r_prev x < cap /\ r_prev x ∉ fl /\ OB.lv_head lv <> kNil /\ r_prev x <> s) /\
  (bool_decide (q2 = []) = false -> 0 <= r_next x < cap /\ r_next x ∉ fl /\ r_next x <> s) /\
  (bool_decide (q2 = []) = true -> r_next x = kNil) /\
  (bool_decide (q1 = []) = false -> bool_decide (q2 = []) = false -> r_prev x <> r_next x) /\
  (q1 <> [] -> exists o1, o1 ∈ q1 /\ M !! o_id o1 = Some (r_prev x)) /\
  (q2 <> [] -> exists o2, o2 ∈ q2 /\ M !! o_id o2 = Some (r_next x)).
Proof.
  intros Hc Hs Hnd HM Hx. apply seg_app in Hs as (l1 & h2 & H1 & HM2 & x2 & Hx2 & _ & Hp & H2).
  assert (h2 = s) as -> by congruence. assert (x2 = x) as -> by congruence.
  rewrite fmap_app, fmap_cons in Hnd. pose proof Hnd as (_ & Hdis & [Hno _]%NoDup_cons)%NoDup_app.
  assert (forall k k' t, M !! k = Some t -> M !! k' = Some t -> k = k') as Hinj by (intros; by eapply core_inj).
  assert (q1 <> [] -> exists o1, o1 ∈ q1 /\ M !! o_id o1 = Some (r_prev x)) as Hq1.
  { destruct q1 as [|o1 q _] using rev_ind; [done|]. intros _. exists o1. split; [set_solver|].
    apply seg_snoc in H1 as (_ & _ & _ & Hml & _). rewrite Hp; [done|]. by eapply core_not_nil. }
  assert (q2 <> [] -> exists o2, o2 ∈ q2 /\ M !! o_id o2 = Some (r_next x)) as Hq2.
  { destruct q2 as [|o2 q2]; [done|]. intros _. exists o2. split; [set_solver|]. by destruct H2. }
  assert (forall o1, o1 ∈ q1 -> M !! o_id o1 <> Some s) as Hn1.
  { intros o1 Ho1 Ht. apply (Hdis (o_id o1)); [by apply list_elem_of_fmap_2|]. rewrite (Hinj _ _ _ Ht HM). set_solver. }
  assert (forall o2, o2 ∈ q2 -> M !! o_id o2 <> Some s) as Hn2.
  { intros o2 Ho2 Ht. apply Hno. rewrite <- (Hinj _ _ _ Ht HM). by apply list_elem_of_fmap_2. }
  split_and!.
  - destruct q1 as [|o1 q1]; [destruct H1 as [-> _]; rewrite bool_decide_true by done; apply Z.eqb_refl|].
    rewrite bool_decide_false by done. apply Z.eqb_neq. intros ->. destruct H1 as (Hm1 & _). apply (Hn1 o1); [set_solver|done].
  - destruct q2 as [|o2 q2 _] using rev_ind; [destruct H2 as [_ ->]; rewrite bool_decide_true by done; apply Z.eqb_refl|].
    rewrite bool_decide_false by (by destruct q2). apply Z.eqb_neq. intros ->.
    apply seg_snoc in H2 as (_ & _ & _ & Hm2 & _). apply (Hn2 o2); [set_solver|done].
  - intros Hb%bool_decide_eq_false. destruct (Hq1 Hb) as (o1 & Ho1 & Hm1).
    destruct (core_slot _ _ _ _ Hc _ _ Hm1) as (? & ? & _). split_and!; try done; try lia; [|intros Heq; rewrite Heq in Hm1; by apply (Hn1 o1)].
    destruct q1 as [|o1' q1]; [done|]. destruct H1 as (Hm1' & _). by eapply core_not_nil.
  - intros Hb%bool_decide_eq_false. destruct (Hq2 Hb) as (o2 & Ho2 & Hm2).
    destruct (core_slot _ _ _ _ Hc _ _ Hm2) as (? & ? & _). split_and!; try done; try lia.
    intros Heq; rewrite Heq in Hm2; by apply (Hn2 o2).
  - intros Hb%bool_decide_eq_true. subst. by destruct H2.
  - intros Hb1%bool_decide_eq_false Hb2%bool_decide_eq_false Heq. destruct (Hq1 Hb1) as (o1 & Ho1 & Hm1).
    destruct (Hq2 Hb2) as (o2 & Ho2 & Hm2). rewrite Heq in Hm1. apply (Hdis (o_id o1)); [by apply list_elem_of_fmap_2|].
    rewrite (Hinj _ _ _ Hm1 Hm2). apply elem_of_cons. right. by apply list_elem_of_fmap_2.
  - done.
  - done.
Qed.

(** The end of [unlink]: an emptied level leaves the bitmap and, if it was the best one, hands over to the next. *)
Lemma retire_spec b0 b r cap M fl s p q q' m1 m2 lv i r' ix :
  rel b r cap M fl -> RB.book r s = put_level p q m1 m2 -> q <> [] ->
  ix = p - OB.min_price_ b -> RB.sorted s (m1 ++ (p, q) :: m2) -> r' = RB.set_book r s (put_level p q' m1 m2) i ->
  frame b b0 -> OB.level b0 ix = Some lv -> (OB.lv_head lv =? kNil) = bool_decide (q' = []) ->
  of_ok (OB.fields b0) ->
  exists b1, (if bool_decide (q' = []) then
      x ← ls_clear (OB.bits b0 s) ix;
      let b := OB.with_bits b0 s x in
      if ix =? OB.best b s then nb ← OB.next_best b s ix; Some (OB.with_best b s nb) else Some b
    else Some b0) = Some b1 /\
    OB.store_ b1 = OB.store_ b0 /\ OB.ids_ b1 = OB.ids_ b0 /\ OB.levels_ b1 = OB.levels_ b0 /\
    OB.symbol_ b1 = OB.symbol_ b /\ OB.min_price_ b1 = OB.min_price_ b /\ OB.n_ b1 = OB.n_ b /\ OB.stp_ b1 = OB.stp_ b /\
    OB.best b1 (opposite s) = OB.best b (opposite s) /\ OB.bits b1 (opposite s) = OB.bits b (opposite s) /\
    OB.best b1 s = head_ix b s (put_level p q' m1 m2) /\ bits_rep b1 s (RB.prices (put_level p q' m1 m2)).
Proof.
  intros Hr Hm Hq -> Hs -> Hf Hlv Hnil Hok. pose proof Hf as (F1 & F2 & F3 & F4 & F5 & F6 & F7 & F8).
  assert (p ∈ RB.prices (RB.book r s)) as Hp by (rewrite Hm; apply put_level_prices; auto).
  pose proof (rel_band _ _ _ _ _ _ _ Hr Hp) as Hix.
  pose proof (sorted_distinct _ _ _ _ _ Hs) as (Hn1 & Hn2 & Hlt1 & Hlt2).
  pose proof (bits_frame _ _ s _ Hf (rel_bits _ _ _ _ _ Hr s)) as Hb0.
  pose proof (rel_best _ _ _ _ _ Hr s) as Hbest. rewrite <- (best_frame _ _ s Hf), Hm in Hbest.
  case_bool_decide as Hq'.
  - subst q'. destruct (bits_clear b0 s _ (p - OB.min_price_ b) Hb0) as (x & -> & Hclr); [by rewrite F3|]. simpl.
    assert (bits_rep (OB.with_bits b0 s x) s (RB.prices (put_level p [] m1 m2))) as Hb1.
    { apply Hclr. intros p'. rewrite Hm, !put_level_prices, F2.
      split; [intros [Hp'|[[_ ?]|Hp']]; [|done|]; (split; [auto|intros ->; replace (OB.min_price_ b + (p - OB.min_price_ b)) with p in * by lia; done])|].
      intros [[?|[[-> _]|?]] ?]; auto. lia. }
    replace (OB.best (OB.with_bits b0 s x) s) with (OB.best b0 s) by (by destruct s). rewrite Hbest.
    destruct m1 as [|[p1 q1] m1].
    + unfold put_level at 1. destruct q as [|o q]; [done|]. simpl. rewrite Z.eqb_refl.
      pose proof (RB.sorted_suffix s [] _ Hs) as [Hs2 _]%RB.sorted_cons.
      rewrite (next_best_spec _ s _ (p - OB.min_price_ b) m2 Hb1 Hs2).
      * simpl. eexists. split; [done|]. split_and!; try (by destruct s; simpl; congruence).
        -- unfold put_level. simpl. destruct s; simpl; unfold head_ix, sentinel; simpl; by rewrite ?F2, ?F3.
        -- destruct Hb1 as (X & HX & HX'). exists X. by destruct s.
      * intros p'. replace (OB.min_price_ (OB.with_bits b0 s x)) with (OB.min_price_ b) by (destruct s; simpl; congruence).
        replace (OB.min_price_ b + (p - OB.min_price_ b)) with p by lia. rewrite put_level_prices. unfold RB.prices at 2. simpl.
        split; [auto|]. intros [[?%elem_of_nil|[[_ ?]|?]] _]; done.
    + assert (p1 <> p) as Hne by (intros ->; apply Hn1; unfold RB.prices; simpl; set_solver).
      unfold put_level at 1. simpl. rewrite (proj2 (Z.eqb_neq _ _)) by lia.
      eexists. split; [done|]. split_and!; try (by destruct s; simpl; congruence); [|done].
      transitivity (OB.best b0 s); [by destruct s|]. rewrite Hbest. done.
  - eexists. split; [done|]. split_and!; try congruence; try (by destruct s; simpl; congruence).
    + rewrite Hbest. unfold put_level. destruct q, q'; try done. by destruct m1.
    + destruct Hb0 as (X & HX & HX'). exists X. split; [done|]. intros j. rewrite HX', Hm, !put_level_prices. tauto.
Qed.

Lemma take_out_spec b r cap M fl id l ids' s : rel b r cap M fl -> RB.index_ r !! id = Some l -> M !! id = Some s ->
  ix_rep ids' cap (delete id M) ->
  exists b1 st r', OB.unlink (OB.with_ids b ids') s = Some b1 /\ FreeListStore.release (OB.store_ b1) s = Some st /\
    RB.remove r l id = Some r' /\ rel (OB.with_store b1 st) r' cap (delete id M) (s :: fl).
Proof.
  intros Hr Hl HM Hids. pose proof (rel_wf _ _ _ _ _ Hr) as Hw. pose proof (rel_core _ _ _ _ _ Hr) as Hc.
  destruct (RB.deref_spec r id l Hw Hl) as (m1 & q1 & o & q2 & m2 & Hm & Hid & _ & Hf & Her & Hput & _).
  destruct (RB.wf_remove r id l Hw Hl) as (r' & Hrem & Hw' & _ & Hir').
  set (side := RB.l_side l) in *. set (p := RB.l_price l) in *. set (ix := p - OB.min_price_ b).
  assert ((p, q1 ++ o :: q2) ∈ RB.book r side) as Hin by (rewrite Hm; set_solver).
  destruct (rel_level _ _ _ _ _ Hr side p _ Hin) as (lv & Hlv & Hsum & Hseg). fold ix in Hlv, Hseg.
  pose proof (queue_ids r side p _ Hw Hin) as Hnd. subst id.
  destruct (seg_slot _ _ _ _ _ _ _ _ _ Hseg o) as (s' & x & HM' & Hx & Hst); [set_solver|].
  assert (s' = s) as -> by congruence. destruct (core_slot _ _ _ _ Hc _ _ HM) as (Hsr & Hsf & _).
  destruct (neighbours b cap M fl side ix q1 o q2 lv s x Hc Hseg Hnd HM Hx) as (N1 & N2 & N3 & N4 & N5 & N6 & N7 & N8).
  set (b0 := OB.with_ids b ids').
  destruct (relink_spec b0 cap fl ix s lv (r_next x) (r_prev x) _ _ (core_store _ _ _ _ Hc) Hlv N1 N2)
    as (b1 & lv1 & b2 & E1 & Elv1 & E2 & R2 & I2 & F2 & L2 & Lv2 & O2 & U2); try done; [naive_solver|naive_solver|].
  change (recs b0) with (recs b) in U2.
  assert (recs b2 s = Some x) as Hx2.
  { rewrite U2, Hx. destruct (bool_decide (q1 = [])); simpl; [|rewrite (proj2 (Z.eqb_neq _ _)) by naive_solver];
      (destruct (bool_decide (q2 = [])); simpl; [done|]; by rewrite (proj2 (Z.eqb_neq _ _)) by naive_solver). }
  assert (forall k, M !! k <> Some kNil) as Hnil by (intros k Hk; by apply (core_not_nil _ _ _ _ _ _ Hc Hk)).
  assert (slots_inj M) as Hinj by (intros k k' t; apply (core_inj _ _ _ _ _ _ _ Hc)).
  pose proof (seg_unlink _ (recs b2) _ _ _ _ _ _ _ _ _ _ Hseg Hinj Hnd Hnil HM Hx U2) as Hseg2.
  set (lv2 := OB.mkLevel _ _ _) in Lv2. set (q' := q1 ++ q2) in *.
  assert (r' = RB.set_book r side (put_level p q' m1 m2) (delete (o_id o) (RB.index_ r))) as Er'.
  { unfold RB.remove in Hrem. fold side p in Hrem. rewrite Hf in Hrem. simpl in Hrem. rewrite Her, Hput in Hrem. by injection Hrem as <-. }
  assert (RB.book r side = put_level p (q1 ++ o :: q2) m1 m2) as Hm' by (rewrite Hm; unfold put_level; by destruct q1).
  pose proof (RB.wf_sorted r Hw side) as Hs. rewrite Hm in Hs.
  pose proof (sorted_distinct _ _ _ _ _ Hs) as (Hn1 & Hn2 & _).
  destruct (sub_level_qty_spec b2 ix lv2 (o_qty o) Lv2) as (b3 & E3 & F3 & S3 & I3 & L3 & Lv3).
  assert (of_ok (OB.fields b3)) as Hok3 by (unfold OB.fields; rewrite S3; apply (FreeListStore.rep_ok _ _ _ R2)).
  assert (recs b3 = recs b2) as Hrecs3 by (unfold recs, OB.fields; by rewrite S3).
  set (lv3 := OB.mkLevel (u64 (OB.lv_qty lv2 - o_qty o)) (OB.lv_head lv2) (OB.lv_tail lv2)) in *.
  assert (OB.level b3 ix = Some lv3) as Hlv3 by (by rewrite Lv3, Z.eqb_refl).
  assert (frame b b3) as Hf3 by (by eapply (frame_trans b b2 b3); [exact F2|]).
  assert (forall o1, o1 ∈ q' -> o_id o1 <> o_id o) as Hoid.
  { intros o1 Ho1 He. rewrite fmap_app, fmap_cons in Hnd. apply NoDup_app in Hnd as (_ & Hdis & [Hno _]%NoDup_cons).
    unfold q' in Ho1. apply elem_of_app in Ho1 as [Ho1|Ho1]; apply (list_elem_of_fmap_2 o_id) in Ho1; rewrite He in Ho1; [|done].
    apply (Hdis _ Ho1). set_solver. }
  assert (level_rep b3 (delete (o_id o) M) side ix q') as Hrep.
  { exists lv3. split; [done|]. split.
    - simpl. rewrite Hsum, u64_sub. unfold q'. rewrite !qsum_app, qsum_cons. f_equal. lia.
    - rewrite Hrecs3. apply (seg_frame (recs b2) _ M); try done. intros o1 Ho1. apply lookup_delete_ne. by apply not_eq_sym, Hoid. }
  assert ((OB.lv_head lv3 =? kNil) = bool_decide (q' = [])) as Hnil3.
  { destruct Hrep as (lv' & Hlv' & _ & Hs'). assert (lv' = lv3) as -> by congruence.
    erewrite seg_head_nil; [|intros o1 t Ho1 Ht|exact Hs'].
    - destruct q'; [by rewrite bool_decide_true|by rewrite bool_decide_false].
    - apply lookup_delete_Some in Ht as [_ Ht]. by eapply core_not_nil. }
  destruct (retire_spec b3 b r cap M fl side p (q1 ++ o :: q2) q' m1 m2 lv3 _ r' ix Hr Hm' ltac:(by destruct q1) eq_refl Hs
    Er' Hf3 Hlv3 Hnil3 Hok3) as (b4 & E4 & S4 & I4 & L4 & G1 & G2 & G3 & G4 & G5 & G6 & G7 & G8).
  destruct (FreeListStore.release_spec (OB.store_ b4) cap fl s) as (st & E5 & R5 & v & U5); [by rewrite S4, S3|done|done|].
  exists b4, st, r'. split; [|split; [done|split; [done|]]].
  - unfold OB.unlink. change (OB.fields b0) with (OB.fields b). pose proof (core_ok _ _ _ _ Hc) as Hok.
    rewrite of_rec_level, of_rec_next, of_rec_prev by done. unfold recs in Hx. rewrite Hx. simpl.
    destruct Hst as (Q1 & Q2 & Q3 & Q4). rewrite Q3. change (OB.level b0 ix) with (OB.level b ix). rewrite Hlv. simpl.
    change (OB.fields b0) with (OB.fields b) in E1. simpl in E1. rewrite E1. simpl. rewrite Elv1. simpl. rewrite E2. simpl.
    rewrite of_rec_qty by apply (FreeListStore.rep_ok _ _ _ R2). unfold recs in Hx2. rewrite Hx2. simpl. rewrite Q1, E3. simpl.
    rewrite Hlv3. cbn [mbind option_bind]. rewrite Hnil3.
    rewrite of_rec_side by done. unfold recs in Hrecs3. rewrite Hrecs3, Hx2. simpl. rewrite Q4. exact E4.
  - rewrite Er'. assert (forall t, t <> s -> recs (OB.with_store b4 st) t = recs b2 t) as Hrec.
    { intros t Ht. unfold recs, OB.fields. simpl. rewrite (upd_ne _ _ _ _ _ U5 Ht). by rewrite S4, S3. }
    assert (forall t, t <> s -> r_id <$> recs (OB.with_store b4 st) t = r_id <$> recs b t) as Hrid.
    { intros t Ht. rewrite Hrec, U2 by done. repeat case_match; try done; by destruct (recs b t). }
    apply (rel_put_level b r cap M fl side p (q1 ++ o :: q2) q' m1 m2); try done.
    + intros Hp. by destruct (opposite_ne side (price_side r _ _ p Hw Hp (elem_prices _ _ _ Hin))).
    + by rewrite <- Er'.
    + apply (core_delete b _ cap M fl); try done. simpl. rewrite I4, I3, I2. done.
    + intros k. destruct (decide (k = o_id o)) as [->|Hne].
      * rewrite !lookup_delete_eq. by split; intros [? ?].
      * rewrite !lookup_delete_ne by done. apply (rel_dom _ _ _ _ _ Hr).
    + simpl. by rewrite L4, L3, L2.
    + intros j Hj. change (OB.level (OB.with_store b4 st) j) with ((OB.levels_ b4).[j]). rewrite L4.
      fold (OB.level b3 j). rewrite Lv3, (proj2 (Z.eqb_neq _ _)) by done. by apply O2.
    + intros k t Hk Hn. rewrite lookup_delete_ne; [done|]. intros <-. apply Hn, list_elem_of_fmap_2. set_solver.
    + intros k t Hk Hn. rewrite Hrec.
      * rewrite U2. destruct (decide (q1 = [])) as [Hq1|Hq1], (decide (q2 = [])) as [Hq2|Hq2];
          rewrite ?(bool_decide_true (q1 = [])), ?(bool_decide_false (q1 = [])), ?(bool_decide_true (q2 = [])),
            ?(bool_decide_false (q2 = [])) by done; simpl; try done;
          rewrite ?(proj2 (Z.eqb_neq t (r_prev x))), ?(proj2 (Z.eqb_neq t (r_next x))); try done; intros ->; apply Hn.
        -- destruct (N8 Hq2) as (o2 & Ho2 & Hm2). rewrite (Hinj _ _ _ Hk Hm2). apply list_elem_of_fmap_2. set_solver.
        -- destruct (N7 Hq1) as (o1 & Ho1 & Hm1). rewrite (Hinj _ _ _ Hk Hm1). apply list_elem_of_fmap_2. set_solver.
        -- destruct (N8 Hq2) as (o2 & Ho2 & Hm2). rewrite (Hinj _ _ _ Hk Hm2). apply list_elem_of_fmap_2. set_solver.
        -- destruct (N7 Hq1) as (o1 & Ho1 & Hm1). rewrite (Hinj _ _ _ Hk Hm1). apply list_elem_of_fmap_2. set_solver.
      * intros ->. apply Hn. rewrite (Hinj _ _ _ Hk HM). apply list_elem_of_fmap_2. set_solver.
    + fold ix. apply (level_rep_frame b3 _ (delete (o_id o) M)); [by unfold OB.level; simpl; rewrite L4|done| |done].
      intros o1 t Ho1 Ht. rewrite Hrec, Hrecs3; [done|]. intros ->. apply lookup_delete_Some in Ht as [Hne Ht].
      by apply Hne, (Hinj _ _ _ HM Ht).
Qed.

End refine.
End BookRefine.
