(* ===== verification/BookEquiv.v ===== *)
(** * The two books give the same events

    The operations of the order book against those of the reference book, on top of the relation of BookRefine: one
    step, sequences of commands, the queries and the structural audit; and the two conditions that the comparison of
    unprotected fill-or-kill orders needs. *)
From Stdlib Require Import Sorted.
From S2P Require Import Prelude Common Interfaces OrderStore ReferenceBook OrderBook BookRefine.
Import ReferenceBook (Order, mkOrder, o_id, o_qty, o_owner).
Import BookRefine.

Module BookEquiv.

Section equiv.
Context {S I B : Type} {OF : OrderFields S} {OFL : OrderFieldsLaws S} {IX : IdIndex I} {IXL : IdIndexLaws I}
  {LS : LevelSet B} {LSL : LevelSetLaws B}.
Abbreviation book := (OB.t S I B).
Implicit Types (b : book) (r : RB.t) (M : gmap Z Z) (fl : list Z) (m : list (Z * list Order)).

(** ** Amending in place *)

Lemma seg_set_qty ρ ρ' M side ix h q1 o q2 last s v : seg ρ M side ix kNil h (q1 ++ o :: q2) last kNil ->
  slots_inj M -> NoDup (o_id <$> q1 ++ o :: q2) -> M !! o_id o = Some s -> upd s (rec_set_qty v) ρ ρ' ->
  seg ρ' M side ix kNil h (q1 ++ RB.set_qty o v :: q2) last kNil.
Proof.
  intros Hs Hinj Hnd HM Hu. rewrite fmap_app, fmap_cons in Hnd. apply NoDup_app in Hnd as (_ & Hdis & [Hno _]%NoDup_cons).
  apply seg_app in Hs as (l1 & h2 & H1 & HM2 & x & Hx & (S1 & S2 & S3 & S4) & Hp & H2). assert (h2 = s) as -> by congruence.
  apply seg_app. exists l1, s. split.
  - apply (seg_frame ρ _ M); try done. intros o1 t Ho1 Ht. apply (upd_ne _ _ _ _ _ Hu). intros ->.
    apply (Hdis (o_id o1)); [by apply list_elem_of_fmap_2|]. rewrite (Hinj _ _ _ Ht HM). set_solver.
  - split; [done|]. exists (rec_set_qty v x). split; [by apply (upd_eq _ _ _ _ _ Hu)|]. split; [done|]. split; [done|].
    apply (seg_frame ρ _ M); try done. intros o2 t Ho2 Ht. apply (upd_ne _ _ _ _ _ Hu). intros ->.
    apply Hno. rewrite <- (Hinj _ _ _ Ht HM). by apply list_elem_of_fmap_2.
Qed.

Lemma amend_spec b r cap M fl id l s o v : rel b r cap M fl -> RB.index_ r !! id = Some l -> M !! id = Some s ->
  RB.deref r l id = Some o -> 0 < v ->
  exists b1 b2 q, OB.sub_level_qty b (RB.l_price l - OB.min_price_ b) (o_qty o - v) = Some b1 /\
    OB.upd_fields b1 (of_set_qty (OB.fields b1) s v) = Some b2 /\
    RB.map_find (RB.book r (RB.l_side l)) (RB.l_price l) = Some q /\
    rel b2 (RB.set_book r (RB.l_side l) (RB.map_put (RB.book r (RB.l_side l)) (RB.l_price l) (RB.queue_update q id v)) (RB.index_ r))
      cap M fl.
Proof.
  intros Hr Hl HM Hde Hv. pose proof (rel_wf _ _ _ _ _ Hr) as Hw. pose proof (rel_core _ _ _ _ _ Hr) as Hc.
  destruct (RB.deref_spec r id l Hw Hl) as (m1 & q1 & o' & q2 & m2 & Hm & Hid & Hd' & Hf & _ & Hput & Hupd).
  assert (o' = o) as -> by congruence. destruct (RB.wf_amend r id l v Hw Hl Hv) as (q & Hfq & Hw').
  rewrite Hf in Hfq. injection Hfq as <-. rewrite Hupd in *.
  set (side := RB.l_side l) in *. set (p := RB.l_price l) in *. set (ix := p - OB.min_price_ b).
  assert ((p, q1 ++ o :: q2) ∈ RB.book r side) as Hin by (rewrite Hm; set_solver).
  destruct (rel_level _ _ _ _ _ Hr side p _ Hin) as (lv & Hlv & Hsum & Hseg). fold ix in Hlv, Hseg.
  pose proof (queue_ids r side p _ Hw Hin) as Hnd. subst id.
  destruct (sub_level_qty_spec b ix lv (o_qty o - v) Hlv) as (b1 & E1 & F1 & S1 & I1 & L1 & Lv1).
  destruct (set_qty_spec b1 cap M fl (o_id o) s v) as (b2 & E2 & C2 & F2 & L2 & U2); [by apply (core_same b)|done|].
  assert (recs b1 = recs b) as Hr1 by (unfold recs, OB.fields; by rewrite S1). rewrite Hr1 in U2.
  exists b1, b2, (q1 ++ o :: q2). split; [done|]. split; [done|]. split; [done|].
  rewrite Hupd, Hput. fold (put_level p (q1 ++ RB.set_qty o v :: q2) m1 m2). rewrite Hput in Hw'.
  pose proof (frame_trans _ _ _ F1 F2) as F. pose proof F as (G1 & G2 & G3 & G4 & G5 & G6 & G7 & G8).
  pose proof (RB.wf_sorted r Hw side) as Hs. rewrite Hm in Hs. apply sorted_distinct in Hs as (Hn1 & Hn2 & _).
  assert (RB.book r side = put_level p (q1 ++ o :: q2) m1 m2) as Hm' by (rewrite Hm; unfold put_level; by destruct q1).
  assert (slots_inj M) as Hinj by (intros k k' t; apply (core_inj _ _ _ _ _ _ _ Hc)).
  apply (rel_put_level b r cap M fl side p (q1 ++ o :: q2) (q1 ++ RB.set_qty o v :: q2) m1 m2); try done.
  - intros Hp. by destruct (opposite_ne side (price_side r _ _ p Hw Hp (elem_prices _ _ _ Hin))).
  - apply (rel_dom _ _ _ _ _ Hr).
  - by rewrite L2, L1.
  - intros j Hj. unfold OB.level at 1. rewrite L2. fold (OB.level b1 j). by rewrite Lv1, (proj2 (Z.eqb_neq _ _)).
  - intros k t Hk Hn. apply (upd_ne _ _ _ _ _ U2). intros ->. apply Hn. rewrite (Hinj _ _ _ Hk HM). apply list_elem_of_fmap_2. set_solver.
  - exists (OB.mkLevel (u64 (OB.lv_qty lv - (o_qty o - v))) (OB.lv_head lv) (OB.lv_tail lv)). fold ix. split; [|split].
    + unfold OB.level. rewrite L2. fold (OB.level b1 ix). by rewrite Lv1, Z.eqb_refl.
    + simpl. rewrite Hsum, u64_sub, !qsum_app, !qsum_cons. simpl. f_equal. lia.
    + simpl. by apply (seg_set_qty (recs b) _ _ _ _ _ _ _ _ _ s).
  - by destruct side.
  - by destruct side.
  - rewrite (best_frame _ _ side F), (rel_best _ _ _ _ _ Hr), Hm'. unfold put_level. destruct q1, m1; done.
  - apply (bits_frame b); [done|]. destruct (rel_bits _ _ _ _ _ Hr side) as (X & HX & HX'). exists X. split; [done|].
    intros i. rewrite HX', Hm', !put_level_prices. destruct q1; naive_solver.
Qed.

(** ** The operations *)

Lemma lookup_spec b r cap M fl id : rel b r cap M fl -> OB.key_of b = OB.key_of b ->
  OB.contains b id = Some (RB.contains r id) /\
  exists s, ix_find (OB.ids_ b) id (OB.key_of b) = Some s /\ s = default kNil (M !! id) /\
    (s =? kNil) = negb (RB.contains r id).
Proof.
  intros Hr _. pose proof (rel_core _ _ _ _ _ Hr) as Hc.
  pose proof (ix_rep_find _ _ _ id _ (core_ids _ _ _ _ Hc) (core_keys _ _ _ _ Hc)) as Hf.
  assert ((default kNil (M !! id) =? kNil) = negb (RB.contains r id)) as Hn.
  { unfold RB.contains. pose proof (rel_dom _ _ _ _ _ Hr id) as Hd. destruct (M !! id) as [s|] eqn:Hs; simpl.
    - rewrite (proj2 (Z.eqb_neq _ _)) by (by eapply core_not_nil). rewrite bool_decide_true; [done|]. apply Hd. eauto.
    - rewrite bool_decide_false; [done|]. intros Hi%Hd. by destruct Hi. }
  unfold OB.contains. rewrite Hf. simpl. rewrite Hn, negb_involutive. eauto.
Qed.

(** What the comparison needs of a command: its price does not overflow the subtraction, its quantity is unsigned, and
    a fill-or-kill order without self-trade prevention does not meet a wrapped aggregate. *)
Definition fok_ok r (c : Command) : Prop :=
  c_type c = NewOrder -> c_tif c = Fok -> effective_stp (c_flags c) (RB.stp_ r) = StpNone -> agg_ok r.
Record cmd_ok r (c : Command) : Prop := {
  ck_price : in_i64 (c_price c - RB.min_price_ r);
  ck_qty : 0 <= c_qty c;
  ck_fok : fok_ok r c;
}.

Lemma sub_price_ok a c : in_i64 (a - c) -> sub_price a c = Some (a - c).
Proof. unfold in_i64, sub_price. intros Hi. rewrite (proj2 (Z.leb_le _ _)), (proj2 (Z.ltb_lt _ _)) by lia. done. Qed.

Lemma band_spec b r cap M fl px : rel b r cap M fl ->
  (px - OB.min_price_ b <? 0) || (OB.n_ b <=? px - OB.min_price_ b) = RB.out_of_band r px.
Proof.
  intros Hr. unfold RB.out_of_band. rewrite (rel_max _ _ _ _ _ Hr), <- (rel_min _ _ _ _ _ Hr). lia.
Qed.

Lemma match_index r taker owner side limit qty stp r' q' stop es id : RB.wf r -> 0 <= qty ->
  RB.match_ r taker owner side limit qty stp = (r', q', stop, es) -> RB.index_ r !! id = None -> RB.index_ r' !! id = None.
Proof.
  intros Hw Hq He Hid. destruct (RB.wf_match _ _ _ _ _ _ _ _ _ _ _ Hw Hq He) as (_ & _ & _ & _ & Hi & _).
  apply eq_None_not_Some. intros Hs%Hi. rewrite Hid in Hs. by destruct Hs.
Qed.

(** A match and, for a remainder, what follows it. *)
Lemma rest_after b r cap M fl taker owner side ix qty stp r' left_ es b' M' fl' r2 es2 ts :
  rel b r cap M fl -> 0 <= ix < OB.n_ b -> 0 <= qty -> RB.index_ r !! taker = None ->
  RB.match_ r taker owner side (OB.min_price_ b + ix) qty stp = (r', left_, false, es) -> left_ <> 0 ->
  rel b' r' cap M' fl' -> RB.rest r' taker owner side (OB.min_price_ b + ix) left_ = (r2, es2) ->
  exists b2, OB.rest b' side taker owner ix left_ ts = Some (b2, es2) /\ R b2 r2.
Proof.
  intros Hr Hix Hq Hid Hm Hl Hr' Hrest. pose proof (rel_wf _ _ _ _ _ Hr) as Hw.
  destruct (RB.wf_match _ _ _ _ _ _ _ _ _ _ _ Hw Hq Hm) as (_ & (C1 & C2 & C3 & _) & Hle & _ & _ & Hend & _).
  pose proof (rel_min _ _ _ _ _ Hr). pose proof (rel_min _ _ _ _ _ Hr'). pose proof (rel_max _ _ _ _ _ Hr).
  pose proof (rel_max _ _ _ _ _ Hr'). assert (OB.min_price_ b = OB.min_price_ b') as Em by congruence. rewrite Em in *.
  destruct (rest_spec side b' r' cap M' fl' taker owner ix left_ ts r2 es2 Hr') as (b2 & M2 & fl2 & ? & ?); try done.
  - lia.
  - lia.
  - by eapply match_index.
  - by destruct Hend as [?|[?|?]].
  - exists b2. split; [done|]. by exists cap, M2, fl2.
Qed.

Lemma add_refines b r c : R b r -> cmd_ok r c -> c_type c = NewOrder ->
  exists b' r' es, OB.add b c = Some (b', es) /\ RB.add r c = (r', es) /\ R b' r'.
Proof.
  intros HR [Hpx Hqty Hfok] Hty. pose proof HR as (cap & M & fl & Hr). pose proof (rel_wf _ _ _ _ _ Hr) as Hw.
  pose proof (rel_n _ _ _ _ _ Hr) as [Hn _]. pose proof (rel_min _ _ _ _ _ Hr) as Emin. pose proof (rel_max _ _ _ _ _ Hr) as Emax.
  destruct (lookup_spec b r cap M fl (c_order_id c) Hr eq_refl) as (_ & sl & Hf & _ & Hnil).
  unfold OB.add, RB.add. fold (RB.limit_of r c). destruct (c_order_id c =? 0); [eauto 10|]. destruct (Z.eqb_spec (c_qty c) 0) as [|Hq0]; [eauto 10|].
  set (market := bool_decide (c_ord_type c = Market)).
  set (ix := if market then match c_side c with Buy => OB.n_ b - 1 | Sell => 0 end else c_price c - OB.min_price_ b).
  assert ((if market then Some (match c_side c with Buy => OB.n_ b - 1 | Sell => 0 end)
    else sub_price (c_price c) (OB.min_price_ b)) = Some ix) as ->.
  { unfold ix. destruct market; [done|]. apply sub_price_ok. by rewrite Emin. }
  cbn [mbind option_bind].
  assert (negb market && ((ix <? 0) || (OB.n_ b <=? ix)) = negb market && RB.out_of_band r (c_price c)) as ->.
  { unfold ix. destruct market; [done|]. simpl. by apply (band_spec b r cap M fl). }
  destruct (negb market && RB.out_of_band r (c_price c)) eqn:Eob; [eauto 10|].
  rewrite Hf. cbn [mbind option_bind]. rewrite Hnil, negb_involutive.
  destruct (RB.contains r (c_order_id c)) eqn:Ec; [eauto 10|]. apply RB.contains_false in Ec.
  pose proof (RB.limit_band r c ltac:(lia) Eob) as Hlim.
  assert (OB.min_price_ b + ix = RB.limit_of r c) as Elim.
  { unfold RB.limit_of. fold market. unfold ix. destruct market; [destruct (c_side c)|]; lia. }
  assert (0 <= ix < OB.n_ b) as Hix by lia.
  rewrite (crosses_spec _ _ _ _ _ _ _ Hr Hix), Elim.
  destruct (negb (Z.land (c_flags c) kFlagPostOnly =? 0) && RB.crosses r (c_side c) (RB.limit_of r c)); [eauto 10|].
  rewrite (rel_symbol _ _ _ _ _ Hr), (rel_stp _ _ _ _ _ Hr). set (stp := effective_stp (c_flags c) (RB.stp_ r)).
  set (px := if market then 0 else c_price c).
  assert ((if bool_decide (c_tif c = Fok) then a ← OB.fillable (c_side c) (c_owner c) ix stp b (c_qty c); Some (negb a)
    else Some false) = Some (bool_decide (c_tif c = Fok) && negb (RB.fillable r (c_side c) (RB.limit_of r c) (c_qty c) (c_owner c) stp)))
    as ->.
  { case_bool_decide as Hfk; [|done]. rewrite (fillable_spec (c_side c) (c_owner c) ix stp b r cap M fl); try done; [by rewrite Elim|lia|].
    intros Hs. by apply Hfok. }
  cbn [mbind option_bind]. destruct (_ && negb (RB.fillable _ _ _ _ _ _)); [eauto 10|].
  destruct (RB.match_ r _ _ _ _ _ _) as [[[r1 left_] stop] es] eqn:Em. rewrite <- Elim in Em.
  destruct (sweep_spec _ _ _ _ _ _ _ _ _ _ _ _ _ _ _ Hr Hix Hqty Em) as (b1 & M1 & fl1 & -> & Hr1).
  cbn [mbind option_bind]. assert (R b1 r1) as HR1 by (by exists cap, M1, fl1).
  rewrite (rel_symbol _ _ _ _ _ Hr1). destruct (Z.eqb_spec left_ 0); [eauto 10|]. destruct stop; [eauto 10|].
  destruct (market || negb (bool_decide (c_tif c = Day))); [eauto 10|]. rewrite <- Elim.
  destruct (RB.rest r1 _ _ _ _ _) as [r2 es2] eqn:Er.
  destruct (rest_after b r cap M fl _ _ _ _ _ _ _ _ _ b1 M1 fl1 r2 es2 (c_ts c) Hr Hix Hqty Ec Em) as (b2 & -> & HR2); try done.
  simpl. eauto 10.
Qed.

Lemma cancel_refines b r c : R b r ->
  exists b' r' es, OB.cancel b c = Some (b', es) /\ RB.cancel r c = Some (r', es) /\ R b' r'.
Proof.
  intros HR. pose proof HR as (cap & M & fl & Hr). pose proof (rel_core _ _ _ _ _ Hr) as Hc.
  destruct (ix_rep_erase _ _ _ (c_order_id c) _ (core_ids _ _ _ _ Hc) (core_keys _ _ _ _ Hc)) as (ids' & He & Hids).
  unfold OB.cancel, RB.cancel. rewrite He. cbn [mbind option_bind].
  destruct (RB.index_ r !! c_order_id c) as [l|] eqn:Hl.
  - destruct (resting_spec _ _ _ _ _ _ _ Hr Hl) as (s & x & o & HM & Hx & -> & Hid & (Q1 & Q2 & Q3 & Q4) & Hsn & Hsr & Hsf).
    rewrite HM. simpl. rewrite (proj2 (Z.eqb_neq _ _)) by done. pose proof (core_ok _ _ _ _ Hc) as Hok. unfold recs in Hx.
    change (OB.fields (OB.with_ids b ids')) with (OB.fields b).
    rewrite of_rec_side, of_rec_qty, of_rec_level, Hx by done. simpl.
    destruct (take_out_spec _ _ _ _ _ _ _ _ _ Hr Hl HM Hids) as (b1 & st & r' & -> & Hst & Hrem & Hr'). simpl. rewrite Hst. simpl. rewrite Hrem. simpl.
    eexists _, _, _. split; [done|]. split; [|by eexists _, _, _].
    destruct (RB.wf_remove r _ l (rel_wf _ _ _ _ _ Hr) Hl) as (r'' & Hrem' & _ & (Esym & _) & _).
    assert (r'' = r') as -> by congruence. pose proof (rel_symbol _ _ _ _ _ Hr') as Hs'. simpl in Hs'. rewrite Hs', Esym.
    rewrite Q1, Q3, Q4. replace (OB.min_price_ b + (RB.l_price l - OB.min_price_ b)) with (RB.l_price l) by lia. done.
  - assert (M !! c_order_id c = None) as HM.
    { apply eq_None_not_Some. intros Hs%(rel_dom _ _ _ _ _ Hr). rewrite Hl in Hs. by destruct Hs. }
    rewrite HM in *. simpl. eexists _, _, _. split; [done|]. split; [done|]. rewrite delete_id in Hids by done.
    exists cap, M, fl. destruct Hr as [R1 R2 R3 R4 R5 R6 R7 R8 [C1 C2 C3 C4] R10 R11 R12 R13 R14]. split; try done.
Qed.

Lemma modify_refines b r c : R b r -> cmd_ok r c ->
  exists b' r' es, OB.modify b c = Some (b', es) /\ RB.modify r c = Some (r', es) /\ R b' r'.
Proof.
  intros HR [Hpx Hqty _]. pose proof HR as (cap & M & fl & Hr). pose proof (rel_core _ _ _ _ _ Hr) as Hc.
  pose proof (rel_wf _ _ _ _ _ Hr) as Hw. pose proof (rel_min _ _ _ _ _ Hr) as Emin.
  unfold OB.modify, RB.modify. destruct (Z.eqb_spec (c_qty c) 0) as [|Hq0]; [eauto 10|].
  destruct (lookup_spec b r cap M fl (c_order_id c) Hr eq_refl) as (_ & sl & -> & Esl & Hnil). cbn [mbind option_bind].
  destruct (RB.index_ r !! c_order_id c) as [l|] eqn:Hl.
  2: { rewrite Hnil. unfold RB.contains. rewrite Hl, bool_decide_false by (by intros [? ?]). simpl. eauto 10. }
  destruct (resting_spec _ _ _ _ _ _ _ Hr Hl) as (s & x & o & HM & Hx & Hde & Hid & (Q1 & Q2 & Q3 & Q4) & Hsn & Hsr & Hsf).
  assert (sl = s) as -> by (by rewrite HM in Esl). clear Esl Hnil. rewrite (proj2 (Z.eqb_neq _ _)) by done.
  rewrite (sub_price_ok (c_price c)) by (by rewrite Emin). cbn [mbind option_bind].
  rewrite (band_spec b r cap M fl) by done. destruct (RB.out_of_band r (c_price c)) eqn:Eob; [eauto 10|].
  unfold RB.out_of_band in Eob. pose proof (core_ok _ _ _ _ Hc) as Hok. unfold recs in Hx.
  rewrite of_rec_side, of_rec_level, of_rec_qty, of_rec_owner, Hx, Hde by done. simpl.
  rewrite Q1, Q2, Q3, Q4, (rel_symbol _ _ _ _ _ Hr).
  assert ((c_price c - OB.min_price_ b =? RB.l_price l - OB.min_price_ b) = (c_price c =? RB.l_price l)) as -> by lia.
  destruct ((c_price c =? RB.l_price l) && (c_qty c <=? o_qty o)) eqn:Eam.
  - apply andb_prop in Eam as [Hp%Z.eqb_eq Hq].
    destruct (amend_spec b r cap M fl _ l s o (c_qty c) Hr Hl HM Hde) as (b1 & b2 & q & E1 & E2 & Hf & Hr2); [lia|].
    rewrite <- Hp in E1. rewrite E1. simpl. rewrite E2. simpl. rewrite Hf. simpl.
    eexists _, _, _. split; [done|]. split; [done|]. by eexists _, _, _.
  - destruct (ix_rep_erase_known _ _ _ _ _ (core_ids _ _ _ _ Hc) HM) as (ids' & -> & Hids). simpl.
    destruct (take_out_spec _ _ _ _ _ _ _ _ _ Hr Hl HM Hids) as (b1 & st & r1 & -> & Hst & Hrem & Hr1). simpl. rewrite Hst. simpl.
    rewrite Hrem. simpl. destruct (RB.wf_remove r _ l Hw Hl) as (r1' & Hrem' & Hw1 & (C1 & C2 & C3 & C4 & C5) & Hi1).
    assert (r1' = r1) as -> by congruence. set (b1s := OB.with_store b1 st) in *.
    pose proof (rel_min _ _ _ _ _ Hr1) as Emin1. pose proof (rel_max _ _ _ _ _ Hr1) as Emax1. pose proof (rel_max _ _ _ _ _ Hr) as Emax.
    set (ix := c_price c - OB.min_price_ b). assert (OB.min_price_ b1s + ix = c_price c) as Eix by (unfold ix; lia).
    assert (0 <= ix < OB.n_ b1s) as Hix by (unfold ix; to_prop; lia).
    unfold OB.reenter. rewrite (rel_stp _ _ _ _ _ Hr1).
    destruct (RB.match_ r1 _ _ _ _ _ _) as [[[r2 left_] stop] es] eqn:Em. rewrite <- Eix in Em.
    destruct (sweep_spec _ _ _ _ _ _ _ _ _ _ _ _ _ _ _ Hr1 Hix Hqty Em) as (b2 & M2 & fl2 & -> & Hr2).
    simpl. assert (R b2 r2) as HR2 by (by exists cap, M2, fl2).
    destruct (Z.eqb_spec left_ 0); simpl; [eauto 10|].
    assert (OB.min_price_ b2 + ix = c_price c) as Eix2.
    { destruct (RB.wf_match _ _ _ _ _ _ _ _ _ _ _ Hw1 Hqty Em) as (_ & (_ & D2 & _) & _).
      pose proof (rel_min _ _ _ _ _ Hr2). unfold ix. lia. }
    rewrite (rel_symbol _ _ _ _ _ Hr2), Eix2. destruct stop; simpl; [eauto 10|]. rewrite <- Eix.
    destruct (RB.rest r2 _ _ _ _ _) as [r3 es3] eqn:Er.
    assert (RB.index_ r1 !! c_order_id c = None) as Hn1 by (rewrite Hi1; apply lookup_delete_eq).
    destruct (rest_after b1s r1 cap _ _ _ _ _ _ _ _ _ _ _ b2 M2 fl2 r3 es3 (c_ts c) Hr1 Hix Hqty Hn1 Em) as (b3 & -> & HR3); try done.
    simpl. eauto 10.
Qed.

Theorem step_refines b r c : R b r -> cmd_ok r c ->
  exists b' r' es, OB.step b c = Some (b', es) /\ RB.step r c = Some (r', es) /\ R b' r'.
Proof.
  intros HR Hc. unfold OB.step, RB.step. destruct (c_type c) eqn:Ht.
  - destruct (add_refines b r c HR Hc Ht) as (b' & r' & es & -> & -> & ?). eauto 10.
  - by apply cancel_refines.
  - by apply modify_refines.
Qed.

(** ** Construction *)

Definition cfg_ok (cfg : BookConfig) : Prop :=
  level_count_ok (cfg_num_levels cfg) /\ 0 < cfg_max_orders cfg < kNil /\
  in_i64 (cfg_min_price cfg) /\ in_i64 (cfg_min_price cfg + cfg_num_levels cfg).

Lemma make_refines symbol cfg : cfg_ok cfg -> exists b, OB.make symbol cfg = Some b /\ R b (RB.make symbol cfg).
Proof.
  intros (Hn & Hm & _). unfold OB.make. destruct (ls_rep_make _ Hn) as (x & Hx & Hrep). rewrite Hx. simpl.
  destruct (FreeListStore.make_spec (cfg_max_orders cfg) Hm) as (st & -> & Hst). simpl.
  rewrite (proj2 (Z.eqb_neq _ _)), (proj2 (Z.leb_gt _ _)) by lia. simpl. eexists. split; [done|].
  exists (cfg_max_orders cfg), ∅, (seqZ 0 (cfg_max_orders cfg)). destruct Hn as [Hn Hn'].
  assert (forall P : list Z, P = [] -> forall i, i ∈ (∅ : gset Z) <-> cfg_min_price cfg + i ∈ P) as Hno.
  { intros P -> i. rewrite elem_of_nil. set_solver. }
  split; simpl; try done.
  - apply alen_amake. lia.
  - apply RB.make_wf. lia.
  - split; simpl; try done.
    + by apply ix_rep_make.
    + rewrite map_size_empty, length_seqZ. lia.
  - intros id. rewrite !lookup_empty. by split; intros [? ?].
  - intros []; exists ∅; (split; [done|by apply Hno]).
  - by intros [].
  - intros [] p q ?%elem_of_nil; done.
  - intros i Hi _. by apply aget_amake.
Qed.


(** ** Sequences of commands *)

Fixpoint run_ok r (cs : list Command) : Prop :=
  match cs with
  | [] => True
  | c :: cs => cmd_ok r c /\ forall r' es, RB.step r c = Some (r', es) -> run_ok r' cs
  end.

Lemma run_refines cs : forall b r, R b r -> run_ok r cs ->
  exists b' r' es, OB.run b cs = Some (b', es) /\ RB.run r cs = Some (r', es) /\ R b' r'.
Proof.
  induction cs as [|c cs IH]; intros b r HR Hok; simpl; [eauto 10|]. destruct Hok as [Hc Hok].
  destruct (step_refines b r c HR Hc) as (b1 & r1 & es1 & -> & Hs & HR1). rewrite Hs. simpl.
  destruct (IH b1 r1 HR1 (Hok _ _ Hs)) as (b2 & r2 & es2 & -> & -> & HR2). simpl. eauto 10.
Qed.

End equiv.

(** ** Conditions on the commands alone *)

(** [c]'s price does not overflow the book's subtraction. *)
Definition price_ok (cfg : BookConfig) (c : Command) : Prop := in_i64 (c_price c - cfg_min_price cfg) /\ 0 <= c_qty c.

(** Either no fill-or-kill order runs without self-trade prevention ... *)
Definition protected (cfg : BookConfig) (c : Command) : Prop :=
  c_type c = NewOrder -> c_tif c = Fok -> effective_stp (c_flags c) (cfg_stp cfg) <> StpNone.

(** ... or quantities are so small that no level aggregate can wrap. *)
Definition small (cfg : BookConfig) (c : Command) : Prop := c_qty c * cfg_max_orders cfg < 18446744073709551616.

Definition config_of (cfg : BookConfig) (r : RB.t) : Prop :=
  RB.min_price_ r = cfg_min_price cfg /\ RB.stp_ r = cfg_stp cfg /\ RB.capacity_ r = cfg_max_orders cfg /\
  RB.min_price_ r <= RB.max_price_ r.

Lemma config_step cfg r r' : config_of cfg r -> RB.same_cfg r r' -> config_of cfg r'.
Proof. intros (? & ? & ? & ?) (? & E2 & E3 & ? & ?). unfold config_of. rewrite E2, E3. intuition congruence. Qed.

Lemma protected_run cfg cs : forall r, RB.wf r -> config_of cfg r ->
  Forall (fun c => price_ok cfg c /\ protected cfg c) cs -> run_ok r cs.
Proof.
  induction cs as [|c cs IH]; intros r Hw Hcfg Hcs; [done|]. apply Forall_cons in Hcs as [[[Hp Hq] Hs] Hcs].
  pose proof Hcfg as (E1 & E2 & E3 & E4). split.
  - split; [by rewrite E1|done|]. intros Ht Hf He. rewrite E2 in He. by destruct (Hs Ht Hf).
  - intros r' es Hst. destruct (RB.step_ok r c Hw E4 Hq) as (r1 & es1 & Hst' & Hw' & Hc').
    assert (r1 = r') as -> by congruence. apply IH; try done. by eapply config_step.
Qed.

(** *** Bounded quantities *)

Definition bounded (Q : Z) (m : list (Z * list Order)) : Prop :=
  Forall (fun x => Forall (fun o => o_qty o <= Q) x.2) m.
Definition bounded_book (Q : Z) (r : RB.t) : Prop := forall s, bounded Q (RB.book r s).

Lemma swept_bounded Q gone m m' : RB.swept gone m m' -> bounded Q m -> bounded Q m'.
Proof.
  unfold bounded. intros (m1 & m2 & -> & [[-> ->]|(p & q & q' & tl & g & -> & -> & Hn & Ht & ->)]);
    rewrite Forall_app; [naive_solver|]. rewrite !Forall_cons. simpl. intros (_ & Hq & Htl). split; [|done].
  destruct Ht as [->|(o & t & v & -> & -> & Hv)]; rewrite Forall_app in Hq; [naive_solver|].
  rewrite !Forall_cons in *. simpl. destruct Hq as (_ & ? & ?). split; [lia|done].
Qed.

Lemma set_book_bounded Q r s m i : bounded_book Q r -> bounded Q m -> bounded_book Q (RB.set_book r s m i).
Proof.
  intros Hb Hm s'. destruct (side_cases s s') as [->| ->]; [by rewrite RB.book_set_eq|].
  rewrite RB.book_set_ne by apply opposite_ne. apply Hb.
Qed.

Lemma match_bounded Q r taker owner side limit qty stp r' q' stop es : RB.wf r -> 0 <= qty -> bounded_book Q r ->
  RB.match_ r taker owner side limit qty stp = (r', q', stop, es) -> bounded_book Q r'.
Proof.
  intros Hw Hq Hb. unfold RB.match_. destruct (RB.match_side _ _ _ _ _ _ _ _ _) as [m x] eqn:E. intros [= <- <- <- <-].
  destruct (RB.match_side_spec _ _ _ _ _ _ _ _ _ _ _ Hq (RB.wf_pos r Hw _) E) as (gone & Hs & _).
  apply set_book_bounded; [done|]. eapply swept_bounded; [done|]. apply Hb.
Qed.

Lemma push_bounded Q s m p o : bounded Q m -> o_qty o <= Q -> bounded Q (RB.map_push_back s m p o).
Proof.
  unfold bounded. intros Hm Ho. induction m as [|[p0 q] m IH]; simpl; [repeat constructor; done|].
  apply Forall_cons in Hm as [Hq Hm]. simpl in Hq. destruct (p0 =? p).
  - constructor; [|done]. simpl. apply Forall_app. by rewrite Forall_singleton.
  - destruct (RB.before s p p0); repeat constructor; simpl; auto.
Qed.

Lemma rest_bounded Q r id owner side px qty r' es : bounded_book Q r -> qty <= Q ->
  RB.rest r id owner side px qty = (r', es) -> bounded_book Q r'.
Proof.
  intros Hb Hq. unfold RB.rest. case_if; intros [= <- <-]; [done|]. apply set_book_bounded; [done|].
  by apply push_bounded, Hq; apply Hb.
Qed.

Lemma put_bounded Q (m : list (Z * list Order)) p q' : bounded Q m -> Forall (fun o => o_qty o <= Q) q' ->
  bounded Q (RB.map_put m p q').
Proof.
  unfold bounded. intros Hm Hq. induction m as [|[p0 q] m IH]; simpl; [done|]. apply Forall_cons in Hm as [Hq0 Hm].
  destruct (p0 =? p); [destruct q'; [done|by constructor]|constructor; auto].
Qed.

Lemma find_bounded Q m p q : bounded Q m -> RB.map_find m p = Some q -> Forall (fun o => o_qty o <= Q) q.
Proof.
  intros Hm Hf. destruct (RB.map_find_split _ _ _ Hf) as (m1 & m2 & -> & _). unfold bounded in Hm.
  rewrite Forall_app, Forall_cons in Hm. by destruct Hm as (_ & ? & _).
Qed.

Lemma remove_bounded Q r l id r' : bounded_book Q r -> RB.remove r l id = Some r' -> bounded_book Q r'.
Proof.
  intros Hb He. unfold RB.remove in He. inv_bind. apply set_book_bounded; [done|]. apply put_bounded; [apply Hb|].
  pose proof (find_bounded _ _ _ _ (Hb _) H) as Hq. clear -Hq.
  induction Hq as [|o q Ho Hq IH]; simpl; [constructor|]. destruct (RB.o_id o =? id); [done|by constructor].
Qed.

Lemma match_rest_bounded Q r taker owner side limit qty stp r1 q1 stop es1 id px r2 es2 : RB.wf r -> bounded_book Q r ->
  0 <= qty <= Q -> RB.match_ r taker owner side limit qty stp = (r1, q1, stop, es1) ->
  RB.rest r1 id owner side px q1 = (r2, es2) -> bounded_book Q r2.
Proof.
  intros Hw Hb Hq Hm Hr. eapply rest_bounded; [|..|done]; [by eapply match_bounded; [| | |done]; [|lia|]|].
  destruct (RB.wf_match _ _ _ _ _ _ _ _ _ _ _ Hw (proj1 Hq) Hm) as (_ & _ & ? & _). lia.
Qed.

Lemma step_bounded Q r c r' es : RB.wf r -> bounded_book Q r -> 0 <= c_qty c <= Q -> RB.step r c = Some (r', es) ->
  bounded_book Q r'.
Proof.
  intros Hw Hb Hq. unfold RB.step. destruct (c_type c).
  - intros [= Ha]. unfold RB.add in Ha. repeat (case_match; simplify_eq; try done);
      first [by eapply match_rest_bounded | by eapply match_bounded; [|apply Hq| |done]].
  - unfold RB.cancel. intros Hc. case_match; [|by simplify_eq]. inv_bind. by eapply remove_bounded.
  - unfold RB.modify. intros Hc. do 3 (case_match; simplify_eq; try done). inv_bind. case_match; inv_bind.
    + apply set_book_bounded; [done|]. apply put_bounded; [apply Hb|].
      match goal with Hf : RB.map_find _ _ = Some ?q |- _ => pose proof (find_bounded _ _ _ _ (Hb _) Hf) as Hqs end.
      unfold RB.queue_update. apply Forall_fmap. eapply Forall_impl; [done|]. intros o Ho. simpl.
      destruct (RB.o_id o =? c_order_id c); [simpl; lia|done].
    + destruct (RB.wf_remove r (c_order_id c) l Hw) as (r0 & Hrem & Hw0 & _); [done|].
      pose proof (remove_bounded _ _ _ _ _ Hb Hrem) as Hb0. simplify_eq.
      repeat (case_match; simplify_eq; try done);
        first [by eapply match_rest_bounded; [exact Hw0|exact Hb0|exact Hq|done|done] |
          by eapply match_bounded; [exact Hw0|apply Hq|exact Hb0|done]].
Qed.

Lemma bounded_agg Q r : RB.wf r -> bounded_book Q r -> 0 <= Q -> Q * RB.capacity_ r < 18446744073709551616 -> agg_ok r.
Proof.
  intros Hw Hb HQ Hc s p q Hin.
  assert (Z.of_nat (length q) <= RB.capacity_ r) as Hlen.
  { pose proof (queue_ids r s p q Hw Hin) as Hd. pose proof (RB.wf_cap r Hw). unfold RB.order_count in *.
    assert (length (o_id <$> q) <= size (RB.index_ r))%nat as Hle; [|rewrite length_fmap in Hle; lia].
    rewrite <- size_dom, <- (size_list_to_set (C := gset Z)) by done. apply subseteq_size. intros id.
    rewrite elem_of_list_to_set, elem_of_dom. intros (o & -> & Ho)%list_elem_of_fmap. exists (RB.mkLoc s p).
    apply (RB.wf_index r Hw). apply RB.elem_of_keys. eauto. }
  pose proof (Hb s) as Hbs. unfold bounded in Hbs. rewrite Forall_forall in Hbs. specialize (Hbs _ Hin). simpl in Hbs.
  assert (qsum q <= Q * Z.of_nat (length q)); [|nia]. clear -Hbs. induction Hbs as [|o q Ho _ IH]; [unfold qsum; simpl; lia|].
  rewrite qsum_cons. simpl length. lia.
Qed.

Lemma small_run cfg Q cs : 0 <= Q -> Q * cfg_max_orders cfg < 18446744073709551616 -> forall r, RB.wf r -> config_of cfg r ->
  bounded_book Q r -> Forall (fun c => price_ok cfg c /\ c_qty c <= Q) cs -> run_ok r cs.
Proof.
  intros HQ Hc. induction cs as [|c cs IH]; intros r Hw Hcfg Hb Hcs; [done|]. apply Forall_cons in Hcs as [[[Hp Hq] Hs] Hcs].
  pose proof Hcfg as (E1 & E2 & E3 & E4). split.
  - split; [by rewrite E1|done|]. intros _ _ _. apply (bounded_agg Q); try done. by rewrite E3.
  - intros r' es Hst. destruct (RB.step_ok r c Hw E4 Hq) as (r1 & es1 & Hst' & Hw' & Hc').
    assert (r1 = r') as -> by congruence. apply IH; try done; [by eapply config_step|].
    by eapply (step_bounded Q r c); [| |split|].
Qed.

Lemma make_config symbol cfg : cfg_ok cfg -> config_of cfg (RB.make symbol cfg) /\ RB.wf (RB.make symbol cfg) /\
  forall Q, bounded_book Q (RB.make symbol cfg).
Proof.
  intros ([[Hn1 Hn2] _] & Hm & _). split; [|split; [apply RB.make_wf; lia|]].
  { unfold config_of. simpl. split_and!; try done; lia. }
  intros Q []; constructor.
Qed.

(** The commands of a run: prices that do not overflow, and no fill-or-kill order that can meet a wrapped aggregate. *)
Definition commands_ok (cfg : BookConfig) (cs : list Command) : Prop :=
  Forall (price_ok cfg) cs /\
  (Forall (protected cfg) cs \/
   exists Q, 0 <= Q /\ Q * cfg_max_orders cfg < 18446744073709551616 /\ Forall (fun c => c_qty c <= Q) cs).

Lemma commands_run_ok symbol cfg cs : cfg_ok cfg -> commands_ok cfg cs -> run_ok (RB.make symbol cfg) cs.
Proof.
  intros Hcfg [Hp Hor]. destruct (make_config symbol cfg Hcfg) as (Hc & Hw & Hb). destruct Hor as [Hpr|(Q & HQ & Hcap & Hq)].
  - apply (protected_run cfg); [done|done|]. apply Forall_and. done.
  - apply (small_run cfg Q); try done. apply Forall_and. done.
Qed.

Section whole.
Context {S I B : Type} {OF : OrderFields S} {OFL : OrderFieldsLaws S} {IX : IdIndex I} {IXL : IdIndexLaws I}
  {LS : LevelSet B} {LSL : LevelSetLaws B}.

(** A book from its construction through any commands: no undefined behaviour, the loops end, the same events. *)
Lemma whole_run symbol cfg cs : cfg_ok cfg -> commands_ok cfg cs ->
  exists (b b' : OB.t S I B) r' es, OB.make symbol cfg = Some b /\ OB.run b cs = Some (b', es) /\
    RB.run (RB.make symbol cfg) cs = Some (r', es) /\ R b' r'.
Proof.
  intros Hcfg Hcs. destruct (make_refines symbol cfg Hcfg) as (b & Hb & HR).
  destruct (run_refines cs b _ HR (commands_run_ok symbol cfg cs Hcfg Hcs)) as (b' & r' & es & ? & ? & ?). eauto 10.
Qed.
End whole.

End BookEquiv.
