(* ===== verification/BookRules.v ===== *)
(** * The rules of the exchange, on the reference book

    Fill-or-kill is all or nothing and its pre-check is exact; immediate and market orders do not rest; post-only orders
    do not trade; trades happen within the limit, in price-time priority, never between orders of one owner under
    self-trade prevention; no quantity is lost. By BookEquiv these are properties of the order book too. *)
From Stdlib Require Import Sorted.
From S2P Require Import Prelude Common ReferenceBook.
Import ReferenceBook.

Module BookRules.

(** ** The fill-or-kill pre-check decides the outcome of the sweep *)

Section fok.
Context (symbol taker owner : Z) (side : Side) (limit : Z) (stp : Stp).
#[local] Abbreviation match_queue := (match_queue symbol taker owner side limit stp).
#[local] Abbreviation match_side := (match_side symbol taker owner side limit stp).

Lemma scan_queue_exact px q : forall index need q' x, 0 < need -> Forall (fun o => 0 < o_qty o) q ->
  match_queue px q index need = (q', x) ->
  match scan_queue owner stp q need with
  | inl true => m_qty x = 0 /\ m_stop x = false
  | inl false => m_stop x = true /\ 0 < m_qty x
  | inr need' => q' = [] /\ m_qty x = need' /\ m_stop x = false /\ 0 < need'
  end.
Proof.
  induction q as [|o q IH]; intros index need q' x Hn Hpos He; simpl in *; [by simplify_eq|].
  apply Forall_cons in Hpos as [Ho Hpos]. rewrite (proj2 (Z.eqb_neq need 0)) in He by lia.
  destruct (negb (bool_decide (stp = StpNone)) && (o_owner o =? owner)).
  - destruct (bool_decide (stp = CancelIncoming)); [by simplify_eq|].
    destruct (bool_decide (stp = DecrementCancel)); simpl in He.
    + destruct (Z.ltb_spec need (o_qty o)).
      { simplify_eq/=. by rewrite (proj2 (Z.leb_le _ _)) by lia. }
      destruct (Z.eqb_spec (o_qty o) need).
      { simplify_eq/=. by rewrite (proj2 (Z.leb_le _ _)) by lia. }
      rewrite (proj2 (Z.leb_gt _ _)) by lia.
      destruct (match_queue px q _ (need - o_qty o)) as [q1 x1] eqn:E1. simplify_eq/=.
      by eapply IH; [|done|exact E1]; lia.
    + destruct (match_queue px q _ need) as [q1 x1] eqn:E1. simplify_eq/=. apply (IH _ _ _ _ Hn Hpos E1).
  - destruct (Z.leb_spec need (o_qty o)).
    + rewrite Z.min_r in He by lia. destruct (o_qty o - need =? 0); [|simplify_eq/=; split; [lia|done]].
      rewrite Z.sub_diag in He. destruct (match_queue px q _ 0) as [q1 x1] eqn:E1. simplify_eq/=.
      destruct q; simpl in E1; by simplify_eq.
    + rewrite Z.min_l, Z.sub_diag in He by lia. simpl in He.
      destruct (match_queue px q _ (need - o_qty o)) as [q1 x1] eqn:E1. simplify_eq/=.
      by eapply IH; [|done|exact E1]; lia.
Qed.

Lemma scan_exact m : forall index need m' x, 0 < need -> positive m -> match_side m index need = (m', x) ->
  scan side limit owner stp m need = (m_qty x =? 0) && negb (m_stop x).
Proof.
  induction m as [|[p q] m IH]; intros index need m' x Hn Hpos He; simpl in *.
  { simplify_eq/=. by rewrite (proj2 (Z.eqb_neq _ _)) by lia. }
  apply Forall_cons in Hpos as [[Hne Hq] Hpos]. simpl in Hne, Hq. rewrite (proj2 (Z.ltb_lt 0 need)) in He by lia. simpl in He.
  destruct (in_range side limit p); simpl; [|simplify_eq/=; by rewrite (proj2 (Z.eqb_neq _ _)) by lia].
  destruct (match_queue p q index need) as [q1 x1] eqn:E1. pose proof (scan_queue_exact _ _ _ _ _ _ Hn Hq E1) as Hs.
  assert (q1 <> [] -> x = x1) as Hx by (intros; destruct q1; [done|by simplify_eq]).
  assert (m_stop x1 = true -> x = x1) as Hx' by (intros Ht; rewrite Ht in He; destruct q1; by simplify_eq).
  destruct (scan_queue owner stp q need) as [[|]|need'].
  - destruct Hs as [Hq0 Hst]. destruct q1 as [|o1 q1].
    + rewrite Hst, Hq0 in He. destruct m as [|[p2 q2] m]; simpl in He; simplify_eq/=; by rewrite ?Hq0.
    + rewrite Hx by done. by rewrite Hq0, Hst.
  - destruct Hs as [Hst Hq0]. rewrite (Hx' Hst), Hst. by rewrite andb_false_r.
  - destruct Hs as (-> & Hq0 & Hst & Hn'). rewrite Hst, Hq0 in He.
    destruct (match_side m (m_index x1) need') as [m2 x2] eqn:E2. simplify_eq/=. by apply (IH _ _ _ _ Hn' Hpos E2).
Qed.
End fok.

Lemma fillable_exact r taker owner side limit qty stp r' q' stop es : wf r -> 0 < qty ->
  match_ r taker owner side limit qty stp = (r', q', stop, es) ->
  fillable r side limit qty owner stp = (q' =? 0) && negb stop.
Proof.
  intros Hw Hq. unfold match_, fillable. destruct (match_side _ _ _ _ _ _ _ _ _) as [m x] eqn:E. intros [= <- <- <- <-].
  apply (scan_exact _ _ _ _ _ _ _ _ _ _ _ Hq (wf_pos r Hw _) E).
Qed.

(** ** What a sweep reports *)

Definition is_trade (e : Event) : bool := bool_decide (e_type e = Trade).

(** The quantity traded, and the makers hit (price and id), in the order of the events. *)
Definition traded (es : list Event) : Z := zsum (e_qty <$> filter (fun e => e_type e = Trade) es).
Definition makers (es : list Event) : list (Z * Z) := (fun e => (e_price e, e_maker_id e)) <$> filter (fun e => e_type e = Trade) es.

Lemma traded_app es1 es2 : traded (es1 ++ es2) = traded es1 + traded es2.
Proof. unfold traded. by rewrite filter_app, fmap_app, zsum_app. Qed.
Lemma makers_app es1 es2 : makers (es1 ++ es2) = makers es1 ++ makers es2.
Proof. unfold makers. by rewrite filter_app, fmap_app. Qed.

Section sweep.
Context (symbol taker owner : Z) (side : Side) (limit : Z) (stp : Stp).
#[local] Abbreviation match_queue := (match_queue symbol taker owner side limit stp).
#[local] Abbreviation match_side := (match_side symbol taker owner side limit stp).

#[local] Ltac no_trade :=
  unfold traded, makers; simpl; split_and!; try done; try lia; try (intros; congruence); try apply sublist_nil_l.

(** The events of a sweep over the levels [m]: a trade at a resting order's price, within the limit and not with an
    order of the same owner under self-trade prevention; or an effect of self-trade prevention. *)
Inductive sweep_event (m : list (Z * list Order)) : Event -> Prop :=
  | se_trade p q o fill : (p, q) ∈ m -> o ∈ q -> in_range side limit p = true -> 0 < fill <= o_qty o ->
      stp = StpNone \/ o_owner o <> owner ->
      sweep_event m (trade_event symbol taker (o_id o) side p fill (o_qty o - fill))
  | se_cancel p q o : (p, q) ∈ m -> o ∈ q -> in_range side limit p = true -> o_owner o = owner ->
      stp = CancelResting \/ stp = DecrementCancel ->
      sweep_event m (canceled_event symbol (o_id o) (opposite side) p (o_qty o) SelfTrade)
  | se_dec_maker p q o v : (p, q) ∈ m -> o ∈ q -> in_range side limit p = true -> o_owner o = owner ->
      stp = DecrementCancel -> 0 < v < o_qty o ->
      sweep_event m (stp_decrement_event symbol (o_id o) (opposite side) p v)
  | se_dec_taker v : stp = DecrementCancel -> 0 < v ->
      sweep_event m (stp_decrement_event symbol taker side limit v).

Lemma sweep_event_weaken m m' e : (forall p q o, (p, q) ∈ m -> o ∈ q -> exists q', (p, q') ∈ m' /\ o ∈ q') ->
  sweep_event m e -> sweep_event m' e.
Proof.
  intros Hsub He. destruct He as [p q o fill Hp Ho|p q o Hp Ho|p q o v Hp Ho|v];
    try (destruct (Hsub p q o Hp Ho) as (q' & ? & ?)); [eapply se_trade|eapply se_cancel|eapply se_dec_maker|apply se_dec_taker]; eauto.
Qed.

Lemma sub_queue (p : Z) (o : Order) (q : list Order) : forall p0 q0 o0, (p0, q0) ∈ [(p, q)] -> o0 ∈ q0 -> exists q', (p0, q') ∈ [(p, o :: q)] /\ o0 ∈ q'.
Proof. intros p0 q0 o0 [= -> ->]%list_elem_of_singleton Ho. exists (o :: q). set_solver. Qed.

Lemma match_queue_events px q : in_range side limit px = true -> Forall (fun o => 0 < o_qty o) q ->
  forall index qty q' x, 0 <= qty -> match_queue px q index qty = (q', x) ->
  Forall (sweep_event [(px, q)]) (m_events x) /\
  traded (m_events x) + m_qty x <= qty /\ (stp <> DecrementCancel -> traded (m_events x) + m_qty x = qty) /\
  makers (m_events x) `sublist_of` ((fun o => (px, o_id o)) <$> q).
Proof.
  intros Hin. induction q as [|o q IH]; intros Hpos index qty q' x Hq He; simpl in He.
  { simplify_eq/=. no_trade. }
  apply Forall_cons in Hpos as [Ho Hpos]. specialize (IH Hpos).
  assert ((px, o :: q) ∈ [(px, o :: q)] /\ o ∈ o :: q) as [Hm Hoq] by (split; set_solver).
  assert (forall qty1 q1 x1, 0 <= qty1 -> match_queue px q (delete (o_id o) index) qty1 = (q1, x1) ->
    Forall (sweep_event [(px, o :: q)]) (m_events x1) /\
    traded (m_events x1) + m_qty x1 <= qty1 /\ (stp <> DecrementCancel -> traded (m_events x1) + m_qty x1 = qty1) /\
    makers (m_events x1) `sublist_of` ((fun o => (px, o_id o)) <$> q)) as Hrec.
  { intros qty1 q1 x1 Hq1 E1. destruct (IH _ _ _ _ Hq1 E1) as (He1 & ?). split; [|done].
    eapply Forall_impl; [exact He1|]. intros e. apply sweep_event_weaken, sub_queue. }
  assert (forall l, l `sublist_of` ((fun o => (px, o_id o)) <$> q) -> l `sublist_of` ((fun o => (px, o_id o)) <$> o :: q)) as Hskip
    by (intros l Hl; by apply sublist_cons).
  destruct (Z.eqb_spec qty 0) as [->|Hne].
  { simplify_eq/=. no_trade. }
  destruct (negb (bool_decide (stp = StpNone)) && (o_owner o =? owner)) eqn:Eown.
  - apply andb_prop in Eown as [Hns Hown%Z.eqb_eq]. apply negb_true_iff in Hns. to_prop.
    case_bool_decide as Hci.
    { simplify_eq/=. no_trade. }
    case_bool_decide as Hdc; simpl in He.
    + destruct (Z.ltb_spec qty (o_qty o)).
      { simplify_eq/=. no_trade.
        constructor; [|done]. eapply se_dec_maker; eauto; lia. }
      destruct (Z.eqb_spec (o_qty o) qty).
      { simplify_eq/=. no_trade.
        constructor; [|done]. eapply se_cancel; eauto. }
      destruct (match_queue px q _ (qty - o_qty o)) as [q1 x1] eqn:E1. simplify_eq/=.
      destruct (Hrec (qty - o_qty o) q' x1 ltac:(lia) E1) as (R1 & R2 & _ & R4). split_and!; try done.
      * constructor; [eapply se_cancel; eauto|]. constructor; [eapply se_dec_taker; [done|lia]|done].
      * change (traded (m_events x1) + m_qty x1 <= qty). lia.
      * by apply Hskip.
    + destruct (match_queue px q _ qty) as [q1 x1] eqn:E1. simplify_eq/=.
      destruct (Hrec qty q' x1 Hq E1) as (R1 & R2 & R3 & R4). split_and!; try done.
      * constructor; [eapply se_cancel; eauto; destruct stp; auto; done|done].
      * by apply Hskip.
  - assert (stp = StpNone \/ o_owner o <> owner) as Hns.
    { apply andb_false_iff in Eown as [Hb|Hb]; [left|right; by apply Z.eqb_neq in Hb]. apply negb_false_iff in Hb. by to_prop. }
    destruct (Z.eqb_spec (o_qty o - Z.min (o_qty o) qty) 0) as [Hz|Hnz].
    + destruct (match_queue px q _ (qty - Z.min (o_qty o) qty)) as [q1 x1] eqn:E1. simplify_eq/=.
      destruct (Hrec (qty - Z.min (o_qty o) qty) q' x1 ltac:(lia) E1) as (R1 & R2 & R3 & R4).
      split_and!.
      * constructor; [eapply se_trade; eauto; lia|done].
      * change (Z.min (o_qty o) qty + traded (m_events x1) + m_qty x1 <= qty). lia.
      * intros Hd. change (Z.min (o_qty o) qty + traded (m_events x1) + m_qty x1 = qty). specialize (R3 Hd). lia.
      * apply sublist_skip, R4.
    + simplify_eq/=. split_and!.
      * constructor; [eapply se_trade; eauto; lia|done].
      * unfold traded. simpl. lia.
      * intros _. unfold traded. simpl. lia.
      * unfold makers. simpl. apply sublist_skip, sublist_nil_l.
Qed.

Lemma match_side_events m : positive m -> forall index qty m' x, 0 <= qty -> match_side m index qty = (m', x) ->
  Forall (sweep_event m) (m_events x) /\
  traded (m_events x) + m_qty x <= qty /\ (stp <> DecrementCancel -> traded (m_events x) + m_qty x = qty) /\
  makers (m_events x) `sublist_of` keys m.
Proof.
  induction m as [|[p q] m IH]; intros Hpos index qty m' x Hq He; simpl in He.
  { simplify_eq/=. no_trade. }
  apply Forall_cons in Hpos as [[_ Hqp] Hpos]. simpl in Hqp.
  change (keys ((p, q) :: m)) with (((fun o => (p, o_id o)) <$> q) ++ keys m).
  destruct ((0 <? qty) && in_range side limit p) eqn:Ec.
  2: { simplify_eq/=. no_trade. }
  apply andb_prop in Ec as [_ Hin]. destruct (match_queue p q index qty) as [q1 x1] eqn:E1.
  destruct (match_queue_events p q Hin Hqp _ _ _ _ Hq E1) as (A1 & A2 & A3 & A4).
  destruct (match_queue_spec _ _ _ _ _ _ _ _ _ _ _ _ Hq Hqp E1) as (_ & _ & _ & Hle & _).
  assert (Forall (sweep_event ((p, q) :: m)) (m_events x1)) as A1'.
  { eapply Forall_impl; [exact A1|]. intros e. apply sweep_event_weaken. intros p0 q0 o0 [= -> ->]%list_elem_of_singleton ?.
    exists q. set_solver. }
  assert (makers (m_events x1) `sublist_of` (((fun o => (p, o_id o)) <$> q) ++ keys m)) as A4' by (by apply sublist_inserts_r).
  destruct q1 as [|o1 q1]; [|simplify_eq/=; done]. destruct (m_stop x1); [simplify_eq/=; done|].
  destruct (match_side m (m_index x1) (m_qty x1)) as [m2 x2] eqn:E2. simplify_eq/=.
  destruct (IH Hpos _ _ _ _ (proj1 Hle) E2) as (B1 & B2 & B3 & B4). rewrite traded_app, makers_app. split_and!.
  - apply Forall_app. split; [done|]. eapply Forall_impl; [exact B1|]. intros e. apply sweep_event_weaken.
    intros p0 q0 o0 Hp0 Ho0. exists q0. set_solver.
  - lia.
  - intros Hd. specialize (A3 Hd). specialize (B3 Hd). lia.
  - by apply sublist_app.
Qed.
End sweep.

Lemma match_events r taker owner side limit qty stp r' q' stop es : wf r -> 0 <= qty ->
  match_ r taker owner side limit qty stp = (r', q', stop, es) ->
  Forall (sweep_event (symbol_ r) taker owner side limit stp (book r (opposite side))) es /\
  traded es + q' <= qty /\ (stp <> DecrementCancel -> traded es + q' = qty) /\
  makers es `sublist_of` keys (book r (opposite side)) /\
  exists gone, keys (book r (opposite side)) = gone ++ keys (book r' (opposite side)).
Proof.
  intros Hw Hq. unfold match_. destruct (match_side _ _ _ _ _ _ _ _ _) as [m x] eqn:E. intros [= <- <- <- <-].
  destruct (match_side_events _ _ _ _ _ _ _ (wf_pos r Hw _) _ _ _ _ Hq E) as (A1 & A2 & A3 & A4).
  destruct (match_side_spec _ _ _ _ _ _ _ _ _ _ _ Hq (wf_pos r Hw _) E) as (gone & Hs & _).
  destruct (swept_keys _ _ _ Hs) as (kg & Hk & _). split_and!; try done. exists kg. by rewrite book_set_eq.
Qed.

(** ** The outcomes of a new order *)

Definition accepted_of (r : t) (c : Command) : Event :=
  accepted_event (symbol_ r) (c_order_id c) (c_side c) (if bool_decide (c_ord_type c = Market) then 0 else c_price c) (c_qty c).
Definition killed_event (r : t) (c : Command) (left_ : Z) (why : Reason) : Event :=
  canceled_event (symbol_ r) (c_order_id c) (c_side c) (if bool_decide (c_ord_type c = Market) then 0 else c_price c) left_ why.
Definition immediate (c : Command) : bool := bool_decide (c_ord_type c = Market) || negb (bool_decide (c_tif c = Day)).
Definition stp_of (r : t) (c : Command) : Stp := effective_stp (c_flags c) (stp_ r).
Definition match_order (r : t) (c : Command) : t * Z * bool * list Event :=
  match_ r (c_order_id c) (c_owner c) (c_side c) (limit_of r c) (c_qty c) (stp_of r c).
Definition post_only (c : Command) : bool := negb (Z.land (c_flags c) kFlagPostOnly =? 0).

(** What follows the sweep, by its remainder. *)
Inductive settle (r1 : t) (c : Command) (limit left_ : Z) : bool -> t -> list Event -> Prop :=
  | st_filled stop : left_ = 0 -> settle r1 c limit left_ stop r1 []
  | st_stopped : 0 < left_ -> settle r1 c limit left_ true r1 [killed_event r1 c left_ SelfTrade]
  | st_expired : 0 < left_ -> immediate c = true -> settle r1 c limit left_ false r1 [killed_event r1 c left_ IocExpired]
  | st_rested r2 es : 0 < left_ -> immediate c = false ->
      rest r1 (c_order_id c) (c_owner c) (c_side c) limit left_ = (r2, es) -> settle r1 c limit left_ false r2 es.

Inductive outcome (r : t) (c : Command) : t -> list Event -> Prop :=
  | oc_rejected why : outcome r c r [rejected_event c why]
  | oc_fok : c_tif c = Fok -> c_order_id c <> 0 -> 0 < c_qty c -> contains r (c_order_id c) = false ->
      fillable r (c_side c) (limit_of r c) (c_qty c) (c_owner c) (stp_of r c) = false ->
      outcome r c r [accepted_of r c; killed_event r c (c_qty c) FokUnfilled]
  | oc_matched r1 left_ stop es r2 es2 : c_order_id c <> 0 -> 0 < c_qty c -> contains r (c_order_id c) = false ->
      (c_tif c = Fok -> fillable r (c_side c) (limit_of r c) (c_qty c) (c_owner c) (stp_of r c) = true) ->
      (post_only c = true -> crosses r (c_side c) (limit_of r c) = false) ->
      min_price_ r <= limit_of r c <= max_price_ r ->
      match_order r c = (r1, left_, stop, es) -> settle r1 c (limit_of r c) left_ stop r2 es2 ->
      outcome r c r2 (accepted_of r c :: es ++ es2).

Lemma add_outcome r c : wf r -> min_price_ r <= max_price_ r -> 0 <= c_qty c -> outcome r c (add r c).1 (add r c).2.
Proof.
  intros Hw Hb Hq. unfold add. fold (limit_of r c) (stp_of r c) (post_only c) (accepted_of r c).
  destruct (Z.eqb_spec (c_order_id c) 0); [constructor|]. destruct (Z.eqb_spec (c_qty c) 0); [constructor|].
  destruct (negb _ && out_of_band _ _) eqn:Eob; [constructor|]. pose proof (limit_band r c Hb Eob) as Hlim.
  destruct (contains r (c_order_id c)) eqn:Ec; [constructor|].
  destruct (post_only c && _) eqn:Epo; [constructor|].
  destruct (bool_decide (c_tif c = Fok) && _) eqn:Efk.
  { apply andb_prop in Efk as [Ht Hf]. to_prop. refine (oc_fok r c Ht _ _ Ec Hf); [done|lia]. }
  fold (match_order r c). destruct (match_order r c) as [[[r1 left_] stop] es] eqn:Em.
  destruct (wf_match _ _ _ _ _ _ _ _ _ _ _ Hw Hq Em) as (_ & _ & Hle & _).
  assert (forall r2 es2, settle r1 c (limit_of r c) left_ stop r2 es2 -> outcome r c r2 (accepted_of r c :: es ++ es2)) as Hm.
  { intros r2 es2 Hs. eapply oc_matched; try done; [lia| |].
    - intros Ht. rewrite bool_decide_true in Efk by done. by apply negb_false_iff in Efk.
    - intros Hp. by rewrite Hp in Epo. }
  destruct (Z.eqb_spec left_ 0); [rewrite <- (app_nil_r es); by apply Hm; constructor|].
  destruct stop. { apply Hm. apply st_stopped. lia. }
  fold (immediate c). destruct (immediate c) eqn:Ei. { apply Hm. apply st_expired; [lia|done]. }
  destruct (rest _ _ _ _ _ _) as [r2 es2] eqn:Er. apply Hm. eapply st_rested; [lia|done|done].
Qed.

(** A post-only order that does not cross meets nothing. *)
Lemma match_no_cross r c r1 left_ stop es : crosses r (c_side c) (limit_of r c) = false ->
  match_order r c = (r1, left_, stop, es) -> r1 = r /\ left_ = c_qty c /\ stop = false /\ es = [].
Proof.
  unfold crosses, match_order, match_. intros Hx. destruct (book r (opposite (c_side c))) as [|[p q] m] eqn:Em; simpl.
  - intros [= <- <- <- <-]. split_and!; try done. destruct r, (c_side c); simpl in *; by subst.
  - rewrite Hx, andb_false_r. intros [= <- <- <- <-]. split_and!; try done. destruct r, (c_side c); simpl in *; by subst.
Qed.

End BookRules.
