(* ===== verification/BookQueries.v ===== *)
(** * Queries and the structural audit

    Related books answer every query alike, and the audit [check_invariants] that the tests run after each command never
    fails on a book that is related to a reference book. *)
From Stdlib Require Import Sorted.
From S2P Require Import Prelude Common Interfaces OrderStore ReferenceBook OrderBook BookRefine BookEquiv.
Import ReferenceBook (Order, mkOrder, o_id, o_qty, o_owner).
Import BookRefine BookEquiv.

Module BookQueries.

Lemma level_qty_sum q : RB.level_qty q = u64 (qsum q).
Proof.
  unfold RB.level_qty. assert (forall a, foldl (fun s o => u64 (s + o_qty o)) (u64 a) q = u64 (a + qsum q)) as H.
  { induction q as [|o q IH]; intros a; simpl; [unfold qsum; simpl; f_equal; lia|].
    rewrite u64_add, IH, qsum_cons. f_equal. lia. }
  exact (H 0).
Qed.

Section queries.
Context {S I B : Type} {OF : OrderFields S} {OFL : OrderFieldsLaws S} {IX : IdIndex I} {IXL : IdIndexLaws I}
  {LS : LevelSet B} {LSL : LevelSetLaws B}.
Abbreviation book := (OB.t S I B).
Implicit Types (b : book) (r : RB.t) (M : gmap Z Z) (fl : list Z) (m : list (Z * list Order)).

Lemma best_bid_spec b r : R b r -> OB.best_bid b = RB.best_bid r.
Proof.
  intros (cap & M & fl & Hr). unfold OB.best_bid, RB.best_bid. pose proof (rel_best _ _ _ _ _ Hr Buy) as Hb. simpl in Hb.
  rewrite Hb. destruct (RB.bids_ r) as [|[p q] m] eqn:Hm; simpl; [done|].
  pose proof (rel_band _ _ _ _ _ Buy p Hr) as Hp. simpl in Hp. rewrite Hm in Hp.
  rewrite (proj2 (Z.leb_le _ _)) by (apply Hp; unfold RB.prices; simpl; set_solver). f_equal. lia.
Qed.

Lemma best_ask_spec b r : R b r -> OB.best_ask b = RB.best_ask r.
Proof.
  intros (cap & M & fl & Hr). unfold OB.best_ask, RB.best_ask. pose proof (rel_best _ _ _ _ _ Hr Sell) as Hb. simpl in Hb.
  rewrite Hb. destruct (RB.asks_ r) as [|[p q] m] eqn:Hm; simpl; [by rewrite Z.ltb_irrefl|].
  pose proof (rel_band _ _ _ _ _ Sell p Hr) as Hp. simpl in Hp. rewrite Hm in Hp.
  rewrite (proj2 (Z.ltb_lt _ _)) by (apply Hp; unfold RB.prices; simpl; set_solver). f_equal. lia.
Qed.

Lemma best_qty_spec b r cap M fl s : rel b r cap M fl ->
  match RB.book r s with
  | [] => True
  | (p, q) :: _ => exists lv, OB.level b (p - OB.min_price_ b) = Some lv /\ OB.lv_qty lv = RB.level_qty q
  end.
Proof.
  intros Hr. destruct (RB.book r s) as [|[p q] m] eqn:Hm; [done|].
  destruct (rel_level _ _ _ _ _ Hr s p q) as (lv & Hlv & Hq & _); [rewrite Hm; set_solver|].
  exists lv. by rewrite level_qty_sum.
Qed.

Lemma best_bid_qty_spec b r : R b r -> OB.best_bid_qty b = Some (RB.best_bid_qty r).
Proof.
  intros HR. pose proof (best_bid_spec b r HR) as Hbb. destruct HR as (cap & M & fl & Hr).
  unfold OB.best_bid_qty, RB.best_bid_qty. unfold OB.best_bid, RB.best_bid in Hbb.
  pose proof (best_qty_spec _ _ _ _ _ Buy Hr) as Hq. pose proof (rel_best _ _ _ _ _ Hr Buy) as Hb. simpl in Hb, Hq. rewrite Hb in *.
  destruct (RB.bids_ r) as [|[p q] m]; simpl in *; [done|]. destruct (0 <=? _); [|done]. destruct Hq as (lv & -> & Hq). by rewrite <- Hq.
Qed.

Lemma best_ask_qty_spec b r : R b r -> OB.best_ask_qty b = Some (RB.best_ask_qty r).
Proof.
  intros HR. pose proof (best_ask_spec b r HR) as Hba. destruct HR as (cap & M & fl & Hr).
  unfold OB.best_ask_qty, RB.best_ask_qty. unfold OB.best_ask, RB.best_ask in Hba.
  pose proof (best_qty_spec _ _ _ _ _ Sell Hr) as Hq. pose proof (rel_best _ _ _ _ _ Hr Sell) as Hb. simpl in Hb, Hq. rewrite Hb in *.
  destruct (RB.asks_ r) as [|[p q] m]; simpl in *; [by rewrite Z.ltb_irrefl|]. destruct (_ <? OB.n_ b); [|done].
  destruct Hq as (lv & -> & Hq). by rewrite <- Hq.
Qed.

Lemma order_count_spec b r : R b r -> OB.order_count b = RB.order_count r.
Proof.
  intros (cap & M & fl & Hr). rewrite (rel_size _ _ _ _ _ Hr). unfold OB.order_count, FreeListStore.live.
  pose proof (rel_core _ _ _ _ _ Hr) as Hc. rewrite (FreeListStore.rep_live _ _ _ (core_store _ _ _ _ Hc)).
  pose proof (core_count _ _ _ _ Hc). lia.
Qed.

Lemma contains_spec b r id : R b r -> OB.contains b id = Some (RB.contains r id).
Proof. intros (cap & M & fl & Hr). by destruct (lookup_spec b r cap M fl id Hr eq_refl) as [Hc _]. Qed.

Lemma find_order_spec b r id : R b r -> OB.find_order b id = RB.find_order r id.
Proof.
  intros (cap & M & fl & Hr). pose proof (core_ok _ _ _ _ (rel_core _ _ _ _ _ Hr)) as Hok.
  destruct (lookup_spec b r cap M fl id Hr eq_refl) as (_ & sl & Hf & Esl & Hn). unfold OB.find_order, RB.find_order.
  rewrite Hf. simpl. destruct (RB.index_ r !! id) as [l|] eqn:Hl.
  - destruct (resting_spec _ _ _ _ _ _ _ Hr Hl) as (s & x & o & HM & Hx & -> & Hid & (Q1 & Q2 & Q3 & Q4) & Hsn & _).
    rewrite HM in Esl. simpl in Esl. subst sl. rewrite (proj2 (Z.eqb_neq _ _)) by done. unfold recs in Hx.
    rewrite of_rec_level, of_rec_qty, of_rec_side, of_rec_owner, Hx by done. simpl. rewrite Q1, Q2, Q3, Q4. do 3 f_equal. lia.
  - rewrite Hn. unfold RB.contains. by rewrite Hl, bool_decide_false by (by intros [? ?]).
Qed.

(** ** Visiting the orders *)

Lemma visit_queue_spec b cap M fl side ix q : core b cap M fl -> forall fuel pv h last,
  seg (recs b) M side ix pv h q last kNil -> (length q < fuel)%nat ->
  OB.visit_queue b fuel h = Some ((fun o => (o_id o, o_qty o, side)) <$> q).
Proof.
  intros Hc. pose proof (core_ok _ _ _ _ Hc) as Hok. induction q as [|o q IH]; intros [|fuel] pv h last Hs Hf; simpl in Hf; try lia;
    simpl; [by destruct Hs as [-> _]|].
  destruct Hs as (Hm & x & Hx & (Q1 & Q2 & Q3 & Q4) & _ & Hs). rewrite (proj2 (Z.eqb_neq _ _)) by (by eapply core_not_nil).
  destruct (core_slot _ _ _ _ Hc _ _ Hm) as (_ & _ & x' & Hx' & Hid). assert (x' = x) as -> by congruence.
  unfold recs in Hx. rewrite of_rec_id, of_rec_qty, of_rec_side, of_rec_next, Hx by done. simpl.
  rewrite (IH _ _ _ _ Hs) by lia. simpl. by rewrite Hid, Q1, Q4.
Qed.

Lemma queue_at_spec b r cap M fl s p q : rel b r cap M fl -> (p, q) ∈ RB.book r s ->
  OB.queue_at b (p - OB.min_price_ b) = Some ((fun o => (o_id o, o_qty o, s)) <$> q).
Proof.
  intros Hr Hin. destruct (rel_level _ _ _ _ _ Hr s p q Hin) as (lv & Hlv & _ & Hs). unfold OB.queue_at. rewrite Hlv. simpl.
  pose proof (rel_core _ _ _ _ _ Hr) as Hc. pose proof (queue_length _ _ _ _ _ _ _ _ Hr Hin).
  eapply (visit_queue_spec b cap M fl s _ q Hc (Datatypes.S (Z.to_nat (FreeListStore.capacity (OB.store_ b)))) kNil); [done|].
  rewrite (capacity_eq _ _ _ _ Hc). lia.
Qed.

Lemma side_levels_spec b r cap M fl s m2 : rel b r cap M fl -> forall fuel m1, RB.book r s = m1 ++ m2 -> (length m2 < fuel)%nat ->
  OB.side_levels b s fuel (head_ix b s m2) = Some ((fun x => x.1 - OB.min_price_ b) <$> m2).
Proof.
  intros Hr. induction m2 as [|[p q] m2 IH]; intros [|fuel] m1 Hm Hf; simpl in Hf; try lia; cbn [OB.side_levels].
  { destruct s; simpl; [done|by rewrite Z.ltb_irrefl]. }
  assert ((p, q) ∈ RB.book r s) as Hin by (rewrite Hm; set_solver).
  pose proof (rel_band _ _ _ _ _ _ _ Hr (elem_prices _ _ _ Hin)) as Hband. simpl.
  assert (match s with Buy => 0 <=? p - OB.min_price_ b | Sell => p - OB.min_price_ b <? OB.n_ b end = true) as ->
    by (destruct s; lia).
  pose proof (RB.wf_sorted r (rel_wf _ _ _ _ _ Hr) s) as Hs. rewrite Hm in Hs. apply sorted_app_inv in Hs as [Hs2 Hp2].
  rewrite (next_best_spec _ _ _ _ _ (rel_bits _ _ _ _ _ Hr s) Hs2).
  - simpl. rewrite (IH _ (m1 ++ [(p, q)])); [done|by rewrite <- app_assoc|lia].
  - intros p'. rewrite Hm, Hp2. by replace (OB.min_price_ b + (p - OB.min_price_ b)) with p by lia.
Qed.

Lemma levels_of_spec b r cap M fl s : rel b r cap M fl ->
  OB.levels_of b s = Some ((fun x => x.1 - OB.min_price_ b) <$> RB.book r s).
Proof.
  intros Hr. unfold OB.levels_of. rewrite (rel_best _ _ _ _ _ Hr).
  apply (side_levels_spec b r cap M fl s _ Hr _ []); [done|]. pose proof (book_length _ _ _ _ _ s Hr). lia.
Qed.

Lemma mapM_levels {A} b r cap M fl s (f : Z -> option A) (g : Z * list Order -> A) : rel b r cap M fl ->
  (forall p q, (p, q) ∈ RB.book r s -> f (p - OB.min_price_ b) = Some (g (p, q))) ->
  mapM f ((fun x => x.1 - OB.min_price_ b) <$> RB.book r s) = Some (g <$> RB.book r s).
Proof.
  intros _ Hf. induction (RB.book r s) as [|[p q] m IH]; [done|]. rewrite !fmap_cons. cbn [mapM].
  change ((p, q).1) with p. rewrite (Hf p q) by set_solver. cbn [mbind option_bind].
  rewrite IH; [done|]. intros p' q' Hin. apply Hf. set_solver.
Qed.

Lemma for_each_order_spec b r s : R b r -> OB.for_each_order b s = Some (RB.for_each_order r s).
Proof.
  intros (cap & M & fl & Hr). unfold OB.for_each_order, RB.for_each_order. rewrite (levels_of_spec _ _ _ _ _ s Hr). simpl.
  rewrite (mapM_levels b r cap M fl s _ (fun x => (fun o => (x.1, o_id o, o_qty o)) <$> x.2) Hr).
  - simpl. f_equal. induction (RB.book r s) as [|[p q] m IH]; [done|].
    exact (f_equal (app ((fun o => (p, o_id o, o_qty o)) <$> q)) IH).
  - intros p q Hin. rewrite (queue_at_spec _ _ _ _ _ _ _ _ Hr Hin). simpl. f_equal. rewrite <- list_fmap_compose.
    apply list_fmap_ext. intros i o _. simpl. do 2 f_equal. lia.
Qed.

Lemma for_each_level_spec b r s : R b r ->
  OB.for_each_level b s = Some ((fun x => (x.1, RB.level_qty x.2)) <$> RB.book r s).
Proof.
  intros (cap & M & fl & Hr). unfold OB.for_each_level. rewrite (levels_of_spec _ _ _ _ _ s Hr). simpl.
  apply (mapM_levels b r cap M fl s _ _ Hr). intros p q Hin.
  destruct (rel_level _ _ _ _ _ Hr s p q Hin) as (lv & -> & Hq & _). simpl. rewrite level_qty_sum, Hq. do 2 f_equal. lia.
Qed.

(** ** The audit *)

Lemma audit_queue_spec b r cap M fl side ix q : rel b r cap M fl -> forall fuel pv h last sum (V : gset Z),
  seg (recs b) M side ix pv h q last kNil -> Forall (fun o => 0 < o_qty o) q -> NoDup (o_id <$> q) ->
  (forall o, o ∈ q -> o_id o ∉ V) -> (forall id, id ∈ V -> is_Some (M !! id)) -> (length q < fuel)%nat ->
  OB.audit_queue b side ix fuel h pv (u64 sum) (Z.of_nat (size V)) =
    Some (Some (last, u64 (sum + qsum q), Z.of_nat (size (list_to_set (o_id <$> q) ∪ V)))).
Proof.
  intros Hr. pose proof (rel_core _ _ _ _ _ Hr) as Hc. pose proof (core_ok _ _ _ _ Hc) as Hok.
  induction q as [|o q IH]; intros [|fuel] pv h last sum V Hs Hpos Hnd HV HVM Hf; simpl in Hf; try lia; cbn [OB.audit_queue].
  { destruct Hs as [-> ->]. change (kNil =? kNil) with true. cbn iota. simpl. rewrite union_empty_l_L.
    unfold qsum. simpl. by rewrite Z.add_0_r. }
  destruct Hs as (Hm & x & Hx & (Q1 & Q2 & Q3 & Q4) & Hpv & Hs). apply Forall_cons in Hpos as [Ho Hpos].
  rewrite fmap_cons in Hnd. apply NoDup_cons in Hnd as [Hn Hnd].
  destruct (core_slot _ _ _ _ Hc _ _ Hm) as (Hsr & _ & x' & Hx' & Hid). assert (x' = x) as -> by congruence.
  pose proof (core_not_nil _ _ _ _ _ _ Hc Hm) as Hnil. rewrite (proj2 (Z.eqb_neq h kNil)) by done.
  assert (o_id o ∉ V) as HoV by (apply HV; set_solver).
  assert (size ({[o_id o]} ∪ V) = Datatypes.S (size V)) as Hsz.
  { rewrite size_union by set_solver. by rewrite size_singleton. }
  assert (size ({[o_id o]} ∪ V) <= size M)%nat as Hle.
  { rewrite <- (size_dom M). apply subseteq_size. intros id [->%elem_of_singleton|Hid']%elem_of_union; apply elem_of_dom; [eauto|auto]. }
  unfold recs in Hx. rewrite of_rec_side, of_rec_level, of_rec_qty, Hx by done. simpl. rewrite Q1, Q3, Q4.
  rewrite bool_decide_true, Z.eqb_refl, (proj2 (Z.eqb_neq (o_qty o) 0)) by (done || lia). simpl.
  assert ((if pv =? kNil then Some pv else of_prev (OB.fields b) h) = Some pv) as ->.
  { destruct (Z.eqb_spec pv kNil) as [|Hp]; [done|]. rewrite of_rec_prev, Hx by done. simpl. by rewrite Hpv. }
  simpl. rewrite Z.eqb_refl. simpl. rewrite of_rec_id, Hx by done. simpl. rewrite Hid.
  rewrite (ix_rep_find _ _ _ _ _ (core_ids _ _ _ _ Hc) (core_keys _ _ _ _ Hc)), Hm. simpl. rewrite Z.eqb_refl. simpl.
  rewrite (proj2 (Z.ltb_ge _ _)).
  2: { pose proof (FreeListStore.rep_live _ _ _ (core_store _ _ _ _ Hc)). pose proof (core_count _ _ _ _ Hc). 
       unfold FreeListStore.live. lia. }
  rewrite of_rec_next, Hx by done. simpl. rewrite u64_add.
  replace (Z.of_nat (size V) + 1) with (Z.of_nat (size ({[o_id o]} ∪ V))) by lia.
  rewrite (IH fuel h _ last _ ({[o_id o]} ∪ V) Hs Hpos Hnd); [| |intros id [->%elem_of_singleton|?]%elem_of_union; [eauto|auto]|lia].
  - rewrite qsum_cons. do 3 f_equal; [f_equal; f_equal; lia|]. f_equal. f_equal. set_solver.
  - intros o' Ho'. assert (o_id o' ∉ V) by (apply HV; set_solver). assert (o_id o' <> o_id o).
    { intros He. apply Hn. rewrite <- He. by apply list_elem_of_fmap_2. } set_solver.
Qed.

(** Bits of a level: the side that holds its price. *)
Lemma bit_spec b r cap M fl s i : rel b r cap M fl -> 0 <= i < OB.n_ b ->
  ls_test (OB.bits b s) i = Some (bool_decide (OB.min_price_ b + i ∈ RB.prices (RB.book r s))).
Proof.
  intros Hr Hi. destruct (rel_bits _ _ _ _ _ Hr s) as (X & HX & HX'). rewrite (ls_rep_test _ _ _ _ HX Hi). f_equal.
  by apply bool_decide_ext.
Qed.

(** The ids resting below level [i]. *)
Definition below b r (i : Z) (V : gset Z) : Prop :=
  forall id, id ∈ V <-> exists l, RB.index_ r !! id = Some l /\ RB.l_price l < OB.min_price_ b + i.

Lemma below_next b r cap M fl i V q s : rel b r cap M fl -> below b r i V -> (OB.min_price_ b + i, q) ∈ RB.book r s ->
  below b r (i + 1) (list_to_set (o_id <$> q) ∪ V).
Proof.
  intros Hr HV Hin id. pose proof (rel_wf _ _ _ _ _ Hr) as Hw. rewrite elem_of_union, elem_of_list_to_set. split.
  - intros [(o & -> & Ho)%list_elem_of_fmap|Hid].
    + exists (RB.mkLoc s (OB.min_price_ b + i)). split; [|simpl; lia]. apply (RB.wf_index r Hw). apply RB.elem_of_keys. eauto.
    + apply HV in Hid as (l & ? & ?). exists l. split; [done|lia].
  - intros (l & Hl & Hlt). destruct (decide (RB.l_price l < OB.min_price_ b + i)) as [Hp|Hp]; [right; apply HV; eauto|left].
    assert (RB.l_price l = OB.min_price_ b + i) as He by lia. apply (RB.wf_index r Hw) in Hl as (q' & o & Hq' & Ho & <-)%RB.elem_of_keys.
    rewrite He in Hq'. assert (RB.l_side l = s) as Es by (eapply price_side; [done|by eapply elem_prices|by eapply elem_prices]).
    rewrite Es in Hq'.
    apply (RB.map_find_elem s) in Hq'; [|apply (RB.wf_sorted r Hw)]. apply (RB.map_find_elem s) in Hin; [|apply (RB.wf_sorted r Hw)].
    assert (q' = q) as -> by congruence. by apply list_elem_of_fmap_2.
Qed.

Lemma below_skip b r cap M fl i V : rel b r cap M fl -> below b r i V ->
  (forall s, OB.min_price_ b + i ∉ RB.prices (RB.book r s)) -> below b r (i + 1) V.
Proof.
  intros Hr HV Hno id. rewrite (HV id). split; intros (l & Hl & Hlt); exists l; (split; [done|]); [lia|].
  assert (RB.l_price l <> OB.min_price_ b + i); [|lia]. intros He. apply (RB.wf_index r (rel_wf _ _ _ _ _ Hr)) in Hl.
  apply RB.keys_prices in Hl. rewrite He in Hl. by apply (Hno (RB.l_side l)).
Qed.

Lemma audit_level_spec b r cap M fl i V s q : rel b r cap M fl -> 0 <= i < OB.n_ b -> below b r i V ->
  (OB.min_price_ b + i, q) ∈ RB.book r s ->
  exists lv, OB.level b i = Some lv /\ (OB.lv_head lv =? kNil) = false /\
    OB.audit_queue b s i (Datatypes.S (Z.to_nat (FreeListStore.capacity (OB.store_ b)))) (OB.lv_head lv) kNil 0 (Z.of_nat (size V)) =
      Some (Some (OB.lv_tail lv, OB.lv_qty lv, Z.of_nat (size (list_to_set (o_id <$> q) ∪ V)))).
Proof.
  intros Hr Hi HV Hin. pose proof (rel_wf _ _ _ _ _ Hr) as Hw. pose proof (rel_core _ _ _ _ _ Hr) as Hc.
  destruct (rel_level _ _ _ _ _ Hr s _ q Hin) as (lv & Hlv & Hsum & Hseg).
  replace (OB.min_price_ b + i - OB.min_price_ b) with i in * by lia. exists lv. split; [done|].
  pose proof (RB.wf_pos r Hw s) as Hpos. unfold RB.positive in Hpos. rewrite Forall_forall in Hpos.
  destruct (Hpos _ Hin) as [Hne Hq]. simpl in Hne, Hq. pose proof (queue_length _ _ _ _ _ _ _ _ Hr Hin) as Hlen.
  split. { rewrite (core_seg_head _ _ _ _ _ _ _ _ _ _ Hc Hseg). by destruct q. }
  pose proof (audit_queue_spec b r cap M fl s i q Hr (Datatypes.S (Z.to_nat (FreeListStore.capacity (OB.store_ b)))) kNil
    (OB.lv_head lv) (OB.lv_tail lv) 0 V Hseg Hq (queue_ids r s _ q Hw Hin)) as Ha. rewrite Hsum. apply Ha.
  - intros o Ho (l & Hl & Hlt)%HV. assert (RB.index_ r !! o_id o = Some (RB.mkLoc s (OB.min_price_ b + i))) as Hl'.
    { apply (RB.wf_index r Hw). apply RB.elem_of_keys. eauto. } rewrite Hl in Hl'. injection Hl' as ->. simpl in Hlt. lia.
  - intros id (l & Hl & _)%HV. apply (rel_dom _ _ _ _ _ Hr). eauto.
  - rewrite (capacity_eq _ _ _ _ Hc). lia.
Qed.

Lemma audit_levels_spec b r cap M fl : rel b r cap M fl -> forall fuel i V, 0 <= i <= OB.n_ b -> below b r i V ->
  OB.n_ b - i < Z.of_nat fuel -> OB.audit_levels b fuel i (Z.of_nat (size V)) = Some (Some (RB.order_count r)).
Proof.
  intros Hr. pose proof (rel_wf _ _ _ _ _ Hr) as Hw. induction fuel as [|fuel IH]; intros i V Hi HV Hf; [lia|]. cbn [OB.audit_levels].
  destruct (Z.leb_spec (OB.n_ b) i).
  { do 2 f_equal. unfold RB.order_count. rewrite <- size_dom. f_equal. f_equal. apply set_eq. intros id. rewrite (HV id), elem_of_dom.
    split; [intros (l & ? & _); eauto|]. intros [l Hl]. exists l. split; [done|].
    apply (RB.wf_index r Hw) in Hl. apply RB.keys_prices in Hl. pose proof (rel_band _ _ _ _ _ _ _ Hr Hl). lia. }
  pose proof (bit_spec b r cap M fl Buy i Hr ltac:(lia)) as Hb. pose proof (bit_spec b r cap M fl Sell i Hr ltac:(lia)) as Ha.
  simpl in Hb, Ha. rewrite Hb, Ha. clear Hb Ha.
  assert (forall s, OB.min_price_ b + i ∈ RB.prices (RB.book r s) -> exists q, (OB.min_price_ b + i, q) ∈ RB.book r s) as Hq.
  { intros s ([p q] & He & Hin)%list_elem_of_fmap. exists q. by rewrite He. }
  pose proof (Hq Buy) as Hqb. pose proof (Hq Sell) as Hqs. simpl in Hqb, Hqs.
  destruct (bool_decide_reflect (OB.min_price_ b + i ∈ RB.prices (RB.bids_ r))) as [Hbuy|Hbuy];
    destruct (bool_decide_reflect (OB.min_price_ b + i ∈ RB.prices (RB.asks_ r))) as [Hsell|Hsell].
  - pose proof (RB.wf_uncrossed r Hw _ _ Hbuy Hsell). lia.
  - destruct (Hqb Hbuy) as [q Hin]. destruct (audit_level_spec b r cap M fl i V Buy q Hr ltac:(lia) HV Hin) as (lv & -> & Hh & Hau).
    cbn [mbind option_bind andb negb]. rewrite Hh, Hau. cbn [mbind option_bind]. rewrite !Z.eqb_refl. cbn [negb orb]. apply IH; [lia| |lia]. exact (below_next b r cap M fl i V q Buy Hr HV Hin).
  - destruct (Hqs Hsell) as [q Hin]. destruct (audit_level_spec b r cap M fl i V Sell q Hr ltac:(lia) HV Hin) as (lv & -> & Hh & Hau).
    cbn [mbind option_bind andb negb]. rewrite Hh, Hau. cbn [mbind option_bind]. rewrite !Z.eqb_refl. cbn [negb orb]. apply IH; [lia| |lia]. exact (below_next b r cap M fl i V q Sell Hr HV Hin).
  - rewrite (rel_empty _ _ _ _ _ Hr i) by (lia || by intros []).
    cbn [mbind option_bind andb negb orb OB.lv_head OB.lv_tail OB.lv_qty Z.eqb Pos.eqb]. apply IH; [lia| |lia].
    eapply below_skip; try done. by intros [].
Qed.

Lemma check_invariants_spec b r : R b r -> OB.check_invariants b = Some true.
Proof.
  intros (cap & M & fl & Hr). pose proof (rel_wf _ _ _ _ _ Hr) as Hw. pose proof (rel_core _ _ _ _ _ Hr) as Hc.
  unfold OB.check_invariants.
  pose proof (next_best_spec b Buy _ (OB.n_ b) (RB.bids_ r) (rel_bits _ _ _ _ _ Hr Buy) (RB.wf_sorted r Hw Buy)) as Hb.
  pose proof (next_best_spec b Sell _ (-1) (RB.asks_ r) (rel_bits _ _ _ _ _ Hr Sell) (RB.wf_sorted r Hw Sell)) as Ha.
  simpl in Hb, Ha. change (-1 + 1) with 0 in Ha. rewrite Hb, Ha.
  2-3: intros p; split; [|by intros [? _]]; intros Hp; split; [done|].
  2: { pose proof (rel_band _ _ _ _ _ Sell p Hr Hp). lia. }
  2: { pose proof (rel_band _ _ _ _ _ Buy p Hr Hp). lia. }
  cbn [mbind option_bind]. pose proof (rel_best _ _ _ _ _ Hr Buy) as Ebb. pose proof (rel_best _ _ _ _ _ Hr Sell) as Eba.
  cbn [OB.best RB.book] in Ebb, Eba. rewrite <- Ebb, <- Eba, !Z.eqb_refl. cbn [negb orb].
  assert ((0 <=? OB.best_bid_ b) && (OB.best_ask_ b <? OB.n_ b) && (OB.best_ask_ b <=? OB.best_bid_ b) = false) as ->.
  { rewrite Ebb, Eba. destruct (RB.bids_ r) as [|[p q] m] eqn:Eb; [done|]. destruct (RB.asks_ r) as [|[p' q'] m'] eqn:Ea; simpl.
    - rewrite Z.ltb_irrefl. by destruct (0 <=? _).
    - pose proof (RB.wf_uncrossed r Hw p p') as Hu. rewrite Eb, Ea in Hu. unfold RB.prices in Hu. simpl in Hu.
      assert (p < p') by (apply Hu; set_solver). rewrite (proj2 (Z.leb_gt (_ - _) _)), andb_false_r by lia. done. }
  pose proof (audit_levels_spec b r cap M fl Hr (Datatypes.S (Z.to_nat (OB.n_ b))) 0 ∅) as Hl.
  destruct (rel_n _ _ _ _ _ Hr) as [Hn _]. rewrite size_empty in Hl.
  change (Z.of_nat 0) with 0 in Hl. rewrite Hl; [|lia| |lia].
  - cbn [mbind option_bind]. rewrite <- (order_count_spec b r) by (by eexists _, _, _). unfold OB.order_count. rewrite Z.eqb_refl. simpl. f_equal.
    apply Z.eqb_eq. rewrite (ix_rep_size _ _ _ (core_ids _ _ _ _ Hc)), <- (rel_size _ _ _ _ _ Hr).
    apply order_count_spec. by eexists _, _, _.
  - intros id. split; [set_solver|]. intros (l & Hl' & Hlt). apply (RB.wf_index r Hw) in Hl'. apply RB.keys_prices in Hl'.
    pose proof (rel_band _ _ _ _ _ _ _ Hr Hl'). lia.
Qed.

End queries.
End BookQueries.
