(* ===== verification/BookLaws.v ===== *)
(** * The exchange's rules, as laws of a command

    What a command may do to a well-formed reference book, in terms the book's own queries can observe. BookTheorems
    carries these laws over to the order book. *)
From Stdlib Require Import Sorted.
From S2P Require Import Prelude Common ReferenceBook BookRules.
Import ReferenceBook BookRules.

Module BookLaws.

(** ** Observations *)

Definition order_key (x : Z * Z * Z) : Z * Z := (x.1.1, x.1.2).
(** [e] takes the order [id] out of the market. *)
Definition kills (id : Z) (e : Event) : bool := bool_decide (e_type e = Canceled) && (e_order_id e =? id).
Definition killed (id : Z) (es : list Event) : Z := zsum (e_qty <$> filter (fun e => kills id e = true) es).
(** The quantity resting under [id], given the book's answer to [find_order]. *)
Definition resting (v : option OrderView) : Z := from_option v_qty 0 v.

Definition trade_rule (find_order : Z -> option (option OrderView)) (stp : Stp) (limit : Z) (c : Command) (e : Event) : Prop :=
  e_order_id e = c_order_id c /\ e_side e = c_side c /\
  exists v, find_order (e_maker_id e) = Some (Some v) /\ v_side v = opposite (c_side c) /\ v_price v = e_price e /\
    in_range (c_side c) limit (e_price e) = true /\ 0 < e_qty e <= v_qty v /\ e_leaves e = v_qty v - e_qty e /\
    (stp = StpNone \/ v_owner v <> c_owner c).

Lemma find_order_book r s p q o : wf r -> (p, q) ∈ book r s -> o ∈ q ->
  find_order r (o_id o) = Some (Some (mkOrderView p (o_qty o) s (o_owner o))).
Proof.
  intros Hw Hin Ho. assert ((p, o_id o) ∈ keys (book r s)) as Hk by (apply elem_of_keys; eauto).
  apply (wf_index r Hw _ (mkLoc s p)) in Hk. unfold find_order. rewrite Hk.
  destruct (deref_spec r _ _ Hw Hk) as (m1 & q1 & o' & q2 & m2 & Hm & Hid & -> & Hf & _). simpl in *.
  apply (map_find_elem s) in Hin; [|apply (wf_sorted r Hw)]. assert (q = q1 ++ o' :: q2) as -> by congruence.
  assert (o = o') as ->; [|done].
  pose proof (wf_ids r Hw s) as Hd. rewrite Hm, ids_app, ids_cons in Hd.
  apply NoDup_app in Hd as (_ & _ & (Hd & _)%NoDup_app).
  pose proof (queue_deref_elem _ o Hd Ho) as E1. pose proof (queue_deref_elem _ o' Hd ltac:(set_solver)) as E2. congruence.
Qed.

Lemma find_order_none r id : index_ r !! id = None -> find_order r id = Some None.
Proof. intros H. unfold find_order. by rewrite H. Qed.

Lemma order_keys r s : order_key <$> for_each_order r s = keys (book r s).
Proof.
  unfold for_each_order, keys, order_key. induction (book r s) as [|[p q] m IH]; [done|]. simpl.
  rewrite fmap_app. f_equal; [by rewrite <- list_fmap_compose|exact IH].
Qed.

Lemma not_resting r s p q o id : wf r -> contains r id = false -> (p, q) ∈ book r s -> o ∈ q -> o_id o <> id.
Proof.
  intros Hw Hc Hin Ho <-. apply contains_false in Hc. assert ((p, o_id o) ∈ keys (book r s)) as Hk by (apply elem_of_keys; eauto).
  apply (wf_index r Hw _ (mkLoc s p)) in Hk. congruence.
Qed.

(** ** The sweep of a new order *)

Lemma match_order_events r c r1 left_ stop es : wf r -> 0 <= c_qty c -> match_order r c = (r1, left_, stop, es) ->
  Forall (sweep_event (symbol_ r) (c_order_id c) (c_owner c) (c_side c) (limit_of r c) (stp_of r c) (book r (opposite (c_side c)))) es /\
  traded es + left_ <= c_qty c /\ (stp_of r c <> DecrementCancel -> traded es + left_ = c_qty c) /\
  makers es `sublist_of` keys (book r (opposite (c_side c))) /\
  exists gone, keys (book r (opposite (c_side c))) = gone ++ keys (book r1 (opposite (c_side c))).
Proof. intros Hw Hq Hm. exact (match_events _ _ _ _ _ _ _ _ _ _ _ Hw Hq Hm). Qed.

Lemma sweep_no_kill r c e : wf r -> contains r (c_order_id c) = false ->
  sweep_event (symbol_ r) (c_order_id c) (c_owner c) (c_side c) (limit_of r c) (stp_of r c) (book r (opposite (c_side c))) e ->
  kills (c_order_id c) e = false.
Proof.
  intros Hw Hc He. destruct He as [| p q o Hin Ho| |]; try done. unfold kills. simpl.
  apply Z.eqb_neq. by eapply not_resting.
Qed.

Lemma sweep_killed r c es : wf r -> contains r (c_order_id c) = false ->
  Forall (sweep_event (symbol_ r) (c_order_id c) (c_owner c) (c_side c) (limit_of r c) (stp_of r c) (book r (opposite (c_side c)))) es ->
  killed (c_order_id c) es = 0.
Proof.
  intros Hw Hc Hes. unfold killed. induction Hes as [|e es He _ IH]; [done|].
  rewrite filter_cons. rewrite decide_False; [done|]. by rewrite (sweep_no_kill r c e).
Qed.

Lemma killed_app id es1 es2 : killed id (es1 ++ es2) = killed id es1 + killed id es2.
Proof. unfold killed. by rewrite filter_app, fmap_app, zsum_app. Qed.

Lemma sweep_trade r c e : wf r -> e_type e = Trade ->
  sweep_event (symbol_ r) (c_order_id c) (c_owner c) (c_side c) (limit_of r c) (stp_of r c) (book r (opposite (c_side c))) e ->
  trade_rule (find_order r) (stp_of r c) (limit_of r c) c e.
Proof.
  intros Hw Ht He. destruct He as [p q o fill Hin Ho Hr Hf Hs| | |]; try done.
  split; [done|]. split; [done|]. eexists. split; [by apply (find_order_book r _ p q o Hw Hin Ho)|]. by simpl.
Qed.

Lemma settle_no_trade r1 c limit left_ stop r2 es : settle r1 c limit left_ stop r2 es -> Forall (fun e => e_type e <> Trade) es.
Proof.
  intros Hs. destruct Hs as [| | |r2 es _ _ Hr]; repeat constructor; try done.
  revert Hr. unfold rest. case_if; intros [= <- <-]; by repeat constructor.
Qed.

(** ** The laws *)

Lemma trades_law r c : wf r -> min_price_ r <= max_price_ r -> 0 <= c_qty c ->
  Forall (fun e => e_type e = Trade -> trade_rule (find_order r) (stp_of r c) (limit_of r c) c e) (add r c).2.
Proof.
  intros Hw Hb Hq. destruct (add_outcome r c Hw Hb Hq) as [| |r1 left_ stop es r2 es2 _ _ _ _ _ _ Hm Hs].
  1-2: by repeat constructor.
  destruct (match_order_events _ _ _ _ _ _ Hw Hq Hm) as (He & _). constructor; [done|]. apply Forall_app. split.
  - eapply Forall_impl; [done|]. intros e He' Ht. by apply sweep_trade.
  - eapply Forall_impl; [by eapply settle_no_trade|]. by intros e Hn Ht.
Qed.

Lemma traded_none es : Forall (fun e => e_type e <> Trade) es -> traded es = 0 /\ makers es = [].
Proof.
  intros H. unfold traded, makers. assert (filter (fun e => e_type e = Trade) es = []) as ->; [|done].
  induction H as [|e es He _ IH]; [done|]. rewrite filter_cons. by rewrite decide_False.
Qed.

(** The other side of the book after [rest]. *)
Lemma rest_other r id owner s px qty r' es : rest r id owner s px qty = (r', es) -> book r' (opposite s) = book r (opposite s).
Proof. unfold rest. case_if; intros [= <- <-]; [done|]. rewrite book_set_ne; [done|by destruct s]. Qed.

Lemma settle_other r1 c limit left_ stop r2 es : settle r1 c limit left_ stop r2 es ->
  book r2 (opposite (c_side c)) = book r1 (opposite (c_side c)).
Proof. intros Hs. destruct Hs as [| | |r2 es _ _ Hr]; try done. by eapply rest_other. Qed.

Lemma priority_law r c : wf r -> min_price_ r <= max_price_ r -> 0 <= c_qty c ->
  makers (add r c).2 `sublist_of` keys (book r (opposite (c_side c))) /\
  exists gone, keys (book r (opposite (c_side c))) = gone ++ keys (book (add r c).1 (opposite (c_side c))).
Proof.
  intros Hw Hb Hq. destruct (add_outcome r c Hw Hb Hq) as [| |r1 left_ stop es r2 es2 _ _ _ _ _ _ Hm Hs].
  1-2: by (split; [apply sublist_nil_l|by exists []]).
  destruct (match_order_events _ _ _ _ _ _ Hw Hq Hm) as (_ & _ & _ & Hmk & Hg).
  rewrite (settle_other _ _ _ _ _ _ _ Hs). split; [|done].
  change (makers (accepted_of r c :: es ++ es2)) with (makers (es ++ es2)). rewrite makers_app.
  destruct (traded_none es2) as [_ ->]; [by eapply settle_no_trade|]. by rewrite app_nil_r.
Qed.

(** An order that must not rest does not: its id rests afterwards only if it did before (and then it was rejected). *)
Lemma match_contains r c r1 left_ stop es : wf r -> 0 <= c_qty c -> match_order r c = (r1, left_, stop, es) ->
  contains r (c_order_id c) = false -> contains r1 (c_order_id c) = false.
Proof.
  intros Hw Hq Hm Hc. destruct (wf_match _ _ _ _ _ _ _ _ _ _ _ Hw Hq Hm) as (_ & _ & _ & _ & Hi & _).
  unfold contains in *. rewrite bool_decide_eq_false in *. auto.
Qed.

Lemma no_rest_law r c : wf r -> min_price_ r <= max_price_ r -> 0 <= c_qty c -> immediate c = true ->
  contains (add r c).1 (c_order_id c) = contains r (c_order_id c).
Proof.
  intros Hw Hb Hq Hi. destruct (add_outcome r c Hw Hb Hq) as [| |r1 left_ stop es r2 es2 _ _ Hc _ _ _ Hm Hs]; try done.
  rewrite Hc. destruct Hs; try congruence; by eapply match_contains.
Qed.

Lemma post_only_law r c : wf r -> min_price_ r <= max_price_ r -> 0 <= c_qty c -> post_only c = true ->
  Forall (fun e => e_type e <> Trade) (add r c).2 /\
  book (add r c).1 (opposite (c_side c)) = book r (opposite (c_side c)).
Proof.
  intros Hw Hb Hq Hp. destruct (add_outcome r c Hw Hb Hq) as [| |r1 left_ stop es r2 es2 _ _ Hc _ Hx _ Hm Hs].
  1-2: by repeat constructor.
  destruct (match_no_cross _ _ _ _ _ _ (Hx Hp) Hm) as (-> & -> & -> & ->). split; [|by eapply settle_other].
  constructor; [done|]. by eapply settle_no_trade.
Qed.

Definition with_tif (c : Command) (t : Tif) : Command :=
  mkCommand (c_order_id c) (c_price c) (c_seq c) (c_ts c) (c_qty c) (c_owner c) (c_symbol c) (c_type c) (c_side c)
    (c_ord_type c) t (c_flags c).

Lemma no_kills r c es : Forall (fun e => kills (c_order_id c) e = false) es ->
  existsb (kills (c_order_id c)) (accepted_of r c :: es) = false.
Proof. simpl. induction 1 as [|e es He _ IH]; [done|]. simpl. by rewrite He. Qed.

(** Fill-or-kill is immediate-or-cancel where that fills, and nothing where it does not. *)
Lemma fok_law r c : wf r -> min_price_ r <= max_price_ r -> 0 <= c_qty c -> c_tif c = Fok ->
  let ioc := add r (with_tif c Ioc) in
  if existsb (kills (c_order_id c)) ioc.2
  then add r c = (r, [accepted_of r c; killed_event r c (c_qty c) FokUnfilled])
  else add r c = ioc.
Proof.
  intros Hw Hb Hq Ht. unfold add. simpl. fold (limit_of r c) (stp_of r c) (post_only c) (accepted_of r c).
  destruct (Z.eqb_spec (c_order_id c) 0); [done|]. destruct (Z.eqb_spec (c_qty c) 0); [done|].
  destruct (negb _ && out_of_band _ _); [done|]. destruct (contains r (c_order_id c)) eqn:Ec; [done|].
  destruct (post_only c && _); [done|]. fold (match_order r c). destruct (match_order r c) as [[[r1 left_] stop] es] eqn:Em.
  assert (0 < c_qty c) as Hpos by lia.
  rewrite (bool_decide_true _ Ht). simpl. rewrite (fillable_exact _ _ _ _ _ _ _ _ _ _ _ Hw Hpos Em).
  destruct (wf_match _ _ _ _ _ _ _ _ _ _ _ Hw Hq Em) as (_ & _ & Hle & Hst & _).
  destruct (match_order_events _ _ _ _ _ _ Hw Hq Em) as (He & _).
  assert (existsb (kills (c_order_id c)) (accepted_of r c :: es) = false) as Hk.
  { apply no_kills. eapply Forall_impl; [done|]. intros e. by apply sweep_no_kill. }
  assert (forall e, kills (c_order_id c) e = true -> existsb (kills (c_order_id c)) (accepted_of r c :: es ++ [e]) = true) as Hk'.
  { intros e Hke. simpl. rewrite existsb_app. simpl. by rewrite Hke, orb_true_r. }
  destruct (Z.eqb_spec left_ 0) as [->|Hl]; simpl.
  { destruct stop; [lia|]. simpl in *. by rewrite Hk. }
  rewrite orb_true_r. destruct stop; cbn [snd]; rewrite Hk'; try done; unfold kills; simpl; apply Z.eqb_refl.
Qed.

Lemma push_elem s m px o : exists q, (px, q) ∈ map_push_back s m px o /\ o ∈ q.
Proof.
  induction m as [|[p q] m (q' & IH & Ho)]; simpl; [exists [o]; set_solver|]. destruct (Z.eqb_spec p px) as [->|].
  - exists (q ++ [o]). set_solver.
  - destruct (before s px p); [exists [o]|exists q']; set_solver.
Qed.

Lemma resting_none r id : contains r id = false -> from_option resting 0 (find_order r id) = 0.
Proof. intros H%contains_false. by rewrite find_order_none. Qed.

Lemma killed_one id e : kills id e = true -> killed id [e] = e_qty e.
Proof. intros H. unfold killed. rewrite filter_cons, decide_True by done. simpl. lia. Qed.

(** No quantity is lost: traded, canceled and resting quantity add up to the order's. *)
Lemma conservation_law r c : wf r -> min_price_ r <= max_price_ r -> 0 <= c_qty c -> stp_of r c <> DecrementCancel ->
  (exists why, (add r c).2 = [rejected_event c why]) \/
  traded (add r c).2 + killed (c_order_id c) (add r c).2 + from_option resting 0 (find_order (add r c).1 (c_order_id c)) = c_qty c.
Proof.
  intros Hw Hb Hq Hd. destruct (add_wf r c Hw Hb Hq) as [Hw' _]. revert Hw'.
  destruct (add_outcome r c Hw Hb Hq) as [why|_ _ _ Hc _|r1 left_ stop es r2 es2 _ _ Hc _ _ _ Hm Hs]; simpl; intros Hw'.
  - left. eauto.
  - right. rewrite (resting_none _ _ Hc). change (killed _ (accepted_of r c :: ?l)) with (killed (c_order_id c) l).
    rewrite killed_one by (unfold kills; simpl; apply Z.eqb_refl). unfold traded. simpl. lia.
  - right. destruct (match_order_events _ _ _ _ _ _ Hw Hq Hm) as (He & _ & Hsum & _). specialize (Hsum Hd).
    pose proof (match_contains _ _ _ _ _ _ Hw Hq Hm Hc) as Hc1. pose proof (settle_no_trade _ _ _ _ _ _ _ Hs) as Hnt.
    change (killed _ (accepted_of r c :: ?l)) with (killed (c_order_id c) l). change (traded (accepted_of r c :: ?l)) with (traded l).
    rewrite killed_app, traded_app, (sweep_killed r c es Hw Hc He). destruct (traded_none es2 Hnt) as [-> _].
    assert (killed (c_order_id c) es2 + from_option resting 0 (find_order r2 (c_order_id c)) = left_); [|lia].
    destruct Hs as [stop Hl|Hl|Hl _|r2 es2 Hl _ Hr].
    + by rewrite (resting_none _ _ Hc1).
    + rewrite killed_one by (unfold kills; simpl; apply Z.eqb_refl). rewrite (resting_none _ _ Hc1). simpl. lia.
    + rewrite killed_one by (unfold kills; simpl; apply Z.eqb_refl). rewrite (resting_none _ _ Hc1). simpl. lia.
    + revert Hr. unfold rest. case_if; intros [= <- <-].
      * rewrite killed_one by (unfold kills; simpl; apply Z.eqb_refl). rewrite (resting_none _ _ Hc1). simpl. lia.
      * destruct (push_elem (c_side c) (book r1 (c_side c)) (limit_of r c) (mkOrder (c_order_id c) left_ (c_owner c))) as (q & Hq' & Ho).
        rewrite <- (book_set_eq r1 (c_side c) _ (<[c_order_id c:=mkLoc (c_side c) (limit_of r c)]> (index_ r1))) in Hq'.
        pose proof (find_order_book _ _ _ _ _ Hw' Hq' Ho) as Hf. simpl in Hf. rewrite Hf. unfold killed. simpl. lia.
Qed.

(** ** Cancel and modify *)

Definition orders (m : list (Z * list Order)) : list (Z * Z * Z) := '(px, q) ← m; (fun o => (px, o_id o, o_qty o)) <$> q.
Definition amend_entry (id v : Z) (x : Z * Z * Z) : Z * Z * Z := if x.1.2 =? id then (x.1, v) else x.

Lemma orders_ids m : (fun x => x.1.2) <$> orders m = ids m.
Proof.
  unfold ids, keys, orders. induction m as [|[p q] m IH]; [done|]. simpl. rewrite !fmap_app. f_equal; [|exact IH].
  by rewrite <- !list_fmap_compose.
Qed.

Lemma orders_middle m1 p q m2 : orders (m1 ++ (p, q) :: m2) = orders m1 ++ ((fun o => (p, o_id o, o_qty o)) <$> q) ++ orders m2.
Proof. unfold orders. by rewrite bind_app. Qed.

Lemma filter_without id (l : list (Z * Z * Z)) : id ∉ ((fun x => x.1.2) <$> l) -> filter (fun x => x.1.2 <> id) l = l.
Proof.
  induction l as [|x l IH]; [done|]. rewrite fmap_cons, not_elem_of_cons. intros [Hx Hl].
  rewrite filter_cons, decide_True, IH by done. done.
Qed.

Lemma amend_without id v (l : list (Z * Z * Z)) : id ∉ ((fun x => x.1.2) <$> l) -> amend_entry id v <$> l = l.
Proof.
  induction l as [|x l IH]; [done|]. rewrite !fmap_cons, not_elem_of_cons. intros [Hx Hl]. rewrite IH by done. f_equal.
  unfold amend_entry. by rewrite (proj2 (Z.eqb_neq _ _)).
Qed.

(** An order's entry among its side's entries. *)
Record entry_at (r : t) (id : Z) (l : Loc) (o : Order) (a b : list (Z * Z * Z)) : Prop := {
  ea_deref : deref r l id = Some o;
  ea_orders : orders (book r (l_side l)) = a ++ (l_price l, id, o_qty o) :: b;
  ea_fresh_a : id ∉ ((fun x => x.1.2) <$> a);
  ea_fresh_b : id ∉ ((fun x => x.1.2) <$> b);
  ea_other : id ∉ ((fun x => x.1.2) <$> orders (book r (opposite (l_side l))));
  ea_remove r' : remove r l id = Some r' -> orders (book r' (l_side l)) = a ++ b /\
    book r' (opposite (l_side l)) = book r (opposite (l_side l));
  ea_amend v : exists q, map_find (book r (l_side l)) (l_price l) = Some q /\
    orders (map_put (book r (l_side l)) (l_price l) (queue_update q id v)) = a ++ (l_price l, id, v) :: b;
}.

Lemma orders_put m1 p (q : list Order) m2 : orders (m1 ++ (if q is [] then [] else [(p, q)]) ++ m2) =
  orders m1 ++ ((fun o => (p, o_id o, o_qty o)) <$> q) ++ orders m2.
Proof. destruct q as [|o q]; [simpl; unfold orders; by rewrite bind_app|]. apply orders_middle. Qed.

Lemma entry_of r id l : wf r -> index_ r !! id = Some l -> exists o a b, entry_at r id l o a b.
Proof.
  intros Hw Hl. destruct (deref_spec r id l Hw Hl) as (m1 & q1 & o & q2 & m2 & Hm & Hid & Hd & Hf & Her & Hput & Hupd).
  set (f := fun o => (l_price l, o_id o, o_qty o)). exists o, (orders m1 ++ (f <$> q1)), ((f <$> q2) ++ orders m2).
  assert (orders (book r (l_side l)) = (orders m1 ++ (f <$> q1)) ++ (l_price l, id, o_qty o) :: ((f <$> q2) ++ orders m2)) as Ho.
  { rewrite Hm, orders_middle, fmap_app, fmap_cons, Hid, <- !app_assoc. done. }
  pose proof (wf_ids r Hw (l_side l)) as Hn. rewrite <- orders_ids, Ho, fmap_app, fmap_cons in Hn. simpl in Hn.
  apply NoDup_app in Hn as (_ & Hn1 & (Hn2 & _)%NoDup_cons). split; try done.
  - intros Hin. apply (Hn1 _ Hin). set_solver.
  - rewrite orders_ids. intros (p & Hp)%elem_of_ids. assert (l_side l = opposite (l_side l)) as He; [|by destruct (l_side l)].
    eapply wf_one_side; [done| |done]. apply (wf_index r Hw). exact Hl.
  - intros r'. unfold remove. rewrite Hf. simpl. rewrite Her, Hput. intros [= <-].
    rewrite book_set_eq, book_set_ne by (by destruct (l_side l)). split; [|done].
    by rewrite orders_put, fmap_app, <- !app_assoc.
  - intros v. exists (q1 ++ o :: q2). split; [done|]. rewrite Hupd, Hput, orders_put, fmap_app, fmap_cons, <- !app_assoc. simpl.
    by rewrite Hid.
Qed.

Lemma entry_view r id l o a b : index_ r !! id = Some l -> entry_at r id l o a b ->
  find_order r id = Some (Some (mkOrderView (l_price l) (o_qty o) (l_side l) (o_owner o))).
Proof. intros Hl He. unfold find_order. by rewrite Hl, (ea_deref _ _ _ _ _ _ He). Qed.

Lemma sides s s' : s' = s \/ s' = opposite s.
Proof. destruct s, s'; auto. Qed.

(** Cancel takes out the order it names, and reports what was resting. *)
Lemma cancel_law r c v : wf r -> find_order r (c_order_id c) = Some (Some v) ->
  exists r', cancel r c = Some (r', [canceled_event (symbol_ r) (c_order_id c) (v_side v) (v_price v) (v_qty v) UserCanceled]) /\
    wf r' /\ same_cfg r r' /\ contains r' (c_order_id c) = false /\
    forall s, for_each_order r' s = filter (fun x => x.1.2 <> c_order_id c) (for_each_order r s).
Proof.
  intros Hw Hf. destruct (index_ r !! c_order_id c) as [l|] eqn:Hl; [|by rewrite find_order_none in Hf].
  destruct (entry_of r _ l Hw Hl) as (o & a & b & He). rewrite (entry_view _ _ _ _ _ _ Hl He) in Hf. injection Hf as <-.
  destruct (wf_remove r _ l Hw Hl) as (r' & Hr & Hw' & Hc & Hi). unfold cancel. rewrite Hl, (ea_deref _ _ _ _ _ _ He). simpl.
  rewrite Hr. simpl. eexists. split; [done|]. split; [done|]. split; [done|]. split.
  { unfold contains. rewrite Hi, lookup_delete_eq. by apply bool_decide_eq_false, is_Some_None. }
  destruct (ea_remove _ _ _ _ _ _ He r' Hr) as [Hs Ho]. intros s.
  change (orders (book r' s) = filter (fun x => x.1.2 <> c_order_id c) (orders (book r s))).
  destruct (sides (l_side l) s) as [-> | ->].
  - rewrite Hs, (ea_orders _ _ _ _ _ _ He), filter_app, filter_cons, decide_False by (intros Hn; by apply Hn).
    by rewrite (filter_without _ _ (ea_fresh_a _ _ _ _ _ _ He)), (filter_without _ _ (ea_fresh_b _ _ _ _ _ _ He)).
  - rewrite Ho. symmetry. apply filter_without, (ea_other _ _ _ _ _ _ He).
Qed.

(** A modify that keeps the price and does not raise the quantity amends the order in its place in the queue. *)
Lemma modify_in_place_law r c v : wf r -> find_order r (c_order_id c) = Some (Some v) ->
  c_price c = v_price v -> 0 < c_qty c <= v_qty v ->
  exists r', modify r c = Some (r', [modified_event (symbol_ r) (c_order_id c) (v_side v) (c_price c) (c_qty c)]) /\ wf r' /\
    forall s, for_each_order r' s = amend_entry (c_order_id c) (c_qty c) <$> for_each_order r s.
Proof.
  intros Hw Hf Hpx [Hq Hle]. destruct (index_ r !! c_order_id c) as [l|] eqn:Hl; [|by rewrite find_order_none in Hf].
  destruct (entry_of r _ l Hw Hl) as (o & a & b & He). rewrite (entry_view _ _ _ _ _ _ Hl He) in Hf. injection Hf as <-.
  simpl in *. destruct (wf_amend r _ l (c_qty c) Hw Hl Hq) as (q & Hq1 & Hw'). destruct (ea_amend _ _ _ _ _ _ He (c_qty c)) as (q' & Hq2 & Ho).
  assert (q' = q) as -> by congruence. unfold modify. rewrite (proj2 (Z.eqb_neq _ _)), Hl by lia.
  assert (out_of_band r (c_price c) = false) as ->.
  { rewrite Hpx. apply (wf_index r Hw), keys_prices, (wf_band r Hw) in Hl. unfold out_of_band. lia. }
  rewrite (ea_deref _ _ _ _ _ _ He). simpl. rewrite Hpx, Z.eqb_refl, (proj2 (Z.leb_le _ _)), Hq1 by done. simpl.
  eexists. split; [done|]. split; [done|]. intros s.
  change (orders (book (set_book r (l_side l) (map_put (book r (l_side l)) (l_price l) (queue_update q (c_order_id c) (c_qty c)))
    (index_ r)) s) = amend_entry (c_order_id c) (c_qty c) <$> orders (book r s)).
  destruct (sides (l_side l) s) as [-> | ->].
  - rewrite book_set_eq, Ho, (ea_orders _ _ _ _ _ _ He), fmap_app, fmap_cons.
    rewrite (amend_without _ _ _ (ea_fresh_a _ _ _ _ _ _ He)), (amend_without _ _ _ (ea_fresh_b _ _ _ _ _ _ He)).
    unfold amend_entry. simpl. by rewrite Z.eqb_refl.
  - rewrite book_set_ne by (by destruct (l_side l)). symmetry. apply amend_without, (ea_other _ _ _ _ _ _ He).
Qed.

(** The command of a new day limit order that takes up [v]'s owner and side. *)
Definition reentry (c : Command) (v : OrderView) : Command :=
  mkCommand (c_order_id c) (c_price c) (c_seq c) (c_ts c) (c_qty c) (v_owner v) (c_symbol c) NewOrder (v_side v) Limit Day 0.

(** Any other modify is a cancel followed by a new order: it loses its priority, and may trade. *)
Lemma modify_requeue_law r c v : wf r -> find_order r (c_order_id c) = Some (Some v) -> c_order_id c <> 0 -> 0 < c_qty c ->
  out_of_band r (c_price c) = false -> (c_price c <> v_price v \/ v_qty v < c_qty c) ->
  exists r0 e0 r' es, cancel r c = Some (r0, [e0]) /\
    add r0 (reentry c v) = (r', accepted_event (symbol_ r) (c_order_id c) (v_side v) (c_price c) (c_qty c) :: es) /\
    modify r c = Some (r', modified_event (symbol_ r) (c_order_id c) (v_side v) (c_price c) (c_qty c) :: es).
Proof.
  intros Hw Hf Hid Hq Hb Hor. destruct (index_ r !! c_order_id c) as [l|] eqn:Hl; [|by rewrite find_order_none in Hf].
  destruct (entry_of r _ l Hw Hl) as (o & a & b & He). rewrite (entry_view _ _ _ _ _ _ Hl He) in Hf. injection Hf as <-.
  simpl in *. destruct (wf_remove r _ l Hw Hl) as (r0 & Hr & Hw0 & Hc & Hi). pose proof Hc as (C1 & C2 & C3 & C4 & C5).
  unfold cancel, modify. rewrite Hl, (ea_deref _ _ _ _ _ _ He). simpl. rewrite Hr. simpl.
  rewrite (proj2 (Z.eqb_neq (c_qty c) 0)), Hb by lia.
  assert ((c_price c =? l_price l) && (c_qty c <=? o_qty o) = false) as -> by lia.
  eexists r0, _. unfold add. simpl. rewrite (proj2 (Z.eqb_neq _ _)), (proj2 (Z.eqb_neq _ _)) by (done || lia).
  unfold out_of_band in *. rewrite C2, C3, Hb.
  assert (contains r0 (c_order_id c) = false) as ->.
  { unfold contains. rewrite Hi, lookup_delete_eq. by apply bool_decide_eq_false, is_Some_None. }
  rewrite effective_stp_default, C1, C5. simpl. destruct (match_ _ _ _ _ _ _ _) as [[[r1 left_] stop] es].
  destruct (left_ =? 0); [by eauto 10|]. destruct stop; [by eauto 10|]. simpl.
  destruct (rest _ _ _ _ _ _) as [r2 es2]. by eauto 10.
Qed.

Lemma unknown_law r c : find_order r (c_order_id c) = Some None -> index_ r !! c_order_id c = None.
Proof. unfold find_order. destruct (index_ r !! _); [|done]. by destruct (deref _ _ _). Qed.

End BookLaws.
