(* ===== verification/BookTheorems.v ===== *)
(** * What the order book guarantees

    The properties of the order book over any storage layout, hash and level set that keep their laws, from its
    construction through any commands: it gives the reference book's events, answers its queries, passes its own audit,
    and keeps the rules of the exchange. *)
From Stdlib Require Import Sorted.
From S2P Require Import Prelude Common Interfaces PriceBitmap OrderStore OrderIndex ReferenceBook OrderBook.
From S2P Require Import BookRefine BookEquiv BookRules BookQueries BookLaws.
Import ReferenceBook (Order, o_id, o_qty, o_owner).
Import BookRefine BookEquiv BookRules BookQueries BookLaws.
Import (hints) PriceBitmap AosStore AosLaws SoaStore SoaLaws OrderIndex.

Module BookTheorems.

Section reached.
Context {S I B : Type} {OF : OrderFields S} {OFL : OrderFieldsLaws S} {IX : IdIndex I} {IXL : IdIndexLaws I}
  {LS : LevelSet B} {LSL : LevelSetLaws B}.
Abbreviation book := (OB.t S I B).
Implicit Types (b : book) (c : Command) (cs : list Command).

(** The book of configuration [cfg] takes the commands [cs] without undefined behaviour, every loop ending; it is then
    [b] and has reported [es]. *)
Definition runs (symbol : Z) (cfg : BookConfig) cs b (es : list Event) : Prop :=
  exists b0, OB.make symbol cfg = Some b0 /\ OB.run b0 cs = Some (b, es).
Definition reached (symbol : Z) (cfg : BookConfig) cs b : Prop := exists es, runs symbol cfg cs b es.

(** [c] then takes the book from [b] to [b'], reporting [es]. *)
Record stepped (symbol : Z) (cfg : BookConfig) cs b c b' (es : list Event) : Prop := {
  sp_cfg : cfg_ok cfg;
  sp_cmds : commands_ok cfg (cs ++ [c]);
  sp_reached : reached symbol cfg cs b;
  sp_step : OB.step b c = Some (b', es);
}.

(** The price an order may trade up to (or down to). *)
Definition order_limit (cfg : BookConfig) c : Z :=
  if bool_decide (c_ord_type c = Market) then
    match c_side c with Buy => cfg_min_price cfg + cfg_num_levels cfg - 1 | Sell => cfg_min_price cfg end
  else c_price c.
Definition order_stp (cfg : BookConfig) c : Stp := effective_stp (c_flags c) (cfg_stp cfg).

(** Two books no query can tell apart. *)
Definition same_orders b b' : Prop :=
  (forall id, OB.find_order b' id = OB.find_order b id) /\ (forall s, OB.for_each_order b' s = OB.for_each_order b s).

Lemma commands_ok_app cfg cs c : commands_ok cfg (cs ++ [c]) -> commands_ok cfg cs.
Proof.
  unfold commands_ok. rewrite !Forall_app. intros [[? _] [[? _]|(Q & ? & ? & Hq)]]; (split; [done|]); [by left|right].
  exists Q. by apply Forall_app in Hq as [? _].
Qed.

Lemma run_ok_last cs c : forall r r' es, run_ok r (cs ++ [c]) -> RB.run r cs = Some (r', es) -> cmd_ok r' c.
Proof.
  induction cs as [|c0 cs IH]; intros r r' es Hok Hr; simpl in *; [by simplify_eq; destruct Hok|].
  destruct Hok as [_ Hok]. destruct (RB.step r c0) as [[r1 es1]|] eqn:E; [|done]. simpl in Hr.
  destruct (RB.run r1 cs) as [[r2 es2]|] eqn:E2; [|done]. simplify_eq/=. by apply (IH r1 r' es2); [apply (Hok r1 es1)|].
Qed.

Lemma reached_ref symbol cfg cs b : cfg_ok cfg -> commands_ok cfg cs -> reached symbol cfg cs b ->
  exists r es, RB.run (RB.make symbol cfg) cs = Some (r, es) /\ R b r /\ RB.wf r /\ RB.same_cfg (RB.make symbol cfg) r.
Proof.
  intros Hcfg Hcs (es & b0 & Hm & Hr). destruct (whole_run symbol cfg cs Hcfg Hcs) as (b1 & b2 & r & es' & Hm' & Hr' & Hrb & HR).
  assert (b1 = b0) as -> by congruence. assert (b2 = b) as -> by congruence. exists r, es'. split_and!; try done.
  - destruct HR as (cap & M & fl & Hrel). exact (rel_wf _ _ _ _ _ Hrel).
  - destruct (make_config symbol cfg Hcfg) as (Hc & Hw & _). destruct Hc as (_ & _ & _ & Hle).
    destruct (RB.run_ok cs (RB.make symbol cfg) Hw Hle) as (r1 & es1 & Hr1 & _ & Hs); [|congruence].
    destruct Hcs as [Hp _]. eapply Forall_impl; [exact Hp|]. by intros c [_ ?].
Qed.

(** What [stepped] gives: the reference book beside, and its step. *)
Record beside (symbol : Z) (cfg : BookConfig) b c b' (es : list Event) (r r' : RB.t) : Prop := {
  bs_R : R b r;
  bs_R' : R b' r';
  bs_wf : RB.wf r;
  bs_cfg : RB.same_cfg (RB.make symbol cfg) r;
  bs_band : RB.min_price_ r <= RB.max_price_ r;
  bs_qty : 0 <= c_qty c;
  bs_ok : cmd_ok r c;
  bs_step : RB.step r c = Some (r', es);
}.

Lemma step_beside symbol cfg cs b c b' es : stepped symbol cfg cs b c b' es -> exists r r', beside symbol cfg b c b' es r r'.
Proof.
  intros [Hcfg Hcs Hre Hst]. destruct (reached_ref symbol cfg cs b Hcfg (commands_ok_app _ _ _ Hcs) Hre) as (r & es0 & Hr & HR & Hw & Hc).
  pose proof (run_ok_last _ _ _ _ _ (commands_run_ok symbol cfg _ Hcfg Hcs) Hr) as Hok.
  destruct (step_refines b r c HR Hok) as (b1 & r' & es1 & Hb & Hrs & HR'). assert (b1 = b' /\ es1 = es) as [-> ->] by (split; congruence).
  exists r, r'. split; try done; [|apply Hok]. destruct Hc as (_ & -> & -> & _). simpl. destruct Hcfg as ([[? _] _] & _). lia.
Qed.

Lemma add_beside symbol cfg cs b c b' es : stepped symbol cfg cs b c b' es -> c_type c = NewOrder ->
  exists r r', beside symbol cfg b c b' es r r' /\ RB.add r c = (r', es).
Proof.
  intros Hs Ht. destruct (step_beside _ _ _ _ _ _ _ Hs) as (r & r' & Hb). exists r, r'. split; [done|].
  pose proof (bs_step _ _ _ _ _ _ _ _ Hb) as Hst. unfold RB.step in Hst. rewrite Ht in Hst. by injection Hst.
Qed.

Lemma order_limit_eq symbol cfg r c : RB.same_cfg (RB.make symbol cfg) r -> order_limit cfg c = RB.limit_of r c.
Proof. intros (_ & E1 & E2 & _). unfold order_limit, RB.limit_of. rewrite E1, E2. done. Qed.
Lemma order_stp_eq symbol cfg r c : RB.same_cfg (RB.make symbol cfg) r -> order_stp cfg c = stp_of r c.
Proof. intros (_ & _ & _ & _ & E). unfold order_stp, stp_of. by rewrite E. Qed.

Lemma R_same_orders b1 b2 r : R b1 r -> R b2 r -> same_orders b1 b2.
Proof.
  intros H1 H2. split; intros x; [by rewrite (find_order_spec b1 r), (find_order_spec b2 r)|].
  by rewrite (for_each_order_spec b1 r), (for_each_order_spec b2 r).
Qed.
End reached.

(** ** A concrete book for the examples: sixty-four prices from 100, room for eight orders *)

Definition demo_cfg : BookConfig := mkBookConfig 100 64 8 StpNone.
Definition order (id : Z) (side : Side) (px qty owner : Z) (ot : OrdType) (tif : Tif) (flags : Z) : Command :=
  mkCommand id px 0 0 qty owner 1 NewOrder side ot tif flags.
Definition request (ty : MsgType) (id px qty : Z) : Command := mkCommand id px 0 0 qty 0 1 ty Buy Limit Day 0.
Abbreviation demo_book := (OB.t AosStore.t (OrderIndex.t LocalityHash) PriceBitmap.t).

Definition demo_cmds : list Command :=
  [order 1 Sell 110 5 1 Limit Day 0; order 2 Sell 110 7 2 Limit Day 0; order 3 Sell 112 4 3 Limit Day 0;
   order 4 Buy 105 6 1 Limit Day 0; request Cancel 9 0 0].

Definition demo_at (cs : list Command) : option demo_book := b ← OB.make 1 demo_cfg; fst <$> OB.run b cs.

Lemma demo_cfg_ok : cfg_ok demo_cfg.
Proof. unfold cfg_ok, level_count_ok, in_i64, kNil. simpl. split_and!; try done; lia. Qed.

Lemma demo_commands_ok cs : bool_decide (Forall (fun c => 0 <= c_qty c <= 1000 /\ 0 <= c_price c <= 1000) cs) = true ->
  commands_ok demo_cfg cs.
Proof.
  intros H%bool_decide_eq_true. split; [|right; exists 1000; split_and!; try done].
  - eapply Forall_impl; [exact H|]. intros c [? ?]. unfold price_ok, in_i64. simpl. lia.
  - eapply Forall_impl; [exact H|]. by intros c [[_ ?] _].
Qed.

Lemma demo_reached cs b : demo_at cs = Some b -> reached 1 demo_cfg cs b.
Proof.
  unfold demo_at, reached, runs. destruct (OB.make 1 demo_cfg) as [b0|]; [|done]. simpl.
  destruct (OB.run b0 cs) as [[b1 es]|] eqn:E; [|done]. intros [= ->]. eauto.
Qed.

Lemma demo_stepped cs c b b' es : bool_decide (Forall (fun c => 0 <= c_qty c <= 1000 /\ 0 <= c_price c <= 1000) (cs ++ [c])) = true ->
  demo_at cs = Some b -> OB.step b c = Some (b', es) -> stepped 1 demo_cfg cs b c b' es.
Proof. intros H1 H2 H3. split; [apply demo_cfg_ok|by apply demo_commands_ok|by apply demo_reached|done]. Qed.

(** ** The properties *)

Section properties.
Context {S I B : Type} {OF : OrderFields S} {OFL : OrderFieldsLaws S} {IX : IdIndex I} {IXL : IdIndexLaws I}
  {LS : LevelSet B} {LSL : LevelSetLaws B}.
Abbreviation book := (OB.t S I B).
Implicit Types (b : book) (c : Command) (cs : list Command).

(** C1: the order book is equivalent to the textbook reference book: from construction, over any sequence of commands
    within the stated bounds, it hits no undefined behaviour, every loop ends, and it reports exactly the reference
    book's events. *)
Theorem order_book_refines_reference symbol cfg cs : cfg_ok cfg -> commands_ok cfg cs ->
  exists b r es, runs symbol cfg cs b es /\ RB.run (RB.make symbol cfg) cs = Some (r, es).
Proof.
  intros Hcfg Hcs. destruct (whole_run symbol cfg cs Hcfg Hcs) as (b & b' & r & es & ? & ? & ? & _).
  exists b', r, es. split; [by exists b|done].
Qed.

(** C2: a reachable book passes its structural audit (links, counts, aggregates, bitmaps and index agree), holds no more
    orders than its capacity, and is not crossed. *)
Theorem order_book_audit symbol cfg cs b : cfg_ok cfg -> commands_ok cfg cs -> reached symbol cfg cs b ->
  OB.check_invariants b = Some true /\ 0 <= OB.order_count b <= cfg_max_orders cfg /\
  (forall bid ask, OB.best_bid b = Some bid -> OB.best_ask b = Some ask ->
    cfg_min_price cfg <= bid < ask /\ ask < cfg_min_price cfg + cfg_num_levels cfg).
Proof.
  intros Hcfg Hcs Hre. destruct (reached_ref symbol cfg cs b Hcfg Hcs Hre) as (r & es & _ & HR & Hw & Hc).
  split; [by eapply check_invariants_spec|]. rewrite (order_count_spec b r HR). destruct Hc as (_ & C2 & C3 & C4 & _).
  split. { pose proof (RB.wf_cap r Hw). unfold RB.order_count in *. simpl in C4. lia. }
  intros bid ask. rewrite (best_bid_spec b r HR), (best_ask_spec b r HR). unfold RB.best_bid, RB.best_ask.
  pose proof (RB.wf_uncrossed r Hw) as Hu. pose proof (RB.wf_band r Hw Buy) as Hb. pose proof (RB.wf_band r Hw Sell) as Ha.
  simpl in *. destruct (RB.bids_ r) as [|[pb qb] mb]; [done|]. destruct (RB.asks_ r) as [|[pa qa] ma]; [done|]. simpl.
  intros [= <-] [= <-]. specialize (Hu pb pa ltac:(by left) ltac:(by left)). specialize (Hb pb ltac:(by left)).
  specialize (Ha pa ltac:(by left)). lia.
Qed.


(** C4: every trade a command for a new order reports has that order as taker, and as maker an order that was resting on
    the other side, at the maker's price, within the taker's limit, for no more than what was resting, with the maker's
    remainder reported, and never between orders of one owner under self-trade prevention. *)
Theorem trades_within_limit symbol cfg cs b c b' es : stepped symbol cfg cs b c b' es -> c_type c = NewOrder ->
  Forall (fun e => e_type e = Trade -> trade_rule (OB.find_order b) (order_stp cfg c) (order_limit cfg c) c e) es.
Proof.
  intros Hs Ht. destruct (step_beside _ _ _ _ _ _ _ Hs) as (r & r' & [HR _ Hw Hc Hb Hq _ Hst]). unfold RB.step in Hst. rewrite Ht in Hst.
  injection Hst as Hst. pose proof (trades_law r c Hw Hb Hq) as Hl. rewrite Hst in Hl. eapply Forall_impl; [exact Hl|].
  intros e He Het. destruct (He Het) as (? & ? & v & ? & Hv). split; [done|]. split; [done|]. exists v.
  by rewrite (find_order_spec b r), (order_stp_eq _ _ _ _ Hc), (order_limit_eq _ _ _ _ Hc).
Qed.

(** C3: price-time priority: the makers a new order trades with are met in the order in which the book lists the other
    side, and what that side loses is a prefix of this list: no order is passed over and survives. *)
Theorem price_time_priority symbol cfg cs b c b' es : stepped symbol cfg cs b c b' es -> c_type c = NewOrder ->
  exists before after gone,
    OB.for_each_order b (opposite (c_side c)) = Some before /\ OB.for_each_order b' (opposite (c_side c)) = Some after /\
    makers es `sublist_of` (order_key <$> before) /\ order_key <$> before = gone ++ (order_key <$> after).
Proof.
  intros Hs Ht. destruct (add_beside _ _ _ _ _ _ _ Hs Ht) as (r & r' & [HR HR' Hw Hc Hb Hq _ _] & Hst).
  pose proof (priority_law r c Hw Hb Hq) as [Hm [gone Hg]]. rewrite Hst in Hm, Hg.
  exists (RB.for_each_order r (opposite (c_side c))), (RB.for_each_order r' (opposite (c_side c))), gone.
  rewrite (for_each_order_spec b r), (for_each_order_spec b' r') by done. by rewrite !order_keys.
Qed.

(** C5: a fill-or-kill order does what an immediate-or-cancel order does where that one fills entirely; where it would not,
    it reports its acceptance and one cancellation of its whole quantity, and leaves every order as it was. *)
Theorem fill_or_kill symbol cfg cs b c b' es bi ei : stepped symbol cfg cs b c b' es -> c_type c = NewOrder -> c_tif c = Fok ->
  OB.step b (with_tif c Ioc) = Some (bi, ei) ->
  if existsb (kills (c_order_id c)) ei
  then (exists acc kill, es = [acc; kill] /\ e_type acc = Accepted /\ kills (c_order_id c) kill = true /\
      e_reason kill = FokUnfilled /\ e_qty kill = c_qty c) /\ same_orders b b'
  else es = ei /\ same_orders bi b'.
Proof.
  intros Hs Ht Htif Hi. destruct (step_beside _ _ _ _ _ _ _ Hs) as (r & r' & [HR HR' Hw Hc Hb Hq Hok Hst]).
  assert (cmd_ok r (with_tif c Ioc)) as Hok' by (split; [apply Hok|apply Hok|done]).
  destruct (step_refines b r (with_tif c Ioc) HR Hok') as (b1 & r1 & e1 & Hb1 & Hr1 & HR1).
  assert (b1 = bi /\ e1 = ei) as [-> ->] by (split; congruence). unfold RB.step in Hst, Hr1. simpl in Hr1. rewrite Ht in Hst, Hr1.
  injection Hst as Hst. injection Hr1 as Hr1. pose proof (fok_law r c Hw Hb Hq Htif) as Hl. simpl in Hl. rewrite Hr1 in Hl.
  simpl in Hl. destruct (existsb _ ei); rewrite Hl in Hst; injection Hst as <- <-.
  - split; [|by eapply R_same_orders]. eexists _, _. split_and!; try done. unfold kills. simpl. apply Z.eqb_refl.
  - split; [done|]. by eapply R_same_orders.
Qed.

(** A market, immediate-or-cancel or fill-or-kill order never rests: its id is in the book afterwards exactly if it was
    before. *)
Theorem immediate_never_rests symbol cfg cs b c b' es : stepped symbol cfg cs b c b' es -> c_type c = NewOrder ->
  immediate c = true -> OB.contains b' (c_order_id c) = OB.contains b (c_order_id c).
Proof.
  intros Hs Ht Him. destruct (add_beside _ _ _ _ _ _ _ Hs Ht) as (r & r' & [HR HR' Hw Hc Hb Hq _ _] & Hst).
  rewrite (contains_spec b r), (contains_spec b' r') by done.
  pose proof (no_rest_law r c Hw Hb Hq Him) as Hl. rewrite Hst in Hl. by rewrite <- Hl.
Qed.

(** A post-only order never trades, and never changes the other side of the book. *)
Lemma post_only_never_trades symbol cfg cs b c b' es : stepped symbol cfg cs b c b' es -> c_type c = NewOrder ->
  post_only c = true -> Forall (fun e => e_type e <> Trade) es /\
  OB.for_each_order b' (opposite (c_side c)) = OB.for_each_order b (opposite (c_side c)).
Proof.
  intros Hs Ht Hp. destruct (add_beside _ _ _ _ _ _ _ Hs Ht) as (r & r' & [HR HR' Hw Hc Hb Hq _ _] & Hst).
  pose proof (post_only_law r c Hw Hb Hq Hp) as [Hl Ho]. rewrite Hst in Hl, Ho. simpl in Hl, Ho. split; [done|].
  rewrite (for_each_order_spec b r), (for_each_order_spec b' r') by done. unfold RB.for_each_order.
  by rewrite Ho.
Qed.


(** A cancel takes out exactly the order it names and reports its remaining quantity; for an unknown id it is rejected
    and leaves every order as it was. *)
Lemma cancel_exact symbol cfg cs b c b' es : stepped symbol cfg cs b c b' es -> c_type c = Cancel ->
  match OB.find_order b (c_order_id c) with
  | Some (Some v) =>
      es = [canceled_event symbol (c_order_id c) (v_side v) (v_price v) (v_qty v) UserCanceled] /\
      OB.contains b' (c_order_id c) = Some false /\
      forall s, OB.for_each_order b' s = filter (fun x => x.1.2 <> c_order_id c) <$> OB.for_each_order b s
  | _ => es = [rejected_event c UnknownOrder] /\ same_orders b b'
  end.
Proof.
  intros Hs Ht. destruct (step_beside _ _ _ _ _ _ _ Hs) as (r & r' & [HR HR' Hw Hc Hb Hq _ Hst]). unfold RB.step in Hst. rewrite Ht in Hst.
  rewrite (find_order_spec b r) by done. destruct (RB.find_order r (c_order_id c)) as [[v|]|] eqn:Hf.
  - destruct (cancel_law r c v Hw Hf) as (r1 & Hr1 & _ & _ & Hn & Ho). rewrite Hr1 in Hst. injection Hst as -> <-.
    destruct Hc as [-> _]. split; [done|]. rewrite (contains_spec b' r'), Hn by done. split; [done|]. intros s.
    by rewrite (for_each_order_spec b r), (for_each_order_spec b' r'), Ho by done.
  - apply unknown_law in Hf. unfold RB.cancel in Hst. rewrite Hf in Hst. injection Hst as <- <-. split; [done|].
    by eapply R_same_orders.
  - exfalso. unfold RB.find_order in Hf. destruct (RB.index_ r !! c_order_id c) as [l|] eqn:Hl; [|done].
    destruct (entry_of r _ l Hw Hl) as (o & x & y & He). by rewrite (ea_deref _ _ _ _ _ _ He) in Hf.
Qed.

(** A modify that keeps the price and does not raise the quantity changes the quantity in place: the order keeps its
    position in the queue, and nothing trades. *)
Theorem modify_keeps_priority symbol cfg cs b c b' es v : stepped symbol cfg cs b c b' es -> c_type c = Modify ->
  OB.find_order b (c_order_id c) = Some (Some v) -> c_price c = v_price v -> 0 < c_qty c <= v_qty v ->
  es = [modified_event symbol (c_order_id c) (v_side v) (c_price c) (c_qty c)] /\
  forall s, OB.for_each_order b' s = (fun l : list (Z * Z * Z) => amend_entry (c_order_id c) (c_qty c) <$> l) <$> OB.for_each_order b s.
Proof.
  intros Hs Ht Hf Hpx Hle. destruct (step_beside _ _ _ _ _ _ _ Hs) as (r & r' & [HR HR' Hw Hc Hb Hq _ Hst]). unfold RB.step in Hst. rewrite Ht in Hst.
  rewrite (find_order_spec b r) in Hf by done. destruct (modify_in_place_law r c v Hw Hf Hpx Hle) as (r1 & Hr1 & _ & Ho).
  rewrite Hr1 in Hst. injection Hst as -> <-. destruct Hc as [-> _]. split; [done|]. intros s.
  by rewrite (for_each_order_spec b r), (for_each_order_spec b' r'), Ho by done.
Qed.

(** Any other modify within the band is a cancel followed by a new day limit order of the same owner and side: it
    joins the back of its queue, and it may trade. *)
Lemma modify_requeues symbol cfg cs b c b' es v : stepped symbol cfg cs b c b' es -> c_type c = Modify ->
  OB.find_order b (c_order_id c) = Some (Some v) -> c_order_id c <> 0 -> 0 < c_qty c ->
  cfg_min_price cfg <= c_price c < cfg_min_price cfg + cfg_num_levels cfg ->
  c_price c <> v_price v \/ v_qty v < c_qty c ->
  exists b0 e0 b2 es', OB.step b (request Cancel (c_order_id c) (c_price c) (c_qty c)) = Some (b0, [e0]) /\
    OB.step b0 (reentry c v) = Some (b2, accepted_event symbol (c_order_id c) (v_side v) (c_price c) (c_qty c) :: es') /\
    es = modified_event symbol (c_order_id c) (v_side v) (c_price c) (c_qty c) :: es' /\ same_orders b2 b'.
Proof.
  intros Hs Ht Hf Hid Hq0 Hin Hor. destruct (step_beside _ _ _ _ _ _ _ Hs) as (r & r' & [HR HR' Hw Hc Hb Hq Hok Hst]).
  unfold RB.step in Hst. rewrite Ht in Hst. rewrite (find_order_spec b r) in Hf by done. pose proof Hc as (C1 & C2 & C3 & _).
  simpl in C1, C2, C3. assert (RB.out_of_band r (c_price c) = false) as Hband by (unfold RB.out_of_band; lia).
  destruct (modify_requeue_law r c v Hw Hf Hid Hq0 Hband Hor) as (r0 & e0 & r1 & es' & Hr0 & Hr1 & Hr).
  set (cc := request Cancel (c_order_id c) (c_price c) (c_qty c)).
  assert (cmd_ok r cc) as Hok1 by (split; [apply Hok|done|done]).
  destruct (step_refines b r cc HR Hok1) as (b0 & r0' & e0' & Hb0 & Hs0 & HR0).
  assert (RB.cancel r cc = RB.cancel r c) as Hcc. { unfold RB.cancel, RB.find_order in *. simpl. by destruct (RB.index_ r !! _). }
  assert (r0' = r0 /\ e0' = [e0]) as [-> ->]. { change (RB.cancel r cc = Some (r0', e0')) in Hs0. split; congruence. }
  destruct (RB.cancel_ok r c Hw) as (r0' & e0' & Hr0' & _ & (_ & D2 & _)). assert (r0' = r0) as -> by congruence.
  assert (cmd_ok r0 (reentry c v)) as Hok2 by (split; [rewrite D2; apply Hok|done|done]).
  destruct (step_refines b0 r0 (reentry c v) HR0 Hok2) as (b2 & r2 & es2 & Hb2 & Hs2 & HR2).
  assert (r2 = r1 /\ es2 = accepted_event (RB.symbol_ r) (c_order_id c) (v_side v) (c_price c) (c_qty c) :: es') as [-> ->].
  { unfold RB.step in Hs2. simpl in Hs2. split; congruence. }
  rewrite C1 in *. rewrite Hr in Hst. injection Hst as -> <-. exists b0, e0, b2, es'. split_and!; try done. by eapply R_same_orders.
Qed.
End properties.

Section two_layouts.
Context {S1 I1 B1 S2 I2 B2 : Type} {OF1 : OrderFields S1} {OFL1 : OrderFieldsLaws S1} {IX1 : IdIndex I1} {IXL1 : IdIndexLaws I1}
  {LS1 : LevelSet B1} {LSL1 : LevelSetLaws B1} {OF2 : OrderFields S2} {OFL2 : OrderFieldsLaws S2} {IX2 : IdIndex I2}
  {IXL2 : IdIndexLaws I2} {LS2 : LevelSet B2} {LSL2 : LevelSetLaws B2}.

(** The storage layout and the hash are invisible: two books of one configuration, whatever their layouts, report the
    same events for the same commands and then list the same orders. *)
Theorem layouts_agree symbol cfg cs : cfg_ok cfg -> commands_ok cfg cs ->
  exists (b1 : OB.t S1 I1 B1) (b2 : OB.t S2 I2 B2) es, runs symbol cfg cs b1 es /\ runs symbol cfg cs b2 es /\
    (forall id, OB.find_order b1 id = OB.find_order b2 id) /\ (forall s, OB.for_each_order b1 s = OB.for_each_order b2 s).
Proof.
  intros Hcfg Hcs. destruct (whole_run (S := S1) (I := I1) (B := B1) symbol cfg cs Hcfg Hcs) as (b1 & b1' & r1 & e1 & M1 & X1 & Y1 & R1).
  destruct (whole_run (S := S2) (I := I2) (B := B2) symbol cfg cs Hcfg Hcs) as (b2 & b2' & r2 & e2 & M2 & X2 & Y2 & R2).
  assert (e2 = e1) as -> by congruence. assert (r2 = r1) as -> by congruence. exists b1', b2', e1. split_and!; [by exists b1|by exists b2|..].
  - intros id. by rewrite (find_order_spec b1' r1), (find_order_spec b2' r1).
  - intros s. by rewrite (for_each_order_spec b1' r1), (for_each_order_spec b2' r1).
Qed.
End two_layouts.

(** ** Where the conditions on the commands are needed *)

(** Two resting orders whose quantities add up to 2^64, then a fill-or-kill order for one unit. *)
Definition wrap_cmds : list Command :=
  [order 1 Sell 110 9223372036854775808 1 Limit Day 0; order 2 Sell 110 9223372036854775808 2 Limit Day 0;
   order 3 Buy 110 1 3 Limit Fok 0].

(** The level aggregate wraps at 64 bits, and the fill-or-kill check that reads it then cancels an order that the
    reference book fills. *)
Theorem fok_wrapped_aggregate :
  (b ← OB.make 1 demo_cfg; '(_, es) ← OB.run (b : demo_book) wrap_cmds; last es) = Some (canceled_event 1 3 Buy 110 1 FokUnfilled) /\
  ('(_, es) ← RB.run (RB.make 1 demo_cfg) wrap_cmds; last es) = Some (trade_event 1 3 1 Buy 110 1 9223372036854775807).
Proof. split; vm_compute; reflexivity. Qed.

(** The book subtracts its lowest price from the price a client sent before it checks the band: for a price near the
    lowest 64-bit integer the signed subtraction overflows, where the reference book rejects the order. *)
Theorem price_subtraction_overflow :
  (b ← OB.make 1 demo_cfg; snd <$> OB.add (b : demo_book) (order 1 Buy (-9223372036854775808) 1 1 Limit Day 0)) = None /\
  (RB.add (RB.make 1 demo_cfg) (order 1 Buy (-9223372036854775808) 1 1 Limit Day 0)).2 =
    [rejected_event (order 1 Buy (-9223372036854775808) 1 1 Limit Day 0) InvalidPrice].
Proof. split; vm_compute; reflexivity. Qed.

(** ** Witnesses *)

(** The demo book before and after [c], with what [c] reports. *)
Definition demo_run (cs : list Command) (c : Command) : option (demo_book * demo_book * list Event) :=
  b ← demo_at cs; '(b', es) ← OB.step b c; Some (b, b', es).

(** The commands keep the conditions, the run ends, and the test [P] holds of it. *)
Definition demo_test (cs : list Command) (c : Command) (P : demo_book -> demo_book -> list Event -> bool) : bool :=
  bool_decide (Forall (fun c => 0 <= c_qty c <= 1000 /\ 0 <= c_price c <= 1000) (cs ++ [c])) &&
  match demo_run cs c with Some (b, b', es) => P b b' es | None => false end.

Lemma demo_runs cs c P : demo_test cs c P = true ->
  exists b b' es, stepped 1 demo_cfg cs b c b' es /\ P b b' es = true.
Proof.
  unfold demo_test, demo_run. intros [H1 H2]%andb_prop. destruct (demo_at cs) as [b|] eqn:E; [|done]. simpl in H2.
  destruct (OB.step b c) as [[b' es]|] eqn:E'; [|done]. simpl in H2. exists b, b', es. split; [by apply demo_stepped|done].
Qed.

Definition buy9 : Command := order 7 Buy 111 9 3 Limit Day 0.
Definition fok_buy (qty : Z) : Command := order 7 Buy 111 qty 3 Limit Fok 0.

Lemma order_book_refines_reference_witness : exists (b : demo_book) r es, runs 1 demo_cfg demo_cmds b es /\
  RB.run (RB.make 1 demo_cfg) demo_cmds = Some (r, es).
Proof. apply (order_book_refines_reference 1 demo_cfg demo_cmds demo_cfg_ok). apply demo_commands_ok. vm_compute. reflexivity. Defined.

Lemma order_book_audit_witness : exists b : demo_book, OB.order_count b = 4 /\ OB.check_invariants b = Some true /\
  0 <= OB.order_count b <= 8 /\ (forall bid ask, OB.best_bid b = Some bid -> OB.best_ask b = Some ask -> 100 <= bid < ask /\ ask < 164).
Proof.
  destruct (demo_runs demo_cmds buy9 (fun b _ _ => OB.order_count b =? 4)) as (b & b' & es & [Hc Hcs Hr _] & Hp); [vm_compute; reflexivity|].
  exists b. split; [by apply Z.eqb_eq|]. exact (order_book_audit 1 demo_cfg demo_cmds b Hc (commands_ok_app _ _ _ Hcs) Hr).
Defined.


Lemma trades_within_limit_witness : exists (b : demo_book) es, length (filter (fun e => e_type e = Trade) es) = 2%nat /\
  Forall (fun e => e_type e = Trade -> trade_rule (OB.find_order b) StpNone 111 buy9 e) es.
Proof.
  destruct (demo_runs demo_cmds buy9 (fun _ _ es => bool_decide (length (filter (fun e => e_type e = Trade) es) = 2%nat)))
    as (b & b' & es & Hs & Hp); [vm_compute; reflexivity|]. exists b, es. split; [by apply bool_decide_eq_true in Hp|].
  exact (trades_within_limit _ _ _ _ _ _ _ Hs eq_refl).
Defined.

Lemma price_time_priority_witness : exists (b b' : demo_book) es before after gone, traded es = 9 /\
    OB.for_each_order b Sell = Some before /\ OB.for_each_order b' Sell = Some after /\
    makers es `sublist_of` (order_key <$> before) /\ order_key <$> before = gone ++ (order_key <$> after).
Proof.
  destruct (demo_runs demo_cmds buy9 (fun _ _ es => traded es =? 9)) as (b & b' & es & Hs & Hp); [vm_compute; reflexivity|].
  destruct (price_time_priority _ _ _ _ _ _ _ Hs eq_refl) as (x & y & g & H). exists b, b', es, x, y, g.
  split; [by apply Z.eqb_eq|exact H].
Defined.

Lemma fill_or_kill_witness : exists (b b' : demo_book) es, same_orders b b' /\
  exists acc kill, es = [acc; kill] /\ e_type acc = Accepted /\ kills 7 kill = true /\ e_reason kill = FokUnfilled /\ e_qty kill = 30.
Proof.
  destruct (demo_runs demo_cmds (fok_buy 30) (fun b _ _ =>
    match OB.step b (with_tif (fok_buy 30) Ioc) with Some (_, ei) => existsb (kills 7) ei | None => false end))
    as (b & b' & es & Hs & Hp); [vm_compute; reflexivity|].
  destruct (OB.step b (with_tif (fok_buy 30) Ioc)) as [[bi ei]|] eqn:Hi; [|discriminate].
  pose proof (fill_or_kill _ _ _ _ _ _ _ _ _ Hs eq_refl eq_refl Hi) as H. change (c_order_id (fok_buy 30)) with 7 in H.
  rewrite Hp in H. exists b, b', es. split; apply H.
Defined.

Lemma immediate_never_rests_witness : exists (b b' : demo_book) es, traded es = 12 /\ OB.contains b' 7 = OB.contains b 7.
Proof.
  destruct (demo_runs demo_cmds (with_tif (fok_buy 30) Ioc) (fun _ _ es => traded es =? 12)) as (b & b' & es & Hs & Hp);
    [vm_compute; reflexivity|].
  exists b, b', es. split; [by apply Z.eqb_eq|]. exact (immediate_never_rests _ _ _ _ _ _ _ Hs eq_refl eq_refl).
Defined.

Lemma post_only_never_trades_witness : exists (b b' : demo_book) es, length es = 1%nat /\
  Forall (fun e => e_type e <> Trade) es /\ OB.for_each_order b' Sell = OB.for_each_order b Sell.
Proof.
  destruct (demo_runs demo_cmds (order 7 Buy 111 9 3 Limit Day 1) (fun _ _ es => bool_decide (length es = 1%nat)))
    as (b & b' & es & Hs & Hp); [vm_compute; reflexivity|].
  exists b, b', es. split; [by apply bool_decide_eq_true in Hp|]. exact (post_only_never_trades _ _ _ _ _ _ _ Hs eq_refl eq_refl).
Defined.


Lemma cancel_exact_witness : exists (b b' : demo_book),
  OB.find_order b 2 = Some (Some (mkOrderView 110 7 Sell 2)) /\ OB.contains b' 2 = Some false.
Proof.
  destruct (demo_runs demo_cmds (request Cancel 2 0 0) (fun b _ _ => bool_decide (OB.find_order b 2 = Some (Some (mkOrderView 110 7 Sell 2)))))
    as (b & b' & es & Hs & Hp); [vm_compute; reflexivity|]. apply bool_decide_eq_true in Hp. exists b, b'. split; [done|].
  pose proof (cancel_exact _ _ _ _ _ _ _ Hs eq_refl) as H. change (c_order_id (request Cancel 2 0 0)) with 2 in H. rewrite Hp in H. apply H.
Defined.

Lemma modify_keeps_priority_witness : exists (b b' : demo_book) es,
  es = [modified_event 1 2 Sell 110 3] /\
  forall s, OB.for_each_order b' s = (fun l : list (Z * Z * Z) => amend_entry 2 3 <$> l) <$> OB.for_each_order b s.
Proof.
  destruct (demo_runs demo_cmds (request Modify 2 110 3) (fun b _ _ => bool_decide (OB.find_order b 2 = Some (Some (mkOrderView 110 7 Sell 2)))))
    as (b & b' & es & Hs & Hp); [vm_compute; reflexivity|]. apply bool_decide_eq_true in Hp. exists b, b', es.
  refine (modify_keeps_priority _ _ _ _ _ _ _ _ Hs eq_refl Hp eq_refl _). simpl. lia.
Defined.

Lemma modify_requeues_witness : exists (b b' : demo_book) es b0 e0 b2 es',
  OB.step b (request Cancel 2 105 9) = Some (b0, [e0]) /\
  OB.step b0 (reentry (request Modify 2 105 9) (mkOrderView 110 7 Sell 2)) = Some (b2, accepted_event 1 2 Sell 105 9 :: es') /\
  es = modified_event 1 2 Sell 105 9 :: es' /\ same_orders b2 b'.
Proof.
  destruct (demo_runs demo_cmds (request Modify 2 105 9) (fun b _ _ => bool_decide (OB.find_order b 2 = Some (Some (mkOrderView 110 7 Sell 2)))))
    as (b & b' & es & Hs & Hp); [vm_compute; reflexivity|]. apply bool_decide_eq_true in Hp. exists b, b', es.
  refine (modify_requeues _ _ _ _ _ _ _ _ Hs eq_refl Hp _ _ _ _); simpl; lia.
Defined.

Lemma layouts_agree_witness : exists (b1 : demo_book) (b2 : OB.t SoaStore.t (OrderIndex.t ScatterHash) PriceBitmap.t) es,
  runs 1 demo_cfg demo_cmds b1 es /\ runs 1 demo_cfg demo_cmds b2 es /\
  (forall id, OB.find_order b1 id = OB.find_order b2 id) /\ (forall s, OB.for_each_order b1 s = OB.for_each_order b2 s).
Proof.
  apply (layouts_agree 1 demo_cfg demo_cmds demo_cfg_ok). apply demo_commands_ok. vm_compute. reflexivity.
Defined.

End BookTheorems.
