(* ===== verification/Engine.v ===== *)
(** * The multi-symbol engine and the event sinks (matching_engine.hpp, sinks.hpp)

    The engine routes commands to one book per symbol. It is a template over the book, here a class; the fast book and
    the reference book are its instances. The digest of an event stream is how runs are compared. *)
From S2P Require Import Prelude Bits Bytes Common Interfaces PriceBitmap OrderStore OrderIndex ReferenceBook OrderBook BookRefine BookEquiv.
From S2P Require Import BookRules BookLaws BookTheorems Protocol.
Import ReferenceBook (o_id, o_qty, o_owner).
Import BookRefine BookEquiv BookRules BookLaws.
Import (hints) PriceBitmap AosStore AosLaws SoaStore SoaLaws OrderIndex.

(** What the engine asks of a book: construction, and one command with its events. *)
Class BookImpl (Bk : Type) := {
  bk_make : Z -> BookConfig -> option Bk;
  bk_step : Bk -> Command -> option (Bk * list Event);
}.

#[export] Instance fast_book {S I B} `{OrderFields S, IdIndex I, LevelSet B} : BookImpl (OB.t S I B) := {
  bk_make := OB.make;
  bk_step := OB.step;
}.
#[export] Instance reference_book : BookImpl RB.t := {
  bk_make symbol cfg := Some (RB.make symbol cfg);
  bk_step := RB.step;
}.

Module MatchingEngine.
Section engine.
Context {Bk : Type} `{BookImpl Bk}.

(** [books_]. *)
Definition t : Type := list Bk.

Definition make (num_symbols : Z) (cfg : BookConfig) : option t := mapM (fun i => bk_make i cfg) (seqZ 0 num_symbols).

Definition process (e : t) (c : Command) : option (t * list Event) :=
  if alen e <=? c_symbol c then Some (e, [rejected_event c UnknownSymbol]) else
  b ← e.[c_symbol c];
  '(b, es) ← bk_step b c;
  e ← e.[c_symbol c <- b];
  Some (e, es).

Definition num_symbols (e : t) : Z := alen e.

Fixpoint run (e : t) (cs : list Command) : option (t * list Event) :=
  match cs with
  | [] => Some (e, [])
  | c :: cs => '(e, es) ← process e c; '(e, es') ← run e cs; Some (e, es ++ es')
  end.

(** The commands of one book, alone. *)
Fixpoint book_run (b : Bk) (cs : list Command) : option (Bk * list Event) :=
  match cs with
  | [] => Some (b, [])
  | c :: cs => '(b, es) ← bk_step b c; '(b, es') ← book_run b cs; Some (b, es ++ es')
  end.

Definition of_symbol (s : Z) (cs : list Command) : list Command := filter (fun c => c_symbol c = s) cs.

Lemma process_length e c e' es : process e c = Some (e', es) -> alen e' = alen e.
Proof.
  unfold process. case_if; intros He; [by simplify_eq|]. inv_bind. destruct x0 as [b' es']. inv_bind. by eapply alen_aset.
Qed.

Lemma run_length cs : forall e e' es, run e cs = Some (e', es) -> alen e' = alen e.
Proof.
  induction cs as [|c cs IH]; intros e e' es Hr; simpl in Hr; [by simplify_eq|]. inv_bind. destruct x as [e1 es1]. inv_bind.
  destruct x as [e2 es2]. simplify_eq. erewrite (IH e1) by done. by eapply process_length.
Qed.

(** A symbol's book sees the commands of its symbol, in order, and nothing else; if its events carry its symbol, they are
    exactly the engine's events of that symbol. *)
Lemma run_books (inv : Z -> Bk -> Prop) (ok : Command -> Prop) cs :
  (forall b c b' es, inv (c_symbol c) b -> ok c -> bk_step b c = Some (b', es) ->
    inv (c_symbol c) b' /\ Forall (fun ev => e_symbol ev = c_symbol c) es) ->
  forall e e' es, Forall (fun c => 0 <= c_symbol c /\ ok c) cs -> (forall s b, e.[s] = Some b -> inv s b) ->
  run e cs = Some (e', es) -> alen e' = alen e /\
  forall s b, e.[s] = Some b -> exists b', e'.[s] = Some b' /\
    book_run b (of_symbol s cs) = Some (b', filter (fun ev => e_symbol ev = s) es).
Proof.
  intros Hstep. induction cs as [|c cs IH]; intros e e' es Hs Hinv Hr; simpl in Hr.
  { simplify_eq. split; [done|]. intros s b Hb. by exists b. }
  apply Forall_cons in Hs as [[Hc Hok] Hs]. destruct (process e c) as [[e1 es1]|] eqn:Hp; [|done]. simpl in Hr.
  destruct (run e1 cs) as [[e2 es2]|] eqn:Hr1; [|done]. simplify_eq/=. pose proof (process_length _ _ _ _ Hp) as Hl1.
  unfold process in Hp. destruct (Z.leb_spec (alen e) (c_symbol c)) as [Hge|Hlt].
  - simplify_eq. destruct (IH e1 e' es2 Hs Hinv Hr1) as [Hl Hb]. split; [done|]. intros s b Hsb. pose proof (aget_bound _ _ _ Hsb).
    unfold of_symbol. rewrite filter_cons, decide_False by lia. destruct (Hb s b Hsb) as (b' & ? & ?). exists b'. split; [done|].
    simpl. rewrite filter_cons, decide_False by (simpl; lia). done.
  - inv_bind. rename x into b0. destruct x0 as [b1 es']. inv_bind. match goal with Ha : aset _ _ _ = Some _ |- _ => rename Ha into Hset end.
    match goal with Ha : bk_step _ _ = Some _ |- _ => rename Ha into Hbs end. match goal with Ha : aget e _ = Some b0 |- _ => rename Ha into Hb0 end.
    destruct (Hstep b0 c b1 es1 (Hinv _ _ Hb0) Hok Hbs) as [Hi1 Hev].
    destruct (IH e1 e' es2 Hs) as [Hl Hb]; [|done|].
    { intros s b. rewrite (aget_aset _ _ _ _ _ Hset). destruct (Z.eqb_spec s (c_symbol c)) as [->|]; [by intros [= <-]|apply Hinv]. }
    split; [congruence|]. intros s b Hsb. unfold of_symbol. rewrite filter_cons, filter_app. case_decide as Hds.
    + subst s. assert (b0 = b) as -> by congruence. simpl. rewrite Hbs. simpl.
      destruct (Hb (c_symbol c) b1) as (b' & ? & Hbr); [by eapply aget_aset_eq|]. unfold of_symbol in Hbr. rewrite Hbr. simpl.
      exists b'. split; [done|]. do 2 f_equal. f_equal. symmetry. clear -Hev. induction Hev as [|ev l He _ IHl]; [done|].
      by rewrite filter_cons, decide_True, IHl.
    + destruct (Hb s b) as (b' & ? & ?); [rewrite (aget_aset_ne _ _ _ _ _ Hset); [done|congruence]|]. exists b'. split; [done|].
      assert (filter (fun ev => e_symbol ev = s) es1 = []) as ->; [|done]. clear -Hev Hds.
      induction Hev as [|ev l He _ IHl]; [done|]. by rewrite filter_cons, decide_False by congruence.
Qed.

(** Without any invariant: the state of a symbol's book. *)
Lemma run_states s cs : forall e e' es b, Forall (fun c => 0 <= c_symbol c) cs -> run e cs = Some (e', es) -> e.[s] = Some b ->
  exists b' es', e'.[s] = Some b' /\ book_run b (of_symbol s cs) = Some (b', es').
Proof.
  induction cs as [|c cs IH]; intros e e' es b Hs Hr Hb; simpl in Hr; [simplify_eq; by exists b, []|].
  apply Forall_cons in Hs as [Hc Hs]. destruct (process e c) as [[e1 es1]|] eqn:Hp; [|done]. simpl in Hr.
  destruct (run e1 cs) as [[e2 es2]|] eqn:Hr1; [|done]. simplify_eq/=. unfold of_symbol. rewrite filter_cons.
  unfold process in Hp. destruct (Z.leb_spec (alen e) (c_symbol c)).
  - simplify_eq. pose proof (aget_bound _ _ _ Hb). rewrite decide_False by lia. by eapply IH.
  - inv_bind. destruct x0 as [b1 es']. inv_bind. match goal with Ha : aset _ _ _ = Some _ |- _ => rename Ha into Hset end.
    case_decide as Hds.
    + subst s. assert (x = b) as -> by congruence. simpl. match goal with Ha : bk_step _ _ = Some _ |- _ => rewrite Ha end. simpl.
      destruct (IH e1 e' es2 b1 Hs Hr1) as (b' & es'' & ? & Hbr); [by eapply aget_aset_eq|]. unfold of_symbol in Hbr. rewrite Hbr. eauto.
    + eapply IH; [done|done|]. rewrite (aget_aset_ne _ _ _ _ _ Hset); [done|congruence].
Qed.
End engine.
Arguments t : clear implicits.
End MatchingEngine.

(** ** The fast engine and the reference engine *)

Module EngineEquiv.
Import MatchingEngine.

(** The events of a book carry its symbol. *)
Lemma sweep_symbol symbol taker owner side limit stp m es :
  Forall (sweep_event symbol taker owner side limit stp m) es -> Forall (fun e => e_symbol e = symbol) es.
Proof. intros H. eapply Forall_impl; [exact H|]. intros e He. by destruct He. Qed.

Lemma settle_symbol r1 c limit left_ stop r2 es : settle r1 c limit left_ stop r2 es -> Forall (fun e => e_symbol e = RB.symbol_ r1) es.
Proof.
  intros Hs. destruct Hs as [| | |r2 es _ _ Hr]; repeat constructor. revert Hr. unfold RB.rest. case_if; intros [= <- <-]; by repeat constructor.
Qed.

Lemma add_symbol r c : RB.wf r -> RB.min_price_ r <= RB.max_price_ r -> 0 <= c_qty c -> c_symbol c = RB.symbol_ r ->
  Forall (fun e => e_symbol e = RB.symbol_ r) (RB.add r c).2.
Proof.
  intros Hw Hb Hq Hs. destruct (add_outcome r c Hw Hb Hq) as [| |r1 left_ stop es r2 es2 _ _ _ _ _ _ Hm Hst].
  1-2: by repeat constructor.
  destruct (match_order_events _ _ _ _ _ _ Hw Hq Hm) as (He & _).
  destruct (RB.wf_match _ _ _ _ _ _ _ _ _ _ _ Hw Hq Hm) as (_ & (E & _) & _).
  constructor; [done|]. apply Forall_app. split; [by eapply sweep_symbol|]. rewrite <- E. by eapply settle_symbol.
Qed.

Lemma step_symbol r c r' es : RB.wf r -> RB.min_price_ r <= RB.max_price_ r -> 0 <= c_qty c -> c_symbol c = RB.symbol_ r ->
  RB.step r c = Some (r', es) -> Forall (fun e => e_symbol e = RB.symbol_ r) es.
Proof.
  intros Hw Hb Hq Hs. unfold RB.step. destruct (c_type c).
  - intros [= He]. pose proof (add_symbol r c Hw Hb Hq Hs) as Ha. by rewrite He in Ha.
  - unfold RB.cancel. destruct (RB.index_ r !! c_order_id c); intros He; inv_bind; by repeat constructor.
  - unfold RB.modify. destruct (c_qty c =? 0); [intros [= <- <-]; by repeat constructor|].
    destruct (RB.index_ r !! c_order_id c) as [l|] eqn:Hl; [|intros [= <- <-]; by repeat constructor].
    destruct (RB.out_of_band r (c_price c)); [intros [= <- <-]; by repeat constructor|]. intros He. inv_bind. case_match; inv_bind; [by repeat constructor|].
    destruct (RB.wf_remove r _ l Hw Hl) as (r0 & Hr0 & Hw0 & (E0 & _) & _). simplify_eq.
    match goal with H : context [RB.match_ ?a ?b ?d ?e ?f ?g ?h] |- _ => destruct (RB.match_ a b d e f g h) as [[[r1 q1] stop] es1] eqn:Hm end.
    destruct (RB.wf_match _ _ _ _ _ _ _ _ _ _ _ Hw0 Hq Hm) as (_ & (E1 & _) & _).
    destruct (match_events _ _ _ _ _ _ _ _ _ _ _ Hw0 Hq Hm) as (Hev & _). apply sweep_symbol in Hev. rewrite E0 in *.
    destruct (q1 =? 0); [simplify_eq; by constructor|]. destruct stop; [simplify_eq; constructor; [done|]; apply Forall_app; split; [done|];
      repeat constructor; simpl; congruence|].
    destruct (RB.rest _ _ _ _ _ _) as [r2 es2] eqn:Hrest. simplify_eq. constructor; [done|]. apply Forall_app. split; [done|].
    revert Hrest. unfold RB.rest. case_if; intros [= <- <-]; repeat constructor. simpl. congruence.
Qed.

Section engines.
Context {S I B : Type} {OF : OrderFields S} {OFL : OrderFieldsLaws S} {IX : IdIndex I} {IXL : IdIndexLaws I}
  {LS : LevelSet B} {LSL : LevelSetLaws B}.
Abbreviation fast := (MatchingEngine.t (OB.t S I B)).
Abbreviation reference := (MatchingEngine.t RB.t).
Implicit Types (e : fast) (f : reference).

Lemma commands_ok_of_symbol cfg s cs : commands_ok cfg cs -> commands_ok cfg (of_symbol s cs).
Proof.
  unfold commands_ok, of_symbol. assert (forall P, Forall P cs -> Forall P (filter (fun c => c_symbol c = s) cs)) as Hf.
  { intros P HP. rewrite Forall_forall in *. intros c [_ Hc]%list_elem_of_filter. auto. }
  intros [H1 [H2|(Q & H2 & H3 & H4)]]; (split; [auto|]); [left; auto|right; eauto].
Qed.

Lemma make_engines n cfg : cfg_ok cfg -> exists e f, make (Bk := OB.t S I B) n cfg = Some e /\ make (Bk := RB.t) n cfg = Some f /\
  Forall2 R e f /\ f = (fun i => RB.make i cfg) <$> seqZ 0 n.
Proof.
  intros Hcfg. unfold make. induction (seqZ 0 n) as [|i l IH]; [by exists [], []|]. destruct IH as (e & f & He & Hf & HR & Hff).
  destruct (make_refines i cfg Hcfg) as (b & Hb & HRb). cbn [mapM]. rewrite He, Hf.
    cbn [bk_make fast_book reference_book]. rewrite Hb.
  exists (b :: e), (RB.make i cfg :: f). split; [done|]. split; [done|]. split; [by constructor|]. simpl. by rewrite Hff.
Qed.

Lemma run_engines cs : forall e f, Forall2 R e f -> Forall (fun c => 0 <= c_symbol c) cs ->
  (forall s r, f.[s] = Some r -> run_ok r (of_symbol s cs)) ->
  exists e' f' es, run e cs = Some (e', es) /\ run f cs = Some (f', es) /\ Forall2 R e' f'.
Proof.
  induction cs as [|c cs IH]; intros e f HR Hs Hok; simpl; [eauto 10|]. apply Forall_cons in Hs as [Hc Hs].
  assert (alen f = alen e) as Hl by (unfold alen; by rewrite (Forall2_length _ _ _ HR)).
  unfold process. rewrite Hl. destruct (Z.leb_spec (alen e) (c_symbol c)) as [Hge|Hlt].
  - simpl. destruct (IH e f HR Hs) as (e' & f' & es & -> & -> & ?); [|simpl; eauto 10].
    intros s r Hr. specialize (Hok s r Hr). unfold of_symbol in Hok. rewrite filter_cons, decide_False in Hok; [done|].
    pose proof (aget_bound _ _ _ Hr). lia.
  - aget_ex e (c_symbol c) b Hb; [lia|]. aget_ex f (c_symbol c) r Hr; [lia|]. rewrite Hb, Hr. simpl.
    assert (R b r) as HRb.
    { apply aget_Some in Hb as [_ Hb], Hr as [_ Hr]. by eapply Forall2_lookup_lr. }
    pose proof (Hok _ _ Hr) as Hok1. unfold of_symbol in Hok1. rewrite filter_cons, decide_True in Hok1 by done. destruct Hok1 as [Hck Hok1].
    destruct (step_refines b r c HRb Hck) as (b' & r' & es1 & Hbs & Hrs & HR'). rewrite Hbs, Hrs. simpl.
    aset_ex e (c_symbol c) b' e1 He1; [lia|]. aset_ex f (c_symbol c) r' f1 Hf1; [lia|]. rewrite He1, Hf1. simpl.
    destruct (IH e1 f1) as (e' & f' & es & -> & -> & ?); [|done| |simpl; eauto 10].
    + unfold aset in He1, Hf1. repeat case_match; simplify_eq. by apply Forall2_insert.
    + intros s r0 Hr0. rewrite (aget_aset _ _ _ _ _ Hf1) in Hr0. destruct (Z.eqb_spec s (c_symbol c)) as [->|Hne].
      * injection Hr0 as <-. by eapply Hok1.
      * specialize (Hok s r0 Hr0). unfold of_symbol in Hok. rewrite filter_cons, decide_False in Hok; [done|congruence].
Qed.
End engines.

End EngineEquiv.

(** ** Sinks *)

Module EventDigest.

Record t := mk { h_ : Z; count_ : Z }.
Definition init : t := mk 14695981039346656037 0.

(** The event's bytes as six 64-bit words. *)
Definition event_words (e : Event) : list Z :=
  [e_order_id e; e_maker_id e; u64 (e_price e); e_qty e; e_leaves e;
   of_le (pack [(4%nat, e_symbol e); (1%nat, EventType_to_Z (e_type e)); (1%nat, Reason_to_Z (e_reason e));
     (1%nat, Side_to_Z (e_side e)); (1%nat, match e_request e with None => 0 | Some m => MsgType_to_Z m end)])].

Definition mix (h x : Z) : Z := rotl64 (u64 (Z.lxor h x * 11400714819323198485)) 27.
Definition on_event (d : t) (e : Event) : t := mk (foldl mix (h_ d) (event_words e)) (u64 (count_ d + 1)).
Definition value (d : t) : Z :=
  let k := Z.lxor (h_ d) (count_ d) in
  let k := Z.lxor k (Z.shiftr k 33) in
  let k := u64 (k * 18397679294719823053) in
  let k := Z.lxor k (Z.shiftr k 33) in
  let k := u64 (k * 14181476777654086739) in
  Z.lxor k (Z.shiftr k 33).
Definition count (d : t) : Z := count_ d.
Definition of_events (es : list Event) : t := foldl on_event init es.

End EventDigest.

Module CountingSink.
Record t := mk { digest_ : EventDigest.t; by_type_ : list Z; volume_ : Z }.
Definition init : t := mk EventDigest.init (amake 8 0) 0.
Definition on_event (k : t) (e : Event) : option t :=
  let i := Z.land (EventType_to_Z (e_type e)) 7 in
  n ← (by_type_ k).[i];
  l ← (by_type_ k).[i <- u64 (n + 1)];
  Some (mk (EventDigest.on_event (digest_ k) e) l
    (if bool_decide (e_type e = Trade) then u64 (volume_ k + e_qty e) else volume_ k)).
Definition digest (k : t) : Z := EventDigest.value (digest_ k).
Definition events (k : t) : Z := EventDigest.count (digest_ k).
Definition count (k : t) (ty : EventType) : option Z := (by_type_ k).[EventType_to_Z ty].
Definition volume (k : t) : Z := volume_ k.
End CountingSink.

(** ** The digest tells streams apart *)

Module DigestLaws.
Import EventDigest Wire.

Definition inverse_pair (k k' : Z) : Prop := u64 (k * k') = 1.

Lemma mul_odd_inj k k' x y : inverse_pair k k' -> in_u64 x -> in_u64 y -> u64 (x * k) = u64 (y * k) -> x = y.
Proof.
  unfold inverse_pair, u64, in_u64. intros Hk Hx Hy H. rewrite <- (Z.mod_small x 18446744073709551616), <- (Z.mod_small y 18446744073709551616) by done.
  assert (forall z, z mod 18446744073709551616 = (z * k mod 18446744073709551616 * k') mod 18446744073709551616) as Hinv.
  { intros z. rewrite Z.mul_mod_idemp_l, <- Z.mul_assoc by lia. rewrite <- Z.mul_mod_idemp_r, Hk, Z.mul_1_r by lia. done. }
  by rewrite (Hinv x), (Hinv y), H.
Qed.

Lemma lxor_inj_r a x y : Z.lxor a x = Z.lxor a y -> x = y.
Proof. intros H. apply (f_equal (Z.lxor a)) in H. by rewrite <- !Z.lxor_assoc, !Z.lxor_nilpotent, !Z.lxor_0_l in H. Qed.
Lemma lxor_inj_l a x y : Z.lxor x a = Z.lxor y a -> x = y.
Proof. rewrite !(Z.lxor_comm _ a). apply lxor_inj_r. Qed.

Lemma rotl64_testbit x k j : in_u64 x -> 0 < k < 64 -> 0 <= j < 64 ->
  Z.testbit (rotl64 x k) j = Z.testbit x (if j <? k then j + 64 - k else j - k).
Proof.
  intros Hx Hk Hj. unfold rotl64. rewrite Z.lor_spec, u64_testbit by lia. rewrite Z.shiftr_spec, (proj2 (Z.ltb_lt j 64)) by lia.
  simpl. destruct (Z.ltb_spec j k).
  - rewrite Z.shiftl_spec_low by lia. simpl. f_equal. lia.
  - rewrite Z.shiftl_spec by lia. rewrite (testbit_high x (j + (64 - k))), orb_false_r by (done || lia). done.
Qed.

Lemma in_u64_rotl64 x k : in_u64 x -> 0 <= k <= 64 -> in_u64 (rotl64 x k).
Proof. intros. unfold rotl64. apply in_u64_lor; [apply in_u64_u64|]. apply in_u64_shiftr; [done|lia]. Qed.

Lemma rotl64_inj x y k : in_u64 x -> in_u64 y -> 0 < k < 64 -> rotl64 x k = rotl64 y k -> x = y.
Proof.
  intros Hx Hy Hk H. apply u64_ext; [done..|]. intros j Hj.
  pose proof (f_equal (fun z => Z.testbit z (if j + k <? 64 then j + k else j + k - 64)) H) as Hb. simpl in Hb.
  rewrite !rotl64_testbit in Hb by (done || destruct (Z.ltb_spec (j + k) 64); lia).
  destruct (Z.ltb_spec (j + k) 64); [rewrite (proj2 (Z.ltb_ge _ _)) in Hb by lia|rewrite (proj2 (Z.ltb_lt _ _)) in Hb by lia];
    [by replace (j + k - k) with j in Hb by lia|by replace (j + k - 64 + 64 - k) with j in Hb by lia].
Qed.

Lemma mix_inverse : inverse_pair 11400714819323198485 17428512612931826493.
Proof. reflexivity. Qed.

Lemma in_u64_mix h x : in_u64 (mix h x).
Proof. apply in_u64_rotl64; [apply in_u64_u64|lia]. Qed.

Lemma mix_inj h h' x x' : in_u64 h -> in_u64 h' -> in_u64 x -> in_u64 x' -> mix h x = mix h' x' -> Z.lxor h x = Z.lxor h' x'.
Proof.
  intros Hh Hh' Hx Hx' H. apply rotl64_inj in H; [|apply in_u64_u64..|lia].
  apply (mul_odd_inj _ _ _ _ mix_inverse) in H; [done|by apply in_u64_lxor..].
Qed.

Lemma in_u64_foldl ws : forall h, in_u64 h -> in_u64 (foldl mix h ws).
Proof. induction ws as [|w ws IH]; intros h Hh; [done|]. apply IH, in_u64_mix. Qed.

(** From different states, equal words lead to different states. *)
Lemma foldl_mix_inj ws : forall h h', in_u64 h -> in_u64 h' -> Forall in_u64 ws -> h <> h' -> foldl mix h ws <> foldl mix h' ws.
Proof.
  induction ws as [|w ws IH]; intros h h' Hh Hh' Hw Hne; [done|]. apply Forall_cons in Hw as [Hw0 Hw]. simpl.
  apply IH; [apply in_u64_mix..|done|]. intros H. apply mix_inj in H; [|done..]. by apply lxor_inj_l in H.
Qed.

Lemma event_words_ok e : event_wf e -> Forall in_u64 (event_words e).
Proof.
  intros (? & ? & ? & ? & ? & ?). unfold event_words. do 5 (apply Forall_cons; split; [first [done|apply in_u64_u64]|]).
  apply Forall_singleton.
  pose proof (of_le_bound _ (bytes_pack [(4%nat, e_symbol e); (1%nat, EventType_to_Z (e_type e)); (1%nat, Reason_to_Z (e_reason e));
    (1%nat, Side_to_Z (e_side e)); (1%nat, match e_request e with None => 0 | Some m => MsgType_to_Z m end)])) as Hb.
  by rewrite length_pack in Hb.
Qed.

Lemma finalizer_inverse : inverse_pair 18397679294719823053 5725274745694666757 /\ inverse_pair 14181476777654086739 11291846944257947611.
Proof. split; reflexivity. Qed.

Lemma in_u64_shift_xor x : in_u64 x -> in_u64 (Z.lxor x (Z.shiftr x 33)).
Proof. intros. apply in_u64_lxor; [done|]. by apply in_u64_shiftr. Qed.

Lemma shift_xor_inj x y : in_u64 x -> in_u64 y -> Z.lxor x (Z.shiftr x 33) = Z.lxor y (Z.shiftr y 33) -> x = y.
Proof.
  assert (forall z, in_u64 z -> Z.lxor (Z.lxor z (Z.shiftr z 33)) (Z.shiftr (Z.lxor z (Z.shiftr z 33)) 33) = z) as Hinv.
  { intros z Hz. rewrite Z.shiftr_lxor, Z.shiftr_shiftr by lia. rewrite (Z.lxor_assoc z), <- (Z.lxor_assoc (Z.shiftr z 33)), Z.lxor_nilpotent, Z.lxor_0_l.
    rewrite (Z.shiftr_eq_0 z (33 + 33)), Z.lxor_0_r; [done|unfold in_u64 in Hz; lia|].
    unfold in_u64 in Hz. apply Z.le_lt_trans with (Z.log2 18446744073709551615); [apply Z.log2_le_mono; lia|reflexivity]. }
  intros Hx Hy H. by rewrite <- (Hinv x Hx), <- (Hinv y Hy), H.
Qed.

Lemma value_inj d d' : in_u64 (h_ d) -> in_u64 (h_ d') -> in_u64 (count_ d) -> count_ d = count_ d' -> value d = value d' -> h_ d = h_ d'.
Proof.
  intros Hh Hh' Hc Ec H. unfold value in H. destruct finalizer_inverse as [I1 I2].
  assert (in_u64 (Z.lxor (h_ d) (count_ d))) as U by (by apply in_u64_lxor).
  assert (in_u64 (Z.lxor (h_ d') (count_ d'))) as U' by (apply in_u64_lxor; congruence).
  apply shift_xor_inj in H; [|apply in_u64_u64..]. apply (mul_odd_inj _ _ _ _ I2) in H; [|apply in_u64_shift_xor, in_u64_u64..].
  apply shift_xor_inj in H; [|apply in_u64_u64..]. apply (mul_odd_inj _ _ _ _ I1) in H; [|by apply in_u64_shift_xor..].
  apply shift_xor_inj in H; [|done..]. rewrite Ec in H. by apply lxor_inj_l in H.
Qed.

Lemma on_events es : forall d, h_ (foldl on_event d es) = foldl mix (h_ d) (e ← es; event_words e) /\
  count_ (foldl on_event d es) = foldl (fun n _ => u64 (n + 1)) (count_ d) es.
Proof.
  induction es as [|e es IH]; intros d; [done|]. simpl. destruct (IH (on_event d e)) as [-> ->]. split; [|done].
  done.
Qed.

Lemma of_events_h es : h_ (of_events es) = foldl mix (h_ init) (e ← es; event_words e).
Proof. apply on_events. Qed.
Lemma of_events_count es : count_ (of_events es) = u64 (Z.of_nat (length es)).
Proof.
  unfold of_events. destruct (on_events es init) as [_ ->]. simpl.
  assert (forall n, foldl (fun n _ => u64 (n + 1)) (u64 n) es = u64 (n + Z.of_nat (length es))) as H; [|exact (H 0)].
  induction es as [|e es IH]; intros n; simpl; [f_equal; lia|].
  assert (u64 (u64 n + 1) = u64 (n + 1)) as -> by (unfold u64; by rewrite Z.add_mod_idemp_l). rewrite IH. f_equal. lia.
Qed.

Lemma in_u64_init : in_u64 (h_ init).
Proof. unfold in_u64. simpl. lia. Qed.

Lemma of_events_words es : in_u64 (h_ (of_events es)).
Proof. rewrite of_events_h. apply in_u64_foldl, in_u64_init. Qed.
Lemma of_events_count_bound es : in_u64 (count_ (of_events es)).
Proof. rewrite of_events_count. apply in_u64_u64. Qed.

Lemma words_of_events es : Forall event_wf es -> Forall in_u64 (e ← es; event_words e).
Proof. induction 1 as [|e es He _ IH]; [done|]. rewrite bind_cons. apply Forall_app. split; [by apply event_words_ok|done]. Qed.

(** One different word, anywhere. *)
Lemma foldl_word_differs ws x y rest : in_u64 x -> in_u64 y -> Forall in_u64 rest -> x <> y ->
  foldl mix (h_ init) (ws ++ x :: rest) <> foldl mix (h_ init) (ws ++ y :: rest).
Proof.
  intros Hx Hy Hr Hne. rewrite !foldl_app. simpl foldl at 1 3. pose proof (in_u64_foldl ws _ in_u64_init) as Hh.
  apply foldl_mix_inj; [apply in_u64_mix..|done|]. intros H. apply mix_inj in H; [|done..]. by apply lxor_inj_r in H.
Qed.
End DigestLaws.

Module EngineTheorems.
Import MatchingEngine EngineEquiv DigestLaws Wire BookTheorems.

Section properties.
Context {S I B : Type} {OF : OrderFields S} {OFL : OrderFieldsLaws S} {IX : IdIndex I} {IXL : IdIndexLaws I}
  {LS : LevelSet B} {LSL : LevelSetLaws B}.
Abbreviation fast := (MatchingEngine.t (OB.t S I B)).

(** Both engines, made alike, take the same commands. *)
Lemma engines_run n cfg cs : cfg_ok cfg -> Forall (fun c => 0 <= c_symbol c) cs -> commands_ok cfg cs ->
  exists (e e' : fast) f' es, make n cfg = Some e /\ make n cfg = Some ((fun i => RB.make i cfg) <$> seqZ 0 n) /\
    run e cs = Some (e', es) /\ run (Bk := RB.t) ((fun i => RB.make i cfg) <$> seqZ 0 n) cs = Some (f', es) /\
    Forall2 R e ((fun i => RB.make i cfg) <$> seqZ 0 n) /\ Forall2 R e' f'.
Proof.
  intros Hcfg Hs Hcs. destruct (make_engines n cfg Hcfg) as (e & f & He & Hf & HR & ->).
  destruct (run_engines cs e _ HR Hs) as (e' & f' & es & Hre & Hrf & HR').
  - intros s r Hr. apply aget_Some in Hr as [_ Hr]. apply list_lookup_fmap_Some in Hr as (i & -> & _).
    by apply (commands_run_ok i cfg), commands_ok_of_symbol.
  - eauto 12.
Qed.

Lemma step_alone (r : RB.t) c r' es :
  RB.wf r /\ RB.min_price_ r <= RB.max_price_ r /\ RB.symbol_ r = c_symbol c -> 0 <= c_qty c ->
  bk_step r c = Some (r', es) ->
  (RB.wf r' /\ RB.min_price_ r' <= RB.max_price_ r' /\ RB.symbol_ r' = c_symbol c) /\ Forall (fun ev => e_symbol ev = c_symbol c) es.
Proof.
  intros (Hw & Hb & Hs) Hq Hst. destruct (RB.step_ok r c Hw Hb Hq) as (r1 & es1 & Hst1 & Hw1 & Hc1).
  assert (r1 = r' /\ es1 = es) as [-> ->] by (change (RB.step r c = Some (r', es)) in Hst; split; congruence).
  destruct Hc1 as (E1 & E2 & E3 & _). rewrite E1, E2, E3. split; [done|]. rewrite <- Hs. by eapply step_symbol.
Qed.

Lemma commands_alone cfg cs : Forall (fun c => 0 <= c_symbol c) cs -> commands_ok cfg cs ->
  Forall (fun c => 0 <= c_symbol c /\ 0 <= c_qty c) cs.
Proof. intros Hs [Hp _]. apply Forall_and. split; [done|]. eapply Forall_impl; [exact Hp|]. by intros c [_ ?]. Qed.

Lemma made_alone n cfg : cfg_ok cfg -> forall s r, aget ((fun i => RB.make i cfg) <$> seqZ 0 n) s = Some r ->
  RB.wf r /\ RB.min_price_ r <= RB.max_price_ r /\ RB.symbol_ r = s.
Proof.
  intros Hcfg s r Hr. apply aget_Some in Hr as [Hs0 Hr]. apply list_lookup_fmap_Some in Hr as (i & -> & Hi).
  apply lookup_seqZ in Hi as [-> _]. split; [by apply make_config|]. destruct Hcfg as ([[? _] _] & _). simpl. lia.
Qed.

(** C12: the engine over fast books reports, for any commands to any symbols, exactly the events of the engine over
    reference books, without undefined behaviour; so the two runs have one digest. *)
Theorem engine_refines_reference n cfg cs : cfg_ok cfg -> Forall (fun c => 0 <= c_symbol c) cs -> commands_ok cfg cs ->
  exists (e e' : fast) f f' es,
    make n cfg = Some e /\ make n cfg = Some f /\ run e cs = Some (e', es) /\ run (Bk := RB.t) f cs = Some (f', es) /\
    num_symbols e' = Z.max 0 n.
Proof.
  intros Hcfg Hs Hcs. destruct (engines_run n cfg cs Hcfg Hs Hcs) as (e & e' & f' & es & He & Hf & Hre & Hrf & HR & _).
  exists e, e', ((fun i => RB.make i cfg) <$> seqZ 0 n), f', es. split_and!; try done. unfold num_symbols. rewrite (run_length _ _ _ _ Hre). unfold alen.
  rewrite (Forall2_length _ _ _ HR), length_fmap, length_seqZ. lia.
Qed.

(** Symbols do not interfere: each book ends up as if it alone had taken the commands of its symbol, in order, and
    what it reports is exactly what the engine reports for that symbol. *)
Theorem engine_symbols_independent n cfg cs (e e' : fast) es s b : cfg_ok cfg -> Forall (fun c => 0 <= c_symbol c) cs ->
  commands_ok cfg cs -> make n cfg = Some e -> run e cs = Some (e', es) -> e.[s] = Some b ->
  exists b', e'.[s] = Some b' /\
    OB.run b (of_symbol s cs) = Some (b', filter (fun ev => e_symbol ev = s) es).
Proof.
  intros Hcfg Hs Hcs Hm Hr Hb.
  destruct (engines_run n cfg cs Hcfg Hs Hcs) as (e0 & e1 & f' & es0 & He & _ & Hre & Hrf & HR & HR').
  assert (e0 = e) as -> by congruence. assert (e1 = e' /\ es0 = es) as [-> ->] by (split; congruence).
  destruct (run_states s cs e e' es b Hs Hr Hb) as (b' & es' & Hb' & Hbr). exists b'. split; [done|].
  pose proof Hb as Hsr. apply aget_Some in Hsr as [Hs0 Hbn]. destruct (Forall2_lookup_l _ _ _ _ _ HR Hbn) as (r & Hrn & HRb).
  assert (aget ((fun i => RB.make i cfg) <$> seqZ 0 n) s = Some r) as Hrs by (by apply aget_Some).
  destruct (run_books (Bk := RB.t) (fun s r => RB.wf r /\ RB.min_price_ r <= RB.max_price_ r /\ RB.symbol_ r = s)
    (fun c => 0 <= c_qty c) cs step_alone _ _ _ (commands_alone _ _ Hs Hcs) (made_alone n cfg Hcfg) Hrf) as [_ Hbooks].
  destruct (Hbooks s r Hrs) as (r' & _ & Hrr).
  apply list_lookup_fmap_Some in Hrn as (i & -> & _).
  destruct (run_refines (of_symbol s cs) b _ HRb (commands_run_ok i cfg _ Hcfg (commands_ok_of_symbol cfg s cs Hcs)))
    as (b1 & r1 & es1 & Hb1 & Hr1 & _).
  change (book_run b (of_symbol s cs)) with (OB.run b (of_symbol s cs)) in Hbr.
  change (book_run (RB.make i cfg) (of_symbol s cs)) with (RB.run (RB.make i cfg) (of_symbol s cs)) in Hrr. congruence.
Qed.

(** The digest tells streams apart: two streams of one length that differ in a single word of a single event have
    different digests. *)
Theorem digest_detects_change pre post ev ev' p q x y : Forall event_wf (pre ++ ev :: post) ->
  Forall event_wf (pre ++ ev' :: post) -> EventDigest.event_words ev = p ++ x :: q ->
  EventDigest.event_words ev' = p ++ y :: q -> x <> y ->
  EventDigest.value (EventDigest.of_events (pre ++ ev :: post)) <> EventDigest.value (EventDigest.of_events (pre ++ ev' :: post)).
Proof.
  intros Hw Hw' E E' Hne H. apply value_inj in H; [|apply of_events_words..|apply of_events_count_bound|by rewrite !of_events_count, !length_app].
  rewrite !of_events_h, !bind_app, !bind_cons, E, E', <- !app_assoc in H. rewrite !(app_assoc _ p), <- !app_comm_cons in H.
  apply Forall_app in Hw as [_ [He Hpost]%Forall_cons], Hw' as [_ [He' _]%Forall_cons].
  pose proof (event_words_ok _ He) as Hx. pose proof (event_words_ok _ He') as Hy. rewrite E in Hx. rewrite E' in Hy.
  apply Forall_app in Hx as [_ [Hx Hq]%Forall_cons], Hy as [_ [Hy _]%Forall_cons].
  revert H. apply foldl_word_differs; try done. apply Forall_app. split; [done|]. by apply words_of_events.
Qed.
End properties.

(** ** A concrete engine: two symbols, and a command for a third *)

Definition with_symbol (s : Z) (c : Command) : Command :=
  mkCommand (c_order_id c) (c_price c) (c_seq c) (c_ts c) (c_qty c) (c_owner c) s (c_type c) (c_side c) (c_ord_type c)
    (c_tif c) (c_flags c).
Definition engine_cmds : list Command :=
  c ← demo_cmds; [c; with_symbol 0 c; with_symbol 7 (buy9)].
Abbreviation demo_engine := (MatchingEngine.t demo_book).
Definition demo_engine_test (cs : list Command) (P : demo_engine -> list Event -> bool) : bool :=
  match make 2 demo_cfg with
  | Some e => match run e cs with Some (_, es) => P e es | None => false end
  | None => false
  end.
Lemma demo_engine_runs cs P : demo_engine_test cs P = true ->
  exists (e e' : demo_engine) es, make 2 demo_cfg = Some e /\ run e cs = Some (e', es) /\ P e es = true.
Proof.
  unfold demo_engine_test. destruct (make 2 demo_cfg) as [e|]; [|done]. destruct (run e cs) as [[e' es]|] eqn:E; [|done].
  intros HP. by exists e, e', es.
Qed.

Lemma engine_cmds_symbols : Forall (fun c => 0 <= c_symbol c) engine_cmds.
Proof. unfold engine_cmds. simpl. repeat constructor; simpl; lia. Qed.

Lemma engine_refines_reference_witness : exists (e e' : demo_engine) f f' es,
  make 2 demo_cfg = Some e /\ make 2 demo_cfg = Some f /\ run e engine_cmds = Some (e', es) /\
  run (Bk := RB.t) f engine_cmds = Some (f', es) /\ num_symbols e' = 2.
Proof.
  apply (engine_refines_reference 2 demo_cfg engine_cmds demo_cfg_ok engine_cmds_symbols). apply demo_commands_ok.
  vm_compute. reflexivity.
Defined.

Lemma engine_symbols_independent_witness : exists (e e' : demo_engine) es b b',
  length es = 15%nat /\ length (filter (fun ev => e_symbol ev = 1) es) = 5%nat /\ e'.[1] = Some b' /\
  OB.run b (of_symbol 1 engine_cmds) = Some (b', filter (fun ev => e_symbol ev = 1) es) /\ make 2 demo_cfg = Some e.
Proof.
  destruct (demo_engine_runs engine_cmds (fun e es => bool_decide (length es = 15%nat) &&
    bool_decide (length (filter (fun ev => e_symbol ev = 1) es) = 5%nat) && (if e.[1] is Some _ then true else false)))
    as (e & e' & es & He & Hr & HP); [vm_compute; reflexivity|].
  destruct (e.[1]) as [b|] eqn:Hb; [|by rewrite andb_false_r in HP]. to_prop.
  assert (commands_ok demo_cfg engine_cmds) as Hcs by (apply demo_commands_ok; vm_compute; reflexivity).
  destruct (engine_symbols_independent 2 demo_cfg engine_cmds e e' es 1 b demo_cfg_ok engine_cmds_symbols Hcs He Hr Hb) as (b' & ? & ?).
  exists e, e', es, b, b'. auto.
Defined.

Lemma digest_detects_change_witness :
  EventDigest.value (EventDigest.of_events [trade_event 1 7 3 Buy 110 5 4]) <>
  EventDigest.value (EventDigest.of_events [trade_event 1 7 4 Buy 110 5 4]).
Proof.
  refine (digest_detects_change [] [] (trade_event 1 7 3 Buy 110 5 4) (trade_event 1 7 4 Buy 110 5 4) [7] _ 3 4 _ _ eq_refl eq_refl _);
    [..|discriminate].
  1-2: apply Forall_singleton; unfold event_wf; simpl; words; lia.
Defined.
End EngineTheorems.
