(* ===== verification/Risk.v ===== *)
(** * The pre-trade risk gate (risk.hpp)

    The gate stands between the sequencer and the engine: it turns commands away by its limits, passes the others on, and
    reads the trade prices off the engine's events. It is a template over the engine, here a class. *)
From S2P Require Import Prelude Common Interfaces PriceBitmap OrderStore OrderIndex ReferenceBook OrderBook BookRefine BookEquiv.
From S2P Require Import BookTheorems Engine.
Import BookRefine BookEquiv.
Import (hints) PriceBitmap AosStore AosLaws SoaStore SoaLaws OrderIndex.

(** What the gate asks of an engine. *)
Class EngineImpl (E : Type) := {
  en_num_symbols : E -> Z;
  en_process : E -> Command -> option (E * list Event);
}.

#[export] Instance matching_engine {Bk} `{BookImpl Bk} : EngineImpl (MatchingEngine.t Bk) := {
  en_num_symbols := MatchingEngine.num_symbols;
  en_process := MatchingEngine.process;
}.

Module RiskGate.

Record RiskConfig := mkRiskConfig {
  max_qty : Z;
  max_notional : Z;
  collar_ticks : Z;
  max_owners : Z;
  rate_per_sec : Z;
  burst : Z;
  ticks_per_sec : Z;
}.

(** The result of a signed 64-bit operation; out of range it is undefined behaviour. *)
Definition signed (x : Z) : option Z :=
  if (-9223372036854775808 <=? x) && (x <? 9223372036854775808) then Some x else None.

(** The limits that look at one order and its symbol's last trade: [true] is a breach. *)
Definition priced (c : Command) : bool := bool_decide (c_type c = Modify) || bool_decide (c_ord_type c = Limit).
Definition over_notional (cfg : RiskConfig) (c : Command) : bool :=
  priced c && negb (max_notional cfg =? 0) && negb (c_qty c =? 0) &&
  (max_notional cfg / c_qty c <? u64 (if c_price c <? 0 then 0 else c_price c)).
Definition outside_collar (cfg : RiskConfig) (c : Command) (last : Z) : option bool :=
  if priced c && negb (collar_ticks cfg =? 0) && negb (last =? 0) then
    d ← signed (c_price c - last);
    d ← (if d <? 0 then signed (- d) else Some d);
    Some (collar_ticks cfg <? d)
  else Some false.

(** The rate limit of one owner: the new theoretical arrival time, or none if the message comes too early. *)
Definition slack (cfg : RiskConfig) (interval : Z) : Z := u64 (interval * (if burst cfg =? 0 then 0 else burst cfg - 1)).
Definition rate (cfg : RiskConfig) (interval tat ts : Z) : option Z :=
  let allowed_from := if slack cfg interval <? tat then tat - slack cfg interval else 0 in
  if ts <? allowed_from then None else Some (u64 (Z.max ts tat + interval)).

Section gate.
Context {E : Type} `{EngineImpl E}.

Record t := mk {
  engine_ : E;
  cfg_ : RiskConfig;
  last_px_ : list Z;
  halted_ : list bool;
  tat_ : list Z;
  interval_ : Z;
  rejected_ : Z;
  halt_all_ : bool;
}.

Definition make (e : E) (cfg : RiskConfig) : t :=
  mk e cfg (amake (en_num_symbols e) 0) (amake (en_num_symbols e) false) (amake (max_owners cfg) 0)
    (if rate_per_sec cfg =? 0 then 0 else ticks_per_sec cfg / rate_per_sec cfg) 0 false.

Definition set_halted (g : t) (s : Z) (v : bool) : t :=
  mk (engine_ g) (cfg_ g) (last_px_ g) (default (halted_ g) ((halted_ g).[s <- v])) (tat_ g) (interval_ g) (rejected_ g) (halt_all_ g).
Definition halt (g : t) (s : Z) : t := if s <? alen (halted_ g) then set_halted g s true else g.
Definition resume (g : t) (s : Z) : t := if s <? alen (halted_ g) then set_halted g s false else g.
Definition halt_all (g : t) (on : bool) : t :=
  mk (engine_ g) (cfg_ g) (last_px_ g) (halted_ g) (tat_ g) (interval_ g) (rejected_ g) on.
Definition rejected (g : t) : Z := rejected_ g.

(** [check]: the verdict and the arrival times it leaves. *)
Definition check (g : t) (c : Command) : option (Reason * list Z) :=
  if alen (last_px_ g) <=? c_symbol c then Some (NoReason, tat_ g) else
  h ← (halted_ g).[c_symbol c];
  if halt_all_ g || h then Some (RiskHalted, tat_ g) else
  if max_qty (cfg_ g) <? c_qty c then Some (RiskMaxQty, tat_ g) else
  if over_notional (cfg_ g) c then Some (RiskMaxNotional, tat_ g) else
  last ← (last_px_ g).[c_symbol c];
  out ← outside_collar (cfg_ g) c last;
  if out : bool then Some (RiskCollar, tat_ g) else
  if bool_decide (c_type c = NewOrder) || bool_decide (c_type c = Modify) then
    if max_owners (cfg_ g) <=? c_owner c then Some (UnknownOwner, tat_ g) else
    if negb (interval_ g =? 0) then
      tat ← (tat_ g).[c_owner c];
      match rate (cfg_ g) (interval_ g) tat (c_ts c) with
      | None => Some (RiskRateLimit, tat_ g)
      | Some v => tats ← (tat_ g).[c_owner c <- v]; Some (NoReason, tats)
      end
    else Some (NoReason, tat_ g)
  else Some (NoReason, tat_ g).

(** [Tap]: the last trade price of each symbol, read off the events on their way out. *)
Definition tap1 (last : list Z) (e : Event) : list Z :=
  if bool_decide (e_type e = Trade) && (e_symbol e <? alen last) then default last (last.[e_symbol e <- e_price e]) else last.
Definition tap (last : list Z) (es : list Event) : list Z := foldl tap1 last es.

Definition pass (g : t) (tats : list Z) (c : Command) : option (t * list Event) :=
  '(e, es) ← en_process (engine_ g) c;
  Some (mk e (cfg_ g) (tap (last_px_ g) es) (halted_ g) tats (interval_ g) (rejected_ g) (halt_all_ g), es).
Definition block (g : t) (tats : list Z) (c : Command) (r : Reason) : t * list Event :=
  (mk (engine_ g) (cfg_ g) (last_px_ g) (halted_ g) tats (interval_ g) (u64 (rejected_ g + 1)) (halt_all_ g), [rejected_event c r]).

Definition process (g : t) (c : Command) : option (t * list Event) :=
  if bool_decide (c_type c = Cancel) then pass g (tat_ g) c else
  '(r, tats) ← check g c;
  if bool_decide (r = NoReason) then pass g tats c else Some (block g tats c r).

Fixpoint run (g : t) (cs : list Command) : option (t * list Event) :=
  match cs with
  | [] => Some (g, [])
  | c :: cs => '(g, es) ← process g c; '(g, es') ← run g cs; Some (g, es ++ es')
  end.
End gate.
Arguments t : clear implicits.

End RiskGate.

(** ** What the gate guarantees *)

Module RiskLaws.
Import RiskGate.

(** What a command that reaches the engine satisfies, given the symbol's last trade price. *)
Record within (cfg : RiskConfig) (last : Z) (c : Command) : Prop := {
  in_qty : c_qty c <= max_qty cfg;
  in_notional : priced c = true -> max_notional cfg <> 0 -> c_price c * c_qty c <= max_notional cfg;
  in_collar : priced c = true -> collar_ticks cfg <> 0 -> last <> 0 -> Z.abs (c_price c - last) <= collar_ticks cfg;
  in_owner : c_owner c < max_owners cfg;
}.

Lemma signed_Some x v : signed x = Some v -> v = x /\ in_i64 x.
Proof. unfold signed, in_i64. case_if; intros [= <-]. lia. Qed.

Lemma collar_ok cfg c last : outside_collar cfg c last = Some false -> priced c = true -> collar_ticks cfg <> 0 -> last <> 0 ->
  Z.abs (c_price c - last) <= collar_ticks cfg.
Proof.
  intros Ho Hp Hc Hl. unfold outside_collar in Ho. rewrite Hp, !(proj2 (Z.eqb_neq _ _)) in Ho by done. simpl in Ho.
  inv_bind. apply signed_Some in H as [-> _]. destruct (Z.ltb_spec (c_price c - last) 0).
  - apply signed_Some in H0 as [-> _]. to_prop. lia.
  - injection H0 as <-. to_prop. lia.
Qed.

Lemma collar_breach cfg c last : outside_collar cfg c last = Some true ->
  priced c = true /\ collar_ticks cfg <> 0 /\ last <> 0 /\ collar_ticks cfg < Z.abs (c_price c - last).
Proof.
  unfold outside_collar. destruct (priced c); [|done]. destruct (Z.eqb_spec (collar_ticks cfg) 0); [done|].
  destruct (Z.eqb_spec last 0); [done|]. simpl. intros Ho. split_and!; try done. inv_bind. apply signed_Some in H as [-> _].
  destruct (Z.ltb_spec (c_price c - last) 0); [apply signed_Some in H0 as [-> _]|injection H0 as <-]; to_prop; lia.
Qed.

Lemma over_notional_priced cfg c : over_notional cfg c = true -> priced c = true /\ max_notional cfg <> 0.
Proof. unfold over_notional. destruct (priced c); [|done]. by destruct (Z.eqb_spec (max_notional cfg) 0). Qed.

(** The test divides so as not to overflow; it is the test of the product. *)
Lemma notional_ok cfg c : 0 <= max_notional cfg -> 0 <= c_qty c -> in_i64 (c_price c) -> priced c = true -> max_notional cfg <> 0 ->
  over_notional cfg c = negb (c_qty c =? 0) && (max_notional cfg <? c_price c * c_qty c).
Proof.
  intros Hm Hq Hp Hpr Hn. unfold over_notional. rewrite Hpr, (proj2 (Z.eqb_neq (max_notional cfg) 0)) by done. simpl.
  destruct (Z.eqb_spec (c_qty c) 0); [done|]. simpl. unfold in_i64 in Hp.
  assert (u64 (if c_price c <? 0 then 0 else c_price c) = Z.max 0 (c_price c)) as ->.
  { destruct (Z.ltb_spec (c_price c) 0); rewrite u64_small; unfold in_u64; lia. }
  apply eq_iff_eq_true. rewrite !Z.ltb_lt. pose proof (Z.div_mod (max_notional cfg) (c_qty c)) as Hd.
  pose proof (Z.mod_pos_bound (max_notional cfg) (c_qty c)). split; intros; nia.
Qed.

Section laws.
Context {E : Type} `{EngineImpl E}.
Implicit Types g : t E.

(** The gate's tables cover the engine's symbols, and its owners. *)
Record gate_wf g : Prop := {
  gw_symbols : alen (halted_ g) = alen (last_px_ g);
  gw_owners : alen (tat_ g) = Z.max 0 (max_owners (cfg_ g));
}.

Lemma gate_make_wf e cfg : 0 <= en_num_symbols e -> gate_wf (make e cfg).
Proof. intros Hn. split; simpl; [by rewrite !alen_amake|]. unfold alen, amake. rewrite length_replicate. lia. Qed.

Lemma tap1_length last e : alen (tap1 last e) = alen last.
Proof. unfold tap1. case_if; [|done]. destruct (last.[_ <- _]) eqn:Es; [|done]. simpl. by eapply alen_aset. Qed.
Lemma tap_length es : forall last, alen (tap last es) = alen last.
Proof. induction es as [|e es IH]; intros last; [done|]. simpl. unfold tap in IH. by rewrite IH, tap1_length. Qed.

Lemma process_inv g c g' es : process g c = Some (g', es) ->
  (exists tats, pass g tats c = Some (g', es) /\ (c_type c = Cancel /\ tats = tat_ g \/ c_type c <> Cancel /\ check g c = Some (NoReason, tats))) \/
  (exists r tats, block g tats c r = (g', es) /\ c_type c <> Cancel /\ check g c = Some (r, tats) /\ r <> NoReason).
Proof.
  unfold process. destruct (bool_decide (c_type c = Cancel)) eqn:Ec; [apply bool_decide_eq_true in Ec; left; eauto 10|].
  apply bool_decide_eq_false in Ec. destruct (check g c) as [[r tats]|]; [|done]. simpl. case_if; subst.
  - left. eauto 10.
  - intros [= <- <-]. right. by exists r, tats.
Qed.

(** Why a command is turned away. *)
Inductive breach g c : Reason -> Prop :=
  | br_halted : halt_all_ g = true \/ (halted_ g).[c_symbol c] = Some true -> breach g c RiskHalted
  | br_qty : max_qty (cfg_ g) < c_qty c -> breach g c RiskMaxQty
  | br_notional : priced c = true -> max_notional (cfg_ g) <> 0 -> max_notional (cfg_ g) < c_price c * c_qty c ->
      breach g c RiskMaxNotional
  | br_collar last : priced c = true -> (last_px_ g).[c_symbol c] = Some last -> last <> 0 -> collar_ticks (cfg_ g) <> 0 ->
      collar_ticks (cfg_ g) < Z.abs (c_price c - last) -> breach g c RiskCollar
  | br_owner : max_owners (cfg_ g) <= c_owner c -> breach g c UnknownOwner
  | br_rate tat : interval_ g <> 0 -> (tat_ g).[c_owner c] = Some tat -> c_ts c < tat - slack (cfg_ g) (interval_ g) ->
      breach g c RiskRateLimit.

(** What a verdict means; the command is no cancel. *)
Inductive verdict g c : Reason -> list Z -> Prop :=
  | vd_unknown : alen (last_px_ g) <= c_symbol c -> verdict g c NoReason (tat_ g)
  | vd_pass last tats : (last_px_ g).[c_symbol c] = Some last -> halt_all_ g = false -> (halted_ g).[c_symbol c] = Some false ->
      within (cfg_ g) last c ->
      (interval_ g = 0 /\ tats = tat_ g \/
       exists tat v, interval_ g <> 0 /\ (tat_ g).[c_owner c] = Some tat /\
         rate (cfg_ g) (interval_ g) tat (c_ts c) = Some v /\ (tat_ g).[c_owner c <- v] = Some tats) ->
      verdict g c NoReason tats
  | vd_block r : r <> NoReason -> c_symbol c < alen (last_px_ g) -> breach g c r -> verdict g c r (tat_ g).

Lemma rate_breach cfg interval tat ts : 0 <= ts -> rate cfg interval tat ts = None -> ts < tat - slack cfg interval.
Proof. intros Ht. unfold rate. case_if; [|done]. destruct (Z.ltb_spec (slack cfg interval) tat); lia. Qed.

Lemma check_verdict g c r tats : 0 <= max_notional (cfg_ g) -> command_wf c -> c_type c <> Cancel ->
  check g c = Some (r, tats) -> verdict g c r tats.
Proof.
  intros Hm (_ & Hp & _ & Hts & Hq & _) Ht. unfold check. destruct (Z.leb_spec (alen (last_px_ g)) (c_symbol c)) as [Hs|Hs];
    [intros [= <- <-]; by constructor|].
  intros He. inv_bind. rename x into h. match goal with Hh : (halted_ g).[_] = Some h |- _ => rename Hh into Hhalt end.
  destruct (halt_all_ g || h) eqn:Eh; [simplify_eq; apply vd_block; [done..|]; constructor; to_prop; destruct Eh as [->| ->]; auto|].
  apply orb_false_elim in Eh as [Ea ->]. destruct (Z.ltb_spec (max_qty (cfg_ g)) (c_qty c)); [simplify_eq; apply vd_block; [done..|]; by constructor|].
  assert (0 <= c_qty c) as Hq0 by (words; lia).
  destruct (over_notional (cfg_ g) c) eqn:Eo.
  { simplify_eq. apply vd_block; [done..|]. destruct (over_notional_priced _ _ Eo) as [Hpr Hn].
    rewrite notional_ok in Eo by done. apply andb_prop in Eo as [_ Eo%Z.ltb_lt]. by constructor. }
  inv_bind. rename x into last. match goal with Hh : (last_px_ g).[_] = Some last |- _ => rename Hh into Hlast end.
  match goal with Hh : outside_collar _ _ _ = Some ?o |- _ => rename Hh into Hcol; destruct o end.
  { simplify_eq. apply collar_breach in Hcol as (? & ? & ? & ?). apply vd_block; [done..|]. by eapply br_collar. }
  assert (bool_decide (c_type c = NewOrder) || bool_decide (c_type c = Modify) = true) as Hty by (by destruct (c_type c)).
  rewrite Hty in He. destruct (Z.leb_spec (max_owners (cfg_ g)) (c_owner c)); [simplify_eq; apply vd_block; [done..|]; by constructor|].
  assert (within (cfg_ g) last c) as Hw.
  { split; try done; [|by apply collar_ok]. intros Hpr Hn. rewrite notional_ok in Eo by done. apply andb_false_iff in Eo as [Ez%negb_false_iff%Z.eqb_eq|Ez%Z.ltb_ge]; [|done].
    rewrite Ez. lia. }
  destruct (Z.eqb_spec (interval_ g) 0); simpl in He; [simplify_eq; eapply vd_pass; eauto|]. inv_bind.
  destruct (rate _ _ _ _) as [v|] eqn:Er; inv_bind; [|apply rate_breach in Er; [|words; lia]; apply vd_block; [done..|]; by eapply br_rate].
  eapply vd_pass; eauto 10.
Qed.

(** *** The rate limit over a run *)

(** The times of the messages of owner [o] that the gate lets through to a symbol it knows. *)
Definition admits (o : Z) g c : bool :=
  negb (bool_decide (c_type c = Cancel)) && (c_owner c =? o) && (c_symbol c <? alen (last_px_ g)) &&
  match process g c with Some (g', _) => rejected g' =? rejected g | None => false end.
Fixpoint admitted (o : Z) g (cs : list Command) : list Z :=
  match cs with
  | [] => []
  | c :: cs => match process g c with None => [] | Some (g', _) => (if admits o g c then [c_ts c] else []) ++ admitted o g' cs end
  end.

(** The messages that may arrive together. *)
Definition depth (cfg : RiskConfig) : Z := Z.max 1 (burst cfg).

(** No arrival time of the run wraps; [T] bounds the times. *)
Record rate_ok (T : Z) g : Prop := {
  ro_interval : 0 < interval_ g;
  ro_burst : 0 <= burst (cfg_ g);
  ro_notional : 0 <= max_notional (cfg_ g);
  ro_room : T + depth (cfg_ g) * interval_ g < 18446744073709551616;
}.

Lemma slack_eq T g : 0 <= T -> rate_ok T g -> slack (cfg_ g) (interval_ g) = (depth (cfg_ g) - 1) * interval_ g.
Proof.
  intros HT [Hi Hb _ Hr]. unfold slack, depth in *. destruct (Z.eqb_spec (burst (cfg_ g)) 0) as [E0|].
  - rewrite E0, Z.mul_0_r. by change (Z.max 1 0 - 1) with 0.
  - replace (Z.max 1 (burst (cfg_ g))) with (burst (cfg_ g)) in * by lia. rewrite u64_small; unfold in_u64; nia.
Qed.

Lemma rate_step T g tat ts v : 0 <= ts <= T -> 0 <= tat -> rate_ok T g -> rate (cfg_ g) (interval_ g) tat ts = Some v ->
  tat - (depth (cfg_ g) - 1) * interval_ g <= ts /\ v = Z.max ts tat + interval_ g.
Proof.
  intros Ht H0 Hok. unfold rate. rewrite (slack_eq T) by (done || lia). pose proof Hok as [Hi _ _ Hr]. case_if; [done|]. intros [= <-].
  assert (tat - (depth (cfg_ g) - 1) * interval_ g <= ts) by (destruct (Z.ltb_spec ((depth (cfg_ g) - 1) * interval_ g) tat); lia).
  split; [done|]. assert (1 <= depth (cfg_ g)) by (unfold depth; lia). apply u64_small. unfold in_u64. nia.
Qed.

Lemma process_rejected g c g' es : process g c = Some (g', es) ->
  cfg_ g' = cfg_ g /\ interval_ g' = interval_ g /\ alen (last_px_ g') = alen (last_px_ g) /\
  ((rejected g' = rejected g /\ (c_type c = Cancel /\ tat_ g' = tat_ g \/ c_type c <> Cancel /\ check g c = Some (NoReason, tat_ g'))) \/
   (rejected g' <> rejected g /\ exists r, c_type c <> Cancel /\ check g c = Some (r, tat_ g') /\ r <> NoReason)).
Proof.
  intros [(tats & Hp & Hc)|(r & tats & Hb & Ht & Hc & Hr)]%process_inv.
  - unfold pass in Hp. inv_bind. destruct x as [e es0]. inv_bind. simpl. rewrite tap_length. split_and!; try done. left.
    split; [done|]. destruct Hc as [[? ->]|[? ?]]; auto.
  - unfold block in Hb. simplify_eq/=. split_and!; try done. right. split; [|eauto 10]. unfold rejected, u64. simpl.
    pose proof (Z.mod_pos_bound (rejected_ g + 1) 18446744073709551616). divmod.
Qed.

(** What one command does to an owner's arrival time. *)
Lemma process_tat T o g c g' es : rate_ok T g -> command_wf c -> c_ts c <= T -> process g c = Some (g', es) ->
  rate_ok T g' /\ cfg_ g' = cfg_ g /\ interval_ g' = interval_ g /\
  if admits o g c then exists tat, (tat_ g).[o] = Some tat /\
      (0 <= tat -> tat - (depth (cfg_ g) - 1) * interval_ g <= c_ts c /\ (tat_ g').[o] = Some (Z.max (c_ts c) tat + interval_ g))
  else (tat_ g').[o] = (tat_ g).[o].
Proof.
  intros Hok Hwf HT Hp. destruct (process_rejected _ _ _ _ Hp) as (Ec & Ei & El & Hrej).
  split; [destruct Hok; split; by rewrite ?Ec, ?Ei|]. split; [done|]. split; [done|].
  assert (0 <= c_ts c <= T) as Hts by (split; [apply Hwf|done]). pose proof (ro_notional _ _ Hok) as Hn. unfold admits. rewrite Hp.
  destruct Hrej as [[Er [[Ht Etat]|[Ht Hc]]]|(Er & r & Ht & Hc & Hr)].
  - rewrite Ht. simpl. by rewrite Etat.
  - rewrite bool_decide_eq_false_2, Er, Z.eqb_refl, andb_true_r by done. simpl.
    apply check_verdict in Hc; [|done..]. inversion Hc as [Hs|last tats Hl _ _ Hw Hcase|r0 Hne]; subst; [|clear Hc|done].
    + rewrite (proj2 (Z.ltb_ge _ _)), andb_false_r by done. done.
    + destruct Hcase as [[Hz _]|(tat & v & _ & Htat & Hrate & Hset)]; [pose proof (ro_interval _ _ Hok); lia|].
      apply aget_bound in Hl. rewrite (proj2 (Z.ltb_lt _ _)), andb_true_r by lia. destruct (Z.eqb_spec (c_owner c) o) as [<-|Hne].
      * exists tat. split; [done|]. intros H0. destruct (rate_step T g tat (c_ts c) v Hts H0 Hok Hrate) as [? ->].
        split; [done|]. by eapply aget_aset_eq.
      * rewrite (aget_aset_ne _ _ _ _ _ Hset); [done|congruence].
  - rewrite (proj2 (Z.eqb_neq (rejected g') (rejected g))), andb_false_r by done.
    apply check_verdict in Hc; [|done..]. by inversion Hc; subst.
Qed.

(** From an arrival time [tat], the messages still to be let through are spaced by the interval, but for the burst. *)
Lemma admitted_after T o cs : 0 <= T -> forall g tat, rate_ok T g -> Forall (fun c => command_wf c /\ c_ts c <= T) cs ->
  (tat_ g).[o] = Some tat -> 0 <= tat -> forall j y, admitted o g cs !! j = Some y ->
  tat + (Z.of_nat j - (depth (cfg_ g) - 1)) * interval_ g <= y.
Proof.
  intros HT. induction cs as [|c cs IH]; intros g tat Hok Hcs Htat H0 j y Hy; [done|]. apply Forall_cons in Hcs as [[Hwf Hc] Hcs].
  simpl in Hy. destruct (process g c) as [[g' es]|] eqn:Hp; [|done].
  destruct (process_tat T o g c g' es Hok Hwf Hc Hp) as (Hok' & Ec & Ei & Ha). rewrite <- Ec, <- Ei.
  pose proof (ro_interval _ _ Hok) as Hi. destruct (admits o g c).
  - destruct Ha as (tat0 & Ht0 & Hstep). assert (tat0 = tat) as -> by congruence. destruct (Hstep H0) as [Hge Htat'].
    assert (0 <= c_ts c) by apply Hwf. destruct j as [|j]; simpl in Hy; [injection Hy as <-; rewrite Ec, Ei; lia|].
    specialize (IH g' _ Hok' Hcs Htat' ltac:(lia) j y Hy). rewrite Ec, Ei in *. nia.
  - rewrite <- Ha in Htat. eapply IH; eauto.
Qed.

Lemma admitted_spaced T o cs : 0 <= T -> forall g, rate_ok T g -> Forall (fun c => command_wf c /\ c_ts c <= T) cs ->
  (forall tat, (tat_ g).[o] = Some tat -> 0 <= tat) -> forall i j x y, (i <= j)%nat ->
  admitted o g cs !! i = Some x -> admitted o g cs !! j = Some y ->
  (Z.of_nat (S j - i) - depth (cfg_ g)) * interval_ g <= y - x.
Proof.
  intros HT. induction cs as [|c cs IH]; intros g Hok Hcs H0 i j x y Hij Hx Hy; [done|].
  apply Forall_cons in Hcs as [[Hwf Hc] Hcs]. simpl in Hx, Hy. destruct (process g c) as [[g' es]|] eqn:Hp; [|done].
  destruct (process_tat T o g c g' es Hok Hwf Hc Hp) as (Hok' & Ec & Ei & Ha). rewrite <- Ec, <- Ei.
  pose proof (ro_interval _ _ Hok) as Hi. destruct (admits o g c).
  - destruct Ha as (tat & Htat & Hstep). destruct (Hstep (H0 _ Htat)) as [Hge Htat']. specialize (H0 _ Htat).
    assert (0 <= c_ts c) by apply Hwf. destruct i as [|i]; simpl in Hx.
    + injection Hx as <-. destruct j as [|j]; simpl in Hy; [injection Hy as <-; unfold depth; nia|].
      pose proof (admitted_after T o cs HT g' _ Hok' Hcs Htat' ltac:(lia) j y Hy). rewrite Ec, Ei in *. nia.
    + destruct j as [|j]; [lia|]. simpl in Hy. replace (S (S j) - S i)%nat with (S j - i)%nat by lia.
      eapply IH; try done; [|lia]. intros t Ht. rewrite Htat' in Ht. injection Ht as <-. lia.
  - eapply IH; try done. intros t Ht. apply H0. congruence.
Qed.

(** *** No undefined behaviour without a collar *)

Lemma check_total g c : gate_wf g -> collar_ticks (cfg_ g) = 0 -> 0 <= c_symbol c -> 0 <= c_owner c ->
  exists r tats, check g c = Some (r, tats) /\ alen tats = alen (tat_ g).
Proof.
  intros [Hs Ho] Hc H0 Hw. unfold check. destruct (Z.leb_spec (alen (last_px_ g)) (c_symbol c)); [eauto|].
  aget_ex (halted_ g) (c_symbol c) h Hh; [lia|]. rewrite Hh. simpl. case_if; [eauto|]. case_if; [eauto|]. case_if; [eauto|].
  aget_ex (last_px_ g) (c_symbol c) px Hl; [lia|]. rewrite Hl. simpl.
  assert (outside_collar (cfg_ g) c px = Some false) as ->.
  { unfold outside_collar. by rewrite (proj2 (Z.eqb_eq _ _) Hc), andb_false_r. }
  simpl.
  case_if; [|eauto]. case_if; [eauto|]. case_if; [|eauto]. aget_ex (tat_ g) (c_owner c) tat Ht; [lia|]. rewrite Ht. simpl.
  destruct (rate _ _ _ _) as [v|]; [|eauto]. aset_ex (tat_ g) (c_owner c) v tats Hv; [lia|]. rewrite Hv. simpl.
  eexists _, _. split; [done|]. by eapply alen_aset.
Qed.
End laws.

(** *** Two engines that answer alike, behind two gates *)

Section two.
Context {E1 E2 : Type} `{EngineImpl E1, EngineImpl E2}.
Variable alike : E1 -> E2 -> Prop.
Variable ok : Command -> Prop.
Hypothesis alike_step : forall e f c, alike e f -> ok c ->
  exists e' f' es, en_process e c = Some (e', es) /\ en_process f c = Some (f', es) /\ alike e' f'.
Hypothesis ok_range : forall c, ok c -> 0 <= c_symbol c /\ 0 <= c_owner c.

Record gates_alike (g1 : t E1) (g2 : t E2) : Prop := {
  ga_engine : alike (engine_ g1) (engine_ g2);
  ga_wf : gate_wf g1;
  ga_state : (cfg_ g1, last_px_ g1, halted_ g1, tat_ g1, interval_ g1, rejected_ g1, halt_all_ g1) =
             (cfg_ g2, last_px_ g2, halted_ g2, tat_ g2, interval_ g2, rejected_ g2, halt_all_ g2);
}.

Definition same_outcome (g1 : t E1) (x : option (t E1 * list Event)) (y : option (t E2 * list Event)) : Prop :=
  match x, y with
  | Some (g1', es), Some (g2', es') => gates_alike g1' g2' /\ es = es' /\ cfg_ g1' = cfg_ g1
  | None, None => collar_ticks (cfg_ g1) <> 0
  | _, _ => False
  end.

Lemma pass_alike g1 g2 tats c : gates_alike g1 g2 -> ok c -> alen tats = alen (tat_ g1) ->
  same_outcome g1 (pass g1 tats c) (pass g2 tats c).
Proof.
  intros [Ha [Ws Wo] Hs] Hok Hl. unfold pass. destruct (alike_step _ _ _ Ha Hok) as (e' & f' & es & -> & -> & Ha'). simpl.
  split; [|done]. simplify_eq. split; simpl; [done| |congruence]. split; simpl; [by rewrite tap_length|congruence].
Qed.

Lemma check_alike g1 g2 c : gates_alike g1 g2 -> check g1 c = check g2 c.
Proof. intros [_ _ Hs]. simplify_eq. unfold check. by repeat match goal with Hx : _ g1 = _ g2 |- _ => rewrite <- Hx end. Qed.

Lemma check_length g c r tats : check (E := E1) g c = Some (r, tats) -> alen tats = alen (tat_ g).
Proof.
  unfold check. intros Hc. repeat (case_match; simplify_eq; try done); inv_bind;
    repeat (case_match; simplify_eq; try done); inv_bind; repeat (case_match; simplify_eq; try done); inv_bind; try done;
    repeat (case_match; simplify_eq; try done); inv_bind; try done; by eapply alen_aset.
Qed.

Lemma process_alike g1 g2 c : gates_alike g1 g2 -> ok c -> same_outcome g1 (process g1 c) (process g2 c).
Proof.
  intros Hg Hok. unfold process. rewrite <- (check_alike g1 g2 c Hg). pose proof Hg as [_ _ Hs].
  destruct (bool_decide (c_type c = Cancel)).
  - replace (tat_ g2) with (tat_ g1) by congruence. by apply pass_alike.
  - destruct (check g1 c) as [[r tats]|] eqn:Hc; simpl.
    + pose proof (check_length _ _ _ _ Hc) as Hl. case_if; [by apply pass_alike|]. destruct Hg as [Ha [Ws Wo] _].
      unfold block. simpl. split; [|done]. simplify_eq. split; simpl; [done| |congruence]. split; simpl; congruence.
    + intros Hz. destruct (ok_range c Hok). destruct (check_total g1 c (ga_wf _ _ Hg) Hz) as (? & ? & Hc' & _); [done..|congruence].
Qed.

Lemma run_alike cs : forall g1 g2, gates_alike g1 g2 -> Forall ok cs -> same_outcome g1 (run g1 cs) (run g2 cs).
Proof.
  induction cs as [|c cs IH]; intros g1 g2 Hg Hok; simpl; [done|]. apply Forall_cons in Hok as [Hc Hok].
  pose proof (process_alike g1 g2 c Hg Hc) as Hp. unfold same_outcome in Hp.
  destruct (process g1 c) as [[g1' es1]|], (process g2 c) as [[g2' es2]|]; try done. destruct Hp as (Hg' & <- & Ec). simpl.
  pose proof (IH _ _ Hg' Hok) as Hr. unfold same_outcome in Hr. destruct (run g1' cs) as [[h1 fs1]|], (run g2' cs) as [[h2 fs2]|]; try done; simpl.
  - destruct Hr as (? & <- & ?). split_and!; congruence || done.
  - congruence.
Qed.
End two.
End RiskLaws.

(** ** The gate before the exchange's engines *)

Module RiskTheorems.
Import RiskGate RiskLaws BookTheorems.

(** A condition on single commands that keeps every run of an engine within its bounds. *)
Definition command_ok (cfg : BookConfig) (ok : Command -> Prop) : Prop :=
  (forall c, ok c -> 0 <= c_symbol c /\ 0 <= c_owner c) /\ forall cs, Forall ok cs -> commands_ok cfg cs.

Section engines.
Context {S I B : Type} {OF : OrderFields S} {OFL : OrderFieldsLaws S} {IX : IdIndex I} {IXL : IdIndexLaws I}
  {LS : LevelSet B} {LSL : LevelSetLaws B}.
Abbreviation fast := (MatchingEngine.t (OB.t S I B)).
Abbreviation reference := (MatchingEngine.t RB.t).

Definition engines_alike (ok : Command -> Prop) (e : fast) (f : reference) : Prop :=
  Forall2 (fun b r => R b r /\ forall cs, Forall ok cs -> run_ok r cs) e f.

Lemma engines_alike_step cfg ok (e : fast) (f : reference) c : command_ok cfg ok -> engines_alike ok e f -> ok c ->
  exists e' f' es, en_process e c = Some (e', es) /\ en_process f c = Some (f', es) /\ engines_alike ok e' f'.
Proof.
  intros [Hok _] HR Hc. destruct (Hok c Hc) as [Hs _]. unfold en_process, matching_engine, MatchingEngine.process.
  assert (alen f = alen e) as Hl by (unfold alen; by rewrite (Forall2_length _ _ _ HR)). rewrite Hl.
  destruct (Z.leb_spec (alen e) (c_symbol c)); [eauto 10|].
  aget_ex e (c_symbol c) b Hb; [lia|]. aget_ex f (c_symbol c) r Hr; [lia|]. rewrite Hb, Hr. simpl.
  assert (R b r /\ forall cs, Forall ok cs -> run_ok r cs) as [HRb Hrun].
  { apply aget_Some in Hb as [_ Hb], Hr as [_ Hr]. by eapply Forall2_lookup_lr in HR. }
  destruct (Hrun [c]) as [Hck _]; [by constructor|].
  destruct (step_refines b r c HRb Hck) as (b' & r' & es & Hbs & Hrs & HR'). rewrite Hbs, Hrs. simpl.
  aset_ex e (c_symbol c) b' e1 He1; [lia|]. aset_ex f (c_symbol c) r' f1 Hf1; [lia|]. rewrite He1, Hf1. simpl.
  eexists _, _, _. split_and!; [done..|]. unfold aset in He1, Hf1. repeat case_match; simplify_eq. apply Forall2_insert; [done|].
  split; [done|]. intros cs Hcs. destruct (Hrun (c :: cs)) as [_ Hn]; [by constructor|]. by eapply Hn.
Qed.

Lemma make_alike cfg ok n : cfg_ok cfg -> command_ok cfg ok ->
  exists (e : fast) (f : reference), MatchingEngine.make n cfg = Some e /\ MatchingEngine.make n cfg = Some f /\ engines_alike ok e f.
Proof.
  intros Hcfg [_ Hok]. destruct (EngineEquiv.make_engines n cfg Hcfg) as (e & f & He & Hf & HR & ->). eexists _, _. split_and!; [done..|].
  unfold engines_alike. apply Forall2_same_length_lookup. split; [by eapply Forall2_length|]. intros i b r Hb Hr.
  split; [by eapply Forall2_lookup_lr in HR|]. intros cs Hcs. apply list_lookup_fmap_Some in Hr as (s & -> & _).
  by apply (commands_run_ok s cfg), Hok.
Qed.

(** Behind the risk gate, too, the fast engine is the reference engine: whatever the limits, over any commands the two
    gates report the same events and keep the same state, and without a price collar neither meets undefined behaviour. *)
Theorem gate_refines_reference n cfg rcfg ok cs : cfg_ok cfg -> command_ok cfg ok -> Forall ok cs ->
  exists (e : fast) (f : reference), MatchingEngine.make n cfg = Some e /\ MatchingEngine.make n cfg = Some f /\
    snd <$> run (make e rcfg) cs = snd <$> run (make f rcfg) cs /\
    (collar_ticks rcfg = 0 -> is_Some (run (make e rcfg) cs)).
Proof.
  intros Hcfg Hok Hcs. destruct (make_alike cfg ok n Hcfg Hok) as (e & f & He & Hf & HR). exists e, f. split; [done|]. split; [done|].
  assert (alen f = alen e) as Hl by (unfold alen; by rewrite (Forall2_length _ _ _ HR)).
  pose proof (run_alike (engines_alike ok) ok (fun e f c => engines_alike_step cfg ok e f c Hok) (proj1 Hok) cs (make e rcfg) (make f rcfg)) as Hrun.
  unfold same_outcome in Hrun.
  assert (gates_alike (engines_alike ok) (make e rcfg) (make f rcfg)) as Hg.
  { split; [done|apply gate_make_wf, alen_nonneg|]. unfold make, en_num_symbols, matching_engine, MatchingEngine.num_symbols. simpl. by rewrite Hl. }
  specialize (Hrun Hg Hcs). destruct (run (make e rcfg) cs) as [[g1 es1]|], (run (make f rcfg) cs) as [[g2 es2]|]; try done; simpl.
  destruct Hrun as (_ & -> & _). eauto.
Qed.
End engines.

Section any_engine.
Context {E : Type} `{EngineImpl E}.
Implicit Types g : t E.


(** C14: the rate limit is the one promised: from construction, over any commands, the messages of an owner that the gate
    lets through keep the pace. Of any [n] of them in a row, the first and the last lie at least [n - burst] intervals
    apart, the clock of the messages running in any order. *)
Theorem gate_limits_rate T e cfg cs o i j x y : rate_ok T (make e cfg) -> 0 <= T ->
  Forall (fun c => command_wf c /\ c_ts c <= T) cs -> (i <= j)%nat ->
  admitted o (make e cfg) cs !! i = Some x -> admitted o (make e cfg) cs !! j = Some y ->
  (Z.of_nat (S j - i) - depth cfg) * interval_ (make e cfg) <= y - x.
Proof.
  intros Hok HT Hcs Hij Hx Hy. refine (admitted_spaced T o cs HT (make e cfg) Hok Hcs _ i j x y Hij Hx Hy).
  intros tat Ht. simpl in Ht. apply aget_Some in Ht as [_ Ht]. unfold amake in Ht. apply lookup_replicate in Ht as [-> _]. done.
Qed.
End any_engine.

(** ** A concrete gate *)

Definition demo_risk (interval burst collar : Z) : RiskConfig := mkRiskConfig 20 1000 collar 4 (if interval =? 0 then 0 else 100 / interval) burst 100.
Definition demo_ok (c : Command) : Prop := 0 <= c_qty c <= 1000 /\ 0 <= c_price c <= 1000 /\ 0 <= c_symbol c /\ 0 <= c_owner c.

Lemma demo_command_ok : command_ok demo_cfg demo_ok.
Proof.
  split; [by intros c (_ & _ & ?)|]. intros cs Hcs. apply demo_commands_ok, bool_decide_eq_true. eapply Forall_impl; [exact Hcs|].
  by intros c (? & ? & _).
Qed.

Definition timed (ts : Z) (c : Command) : Command :=
  mkCommand (c_order_id c) (c_price c) (c_seq c) ts (c_qty c) (c_owner c) (c_symbol c) (c_type c) (c_side c) (c_ord_type c) (c_tif c) (c_flags c).
Definition gate_cmds : list Command := demo_cmds ++ [buy9; order 8 Sell 120 50 1 Limit Day 0; order 9 Buy 140 2 1 Limit Day 0].

Lemma gate_refines_reference_witness : exists (e : MatchingEngine.t demo_book) (f : MatchingEngine.t RB.t),
  MatchingEngine.make 2 demo_cfg = Some e /\ MatchingEngine.make 2 demo_cfg = Some f /\
  snd <$> run (make e (demo_risk 0 1 0)) gate_cmds = snd <$> run (make f (demo_risk 0 1 0)) gate_cmds /\
  is_Some (run (make e (demo_risk 0 1 0)) gate_cmds).
Proof.
  destruct (gate_refines_reference (S := AosStore.t) (I := OrderIndex.t LocalityHash) (B := PriceBitmap.t) 2 demo_cfg (demo_risk 0 1 0)
    demo_ok gate_cmds demo_cfg_ok demo_command_ok) as (e & f & He & Hf & Heq & Hs).
  - repeat (apply Forall_cons; split; [unfold demo_ok; simpl; lia|]). by apply Forall_nil.
  - exists e, f. split; [exact He|]. split; [exact Hf|]. split; [exact Heq|]. apply Hs. reflexivity.
Defined.

Abbreviation demo_reference := (MatchingEngine.t RB.t).
Definition demo_gate (rcfg : RiskConfig) : t demo_reference := make (map (fun i => RB.make i demo_cfg) [0; 1]) rcfg.

Definition big_order : Command := order 8 Sell 120 50 1 Limit Day 0.

(** Owner 1 may send two at once, then one every ten ticks: the third and the fifth message come too early. *)
Definition rate_cmds : list Command :=
  [timed 5 (order 1 Buy 101 1 1 Limit Day 0); timed 5 (order 2 Buy 102 1 1 Limit Day 0); timed 6 (order 3 Buy 103 1 1 Limit Day 0);
   timed 15 (order 4 Buy 104 1 1 Limit Day 0); timed 16 (order 5 Buy 104 1 1 Limit Day 0); timed 25 (order 6 Buy 105 1 1 Limit Day 0)].
Lemma gate_limits_rate_witness : admitted 1 (demo_gate (demo_risk 10 2 0)) rate_cmds = [5; 5; 15; 25] /\ (4 - 2) * 10 <= 25 - 5.
Proof.
  assert (admitted 1 (demo_gate (demo_risk 10 2 0)) rate_cmds = [5; 5; 15; 25]) as Ha by (vm_compute; reflexivity). split; [exact Ha|].
  refine (gate_limits_rate 100 (map (fun i => RB.make i demo_cfg) [0; 1]) (demo_risk 10 2 0) rate_cmds 1 0 3 5 25 _ _ _ _ _ _).
  - split; vm_compute; try reflexivity; discriminate.
  - lia.
  - unfold rate_cmds, command_wf. repeat (apply Forall_cons; split; [simpl; words; lia|]). by apply Forall_nil.
  - lia.
  - exact (f_equal (fun l => l !! 0%nat) Ha).
  - exact (f_equal (fun l => l !! 3%nat) Ha).
Defined.
End RiskTheorems.
