(* ===== verification/SpscQueue.v ===== *)
(** * The single-producer single-consumer ring (spsc_queue.hpp)

    The two indices are free-running 64-bit counters that wrap. Each side reads the other's index only when its cached copy
    says the ring looks full or empty. An acquire load may return any value the other side has stored since the one last
    read: the operations take the value loaded as an argument, and the step relation allows every such value. *)
From S2P Require Import Prelude Bits.

Module SpscQueue.
Section queue.
Context {A : Type}.

Record t := mk {
  tail_ : Z;
  head_cache_ : Z;
  head_ : Z;
  tail_cache_ : Z;
  cap_ : Z;
  mask_ : Z;
  buf_ : list A;
}.

(** [zero] is the value of the zeroed memory of [buf_]. *)
Definition make (capacity : Z) (zero : A) : t :=
  let cap := bit_ceil (if capacity <? 2 then 2 else capacity) in mk 0 0 0 0 cap (cap - 1) (amake cap zero).

Definition slot (q : t) (i : Z) : Z := Z.land i (mask_ q).

(** The last part of [try_push]: the slot is written, then published. *)
Definition publish (q : t) (v : A) : option (bool * t) :=
  buf ← (buf_ q).[slot q (tail_ q) <- v];
  Some (true, mk (u64 (tail_ q + 1)) (head_cache_ q) (head_ q) (tail_cache_ q) (cap_ q) (mask_ q) buf).

(** [loaded] is what the load of [head_] returns, if it is made. *)
Definition try_push (q : t) (loaded : Z) (v : A) : option (bool * t) :=
  if u64 (tail_ q - head_cache_ q) =? cap_ q then
    let q := mk (tail_ q) loaded (head_ q) (tail_cache_ q) (cap_ q) (mask_ q) (buf_ q) in
    if u64 (tail_ q - head_cache_ q) =? cap_ q then Some (false, q) else publish q v
  else publish q v.

(** [loaded] is what the load of [tail_] returns, if it is made. The pointer is the element it points to. *)
Definition front (q : t) (loaded : Z) : option (option A * t) :=
  if head_ q =? tail_cache_ q then
    let q := mk (tail_ q) (head_cache_ q) (head_ q) loaded (cap_ q) (mask_ q) (buf_ q) in
    if head_ q =? tail_cache_ q then Some (None, q) else v ← (buf_ q).[slot q (head_ q)]; Some (Some v, q)
  else v ← (buf_ q).[slot q (head_ q)]; Some (Some v, q).

(** The slot [prefetch] touches, if any. *)
Definition prefetch (q : t) (ahead : Z) : option Z :=
  if ahead <? u64 (tail_cache_ q - head_ q) then Some (slot q (u64 (head_ q + ahead))) else None.

Definition pop (q : t) : t := mk (tail_ q) (head_cache_ q) (u64 (head_ q + 1)) (tail_cache_ q) (cap_ q) (mask_ q) (buf_ q).

Definition try_pop (q : t) (loaded : Z) : option (option A * t) :=
  '(p, q) ← front q loaded;
  match p with None => Some (None, q) | Some v => Some (Some v, pop q) end.

Definition capacity (q : t) : Z := cap_ q.
Definition size_approx (q : t) : Z := u64 (tail_ q - head_ q).

(** ** The two threads *)

(** A load that returns a value [cur] has had since it was [cached]. *)
Definition may_load (cached cur loaded : Z) : Prop := exists k, 0 <= k <= u64 (cur - cached) /\ loaded = u64 (cached + k).

Inductive event := Pushed (v : A) | Full | Peeked (v : A) | Popped (v : A) | Empty | Touched (slot : Z).

Inductive step : t -> event -> t -> Prop :=
  | step_push q loaded v b q' : may_load (head_cache_ q) (head_ q) loaded -> try_push q loaded v = Some (b, q') ->
      step q (if b : bool then Pushed v else Full) q'
  | step_front q loaded p q' : may_load (tail_cache_ q) (tail_ q) loaded -> front q loaded = Some (p, q') ->
      step q (match p with Some v => Peeked v | None => Empty end) q'
  | step_pop q loaded p q' : may_load (tail_cache_ q) (tail_ q) loaded -> try_pop q loaded = Some (p, q') ->
      step q (match p with Some v => Popped v | None => Empty end) q'
  | step_prefetch q ahead i : 0 <= ahead -> prefetch q ahead = Some i -> step q (Touched i) q.

Inductive steps (q0 : t) : list event -> t -> Prop :=
  | steps_nil : steps q0 [] q0
  | steps_snoc tr q e q' : steps q0 tr q -> step q e q' -> steps q0 (tr ++ [e]) q'.

(** What the trace pushed, and what it popped. *)
Definition pushed (tr : list event) : list A := e ← tr; match e with Pushed v => [v] | _ => [] end.
Definition popped (tr : list event) : list A := e ← tr; match e with Popped v => [v] | _ => [] end.

(** The elements published and not yet popped, oldest first. *)
Definition contents (q : t) : option (list A) :=
  mapM (fun i => (buf_ q).[slot q (u64 (head_ q + i))]) (seqZ 0 (u64 (tail_ q - head_ q))).
End queue.
Arguments t : clear implicits.
Arguments event : clear implicits.
End SpscQueue.

(** ** The ring holds a queue *)

Module SpscLaws.
Import SpscQueue.

Lemma u64_sub_u64 a b : u64 (u64 a - u64 b) = u64 (a - b).
Proof. unfold u64. by rewrite <- Zminus_mod. Qed.

Section laws.
Context {A : Type}.
Implicit Types (q : t A) (xs : list A).

(** [q] holds [xs]; [H] elements were popped, [Hc] and [Tc] are what the caches stand for. *)
Record holds q xs (k H Hc Tc : Z) : Prop := {
  hd_cap : cap_ q = 2 ^ k /\ 1 <= k <= 63;
  hd_mask : mask_ q = cap_ q - 1;
  hd_buf : alen (buf_ q) = cap_ q;
  hd_head : head_ q = u64 H;
  hd_tail : tail_ q = u64 (H + alen xs);
  hd_hc : head_cache_ q = u64 Hc;
  hd_tc : tail_cache_ q = u64 Tc;
  hd_order : 0 <= Hc <= H /\ H <= Tc <= H + alen xs /\ H + alen xs - Hc <= cap_ q;
  hd_elems : forall i x, xs !! i = Some x -> (buf_ q).[(H + Z.of_nat i) mod cap_ q] = Some x;
}.

Lemma hd_small q xs k H Hc Tc : holds q xs k H Hc Tc -> 2 <= cap_ q <= 9223372036854775808.
Proof.
  intros Hq. destruct (hd_cap _ _ _ _ _ _ Hq) as [-> Hk]. split; [change 2 with (2 ^ 1) at 1|change 9223372036854775808 with (2 ^ 63)];
    apply Z.pow_le_mono_r; lia.
Qed.

Lemma slot_eq q xs k H Hc Tc X : holds q xs k H Hc Tc -> slot q (u64 X) = X mod cap_ q.
Proof. intros Hq. destruct (hd_cap _ _ _ _ _ _ Hq) as [Ec Hk]. unfold slot. rewrite (hd_mask _ _ _ _ _ _ Hq), Ec. apply u64_land_mask. lia. Qed.

Lemma slot_range q xs k H Hc Tc X : holds q xs k H Hc Tc -> 0 <= X mod cap_ q < alen (buf_ q).
Proof. intros Hq. rewrite (hd_buf _ _ _ _ _ _ Hq). apply Z.mod_pos_bound. pose proof (hd_small _ _ _ _ _ _ Hq). lia. Qed.

Lemma size_eq q xs k H Hc Tc : holds q xs k H Hc Tc -> u64 (tail_ q - head_ q) = alen xs.
Proof.
  intros Hq. rewrite (hd_tail _ _ _ _ _ _ Hq), (hd_head _ _ _ _ _ _ Hq), u64_sub_u64. pose proof (hd_small _ _ _ _ _ _ Hq).
  destruct (hd_order _ _ _ _ _ _ Hq) as (? & ? & ?). pose proof (alen_nonneg xs). rewrite u64_small; unfold in_u64; lia.
Qed.

Lemma holds_contents q xs k H Hc Tc : holds q xs k H Hc Tc -> contents q = Some xs.
Proof.
  intros Hq. unfold contents. rewrite (size_eq _ _ _ _ _ _ Hq). apply mapM_Some_2, Forall2_same_length_lookup.
  split; [rewrite length_seqZ; unfold alen; lia|]. intros i z x Hi Hx. apply lookup_seqZ in Hi as [-> Hi].
  rewrite (hd_head _ _ _ _ _ _ Hq), u64_add_l, (slot_eq _ _ _ _ _ _ _ Hq). by eapply hd_elems.
Qed.

(** A load of the other index moves the cache forward, never past it. *)
Lemma may_load_eq c x loaded : 0 <= x - c < 18446744073709551616 -> may_load (u64 c) (u64 x) loaded ->
  exists c', c <= c' <= x /\ loaded = u64 c'.
Proof.
  intros Hx (n & Hn & ->). rewrite u64_sub_u64, u64_small in Hn by done. exists (c + n). rewrite u64_add_l. split; [lia|done].
Qed.

Lemma fresh_load c x : 0 <= x - c < 18446744073709551616 -> may_load (u64 c) (u64 x) (u64 x).
Proof. intros Hx. exists (x - c). rewrite u64_sub_u64, u64_small, u64_add_l by done. split; [lia|f_equal; lia]. Qed.

Lemma publish_holds q xs k H Hc Tc v : holds q xs k H Hc Tc -> H + alen xs - Hc < cap_ q ->
  exists q', publish q v = Some (true, q') /\ holds q' (xs ++ [v]) k H Hc Tc /\ cap_ q' = cap_ q.
Proof.
  intros Hq Hroom. unfold publish. pose proof Hq as [Ec Em Eb Eh Et Ehc Etc (O1 & O2 & O3) El].
  rewrite Et, (slot_eq _ _ _ _ _ _ _ Hq). aset_ex (buf_ q) ((H + alen xs) mod cap_ q) v buf Hbuf; [by eapply slot_range|].
  rewrite Hbuf. simpl. eexists. split; [done|]. split; [|done].
  assert (alen (xs ++ [v]) = alen xs + 1) as El1 by (unfold alen; rewrite length_app; simpl; lia).
  split; simpl; rewrite ?El1; try done; [by rewrite (alen_aset _ _ _ _ Hbuf)|by rewrite u64_add_l, Z.add_assoc|lia|].
  intros i x Hi. apply lookup_app_Some in Hi as [Hi|[Hge Hi]].
  - pose proof (lookup_lt_Some _ _ _ Hi). rewrite (aget_aset_ne _ _ _ _ _ Hbuf); [by apply El|].
    apply not_eq_sym, mod_ne. unfold alen in *. lia.
  - apply list_lookup_singleton_Some in Hi as [Hz <-]. replace (Z.of_nat i) with (alen xs) by (unfold alen; lia).
    by eapply aget_aset_eq.
Qed.

Lemma try_push_holds q xs k H Hc Tc loaded v : holds q xs k H Hc Tc -> may_load (head_cache_ q) (head_ q) loaded ->
  exists b q' Hc', try_push q loaded v = Some (b, q') /\ holds q' (if b : bool then xs ++ [v] else xs) k H Hc' Tc /\ cap_ q' = cap_ q /\
    (loaded = head_ q -> b = (alen xs <? cap_ q)) /\ (b = true -> alen xs < cap_ q).
Proof.
  intros Hq Hl. pose proof (hd_small _ _ _ _ _ _ Hq) as Hs. pose proof Hq as [Ec Em Eb Eh Et Ehc Etc (O1 & O2 & O3) El].
  unfold try_push. simpl. pose proof (alen_nonneg xs) as Hn.
  assert (forall Hc', Hc <= Hc' <= H -> u64 (tail_ q - u64 Hc') = H + alen xs - Hc') as Hfull.
  { intros Hc' HHc'. rewrite Et, u64_sub_u64, u64_small; [done|unfold in_u64; lia]. }
  rewrite Ehc, Hfull by lia. destruct (Z.eqb_spec (H + alen xs - Hc) (cap_ q)) as [Hfl|Hnf].
  - rewrite Ehc, Eh in Hl. apply may_load_eq in Hl as (Hc' & HHc' & Hld); [|lia]. rewrite Hld, Hfull by lia.
    set (q1 := mk _ _ _ _ _ _ _). assert (holds q1 xs k H Hc' Tc) as Hq1 by (split; simpl; try done; lia).
    destruct (Z.eqb_spec (H + alen xs - Hc') (cap_ q)) as [Hfl'|Hnf'].
    + exists false, q1, Hc'. split_and!; try done. intros HE. symmetry. apply Z.ltb_ge. rewrite Eh in HE.
      assert (Hc' = H); [|lia]. apply (f_equal (fun z => u64 (tail_ q - z))) in HE. rewrite !Hfull in HE by lia. lia.
    + destruct (publish_holds q1 xs k H Hc' Tc v Hq1) as (q' & Hp & Hq' & Ecap); [simpl; lia|]. exists true, q', Hc'.
      split_and!; try done; [|lia]. intros _. symmetry. apply Z.ltb_lt. lia.
  - destruct (publish_holds q xs k H Hc Tc v Hq) as (q' & Hp & Hq' & Ecap); [lia|]. exists true, q', Hc.
    split_and!; try done; [|lia]. intros _. symmetry. apply Z.ltb_lt. lia.
Qed.

Lemma front_elem q x xs k H Hc Tc : holds q (x :: xs) k H Hc Tc -> (buf_ q).[slot q (head_ q)] = Some x.
Proof.
  intros Hq. rewrite (hd_head _ _ _ _ _ _ Hq), (slot_eq _ _ _ _ _ _ _ Hq). replace H with (H + Z.of_nat 0) by lia.
  by eapply hd_elems.
Qed.

Lemma front_holds q xs k H Hc Tc loaded : holds q xs k H Hc Tc -> may_load (tail_cache_ q) (tail_ q) loaded ->
  exists p q' Tc', front q loaded = Some (p, q') /\ holds q' xs k H Hc Tc' /\ cap_ q' = cap_ q /\
    (loaded = tail_ q -> p = head xs) /\ (forall x, p = Some x -> head xs = Some x /\ H < Tc').
Proof.
  intros Hq Hl. pose proof (hd_small _ _ _ _ _ _ Hq) as Hs. pose proof Hq as [Ec Em Eb Eh Et Ehc Etc (O1 & O2 & O3) El].
  pose proof (alen_nonneg xs) as Hn.
  assert (forall Tc', H <= Tc' <= H + alen xs -> head_ q = u64 Tc' -> Tc' = H) as Heq.
  { intros Tc' HT HE. assert (u64 (u64 Tc' - u64 H) = Tc' - H) as Hd by (rewrite u64_sub_u64, u64_small; [done|unfold in_u64; lia]).
    rewrite <- HE, Eh, Z.sub_diag in Hd. change (u64 0) with 0 in Hd. lia. }
  assert (forall q1 Tc', holds q1 xs k H Hc Tc' -> H < Tc' -> exists x, head xs = Some x /\ (buf_ q1).[slot q1 (head_ q1)] = Some x) as Hel.
  { intros q1 Tc' Hq1 HT. destruct (hd_order _ _ _ _ _ _ Hq1) as (_ & ? & _). destruct xs as [|x xs]; [unfold alen in *; simpl in *; lia|].
    exists x. split; [done|]. by eapply front_elem. }
  unfold front. simpl. destruct (Z.eqb_spec (head_ q) (tail_cache_ q)) as [He|Hne].
  - rewrite Etc in He. apply Heq in He; [|lia]. subst Tc. rewrite Etc, Et in Hl. apply may_load_eq in Hl as (Tc' & HT & Hld); [|lia].
    set (q1 := mk _ _ _ _ _ _ _). assert (holds q1 xs k H Hc Tc') as Hq1 by (split; simpl; try done; lia).
    destruct (Z.eqb_spec (head_ q) loaded) as [He'|Hne'].
    + exists None, q1, Tc'. split_and!; try done. intros HE. rewrite HE, Et in He'. apply Heq in He'; [|lia].
      destruct xs; [done|unfold alen in *; simpl in *; lia].
    + destruct (Hel q1 Tc' Hq1) as (x & Hx & Hb); [assert (Tc' <> H) by congruence; lia|].
      simpl in Hb. rewrite Hb. simpl.
      exists (Some x), q1, Tc'. split_and!; try done. intros y [= <-]. split; [done|]. assert (Tc' <> H) by congruence. lia.
  - destruct (Hel q Tc Hq) as (x & Hx & Hb); [assert (Tc <> H) by congruence; lia|]. rewrite Hb. simpl.
    exists (Some x), q, Tc. split_and!; try done. intros y [= <-]. split; [done|]. assert (Tc <> H) by congruence. lia.
Qed.

Lemma pop_holds q x xs k H Hc Tc : holds q (x :: xs) k H Hc Tc -> H < Tc -> holds (pop q) xs k (H + 1) Hc Tc.
Proof.
  intros [Ec Em Eb Eh Et Ehc Etc (O1 & O2 & O3) El] HT. assert (alen (x :: xs) = alen xs + 1) as El1 by (unfold alen; simpl; lia).
  rewrite El1 in *. split; simpl; try done; [by rewrite Eh, u64_add_l|rewrite Et; f_equal; lia|lia|].
  intros i y Hi. specialize (El (S i) y Hi). by replace (H + 1 + Z.of_nat i) with (H + Z.of_nat (S i)) by lia.
Qed.

Lemma prefetch_holds q xs k H Hc Tc ahead i : holds q xs k H Hc Tc -> 0 <= ahead -> prefetch q ahead = Some i ->
  ahead < alen xs /\ i = slot q (u64 (head_ q + ahead)).
Proof.
  intros Hq Ha. unfold prefetch. case_if; [|done]. intros [= <-]. split; [|done]. pose proof (hd_small _ _ _ _ _ _ Hq).
  destruct (hd_order _ _ _ _ _ _ Hq) as (? & ? & ?). rewrite (hd_tc _ _ _ _ _ _ Hq), (hd_head _ _ _ _ _ _ Hq), u64_sub_u64, u64_small in E; [lia|].
  unfold in_u64. lia.
Qed.

Lemma make_holds capacity zero : capacity <= 9223372036854775808 ->
  exists k, holds (make capacity zero) [] k 0 0 0 /\ capacity <= cap_ (make capacity zero).
Proof.
  intros Hc. unfold make. set (c := if capacity <? 2 then 2 else capacity).
  assert (2 <= c <= 9223372036854775808 /\ capacity <= c) as [Hc' Hle] by (unfold c; destruct (Z.ltb_spec capacity 2); lia).
  exists (Z.log2_up c). unfold bit_ceil. rewrite (proj2 (Z.leb_gt c 1)) by lia.
  assert (1 <= Z.log2_up c <= 63) as Hk.
  { split; [apply (Z.log2_up_le_mono 2); lia|]. change 63 with (Z.log2_up 9223372036854775808). apply Z.log2_up_le_mono. lia. }
  pose proof (Z.log2_up_spec c ltac:(lia)) as [_ Hup].
  split; [|simpl; lia]. split; simpl; try done; [|change (alen []) with 0; lia]. apply alen_amake. apply Z.pow_nonneg. lia.
Qed.
End laws.
End SpscLaws.

Module SpscTheorems.
Import SpscQueue SpscLaws.

Section properties.
Context {A : Type}.
Implicit Types (q : t A) (v : A).

Lemma step_holds q e q' xs k H Hc Tc : holds q xs k H Hc Tc -> step q e q' ->
  exists xs' H' Hc' Tc', holds q' xs' k H' Hc' Tc' /\ cap_ q' = cap_ q /\ xs ++ pushed [e] = popped [e] ++ xs'.
Proof.
  intros Hq Hst. destruct Hst as [q loaded v b q' Hl Hp|q loaded p q' Hl Hf|q loaded p q' Hl Hp|q ahead i Ha Hp].
  - destruct (try_push_holds _ _ _ _ _ _ _ v Hq Hl) as (b' & q1 & Hc' & Hp' & Hq' & Hcap & _). simplify_eq.
    exists (if b then xs ++ [v] else xs), H, Hc', Tc. split_and!; [done..|]. by destruct b; simpl; rewrite ?app_nil_r.
  - destruct (front_holds _ _ _ _ _ _ _ Hq Hl) as (p' & q1 & Tc' & Hf' & Hq' & Hcap & _). simplify_eq.
    exists xs, H, Hc, Tc'. split_and!; [done..|]. by destruct p; simpl; rewrite app_nil_r.
  - destruct (front_holds _ _ _ _ _ _ _ Hq Hl) as (p' & q1 & Tc' & Hf' & Hq' & Hcap & _ & Hsome). unfold try_pop in Hp. rewrite Hf' in Hp.
    simpl in Hp. destruct p' as [x|]; simplify_eq.
    + destruct (Hsome x eq_refl) as [Hx HT]. destruct xs as [|x' xs]; simplify_eq/=. exists xs, (H + 1), Hc, Tc'.
      split_and!; [by eapply pop_holds|done|by rewrite app_nil_r].
    + exists xs, H, Hc, Tc'. split_and!; [done..|by rewrite app_nil_r].
  - exists xs, H, Hc, Tc. split_and!; [done..|by rewrite app_nil_r].
Qed.

Lemma steps_holds capacity zero tr q : capacity <= 9223372036854775808 -> steps (make capacity zero) tr q ->
  exists xs k H Hc Tc, holds q xs k H Hc Tc /\ cap_ q = cap_ (make capacity zero) /\ pushed tr = popped tr ++ xs.
Proof.
  intros Hc. destruct (make_holds capacity zero Hc) as (k & Hm & _). induction 1 as [|tr q e q' _ IH Hst].
  - exists [], k, 0, 0, 0. done.
  - destruct IH as (xs & k' & H & Hc0 & Tc & Hq & Hcap & Heq).
    destruct (step_holds _ _ _ _ _ _ _ _ Hq Hst) as (xs' & H' & Hc' & Tc' & Hq' & Hcap' & Heq').
    exists xs', k', H', Hc', Tc'. split_and!; [done|congruence|]. unfold pushed, popped in *.
    by rewrite !bind_app, Heq, <- !app_assoc, Heq'.
Qed.

(** C15: the ring is a bounded queue, whatever the interleaving of its two threads and however stale the index each side
    sees. What was pushed is what was popped followed by what the ring holds, in order; it never holds more than its
    capacity; no operation leaves the buffer; a prefetch only touches a published element. A side that sees the other's
    latest index is told "full" exactly when the ring is full, and gets the oldest element exactly when there is one. *)
Theorem spsc_refines_queue capacity (zero : A) tr q : capacity <= 9223372036854775808 -> steps (make capacity zero) tr q ->
  exists xs, contents q = Some xs /\ pushed tr = popped tr ++ xs /\
    alen xs = size_approx q /\ alen xs <= SpscQueue.capacity q /\ capacity <= SpscQueue.capacity q /\
    (forall loaded v, may_load (head_cache_ q) (head_ q) loaded -> exists b q', try_push q loaded v = Some (b, q') /\
      (loaded = head_ q -> b = (alen xs <? SpscQueue.capacity q))) /\
    (forall loaded, may_load (tail_cache_ q) (tail_ q) loaded -> exists p q', front q loaded = Some (p, q') /\
      (loaded = tail_ q -> p = head xs)) /\
    (forall ahead i, 0 <= ahead -> prefetch q ahead = Some i -> ahead < alen xs /\ i = slot q (u64 (head_ q + ahead))).
Proof.
  intros Hc Hst. destruct (steps_holds _ _ _ _ Hc Hst) as (xs & k & H & Hc0 & Tc & Hq & Hcap & Heq).
  destruct (make_holds capacity zero Hc) as (_ & _ & Hle). destruct (hd_order _ _ _ _ _ _ Hq) as (? & ? & ?).
  exists xs. unfold SpscQueue.capacity, size_approx. split; [by eapply holds_contents|]. split; [done|]. split; [by rewrite (size_eq _ _ _ _ _ _ Hq)|].
  split; [lia|]. split; [by rewrite Hcap|]. split_and!.
  - intros loaded v Hl. destruct (try_push_holds _ _ _ _ _ _ _ v Hq Hl) as (b & q' & _ & ? & _ & _ & ? & _). eauto.
  - intros loaded Hl. destruct (front_holds _ _ _ _ _ _ _ Hq Hl) as (p & q' & _ & ? & _ & _ & ? & _). eauto.
  - intros ahead i Ha Hp. by eapply prefetch_holds.
Qed.
End properties.

(** A ring of two: two pushes, a third that finds it full, a pop, and a push that still sees the old head. *)
Definition demo_queue (tail head hc tc : Z) (buf : list Z) : t Z := mk tail hc head tc 2 1 buf.
Definition demo_trace : list (event Z) := [Pushed 5; Pushed 6; Full; Popped 5; Full; Pushed 7].

Lemma demo_steps : steps (make 2 0) demo_trace (demo_queue 3 1 1 2 [7; 6]).
Proof.
  assert (steps (make 2 0) ((((([] ++ [Pushed 5]) ++ [Pushed 6]) ++ [Full]) ++ [Popped 5]) ++ [Full]) (demo_queue 2 1 0 2 [5; 6])) as H.
  { apply steps_snoc with (demo_queue 2 1 0 2 [5; 6]); [|by eapply (step_push _ 0 9 false); [exists 0|reflexivity]].
    apply steps_snoc with (demo_queue 2 0 0 0 [5; 6]); [|by eapply (step_pop _ 2 (Some 5)); [exists 2|reflexivity]].
    apply steps_snoc with (demo_queue 2 0 0 0 [5; 6]); [|by eapply (step_push _ 0 9 false); [exists 0|reflexivity]].
    apply steps_snoc with (demo_queue 1 0 0 0 [5; 0]); [|by eapply (step_push _ 0 6 true); [exists 0|reflexivity]].
    apply steps_snoc with (demo_queue 0 0 0 0 [0; 0]); [|by eapply (step_push _ 0 5 true); [exists 0|reflexivity]].
    apply steps_nil. }
  refine (steps_snoc _ _ _ (Pushed 7) _ H _). eapply (step_push _ 1 7 true); [by exists 1|reflexivity].
Qed.

Lemma spsc_refines_queue_witness : exists xs, contents (demo_queue 3 1 1 2 [7; 6]) = Some xs /\ [5; 6; 7] = [5] ++ xs.
Proof.
  destruct (spsc_refines_queue 2 0 demo_trace (demo_queue 3 1 1 2 [7; 6]) ltac:(lia) demo_steps) as (xs & Hc & Hp & _).
  exists xs. split; [exact Hc|exact Hp].
Defined.
End SpscTheorems.
