(* ===== verification/LatencyHistogram.v ===== *)
(** * The log-linear latency histogram (latency_histogram.hpp)

    Values fall into 1920 buckets: exact below 32, then 32 to each power of two. [percentile] takes its rank as an integer,
    what the code computes from the percentage in floating point; [mean], a floating-point quotient, is left out. *)
From S2P Require Import Prelude Bits.

Module LatencyHistogram.

Definition kSubBits : Z := 5.
Definition kSub : Z := 32.
Definition kBuckets : Z := (64 - kSubBits + 1) * kSub.

Definition index (v : Z) : Z :=
  if v <? kSub then u32 v else
  let msb := u32 (63 - countl_zero v) in
  let shift := u32 (msb - kSubBits) in
  u32 ((shift + 1) * kSub + u32 (Z.shiftr v shift) - kSub).
Definition upper_bound (idx : Z) : Z :=
  if idx <? kSub then idx else
  let shift := u32 (idx / kSub - 1) in
  let sub := idx mod kSub + kSub in
  u64 (u64 (Z.shiftl (sub + 1) shift) - 1).

Record t := mk { counts_ : list Z; count_ : Z; sum_ : Z; min_ : Z; max_ : Z }.
Definition reset : t := mk (amake kBuckets 0) 0 0 18446744073709551615 0.

Definition record (h : t) (v : Z) : option t :=
  n ← (counts_ h).[index v];
  counts ← (counts_ h).[index v <- u64 (n + 1)];
  Some (mk counts (u64 (count_ h + 1)) (u64 (sum_ h + v)) (Z.min (min_ h) v) (Z.max (max_ h) v)).

(** The loop of [percentile] from bucket [i]: the bucket that holds the rank. *)
Fixpoint scan (counts : list Z) (i cum rank : Z) : option Z :=
  match counts with
  | [] => None
  | n :: counts => let cum := u64 (cum + n) in if rank <=? cum then Some i else scan counts (i + 1) cum rank
  end.
Definition percentile (h : t) (rank : Z) : Z :=
  if count_ h =? 0 then 0 else
  match scan (counts_ h) 0 0 (Z.max 1 rank) with
  | Some i => Z.min (upper_bound i) (max_ h)
  | None => max_ h
  end.

Definition merge (h o : t) : t :=
  mk (zip_with (fun a b => u64 (a + b)) (counts_ h) (counts_ o)) (u64 (count_ h + count_ o)) (u64 (sum_ h + sum_ o))
    (Z.min (min_ h) (min_ o)) (Z.max (max_ h) (max_ o)).

Definition count (h : t) : Z := count_ h.
Definition min (h : t) : Z := if count_ h =? 0 then 0 else min_ h.
Definition max (h : t) : Z := max_ h.

(** ** The buckets *)

Lemma shiftr_bounds v k : 0 <= v -> 0 <= k -> Z.shiftr v k * 2 ^ k <= v < (Z.shiftr v k + 1) * 2 ^ k.
Proof.
  intros Hv Hk. rewrite Z.shiftr_div_pow2 by done. assert (0 < 2 ^ k) by (apply Z.pow_pos_nonneg; lia).
  pose proof (Z.div_mod v (2 ^ k)). pose proof (Z.mod_pos_bound v (2 ^ k)). nia.
Qed.

(** The bucket of a large value: its exponent above 5 and its five bits below the leading one. *)
Lemma index_large v : in_u64 v -> 32 <= v ->
  exists s m, 0 <= s <= 58 /\ 32 <= m < 64 /\ m * 2 ^ s <= v < (m + 1) * 2 ^ s /\ index v = s * 32 + m.
Proof.
  intros Hv Hl. unfold index, kSub, kSubBits. rewrite (proj2 (Z.ltb_ge _ _)) by done.
  pose proof (Z.log2_spec v ltac:(lia)) as Hlog.
  assert (5 <= Z.log2 v <= 63) as Hb.
  { split; [apply (Z.log2_le_mono 32); done|]. change 63 with (Z.log2 18446744073709551615). apply Z.log2_le_mono. unfold in_u64 in Hv. lia. }
  assert (63 - countl_zero v = Z.log2 v) as -> by (unfold countl_zero; destruct v; lia).
  rewrite (u32_small (Z.log2 v)), (u32_small (Z.log2 v - 5)) by (unfold in_u32; lia).
  set (s := Z.log2 v - 5). assert (0 <= s <= 58) as Hs by lia. pose proof (shiftr_bounds v s ltac:(lia) ltac:(lia)) as Hm.
  assert (0 < 2 ^ s) as Hp by (apply Z.pow_pos_nonneg; lia).
  assert (2 ^ Z.log2 v = 32 * 2 ^ s) as E1.
  { change 32 with (2 ^ 5). rewrite <- Z.pow_add_r by lia. f_equal. lia. }
  assert (2 ^ Z.succ (Z.log2 v) = 64 * 2 ^ s) as E2 by (rewrite Z.pow_succ_r, E1 by lia; lia).
  assert (32 <= Z.shiftr v s < 64) as Hr by nia.
  exists s, (Z.shiftr v s). split_and!; try done; try lia.
  rewrite (u32_small (Z.shiftr v s)) by (unfold in_u32; lia). rewrite u32_small by (unfold in_u32; lia). lia.
Qed.

Lemma upper_bound_large s m : 0 <= s <= 58 -> 32 <= m < 64 -> upper_bound (s * 32 + m) = (m + 1) * 2 ^ s - 1.
Proof.
  intros Hs Hm. unfold upper_bound, kSub. rewrite (proj2 (Z.ltb_ge _ _)) by lia.
  assert ((s * 32 + m) / 32 = s + 1 /\ (s * 32 + m) mod 32 = m - 32) as [-> ->] by (Z.to_euclidean_division_equations; lia).
  rewrite u32_small by (unfold in_u32; lia). rewrite Z.shiftl_mul_pow2 by lia. replace (m - 32 + 32 + 1) with (m + 1) by lia.
  replace (s + 1 - 1) with s by lia. assert (0 < 2 ^ s) by (apply Z.pow_pos_nonneg; lia).
  assert (2 ^ s <= 2 ^ 58) by (apply Z.pow_le_mono_r; lia). change (2 ^ 58) with 288230376151711744 in *. unfold u64. rewrite Zminus_mod_idemp_l.
  apply Z.mod_small. nia.
Qed.

Lemma index_bounds v : in_u64 v -> 0 <= index v < kBuckets /\ v <= upper_bound (index v) /\ 32 * (upper_bound (index v) - v) <= v.
Proof.
  intros Hv. change kBuckets with 1920. destruct (Z.lt_ge_cases v 32) as [Hs|Hl].
  - assert (index v = v) as ->; [|unfold upper_bound, kSub; rewrite (proj2 (Z.ltb_lt _ _)) by done; unfold in_u64 in Hv; lia].
    unfold index, kSub. rewrite (proj2 (Z.ltb_lt _ _)) by done. apply u32_small. unfold in_u64, in_u32 in *. lia.
  - destruct (index_large v Hv Hl) as (s & m & Hs & Hm & Hb & ->). rewrite upper_bound_large by done. nia.
Qed.

Lemma index_mono v w : in_u64 w -> 0 <= v <= w -> index v <= index w.
Proof.
  intros Hw Hvw. assert (in_u64 v) as Hv by (unfold in_u64 in *; lia). assert (forall x, in_u64 x -> x < 32 -> index x = x) as Hsm.
  { intros x Hx Hl. unfold index, kSub. rewrite (proj2 (Z.ltb_lt _ _)) by done. apply u32_small. unfold in_u64, in_u32 in *. lia. }
  destruct (Z.lt_ge_cases w 32); [rewrite !Hsm by (done || lia); lia|]. destruct (index_large w Hw) as (s & m & Hs & Hm & Hb & ->); [done|].
  destruct (Z.lt_ge_cases v 32); [rewrite Hsm by done; lia|]. destruct (index_large v Hv) as (s' & m' & Hs' & Hm' & Hb' & ->); [done|].
  assert (0 < 2 ^ s) by (apply Z.pow_pos_nonneg; lia). assert (0 < 2 ^ s') by (apply Z.pow_pos_nonneg; lia).
  destruct (Z.lt_trichotomy s s') as [Hlt|[->|]]; [|nia|lia]. exfalso.
  assert (2 * 2 ^ s <= 2 ^ s'); [|nia]. rewrite <- Z.pow_succ_r by lia. apply Z.pow_le_mono_r; lia.
Qed.

End LatencyHistogram.

(** ** What the counters hold *)

Module HistogramLaws.
Import LatencyHistogram.

Definition cnt (P : Z -> Prop) `{!forall v, Decision (P v)} (vs : list Z) : Z := alen (filter P vs).

Lemma cnt_app P `{!forall v, Decision (P v)} vs ws : cnt P (vs ++ ws) = cnt P vs + cnt P ws.
Proof. unfold cnt, alen. rewrite filter_app, length_app. lia. Qed.
Lemma cnt_cons P `{!forall v, Decision (P v)} v vs : cnt P (v :: vs) = (if decide (P v) then 1 else 0) + cnt P vs.
Proof. unfold cnt, alen. rewrite filter_cons. case_decide; simpl; lia. Qed.
Lemma cnt_mono P Q `{!forall v, Decision (P v)} `{!forall v, Decision (Q v)} vs :
  Forall (fun v => P v -> Q v) vs -> cnt P vs <= cnt Q vs.
Proof. induction 1 as [|v vs HPQ _ IH]; [done|]. rewrite !cnt_cons. repeat case_decide; try lia. tauto. Qed.
Lemma cnt_all P `{!forall v, Decision (P v)} vs : Forall P vs -> cnt P vs = alen vs.
Proof. induction 1 as [|v vs HP _ IH]; [done|]. rewrite cnt_cons, IH, decide_True by done. unfold alen. simpl. lia. Qed.
Lemma cnt_none P `{!forall v, Decision (P v)} vs : Forall (fun v => ~ P v) vs -> cnt P vs = 0.
Proof. induction 1 as [|v vs HP _ IH]; [done|]. by rewrite cnt_cons, IH, decide_False. Qed.
Lemma cnt_bound P `{!forall v, Decision (P v)} vs : 0 <= cnt P vs <= alen vs.
Proof. unfold cnt, alen. pose proof (length_filter P vs). lia. Qed.

Definition bucket (vs : list Z) (i : Z) : Z := cnt (fun v => index v = i) vs.
Definition below (vs : list Z) (i : Z) : Z := cnt (fun v => index v < i) vs.

Lemma below_succ vs i : below vs (i + 1) = below vs i + bucket vs i.
Proof.
  unfold below, bucket. induction vs as [|v vs IH]; [done|]. rewrite !cnt_cons, IH. repeat case_decide; lia.
Qed.

Definition buckets (vs : list Z) : list Z := bucket vs <$> seqZ 0 kBuckets.
#[local] Arguments buckets : simpl never.

Lemma buckets_length vs : alen (buckets vs) = kBuckets.
Proof. unfold buckets, alen. by rewrite length_fmap, length_seqZ. Qed.
Lemma buckets_get vs i : 0 <= i < kBuckets -> (buckets vs).[i] = Some (bucket vs i).
Proof.
  intros Hi. apply aget_Some. split; [lia|]. unfold buckets. rewrite list_lookup_fmap, lookup_seqZ_lt by lia.
  cbn [fmap option_fmap option_map]. do 2 f_equal. lia.
Qed.

(** [h] has recorded [vs]. *)
Record holds (h : t) (vs : list Z) : Prop := {
  hh_counts : counts_ h = buckets vs;
  hh_count : count_ h = alen vs;
  hh_sum : sum_ h = u64 (zsum vs);
  hh_min : min_ h = foldr Z.min 18446744073709551615 vs;
  hh_max : max_ h = foldr Z.max 0 vs;
}.

Lemma foldr_min_app vs ws : Forall in_u64 ws -> foldr Z.min 18446744073709551615 (vs ++ ws) =
  Z.min (foldr Z.min 18446744073709551615 vs) (foldr Z.min 18446744073709551615 ws).
Proof.
  intros Hw. induction vs as [|v vs IH]; simpl; [|rewrite IH; lia].
  assert (foldr Z.min 18446744073709551615 ws <= 18446744073709551615); [|lia]. induction Hw; simpl; lia.
Qed.
Lemma foldr_max_app vs ws : foldr Z.max 0 (vs ++ ws) = Z.max (foldr Z.max 0 vs) (foldr Z.max 0 ws).
Proof.
  assert (0 <= foldr Z.max 0 ws) by (induction ws; simpl; lia). induction vs as [|v vs IH]; simpl; [lia|]. rewrite IH. lia.
Qed.
Lemma le_max vs v : v ∈ vs -> v <= foldr Z.max 0 vs.
Proof. induction 1; simpl; lia. Qed.

Lemma reset_holds : holds reset [].
Proof.
  split; done.
Qed.

Lemma record_holds h vs v : holds h vs -> in_u64 v -> alen vs + 1 < 18446744073709551616 ->
  exists h', record h v = Some h' /\ holds h' (vs ++ [v]).
Proof.
  intros [Hc Hn Hs Hmin Hmax] Hv Hlen. destruct (index_bounds v Hv) as [Hi _].
  assert (forall i, 0 <= i < kBuckets -> (counts_ h).[i] = Some (bucket vs i)) as Hget by (rewrite Hc; apply buckets_get).
  assert (alen (counts_ h) = kBuckets) as Hl by (rewrite Hc; apply buckets_length).
  unfold record. rewrite Hget by done. simpl. aset_ex (counts_ h) (index v) (u64 (bucket vs (index v) + 1)) counts Hset; [lia|].
  rewrite Hset. simpl. eexists. split; [done|]. pose proof (alen_nonneg vs).
  assert (alen (vs ++ [v]) = alen vs + 1) as Ha by (unfold alen; rewrite length_app; simpl; lia).
  split; simpl; [|rewrite Ha, Hn; apply u64_small; unfold in_u64; lia| | |].
  - apply arr_eq; [by rewrite (alen_aset _ _ _ _ Hset), Hl, buckets_length|].
    intros i Hir. rewrite (alen_aset _ _ _ _ Hset), Hl in Hir. rewrite (aget_aset _ _ _ _ _ Hset), Hget, buckets_get by done.
    unfold bucket. rewrite cnt_app, cnt_cons. change (cnt (fun v => index v = i) []) with 0.
    pose proof (cnt_bound (fun v => index v = i) vs). destruct (Z.eqb_spec i (index v)) as [->|Hne].
    + rewrite decide_True by done. f_equal. rewrite u64_small; unfold in_u64; lia.
    + rewrite decide_False by done. f_equal. lia.
  - rewrite Hs, zsum_app. simpl. unfold u64. rewrite Z.add_mod_idemp_l by done. f_equal. lia.
  - rewrite foldr_min_app, Hmin by (by constructor). simpl. unfold in_u64 in Hv. lia.
  - rewrite foldr_max_app, Hmax. simpl. unfold in_u64 in Hv. lia.
Qed.

Lemma scan_spec vs rank : alen vs < 18446744073709551616 -> rank <= alen vs -> forall n i, 0 <= i ->
  below vs i < rank -> (forall v, v ∈ vs -> index v < i + Z.of_nat n) ->
  exists r, scan (bucket vs <$> seqZ i (Z.of_nat n)) i (below vs i) rank = Some r /\ below vs r < rank <= below vs (r + 1).
Proof.
  intros Hlen Hr n. induction n as [|n IH]; intros i Hi Hlt Hall.
  - exfalso. assert (below vs i = alen vs); [|lia]. apply cnt_all, Forall_forall. intros v Hv. specialize (Hall v Hv). lia.
  - rewrite Nat2Z.inj_succ, seqZ_cons by lia. simpl. rewrite <- below_succ.
    pose proof (cnt_bound (fun v => index v < i + 1) vs). fold (below vs (i + 1)) in *. rewrite u64_small by (unfold in_u64; lia).
    destruct (Z.leb_spec rank (below vs (i + 1))); [by exists i|]. replace (Z.pred (Z.succ (Z.of_nat n))) with (Z.of_nat n) by lia.
    apply IH; [lia|done|]. intros v Hv. specialize (Hall v Hv). lia.
Qed.

(** The answer is in the bucket of the value of that rank. *)
Lemma percentile_holds h vs rank x : holds h vs -> Forall in_u64 vs -> alen vs < 18446744073709551616 -> 1 <= rank <= alen vs ->
  x ∈ vs -> cnt (fun v => v < x) vs < rank <= cnt (fun v => v <= x) vs ->
  percentile h rank = Z.min (upper_bound (index x)) (max_ h).
Proof.
  intros [Hc Hn _ _ _] Hvs Hlen Hr Hx [Hlt Hle]. unfold percentile. rewrite Hn, (proj2 (Z.eqb_neq _ _)) by lia.
  replace (Z.max 1 rank) with rank by lia. rewrite Hc. unfold buckets. change kBuckets with (Z.of_nat 1920).
  rewrite Forall_forall in Hvs.
  assert (below vs 0 = 0) as H0.
  { apply cnt_none, Forall_forall. intros v Hv. pose proof (index_bounds v (Hvs v Hv)). lia. }
  destruct (scan_spec vs rank Hlen ltac:(lia) 1920 0) as (r & Hs & Hb1 & Hb2); [lia|lia| |].
  { intros v Hv. pose proof (index_bounds v (Hvs v Hv)). change kBuckets with 1920 in *. lia. }
  rewrite H0 in Hs. rewrite Hs. assert (index x = r) as ->; [|done].
  destruct (Z.lt_trichotomy (index x) r) as [Hi|[Hi|Hi]]; [|done|]; exfalso.
  - assert (cnt (fun v => v <= x) vs <= below vs r); [|lia]. apply cnt_mono, Forall_forall. intros v Hv Hvx.
    pose proof (index_mono v x (Hvs x Hx)). pose proof (Hvs v Hv) as Hv64. unfold in_u64 in Hv64. lia.
  - assert (below vs (r + 1) <= cnt (fun v => v < x) vs); [|lia]. apply cnt_mono, Forall_forall. intros v Hv Hvi.
    destruct (Z.lt_ge_cases v x); [done|]. pose proof (index_mono x v (Hvs v Hv)). pose proof (Hvs x Hx) as Hx64. unfold in_u64 in Hx64. lia.
Qed.

Lemma merge_holds h o vs ws : holds h vs -> holds o ws -> Forall in_u64 ws -> alen vs + alen ws < 18446744073709551616 ->
  holds (merge h o) (vs ++ ws).
Proof.
  intros [Hc Hn Hs Hmin Hmax] [Hc' Hn' Hs' Hmin' Hmax'] Hw Hlen. pose proof (alen_nonneg vs). pose proof (alen_nonneg ws).
  split; simpl.
  - rewrite Hc, Hc'. unfold buckets. rewrite zip_with_fmap_l, zip_with_fmap_r, zip_with_diag. apply list_fmap_ext. intros _ i _. unfold bucket.
    rewrite cnt_app. pose proof (cnt_bound (fun v => index v = i) vs). pose proof (cnt_bound (fun v => index v = i) ws).
    apply u64_small. unfold in_u64. lia.
  - rewrite Hn, Hn', u64_small; unfold alen, in_u64 in *; rewrite ?length_app; lia.
  - rewrite Hs, Hs', zsum_app. unfold u64. by rewrite <- Z.add_mod.
  - by rewrite Hmin, Hmin', foldr_min_app.
  - by rewrite Hmax, Hmax', foldr_max_app.
Qed.
End HistogramLaws.

Module HistogramTheorems.
Import LatencyHistogram HistogramLaws.

(** A histogram that recorded [vs], in order. *)
Fixpoint recorded (h : t) (vs : list Z) : option t :=
  match vs with [] => Some h | v :: vs => h ← record h v; recorded h vs end.

Lemma recorded_holds vs : forall h us, holds h us -> Forall in_u64 vs -> alen us + alen vs < 18446744073709551616 ->
  exists h', recorded h vs = Some h' /\ holds h' (us ++ vs).
Proof.
  induction vs as [|v vs IH]; intros h us Hh Hvs Hlen; simpl; [rewrite app_nil_r; eauto|]. apply Forall_cons in Hvs as [Hv Hvs].
  pose proof (alen_nonneg vs). assert (alen (v :: vs) = alen vs + 1) as El by (unfold alen; simpl; lia).
  destruct (record_holds h us v Hh Hv) as (h1 & -> & Hh1); [lia|]. simpl.
  destruct (IH h1 (us ++ [v]) Hh1 Hvs) as (h2 & -> & Hh2).
  { assert (alen (us ++ [v]) = alen us + 1) by (unfold alen; rewrite length_app; simpl; lia). lia. }
  rewrite <- app_assoc in Hh2. eauto.
Qed.


End HistogramTheorems.
