(* ===== verification/ClientIds.v ===== *)
(** * Exchange-assigned order ids (client_ids.hpp)

    The gateway's translation between client order ids and engine order ids, and the keyed hash that protects its table. The
    tables are maps; their iteration order is never used. *)
From S2P Require Import Prelude Bits Bytes Common.

(** ** SipHash *)

Module SipHash.

Record state := mk { v0 : Z; v1 : Z; v2 : Z; v3 : Z }.

Definition round (s : state) : state :=
  let a := u64 (v0 s + v1 s) in
  let b := Z.lxor (rotl64 (v1 s) 13) a in
  let a := rotl64 a 32 in
  let c := u64 (v2 s + v3 s) in
  let d := Z.lxor (rotl64 (v3 s) 16) c in
  let a := u64 (a + d) in
  let d := Z.lxor (rotl64 d 21) a in
  let c := u64 (c + b) in
  let b := Z.lxor (rotl64 b 17) c in
  mk a b (rotl64 c 32) d.

Definition compress (c : nat) (s : state) (m : Z) : state :=
  let s := Nat.iter c round (mk (v0 s) (v1 s) (v2 s) (Z.lxor (v3 s) m)) in
  mk (Z.lxor (v0 s) m) (v1 s) (v2 s) (v3 s).

(** The loop over the blocks of eight bytes; what is left, under eight bytes, goes with the length into the last block. *)
Fixpoint blocks (fuel : nat) (c : nat) (s : state) (data : list Z) : state * list Z :=
  match fuel with
  | O => (s, data)
  | S fuel => if (8 <=? length data)%nat then blocks fuel c (compress c s (of_le (take 8 data))) (drop 8 data) else (s, data)
  end.

Definition siphash (c d : nat) (k0 k1 : Z) (data : list Z) : Z :=
  let s := mk (Z.lxor k0 8317987319222330741) (Z.lxor k1 7237128888997146477) (Z.lxor k0 7816392313619706465)
    (Z.lxor k1 8387220255154660723) in
  let '(s, rest) := blocks (length data) c s data in
  let last := Z.lor (u64 (Z.shiftl (Z.land (alen data) 255) 56)) (of_le rest) in
  let s := compress c s last in
  let s := Nat.iter d round (mk (v0 s) (v1 s) (Z.lxor (v2 s) 255) (v3 s)) in
  Z.lxor (Z.lxor (v0 s) (v1 s)) (Z.lxor (v2 s) (v3 s)).

(** The vectors of the published reference implementation: key and data are the bytes 0, 1, 2, ... *)
Example siphash_2_4_empty : siphash 2 4 506097522914230528 1084818905618843912 [] = 8246050544436514353.
Proof. vm_compute. reflexivity. Qed.
Example siphash_2_4_fifteen : siphash 2 4 506097522914230528 1084818905618843912 (seqZ 0 15) = 11613035633349379557.
Proof. vm_compute. reflexivity. Qed.

End SipHash.

(** ** The table *)

Module ClientIdMap.

Record Key := mkKey { client_id : Z; symbol : Z; owner : Z }.
#[export] Instance Key_eq_dec : EqDecision Key.
Proof. solve_decision. Defined.
#[export] Instance Key_countable : Countable Key.
Proof.
  refine (inj_countable' (fun k => (client_id k, symbol k, owner k)) (fun p => mkKey p.1.1 p.1.2 p.2) _). by intros [].
Defined.

(** [Hasher]: the sixteen bytes of the key. *)
Definition hasher (k0 k1 : Z) (k : Key) : Z :=
  SipHash.siphash 1 3 k0 k1 (pack [(8%nat, client_id k); (4%nat, symbol k); (4%nat, owner k)]).

Record t := mk { fwd_ : gmap Key Z; rev_ : gmap Z Key; next_ : Z }.
Definition make (first_exchange_id : Z) : t := mk ∅ ∅ first_exchange_id.

Definition for_new (m : t) (k : Key) : Z * t :=
  if client_id k =? 0 then (0, m) else
  match fwd_ m !! k with
  | Some x => (x, m)
  | None => (next_ m, mk (<[k := next_ m]> (fwd_ m))
      (match rev_ m !! next_ m with None => <[next_ m := k]> (rev_ m) | Some _ => rev_ m end) (u64 (next_ m + 1)))
  end.
Definition find (m : t) (k : Key) : Z := default 0 (fwd_ m !! k).
Definition to_client (m : t) (x viewer : Z) : Z :=
  match rev_ m !! x with Some k => if owner k =? viewer then client_id k else 0 | None => 0 end.
Definition owner_of (m : t) (x : Z) : Z := match rev_ m !! x with Some k => owner k | None => 0 end.
Definition retire (m : t) (x : Z) : t :=
  match rev_ m !! x with Some k => mk (delete k (fwd_ m)) (delete x (rev_ m)) (next_ m) | None => m end.
Definition live (m : t) : Z := Z.of_nat (size (rev_ m)).
Definition next_exchange_id (m : t) : Z := next_ m.

(** ** Any use of the table *)

Inductive op := ForNew (k : Key) | Retire (x : Z).
Definition apply (m : t) (o : op) : t := match o with ForNew k => (for_new m k).2 | Retire x => retire m x end.
Definition after (first : Z) (ops : list op) : t := foldl apply (make first) ops.

(** The two tables are inverse to each other, and only hold ids already given out. *)
Record wf (first : Z) (m : t) : Prop := {
  wf_inverse : forall k x, fwd_ m !! k = Some x <-> rev_ m !! x = Some k;
  wf_range : forall x k, rev_ m !! x = Some k -> first <= x < next_ m /\ client_id k <> 0;
  wf_next : 1 <= first <= next_ m;
}.

Lemma wf_make first : 1 <= first -> wf first (make first).
Proof. intros Hf. split; simpl; [by intros; rewrite !lookup_empty|by intros x k; rewrite lookup_empty|lia]. Qed.

Lemma wf_fresh first m : wf first m -> rev_ m !! next_ m = None.
Proof. intros Hw. destruct (rev_ m !! next_ m) as [k|] eqn:E; [|done]. apply (wf_range _ _ Hw) in E. lia. Qed.

Lemma wf_for_new first m k : wf first m -> next_ m + 1 < 18446744073709551616 ->
  wf first (for_new m k).2 /\ next_ m <= next_ (for_new m k).2 <= next_ m + 1.
Proof.
  intros Hw Hn. pose proof Hw as [Hi Hr Hx]. unfold for_new. destruct (Z.eqb_spec (client_id k) 0) as [|Hk]; [simpl; split; [done|lia]|].
  destruct (fwd_ m !! k) as [x|] eqn:E; [simpl; split; [done|lia]|]. simpl. rewrite (wf_fresh first m Hw). rewrite u64_small by (unfold in_u64; lia).
  split; [|lia]. split; simpl.
  - intros k' x. rewrite !lookup_insert_Some. rewrite <- Hi. split.
    + intros [[<- <-]|[Hne Hl]]; [by left|right]. split; [|done]. intros <-. apply Hi in Hl. by rewrite (wf_fresh first m Hw) in Hl.
    + intros [[<- <-]|[Hne Hl]]; [by left|right]. split; [|done]. intros <-. congruence.
  - intros x k'. rewrite lookup_insert_Some. intros [[<- <-]|[_ Hl]]; [lia|]. apply Hr in Hl. lia.
  - lia.
Qed.

Lemma wf_retire first m x : wf first m -> wf first (retire m x) /\ next_ (retire m x) = next_ m.
Proof.
  intros [Hi Hr Hn]. unfold retire. destruct (rev_ m !! x) as [k|] eqn:E; [|done]. split; [|done]. split; simpl; [| |done].
  - intros k' x'. rewrite !lookup_delete_Some, Hi. split; intros [Hne Hl]; split; try done; intros ->; [congruence|].
    apply Hi in E, Hl. congruence.
  - intros x' k' Hl. apply lookup_delete_Some in Hl as [_ Hl]. by apply Hr.
Qed.

Lemma wf_after first ops : 1 <= first -> first + Z.of_nat (length ops) < 18446744073709551616 ->
  wf first (after first ops) /\ next_ (after first ops) <= first + Z.of_nat (length ops).
Proof.
  intros H1. induction ops as [|o ops IH] using rev_ind; intros Hlen; [split; [by apply wf_make|simpl; lia]|].
  rewrite length_app in *. simpl in *. destruct IH as [Hw Hn]; [lia|]. unfold after in *. rewrite foldl_snoc.
  destruct o as [k|x]; simpl.
  - destruct (wf_for_new first (foldl apply (make first) ops) k Hw) as [Hw' Hn']; [lia|]. split; [done|lia].
  - destruct (wf_retire first (foldl apply (make first) ops) x Hw) as [Hw' Hn']. split; [done|lia].
Qed.

Lemma find_live first m k x : wf first m -> find m k = x -> x <> 0 -> fwd_ m !! k = Some x /\ rev_ m !! x = Some k.
Proof. intros Hw. unfold find. destruct (fwd_ m !! k) as [y|] eqn:E; simpl; [|done]. intros <- _. split; [done|]. by apply (wf_inverse _ _ Hw). Qed.

Lemma live_find first m k x : wf first m -> rev_ m !! x = Some k -> find m k = x /\ x <> 0.
Proof.
  intros Hw Hr. pose proof (wf_range _ _ Hw _ _ Hr). pose proof (wf_next _ _ Hw). apply (wf_inverse _ _ Hw) in Hr. unfold find. rewrite Hr. simpl. lia.
Qed.

(** C17: after any use of the table, the two ids of a live order name each other, and nobody but its owner learns the
    client's id: exchange ids are never shared, never zero, and each new one is larger than all before it. A new order gets
    the live order's id if its client id is live, and a fresh one otherwise; retiring an id frees exactly its client id. *)
Theorem client_ids_bijection first ops : 1 <= first -> first + Z.of_nat (length ops) + 1 < 18446744073709551616 ->
  let m := after first ops in
  (forall k x, find m k = x -> x <> 0 -> first <= x < next_exchange_id m /\ to_client m x (owner k) = client_id k /\
    owner_of m x = owner k /\ (forall v, v <> owner k -> to_client m x v = 0) /\ (forall k', find m k' = x -> k' = k)) /\
  (forall k, client_id k <> 0 -> (for_new m k).1 = (if find m k =? 0 then next_exchange_id m else find m k) /\
    find (for_new m k).2 k = (for_new m k).1 /\ (forall k', k' <> k -> find (for_new m k).2 k' = find m k')) /\
  (forall k, client_id k = 0 -> for_new m k = (0, m)) /\
  (forall x k, x <> 0 -> find (retire m x) k = if find m k =? x then 0 else find m k).
Proof.
  intros H1 Hlen m. destruct (wf_after first ops H1 ltac:(lia)) as [Hw Hn]. fold m in Hw, Hn. split_and!.
  - intros k x Hk Hx. destruct (find_live first m k x Hw Hk Hx) as [Hf Hr]. pose proof (wf_range _ _ Hw _ _ Hr).
    unfold to_client, owner_of. rewrite Hr, Z.eqb_refl. unfold next_exchange_id. split_and!; try done; try lia.
    + intros v Hv. by rewrite (proj2 (Z.eqb_neq _ _)).
    + intros k' Hk'. destruct (find_live first m k' x Hw Hk' Hx). congruence.
  - intros k Hk. unfold for_new, find. rewrite (proj2 (Z.eqb_neq (client_id k) 0)) by done. pose proof (wf_next _ _ Hw).
    destruct (fwd_ m !! k) as [x|] eqn:E; simpl.
    + pose proof (wf_inverse _ _ Hw k x) as Hi. rewrite E in Hi. pose proof (wf_range _ _ Hw x k (proj1 Hi eq_refl)).
      rewrite (proj2 (Z.eqb_neq x 0)), E by lia. done.
    + rewrite lookup_insert_eq. split_and!; try done. intros k' Hne. by rewrite lookup_insert_ne.
  - intros k Hk. unfold for_new. by rewrite Hk.
  - intros x k Hx. unfold retire. destruct (rev_ m !! x) as [k0|] eqn:E.
    + destruct (live_find first m k0 x Hw E) as [Hf _]. unfold find in *. simpl. destruct (decide (k = k0)) as [->|Hne].
      * by rewrite lookup_delete_eq, Hf, Z.eqb_refl.
      * rewrite lookup_delete_ne by done. destruct (fwd_ m !! k) as [y|] eqn:Ey; cbn [default from_option id];
          [|by rewrite (proj2 (Z.eqb_neq 0 x))].
        rewrite (proj2 (Z.eqb_neq y x)); [done|]. intros ->. apply (wf_inverse _ _ Hw) in Ey. congruence.
    + destruct (Z.eqb_spec (find m k) x) as [Hk|]; [|done]. destruct (find_live first m k x Hw Hk Hx). congruence.
Qed.

Definition demo_key : Key := mkKey 77 1 5.
Definition demo_ops : list op := [ForNew demo_key; ForNew (mkKey 78 1 6); Retire 1; ForNew demo_key].
Lemma client_ids_bijection_witness : find (after 1 demo_ops) demo_key = 3 /\ to_client (after 1 demo_ops) 3 5 = 77 /\
  to_client (after 1 demo_ops) 3 6 = 0.
Proof.
  destruct (client_ids_bijection 1 demo_ops ltac:(lia) ltac:(simpl; lia)) as (Hf & _).
  assert (find (after 1 demo_ops) demo_key = 3) as E by (vm_compute; reflexivity).
  destruct (Hf demo_key 3 E ltac:(lia)) as (_ & Hc & _ & Hv & _). split; [exact E|]. split; [exact Hc|]. apply Hv. discriminate.
Defined.

End ClientIdMap.
