(* ===== verification/Journal.v ===== *)
(** * The write-ahead journal (journal.hpp)

    A journal is the bytes of its file. The writer appends one record per command; a crash may leave any prefix of what was
    written; the reader keeps the records it can trust and says where to cut. *)
From S2P Require Import Prelude Bits Bytes Common Protocol.
Import Wire.

(** ** The checksum *)

Module Crc32c.

Definition shift_bit (c : Z) : Z := if Z.odd c then Z.lxor 2197175160 (Z.shiftr c 1) else Z.shiftr c 1.
Definition entry (i : Z) : Z := Nat.iter 8 shift_bit i.
Definition table : list Z := Eval vm_compute in entry <$> seqZ 0 256.
Definition lookup (i : Z) : Z := nth (Z.to_nat i) table 0.

Definition step (c p : Z) : Z := Z.lxor (lookup (Z.land (Z.lxor c p) 255)) (Z.shiftr c 8).
Definition crc (data : list Z) : Z := Z.lxor (foldl step 4294967295 data) 4294967295.

(** The check value of the published polynomial. *)
Example crc_check : crc [49; 50; 51; 52; 53; 54; 55; 56; 57] = 3808858755.
Proof. vm_compute. reflexivity. Qed.

Lemma lookup_eq i : 0 <= i < 256 -> entry i = lookup i.
Proof.
  intros Hi. assert (Forall (fun i => entry i = lookup i) (seqZ 0 256)) as H.
  { refine (bool_decide_eq_true_1 _ _); vm_compute. reflexivity. }
  rewrite Forall_forall in H. apply H. apply elem_of_seqZ. lia.
Qed.

(** The high bytes of the table are a permutation, so an entry is known by its high byte. *)
Lemma table_high i j : 0 <= i < 256 -> 0 <= j < 256 -> Z.shiftr (lookup i) 24 = Z.shiftr (lookup j) 24 -> i = j.
Proof.
  intros Hi Hj E. assert (Forall (fun i => Forall (fun j => Z.shiftr (lookup i) 24 = Z.shiftr (lookup j) 24 -> i = j) (seqZ 0 256)) (seqZ 0 256)) as H.
  { refine (bool_decide_eq_true_1 _ _); vm_compute. reflexivity. }
  rewrite Forall_forall in H. specialize (H i). rewrite Forall_forall in H. apply H; [apply elem_of_seqZ; lia|apply elem_of_seqZ; lia|done].
Qed.

Lemma lookup_bound i : in_u32 (lookup i).
Proof.
  unfold lookup. destruct (nth_in_or_default (Z.to_nat i) table 0) as [Hin|H0]; [|rewrite H0; done].
  assert (Forall in_u32 table) as H by (unfold in_u32; refine (bool_decide_eq_true_1 _ _); vm_compute; reflexivity).
  rewrite Forall_forall in H. apply H, list_elem_of_In, Hin.
Qed.

Lemma in_u32_lxor x y : in_u32 x -> in_u32 y -> in_u32 (Z.lxor x y).
Proof.
  unfold in_u32. intros Hx Hy. assert (0 <= Z.lxor x y) as H0 by (apply Z.lxor_nonneg; lia). split; [done|].
  destruct (Z.eq_dec (Z.lxor x y) 0) as [->|Hne]; [done|]. change 4294967296 with (2 ^ 32). apply Z.log2_lt_pow2; [lia|].
  pose proof (Z.log2_lxor x y ltac:(lia) ltac:(lia)) as Hl.
  assert (forall z, 0 <= z < 4294967296 -> Z.log2 z <= 31) as Hb.
  { intros z Hz. change 31 with (Z.log2 4294967295). apply Z.log2_le_mono. lia. }
  pose proof (Hb x Hx). pose proof (Hb y Hy). lia.
Qed.

Lemma shiftr8_bound c : in_u32 c -> 0 <= Z.shiftr c 8 < 16777216.
Proof. unfold in_u32. intros Hc. rewrite Z.shiftr_div_pow2 by done. change (2 ^ 8) with 256. divmod. Qed.

Lemma step_bound c p : in_u32 c -> in_u32 (step c p).
Proof. intros Hc. apply in_u32_lxor; [apply lookup_bound|]. pose proof (shiftr8_bound c Hc). unfold in_u32. lia. Qed.
Lemma fold_bound data : forall c, in_u32 c -> in_u32 (foldl step c data).
Proof. induction data as [|p data IH]; intros c Hc; [done|]. by apply IH, step_bound. Qed.

Lemma high_zero c : in_u32 c -> Z.shiftr (Z.shiftr c 8) 24 = 0.
Proof. unfold in_u32. intros Hc. rewrite Z.shiftr_shiftr, Z.shiftr_div_pow2 by done. apply Z.div_small. lia. Qed.

(** A step loses nothing: from its result the table index and the rest of the register are known. *)
Lemma step_inj c p c' p' : in_u32 c -> in_u32 c' -> step c p = step c' p' ->
  Z.land (Z.lxor c p) 255 = Z.land (Z.lxor c' p') 255 /\ Z.shiftr c 8 = Z.shiftr c' 8.
Proof.
  intros Hc Hc' E. unfold step in E. pose proof (shiftr8_bound c Hc). pose proof (shiftr8_bound c' Hc').
  assert (forall z, 0 <= Z.land z 255 < 256) as Hl.
  { intros z. change 255 with (Z.ones 8). rewrite Z.land_ones by done. apply Z.mod_pos_bound. done. }
  assert (Z.land (Z.lxor c p) 255 = Z.land (Z.lxor c' p') 255) as Ei.
  { apply table_high; [done..|]. apply (f_equal (fun z => Z.shiftr z 24)) in E. rewrite !Z.shiftr_lxor in E.
    by rewrite !high_zero, !Z.lxor_0_r in E. }
  split; [done|]. rewrite Ei in E. apply (f_equal (Z.lxor (lookup (Z.land (Z.lxor c' p') 255)))) in E.
  by rewrite <- !Z.lxor_assoc, !Z.lxor_nilpotent, !Z.lxor_0_l in E.
Qed.

Lemma land255 z : Z.land z 255 = z mod 256.
Proof. change 255 with (Z.ones 8). by rewrite Z.land_ones. Qed.

Lemma land_lxor_255 c p : Z.land (Z.lxor c p) 255 = Z.lxor (Z.land c 255) (Z.land p 255).
Proof. apply Z.bits_inj'. intros k _. rewrite Z.land_spec, !Z.lxor_spec, !Z.land_spec. by destruct (Z.testbit c k), (Z.testbit p k), (Z.testbit 255 k). Qed.

Lemma low_byte_inj c p c' p' : in_u8 p -> in_u8 p' -> Z.land (Z.lxor c p) 255 = Z.land (Z.lxor c' p') 255 ->
  Z.lxor (c mod 256) p = Z.lxor (c' mod 256) p'.
Proof.
  intros Hp Hp'. rewrite !land_lxor_255, !land255. unfold in_u8 in *.
  by rewrite (Z.mod_small p), (Z.mod_small p') by done.
Qed.

Lemma step_inj_state c c' p : in_u32 c -> in_u32 c' -> in_u8 p -> step c p = step c' p -> c = c'.
Proof.
  intros Hc Hc' Hp E. destruct (step_inj c p c' p Hc Hc' E) as [Ei Es]. apply low_byte_inj in Ei; [|done..].
  apply (f_equal (fun z => Z.lxor z p)) in Ei. rewrite !Z.lxor_assoc, !Z.lxor_nilpotent, !Z.lxor_0_r in Ei.
  rewrite !Z.shiftr_div_pow2 in Es by done. change (2 ^ 8) with 256 in Es. rewrite (Z.div_mod c 256), (Z.div_mod c' 256) by done. lia.
Qed.
Lemma step_inj_byte c p p' : in_u32 c -> in_u8 p -> in_u8 p' -> step c p = step c p' -> p = p'.
Proof.
  intros Hc Hp Hp' E. destruct (step_inj c p c p' Hc Hc E) as [Ei _]. apply low_byte_inj in Ei; [|done..].
  apply (f_equal (Z.lxor (c mod 256))) in Ei. by rewrite <- !Z.lxor_assoc, !Z.lxor_nilpotent, !Z.lxor_0_l in Ei.
Qed.

Lemma fold_inj data : bytes data -> forall c c', in_u32 c -> in_u32 c' -> foldl step c data = foldl step c' data -> c = c'.
Proof.
  induction 1 as [|p data Hp _ IH]; intros c c' Hc Hc' E; [done|]. simpl in E. apply IH in E; [|by apply step_bound..].
  by apply step_inj_state in E.
Qed.

(** Any change within one byte changes the checksum. *)
Lemma crc_detects pre post p p' : bytes pre -> bytes post -> in_u8 p -> in_u8 p' -> p <> p' ->
  crc (pre ++ p :: post) <> crc (pre ++ p' :: post).
Proof.
  intros Hpre Hpost Hp Hp' Hne E. unfold crc in E. rewrite !foldl_app in E. simpl in E.
  apply (f_equal (fun z => Z.lxor z 4294967295)) in E. rewrite !Z.lxor_assoc, !Z.lxor_nilpotent, !Z.lxor_0_r in E.
  pose proof (fold_bound pre 4294967295 ltac:(done)) as Hc. apply fold_inj in E; [|done|by apply step_bound..].
  by apply step_inj_byte in E.
Qed.

Lemma crc_bound data : in_u32 (crc data).
Proof. apply in_u32_lxor; [by apply fold_bound|done]. Qed.

End Crc32c.

(** ** Records, the reader and the writer *)

Module Journal.
Import Crc32c.

Inductive JournalStatus := Clean | TornTail | Corrupt.
#[export] Instance JournalStatus_eq_dec : EqDecision JournalStatus.
Proof. solve_decision. Defined.

Record JournalScan := mkScan { records : Z; valid_bytes : Z; status : JournalStatus }.

Definition kJournalHeaderBytes : Z := 8.
Definition kCrcPrefix : Z := 12.
Definition meta_ws : list nat := [4; 4; 8; 4; 4]%nat.
Definition magic : list Z := [69; 88; 74; 82].

(** What the checksum covers: the first [kCrcPrefix] bytes and the payload. *)
Definition covered (ts owner : Z) (payload : list Z) : list Z := le 8 ts ++ le 4 owner ++ payload.
Definition set_meta (c : Command) (ts owner : Z) : Command :=
  mkCommand (c_order_id c) (c_price c) (c_seq c) ts (c_qty c) owner (c_symbol c) (c_type c) (c_side c) (c_ord_type c) (c_tif c)
    (c_flags c).

(** The loop of [journal_scan] over the rest of the file: the commands handed to [f], and the summary. *)
Fixpoint scan_loop (fuel : nat) (rest : list Z) (n valid : Z) : list Command * JournalScan :=
  match fuel with
  | O => ([], mkScan n valid Clean)
  | S fuel =>
      if alen rest =? 0 then ([], mkScan n valid Clean) else
      if alen rest <? sizeof meta_ws then ([], mkScan n valid TornTail) else
      match unpack meta_ws rest with
      | [len; sum; ts; owner; _] =>
          if (len <? kHeaderSize) || (kMaxMessageSize <? len) then ([], mkScan n valid Corrupt) else
          let rest := drop 24 rest in
          if alen rest <? len then ([], mkScan n valid TornTail) else
          let payload := take (Z.to_nat len) rest in
          if negb (crc (covered ts owner payload) =? sum) then ([], mkScan n valid Corrupt) else
          match decode payload with
          | mkResult Ok used (Some c) =>
              if used =? len then
                let '(cs, s) := scan_loop fuel (drop (Z.to_nat len) rest) (n + 1) (valid + 24 + len) in
                (set_meta c ts owner :: cs, s)
              else ([], mkScan n valid Corrupt)
          | _ => ([], mkScan n valid Corrupt)
          end
      | _ => ([], mkScan n valid Corrupt)
      end
  end.

(** [NotAJournal] is the exception for a file with another header. *)
Inductive ScanResult := NotAJournal | Scanned (cs : list Command) (s : JournalScan).
Definition journal_scan (file : list Z) : ScanResult :=
  if alen file <? kJournalHeaderBytes then Scanned [] (mkScan 0 0 TornTail) else
  if negb (bool_decide (take 4 file = magic)) || negb (of_le (take 4 (drop 4 file)) =? 1) then NotAJournal else
  let '(cs, s) := scan_loop (S (length file)) (drop 8 file) 0 kJournalHeaderBytes in Scanned cs s.

Record JournalWriter := mkWriter { file_ : list Z; records_ : Z }.
Definition create : JournalWriter := mkWriter (magic ++ le 4 1) 0.

(** The bytes [append] writes. *)
Definition record_of (c : Command) : list Z :=
  pack (zip meta_ws [alen (encode c); crc (covered (c_ts c) (c_owner c) (encode c)); c_ts c; c_owner c; 0]) ++ encode c.
Definition append (w : JournalWriter) (c : Command) : JournalWriter := mkWriter (file_ w ++ record_of c) (u64 (records_ w + 1)).
Definition records_written (w : JournalWriter) : Z := records_ w.

Definition recover (file : list Z) : option (JournalWriter * JournalScan) :=
  match journal_scan file with
  | NotAJournal => None
  | Scanned _ s =>
      Some (if valid_bytes s <? kJournalHeaderBytes then create else mkWriter (take (Z.to_nat (valid_bytes s)) file) 0, s)
  end.

(** ** The laws of records *)

(** What the journal gives back of a command. *)
Definition journal_view (c : Command) : Command := set_meta (wire_view c) (c_ts c) (c_owner c).

Lemma encode_size c : 16 <= alen (encode c) <= 48.
Proof. rewrite length_encode. destruct (c_type c); unfold sizeof; simpl; lia. Qed.

Lemma record_size c : alen (record_of c) = 24 + alen (encode c).
Proof. unfold record_of, alen. rewrite length_app, length_pack. simpl. lia. Qed.

Lemma record_fields c rest : command_wf c ->
  unpack meta_ws (record_of c ++ rest) = [alen (encode c); crc (covered (c_ts c) (c_owner c) (encode c)); c_ts c; c_owner c; 0] /\
  drop 24 (record_of c ++ rest) = encode c ++ rest.
Proof.
  intros Hc. unfold record_of. rewrite <- app_assoc. split.
  - set (fs := zip meta_ws _). change meta_ws with (fst <$> fs) at 1. rewrite unpack_pack; [done|].
    pose proof (encode_size c). pose proof (crc_bound (covered (c_ts c) (c_owner c) (encode c))) as Hb.
    destruct Hc as (_ & _ & _ & Ht & _ & Ho & _). unfold fs, meta_ws. cbn [zip_with zip]. words.
    repeat (apply Forall_cons; split; [unfold fits; cbn [fst snd]; words; change (256 ^ Z.of_nat 4) with 4294967296; change (256 ^ Z.of_nat 8) with 18446744073709551616; lia|]).
    by apply Forall_nil.
  - by rewrite drop_app_length' by (rewrite length_pack; done).
Qed.

Lemma meta_prefix c n rest : (24 <= n)%nat -> unpack meta_ws (take n (record_of c) ++ rest) = unpack meta_ws (record_of c).
Proof.
  intros Hn. pose proof (record_size c) as Hs. pose proof (encode_size c). unfold alen in *.
  rewrite unpack_app by (rewrite length_take; simpl; lia).
  rewrite <- (unpack_app meta_ws (take n (record_of c)) (drop n (record_of c))) by (rewrite length_take; simpl; lia). by rewrite take_drop.
Qed.

Lemma decode_encode_alone c : command_wf c -> decode (encode c) = mkResult Ok (alen (encode c)) (Some (wire_view c)).
Proof. intros Hc. pose proof (decode_encode c [] Hc) as Hd. by rewrite app_nil_r in Hd. Qed.

Lemma scan_record fuel c rest n valid : command_wf c ->
  scan_loop (S fuel) (record_of c ++ rest) n valid =
    (let '(cs, s) := scan_loop fuel rest (n + 1) (valid + alen (record_of c)) in (journal_view c :: cs, s)).
Proof.
  intros Hc. cbn [scan_loop]. destruct (record_fields c rest Hc) as [-> ->]. pose proof (record_size c) as Hs. pose proof (encode_size c) as He.
  change (sizeof meta_ws) with 24. change kHeaderSize with 16. change kMaxMessageSize with 48.
  assert (alen (record_of c ++ rest) = alen (record_of c) + alen rest) as Hl by (unfold alen; rewrite length_app; lia).
  assert (alen (encode c ++ rest) = alen (encode c) + alen rest) as Hl' by (unfold alen; rewrite length_app; lia).
  pose proof (alen_nonneg rest). rewrite Hl, Hl', (proj2 (Z.eqb_neq _ _)), (proj2 (Z.ltb_ge (alen (record_of c) + alen rest) 24)) by lia.
  rewrite (proj2 (Z.ltb_ge (alen (encode c)) 16)), (proj2 (Z.ltb_ge 48 (alen (encode c)))) by lia. cbn [orb].
  rewrite (proj2 (Z.ltb_ge _ _)) by lia. assert (Z.to_nat (alen (encode c)) = length (encode c)) as -> by (unfold alen; lia).
  rewrite take_app_length, drop_app_length, Z.eqb_refl. cbn [negb]. rewrite decode_encode_alone by done. rewrite Z.eqb_refl.
  by rewrite Hs, Z.add_assoc.
Qed.

Lemma scan_end fuel n valid : scan_loop fuel [] n valid = ([], mkScan n valid Clean).
Proof. by destruct fuel. Qed.

Lemma scan_torn fuel c k n valid : command_wf c -> (0 < k < length (record_of c))%nat ->
  scan_loop (S fuel) (take k (record_of c)) n valid = ([], mkScan n valid TornTail).
Proof.
  intros Hc Hk. cbn [scan_loop]. change (sizeof meta_ws) with 24. change kHeaderSize with 16. change kMaxMessageSize with 48.
  assert (alen (take k (record_of c)) = Z.of_nat k) as Hl by (unfold alen; rewrite length_take; lia).
  rewrite Hl, (proj2 (Z.eqb_neq _ _)) by lia. destruct (Z.ltb_spec (Z.of_nat k) 24); [done|].
  pose proof (meta_prefix c k [] ltac:(lia)) as Hm. rewrite app_nil_r in Hm. rewrite Hm.
  destruct (record_fields c [] Hc) as [Hf _]. rewrite app_nil_r in Hf. rewrite Hf. pose proof (encode_size c). pose proof (record_size c) as Hs.
  rewrite (proj2 (Z.ltb_ge (alen (encode c)) 16)), (proj2 (Z.ltb_ge 48 (alen (encode c)))) by lia. cbn [orb].
  rewrite (proj2 (Z.ltb_lt _ _)); [done|]. unfold alen in *. rewrite length_drop, length_take. lia.
Qed.

(** A record with one of its covered bytes, or of its checksum, changed is not accepted. *)
Lemma scan_bad_record fuel len sum ts owner z payload rest n valid : 16 <= len <= 48 -> alen payload = len ->
  Forall fits (zip meta_ws [len; sum; ts; owner; z]) -> crc (covered ts owner payload) <> sum ->
  scan_loop (S fuel) (pack (zip meta_ws [len; sum; ts; owner; z]) ++ payload ++ rest) n valid = ([], mkScan n valid Corrupt).
Proof.
  intros Hlen Hp Hf Hcrc. cbn [scan_loop]. set (fs := zip meta_ws _) in *.
  assert (unpack meta_ws (pack fs ++ payload ++ rest) = [len; sum; ts; owner; z]) as ->.
  { change meta_ws with (fst <$> fs) at 1. by rewrite unpack_pack. }
  change (sizeof meta_ws) with 24. change kHeaderSize with 16. change kMaxMessageSize with 48.
  assert (length (pack fs) = 24%nat) as Hl by (by rewrite length_pack). pose proof (alen_nonneg rest).
  assert (alen (pack fs ++ payload ++ rest) = 24 + len + alen rest) as -> by (unfold alen in *; rewrite !length_app; lia).
  rewrite (proj2 (Z.eqb_neq _ _)), (proj2 (Z.ltb_ge (24 + len + alen rest) 24)) by lia.
  rewrite (proj2 (Z.ltb_ge len 16)), (proj2 (Z.ltb_ge 48 len)) by lia. cbn [orb]. rewrite drop_app_length' by done.
  assert (alen (payload ++ rest) = len + alen rest) as -> by (unfold alen in *; rewrite !length_app; lia).
  rewrite (proj2 (Z.ltb_ge _ _)) by lia. rewrite take_app_length' by (unfold alen in *; lia). by rewrite (proj2 (Z.eqb_neq _ _)).
Qed.

(** *** Whole files *)

Definition body (cs : list Command) : list Z := c ← cs; record_of c.
Definition file_of (cs : list Command) : list Z := (magic ++ le 4 1) ++ body cs.

#[local] Arguments record_of : simpl never.
#[local] Arguments body : simpl never.

Lemma body_cons c cs : body (c :: cs) = record_of c ++ body cs.
Proof. reflexivity. Qed.
Lemma body_snoc cs c : body (cs ++ [c]) = body cs ++ record_of c.
Proof. unfold body. by rewrite bind_app, bind_singleton. Qed.
Lemma record_pos c : (40 <= length (record_of c))%nat.
Proof. pose proof (record_size c). pose proof (encode_size c). unfold alen in *. lia. Qed.
Lemma body_length cs : (length cs <= length (body cs))%nat.
Proof. induction cs as [|c cs IH]; [done|]. rewrite body_cons, length_app. pose proof (record_pos c). simpl. lia. Qed.

Lemma append_all cs w : file_ (foldl append w cs) = file_ w ++ body cs.
Proof.
  revert w. induction cs as [|c cs IH]; intros w; simpl; [by rewrite app_nil_r|]. rewrite IH, body_cons. simpl. by rewrite <- app_assoc.
Qed.

Lemma file_of_size cs : alen (file_of cs) = 8 + alen (body cs).
Proof. unfold file_of, alen. rewrite length_app. change (length (magic ++ le 4 1)) with 8%nat. lia. Qed.

Lemma scan_body pre : Forall command_wf pre -> forall fuel rest n valid, (length pre <= fuel)%nat ->
  scan_loop fuel (body pre ++ rest) n valid =
    (let '(cs, s) := scan_loop (fuel - length pre) rest (n + Z.of_nat (length pre)) (valid + alen (body pre)) in
     ((journal_view <$> pre) ++ cs, s)).
Proof.
  induction 1 as [|c pre Hc _ IH]; intros fuel rest n valid Hf; simpl in Hf.
  - change (alen (body [])) with 0. simpl. rewrite Nat.sub_0_r, !Z.add_0_r. by destruct (scan_loop fuel rest n valid).
  - destruct fuel as [|fuel]; [lia|]. rewrite body_cons, <- app_assoc, scan_record by done. rewrite IH by lia. cbn [length Nat.sub].
    assert (valid + alen (record_of c) + alen (body pre) = valid + alen (record_of c ++ body pre)) as -> by (unfold alen; rewrite length_app; lia).
    replace (n + 1 + Z.of_nat (length pre)) with (n + Z.of_nat (S (length pre))) by lia. by destruct (scan_loop _ _ _ _).
Qed.

Lemma scan_file rest : journal_scan ((magic ++ le 4 1) ++ rest) =
  let '(cs, s) := scan_loop (S (8 + length rest)) rest 0 8 in Scanned cs s.
Proof.
  unfold journal_scan, kJournalHeaderBytes.
  rewrite (proj2 (Z.ltb_ge _ _)) by (unfold alen; rewrite length_app; simpl; lia). reflexivity.
Qed.

(** Where a crash can cut: after some whole records, and inside the next. *)
Lemma body_cut cs : forall n, exists k m, (k <= length cs)%nat /\ take n (body cs) = body (take k cs) ++ m /\
  (m = [] \/ exists c j, cs !! k = Some c /\ (0 < j < length (record_of c))%nat /\ m = take j (record_of c)).
Proof.
  induction cs as [|c cs IH]; intros n; [exists 0%nat, []; change (body []) with (@nil Z); rewrite take_nil; auto|].
  rewrite body_cons. destruct (decide (n < length (record_of c))%nat) as [Hlt|Hge].
  - exists 0%nat, (take n (record_of c)). rewrite take_app_le by lia. split; [lia|]. split; [done|].
    destruct n as [|n]; [left; done|right]. exists c, (S n). split; [done|]. split; [lia|done].
  - rewrite take_app_ge by lia. destruct (IH (n - length (record_of c))%nat) as (k & m & Hk & -> & Hm).
    exists (S k), m. split; [simpl; lia|]. split; [by rewrite firstn_cons, body_cons, <- app_assoc|done].
Qed.

Lemma scan_cut cs k m fuel : Forall command_wf cs -> (k <= length cs)%nat -> (k < fuel)%nat ->
  (m = [] \/ exists c j, cs !! k = Some c /\ (0 < j < length (record_of c))%nat /\ m = take j (record_of c)) ->
  scan_loop fuel (body (take k cs) ++ m) 0 8 =
    (journal_view <$> take k cs, mkScan (Z.of_nat k) (alen (file_of (take k cs))) (if bool_decide (m = []) then Clean else TornTail)).
Proof.
  intros Hcs Hk Hf Hm. rewrite scan_body by (rewrite ?length_take; lia || by apply Forall_take).
  assert (0 + Z.of_nat (length (take k cs)) = Z.of_nat k) as -> by (rewrite length_take; lia).
  assert (8 + alen (body (take k cs)) = alen (file_of (take k cs))) as -> by (by rewrite file_of_size).
  rewrite length_take. replace (k `min` length cs)%nat with k by lia. destruct Hm as [->|(c & j & Hc & Hj & ->)].
  - rewrite scan_end, app_nil_r, bool_decide_eq_true_2 by done. done.
  - destruct (fuel - k)%nat as [|f] eqn:Ef; [lia|]. rewrite scan_torn; [|by eapply Forall_lookup_1|done].
    rewrite app_nil_r, bool_decide_eq_false_2; [done|]. intros E. apply (f_equal length) in E. rewrite length_take in E. simpl in E. lia.
Qed.

(** What the reader makes of any prefix that holds the file header. *)
Lemma scan_prefix cs n : Forall command_wf cs -> (8 <= n)%nat ->
  exists k m, (k <= length cs)%nat /\ take n (file_of cs) = file_of (take k cs) ++ m /\
    (m = [] \/ exists c j, cs !! k = Some c /\ (0 < j < length (record_of c))%nat /\ m = take j (record_of c)) /\
    journal_scan (take n (file_of cs)) = Scanned (journal_view <$> take k cs)
      (mkScan (Z.of_nat k) (alen (file_of (take k cs))) (if bool_decide (m = []) then Clean else TornTail)).
Proof.
  intros Hcs Hn. unfold file_of at 1 3. rewrite take_app_ge by done. change (length (magic ++ le 4 1)) with 8%nat.
  destruct (body_cut cs (n - 8)) as (k & m & Hk & Ht & Hm). rewrite Ht. exists k, m. split; [done|].
  split; [unfold file_of; by rewrite app_assoc|]. split; [done|]. rewrite scan_file, (scan_cut cs k m); [done|done|done| |done].
  rewrite length_app. pose proof (body_length (take k cs)) as Hb. rewrite length_take in Hb. lia.
Qed.

Lemma scan_whole cs : Forall command_wf cs ->
  journal_scan (file_of cs) = Scanned (journal_view <$> cs) (mkScan (Z.of_nat (length cs)) (alen (file_of cs)) Clean).
Proof.
  intros Hcs. unfold file_of at 1. rewrite scan_file. pose proof (scan_cut cs (length cs) [] (S (8 + length (body cs))) Hcs ltac:(lia)) as H.
  rewrite firstn_all, app_nil_r in H. rewrite H; [done| |by left]. pose proof (body_length cs). lia.
Qed.

(** ** Properties *)


(** C19: a damaged record stops the reader there: if one byte of its payload is changed, or of its checksum, the commands
    before it are returned, the journal is reported corrupt, and nothing after it is trusted, however valid it looks. *)
Theorem journal_detects_damage pre c rest payload sum q1 q2 b b' : Forall command_wf pre -> command_wf c -> in_u32 sum -> in_u8 b' ->
  (payload = encode c /\ sum <> crc (covered (c_ts c) (c_owner c) (encode c)) \/
   sum = crc (covered (c_ts c) (c_owner c) (encode c)) /\ encode c = q1 ++ b :: q2 /\ payload = q1 ++ b' :: q2 /\ b <> b') ->
  journal_scan (file_of pre ++ (pack (zip meta_ws [alen payload; sum; c_ts c; c_owner c; 0]) ++ payload) ++ rest) =
    Scanned (journal_view <$> pre) (mkScan (Z.of_nat (length pre)) (alen (file_of pre)) Corrupt).
Proof.
  intros Hpre Hc Hsum Hb' Hcase. unfold file_of. rewrite <- !app_assoc. rewrite (app_assoc magic), scan_file.
  assert (alen payload = alen (encode c)) as Hlen.
  { destruct Hcase as [[-> _]|(_ & E & -> & _)]; [done|]. rewrite E. unfold alen. by rewrite !length_app. }
  assert (crc (covered (c_ts c) (c_owner c) payload) <> sum) as Hne.
  { destruct Hcase as [[-> Hne]|(-> & E & -> & Hne)]; [congruence|]. rewrite E. unfold covered. rewrite !app_assoc.
    assert (bytes (encode c)) as Hbytes by apply bytes_pack. rewrite E in Hbytes. apply bytes_app in Hbytes as [Hq1 Hq2].
    apply Forall_cons in Hq2 as [Hb Hq2]. apply crc_detects; try done. apply bytes_app. split; [|done]. apply bytes_app. split; apply bytes_le. }
  set (bad := pack _ ++ payload ++ rest). rewrite scan_body; [|done|rewrite length_app; pose proof (alen_nonneg bad)].
  - destruct (S (8 + length (body pre ++ bad)) - length pre)%nat as [|f] eqn:Ef.
    { rewrite length_app in Ef. pose proof (body_length pre). lia. }
    unfold bad. rewrite scan_bad_record; [|pose proof (encode_size c); lia|done| |done].
    + rewrite app_nil_r. do 3 f_equal. unfold alen. rewrite !length_app. simpl. lia.
    + pose proof (encode_size c). destruct Hc as (_ & _ & _ & Ht & _ & Ho & _). unfold meta_ws. cbn [zip_with zip].
      repeat (apply Forall_cons; split; [unfold fits; cbn [fst snd]; words; change (256 ^ Z.of_nat 4) with 4294967296; change (256 ^ Z.of_nat 8) with 18446744073709551616; lia|]).
      by apply Forall_nil.
  - pose proof (body_length pre). lia.
Qed.

(** ** Witnesses *)

Definition demo_commands : list Command := [demo_order; mkCommand 7 0 13 99 0 9 1 Cancel Buy Limit Day 0].
Lemma demo_commands_wf : Forall command_wf demo_commands.
Proof. unfold demo_commands. repeat (apply Forall_cons; split; [unfold command_wf; simpl; words; lia|]). by apply Forall_nil. Qed.


(** The owner byte of a cancel's payload, changed: the record before it is kept, what follows is not. *)
Lemma journal_detects_damage_witness : exists file, journal_scan file = Scanned [demo_order] (mkScan 1 80 Corrupt) /\ alen file = 200.
Proof.
  pose (c := mkCommand 7 0 13 99 0 9 1 Cancel Buy Limit Day 0).
  assert (encode c = take 16 (encode c) ++ 7 :: drop 17 (encode c)) as He by (vm_compute; reflexivity).
  pose proof (journal_detects_damage [demo_order] c (record_of demo_order) (take 16 (encode c) ++ 8 :: drop 17 (encode c))
    (crc (covered (c_ts c) (c_owner c) (encode c))) (take 16 (encode c)) (drop 17 (encode c)) 7 8) as H.
  eexists. split; [apply H|vm_compute; reflexivity].
  - apply Forall_cons. split; [apply demo_order_wf|]. by apply Forall_nil.
  - unfold c, command_wf. simpl. words. lia.
  - apply crc_bound.
  - unfold in_u8. lia.
  - right. split; [reflexivity|]. split; [exact He|]. split; [reflexivity|discriminate].
Defined.
End Journal.
