(* ===== verification/SeqStream.v ===== *)
(** * The replicated command stream (seqstream.hpp)

    The primary publishes the sequencer's commands in datagrams over a network that may lose, duplicate and reorder them;
    a replica delivers them in order, asking for what it misses. A socket is what it delivers: [service] and [poll] are
    given the datagrams they receive and return those they send. A datagram is its header and the commands after it; the
    clock and the decisions of the fault injector are arguments. *)
From S2P Require Import Prelude Bits Common.

Module SeqStream.

Definition kMagic : Z := 1364416581.
Definition kPerPacket : Z := 25.

Inductive Kind := Data | Heartbeat | End_ | Retransmit | Ack | Unavailable.
#[export] Instance Kind_eq_dec : EqDecision Kind.
Proof. solve_decision. Defined.

Record Header := mkHeader { h_magic : Z; h_epoch : Z; h_first_seq : Z; h_count : Z; h_kind : Kind }.
Definition header (k : Kind) (epoch first_seq count : Z) : Header := mkHeader kMagic epoch first_seq count k.

Record Datagram := mkDatagram { d_header : Header; d_commands : list Command }.

(** ** The primary *)

Module Publisher.

Record Stats := mkStats {
  packets : Z; dropped : Z; heartbeats : Z; retransmit_requests : Z; retransmitted_packets : Z; unavailable : Z; acks : Z
}.
Record t := mk {
  ring_ : list Command;
  mask_ : Z;
  epoch_ : Z;
  fenced_by_ : Z;
  next_seq_ : Z;
  pending_first_ : Z;
  acked_ : Z;
  history_from_ : Z;
  last_send_ns_ : Z;
  stats_ : Stats;
}.

(** [blank] is a value-initialised command. *)
Definition blank : Command := mkCommand 0 0 0 0 0 0 0 NewOrder Buy Limit Day 0.
Definition make (ring_log2 next_seq epoch : Z) : t :=
  mk (amake (Z.shiftl 1 ring_log2) blank) (u64 (Z.shiftl 1 ring_log2) - 1) epoch 0 next_seq next_seq (u64 (next_seq - 1)) next_seq 0
    (mkStats 0 0 0 0 0 0 0).

Definition set_ring (p : t) (ring : list Command) (next history : Z) : t :=
  mk ring (mask_ p) (epoch_ p) (fenced_by_ p) next (pending_first_ p) (acked_ p) history (last_send_ns_ p) (stats_ p).
Definition set_sent (p : t) (pending now : Z) (st : Stats) : t :=
  mk (ring_ p) (mask_ p) (epoch_ p) (fenced_by_ p) (next_seq_ p) pending (acked_ p) (history_from_ p) now st.
Definition set_fenced (p : t) (v : Z) : t :=
  mk (ring_ p) (mask_ p) (epoch_ p) v (next_seq_ p) (pending_first_ p) (acked_ p) (history_from_ p) (last_send_ns_ p) (stats_ p).
Definition set_acked (p : t) (v : Z) (st : Stats) : t :=
  mk (ring_ p) (mask_ p) (epoch_ p) (fenced_by_ p) (next_seq_ p) (pending_first_ p) v (history_from_ p) (last_send_ns_ p) st.
Definition set_stats (p : t) (st : Stats) : t := set_acked p (acked_ p) st.

Definition acked (p : t) : Z := acked_ p.
Definition fenced (p : t) : bool := negb (fenced_by_ p =? 0).

(** No result is the exception of an out-of-sequence command. *)
Definition seed_history (p : t) (c : Command) : option t :=
  if next_seq_ p <=? c_seq c then None else
  ring ← (ring_ p).[Z.land (c_seq c) (mask_ p) <- c];
  Some (set_ring p ring (next_seq_ p) (Z.min (history_from_ p) (c_seq c))).
Definition publish (p : t) (c : Command) : option t :=
  if negb (c_seq c =? next_seq_ p) then None else
  ring ← (ring_ p).[Z.land (c_seq c) (mask_ p) <- c];
  Some (set_ring p ring (u64 (next_seq_ p + 1)) (history_from_ p)).

Definition send_data (p : t) (first n : Z) : option Datagram :=
  cs ← mapM (fun i => (ring_ p).[Z.land (u64 (first + i)) (mask_ p)]) (seqZ 0 n);
  Some (mkDatagram (header Data (epoch_ p) first n) cs).
Definition send_control (h : Header) : Datagram := mkDatagram h [].

(** [lost k] is the fault injector's decision on the datagram that starts at sequence number [k]. *)
Fixpoint flush_loop (fuel : nat) (lost : Z -> bool) (now : Z) (p : t) : option (t * list Datagram) :=
  match fuel with
  | O => None
  | S fuel =>
      if pending_first_ p <? next_seq_ p then
        let n := u16 (Z.min kPerPacket (next_seq_ p - pending_first_ p)) in
        let st := stats_ p in
        '(st, out) ← (if lost (pending_first_ p) : bool
          then Some (mkStats (packets st) (dropped st + 1) (heartbeats st) (retransmit_requests st) (retransmitted_packets st)
                 (unavailable st) (acks st), [])
          else d ← send_data p (pending_first_ p) n; Some (st, [d]));
        let st := mkStats (packets st + 1) (dropped st) (heartbeats st) (retransmit_requests st) (retransmitted_packets st)
                    (unavailable st) (acks st) in
        '(p, outs) ← flush_loop fuel lost now (set_sent p (u64 (pending_first_ p + n)) now st);
        Some (p, out ++ outs)
      else Some (p, [])
  end.
Definition flush (lost : Z -> bool) (now : Z) (p : t) : option (t * list Datagram) :=
  flush_loop (S (Z.to_nat (next_seq_ p - pending_first_ p))) lost now p.

Definition heartbeat_if_idle (lost : Z -> bool) (now interval_ns : Z) (p : t) : option (t * list Datagram) :=
  if (u64 (now - last_send_ns_ p) <? interval_ns) || fenced p then Some (p, []) else
  '(p, out) ← flush lost now p;
  let st := stats_ p in
  Some (set_sent p (pending_first_ p) now (mkStats (packets st) (dropped st) (heartbeats st + 1) (retransmit_requests st)
          (retransmitted_packets st) (unavailable st) (acks st)),
        out ++ [send_control (header Heartbeat (epoch_ p) (next_seq_ p) 0)]).

Definition end_ (lost : Z -> bool) (now : Z) (p : t) : option (t * list Datagram) :=
  if fenced p then Some (p, []) else
  '(p, out) ← flush lost now p;
  let d := send_control (header End_ (epoch_ p) (next_seq_ p) 0) in Some (p, out ++ [d; d; d]).

(** [service], one datagram of the group: a newer epoch fences this primary. *)
Definition on_group (p : t) (d : Datagram) : t :=
  let h := d_header d in
  if (h_magic h =? kMagic) && (epoch_ p <? h_epoch h) && (fenced_by_ p <? h_epoch h) then set_fenced p (h_epoch h) else p.

Fixpoint retransmit_loop (fuel : nat) (p : t) (s end_ : Z) : option (t * list Datagram) :=
  match fuel with
  | O => None
  | S fuel =>
      if s <? end_ then
        d ← send_data p s (u16 (Z.min kPerPacket (end_ - s)));
        let st := stats_ p in
        '(p, outs) ← retransmit_loop fuel (set_stats p (mkStats (packets st) (dropped st) (heartbeats st) (retransmit_requests st)
            (retransmitted_packets st + 1) (unavailable st) (acks st))) (u64 (s + kPerPacket)) end_;
        Some (p, d :: outs)
      else Some (p, [])
  end.

(** [service], one datagram of the control socket, and the datagrams sent back. *)
Definition on_control (p : t) (d : Datagram) : option (t * list Datagram) :=
  let h := d_header d in
  if negb (h_magic h =? kMagic) || negb (h_epoch h =? epoch_ p) || fenced p then Some (p, []) else
  let st := stats_ p in
  match h_kind h with
  | Ack =>
      let st := mkStats (packets st) (dropped st) (heartbeats st) (retransmit_requests st) (retransmitted_packets st)
                  (unavailable st) (acks st + 1) in
      Some (set_acked p (if (acked_ p <? h_first_seq h) && (h_first_seq h <? next_seq_ p) then h_first_seq h else acked_ p) st, [])
  | Retransmit =>
      let p := set_stats p (mkStats (packets st) (dropped st) (heartbeats st) (retransmit_requests st + 1)
                 (retransmitted_packets st) (unavailable st) (acks st)) in
      let st := stats_ p in
      let in_ring := if alen (ring_ p) <? next_seq_ p then next_seq_ p - alen (ring_ p) else 1 in
      let oldest := Z.max in_ring (history_from_ p) in
      if h_first_seq h <? oldest then
        Some (set_stats p (mkStats (packets st) (dropped st) (heartbeats st) (retransmit_requests st) (retransmitted_packets st)
                (unavailable st + 1) (acks st)), [send_control (header Unavailable (epoch_ p) oldest 0)])
      else
        let e := Z.min (u64 (h_first_seq h + h_count h)) (next_seq_ p) in
        retransmit_loop (S (Z.to_nat (e - h_first_seq h))) p (h_first_seq h) e
  | _ => Some (p, [])
  end.

End Publisher.

(** ** The replica *)

Module Subscriber.

Record Stats := mkStats { packets : Z; duplicates : Z; gaps : Z; requests : Z; stashed_max : Z; stale : Z }.

(** [stash_] is an ordered map: its entries by increasing first sequence number. *)
Record t := mk {
  min_epoch_ : Z;
  epoch_ : Z;
  superseded_by_ : Z;
  expected_ : Z;
  known_next_ : Z;
  end_seq_ : Z;
  requested_from_ : Z;
  requested_at_ : Z;
  last_heard_ : Z;
  ended_ : bool;
  unavailable_ : bool;
  stash_ : list (Z * list Command);
  stats_ : Stats;
}.

Definition make (first_seq min_epoch : Z) : t :=
  mk min_epoch 0 0 first_seq 0 0 0 0 0 false false [] (mkStats 0 0 0 0 0 0).

Definition set_stats (s : t) (st : Stats) : t :=
  mk (min_epoch_ s) (epoch_ s) (superseded_by_ s) (expected_ s) (known_next_ s) (end_seq_ s) (requested_from_ s) (requested_at_ s)
    (last_heard_ s) (ended_ s) (unavailable_ s) (stash_ s) st.
Definition set_epoch (s : t) (epoch superseded heard : Z) : t :=
  mk (min_epoch_ s) epoch superseded (expected_ s) (known_next_ s) (end_seq_ s) (requested_from_ s) (requested_at_ s)
    heard (ended_ s) (unavailable_ s) (stash_ s) (stats_ s).
Definition set_progress (s : t) (expected known : Z) (stash : list (Z * list Command)) : t :=
  mk (min_epoch_ s) (epoch_ s) (superseded_by_ s) expected known (end_seq_ s) (requested_from_ s) (requested_at_ s)
    (last_heard_ s) (ended_ s) (unavailable_ s) stash (stats_ s).
Definition set_known (s : t) (known end_seq : Z) (ended : bool) : t :=
  mk (min_epoch_ s) (epoch_ s) (superseded_by_ s) (expected_ s) known end_seq (requested_from_ s) (requested_at_ s)
    (last_heard_ s) ended (unavailable_ s) (stash_ s) (stats_ s).
Definition set_unavailable (s : t) : t :=
  mk (min_epoch_ s) (epoch_ s) (superseded_by_ s) (expected_ s) (known_next_ s) (end_seq_ s) (requested_from_ s) (requested_at_ s)
    (last_heard_ s) (ended_ s) true (stash_ s) (stats_ s).
Definition set_requested (s : t) (from now : Z) (st : Stats) : t :=
  mk (min_epoch_ s) (epoch_ s) (superseded_by_ s) (expected_ s) (known_next_ s) (end_seq_ s) from now
    (last_heard_ s) (ended_ s) (unavailable_ s) (stash_ s) st.

Definition expected (s : t) : Z := expected_ s.
Definition ended (s : t) : bool := ended_ s && (end_seq_ s <=? expected_ s).
Definition heard (s : t) : bool := negb (epoch_ s =? 0).
Definition superseded (s : t) : bool := negb (superseded_by_ s =? 0).

(** [stash_.emplace]: nothing changes if the key is there. *)
Fixpoint emplace (m : list (Z * list Command)) (k : Z) (cs : list Command) : list (Z * list Command) :=
  match m with
  | [] => [(k, cs)]
  | (k0, cs0) :: m' => if k <? k0 then (k, cs) :: m else if k =? k0 then m else (k0, cs0) :: emplace m' k cs
  end.

(** [deliver] hands over the commands from [expected_] on. *)
Definition deliver (s : t) (first : Z) (cs : list Command) : t * list Command :=
  let e := u64 (first + alen cs) in
  (set_progress s e (Z.max (known_next_ s) e) (stash_ s), drop (Z.to_nat (u64 (expected_ s - first))) cs).

(** The loop over the stash once the gap may be closed. *)
Fixpoint unstash (s : t) (m : list (Z * list Command)) : t * list Command :=
  match m with
  | [] => (set_progress s (expected_ s) (known_next_ s) [], [])
  | (k, cs) :: m' =>
      if k <=? expected_ s then
        if expected_ s <? u64 (k + alen cs) then
          let '(s, out) := deliver s k cs in let '(s, out') := unstash s m' in (s, out ++ out')
        else unstash s m'
      else (set_progress s (expected_ s) (known_next_ s) m, [])
  end.

Definition on_data (s : t) (first count : Z) (cs : list Command) : t * list Command :=
  if negb (alen cs =? count) then (s, []) else
  let st := stats_ s in
  let s := set_stats s (mkStats (packets st + 1) (duplicates st) (gaps st) (requests st) (stashed_max st) (stale st)) in
  let st := stats_ s in
  if u64 (first + count) <=? expected_ s then
    (set_stats s (mkStats (packets st) (duplicates st + 1) (gaps st) (requests st) (stashed_max st) (stale st)), [])
  else if expected_ s <? first then
    let m := emplace (stash_ s) first cs in
    let fresh := negb (alen m =? alen (stash_ s)) && (alen m =? 1) in
    (set_stats (set_progress s (expected_ s) (known_next_ s) m)
       (mkStats (packets st) (duplicates st) (if fresh then gaps st + 1 else gaps st) (requests st) (Z.max (stashed_max st) (alen m)) (stale st)), [])
  else
    let '(s, out) := deliver s first cs in
    let '(s, out') := unstash s (stash_ s) in (s, out ++ out').

(** [drain], one datagram: the commands delivered. *)
Definition on_datagram (s : t) (now : Z) (d : Datagram) : t * list Command :=
  let h := d_header d in
  if negb (h_magic h =? kMagic) || bool_decide (h_kind h = Ack) || bool_decide (h_kind h = Retransmit) then (s, []) else
  if (h_epoch h <? min_epoch_ s) || (negb (epoch_ s =? 0) && (h_epoch h <? epoch_ s)) then
    let st := stats_ s in
    (set_stats s (mkStats (packets st) (duplicates st) (gaps st) (requests st) (stashed_max st) (stale st + 1)), [])
  else
  let s := set_epoch s (if epoch_ s =? 0 then h_epoch h else epoch_ s) (superseded_by_ s) (last_heard_ s) in
  if epoch_ s <? h_epoch h then (set_epoch s (epoch_ s) (Z.max (superseded_by_ s) (h_epoch h)) (last_heard_ s), []) else
  let s := set_epoch s (epoch_ s) (superseded_by_ s) now in
  match h_kind h with
  | Data => on_data s (h_first_seq h) (h_count h) (d_commands d)
  | Heartbeat => (set_known s (Z.max (known_next_ s) (h_first_seq h)) (end_seq_ s) (ended_ s), [])
  | End_ => (set_known s (Z.max (known_next_ s) (h_first_seq h)) (h_first_seq h) true, [])
  | Unavailable => (set_unavailable s, [])
  | _ => (s, [])
  end.

Definition gap_end (s : t) : Z := match stash_ s with [] => known_next_ s | (k, _) :: _ => k end.
Definition request_gap (s : t) (now : Z) : t * option Datagram :=
  if (gap_end s <=? expected_ s) || (epoch_ s =? 0) then (s, None) else
  if (requested_from_ s =? expected_ s) && (u64 (now - requested_at_ s) <? 20000000) then (s, None) else
  let count := u16 (Z.min (gap_end s - expected_ s) 4096) in
  let st := stats_ s in
  (set_requested s (expected_ s) now (mkStats (packets st) (duplicates st) (gaps st) (requests st + 1) (stashed_max st) (stale st)),
   Some (mkDatagram (header Retransmit (epoch_ s) (expected_ s) count) [])).

(** The datagrams of one [poll], each with the time it was taken. *)
Fixpoint drain (s : t) (ds : list (Z * Datagram)) : t * list Command :=
  match ds with
  | [] => (s, [])
  | (now, d) :: ds => let '(s, out) := on_datagram s now d in let '(s, out') := drain s ds in (s, out ++ out')
  end.
Definition poll (s : t) (ds : list (Z * Datagram)) (now : Z) : t * list Command * option Datagram :=
  let '(s, out) := drain s ds in let '(s, req) := request_gap s now in (s, out, req).

Definition ack (s : t) (through : Z) : option Datagram :=
  if epoch_ s =? 0 then None else Some (mkDatagram (header Ack (epoch_ s) through 0) []).

#[global] Arguments deliver : simpl never.
End Subscriber.

(** ** The calls a primary's process makes *)

Inductive Op :=
  | Publish (c : Command)
  | Flush (lost : Z -> bool) (now : Z)
  | HeartbeatIfIdle (lost : Z -> bool) (now interval_ns : Z)
  | End_stream (lost : Z -> bool) (now : Z)
  | Group (d : Datagram)
  | Control (d : Datagram).

Definition pub_step (p : Publisher.t) (o : Op) : option (Publisher.t * list Datagram) :=
  match o with
  | Publish c => p ← Publisher.publish p c; Some (p, [])
  | Flush lost now => Publisher.flush lost now p
  | HeartbeatIfIdle lost now interval_ns => Publisher.heartbeat_if_idle lost now interval_ns p
  | End_stream lost now => Publisher.end_ lost now p
  | Group d => Some (Publisher.on_group p d, [])
  | Control d => Publisher.on_control p d
  end.
Fixpoint pub_run (p : Publisher.t) (ops : list Op) : option (Publisher.t * list Datagram) :=
  match ops with
  | [] => Some (p, [])
  | o :: ops => '(p, out) ← pub_step p o; '(p, outs) ← pub_run p ops; Some (p, out ++ outs)
  end.
Definition published (ops : list Op) : list Command := omap (fun o => match o with Publish c => Some c | _ => None end) ops.

(** A new primary, with the history it loads first. *)
Definition pub_seed (p : Publisher.t) (hs : list Command) : option Publisher.t :=
  foldl (fun p c => p ← p; Publisher.seed_history p c) (Some p) hs.
Definition primary (ring_log2 epoch next_seq : Z) (hs : list Command) : option Publisher.t :=
  pub_seed (Publisher.make ring_log2 next_seq epoch) hs.

(** The batches that are staged between two flushes fit the ring, and sequence numbers received are 64-bit. *)
Fixpoint paced (p : Publisher.t) (ops : list Op) : bool :=
  match ops with
  | [] => true
  | o :: ops =>
      match o with
      | Publish _ => Publisher.next_seq_ p - Publisher.pending_first_ p <? alen (Publisher.ring_ p)
      | Control d => 0 <=? h_first_seq (d_header d)
      | _ => true
      end && match pub_step p o with Some (p, _) => paced p ops | None => true end
  end.
End SeqStream.

(** ** Segments of a log *)

Module StreamLaws.
Import SeqStream.

Section log.
Variable log : Z -> option Command.

(** [l] is the log from [a] up to [b]. *)
Definition segment (a b : Z) (l : list Command) : Prop :=
  b = a + alen l /\ forall i c, l !! i = Some c -> log (a + Z.of_nat i) = Some c.

Lemma segment_nil a : segment a a [].
Proof. split; [change (alen []) with 0; lia|done]. Qed.

Lemma segment_app a b c l l' : segment a b l -> segment b c l' -> segment a c (l ++ l').
Proof.
  intros [-> Hl] [-> Hl']. split; [unfold alen; rewrite length_app; lia|]. intros i x Hi.
  apply lookup_app_Some in Hi as [Hi|[Hge Hi]]; [by apply Hl|]. specialize (Hl' _ _ Hi). rewrite <- Hl'. f_equal. unfold alen. lia.
Qed.

Lemma segment_drop a b l e : segment a b l -> a <= e <= b -> segment e b (drop (Z.to_nat (e - a)) l).
Proof.
  intros [-> Hl] He. split; [unfold alen in *; rewrite length_drop; lia|]. intros i c Hi. rewrite lookup_drop in Hi.
  specialize (Hl _ _ Hi). rewrite <- Hl. f_equal. lia.
Qed.

Lemma segment_length a b l : segment a b l -> alen l = b - a.
Proof. intros [-> _]. lia. Qed.

(** ** The replica *)

Section replica.
Import Subscriber.
Variables (E first : Z).

(** A datagram of the followed epoch carries what the log says. *)
Definition genuine (d : Datagram) : Prop :=
  let h := d_header d in
  h_magic h = kMagic -> h_epoch h = E -> h_kind h = Data -> alen (d_commands d) = h_count h ->
  0 <= h_first_seq h /\ h_first_seq h + h_count h < 18446744073709551616 /\
  segment (h_first_seq h) (h_first_seq h + h_count h) (d_commands d).

Definition stash_ok (m : list (Z * list Command)) : Prop :=
  Forall (fun x => 0 <= x.1 /\ x.1 + alen x.2 < 18446744073709551616 /\ segment x.1 (x.1 + alen x.2) x.2) m.

Lemma emplace_ok m k cs : stash_ok m -> 0 <= k -> k + alen cs < 18446744073709551616 -> segment k (k + alen cs) cs ->
  stash_ok (emplace m k cs).
Proof.
  unfold stash_ok. intros Hm Hk Hb Hs. induction Hm as [|[k0 cs0] m H0 Hm IH]; simpl; [by apply Forall_singleton|].
  case_if; [by repeat (apply Forall_cons; split)|]. case_if; [by constructor|]. by constructor.
Qed.

(** What the replica holds once it follows the epoch, having delivered [out]. *)
Record following (s : t) (out : list Command) : Prop := {
  fo_segment : segment first (expected_ s) out;
  fo_range : 0 <= first /\ expected_ s < 18446744073709551616;
  fo_stash : stash_ok (stash_ s);
}.

Lemma deliver_ok s k cs out s' out' : following s out -> segment k (k + alen cs) cs -> 0 <= k -> k + alen cs < 18446744073709551616 ->
  k <= expected_ s < k + alen cs -> deliver s k cs = (s', out') ->
  following s' (out ++ out') /\ expected_ s' = k + alen cs /\ stash_ s' = stash_ s /\ epoch_ s' = epoch_ s.
Proof.
  intros [Hs [Hf He] Hst] Hseg H0 Hb Hk [= <- <-]. rewrite (u64_small (k + alen cs)), u64_small by (unfold in_u64; lia).
  simpl. split; [|done]. split; simpl; [|split; lia|done]. eapply segment_app; [done|]. apply segment_drop; [done|lia].
Qed.

Lemma unstash_ok m : forall s out s' out', following s out -> stash_ok m -> unstash s m = (s', out') ->
  following s' (out ++ out') /\ expected_ s <= expected_ s' /\ epoch_ s' = epoch_ s.
Proof.
  induction m as [|[k cs] m IH]; intros s out s' out' Hs Hm Hu; cbn [unstash] in Hu.
  - injection Hu as <- <-. rewrite app_nil_r. destruct Hs as [H1 H2 _]. split; [|simpl; split; [lia|done]]. split; [done|done|constructor].
  - pose proof Hm as Hm0. apply Forall_cons in Hm as [(Hk0 & Hb & Hseg) Hm]. cbn [fst snd] in *. destruct (Z.leb_spec k (expected_ s)).
    + rewrite u64_small in Hu by (unfold in_u64; pose proof (alen_nonneg cs); lia).
      destruct (Z.ltb_spec (expected_ s) (k + alen cs)); [|by eapply IH].
      destruct (deliver s k cs) as [s1 out1] eqn:Hd. destruct (unstash s1 m) as [s2 out2] eqn:Hu2. injection Hu as <- <-.
      destruct (deliver_ok _ _ _ _ _ _ Hs Hseg Hk0 Hb ltac:(lia) Hd) as (Hs1 & He1 & _ & Ee1).
      destruct (IH _ _ _ _ Hs1 Hm Hu2) as (Hs2 & Hle & Ee2). rewrite app_assoc. split; [done|]. split; [lia|congruence].
    + injection Hu as <- <-. rewrite app_nil_r. destruct Hs as [H1 H2 _]. split; [|simpl; split; [lia|done]]. by split.
Qed.

(** Where a data datagram takes the replica: never back, and past its commands if they are not ahead. *)
Lemma on_data_ok s k n cs out s' out' : following s out -> (alen cs = n -> 0 <= k /\ k + n < 18446744073709551616 /\ segment k (k + n) cs) ->
  on_data s k n cs = (s', out') ->
  following s' (out ++ out') /\ expected_ s <= expected_ s' /\ epoch_ s' = epoch_ s /\
  (alen cs = n -> k <= expected_ s -> k + n <= expected_ s').
Proof.
  intros Hs Hg Hd. unfold on_data in Hd. pose proof Hs as [Hseg0 Hr0 Hst0]. destruct (Z.eqb_spec (alen cs) n) as [Hn|Hn]; cbn -[deliver unstash] in Hd;
    [|injection Hd as <- <-; rewrite app_nil_r; split; [done|split; [lia|done]]].
  destruct (Hg Hn) as (Hk0 & Hb & Hseg). subst n. pose proof (alen_nonneg cs). rewrite u64_small in Hd by (unfold in_u64; lia).
  destruct (Z.leb_spec (k + alen cs) (expected_ s)); [injection Hd as <- <-; rewrite app_nil_r; split; [by split|simpl; split_and!; [lia|done|lia]]|].
  destruct (Z.ltb_spec (expected_ s) k).
  - injection Hd as <- <-. rewrite app_nil_r. split; [split; simpl; [done..|by apply emplace_ok]|simpl; split_and!; [lia|done|lia]].
  - match type of Hd with context [deliver ?x k cs] => destruct (deliver x k cs) as [s1 out1] eqn:Hd1 end.
    destruct (unstash s1 (stash_ s1)) as [s2 out2] eqn:Hu. injection Hd as <- <-.
    assert (following (set_stats s (mkStats (packets (stats_ s) + 1) (duplicates (stats_ s)) (gaps (stats_ s)) (requests (stats_ s))
      (stashed_max (stats_ s)) (stale (stats_ s)))) out) as Hs1 by (by split).
    destruct (deliver_ok _ _ _ _ _ _ Hs1 Hseg Hk0 Hb ltac:(simpl; lia) Hd1) as (Hs2 & He & Hstash & Ee).
    destruct (unstash_ok _ _ _ _ _ Hs2 (fo_stash _ _ Hs2) Hu) as (Hs3 & Hle & Ee3). rewrite app_assoc. simpl in *.
    split; [done|]. split_and!; [lia|congruence|lia].
Qed.

(** The replica as a whole: nothing before it follows an epoch, and the log once it follows [E]. *)
Record sub_ok (s : t) (out : list Command) : Prop := {
  so_idle : epoch_ s = 0 -> expected_ s = first /\ stash_ s = [] /\ out = [];
  so_following : epoch_ s = E -> following s out;
  so_min : 0 < min_epoch_ s;
  so_floor : epoch_ s <> 0 -> min_epoch_ s <= epoch_ s;
}.

Lemma sub_ok_keep s s' out : sub_ok s out -> epoch_ s' = epoch_ s -> min_epoch_ s' = min_epoch_ s -> expected_ s' = expected_ s ->
  stash_ s' = stash_ s -> sub_ok s' (out ++ []).
Proof.
  intros [Hi Hf Hm Hfl] E1 E2 E3 E4. rewrite app_nil_r. split; [rewrite E1, E3, E4; done| |by rewrite E2|by rewrite E1, E2]. rewrite E1. intros HE.
  destruct (Hf HE). split; by rewrite ?E3, ?E4.
Qed.

Lemma on_data_frame s k n cs s' out : on_data s k n cs = (s', out) -> min_epoch_ s' = min_epoch_ s /\ epoch_ s' = epoch_ s.
Proof.
  assert (forall m s s' out, unstash s m = (s', out) -> min_epoch_ s' = min_epoch_ s /\ epoch_ s' = epoch_ s) as Hu.
  { intros m. induction m as [|[k0 cs0] m IH]; intros r r' o Hr; simpl in Hr; [by injection Hr as <- <-|].
    case_match; [|by injection Hr as <- <-]. case_match; [|by apply IH in Hr]. destruct (unstash _ m) as [r2 o2] eqn:E2.
    injection Hr as <- <-. apply IH in E2. done. }
  unfold on_data. repeat case_match; try (intros [= <- <-]; done). intros [= <- <-]. apply Hu in H3. unfold deliver in H2. by simplify_eq.
Qed.

Lemma on_datagram_ok s now d out s' out' : 0 <= first < 18446744073709551616 -> 0 < E -> sub_ok s out -> genuine d ->
  on_datagram s now d = (s', out') ->
  sub_ok s' (out ++ out') /\ (epoch_ s <> 0 -> epoch_ s' = epoch_ s) /\
  (epoch_ s = E -> expected_ s <= expected_ s').
Proof.
  intros Hfirst HE Hs Hg Hd. unfold on_datagram in Hd. set (h := d_header d) in *.
  destruct (Z.eqb_spec (h_magic h) kMagic) as [Hm|]; [|injection Hd as <- <-; simpl; split; [by apply (sub_ok_keep s)|split; [done|lia]]].
  destruct (_ || _); [injection Hd as <- <-; split; [by apply (sub_ok_keep s)|split; [done|lia]]|].
  destruct ((h_epoch h <? min_epoch_ s) || _) eqn:Estale; [injection Hd as <- <-; split; [by apply (sub_ok_keep s)|split; [done|simpl; lia]]|].
  apply orb_false_elim in Estale as [Emin%Z.ltb_ge Eold].
  set (e := if epoch_ s =? 0 then h_epoch h else epoch_ s) in *. pose proof (so_min _ _ Hs) as Hmin.
  assert (e <> 0 /\ (epoch_ s <> 0 -> e = epoch_ s)) as [He0 Hee] by (unfold e; destruct (Z.eqb_spec (epoch_ s) 0); lia).
  simpl in Hd. set (s1 := set_epoch (set_epoch s e (superseded_by_ s) (last_heard_ s)) e (superseded_by_ s) now) in *.
  assert (sub_ok s1 out) as Hs1.
  { split; simpl; [done| |done|].
    2: { intros _. unfold e. destruct (Z.eqb_spec (epoch_ s) 0) as [|Hz]; [lia|by apply (so_floor _ _ Hs)]. }
    intros HeE. destruct (Z.eqb_spec (epoch_ s) 0) as [Hz|Hz].
    - destruct (so_idle _ _ Hs Hz) as (H1 & H2 & ->). split; simpl; [rewrite H1; apply segment_nil|lia|rewrite H2; constructor].
    - rewrite Hee in HeE by done. destruct (so_following _ _ Hs HeE) as [? ? ?]. by split. }
  destruct (Z.ltb_spec e (h_epoch h)) as [Hlt|Hge].
  { injection Hd as <- <-. split; [by apply (sub_ok_keep s1)|]. simpl. split; [done|lia]. }
  destruct (h_kind h) eqn:Hk; try (injection Hd as <- <-; split; [by apply (sub_ok_keep s1)|simpl; split; [done|lia]]).
  destruct (on_data_frame _ _ _ _ _ _ Hd) as [F1 F2]. simpl in F1, F2.
  assert (e = E -> following s' (out ++ out') /\ expected_ s <= expected_ s') as Hfo.
  { intros HeE. pose proof (so_following _ _ Hs1 HeE) as Hf1.
    assert (h_epoch h = E) as HhE.
    { subst e. destruct (Z.eqb_spec (epoch_ s) 0) as [Hz|Hz]; [done|]. simpl in Eold. apply Z.ltb_ge in Eold. lia. }
    destruct (on_data_ok s1 _ _ _ out _ _ Hf1 (Hg Hm HhE Hk) Hd) as (Hf & Hle & _ & _). done. }
  split; [|split; [intros Hz; rewrite F2; auto|]].
  - split; [rewrite F2; done| |lia|rewrite F1, F2; exact (so_floor _ _ Hs1)]. rewrite F2. intros HE'. by apply Hfo.
  - intros HE'. apply Hfo. rewrite Hee; lia.
Qed.

Lemma drain_ok ds : 0 <= first < 18446744073709551616 -> 0 < E -> forall s out s' out', sub_ok s out ->
  Forall (fun x => genuine x.2) ds -> drain s ds = (s', out') ->
  sub_ok s' (out ++ out') /\ (epoch_ s <> 0 -> epoch_ s' = epoch_ s) /\ (epoch_ s = E -> expected_ s <= expected_ s').
Proof.
  intros Hfirst HE. induction ds as [|[now d] ds IH]; intros s out s' out' Hs Hds Hd; simpl in Hd.
  - injection Hd as <- <-. rewrite app_nil_r. split; [done|split; [done|lia]].
  - apply Forall_cons in Hds as [Hg Hds]. destruct (on_datagram s now d) as [s1 o1] eqn:E1. destruct (drain s1 ds) as [s2 o2] eqn:E2.
    injection Hd as <- <-. destruct (on_datagram_ok _ _ _ _ _ _ Hfirst HE Hs Hg E1) as (Hs1 & Hk1 & Hl1).
    destruct (IH _ _ _ _ Hs1 Hds E2) as (Hs2 & Hk2 & Hl2). rewrite app_assoc. split; [done|]. split; [intros; rewrite Hk2; [auto|rewrite Hk1; auto]|].
    intros HeE. assert (epoch_ s1 = E) as Hs1E by (rewrite Hk1; lia). specialize (Hl1 HeE). specialize (Hl2 Hs1E). lia.
Qed.

Lemma make_sub_ok min_epoch : 0 < min_epoch -> 0 < E -> sub_ok (make first min_epoch) [].
Proof. intros Hm HE. split; simpl; [done|lia|done|done]. Qed.
End replica.

(** ** The primary *)

Section primary.
Import Publisher.

(** The ring holds the log from [held_from] on: the last [2 ^ k] commands, but none from before the history. *)
Definition held_from (p : t) : Z := Z.max (next_seq_ p - alen (ring_ p)) (history_from_ p).

Record pub_ok (k : Z) (p : t) : Prop := {
  po_ring : alen (ring_ p) = 2 ^ k /\ 0 <= k <= 62;
  po_mask : mask_ p = 2 ^ k - 1;
  po_seq : 1 <= history_from_ p /\ history_from_ p <= pending_first_ p <= next_seq_ p;
  po_small : next_seq_ p < 9223372036854775808;
  po_staged : next_seq_ p - alen (ring_ p) <= pending_first_ p;
  po_held : forall s, held_from p <= s < next_seq_ p ->
    exists c, (ring_ p).[s mod 2 ^ k] = Some c /\ log s = Some c;
}.

Lemma slot_mod k p s : pub_ok k p -> Z.land (u64 s) (mask_ p) = s mod 2 ^ k.
Proof. intros Hp. rewrite (po_mask _ _ Hp). apply u64_land_mask. destruct (po_ring _ _ Hp). lia. Qed.

Lemma send_data_ok k p first n : pub_ok k p -> held_from p <= first -> 0 <= n -> first + n <= next_seq_ p ->
  exists d, send_data p first n = Some d /\ d_header d = header Data (epoch_ p) first n /\ alen (d_commands d) = n /\
    segment first (first + n) (d_commands d).
Proof.
  intros Hp Hf Hn Hle. unfold send_data.
  assert (exists cs, mapM (fun i => (ring_ p).[Z.land (u64 (first + i)) (mask_ p)]) (seqZ 0 n) = Some cs /\
    Forall2 (fun i c => (ring_ p).[Z.land (u64 (first + i)) (mask_ p)] = Some c /\ log (first + i) = Some c) (seqZ 0 n) cs) as (cs & Hm & Hcs).
  { assert (Forall (fun i => held_from p <= first + i < next_seq_ p) (seqZ 0 n)) as Hr.
    { apply Forall_forall. intros i Hi%elem_of_seqZ. lia. }
    induction Hr as [|i l Hi _ (cs & Hm & Hcs)]; [exists []; split; [done|constructor]|].
    destruct (po_held _ _ Hp _ Hi) as (c & Hc & Hlog). rewrite <- (slot_mod k p) in Hc by done. exists (c :: cs).
    split; [cbn [mapM]; by rewrite Hc, Hm|]. by constructor. }
  rewrite Hm. simpl. eexists. split; [done|]. split; [done|]. simpl. pose proof (Forall2_length _ _ _ Hcs) as Hl. rewrite length_seqZ in Hl.
  assert (alen cs = n) as Ha by (unfold alen; lia). split; [done|]. split; [lia|]. intros i c Hi.
  destruct (Forall2_lookup_r _ _ _ _ _ Hcs Hi) as (z & Hz & _ & Hlog). apply lookup_seqZ in Hz as [-> _]. by rewrite Z.add_0_l in Hlog.
Qed.

Lemma data_genuine E d first n : d_header d = header Data E first n -> 0 <= first -> first + n < 18446744073709551616 ->
  segment first (first + n) (d_commands d) -> genuine E d.
Proof. intros Hh H0 Hb Hs _ _ _ _. rewrite Hh. done. Qed.

Lemma control_genuine E h : h_kind h <> Data -> genuine E (send_control h).
Proof. intros Hk _ _ Hd _. done. Qed.

(** The state the datagrams depend on. *)
Definition same_ring (p p' : t) : Prop :=
  ring_ p' = ring_ p /\ mask_ p' = mask_ p /\ epoch_ p' = epoch_ p /\ next_seq_ p' = next_seq_ p /\ history_from_ p' = history_from_ p.

Lemma pub_ok_same k p p' : pub_ok k p -> same_ring p p' -> pending_first_ p <= pending_first_ p' <= next_seq_ p -> pub_ok k p'.
Proof.
  intros [H1 H2 H3 H4 H5 H6] (E1 & E2 & E3 & E4 & E5) Hpd. split; rewrite ?E1, ?E2, ?E4, ?E5; try done; try lia.
  intros s Hs. apply H6. unfold held_from in *. by rewrite E1, E4, E5 in Hs.
Qed.

Lemma flush_loop_ok k lost now fuel : forall p, pub_ok k p -> next_seq_ p - pending_first_ p < Z.of_nat fuel ->
  exists p' out, flush_loop fuel lost now p = Some (p', out) /\ same_ring p p' /\ pub_ok k p' /\
    pending_first_ p' = next_seq_ p /\ fenced_by_ p' = fenced_by_ p /\ Forall (genuine (epoch_ p)) out.
Proof.
  induction fuel as [|fuel IH]; intros p Hp Hf; [destruct (po_seq _ _ Hp); lia|]. cbn [flush_loop].
  pose proof Hp as [Hring Hmask Hseq Hsmall Hst Hheld]. destruct (Z.ltb_spec (pending_first_ p) (next_seq_ p)) as [Hlt|Hge].
  - unfold kPerPacket. set (n := Z.min 25 (next_seq_ p - pending_first_ p)). assert (1 <= n <= 25 /\ pending_first_ p + n <= next_seq_ p) as [Hn Hle] by lia.
    rewrite (u16_small n) by (unfold in_u16; lia).
    destruct (send_data_ok k p (pending_first_ p) n Hp) as (d & Hd & Hh & _ & Hseg); [unfold held_from; lia|lia|lia|].
    assert (genuine (epoch_ p) d) as Hg by (eapply data_genuine; [done|lia|lia|done]).
    rewrite (u64_small (pending_first_ p + n)) by (unfold in_u64; lia).
    assert (forall st, exists p' out, flush_loop fuel lost now (set_sent p (pending_first_ p + n) now st) = Some (p', out) /\
      same_ring p p' /\ pub_ok k p' /\ pending_first_ p' = next_seq_ p /\ fenced_by_ p' = fenced_by_ p /\ Forall (genuine (epoch_ p)) out) as Hrec.
    { intros st. destruct (IH (set_sent p (pending_first_ p + n) now st)) as (p' & out & -> & Hs & Hok & ? & ? & ?); [|simpl; lia|].
      - apply (pub_ok_same k p); [done|done|simpl; lia].
      - exists p', out. done. }
    destruct (lost (pending_first_ p)); [|rewrite Hd]; cbn [mbind option_bind].
    + match goal with |- context [set_sent p _ now ?st] => destruct (Hrec st) as (p' & out & -> & ?) end. exists p', out. done.
    + match goal with |- context [set_sent p _ now ?st] => destruct (Hrec st) as (p' & out & -> & H1 & H2 & H3 & H4 & H5) end.
      exists p', (d :: out). split_and!; try done. by constructor.
  - exists p, []. split_and!; try done. lia.
Qed.

Lemma flush_ok k lost now p : pub_ok k p -> exists p' out, flush lost now p = Some (p', out) /\ same_ring p p' /\ pub_ok k p' /\
  pending_first_ p' = next_seq_ p /\ fenced_by_ p' = fenced_by_ p /\ Forall (genuine (epoch_ p)) out.
Proof. intros Hp. apply flush_loop_ok; [done|]. destruct (po_seq _ _ Hp). lia. Qed.

(** Datagrams that carry the log from [s] to [e], one after the other. *)
Inductive chunks (E e : Z) : Z -> list Datagram -> Prop :=
  | chunks_done s : e <= s -> chunks E e s []
  | chunks_more s n d ds : 0 <= s -> 1 <= n -> s + n <= e -> d_header d = header Data E s n -> alen (d_commands d) = n ->
      segment s (s + n) (d_commands d) -> chunks E e (s + n) ds -> chunks E e s (d :: ds).

Lemma chunks_genuine E e s ds : e < 18446744073709551616 -> chunks E e s ds -> Forall (genuine E) ds.
Proof. intros He. induction 1 as [|s n d ds H0 Hn Hle Hh Ha Hs _ IH]; constructor; [|done]. eapply data_genuine; [done|lia|lia|done]. Qed.

Lemma retransmit_loop_ok k fuel : forall p s e, pub_ok k p -> held_from p <= s -> e <= next_seq_ p -> Z.max 0 (e - s) < Z.of_nat fuel ->
  exists p' out, retransmit_loop fuel p s e = Some (p', out) /\ same_ring p p' /\ pub_ok k p' /\
    acked_ p' = acked_ p /\ fenced_by_ p' = fenced_by_ p /\ chunks (epoch_ p) e s out.
Proof.
  induction fuel as [|fuel IH]; intros p s e Hp Hs He Hf; [lia|]. cbn [retransmit_loop].
  pose proof Hp as [Hring Hmask Hseq Hsmall Hst Hheld]. destruct (Z.ltb_spec s e) as [Hlt|Hge].
  - unfold kPerPacket. set (n := Z.min 25 (e - s)). assert (1 <= n <= 25 /\ s + n <= e) as [Hn Hle] by lia.
    assert (0 <= s) as H0 by (unfold held_from in Hs; lia).
    rewrite (u16_small n) by (unfold in_u16; lia). destruct (send_data_ok k p s n Hp) as (d & -> & Hh & Ha & Hseg); [done|lia|lia|].
    cbn [mbind option_bind]. rewrite (u64_small (s + 25)) by (unfold in_u64; lia).
    match goal with |- context [set_stats p ?st] => destruct (IH (set_stats p st) (s + 25) e) as (p' & out & -> & Hsm & Hok & ? & ? & Hc) end;
      [apply (pub_ok_same k p); [done|done|simpl; lia]|unfold held_from in *; simpl; lia|done|lia|].
    exists p', (d :: out). split_and!; try done. apply chunks_more with n; [lia..|done|done|done|].
    destruct (Z.le_gt_cases e (s + 25)) as [Hend|Hmore]; [|by replace (s + n) with (s + 25) by lia].
    inversion Hc; subst; [|lia]. constructor. lia.
  - exists p, []. split_and!; try done. by constructor.
Qed.

Lemma on_control_ok k p d : pub_ok k p -> 0 <= h_first_seq (d_header d) ->
  exists p' out, on_control p d = Some (p', out) /\ same_ring p p' /\ pub_ok k p' /\ fenced_by_ p' = fenced_by_ p /\
    Forall (genuine (epoch_ p)) out.
Proof.
  intros Hp H0. unfold on_control. assert (same_ring p p) as Hsame by done. destruct (_ || _); [by exists p, []|].
  pose proof (po_seq _ _ Hp) as Hseq. pose proof (po_small _ _ Hp).
  destruct (h_kind (d_header d)); try by exists p, [].
  - set (p1 := set_stats p _). assert (pub_ok k p1) as Hp1 by (apply (pub_ok_same k p); [done|done|simpl; lia]).
    cbn zeta. simpl alen. simpl next_seq_. simpl history_from_. destruct (Z.ltb_spec (h_first_seq (d_header d))
      (Z.max (if alen (ring_ p) <? next_seq_ p then next_seq_ p - alen (ring_ p) else 1) (history_from_ p))) as [|Hge].
    + eexists _, _. split; [done|]. split_and!; try done; [by apply (pub_ok_same k p1); [done|done|simpl; lia]|].
      apply Forall_singleton, control_genuine. done.
    + destruct (retransmit_loop_ok k (S (Z.to_nat (Z.min (u64 (h_first_seq (d_header d) + h_count (d_header d))) (next_seq_ p) - h_first_seq (d_header d))))
        p1 (h_first_seq (d_header d)) (Z.min (u64 (h_first_seq (d_header d) + h_count (d_header d))) (next_seq_ p)) Hp1)
        as (p' & out & -> & Hs & Hok & _ & ? & Hc); [|simpl; lia|lia|].
      { unfold held_from. simpl. destruct (Z.ltb_spec (alen (ring_ p)) (next_seq_ p)); lia. }
      exists p', out. split_and!; try done. eapply chunks_genuine; [|exact Hc]. lia.
  - eexists _, _. split; [done|]. split_and!; try done. by apply (pub_ok_same k p); [done|done|simpl; lia].
Qed.

Lemma publish_ok k p c p' : pub_ok k p -> publish p c = Some p' -> next_seq_ p - pending_first_ p < alen (ring_ p) ->
  next_seq_ p + 1 < 9223372036854775808 -> log (next_seq_ p) = Some c ->
  pub_ok k p' /\ next_seq_ p' = next_seq_ p + 1 /\ epoch_ p' = epoch_ p /\ pending_first_ p' = pending_first_ p /\
  alen (ring_ p') = alen (ring_ p) /\ fenced_by_ p' = fenced_by_ p.
Proof.
  intros Hp Hpub Hroom Hsmall Hlog. unfold publish in Hpub. destruct (Z.eqb_spec (c_seq c) (next_seq_ p)) as [Hc|]; [|done]. simpl in Hpub.
  inv_bind. rename x into ring. pose proof Hp as [[Hr Hk] Hmask Hseq Hsm Hst Hheld]. pose proof (alen_aset _ _ _ _ H) as Hl.
  rewrite Hc, <- (u64_small (next_seq_ p)), (slot_mod k p) in H by (done || unfold in_u64; lia).
  simpl. rewrite u64_small by (unfold in_u64; lia). split; [|done]. split; simpl; rewrite ?Hl; try done; try lia.
  intros s Hs. unfold held_from in Hs. simpl in Hs. rewrite Hl in Hs.
  rewrite (aget_aset _ _ _ _ _ H). destruct (Z.eq_dec s (next_seq_ p)) as [->|Hne]; [rewrite Z.eqb_refl; by exists c|].
  rewrite (proj2 (Z.eqb_neq _ _)); [apply Hheld; unfold held_from; lia|]. apply not_eq_sym, mod_ne. lia.
Qed.

(** ** The history a primary starts with *)

Definition numbered (a : Z) (hs : list Command) : Prop := forall i c, hs !! i = Some c -> c_seq c = a + Z.of_nat i.

Lemma numbered_app a l l' : numbered a l -> numbered (a + alen l) l' -> numbered a (l ++ l').
Proof.
  intros Hl Hl' i c Hi. apply lookup_app_Some in Hi as [Hi|[Hge Hi]]; [by apply Hl|]. rewrite (Hl' _ _ Hi). unfold alen. lia.
Qed.

Lemma seed_step_ok k a next p c hs : 0 <= k <= 62 -> 1 <= a -> a + alen hs < next -> next < 9223372036854775808 ->
  alen (ring_ p) = 2 ^ k -> mask_ p = 2 ^ k - 1 -> next_seq_ p = next -> c_seq c = a + alen hs ->
  (forall s, Z.max a (a + alen hs - 2 ^ k) <= s < a + alen hs -> (ring_ p).[s mod 2 ^ k] = hs !! Z.to_nat (s - a)) ->
  exists ring, seed_history p c = Some (set_ring p ring next (Z.min (history_from_ p) (c_seq c))) /\ alen ring = 2 ^ k /\
    (forall s, Z.max a (a + alen hs + 1 - 2 ^ k) <= s < a + alen hs + 1 -> ring.[s mod 2 ^ k] = (hs ++ [c]) !! Z.to_nat (s - a)).
Proof.
  intros Hk Ha Hlt Hb Hl Hm Hn Hc Hheld. unfold seed_history. rewrite Hn, (proj2 (Z.leb_gt next (c_seq c))) by lia. pose proof (alen_nonneg hs).
  assert (0 < 2 ^ k) by (apply Z.pow_pos_nonneg; lia).
  assert (Z.land (c_seq c) (mask_ p) = (a + alen hs) mod 2 ^ k) as ->.
  { rewrite Hc, Hm, <- (u64_small (a + alen hs)) by (unfold in_u64; lia). rewrite u64_land_mask by lia. by rewrite u64_small by (unfold in_u64; lia). }
  destruct (aset_is_Some (ring_ p) ((a + alen hs) mod 2 ^ k) c) as (ring & Hr); [rewrite Hl; apply Z.mod_pos_bound; lia|].
  rewrite Hr. simpl. exists ring. split; [done|]. split; [by rewrite (alen_aset _ _ _ _ Hr)|]. intros s Hs. rewrite (aget_aset _ _ _ _ _ Hr).
  destruct (Z.eq_dec s (a + alen hs)) as [->|Hne].
  - rewrite Z.eqb_refl. replace (Z.to_nat (a + alen hs - a)) with (length hs + 0)%nat by (unfold alen; lia). by rewrite lookup_app_r, Nat.add_comm, Nat.add_sub by lia.
  - rewrite (proj2 (Z.eqb_neq _ _)) by (apply not_eq_sym, mod_ne; lia). rewrite Hheld by lia. rewrite lookup_app_l; [done|unfold alen in *; lia].
Qed.

Lemma seed_ok k a E hs l : 0 <= k <= 62 -> 1 <= a -> a + alen hs < 9223372036854775808 -> numbered a hs ->
  (forall i c, (hs ++ l) !! i = Some c -> log (a + Z.of_nat i) = Some c) ->
  exists p, SeqStream.primary k E (a + alen hs) hs = Some p /\ pub_ok k p /\ next_seq_ p = a + alen hs /\ epoch_ p = E.
Proof.
  intros Hk Ha Hb Hnum Hlog. set (next := a + alen hs) in *. assert (0 < 2 ^ k) as Hpos by (apply Z.pow_pos_nonneg; lia).
  assert (2 ^ k <= 2 ^ 62) as Hle by (apply Z.pow_le_mono_r; lia). assert (alen (ring_ (make k next E)) = 2 ^ k) as Hlen.
  { simpl. rewrite Z.shiftl_1_l. apply alen_amake. lia. }
  assert (forall hs1 hs2, hs = hs1 ++ hs2 -> exists p, pub_seed (make k next E) hs1 = Some p /\ alen (ring_ p) = 2 ^ k /\ mask_ p = 2 ^ k - 1 /\
    next_seq_ p = next /\ pending_first_ p = next /\ epoch_ p = E /\ history_from_ p = (match hs1 with [] => next | _ => a end) /\
    (forall s, Z.max a (a + alen hs1 - 2 ^ k) <= s < a + alen hs1 -> (ring_ p).[s mod 2 ^ k] = hs1 !! Z.to_nat (s - a))) as Hseed.
  { intros hs1. induction hs1 as [|c hs1 IH] using rev_ind; intros hs2 Heq.
    - exists (make k next E). split_and!; try done; [|unfold alen; simpl; lia].
      simpl. rewrite Z.shiftl_1_l, u64_small; [done|unfold in_u64; lia].
    - destruct (IH (c :: hs2)) as (p & Hp & H1 & H2 & H3 & H4 & H5 & H6 & H7); [by rewrite Heq, <- app_assoc|].
      assert (c_seq c = a + alen hs1) as Hc by (apply (Hnum (length hs1)); rewrite Heq, lookup_app_l, lookup_app_r, Nat.sub_diag by (rewrite ?length_app; simpl; lia); done).
      assert (next = a + alen hs1 + 1 + alen hs2) as Hnx by (unfold next, alen; rewrite Heq, !length_app; simpl; lia). pose proof (alen_nonneg hs2).
      destruct (seed_step_ok k a next p c hs1 Hk Ha ltac:(lia) Hb H1 H2 H3 Hc H7) as (ring & Hs & Hl & Hr).
      exists (set_ring p ring next (Z.min (history_from_ p) (c_seq c))). unfold pub_seed in *. rewrite foldl_app, Hp. simpl. split; [done|].
      pose proof (alen_nonneg hs1). split_and!; try done.
      + rewrite H6, Hc. destruct hs1; simpl; [unfold alen in *; simpl in *; lia|lia].
      + intros s Hss. apply Hr. unfold alen in *. rewrite length_app in Hss. simpl in Hss. lia. }
  destruct (Hseed hs [] ltac:(by rewrite app_nil_r)) as (p & Hp & H1 & H2 & H3 & H4 & H5 & H6 & H7). exists p. split_and!; try done.
  pose proof (alen_nonneg hs). assert (1 <= history_from_ p <= next) by (rewrite H6; destruct hs; lia).
  split; try done; try lia. intros s Hs. unfold held_from in Hs. rewrite H1, H3 in Hs.
  assert (a <= s) by (rewrite H6 in Hs; destruct hs; [|lia]; unfold next, alen in *; simpl in *; lia).
  rewrite H7 by lia. destruct (lookup_lt_is_Some_2 hs (Z.to_nat (s - a))) as [c Hc]; [unfold next, alen in *; lia|]. exists c. split; [done|].
  rewrite <- (Hlog (Z.to_nat (s - a)) c); [f_equal; lia|]. by apply lookup_app_l_Some.
Qed.

(** ** Runs of the primary *)

Lemma pub_step_ok k p o p' out : pub_ok k p -> next_seq_ p + 1 < 9223372036854775808 -> paced p [o] = true ->
  (forall c, o = Publish c -> log (next_seq_ p) = Some c) -> pub_step p o = Some (p', out) ->
  pub_ok k p' /\ next_seq_ p' = next_seq_ p + alen (published [o]) /\ epoch_ p' = epoch_ p /\ Forall (genuine (epoch_ p)) out.
Proof.
  intros Hp Hb Hpace Hlog Hs. pose proof (po_seq _ _ Hp) as Hseq. simpl in Hpace. apply andb_prop in Hpace as [Hpace _].
  unfold alen. destruct o as [c|lost now|lost now iv|lost now|d|d]; simpl in Hs |- *.
  - apply Z.ltb_lt in Hpace. destruct (publish p c) as [p1|] eqn:E1; [|done]. injection Hs as <- <-.
    destruct (publish_ok k p c _ Hp E1 Hpace Hb (Hlog c eq_refl)) as (? & ? & ? & _). done.
  - destruct (flush_ok k lost now p Hp) as (p1 & o1 & E1 & (_ & _ & He & Hn & _) & Hok & _ & _ & Hg).
    rewrite E1 in Hs. injection Hs as <- <-. split_and!; [done|lia|done|done].
  - unfold heartbeat_if_idle in Hs. destruct (_ || _); [injection Hs as <- <-; split_and!; [done|lia|done|constructor]|].
    destruct (flush_ok k lost now p Hp) as (p1 & o1 & E1 & (_ & _ & He & Hn & _) & Hok & Hpd & _ & Hg).
    rewrite E1 in Hs. injection Hs as <- <-. pose proof (po_seq _ _ Hok). split_and!; simpl; [|lia|done|].
    + by apply (pub_ok_same k p1); [done|done|simpl; lia].
    + apply Forall_app. split; [done|]. by apply Forall_singleton, control_genuine.
  - unfold end_ in Hs. destruct (fenced p); [injection Hs as <- <-; split_and!; [done|lia|done|constructor]|].
    destruct (flush_ok k lost now p Hp) as (p1 & o1 & E1 & (_ & _ & He & Hn & _) & Hok & _ & _ & Hg).
    rewrite E1 in Hs. injection Hs as <- <-. split_and!; [done|lia|done|]. apply Forall_app. split; [done|].
    by repeat (apply Forall_cons; split; [by apply control_genuine|]).
  - injection Hs as <- <-. assert (same_ring p (on_group p d) /\ pending_first_ (on_group p d) = pending_first_ p) as [Hsm Hpd].
    { unfold on_group. by destruct (_ && _). }
    pose proof Hsm as (_ & _ & ? & ? & _). split_and!; [|lia|done|constructor]. apply (pub_ok_same k p); [done|done|lia].
  - apply Z.leb_le in Hpace. destruct (on_control_ok k p d Hp Hpace) as (p1 & o1 & E1 & (_ & _ & He & Hn & _) & Hok & _ & Hg).
    rewrite E1 in Hs. injection Hs as <- <-. split_and!; [done|lia|done|done].
Qed.

Lemma publish_seq p c p' out : pub_step p (Publish c) = Some (p', out) -> c_seq c = next_seq_ p.
Proof. simpl. unfold publish. destruct (Z.eqb_spec (c_seq c) (next_seq_ p)); done. Qed.

Lemma pub_run_ok k ops : forall p p' out, pub_ok k p -> next_seq_ p + alen ops < 9223372036854775808 -> paced p ops = true ->
  (forall i c, published ops !! i = Some c -> log (next_seq_ p + Z.of_nat i) = Some c) -> pub_run p ops = Some (p', out) ->
  pub_ok k p' /\ next_seq_ p' = next_seq_ p + alen (published ops) /\ epoch_ p' = epoch_ p /\ Forall (genuine (epoch_ p)) out /\
  numbered (next_seq_ p) (published ops).
Proof.
  induction ops as [|o ops IH]; intros p p' out Hp Hb Hpace Hlog Hr; cbn [pub_run] in Hr.
  - injection Hr as <- <-. split_and!; [done|unfold alen; simpl; lia|done|constructor|by intros i].
  - destruct (pub_step p o) as [[p1 o1]|] eqn:H; [|done]. cbn [mbind option_bind] in Hr.
    destruct (pub_run p1 ops) as [[p2 o2]|] eqn:H2; [|done]. injection Hr as <- <-.
    cbn [paced] in Hpace. rewrite H in Hpace. apply andb_prop in Hpace as [Hhd Htl].
    assert (published (o :: ops) = published [o] ++ published ops) as Happ by (by destruct o).
    assert (alen (o :: ops) = alen ops + 1) as Hlen by (unfold alen; simpl; lia). pose proof (alen_nonneg ops).
    destruct (pub_step_ok k p o p1 o1 Hp) as (Hp1 & Hn1 & He1 & Hg1); [lia| | |done|].
    { cbn [paced]. rewrite H, Hhd. done. }
    { intros c ->. specialize (Hlog 0%nat c). rewrite Z.add_0_r in Hlog. by apply Hlog. }
    assert (alen (published [o]) <= 1) by (by destruct o).
    destruct (IH p1 p2 o2 Hp1) as (Hp2 & Hn2 & He2 & Hg2 & Hu2); [lia|done| |done|].
    { intros i c Hi. specialize (Hlog (length (published [o]) + i)%nat c). rewrite Happ, lookup_app_r, Nat.add_comm, Nat.add_sub in Hlog by lia.
      rewrite Hn1. rewrite <- Hlog by done. f_equal. unfold alen. lia. }
    rewrite Happ. split_and!; [done| |congruence|apply Forall_app; split; [done|congruence]|].
    { unfold alen in *. rewrite length_app. lia. }
    apply numbered_app; [|by rewrite Hn1 in Hu2]. intros i c Hi. destruct o as [c0| | | | |]; try done. destruct i; [|done].
    injection Hi as ->. rewrite Z.add_0_r. by apply (publish_seq p c p1 o1).
Qed.

(** ** A request and its answer *)

Lemma on_control_answer k p x n : pub_ok k p -> held_from p <= x -> 0 <= n -> x + n < 18446744073709551616 -> fenced p = false ->
  exists p' answer, on_control p (mkDatagram (header Retransmit (epoch_ p) x n) []) = Some (p', answer) /\
    chunks (epoch_ p) (Z.min (x + n) (next_seq_ p)) x answer.
Proof.
  intros Hp Hx Hn Hb Hfe. unfold on_control. rewrite Hfe. cbn [d_header h_magic h_epoch h_kind h_first_seq h_count header].
  rewrite !Z.eqb_refl. cbn [negb orb]. pose proof (po_seq _ _ Hp) as Hseq. pose proof (po_small _ _ Hp).
  set (p1 := set_stats p _). assert (pub_ok k p1) as Hp1 by (apply (pub_ok_same k p); [done|done|simpl; lia]).
  cbn zeta. simpl alen. simpl next_seq_. simpl history_from_. unfold held_from in Hx.
  rewrite (proj2 (Z.ltb_ge _ _)) by (case_match; lia). rewrite u64_small by (unfold in_u64; lia).
  match goal with |- context [retransmit_loop ?f p1 x ?e] => destruct (retransmit_loop_ok k f p1 x e Hp1) as (p' & out & -> & _ & _ & _ & _ & Hc) end;
    [unfold held_from; simpl; lia|simpl; lia|lia|]. by exists p', out.
Qed.

Lemma chunks_drain E first e n0 ds : 0 < E -> chunks E e n0 ds -> forall now s out s' out', sub_ok E first s out -> Subscriber.epoch_ s = E ->
  0 <= first < 18446744073709551616 -> e < 18446744073709551616 -> n0 <= Subscriber.expected_ s ->
  Subscriber.drain s (map (pair now) ds) = (s', out') -> e <= Subscriber.expected_ s'.
Proof.
  intros HE. induction 1 as [n0 He|n0 n d ds H0 Hn Hle Hh Ha Hseg Hc IH]; intros now s out s' out' Hs HsE Hf Hb Hge Hd; simpl in Hd.
  - injection Hd as <- <-. lia.
  - destruct (Subscriber.on_datagram s now d) as [s1 o1] eqn:E1. destruct (Subscriber.drain s1 _) as [s2 o2] eqn:E2. injection Hd as <- <-.
    assert (genuine E d) as Hg by (eapply data_genuine; [done|lia|lia|done]).
    destruct (on_datagram_ok E first _ _ _ _ _ _ Hf HE Hs Hg E1) as (Hs1 & Hk & _).
    eapply IH; [exact Hs1|rewrite Hk; lia|done|done| |exact E2].
    unfold Subscriber.on_datagram in E1. rewrite Hh in E1. cbn -[Subscriber.on_data] in E1. rewrite HsE, !Z.ltb_irrefl in E1.
    pose proof (so_floor _ _ _ _ Hs ltac:(lia)) as Hfl. rewrite (proj2 (Z.ltb_ge E (Subscriber.min_epoch_ s))), (proj2 (Z.eqb_neq E 0)) in E1 by lia.
    change (bool_decide (Data = Ack) || bool_decide (Data = Retransmit)) with false in E1. cbn -[Subscriber.on_data] in E1.
    rewrite ?Z.ltb_irrefl in E1.
    destruct (so_following _ _ _ _ Hs HsE) as [G1 G2 G3].
    match type of E1 with Subscriber.on_data ?x _ _ _ = _ => assert (following first x out) as Hf1 by (by split) end.
    destruct (on_data_ok first _ n0 n _ out _ _ Hf1 ltac:(intros; split_and!; [lia|lia|done]) E1) as (_ & _ & _ & Hx). apply Hx; [done|]. simpl. lia.
Qed.
End primary.
End log.
End StreamLaws.

(** ** Replication *)

Module Replication.
Import SeqStream StreamLaws.

(** The sequencer's commands from number [a] on, as a log. *)
Definition log_of (a : Z) (cs : list Command) (s : Z) : option Command := if a <=? s then cs !! Z.to_nat (s - a) else None.

Lemma log_of_at a cs i c : cs !! i = Some c -> log_of a cs (a + Z.of_nat i) = Some c.
Proof. intros Hi. unfold log_of. rewrite (proj2 (Z.leb_le _ _)) by lia. rewrite <- Hi. f_equal. lia. Qed.

(** A primary that loads [hs] and makes the calls [ops], and what a replica may receive on its network: anything that
    primary sent, any number of times and in any order, and anything of another epoch. *)
Record running (k a E : Z) (hs : list Command) (ops : list Op) (p : Publisher.t) (sent : list Datagram) : Prop := {
  ru_bounds : 0 <= k <= 62 /\ 1 <= a /\ a + alen hs + alen ops < 9223372036854775808 /\ 0 < E;
  ru_numbered : numbered a hs;
  ru_run : exists p0, primary k E (a + alen hs) hs = Some p0 /\ paced p0 ops = true /\ pub_run p0 ops = Some (p, sent);
}.
Definition network (E : Z) (sent : list Datagram) (ds : list (Z * Datagram)) : Prop :=
  forall now d, (now, d) ∈ ds -> d ∈ sent \/ h_epoch (d_header d) <> E.

Lemma running_ok k a E hs ops p sent : running k a E hs ops p sent ->
  let log := log_of a (hs ++ published ops) in
  pub_ok log k p /\ Publisher.next_seq_ p = a + alen (hs ++ published ops) /\ Publisher.epoch_ p = E /\ Forall (genuine log E) sent /\
  numbered a (hs ++ published ops).
Proof.
  intros [(Hk & Ha & Hb & HE) Hnum (p0 & Hp0 & Hpace & Hrun)] log. pose proof (alen_nonneg ops).
  destruct (seed_ok log k a E hs (published ops) Hk Ha ltac:(lia) Hnum (log_of_at a _)) as (p0' & Hp0' & Hok & Hn & Hep).
  rewrite Hp0 in Hp0'. injection Hp0' as <-.
  destruct (pub_run_ok log k ops p0 p sent Hok) as (Hok' & Hn' & He' & Hg & Hu); [lia|done| |done|].
  - intros i c Hi. rewrite Hn. replace (a + alen hs + Z.of_nat i) with (a + Z.of_nat (length hs + i)) by (unfold alen; lia).
    apply log_of_at. rewrite lookup_app_r, Nat.add_comm, Nat.add_sub by lia. done.
  - rewrite Hep in Hg. split_and!; [done| |congruence|done|by apply numbered_app; [|rewrite <- Hn]].
    rewrite Hn', Hn. unfold alen. rewrite length_app. lia.
Qed.

Lemma received_ok k a E hs ops p sent first min_epoch ds s out : running k a E hs ops p sent -> network E sent ds ->
  0 <= first < 18446744073709551616 -> 0 < min_epoch -> Subscriber.drain (Subscriber.make first min_epoch) ds = (s, out) ->
  sub_ok (log_of a (hs ++ published ops)) E first s out.
Proof.
  intros Hr Hnet Hf Hm Hd. destruct (running_ok _ _ _ _ _ _ _ Hr) as (_ & _ & _ & Hg & _). destruct (ru_bounds _ _ _ _ _ _ _ Hr) as (_ & _ & _ & HE).
  apply (drain_ok _ E first ds Hf HE _ [] _ _ (make_sub_ok _ E first min_epoch Hm HE)); [|done]. apply Forall_forall. intros [now d] Hin.
  destruct (Hnet _ _ Hin) as [Hs|Hne]; [by eapply Forall_forall in Hg|]. intros _ Heq. done.
Qed.

(** C20: in-order replication: whatever the network loses, duplicates or reorders, and whatever other primaries send, a
    replica that follows the primary's epoch has delivered exactly the sequencer's commands from the one it started at
    up to the one it expects next, each once and in sequence order. *)
Theorem replication_in_order k a E hs ops p sent first min_epoch ds s out (Hrun : running k a E hs ops p sent)
  (Hnet : network E sent ds) (Hfirst : 0 <= first < 18446744073709551616) (Hmin : 0 < min_epoch)
  (Hrecv : Subscriber.drain (Subscriber.make first min_epoch) ds = (s, out)) (Hepoch : Subscriber.epoch_ s = E) :
  Subscriber.expected s = first + alen out /\
  forall i c, out !! i = Some c -> log_of a (hs ++ published ops) (first + Z.of_nat i) = Some c /\ c_seq c = first + Z.of_nat i.
Proof.
  pose proof (received_ok _ _ _ _ _ _ _ _ _ _ _ _ Hrun Hnet Hfirst Hmin Hrecv) as Hs.
  destruct (running_ok _ _ _ _ _ _ _ Hrun) as (_ & _ & _ & _ & Hu).
  destruct (fo_segment _ _ _ _ (so_following _ _ _ _ _ Hs Hepoch)) as [He Hseg]. split; [done|]. intros i c Hi. specialize (Hseg _ _ Hi).
  split; [done|]. unfold log_of in Hseg. destruct (Z.leb_spec a (first + Z.of_nat i)); [|done]. rewrite (Hu _ _ Hseg). lia.
Qed.


(** A primary that took over at command 5 with two commands of history, sends 5 and 7 in datagrams of their own, and
    loses the one with 6; the replica starts at 5, gets 7 first, then a command of an old primary, then 5 twice. *)
Definition demo_cmd (seq : Z) : Command := mkCommand seq 100 seq 0 10 1 0 NewOrder Buy Limit Day 0.
Definition demo_ops : list Op :=
  [Publish (demo_cmd 5); Flush (fun _ => false) 1; Publish (demo_cmd 6); Flush (fun _ => true) 2; Publish (demo_cmd 7);
   Flush (fun _ => false) 3].
Definition demo_primary : option (Publisher.t * list Datagram) := p ← primary 3 9 5 [demo_cmd 3; demo_cmd 4]; pub_run p demo_ops.
Definition demo_data (E seq : Z) : Datagram := mkDatagram (header Data E seq 1) [demo_cmd seq].
Definition demo_net : list (Z * Datagram) :=
  [(10, demo_data 9 7); (11, mkDatagram (header Data 8 5 1) [demo_cmd 77]); (12, demo_data 9 5); (13, demo_data 9 5)].

Lemma demo_running : exists p, demo_primary = Some (p, [demo_data 9 5; demo_data 9 7]) /\
  running 3 3 9 [demo_cmd 3; demo_cmd 4] demo_ops p [demo_data 9 5; demo_data 9 7] /\
  held_from p <= 6 /\ Publisher.fenced p = false.
Proof.
  eexists. split; [vm_compute; reflexivity|]. split; [|split; [vm_compute; discriminate|reflexivity]]. split.
  - vm_compute. intuition discriminate.
  - intros [|[|i]] c [= <-]; reflexivity.
  - eexists. split; [vm_compute; reflexivity|]. split; vm_compute; reflexivity.
Qed.

Lemma demo_network : network 9 [demo_data 9 5; demo_data 9 7] demo_net.
Proof.
  intros now d H. unfold demo_net in H. repeat (apply elem_of_cons in H as [[= -> ->]|H]; [try (right; vm_compute; discriminate); left; set_solver|]).
  by apply elem_of_nil in H.
Qed.

Lemma replication_in_order_witness : exists s, Subscriber.drain (Subscriber.make 5 1) demo_net = (s, [demo_cmd 5]) /\ Subscriber.expected s = 6.
Proof.
  destruct demo_running as (p & _ & Hrun & _). destruct (Subscriber.drain (Subscriber.make 5 1) demo_net) as [s out] eqn:E.
  assert (Subscriber.epoch_ s = 9 /\ out = [demo_cmd 5]) as [H1 ->] by (vm_compute in E; injection E as <- <-; split; reflexivity).
  exists s. split; [reflexivity|].
  destruct (replication_in_order 3 3 9 _ demo_ops p _ 5 1 demo_net s _ Hrun demo_network ltac:(lia) ltac:(lia) E H1) as [H _]. exact H.
Defined.

End Replication.
