(* ===== verification/OrdMap.v ===== *)
(** * Ordered maps

    A [std::map] with integer keys, as the association list its iterators visit: strictly increasing keys. The
    operations are those the components call; on ordered maps, equal look-ups mean equal maps. *)
From Stdlib Require Import Sorted.
From S2P Require Import Prelude.

Module OrdMap.
Section map.
Context {V : Type}.
Implicit Types m : list (Z * V).

Fixpoint zm_find m (k : Z) : option V :=
  match m with [] => None | (k0, v0) :: m' => if k =? k0 then Some v0 else zm_find m' k end.

(** [m[k] = v] *)
Fixpoint zm_put m (k : Z) (v : V) : list (Z * V) :=
  match m with
  | [] => [(k, v)]
  | (k0, v0) :: m' => if k <? k0 then (k, v) :: m else if k =? k0 then (k, v) :: m' else (k0, v0) :: zm_put m' k v
  end.
Fixpoint zm_erase m (k : Z) : list (Z * V) :=
  match m with [] => [] | (k0, v0) :: m' => if k =? k0 then m' else (k0, v0) :: zm_erase m' k end.

Definition zm_ok m : Prop := StronglySorted Z.lt m.*1.

Lemma zm_ok_cons k v m : zm_ok ((k, v) :: m) <-> zm_ok m /\ forall k', is_Some (zm_find m k') -> k < k'.
Proof.
  unfold zm_ok. cbn [fmap list_fmap fst]. split.
  - intros H. apply StronglySorted_inv in H as [Hm Hall]. split; [done|]. intros k' [v' Hk']. clear Hm. induction m as [|[k0 v0] m IH]; [done|].
    cbn [zm_find fmap list_fmap fst] in *. apply Forall_cons in Hall as [H0 Hall]. destruct (Z.eqb_spec k' k0); [congruence|by apply IH].
  - intros [Hm Hlt]. constructor; [done|]. clear Hm. induction m as [|[k0 v0] m IH]; cbn [fmap list_fmap fst]; constructor.
    + apply Hlt. cbn [zm_find]. rewrite Z.eqb_refl. eauto.
    + apply IH. intros k' Hk'. apply Hlt. cbn [zm_find]. case_match; eauto.
Qed.

Lemma zm_ok_nil : zm_ok [].
Proof. constructor. Qed.

Lemma zm_find_put m k v k' : zm_find (zm_put m k v) k' = if k' =? k then Some v else zm_find m k'.
Proof.
  induction m as [|[k0 v0] m IH]; [done|]. cbn [zm_put]. destruct (Z.ltb_spec k k0) as [|H]; [done|].
  destruct (Z.eqb_spec k k0) as [->|Hne]; cbn [zm_find]; [by destruct (Z.eqb_spec k' k0)|]. rewrite IH.
  destruct (Z.eqb_spec k' k0) as [Heq|]; [|done]; subst k'. by rewrite (proj2 (Z.eqb_neq k0 k)).
Qed.

Lemma zm_put_ok m k v : zm_ok m -> zm_ok (zm_put m k v).
Proof.
  induction m as [|[k0 v0] m IH]; intros Hm; [by constructor; constructor|]. pose proof Hm as Hm0. apply zm_ok_cons in Hm as [Hm Hlt]. cbn [zm_put].
  destruct (Z.ltb_spec k k0) as [Hk|Hk]; [|destruct (Z.eqb_spec k k0) as [->|Hne]]; apply zm_ok_cons.
  - split; [done|]. intros k' Hk'. cbn [zm_find] in Hk'. destruct (Z.eqb_spec k' k0); [lia|]. apply Hlt in Hk'. lia.
  - done.
  - split; [by apply IH|]. intros k' Hk'. rewrite zm_find_put in Hk'. destruct (Z.eqb_spec k' k); [lia|by apply Hlt].
Qed.

Lemma zm_find_erase m k k' : zm_ok m -> zm_find (zm_erase m k) k' = if k' =? k then None else zm_find m k'.
Proof.
  induction m as [|[k0 v0] m IH]; intros Hm; cbn [zm_erase zm_find]; [by case_match|]. apply zm_ok_cons in Hm as [Hm Hlt].
  destruct (Z.eqb_spec k k0) as [->|Hne].
  - destruct (Z.eqb_spec k' k0) as [Heq|]; [|done]; subst k'. destruct (zm_find m k0) eqn:E; [|done]. specialize (Hlt k0 (ex_intro _ _ E)). lia.
  - cbn [zm_find]. rewrite IH by done. destruct (Z.eqb_spec k' k0) as [Heq|]; [|done]; subst k'. by rewrite (proj2 (Z.eqb_neq k0 k)).
Qed.

Lemma zm_erase_ok m k : zm_ok m -> zm_ok (zm_erase m k).
Proof.
  induction m as [|[k0 v0] m IH]; intros Hm; [done|]. apply zm_ok_cons in Hm as [Hm Hlt]. cbn [zm_erase]. case_match; [done|].
  apply zm_ok_cons. split; [by apply IH|]. intros k' Hk'. rewrite zm_find_erase in Hk' by done. case_match; [by destruct Hk'|by apply Hlt].
Qed.

Lemma zm_ext m m' : zm_ok m -> zm_ok m' -> (forall k, zm_find m k = zm_find m' k) -> m = m'.
Proof.
  revert m'. induction m as [|[k v] m IH]; intros [|[k' v'] m'] Hm Hm' Heq; [done| | |].
  - specialize (Heq k'). cbn [zm_find] in Heq. by rewrite Z.eqb_refl in Heq.
  - specialize (Heq k). cbn [zm_find] in Heq. by rewrite Z.eqb_refl in Heq.
  - apply zm_ok_cons in Hm as [Hm Hlt], Hm' as [Hm' Hlt']. assert (k = k') as <-.
    { pose proof (Heq k) as H1. pose proof (Heq k') as H2. cbn [zm_find] in H1, H2. rewrite Z.eqb_refl in H1, H2.
      destruct (Z.eqb_spec k k') as [|Hne]; [done|]. rewrite (proj2 (Z.eqb_neq k' k)) in H2 by done.
      specialize (Hlt k' ltac:(rewrite H2; eauto)). specialize (Hlt' k ltac:(rewrite <- H1; eauto)). lia. }
    assert (v = v') as <-. { specialize (Heq k). cbn [zm_find] in Heq. rewrite Z.eqb_refl in Heq. congruence. }
    f_equal. apply IH; [done..|]. intros k0. destruct (Z.eq_dec k0 k) as [->|Hne].
    + destruct (zm_find m k) eqn:E1; [specialize (Hlt k (ex_intro _ _ E1)); lia|].
      destruct (zm_find m' k) eqn:E2; [specialize (Hlt' k (ex_intro _ _ E2)); lia|done].
    + specialize (Heq k0). cbn [zm_find] in Heq. by rewrite (proj2 (Z.eqb_neq k0 k)) in Heq.
Qed.

Lemma zm_find_elem m k v : zm_ok m -> zm_find m k = Some v <-> (k, v) ∈ m.
Proof.
  induction m as [|[k0 v0] m IH]; intros Hm; [split; [done|by intros ?%elem_of_nil]|]. apply zm_ok_cons in Hm as [Hm Hlt].
  cbn [zm_find]. rewrite elem_of_cons. destruct (Z.eqb_spec k k0) as [->|Hne].
  - split; [intros [= ->]; by left|]. intros [[= ->]|Hin]; [done|]. apply IH in Hin; [|done]. specialize (Hlt k0 (ex_intro _ _ Hin)). lia.
  - rewrite IH by done. split; [by right|]. intros [[= -> ->]|]; done.
Qed.

Lemma zm_ok_filter m (P : Z * V -> Prop) `{forall x, Decision (P x)} : zm_ok m -> zm_ok (filter P m).
Proof.
  induction m as [|[k v] m IH]; intros Hm; [done|]. apply zm_ok_cons in Hm as [Hm Hlt]. rewrite filter_cons. case_decide; [|by apply IH].
  apply zm_ok_cons. split; [by apply IH|]. intros k' [v' Hk']. apply zm_find_elem in Hk'; [|by apply IH].
  apply list_elem_of_filter in Hk' as [_ Hin]. apply Hlt. exists v'. by apply zm_find_elem.
Qed.

Lemma zm_find_filter m (P : Z * V -> Prop) `{forall x, Decision (P x)} k : zm_ok m ->
  zm_find (filter P m) k = (v ← zm_find m k; if decide (P (k, v)) then Some v else None).
Proof.
  induction m as [|[k0 v0] m IH]; intros Hm; [done|]. apply zm_ok_cons in Hm as [Hm Hlt]. rewrite filter_cons. cbn [zm_find].
  destruct (Z.eqb_spec k k0) as [->|Hne]; case_decide; cbn [zm_find mbind option_bind].
  - by rewrite Z.eqb_refl, decide_True by done.
  - rewrite decide_False by done. rewrite IH by done.
    destruct (zm_find m k0) eqn:E2; [|done]. specialize (Hlt k0 (ex_intro _ _ E2)). lia.
  - rewrite (proj2 (Z.eqb_neq k k0)) by done. by apply IH.
  - by apply IH.
Qed.
End map.
End OrdMap.
