(* ===== verification/MdFeed.v ===== *)
(** * The public market-data feed (mdfeed.hpp)

    The publisher sends the levels each batch changed in numbered packets, and full snapshots; a subscriber that sees a gap
    drops its book, keeps what arrives, and rebuilds from the next snapshot. A datagram is its header and its entries; what
    a socket delivers, the clock and the fault injector are arguments. *)
From Stdlib Require Import Sorted.
From S2P Require Import Prelude Bits Common OrdMap.

Module MdFeed.
Import OrdMap.

Definition kMagic : Z := 1179473989.
Inductive Kind := Incremental | Snapshot | Heartbeat | End_.
(** [NoEntry] is the value 0 of a default entry. *)
Inductive EntryType := LevelEntry | TradeEntry | NoEntry.

Record MdHeader := mkHeader { magic : Z; kind : Kind; seq : Z; snap_seq : Z; count : Z; part : Z; parts : Z }.
Record MdEntry := mkEntry { price : Z; qty : Z; symbol : Z; side : Side; type : EntryType }.
Abbreviation MdDatagram := (MdHeader * list MdEntry)%type.

Definition kPerPacket : Z := (1472 - 32) / 24.

(** ** The digest of level-2 books, and the books of an engine *)

Module L2Digest.
Record t := mk { h_ : Z; n_ : Z }.
Definition init : t := mk 2611923443488327891 0.
Definition add (d : t) (symbol : Z) (side : Side) (px qty : Z) : t :=
  let w := [Z.lor (u64 (Z.shiftl symbol 1)) (Side_to_Z side); u64 px; qty] in
  mk (foldl (fun h x => rotl64 (u64 (Z.lxor h x * 11400714819323198485)) 29) (h_ d) w) (u64 (n_ d + 1)).
Definition value (d : t) : Z := Z.lxor (h_ d) (n_ d).
End L2Digest.

(** What the feed asks of an engine: its symbols, and the levels of each side, best first. *)
Class L2Engine (E : Type) := {
  num_symbols : E -> Z;
  for_each_level : E -> Z -> Side -> list (Z * Z);
}.

Section engine.
Context {E : Type} `{L2Engine E}.

Definition level_entries (s : Z) (sd : Side) (l : list (Z * Z)) : list MdEntry := (fun x => mkEntry x.1 x.2 s sd LevelEntry) <$> l.
(** The visits of [for_each_level] to every symbol and side. *)
Definition all_levels (e : E) : list MdEntry :=
  s ← seqZ 0 (num_symbols e); level_entries s Buy (for_each_level e s Buy) ++ level_entries s Sell (for_each_level e s Sell).
Definition digest_of (l : list MdEntry) : Z :=
  L2Digest.value (foldl (fun d x => L2Digest.add d (symbol x) (side x) (price x) (qty x)) L2Digest.init l).
Definition engine_l2_digest (e : E) : Z := digest_of (all_levels e).
End engine.

(** ** The publisher *)

Module Publisher.
Record Stats := mkStats { packets : Z; dropped : Z; snapshots : Z; levels : Z; trades : Z }.
Record t := mk { every_ : Z; since_snapshot_ : Z; seq_ : Z; last_send_ns_ : Z; staged_ : list MdEntry; stats_ : Stats }.
Definition make (snapshot_every : Z) : t := mk snapshot_every 0 0 0 [] (mkStats 0 0 0 0 0).

Definition level (p : t) (s : Z) (sd : Side) (px q : Z) : t :=
  let st := stats_ p in
  mk (every_ p) (since_snapshot_ p) (seq_ p) (last_send_ns_ p) (staged_ p ++ [mkEntry px q s sd LevelEntry])
    (mkStats (packets st) (dropped st) (snapshots st) (levels st + 1) (trades st)).
Definition trade (p : t) (s : Z) (aggressor : Side) (px q : Z) : t :=
  let st := stats_ p in
  mk (every_ p) (since_snapshot_ p) (seq_ p) (last_send_ns_ p) (staged_ p ++ [mkEntry px q s aggressor TradeEntry])
    (mkStats (packets st) (dropped st) (snapshots st) (levels st) (trades st + 1)).

Definition send (k : Kind) (sq snap prt prts : Z) (e : list MdEntry) (n : Z) : MdDatagram :=
  (mkHeader kMagic k sq snap n prt prts, take (Z.to_nat n) e).

(** The loop over the staged entries from [rest] on; [lost k] is the fault injector's decision on packet [k]. *)
Fixpoint flush_loop (fuel : nat) (lost : Z -> bool) (p : t) (rest : list MdEntry) : t * list MdDatagram :=
  match fuel, rest with
  | S fuel, _ :: _ =>
      let n := u16 (Z.min kPerPacket (alen rest)) in
      let k := u64 (seq_ p + 1) in
      let st := stats_ p in
      let drop_it := lost k in
      let st := mkStats (packets st + 1) (if drop_it then dropped st + 1 else dropped st) (snapshots st) (levels st) (trades st) in
      let p := mk (every_ p) (u64 (since_snapshot_ p + 1)) k (last_send_ns_ p) (staged_ p) st in
      let '(p, out) := flush_loop fuel lost p (drop (Z.to_nat kPerPacket) rest) in
      (p, (if drop_it then [] else [send Incremental k 0 0 1 rest n]) ++ out)
  | _, _ => (p, [])
  end.

Definition part_count (all : list MdEntry) : Z := u16 (Z.max 1 ((alen all + kPerPacket - 1) / kPerPacket)).
Definition snapshot_part (all : list MdEntry) (sq p : Z) : MdDatagram :=
  let from := p * kPerPacket in
  let n := u16 (Z.min kPerPacket (alen all - Z.min (alen all) from)) in
  send Snapshot 0 sq p (part_count all) (drop (Z.to_nat from) all) n.

Section snapshots.
Context {E : Type} `{L2Engine E}.

Definition snapshot (p : t) (e : E) : t * list MdDatagram :=
  let all := all_levels e in
  let st := stats_ p in
  (mk (every_ p) 0 (seq_ p) (last_send_ns_ p) (staged_ p) (mkStats (packets st) (dropped st) (snapshots st + 1) (levels st) (trades st)),
   snapshot_part all (seq_ p) <$> seqZ 0 (part_count all)).

Definition flush (p : t) (lost : Z -> bool) (now : Z) (e : E) : t * list MdDatagram :=
  let '(p, out) := flush_loop (length (staged_ p)) lost p (staged_ p) in
  let '(p, snap) := if negb (every_ p =? 0) && (every_ p <=? since_snapshot_ p) then snapshot p e else (p, []) in
  (mk (every_ p) (since_snapshot_ p) (seq_ p) now [] (stats_ p), out ++ snap).

Definition heartbeat_if_idle (p : t) (now interval_ns : Z) : t * list MdDatagram :=
  if u64 (now - last_send_ns_ p) <? interval_ns then (p, []) else
  (mk (every_ p) (since_snapshot_ p) (seq_ p) now (staged_ p) (stats_ p), [send Heartbeat (seq_ p) 0 0 1 [] 0]).

Definition end_ (p : t) (e : E) : t * list MdDatagram :=
  let '(p, out) := snapshot p e in
  let d := send End_ (seq_ p) (seq_ p) 0 1 [] 0 in (p, out ++ [d; d; d]).
End snapshots.
End Publisher.

(** The calls the gateway makes. *)
Section calls.
Context {E : Type} `{L2Engine E}.

Inductive MdOp :=
  | OpLevel (s : Z) (sd : Side) (px q : Z)
  | OpTrade (s : Z) (sd : Side) (px q : Z)
  | OpFlush (lost : Z -> bool) (now : Z) (e : E)
  | OpHeartbeat (now interval_ns : Z)
  | OpEnd (e : E).
Definition md_step (p : Publisher.t) (o : MdOp) : Publisher.t * list MdDatagram :=
  match o with
  | OpLevel s sd px q => (Publisher.level p s sd px q, [])
  | OpTrade s sd px q => (Publisher.trade p s sd px q, [])
  | OpFlush lost now e => Publisher.flush p lost now e
  | OpHeartbeat now interval_ns => Publisher.heartbeat_if_idle p now interval_ns
  | OpEnd e => Publisher.end_ p e
  end.
Fixpoint md_run (p : Publisher.t) (ops : list MdOp) : Publisher.t * list MdDatagram :=
  match ops with
  | [] => (p, [])
  | o :: ops => let '(p, out) := md_step p o in let '(p, outs) := md_run p ops in (p, out ++ outs)
  end.
End calls.
#[global] Arguments MdOp : clear implicits.

(** ** The subscriber *)

Module Book.
Record Stats := mkStats { incrementals : Z; gaps : Z; snapshots_used : Z; trades : Z; buffered_max : Z }.
Record Sides := mkSides { bids : list (Z * Z); asks : list (Z * Z) }.
Abbreviation Books := (list (Z * Sides)).
Record t := mk {
  synced_ : bool; ended_ : bool; end_seen_ : bool;
  seq_ : Z; end_seq_ : Z; snap_id_ : Z; snap_have_ : Z;
  books_ : Books;
  pending_ : list (Z * list MdEntry);
  snap_parts_ : list (list MdEntry);
  stats_ : Stats;
}.
Definition make : t := mk false false false 0 0 18446744073709551615 0 [] [] [] (mkStats 0 0 0 0 0).

Definition synced (b : t) : bool := synced_ b.
Definition ended (b : t) : bool := ended_ b.
Definition last_seq (b : t) : Z := seq_ b.

Definition set_synced (b : t) (sy : bool) (sq : Z) (bs : Books) (pending : list (Z * list MdEntry)) (st : Stats) : t :=
  mk sy (ended_ b) (end_seen_ b) sq (end_seq_ b) (snap_id_ b) (snap_have_ b) bs pending (snap_parts_ b) st.
Definition set_snap (b : t) (id have : Z) (prts : list (list MdEntry)) : t :=
  mk (synced_ b) (ended_ b) (end_seen_ b) (seq_ b) (end_seq_ b) id have (books_ b) (pending_ b) prts (stats_ b).
Definition set_end (b : t) (seen : bool) (sq : Z) : t :=
  mk (synced_ b) (ended_ b) seen (seq_ b) sq (snap_id_ b) (snap_have_ b) (books_ b) (pending_ b) (snap_parts_ b) (stats_ b).
(** The last statement of [on_packet] and [on_snapshot_part]. *)
Definition update_ended (b : t) : t :=
  mk (synced_ b) (end_seen_ b && synced_ b && (end_seq_ b <=? seq_ b)) (end_seen_ b) (seq_ b) (end_seq_ b) (snap_id_ b) (snap_have_ b)
    (books_ b) (pending_ b) (snap_parts_ b) (stats_ b).

Definition of_side (x : Sides) (sd : Side) : list (Z * Z) := match sd with Buy => bids x | Sell => asks x end.
Definition with_side (x : Sides) (sd : Side) (m : list (Z * Z)) : Sides :=
  match sd with Buy => mkSides m (asks x) | Sell => mkSides (bids x) m end.
(** [books_[symbol]]. *)
Definition sides_of (bs : Books) (s : Z) : Sides := default (mkSides [] []) (zm_find bs s).

(** [apply]: the books and the trades counted. *)
Definition apply_entry (a : Books * Z) (x : MdEntry) : Books * Z :=
  let '(bs, n) := a in
  match type x with
  | TradeEntry => (bs, n + 1)
  | NoEntry => (bs, n)
  | LevelEntry =>
      let z := sides_of bs (symbol x) in
      let m := of_side z (side x) in
      let m := if qty x =? 0 then zm_erase m (price x) else zm_put m (price x) (qty x) in
      (zm_put bs (symbol x) (with_side z (side x) m), n)
  end.
Definition empty_sides (z : Sides) : bool := match bids z, asks z with [], [] => true | _, _ => false end.
Definition apply (bs : Books) (entries : list MdEntry) : Books * Z :=
  let '(bs, n) := foldl apply_entry (bs, 0) entries in (filter (fun x => empty_sides x.2 = false) bs, n).

Definition digest_level (s : Z) (sd : Side) (d : L2Digest.t) (x : Z * Z) : L2Digest.t := L2Digest.add d s sd x.1 x.2.
Definition digest (b : t) : Z :=
  L2Digest.value (foldl (fun d x =>
    let d := foldl (digest_level x.1 Buy) d (reverse (bids x.2)) in
    foldl (digest_level x.1 Sell) d (asks x.2)) L2Digest.init (books_ b)).

(** The buffered packets that follow the snapshot, in order. *)
Fixpoint replay (bs : Books) (sq : Z) (st : Stats) (pending : list (Z * list MdEntry)) : Books * Z * Stats * list (Z * list MdEntry) :=
  match pending with
  | [] => (bs, sq, st, [])
  | (k, e) :: pending' =>
      if k =? u64 (sq + 1) then
        let '(bs, n) := apply bs e in
        replay bs k (mkStats (incrementals st + 1) (gaps st) (snapshots_used st) (trades st + n) (buffered_max st)) pending'
      else (bs, sq, st, pending)
  end.
Fixpoint drop_stale (sq : Z) (pending : list (Z * list MdEntry)) : list (Z * list MdEntry) :=
  match pending with [] => [] | (k, e) :: pending' => if k <=? sq then drop_stale sq pending' else pending end.

Definition lose (b : t) : t :=
  let st := stats_ b in
  set_synced b false (seq_ b) [] (pending_ b) (mkStats (incrementals st) (gaps st + 1) (snapshots_used st) (trades st) (buffered_max st)).

(** The snapshot is complete: rebuild from it. *)
Definition rebuild (b : t) (sq : Z) : t :=
  let st := stats_ b in
  let '(bs, n) := foldl (fun a prt => let '(bs, n) := apply a.1 prt in (bs, a.2 + n)) ([], 0) (snap_parts_ b) in
  let st := mkStats (incrementals st) (gaps st) (snapshots_used st + 1) (trades st + n) (buffered_max st) in
  let '(bs, sq, st, pending) := replay bs sq st (drop_stale sq (pending_ b)) in
  let b := set_synced b true sq bs pending st in
  update_ended (match pending with [] => b | _ => lose b end).

Definition on_snapshot_part (b : t) (h : MdHeader) (e : list MdEntry) : t :=
  let b := if (part h =? 0) || negb (snap_seq h =? snap_id_ b) then set_snap b (snap_seq h) 0 (amake (parts h) []) else b in
  match (snap_parts_ b).[part h] with
  | Some [] =>
      if (count h =? 0) && (1 <? parts h) then b else
      let e := match e with [] => [mkEntry 0 0 0 Buy NoEntry] | _ => e end in
      let b := set_snap b (snap_id_ b) (snap_have_ b + 1) (<[Z.to_nat (part h) := e]> (snap_parts_ b)) in
      if snap_have_ b <? alen (snap_parts_ b) then b else rebuild b (snap_seq h)
  | _ => b
  end.

Definition on_packet (b : t) (h : MdHeader) (e : list MdEntry) : t :=
  match kind h with
  | Incremental =>
      if synced_ b && (seq h <=? seq_ b) then b else
      if synced_ b && (seq h =? u64 (seq_ b + 1)) then
        let '(bs, n) := apply (books_ b) e in
        let st := stats_ b in
        set_synced b true (seq h) bs (pending_ b)
          (mkStats (incrementals st + 1) (gaps st) (snapshots_used st) (trades st + n) (buffered_max st))
      else
        let b := if synced_ b then lose b else b in
        let pending := zm_put (pending_ b) (seq h) e in
        let st := stats_ b in
        set_synced b (synced_ b) (seq_ b) (books_ b) pending
          (mkStats (incrementals st) (gaps st) (snapshots_used st) (trades st) (Z.max (buffered_max st) (alen pending)))
  | Heartbeat | End_ =>
      let b := if synced_ b && (seq_ b <? seq h) then lose b else b in
      update_ended (match kind h with End_ => set_end b true (seq h) | _ => b end)
  | Snapshot => if synced_ b then b else update_ended (on_snapshot_part b h e)
  end.

(** [poll], one datagram, and several. *)
Definition on_datagram (b : t) (d : MdDatagram) : t :=
  if negb (magic d.1 =? kMagic) || negb (alen d.2 =? count d.1) then b else on_packet b d.1 d.2.
Definition poll (b : t) (ds : list MdDatagram) : t := foldl on_datagram b ds.
End Book.
End MdFeed.
