(* ===== verification/FeedLaws.v ===== *)
(** * The market-data feed is exact

    A subscriber's books are level totals, equal when their totals are equal (FeedLaws); whatever it receives, a subscriber
    in sync holds the books the packets lead to, and these are the engine's at the end of each batch (FeedTheorems). *)
From Stdlib Require Import Sorted.
From S2P Require Import Prelude Bits Common OrdMap ReferenceBook Engine MdFeed.

(** ** Books as level totals *)

Module FeedLaws.
Import OrdMap MdFeed.

(** What a book says of one price: [None] if there is no level. *)
Definition lq (bs : Book.Books) (s : Z) (sd : Side) (px : Z) : option Z := zm_find (Book.of_side (Book.sides_of bs s) sd) px.

Definition sides_ok (z : Book.Sides) : Prop :=
  forall sd, zm_ok (Book.of_side z sd) /\ forall px q, zm_find (Book.of_side z sd) px = Some q -> q <> 0.
Definition books_weak (bs : Book.Books) : Prop := zm_ok bs /\ forall s z, zm_find bs s = Some z -> sides_ok z.
Definition books_ok (bs : Book.Books) : Prop := books_weak bs /\ forall s z, zm_find bs s = Some z -> Book.empty_sides z = false.

Lemma books_ok_nil : books_ok [].
Proof. split; [split; [apply zm_ok_nil|done]|done]. Qed.

Lemma sides_of_ok bs s : books_weak bs -> sides_ok (Book.sides_of bs s).
Proof.
  intros [_ H]. unfold Book.sides_of. destruct (zm_find bs s) eqn:E; simpl; [by eapply H|].
  intros [|]; (split; [apply zm_ok_nil|done]).
Qed.

Lemma of_with_side z sd m sd' : Book.of_side (Book.with_side z sd m) sd' = if decide (sd' = sd) then m else Book.of_side z sd'.
Proof. by destruct sd, sd'. Qed.

Lemma empty_sides_true z : Book.empty_sides z = true <-> forall sd px, zm_find (Book.of_side z sd) px = None.
Proof.
  split; [destruct z as [[|] [|]]; try done; by intros _ [|] px|]. intros H. destruct z as [[|[p q] b] [|[p' q'] a]]; [done| | |].
  - specialize (H Sell p'). simpl in H. by rewrite Z.eqb_refl in H.
  - specialize (H Buy p). simpl in H. by rewrite Z.eqb_refl in H.
  - specialize (H Buy p). simpl in H. by rewrite Z.eqb_refl in H.
Qed.

Lemma books_ext bs bs' : books_ok bs -> books_ok bs' -> (forall s sd px, lq bs s sd px = lq bs' s sd px) -> bs = bs'.
Proof.
  intros [[Hk Hs] Hne] [[Hk' Hs'] Hne'] Heq. apply zm_ext; [done..|]. intros s.
  assert (forall z z', sides_ok z -> sides_ok z' -> (forall sd px, zm_find (Book.of_side z sd) px = zm_find (Book.of_side z' sd) px) -> z = z') as Hz.
  { intros [b a] [b' a'] H1 H2 H. f_equal.
    - apply zm_ext; [apply (H1 Buy)|apply (H2 Buy)|apply (H Buy)].
    - apply zm_ext; [apply (H1 Sell)|apply (H2 Sell)|apply (H Sell)]. }
  specialize (Heq s). unfold lq, Book.sides_of in Heq. destruct (zm_find bs s) as [z|] eqn:E, (zm_find bs' s) as [z'|] eqn:E'; simpl in Heq; [| | |done].
  - f_equal. apply Hz; eauto.
  - specialize (Hne _ _ E). assert (Book.empty_sides z = true); [|congruence]. apply empty_sides_true. intros sd px. rewrite Heq. by destruct sd.
  - specialize (Hne' _ _ E'). assert (Book.empty_sides z' = true); [|congruence]. apply empty_sides_true. intros sd px. rewrite <- Heq. by destruct sd.
Qed.

(** An entry as an update of the totals. *)
Definition entry_upd (f : Z -> Side -> Z -> option Z) (x : MdEntry) : Z -> Side -> Z -> option Z := fun s sd px =>
  match type x with
  | LevelEntry => if bool_decide (s = symbol x /\ sd = side x /\ px = price x) then (if qty x =? 0 then None else Some (qty x)) else f s sd px
  | _ => f s sd px
  end.

Lemma entry_upd_ext l : forall f g, (forall s sd px, f s sd px = g s sd px) -> forall s sd px, foldl entry_upd f l s sd px = foldl entry_upd g l s sd px.
Proof.
  induction l as [|x l IH]; intros f g Hfg s sd px; simpl; [done|]. apply IH. intros s' sd' px'. unfold entry_upd. by destruct (type x); rewrite Hfg.
Qed.

Lemma apply_entry_spec bs n x : books_weak bs ->
  books_weak (Book.apply_entry (bs, n) x).1 /\ forall s sd px, lq (Book.apply_entry (bs, n) x).1 s sd px = entry_upd (lq bs) x s sd px.
Proof.
  intros Hbs. unfold Book.apply_entry, entry_upd. destruct (type x); [|done..]. simpl.
  set (z := Book.sides_of bs (symbol x)). pose proof (sides_of_ok bs (symbol x) Hbs : sides_ok z) as Hz.
  set (m := if qty x =? 0 then _ else _). destruct (Hz (side x)) as [Hm Hnz].
  assert (zm_ok m) as Hmok by (unfold m; case_match; [by apply zm_erase_ok|by apply zm_put_ok]).
  assert (forall px, zm_find m px = if px =? price x then (if qty x =? 0 then None else Some (qty x)) else zm_find (Book.of_side z (side x)) px) as Hfind.
  { intros px. unfold m. destruct (qty x =? 0); [by apply zm_find_erase|apply zm_find_put]. }
  split.
  - destruct Hbs as [Hk Hs]. split; [by apply zm_put_ok|]. intros s z' Hz'. rewrite zm_find_put in Hz'. destruct (s =? symbol x); [|by eapply Hs].
    injection Hz' as <-. intros sd. rewrite of_with_side. destruct (decide (sd = side x)); [|apply Hz]. split; [done|]. intros px q.
    rewrite Hfind. destruct (px =? price x); [|apply Hnz]. destruct (Z.eqb_spec (qty x) 0); [done|]. by intros [= <-].
  - intros s sd px. unfold lq at 1, Book.sides_of at 1. rewrite zm_find_put. destruct (Z.eqb_spec s (symbol x)) as [->|Hs].
    + simpl. rewrite of_with_side. destruct (decide (sd = side x)) as [->|Hsd].
      * rewrite Hfind. destruct (Z.eqb_spec px (price x)) as [->|]; [by rewrite bool_decide_true|]. rewrite bool_decide_false; [done|]. by intros (_ & _ & ?).
      * rewrite bool_decide_false; [done|]. by intros (_ & ? & _).
    + rewrite bool_decide_false; [done|]. by intros (? & _).
Qed.

Lemma apply_spec bs l : books_ok bs -> books_ok (Book.apply bs l).1 /\ forall s sd px, lq (Book.apply bs l).1 s sd px = foldl entry_upd (lq bs) l s sd px.
Proof.
  intros [Hbs _]. unfold Book.apply. assert (forall l a, books_weak a.1 -> books_weak (foldl Book.apply_entry a l).1 /\
    forall s sd px, lq (foldl Book.apply_entry a l).1 s sd px = foldl entry_upd (lq a.1) l s sd px) as Hfold.
  { clear. intros l. induction l as [|x l IH]; intros [bs n] Hbs; [done|]. destruct (apply_entry_spec bs n x Hbs) as [Hw He].
    destruct (IH (Book.apply_entry (bs, n) x) Hw) as [Hw' He']. split; [done|]. intros s sd px. cbn [foldl]. rewrite He'. by apply entry_upd_ext. }
  destruct (Hfold l (bs, 0) Hbs) as [[Hk Hs] He]. cbn [fst] in He. destruct (foldl Book.apply_entry (bs, 0) l) as [bs' n]. cbn [fst] in *.
  assert (forall s, zm_find (filter (fun x => Book.empty_sides x.2 = false) bs') s =
    z ← zm_find bs' s; if decide (Book.empty_sides z = false) then Some z else None) as Hf by (intros s; by rewrite zm_find_filter).
  split; [split; [split|]|].
  - by apply zm_ok_filter.
  - intros s z Hz. rewrite Hf in Hz. destruct (zm_find bs' s) eqn:E; [|done]. simpl in Hz. case_decide; [|done]. injection Hz as <-. by eapply Hs.
  - intros s z Hz. rewrite Hf in Hz. destruct (zm_find bs' s) eqn:E; [|done]. simpl in Hz. case_decide; [|done]. by injection Hz as <-.
  - intros s sd px. rewrite <- He. unfold lq, Book.sides_of. rewrite Hf. destruct (zm_find bs' s) as [z|]; [|done]. simpl.
    case_decide as Hd; [done|]. apply not_false_is_true in Hd. rewrite (proj1 (empty_sides_true z) Hd). by destruct sd.
Qed.

Lemma apply_ok bs l : books_ok bs -> books_ok (Book.apply bs l).1.
Proof. intros H. by apply apply_spec. Qed.

Lemma apply_app bs l l' : books_ok bs -> (Book.apply bs (l ++ l')).1 = (Book.apply (Book.apply bs l).1 l').1.
Proof.
  intros H. destruct (apply_spec bs l H) as [H1 E1], (apply_spec _ l' H1) as [H2 E2], (apply_spec bs (l ++ l') H) as [H3 E3].
  apply books_ext; [done..|]. intros s sd px. rewrite E3, E2, foldl_app. apply entry_upd_ext. intros. by rewrite E1.
Qed.

Lemma apply_nil bs : books_ok bs -> (Book.apply bs []).1 = bs.
Proof. intros H. destruct (apply_spec bs [] H) as [H1 E1]. by apply books_ext. Qed.

(** ** The books of an engine *)

Definition levels_of_books (bs : Book.Books) : list MdEntry :=
  x ← bs; level_entries x.1 Buy (reverse (Book.bids x.2)) ++ level_entries x.1 Sell (Book.asks x.2).

Lemma digest_of_books b : Book.digest b = digest_of (levels_of_books (Book.books_ b)).
Proof.
  unfold Book.digest, digest_of. f_equal. generalize L2Digest.init. induction (Book.books_ b) as [|[s z] bs IH]; intros d; [done|].
  unfold levels_of_books. cbn [foldl mbind list_bind]. fold (levels_of_books bs). rewrite foldl_app, IH. f_equal. rewrite foldl_app. cbn [fst snd].
  assert (forall sd l d, foldl (Book.digest_level s sd) d l =
    foldl (fun d x => L2Digest.add d (symbol x) (side x) (price x) (qty x)) d (level_entries s sd l)) as Hl.
  { intros sd l. induction l as [|x l IHl]; intros d0; [done|]. apply IHl. }
  by rewrite !Hl.
Qed.

Section engine.
Context {E : Type} `{L2Engine E}.

(** The engine's levels are distinct, best first, and not empty. *)
Definition lt_side (sd : Side) (p q : Z) : Prop := match sd with Buy => q < p | Sell => p < q end.
Definition engine_ok (e : E) : Prop := forall s sd, 0 <= s < num_symbols e ->
  StronglySorted (lt_side sd) (for_each_level e s sd).*1 /\ Forall (fun x => x.2 <> 0) (for_each_level e s sd).

Definition engine_books (e : E) : Book.Books := (Book.apply [] (all_levels e)).1.
Definition view (e : E) (s : Z) : Book.Sides := Book.mkSides (reverse (for_each_level e s Buy)) (for_each_level e s Sell).
Definition view_books (e : E) : Book.Books := filter (fun x => Book.empty_sides x.2 = false) ((fun s => (s, view e s)) <$> seqZ 0 (num_symbols e)).

Lemma seqZ_sorted a n : StronglySorted Z.lt (seqZ a n).
Proof.
  destruct (Z.le_gt_cases n 0); [rewrite seqZ_nil by done; constructor|]. rewrite <- (Z2Nat.id n) by lia. generalize (Z.to_nat n). intros k. clear.
  revert a. induction k as [|k IH]; intros a; [constructor|]. rewrite seqZ_cons by lia. replace (Z.pred (Z.of_nat (S k))) with (Z.of_nat k) by lia.
  constructor; [apply IH|]. apply Forall_forall. intros x Hx%elem_of_seqZ. lia.
Qed.

Lemma sorted_reverse (l : list (Z * Z)) : StronglySorted (lt_side Buy) l.*1 -> zm_ok (reverse l).
Proof.
  unfold zm_ok. rewrite fmap_reverse. generalize l.*1. clear. intros l. induction l as [|x l IH]; intros Hs; [constructor|].
  apply StronglySorted_inv in Hs as [Hs Hall]. rewrite reverse_cons. specialize (IH Hs). clear Hs.
  assert (Forall (fun y => y < x) (reverse l)) as Hr by (by apply Forall_reverse). clear Hall. induction IH as [|y r Hr1 IH1 Hall1]; simpl.
  - repeat constructor.
  - apply Forall_cons in Hr as [Hy Hr]. constructor; [by apply IH1|]. apply Forall_app. split; [done|]. by repeat constructor.
Qed.

Lemma pair_seq_ok (f : Z -> Book.Sides) n : zm_ok ((fun s => (s, f s)) <$> seqZ 0 n).
Proof.
  unfold zm_ok. rewrite <- list_fmap_compose. rewrite (list_fmap_ext (fst ∘ _) id) by done. rewrite list_fmap_id. apply seqZ_sorted.
Qed.

Lemma view_find_seq (f : Z -> Book.Sides) n s : zm_find ((fun s => (s, f s)) <$> seqZ 0 n) s = if bool_decide (0 <= s < n) then Some (f s) else None.
Proof.
  set (m := _ <$> _). assert (zm_ok m) as Hm by apply pair_seq_ok.
  case_bool_decide as Hs.
  - apply zm_find_elem; [done|]. unfold m. apply list_elem_of_fmap. exists s. split; [done|]. apply elem_of_seqZ. lia.
  - destruct (zm_find m s) as [z|] eqn:Ez; [|done]. apply zm_find_elem in Ez; [|done]. unfold m in Ez.
    apply list_elem_of_fmap in Ez as (s' & [= -> _] & Hin%elem_of_seqZ). lia.
Qed.

Lemma view_sides_ok e s : engine_ok e -> 0 <= s < num_symbols e -> sides_ok (view e s).
Proof.
  intros He Hs sd. destruct (He s sd Hs) as [Hsort Hnz]. assert (zm_ok (Book.of_side (view e s) sd)) as Hm by (destruct sd; [by apply sorted_reverse|done]).
  split; [done|]. intros px q Hq%zm_find_elem; [|done]. rewrite Forall_forall in Hnz. apply (Hnz (px, q)).
  destruct sd; [by apply elem_of_reverse|done].
Qed.

Lemma view_books_ok e : engine_ok e -> books_ok (view_books e).
Proof.
  intros He. unfold view_books. set (m := _ <$> _). assert (zm_ok m) as Hm by apply pair_seq_ok.
  assert (forall s z, zm_find (filter (fun x => Book.empty_sides x.2 = false) m) s = Some z ->
    Book.empty_sides z = false /\ 0 <= s < num_symbols e /\ z = view e s) as Hf.
  { intros s z. rewrite zm_find_filter by done. unfold m. rewrite view_find_seq. case_bool_decide; [|done]. simpl. case_decide; [|done]. by intros [= <-]. }
  split; [split|]; [by apply zm_ok_filter| |].
  - intros s z Hz. destruct (Hf _ _ Hz) as (_ & Hs & ->). by apply view_sides_ok.
  - intros s z Hz. by destruct (Hf _ _ Hz).
Qed.

Lemma view_books_lq e s sd px : lq (view_books e) s sd px = if bool_decide (0 <= s < num_symbols e) then zm_find (Book.of_side (view e s) sd) px else None.
Proof.
  unfold lq, Book.sides_of, view_books. set (m := _ <$> _). assert (zm_ok m) as Hm by apply pair_seq_ok.
  rewrite zm_find_filter by done. unfold m. rewrite view_find_seq. case_bool_decide; simpl; [|by destruct sd]. case_decide as Hd; [done|].
  apply not_false_is_true in Hd. rewrite (proj1 (empty_sides_true _) Hd). by destruct sd.
Qed.

(** The totals after entries that name each price once. *)
Definition names (s : Z) (sd : Side) (px : Z) (x : MdEntry) : Prop := s = symbol x /\ sd = side x /\ px = price x.
Lemma entry_upd_none l f s sd px : (forall x, x ∈ l -> ~ names s sd px x) -> foldl entry_upd f l s sd px = f s sd px.
Proof.
  induction l as [|x l IH] using rev_ind; intros Hn; [done|]. rewrite foldl_app. simpl. unfold entry_upd at 1.
  assert (foldl entry_upd f l s sd px = f s sd px) as Hl by (apply IH; intros; apply Hn; set_solver). destruct (type x); [|done..].
  rewrite bool_decide_false; [done|]. apply Hn. set_solver.
Qed.
Lemma entry_upd_once l f s sd px q : (forall x, x ∈ l -> type x = LevelEntry) -> (exists x, x ∈ l /\ names s sd px x) -> q <> 0 ->
  (forall x, x ∈ l -> names s sd px x -> qty x = q) -> foldl entry_upd f l s sd px = Some q.
Proof.
  intros Ht (x0 & Hx0 & Hn0) Hq Hall. induction l as [|x l IH] using rev_ind; [by apply elem_of_nil in Hx0|]. rewrite foldl_app. simpl. unfold entry_upd at 1.
  rewrite (Ht x) by set_solver. case_bool_decide as Hx.
  - rewrite (Hall x) by (done || set_solver). by rewrite (proj2 (Z.eqb_neq q 0)).
  - apply IH; [intros; apply Ht; set_solver| |intros; apply Hall; [set_solver|done]].
    apply elem_of_app in Hx0 as [Hx0|Hx0%list_elem_of_singleton]; [done|by subst].
Qed.

Lemma all_levels_elem e x : x ∈ all_levels e <-> 0 <= symbol x < num_symbols e /\ type x = LevelEntry /\ (price x, qty x) ∈ for_each_level e (symbol x) (side x).
Proof.
  unfold all_levels. rewrite list_elem_of_bind. split.
  - intros (s & Hx & Hs%elem_of_seqZ). apply elem_of_app in Hx as [Hx|Hx]; apply list_elem_of_fmap in Hx as ([p q] & -> & Hin); simpl; (split; [lia|done]).
  - intros (Hs & Ht & Hin). exists (symbol x). split; [|apply elem_of_seqZ; lia]. apply elem_of_app. destruct x as [p q s [|] ty]; simpl in *; subst ty; [left|right];
      apply list_elem_of_fmap; by exists (p, q).
Qed.

Lemma engine_books_view e : engine_ok e -> engine_books e = view_books e.
Proof.
  intros He. destruct (apply_spec [] (all_levels e) books_ok_nil) as [Hok Hl]. apply books_ext; [done|by apply view_books_ok|].
  intros s sd px. unfold engine_books. rewrite Hl, view_books_lq. assert (lq [] s sd px = None) as Hnone by (by destruct sd).
  case_bool_decide as Hs.
  - pose proof (view_sides_ok e s He Hs sd) as [Hm Hnz].
    assert (forall q, (px, q) ∈ for_each_level e s sd <-> zm_find (Book.of_side (view e s) sd) px = Some q) as Hin.
    { intros q. rewrite zm_find_elem by done. destruct sd; [symmetry; apply elem_of_reverse|done]. }
    destruct (zm_find (Book.of_side (view e s) sd) px) as [q|] eqn:Eq.
    + apply entry_upd_once; [by intros x (_ & ? & _)%all_levels_elem| |by eapply Hnz|].
      * exists (mkEntry px q s sd LevelEntry). split; [|done]. apply all_levels_elem. simpl. split; [done|]. split; [done|]. by apply Hin.
      * intros x (_ & _ & Hx)%all_levels_elem (-> & -> & ->). apply Hin in Hx. congruence.
    + rewrite entry_upd_none; [done|]. intros x (_ & _ & Hx)%all_levels_elem (-> & -> & ->). apply Hin in Hx. congruence.
  - rewrite entry_upd_none; [done|]. by intros x (? & _)%all_levels_elem (-> & _).
Qed.

Lemma levels_of_engine_books e : engine_ok e -> levels_of_books (engine_books e) = all_levels e.
Proof.
  intros He. rewrite engine_books_view by done. unfold levels_of_books, view_books, all_levels. induction (seqZ 0 (num_symbols e)) as [|s l IH]; [done|].
  cbn [fmap list_fmap mbind list_bind]. rewrite filter_cons. cbn [snd]. case_decide as Hd; cbn [mbind list_bind fst snd].
  - f_equal; [|exact IH]. simpl. by rewrite reverse_involutive.
  - apply not_false_is_true in Hd. pose proof (proj1 (empty_sides_true _) Hd) as Hz. assert (forall sd, for_each_level e s sd = []) as Hnil.
    { assert (forall m : list (Z * Z), (forall px, zm_find m px = None) -> m = []) as Hm.
      { intros [|[p q] m] Hm; [done|]. specialize (Hm p). simpl in Hm. by rewrite Z.eqb_refl in Hm. }
      intros [|]; [|apply Hm; exact (Hz Sell)]. rewrite <- (reverse_involutive (for_each_level e s Buy)). by rewrite (Hm (reverse _) (Hz Buy)). }
    rewrite !Hnil. exact IH.
Qed.
End engine.

(** ** The subscriber's invariant *)

(** The book after packets, and what a snapshot of a book is cut into. *)
Definition step_books (bs : Book.Books) (e : list MdEntry) : Book.Books := (Book.apply bs e).1.
Definition after (base : Book.Books) (pkts : list (list MdEntry)) : Book.Books := foldl step_books base pkts.
Definition l2_at (base : Book.Books) (pkts : list (list MdEntry)) (q : Z) : Book.Books := after base (take (Z.to_nat q) pkts).
Definition chunk (all : list MdEntry) (p : Z) : list MdEntry := take 60 (drop (Z.to_nat (p * 60)) all).
Definition chunk_count (all : list MdEntry) : Z := Z.max 1 ((alen all + 59) / 60).

Lemma after_ok base pkts : books_ok base -> books_ok (after base pkts).
Proof. revert base. induction pkts as [|e pkts IH]; intros base Hb; [done|]. by apply IH, apply_ok. Qed.

Lemma after_concat base pkts : books_ok base -> after base pkts = step_books base (concat pkts).
Proof.
  revert base. induction pkts as [|e pkts IH]; intros base Hb; simpl; [symmetry; by apply apply_nil|].
  rewrite IH by (by apply apply_ok). unfold step_books. by rewrite <- apply_app.
Qed.

Lemma concat_chunks all k : 0 <= k -> concat (chunk all <$> seqZ 0 k) = take (Z.to_nat (k * 60)) all.
Proof.
  intros Hk. rewrite <- (Z2Nat.id k) by done. generalize (Z.to_nat k). clear. intros k. induction k as [|k IH]; [done|].
  rewrite seqZ_S, fmap_app, concat_app, IH. simpl. rewrite app_nil_r. unfold chunk. rewrite Z.add_0_l.
  replace (Z.to_nat (Z.of_nat (S k) * 60)) with (Z.to_nat (Z.of_nat k * 60) + 60)%nat by lia. by rewrite <- take_take_drop.
Qed.

Lemma concat_all_chunks all : concat (chunk all <$> seqZ 0 (chunk_count all)) = all.
Proof.
  rewrite concat_chunks by (unfold chunk_count; lia). apply take_ge. unfold chunk_count, alen.
  pose proof (Z.div_mod (Z.of_nat (length all) + 59) 60 ltac:(lia)). pose proof (Z.mod_pos_bound (Z.of_nat (length all) + 59) 60 ltac:(lia)). lia.
Qed.

Section subscriber.
Variables (base : Book.Books) (pkts : list (list MdEntry)).
Hypothesis base_ok : books_ok base.
Hypothesis pkts_small : alen pkts < 9223372036854775808.

Abbreviation at_seq := (l2_at base pkts).

Lemma at_seq_next q e : 0 <= q -> pkts !! Z.to_nat q = Some e -> at_seq (q + 1) = step_books (at_seq q) e.
Proof.
  intros Hq He. unfold l2_at, after. replace (Z.to_nat (q + 1)) with (S (Z.to_nat q)) by lia. by rewrite (take_S_r _ _ _ He), foldl_app.
Qed.

(** A snapshot that shows the book after packet [s], and a part of it as it is kept. *)
Definition snap_ok (s : Z) : Prop := 0 <= s <= alen pkts /\ step_books [] (levels_of_books (at_seq s)) = at_seq s.
Definition received_part (all : list MdEntry) (i : nat) (prt : list MdEntry) : Prop :=
  prt = chunk all (Z.of_nat i) \/ chunk all (Z.of_nat i) = [] /\ prt = [mkEntry 0 0 0 Buy NoEntry].

Definition genuine (d : MdDatagram) : Prop :=
  let h := d.1 in
  magic h = kMagic -> alen d.2 = count h ->
  match kind h with
  | Incremental => 1 <= seq h /\ pkts !! Z.to_nat (seq h - 1) = Some d.2
  | Snapshot => snap_ok (snap_seq h) /\ parts h = chunk_count (levels_of_books (at_seq (snap_seq h))) /\
      0 <= part h < parts h /\ d.2 = chunk (levels_of_books (at_seq (snap_seq h))) (part h)
  | _ => True
  end.

Definition pending_ok (m : list (Z * list MdEntry)) : Prop :=
  zm_ok m /\ forall k e, zm_find m k = Some e -> 1 <= k /\ pkts !! Z.to_nat (k - 1) = Some e.

Definition nonempty (prts : list (list MdEntry)) : Z := alen (filter (fun prt => prt <> []) prts).
Definition assembly_ok (b : Book.t) : Prop :=
  let all := levels_of_books (at_seq (Book.snap_id_ b)) in
  Book.snap_id_ b = 18446744073709551615 /\ Book.snap_parts_ b = [] \/
  snap_ok (Book.snap_id_ b) /\ alen (Book.snap_parts_ b) = chunk_count all /\ Book.snap_have_ b = nonempty (Book.snap_parts_ b) /\
  forall i prt, Book.snap_parts_ b !! i = Some prt -> prt <> [] -> received_part all i prt.

Record sub_ok (b : Book.t) : Prop := {
  sk_synced : Book.synced_ b = true -> 0 <= Book.seq_ b <= alen pkts /\ Book.books_ b = at_seq (Book.seq_ b);
  sk_pending : pending_ok (Book.pending_ b);
  sk_assembly : assembly_ok b;
}.

Lemma lose_ok b : sub_ok b -> sub_ok (Book.lose b).
Proof. intros [_ H2 H3]. by split. Qed.

Lemma update_ended_ok b : sub_ok b -> sub_ok (Book.update_ended b).
Proof. intros [H1 H2 H3]. by split. Qed.

Lemma pending_tail k e m : pending_ok ((k, e) :: m) -> pending_ok m /\ 1 <= k /\ pkts !! Z.to_nat (k - 1) = Some e.
Proof.
  intros [Hm H]. apply zm_ok_cons in Hm as [Hm Hlt]. split; [split; [done|]|apply H; cbn [zm_find]; by rewrite Z.eqb_refl].
  intros k' e' Hf. apply H. cbn [zm_find]. specialize (Hlt k' (ex_intro _ _ Hf)). by rewrite (proj2 (Z.eqb_neq k' k)) by lia.
Qed.

Lemma drop_stale_ok sq m : pending_ok m -> pending_ok (Book.drop_stale sq m).
Proof. induction m as [|[k e] m IH]; intros Hm; [done|]. cbn [Book.drop_stale]. case_match; [|done]. by apply IH, (pending_tail k e). Qed.

Lemma replay_ok m : forall sq st bs' sq' st' m', pending_ok m -> 0 <= sq <= alen pkts -> Book.replay (at_seq sq) sq st m = (bs', sq', st', m') ->
  0 <= sq' <= alen pkts /\ bs' = at_seq sq' /\ pending_ok m'.
Proof.
  induction m as [|[k e] m IH]; intros sq st bs' sq' st' m' Hm Hsq Hr; cbn [Book.replay] in Hr; [by injection Hr as <- <- _ <-|].
  destruct (pending_tail _ _ _ Hm) as (Hm' & Hk & He). rewrite u64_small in Hr by (unfold in_u64; lia).
  destruct (Z.eqb_spec k (sq + 1)) as [->|]; [|by injection Hr as <- <- _ <-]. replace (sq + 1 - 1) with sq in He by lia.
  destruct (Book.apply (at_seq sq) e) as [bs n] eqn:Ea. assert (bs = at_seq (sq + 1)) as -> by (rewrite (at_seq_next sq e) by (done || lia); unfold step_books; by rewrite Ea).
  eapply IH; [done| |exact Hr]. pose proof (lookup_lt_Some _ _ _ He). unfold alen in *. lia.
Qed.

Lemma nonempty_le prts : nonempty prts <= alen prts.
Proof. unfold nonempty, alen. pose proof (length_filter (fun prt : list MdEntry => prt <> []) prts). lia. Qed.

Lemma nonempty_full prts : nonempty prts = alen prts -> forall i prt, prts !! i = Some prt -> prt <> [].
Proof.
  induction prts as [|x prts IH]; intros Hn [|i] prt Hi; [done..| |]; unfold nonempty, alen in Hn; rewrite filter_cons in Hn;
    pose proof (nonempty_le prts) as Hle; unfold nonempty, alen in Hle; case_decide as Hd; simpl in *; try lia.
  - by injection Hi as <-.
  - eapply IH; [|exact Hi]. unfold nonempty, alen. lia.
Qed.

Lemma nonempty_insert prts i e : prts !! i = Some [] -> e <> [] -> nonempty (<[i := e]> prts) = nonempty prts + 1.
Proof.
  intros Hi He. pose proof (lookup_lt_Some _ _ _ Hi) as Hlt. rewrite insert_take_drop by done. rewrite <- (take_drop_middle prts i []) at 3 by done.
  unfold nonempty, alen. rewrite !filter_app, !filter_cons, decide_True by done. rewrite decide_False by (intros H; by apply H).
  rewrite !length_app. simpl. lia.
Qed.

Lemma nonempty_amake n : nonempty (amake n []) = 0.
Proof.
  unfold nonempty, amake. induction (Z.to_nat n) as [|k IH]; [done|]. cbn [replicate]. rewrite filter_cons, decide_False by (intros H; by apply H). exact IH.
Qed.

Lemma fold_parts prts : forall bs n, (foldl (fun a prt => let '(bs, n) := Book.apply a.1 prt in (bs, a.2 + n)) (bs, n) prts).1 = after bs prts.
Proof.
  induction prts as [|e prts IH]; intros bs n; [done|]. cbn [foldl fst snd]. unfold after. cbn [foldl]. unfold step_books at 2.
  destruct (Book.apply bs e) as [bs' n']. apply IH.
Qed.

Lemma received_after all prts : alen prts = chunk_count all -> (forall i prt, prts !! i = Some prt -> received_part all i prt) ->
  after [] prts = step_books [] all.
Proof.
  intros Hlen Hr. assert (forall k bs, books_ok bs -> (forall i prt, prts !! i = Some prt -> received_part all (k + i) prt) ->
    after bs prts = after bs (chunk all <$> seqZ (Z.of_nat k) (alen prts))) as Hgen.
  { clear Hlen Hr. induction prts as [|e prts IH]; intros k bs Hbs Hr; [done|].
    rewrite seqZ_cons by (unfold alen; simpl; lia). cbn [fmap list_fmap]. unfold after. cbn [foldl].
    replace (step_books bs (chunk all (Z.of_nat k))) with (step_books bs e).
    - replace (Z.pred (alen (e :: prts))) with (alen prts) by (unfold alen; simpl; lia). replace (Z.succ (Z.of_nat k)) with (Z.of_nat (S k)) by lia.
      apply IH; [by apply apply_ok|]. intros i prt Hi. specialize (Hr (S i) prt Hi). by rewrite Nat.add_succ_comm.
    - pose proof (Hr 0%nat e eq_refl) as H0. rewrite Nat.add_0_r in H0. by destruct H0 as [->|[-> ->]]. }
  rewrite (Hgen 0%nat []); [|apply books_ok_nil|done]. rewrite Hlen, after_concat by apply books_ok_nil. f_equal. apply concat_all_chunks.
Qed.

Lemma rebuild_ok b sq : sub_ok b -> sq = Book.snap_id_ b -> snap_ok sq -> alen (Book.snap_parts_ b) <= Book.snap_have_ b -> sub_ok (Book.rebuild b sq).
Proof.
  intros [H1 H2 H3] -> [Hsq Hsnap] Hfull. destruct H3 as [[Hid _]|(_ & Hlen & Hhave & Hparts)]; [lia|].
  assert (after [] (Book.snap_parts_ b) = at_seq (Book.snap_id_ b)) as Hafter.
  { rewrite <- Hsnap. apply received_after; [done|]. pose proof (nonempty_le (Book.snap_parts_ b)).
    intros i prt Hi. apply Hparts; [done|]. eapply nonempty_full; [|done]. lia. }
  unfold Book.rebuild. destruct (foldl _ ([], 0) (Book.snap_parts_ b)) as [bs n] eqn:Ef.
  assert (bs = at_seq (Book.snap_id_ b)) as -> by (rewrite <- Hafter, <- (fold_parts _ [] 0), Ef; done).
  destruct (Book.replay _ _ _ _) as [[[bs' sq'] st'] m'] eqn:Er.
  destruct (replay_ok _ _ _ _ _ _ _ (drop_stale_ok _ _ H2) Hsq Er) as (Hsq' & -> & Hm').
  apply update_ended_ok. match goal with |- context [Book.set_synced ?b _ _ _ _ _] => set (b0 := b) end.
  assert (assembly_ok b0) as Ha by (right; done).
  destruct m' as [|x m']; [|apply lose_ok]; (split; [done|done|exact Ha]).
Qed.

Lemma on_snapshot_part_ok b h e : sub_ok b -> snap_ok (snap_seq h) -> parts h = chunk_count (levels_of_books (at_seq (snap_seq h))) ->
  0 <= part h < parts h -> e = chunk (levels_of_books (at_seq (snap_seq h))) (part h) -> count h = alen e -> sub_ok (Book.on_snapshot_part b h e).
Proof.
  intros Hb Hs Hp Hpart He Hcount. unfold Book.on_snapshot_part. set (all := levels_of_books (at_seq (snap_seq h))) in *.
  set (b0 := if _ || _ then _ else b).
  assert (sub_ok b0 /\ Book.snap_id_ b0 = snap_seq h) as [Hb0 Hid].
  { unfold b0. destruct (Z.eqb_spec (part h) 0); simpl; [|destruct (Z.eqb_spec (snap_seq h) (Book.snap_id_ b)); simpl; [done|]];
      (split; [|done]; destruct Hb as [H1 H2 _]; split; [done..|]; right; simpl;
       split; [done|]; split; [rewrite alen_amake by lia; done|]; split; [by rewrite nonempty_amake|];
       intros i prt Hi Hne; apply lookup_replicate in Hi as [-> _]; done). }
  clearbody b0. destruct (Book.snap_parts_ b0).[part h] as [[|x l]|] eqn:Eslot; [|done..]. case_match; [done|].
  set (e' := match e with [] => _ | _ => e end). assert (e' <> [] /\ received_part all (Z.to_nat (part h)) e') as [Hne Hrec].
  { unfold e', received_part. rewrite Z2Nat.id by lia. fold all in He. rewrite <- He. destruct e; [split; [done|by right]|split; [done|by left]]. }
  set (b1 := Book.set_snap b0 _ _ _). apply aget_Some in Eslot as [_ Eslot]. pose proof Hb0 as [H1 H2 H3].
  assert (sub_ok b1) as Hb1.
  { split; [done..|]. right. destruct H3 as [[_ Hnil]|(G1 & G2 & G3 & G4)]; [by rewrite Hnil in Eslot|]. simpl.
    split; [done|]. split; [unfold alen in *; by rewrite length_insert|]. split; [rewrite G3; symmetry; by apply nonempty_insert|].
    intros i prt Hi Hpne. apply list_lookup_insert_Some in Hi as [(<- & <- & _)|[_ Hi]]; [|by apply G4]. by rewrite Hid. }
  destruct (Z.ltb_spec (Book.snap_have_ b1) (alen (Book.snap_parts_ b1))); [done|]. by apply rebuild_ok.
Qed.

Lemma feed_datagram_ok b d : sub_ok b -> genuine d -> sub_ok (Book.on_datagram b d).
Proof.
  intros Hb Hg. unfold Book.on_datagram. destruct (Z.eqb_spec (magic d.1) kMagic) as [Hm|]; [|done]. destruct (Z.eqb_spec (alen d.2) (count d.1)) as [Hc|]; [|done].
  specialize (Hg Hm Hc). destruct d as [h e]. cbn [fst snd negb orb] in *. unfold Book.on_packet. pose proof Hb as [H1 H2 H3]. destruct (kind h) eqn:Ek.
  - destruct Hg as [Hseq He]. destruct (Book.synced_ b) eqn:Esy; cbn [andb].
    + destruct (H1 eq_refl) as [Hr Hbooks]. destruct (seq h <=? Book.seq_ b); [done|]. rewrite u64_small by (unfold in_u64; lia).
      destruct (Z.eqb_spec (seq h) (Book.seq_ b + 1)) as [Heq|Hne].
      * destruct (Book.apply (Book.books_ b) e) as [bs n] eqn:Ea. rewrite Heq in He. replace (Book.seq_ b + 1 - 1) with (Book.seq_ b) in He by lia.
        pose proof (lookup_lt_Some _ _ _ He). split; [|done..]. intros _. simpl. split; [unfold alen in *; lia|].
        rewrite Heq, (at_seq_next _ e) by (done || lia). unfold step_books. by rewrite <- Hbooks, Ea.
      * split; [done| |done]. simpl. destruct H2 as [Hp1 Hp2]. split; [by apply zm_put_ok|]. intros k e' Hf. rewrite zm_find_put in Hf.
        destruct (Z.eqb_spec k (seq h)) as [->|]; [by injection Hf as <-|by apply Hp2].
    + split; [simpl; by rewrite Esy| |done]. simpl. destruct H2 as [Hp1 Hp2]. split; [by apply zm_put_ok|]. intros k e' Hf. rewrite zm_find_put in Hf.
      destruct (Z.eqb_spec k (seq h)) as [->|]; [by injection Hf as <-|by apply Hp2].
  - destruct Hg as (Hs & Hp & Hpart & He). destruct (Book.synced_ b); [done|]. apply update_ended_ok. by apply on_snapshot_part_ok.
  - apply update_ended_ok. destruct (_ && _); [by apply lose_ok|done].
  - apply update_ended_ok. destruct (_ && _); [|by split]. destruct (lose_ok b Hb) as [G1 G2 G3]. by split.
Qed.

Lemma poll_ok ds : forall b, sub_ok b -> Forall genuine ds -> sub_ok (Book.poll b ds).
Proof. induction ds as [|d ds IH]; intros b Hb Hg; [done|]. apply Forall_cons in Hg as [Hd Hg]. by apply IH; [apply feed_datagram_ok|]. Qed.

Lemma drop_stale_all m : pending_ok m -> Book.drop_stale (alen pkts) m = [].
Proof.
  induction m as [|[k e] m IH]; intros Hm; [done|]. destruct (pending_tail _ _ _ Hm) as (Hm' & Hk & He). cbn [Book.drop_stale].
  pose proof (lookup_lt_Some _ _ _ He). rewrite (proj2 (Z.leb_le k (alen pkts))) by (unfold alen in *; lia). by apply IH.
Qed.

Lemma rebuild_synced b : pending_ok (Book.pending_ b) -> Book.synced_ (Book.rebuild b (alen pkts)) = true /\ Book.seq_ (Book.rebuild b (alen pkts)) = alen pkts.
Proof. intros Hp. unfold Book.rebuild. destruct (foldl _ _ _) as [bs n]. rewrite (drop_stale_all _ Hp). done. Qed.

Lemma make_ok : sub_ok Book.make.
Proof. split; [done|split; [apply zm_ok_nil|done]|by left]. Qed.
End subscriber.

(** ** Runs of the publisher *)

Lemma l2_at_more base pkts more q : 0 <= q <= alen pkts -> l2_at base (pkts ++ more) q = l2_at base pkts q.
Proof. intros Hq. unfold l2_at. rewrite take_app_le; [done|unfold alen in *; lia]. Qed.

Lemma genuine_more base pkts more d : genuine base pkts d -> genuine base (pkts ++ more) d.
Proof.
  intros Hg Hm Hc. specialize (Hg Hm Hc). destruct (kind d.1); [| |done..].
  - destruct Hg as [H1 H2]. split; [done|]. by apply lookup_app_l_Some.
  - destruct Hg as ([Hr Hs] & Hp & Hpart & He). unfold snap_ok. rewrite !l2_at_more by done. split; [split|done]; [|done].
    unfold alen in *. rewrite length_app. lia.
Qed.

Section publisher.
Context {E : Type} `{L2Engine E}.
Import Publisher.

Definition incremental (k : Z) (e : list MdEntry) : MdDatagram := (mkHeader kMagic Incremental k 0 (alen e) 0 1, e).

Lemma flush_loop_spec fuel lost : forall p rest, (length rest <= fuel)%nat -> 0 <= seq_ p -> seq_ p + alen rest < 9223372036854775808 ->
  exists p' out pk, flush_loop fuel lost p rest = (p', out) /\ concat pk = rest /\ alen pk <= alen rest /\ seq_ p' = seq_ p + alen pk /\
    every_ p' = every_ p /\ staged_ p' = staged_ p /\
    forall d, d ∈ out -> exists i e, pk !! i = Some e /\ d = incremental (seq_ p + Z.of_nat i + 1) e.
Proof.
  induction fuel as [|fuel IH]; intros p rest Hf H0 Hb.
  - destruct rest; [|simpl in Hf; lia]. exists p, [], []. split_and!; try done; [unfold alen; simpl; lia|]. by intros d ?%elem_of_nil.
  - destruct rest as [|x l]; [exists p, [], []; split_and!; try done; [unfold alen; simpl; lia|]; by intros d ?%elem_of_nil|].
    cbn [flush_loop]. set (rest := x :: l) in *. change kPerPacket with 60. assert (1 <= alen rest) as Hl by (unfold alen, rest; simpl; lia).
    rewrite (u64_small (seq_ p + 1)) by (unfold in_u64; lia). set (p1 := mk _ _ _ _ _ _).
    assert (alen (drop (Z.to_nat 60) rest) = Z.max 0 (alen rest - 60)) as Hd by (unfold alen; rewrite length_drop; lia).
    destruct (IH p1 (drop (Z.to_nat 60) rest)) as (p' & out & pk & -> & Hc & Hle & Hs & He & Hst & Hout);
      [rewrite length_drop; unfold rest in *; cbn [length] in *; lia|cbn [p1 seq_]; lia|cbn [p1 seq_]; lia|].
    exists p', ((if lost (seq_ p + 1) then [] else [send Incremental (seq_ p + 1) 0 0 1 rest (u16 (Z.min 60 (alen rest)))]) ++ out), (take 60 rest :: pk).
    split; [done|]. simpl in Hs. assert (alen (take 60 rest :: pk) = alen pk + 1) as Hpk by (unfold alen; simpl; lia).
    split_and!; try done; [cbn [concat]; rewrite Hc; apply take_drop|lia|lia|].
    intros d Hin. apply elem_of_app in Hin as [Hin|Hin].
    + destruct (lost (seq_ p + 1)); [by apply elem_of_nil in Hin|]. apply list_elem_of_singleton in Hin as ->. exists 0%nat, (take 60 rest). split; [done|].
      unfold send, incremental. rewrite (u16_small (Z.min 60 (alen rest))) by (unfold in_u16; lia).
      assert (alen (take 60 rest) = Z.min 60 (alen rest)) as -> by (unfold alen; rewrite length_take; lia). f_equal; [f_equal; lia|].
      destruct (Z.le_gt_cases (alen rest) 60); [|by rewrite Z.min_l by lia]. rewrite Z.min_r by lia. unfold alen in *. by rewrite !take_ge by lia.
    + destruct (Hout d Hin) as (i & e & Hi & ->). exists (S i), e. split; [done|]. f_equal. simpl. lia.
Qed.

(** What a snapshot sends, for an engine whose books the packets have reached. *)
Definition snapshot_fits (e : E) : Prop := alen (all_levels e) <= 60 * 65535.

Lemma part_count_chunks all : alen all <= 60 * 65535 -> part_count all = chunk_count all.
Proof.
  intros Hf. unfold part_count, chunk_count. change kPerPacket with 60. replace (alen all + 60 - 1) with (alen all + 59) by lia. apply u16_small.
  pose proof (alen_nonneg all). pose proof (Z.div_lt_upper_bound (alen all + 59) 60 65536 ltac:(lia) ltac:(lia)). unfold in_u16. lia.
Qed.

(** Part [k] of a snapshot, as it is sent. *)
Definition snap_dgram (all : list MdEntry) (s k : Z) : MdDatagram :=
  (mkHeader kMagic Snapshot 0 s (alen (chunk all k)) k (chunk_count all), chunk all k).
Lemma snapshot_part_eq all s k : alen all <= 60 * 65535 -> 0 <= k -> snapshot_part all s k = snap_dgram all s k.
Proof.
  intros Hfit Hk. unfold snapshot_part, snap_dgram, send. rewrite part_count_chunks by done. change kPerPacket with 60. pose proof (alen_nonneg all).
  set (m := Z.min 60 _). assert (0 <= m <= 60) by lia. rewrite u16_small by (unfold in_u16; lia).
  assert (take (Z.to_nat m) (drop (Z.to_nat (k * 60)) all) = chunk all k) as ->.
  { unfold chunk. destruct (Z.eq_dec m 60) as [->|Hm]; [done|]. assert (m = Z.max 0 (alen all - k * 60)) as Hm' by lia.
    rewrite !take_ge; [done|rewrite length_drop; unfold alen in *; lia|rewrite length_drop; unfold alen in *; lia]. }
  assert (alen (chunk all k) = m) as -> by (unfold chunk, alen in *; rewrite length_take, length_drop; lia). done.
Qed.

Lemma snapshot_genuine base pkts p e p' out : engine_ok e -> snapshot_fits e -> l2_at base pkts (seq_ p) = engine_books e -> 0 <= seq_ p <= alen pkts ->
  snapshot p e = (p', out) -> Forall (genuine base pkts) out.
Proof.
  intros He Hfit Hat Hsq [= _ <-]. apply Forall_fmap, Forall_forall. intros k Hk%elem_of_seqZ.
  rewrite part_count_chunks in Hk by done. cbn [compose]. rewrite snapshot_part_eq by (done || lia). intros _ _. simpl. unfold snap_ok.
  rewrite Hat, levels_of_engine_books by done. by split_and!; [lia|lia| | |lia|lia|].
Qed.

(** ** A snapshot received whole and in order *)

Section in_order.
Variables (base : Book.Books) (pkts : list (list MdEntry)).
Hypothesis pkts_small : alen pkts < 9223372036854775808.
Let s := alen pkts.
Let all := levels_of_books (l2_at base pkts s).
Hypothesis shows : snap_ok base pkts s.

Lemma snap_dgram_genuine k : 0 <= k < chunk_count all -> genuine base pkts (snap_dgram all s k).
Proof. intros Hk _ _. split; [exact shows|]. split; [done|]. split; [exact Hk|done]. Qed.

Record filling (k : Z) (b : Book.t) : Prop := {
  fi_ok : sub_ok base pkts b;
  fi_unsynced : Book.synced_ b = false;
  fi_id : Book.snap_id_ b = s;
  fi_length : alen (Book.snap_parts_ b) = chunk_count all;
  fi_have : Book.snap_have_ b = k;
  fi_rest : forall i, k <= i < chunk_count all -> (Book.snap_parts_ b).[i] = Some [];
}.

Lemma chunk_nonempty k : 1 < chunk_count all -> 0 <= k < chunk_count all -> 0 < alen (chunk all k).
Proof.
  unfold chunk_count, chunk, alen. intros Hn Hk. rewrite length_take, length_drop.
  pose proof (Z.div_mod (Z.of_nat (length all) + 59) 60 ltac:(lia)). pose proof (Z.mod_pos_bound (Z.of_nat (length all) + 59) 60 ltac:(lia)). lia.
Qed.

Lemma on_part k b : filling k b \/ k = 0 /\ sub_ok base pkts b /\ Book.synced_ b = false -> 0 <= k < chunk_count all ->
  let b' := Book.on_datagram b (snap_dgram all s k) in
  (k + 1 < chunk_count all -> filling (k + 1) b') /\ (k + 1 = chunk_count all -> Book.synced_ b' = true /\ Book.seq_ b' = s).
Proof.
  intros Hb Hk b'. assert (sub_ok base pkts b /\ Book.synced_ b = false) as [Hok Hun] by (destruct Hb as [[]|(_ & ? & ?)]; done).
  pose proof (feed_datagram_ok base pkts pkts_small b _ Hok (snap_dgram_genuine k Hk) : sub_ok base pkts b') as Hok'. revert Hok'. unfold b'. clear b'.
  unfold Book.on_datagram. cbn [snap_dgram fst snd magic count]. rewrite !Z.eqb_refl. cbn [negb orb]. unfold Book.on_packet. cbn [kind]. rewrite Hun.
  unfold Book.on_snapshot_part. cbn [part snap_seq parts count]. set (b0 := if _ || _ then _ else b).
  assert (Book.snap_id_ b0 = s /\ alen (Book.snap_parts_ b0) = chunk_count all /\ Book.snap_have_ b0 = k /\ Book.pending_ b0 = Book.pending_ b /\
    Book.synced_ b0 = false /\ forall i, k <= i < chunk_count all -> (Book.snap_parts_ b0).[i] = Some []) as (Hid & Hlen & Hhave & Hpend & Hun0 & Hrest).
  { unfold b0. destruct (Z.eqb_spec k 0) as [->|Hne]; cbn [orb].
    - simpl. split_and!; try done; [apply alen_amake; lia|]. intros i Hi. by apply aget_amake.
    - destruct Hb as [[_ H2 H3 H4 H5 H6]|(? & _)]; [|done]. rewrite H3, Z.eqb_refl. by split_and!. }
  clearbody b0. rewrite Hrest by lia.
  assert ((alen (chunk all k) =? 0) && (1 <? chunk_count all) = false) as ->.
  { destruct (Z.ltb_spec 1 (chunk_count all)); [|by rewrite andb_false_r]. rewrite (proj2 (Z.eqb_neq _ _)); [done|]. pose proof (chunk_nonempty k). lia. }
  set (e' := match chunk all k with [] => _ | _ => _ end). set (b1 := Book.set_snap b0 _ _ _). simpl Book.snap_have_. simpl Book.snap_parts_.
  assert (alen (<[Z.to_nat k:=e']> (Book.snap_parts_ b0)) = chunk_count all) as Hlen1 by (unfold alen in *; by rewrite length_insert).
  rewrite Hlen1, Hhave. destruct (Z.ltb_spec (k + 1) (chunk_count all)) as [Hmore|Hlast]; intros Hok'.
  - split; [|lia]. intros _. split; [done|done|done|done|simpl; by rewrite Hhave|]. intros i Hi. simpl. apply aget_Some. split; [lia|].
    rewrite list_lookup_insert_ne by lia. by apply aget_Some, Hrest; lia.
  - split; [lia|]. intros _. assert (pending_ok pkts (Book.pending_ b1)) as Hp by (simpl; rewrite Hpend; exact (sk_pending _ _ _ Hok)).
    exact (rebuild_synced pkts b1 Hp).
Qed.

Lemma snapshot_in_order b : sub_ok base pkts b -> Book.synced_ b = false ->
  let b' := Book.poll b (snap_dgram all s <$> seqZ 0 (chunk_count all)) in Book.synced_ b' = true /\ Book.seq_ b' = s.
Proof.
  intros Hok Hun b'. assert (forall k : nat, 1 <= Z.of_nat k < chunk_count all -> filling (Z.of_nat k) (Book.poll b (snap_dgram all s <$> seqZ 0 (Z.of_nat k)))) as Hfill.
  { intros k. induction k as [|k IH]; [lia|]. intros Hk. rewrite seqZ_S, fmap_app. unfold Book.poll. rewrite foldl_app. simpl.
    rewrite Z.add_0_l. replace (Z.of_nat (S k)) with (Z.of_nat k + 1) by lia. apply on_part; [|lia|lia].
    destruct k as [|k]; [right; done|left; apply IH; lia]. }
  assert (1 <= chunk_count all) as Hn by (unfold chunk_count; lia). unfold b'. clear b'. set (k := Z.to_nat (chunk_count all - 1)).
  replace (chunk_count all) with (Z.of_nat (S k)) by lia. rewrite seqZ_S, fmap_app. unfold Book.poll. rewrite foldl_app. simpl.
  rewrite Z.add_0_l. apply (on_part (Z.of_nat k)); [|lia|lia]. destruct (decide (k = 0)%nat) as [->|]; [right; done|left; apply Hfill; lia].
Qed.
End in_order.

(** The gateway's promise: the entries it has staged turn the books at the last flush into those of the engine. *)
Fixpoint truthful (e : E) (p : Publisher.t) (ops : list (MdOp E)) : Prop :=
  match ops with
  | [] => True
  | o :: ops =>
      match o with
      | OpFlush _ _ e' => engine_ok e' /\ snapshot_fits e' /\ engine_books e' = step_books (engine_books e) (staged_ p)
      | OpEnd e' => engine_ok e' /\ snapshot_fits e' /\ engine_books e' = engine_books e
      | _ => True
      end /\
      truthful (match o with OpFlush _ _ e' | OpEnd e' => e' | _ => e end) (md_step p o).1 ops
  end.
Definition last_engine (e : E) (ops : list (MdOp E)) : E :=
  foldl (fun e o => match o with OpFlush _ _ e' | OpEnd e' => e' | _ => e end) e ops.

(** The packets numbered so far take the first books to those of the engine at the last flush. *)
Record pub_ok (base : Book.Books) (pkts : list (list MdEntry)) (p : Publisher.t) (e : E) : Prop := {
  pk_seq : seq_ p = alen pkts;
  pk_books : after base pkts = engine_books e;
}.

Lemma pub_ok_at base pkts p e : pub_ok base pkts p e -> l2_at base pkts (seq_ p) = engine_books e.
Proof. intros [Hs Hb]. unfold l2_at. rewrite Hs, take_ge; [done|unfold alen; lia]. Qed.

Lemma md_step_ok base pkts p e o p' out ops : books_ok base -> pub_ok base pkts p e -> truthful e p (o :: ops) ->
  alen pkts + alen (staged_ p) + alen (o :: ops) < 9223372036854775808 -> md_step p o = (p', out) ->
  exists more, pub_ok base (pkts ++ more) p' (last_engine e [o]) /\ Forall (genuine base (pkts ++ more)) out /\ truthful (last_engine e [o]) p' ops /\
    alen (pkts ++ more) + alen (staged_ p') + alen ops < 9223372036854775808.
Proof.
  intros Hbase Hp [Hnow Hlater] Hb Hs. rewrite Hs in Hlater. cbn [fst] in Hlater. assert (alen (o :: ops) = alen ops + 1) as Hlen by (unfold alen; simpl; lia).
  pose proof Hp as [Hsq Hbk]. pose proof (alen_nonneg pkts). pose proof (alen_nonneg ops). pose proof (alen_nonneg (staged_ p)).
  destruct o as [s sd px q|s sd px q|lost now e'|now iv|e']; cbn [md_step last_engine foldl] in *.
  - injection Hs as <- <-. exists []. rewrite app_nil_r. split; [by split|]. split; [constructor|]. split; [done|]. unfold level, alen in *. simpl. rewrite length_app. simpl. lia.
  - injection Hs as <- <-. exists []. rewrite app_nil_r. split; [by split|]. split; [constructor|]. split; [done|]. unfold trade, alen in *. simpl. rewrite length_app. simpl. lia.
  - destruct Hnow as (Hok & Hfit & Hbooks). unfold flush in Hs.
    destruct (flush_loop_spec (length (staged_ p)) lost p (staged_ p) ltac:(lia) ltac:(lia) ltac:(lia)) as (p1 & o1 & pk & E1 & Hc & Hle & Hs1 & _ & _ & Hout).
    rewrite E1 in Hs. assert (pub_ok base (pkts ++ pk) p1 e') as Hp1.
    { split; [rewrite Hs1, Hsq; unfold alen; rewrite length_app; lia|]. unfold after in *. rewrite foldl_app, Hbk.
      fold (after (engine_books e) pk). rewrite after_concat by apply apply_ok, books_ok_nil. by rewrite Hc. }
    assert (Forall (genuine base (pkts ++ pk)) o1) as Hg1.
    { apply Forall_forall. intros d Hd. destruct (Hout d Hd) as (i & en & Hi & ->). intros _ _. simpl. split; [lia|].
      rewrite lookup_app_r by (unfold alen in *; lia). rewrite <- Hi. f_equal. unfold alen in *. lia. }
    exists pk. destruct (if (_ : bool) then snapshot p1 e' else (p1, [])) as [p2 o2] eqn:E2. injection Hs as <- <-.
    assert (Forall (genuine base (pkts ++ pk)) o2 /\ seq_ p2 = seq_ p1) as [Hg2 Hs2].
    { destruct (_ && _); [|injection E2 as <- <-; split; [constructor|done]]. split; [|by injection E2 as <- <-].
      eapply snapshot_genuine; [done|done| | |exact E2]; [by apply pub_ok_at|]. rewrite (pk_seq _ _ _ _ Hp1). split; [apply alen_nonneg|lia]. }
    destruct Hp1 as [G1 G2]. split; [split; [simpl; by rewrite Hs2|done]|]. split; [by apply Forall_app|]. split; [done|].
    simpl. unfold alen in *. rewrite length_app. simpl. lia.
  - exists []. rewrite app_nil_r. unfold heartbeat_if_idle in Hs. destruct (_ <? iv); injection Hs as <- <-; (split; [by split|split; [|split; [done|simpl; lia]]]).
    + constructor.
    + by repeat constructor.
  - destruct Hnow as (Hok & Hfit & Hbooks). exists []. rewrite app_nil_r. unfold end_ in Hs. destruct (snapshot p e') as [p1 o1] eqn:E1. injection Hs as <- <-.
    assert (Forall (genuine base pkts) o1) as Hg. { eapply snapshot_genuine; [done|done| | |exact E1]; [rewrite Hbooks; by apply pub_ok_at|lia]. }
    injection E1 as <- _. split; [split; [done|by rewrite Hbooks]|]. split; [apply Forall_app; split; [done|by repeat constructor]|]. split; [done|simpl; lia].
Qed.

Lemma md_run_ok base ops : books_ok base -> forall pkts p e ops' p' out, pub_ok base pkts p e -> truthful e p (ops ++ ops') ->
  alen pkts + alen (staged_ p) + alen (ops ++ ops') < 9223372036854775808 -> md_run p ops = (p', out) ->
  exists more, pub_ok base (pkts ++ more) p' (last_engine e ops) /\ Forall (genuine base (pkts ++ more)) out /\ truthful (last_engine e ops) p' ops' /\
    alen (pkts ++ more) + alen (staged_ p') + alen ops' < 9223372036854775808.
Proof.
  intros Hbase. induction ops as [|o ops IH]; intros pkts p e ops' p' out Hp Ht Hb Hr; cbn [md_run app] in *.
  - injection Hr as <- <-. exists []. rewrite app_nil_r. split_and!; try done.
  - destruct (md_step p o) as [p1 o1] eqn:E1. destruct (md_run p1 ops) as [p2 o2] eqn:E2. injection Hr as <- <-.
    destruct (md_step_ok base pkts p e o p1 o1 (ops ++ ops') Hbase Hp Ht Hb E1) as (m1 & Hp1 & Hg1 & Ht1 & Hb1).
    destruct (IH _ _ _ ops' _ _ Hp1 Ht1 Hb1 E2) as (m2 & Hp2 & Hg2 & Ht2 & Hb2). exists (m1 ++ m2). rewrite app_assoc. split_and!; try done.
    apply Forall_app. split; [|done]. eapply Forall_impl; [exact Hg1|]. intros d. apply genuine_more.
Qed.
End publisher.
End FeedLaws.

(** ** The feed *)

Module FeedTheorems.
Import OrdMap MdFeed FeedLaws.

(** The engine over reference books. *)
#[export] Instance reference_engine : L2Engine (MatchingEngine.t ReferenceBook.t) := {
  num_symbols e := alen e;
  for_each_level e s sd :=
    match e.[s] with Some r => (fun x => (x.1, ReferenceBook.level_qty x.2)) <$> ReferenceBook.book r sd | None => [] end;
}.

Lemma reference_engine_ok (e : MatchingEngine.t ReferenceBook.t) :
  (forall s r, e.[s] = Some r -> ReferenceBook.wf r) ->
  (forall s r sd px q, e.[s] = Some r -> (px, q) ∈ ReferenceBook.book r sd -> ReferenceBook.level_qty q <> 0) -> engine_ok e.
Proof.
  intros Hwf Hq s sd Hs. simpl. destruct (aget_is_Some e s Hs) as [r Hr]. rewrite Hr. split.
  - rewrite <- list_fmap_compose. rewrite (list_fmap_ext _ fst) by done. pose proof (Hwf _ _ Hr) as Hw. destruct sd; apply Hw.
  - apply Forall_fmap, Forall_forall. intros [px q] Hin. simpl. by eapply Hq.
Qed.

Section feed.
Context {E : Type} `{L2Engine E}.

Definition fresh_run (every : Z) (e0 : E) (ops : list (MdOp E)) : Prop :=
  engine_ok e0 /\ truthful e0 (Publisher.make every) ops /\ alen ops < 9223372036854775808.

Lemma fresh_run_ok every e0 ops1 ops2 p1 sent1 : fresh_run every e0 (ops1 ++ ops2) -> md_run (Publisher.make every) ops1 = (p1, sent1) ->
  exists pkts, pub_ok (engine_books e0) pkts p1 (last_engine e0 ops1) /\ Forall (genuine (engine_books e0) pkts) sent1 /\
    truthful (last_engine e0 ops1) p1 ops2 /\ alen pkts + alen (Publisher.staged_ p1) + alen ops2 < 9223372036854775808.
Proof.
  intros (_ & Ht & Hb) Hr. assert (pub_ok (engine_books e0) [] (Publisher.make every) e0) as Hp by done.
  destruct (md_run_ok (engine_books e0) ops1 (apply_ok _ _ books_ok_nil) [] _ _ ops2 _ _ Hp Ht ltac:(simpl; unfold alen in *; simpl; lia) Hr) as (pkts & H1 & H2 & H3 & H4).
  by exists pkts.
Qed.

Lemma truthful_engine_ok ops : forall (e : E) p, engine_ok e -> truthful e p ops -> engine_ok (last_engine e ops).
Proof.
  induction ops as [|o ops IH]; intros e p He Ht; [done|]. destruct Ht as [Hnow Ht]. unfold last_engine. cbn [foldl]. eapply IH; [|exact Ht].
  by destruct o; try destruct Hnow.
Qed.

Lemma truthful_prefix ops1 ops2 : forall (e : E) p, truthful e p (ops1 ++ ops2) -> truthful e p ops1.
Proof. induction ops1 as [|o l IH]; intros e p Ht; [done|]. destruct Ht as [Hn Ht]. split; [done|]. by apply IH. Qed.

(** C22: the recovery model of the feed: whatever the network loses, duplicates and reorders, and whichever snapshots it
    recovers from, a subscriber that is in sync after the packet that ended some batch holds exactly the level-2 book
    the engine had then, and the two digests are equal. *)
Theorem feed_book_exact every (e0 : E) ops1 ops2 p1 sent1 p2 sent2 ds b (Hrun : fresh_run every e0 (ops1 ++ ops2))
  (Hbefore : md_run (Publisher.make every) ops1 = (p1, sent1)) (Hafter : md_run p1 ops2 = (p2, sent2))
  (Hnet : forall d, d ∈ ds -> d ∈ sent1 ++ sent2 \/ magic d.1 <> kMagic)
  (Hrecv : Book.poll Book.make ds = b) (Hsync : Book.synced b = true) (Hseq : Book.last_seq b = Publisher.seq_ p1) :
  Book.books_ b = engine_books (last_engine e0 ops1) /\ Book.digest b = engine_l2_digest (last_engine e0 ops1).
Proof.
  destruct (fresh_run_ok _ _ _ _ _ _ Hrun Hbefore) as (pkts & Hp1 & Hg1 & Ht & Hb).
  assert (books_ok (engine_books e0)) as Hbase by apply apply_ok, books_ok_nil.
  destruct (md_run_ok _ ops2 Hbase pkts p1 _ [] p2 sent2 Hp1 ltac:(by rewrite app_nil_r) ltac:(by rewrite app_nil_r) Hafter) as (more & Hp2 & Hg2 & _ & Hb2).
  assert (sub_ok (engine_books e0) (pkts ++ more) b) as Hs.
  { rewrite <- Hrecv. pose proof (alen_nonneg (Publisher.staged_ p2)). apply poll_ok; [unfold alen in *; simpl in *; lia|apply make_ok|]. apply Forall_forall. intros d Hd.
    destruct (Hnet d Hd) as [Hin|Hm]; [|by intros ?]. rewrite Forall_forall in Hg1, Hg2.
    apply elem_of_app in Hin as [Hin|Hin]; [by apply genuine_more, Hg1|by apply Hg2]. }
  destruct (sk_synced _ _ _ Hs Hsync) as [_ Hbooks]. unfold Book.last_seq in Hseq.
  assert (Book.books_ b = engine_books (last_engine e0 ops1)) as Heq.
  { rewrite Hbooks, Hseq, l2_at_more, (pub_ok_at _ _ _ _ Hp1); [done|]. rewrite (pk_seq _ _ _ _ Hp1). split; [apply alen_nonneg|lia]. }
  split; [done|]. rewrite digest_of_books, Heq. unfold engine_l2_digest. f_equal. apply levels_of_engine_books.
  destruct Hrun as (He & Ht0 & _). eapply truthful_engine_ok; [done|]. by eapply truthful_prefix.
Qed.

Lemma on_part_synced b all s k : Book.synced_ b = true -> Book.on_datagram b (snap_dgram all s k) = b.
Proof. intros Hs. unfold Book.on_datagram. cbn [snap_dgram fst snd magic count]. rewrite !Z.eqb_refl. cbn [negb orb]. unfold Book.on_packet. cbn [kind]. by rewrite Hs. Qed.

Lemma parts_synced b all s l : Book.synced_ b = true -> Book.poll b (snap_dgram all s <$> l) = b.
Proof. intros Hs. induction l as [|k l IH]; [done|]. unfold Book.poll in *. cbn [fmap list_fmap foldl]. by rewrite on_part_synced. Qed.

Lemma on_end b s : Book.synced_ b = true -> Book.seq_ b = s ->
  let b' := Book.on_datagram b (Publisher.send End_ s s 0 1 [] 0) in
  Book.synced_ b' = true /\ Book.seq_ b' = s /\ Book.books_ b' = Book.books_ b /\ Book.ended_ b' = true.
Proof. intros H1 H2. unfold Book.on_datagram, Book.on_packet. simpl. rewrite H1, H2, Z.ltb_irrefl. simpl. by rewrite H1, H2, Z.leb_refl. Qed.

(** C23: the orderly end of the feed: a subscriber that has lost its book, or that has every packet, ends in sync and at the
    end, with the engine's digest, once the final datagrams arrive, whatever it has received before. *)
Theorem feed_ends_in_sync every (e0 : E) ops p sent e p' last ds b (Hrun : fresh_run every e0 (ops ++ [OpEnd e]))
  (Hbefore : md_run (Publisher.make every) ops = (p, sent)) (Hend : Publisher.end_ p e = (p', last))
  (Hnet : forall d, d ∈ ds -> d ∈ sent \/ magic d.1 <> kMagic) (Hrecv : Book.poll Book.make ds = b)
  (Hstate : Book.synced b = true -> Book.last_seq b = Publisher.seq_ p) :
  let b' := Book.poll b last in
  Book.synced b' = true /\ Book.ended b' = true /\ Book.digest b' = engine_l2_digest e.
Proof.
  intros b'. destruct (fresh_run_ok _ _ _ _ _ _ Hrun Hbefore) as (pkts & Hp & Hg & Ht & Hb). pose proof (alen_nonneg (Publisher.staged_ p)).
  assert (alen pkts < 9223372036854775808) as Hsmall by (unfold alen in *; simpl in *; lia). set (base := engine_books e0) in *.
  assert (sub_ok base pkts b) as Hs.
  { rewrite <- Hrecv. apply poll_ok; [done|apply make_ok|]. apply Forall_forall. intros d Hd. destruct (Hnet d Hd) as [Hin|Hm]; [|by intros ?].
    rewrite Forall_forall in Hg. by apply Hg. }
  destruct Ht as [(He & Hfit & Hbooks) _]. pose proof (pub_ok_at _ _ _ _ Hp) as Hat. pose proof (pk_seq _ _ _ _ Hp) as Hseq. rewrite <- Hbooks, Hseq in Hat.
  assert (snap_ok base pkts (alen pkts)) as Hshow.
  { split; [pose proof (alen_nonneg pkts); lia|]. by rewrite Hat, levels_of_engine_books. }
  unfold Publisher.end_ in Hend. destruct (Publisher.snapshot p e) as [p1 o1] eqn:E1. injection Hend as <- <-. injection E1 as <- <-. simpl Publisher.seq_ in b'.
  assert (Publisher.part_count (all_levels e) = chunk_count (all_levels e)) as Hpc by (by apply part_count_chunks).
  set (parts := snap_dgram (all_levels e) (alen pkts) <$> seqZ 0 (chunk_count (all_levels e))).
  assert (Publisher.snapshot_part (all_levels e) (Publisher.seq_ p) <$> seqZ 0 (Publisher.part_count (all_levels e)) = parts) as Hparts.
  { unfold parts. rewrite Hpc, Hseq. apply list_fmap_ext. intros i k Hk%list_elem_of_lookup_2%elem_of_seqZ. apply snapshot_part_eq; [done|lia]. }
  assert (Book.synced_ (Book.poll b parts) = true /\ Book.seq_ (Book.poll b parts) = alen pkts) as [Hsy Hsq].
  { destruct (Book.synced_ b) eqn:Esy.
    - unfold parts. rewrite parts_synced by done. split; [done|]. rewrite <- Hseq. by apply Hstate.
    - pose proof (snapshot_in_order base pkts Hsmall Hshow b Hs Esy) as Hin. unfold parts. rewrite Hat, levels_of_engine_books in Hin by done. exact Hin. }
  assert (sub_ok base pkts (Book.poll b parts)) as Hs1.
  { apply poll_ok; [done|done|]. apply Forall_fmap, Forall_forall. intros k Hk%elem_of_seqZ. cbn [compose].
    pose proof (snap_dgram_genuine base pkts Hshow k) as Hgen. rewrite Hat, levels_of_engine_books in Hgen by done. apply Hgen. lia. }
  assert (Book.synced_ b' = true /\ Book.ended_ b' = true /\ Book.books_ b' = Book.books_ (Book.poll b parts)) as (H1 & H2 & H3).
  { unfold b'. rewrite Hparts. unfold Book.poll. rewrite foldl_app. fold (Book.poll b parts). set (b1 := Book.poll b parts) in *.
    rewrite Hseq. cbn [foldl]. destruct (on_end b1 (alen pkts)) as (A1 & A2 & A3 & _); [done..|].
    destruct (on_end _ (alen pkts) A1 A2) as (B1 & B2 & B3 & _). destruct (on_end _ (alen pkts) B1 B2) as (C1 & C2 & C3 & C4).
    split; [done|]. split; [done|]. by rewrite C3, B3. }
  split; [done|]. split; [done|]. rewrite digest_of_books, H3. destruct (sk_synced _ _ _ Hs1 Hsy) as [_ ->]. rewrite Hsq, Hat.
  unfold engine_l2_digest. f_equal. by apply levels_of_engine_books.
Qed.
End feed.

(** One symbol; a bid of 10, then one of 5 below it, then an ask. *)
Definition demo_engine (cs : list Command) : MatchingEngine.t ReferenceBook.t :=
  match MatchingEngine.make 1 (mkBookConfig 1 1000 64 StpNone) with
  | Some e => match MatchingEngine.run e cs with Some (e, _) => e | None => [] end
  | None => []
  end.
Definition demo_new (id price qty : Z) (sd : Side) : Command := mkCommand id price id 0 qty 1 0 NewOrder sd Limit Day 0.
Definition demo_e0 := demo_engine [].
Definition demo_e1 := demo_engine [demo_new 1 100 10 Buy].
Definition demo_e2 := demo_engine [demo_new 1 100 10 Buy; demo_new 2 90 5 Buy].
Definition demo_e3 := demo_engine [demo_new 1 100 10 Buy; demo_new 2 90 5 Buy; demo_new 3 110 7 Sell].
(** A snapshot is due every two packets; packet 3 is lost. *)
Definition demo_ops1 : list (MdOp (MatchingEngine.t ReferenceBook.t)) :=
  [OpLevel 0 Buy 100 10; OpFlush (fun _ => false) 1 demo_e1; OpLevel 0 Buy 90 5; OpFlush (fun _ => false) 2 demo_e2].
Definition demo_ops2 : list (MdOp (MatchingEngine.t ReferenceBook.t)) :=
  [OpLevel 0 Sell 110 7; OpFlush (fun k => k =? 3) 3 demo_e3].

Lemma demo_ok : engine_ok demo_e0 /\ engine_ok demo_e1 /\ engine_ok demo_e2 /\ engine_ok demo_e3.
Proof.
  split_and!; intros s sd Hs; change (0 <= s < 1) in Hs; assert (s = 0) as -> by lia; destruct sd; vm_compute; split; repeat constructor; discriminate.
Qed.

Lemma demo_run ops : ops = [] \/ ops = [OpEnd demo_e3] -> fresh_run 2 demo_e0 (demo_ops1 ++ demo_ops2 ++ ops).
Proof.
  intros Hops. destruct demo_ok as (H0 & H1 & H2 & H3). split; [done|].
  destruct Hops as [-> | ->]; (split; [|reflexivity]); cbn [app demo_ops1 demo_ops2 truthful];
    repeat (split; [first [exact I|split; [assumption|split; [vm_compute; discriminate|vm_compute; reflexivity]]]|]); exact I.
Qed.

Lemma feed_book_exact_witness : exists b, Book.synced b = true /\ Book.digest b = engine_l2_digest demo_e2.
Proof.
  destruct (md_run (Publisher.make 2) demo_ops1) as [p1 sent1] eqn:E1. destruct (md_run p1 demo_ops2) as [p2 sent2] eqn:E2.
  assert (forall d, d ∈ reverse sent1 ++ sent1 -> d ∈ sent1 ++ sent2 \/ magic d.1 <> kMagic) as Hnet.
  { intros d Hd. left. apply elem_of_app. left. apply elem_of_app in Hd as [Hd|Hd]; [by apply elem_of_reverse|exact Hd]. }
  exists (Book.poll Book.make (reverse sent1 ++ sent1)).
  assert (Book.synced (Book.poll Book.make (reverse sent1 ++ sent1)) = true /\
    Book.last_seq (Book.poll Book.make (reverse sent1 ++ sent1)) = Publisher.seq_ p1) as [Hs Hq]
    by (vm_compute in E1; injection E1 as <- <-; vm_compute; split; reflexivity).
  split; [exact Hs|].
  apply (feed_book_exact 2 demo_e0 demo_ops1 demo_ops2 p1 sent1 p2 sent2 _ _ (demo_run [] (or_introl eq_refl)) E1 E2 Hnet eq_refl Hs Hq).
Defined.

Lemma feed_ends_in_sync_witness : exists b, Book.ended b = true /\ Book.digest b = engine_l2_digest demo_e3.
Proof.
  destruct (md_run (Publisher.make 2) (demo_ops1 ++ demo_ops2)) as [p sent] eqn:E1. destruct (Publisher.end_ p demo_e3) as [p' last] eqn:E2.
  pose proof (demo_run [OpEnd demo_e3] (or_intror eq_refl)) as Hrun. rewrite app_assoc in Hrun.
  destruct (feed_ends_in_sync 2 demo_e0 _ p sent demo_e3 p' last [] Book.make Hrun E1 E2) as (_ & H1 & H2);
    [intros d Hd; inversion Hd|reflexivity|discriminate|]. exists (Book.poll Book.make last). split; assumption.
Defined.

(** The subscriber that has every datagram but the last incremental packet is still in sync when the final snapshot
    arrives, so it takes no notice of it; [End_] then tells it that it is behind, and nothing follows. *)
Lemma feed_end_out_of_sync :
  let '(p, sent) := md_run (Publisher.make 2) (demo_ops1 ++ demo_ops2) in
  let '(_, last) := Publisher.end_ p demo_e3 in
  let b := Book.poll Book.make (sent ++ last) in
  fresh_run 2 demo_e0 (demo_ops1 ++ demo_ops2 ++ [OpEnd demo_e3]) /\ Book.synced (Book.poll Book.make sent) = true /\
  Book.synced b = false /\ Book.ended b = false /\ Book.books_ b = [].
Proof.
  destruct (md_run (Publisher.make 2) (demo_ops1 ++ demo_ops2)) as [p sent] eqn:E1. destruct (Publisher.end_ p demo_e3) as [p' last] eqn:E2.
  split; [apply demo_run; by right|]. vm_compute in E1. injection E1 as <- <-. vm_compute in E2. injection E2 as <- <-. vm_compute. by split_and!.
Qed.
End FeedTheorems.
