(* ===== verification/Gateway.v ===== *)
(** * The order-entry gateway (tools/gateway.hpp)

    The loop that ties the components together: it decodes what clients send, numbers the commands, writes them to the
    journal, publishes them to the replicas, hands them to the risk gate and the engine, and sends each party its reports.
    One iteration of the loop is a function of what the system calls return: the events and their bytes, the clock, the
    failures of the journal, and how much of its output each connection takes. Everything that leaves the process is in the
    trace [Out], in order. No result is an exception that nobody catches, undefined behaviour in the engine, or an
    iteration that is still waiting for a replica. *)
From S2P Require Import Prelude Bits Bytes Common ReferenceBook Engine Risk Protocol ClientIds Journal SeqStream MdFeed.

(** What the gateway asks of an engine. *)
Class GatewayEngine (E : Type) := {
  gw_engine :: EngineImpl E;
  gw_l2 :: MdFeed.L2Engine E;
  gw_find_order : E -> Z -> Z -> option (option OrderView);
  gw_contains : E -> Z -> Z -> option bool;
  gw_level_qty : E -> Z -> Side -> Z -> option Z;
}.

Module Gateway.

Inductive SyncMode := SyncOs | SyncBatch | SyncEvery.
Record GatewayConfig := mkConfig {
  sync_mode : SyncMode;
  batch : Z;
  wait_replica : bool;
  replica_timeout_ms : Z;
  halt_on_replica_loss : bool;
  trust_client_ids : bool;
}.

(** [in_] is the first [in_len] bytes of the buffer. *)
Record Conn := mkConn { fd : Z; owner : Z; in_ : list Z; out : list Z; out_off : Z; want_out : bool; paused : bool }.
Definition set_in (c : Conn) (bs : list Z) : Conn := mkConn (fd c) (owner c) bs (out c) (out_off c) (want_out c) (paused c).
Definition set_out (c : Conn) (bs : list Z) (off : Z) (want pause : bool) : Conn := mkConn (fd c) (owner c) (in_ c) bs off want pause.

(** [append_report], and the other writes at the end of [out]. *)
Definition append_bytes (c : Conn) (bs : list Z) : Conn := set_out c (out c ++ bs) (out_off c) (want_out c) (paused c).

(** ** Market data of a batch *)

Record Level := mkLevel { lv_symbol : Z; lv_side : Side; lv_px : Z }.
Record MdBatch := mkBatch { levels : list Level; trades : list Event }.
Definition note (b : MdBatch) (e : Event) : MdBatch :=
  match e_type e with
  | Trade => mkBatch (levels b ++ [mkLevel (e_symbol e) (opposite (e_side e)) (e_price e)]) (trades b ++ [e])
  | Accepted | Canceled | Modified =>
      if e_price e =? 0 then b else mkBatch (levels b ++ [mkLevel (e_symbol e) (e_side e) (e_price e)]) (trades b)
  | _ => b
  end.

(** The order of [Level], and [std::sort] with [std::unique] under it. *)
Definition level_key (l : Level) : Z * Z * Z := (lv_symbol l, Side_to_Z (lv_side l), lv_px l).
Definition key_lt (a b : Z * Z * Z) : bool :=
  (a.1.1 <? b.1.1) || (a.1.1 =? b.1.1) && ((a.1.2 <? b.1.2) || (a.1.2 =? b.1.2) && (a.2 <? b.2)).
Fixpoint level_insert (l : Level) (ls : list Level) : list Level :=
  match ls with
  | [] => [l]
  | x :: ls' => if key_lt (level_key l) (level_key x) then l :: ls
                else if key_lt (level_key x) (level_key l) then x :: level_insert l ls' else ls
  end.
Definition sort_unique (ls : list Level) : list Level := foldl (fun a l => level_insert l a) [] ls.

Inductive Halt := Fenced | JournalError | ReplicaLost.
(** What leaves the process, in order. *)
Inductive Out := ToClient (fd : Z) (bs : list Z) | ToReplicas (d : SeqStream.Datagram) | ToMarket (d : MdFeed.MdDatagram) | Closed (fd : Z).

Section gateway.
Context {E : Type} `{GatewayEngine E}.

(** The variables of [run_gateway]. The journal is what has been written to the file; [flushed] of its bytes are with the
    operating system. *)
Record t := mk {
  conns : gmap Z Conn;
  owner_fd : gmap Z Z;
  ids : ClientIdMap.t;
  gate : RiskGate.t E;
  digest : EventDigest.t;
  journal : Journal.JournalWriter;
  flushed : Z;
  pub : option SeqStream.Publisher.t;
  md : option MdFeed.Publisher.t;
  md_batch : MdBatch;
  seq : Z;
  next_owner : Z;
  handled : Z;
  malformed : Z;
  since_sync : Z;
  replica_lost : bool;
  halted : option Halt;
  journal_failed : bool;
}.

Definition set_conns (g : t) (cs : gmap Z Conn) (o : gmap Z Z) (next : Z) : t :=
  mk cs o (ids g) (gate g) (digest g) (journal g) (flushed g) (pub g) (md g) (md_batch g) (seq g) next (handled g) (malformed g)
    (since_sync g) (replica_lost g) (halted g) (journal_failed g).
Definition set_ids (g : t) (x : ClientIdMap.t) : t :=
  mk (conns g) (owner_fd g) x (gate g) (digest g) (journal g) (flushed g) (pub g) (md g) (md_batch g) (seq g) (next_owner g)
    (handled g) (malformed g) (since_sync g) (replica_lost g) (halted g) (journal_failed g).
Definition set_engine (g : t) (x : RiskGate.t E) (d : EventDigest.t) : t :=
  mk (conns g) (owner_fd g) (ids g) x d (journal g) (flushed g) (pub g) (md g) (md_batch g) (seq g) (next_owner g)
    (handled g) (malformed g) (since_sync g) (replica_lost g) (halted g) (journal_failed g).
Definition set_journal (g : t) (j : Journal.JournalWriter) (n : Z) : t :=
  mk (conns g) (owner_fd g) (ids g) (gate g) (digest g) j n (pub g) (md g) (md_batch g) (seq g) (next_owner g)
    (handled g) (malformed g) (since_sync g) (replica_lost g) (halted g) (journal_failed g).
Definition set_pub (g : t) (p : option SeqStream.Publisher.t) : t :=
  mk (conns g) (owner_fd g) (ids g) (gate g) (digest g) (journal g) (flushed g) p (md g) (md_batch g) (seq g) (next_owner g)
    (handled g) (malformed g) (since_sync g) (replica_lost g) (halted g) (journal_failed g).
Definition set_md (g : t) (m : option MdFeed.Publisher.t) (b : MdBatch) : t :=
  mk (conns g) (owner_fd g) (ids g) (gate g) (digest g) (journal g) (flushed g) (pub g) m b (seq g) (next_owner g)
    (handled g) (malformed g) (since_sync g) (replica_lost g) (halted g) (journal_failed g).
Definition set_counts (g : t) (sq h m ss : Z) : t :=
  mk (conns g) (owner_fd g) (ids g) (gate g) (digest g) (journal g) (flushed g) (pub g) (md g) (md_batch g) sq (next_owner g)
    h m ss (replica_lost g) (halted g) (journal_failed g).
Definition set_halted (g : t) (lost : bool) (h : option Halt) (failed : bool) : t :=
  mk (conns g) (owner_fd g) (ids g) (gate g) (digest g) (journal g) (flushed g) (pub g) (md g) (md_batch g) (seq g) (next_owner g)
    (handled g) (malformed g) (since_sync g) lost h failed.

Definition append_out (g : t) (f : Z) (bs : list Z) : t :=
  set_conns g (alter (fun c => append_bytes c bs) f (conns g)) (owner_fd g) (next_owner g).

(** ** Reports *)

Record Sink := mkSink { sk_fd : Z; sk_owner : Z; sk_client_seq : Z; sk_client_id : Z; sk_exchange_id : Z; sk_translate : bool }.
Definition with_ids (e : Event) (order maker : Z) : Event :=
  mkEvent order maker (e_price e) (e_qty e) (e_leaves e) (e_symbol e) (e_type e) (e_reason e) (e_side e) (e_request e).

(** [on_event]: with the gateway, the ids mentioned and the connections touched so far. *)
Definition on_event (k : Sink) (a : t * list Z * list Z) (e : Event) : option (t * list Z * list Z) :=
  let '(g, mentioned, touched) := a in
  let g := set_engine g (gate g) (EventDigest.on_event (digest g) e) in
  let g := match md g with Some _ => set_md g (md g) (note (md_batch g) e) | None => g end in
  if negb (sk_translate k) then Some (append_out g (sk_fd k) (Wire.encode_report e (sk_client_seq k)), mentioned, touched) else
  let order := if e_order_id e =? sk_exchange_id k then sk_client_id k else ClientIdMap.to_client (ids g) (e_order_id e) (sk_owner k) in
  let maker := if e_maker_id e =? 0 then e_maker_id e else ClientIdMap.to_client (ids g) (e_maker_id e) (sk_owner k) in
  let g := append_out g (sk_fd k) (Wire.encode_report (with_ids e order maker) (sk_client_seq k)) in
  let mentioned := if e_order_id e =? sk_exchange_id k then mentioned else mentioned ++ [e_order_id e] in
  if e_maker_id e =? 0 then Some (g, mentioned, touched) else
  let mentioned := mentioned ++ [e_maker_id e] in
  let maker_owner := ClientIdMap.owner_of (ids g) (e_maker_id e) in
  if negb (bool_decide (e_type e = Trade)) || (maker_owner =? sk_owner k) then Some (g, mentioned, touched) else
  match owner_fd g !! maker_owner with
  | None => Some (g, mentioned, touched)
  | Some f =>
      _ ← conns g !! f;
      let m := with_ids e 0 (ClientIdMap.to_client (ids g) (e_maker_id e) maker_owner) in
      Some (append_out g f (Wire.encode_report m 0), mentioned, touched ++ [f])
  end.
Fixpoint on_events (k : Sink) (a : t * list Z * list Z) (es : list Event) : option (t * list Z * list Z) :=
  match es with [] => Some a | e :: es => a ← on_event k a e; on_events k a es end.

(** ** The journal, and what stops this primary *)

(** [journal_io]: [fails] is the exception of the operation. *)
Definition journal_io (g : t) (fails : bool) (op : t -> t) : t * bool :=
  if journal_failed g then (g, false) else
  if fails then (set_halted g (replica_lost g) (Some JournalError) true, false) else (op g, true).
Definition append (c : Command) (g : t) : t := set_journal g (Journal.append (journal g) c) (flushed g).
(** [journal.flush()], and [journal.sync()], which also forces the bytes to the disk. *)
Definition flush_journal (g : t) : t := set_journal g (journal g) (alen (Journal.file_ (journal g))).

Definition fence_check (g : t) : t :=
  match pub g, halted g with
  | Some p, None => if SeqStream.Publisher.fenced p then set_halted g (replica_lost g) (Some Fenced) (journal_failed g) else g
  | _, _ => g
  end.

(** ** One message of a client *)

(** The messages of the system for one command: the clock, and the journal's failures. *)
Record Calls := mkCalls { now : Z; append_fails : bool; sync_fails : bool }.

Fixpoint retire_dead (g : t) (symbol : Z) (l : list Z) : option t :=
  match l with
  | [] => Some g
  | x :: l =>
      if x =? 0 then retire_dead g symbol l else
      dead ← (if en_num_symbols (RiskGate.engine_ (gate g)) <=? symbol then Some true
              else negb <$> gw_contains (RiskGate.engine_ (gate g)) symbol x);
      retire_dead (if dead : bool then set_ids g (ClientIdMap.retire (ids g) x) else g) symbol l
  end.

Definition stamped (c : Command) (id sq ow ts : Z) : Command :=
  mkCommand id (c_price c) sq ts (c_qty c) ow (c_symbol c) (c_type c) (c_side c) (c_ord_type c) (c_tif c) (c_flags c).

(** The command as the sequencer sees it: exchange id, number, session and time. *)
Definition sequence (cfg : GatewayConfig) (g : t) (ow : Z) (cmd : Command) (ts : Z) : t * Command :=
  let key := ClientIdMap.mkKey (c_order_id cmd) (c_symbol cmd) ow in
  let '(id, tbl) :=
    if trust_client_ids cfg then (c_order_id cmd, ids g) else
    match c_type cmd with NewOrder => ClientIdMap.for_new (ids g) key | _ => (ClientIdMap.find (ids g) key, ids g) end in
  let g := set_counts (set_ids g tbl) (u64 (seq g + 1)) (handled g) (malformed g) (since_sync g) in
  (g, stamped cmd id (seq g) ow ts).

Definition publish (g : t) (c : Command) : option t :=
  match pub g with Some p => p ← SeqStream.Publisher.publish p c; Some (set_pub g (Some p)) | None => Some g end.

(** A modify also changes the level it leaves. *)
Definition note_leaving (g : t) (c : Command) : option t :=
  match md g, c_type c with
  | Some m, Modify =>
      if c_symbol c <? en_num_symbols (RiskGate.engine_ (gate g)) then
        v ← gw_find_order (RiskGate.engine_ (gate g)) (c_symbol c) (c_order_id c);
        match v with
        | Some v => Some (set_md g (Some m) (mkBatch (levels (md_batch g) ++ [mkLevel (c_symbol c) (v_side v) (v_price v)]) (trades (md_batch g))))
        | None => Some g
        end
      else Some g
  | _, _ => Some g
  end.

(** The command is counted, and the journal synchronised if it is due. *)
Definition settle (cfg : GatewayConfig) (g : t) (fails : bool) : t * bool :=
  let g := set_counts g (seq g) (handled g + 1) (malformed g) (since_sync g) in
  match sync_mode cfg with
  | SyncOs => (g, true)
  | SyncEvery => journal_io (set_counts g (seq g) (handled g) (malformed g) 0) fails flush_journal
  | SyncBatch =>
      let n := u64 (since_sync g + 1) in
      if n <? batch cfg then (set_counts g (seq g) (handled g) (malformed g) n, true) else
      journal_io (set_counts g (seq g) (handled g) (malformed g) 0) fails flush_journal
  end.

(** The body of the decoding loop for a command of connection [f]: the state, the connections touched, whether it was
    journaled, and whether the loop goes on. *)
Definition on_command (cfg : GatewayConfig) (g : t) (f ow : Z) (touched : list Z) (cmd : Command) (sys : Calls) : option (t * list Z * bool * bool) :=
  let '(g, c) := sequence cfg g ow cmd (now sys) in
  let '(g, ok) := journal_io g (append_fails sys) (append c) in
  if negb ok then Some (g, touched, false, false) else
  g ← publish g c;
  g ← note_leaving g c;
  '(gt, es) ← RiskGate.process (gate g) c;
  let g := set_engine g gt (digest g) in
  let k := mkSink f ow (c_seq cmd) (c_order_id cmd) (c_order_id c) (negb (trust_client_ids cfg)) in
  '(g, mentioned, touched) ← on_events k (g, [], touched) es;
  g ← (if trust_client_ids cfg then Some g else retire_dead g (c_symbol c) (mentioned ++ [c_order_id c]));
  let g := append_out g f (Wire.encode_done (c_symbol c) (c_seq cmd)) in
  let '(g, ok) := settle cfg g (sync_fails sys) in
  Some (g, touched, true, ok).

(** The decoding loop over the bytes [buf] of a connection: what is left of them, whether framing is lost, and whether any
    command was journaled. [sys] is indexed by the sequence number. *)
Fixpoint decode_loop (fuel : nat) (cfg : GatewayConfig) (sys : Z -> Calls) (g : t) (f ow : Z) (touched : list Z) (any : bool)
    (buf : list Z) : option (t * list Z * bool * list Z * bool) :=
  match fuel with
  | O => None
  | S fuel =>
      if alen buf =? 0 then Some (g, touched, any, buf, false) else
      let r := Wire.decode buf in
      match Wire.status r with
      | Wire.Incomplete => Some (g, touched, any, buf, false)
      | Wire.Malformed =>
          let g := set_counts g (seq g) (handled g) (malformed g + 1) (since_sync g) in
          if Wire.consumed r =? 0 then Some (g, touched, any, buf, true) else
          decode_loop fuel cfg sys g f ow touched any (drop (Z.to_nat (Wire.consumed r)) buf)
      | Wire.Ok =>
          cmd ← Wire.decoded r;
          let rest := drop (Z.to_nat (Wire.consumed r)) buf in
          '(g, touched, journaled, go) ← on_command cfg g f ow touched cmd (sys (u64 (seq g + 1)));
          let any := any || journaled in
          if go : bool then decode_loop fuel cfg sys g f ow touched any rest else Some (g, touched, any, rest, false)
      end
  end.

(** ** Connections *)

Definition close_conn (g : t) (f : Z) : t * list Out :=
  (match conns g !! f with
   | Some c => set_conns g (delete f (conns g)) (delete (owner c) (owner_fd g)) (next_owner g)
   | None => g
   end, [Closed f]).

Definition accept_conn (g : t) (f : Z) : t :=
  set_conns g (match conns g !! f with None => <[f := mkConn f (next_owner g) [] [] 0 false false]> (conns g) | Some _ => conns g end)
    (<[next_owner g := f]> (owner_fd g)) (u32 (next_owner g + 1)).

(** [try_write]: the system takes [k] bytes, and then all is taken, or it would block, or ([err]) the connection is
    broken. The result is none for a broken connection. *)
Definition try_write (g : t) (c : Conn) (k : nat) (err : bool) : t * list Out * bool :=
  let k := Z.min (Z.of_nat k) (alen (out c) - out_off c) in
  let sent := take (Z.to_nat k) (drop (Z.to_nat (out_off c)) (out c)) in
  let off := out_off c + k in
  let msgs := match sent with [] => [] | _ => [ToClient (fd c) sent] end in
  if err && (off <? alen (out c)) then (set_conns g (<[fd c := set_out c (out c) off (want_out c) (paused c)]> (conns g)) (owner_fd g) (next_owner g), msgs, false) else
  let '(bs, off) := if off =? alen (out c) then ([], 0) else (out c, off) in
  (set_conns g (<[fd c := set_out c bs off (off <? alen bs) (16777216 <? alen bs - off)]> (conns g)) (owner_fd g) (next_owner g), msgs, true).

(** ** The events of one iteration *)

Inductive Recv := RecvClosed | RecvAgain | RecvBytes (bs : list Z).
(** [EvService] is the publisher's sockets, with what they hold; [EvConn] a client, ready for output or not and for input
    or not, with what [send] takes and [recv] gives. *)
Inductive Ev :=
  | EvAccept (fds : list Z)
  | EvService (group control : list SeqStream.Datagram)
  | EvConn (f : Z) (writable : bool) (k : nat) (err : bool) (readable : bool) (r : Recv).

Fixpoint serve_control (p : SeqStream.Publisher.t) (ds : list SeqStream.Datagram) : option (SeqStream.Publisher.t * list SeqStream.Datagram) :=
  match ds with
  | [] => Some (p, [])
  | d :: ds => '(p, o) ← SeqStream.Publisher.on_control p d; '(p, os) ← serve_control p ds; Some (p, o ++ os)
  end.
(** [pub->service()]. *)
Definition service (g : t) (group control : list SeqStream.Datagram) : option (t * list Out) :=
  match pub g with
  | None => Some (g, [])
  | Some p => '(p, o) ← serve_control (foldl SeqStream.Publisher.on_group p group) control; Some (set_pub g (Some p), map ToReplicas o)
  end.

(** What an event did: the state, the output, the connections touched, whether any command was journaled. *)
Definition Turn : Type := t * list Out * list Z * bool.
Definition on_readable (cfg : GatewayConfig) (sys : Z -> Calls) (g : t) (c : Conn) (touched : list Z) (any : bool) (bs : list Z) : option Turn :=
  let f := fd c in
  let buf := in_ c ++ bs in
  '(g, touched, any, rest, broken) ← decode_loop (S (length buf)) cfg sys g f (owner c) touched any buf;
  match halted g with
  | Some _ => Some (g, [], touched, any)
  | None =>
      if broken : bool then let '(g, o) := close_conn g f in Some (g, o, touched, any) else
      Some (set_conns g (alter (fun c => set_in c rest) f (conns g)) (owner_fd g) (next_owner g), [], touched ++ [f], any)
  end.

Definition on_ev (cfg : GatewayConfig) (sys : Z -> Calls) (a : Turn) (ev : Ev) : option Turn :=
  let '(g, o, touched, any) := a in
  match ev with
  | EvAccept fds => Some (foldl accept_conn g fds, o, touched, any)
  | EvService group control => '(g, o') ← service g group control; Some (fence_check g, o ++ o', touched, any)
  | EvConn f writable k err readable r =>
      match halted g, conns g !! f with
      | None, Some c =>
          let '(g, o, ok) := if writable then let '(g, o', ok) := try_write g c k err in (g, o ++ o', ok) else (g, o, true) in
          if negb ok then let '(g, o') := close_conn g f in Some (g, o ++ o', touched, any) else
          if negb readable then Some (g, o, touched, any) else
          match r with
          | RecvClosed => let '(g, o') := close_conn g f in Some (g, o ++ o', touched, any)
          | RecvAgain => Some (g, o, touched, any)
          | RecvBytes bs =>
              c ← conns g !! f;
              '(g, o', touched, any) ← on_readable cfg sys g c touched any bs; Some (g, o ++ o', touched, any)
          end
      | _, _ => Some a
      end
  end.
(** A halt inside an event ends the loop over the events. *)
Fixpoint on_evs (cfg : GatewayConfig) (sys : Z -> Calls) (a : Turn) (evs : list Ev) : option Turn :=
  match evs with
  | [] => Some a
  | ev :: evs =>
      a' ← on_ev cfg sys a ev;
      match halted a.1.1.1, halted a'.1.1.1, ev with
      | None, Some _, EvConn _ _ _ _ _ _ => Some a'
      | _, _, _ => on_evs cfg sys a' evs
      end
  end.

(** ** The end of an iteration *)

(** One turn of [wait_for_replica]: what the publisher's sockets hold at each [service], the clock, and the fault injector's
    decisions for the flush of a heartbeat. *)
Record Round := mkRound {
  r_group : list SeqStream.Datagram; r_control : list SeqStream.Datagram; r_now : Z;
  r_group' : list SeqStream.Datagram; r_control' : list SeqStream.Datagram; r_lost : Z -> bool;
}.
Definition acked (g : t) : Z := match pub g with Some p => SeqStream.Publisher.acked p | None => 0 end.
Fixpoint wait_for_replica (cfg : GatewayConfig) (rounds : list Round) (g : t) (through t0 : Z) : option (t * list Out) :=
  if through <=? acked g then Some (g, []) else
  match rounds with
  | [] => None
  | r :: rounds =>
      '(g, o) ← service g (r_group r) (r_control r);
      if through <=? acked g then Some (g, o) else
      let g := fence_check g in
      match halted g with
      | Some _ => Some (g, o)
      | None =>
          if u64 (replica_timeout_ms cfg * 1000000) <? u64 (r_now r - t0) then
            '(g, o') ← service g (r_group' r) (r_control' r);
            let g := fence_check g in
            match halted g with
            | Some _ => Some (g, o ++ o')
            | None => Some (if halt_on_replica_loss cfg then set_halted g (replica_lost g) (Some ReplicaLost) (journal_failed g)
                            else set_halted g true (halted g) (journal_failed g), o ++ o')
            end
          else
            '(g, o') ← (match pub g with
              | Some p => '(p, ds) ← SeqStream.Publisher.heartbeat_if_idle (r_lost r) (r_now r) 2000000 p; Some (set_pub g (Some p), map ToReplicas ds)
              | None => Some (g, []) end);
            '(g, o'') ← wait_for_replica cfg rounds g through t0; Some (g, o ++ o' ++ o'')
      end
  end.

(** What the system calls of one iteration return. *)
Record Iter := mkIter {
  it_events : list Ev;
  it_sys : Z -> Calls;
  it_flush_fails : bool;
  it_lost : Z -> bool;
  it_now : Z;
  it_rounds : list Round;
  it_md_lost : Z -> bool;
  it_md_now : Z;
  it_writes : Z -> nat * bool;
}.

(** Once the journal has the batch: the replicas get it, and acknowledge it if they must. *)
Definition replicate (cfg : GatewayConfig) (it : Iter) (g : t) : option (t * list Out) :=
  match pub g with
  | None => Some (g, [])
  | Some p =>
      '(g, o) ← (if SeqStream.Publisher.fenced p then Some (g, []) else
        '(p, ds) ← SeqStream.Publisher.flush (it_lost it) (it_now it) p; Some (set_pub g (Some p), map ToReplicas ds));
      if wait_replica cfg && negb (replica_lost g) && bool_decide (halted g = None) then
        '(g, o') ← wait_for_replica cfg (it_rounds it) g (seq g) (it_now it); Some (g, o ++ o')
      else Some (g, o)
  end.

(** What the batch changed, each level once. *)
Fixpoint stage_levels (g : t) (m : MdFeed.Publisher.t) (ls : list Level) : option MdFeed.Publisher.t :=
  match ls with
  | [] => Some m
  | l :: ls =>
      q ← gw_level_qty (RiskGate.engine_ (gate g)) (lv_symbol l) (lv_side l) (lv_px l);
      stage_levels g (MdFeed.Publisher.level m (lv_symbol l) (lv_side l) (lv_px l) q) ls
  end.
Definition publish_md (it : Iter) (g : t) : option (t * list Out) :=
  match md g with
  | None => Some (g, [])
  | Some m =>
      let m := foldl (fun m e => MdFeed.Publisher.trade m (e_symbol e) (e_side e) (e_price e) (e_qty e)) m (trades (md_batch g)) in
      m ← stage_levels g m (sort_unique (levels (md_batch g)));
      let '(m, ds) := MdFeed.Publisher.flush m (it_md_lost it) (it_md_now it) (RiskGate.engine_ (gate g)) in
      Some (set_md g (Some m) (mkBatch [] []), map ToMarket ds)
  end.

Definition heartbeats (it : Iter) (g : t) : option (t * list Out) :=
  let '(g, o) := match md g with
    | Some m => let '(m, ds) := MdFeed.Publisher.heartbeat_if_idle m (it_md_now it) 50000000 in (set_md g (Some m) (md_batch g), map ToMarket ds)
    | None => (g, []) end in
  match pub g with
  | Some p => '(p, ds) ← SeqStream.Publisher.heartbeat_if_idle (it_lost it) (it_now it) 20000000 p; Some (set_pub g (Some p), o ++ map ToReplicas ds)
  | None => Some (g, o)
  end.

Fixpoint write_touched (it : Iter) (g : t) (touched : list Z) : t * list Out :=
  match touched with
  | [] => (g, [])
  | f :: touched =>
      let '(g, o) := match conns g !! f with
        | Some c => let '(g, o, ok) := try_write g c (it_writes it f).1 (it_writes it f).2 in
                    if ok : bool then (g, o) else let '(g, o') := close_conn g f in (g, o ++ o')
        | None => (g, []) end in
      let '(g, o') := write_touched it g touched in (g, o ++ o')
  end.

Definition close_all (g : t) : t * list Out :=
  foldl (fun a f => let '(g, o) := close_conn a.1 f in (g, a.2 ++ o)) (g, []) (fst <$> map_to_list (conns g)).

(** The events, and the flush of the journal if they journaled anything: [ok] is that it has the batch. *)
Definition commit (cfg : GatewayConfig) (g : t) (it : Iter) : option (t * list Out * list Z * bool * bool) :=
  '(g, o, touched, any) ← on_evs cfg (it_sys it) (g, [], [], false) (it_events it);
  let '(g, ok) := if any : bool then journal_io g (it_flush_fails it) flush_journal else (g, false) in
  Some (g, o, touched, any, ok).

(** One iteration; the last component says whether the loop ends. *)
Definition iterate (cfg : GatewayConfig) (g : t) (it : Iter) : option (t * list Out * bool) :=
  '(g, o, touched, any, ok) ← commit cfg g it;
  '(g, o1) ← (if ok : bool then replicate cfg it g else Some (g, []));
  match halted g with
  | Some _ => let '(g, o2) := close_all g in Some (g, o ++ o1 ++ o2, true)
  | None =>
      '(g, o2) ← (if any : bool then publish_md it g else Some (g, []));
      '(g, o3) ← heartbeats it g;
      let '(g, o4) := write_touched it g touched in
      Some (g, o ++ o1 ++ o2 ++ o3 ++ o4, false)
  end.

(** The iterations until a stop signal or a halt, and what follows the loop. *)
Fixpoint run (cfg : GatewayConfig) (g : t) (its : list Iter) : option (t * list Out) :=
  match its with
  | [] => Some (g, [])
  | it :: its =>
      '(g, o, stop) ← iterate cfg g it;
      if stop : bool then Some (g, o) else '(g, o') ← run cfg g its; Some (g, o ++ o')
  end.
Definition finish (sync_fails : bool) (lost : Z -> bool) (now : Z) (g : t) : option (t * list Out) :=
  let '(g, _) := journal_io g sync_fails flush_journal in
  '(g, o) ← (match pub g with
    | Some p => '(p, ds) ← SeqStream.Publisher.end_ lost now p; Some (set_pub g (Some p), map ToReplicas ds)
    | None => Some (g, []) end);
  match md g, halted g with
  | Some m, None => let '(m, ds) := MdFeed.Publisher.end_ m (RiskGate.engine_ (gate g)) in Some (set_md g (Some m) (md_batch g), o ++ map ToMarket ds)
  | _, _ => Some (g, o)
  end.

(** The gateway at its start, and the state the server recovers from a journal. *)
Definition make (gt : RiskGate.t E) (d : EventDigest.t) (w : Journal.JournalWriter) (p : option SeqStream.Publisher.t)
    (m : option MdFeed.Publisher.t) (sq next first_exchange_id : Z) : t :=
  mk ∅ ∅ (ClientIdMap.make first_exchange_id) gt d w (alen (Journal.file_ w)) p m (mkBatch [] []) sq next 0 0 0 false None false.

End gateway.
Arguments t : clear implicits.
End Gateway.

(** * The server's recovery (tools/exsim_server.cpp)

    A server that restarts replays its journal into a fresh gate and engine while it reads it, then opens it for appending;
    the numbering, the owners and the exchange ids go on above what it has seen. *)
Module Server.
Section server.
Context {E : Type} `{EngineImpl E}.

Record Recovered := mkRecovered { r_gate : RiskGate.t E; r_digest : EventDigest.t; r_seq : Z; r_max_owner : Z; r_max_order_id : Z }.
Definition fresh (gt : RiskGate.t E) : Recovered := mkRecovered gt EventDigest.init 0 0 0.

(** The function [journal_scan] calls for each record. *)
Definition on_record (a : Recovered) (c : Command) : option Recovered :=
  '(gt, es) ← RiskGate.process (r_gate a) c;
  Some (mkRecovered gt (foldl EventDigest.on_event (r_digest a) es) (c_seq c) (Z.max (r_max_owner a) (c_owner c)) (Z.max (r_max_order_id a) (c_order_id c))).
Fixpoint replay (a : Recovered) (cs : list Command) : option Recovered :=
  match cs with [] => Some a | c :: cs => a ← on_record a c; replay a cs end.

Definition recover (gt : RiskGate.t E) (file : list Z) : option (Recovered * Journal.JournalWriter) :=
  match Journal.journal_scan file with
  | Journal.NotAJournal => None
  | Journal.Scanned cs _ => a ← replay (fresh gt) cs; '(w, _) ← Journal.recover file; Some (a, w)
  end.
End server.
Arguments Recovered : clear implicits.

(** [run_gateway] is called with the next owner and the next exchange id. *)
Definition start {E} `{GatewayEngine E} (a : Recovered E) (w : Journal.JournalWriter) (p : option SeqStream.Publisher.t)
    (m : option MdFeed.Publisher.t) : Gateway.t E :=
  Gateway.make (r_gate a) (r_digest a) w p m (r_seq a) (u32 (r_max_owner a + 1)) (u64 (r_max_order_id a + 1)).
End Server.
