(* ===== verification/GatewayLaws.v ===== *)
(** * What the gateway guarantees

    Whatever the clients send and the system calls return, the journal holds exactly the commands the engine has processed,
    numbered in order, so that replaying it rebuilds the risk gate, the engine and the digest; and what the clients are sent
    follows the flush of the journal. *)
From S2P Require Import Prelude Bits Bytes Common Interfaces ReferenceBook Engine Risk Protocol ClientIds Journal SeqStream MdFeed FeedLaws Gateway.

Module GatewayLaws.
Import Gateway.

(** ** Commands that the journal keeps whole *)

Definition clean (c : Command) : Prop := command_wf c /\ Journal.journal_view c = c.

Lemma decode_ok p n c : bytes p -> Wire.decode p = Wire.mkResult Wire.Ok n (Some c) -> command_wf c /\ Wire.wire_view c = c /\ 16 <= n.
Proof.
  intros Hb Hd. destruct (Wire.decode_cases p) as [[_ E]|(len & ty & v & sy & sq & Hu & Hp & Hc)]; [congruence|].
  destruct Hc as [[_ E]|[(_ & _ & E)|[(Hl & -> & c' & Hbody & E)|[_ E]]]]; try congruence. rewrite E in Hd. injection Hd as <- <-.
  destruct (Wire.decode_body_canonical p len ty sy sq c' Hb Hl Hu Hbody) as (_ & ? & ?). split; [done|]. split; [done|lia].
Qed.

Lemma stamped_clean c id sq ow ts : command_wf c -> Wire.wire_view c = c -> in_u64 id -> in_u64 sq -> in_u32 ow -> in_u64 ts ->
  clean (stamped c id sq ow ts).
Proof.
  intros (_ & Hpx & _ & _ & Hq & _ & Hsym & Hfl) Hw Hid Hsq How Hts. split; [by unfold command_wf, stamped; simpl; split_and!|].
  unfold Journal.journal_view, Journal.set_meta, Wire.wire_view, stamped in *. destruct c as [oid px s t q o sym ty sd ot tif fl]. simpl in *.
  destruct ty; simpl in *; [done|by injection Hw as <- <- <- <- <- <- <- <-|by injection Hw as <- <- <- <- <- <-].
Qed.

(** ** The table of order ids stays in 64 bits *)

Definition ids_ok (m : ClientIdMap.t) : Prop := in_u64 (ClientIdMap.next_ m) /\ forall k x, ClientIdMap.fwd_ m !! k = Some x -> in_u64 x.

Lemma ids_find m k : ids_ok m -> in_u64 (ClientIdMap.find m k).
Proof. intros [_ Hm]. unfold ClientIdMap.find. destruct (ClientIdMap.fwd_ m !! k) eqn:E; [by eapply Hm|done]. Qed.

Lemma ids_for_new m k x m' : ids_ok m -> ClientIdMap.for_new m k = (x, m') -> in_u64 x /\ ids_ok m'.
Proof.
  intros [Hn Hm] Hf. unfold ClientIdMap.for_new in Hf. destruct (_ =? 0); [injection Hf as <- <-; done|].
  destruct (ClientIdMap.fwd_ m !! k) eqn:E; injection Hf as <- <-; [split; [by eapply Hm|done]|]. split; [done|]. split; [apply in_u64_u64|].
  intros k' y. simpl. rewrite lookup_insert_Some. intros [[_ <-]|[_ ?]]; [done|by eapply Hm].
Qed.

Lemma ids_retire m x : ids_ok m -> ids_ok (ClientIdMap.retire m x).
Proof.
  intros [Hn Hm]. unfold ClientIdMap.retire. destruct (ClientIdMap.rev_ m !! x); [|done]. split; [done|]. intros k' y. simpl.
  rewrite lookup_delete_Some. intros [_ ?]. by eapply Hm.
Qed.

Section laws.
Context {E : Type} `{GatewayEngine E}.
Implicit Types g : Gateway.t E.

(** ** What most of the code leaves alone *)

Definition shape g : Prop :=
  ids_ok (ids g) /\ (forall f c, conns g !! f = Some c -> fd c = f /\ in_u32 (owner c) /\ bytes (in_ c)) /\ in_u32 (next_owner g).

(** The gate, the journal and the numbering are as they were; the digest may have grown, and the primary may have halted. *)
Record frame g g' : Prop := {
  fr_gate : gate g' = gate g;
  fr_journal : journal g' = journal g;
  fr_flushed : flushed g' = flushed g;
  fr_seq : seq g' = seq g;
  fr_failed : journal_failed g' = journal_failed g;
  fr_halted : halted g <> None -> halted g' <> None;
  fr_shape : shape g -> shape g';
}.
Definition quiet g g' : Prop := frame g g' /\ digest g' = digest g.

Lemma gw_frame_refl g : frame g g.
Proof. by split. Qed.
Lemma gw_frame_trans g1 g2 g3 : frame g1 g2 -> frame g2 g3 -> frame g1 g3.
Proof. intros [] []. split; try congruence; auto. Qed.
Lemma quiet_refl g : quiet g g.
Proof. split; [apply gw_frame_refl|done]. Qed.
Lemma quiet_trans g1 g2 g3 : quiet g1 g2 -> quiet g2 g3 -> quiet g1 g3.
Proof. intros [H1 E1] [H2 E2]. split; [by eapply gw_frame_trans|congruence]. Qed.

Lemma quiet_conns g cs o n : (forall f c, cs !! f = Some c -> (fd c = f /\ in_u32 (owner c) /\ bytes (in_ c)) \/
  exists c0, conns g !! f = Some c0 /\ fd c = fd c0 /\ owner c = owner c0 /\ in_ c = in_ c0) ->
  (in_u32 n \/ n = next_owner g) -> quiet g (set_conns g cs o n).
Proof.
  intros Hc Hn. split; [|done]. split; try done. intros (H1 & H2 & H3). split; [done|]. split; [|simpl; by destruct Hn as [? | ->]].
  intros f c Hf. simpl in Hf. destruct (Hc f c Hf) as [?|(c0 & Hc0 & E0 & E1 & E2)]; [done|]. rewrite E0, E1, E2. by eapply H2.
Qed.

Lemma quiet_append_out g f bs : quiet g (append_out g f bs).
Proof.
  apply quiet_conns; [|by right]. intros f' c Hc. right. apply lookup_alter_Some in Hc as [(-> & c0 & Hc0 & ->)|[_ Hc]]; [by exists c0|by exists c].
Qed.

Lemma quiet_close g f : quiet g (close_conn g f).1.
Proof.
  unfold close_conn. simpl. destruct (conns g !! f); [|apply quiet_refl]. apply quiet_conns; [|by right]. intros f' c0 Hc. right.
  apply lookup_delete_Some in Hc as [_ Hc]. by exists c0.
Qed.

Lemma quiet_accept g f : quiet g (accept_conn g f).
Proof.
  split; [|done]. split; try done. intros (H1 & H2 & H3). split; [done|]. split; [|apply in_u32_u32]. intros f' c Hc. simpl in Hc.
  destruct (conns g !! f); [by eapply H2|]. apply lookup_insert_Some in Hc as [[<- <-]|[_ Hc]]; [|by eapply H2]. simpl. split; [done|]. split; [done|constructor].
Qed.

Lemma quiet_write g c k err g' o ok : conns g !! fd c = Some c -> try_write g c k err = (g', o, ok) -> quiet g g'.
Proof.
  intros Hc Hw. assert (forall bs off w p, quiet g (set_conns g (<[fd c := set_out c bs off w p]> (conns g)) (owner_fd g) (next_owner g))) as Hq.
  { intros. apply quiet_conns; [|by right]. intros f c0 Hf. right. apply lookup_insert_Some in Hf as [[<- <-]|[_ Hf]]; [by exists c|by exists c0]. }
  unfold try_write in Hw. destruct (_ && _); [by injection Hw as <- _ _|]. destruct (if _ =? _ then _ else _). by injection Hw as <- _ _.
Qed.

Lemma quiet_pub g p : quiet g (set_pub g p).
Proof. split; [|done]. by split. Qed.
Lemma quiet_md g m b : quiet g (set_md g m b).
Proof. split; [|done]. by split. Qed.
Lemma quiet_halted g l h : (halted g <> None -> h <> None) -> quiet g (set_halted g l h (journal_failed g)).
Proof. intros Hh. split; [|done]. by split. Qed.

Lemma quiet_fence g : quiet g (fence_check g).
Proof.
  unfold fence_check. destruct (pub g); [|apply quiet_refl]. destruct (halted g) eqn:Eh; [apply quiet_refl|].
  case_match; [|apply quiet_refl]. by apply quiet_halted.
Qed.

Lemma quiet_service g gr ct g' o : service g gr ct = Some (g', o) -> quiet g g'.
Proof.
  unfold service. destruct (pub g); [|intros [= <- <-]; apply quiet_refl]. destruct (serve_control _ ct) as [[p o']|]; [|done]. intros [= <- <-].
  apply quiet_pub.
Qed.

Lemma on_event_frame k g m tch e g' m' tch' : on_event k (g, m, tch) e = Some (g', m', tch') ->
  frame g g' /\ digest g' = EventDigest.on_event (digest g) e.
Proof.
  unfold on_event. set (g1 := set_engine g (gate g) (EventDigest.on_event (digest g) e)).
  set (g2 := match md g1 with Some _ => _ | None => g1 end).
  assert (frame g g2 /\ digest g2 = EventDigest.on_event (digest g) e) as [Hf2 Hd2].
  { unfold g2. assert (frame g g1) as Hf1 by (by split). destruct (md g1); [|done]. split; [|done]. eapply gw_frame_trans; [exact Hf1|]. apply quiet_md. }
  clearbody g2. assert (forall f bs g3, frame g g3 /\ digest g3 = EventDigest.on_event (digest g) e ->
    frame g (append_out g3 f bs) /\ digest (append_out g3 f bs) = EventDigest.on_event (digest g) e) as Happ.
  { intros f bs g3 [Hf Hd]. destruct (quiet_append_out g3 f bs) as [Hq Hdq]. split; [by eapply gw_frame_trans|congruence]. }
  destruct (negb (sk_translate k)); [intros [= <- _ _]; by apply Happ|].
  destruct (e_maker_id e =? 0); [intros [= <- _ _]; by apply Happ|]. destruct (_ || _); [intros [= <- _ _]; by apply Happ|].
  case_match; [|intros [= <- _ _]; by apply Happ]. destruct (conns _ !! _); [|done]. intros [= <- _ _]. by apply Happ, Happ.
Qed.

Lemma on_events_frame k es : forall g m tch g' m' tch', on_events k (g, m, tch) es = Some (g', m', tch') ->
  frame g g' /\ digest g' = foldl EventDigest.on_event (digest g) es.
Proof.
  induction es as [|e es IH]; intros g m tch g' m' tch' He; cbn [on_events] in He; [injection He as <- _ _; split; [apply gw_frame_refl|done]|].
  destruct (on_event k (g, m, tch) e) as [[[g1 m1] t1]|] eqn:E1; [|done]. destruct (on_event_frame _ _ _ _ _ _ _ _ E1) as [Hf1 Hd1].
  destruct (IH _ _ _ _ _ _ He) as [Hf2 Hd2]. split; [by eapply gw_frame_trans|]. simpl. by rewrite <- Hd1.
Qed.

Lemma quiet_retire g s l g' : retire_dead g s l = Some g' -> quiet g g'.
Proof.
  revert g. induction l as [|x l IH]; intros g Hr; cbn [retire_dead] in Hr; [injection Hr as <-; apply quiet_refl|].
  destruct (x =? 0); [by apply IH|]. match type of Hr with (?a ≫= _) = _ => destruct a as [dead|] end; [|done].
  cbn [mbind option_bind] in Hr. eapply quiet_trans; [|by apply IH]. destruct dead; [|apply quiet_refl]. split; [|done]. split; try done.
  intros (H1 & H2 & H3). split; [|done]. by apply ids_retire.
Qed.

(** ** The journal is what the engine has processed *)

Lemma gate_run_snoc (cs : list Command) : forall (gt : RiskGate.t E) gt1 es c gt2 es', RiskGate.run gt cs = Some (gt1, es) -> RiskGate.process gt1 c = Some (gt2, es') ->
  RiskGate.run gt (cs ++ [c]) = Some (gt2, es ++ es').
Proof.
  induction cs as [|c0 cs IH]; intros gt gt1 es c gt2 es' Hr Hp; cbn [app RiskGate.run] in *.
  - injection Hr as -> <-. rewrite Hp. cbn. by rewrite app_nil_r.
  - destruct (RiskGate.process gt c0) as [[gt0 es0]|]; [|done]. cbn [mbind option_bind] in *.
    destruct (RiskGate.run gt0 cs) as [[gt3 es3]|] eqn:E3; [|done]. injection Hr as -> <-.
    rewrite (IH _ _ _ _ _ _ E3 Hp). cbn. by rewrite app_assoc.
Qed.

Variables (cs0 : list Command) (gt0 : RiskGate.t E) (d0 : EventDigest.t) (seq0 : Z).

Record inv g (cs : list Command) (es : list Event) : Prop := {
  iv_file : Journal.file_ (journal g) = Journal.file_of (cs0 ++ cs);
  iv_run : RiskGate.run gt0 cs = Some (gate g, es);
  iv_digest : digest g = foldl EventDigest.on_event d0 es;
  iv_clean : Forall clean cs;
  iv_seq : journal_failed g = false -> seq g = u64 (seq0 + alen cs);
  iv_numbered : forall i c, cs !! i = Some c -> c_seq c = u64 (seq0 + Z.of_nat i + 1);
  iv_shape : shape g;
  iv_halted : journal_failed g = true -> halted g <> None;
}.

Lemma inv_quiet g g' cs es : inv g cs es -> quiet g g' -> inv g' cs es.
Proof.
  intros [I1 I2 I3 I4 I5 I6 I7 I8] [[F1 F2 F3 F4 F5 F6 F7] Ed]. split; rewrite ?F1, ?F2, ?F4, ?F5, ?Ed; auto.
Qed.

(** The journal or the numbering stays; what they hold does not change. *)
Lemma inv_flush g cs es fails g' ok : inv g cs es -> journal_io g fails flush_journal = (g', ok) ->
  inv g' cs es /\ journal g' = journal g /\ (ok = true -> flushed g' = alen (Journal.file_ (journal g')) /\ halted g' = halted g) /\ (ok = false -> halted g' <> None) /\
  pub g' = pub g /\ replica_lost g' = replica_lost g /\ seq g' = seq g.
Proof.
  intros [] Hj. unfold journal_io in Hj. destruct (journal_failed g) eqn:Ef; [injection Hj as <- <-; split_and!; try done; [by split; rewrite ?Ef|auto]|].
  destruct fails; injection Hj as <- <-; split_and!; try done; by split; simpl; rewrite ?Ef.
Qed.

Lemma inv_counts g cs es h m ss : inv g cs es -> inv (set_counts g (seq g) h m ss) cs es.
Proof. intros []. by split. Qed.

Lemma inv_append g cs es sq c gt es' : inv g cs es -> journal_failed g = false -> clean c -> sq = u64 (seq g + 1) -> c_seq c = sq ->
  RiskGate.process (gate g) c = Some (gt, es') ->
  inv (set_engine (append c (set_counts g sq (handled g) (malformed g) (since_sync g))) gt (foldl EventDigest.on_event (digest g) es')) (cs ++ [c]) (es ++ es').
Proof.
  intros [I1 I2 I3 I4 I5 I6 I7 I8] Hf Hc Hsq Hn Hp. assert (sq = u64 (seq0 + alen cs + 1)) as Hs by (rewrite Hsq, (I5 Hf); unfold u64; by rewrite Zplus_mod_idemp_l).
  assert (alen (cs ++ [c]) = alen cs + 1) as Hl by (unfold alen; rewrite length_app; simpl; lia). split; simpl.
  - rewrite I1. unfold Journal.file_of. rewrite app_assoc, Journal.body_snoc. by rewrite <- !app_assoc.
  - by eapply gate_run_snoc.
  - by rewrite foldl_app, <- I3.
  - apply Forall_app. split; [done|by apply Forall_singleton].
  - intros _. rewrite Hs, Hl. f_equal. lia.
  - intros i x Hi. apply lookup_app_Some in Hi as [Hi|[Hge Hi]]; [by apply I6|]. apply list_lookup_singleton_Some in Hi as [Hi <-].
    rewrite Hn, Hs. f_equal. unfold alen. lia.
  - done.
  - rewrite Hf. done.
Qed.

Lemma inv_settle cfg g cs es fails g' ok : inv g cs es -> settle cfg g fails = (g', ok) -> inv g' cs es /\ (ok = false -> halted g' <> None).
Proof.
  intros Hi Hs. unfold settle in Hs. assert (forall g1 g2 b, inv g1 cs es -> journal_io g1 fails flush_journal = (g2, b) -> inv g2 cs es /\ (b = false -> halted g2 <> None)) as Hj.
  { intros g1 g2 b H1 Hf. by destruct (inv_flush _ _ _ _ _ _ H1 Hf) as (? & _ & _ & ? & _). }
  destruct (sync_mode cfg); simpl in Hs.
  - injection Hs as <- <-. split; [by apply inv_counts|done].
  - destruct (_ <? batch cfg); [injection Hs as <- <-; split; [|done]|]; [by apply (inv_counts _ _ _ _ _ _ (inv_counts _ _ _ _ _ _ Hi))|].
    eapply Hj; [|exact Hs]. by apply (inv_counts _ _ _ _ _ _ (inv_counts _ _ _ _ _ _ Hi)).
  - eapply Hj; [|exact Hs]. by apply (inv_counts _ _ _ _ _ _ (inv_counts _ _ _ _ _ _ Hi)).
Qed.

Lemma quiet_publish g c g' : publish g c = Some g' -> quiet g g'.
Proof.
  unfold publish. destruct (pub g); [|intros [= <-]; apply quiet_refl]. destruct (SeqStream.Publisher.publish _ c); [|done]. intros [= <-]. apply quiet_pub.
Qed.

Lemma quiet_leaving g c g' : note_leaving g c = Some g' -> quiet g g'.
Proof.
  unfold note_leaving. destruct (md g); [|intros [= <-]; apply quiet_refl]. destruct (c_type c); try (intros [= <-]; apply quiet_refl).
  destruct (_ <? _); [|intros [= <-]; apply quiet_refl]. destruct (gw_find_order _ _ _) as [[v|]|]; [| |done]; intros [= <-]; [apply quiet_md|apply quiet_refl].
Qed.

Lemma sequence_inv cfg g ow cmd ts g' c cs es : inv g cs es -> command_wf cmd -> Wire.wire_view cmd = cmd -> in_u32 ow -> in_u64 ts ->
  sequence cfg g ow cmd ts = (g', c) -> exists g1, inv g1 cs es /\ g' = set_counts g1 (u64 (seq g1 + 1)) (handled g1) (malformed g1) (since_sync g1) /\
    clean c /\ c_seq c = u64 (seq g1 + 1) /\ journal g1 = journal g /\ flushed g1 = flushed g.
Proof.
  intros Hinv Hcmd Hview How Hts Hs. unfold sequence in Hs. pose proof (iv_shape _ _ _ Hinv) as (Hids & _ & _).
  destruct (if trust_client_ids cfg then _ else _) as [id tbl] eqn:Eid. assert (in_u64 id /\ ids_ok tbl) as [Hid Htbl].
  { destruct (trust_client_ids cfg); [injection Eid as <- <-; by destruct Hcmd|].
    destruct (c_type cmd); [by eapply ids_for_new in Eid|..]; (injection Eid as <- <-; split; [by apply ids_find|done]). }
  injection Hs as <- <-. exists (set_ids g tbl). split; [|split; [done|]].
  - apply (inv_quiet g); [done|]. split; [|done]. split; try done. intros (_ & ? & ?). done.
  - split; [|done]. apply stamped_clean; [done..|apply in_u64_u64|done|done].
Qed.

Lemma on_command_inv cfg g f ow touched cmd sys g' touched' j go cs es : inv g cs es -> command_wf cmd -> Wire.wire_view cmd = cmd ->
  in_u32 ow -> in_u64 (now sys) -> on_command cfg g f ow touched cmd sys = Some (g', touched', j, go) ->
  exists more es', inv g' (cs ++ more) (es ++ es') /\ (j = false -> journal g' = journal g /\ flushed g' = flushed g) /\ (go = false -> halted g' <> None).
Proof.
  intros Hinv Hcmd Hview How Hnow Hon. unfold on_command in Hon. destruct (sequence cfg g ow cmd (now sys)) as [g2 c] eqn:Es.
  destruct (sequence_inv _ _ _ _ _ _ _ _ _ Hinv Hcmd Hview How Hnow Es) as (g1 & Hinv1 & -> & Hc & Hsq & Hj1 & Hf1). clear Es.
  set (g2 := set_counts g1 _ _ _ _) in *. unfold journal_io in Hon. destruct (journal_failed g2) eqn:Ef; simpl in Ef.
  { cbn [negb] in Hon. injection Hon as <- <- <- <-. exists [], []. rewrite !app_nil_r. destruct Hinv1. split; [|split; [done|auto]].
    split; try done. simpl. by rewrite Ef. }
  destruct (append_fails sys).
  { cbn [negb] in Hon. injection Hon as <- <- <- <-. exists [], []. rewrite !app_nil_r. destruct Hinv1. split; [|split; done]. by split. }
  cbn [negb] in Hon. destruct (publish (append c g2) c) as [g3|] eqn:E3; [|done]. cbn [mbind option_bind] in Hon.
  destruct (note_leaving g3 c) as [g4|] eqn:E4; [|done]. cbn [mbind option_bind] in Hon.
  destruct (quiet_trans _ _ _ (quiet_publish _ _ _ E3) (quiet_leaving _ _ _ E4)) as [Hq Hd].
  destruct (RiskGate.process (gate g4) c) as [[gt es1]|] eqn:Ep; [|done]. cbn [mbind option_bind] in Hon.
  destruct (on_events _ _ es1) as [[[g5 m5] t5]|] eqn:E5; [|done]. cbn [mbind option_bind] in Hon.
  destruct (on_events_frame _ _ _ _ _ _ _ _ E5) as [Hf5 Hd5].
  match type of Hon with (?a ≫= _) = _ => destruct a as [g6|] eqn:E6; [|done] end. cbn [mbind option_bind] in Hon.
  assert (quiet g5 g6) as Hq6. { destruct (trust_client_ids cfg); [injection E6 as <-; apply quiet_refl|by eapply quiet_retire]. }
  rewrite (fr_gate _ _ Hq) in Ep. pose proof (inv_append g1 cs es _ c gt es1 Hinv1 Ef Hc eq_refl Hsq Ep) as Hnew.
  assert (inv g5 (cs ++ [c]) (es ++ es1)) as Hinv5.
  { apply (inv_quiet _ _ _ _ Hnew). destruct Hq as [Q1 Q2 Q3 Q4 Q5 Q6 Q7], Hf5 as [P1 P2 P3 P4 P5 P6 P7]. simpl in *.
    split; [split; simpl; try congruence; auto|rewrite Hd5, Hd; done]. }
  destruct (settle cfg _ _) as [g7 ok7] eqn:E7. injection Hon as <- <- <- <-. exists [c], es1.
  destruct (inv_settle _ _ _ _ _ _ _ (inv_quiet _ _ _ _ (inv_quiet _ _ _ _ Hinv5 Hq6) (quiet_append_out _ _ _)) E7). done.
Qed.

(** ** The events of an iteration *)

(** What the system returns: bytes, and 64-bit clock readings. *)
Definition ev_ok (ev : Ev) : Prop := match ev with EvConn _ _ _ _ _ (RecvBytes bs) => bytes bs | _ => True end.
Definition sys_ok (sys : Z -> Calls) : Prop := forall k, in_u64 (now (sys k)).

(** Nothing journaled means the journal is as it was. *)
Definition unjournaled (any any' : bool) g g' : Prop := any' = false -> any = false /\ journal g' = journal g /\ flushed g' = flushed g.

Lemma unjournaled_quiet any g g' : quiet g g' -> unjournaled any any g g'.
Proof. intros [[] _] ->. done. Qed.
Lemma unjournaled_trans a b c g1 g2 g3 : unjournaled a b g1 g2 -> unjournaled b c g2 g3 -> unjournaled a c g1 g3.
Proof. intros H1 H2 Hc. destruct (H2 Hc) as (Hb & ? & ?). destruct (H1 Hb) as (? & ? & ?). split_and!; congruence. Qed.

Lemma decode_loop_inv cfg sys f ow : in_u32 ow -> sys_ok sys -> forall fuel g touched any buf g' touched' any' rest broken cs es,
  inv g cs es -> bytes buf -> decode_loop fuel cfg sys g f ow touched any buf = Some (g', touched', any', rest, broken) ->
  exists more es', inv g' (cs ++ more) (es ++ es') /\ bytes rest /\ unjournaled any any' g g'.
Proof.
  intros How Hsys. induction fuel as [|fuel IH]; intros g touched any buf g' touched' any' rest broken cs es Hinv Hb Hd; cbn [decode_loop] in Hd; [done|].
  assert (Some (g, touched, any, buf, broken) = Some (g', touched', any', rest, broken) ->
    exists more es', inv g' (cs ++ more) (es ++ es') /\ bytes rest /\ unjournaled any any' g g') as Hstop.
  { intros [= <- <- <- <-]. exists [], []. rewrite !app_nil_r. split; [done|]. split; [done|]. by intros ->. }
  destruct (alen buf =? 0); [apply Hstop; congruence|]. assert (forall n, bytes (drop n buf)) as Hdrop by (intros; by apply Forall_drop).
  destruct (Wire.decode buf) as [st n c] eqn:Er. cbn [Wire.status Wire.consumed Wire.decoded] in Hd. destruct st; [|apply Hstop; congruence|].
  - destruct c as [c|]; [|done]. cbn [mbind option_bind] in Hd. destruct (decode_ok buf n c Hb Er) as (Hc & Hv & _).
    destruct (on_command cfg g f ow touched c _) as [[[[g1 t1] j1] go]|] eqn:E1; [|done]. cbn [mbind option_bind] in Hd.
    destruct (on_command_inv _ _ _ _ _ _ _ _ _ _ _ _ _ Hinv Hc Hv How (Hsys _) E1) as (m1 & es1 & Hinv1 & Hj & _).
    assert (unjournaled any (any || j1) g g1) as Hu1 by (intros Hor; apply orb_false_iff in Hor as [-> ->]; split; [done|by apply Hj]).
    destruct go.
    + destruct (IH _ _ _ _ _ _ _ _ _ _ _ Hinv1 (Hdrop _) Hd) as (m2 & es2 & Hinv2 & Hb2 & Hu2). exists (m1 ++ m2), (es1 ++ es2).
      rewrite !app_assoc. split; [done|]. split; [done|]. by eapply unjournaled_trans.
    + injection Hd as <- <- <- <- <-. exists m1, es1. split; [done|]. split; [apply Hdrop|done].
  - destruct (n =? 0); [injection Hd as <- <- <- <- <-; exists [], []; rewrite !app_nil_r; split; [by apply inv_counts|split; [done|by intros ->]]|].
    destruct (IH _ _ _ _ _ _ _ _ _ _ _ (inv_counts g _ _ _ _ _ Hinv) (Hdrop _) Hd) as (m2 & es2 & Hinv2 & Hb2 & Hu2). by exists m2, es2.
Qed.

Lemma on_readable_inv cfg sys g c touched any bs g' o touched' any' cs es : sys_ok sys -> inv g cs es -> conns g !! fd c = Some c -> bytes bs ->
  on_readable cfg sys g c touched any bs = Some (g', o, touched', any') ->
  exists more es', inv g' (cs ++ more) (es ++ es') /\ unjournaled any any' g g'.
Proof.
  intros Hsys Hinv Hc Hbs Hr. unfold on_readable in Hr. destruct (iv_shape _ _ _ Hinv) as (_ & Hconns & _). destruct (Hconns _ _ Hc) as (_ & How & Hin).
  destruct (decode_loop _ _ _ _ _ _ _ _ _) as [[[[[g1 t1] a1] rest] broken]|] eqn:E1; [|done]. cbn [mbind option_bind] in Hr.
  destruct (decode_loop_inv _ _ _ _ How Hsys _ _ _ _ _ _ _ _ _ _ _ _ Hinv (proj2 (Forall_app _ _ _) (conj Hin Hbs)) E1) as (more & es' & Hinv1 & Hb1 & Hu).
  exists more, es'. destruct (halted g1); [injection Hr as <- <- <- <-; done|]. destruct broken.
  - pose proof (quiet_close g1 (fd c)) as Hq. destruct (close_conn g1 (fd c)) as [g2 o2]. injection Hr as <- <- <- <-.
    split; [by eapply inv_quiet|]. eapply unjournaled_trans; [exact Hu|by apply unjournaled_quiet].
  - injection Hr as <- <- <- <-. assert (quiet g1 (set_conns g1 (alter (fun c => set_in c rest) (fd c) (conns g1)) (owner_fd g1) (next_owner g1))) as Hq.
    { apply quiet_conns; [|by right]. intros f0 c0 Hf. destruct (iv_shape _ _ _ Hinv1) as (_ & Hcs & _).
      apply lookup_alter_Some in Hf as [(Ef & c1 & Hc1 & ->)|[_ Hf]]; [left; subst f0|right; by exists c0].
      destruct (Hcs _ _ Hc1) as (? & ? & ?). done. }
    split; [by eapply inv_quiet|]. eapply unjournaled_trans; [exact Hu|by apply unjournaled_quiet].
Qed.


Lemma inv_conn g cs es f c : inv g cs es -> conns g !! f = Some c -> fd c = f.
Proof. intros Hi Hc. destruct (iv_shape _ _ _ Hi) as (_ & Hs & _). by apply Hs. Qed.

Lemma on_ev_inv cfg sys g o touched any ev g' o' touched' any' cs es : sys_ok sys -> ev_ok ev -> inv g cs es ->
  on_ev cfg sys (g, o, touched, any) ev = Some (g', o', touched', any') ->
  exists more es', inv g' (cs ++ more) (es ++ es') /\ unjournaled any any' g g'.
Proof.
  intros Hsys Hev Hinv He. assert (forall g1, quiet g g1 -> exists more es', inv g1 (cs ++ more) (es ++ es') /\ unjournaled any any g g1) as Hq.
  { intros g1 Hg1. exists [], []. rewrite !app_nil_r. split; [by eapply inv_quiet|by apply unjournaled_quiet]. }
  unfold on_ev in He. destruct ev as [fds|gr ct|f wr k err rd r].
  - injection He as <- _ _ <-. apply Hq. clear. revert g. induction fds as [|f fds IH]; intros g; [apply quiet_refl|].
    eapply quiet_trans; [apply quiet_accept|apply IH].
  - destruct (service g gr ct) as [[g1 o1]|] eqn:E1; [|done]. cbn [mbind option_bind] in He. injection He as <- _ _ <-. apply Hq.
    eapply quiet_trans; [by eapply quiet_service|apply quiet_fence].
  - destruct (halted g); [injection He as <- _ _ <-; apply Hq, quiet_refl|]. destruct (conns g !! f) as [c|] eqn:Ec; [|injection He as <- _ _ <-; apply Hq, quiet_refl].
    assert (exists g1 o1 ok1, (if wr then let '(g, o', ok) := try_write g c k err in (g, o ++ o', ok) else (g, o, true)) = (g1, o1, ok1) /\ quiet g g1)
      as (g1 & o1 & ok1 & E1 & Hq1).
    { destruct wr; [|exists g, o, true; split; [done|apply quiet_refl]]. destruct (try_write g c k err) as [[g1 o1] ok1] eqn:Ew.
      exists g1, (o ++ o1), ok1. split; [done|]. eapply quiet_write; [|exact Ew]. by rewrite (inv_conn _ _ _ _ _ Hinv Ec). }
    rewrite E1 in He. assert (forall b, (let '(g, o') := close_conn g1 f in Some (g, o1 ++ o', touched, any)) = Some (g', o', touched', any') \/
      Some (g1, o1, touched, any) = Some (g', o', touched', any') -> b = true -> exists more es', inv g' (cs ++ more) (es ++ es') /\ unjournaled any any' g g') as Hend.
    { intros b [Hc|Hc] _; [|injection Hc as <- _ _ <-; by apply Hq]. pose proof (quiet_close g1 f) as Hq2. destruct (close_conn g1 f) as [g2 o2].
      injection Hc as <- _ _ <-. apply Hq. by eapply quiet_trans. }
    destruct ok1; cbn [negb] in He; [|by apply (Hend true); [left|]]. destruct rd; cbn [negb] in He; [|by apply (Hend true); [right|]].
    destruct r as [| |bs]; [by apply (Hend true); [left|]|by apply (Hend true); [right|]|].
    destruct (conns g1 !! f) as [c1|] eqn:Ec1; [|done]. cbn [mbind option_bind] in He.
    destruct (on_readable cfg sys g1 c1 touched any bs) as [[[[g2 o2] t2] a2]|] eqn:E2; [|done]. cbn [mbind option_bind] in He. injection He as <- _ _ <-.
    pose proof (inv_quiet _ _ _ _ Hinv Hq1) as Hinv1. assert (fd c1 = f) as Hfd by (by eapply inv_conn).
    destruct (on_readable_inv cfg sys g1 c1 touched any bs g2 o2 t2 a2 cs es Hsys Hinv1 ltac:(by rewrite Hfd) Hev E2) as (more & es' & Hi & Hu).
    exists more, es'. split; [done|]. eapply unjournaled_trans; [by apply unjournaled_quiet|done].
Qed.

Lemma on_evs_inv cfg sys evs : sys_ok sys -> Forall ev_ok evs -> forall g o touched any g' o' touched' any' cs es, inv g cs es ->
  on_evs cfg sys (g, o, touched, any) evs = Some (g', o', touched', any') ->
  exists more es', inv g' (cs ++ more) (es ++ es') /\ unjournaled any any' g g'.
Proof.
  intros Hsys Hevs. induction Hevs as [|ev evs Hev Hevs IH]; intros g o touched any g' o' touched' any' cs es Hinv He; cbn [on_evs] in He.
  - injection He as <- _ _ <-. exists [], []. rewrite !app_nil_r. split; [done|]. by intros ->.
  - destruct (on_ev cfg sys (g, o, touched, any) ev) as [[[[g1 o1] t1] a1]|] eqn:E1; [|done]. cbn [mbind option_bind] in He.
    destruct (on_ev_inv _ _ _ _ _ _ _ _ _ _ _ _ _ Hsys Hev Hinv E1) as (m1 & es1 & Hinv1 & Hu1).
    assert (Some (g1, o1, t1, a1) = Some (g', o', touched', any') \/ on_evs cfg sys (g1, o1, t1, a1) evs = Some (g', o', touched', any')) as [Hs|Hs]
      by (repeat case_match; auto).
    + injection Hs as <- _ _ <-. by exists m1, es1.
    + destruct (IH _ _ _ _ _ _ _ _ _ _ Hinv1 Hs) as (m2 & es2 & Hinv2 & Hu2). exists (m1 ++ m2), (es1 ++ es2). rewrite !app_assoc.
      split; [done|]. by eapply unjournaled_trans.
Qed.

(** ** The end of an iteration *)

Lemma quiet_wait cfg rounds : forall g through t0 g' o, wait_for_replica cfg rounds g through t0 = Some (g', o) ->
  quiet g g' /\ (halted g' = None -> replica_lost g' = false -> through <= acked g').
Proof.
  induction rounds as [|r rounds IH]; intros g through t0 g' o Hw; cbn [wait_for_replica] in Hw; destruct (Z.leb_spec through (acked g));
    try (injection Hw as <- _; split; [apply quiet_refl|done]); [done|].
  destruct (service g _ _) as [[g1 o1]|] eqn:E1; [|done]. cbn [mbind option_bind] in Hw. pose proof (quiet_service _ _ _ _ _ E1) as Hq1.
  destruct (Z.leb_spec through (acked g1)); [injection Hw as <- _; done|]. set (g2 := fence_check g1) in *.
  assert (quiet g g2) as Hq2 by (eapply quiet_trans; [done|apply quiet_fence]). clearbody g2.
  destruct (halted g2) eqn:Eh; [injection Hw as <- _; split; [done|congruence]|]. destruct (_ <? u64 (r_now r - t0)).
  - destruct (service g2 _ _) as [[g3 o3]|] eqn:E3; [|done]. cbn [mbind option_bind] in Hw.
    assert (quiet g (fence_check g3)) as Hq3 by (eapply quiet_trans; [exact Hq2|eapply quiet_trans; [by eapply quiet_service|apply quiet_fence]]).
    destruct (halted (fence_check g3)) eqn:Eh3; [injection Hw as <- _; split; [done|congruence]|]. injection Hw as <- _.
    destruct (halt_on_replica_loss cfg); (split; [eapply quiet_trans; [exact Hq3|by apply quiet_halted]|done]).
  - match type of Hw with (?a ≫= _) = _ => destruct a as [[g3 o3]|] eqn:E3; [|done] end. cbn [mbind option_bind] in Hw.
    assert (quiet g2 g3) as Hq3.
    { destruct (pub g2); [|injection E3 as <- _; apply quiet_refl]. destruct (SeqStream.Publisher.heartbeat_if_idle _ _ _ _) as [[p ds]|]; [|done].
      injection E3 as <- _. apply quiet_pub. }
    destruct (wait_for_replica cfg rounds g3 through t0) as [[g4 o4]|] eqn:E4; [|done]. cbn [mbind option_bind] in Hw. injection Hw as <- _.
    destruct (IH _ _ _ _ _ E4) as [Hq4 Ha]. split; [|done]. eapply quiet_trans; [exact Hq2|]. by eapply quiet_trans.
Qed.

Lemma quiet_replicate cfg it g g' o : replicate cfg it g = Some (g', o) ->
  quiet g g' /\ (wait_replica cfg = true -> pub g <> None -> halted g' = None -> replica_lost g' = false -> seq g <= acked g').
Proof.
  intros Hr. unfold replicate in Hr. destruct (pub g) as [p|]; [|injection Hr as <- _; split; [apply quiet_refl|done]].
  match type of Hr with (?a ≫= _) = _ => destruct a as [[g1 o1]|] eqn:E1; [|done] end. cbn [mbind option_bind] in Hr.
  assert (quiet g g1 /\ replica_lost g1 = replica_lost g) as [Hq1 Hl1].
  { destruct (SeqStream.Publisher.fenced p); [injection E1 as <- _; split; [apply quiet_refl|done]|].
    destruct (SeqStream.Publisher.flush _ _ _) as [[p' ds]|]; [|done]. injection E1 as <- _. split; [apply quiet_pub|done]. }
  destruct (wait_replica cfg && negb (replica_lost g1) && bool_decide (halted g1 = None)) eqn:Ew.
  - destruct (wait_for_replica cfg _ g1 _ _) as [[g2 o2]|] eqn:E2; [|done]. cbn [mbind option_bind] in Hr. injection Hr as <- _.
    destruct (quiet_wait _ _ _ _ _ _ _ E2) as [Hq2 Ha]. split; [by eapply quiet_trans|]. intros _ _ Hh Hlost. rewrite <- (fr_seq _ _ (proj1 Hq1)). by apply Ha.
  - injection Hr as <- _. split; [done|]. intros Hw _ Hh Hlost. rewrite Hw, Hlost, Hh in Ew. done.
Qed.

Lemma quiet_publish_md it g g' o : publish_md it g = Some (g', o) -> quiet g g'.
Proof.
  unfold publish_md. destruct (md g); [|intros [= <- _]; apply quiet_refl]. destruct (stage_levels g _ _); [|done]. cbn [mbind option_bind].
  destruct (MdFeed.Publisher.flush _ _ _ _). intros [= <- _]. apply quiet_md.
Qed.

Lemma quiet_heartbeats it g g' o : heartbeats it g = Some (g', o) -> quiet g g'.
Proof.
  unfold heartbeats. assert (exists g1 o1, match md g with
    | Some m => let '(m, ds) := MdFeed.Publisher.heartbeat_if_idle m (it_md_now it) 50000000 in (set_md g (Some m) (md_batch g), map ToMarket ds)
    | None => (g, []) end = (g1, o1) /\ quiet g g1) as (g1 & o1 & -> & Hq1).
  { destruct (md g); [|exists g, []; split; [done|apply quiet_refl]]. destruct (MdFeed.Publisher.heartbeat_if_idle _ _ _) as [m ds].
    eexists _, _. split; [done|apply quiet_md]. }
  destruct (pub g1); [|intros [= <- _]; done]. destruct (SeqStream.Publisher.heartbeat_if_idle _ _ _ _) as [[p ds]|]; [|done].
  intros [= <- _]. eapply quiet_trans; [done|apply quiet_pub].
Qed.

Lemma quiet_touched it l : forall g g' o, shape g -> write_touched it g l = (g', o) -> quiet g g'.
Proof.
  induction l as [|f l IH]; intros g g' o Hs Hw; cbn [write_touched] in Hw; [injection Hw as <- _; apply quiet_refl|].
  match type of Hw with (let '(g, o) := ?a in _) = _ => destruct a as [g1 o1] eqn:E1 end.
  destruct (write_touched it g1 l) as [g2 o2] eqn:E2. injection Hw as <- _. assert (quiet g g1) as Hq1.
  { destruct (conns g !! f) as [c|] eqn:Ec; [|injection E1 as <- _; apply quiet_refl]. destruct (try_write g c _ _) as [[g3 o3] ok3] eqn:Ew.
    assert (quiet g g3) as Hq3. { eapply quiet_write; [|exact Ew]. destruct Hs as (_ & Hc & _). by rewrite (proj1 (Hc _ _ Ec)). }
    destruct ok3; [by injection E1 as <- _|]. pose proof (quiet_close g3 f) as Hq4. destruct (close_conn g3 f). injection E1 as <- _. by eapply quiet_trans. }
  eapply quiet_trans; [done|]. eapply IH; [|exact E2]. by apply (fr_shape _ _ (proj1 Hq1)).
Qed.

Lemma quiet_close_all g g' o : close_all g = (g', o) -> quiet g g'.
Proof.
  intros Hc. change g' with (g', o).1. rewrite <- Hc. unfold close_all.
  assert (forall l g1 o1, quiet g g1 -> quiet g (foldl (fun a f => let '(g, o) := close_conn a.1 f in (g, a.2 ++ o)) (g1, o1) l).1) as Hl.
  { clear. intros l. induction l as [|f l IH]; intros g1 o1 Hq; [done|]. cbn [foldl fst snd].
    pose proof (quiet_close g1 f) as Hq2. destruct (close_conn g1 f) as [g2 o2]. apply IH. by eapply quiet_trans. }
  apply Hl, quiet_refl.
Qed.

(** ** Acknowledgements, and what leaves the process *)

(** The end of an iteration leaves the replicas' acknowledgements and the halt alone. *)
Definition same_pub g g' : Prop :=
  acked g' = acked g /\ (pub g' = None <-> pub g = None) /\ replica_lost g' = replica_lost g /\ halted g' = halted g.
Lemma same_pub_refl g : same_pub g g.
Proof. done. Qed.
Lemma same_pub_trans g1 g2 g3 : same_pub g1 g2 -> same_pub g2 g3 -> same_pub g1 g3.
Proof. intros (A1 & A2 & A3 & A4) (B1 & B2 & B3 & B4). split_and!; try congruence. by rewrite B2. Qed.

Lemma flush_acked fuel lost ts : forall p p' ds, SeqStream.Publisher.flush_loop fuel lost ts p = Some (p', ds) ->
  SeqStream.Publisher.acked_ p' = SeqStream.Publisher.acked_ p.
Proof.
  induction fuel as [|fuel IH]; intros p p' ds Hf; [done|]. cbn [SeqStream.Publisher.flush_loop] in Hf. destruct (_ <? _); [|by injection Hf as <- _].
  match type of Hf with (?a ≫= _) = _ => destruct a as [[st out]|]; [|done] end. cbn [mbind option_bind] in Hf.
  destruct (SeqStream.Publisher.flush_loop fuel lost ts _) as [[p2 ds2]|] eqn:E2; [|done]. injection Hf as <- _. by apply IH in E2.
Qed.

Lemma heartbeat_acked lost ts iv p p' ds : SeqStream.Publisher.heartbeat_if_idle lost ts iv p = Some (p', ds) ->
  SeqStream.Publisher.acked_ p' = SeqStream.Publisher.acked_ p.
Proof.
  unfold SeqStream.Publisher.heartbeat_if_idle. destruct (_ || _); [by intros [= <- _]|]. destruct (SeqStream.Publisher.flush lost ts p) as [[p1 ds1]|] eqn:E1; [|done].
  intros [= <- _]. by apply flush_acked in E1.
Qed.

Lemma write_same_pub g c k err : same_pub g (try_write g c k err).1.1.
Proof. unfold try_write. destruct (_ && _); [done|]. by destruct (if _ =? _ then _ else _). Qed.
Lemma close_same_pub g f : same_pub g (close_conn g f).1.
Proof. unfold close_conn. simpl. by destruct (conns g !! f). Qed.

Lemma touched_same_pub it l : forall g g' o, write_touched it g l = (g', o) -> same_pub g g'.
Proof.
  induction l as [|f l IH]; intros g g' o Hw; cbn [write_touched] in Hw; [by injection Hw as <- _|].
  match type of Hw with (let '(g, o) := ?a in _) = _ => destruct a as [g1 o1] eqn:E1 end.
  destruct (write_touched it g1 l) as [g2 o2] eqn:E2. injection Hw as <- _. eapply same_pub_trans; [|by eapply IH].
  destruct (conns g !! f) as [c|]; [|by injection E1 as <- _]. pose proof (write_same_pub g c (it_writes it f).1 (it_writes it f).2) as Hs.
  destruct (try_write g c _ _) as [[g3 o3] ok3]. destruct ok3; [by injection E1 as <- _|].
  pose proof (close_same_pub g3 f) as Hs2. destruct (close_conn g3 f). injection E1 as <- _. by eapply same_pub_trans.
Qed.

Lemma ending_same_pub it g l g1 o1 g2 o2 g3 o3 (any : bool) :
  (if any then publish_md it g else Some (g, [])) = Some (g1, o1) -> heartbeats it g1 = Some (g2, o2) -> write_touched it g2 l = (g3, o3) -> same_pub g g3.
Proof.
  intros H1 H2 H3. eapply same_pub_trans; [|eapply same_pub_trans].
  - instantiate (1 := g1). destruct any; [|by injection H1 as <- _]. unfold publish_md in H1. destruct (md g); [|by injection H1 as <- _].
    destruct (stage_levels g _ _); [|done]. cbn [mbind option_bind] in H1. destruct (MdFeed.Publisher.flush _ _ _ _). by injection H1 as <- _.
  - instantiate (1 := g2). unfold heartbeats in H2. assert (exists g0 o0, match md g1 with
      | Some m => let '(m, ds) := MdFeed.Publisher.heartbeat_if_idle m (it_md_now it) 50000000 in (set_md g1 (Some m) (md_batch g1), map ToMarket ds)
      | None => (g1, []) end = (g0, o0) /\ same_pub g1 g0) as (g0 & o0 & Eg & Hs).
    { destruct (md g1); [|by exists g1, []]. destruct (MdFeed.Publisher.heartbeat_if_idle _ _ _) as [m ds]. by eexists _, _. }
    rewrite Eg in H2. eapply same_pub_trans; [exact Hs|]. destruct (pub g0) as [p|] eqn:Ep; [|by injection H2 as <- _].
    destruct (SeqStream.Publisher.heartbeat_if_idle _ _ _ _) as [[p' ds]|] eqn:Eh; [|done]. injection H2 as <- _.
    apply heartbeat_acked in Eh. unfold same_pub, acked. simpl. rewrite Ep. unfold SeqStream.Publisher.acked. by rewrite Eh.
  - by eapply touched_same_pub.
Qed.

Definition no_client (o : list Out) : Prop := forall f bs, ToClient f bs ∉ o.
Lemma no_client_app o o' : no_client o -> no_client o' -> no_client (o ++ o').
Proof. intros H1 H2 f bs [?|?]%elem_of_app; [by eapply H1|by eapply H2]. Qed.
Lemma no_client_map {A} (k : A -> Out) l : (forall x f bs, k x <> ToClient f bs) -> no_client (map k l).
Proof. intros Hk f bs Hin. apply list_elem_of_In, in_map_iff in Hin as (x & Hx & _). by eapply Hk. Qed.
Lemma no_client_nil : no_client [].
Proof. intros f bs ?%elem_of_nil. done. Qed.
Lemma no_client_close g f : no_client (close_conn g f).2.
Proof. intros f' bs Hin. apply list_elem_of_singleton in Hin. done. Qed.

Lemma service_silent g gr ct g' o : service g gr ct = Some (g', o) -> no_client o.
Proof.
  unfold service. destruct (pub g); [|intros [= _ <-]; apply no_client_nil]. destruct (serve_control _ _) as [[p ds]|]; [|done].
  intros [= _ <-]. by apply no_client_map.
Qed.

Definition silent (ev : Ev) : Prop := match ev with EvConn _ wr _ _ _ _ => wr = false | _ => True end.

Lemma on_ev_silent cfg sys g o touched any ev g' o' touched' any' : silent ev -> no_client o ->
  on_ev cfg sys (g, o, touched, any) ev = Some (g', o', touched', any') -> no_client o'.
Proof.
  intros Hs Ho He. unfold on_ev in He. destruct ev as [fds|gr ct|f wr k err rd r].
  - by injection He as _ <- _ _.
  - destruct (service g gr ct) as [[g1 o1]|] eqn:E1; [|done]. cbn [mbind option_bind] in He. injection He as _ <- _ _. apply no_client_app; [done|].
    by eapply service_silent.
  - destruct (halted g); [by injection He as _ <- _ _|]. destruct (conns g !! f) as [c|] eqn:Ec; [|by injection He as _ <- _ _]. simpl in Hs. subst wr. cbn [negb] in He.
    destruct (negb rd); [by injection He as _ <- _ _|]. destruct r as [| |bs]; [|by injection He as _ <- _ _|].
    + pose proof (no_client_close g f) as Hc. destruct (close_conn g f) as [g1 o1]. injection He as _ <- _ _. by apply no_client_app.
    + rewrite Ec in He. cbn [mbind option_bind] in He. destruct (on_readable cfg sys g c touched any bs) as [[[[g2 o2] t2] a2]|] eqn:E2; [|done]. injection He as _ <- _ _.
      apply no_client_app; [done|]. unfold on_readable in E2. destruct (decode_loop _ _ _ _ _ _ _ _ _) as [[[[[g1 t1] a1] rest] broken]|]; [|done].
      cbn [mbind option_bind] in E2. destruct (halted g1); [injection E2 as _ <- _ _; apply no_client_nil|]. destruct broken; [|injection E2 as _ <- _ _; apply no_client_nil].
      pose proof (no_client_close g1 (fd c)) as Hc. destruct (close_conn g1 (fd c)) as [g3 o3]. by injection E2 as _ <- _ _.
Qed.

Lemma on_evs_silent cfg sys evs : Forall silent evs -> forall g o touched any g' o' touched' any', no_client o ->
  on_evs cfg sys (g, o, touched, any) evs = Some (g', o', touched', any') -> no_client o'.
Proof.
  induction 1 as [|ev evs Hs Hevs IH]; intros g o touched any g' o' touched' any' Ho He; cbn [on_evs] in He; [by injection He as _ <- _ _|].
  destruct (on_ev cfg sys (g, o, touched, any) ev) as [[[[g1 o1] t1] a1]|] eqn:E1; [|done]. cbn [mbind option_bind] in He.
  pose proof (on_ev_silent _ _ _ _ _ _ _ _ _ _ _ Hs Ho E1) as Ho1.
  assert (Some (g1, o1, t1, a1) = Some (g', o', touched', any') \/ on_evs cfg sys (g1, o1, t1, a1) evs = Some (g', o', touched', any')) as [Hx|Hx]
    by (repeat case_match; auto); [by injection Hx as _ <- _ _|by eapply IH].
Qed.

Lemma wait_silent cfg rounds : forall g through t0 g' o, wait_for_replica cfg rounds g through t0 = Some (g', o) -> no_client o.
Proof.
  induction rounds as [|r rounds IH]; intros g through t0 g' o Hw; cbn [wait_for_replica] in Hw; destruct (_ <=? _);
    try (injection Hw as _ <-; apply no_client_nil); [done|].
  destruct (service g _ _) as [[g1 o1]|] eqn:E1; [|done]. cbn [mbind option_bind] in Hw. pose proof (service_silent _ _ _ _ _ E1) as H1.
  destruct (_ <=? _); [by injection Hw as _ <-|]. destruct (halted (fence_check g1)); [by injection Hw as _ <-|]. destruct (_ <? _).
  - destruct (service (fence_check g1) _ _) as [[g3 o3]|] eqn:E3; [|done]. cbn [mbind option_bind] in Hw. pose proof (service_silent _ _ _ _ _ E3) as H3.
    destruct (halted (fence_check g3)); injection Hw as _ <-; by apply no_client_app.
  - match type of Hw with (?a ≫= _) = _ => destruct a as [[g3 o3]|] eqn:E3; [|done] end. cbn [mbind option_bind] in Hw.
    destruct (wait_for_replica cfg rounds g3 through t0) as [[g4 o4]|] eqn:E4; [|done]. injection Hw as _ <-. apply no_client_app; [done|].
    apply no_client_app; [|by eapply IH]. destruct (pub (fence_check g1)); [|injection E3 as _ <-; apply no_client_nil].
    destruct (SeqStream.Publisher.heartbeat_if_idle _ _ _ _) as [[p ds]|]; [|done]. injection E3 as _ <-. by apply no_client_map.
Qed.

Lemma replicate_silent cfg it g g' o : replicate cfg it g = Some (g', o) -> no_client o.
Proof.
  intros Hr. unfold replicate in Hr. destruct (pub g) as [p|]; [|injection Hr as _ <-; apply no_client_nil].
  match type of Hr with (?a ≫= _) = _ => destruct a as [[g1 o1]|] eqn:E1; [|done] end. cbn [mbind option_bind] in Hr. assert (no_client o1) as H1.
  { destruct (SeqStream.Publisher.fenced p); [injection E1 as _ <-; apply no_client_nil|]. destruct (SeqStream.Publisher.flush _ _ _) as [[p' ds]|]; [|done].
    injection E1 as _ <-. by apply no_client_map. }
  destruct (_ && _); [|by injection Hr as _ <-]. destruct (wait_for_replica cfg _ g1 _ _) as [[g2 o2]|] eqn:E2; [|done]. injection Hr as _ <-.
  apply no_client_app; [done|by eapply wait_silent].
Qed.

Lemma close_all_silent g g' o : close_all g = (g', o) -> no_client o.
Proof.
  intros Hc. change o with (g', o).2. rewrite <- Hc. unfold close_all. clear Hc.
  assert (forall l (a : Gateway.t E * list Out), no_client a.2 -> no_client (foldl (fun a f => let '(g, o) := close_conn a.1 f in (g, a.2 ++ o)) a l).2) as Hl.
  { intros l. induction l as [|f l IH]; intros a Ha; [done|]. cbn [foldl]. apply IH. pose proof (no_client_close a.1 f) as Hf.
    destruct (close_conn a.1 f) as [g2 o2]. by apply no_client_app. }
  apply Hl, no_client_nil.
Qed.

(** ** Iterations *)

Definition iter_ok (it : Iter) : Prop := Forall ev_ok (it_events it) /\ sys_ok (it_sys it).

(** Between iterations a gateway that runs has handed its whole journal to the operating system. *)
Definition settled g : Prop := halted g = None -> flushed g = alen (Journal.file_ (journal g)).

Record iterated (cfg : GatewayConfig) g g' (it : Iter) (out : list Out) (stop : bool) : Prop := {
  ir_settled : settled g';
  ir_stop : stop = false <-> halted g' = None;
  ir_replied : halted g' = None -> journal g' = journal g \/ (wait_replica cfg = true -> pub g' <> None -> replica_lost g' = false -> seq g' <= acked g');
  ir_silent : halted g' <> None -> Forall silent (it_events it) -> no_client out;
}.

Lemma commit_inv cfg g it g' out touched any ok cs es : inv g cs es -> settled g -> halted g = None -> iter_ok it ->
  commit cfg g it = Some (g', out, touched, any, ok) ->
  exists more es', inv g' (cs ++ more) (es ++ es') /\ settled g' /\ (halted g' = None -> journal g' = journal g \/ ok = true) /\
    (Forall silent (it_events it) -> no_client out).
Proof.
  intros Hinv Hset Hh [Hevs Hsys] Hc. unfold commit in Hc.
  destruct (on_evs cfg (it_sys it) (g, [], [], false) (it_events it)) as [[[[g1 o1] t1] a1]|] eqn:E1; [|done]. cbn [mbind option_bind] in Hc.
  destruct (on_evs_inv _ _ _ Hsys Hevs _ _ _ _ _ _ _ _ _ _ Hinv E1) as (more & es' & Hinv1 & Hu). exists more, es'.
  destruct (if a1 then journal_io g1 (it_flush_fails it) flush_journal else (g1, false)) as [g2 b2] eqn:E2. injection Hc as <- <- <- <- <-.
  assert (Forall silent (it_events it) -> no_client o1) as Hsil by (intros Hs; by eapply on_evs_silent; [done|apply no_client_nil|exact E1]).
  destruct a1.
  - destruct (inv_flush _ _ _ _ _ _ Hinv1 E2) as (Hi2 & Hj & Hok & Hno & _). split_and!; try done; intros Hn; destruct b2; try (by apply Hno in Hn); [by apply Hok|by right].
  - injection E2 as <- <-. destruct (Hu eq_refl) as (_ & Hj & Hf). split_and!; try done; [|by left]. intros Hn. rewrite Hf, Hj. by apply Hset.
Qed.

Lemma settled_quiet g g' : settled g -> quiet g g' -> settled g'.
Proof. intros Hs [[F1 F2 F3 F4 F5 F6 F7] _] Hn. rewrite F3, F2. apply Hs. destruct (halted g); [|done]. by destruct F6. Qed.

Lemma iterate_inv cfg g it g' out stop cs es : inv g cs es -> halted g = None -> settled g -> iter_ok it -> iterate cfg g it = Some (g', out, stop) ->
  exists more es', inv g' (cs ++ more) (es ++ es') /\ iterated cfg g g' it out stop.
Proof.
  intros Hinv Hh Hset Hit Hi. unfold iterate in Hi. destruct (commit cfg g it) as [[[[[g2 o1] t1] any] ok]|] eqn:E1; [|done]. cbn [mbind option_bind] in Hi.
  destruct (commit_inv _ _ _ _ _ _ _ _ _ _ Hinv Hset Hh Hit E1) as (more & es' & Hinv2 & Hset2 & Hany & Hsil). exists more, es'.
  match type of Hi with (?a ≫= _) = _ => destruct a as [[g3 o3]|] eqn:E3; [|done] end. cbn [mbind option_bind] in Hi.
  assert (quiet g2 g3 /\ (ok = true -> wait_replica cfg = true -> pub g3 <> None -> halted g3 = None -> replica_lost g3 = false -> seq g3 <= acked g3) /\
    no_client o3) as (Hq3 & Hwait & Ho3).
  { destruct ok; [|injection E3 as <- <-; split_and!; [apply quiet_refl|done|apply no_client_nil]].
    destruct (quiet_replicate _ _ _ _ _ E3) as [Hq Hw]. split_and!; [done| |by eapply replicate_silent].
    intros _ H1 H2 H3 H4. rewrite (fr_seq _ _ (proj1 Hq)). apply Hw; try done. intros Hp. apply H2. unfold replicate in E3. rewrite Hp in E3. by injection E3 as <- _. }
  pose proof (inv_quiet _ _ _ _ Hinv2 Hq3) as Hinv3. pose proof (settled_quiet _ _ Hset2 Hq3) as Hset3. destruct (halted g3) as [h|] eqn:Eh.
  - destruct (close_all g3) as [g4 o4] eqn:E4. injection Hi as <- <- <-. pose proof (quiet_close_all _ _ _ E4) as Hq4.
    assert (halted g4 <> None) as Hh4 by (apply (fr_halted _ _ (proj1 Hq4)); congruence). split; [by eapply inv_quiet|].
    split; [by eapply settled_quiet|split; [done|by intros ?]|by intros ?|].
    intros _ Hs. apply no_client_app; [by apply Hsil|]. apply no_client_app; [done|by eapply close_all_silent].
  - match type of Hi with (?a ≫= _) = _ => destruct a as [[g4 o4]|] eqn:E4; [|done] end. cbn [mbind option_bind] in Hi.
    destruct (heartbeats it g4) as [[g5 o5]|] eqn:E5; [|done]. cbn [mbind option_bind] in Hi. destruct (write_touched it g5 t1) as [g6 o6] eqn:E6. injection Hi as <- <- <-.
    destruct (ending_same_pub _ _ _ _ _ _ _ _ _ _ E4 E5 E6) as (Ha & Hp & Hl & Hhh). assert (quiet g3 g6) as Hq6.
    { assert (quiet g3 g4) as Hq4 by (destruct any; [by eapply quiet_publish_md|injection E4 as <- _; apply quiet_refl]).
      pose proof (quiet_trans _ _ _ Hq4 (quiet_heartbeats _ _ _ _ E5)) as Hq5. eapply quiet_trans; [exact Hq5|].
      eapply quiet_touched; [|exact E6]. apply (fr_shape _ _ (proj1 Hq5)), (iv_shape _ _ _ Hinv3). }
    split; [by eapply inv_quiet|]. split; [by eapply settled_quiet|by rewrite Hhh, Eh| |by rewrite Hhh, Eh].
    intros _. destruct Hq6 as [[F1 F2 F3 F4 F5 F6 F7] _], Hq3 as [[G1 G2 G3 G4 G5 G6 G7] _].
    assert (halted g2 = None) as Hh2 by (destruct (halted g2); [by destruct G6|done]).
    destruct (Hany Hh2) as [Hj|Hok]; [left; congruence|right]. intros H1 H2 H3. rewrite F4, Ha. apply Hwait; try done; [by rewrite <- Hp|congruence].
Qed.
End laws.
End GatewayLaws.

(** ** Properties *)

Module GatewayTheorems.
Import Gateway GatewayLaws.

(** The engine over reference books. *)
#[export] Instance reference_gateway : GatewayEngine (MatchingEngine.t ReferenceBook.t) := {
  gw_engine := matching_engine;
  gw_l2 := FeedTheorems.reference_engine;
  gw_find_order e s id := r ← e.[s]; ReferenceBook.find_order r id;
  gw_contains e s id := r ← e.[s]; Some (ReferenceBook.contains r id);
  gw_level_qty e s sd px := r ← e.[s]; Some (match ReferenceBook.map_find (ReferenceBook.book r sd) px with Some q => ReferenceBook.level_qty q | None => 0 end);
}.

Section properties.
Context {E : Type} `{GatewayEngine E}.

(** A server that starts over a journal of [cs0], which it has replayed into the new gate [gt]. *)
Record started (gt : RiskGate.t E) (cs0 : list Command) (a : Server.Recovered E) (w : Journal.JournalWriter) : Prop := {
  st_clean : Forall clean cs0;
  st_file : Journal.file_ w = Journal.file_of cs0;
  st_replay : Server.replay (Server.fresh gt) cs0 = Some a;
}.

Lemma replay_app l : forall (a : Server.Recovered E) l', Server.replay a (l ++ l') = r ← Server.replay a l; Server.replay r l'.
Proof. induction l as [|c l IH]; intros a l'; [done|]. cbn [app Server.replay]. destruct (Server.on_record a c); [apply IH|done]. Qed.

Lemma replay_run cs : forall (a : Server.Recovered E) gt es, RiskGate.run (Server.r_gate a) cs = Some (gt, es) ->
  exists r, Server.replay a cs = Some r /\ Server.r_gate r = gt /\ Server.r_digest r = foldl EventDigest.on_event (Server.r_digest a) es /\
    Server.r_seq r = default (Server.r_seq a) (c_seq <$> last cs).
Proof.
  induction cs as [|c cs IH]; intros a gt es Hr; cbn [RiskGate.run Server.replay] in *; [injection Hr as <- <-; by exists a|].
  unfold Server.on_record. destruct (RiskGate.process (Server.r_gate a) c) as [[gt1 es1]|]; [|done]. cbn [mbind option_bind] in *.
  set (a1 := Server.mkRecovered _ _ _ _ _). destruct (RiskGate.run gt1 cs) as [[gt2 es2]|] eqn:E2; [|done]. injection Hr as <- <-.
  destruct (IH a1 _ _ E2) as (r & Hr & Hg & Hd & Hs). exists r. split; [done|]. split; [done|]. split; [by rewrite foldl_app|].
  rewrite Hs, last_cons. by destruct (last cs).
Qed.

Lemma started_seq gt cs0 a w : started gt cs0 a w -> in_u64 (Server.r_seq a).
Proof.
  intros [Hc _ Hr]. revert Hr. generalize (Server.fresh gt) (eq_refl : in_u64 (Server.r_seq (Server.fresh gt)) = in_u64 0). intros a0 H0.
  assert (in_u64 (Server.r_seq a0)) as Ha by (by rewrite H0). clear H0. revert a0 Ha.
  induction Hc as [|c cs0 [(_ & _ & Hseq & _) _] _ IH]; intros a0 Ha Hr; cbn [Server.replay] in Hr; [by injection Hr as <-|].
  destruct (Server.on_record a0 c) as [a1|] eqn:E1; [|done]. eapply IH; [|exact Hr]. unfold Server.on_record in E1.
  destruct (RiskGate.process _ _) as [[]|]; [|done]. by injection E1 as <-.
Qed.

(** What a restart makes of any prefix of a journal. *)
Lemma recover_prefix gt cs n : Forall clean cs -> (8 <= n)%nat -> is_Some (Server.replay (Server.fresh gt) cs) ->
  exists k r w, Server.recover gt (take n (Journal.file_of cs)) = Some (r, w) /\ Server.replay (Server.fresh gt) (take k cs) = Some r /\
    Journal.file_ w = Journal.file_of (take k cs) /\ (alen (Journal.file_of cs) <= Z.of_nat n -> take k cs = cs).
Proof.
  intros Hcl Hn [r0 Hr0]. assert (Forall command_wf cs) as Hwf by (eapply Forall_impl; [exact Hcl|by intros ? []]).
  assert (forall l, Forall clean l -> Journal.journal_view <$> l = l) as Hview.
  { intros l Hl. induction Hl as [|c l [_ Hc] Hl IH]; [done|]. cbn [fmap list_fmap]. by rewrite Hc, IH. }
  destruct (Journal.scan_prefix _ n Hwf Hn) as (k & t & Hk & Ht & _ & Hscan). rewrite Hview in Hscan by (by apply Forall_take).
  rewrite <- (take_drop k cs), replay_app in Hr0. destruct (Server.replay (Server.fresh gt) (take k cs)) as [r|] eqn:Er; [|done].
  exists k, r, (Journal.mkWriter (Journal.file_of (take k cs)) 0). unfold Server.recover, Journal.recover. rewrite Hscan, Er. cbn [mbind option_bind Journal.valid_bytes].
  rewrite (proj2 (Z.ltb_ge _ _)) by (rewrite Journal.file_of_size; pose proof (alen_nonneg (Journal.body (take k cs))); unfold Journal.kJournalHeaderBytes; lia).
  rewrite Ht at 1. unfold alen at 1. rewrite Nat2Z.id, take_app_length. split; [done|]. split; [done|]. split; [done|].
  intros Hle. rewrite take_ge in Hscan by (unfold alen in Hle; lia). rewrite (Journal.scan_whole _ Hwf), (Hview _ Hcl) in Hscan. by injection Hscan.
Qed.

Lemma run_inv cfg its cs0 gt0 d0 seq0 : Forall iter_ok its -> forall (g : Gateway.t E) g' o cs es,
  inv cs0 gt0 d0 seq0 g cs es -> halted g = None -> settled g -> run cfg g its = Some (g', o) ->
  exists more es', inv cs0 gt0 d0 seq0 g' (cs ++ more) (es ++ es') /\ settled g'.
Proof.
  induction 1 as [|it its Hit Hits IH]; intros g g' o cs es Hinv Hh Hset Hr; cbn [run] in Hr.
  - injection Hr as <- _. exists [], []. by rewrite !app_nil_r.
  - destruct (iterate cfg g it) as [[[g1 o1] stop]|] eqn:E1; [|done]. cbn [mbind option_bind] in Hr.
    destruct (iterate_inv _ _ _ _ _ _ _ _ _ _ _ _ Hinv Hh Hset Hit E1) as (m1 & es1 & Hinv1 & [Hset1 Hstop _ _]). destruct stop.
    + injection Hr as <- _. by exists m1, es1.
    + destruct (run cfg g1 its) as [[g2 o2]|] eqn:E2; [|done]. injection Hr as <- _.
      destruct (IH _ _ _ _ _ Hinv1 (proj1 Hstop eq_refl) Hset1 E2) as (m2 & es2 & Hinv2 & Hset2). exists (m1 ++ m2), (es1 ++ es2). by rewrite !app_assoc.
Qed.

Lemma started_inv gt cs0 a w p m : started gt cs0 a w ->
  inv cs0 (Server.r_gate a) (Server.r_digest a) (Server.r_seq a) (Server.start a w p m) [] [] /\ settled (Server.start a w p m).
Proof.
  intros Hst. pose proof (started_seq _ _ _ _ Hst). destruct Hst as [_ Hf _]. split; [|done]. split; simpl; try done.
  - by rewrite app_nil_r.
  - intros _. unfold alen. simpl. by rewrite Z.add_0_r, u64_small.
  - split; [split; [apply in_u64_u64|]|split; [|apply in_u32_u32]]; simpl; intros *; by rewrite lookup_empty.
Qed.

(** C24: write-ahead and determinism: whatever clients send and the system returns, the journal is exactly the commands the
    gate and the engine have processed, stamped and numbered in sequence, and a server that restarts on it has the gateway's
    gate, engine and digest and goes on with its numbering. A crash that keeps the first [n] bytes loses at most a suffix of
    the commands, which the restart cuts off, and none at all if [n] covers what a running gateway has flushed. *)
Theorem gateway_recovery_exact cfg (gt : RiskGate.t E) cs0 a w p m its g o n (Hstart : started gt cs0 a w)
  (Hits : Forall iter_ok its) (Hrun : run cfg (Server.start a w p m) its = Some (g, o)) (Hn : (8 <= n)%nat) :
  exists cs, Journal.file_ (journal g) = Journal.file_of (cs0 ++ cs) /\
    (forall i c, cs !! i = Some c -> c_seq c = u64 (Server.r_seq a + Z.of_nat i + 1)) /\
    (exists r, Server.replay (Server.fresh gt) (cs0 ++ cs) = Some r /\ Server.r_gate r = gate g /\ Server.r_digest r = digest g /\
      (halted g = None -> Server.r_seq r = seq g)) /\
    exists k r w', Server.recover gt (take n (Journal.file_ (journal g))) = Some (r, w') /\
      Server.replay (Server.fresh gt) (take k (cs0 ++ cs)) = Some r /\ Journal.file_ w' = Journal.file_of (take k (cs0 ++ cs)) /\
      (halted g = None -> flushed g <= Z.of_nat n -> take k (cs0 ++ cs) = cs0 ++ cs).
Proof.
  destruct (started_inv gt cs0 a w p m Hstart) as [Hinv Hset].
  destruct (run_inv _ _ _ _ _ _ Hits _ _ _ _ _ Hinv eq_refl Hset Hrun) as (cs & es & [I1 I2 I3 I4 I5 I6 I7 I8] & Hset'). simpl in *.
  exists cs. split; [done|]. split; [done|]. destruct (replay_run _ _ _ _ I2) as (r & Hr & Hg & Hd & Hs).
  assert (Server.replay (Server.fresh gt) (cs0 ++ cs) = Some r) as Hrep by (by rewrite replay_app, (st_replay _ _ _ _ Hstart)). split.
  - exists r. split; [done|]. split; [done|]. split; [congruence|]. intros Hh. rewrite Hs.
    assert (journal_failed g = false) as Hf by (destruct (journal_failed g); [by destruct I8|done]). rewrite (I5 Hf).
    destruct cs as [|c cs _] using rev_ind; [unfold alen; simpl; rewrite Z.add_0_r; symmetry; apply u64_small; by eapply started_seq|].
    rewrite last_snoc. simpl. rewrite (I6 (length cs) c) by (by rewrite lookup_app_r, Nat.sub_diag). f_equal. unfold alen. rewrite length_app. simpl. lia.
  - rewrite I1. destruct (recover_prefix gt (cs0 ++ cs) n) as (k & r' & w' & H1 & H2 & H3 & H4); [apply Forall_app; split; [apply Hstart|done]|done|eauto|].
    exists k, r', w'. split; [done|]. split; [done|]. split; [done|]. intros Hh Hfl. apply H4. by rewrite (Hset' Hh), I1 in Hfl.
Qed.

(** C25: no response outruns the log: in an iteration in which no connection is written to before the batch is committed,
    whatever a client is sent follows the flush of the whole journal, and with replication on it follows a replica's
    acknowledgement of every command of the batch. *)
Theorem responses_follow_flush cfg (gt : RiskGate.t E) cs0 a w p m its g o it g' out stop f bs (Hstart : started gt cs0 a w)
  (Hits : Forall iter_ok its) (Hrun : run cfg (Server.start a w p m) its = Some (g, o)) (Halive : halted g = None)
  (Hit : iter_ok it) (Hstep : iterate cfg g it = Some (g', out, stop)) (Hsilent : Forall silent (it_events it)) (Hsent : ToClient f bs ∈ out) :
  flushed g' = alen (Journal.file_ (journal g')) /\
  (journal g' <> journal g -> wait_replica cfg = true -> pub g' <> None -> replica_lost g' = false -> seq g' <= acked g').
Proof.
  destruct (started_inv gt cs0 a w p m Hstart) as [Hinv Hset].
  destruct (run_inv _ _ _ _ _ _ Hits _ _ _ _ _ Hinv eq_refl Hset Hrun) as (cs & es & Hinv1 & Hset1).
  destruct (iterate_inv _ _ _ _ _ _ _ _ _ _ _ _ Hinv1 Halive Hset1 Hit Hstep) as (more & es' & _ & [S1 S2 S3 S4]).
  assert (halted g' = None) as Hh by (destruct (halted g'); [by destruct (S4 ltac:(done) Hsilent f bs)|done]).
  split; [by apply S1|]. intros Hj. destruct (S3 Hh) as [?|?]; done.
Qed.
End properties.

(** Two clients: 5 offers ten lots and does not read its report; in the next iteration 6 buys four of them, and after that 5
    reads what it can. *)
Definition demo_config : GatewayConfig := mkConfig SyncOs 1000 false 500 true false.
Definition demo_books : MatchingEngine.t ReferenceBook.t := [ReferenceBook.make 0 (mkBookConfig 100 64 8 StpNone)].
Definition demo_gate : RiskGate.t (MatchingEngine.t ReferenceBook.t) := RiskGate.make demo_books (RiskGate.mkRiskConfig 1000 0 0 4 0 0 0).
Definition demo_start : Gateway.t (MatchingEngine.t ReferenceBook.t) := Server.start (Server.fresh demo_gate) Journal.create None None.
Definition demo_order (id price qty : Z) (sd : Side) : Command := mkCommand id price 40 0 qty 0 0 NewOrder sd Limit Day 0.
Definition demo_sys (k : Z) : Calls := mkCalls (1000 + k mod 1000) false false.
Definition demo_iter (evs : list Ev) (fails : bool) (writes : Z -> nat * bool) : Iter :=
  mkIter evs demo_sys fails (fun _ => false) 0 [] (fun _ => false) 0 writes.
Definition demo_it1 : Iter :=
  demo_iter [EvAccept [5; 6]; EvConn 5 false 0 false true (RecvBytes (Wire.encode (demo_order 70 110 10 Sell)))] false (fun _ => (0%nat, false)).
Definition demo_it2 (writable fails : bool) : Iter :=
  demo_iter [EvConn 6 false 0 false true (RecvBytes (Wire.encode (demo_order 80 110 4 Buy))); EvConn 5 writable 1000 false false RecvAgain] fails
    (fun _ => (1000%nat, false)).

Lemma demo_started : started demo_gate [] (Server.fresh demo_gate) Journal.create.
Proof. split; [constructor|reflexivity|reflexivity]. Qed.

Lemma bytes_encode c : bytes (Wire.encode c).
Proof. unfold Wire.encode. apply bytes_pack. Qed.

Lemma demo_iters writable fails : iter_ok demo_it1 /\ iter_ok (demo_it2 writable fails).
Proof.
  assert (sys_ok demo_sys) as Hs by (intros k; unfold demo_sys, in_u64; simpl; pose proof (Z.mod_pos_bound k 1000); lia).
  split; (split; [|exact Hs]); repeat (constructor; [first [exact I|apply bytes_encode]|]); constructor.
Qed.

Lemma gateway_recovery_exact_witness : exists g o r cs, run demo_config demo_start [demo_it1; demo_it2 false false] = Some (g, o) /\
  Server.replay (Server.fresh demo_gate) cs = Some r /\ Server.r_gate r = gate g /\ Server.r_digest r = digest g.
Proof.
  destruct (run demo_config demo_start [demo_it1; demo_it2 false false]) as [[g o]|] eqn:E; [|exfalso; vm_compute in E; discriminate E].
  destruct (demo_iters false false) as [H1 H2].
  destruct (gateway_recovery_exact demo_config demo_gate [] _ Journal.create None None _ g o 8 demo_started
    (proj2 (Forall_cons _ _ _) (conj H1 (proj2 (Forall_cons _ _ _) (conj H2 (proj2 (Forall_nil _) I))))) E ltac:(lia))
    as (cs & _ & _ & (r & Hr & Hg & Hd & _) & _).
  exists g, o, r, ([] ++ cs). split; [reflexivity|]. split; [exact Hr|]. split; [exact Hg|exact Hd].
Defined.

Lemma responses_follow_flush_witness : exists g g' out stop bs, iterate demo_config g (demo_it2 false false) = Some (g', out, stop) /\
  ToClient 5 bs ∈ out /\ flushed g' = alen (Journal.file_ (journal g')).
Proof.
  destruct (run demo_config demo_start [demo_it1]) as [[g o]|] eqn:E; [|exfalso; vm_compute in E; discriminate E].
  destruct (iterate demo_config g (demo_it2 false false)) as [[[g' out] stop]|] eqn:E2;
    [|exfalso; vm_compute in E; injection E as <- <-; vm_compute in E2; discriminate E2].
  assert (halted g = None /\ exists bs, ToClient 5 bs ∈ out) as [Hh (bs & Hin)].
  { vm_compute in E. injection E as <- <-. vm_compute in E2. injection E2 as <- <- <-. split; [reflexivity|]. eexists. by left. }
  destruct (demo_iters false false) as [H1 H2].
  exists g, g', out, stop, bs. split; [exact E2|]. split; [exact Hin|].
  apply (responses_follow_flush demo_config demo_gate [] _ Journal.create None None [demo_it1] g o (demo_it2 false false) g' out stop 5 bs demo_started
    (proj2 (Forall_cons _ _ _) (conj H1 (proj2 (Forall_nil _) I))) E Hh H2 E2); [|exact Hin]. repeat constructor.
Defined.

(** The events of one iteration are handled in turn, and a connection that is ready for output is written to at once: the
    report of the trade for the resting order leaves although the journal does not have the order that traded with it, and
    if the flush then fails, never will. *)
Lemma report_outruns_journal :
  match run demo_config demo_start [demo_it1] with
  | Some (g, _) =>
      match iterate demo_config g (demo_it2 true true) with
      | Some (g', ToClient f bs :: _, true) =>
          f = 5 /\ Wire.read_report (drop 128 bs) = Some (Wire.report_of (trade_event 0 0 70 Buy 110 4 6) 0) /\
          halted g' = Some JournalError /\ flushed g' = flushed g
      | _ => False
      end
  | None => False
  end.
Proof. vm_compute. repeat split; reflexivity. Qed.
End GatewayTheorems.
