(* ===== verification/Replica.v ===== *)
(** * The replica (tools/exsim_replica.cpp)

    A hot backup: it applies the primary's commands to its own journal, gate and engine, acknowledges what its journal
    holds, and as a standby becomes the gateway when the primary falls silent. One turn of its loop is a function of the
    datagrams its sockets hold and of the clock; a failing write ends the process. *)
From S2P Require Import Prelude Bits Bytes Common ReferenceBook Engine Risk Protocol ClientIds Journal SeqStream MdFeed Gateway GatewayLaws.

Module Replica.
Section replica.
Context {E : Type} `{EngineImpl E}.

(** The variables of [main]. [flushed] bytes of the journal are with the operating system. *)
Record t := mk {
  gate : RiskGate.t E; digest : EventDigest.t; journal : Journal.JournalWriter; flushed : Z;
  seq : Z; last_ack_ns : Z; max_owner : Z; max_order_id : Z; sub : SeqStream.Subscriber.t;
}.
Definition make (gt : RiskGate.t E) : t :=
  mk gt EventDigest.init Journal.create (alen (Journal.file_ Journal.create)) 0 0 0 0 (SeqStream.Subscriber.make 1 1).
Definition set_sub (r : t) (s : SeqStream.Subscriber.t) : t :=
  mk (gate r) (digest r) (journal r) (flushed r) (seq r) (last_ack_ns r) (max_owner r) (max_order_id r) s.
Definition set_ack (r : t) (now : Z) : t :=
  mk (gate r) (digest r) (journal r) (flushed r) (seq r) now (max_owner r) (max_order_id r) (sub r).
(** [journal.flush()], and [journal.sync()]. *)
Definition flush (r : t) : t :=
  mk (gate r) (digest r) (journal r) (alen (Journal.file_ (journal r))) (seq r) (last_ack_ns r) (max_owner r) (max_order_id r) (sub r).

Definition apply (r : t) (c : Command) : option t :=
  let j := Journal.append (journal r) c in
  '(gt, es) ← RiskGate.process (gate r) c;
  Some (mk gt (foldl EventDigest.on_event (digest r) es) j (flushed r) (c_seq c) (last_ack_ns r)
    (if max_owner r <? c_owner c then c_owner c else max_owner r) (if max_order_id r <? c_order_id c then c_order_id c else max_order_id r) (sub r)).
Fixpoint apply_all (r : t) (cs : list Command) : option t :=
  match cs with [] => Some r | c :: cs => r ← apply r c; apply_all r cs end.

(** Log shipping: a copy of a journal, of which the commands that come next are applied. *)
Fixpoint boot_all (r : t) (cs : list Command) : option t :=
  match cs with [] => Some r | c :: cs => r ← (if c_seq c =? u64 (seq r + 1) then apply r c else Some r); boot_all r cs end.
Definition bootstrap (r : t) (from_journal : option (list Z)) : option t :=
  r ← match from_journal with
      | Some file => match Journal.journal_scan file with Journal.Scanned cs _ => flush <$> boot_all r cs | Journal.NotAJournal => None end
      | None => Some r
      end;
  Some (set_sub r (SeqStream.Subscriber.make (u64 (seq r + 1)) 1)).

(** ** The loop *)

Inductive Outcome := FatalUnavailable | Superseded | Ended | Promoting | Stopped.
(** What the sockets hold when they are polled, with the time each datagram is taken; the clock in [poll] and after it. *)
Record Turn := mkTurn { tn_data : list (Z * SeqStream.Datagram); tn_poll : Z; tn_now : Z }.

Definition acknowledge (r : t) (got : bool) (now : Z) : t * list SeqStream.Datagram :=
  if got || (5000000 <? u64 (now - last_ack_ns r)) then
    let r := if got then flush r else r in
    (set_ack r now, option_list (SeqStream.Subscriber.ack (sub r) (seq r)))
  else (r, []).

(** The result is what is sent, and why the loop ends if it does. *)
Definition turn (standby : bool) (silence_ns : Z) (r : t) (tn : Turn) : option (t * list SeqStream.Datagram * option Outcome) :=
  let '(s, cs, req) := SeqStream.Subscriber.poll (sub r) (tn_data tn) (tn_poll tn) in
  r ← apply_all (set_sub r s) cs;
  let '(r, acks) := acknowledge r (0 <? alen cs) (tn_now tn) in
  let out := option_list req ++ acks in
  if SeqStream.Subscriber.unavailable_ (sub r) then Some (r, out, Some FatalUnavailable) else
  if SeqStream.Subscriber.superseded (sub r) then Some (flush r, out, Some Superseded) else
  if SeqStream.Subscriber.ended (sub r) then Some (flush r, out, Some Ended) else
  if standby && SeqStream.Subscriber.heard (sub r) && (silence_ns <? u64 (tn_now tn - SeqStream.Subscriber.last_heard_ (sub r)))
  then Some (flush r, out, Some Promoting) else Some (r, out, None).
(** The turns until one ends the loop; a signal ends it after the last. *)
Fixpoint loop (standby : bool) (silence_ns : Z) (r : t) (ts : list Turn) : option (t * list SeqStream.Datagram * option Outcome) :=
  match ts with
  | [] => Some (r, [], None)
  | tn :: ts =>
      '(r, o, w) ← turn standby silence_ns r tn;
      match w with
      | Some w => Some (r, o, Some w)
      | None => '(r, o', w) ← loop standby silence_ns r ts; Some (r, o ++ o', w)
      end
  end.
Definition start (gt : RiskGate.t E) (from_journal : option (list Z)) (standby : bool) (silence_ns : Z) (ts : list Turn) :
    option (t * list SeqStream.Datagram * option Outcome) :=
  r ← bootstrap (make gt) from_journal; loop standby silence_ns r ts.
Definition main (gt : RiskGate.t E) (from_journal : option (list Z)) (standby : bool) (silence_ns : Z) (ts : list Turn) :
    option (t * list SeqStream.Datagram * Outcome) :=
  '(r, o, w) ← start gt from_journal standby silence_ns ts;
  Some (match w with Some w => (r, o, w) | None => (flush r, o, Stopped) end).

(** ** Promotion *)

(** The publisher of the next epoch, if it is to publish, with this replica's own journal as its history. *)
Definition promoted_publisher (r : t) (ring_log2 : option Z) : option (option SeqStream.Publisher.t) :=
  match ring_log2 with
  | None => Some None
  | Some k =>
      let p := SeqStream.Publisher.make k (u64 (seq r + 1)) (u32 (SeqStream.Subscriber.epoch_ (sub r) + 1)) in
      match Journal.journal_scan (Journal.file_ (journal r)) with
      | Journal.Scanned cs _ => Some <$> SeqStream.pub_seed p cs
      | Journal.NotAJournal => None
      end
  end.
End replica.
Arguments t : clear implicits.

Definition promote {E} `{GatewayEngine E} (r : t E) (ring_log2 : option Z) : option (Gateway.t E) :=
  p ← promoted_publisher r ring_log2;
  Some (Gateway.make (gate r) (digest r) (journal r) p None (seq r) (u32 (max_owner r + 1)) (u64 (max_order_id r + 1))).
End Replica.

Module ReplicaLaws.
Import SeqStream StreamLaws Replication Replica GatewayLaws GatewayTheorems.

Section laws.
Context {E : Type} `{GatewayEngine E}.
Implicit Types (r : Replica.t E) (gt : RiskGate.t E) (all cs : list Command).

(** ** A replica of the first [n] commands *)

Definition recovered r : Server.Recovered E := Server.mkRecovered (gate r) (digest r) (seq r) (max_owner r) (max_order_id r).
Record mirrors gt all r (n : nat) : Prop := {
  mi_len : (n <= length all)%nat;
  mi_journal : Journal.file_ (journal r) = Journal.file_of (take n all);
  mi_state : Server.replay (Server.fresh gt) (take n all) = Some (recovered r);
  mi_seq : seq r = Z.of_nat n;
}.

(** The primary's commands: clean, numbered from one, and processed by its own gate and engine. *)
Record history gt all : Prop := {
  hi_clean : Forall clean all;
  hi_numbered : numbered 1 all;
  hi_replay : is_Some (Server.replay (Server.fresh gt) all);
  hi_bound : alen all + 1 < 9223372036854775808;
}.

Lemma mirrors_make gt all : mirrors gt all (make gt) 0.
Proof. split; [lia|by rewrite take_0|by rewrite take_0|done]. Qed.
Lemma mirrors_same gt all r r' n : mirrors gt all r n -> journal r' = journal r -> recovered r' = recovered r -> mirrors gt all r' n.
Proof. intros [M1 M2 M3 M4] Hj Hr. split; [done|by rewrite Hj|by rewrite Hr|]. injection Hr as _ _ -> _ _. done. Qed.

Lemma replay_prefix gt all n : is_Some (Server.replay (Server.fresh gt) all) -> is_Some (Server.replay (Server.fresh gt) (take n all)).
Proof.
  intros [a Ha]. rewrite <- (take_drop n all), replay_app in Ha. destruct (Server.replay (Server.fresh gt) (take n all)); [eauto|done].
Qed.

Lemma apply_next gt all r n c : history gt all -> mirrors gt all r n -> all !! n = Some c ->
  exists r', apply r c = Some r' /\ mirrors gt all r' (S n) /\ sub r' = sub r /\ flushed r' = flushed r /\ last_ack_ns r' = last_ack_ns r.
Proof.
  intros Hh [M1 M2 M3 M4] Hc. pose proof (replay_prefix gt all (S n) (hi_replay _ _ Hh)) as [a Ha].
  rewrite (take_S_r _ _ _ Hc), replay_app, M3 in Ha. cbn [mbind option_bind Server.replay] in Ha. unfold Server.on_record in Ha. cbn [recovered Server.r_gate] in Ha.
  unfold apply. destruct (RiskGate.process (gate r) c) as [[gt' es]|] eqn:Ep; [|done]. cbn [mbind option_bind] in *. eexists. split; [done|].
  split; [|done]. split; [by apply lookup_lt_Some in Hc| | |].
  - cbn [journal]. rewrite (take_S_r _ _ _ Hc). unfold Journal.append, Journal.file_of in *. cbn [Journal.file_].
    by rewrite Journal.body_snoc, app_assoc, M2.
  - rewrite (take_S_r _ _ _ Hc), replay_app, M3. cbn [mbind option_bind Server.replay]. unfold Server.on_record. cbn [recovered Server.r_gate Server.r_digest Server.r_max_owner Server.r_max_order_id].
    rewrite Ep. cbn [mbind option_bind]. unfold recovered. cbn. do 2 f_equal.
    all: repeat (case_if; try lia).
  - cbn [seq]. rewrite (hi_numbered _ _ Hh _ _ Hc). lia.
Qed.

Lemma apply_segment gt all cs : history gt all -> forall r n, mirrors gt all r n -> (forall i c, cs !! i = Some c -> all !! (n + i)%nat = Some c) ->
  exists r', apply_all r cs = Some r' /\ mirrors gt all r' (n + length cs) /\ sub r' = sub r /\ flushed r' = flushed r /\ last_ack_ns r' = last_ack_ns r.
Proof.
  intros Hh. induction cs as [|c cs IH]; intros r n Hm Hcs; cbn [apply_all length].
  - exists r. by rewrite Nat.add_0_r.
  - destruct (apply_next gt all r n c Hh Hm) as (r1 & -> & Hm1 & Hs1 & Hf1 & Hl1); [specialize (Hcs 0%nat c eq_refl); by rewrite Nat.add_0_r in Hcs|].
    cbn [mbind option_bind]. destruct (IH r1 (S n) Hm1) as (r2 & -> & Hm2 & Hs2 & Hf2 & Hl2).
    { intros i c' Hi. specialize (Hcs (S i) c' Hi). by replace (S n + i)%nat with (n + S i)%nat by lia. }
    exists r2. split; [done|]. split; [by replace (n + S (length cs))%nat with (S n + length cs)%nat by lia|]. split_and!; congruence.
Qed.

(** ** Bootstrap *)

Lemma boot_segment gt all cs : history gt all -> forall r n, mirrors gt all r n -> (forall i c, cs !! i = Some c -> all !! (n + i)%nat = Some c) ->
  exists r', boot_all r cs = Some r' /\ mirrors gt all r' (n + length cs).
Proof.
  intros Hh. induction cs as [|c cs IH]; intros r n Hm Hcs; cbn [boot_all length].
  - exists r. by rewrite Nat.add_0_r.
  - pose proof (Hcs 0%nat c eq_refl) as Hc. rewrite Nat.add_0_r in Hc. destruct (apply_next gt all r n c Hh Hm Hc) as (r1 & Ha & Hm1 & _).
    pose proof (hi_bound _ _ Hh). apply lookup_lt_Some in Hc as Hlt.
    rewrite (hi_numbered _ _ Hh _ _ Hc), (mi_seq _ _ _ _ Hm), u64_small by (unfold in_u64, alen in *; lia).
    rewrite (proj2 (Z.eqb_eq _ _)) by lia. rewrite Ha. cbn [mbind option_bind]. destruct (IH r1 (S n) Hm1) as (r2 & -> & Hm2).
    { intros i c' Hi. specialize (Hcs (S i) c' Hi). by replace (S n + i)%nat with (n + S i)%nat by lia. }
    exists r2. split; [done|]. by replace (n + S (length cs))%nat with (S n + length cs)%nat by lia.
Qed.

(** A copy of the journal, cut anywhere after its header: [j] of the commands. *)
Definition copy_of all (file : list Z) : Prop := exists j m, (8 <= m)%nat /\ file = take m (Journal.file_of (take j all)).

Lemma bootstrapped gt all from : history gt all -> match from with Some file => copy_of all file | None => True end ->
  exists r n, bootstrap (make gt) from = Some r /\ mirrors gt all r n /\ sub r = Subscriber.make (1 + Z.of_nat n) 1 /\
    flushed r = alen (Journal.file_ (journal r)).
Proof.
  intros Hh Hfrom. pose proof (hi_bound _ _ Hh). unfold bootstrap. destruct from as [file|].
  - destruct Hfrom as (j & m & Hm & ->). pose proof (hi_clean _ _ Hh) as Hcl.
    assert (Forall command_wf (take j all)) as Hwf by (apply Forall_take; eapply Forall_impl; [exact Hcl|by intros ? []]).
    destruct (Journal.scan_prefix _ m Hwf Hm) as (k & q & Hk & _ & _ & ->).
    assert (Journal.journal_view <$> take k (take j all) = take k (take j all)) as ->.
    { assert (Forall clean (take k (take j all))) as Hl by (by apply Forall_take, Forall_take).
      induction Hl as [|c l [_ Hc] Hl IH]; [done|]. cbn [fmap list_fmap]. by rewrite Hc, IH. }
    destruct (boot_segment gt all (take k (take j all)) Hh (make gt) 0 (mirrors_make gt all)) as (r & -> & Hr).
    { intros i c Hi. by apply lookup_take_Some in Hi as [[Hi _]%lookup_take_Some _]. }
    cbn [fmap option_fmap option_map mbind option_bind]. set (n := (0 + length (take k (take j all)))%nat) in *.
    exists (set_sub (flush r) (Subscriber.make (u64 (seq r + 1)) 1)), n. split; [done|]. split; [by apply (mirrors_same _ _ r)|]. split; [|done].
    cbn [sub set_sub]. rewrite (mi_seq _ _ _ _ Hr), u64_small; [f_equal; lia|]. pose proof (mi_len _ _ _ _ Hr). unfold in_u64, alen in *. lia.
  - exists (set_sub (make gt) (Subscriber.make (u64 (seq (make gt) + 1)) 1)), 0%nat. split; [done|]. split; [|done].
    by apply (mirrors_same _ _ (make gt)), eq_refl; [apply mirrors_make|..].
Qed.

(** ** The epoch it follows *)

(** The first datagram that counts is of the epoch [Ep]. *)
Definition adoptable (d : Datagram) : bool :=
  (h_magic (d_header d) =? kMagic) && negb (bool_decide (h_kind (d_header d) = Ack)) && negb (bool_decide (h_kind (d_header d) = Retransmit)) &&
  (1 <=? h_epoch (d_header d)).
Fixpoint hears (Ep : Z) (ds : list (Z * Datagram)) : Prop :=
  match ds with [] => True | (_, d) :: ds => if adoptable d then h_epoch (d_header d) = Ep else hears Ep ds end.

Lemma on_datagram_epoch s now d s' out : Subscriber.epoch_ s = 0 -> Subscriber.min_epoch_ s = 1 -> Subscriber.on_datagram s now d = (s', out) ->
  Subscriber.min_epoch_ s' = 1 /\ Subscriber.epoch_ s' = if adoptable d then h_epoch (d_header d) else 0.
Proof.
  intros H0 H1 Hd. unfold Subscriber.on_datagram in Hd. unfold adoptable. rewrite H0, H1 in Hd.
  destruct (h_magic (d_header d) =? kMagic); [|by injection Hd as <- _]. cbn [negb orb andb] in *.
  destruct (bool_decide (h_kind (d_header d) = Ack)) eqn:Ek; [by injection Hd as <- _|].
  destruct (bool_decide (h_kind (d_header d) = Retransmit)) eqn:Er; [by injection Hd as <- _|]. cbn [negb orb andb] in *.
  rewrite orb_false_r in Hd. destruct (Z.ltb_spec (h_epoch (d_header d)) 1) as [Hlt|Hge].
  - rewrite (proj2 (Z.leb_gt _ _)) by lia. by injection Hd as <- _.
  - rewrite (proj2 (Z.leb_le _ _)) by lia. rewrite Z.ltb_irrefl in Hd.
    destruct (h_kind (d_header d)); try (injection Hd as <- _; done). by apply on_data_frame in Hd as [-> ->].
Qed.
Lemma on_datagram_min s now d s' out : Subscriber.on_datagram s now d = (s', out) -> Subscriber.min_epoch_ s' = Subscriber.min_epoch_ s.
Proof.
  unfold Subscriber.on_datagram. repeat case_match; intros Hd; try (by injection Hd as <- _); by apply on_data_frame in Hd as [-> _].
Qed.

(** What a replica that started after the first [first - 1] commands has of the log, and whom it follows. *)
Record tracks (log : Z -> option Command) (Ep first : Z) (s : Subscriber.t) (out : list Command) (rest : list (Z * Datagram)) : Prop := {
  tr_sub : sub_ok log Ep first s out;
  tr_min : Subscriber.min_epoch_ s = 1;
  tr_epoch : Subscriber.epoch_ s = Ep \/ Subscriber.epoch_ s = 0 /\ hears Ep rest;
}.
Lemma drain_tracks log Ep first ds : 0 <= first < 18446744073709551616 -> 0 < Ep -> forall s out rest s' out',
  tracks log Ep first s out (ds ++ rest) -> Forall (fun x => genuine log Ep x.2) ds -> Subscriber.drain s ds = (s', out') ->
  tracks log Ep first s' (out ++ out') rest.
Proof.
  intros Hf HE. induction ds as [|[now d] ds IH]; intros s out rest s' out' [T1 T2 T3] Hg Hd; cbn [Subscriber.drain app] in *.
  - injection Hd as <- <-. rewrite app_nil_r. by split.
  - apply Forall_cons in Hg as [Hg1 Hg]. destruct (Subscriber.on_datagram s now d) as [s1 o1] eqn:E1. destruct (Subscriber.drain s1 ds) as [s2 o2] eqn:E2.
    injection Hd as <- <-. destruct (on_datagram_ok _ _ _ _ _ _ _ _ _ Hf HE T1 Hg1 E1) as (Hs1 & Hk & _). rewrite app_assoc. apply (IH s1); [|done|done].
    split; [done|by rewrite (on_datagram_min _ _ _ _ _ E1)|]. destruct T3 as [T3|[T3 Hh]]; [left; rewrite Hk; lia|].
    destruct (on_datagram_epoch _ _ _ _ _ T3 T2 E1) as [_ Hep]. cbn [hears] in Hh. destruct (adoptable d); [left; congruence|by right].
Qed.
Lemma request_tracks log Ep first s out rest now s' req : tracks log Ep first s out rest -> Subscriber.request_gap s now = (s', req) ->
  tracks log Ep first s' out rest /\ Subscriber.epoch_ s' = Subscriber.epoch_ s.
Proof.
  intros [T1 T2 T3] Hr. assert (Subscriber.epoch_ s' = Subscriber.epoch_ s /\ Subscriber.min_epoch_ s' = Subscriber.min_epoch_ s /\
    Subscriber.expected_ s' = Subscriber.expected_ s /\ Subscriber.stash_ s' = Subscriber.stash_ s) as (E1 & E2 & E3 & E4).
  { revert Hr. unfold Subscriber.request_gap. repeat (case_if; [by intros [= <- _]|]). by intros [= <- _]. }
  split; [|done]. split; [|congruence|by rewrite E1]. pose proof (sub_ok_keep _ _ _ _ _ _ T1 E1 E2 E3 E4) as Hk. by rewrite app_nil_r in Hk.
Qed.

(** ** The loop *)

(** A replica that started with [n0] commands and has had [out] delivered. Everything it has is flushed. *)
Record follows gt all Ep (n0 : nat) r out (rest : list (Z * Datagram)) : Prop := {
  fl_mirrors : mirrors gt all r (n0 + length out);
  fl_flushed : flushed r = alen (Journal.file_ (journal r));
  fl_tracks : tracks (log_of 1 all) Ep (1 + Z.of_nat n0) (sub r) out rest;
}.

Lemma tracks_next all Ep (n0 : nat) s out cs rest : tracks (log_of 1 all) Ep (1 + Z.of_nat n0) s (out ++ cs) rest ->
  forall i c, cs !! i = Some c -> all !! (n0 + length out + i)%nat = Some c.
Proof.
  intros [T1 _ [T3|[T3 _]]] i c Hi.
  - destruct (fo_segment _ _ _ _ (so_following _ _ _ _ _ T1 T3)) as [_ Hseg]. specialize (Hseg (length out + i)%nat c).
    rewrite lookup_app_r in Hseg by lia. replace (length out + i - length out)%nat with i in Hseg by lia. specialize (Hseg Hi). revert Hseg. unfold log_of.
    case_if; [|done]. intros <-. f_equal. lia.
  - destruct (so_idle _ _ _ _ _ T1 T3) as (_ & _ & Hnil). apply app_eq_nil in Hnil as [_ ->]. done.
Qed.

(** What leaves a replica in one turn: no acknowledgement beyond what its journal has. *)
Definition acks_within (n : Z) (o : list Datagram) : Prop := Forall (fun d => h_kind (d_header d) = Ack -> h_first_seq (d_header d) <= n) o.

Lemma request_no_ack s now s' req n : Subscriber.request_gap s now = (s', req) -> acks_within n (option_list req).
Proof.
  unfold Subscriber.request_gap. repeat (case_if; [intros [= _ <-]; constructor|]). intros [= _ <-]. by apply Forall_singleton.
Qed.
Lemma acks_mono n n' o : n <= n' -> acks_within n o -> acks_within n' o.
Proof. intros Hn Ho. eapply Forall_impl; [exact Ho|]. intros d Hd Hk. specialize (Hd Hk). lia. Qed.

Lemma acknowledge_ok r got now r' acks : acknowledge r got now = (r', acks) ->
  journal r' = journal r /\ recovered r' = recovered r /\ sub r' = sub r /\ acks_within (seq r) acks /\
  (flushed r = alen (Journal.file_ (journal r)) \/ got = true -> flushed r' = alen (Journal.file_ (journal r'))).
Proof.
  unfold acknowledge. assert (acks_within (seq r) (option_list (Subscriber.ack (sub r) (seq r)))) as Ha.
  { unfold Subscriber.ack. case_if; [constructor|]. apply Forall_singleton. intros _. done. }
  destruct got; cbn [orb]; [intros [= <- <-]; by split_and!|]. case_if; intros [= <- <-]; split_and!; try done; try (by intros [?|?]). constructor.
Qed.

Lemma turn_ok gt all Ep (n0 : nat) standby silence r out rest tn : history gt all -> 0 < Ep -> Z.of_nat n0 + 1 < 18446744073709551616 ->
  follows gt all Ep n0 r out (tn_data tn ++ rest) -> Forall (fun x => genuine (log_of 1 all) Ep x.2) (tn_data tn) ->
  exists r' o w out', turn standby silence r tn = Some (r', o, w) /\ follows gt all Ep n0 r' (out ++ out') rest /\ acks_within (seq r') o /\
    (w = Some Promoting -> Subscriber.epoch_ (sub r') = Ep).
Proof.
  intros Hh HE Hn [F1 F2 F3] Hg. unfold turn, Subscriber.poll. destruct (Subscriber.drain (sub r) (tn_data tn)) as [s1 cs] eqn:E1.
  destruct (Subscriber.request_gap s1 (tn_poll tn)) as [s2 req] eqn:E2. pose proof (drain_tracks (log_of 1 all) Ep (1 + Z.of_nat n0) _ ltac:(lia) HE _ _ _ _ _ F3 Hg E1) as T1.
  destruct (request_tracks _ _ _ _ _ _ _ _ _ T1 E2) as [T2 _].
  assert (mirrors gt all (set_sub r s2) (n0 + length out)) as Hm by (by apply (mirrors_same _ _ r)).
  destruct (apply_segment gt all cs Hh _ _ Hm (tracks_next _ _ _ _ _ _ _ T2)) as (r1 & -> & Hm1 & Hs1 & Hf1 & Hl1). cbn [mbind option_bind].
  destruct (acknowledge r1 (0 <? alen cs) (tn_now tn)) as [r2 acks] eqn:E3. destruct (acknowledge_ok _ _ _ _ _ E3) as (A1 & A2 & A3 & A4 & A5).
  assert (flushed r2 = alen (Journal.file_ (journal r2))) as Hfl.
  { apply A5. destruct cs as [|c cs]; [left|by right]. rewrite Hf1. cbn [set_sub flushed]. rewrite F2. f_equal.
    by rewrite (mi_journal _ _ _ _ Hm1), (mi_journal _ _ _ _ F1), Nat.add_0_r. }
  assert (seq r2 = seq r1) as Hseq by (by injection A2).
  assert (acks_within (seq r2) (option_list req ++ acks)) as Hacks by (apply Forall_app; split; [by eapply request_no_ack|by rewrite Hseq]).
  assert (follows gt all Ep n0 r2 (out ++ cs) rest) as Hfo.
  { split; [|done|by rewrite A3, Hs1]. rewrite length_app, Nat.add_assoc. by apply (mirrors_same _ _ r1). }
  assert (follows gt all Ep n0 (flush r2) (out ++ cs) rest) as Hfo' by (destruct Hfo as [G1 G2 G3]; split; [by apply (mirrors_same _ _ r2)|done|done]).
  repeat (case_if; [do 4 eexists; split; [done|]; split; [done|]; split; [done|]; done|]).
  case_if; (do 4 eexists; split; [done|]; split; [done|]; split; [done|]; try done). intros _. cbn [flush sub].
  destruct (tr_epoch _ _ _ _ _ _ (fl_tracks _ _ _ _ _ _ _ Hfo)) as [?|[Hz _]]; [done|]. unfold Subscriber.heard in *. by rewrite Hz in *.
Qed.

Lemma loop_ok gt all Ep (n0 : nat) standby silence : history gt all -> 0 < Ep -> Z.of_nat n0 + 1 < 18446744073709551616 ->
  forall ts r out, follows gt all Ep n0 r out (concat (map tn_data ts)) ->
  Forall (fun x => genuine (log_of 1 all) Ep x.2) (concat (map tn_data ts)) ->
  exists r' o w out' rest, loop standby silence r ts = Some (r', o, w) /\ follows gt all Ep n0 r' (out ++ out') rest /\ acks_within (seq r') o /\
    (w = Some Promoting -> Subscriber.epoch_ (sub r') = Ep).
Proof.
  intros Hh HE Hn. induction ts as [|tn ts IH]; intros r out Hf Hg; cbn [loop map concat] in *.
  - exists r, [], None, [], []. rewrite app_nil_r. split; [done|]. split; [done|]. split; [constructor|done].
  - apply Forall_app in Hg as [Hg1 Hg2]. destruct (turn_ok gt all Ep n0 standby silence r out _ tn Hh HE Hn Hf Hg1) as (r1 & o1 & w1 & out1 & -> & Hf1 & Ha1 & Hw1).
    cbn [mbind option_bind]. destruct w1 as [w1|]; [by exists r1, o1, (Some w1), out1, (concat (map tn_data ts))|].
    destruct (IH r1 (out ++ out1) Hf1 Hg2) as (r2 & o2 & w2 & out2 & rest & -> & Hf2 & Ha2 & Hw2). cbn [mbind option_bind].
    exists r2, (o1 ++ o2), w2, (out1 ++ out2), rest. rewrite app_assoc. split; [done|]. split; [done|]. split; [|done].
    apply Forall_app. split; [|done]. eapply acks_mono; [|exact Ha1]. rewrite (mi_seq _ _ _ _ (fl_mirrors _ _ _ _ _ _ _ Hf1)), (mi_seq _ _ _ _ (fl_mirrors _ _ _ _ _ _ _ Hf2)), !length_app. lia.
Qed.

(** ** Promotion *)

Lemma clean_view cs : Forall clean cs -> Journal.journal_view <$> cs = cs.
Proof. induction 1 as [|c cs [_ Hc] _ IH]; [done|]. cbn [fmap list_fmap]. by rewrite Hc, IH. Qed.

Lemma promote_ok gt all r n ring_log2 : history gt all -> mirrors gt all r n -> (forall k, ring_log2 = Some k -> 0 <= k <= 62) ->
  exists g pub, promote r ring_log2 = Some g /\ started gt (take n all) (recovered r) (journal r) /\
    g = Server.start (recovered r) (journal r) pub None /\
    match ring_log2 with
    | Some k => pub = primary k (u32 (Subscriber.epoch_ (sub r) + 1)) (1 + Z.of_nat n) (take n all) /\ pub <> None
    | None => pub = None
    end.
Proof.
  intros Hh Hm Hk. pose proof Hm as [M1 M2 M3 M4]. pose proof (hi_bound _ _ Hh) as Hb.
  assert (started gt (take n all) (recovered r) (journal r)) as Hst by (split; [by apply Forall_take, (hi_clean gt)|done|done]).
  unfold promote, promoted_publisher. destruct ring_log2 as [k|]; [|by eexists _, None].
  assert (Forall command_wf (take n all)) as Hwf by (apply Forall_take; eapply Forall_impl; [apply (hi_clean gt _ Hh)|by intros ? []]).
  rewrite M2, (Journal.scan_whole _ Hwf), (clean_view (take n all)) by (by apply Forall_take, (hi_clean gt)).
  assert (alen (take n all) = Z.of_nat n) as Hl by (unfold alen; rewrite length_take; lia).
  destruct (seed_ok (log_of 1 (take n all)) k 1 (u32 (Subscriber.epoch_ (sub r) + 1)) (take n all) []) as (p & Hp & _ & _ & _).
  - by apply Hk.
  - lia.
  - rewrite Hl. unfold alen in Hb. lia.
  - intros i c Hi. apply (hi_numbered _ _ Hh). by apply lookup_take_Some in Hi as [? _].
  - rewrite app_nil_r. apply log_of_at.
  - rewrite M4, (u64_small (Z.of_nat n + 1)) by (unfold in_u64, alen in *; lia). rewrite Hl in Hp. replace (Z.of_nat n + 1) with (1 + Z.of_nat n) by lia.
    unfold primary in Hp. rewrite Hp. cbn [fmap option_fmap option_map mbind option_bind]. eexists _, (Some p). split; [done|]. split; [done|].
    split; [unfold Server.start; cbn; by rewrite M4|]. unfold primary. by rewrite Hp.
Qed.
End laws.

Section properties.
Context {E : Type} `{GatewayEngine E}.

(** C26: failover. The primary numbers its commands from one, and the network loses, duplicates and reorders what it sends;
    the first datagram the replica hears is the primary's, and it may start from a copy of the journal that is cut
    anywhere. Then however many turns its loop has made, the replica has exactly a prefix of the primary's commands: its
    journal holds them, all of it is flushed, its gate, engine and digest are their replay, and it has acknowledged none
    beyond them. When it promotes itself, it becomes a gateway in the state in which a server restarts from that journal,
    so that its own journal continues the primary's; and if it publishes, it does so under the next epoch, with that
    journal as the history a new replica can ask for. *)
Theorem replica_takes_over (gt : RiskGate.t E) k Ep hs ops p sent from_journal standby silence_ns ts ring_log2
  (Hprimary : running k 1 Ep hs ops p sent) (Hhistory : history gt (hs ++ published ops))
  (Hcopy : match from_journal with Some file => copy_of (hs ++ published ops) file | None => True end)
  (Hnet : network Ep sent (concat (map tn_data ts))) (Hhears : hears Ep (concat (map tn_data ts)))
  (Hring : forall j, ring_log2 = Some j -> 0 <= j <= 62) :
  exists r o w n, start gt from_journal standby silence_ns ts = Some (r, o, w) /\
    mirrors gt (hs ++ published ops) r n /\ flushed r = alen (Journal.file_ (journal r)) /\ acks_within (Z.of_nat n) o /\
    (w = Some Promoting -> exists g pub, promote r ring_log2 = Some g /\
      started gt (take n (hs ++ published ops)) (recovered r) (journal r) /\ g = Server.start (recovered r) (journal r) pub None /\
      match ring_log2 with
      | Some j => pub = primary j (u32 (Ep + 1)) (1 + Z.of_nat n) (take n (hs ++ published ops)) /\ pub <> None
      | None => pub = None
      end).
Proof.
  set (all := hs ++ published ops) in *. destruct (running_ok _ _ _ _ _ _ _ Hprimary) as (_ & _ & _ & Hg & _).
  destruct (ru_bounds _ _ _ _ _ _ _ Hprimary) as (_ & _ & _ & HE). pose proof (hi_bound _ _ Hhistory) as Hb.
  destruct (bootstrapped gt all from_journal Hhistory Hcopy) as (r0 & n0 & Hboot & Hm0 & Hs0 & Hf0).
  pose proof (mi_len _ _ _ _ Hm0) as Hn0. unfold alen in Hb.
  assert (follows gt all Ep n0 r0 [] (concat (map tn_data ts))) as Hfo.
  { split; [by rewrite Nat.add_0_r|done|]. rewrite Hs0. split; [apply make_sub_ok; lia|done|by right]. }
  assert (Forall (fun x => genuine (log_of 1 all) Ep x.2) (concat (map tn_data ts))) as Hgen.
  { apply Forall_forall. intros [now d] Hin. destruct (Hnet _ _ Hin) as [Hs|Hne]; [by eapply Forall_forall in Hg|]. intros _ Heq. done. }
  destruct (loop_ok gt all Ep n0 standby silence_ns Hhistory HE ltac:(lia) ts r0 [] Hfo Hgen) as (r & o & w & out & rest & Hl & [F1 F2 F3] & Ha & Hw).
  cbn [app] in F1. exists r, o, w, (n0 + length out)%nat. unfold start. rewrite Hboot. cbn [mbind option_bind]. split; [done|]. split; [exact F1|]. split; [done|].
  split; [by rewrite <- (mi_seq _ _ _ _ F1)|]. intros Hp. destruct (promote_ok gt all r _ ring_log2 Hhistory F1 Hring) as (g & pub & P1 & P2 & P3 & P4).
  exists g, pub. rewrite (Hw Hp) in P4. done.
Qed.
End properties.

(** A primary sequences two orders; the datagram of the second is lost, and then the primary is silent. *)
Definition demo_first : Command := mkCommand 1 110 1 7 10 1 0 NewOrder Sell Limit Day 0.
Definition demo_second : Command := mkCommand 2 110 2 8 4 2 0 NewOrder Buy Limit Day 0.
Definition demo_ops : list Op := [Publish demo_first; Flush (fun _ => false) 1; Publish demo_second; Flush (fun _ => true) 2].
Definition demo_sent : list Datagram := [mkDatagram (header Data 9 1 1) [demo_first]].
Definition demo_turns : list Turn := [mkTurn [(10, mkDatagram (header Data 9 1 1) [demo_first])] 10 10; mkTurn [] 500 500].

Lemma demo_primary_running : exists p, running 3 1 9 [] demo_ops p demo_sent.
Proof.
  eexists. split; [vm_compute; intuition discriminate|by intros i c|]. eexists. split; [vm_compute; reflexivity|]. split; vm_compute; reflexivity.
Qed.
Lemma demo_history : history demo_gate ([] ++ published demo_ops).
Proof.
  split.
  - repeat (apply Forall_cons_2; [split; [vm_compute; intuition discriminate|reflexivity]|]). apply Forall_nil_2.
  - intros [|[|i]] c [= <-]; reflexivity.
  - vm_compute. eauto.
  - vm_compute. reflexivity.
Qed.
Lemma demo_sent_network : network 9 demo_sent (concat (map tn_data demo_turns)).
Proof. intros now d H. left. cbn in H. apply list_elem_of_singleton in H. injection H as -> ->. by left. Qed.

Lemma replica_takes_over_witness : exists r o g, start demo_gate None true 300 demo_turns = Some (r, o, Some Promoting) /\
  promote r (Some 4) = Some g /\ Journal.file_ (Gateway.journal g) = Journal.file_of [demo_first] /\ Gateway.seq g = 1.
Proof.
  destruct demo_primary_running as [p Hp].
  destruct (replica_takes_over demo_gate 3 9 [] demo_ops p demo_sent None true 300 demo_turns (Some 4) Hp demo_history I demo_sent_network
    ltac:(vm_compute; reflexivity) ltac:(intros j [= <-]; lia)) as (r & o & w & n & Hs & Hm & _ & _ & Hw).
  assert (w = Some Promoting /\ seq r = 1) as [-> Hq] by (vm_compute in Hs; injection Hs as <- _ <-; split; reflexivity).
  destruct (Hw eq_refl) as (g & pub & Hg & _ & Eg & _). exists r, o, g. split; [exact Hs|]. split; [exact Hg|].
  assert (n = 1%nat) as -> by (pose proof (mi_seq _ _ _ _ Hm); lia). rewrite Eg. split; [exact (mi_journal _ _ _ _ Hm)|exact Hq].
Defined.
End ReplicaLaws.
