(* ===== verification/L3.v ===== *)
(** * The exchange's book, rebuilt from its messages (l3.hpp)

    [TruthBook] keeps each level as a [std::list] of orders and an iterator to every order. An iterator is the address of
    its node: the nodes are a store, a queue is the addresses of its nodes, and an operation through an iterator that no
    longer points to a node has no result. The levels of a side are in the order of their prices; [bids_] is visited from
    the end. The file ends with the specification, a list of orders in the order in which they joined their queues. *)
From Stdlib Require Import Sorted.
From S2P Require Import Prelude Common OrdMap.
Import OrdMap.

Module TruthBook.

Record Order := mkOrder { id : Z; qty : Z; since : Z }.
Record Loc := mkLoc { side : Side; px : Z; it : Z }.
Abbreviation Queue := (list Z).

Record t := mk {
  bids_ : list (Z * Queue);
  asks_ : list (Z * Queue);
  where_ : gmap Z Loc;
  bid_qty_ : gmap Z Z;
  ask_qty_ : gmap Z Z;
  nodes : gmap Z Order;
  next_node : Z;
}.
Definition make : t := mk [] [] ∅ ∅ ∅ ∅ 0.
Definition clear (b : t) : t := mk [] [] ∅ ∅ ∅ ∅ (next_node b).

Definition levels (b : t) (s : Side) : list (Z * Queue) := match s with Buy => bids_ b | Sell => asks_ b end.
Definition set_levels (b : t) (s : Side) (l : list (Z * Queue)) : t :=
  match s with
  | Buy => mk l (asks_ b) (where_ b) (bid_qty_ b) (ask_qty_ b) (nodes b) (next_node b)
  | Sell => mk (bids_ b) l (where_ b) (bid_qty_ b) (ask_qty_ b) (nodes b) (next_node b)
  end.
Definition totals (b : t) (s : Side) : gmap Z Z := match s with Buy => bid_qty_ b | Sell => ask_qty_ b end.
Definition set_totals (b : t) (s : Side) (m : gmap Z Z) : t :=
  match s with
  | Buy => mk (bids_ b) (asks_ b) (where_ b) m (ask_qty_ b) (nodes b) (next_node b)
  | Sell => mk (bids_ b) (asks_ b) (where_ b) (bid_qty_ b) m (nodes b) (next_node b)
  end.
Definition set_where (b : t) (w : gmap Z Loc) : t :=
  mk (bids_ b) (asks_ b) w (bid_qty_ b) (ask_qty_ b) (nodes b) (next_node b).
Definition set_nodes (b : t) (n : gmap Z Order) (next : Z) : t :=
  mk (bids_ b) (asks_ b) (where_ b) (bid_qty_ b) (ask_qty_ b) n next.

(** [totals(side)[px] += d]: a missing total starts at zero. *)
Definition bump (b : t) (s : Side) (p d : Z) : t := set_totals b s (<[p := u64 (default 0 (totals b s !! p) + d)]> (totals b s)).

Definition add (b : t) (i : Z) (s : Side) (p q ts : Z) : t :=
  let n := next_node b in
  let b := set_nodes b (<[n := mkOrder i q ts]> (nodes b)) (n + 1) in
  let b := set_levels b s (zm_put (levels b s) p (default [] (zm_find (levels b s) p) ++ [n])) in
  let b := set_where b (<[i := mkLoc s p n]> (where_ b)) in
  bump b s p q.

Definition with_qty (o : Order) (q : Z) : Order := mkOrder (id o) q (since o).

Definition fill (b : t) (maker q : Z) : option (t * bool) :=
  match where_ b !! maker with
  | None => Some (b, false)
  | Some l =>
      o ← nodes b !! it l;
      if qty o <? q then Some (b, false) else
      let b := set_nodes b (<[it l := with_qty o (qty o - q)]> (nodes b)) (next_node b) in
      Some (bump b (side l) (px l) (- q), true)
  end.

Definition erase_at (b : t) (l : Loc) : option t :=
  tq ← totals b (side l) !! px l;
  o ← nodes b !! it l;
  q ← zm_find (levels b (side l)) (px l);
  let b := bump b (side l) (px l) (- qty o) in
  let q := filter (fun n => n <> it l) q in
  let b := set_nodes b (delete (it l) (nodes b)) (next_node b) in
  Some (match q with
    | [] => set_totals (set_levels b (side l) (zm_erase (levels b (side l)) (px l))) (side l) (delete (px l) (totals b (side l)))
    | _ => set_levels b (side l) (zm_put (levels b (side l)) (px l) q)
    end).

Definition remove (b : t) (i : Z) : option t :=
  match where_ b !! i with
  | None => Some b
  | Some l => b ← erase_at b l; Some (set_where b (delete i (where_ b)))
  end.

Definition change (b : t) (i new_px new_qty ts : Z) : option t :=
  match where_ b !! i with
  | None => Some b
  | Some l =>
      o ← nodes b !! it l;
      if (new_px =? px l) && (new_qty <=? qty o) then
        let b := bump b (side l) (px l) (- (qty o - new_qty)) in
        Some (set_nodes b (<[it l := with_qty o new_qty]> (nodes b)) (next_node b))
      else
        b ← erase_at b l;
        Some (add (set_where b (delete i (where_ b))) i (side l) new_px new_qty ts)
  end.

(** ** Queries *)

Definition level_qty (b : t) (s : Side) (p : Z) : Z := default 0 (totals b s !! p).
Definition contains (b : t) (i : Z) : bool := match where_ b !! i with Some _ => true | None => false end.
Definition find (b : t) (i : Z) : option (option (Order * Side * Z)) :=
  match where_ b !! i with
  | None => Some None
  | Some l => o ← nodes b !! it l; Some (Some (o, side l, px l))
  end.
Definition size (b : t) : nat := base.size (where_ b).

(** The levels of a side, best price first. *)
Definition in_order (b : t) (s : Side) : list (Z * Queue) := match s with Buy => rev (bids_ b) | Sell => asks_ b end.
Fixpoint deref (b : t) (q : Queue) : option (list Order) :=
  match q with [] => Some [] | n :: q => o ← nodes b !! n; os ← deref b q; Some (o :: os) end.
Definition queue (b : t) (s : Side) (p : Z) : option (option (list Order)) :=
  match zm_find (levels b s) p with None => Some None | Some q => Some <$> deref b q end.
Definition best (b : t) (s : Side) : option Z := fst <$> head (in_order b s).
(** The calls of [f], in order. *)
Fixpoint visit (b : t) (ls : list (Z * Queue)) : option (list (Z * Order)) :=
  match ls with [] => Some [] | (p, q) :: ls => os ← deref b q; r ← visit b ls; Some (map (pair p) os ++ r) end.
Definition for_each (b : t) (s : Side) : option (list (Z * Order)) := visit b (in_order b s).
Fixpoint visit_levels (b : t) (s : Side) (ls : list (Z * Queue)) : option (list (Z * Z)) :=
  match ls with [] => Some [] | (p, _) :: ls => q ← totals b s !! p; r ← visit_levels b s ls; Some ((p, q) :: r) end.
Definition for_each_level (b : t) (s : Side) (n : nat) : option (list (Z * Z)) := visit_levels b s (take n (in_order b s)).

(** ** Messages *)

Inductive Op := Add (i : Z) (s : Side) (p q ts : Z) | Fill (i q : Z) | Remove (i : Z) | Change (i p q ts : Z).
Definition step (b : t) (o : Op) : option (t * bool) :=
  match o with
  | Add i s p q ts => Some (add b i s p q ts, true)
  | Fill i q => fill b i q
  | Remove i => b ← remove b i; Some (b, true)
  | Change i p q ts => b ← change b i p q ts; Some (b, true)
  end.
Fixpoint run (b : t) (ops : list Op) : option (t * list bool) :=
  match ops with [] => Some (b, []) | o :: ops => '(b, r) ← step b o; '(b, rs) ← run b ops; Some (b, r :: rs) end.

(** ** Specification *)

(** An order that rests. The book is the list of them, in the order in which they joined the queues they are in. *)
Record Resting := mkResting { r_order : Order; r_side : Side; r_px : Z }.
Definition named (i : Z) (r : Resting) : Prop := id (r_order r) = i.
Definition at_level (s : Side) (p : Z) (r : Resting) : Prop := r_side r = s /\ r_px r = p.
#[export] Instance named_dec i r : Decision (named i r) := decide (id (r_order r) = i).
#[export] Instance at_level_dec s p r : Decision (at_level s p r) := decide (r_side r = s /\ r_px r = p).

Definition s_find (l : list Resting) (i : Z) : option Resting := head (filter (named i) l).
Definition s_set (l : list Resting) (i q : Z) : list Resting :=
  map (fun r => if decide (named i r) then mkResting (with_qty (r_order r) q) (r_side r) (r_px r) else r) l.
Definition s_remove (l : list Resting) (i : Z) : list Resting := filter (fun r => ~ named i r) l.
Definition s_step (l : list Resting) (o : Op) : list Resting * bool :=
  match o with
  | Add i s p q ts => (l ++ [mkResting (mkOrder i q ts) s p], true)
  | Fill i q =>
      match s_find l i with
      | Some r => if qty (r_order r) <? q then (l, false) else (s_set l i (qty (r_order r) - q), true)
      | None => (l, false)
      end
  | Remove i => (s_remove l i, true)
  | Change i p q ts =>
      match s_find l i with
      | Some r => if (p =? r_px r) && (q <=? qty (r_order r)) then (s_set l i q, true)
                  else (s_remove l i ++ [mkResting (mkOrder i q ts) (r_side r) p], true)
      | None => (l, true)
      end
  end.
Fixpoint s_run (l : list Resting) (ops : list Op) : list Resting * list bool :=
  match ops with [] => (l, []) | o :: ops => let '(l, r) := s_step l o in let '(l, rs) := s_run l ops in (l, r :: rs) end.

Definition s_queue (l : list Resting) (s : Side) (p : Z) : list Order := map r_order (filter (at_level s p) l).

(** What the exchange's stream promises: an order that opens is not in the book, and sizes are 64-bit. *)
Fixpoint sound (l : list Resting) (ops : list Op) : Prop :=
  match ops with
  | [] => True
  | o :: ops =>
      match o with Add i _ _ _ _ => s_find l i = None | _ => True end /\
      match o with Add _ _ _ q _ => in_u64 q | Fill _ q => in_u64 q | Change _ _ q _ => in_u64 q | Remove _ => True end /\
      sound (s_step l o).1 ops
  end.
End TruthBook.
