(* ===== verification/L3Laws.v ===== *)
(** * The rebuilt book is the list of its resting orders (l3.hpp)

    The refinement of [L3]: the levels, the totals, the nodes and the iterators of a book always describe one list of
    resting orders, and every operation and query is that of the list. *)
From Stdlib Require Import Sorted List.
From stdpp Require Import sorting.
From S2P Require Import Prelude Common OrdMap L3.
Import OrdMap TruthBook.

Module TruthBookLaws.

(** A node: its address and the order in it. *)
Abbreviation Cell := (Z * Resting)%type.
Implicit Types (b : t) (zs : list Cell) (z : Cell) (s : Side).

Definition cell_id (z : Cell) : Z := TruthBook.id (r_order z.2).
Definition lv s (p : Z) zs : list Cell := filter (fun z => at_level s p z.2) zs.
Definition tot zs : Z := zsum (map (fun z => qty (r_order z.2)) zs).
Definition non_empty {A B} (f : list A -> B) (l : list A) : option B := match l with [] => None | _ => Some (f l) end.
Definition loc_of (z : Cell) : Loc := mkLoc (r_side z.2) (r_px z.2) z.1.

Record rel b zs : Prop := {
  R_addr : NoDup zs.*1;
  R_next : Forall (fun z => z.1 < next_node b) zs;
  R_ids : NoDup (cell_id <$> zs);
  R_qty : Forall (fun z => in_u64 (qty (r_order z.2))) zs;
  R_nodes : forall n o, nodes b !! n = Some o <-> exists z, z ∈ zs /\ z.1 = n /\ r_order z.2 = o;
  R_where : forall i l, where_ b !! i = Some l <-> exists z, z ∈ zs /\ cell_id z = i /\ l = loc_of z;
  R_ok : forall s, zm_ok (levels b s);
  R_levels : forall s p, zm_find (levels b s) p = non_empty (fun l => l.*1) (lv s p zs);
  R_totals : forall s p, totals b s !! p = non_empty (fun l => u64 (tot l)) (lv s p zs);
}.

(** ** The setters *)

Lemma levels_set b s s' l : levels (set_levels b s l) s' = if decide (s' = s) then l else levels b s'.
Proof. by destruct s, s'. Qed.
Lemma totals_set b s s' m : totals (set_totals b s m) s' = if decide (s' = s) then m else totals b s'.
Proof. by destruct s, s'. Qed.
Lemma levels_frame b s s' m w n k : levels (set_totals b s m) s' = levels b s' /\ levels (set_where b w) s' = levels b s' /\ levels (set_nodes b n k) s' = levels b s'.
Proof. by destruct s, s'. Qed.
Lemma totals_frame b s s' l w n k : totals (set_levels b s l) s' = totals b s' /\ totals (set_where b w) s' = totals b s' /\ totals (set_nodes b n k) s' = totals b s'.
Proof. by destruct s, s'. Qed.
Lemma where_frame b s l m n k : where_ (set_levels b s l) = where_ b /\ where_ (set_totals b s m) = where_ b /\ where_ (set_nodes b n k) = where_ b.
Proof. by destruct s. Qed.
Lemma nodes_frame b s l m w : nodes (set_levels b s l) = nodes b /\ nodes (set_totals b s m) = nodes b /\ nodes (set_where b w) = nodes b.
Proof. by destruct s. Qed.
Lemma next_frame b s l m w : next_node (set_levels b s l) = next_node b /\ next_node (set_totals b s m) = next_node b /\ next_node (set_where b w) = next_node b.
Proof. by destruct s. Qed.

(** Reads of a state that is a chain of setters. *)
Ltac frame :=
  unfold bump in *;
  repeat match goal with
  | |- context [levels (set_levels ?b ?s ?l) ?s'] => rewrite (levels_set b s s' l)
  | |- context [totals (set_totals ?b ?s ?l) ?s'] => rewrite (totals_set b s s' l)
  | |- context [levels (set_totals ?b ?s ?m) ?s'] => rewrite (proj1 (levels_frame b s s' m ∅ ∅ 0))
  | |- context [levels (set_where ?b ?w) ?s'] => rewrite (proj1 (proj2 (levels_frame b Buy s' ∅ w ∅ 0)))
  | |- context [levels (set_nodes ?b ?n ?k) ?s'] => rewrite (proj2 (proj2 (levels_frame b Buy s' ∅ ∅ n k)))
  | |- context [totals (set_levels ?b ?s ?m) ?s'] => rewrite (proj1 (totals_frame b s s' m ∅ ∅ 0))
  | |- context [totals (set_where ?b ?w) ?s'] => rewrite (proj1 (proj2 (totals_frame b Buy s' [] w ∅ 0)))
  | |- context [totals (set_nodes ?b ?n ?k) ?s'] => rewrite (proj2 (proj2 (totals_frame b Buy s' [] ∅ n k)))
  | |- context [where_ (set_levels ?b ?s ?l)] => rewrite (proj1 (where_frame b s l ∅ ∅ 0))
  | |- context [where_ (set_totals ?b ?s ?l)] => rewrite (proj1 (proj2 (where_frame b s [] l ∅ 0)))
  | |- context [where_ (set_nodes ?b ?n ?k)] => rewrite (proj2 (proj2 (where_frame b Buy [] ∅ n k)))
  | |- context [where_ (set_where ?b ?w)] => change (where_ (set_where b w)) with w
  | |- context [nodes (set_levels ?b ?s ?l)] => rewrite (proj1 (nodes_frame b s l ∅ ∅))
  | |- context [nodes (set_totals ?b ?s ?l)] => rewrite (proj1 (proj2 (nodes_frame b s [] l ∅)))
  | |- context [nodes (set_where ?b ?w)] => rewrite (proj2 (proj2 (nodes_frame b Buy [] ∅ w)))
  | |- context [nodes (set_nodes ?b ?n ?k)] => change (nodes (set_nodes b n k)) with n
  | |- context [next_node (set_levels ?b ?s ?l)] => rewrite (proj1 (next_frame b s l ∅ ∅))
  | |- context [next_node (set_totals ?b ?s ?l)] => rewrite (proj1 (proj2 (next_frame b s [] l ∅)))
  | |- context [next_node (set_where ?b ?w)] => rewrite (proj2 (proj2 (next_frame b Buy [] ∅ w)))
  | |- context [next_node (set_nodes ?b ?n ?k)] => change (next_node (set_nodes b n k)) with k
  end.

(** ** Levels of a list of nodes *)

Lemma lv_app s p (z1 z2 : list Cell) : lv s p (z1 ++ z2) = lv s p z1 ++ lv s p z2.
Proof. apply filter_app. Qed.
Lemma lv_cons s p z zs : lv s p (z :: zs) = if decide (at_level s p z.2) then z :: lv s p zs else lv s p zs.
Proof. unfold lv. by rewrite filter_cons. Qed.
Lemma lv_in s p z zs : at_level s p z.2 -> lv s p (z :: zs) = z :: lv s p zs.
Proof. intros Hz. by rewrite lv_cons, decide_True. Qed.
Lemma lv_out s p z zs : ~ at_level s p z.2 -> lv s p (z :: zs) = lv s p zs.
Proof. intros Hz. by rewrite lv_cons, decide_False. Qed.
Lemma tot_app (z1 z2 : list Cell) : tot (z1 ++ z2) = tot z1 + tot z2.
Proof. unfold tot. by rewrite map_app, zsum_app. Qed.
Lemma tot_cons z zs : tot (z :: zs) = qty (r_order z.2) + tot zs.
Proof. done. Qed.
Lemma non_empty_app {A B} (f : list A -> B) l x l' : non_empty f (l ++ x :: l') = Some (f (l ++ x :: l')).
Proof. by destruct l. Qed.
Lemma elem_lv s p z zs : z ∈ lv s p zs <-> at_level s p z.2 /\ z ∈ zs.
Proof. unfold lv. by rewrite list_elem_of_filter. Qed.

Lemma bump_default b s s' p p' d (l : list Cell) : totals b s !! p = non_empty (fun l => u64 (tot l)) l ->
  totals (bump b s p d) s' !! p' = if decide (s' = s /\ p' = p) then Some (u64 (tot l + d)) else totals b s' !! p'.
Proof.
  intros Ht. unfold bump. rewrite totals_set. destruct (decide (s' = s)) as [->|]; [|by rewrite decide_False by naive_solver].
  destruct (decide (p' = p)) as [->|]; [|by rewrite lookup_insert_ne, decide_False by naive_solver].
  rewrite lookup_insert_eq, decide_True by done. rewrite Ht. destruct l as [|z l]; [done|]. cbn [non_empty default from_option]. unfold Datatypes.id. by rewrite u64_add_l.
Qed.

(** ** Joining a queue *)

Lemma rel_fresh b zs n : rel b zs -> next_node b <= n -> n ∉ zs.*1.
Proof.
  intros H Hn (z & Hz & Hin)%list_elem_of_fmap. pose proof (R_next _ _ H) as Hall. rewrite Forall_forall in Hall.
  specialize (Hall _ Hin). simpl in Hall. lia.
Qed.

Lemma rel_add b zs i s p q ts : rel b zs -> ~ (exists z, z ∈ zs /\ cell_id z = i) -> in_u64 q ->
  rel (add b i s p q ts) (zs ++ [(next_node b, mkResting (mkOrder i q ts) s p)]).
Proof.
  intros H Hi Hq. set (z := (next_node b, mkResting (mkOrder i q ts) s p)). pose proof (rel_fresh b zs (next_node b) H (Z.le_refl _)) as Hf.
  unfold add. split; frame.
  - rewrite fmap_app. apply NoDup_app. split; [apply H|]. split; [|apply NoDup_singleton]. intros x Hx ->%list_elem_of_singleton. done.
  - apply Forall_app. split; [|constructor; [simpl; lia|constructor]]. eapply Forall_impl; [apply H|]. simpl. lia.
  - rewrite fmap_app. apply NoDup_app. split; [apply H|]. split; [|apply NoDup_singleton].
    intros x Hx ->%list_elem_of_singleton. apply list_elem_of_fmap in Hx as (z' & Hz' & Hin). apply Hi. exists z'. by rewrite <- Hz'.
  - apply Forall_app. split; [apply H|]. by constructor.
  - intros n o. rewrite lookup_insert_Some, (R_nodes _ _ H). setoid_rewrite elem_of_app. setoid_rewrite list_elem_of_singleton. split.
    + intros [[<- <-]|[Hne (z' & ? & ? & ?)]]; [exists z; auto|exists z'; auto].
    + intros (z' & [Hin| ->] & <- & <-); [right|by left]. split; [|eauto]. intros Heq. apply Hf. rewrite Heq. by apply list_elem_of_fmap_2.
  - intros j l. rewrite lookup_insert_Some, (R_where _ _ H). setoid_rewrite elem_of_app. setoid_rewrite list_elem_of_singleton. split.
    + intros [[<- <-]|[Hne (z' & ? & ? & ?)]]; [exists z; auto|exists z'; auto].
    + intros (z' & [Hin| ->] & <- & ->); [right|by left]. split; [|eauto]. intros Heq. apply Hi. eauto.
  - intros s'. frame. case_decide; [apply zm_put_ok|]; apply H.
  - intros s' p'. frame. rewrite lv_app, lv_cons. destruct (decide (at_level s' p' z.2)) as [[<- <-]|Hn]; simpl.
    + rewrite decide_True, zm_find_put, Z.eqb_refl, (R_levels _ _ H) by done. rewrite non_empty_app, fmap_app. by destruct (lv s p zs).
    + rewrite app_nil_r, <- (R_levels _ _ H). case_decide as Hs; [|done]. subst s'. rewrite zm_find_put.
      destruct (Z.eqb_spec p' p) as [->|]; [|done]. by destruct Hn.
  - intros s' p'. pose proof (R_totals _ _ H s p) as Ht.
    pose proof (bump_default b s s' p p' q _ Ht) as Hb. revert Hb. frame. intros ->. rewrite lv_app, lv_cons.
    destruct (decide (at_level s' p' z.2)) as [[<- <-]|Hn]; simpl.
    + rewrite decide_True, non_empty_app, tot_app, tot_cons by done. simpl. do 2 f_equal. unfold tot. simpl. lia.
    + rewrite app_nil_r, decide_False; [apply H|]. intros [-> ->]. by destruct Hn.
Qed.

(** ** One node of the list *)

Lemma NoDup_app_cons {A} (l1 l2 : list A) x : NoDup (l1 ++ x :: l2) -> NoDup (l1 ++ l2).
Proof. rewrite !NoDup_app, NoDup_cons. intros (? & Hd & ? & ?). split; [done|]. split; [|done]. intros y Hy Hy2. apply (Hd y); [done|]. by right. Qed.


Section node.
Context (b : t) (z1 z2 : list Cell) (n : Z) (r : Resting) (H : rel b (z1 ++ (n, r) :: z2)).

Lemma node_addr : n ∉ z1.*1 /\ n ∉ z2.*1.
Proof.
  pose proof (R_addr _ _ H) as Ha. rewrite fmap_app, fmap_cons in Ha. apply NoDup_app in Ha as (_ & Hd & Ha).
  apply NoDup_cons in Ha as [Hn _]. split; [|done]. intros Hin. apply (Hd n); [done|]. simpl. by left.
Qed.
Lemma node_id z : z ∈ z1 \/ z ∈ z2 -> cell_id z <> id (r_order r).
Proof.
  pose proof (R_ids _ _ H) as Ha. rewrite fmap_app, fmap_cons in Ha. apply NoDup_app in Ha as (_ & Hd & Ha).
  apply NoDup_cons in Ha as [Hn _]. intros [Hz|Hz] Heq.
  - apply (Hd (cell_id z)); [by apply list_elem_of_fmap_2|]. rewrite Heq. by left.
  - apply Hn. unfold cell_id at 1. simpl. rewrite <- Heq. by apply list_elem_of_fmap_2.
Qed.
Lemma node_order : nodes b !! n = Some (r_order r).
Proof. apply (R_nodes _ _ H). exists (n, r). split; [|done]. apply elem_of_app. right. by left. Qed.
Lemma node_where : where_ b !! id (r_order r) = Some (mkLoc (r_side r) (r_px r) n).
Proof. apply (R_where _ _ H). exists (n, r). split; [|done]. apply elem_of_app. right. by left. Qed.
Lemma node_lv : lv (r_side r) (r_px r) (z1 ++ (n, r) :: z2) = lv (r_side r) (r_px r) z1 ++ (n, r) :: lv (r_side r) (r_px r) z2.
Proof. rewrite lv_app, lv_cons. by rewrite decide_True. Qed.
Lemma node_other s p (l : list Cell) : ~ at_level s p r -> (forall z, z ∈ l -> z.2 = r \/ ~ at_level s p z.2) -> lv s p (z1 ++ l ++ z2) = lv s p (z1 ++ z2).
Proof.
  intros Hr Hl. rewrite !lv_app. f_equal. assert (lv s p l = []) as ->; [|done].
  apply elem_of_nil_inv. intros z [Hz Hin]%elem_lv. destruct (Hl _ Hin) as [E|?]; [rewrite E in Hz|]; done.
Qed.

(** Its size changes. *)
Lemma rel_set q : in_u64 q ->
  rel (bump (set_nodes b (<[n := with_qty (r_order r) q]> (nodes b)) (next_node b)) (r_side r) (r_px r) (q - qty (r_order r)))
    (z1 ++ (n, mkResting (with_qty (r_order r) q) (r_side r) (r_px r)) :: z2).
Proof.
  intros Hq. destruct node_addr as [Hn1 Hn2]. set (z' := (n, mkResting (with_qty (r_order r) q) (r_side r) (r_px r))). split; frame.
  - pose proof (R_addr _ _ H) as Ha. by rewrite fmap_app, fmap_cons in *.
  - pose proof (R_next _ _ H) as Ha. rewrite Forall_app, Forall_cons in *. done.
  - pose proof (R_ids _ _ H) as Ha. rewrite fmap_app, fmap_cons in *. done.
  - pose proof (R_qty _ _ H) as Ha. rewrite Forall_app, Forall_cons in *. destruct Ha as (? & _ & ?). done.
  - intros m o. rewrite lookup_insert_Some, (R_nodes _ _ H). setoid_rewrite elem_of_app. setoid_rewrite elem_of_cons. split.
    + intros [[<- <-]|[Hne (z & [Hz|[-> |Hz]] & Hm & ?)]]; [exists z'; auto|exists z; auto|by destruct Hne|exists z; auto].
    + intros (z & [Hz|[-> |Hz]] & Hm & Ho); [right; split; [|exists z; auto]|left; by split|right; split; [|exists z; auto]].
      * intros ->. apply Hn1. rewrite <- Hm. by apply list_elem_of_fmap_2.
      * intros ->. apply Hn2. rewrite <- Hm. by apply list_elem_of_fmap_2.
  - intros i l. rewrite (R_where _ _ H). setoid_rewrite elem_of_app. setoid_rewrite elem_of_cons. split.
    + intros (z & [Hz|[-> |Hz]] & ? & ?); [exists z; auto|exists z'; auto|exists z; auto].
    + intros (z & [Hz|[-> |Hz]] & ? & ?); [exists z; auto|exists (n, r); auto|exists z; auto].
  - intros s. frame. apply H.
  - intros s p. frame. rewrite (R_levels _ _ H), !lv_app. destruct (decide (at_level s p r)) as [Hs|Hs].
    + rewrite !lv_in, !non_empty_app, !fmap_app, !fmap_cons by done. done.
    + rewrite !lv_out by done. done.
  - intros s p. pose proof (R_totals _ _ H (r_side r) (r_px r)) as Ht.
    pose proof (bump_default (set_nodes b (<[n := with_qty (r_order r) q]> (nodes b)) (next_node b)) (r_side r) s (r_px r) p (q - qty (r_order r)) _
      (eq_trans (f_equal (fun m => m !! r_px r) (proj2 (proj2 (totals_frame b Buy (r_side r) [] ∅ _ _)))) Ht)) as Hb.
    revert Hb. frame. intros ->. destruct (decide (at_level s p r)) as [[<- <-]|Hs].
    + rewrite decide_True by done. rewrite !lv_app, !lv_in, non_empty_app, !tot_app, !tot_cons by done. simpl. do 2 f_equal. lia.
    + rewrite decide_False, (R_totals _ _ H), !lv_app, !lv_out by (unfold at_level in *; naive_solver). done.
Qed.

(** It leaves. *)
Lemma filter_addr s p : filter (fun m => m <> n) ((lv s p (z1 ++ (n, r) :: z2)).*1) = (lv s p (z1 ++ z2)).*1.
Proof.
  destruct node_addr as [Hn1 Hn2].
  assert (forall zs, n ∉ zs.*1 -> filter (fun m => m <> n) ((lv s p zs).*1) = (lv s p zs).*1) as Hk.
  { intros zs Hz. induction zs as [|z zs IH]; [done|]. rewrite fmap_cons, not_elem_of_cons in Hz. destruct Hz as [Hzn Hz].
    destruct (decide (at_level s p z.2)) as [Hs|Hs]; [rewrite lv_in by done|rewrite lv_out by done; by apply IH].
    rewrite fmap_cons, filter_cons, decide_True by naive_solver. f_equal. by apply IH. }
  rewrite !lv_app, !fmap_app, filter_app, Hk by done. f_equal.
  destruct (decide (at_level s p r)) as [Hs|Hs]; [rewrite lv_in by done|rewrite lv_out by done; by apply Hk].
  rewrite fmap_cons, filter_cons, decide_False by (simpl; tauto). by apply Hk.
Qed.

Definition erased : t :=
  let q := (lv (r_side r) (r_px r) (z1 ++ z2)).*1 in
  let b' := set_nodes (bump b (r_side r) (r_px r) (- qty (r_order r))) (delete n (nodes b)) (next_node b) in
  match q with
  | [] => set_totals (set_levels b' (r_side r) (zm_erase (levels b (r_side r)) (r_px r))) (r_side r) (delete (r_px r) (totals b' (r_side r)))
  | _ => set_levels b' (r_side r) (zm_put (levels b (r_side r)) (r_px r) q)
  end.
Lemma erase_at_erased : erase_at b (mkLoc (r_side r) (r_px r) n) = Some erased.
Proof.
  unfold erase_at. cbn [side px it]. rewrite (R_totals _ _ H), (R_levels _ _ H), node_lv, !non_empty_app, node_order. cbn [mbind option_bind].
  rewrite <- node_lv, filter_addr. frame. unfold erased, bump. destruct (lv _ _ (z1 ++ z2)).*1; f_equal; f_equal.
  all: by destruct (r_side r).
Qed.

Lemma erased_levels s p : zm_find (levels erased s) p = non_empty (fun l => l.*1) (lv s p (z1 ++ z2)).
Proof.
  destruct (decide (at_level s p r)) as [[<- <-]|Hs].
  - unfold erased. destruct (lv (r_side r) (r_px r) (z1 ++ z2)).*1 as [|m q] eqn:E; frame; rewrite decide_True by done.
    + rewrite zm_find_erase, Z.eqb_refl by apply H. by destruct (lv _ _ (z1 ++ z2)).
    + rewrite zm_find_put, Z.eqb_refl, <- E. by destruct (lv _ _ (z1 ++ z2)).
  - rewrite <- (node_other s p [(n, r)] Hs ltac:(intros z ->%list_elem_of_singleton; by left)). cbn [app]. rewrite <- (R_levels _ _ H). unfold erased.
    destruct (lv (r_side r) (r_px r) (z1 ++ z2)).*1 as [|m q] eqn:E; frame; (case_decide as Hd; [|done]); subst s.
    + rewrite zm_find_erase by apply H. destruct (Z.eqb_spec p (r_px r)) as [->|]; [by destruct Hs|done].
    + rewrite zm_find_put. destruct (Z.eqb_spec p (r_px r)) as [->|]; [by destruct Hs|done].
Qed.
Lemma erased_totals s p : totals erased s !! p = non_empty (fun l => u64 (tot l)) (lv s p (z1 ++ z2)).
Proof.
  pose proof (bump_default b (r_side r) s (r_px r) p (- qty (r_order r)) _ (R_totals _ _ H (r_side r) (r_px r))) as Hb. revert Hb. rewrite node_lv, tot_app, tot_cons. unfold erased.
  destruct (decide (at_level s p r)) as [[<- <-]|Hs].
  - rewrite decide_True by done. destruct (lv (r_side r) (r_px r) (z1 ++ z2)).*1 as [|m q] eqn:E; frame; rewrite decide_True by done; intros Hb.
    + rewrite decide_True, lookup_delete_eq by done. by destruct (lv _ _ (z1 ++ z2)).
    + rewrite Hb, lv_app. rewrite lv_app in E. destruct (lv _ _ z1 ++ lv _ _ z2) eqn:E2; [done|]. cbn [non_empty]. rewrite <- E2, tot_app. simpl. do 2 f_equal. lia.
  - rewrite (decide_False (P := s = r_side r /\ p = r_px r)) by (unfold at_level in Hs; naive_solver).
    rewrite <- (node_other s p [(n, r)] Hs ltac:(intros z ->%list_elem_of_singleton; by left)). cbn [app]. rewrite <- (R_totals _ _ H).
    destruct (lv (r_side r) (r_px r) (z1 ++ z2)).*1 as [|m q] eqn:E; frame; [|done]. case_decide as Hd; [|done]. subst s. intros <-.
    rewrite decide_True by done. apply lookup_delete_ne. intros <-. by destruct Hs.
Qed.
Lemma erased_ok s : zm_ok (levels erased s).
Proof.
  unfold erased. destruct (lv (r_side r) (r_px r) (z1 ++ z2)).*1; frame; (case_decide; [|apply H]); [apply zm_erase_ok|apply zm_put_ok]; apply H.
Qed.
Lemma erased_rest : where_ erased = where_ b /\ nodes erased = delete n (nodes b) /\ next_node erased = next_node b.
Proof. unfold erased. destruct (lv (r_side r) (r_px r) (z1 ++ z2)).*1; frame; done. Qed.

Lemma rel_erase : rel (set_where erased (delete (id (r_order r)) (where_ b))) (z1 ++ z2).
Proof.
  destruct node_addr as [Hn1 Hn2]. destruct erased_rest as (Hw & Hn & Hx). split; frame; rewrite ?Hn, ?Hx.
  - pose proof (R_addr _ _ H) as Ha. rewrite fmap_app, fmap_cons in *. by apply NoDup_app_cons in Ha.
  - pose proof (R_next _ _ H) as Ha. rewrite !Forall_app, Forall_cons in *. naive_solver.
  - pose proof (R_ids _ _ H) as Ha. rewrite fmap_app, fmap_cons in *. by apply NoDup_app_cons in Ha.
  - pose proof (R_qty _ _ H) as Ha. rewrite !Forall_app, Forall_cons in *. naive_solver.
  - intros m o. rewrite lookup_delete_Some, (R_nodes _ _ H). setoid_rewrite elem_of_app. setoid_rewrite elem_of_cons. split.
    + intros [Hne (z & [Hz|[-> |Hz]] & Hm & ?)]; [exists z; auto|by destruct Hne|exists z; auto].
    + intros (z & Hz & Hm & Ho). split; [|exists z; tauto]. intros ->. destruct Hz as [Hz|Hz]; [apply Hn1|apply Hn2]; rewrite <- Hm; by apply list_elem_of_fmap_2.
  - intros i l. rewrite lookup_delete_Some, (R_where _ _ H). setoid_rewrite elem_of_app. setoid_rewrite elem_of_cons. split.
    + intros [Hne (z & [Hz|[-> |Hz]] & Hm & ?)]; [exists z; auto|by destruct Hne|exists z; auto].
    + intros (z & Hz & Hm & Hl). split; [|exists z; tauto]. intros <-. by apply (node_id z).
  - intros s. frame. apply erased_ok.
  - intros s p. frame. apply erased_levels.
  - intros s p. frame. apply erased_totals.
Qed.
End node.

(** ** The operations of the specification *)

Lemma fmap_snoc_snd zs n r : (zs ++ [(n, r)]).*2 = zs.*2 ++ [r].
Proof. by rewrite fmap_app. Qed.


Lemma s_others zs i q : (forall z, z ∈ zs -> cell_id z <> i) ->
  filter (named i) zs.*2 = [] /\ s_set zs.*2 i q = zs.*2 /\ s_remove zs.*2 i = zs.*2.
Proof.
  unfold s_set, s_remove. induction zs as [|z zs IH]; intros Hi; [done|]. destruct IH as (I1 & I2 & I3); [intros; apply Hi; by right|].
  assert (~ named i z.2) as Hz by (apply (Hi z); by left).
  rewrite fmap_cons, !filter_cons, (decide_False (P := named i z.2)), (decide_True (P := ~ named i z.2)) by done. cbn [map].
  rewrite (decide_False (P := named i z.2)), I2, I3 by done. done.
Qed.

Lemma s_one b (z1 z2 : list Cell) n r q : rel b (z1 ++ (n, r) :: z2) ->
  s_find (z1 ++ (n, r) :: z2).*2 (id (r_order r)) = Some r /\
  s_set (z1 ++ (n, r) :: z2).*2 (id (r_order r)) q = (z1 ++ (n, mkResting (with_qty (r_order r) q) (r_side r) (r_px r)) :: z2).*2 /\
  s_remove (z1 ++ (n, r) :: z2).*2 (id (r_order r)) = (z1 ++ z2).*2.
Proof.
  intros H. destruct (s_others z1 (id (r_order r)) q) as (A1 & A2 & A3); [intros z Hz; apply (node_id _ _ _ _ _ H); by left|].
  destruct (s_others z2 (id (r_order r)) q) as (B1 & B2 & B3); [intros z Hz; apply (node_id _ _ _ _ _ H); by right|].
  assert (named (id (r_order r)) r) as Hr by done. rewrite !fmap_app, !fmap_cons. unfold s_find, s_set, s_remove in *.
  rewrite !filter_app, !filter_cons, (decide_True (P := named _ r)), (decide_False (P := ~ named _ r)) by tauto.
  rewrite map_app. cbn [map snd]. rewrite (decide_True (P := named _ r)), A1, A2, A3, B1, B2, B3 by done. done.
Qed.

Lemma where_none b zs i : rel b zs -> where_ b !! i = None <-> s_find zs.*2 i = None.
Proof.
  intros H. split; intros Hi.
  - unfold s_find. destruct (s_others zs i 0) as (-> & _); [|done]. intros z Hz Heq.
    pose proof (proj2 (R_where _ _ H i _) (ex_intro _ z (conj Hz (conj Heq eq_refl)))). congruence.
  - destruct (where_ b !! i) as [l|] eqn:E; [|done]. apply (R_where _ _ H) in E as (z & (z1 & z2 & ->)%list_elem_of_split & <- & _).
    destruct z as [n r]. change (cell_id (n, r)) with (id (r_order r)) in Hi. by rewrite (proj1 (s_one b z1 z2 n r 0 H)) in Hi.
Qed.
Lemma where_some b zs i l : rel b zs -> where_ b !! i = Some l ->
  exists (z1 : list Cell) n r (z2 : list Cell), zs = z1 ++ (n, r) :: z2 /\ i = id (r_order r) /\ l = mkLoc (r_side r) (r_px r) n.
Proof. intros H ([n r] & (z1 & z2 & ->)%list_elem_of_split & <- & ->)%(R_where _ _ H). by exists z1, n, r, z2. Qed.

(** Simulation: each message. *)
Definition admissible (l : list Resting) (o : Op) : Prop :=
  match o with Add i _ _ _ _ => s_find l i = None | _ => True end /\
  match o with Add _ _ _ q _ => in_u64 q | Fill _ q => in_u64 q | Change _ _ q _ => in_u64 q | Remove _ => True end.
Definition simulated b zs (o : Op) : Prop :=
  exists b' zs', step b o = Some (b', (s_step zs.*2 o).2) /\ rel b' zs' /\ zs'.*2 = (s_step zs.*2 o).1.

Lemma absent b zs i : rel b zs -> s_find zs.*2 i = None -> ~ (exists z, z ∈ zs /\ cell_id z = i).
Proof.
  intros H Hi (z & Hz & Heq). apply (where_none b zs) in Hi; [|done].
  pose proof (proj2 (R_where _ _ H i _) (ex_intro _ z (conj Hz (conj Heq eq_refl)))). congruence.
Qed.

Lemma sim_add b zs i s p q ts : rel b zs -> admissible zs.*2 (Add i s p q ts) -> simulated b zs (Add i s p q ts).
Proof.
  intros H [Hi Hq]. do 2 eexists. split; [reflexivity|]. split; [apply rel_add; [done|by apply (absent b)|done]|]. by rewrite fmap_app.
Qed.

Lemma sim_fill b zs i q : rel b zs -> admissible zs.*2 (Fill i q) -> simulated b zs (Fill i q).
Proof.
  intros H [_ Hq]. unfold simulated. cbn [step s_step]. unfold fill. destruct (where_ b !! i) as [l|] eqn:E.
  - destruct (where_some _ _ _ _ H E) as (z1 & n & r & z2 & -> & -> & ->). cbn [it side px]. rewrite (node_order _ _ _ _ _ H). cbn [mbind option_bind].
    destruct (s_one _ _ _ _ _ (qty (r_order r) - q) H) as (-> & Hset & _). destruct (Z.ltb_spec (qty (r_order r)) q); [eauto|].
    do 2 eexists. split; [reflexivity|]. split; [|cbn [fst]; rewrite Hset; reflexivity].
    pose proof (R_qty _ _ H) as Hall. rewrite Forall_app, Forall_cons in Hall. destruct Hall as (_ & Hr & _). simpl in Hr.
    pose proof (rel_set _ _ _ _ _ H (qty (r_order r) - q)) as Hrel. replace (qty (r_order r) - q - qty (r_order r)) with (- q) in Hrel by lia.
    apply Hrel. unfold in_u64 in *. lia.
  - rewrite (proj1 (where_none _ _ i H) E). eauto.
Qed.

Lemma sim_erase b (z1 z2 : list Cell) n r : rel b (z1 ++ (n, r) :: z2) ->
  exists b', erase_at b (mkLoc (r_side r) (r_px r) n) = Some b' /\ rel (set_where b' (delete (id (r_order r)) (where_ b'))) (z1 ++ z2).
Proof.
  intros H. exists (erased b z1 z2 n r). split; [by apply erase_at_erased|]. rewrite (proj1 (erased_rest b z1 z2 n r)). by apply rel_erase.
Qed.

Lemma sim_remove b zs i : rel b zs -> simulated b zs (Remove i).
Proof.
  intros H. unfold simulated. cbn [step s_step]. unfold remove. destruct (where_ b !! i) as [l|] eqn:E.
  - destruct (where_some _ _ _ _ H E) as (z1 & n & r & z2 & -> & -> & ->). destruct (sim_erase _ _ _ _ _ H) as (b' & -> & Hrel).
    do 2 eexists. split; [reflexivity|]. split; [exact Hrel|]. by rewrite (proj2 (proj2 (s_one _ _ _ _ _ 0 H))).
  - do 2 eexists. split; [reflexivity|]. split; [done|]. cbn [fst]. apply (where_none b zs) in E; [|done]. unfold s_remove, s_find in *.
    symmetry. apply (s_others zs i 0). intros z Hz Heq. apply (absent _ _ _ H E). eauto.
Qed.

Lemma sim_change b zs i p q ts : rel b zs -> admissible zs.*2 (Change i p q ts) -> simulated b zs (Change i p q ts).
Proof.
  intros H [_ Hq]. unfold simulated. cbn [step s_step]. unfold change. destruct (where_ b !! i) as [l|] eqn:E.
  - destruct (where_some _ _ _ _ H E) as (z1 & n & r & z2 & -> & -> & ->). cbn [it side px]. rewrite (node_order _ _ _ _ _ H). cbn [mbind option_bind].
    destruct (s_one _ _ _ _ _ q H) as (-> & Hset & Hrem). destruct ((p =? r_px r) && (q <=? qty (r_order r))).
    + cbn [mbind option_bind fst snd]. do 2 eexists. split; [reflexivity|]. split; [|rewrite Hset; reflexivity].
      pose proof (rel_set _ _ _ _ _ H q Hq) as Hrel. replace (q - qty (r_order r)) with (- (qty (r_order r) - q)) in Hrel by lia.
      revert Hrel. unfold bump. by destruct (r_side r).
    + destruct (sim_erase _ _ _ _ _ H) as (b' & -> & Hrel). cbn [mbind option_bind fst snd].
      eexists _, (_ ++ [(_, _)]). split; [reflexivity|]. split; [apply rel_add; [exact Hrel| |done]|by rewrite Hrem; apply fmap_snoc_snd]. intros (z & Hz & Heq).
      apply (node_id _ _ _ _ _ H z); [by apply elem_of_app|done].
  - rewrite (proj1 (where_none _ _ i H) E). do 2 eexists. split; [reflexivity|]. done.
Qed.

(** ** Queries *)

Definition better_px (s : Side) (p p' : Z) : Prop := match s with Buy => p' < p | Sell => p < p' end.

(** What a caller can see of a book, as functions of the list of resting orders. *)
Record describes b (l : list Resting) : Prop := {
  d_find : forall i, find b i = Some ((fun r => (r_order r, r_side r, r_px r)) <$> s_find l i);
  d_contains : forall i, contains b i = bool_decide (is_Some (s_find l i));
  d_size : size b = length l;
  d_total : forall s p, level_qty b s p = u64 (zsum (map qty (s_queue l s p)));
  d_queue : forall s p, queue b s p = Some (match s_queue l s p with [] => None | q => Some q end);
  d_levels : forall s, exists ps, StronglySorted (better_px s) ps /\ (forall p, p ∈ ps <-> s_queue l s p <> []) /\
    best b s = head ps /\ for_each b s = Some (concat (map (fun p => map (pair p) (s_queue l s p)) ps)) /\
    forall n, for_each_level b s n = Some (map (fun p => (p, u64 (zsum (map qty (s_queue l s p))))) (take n ps));
}.

Lemma s_queue_lv zs s p : s_queue zs.*2 s p = map (fun z => r_order z.2) (lv s p zs).
Proof.
  unfold s_queue. induction zs as [|z zs IH]; [done|]. rewrite fmap_cons, filter_cons. destruct (decide (at_level s p z.2)) as [Hz|Hz].
  - rewrite lv_in by done. cbn [map]. by rewrite IH.
  - by rewrite lv_out, IH.
Qed.
Lemma tot_queue zs s p : tot (lv s p zs) = zsum (map qty (s_queue zs.*2 s p)).
Proof. rewrite s_queue_lv, map_map. done. Qed.
Lemma lv_nil zs s p : lv s p zs = [] <-> s_queue zs.*2 s p = [].
Proof. rewrite s_queue_lv. by destruct (lv s p zs). Qed.

Lemma deref_cells b zs (l : list Cell) : rel b zs -> (forall z, z ∈ l -> z ∈ zs) -> deref b l.*1 = Some (map (fun z => r_order z.2) l).
Proof.
  intros H. induction l as [|[n r] l IH]; intros Hl; [done|]. cbn [fmap list_fmap fst deref].
  rewrite (proj2 (R_nodes _ _ H n (r_order r))) by (exists (n, r); split; [apply Hl; by left|done]).
  cbn [mbind option_bind]. rewrite IH by (intros; apply Hl; by right). done.
Qed.
Lemma deref_lv b zs s p : rel b zs -> deref b (lv s p zs).*1 = Some (s_queue zs.*2 s p).
Proof. intros H. rewrite s_queue_lv. apply (deref_cells b zs); [done|]. by intros z [_ Hz]%elem_lv. Qed.

Lemma elem_of_rev {A} (x : A) l : x ∈ rev l <-> x ∈ l.
Proof. by rewrite !list_elem_of_In, <- in_rev. Qed.
Lemma level_elem b zs s p q : rel b zs -> (p, q) ∈ in_order b s -> q = (lv s p zs).*1 /\ lv s p zs <> [].
Proof.
  intros H Hin. assert ((p, q) ∈ levels b s) as Hl by (destruct s; [by apply (proj1 (elem_of_rev _ _))|done]).
  apply zm_find_elem in Hl; [|apply H]. rewrite (R_levels _ _ H) in Hl. by destruct (lv s p zs); simplify_eq/=.
Qed.
Lemma price_elem b zs s p : rel b zs -> p ∈ (in_order b s).*1 <-> s_queue zs.*2 s p <> [].
Proof.
  intros H. rewrite <- lv_nil. split.
  - intros ([p' q] & -> & Hin)%list_elem_of_fmap. by apply (level_elem _ _ _ _ _ H) in Hin as [_ ?].
  - intros Hne. apply list_elem_of_fmap. exists (p, (lv s p zs).*1). split; [done|].
    assert ((p, (lv s p zs).*1) ∈ levels b s) as Hl by (apply zm_find_elem; [apply H|]; rewrite (R_levels _ _ H); by destruct (lv s p zs)).
    destruct s; [by apply (proj2 (elem_of_rev _ _))|done].
Qed.

Lemma sorted_rev l : StronglySorted Z.lt l -> StronglySorted (better_px Buy) (rev l).
Proof.
  induction 1 as [|x l Hl IH Hx]; [constructor|]. cbn [rev]. apply StronglySorted_app_2; [|done|repeat constructor].
  intros y z Hy ->%list_elem_of_singleton. rewrite elem_of_rev in Hy. rewrite Forall_forall in Hx. by apply Hx.
Qed.
Lemma in_order_sorted b zs s : rel b zs -> StronglySorted (better_px s) (in_order b s).*1.
Proof.
  intros H. pose proof (R_ok _ _ H s) as Hok. unfold zm_ok in Hok. destruct s; [|done]. cbn [in_order levels] in *.
  assert ((rev (bids_ b)).*1 = rev (bids_ b).*1) as -> by apply map_rev. by apply sorted_rev.
Qed.

Lemma visit_spec b zs s ls : rel b zs -> (forall x, x ∈ ls -> x ∈ in_order b s) ->
  visit b ls = Some (concat (map (fun p => map (pair p) (s_queue zs.*2 s p)) ls.*1)) /\
  visit_levels b s ls = Some (map (fun p => (p, u64 (zsum (map qty (s_queue zs.*2 s p))))) ls.*1).
Proof.
  intros H. induction ls as [|[p q] ls IH]; intros Hls; [done|]. destruct IH as [I1 I2]; [intros; apply Hls; by right|].
  destruct (level_elem _ _ _ _ _ H (Hls _ (list_elem_of_here _ _))) as [-> Hne]. cbn [visit visit_levels fmap list_fmap fst map concat].
  rewrite deref_lv, (R_totals _ _ H) by done. destruct (lv s p zs) eqn:E; [done|]. cbn [non_empty mbind option_bind].
  rewrite I1, I2, <- E, tot_queue. done.
Qed.

Lemma truth_size b zs : rel b zs -> size b = length zs.*2.
Proof.
  intros H. unfold size. rewrite <- size_dom. assert (dom (where_ b) = list_to_set (cell_id <$> zs) :> gset Z) as ->.
  - apply set_eq. intros i. rewrite elem_of_dom, elem_of_list_to_set, list_elem_of_fmap. split.
    + intros [l (z & ? & ? & ?)%(R_where _ _ H)]. by exists z.
    + intros (z & ? & ?). exists (loc_of z). apply (R_where _ _ H). by exists z.
  - rewrite size_list_to_set by apply H. by rewrite !length_fmap.
Qed.

Lemma rel_describes b zs : rel b zs -> describes b zs.*2.
Proof.
  intros H. split.
  - intros i. unfold find. destruct (where_ b !! i) as [l|] eqn:E; [|by rewrite (proj1 (where_none _ _ i H) E)].
    destruct (where_some _ _ _ _ H E) as (z1 & n & r & z2 & -> & -> & ->). cbn [it side px]. rewrite (node_order _ _ _ _ _ H).
    by rewrite (proj1 (s_one _ _ _ _ _ 0 H)).
  - intros i. unfold contains. destruct (where_ b !! i) as [l|] eqn:E; [|by rewrite (proj1 (where_none _ _ i H) E)].
    destruct (where_some _ _ _ _ H E) as (z1 & n & r & z2 & -> & -> & ->). by rewrite (proj1 (s_one _ _ _ _ _ 0 H)).
  - by apply truth_size.
  - intros s p. unfold level_qty. rewrite (R_totals _ _ H), <- tot_queue. by destruct (lv s p zs).
  - intros s p. unfold queue. rewrite (R_levels _ _ H). pose proof (deref_lv b zs s p H) as Hd. pose proof (lv_nil zs s p) as Hn.
    destruct (lv s p zs) as [|z l]; cbn [non_empty]; [by rewrite (proj1 Hn)|]. rewrite Hd. cbn [fmap option_fmap option_map].
    destruct (s_queue zs.*2 s p); [by discriminate (proj2 Hn eq_refl)|done].
  - intros s. exists (in_order b s).*1. split; [by apply (in_order_sorted _ zs)|]. split; [by intros; apply price_elem|].
    split; [unfold best; by destruct (in_order b s)|]. split; [by apply (visit_spec b zs s)|].
    intros n. unfold for_each_level. rewrite <- fmap_take. apply (visit_spec b zs s); [done|]. intros z Hz. by eapply elem_of_take in Hz as (? & ? & _); eapply list_elem_of_lookup_2.
Qed.

(** ** The refinement *)

Lemma rel_make : rel make [].
Proof.
  split; try constructor; cbn; try done.
  - intros (z & Hz & _). by apply elem_of_nil in Hz.
  - intros (z & Hz & _). by apply elem_of_nil in Hz.
  - destruct s; apply zm_ok_nil.
  - by destruct s.
  - by destruct s.
Qed.

Lemma sim_step b zs o : rel b zs -> admissible zs.*2 o -> simulated b zs o.
Proof. intros H Ho. destruct o; [by apply sim_add|by apply sim_fill|by apply sim_remove|by apply sim_change]. Qed.

Lemma sim_run ops b zs : rel b zs -> sound zs.*2 ops ->
  exists b' zs', run b ops = Some (b', (s_run zs.*2 ops).2) /\ rel b' zs' /\ zs'.*2 = (s_run zs.*2 ops).1.
Proof.
  revert b zs. induction ops as [|o ops IH]; intros b zs H Hs; [by exists b, zs|]. destruct Hs as (H1 & H2 & Hs).
  destruct (sim_step b zs o H (conj H1 H2)) as (b1 & zs1 & E1 & R1 & L1). cbn [run s_run]. rewrite E1. cbn [mbind option_bind].
  rewrite <- L1 in Hs. destruct (IH b1 zs1 R1 Hs) as (b2 & zs2 & E2 & R2 & L2). rewrite E2. cbn [mbind option_bind]. rewrite L1 in *.
  destruct (s_step zs.*2 o) as [l r]. cbn [fst snd] in *. destruct (s_run l ops) as [l' rs]. by exists b2, zs2.
Qed.

(** ** Any stream at all

    Without the promise that an opening order is new, a queue can keep a node that no iterator points to any more; the
    iterators still all point to live nodes, so that every message and every query has a result. *)

Record live b : Prop := {
  V_where : forall i l, where_ b !! i = Some l -> exists q, zm_find (levels b (side l)) (px l) = Some q /\ it l ∈ q /\ is_Some (totals b (side l) !! px l);
  V_inj : forall i j l l', where_ b !! i = Some l -> where_ b !! j = Some l' -> it l = it l' -> i = j;
  V_ok : forall s, zm_ok (levels b s);
  V_nodes : forall s p q n, zm_find (levels b s) p = Some q -> n ∈ q -> n < next_node b /\ is_Some (nodes b !! n);
  V_one : forall s p q s' p' q' n, zm_find (levels b s) p = Some q -> zm_find (levels b s') p' = Some q' -> n ∈ q -> n ∈ q' -> s = s' /\ p = p';
}.

Lemma live_node b i l : live b -> where_ b !! i = Some l -> it l < next_node b /\ is_Some (nodes b !! it l).
Proof. intros H Hl. destruct (V_where _ H _ _ Hl) as (q & Hq & Hin & _). by eapply V_nodes. Qed.

Lemma find_add b s s' i p p' q ts : zm_find (levels (add b i s p q ts) s') p' =
  if decide (s' = s /\ p' = p) then Some (default [] (zm_find (levels b s) p) ++ [next_node b]) else zm_find (levels b s') p'.
Proof.
  unfold add. frame. destruct (decide (s' = s)) as [->|]; [|by rewrite decide_False by naive_solver]. rewrite zm_find_put.
  destruct (Z.eqb_spec p' p) as [->|]; [by rewrite decide_True|by rewrite decide_False by naive_solver].
Qed.
Lemma totals_add b s s' i p p' q ts : is_Some (totals b s' !! p') \/ s' = s /\ p' = p -> is_Some (totals (add b i s p q ts) s' !! p').
Proof.
  intros Ht. unfold add. frame. destruct (decide (s' = s)) as [->|]; [|by destruct Ht as [?|[? _]]].
  destruct (decide (p = p')) as [->|]; [rewrite lookup_insert_eq; eauto|]. rewrite lookup_insert_ne by done. by destruct Ht as [?|[_ ?]].
Qed.
Lemma elem_add b i s p q ts s' p' l n : zm_find (levels (add b i s p q ts) s') p' = Some l -> n ∈ l ->
  (exists l0, zm_find (levels b s') p' = Some l0 /\ n ∈ l0) \/ n = next_node b /\ s' = s /\ p' = p.
Proof.
  rewrite find_add. case_decide as Hd; [|eauto]. destruct Hd as [-> ->]. intros [= <-] [Hn|Hn%list_elem_of_singleton]%elem_of_app; [|by right].
  left. destruct (zm_find (levels b s) p) as [l0|]; [eauto|by apply elem_of_nil in Hn].
Qed.

Lemma live_add b i s p q ts : live b -> live (add b i s p q ts).
Proof.
  intros H. assert (forall s' p' l, zm_find (levels b s') p' = Some l -> next_node b ∈ l -> False) as Hfresh.
  { intros s' p' l Hl Hn. destruct (V_nodes _ H _ _ _ _ Hl Hn). lia. }
  assert (where_ (add b i s p q ts) = <[i := mkLoc s p (next_node b)]> (where_ b)) as Hw by (unfold add; by frame).
  split.
  - rewrite Hw. intros j l [[<- <-]|[Hne Hl]]%lookup_insert_Some; cbn [side px it].
    + rewrite find_add, decide_True by done. eexists. split; [done|]. split; [apply elem_of_app; right; by left|]. apply totals_add. by right.
    + destruct (V_where _ H _ _ Hl) as (l0 & Hf & Hin & Ht). rewrite find_add. case_decide as Hd.
      * destruct Hd as [E1 E2]. rewrite E1, E2 in *. rewrite Hf. eexists. split; [done|]. split; [apply elem_of_app; by left|]. apply totals_add. by right.
      * exists l0. split; [done|]. split; [done|]. apply totals_add. by left.
  - rewrite Hw. intros j k l l' [[<- <-]|[Hne Hl]]%lookup_insert_Some [[<- <-]|[Hne' Hl']]%lookup_insert_Some; cbn [it]; [done| | |by apply (V_inj _ H)].
    + intros E. destruct (live_node _ _ _ H Hl'). lia.
    + intros E. destruct (live_node _ _ _ H Hl). lia.
  - intros s'. unfold add. frame. case_decide; [apply zm_put_ok|]; apply H.
  - intros s' p' l n Hl Hn. unfold add. frame. destruct (elem_add _ _ _ _ _ _ _ _ _ _ Hl Hn) as [(l0 & Hl0 & Hn0)|(-> & _ & _)].
    + destruct (V_nodes _ H _ _ _ _ Hl0 Hn0) as [Hlt Hs]. split; [lia|]. rewrite lookup_insert_ne by lia. done.
    + rewrite lookup_insert_eq. split; [lia|eauto].
  - intros s1 p1 l1 s2 p2 l2 n H1 H2 N1 N2.
    destruct (elem_add _ _ _ _ _ _ _ _ _ _ H1 N1) as [(m1 & M1 & I1)|(-> & -> & ->)], (elem_add _ _ _ _ _ _ _ _ _ _ H2 N2) as [(m2 & M2 & I2)|(E2 & -> & ->)].
    + by eapply (V_one _ H).
    + subst n. exfalso. eauto.
    + exfalso. eauto.
    + done.
Qed.

(** A change of a size, or of a total that exists. *)
Lemma live_bump b s p d : live b -> live (bump b s p d).
Proof.
  intros H. assert (forall s' p', is_Some (totals b s' !! p') -> is_Some (totals (bump b s p d) s' !! p')) as Ht.
  { intros s' p' Hs. frame. case_decide; [|done]. subst s'. destruct (decide (p = p')) as [->|]; [rewrite lookup_insert_eq; eauto|by rewrite lookup_insert_ne]. }
  split; unfold bump in *; frame.
  - intros i l Hl. destruct (V_where _ H _ _ Hl) as (q & ? & ? & Hs). apply Ht in Hs. exists q. split; [by frame|]. by split.
  - apply (V_inj _ H).
  - intros s'. frame. apply H.
  - intros s' p' q n. frame. apply (V_nodes _ H).
  - intros s1 p1 q1 s2 p2 q2 n. frame. apply (V_one _ H).
Qed.
Lemma live_set_node b n o : live b -> live (set_nodes b (<[n := o]> (nodes b)) (next_node b)).
Proof.
  intros H. split; frame.
  - intros i l Hl. destruct (V_where _ H _ _ Hl) as (q & ? & ? & ?). frame. exists q. auto.
  - apply (V_inj _ H).
  - intros s'. frame. apply H.
  - intros s' p' q m. frame. intros Hq Hm. destruct (V_nodes _ H _ _ _ _ Hq Hm) as [? ?]. split; [done|].
    destruct (decide (n = m)) as [->|]; [rewrite lookup_insert_eq; eauto|by rewrite lookup_insert_ne].
  - intros s1 p1 q1 s2 p2 q2 m. frame. apply (V_one _ H).
Qed.

Lemma live_erase b i l : live b -> where_ b !! i = Some l ->
  exists b', erase_at b l = Some b' /\ live (set_where b' (delete i (where_ b'))).
Proof.
  intros H Hl. destruct (V_where _ H _ _ Hl) as (q & Hq & Hin & tq & Ht), (live_node _ _ _ H Hl) as [_ [o Ho]].
  unfold erase_at. rewrite Ht, Ho, Hq. cbn [mbind option_bind]. eexists. split; [done|].
  set (b' := match filter _ q with [] => _ | _ => _ end).
  assert (where_ b' = where_ b /\ nodes b' = delete (it l) (nodes b) /\ next_node b' = next_node b) as (Ew & En & Ex)
    by (unfold b'; destruct (filter _ q); frame; done).
  assert (forall s p q', zm_find (levels b' s) p = Some q' -> exists q0, zm_find (levels b s) p = Some q0 /\ forall n, n ∈ q' -> n ∈ q0 /\ n <> it l) as Hsub.
  { intros s p q'. destruct (decide (s = side l /\ p = px l)) as [[-> ->]|Hd].
    - unfold b'. destruct (filter (fun n => n <> it l) q) eqn:Ef; frame; rewrite decide_True by done.
      + rewrite zm_find_erase, Z.eqb_refl by apply H. done.
      + rewrite zm_find_put, Z.eqb_refl. intros [= <-]. exists q. split; [done|]. intros n. rewrite <- Ef, list_elem_of_filter. tauto.
    - intros Hq'. assert (zm_find (levels b s) p = Some q') as Hb.
      { revert Hq'. unfold b'. destruct (filter (fun n => n <> it l) q) eqn:Ef; frame; (destruct (decide (s = side l)) as [->|]; [|done]);
          rewrite ?zm_find_put, ?zm_find_erase by apply H; by rewrite (proj2 (Z.eqb_neq p (px l))) by naive_solver. }
      exists q'. split; [done|]. intros n Hn. split; [done|]. intros ->. destruct (V_one _ H _ _ _ _ _ _ _ Hb Hq Hn Hin). naive_solver. }
  assert (forall j lj, where_ b !! j = Some lj -> j <> i -> exists q', zm_find (levels b' (side lj)) (px lj) = Some q' /\ it lj ∈ q' /\ is_Some (totals b' (side lj) !! px lj)) as Hkeep.
  { intros j lj Hj Hne. destruct (V_where _ H _ _ Hj) as (q' & Hq' & Hin' & Ht').
    assert (it lj <> it l) as Hit by (intros E; apply Hne; by eapply (V_inj _ H)).
    destruct (decide (side lj = side l /\ px lj = px l)) as [[E1 E2]|Hd].
    - rewrite E1, E2 in *. rewrite Hq in Hq'. injection Hq' as <-. assert (it lj ∈ filter (fun n => n <> it l) q) as Hf by (by apply list_elem_of_filter).
      unfold b'. destruct (filter (fun n => n <> it l) q) as [|m f] eqn:Ef; [by apply elem_of_nil in Hf|]. frame. rewrite !decide_True by done.
      rewrite zm_find_put, Z.eqb_refl, lookup_insert_eq. eauto.
    - exists q'. unfold b'. destruct (filter (fun n => n <> it l) q) eqn:Ef; frame;
        (destruct (decide (side lj = side l)) as [E1|]; [|done]); rewrite E1 in *; (assert (px lj <> px l) by naive_solver);
        rewrite ?zm_find_put, ?zm_find_erase, ?lookup_delete_ne, ?decide_True by (done || apply H); rewrite ?lookup_insert_ne by done;
        by rewrite (proj2 (Z.eqb_neq (px lj) (px l))) by done. }
  split; frame; rewrite ?Ew, ?En, ?Ex.
  - intros j lj [Hne Hj]%lookup_delete_Some. frame. by apply (Hkeep j).
  - intros j k lj lk [_ Hj]%lookup_delete_Some [_ Hk]%lookup_delete_Some. by apply (V_inj _ H).
  - intros s. frame. unfold b'. destruct (filter (fun n => n <> it l) q); frame; (case_decide; [|apply H]); [apply zm_erase_ok|apply zm_put_ok]; apply H.
  - intros s p q' n. frame. intros Hq' Hn. destruct (Hsub _ _ _ Hq') as (q0 & Hq0 & Hs). destruct (Hs _ Hn) as [Hn0 Hne].
    rewrite lookup_delete_ne by done. by eapply (V_nodes _ H).
  - intros s1 p1 q1 s2 p2 q2 n. frame. intros H1 H2 N1 N2. destruct (Hsub _ _ _ H1) as (r1 & R1 & S1), (Hsub _ _ _ H2) as (r2 & R2 & S2).
    eapply (V_one _ H); [exact R1|exact R2|by apply S1|by apply S2].
Qed.

Lemma live_step b o : live b -> exists b' r, step b o = Some (b', r) /\ live b'.
Proof.
  intros H. destruct o as [i s p q ts|i q|i|i p q ts]; cbn [step].
  - do 2 eexists. split; [done|]. by apply live_add.
  - unfold fill. destruct (where_ b !! i) as [l|] eqn:E; [|eauto]. destruct (live_node _ _ _ H E) as [_ [o Ho]]. rewrite Ho. cbn [mbind option_bind].
    case_match; [eauto|]. do 2 eexists. split; [done|]. by apply live_bump, live_set_node.
  - unfold remove. destruct (where_ b !! i) as [l|] eqn:E; [|eauto]. destruct (live_erase _ _ _ H E) as (b' & -> & Hb'). eauto.
  - unfold change. destruct (where_ b !! i) as [l|] eqn:E; [|eauto]. destruct (live_node _ _ _ H E) as [_ [o Ho]]. rewrite Ho. cbn [mbind option_bind].
    case_match.
    + do 2 eexists. split; [done|]. assert (forall m d, set_nodes (bump b (side l) (px l) d) m (next_node (bump b (side l) (px l) d)) = bump (set_nodes b m (next_node b)) (side l) (px l) d) as Hc
        by (intros; unfold bump; by destruct (side l)).
      rewrite Hc. assert (nodes (bump b (side l) (px l) (- (qty o - q))) = nodes b) as -> by (by frame). by apply live_bump, live_set_node.
    + destruct (live_erase _ _ _ H E) as (b' & -> & Hb'). do 2 eexists. split; [done|]. by apply live_add.
Qed.
Lemma live_clear b : live (clear b).
Proof. split; cbn; try done; intros []; try done; apply zm_ok_nil. Qed.
Lemma live_make : live make.
Proof. split; cbn; try done; intros []; try done; apply zm_ok_nil. Qed.
Lemma truth_find b i : live b -> exists v, find b i = Some v.
Proof.
  intros H. unfold find. destruct (where_ b !! i) as [l|] eqn:E; [|eauto]. destruct (live_node _ _ _ H E) as [_ [o ->]]. cbn. eauto.
Qed.
Lemma live_queue b s p : live b -> exists v, queue b s p = Some v.
Proof.
  intros H. unfold queue. destruct (zm_find (levels b s) p) as [q|] eqn:E; [|eauto].
  assert (forall n, n ∈ q -> is_Some (nodes b !! n)) as Hq by (intros n Hn; by apply (V_nodes _ H _ _ _ _ E Hn)). clear E.
  assert (exists os, deref b q = Some os) as [os ->]; [|cbn; eauto].
  induction q as [|n q IH]; [by exists []|]. destruct (Hq n (list_elem_of_here _ _)) as [o Ho], IH as [os Hos]; [intros; apply Hq; by right|].
  exists (o :: os). cbn [deref]. by rewrite Ho, Hos.
Qed.

(** C27: a truth book is the list of the orders that rest, in the order in which they joined their queues. Whatever the
    stream of messages, as long as an order that opens is not already in the book and sizes are 64-bit, the book applies
    all of them, through iterators that all point to live nodes; a fill is refused exactly when its order is absent or
    smaller than the fill; a decrease at the same price keeps the place of an order and any other change sends it to the
    back. Afterwards every query is a function of the list: [find], [contains] and [size]; the queue at a price, first
    come first; the totals, which are the sums of their queues modulo 2^64; and the walks over a side, which visit exactly
    the prices that have orders, strictly from the best. *)
Theorem truth_book_refines ops (Hs : sound [] ops) :
  exists b, run make ops = Some (b, (s_run [] ops).2) /\ describes b (s_run [] ops).1.
Proof.
  destruct (sim_run ops make [] rel_make Hs) as (b & zs & Hrun & Hrel & Hl). change (([] : list Cell).*2) with ([] : list Resting) in Hrun, Hl. rewrite <- Hl. exists b. split; [exact Hrun|]. by apply rel_describes.
Qed.

(** Three bids at two prices: the first at 100 shrinks in place, then grows and goes behind the other; one is filled. *)
Definition day : list Op :=
  [Add 1 Buy 100 5 10; Add 2 Buy 100 7 11; Add 3 Buy 101 2 12; Change 1 100 4 13; Fill 1 3; Change 1 100 9 14; Fill 3 5; Remove 9].
Lemma truth_book_refines_witness : exists b, run make day = Some (b, [true; true; true; true; true; true; false; true]) /\
  queue b Buy 100 = Some (Some [mkOrder 2 7 11; mkOrder 1 9 14]) /\ level_qty b Buy 100 = 16 /\ size b = 3%nat.
Proof.
  destruct (truth_book_refines day ltac:(vm_compute; repeat split; congruence)) as (b & Hrun & Hd).
  exists b. split; [exact Hrun|]. split; [exact (d_queue _ _ Hd Buy 100)|]. split; [exact (d_total _ _ Hd Buy 100)|exact (d_size _ _ Hd)].
Defined.
End TruthBookLaws.
