(* ===== verification/L3Infer.v ===== *)
(** * Accounts inferred from self-trade prevention (tools/exsim_l3replay.cpp)

    The first pass over a day of an exchange's messages. [Accounts] is a union-find of order ids whose roots are the
    smallest ids; [Inference] keeps its own truth book and gathers, from the messages inside the processing block of each
    arrival, which orders belong to one account and how each arrival prevents self-trades. The recursion of [find] has the
    number of entries as fuel: parents are smaller ids, so no chain is longer. *)
From stdpp Require Import relations.
From S2P Require Import Prelude Common OrdMap L3 L3Laws.

Module Accounts.
Abbreviation t := (gmap Z Z).

(** [find], with path compression. *)
Fixpoint find_in (fuel : nat) (parent_ : t) (x : Z) : option (t * Z) :=
  match fuel with
  | O => None
  | S fuel =>
      match parent_ !! x with
      | None => Some (parent_, x)
      | Some p => '(parent_, r) ← find_in fuel parent_ p; Some (<[x := r]> parent_, r)
      end
  end.
Definition find (parent_ : t) (x : Z) : option (t * Z) := find_in (S (size parent_)) parent_ x.
Definition link (parent_ : t) (a b : Z) : option t :=
  '(parent_, ra) ← find parent_ a;
  '(parent_, rb) ← find parent_ b;
  Some (if ra =? rb then parent_ else <[Z.max ra rb := Z.min ra rb]> parent_).
Definition owner (parent_ : t) (id : Z) : option (t * Z) := '(parent_, r) ← find parent_ id; Some (parent_, Z.land r 4294967295).
Definition linked (parent_ : t) : nat := size parent_.

Inductive Op := Link (a b : Z) | Owner (id : Z).
Definition step (m : t) (o : Op) : option t := match o with Link a b => link m a b | Owner i => '(m, _) ← owner m i; Some m end.
Fixpoint run (m : t) (ops : list Op) : option t := match ops with [] => Some m | o :: ops => m ← step m o; run m ops end.

(** The pairs that were linked, and the equivalence they generate. *)
Definition pairs (ops : list Op) : list (Z * Z) := omap (fun o => match o with Link a b => Some (a, b) | Owner _ => None end) ops.
Definition same (ps : list (Z * Z)) : Z -> Z -> Prop := rtsc (fun a b => (a, b) ∈ ps).
End Accounts.

Module Inference.
Import TruthBook.

(** The kinds and flags of a message (l3.hpp): bytes of the record. *)
Definition SnapOrder : Z := 1.
Definition SnapEnd : Z := 2.
Definition Received : Z := 3.
Definition Open : Z := 4.
Definition Done : Z := 5.
Definition Match : Z := 6.
Definition Change_ : Z := 7.
Definition FundsOnly : Z := 1.
Definition Canceled_ : Z := 2.
Definition StpFlag : Z := 4.
Definition FundsChange : Z := 8.
Record Rec := mkRec { seq : Z; ts : Z; rid : Z; rid2 : Z; rpx : Z; rpx2 : Z; rq : Z; rq2 : Z; kind : Z; rside : Z; otype : Z; flags : Z }.
Definition has (r : Rec) (f : Z) : bool := negb (Z.land (flags r) f =? 0).
Definition side_of (r : Rec) : Side := if rside r =? 0 then Buy else Sell.

Record Life := mkLife { opened : bool; changed : bool; taker_filled : Z; stp_cancelled : Z; stp : Stp }.
Definition fresh_life : Life := mkLife false false 0 0 StpNone.

(** The processing block of the arrival we are in. *)
Record Block := mkBlock {
  block_ : Z; block_side_ : Side; block_px_ : Z; block_market_ : bool; block_funds_ : bool; block_filled_ : Z;
  block_cancelled_own_ : bool; block_traded_after_cancel_ : bool;
}.
Record t := mk {
  life : gmap Z Life; accounts : Accounts.t; links : Z; cn_links : Z; cb_orders : Z;
  book_ : TruthBook.t; loading_ : bool; synced_ : bool; snap_seq_ : Z; last_seq_ : Z; pre_ : list Rec; blk : Block;
}.
Definition make : t := mk ∅ ∅ 0 0 0 TruthBook.make false false 0 0 [] (mkBlock 0 Buy 0 false false 0 false false).

Definition set_life (s : t) (l : gmap Z Life) : t :=
  mk l (accounts s) (links s) (cn_links s) (cb_orders s) (book_ s) (loading_ s) (synced_ s) (snap_seq_ s) (last_seq_ s) (pre_ s) (blk s).
Definition set_links (s : t) (a : Accounts.t) (n cn cb : Z) : t :=
  mk (life s) a n cn cb (book_ s) (loading_ s) (synced_ s) (snap_seq_ s) (last_seq_ s) (pre_ s) (blk s).
Definition set_book (s : t) (b : TruthBook.t) : t :=
  mk (life s) (accounts s) (links s) (cn_links s) (cb_orders s) b (loading_ s) (synced_ s) (snap_seq_ s) (last_seq_ s) (pre_ s) (blk s).
Definition set_sync (s : t) (ld sy : bool) (snap lst : Z) (p : list Rec) : t :=
  mk (life s) (accounts s) (links s) (cn_links s) (cb_orders s) (book_ s) ld sy snap lst p (blk s).
Definition set_block (s : t) (b : Block) : t :=
  mk (life s) (accounts s) (links s) (cn_links s) (cb_orders s) (book_ s) (loading_ s) (synced_ s) (snap_seq_ s) (last_seq_ s) (pre_ s) b.

(** [life[i]], created if missing, changed by [f]. *)
Definition upd_life (s : t) (i : Z) (f : Life -> Life) : t := set_life s (<[i := f (default fresh_life (life s !! i))]> (life s)).
Definition life_of (s : t) (i : Z) : Life := default fresh_life (life s !! i).
Definition mark (s : t) (m : Stp) : t :=
  upd_life s (block_ (blk s)) (fun l => if bool_decide (stp l = DecrementCancel) then l else mkLife (opened l) (changed l) (taker_filled l) (stp_cancelled l) m).

(** A message that starts a block. *)
Definition on_received (s : t) (r : Rec) : t :=
  if kind r =? Received then
    set_block s (mkBlock (rid r) (side_of r) (rpx r) (otype r =? 1) (has r FundsOnly) 0 false false)
  else s.

(** [accounts.link(block_, x), ++links]: [x] is of the account of the arrival. *)
Definition link_block (s : t) (x : Z) : option t :=
  a ← Accounts.link (accounts s) (block_ (blk s)) x; Some (set_links s a (u64 (links s + 1)) (cn_links s) (cb_orders s)).

(** What the arrival could still have taken when it was cancelled: the order first in the queue at the best price. *)
Definition next_in_queue (s : t) : option (option Z) :=
  let b := blk s in
  let opp := opposite (block_side_ b) in
  match best (book_ s) opp with
  | None => Some None
  | Some p =>
      q ← queue (book_ s) opp p;
      let crosses := block_market_ b || match block_side_ b with Buy => p <=? block_px_ b | Sell => block_px_ b <=? p end in
      Some (match q with Some (o :: _) => if crosses then Some (TruthBook.id o) else None | _ => None end)
  end.

(** The tests on a [Done]: another order cancelled in the block; the arrival itself, after cancelling its own order and
    trading nothing since (the test creates the arrival's [Life]); the arrival, after trading, at a message the book is up to date for. *)
Definition cancels_other (s : t) (r : Rec) : bool :=
  (kind r =? Done) && negb (block_ (blk s) =? 0) && negb (rid r =? block_ (blk s)) && has r Canceled_.
Definition looks_up (s : t) (r : Rec) : bool := (kind r =? Done) && (rid r =? block_ (blk s)) && has r Canceled_ && (0 <? rq r).
Definition cancels_both (s : t) (r : Rec) : bool :=
  looks_up s r && bool_decide (stp (life_of s (block_ (blk s))) = CancelResting) && block_cancelled_own_ (blk s) && negb (block_traded_after_cancel_ (blk s)).
Definition stops_short (s : t) (r : Rec) : bool :=
  (kind r =? Done) && (rid r =? block_ (blk s)) && has r Canceled_ && (0 <? block_filled_ (blk s)) && negb (block_funds_ (blk s)) &&
  (0 <? rq r) && synced_ s && (seq r =? u64 (last_seq_ s + 1)).

(** The order, if any, that the message shows to be of the arrival's account. *)
Definition evidence (s : t) (r : Rec) : option (option Z) :=
  let b := blk s in
  if kind r =? Open then Some None else
  if kind r =? Match then Some None else
  if kind r =? Change_ then Some (if has r StpFlag && negb (block_ b =? 0) && negb (rid r =? block_ b) then Some (rid r) else None) else
  if cancels_other s r then Some (Some (rid r)) else
  if cancels_both s r then Some None else
  if stops_short s r then next_in_queue s else Some None.
(** Each branch of [facts], apart from the link. *)
Definition branch (s : t) (r : Rec) (found : option Z) : t :=
  let b := blk s in
  if kind r =? Open then upd_life s (rid r) (fun l => mkLife true (changed l) (taker_filled l) (stp_cancelled l) (stp l)) else
  if kind r =? Match then
    let s := upd_life s (rid r) (fun l => mkLife (opened l) (changed l) (u64 (taker_filled l + rq r)) (stp_cancelled l) (stp l)) in
    if rid r =? block_ b then
      set_block s (mkBlock (block_ b) (block_side_ b) (block_px_ b) (block_market_ b) (block_funds_ b) (u64 (block_filled_ b + rq r))
        (block_cancelled_own_ b) (block_cancelled_own_ b || block_traded_after_cancel_ b))
    else s
  else if kind r =? Change_ then
    let s := upd_life s (rid r) (fun l => mkLife (opened l) true (taker_filled l) (stp_cancelled l) (stp l)) in
    if has r StpFlag && negb (block_ b =? 0) then mark s DecrementCancel else s
  else if cancels_other s r then
    let s := mark s CancelResting in
    let s := upd_life s (block_ b) (fun l => mkLife (opened l) (changed l) (taker_filled l) (u64 (stp_cancelled l + rq r)) (stp l)) in
    set_block s (mkBlock (block_ b) (block_side_ b) (block_px_ b) (block_market_ b) (block_funds_ b) (block_filled_ b) true (block_traded_after_cancel_ b))
  else
  let s0 := s in
  let s := if looks_up s r then upd_life s (block_ b) (fun l => l) else s in
  if cancels_both s0 r then
    let s := upd_life s (block_ b) (fun l => mkLife (opened l) (changed l) (taker_filled l) (stp_cancelled l) CancelIncoming) in
    set_links s (accounts s) (links s) (cn_links s) (u64 (cb_orders s + 1))
  else if stops_short s0 r then
    match found with
    | Some _ =>
        let s := set_links s (accounts s) (links s) (u64 (cn_links s + 1)) (cb_orders s) in
        upd_life s (block_ b) (fun l => if bool_decide (stp l = StpNone) then mkLife (opened l) (changed l) (taker_filled l) (stp_cancelled l) CancelIncoming else l)
    | None => s
    end
  else s.
(** A message that ends it. *)
Definition end_block (s : t) (r : Rec) : t :=
  let b := blk s in
  if ((kind r =? Open) || (kind r =? Done)) && (rid r =? block_ b) then
    set_block s (mkBlock 0 (block_side_ b) (block_px_ b) (block_market_ b) (block_funds_ b) (block_filled_ b) (block_cancelled_own_ b) (block_traded_after_cancel_ b))
  else s.
Definition facts (s : t) (r : Rec) : option t :=
  let s := on_received s r in
  found ← evidence s r;
  s' ← match found with Some x => link_block s x | None => Some s end;
  Some (end_block (branch s' r found) r).

Definition apply (s : t) (r : Rec) : option t :=
  let s := set_sync s (loading_ s) (synced_ s) (snap_seq_ s) (seq r) (pre_ s) in
  let b := book_ s in
  if kind r =? Open then Some (set_book s (add b (rid r) (side_of r) (rpx r) (rq r) (seq r))) else
  if kind r =? Match then '(b, _) ← fill b (rid2 r) (rq r); Some (set_book s b) else
  if kind r =? Done then b ← remove b (rid r); Some (set_book s b) else
  if (kind r =? Change_) && negb (has r FundsChange) then
    v ← find b (rid r);
    match v with
    | Some (_, _, old_px) => b ← change b (rid r) (if rpx r =? 0 then old_px else rpx r) (rq r) (seq r); Some (set_book s b)
    | None => Some s
    end
  else Some s.

(** [std::sort] by sequence number; the numbers of a stream are distinct. *)
Fixpoint insert_by_seq (r : Rec) (l : list Rec) : list Rec :=
  match l with [] => [r] | x :: l' => if seq r <? seq x then r :: l else x :: insert_by_seq r l' end.
Definition sort_by_seq (l : list Rec) : list Rec := foldl (fun a r => insert_by_seq r a) [] l.

Fixpoint apply_early (s : t) (l : list Rec) : option t :=
  match l with [] => Some s | r :: l => s ← (if snap_seq_ s <? seq r then apply s r else Some s); apply_early s l end.

Definition on (s : t) (r : Rec) : option t :=
  if kind r =? SnapOrder then
    if synced_ s then Some s else
    let s := if loading_ s then s else set_sync (set_book s (clear (book_ s))) true (synced_ s) (snap_seq_ s) (last_seq_ s) (pre_ s) in
    Some (set_book s (add (book_ s) (rid r) (side_of r) (rpx r) (rq r) 0))
  else if kind r =? SnapEnd then
    if synced_ s then Some s else
    apply_early (set_sync s false true (seq r) (seq r) []) (sort_by_seq (pre_ s))
  else
    s ← facts s r;
    if negb (synced_ s) then Some (set_sync s (loading_ s) (synced_ s) (snap_seq_ s) (last_seq_ s) (pre_ s ++ [r])) else
    if seq r <=? snap_seq_ s then Some s else
    if negb (seq r =? u64 (last_seq_ s + 1)) then Some (set_sync s (loading_ s) false (snap_seq_ s) (last_seq_ s) (pre_ s ++ [r])) else
    apply s r.
Fixpoint run (s : t) (rs : list Rec) : option t := match rs with [] => Some s | r :: rs => s ← on s r; run s rs end.
End Inference.

Module AccountsLaws.
Import Accounts.

(** Parents are smaller, so chains end; the root of a chain. *)
Definition down (m : t) : Prop := forall x p, m !! x = Some p -> p < x.
Inductive root (m : t) : Z -> Z -> Prop :=
  | root_self x : m !! x = None -> root m x x
  | root_step x p r : m !! x = Some p -> root m p r -> root m x r.

Lemma root_fun m x r r' : root m x r -> root m x r' -> r = r'.
Proof. intros H. revert r'. induction H as [x Hx|x p r Hx _ IH]; inversion 1; subst; simplify_eq; auto. Qed.
Lemma root_le m x r : down m -> root m x r -> r <= x.
Proof. intros Hd. induction 1 as [|x p r Hx _ IH]; [lia|]. specialize (Hd _ _ Hx). lia. Qed.
Lemma root_root m x r : root m x r -> m !! r = None.
Proof. by induction 1. Qed.

(** Compression keeps the roots. *)
Lemma root_compress m x r : root m x r -> x <> r -> forall y s, root (<[x := r]> m) y s <-> root m y s.
Proof.
  intros Hx Hne. pose proof (root_root _ _ _ Hx) as Hr. intros y s. split.
  - induction 1 as [y Hy|y p s Hy Hp IH].
    + apply lookup_insert_None in Hy as [Hy _]. by constructor.
    + apply lookup_insert_Some in Hy as [[-> ->]|[_ Hy]]; [|by econstructor].
      by rewrite (root_fun _ _ _ _ IH (root_self _ _ Hr)).
  - induction 1 as [y Hy|y p s Hy Hp IH].
    + destruct (decide (x = y)) as [->|Hn]; [|constructor; by rewrite lookup_insert_ne].
      assert (y = r) as -> by (eapply root_fun; [by apply root_self|done]). done.
    + destruct (decide (x = y)) as [->|Hn]; [|econstructor; [rewrite lookup_insert_ne by done; exact Hy|done]].
      rewrite (root_fun _ _ _ _ (root_step _ _ _ _ Hy Hp) Hx). econstructor; [apply lookup_insert_eq|].
      constructor. by rewrite lookup_insert_ne.
Qed.

Definition depth (m : t) (x : Z) : nat := size (filter (fun k => k <= x) (dom m : gset Z)).
Lemma depth_step m x p : m !! x = Some p -> p < x -> (depth m p < depth m x)%nat.
Proof.
  intros Hx Hp. apply subset_size. split.
  - intros k. rewrite !elem_of_filter. intros [? ?]. split; [lia|done].
  - intros Hsub. specialize (Hsub x). rewrite !elem_of_filter in Hsub. destruct Hsub as [? _]; [|lia]. split; [lia|]. by apply elem_of_dom_2 in Hx.
Qed.
Lemma depth_size m x : (depth m x <= size m)%nat.
Proof. unfold depth. rewrite <- size_dom. apply subseteq_size. intros k. rewrite elem_of_filter. tauto. Qed.

(** What a search does: it ends, at the root, and only shortens chains. *)
Record kept (m m' : t) : Prop := {
  K_down : down m';
  K_root : forall y s, root m' y s <-> root m y s;
  K_dom : dom m' = (dom m : gset Z);
}.
Lemma find_in_ok fuel m x : down m -> (depth m x < fuel)%nat -> exists m' r, find_in fuel m x = Some (m', r) /\ root m x r /\ kept m m'.
Proof.
  intros Hd. revert x. induction fuel as [|fuel IH]; intros x Hf; [lia|]. cbn [find_in]. destruct (m !! x) as [p|] eqn:E.
  - pose proof (depth_step _ _ _ E (Hd _ _ E)) as Hs. destruct (IH p ltac:(lia)) as (m' & r & -> & Hr & [K1 K2 K3]). cbn [mbind option_bind].
    pose proof (root_le _ _ _ Hd Hr) as Hle. specialize (Hd _ _ E). assert (root m x r) as Hx by by econstructor.
    exists (<[x := r]> m'), r. split; [done|]. split; [done|]. split.
    + intros y q [[<- <-]|[_ Hy]]%lookup_insert_Some; [lia|by apply K1].
    + intros y s. rewrite root_compress, K2; [done|by apply K2|lia].
    + rewrite dom_insert_L, K3. apply elem_of_dom_2 in E. set_solver.
  - exists m, x. split; [done|]. split; [by constructor|]. by split.
Qed.
Lemma find_ok m x : down m -> exists m' r, find m x = Some (m', r) /\ root m x r /\ kept m m'.
Proof. intros Hd. apply find_in_ok; [done|]. pose proof (depth_size m x). lia. Qed.

(** Joining two roots. *)
Lemma root_join m a b : down m -> m !! a = None -> m !! b = None -> a < b -> forall y s,
  root (<[b := a]> m) y s <-> exists s', root m y s' /\ s = if s' =? b then a else s'.
Proof.
  intros Hd Ha Hb Hlt y s. split.
  - induction 1 as [y Hy|y p s Hy Hp IH].
    + apply lookup_insert_None in Hy as [Hy Hn]. exists y. split; [by constructor|]. by destruct (Z.eqb_spec y b) as [->|].
    + destruct IH as (s' & Hs' & ->). apply lookup_insert_Some in Hy as [[-> ->]|[Hn Hy]]; [|exists s'; split; [by econstructor|done]].
      rewrite (root_fun _ _ _ _ Hs' (root_self _ _ Ha)). exists y. split; [by constructor|]. rewrite Z.eqb_refl.
      by rewrite (proj2 (Z.eqb_neq p y)) by lia.
  - intros (s' & Hs' & ->). induction Hs' as [y Hy|y p s' Hy _ IH].
    + destruct (Z.eqb_spec y b) as [->|Hn]; [|constructor; by rewrite lookup_insert_ne].
      econstructor; [apply lookup_insert_eq|]. constructor. rewrite lookup_insert_ne by lia. done.
    + econstructor; [rewrite lookup_insert_ne by congruence; exact Hy|done].
Qed.

(** The classes of the links. *)
Lemma same_least ps (E : Z -> Z -> Prop) `{!Equivalence E} : (forall a b, (a, b) ∈ ps -> E a b) -> forall x y, same ps x y -> E x y.
Proof.
  intros Hps x y. unfold same. induction 1 as [x|x y z [Hxy|Hxy] _ IH]; [reflexivity| |].
  - transitivity y; [by apply Hps|done].
  - transitivity y; [symmetry; by apply Hps|done].
Qed.
#[export] Instance same_equiv ps : Equivalence (same ps).
Proof. apply rtsc_equivalence. Qed.
Lemma same_mono ps qs x y : (forall p, p ∈ ps -> p ∈ qs) -> same ps x y -> same qs x y.
Proof.
  intros H. apply same_least; [apply _|]. intros a b Hab. unfold same. apply rtc_once. left. by apply H.
Qed.
Lemma same_pair ps a b : (a, b) ∈ ps -> same ps a b.
Proof. intros H. unfold same. apply rtc_once. by left. Qed.

Record partition (ps : list (Z * Z)) (m : t) : Prop := {
  P_down : down m;
  P_same : forall x y, same ps x y <-> exists r, root m x r /\ root m y r;
}.
Lemma partition_root ps m x : partition ps m -> exists r, root m x r /\ same ps x r.
Proof.
  intros [Hd Hs]. destruct (find_ok m x Hd) as (m' & r & _ & Hr & _). exists r. split; [done|]. apply Hs. exists r. split; [done|].
  constructor. by eapply root_root.
Qed.
Lemma partition_nil : partition [] ∅.
Proof.
  split; [by intros x p|]. intros x y. split.
  - intros H. assert (x = y) as <-; [|exists x; by split; constructor].
    revert x y H. apply same_least; [apply _|]. by intros a b ?%elem_of_nil.
  - intros (r & Hx & Hy). by destruct Hx, Hy.
Qed.
Lemma partition_kept ps m m' : partition ps m -> kept m m' -> partition ps m'.
Proof.
  intros [Hd Hs] [K1 K2 _]. split; [done|]. intros x y. rewrite Hs. setoid_rewrite K2. done.
Qed.

Lemma partition_join ps m a b a' b' : partition ps m -> a < b -> m !! a = None -> m !! b = None ->
  (root m a' a /\ root m b' b \/ root m a' b /\ root m b' a) -> partition (ps ++ [(a', b')]) (<[b := a]> m).
Proof.
  intros H Hlt Ha Hb Hroots. pose proof H as [Hd Hs]. pose proof (root_join m a b Hd Ha Hb Hlt) as Hj. split.
  { intros x p [[<- <-]|[_ Hx]]%lookup_insert_Some; [done|by apply Hd]. }
  assert (forall x y, same ps x y -> same (ps ++ [(a', b')]) x y) as Hm by (intros x y; apply same_mono; intros p Hp; apply elem_of_app; by left).
  assert (same (ps ++ [(a', b')]) a b) as Hab.
  { assert (same (ps ++ [(a', b')]) a' b') as Hab' by (apply same_pair, elem_of_app; right; by apply list_elem_of_singleton).
    destruct Hroots as [[R1 R2]|[R1 R2]].
    - transitivity a'; [apply Hm, Hs; exists a; split; [by constructor|done]|]. transitivity b'; [done|]. apply Hm, Hs. exists b. split; [done|by constructor].
    - transitivity b'; [apply Hm, Hs; exists a; split; [by constructor|done]|]. transitivity a'; [by symmetry|]. apply Hm, Hs. exists b. split; [done|by constructor]. }
  intros x y. setoid_rewrite Hj. split.
  - set (E x y := exists r, (exists s', root m x s' /\ r = (if s' =? b then a else s')) /\ (exists s', root m y s' /\ r = (if s' =? b then a else s'))).
    assert (forall x, exists s, root m x s) as Htot by (intros z; destruct (partition_root ps m z H) as (r & ? & _); by exists r).
    assert (Equivalence E) as HE.
    { split.
      - intros z. destruct (Htot z) as [s Hz]. exists (if s =? b then a else s). split; by exists s.
      - intros z w (r & H1 & H2). by exists r.
      - intros z w v (r & H1 & s & Hw & ->) (r' & (s' & Hw' & ->) & H2). rewrite (root_fun _ _ _ _ Hw' Hw) in H2. eexists. split; [exact H1|exact H2]. }
    apply (same_least (ps ++ [(a', b')]) E). intros z w [Hzw|Hzw]%elem_of_app.
    + apply same_pair, Hs in Hzw as (r & Hz & Hw). exists (if r =? b then a else r). split; by exists r.
    + apply list_elem_of_singleton in Hzw. injection Hzw as -> ->. exists a.
      destruct Hroots as [[R1 R2]|[R1 R2]]; split; eexists; (split; [eassumption|]); rewrite ?Z.eqb_refl; by rewrite ?(proj2 (Z.eqb_neq a b)) by lia.
  - intros (r & (s1 & Hx & ->) & (s2 & Hy & Heq)).
    assert (forall z s, root m z s -> same (ps ++ [(a', b')]) z (if s =? b then a else s)) as Hz.
    { intros z s Hz. transitivity s; [apply Hm, Hs; exists s; split; [done|constructor; by eapply root_root]|].
      destruct (Z.eqb_spec s b) as [->|]; [by symmetry|done]. }
    transitivity (if s1 =? b then a else s1); [by apply Hz|]. rewrite Heq. symmetry. by apply Hz.
Qed.

Lemma partition_link ps m a b : partition ps m -> exists m', link m a b = Some m' /\ partition (ps ++ [(a, b)]) m'.
Proof.
  intros H. unfold link. destruct (find_ok m a (P_down _ _ H)) as (m1 & ra & -> & Ra & K1). cbn [mbind option_bind].
  pose proof (partition_kept _ _ _ H K1) as H1. destruct (find_ok m1 b (P_down _ _ H1)) as (m2 & rb & -> & Rb & K2). cbn [mbind option_bind].
  pose proof (partition_kept _ _ _ H1 K2) as H2. apply (K_root _ _ K1), (K_root _ _ K2) in Ra. apply (K_root _ _ K2) in Rb.
  eexists. split; [done|]. destruct (Z.eqb_spec ra rb) as [->|Hne].
  - destruct H2 as [D S]. split; [done|]. intros x y. rewrite <- S. split; [|apply same_mono; intros p Hp; apply elem_of_app; by left].
    apply same_least; [apply _|]. intros z w [?|Hzw]%elem_of_app; [by apply same_pair|]. apply list_elem_of_singleton in Hzw. injection Hzw as -> ->.
    apply S. by exists rb.
  - pose proof (root_root _ _ _ Ra). pose proof (root_root _ _ _ Rb).
    destruct (Z.lt_total ra rb) as [Hlt|[Heq|Hlt]]; [| |].
    + rewrite Z.max_r, Z.min_l by lia. apply partition_join; auto.
    + done.
    + rewrite Z.max_l, Z.min_r by lia. apply partition_join; auto.
Qed.

(** What a caller can see: the root of an id is the least id of its class. *)
Definition least_of_class (ps : list (Z * Z)) (m : t) : Prop := forall x, exists m' r, find m x = Some (m', r) /\
  same ps x r /\ (forall y, same ps x y -> r <= y) /\ forall y, same ps x y <-> exists m'', find m y = Some (m'', r).
Lemma partition_least ps m : partition ps m -> least_of_class ps m.
Proof.
  intros H x. pose proof H as [Hd Hs]. destruct (find_ok m x Hd) as (m' & r & E & Hr & _). exists m', r. split; [done|].
  assert (m !! r = None) as Hn by by eapply root_root. split; [apply Hs; exists r; split; [done|by constructor]|]. split.
  - intros y (s & Hx & Hy)%Hs. rewrite (root_fun _ _ _ _ Hr Hx). by eapply root_le.
  - intros y. destruct (find_ok m y Hd) as (m'' & s & Ey & Hy & _). rewrite Hs, Ey. split.
    + intros (s' & Hx & Hy'). exists m''. rewrite (root_fun _ _ _ _ Hy Hy'). by rewrite (root_fun _ _ _ _ Hr Hx).
    + intros (m3 & [= _ ->]). by exists r.
Qed.
End AccountsLaws.

Module InferenceLaws.
Import TruthBook TruthBookLaws Accounts AccountsLaws Inference.

(** The links a stream gives: the arrival of the block, and the order its message shows to be of the same account. *)
Definition shown (s : Inference.t) (r : Rec) : list (Z * Z) :=
  if (kind r =? SnapOrder) || (kind r =? SnapEnd) then [] else
  let s := on_received s r in
  match evidence s r with Some (Some x) => [(block_ (blk s), x)] | _ => [] end.
Fixpoint gathered (s : Inference.t) (rs : list Rec) : list (Z * Z) :=
  match rs with [] => [] | r :: rs => shown s r ++ match on s r with Some s' => gathered s' rs | None => [] end end.

Record inv (ps : list (Z * Z)) (s : Inference.t) : Prop := {
  I_accounts : partition ps (accounts s);
  I_book : live (book_ s);
  I_links : links s = u64 (Z.of_nat (length ps));
}.
(** Two states with the same accounts, book and count. *)
Definition alike (s s' : Inference.t) : Prop := accounts s' = accounts s /\ book_ s' = book_ s /\ links s' = links s.
Lemma inv_alike ps s s' : inv ps s -> alike s s' -> inv ps s'.
Proof. intros [? ? ?] (E1 & E2 & E3). split; by rewrite ?E1, ?E2, ?E3. Qed.

Lemma received_alike s r : alike s (on_received s r).
Proof. unfold on_received. by case_if. Qed.
Lemma mark_alike s m : alike s (mark s m).
Proof. done. Qed.
Lemma branch_alike s r x : alike s (branch s r x).
Proof. unfold branch. repeat case_if; try done; by destruct x. Qed.
Lemma end_alike s r : alike s (end_block s r).
Proof. unfold end_block. by case_if. Qed.
Lemma alike_trans s1 s2 s3 : alike s1 s2 -> alike s2 s3 -> alike s1 s3.
Proof. intros (? & ? & ?) (? & ? & ?). repeat split; congruence. Qed.

Lemma evidence_total s r : live (book_ s) -> exists x, evidence s r = Some x.
Proof.
  intros Hb. unfold evidence. do 5 (case_match; [by eauto|]). case_match; [|by eauto]. unfold next_in_queue.
  destruct (best (book_ s) (opposite (block_side_ (blk s)))) as [p|]; [|eauto].
  destruct (live_queue _ (opposite (block_side_ (blk s))) p Hb) as [q ->]. cbn. eauto.
Qed.

Lemma facts_inv ps s r : inv ps s -> (kind r =? SnapOrder) || (kind r =? SnapEnd) = false ->
  exists s', facts s r = Some s' /\ inv (ps ++ shown s r) s'.
Proof.
  intros H Hk. unfold facts, shown. rewrite Hk. set (s1 := on_received s r).
  pose proof (inv_alike _ _ _ H (received_alike s r)) as H1. fold s1 in H1. destruct (evidence_total s1 r (I_book _ _ H1)) as [x Hx]. rewrite Hx.
  cbn [mbind option_bind]. destruct x as [x|].
  - unfold link_block. destruct (partition_link _ _ (block_ (blk s1)) x (I_accounts _ _ H1)) as (a & -> & Ha). cbn [mbind option_bind].
    eexists. split; [done|]. eapply inv_alike; [|eapply alike_trans; [apply branch_alike|apply end_alike]].
    split; cbn; [done|apply H1|]. rewrite (I_links _ _ H1), u64_add_l, length_app. f_equal. simpl. lia.
  - rewrite app_nil_r. eexists. split; [done|]. eapply inv_alike; [exact H1|]. eapply alike_trans; [apply branch_alike|apply end_alike].
Qed.

Lemma inv_set_book ps s b : inv ps s -> live b -> inv ps (set_book s b).
Proof. intros [? ? ?]. by split. Qed.
Lemma inv_set_sync ps s ld sy sn la p : inv ps s -> inv ps (set_sync s ld sy sn la p).
Proof. intros H. by apply (inv_alike ps s). Qed.

Lemma apply_inv ps s r : inv ps s -> exists s', apply s r = Some s' /\ inv ps s'.
Proof.
  intros H. apply (inv_set_sync _ _ (loading_ s) (synced_ s) (snap_seq_ s) (seq r) (pre_ s)) in H. unfold apply. cbn [book_ set_sync] in *.
  pose proof (I_book _ _ H) as Hb. cbn [book_ set_sync] in Hb.
  case_if; [eexists; split; [done|]; by apply inv_set_book, live_add|].
  case_if; [|case_if; [|case_if; [|eauto]]].
  - destruct (live_step _ (Fill (rid2 r) (rq r)) Hb) as (b & x & E1 & Hb'). cbn [TruthBook.step] in E1. rewrite E1. eexists. split; [done|]. by apply inv_set_book.
  - destruct (live_step _ (Remove (rid r)) Hb) as (b & x & E2 & Hb'). cbn [TruthBook.step] in E2. destruct (remove _ _); inv_bind.
    eexists. split; [done|]. by apply inv_set_book.
  - destruct (truth_find _ (rid r) Hb) as [[[[o sd] px]|] ->]; cbn [mbind option_bind]; [|eauto].
    destruct (live_step _ (TruthBook.Change (rid r) (if rpx r =? 0 then px else rpx r) (rq r) (seq r)) Hb) as (b & x & E3 & Hb'). cbn [TruthBook.step] in E3.
    destruct (change _ _ _ _ _); inv_bind. eexists. split; [done|]. by apply inv_set_book.
Qed.

Lemma early_inv ps l s : inv ps s -> exists s', apply_early s l = Some s' /\ inv ps s'.
Proof.
  revert s. induction l as [|r l IH]; intros s H; [by exists s|]. cbn [apply_early].
  destruct (snap_seq_ s <? seq r); [|by apply IH]. destruct (apply_inv _ _ r H) as (s' & -> & H'). by apply IH.
Qed.

Lemma on_inv ps s r : inv ps s -> exists s', on s r = Some s' /\ inv (ps ++ shown s r) s'.
Proof.
  intros H. unfold on. destruct (kind r =? SnapOrder) eqn:E1; [|destruct (kind r =? SnapEnd) eqn:E2].
  - unfold shown. rewrite E1. cbn [orb]. rewrite app_nil_r. case_if; [eauto|]. eexists. split; [done|].
    case_if; (apply inv_set_book; [|apply live_add]); [done|apply H| |apply live_clear]. by apply inv_set_sync, inv_set_book, live_clear.
  - unfold shown. rewrite E1, E2. cbn [orb]. rewrite app_nil_r. case_if; [eauto|]. apply early_inv. by apply inv_set_sync.
  - destruct (facts_inv _ _ r H) as (s' & -> & H'); [by rewrite E1, E2|]. cbn [mbind option_bind].
    repeat (case_if; [eexists; split; [done|]; by try apply inv_set_sync|]). by apply apply_inv.
Qed.

Lemma first_pass_inv ps s rs : inv ps s -> exists s', run s rs = Some s' /\ inv (ps ++ gathered s rs) s'.
Proof.
  revert ps s. induction rs as [|r rs IH]; intros ps s H; cbn [run gathered]; [exists s; by rewrite app_nil_r|].
  destruct (on_inv _ _ r H) as (s' & -> & H'). cbn [mbind option_bind]. destruct (IH _ _ H') as (s'' & -> & H''). exists s''. by rewrite app_assoc.
Qed.

(** C28: whatever the stream of messages (gaps, repeated ids and inconsistent sizes included), the first pass handles all of
    it: no search for a root runs on, and no iterator of its book is used after the order it points to is gone. Afterwards
    two orders have the same root exactly if the links the messages showed connect them, the root is the least of the
    connected ids, and every link is counted. *)
Theorem accounts_are_classes rs : exists s, run make rs = Some s /\
  least_of_class (gathered make rs) (accounts s) /\ links s = u64 (Z.of_nat (length (gathered make rs))).
Proof.
  destruct (first_pass_inv [] make rs) as (s & Hrun & H); [split; [apply partition_nil|apply live_make|done]|].
  exists s. split; [exact Hrun|]. split; [by apply partition_least, H|apply H].
Qed.

(** An arrival that cancels order 3 of its own account, then one that trades with order 4 and stops before order 5. *)
Example two_accounts : exists s, run make
    [mkRec 1 0 3 0 50 0 10 0 SnapOrder 0 0 0; mkRec 1 0 4 0 50 0 10 0 SnapOrder 0 0 0; mkRec 1 0 5 0 50 0 10 0 SnapOrder 0 0 0; mkRec 1 0 0 0 0 0 0 0 SnapEnd 0 0 0;
     mkRec 2 0 8 0 50 0 6 0 Received 1 0 0; mkRec 3 0 3 0 50 0 10 0 Done 0 0 Canceled_; mkRec 4 0 8 4 50 0 6 0 Match 0 0 0; mkRec 5 0 8 0 50 0 0 0 Done 1 0 0;
     mkRec 6 0 9 0 50 0 9 0 Received 1 0 0; mkRec 7 0 9 4 50 0 4 0 Match 0 0 0; mkRec 8 0 4 0 50 0 0 0 Done 0 0 0; mkRec 9 0 9 0 50 0 5 0 Done 1 0 Canceled_] = Some s /\
  links s = 2 /\ cn_links s = 1 /\ stp (life_of s 8) = CancelResting /\ stp (life_of s 9) = CancelIncoming /\
  snd <$> Accounts.owner (accounts s) 8 = Some 3 /\ snd <$> Accounts.owner (accounts s) 9 = Some 5.
Proof. eexists. split; [vm_compute; reflexivity|]. vm_compute. repeat split. Qed.
End InferenceLaws.
