(* ===== verification/Md.v ===== *)
(** * Market-data captures (md.hpp)

    The reader of the binary capture of an exchange's level-2 feed. The whole file is in memory; a record keeps the offset
    of its levels in it. A read outside the buffer is undefined behaviour and has no result; an exception is one of
    [Error]. The file ends with the format, as the converter writes it, and the round trip. *)
From S2P Require Import Prelude Bytes.

Module Md.

Inductive Kind := Diff | Trade | Snapshot.
Record LevelUpdate := mkLevel { px : Z; qty : Z }.
Record Record_ := mkRecord {
  kind : Kind; rx_ns : Z; first_id : Z; last_id : Z; n_bids : Z; n_asks : Z; levels : Z; trade_px : Z; trade_qty : Z; buyer_is_maker : bool;
}.
Inductive Error := NotExmd | UnsupportedVersion | Truncated | UnknownKind | LengthMismatch.

(** [n] bytes of the buffer at [off]. *)
Definition view (buf : list Z) (off : Z) (n : nat) : option (list Z) :=
  if (0 <=? off) && (off + Z.of_nat n <=? alen buf) then Some (take n (drop (Z.to_nat off) buf)) else None.

Definition level (buf : list Z) (r : Record_) (i : Z) : option LevelUpdate :=
  b ← view buf (levels r + i * 16) 16;
  match unpack [8; 8]%nat b with [p; q] => Some (mkLevel (i64 p) q) | _ => None end.
Definition bid (buf : list Z) (r : Record_) (i : Z) : option LevelUpdate := level buf r i.
Definition ask (buf : list Z) (r : Record_) (i : Z) : option LevelUpdate := level buf r (n_bids r + i).

Definition check (len want : Z) (r : Record_) : Error + Record_ := if len =? want then inr r else inl LengthMismatch.

(** [parse] of the record at [p]. *)
Definition parse (buf : list Z) (p len : Z) : option (Error + Record_) :=
  k ← view buf p 1;
  rx ← view buf (p + 4) 8;
  let rx := of_le rx in
  let q := p + 12 in
  match of_le k with
  | 1 =>
      b ← view buf q 24;
      match unpack [8; 8; 4; 4]%nat b with
      | [f; l; nb; na] => Some (check len (12 + 24 + (nb + na) * 16) (mkRecord Diff rx f l nb na (q + 24) 0 0 false))
      | _ => None
      end
  | 3 =>
      b ← view buf q 16;
      match unpack [8; 4; 4]%nat b with
      | [l; nb; na] => Some (check len (12 + 16 + (nb + na) * 16) (mkRecord Snapshot rx 0 l nb na (q + 16) 0 0 false))
      | _ => None
      end
  | 2 =>
      b ← view buf q 17;
      match unpack [8; 8; 1]%nat b with
      | [x; n; m] => Some (check len (12 + 24) (mkRecord Trade rx 0 0 0 0 0 (i64 x) n (negb (m =? 0))))
      | _ => None
      end
  | _ => Some (inl UnknownKind)
  end.

Fixpoint load_records (fuel : nat) (buf : list Z) (off : Z) : option (Error + list Record_) :=
  match fuel with
  | O => None
  | S fuel =>
      if negb (off + 4 <=? alen buf) then Some (inr []) else
      b ← view buf off 4;
      let len := of_le b in
      if (alen buf <? off + 4 + len) || (len <? 12) then Some (inl Truncated) else
      r ← parse buf (off + 4) len;
      match r with
      | inl e => Some (inl e)
      | inr r => rs ← load_records fuel buf (off + 4 + len); Some (match rs with inl e => inl e | inr rs => inr (r :: rs) end)
      end
  end.

Definition magic : list Z := [69; 88; 77; 68].
(** [Capture::Capture] on the bytes of the file: the records, and the decimals of prices and quantities. *)
Definition load (buf : list Z) : option (Error + list Record_ * Z * Z) :=
  if (alen buf <? 16) || negb (bool_decide (take 4 buf = magic)) then Some (inl NotExmd) else
  match unpack [4; 4; 4; 4]%nat buf with
  | [_; version; pd; qd] =>
      if negb (version =? 1) then Some (inl UnsupportedVersion) else
      rs ← load_records (S (length buf)) buf 16;
      Some (match rs with inl e => inl e | inr rs => inr (rs, pd, qd) end)
  | _ => None
  end.

(** ** Where to start a replay *)

Record Seed := mkSeed { snap_rec : nat; diff_rec : nat }.
(** The inner loop, over the positions of the diffs that are left. *)
Fixpoint straddling (recs : list Record_) (want : Z) (diffs : list nat) : option (option nat) :=
  match diffs with
  | [] => Some None
  | d :: diffs =>
      df ← recs !! d;
      if last_id df <? want then straddling recs want diffs else
      if want <? first_id df then Some None else Some (Some d)
  end.
Fixpoint find_seed (recs : list Record_) (diffs snaps : list nat) (from_diff_pos : nat) : option (option Seed) :=
  match snaps with
  | [] => Some None
  | s :: snaps =>
      sn ← recs !! s;
      d ← straddling recs (u64 (last_id sn + 1)) (drop from_diff_pos diffs);
      match d with Some d => Some (Some (mkSeed s d)) | None => find_seed recs diffs snaps from_diff_pos end
  end.

(** ** The format *)

Inductive Msg :=
  | MDiff (rx f l : Z) (bids asks : list LevelUpdate)
  | MSnapshot (rx l : Z) (bids asks : list LevelUpdate)
  | MTrade (rx p q : Z) (m : bool).
Definition enc_level (l : LevelUpdate) : list Z := pack [(8%nat, u64 (px l)); (8%nat, qty l)].
Definition enc_levels (ls : list LevelUpdate) : list Z := concat (map enc_level ls).
Definition payload (m : Msg) : list Z :=
  match m with
  | MDiff rx f l bs as_ => pack [(1%nat, 1); (3%nat, 0); (8%nat, rx)] ++
      pack [(8%nat, f); (8%nat, l); (4%nat, alen bs); (4%nat, alen as_)] ++ enc_levels (bs ++ as_)
  | MSnapshot rx l bs as_ => pack [(1%nat, 3); (3%nat, 0); (8%nat, rx)] ++
      pack [(8%nat, l); (4%nat, alen bs); (4%nat, alen as_)] ++ enc_levels (bs ++ as_)
  | MTrade rx p q m => pack [(1%nat, 2); (3%nat, 0); (8%nat, rx)] ++ pack [(8%nat, u64 p); (8%nat, q); (1%nat, if m then 1 else 0)] ++ pack [(7%nat, 0)]
  end.
Definition frame (m : Msg) : list Z := le 4 (alen (payload m)) ++ payload m.
Definition capture (pd qd : Z) (ms : list Msg) : list Z := magic ++ pack [(4%nat, 1); (4%nat, pd); (4%nat, qd)] ++ concat (map frame ms).

Definition level_ok (l : LevelUpdate) : Prop := in_i64 (px l) /\ in_u64 (qty l).
Definition msg_ok (m : Msg) : Prop :=
  alen (payload m) < 4294967296 /\
  match m with
  | MDiff rx f l bs as_ => in_u64 rx /\ in_u64 f /\ in_u64 l /\ Forall level_ok (bs ++ as_)
  | MSnapshot rx l bs as_ => in_u64 rx /\ in_u64 l /\ Forall level_ok (bs ++ as_)
  | MTrade rx p q _ => in_u64 rx /\ in_i64 p /\ in_u64 q
  end.

(** [r], a record of the capture [buf], is the message [m]. *)
Definition reads_levels (buf : list Z) (r : Record_) (bs as_ : list LevelUpdate) : Prop :=
  n_bids r = alen bs /\ n_asks r = alen as_ /\ (forall i l, bs !! i = Some l -> bid buf r (Z.of_nat i) = Some l) /\
  (forall i l, as_ !! i = Some l -> ask buf r (Z.of_nat i) = Some l).
Definition reads (buf : list Z) (r : Record_) (m : Msg) : Prop :=
  match m with
  | MDiff rx f l bs as_ => kind r = Diff /\ rx_ns r = rx /\ first_id r = f /\ last_id r = l /\ reads_levels buf r bs as_
  | MSnapshot rx l bs as_ => kind r = Snapshot /\ rx_ns r = rx /\ last_id r = l /\ reads_levels buf r bs as_
  | MTrade rx p q m => kind r = Trade /\ rx_ns r = rx /\ trade_px r = p /\ trade_qty r = q /\ buyer_is_maker r = m
  end.
End Md.

Module MdTheorems.
Import Md.

(** ** Reading what was written *)

Lemma view_at pre x rest off : off = alen pre -> view (pre ++ x ++ rest) off (length x) = Some x.
Proof.
  intros ->. unfold view. rewrite (proj2 (Z.leb_le _ _)) by (unfold alen; lia).
  rewrite (proj2 (Z.leb_le _ _)) by (unfold alen; rewrite !length_app; lia). cbn [andb].
  unfold alen. rewrite Nat2Z.id, drop_app_length, take_app_length. done.
Qed.
Lemma view_pack pre fs rest off n : off = alen pre -> n = sum_list fs.*1 -> view (pre ++ pack fs ++ rest) off n = Some (pack fs).
Proof. intros Hoff ->. rewrite <- length_pack. by apply view_at. Qed.

Lemma length_enc_levels ls : alen (enc_levels ls) = 16 * alen ls.
Proof. unfold alen, enc_levels. induction ls as [|l ls IH]; [done|]. cbn [map concat length]. rewrite length_app. change (length (enc_level l)) with 16%nat. lia. Qed.

Lemma capture_level_at pre ls rest r i l : levels r = alen pre -> Forall level_ok ls -> ls !! i = Some l ->
  level (pre ++ enc_levels ls ++ rest) r (Z.of_nat i) = Some l.
Proof.
  intros Hr Hok Hi. assert (exists l1 l2, ls = l1 ++ l :: l2 /\ i = length l1) as (l1 & l2 & -> & ->).
  { exists (take i ls), (drop (S i) ls). split; [by rewrite take_drop_middle|]. apply lookup_lt_Some in Hi. rewrite length_take. lia. }
  apply Forall_app in Hok as [_ Hok].
  apply Forall_cons in Hok as [[Hp Hq] _]. unfold level. rewrite Hr.
  replace (pre ++ enc_levels (l1 ++ l :: l2) ++ rest) with ((pre ++ enc_levels l1) ++ enc_level l ++ (enc_levels l2 ++ rest))
    by (unfold enc_levels; rewrite map_app, concat_app; cbn [map concat]; by rewrite <- !app_assoc).
  assert (alen pre + Z.of_nat (length l1) * 16 = alen (pre ++ enc_levels l1)) as ->
    by (pose proof (length_enc_levels l1); unfold alen in *; rewrite length_app; lia).
  unfold enc_level. rewrite view_pack by done. cbn [mbind option_bind].
  pose proof (unpack_pack [(8%nat, u64 (px l)); (8%nat, qty l)] []) as Hu. rewrite app_nil_r in Hu. cbn [fmap list_fmap fst snd] in Hu.
  rewrite Hu; [destruct l; cbn; by rewrite i64_u64|]. repeat constructor; unfold fits; simpl; [apply in_u64_u64|apply in_u64_u64|apply Hq|apply Hq].
Qed.

Definition head_of (k rx : Z) : list Z := pack [(1%nat, k); (3%nat, 0); (8%nat, rx)].
Lemma head_reads pre k rx rest : in_u8 k -> in_u64 rx ->
  view (pre ++ head_of k rx ++ rest) (alen pre) 1 = Some (le 1 k) /\ view (pre ++ head_of k rx ++ rest) (alen pre + 4) 8 = Some (le 8 rx) /\
  of_le (le 1 k) = k /\ of_le (le 8 rx) = rx /\ alen (pre ++ head_of k rx) = alen pre + 12.
Proof.
  intros Hk Hrx. split; [|split; [|split; [|split]]].
  - unfold head_of. cbn [pack]. rewrite <- app_assoc. by apply (view_at pre (le 1 k)).
  - assert (pre ++ head_of k rx ++ rest = (pre ++ le 1 k ++ le 3 0) ++ le 8 rx ++ rest) as -> by (unfold head_of; cbn [pack]; by rewrite <- !app_assoc).
    apply (view_at _ (le 8 rx)). unfold alen. rewrite !length_app, !length_le. lia.
  - rewrite of_le_le. apply Z.mod_small. exact Hk.
  - rewrite of_le_le. apply Z.mod_small. exact Hrx.
  - unfold alen, head_of. rewrite length_app, length_pack. simpl. lia.
Qed.

(** The fields after the head, and what follows them. *)
Lemma fields_read pre fs rest : Forall fits fs -> exists b, view (pre ++ pack fs ++ rest) (alen pre) (sum_list fs.*1) = Some b /\ unpack fs.*1 b = fs.*2.
Proof.
  intros Hf. exists (pack fs). split; [by apply view_pack|]. pose proof (unpack_pack fs [] Hf) as Hu. by rewrite app_nil_r in Hu.
Qed.

Lemma reads_levels_at pre bs as_ rest r : levels r = alen pre -> n_bids r = alen bs -> n_asks r = alen as_ -> Forall level_ok (bs ++ as_) ->
  reads_levels (pre ++ enc_levels (bs ++ as_) ++ rest) r bs as_.
Proof.
  intros Hl Hb Ha Hok. split; [done|]. split; [done|]. split; intros i l Hi.
  - apply capture_level_at; [done..|]. by apply lookup_app_l_Some.
  - unfold ask. rewrite Hb. unfold alen. rewrite <- Nat2Z.inj_add. apply capture_level_at; [done..|].
    rewrite lookup_app_r by lia. by replace (length bs + i - length bs)%nat with i by lia.
Qed.

Lemma alen_levels bs as_ : alen (enc_levels (bs ++ as_)) = 16 * (alen bs + alen as_).
Proof. rewrite length_enc_levels. unfold alen. rewrite length_app. lia. Qed.
Lemma count_fits (bs as_ : list LevelUpdate) n : 0 <= n -> n + 16 * (alen bs + alen as_) < 4294967296 ->
  fits (4%nat, alen bs) /\ fits (4%nat, alen as_).
Proof. unfold fits, alen. simpl. lia. Qed.

(** A payload in the buffer: its head, its fields and its levels. *)
Lemma layout pre k rx fs tail rest n ws vs : Forall fits fs -> n = sum_list fs.*1 -> ws = fs.*1 -> vs = fs.*2 -> in_u8 k -> in_u64 rx ->
  let buf := pre ++ (head_of k rx ++ pack fs ++ tail) ++ rest in
  exists b, view buf (alen pre) 1 = Some (le 1 k) /\ view buf (alen pre + 4) 8 = Some (le 8 rx) /\ of_le (le 1 k) = k /\ of_le (le 8 rx) = rx /\
    view buf (alen pre + 12) n = Some b /\ unpack ws b = vs /\
    buf = (pre ++ head_of k rx ++ pack fs) ++ tail ++ rest /\ alen (pre ++ head_of k rx ++ pack fs) = alen pre + 12 + Z.of_nat n /\
    alen (head_of k rx ++ pack fs ++ tail) = 12 + Z.of_nat n + alen tail.
Proof.
  intros Hf -> -> -> Hk Hrx buf. assert (buf = pre ++ head_of k rx ++ (pack fs ++ tail ++ rest)) as Eb by (unfold buf; by rewrite <- !app_assoc).
  destruct (head_reads pre k rx (pack fs ++ tail ++ rest) Hk Hrx) as (V1 & V2 & E1 & E2 & E3).
  destruct (fields_read (pre ++ head_of k rx) fs (tail ++ rest) Hf) as (b & Vb & Ub). exists b. rewrite Eb. repeat (split; [done|]).
  rewrite E3, <- !app_assoc in Vb. split; [exact Vb|]. split; [done|]. split; [by rewrite <- !app_assoc|].
  unfold alen. rewrite !length_app. unfold head_of. rewrite !length_pack. simpl. lia.
Qed.

Lemma parse_message pre m rest : msg_ok m -> exists r, parse (pre ++ payload m ++ rest) (alen pre) (alen (payload m)) = Some (inr r) /\
  reads (pre ++ payload m ++ rest) r m.
Proof.
  intros [Hlen Hok]. destruct m as [rx f l bs as_|rx l bs as_|rx p q m]; cbn [payload] in *.
  - destruct Hok as (Hrx & Hf & Hl & Hls). destruct (count_fits bs as_ 36) as [Fb Fa]; [lia| |].
    { rewrite <- alen_levels. revert Hlen. unfold alen. rewrite !length_app, !length_pack. simpl. lia. }
    destruct (layout pre 1 rx [(8%nat, f); (8%nat, l); (4%nat, alen bs); (4%nat, alen as_)] (enc_levels (bs ++ as_)) rest 24 [8; 8; 4; 4]%nat [f; l; alen bs; alen as_])
      as (b & V1 & V2 & E1 & E2 & Vb & Ub & Eb & El & En); [repeat (apply Forall_cons_2; [assumption|]); apply Forall_nil_2|reflexivity|reflexivity|reflexivity|by unfold in_u8|done|].
    unfold head_of in *. unfold parse. rewrite V1, V2. cbn [mbind option_bind]. rewrite E1, E2, Vb. cbn [mbind option_bind].
    rewrite Ub. unfold check. rewrite En, alen_levels. rewrite (proj2 (Z.eqb_eq _ _)) by (simpl; lia). eexists. split; [done|].
    cbn [reads kind rx_ns first_id last_id]. repeat (split; [done|]). rewrite Eb. apply reads_levels_at; [|done..]. rewrite El. simpl. lia.
  - destruct Hok as (Hrx & Hl & Hls). destruct (count_fits bs as_ 28) as [Fb Fa]; [lia| |].
    { rewrite <- alen_levels. revert Hlen. unfold alen. rewrite !length_app, !length_pack. simpl. lia. }
    destruct (layout pre 3 rx [(8%nat, l); (4%nat, alen bs); (4%nat, alen as_)] (enc_levels (bs ++ as_)) rest 16 [8; 4; 4]%nat [l; alen bs; alen as_])
      as (b & V1 & V2 & E1 & E2 & Vb & Ub & Eb & El & En); [repeat (apply Forall_cons_2; [assumption|]); apply Forall_nil_2|reflexivity|reflexivity|reflexivity|by unfold in_u8|done|].
    unfold head_of in *. unfold parse. rewrite V1, V2. cbn [mbind option_bind]. rewrite E1, E2, Vb. cbn [mbind option_bind].
    rewrite Ub. unfold check. rewrite En, alen_levels. rewrite (proj2 (Z.eqb_eq _ _)) by (simpl; lia). eexists. split; [done|].
    cbn [reads kind rx_ns first_id last_id]. repeat (split; [done|]). rewrite Eb. apply reads_levels_at; [|done..]. rewrite El. simpl. lia.
  - destruct Hok as (Hrx & Hp & Hq).
    destruct (layout pre 2 rx [(8%nat, u64 p); (8%nat, q); (1%nat, if m then 1 else 0)] (pack [(7%nat, 0)]) rest 17 [8; 8; 1]%nat [u64 p; q; if m then 1 else 0])
      as (b & V1 & V2 & E1 & E2 & Vb & Ub & Eb & El & En); [|reflexivity|reflexivity|reflexivity|by unfold in_u8|done|].
    { repeat constructor; unfold fits; simpl; [apply in_u64_u64|apply in_u64_u64|apply Hq|apply Hq|by destruct m|by destruct m]. }
    unfold head_of in *. unfold parse. rewrite V1, V2. cbn [mbind option_bind]. rewrite E1, E2, Vb. cbn [mbind option_bind].
    rewrite Ub. unfold check. rewrite En. rewrite (proj2 (Z.eqb_eq _ _)) by done. rewrite i64_u64 by done. eexists. split; [done|]. cbn. by destruct m.
Qed.

Lemma payload_min m : 12 <= alen (payload m).
Proof. destruct m; cbn [payload]; unfold alen; rewrite length_app, length_pack; simpl; lia. Qed.

Lemma load_messages ms pre fuel : Forall msg_ok ms -> (length ms < fuel)%nat ->
  exists rs, load_records fuel (pre ++ concat (map frame ms)) (alen pre) = Some (inr rs) /\ Forall2 (reads (pre ++ concat (map frame ms))) rs ms.
Proof.
  revert pre fuel. induction ms as [|m ms IH]; intros pre fuel Hok Hf; (destruct fuel as [|fuel]; [simpl in Hf; lia|]); cbn [load_records map concat].
  - exists []. split; [|done]. rewrite app_nil_r. by rewrite (proj2 (Z.leb_gt _ _)) by lia.
  - apply Forall_cons in Hok as [Hm Hok]. set (len := alen (payload m)). set (rest := concat (map frame ms)).
    assert (pre ++ frame m ++ rest = pre ++ le 4 len ++ payload m ++ rest) as E1 by (unfold frame; by rewrite <- app_assoc).
    assert (pre ++ frame m ++ rest = (pre ++ le 4 len) ++ payload m ++ rest) as E2 by (by rewrite E1, <- app_assoc).
    assert (pre ++ frame m ++ rest = (pre ++ frame m) ++ rest) as E3 by (by rewrite <- app_assoc).
    assert (alen (pre ++ frame m ++ rest) = alen pre + 4 + len + alen rest) as El.
    { rewrite E1. unfold len, alen. rewrite !length_app, length_le. lia. }
    assert (alen (pre ++ le 4 len) = alen pre + 4) as Ep by (unfold alen; rewrite length_app, length_le; lia).
    assert (alen (pre ++ frame m) = alen pre + 4 + len) as Eq by (unfold frame, len, alen; rewrite !length_app, length_le; lia).
    assert (of_le (le 4 len) = len) as Elen by (rewrite of_le_le; apply Z.mod_small; split; [apply alen_nonneg|apply Hm]).
    set (buf := pre ++ frame m ++ rest) in *. pose proof (payload_min m) as Hmin. pose proof (alen_nonneg rest) as Hrest. fold len in Hmin.
    assert (view buf (alen pre) 4 = Some (le 4 len)) as -> by (rewrite E1; by apply (view_at pre (le 4 len))).
    destruct (parse_message (pre ++ le 4 len) m rest Hm) as (r & Hp & Hr). rewrite <- E2, Ep in Hp. fold len in Hp. rewrite <- E2 in Hr.
    destruct (IH (pre ++ frame m) fuel Hok ltac:(simpl in Hf; lia)) as (rs & Hl & Hrs). fold rest in Hl, Hrs. rewrite <- E3, Eq in Hl. rewrite <- E3 in Hrs.
    rewrite El, (proj2 (Z.leb_le _ _)) by lia. cbn [negb mbind option_bind]. rewrite Elen, (proj2 (Z.ltb_ge _ _)), (proj2 (Z.ltb_ge len 12)) by lia.
    cbn [orb]. rewrite Hp. cbn [mbind option_bind]. rewrite Hl. exists (r :: rs). split; [done|]. by constructor.
Qed.

(** ** Levels of what was accepted *)

Definition in_buffer (buf : list Z) (r : Record_) : Prop :=
  0 <= levels r /\ 0 <= n_bids r /\ 0 <= n_asks r /\ levels r + (n_bids r + n_asks r) * 16 <= alen buf.

Lemma view_bytes buf off n b : bytes buf -> view buf off n = Some b -> bytes b /\ length b = n.
Proof.
  unfold view. intros Hb. case_if; [|done]. intros [= <-]. split; [by apply bytes_take, bytes_drop|].
  unfold alen in *. rewrite length_take, length_drop. lia.
Qed.
Lemma check_ok len want r r' : check len want r = inr r' -> len = want /\ r' = r.
Proof. unfold check. case_if; intros; by simplify_eq. Qed.

Lemma parse_in_buffer buf p len r : bytes buf -> 0 <= p -> p + len <= alen buf -> 0 <= len -> parse buf p len = Some (inr r) -> in_buffer buf r.
Proof.
  intros Hb Hp Hl Hlen. unfold parse. intros H. inv_bind. repeat (case_match; simplify_eq; inv_bind); unfold in_buffer.
  all: match goal with Hv : view _ _ _ = Some ?b, U : unpack ?ws ?b = _ |- _ =>
    apply view_bytes in Hv as [Hbs Hn]; [|assumption]; pose proof (unpack_bound ws b Hbs ltac:(rewrite Hn; reflexivity || (simpl; lia))) as Hf; rewrite U in Hf; cbn [zip zip_with] in Hf; fields end.
  all: match goal with C : Md.check _ _ _ = inr _ |- _ => apply check_ok in C as [? ->] end; cbn [levels n_bids n_asks]; lia.
Qed.

Lemma records_in_buffer fuel buf off rs : bytes buf -> 0 <= off -> load_records fuel buf off = Some (inr rs) -> Forall (in_buffer buf) rs.
Proof.
  intros Hb. revert off rs. induction fuel as [|fuel IH]; intros off rs Ho H; [done|]. cbn [load_records] in H. case_match; [simplify_eq; constructor|].
  apply bind_Some in H as (b & Hv & H). apply view_bytes in Hv as [Hbb _]; [|done]. pose proof (of_le_bound b Hbb) as Hlen.
  case_match eqn:Ht; [done|]. to_prop. apply bind_Some in H as ([e|r] & Hp & H); [done|]. apply bind_Some in H as ([e|rs'] & Hr & H); simplify_eq.
  constructor; [|eapply IH; [|exact Hr]; lia]. eapply parse_in_buffer; [done| | | |exact Hp]; lia.
Qed.

Lemma level_is_Some buf r i : in_buffer buf r -> 0 <= i < n_bids r + n_asks r -> is_Some (level buf r i).
Proof.
  intros (H1 & H2 & H3 & H4) Hi. unfold level, view. rewrite (proj2 (Z.leb_le _ _)), (proj2 (Z.leb_le _ (alen buf))) by (simpl; lia).
  cbn [andb mbind option_bind]. cbn [unpack]. eauto.
Qed.

(** A capture in the converter's format loads as its messages, level by level; and of any file whatever that loads, every
    level of every record is inside the buffer. *)
Lemma capture_loads : (forall pd qd ms, in_u32 pd -> in_u32 qd -> Forall msg_ok ms ->
    exists rs, load (capture pd qd ms) = Some (inr (rs, pd, qd)) /\ Forall2 (reads (capture pd qd ms)) rs ms) /\
  (forall buf rs pd qd r i, bytes buf -> load buf = Some (inr (rs, pd, qd)) -> r ∈ rs -> 0 <= i < n_bids r + n_asks r -> is_Some (level buf r i)).
Proof.
  split.
  - intros pd qd ms Hpd Hqd Hok. set (pre := magic ++ pack [(4%nat, 1); (4%nat, pd); (4%nat, qd)]).
    assert (capture pd qd ms = pre ++ concat (map frame ms)) as E by (unfold capture, pre; by rewrite <- app_assoc).
    destruct (load_messages ms pre (S (length (capture pd qd ms))) Hok) as (rs & Hl & Hr).
    { rewrite E, length_app. assert (length ms <= length (concat (map frame ms)))%nat; [|lia].
      clear. induction ms as [|m ms IH]; cbn [map concat length]; [lia|]. unfold frame at 1. rewrite !length_app, length_le. lia. }
    exists rs. rewrite <- E in Hl, Hr. split; [|done]. unfold load. rewrite (proj2 (Z.ltb_ge _ _)) by (rewrite E; unfold alen; rewrite length_app; change (length pre) with 16%nat; lia).
    rewrite bool_decide_eq_true_2 by done. cbn [orb negb].
    pose proof (unpack_pack [(4%nat, of_le magic); (4%nat, 1); (4%nat, pd); (4%nat, qd)] (concat (map frame ms))) as Hu.
    cbn [fmap list_fmap fst snd] in Hu. change (capture pd qd ms) with (pack [(4%nat, of_le magic); (4%nat, 1); (4%nat, pd); (4%nat, qd)] ++ concat (map frame ms)) at 1.
    rewrite Hu; [|repeat (apply Forall_cons_2; [first [exact Hpd|exact Hqd|unfold fits; simpl; lia]|]); by apply Forall_nil_2].
    change (1 =? 1) with true. cbn [negb]. change 16 with (alen pre). by rewrite Hl.
  - intros buf rs pd qd r i Hb Hl Hr Hi. unfold load in Hl. case_match; [done|]. repeat (case_match; try done). apply bind_Some in Hl as ([e|rs'] & Hrs & Hl); simplify_eq.
    apply records_in_buffer in Hrs; [|done|lia]. rewrite Forall_forall in Hrs. apply level_is_Some; [by apply Hrs|done].
Qed.

Definition demo_capture : list Msg := [MSnapshot 5 100 [mkLevel 99 7; mkLevel (-3) 2] [mkLevel 101 4]; MDiff 6 100 103 [mkLevel 99 0] []; MTrade 7 101 2 false].
Lemma capture_loads_witness : exists rs, load (capture 2 5 demo_capture) = Some (inr (rs, 2, 5)) /\ Forall2 (reads (capture 2 5 demo_capture)) rs demo_capture.
Proof.
  apply (proj1 capture_loads 2 5 demo_capture); [by unfold in_u32|by unfold in_u32|].
  unfold demo_capture. repeat (apply Forall_cons_2); [..|by apply Forall_nil_2]; (split; [vm_compute; reflexivity|]); cbn [app]; unfold level_ok, in_u64, in_i64;
    rewrite ?Forall_cons, ?Forall_nil; cbn [px qty]; lia.
Defined.

(** The reader looks at the fields of a record before it compares their size with the length: at the end of the file it
    reads past the buffer. *)
Lemma short_record_over_read : load (magic ++ pack [(4%nat, 1); (4%nat, 0); (4%nat, 0)] ++ le 4 12 ++ [1] ++ pack [(3%nat, 0); (8%nat, 0)]) = None.
Proof. reflexivity. Qed.

(** ** The seed of a replay *)

Lemma straddling_spec recs want ds d : straddling recs want ds = Some (Some d) ->
  exists df, recs !! d = Some df /\ d ∈ ds /\ first_id df <= want <= last_id df.
Proof.
  induction ds as [|x ds IH]; [done|]. cbn [straddling]. intros H. apply bind_Some in H as (df & Hx & H). case_match; [|case_match; [done|]].
  - destruct (IH H) as (df' & ? & ? & ?). exists df'. split; [done|]. split; [by right|done].
  - simplify_eq. to_prop. exists df. split; [done|]. split; [by left|lia].
Qed.

(** What [find_seed] finds: a snapshot, and a diff at or after the position asked for that holds the update after it. *)
Lemma find_seed_straddles recs diffs snaps from s d : find_seed recs diffs snaps from = Some (Some (mkSeed s d)) ->
  exists sn df, s ∈ snaps /\ recs !! s = Some sn /\ d ∈ drop from diffs /\ recs !! d = Some df /\ first_id df <= u64 (last_id sn + 1) <= last_id df.
Proof.
  induction snaps as [|x snaps IH]; [done|]. cbn [find_seed]. intros H. apply bind_Some in H as (sn & Hx & H). apply bind_Some in H as ([d'|] & Hd & H); simplify_eq.
  - destruct (straddling_spec _ _ _ _ Hd) as (df & ? & ? & ?). exists sn, df. by split; [left|].
  - destruct (IH H) as (sn' & df & ? & ?). exists sn', df. split; [by right|done].
Qed.
End MdTheorems.
