(* ===== verification/BookApi.v ===== *)
(** * A book, as the programs around the engine use it

    The mirror of a captured book and the replay of an exchange's day run an order book and look at it only through its
    operations. [BookApi] is what they call, [BookApiLaws] what the book promises them: a reference book beside it that
    takes the same steps and gives the same answers. The order book is an instance, over any layout, index and level set.
    The file ends with the steps of a reference book that do not trade, which is all these programs mean to take. *)
From Stdlib Require Import Sorted.
From S2P Require Import Prelude Common Interfaces ReferenceBook OrderBook BookRefine BookEquiv BookRules BookQueries BookLaws Engine.
Import ReferenceBook (Order, o_id, o_qty, o_owner).
Import BookRefine BookEquiv BookQueries.

Class BookApi (Bk : Type) := {
  ba_impl :: BookImpl Bk;
  ba_contains : Bk -> Z -> option bool;
  ba_find_order : Bk -> Z -> option (option OrderView);
  ba_best_bid : Bk -> option Z;
  ba_best_ask : Bk -> option Z;
  ba_for_each_order : Bk -> Side -> option (list (Z * Z * Z));
  ba_for_each_order_at : Bk -> Z -> option (list (Z * Z * Side));
}.

(** The orders of a reference book at one price, of whichever side has it. *)
Definition orders_at (r : RB.t) (px : Z) : list (Z * Z * Side) :=
  s ← [Buy; Sell]; (fun o => (o_id o, o_qty o, s)) <$> default [] (RB.map_find (RB.book r s) px).

#[export] Instance order_book_api {S I B} `{OrderFields S, IdIndex I, LevelSet B} : BookApi (OB.t S I B) := {
  ba_contains := OB.contains;
  ba_find_order := OB.find_order;
  ba_best_bid := OB.best_bid;
  ba_best_ask := OB.best_ask;
  ba_for_each_order := OB.for_each_order;
  ba_for_each_order_at := OB.for_each_order_at;
}.

(** The reference book answers the same questions, on bands no array could hold. *)
#[export] Instance reference_book_api : BookApi RB.t := {
  ba_contains r id := Some (RB.contains r id);
  ba_find_order := RB.find_order;
  ba_best_bid := RB.best_bid;
  ba_best_ask := RB.best_ask;
  ba_for_each_order r s := Some (RB.for_each_order r s);
  ba_for_each_order_at r px := Some (orders_at r px);
}.

Class BookApiLaws (Bk : Type) `{BookApi Bk} := {
  ba_rep : Bk -> RB.t -> Prop;
  ba_rep_make symbol cfg : cfg_ok cfg -> exists b, bk_make symbol cfg = Some b /\ ba_rep b (RB.make symbol cfg);
  ba_rep_wf b r : ba_rep b r -> RB.wf r;
  ba_rep_step b r c : ba_rep b r -> cmd_ok r c ->
    exists b' r' es, bk_step b c = Some (b', es) /\ RB.step r c = Some (r', es) /\ ba_rep b' r';
  ba_rep_contains b r id : ba_rep b r -> ba_contains b id = Some (RB.contains r id);
  ba_rep_find b r id : ba_rep b r -> ba_find_order b id = RB.find_order r id;
  ba_rep_bid b r : ba_rep b r -> ba_best_bid b = RB.best_bid r;
  ba_rep_ask b r : ba_rep b r -> ba_best_ask b = RB.best_ask r;
  ba_rep_orders b r s : ba_rep b r -> ba_for_each_order b s = Some (RB.for_each_order r s);
  ba_rep_at b r px : ba_rep b r -> in_i64 (px - RB.min_price_ r) -> ba_for_each_order_at b px = Some (orders_at r px);
}.

(** ** The order book keeps the promise *)

Section order_book.
Context {S I B : Type} {OF : OrderFields S} {OFL : OrderFieldsLaws S} {IX : IdIndex I} {IXL : IdIndexLaws I}
  {LS : LevelSet B} {LSL : LevelSetLaws B}.
Implicit Types (b : OB.t S I B).

Lemma map_find_none m px : px ∉ RB.prices m -> RB.map_find m px = None.
Proof.
  intros Hn. destruct (RB.map_find m px) as [q|] eqn:E; [|done]. exfalso. apply Hn.
  destruct (RB.map_find_split _ _ _ E) as (m1 & m2 & -> & _). unfold RB.prices. rewrite fmap_app. set_solver.
Qed.

Lemma for_each_order_at_spec b r px : R b r -> in_i64 (px - RB.min_price_ r) -> OB.for_each_order_at b px = Some (orders_at r px).
Proof.
  intros (cap & M & fl & Hr) Hpx. pose proof (rel_wf _ _ _ _ _ Hr) as Hw. unfold OB.for_each_order_at.
  pose proof (rel_min _ _ _ _ _ Hr) as Emin. rewrite sub_price_ok by (by rewrite Emin). cbn [mbind option_bind].
  rewrite (band_spec b r cap M fl px Hr).
  assert (forall s, px ∈ RB.prices (RB.book r s) -> exists q, RB.map_find (RB.book r s) px = Some q /\ (px, q) ∈ RB.book r s) as Hf.
  { intros s Hin. apply list_elem_of_fmap in Hin as ([p q] & -> & Hin). exists q. split; [|done].
    by apply (RB.map_find_elem s); [apply (RB.wf_sorted r Hw)|]. }
  assert (forall q s, RB.map_find (RB.book r s) px = Some q -> (px, q) ∈ RB.book r s -> RB.map_find (RB.book r (opposite s)) px = None ->
    OB.queue_at b (px - OB.min_price_ b) = Some (orders_at r px)) as Hat.
  { intros q s Hq Hin Hno. rewrite (queue_at_spec _ _ _ _ _ _ _ _ Hr Hin). f_equal. unfold orders_at. simpl.
    destruct s; simpl in *; rewrite Hq, Hno; simpl; by rewrite ?app_nil_r. }
  destruct (RB.out_of_band r px) eqn:Eob.
  { f_equal. unfold orders_at. simpl. unfold RB.out_of_band in Eob.
    rewrite !map_find_none; [done| |]; intros Hin; [apply (RB.wf_band r Hw Sell) in Hin|apply (RB.wf_band r Hw Buy) in Hin]; lia. }
  destruct (decide (px ∈ RB.prices (RB.bids_ r))) as [Hb|Hb]; [|destruct (decide (px ∈ RB.prices (RB.asks_ r))) as [Ha|Ha]].
  - destruct (Hf Buy Hb) as (q & Hq & Hin). apply (Hat q Buy Hq Hin), map_find_none. intros Ha.
    pose proof (RB.wf_uncrossed r Hw px px Hb Ha). lia.
  - destruct (Hf Sell Ha) as (q & Hq & Hin). apply (Hat q Sell Hq Hin), map_find_none, Hb.
  - unfold OB.queue_at. unfold RB.out_of_band in Eob. rewrite (rel_max _ _ _ _ _ Hr) in Eob.
    rewrite (rel_empty _ _ _ _ _ Hr); [|lia|by intros []; rewrite <- Emin in *; replace (OB.min_price_ b + _) with px by lia].
    cbn [mbind option_bind]. unfold orders_at. simpl. by rewrite !map_find_none.
Qed.

#[export] Instance order_book_api_laws : BookApiLaws (OB.t S I B).
Proof.
  refine {| ba_rep := R |}.
  - exact make_refines.
  - intros b r (cap & M & fl & Hr). exact (rel_wf _ _ _ _ _ Hr).
  - exact step_refines.
  - intros. by apply contains_spec.
  - intros. by apply find_order_spec.
  - intros. by apply best_bid_spec.
  - intros. by apply best_ask_spec.
  - intros. by apply for_each_order_spec.
  - intros. by apply for_each_order_at_spec.
Defined.
End order_book.

#[export] Instance reference_book_api_laws : BookApiLaws RB.t.
Proof.
  refine {| ba_rep b r := b = r /\ RB.wf r /\ RB.min_price_ r <= RB.max_price_ r |}; try (by intros b r * [-> _]).
  - intros symbol cfg ([[Hn _] _] & Hm & _). exists (RB.make symbol cfg). split_and!; [done|done| |cbn; lia]. apply RB.make_wf; lia.
  - by intros b r (_ & ? & _).
  - intros b r c (-> & Hw & Hb) [_ Hq _]. destruct (RB.step_ok r c Hw Hb Hq) as (r' & es & Hs & Hw' & E).
    exists r', r', es. split_and!; try done. destruct E as (_ & E1 & E2 & _). by rewrite E1, E2.
Defined.

(** ** Steps that do not trade *)

Module Quiet.
Import ReferenceBook.

Lemma map_find_push s m px o p : sorted s m ->
  map_find (map_push_back s m px o) p = if p =? px then Some (default [] (map_find m px) ++ [o]) else map_find m p.
Proof.
  induction m as [|[p0 q] m IH]; intros Hs; simpl; [by rewrite Z.eqb_sym|]. apply sorted_cons in Hs as [Hs Hlt].
  destruct (Z.eqb_spec p0 px) as [->|Hne]; simpl; [by rewrite Z.eqb_sym; destruct (p =? px)|].
  assert (before s px p0 = true -> map_find m px = None) as Hno.
  { intros Hb%before_lt. apply map_find_none. intros Hin. apply (lt_side_irrefl s px). apply (lt_side_trans s _ p0); [done|]. by apply Hlt. }
  destruct (before s px p0); simpl.
  - rewrite Hno by done. rewrite (Z.eqb_sym px p). by destruct (Z.eqb_spec p px).
  - rewrite (IH Hs). destruct (Z.eqb_spec p0 p) as [->|]; [|done]. by rewrite (proj2 (Z.eqb_neq _ _)).
Qed.

Lemma map_find_put s m px q' p : sorted s m -> is_Some (map_find m px) ->
  map_find (map_put m px q') p = if p =? px then (if q' is [] then None else Some q') else map_find m p.
Proof.
  intros Hs Hi. induction m as [|[p0 q] m IH]; simpl in *; [by destruct Hi|]. apply sorted_cons in Hs as [Hs Hlt].
  destruct (Z.eqb_spec p0 px) as [->|Hne].
  - rewrite (Z.eqb_sym p). destruct q'; simpl; destruct (Z.eqb_spec px p) as [->|]; try done.
    apply map_find_none. intros Hin. by apply (lt_side_irrefl s p), Hlt.
  - simpl. rewrite (IH Hs Hi). destruct (Z.eqb_spec p0 p) as [->|]; [|done]. by rewrite (proj2 (Z.eqb_neq _ _)).
Qed.

(** An order that does not cross meets nothing. *)
Lemma match_quiet r taker owner s limit qty stp : crosses r s limit = false -> match_ r taker owner s limit qty stp = (r, qty, false, []).
Proof.
  unfold match_, crosses. intros Hx. assert (match_side (symbol_ r) taker owner s limit stp (book r (opposite s)) (index_ r) qty =
    (book r (opposite s), mkResult (index_ r) qty false [])) as ->; [|by rewrite set_book_id].
  destruct (book r (opposite s)) as [|[p q] m]; simpl; [done|]. by rewrite Hx, andb_false_r.
Qed.

Lemma crosses_false r s limit : wf r -> (forall p, p ∈ prices (book r (opposite s)) -> in_range s limit p = false) -> crosses r s limit = false.
Proof. intros _ Hp. unfold crosses. destruct (book r (opposite s)) as [|[p q] m]; [done|]. apply Hp. set_solver. Qed.

(** A new day limit order that does not cross joins the back of its queue. *)
Definition joined (r : t) (c : Command) : t :=
  set_book r (c_side c) (map_push_back (c_side c) (book r (c_side c)) (c_price c) (mkOrder (c_order_id c) (c_qty c) (c_owner c)))
    (<[c_order_id c := mkLoc (c_side c) (c_price c)]> (index_ r)).

Record joins (r : t) (c : Command) : Prop := {
  jn_type : c_type c = NewOrder /\ c_ord_type c = Limit /\ c_tif c = Day /\ c_flags c = 0;
  jn_id : c_order_id c <> 0;
  jn_qty : 0 < c_qty c;
  jn_band : min_price_ r <= c_price c <= max_price_ r;
  jn_new : index_ r !! c_order_id c = None;
  jn_quiet p : p ∈ prices (book r (opposite (c_side c))) -> in_range (c_side c) (c_price c) p = false;
  jn_room : order_count r < capacity_ r;
}.

Lemma contains_none r id : index_ r !! id = None -> contains r id = false.
Proof. intros H. unfold contains. rewrite H. apply bool_decide_eq_false, is_Some_None. Qed.

Lemma step_joins r c : wf r -> joins r c ->
  step r c = Some (joined r c, [accepted_event (symbol_ r) (c_order_id c) (c_side c) (c_price c) (c_qty c)]) /\
  wf (joined r c) /\ same_cfg r (joined r c).
Proof.
  intros Hw [(Ht & Ho & Hd & Hf) Hid Hq Hb Hn Hx Hr]. pose proof (crosses_false r _ _ Hw Hx) as Hc.
  assert (rest r (c_order_id c) (c_owner c) (c_side c) (c_price c) (c_qty c) = (joined r c, [])) as Hrest.
  { unfold rest. by rewrite (proj2 (Z.leb_gt _ _)) by lia. }
  split; [|by apply (wf_rest r _ _ _ _ _ _ _ Hw Hq Hn Hb Hx Hrest)].
  unfold step, add. rewrite Ht, Ho, Hd, Hf. rewrite (proj2 (Z.eqb_neq _ _) Hid), (proj2 (Z.eqb_neq (c_qty c) 0)) by lia. simpl.
  unfold out_of_band. rewrite (proj2 (Z.ltb_ge _ _)), (proj2 (Z.ltb_ge _ _)) by lia. simpl.
  rewrite (contains_none _ _ Hn), (match_quiet _ _ _ _ _ _ _ Hc). simpl. rewrite (proj2 (Z.eqb_neq (c_qty c) 0)) by lia. by rewrite Hrest.
Qed.

(** A cancel of a live order. *)
Lemma step_cancels r c l : wf r -> c_type c = Cancel -> index_ r !! c_order_id c = Some l ->
  exists r' e, step r c = Some (r', [e]) /\ e_type e = Canceled /\ remove r l (c_order_id c) = Some r' /\ wf r' /\ same_cfg r r' /\
    index_ r' = delete (c_order_id c) (index_ r).
Proof.
  intros Hw Ht Hl. destruct (deref_spec r _ l Hw Hl) as (m1 & q1 & o & q2 & m2 & _ & _ & Hd & _).
  destruct (wf_remove r _ l Hw Hl) as (r' & Hr & Hw' & Hc & Hi). unfold step, cancel. rewrite Ht, Hl, Hd. simpl. rewrite Hr. simpl.
  eexists _, _. split; [done|]. done.
Qed.

Lemma removed_room r r1 id l : wf r -> index_ r !! id = Some l -> index_ r1 = delete id (index_ r) -> capacity_ r1 = capacity_ r ->
  order_count r1 < capacity_ r1.
Proof.
  intros Hw Hl Hi ->. pose proof (wf_cap r Hw) as Hcap. unfold order_count in *. rewrite Hi.
  assert (size (delete id (index_ r)) = pred (size (index_ r))) by (by apply map_size_delete_Some; eauto).
  assert (size (index_ r) <> 0%nat) by (intros Hz%map_size_empty_inv; by rewrite Hz, lookup_empty in Hl). lia.
Qed.

(** A modify that does not cross: in place, or out and back in. *)
Lemma step_modifies r c l o : wf r -> c_type c = Modify -> index_ r !! c_order_id c = Some l -> deref r l (c_order_id c) = Some o ->
  0 < c_qty c -> min_price_ r <= c_price c <= max_price_ r -> c_price c = l_price l ->
  (forall p, p ∈ prices (book r (opposite (l_side l))) -> in_range (l_side l) (c_price c) p = false) ->
  exists r' e, step r c = Some (r', [e]) /\ e_type e = Modified /\ wf r' /\ same_cfg r r' /\ index_ r' = index_ r /\
    exists q, map_find (book r (l_side l)) (l_price l) = Some q /\ book r' (opposite (l_side l)) = book r (opposite (l_side l)) /\
      book r' (l_side l) =
        if c_qty c <=? o_qty o then map_put (book r (l_side l)) (l_price l) (queue_update q (c_order_id c) (c_qty c))
        else map_push_back (l_side l) (map_put (book r (l_side l)) (l_price l) (queue_erase q (c_order_id c))) (l_price l)
               (mkOrder (c_order_id c) (c_qty c) (o_owner o)).
Proof.
  intros Hw Ht Hl Hd Hq Hb Hp Hx. assert (forall m i, book (set_book r (l_side l) m i) (opposite (l_side l)) = book r (opposite (l_side l))) as Hopp.
  { intros. apply book_set_ne. by destruct (l_side l). }
  unfold step, modify. rewrite Ht, Hl, Hd, (proj2 (Z.eqb_neq (c_qty c) 0)) by lia.
  unfold out_of_band. rewrite (proj2 (Z.ltb_ge _ _)), (proj2 (Z.ltb_ge _ _)) by lia. cbn [orb mbind option_bind].
  rewrite Hp, Z.eqb_refl. cbn [andb]. destruct (Z.leb_spec (c_qty c) (o_qty o)).
  - destruct (wf_amend r _ l (c_qty c) Hw Hl Hq) as (q & Hf & Hw'). rewrite Hf. simpl. eexists _, _. split; [done|].
    split_and!; try done; [apply set_book_cfg|apply index_set_book|]. exists q. split_and!; [done|apply Hopp|apply book_set_eq].
  - destruct (wf_remove r _ l Hw Hl) as (r1 & Hr & Hw1 & Hc1 & Hi1). rewrite Hr. cbn [mbind option_bind].
    unfold remove in Hr. destruct (map_find (book r (l_side l)) (l_price l)) as [q|] eqn:Hf; [|done]. simpl in Hr.
    assert (book r1 (opposite (l_side l)) = book r (opposite (l_side l))) as Ho1 by (injection Hr as <-; apply Hopp).
    rewrite (match_quiet r1), (proj2 (Z.eqb_neq (c_qty c) 0)); [|lia|apply crosses_false; [done|rewrite Ho1, <- Hp; exact Hx]].
    destruct (rest r1 (c_order_id c) (o_owner o) (l_side l) (l_price l) (c_qty c)) as [r2 es] eqn:Hrest.
    assert (index_ r1 !! c_order_id c = None) as Hn1 by (rewrite Hi1; apply lookup_delete_eq).
    pose proof Hc1 as (C1 & C2 & C3 & C4 & C5).
    destruct (wf_rest r1 (c_order_id c) (o_owner o) (l_side l) (l_price l) (c_qty c) r2 es Hw1 Hq Hn1) as [Hw2 Hc2];
      [rewrite C2, C3; lia|rewrite Ho1, <- Hp; exact Hx|done|].
    unfold rest in Hrest. rewrite (proj2 (Z.leb_gt _ _) (removed_room r r1 _ l Hw Hl Hi1 C4)) in Hrest. injection Hrest as <- <-. eexists _, _. split; [done|].
    split_and!; try done; [by eapply same_cfg_trans| |exists q; split_and!; [done| |]].
    + rewrite index_set_book, Hi1, insert_delete_eq. apply insert_id. rewrite Hl. by destruct l.
    + rewrite book_set_ne; [done|]. by destruct (l_side l).
    + rewrite book_set_eq. injection Hr as <-. by rewrite book_set_eq.
Qed.
End Quiet.
