(* ===== verification/Mirror.v ===== *)
(** * The mirror of a captured book (md_mirror.hpp)

    [BookMirror] rebuilds an exchange's level-2 book inside the engine: each price level is one order whose quantity is the
    level's total. The mirror runs any book with the laws of [BookApi]; the arrays of level totals are lists, a record's
    levels are read from the capture's bytes. No result is an access out of bounds, a signed overflow or an exception. *)
From S2P Require Import Prelude Common OrderBook Engine Md BookApi.

Module BookMirror.

Section mirror.
Context {Bk : Type} `{BookApi Bk}.

Record t := mk {
  min_px_ : Z;
  n_ : Z;
  max_orders_ : Z;
  bid_qty_ : list Z;
  ask_qty_ : list Z;
  book_ : Bk;
  sink_ : CountingSink.t;
  updates_ : Z;
  out_of_band_ : Z;
  book_full_ : Z;
  drop_counter_ : Z;
  bid_horizon_ : Z;
  ask_horizon_ : Z;
  bid_span0_ : Z;
  ask_span0_ : Z;
}.

Definition set_book (m : t) (b : Bk) (k : CountingSink.t) : t :=
  mk (min_px_ m) (n_ m) (max_orders_ m) (bid_qty_ m) (ask_qty_ m) b k (updates_ m) (out_of_band_ m) (book_full_ m) (drop_counter_ m)
    (bid_horizon_ m) (ask_horizon_ m) (bid_span0_ m) (ask_span0_ m).
Definition set_arrays (m : t) (bids asks : list Z) : t :=
  mk (min_px_ m) (n_ m) (max_orders_ m) bids asks (book_ m) (sink_ m) (updates_ m) (out_of_band_ m) (book_full_ m) (drop_counter_ m)
    (bid_horizon_ m) (ask_horizon_ m) (bid_span0_ m) (ask_span0_ m).
Definition set_counts (m : t) (updates out_of_band book_full drop_counter : Z) : t :=
  mk (min_px_ m) (n_ m) (max_orders_ m) (bid_qty_ m) (ask_qty_ m) (book_ m) (sink_ m) updates out_of_band book_full drop_counter
    (bid_horizon_ m) (ask_horizon_ m) (bid_span0_ m) (ask_span0_ m).
Definition set_horizons (m : t) (bh ah bs as_ : Z) : t :=
  mk (min_px_ m) (n_ m) (max_orders_ m) (bid_qty_ m) (ask_qty_ m) (book_ m) (sink_ m) (updates_ m) (out_of_band_ m) (book_full_ m)
    (drop_counter_ m) bh ah bs as_.

(** [a + b] on signed 64-bit values: an overflow is undefined. *)
Definition add_price (a b : Z) : option Z :=
  if (-9223372036854775808 <=? a + b) && (a + b <? 9223372036854775808) then Some (a + b) else None.

Definition config (min_px n max_orders : Z) : BookConfig := mkBookConfig min_px n max_orders StpNone.
Definition make (center_px num_levels max_orders : Z) : option t :=
  min_px ← sub_price center_px (num_levels / 2);
  b ← bk_make 0 (config min_px num_levels max_orders);
  Some (mk min_px num_levels max_orders (amake num_levels 0) (amake num_levels 0) b CountingSink.init 0 0 0 0 0 0 0 0).
Definition reset_book (m : t) : option t :=
  b ← bk_make 0 (config (min_px_ m) (n_ m) (max_orders_ m)); Some (set_book m b CountingSink.init).

Definition id_for (rel : Z) (side : Side) : Z :=
  u64 (Z.lor (u64 (Z.shiftl (u64 rel) 1)) (match side with Sell => 1 | Buy => 0 end) + 1).

(** [slot], read and written. *)
Definition qtys (m : t) (side : Side) : list Z := match side with Buy => bid_qty_ m | Sell => ask_qty_ m end.
Definition put_qty (m : t) (side : Side) (rel q : Z) : option t :=
  l ← (qtys m side).[rel <- q];
  Some (match side with Buy => set_arrays m l (ask_qty_ m) | Sell => set_arrays m (bid_qty_ m) l end).

Definition out_of_range (m : t) (rel : Z) : bool := (rel <? 0) || (n_ m <=? rel).

Fixpoint count_events (k : CountingSink.t) (es : list Event) : option CountingSink.t :=
  match es with [] => Some k | e :: es => k ← CountingSink.on_event k e; count_events k es end.
(** One command of the book, its events counted by the sink. *)
Definition submit (m : t) (c : Command) : option t :=
  '(b, es) ← bk_step (book_ m) c; k ← count_events (sink_ m) es; Some (set_book m b k).

Definition command (ty : MsgType) (id : Z) (side : Side) (u : Md.LevelUpdate) : Command :=
  mkCommand id (Md.px u) 0 0 (Md.qty u) 0 0 ty side Limit Day 0.

Definition set_level (m : t) (side : Side) (u : Md.LevelUpdate) (allow_add : bool) : option t :=
  rel ← sub_price (Md.px u) (min_px_ m);
  if out_of_range m rel then Some (set_counts m (updates_ m) (u64 (out_of_band_ m + 1)) (book_full_ m) (drop_counter_ m)) else
  let m := set_counts m (u64 (updates_ m + 1)) (out_of_band_ m) (book_full_ m) (drop_counter_ m) in
  cur ← (qtys m side).[rel];
  let id := id_for rel side in
  if Md.qty u =? 0 then
    m ← (if negb (cur =? 0) then submit m (command Cancel id side u) else Some m);
    put_qty m side rel (Md.qty u)
  else if cur =? 0 then
    if negb allow_add then Some m else
    m ← submit m (command NewOrder id side u);
    in_book ← ba_contains (book_ m) id;
    let m := if in_book : bool then m else set_counts m (updates_ m) (out_of_band_ m) (u64 (book_full_ m + 1)) (drop_counter_ m) in
    put_qty m side rel (Md.qty u)
  else
    m ← submit m (command Modify id side u);
    put_qty m side rel (Md.qty u).

Definition touch (m : t) (side : Side) (u : Md.LevelUpdate) (pass : Z) (drop_every : Z) : option t :=
  let m := if negb (drop_every =? 0) then set_counts m (updates_ m) (out_of_band_ m) (book_full_ m) (u64 (drop_counter_ m + 1)) else m in
  if negb (drop_every =? 0) && (drop_counter_ m mod drop_every =? 0) then Some m else
  rel ← sub_price (Md.px u) (min_px_ m);
  if out_of_range m rel then
    Some (if pass =? 0 then set_counts m (updates_ m) (u64 (out_of_band_ m + 1)) (book_full_ m) (drop_counter_ m) else m)
  else
  cur ← (qtys m side).[rel];
  let reduces := Md.qty u <? cur in
  if (pass =? 0) && reduces then set_level m side u false else
  if (pass =? 1) && negb reduces then set_level m side u true else Some m.

(** [for (i = 0; i < n; ++i) f(get(i))]. *)
Definition each (n : Z) (get : Z -> option Md.LevelUpdate) (f : t -> Md.LevelUpdate -> option t) (m : t) : option t :=
  foldl (fun m i => m ← m; u ← get i; f m u) (Some m) (seqZ 0 n).

Definition seed (buf : list Z) (snap : Md.Record_) (m : t) : option t :=
  let nb := Md.n_bids snap in
  let na := Md.n_asks snap in
  m ← reset_book (set_arrays m (amake (n_ m) 0) (amake (n_ m) 0));
  m ← each nb (Md.bid buf snap) (fun m u => set_level m Buy u true) m;
  m ← each na (Md.ask buf snap) (fun m u => set_level m Sell u true) m;
  bh ← (if nb =? 0 then Some (min_px_ m) else u ← Md.bid buf snap (nb - 1); Some (Md.px u));
  ah ← (if na =? 0 then add_price (min_px_ m) (n_ m) else u ← Md.ask buf snap (na - 1); Some (Md.px u));
  bs ← (if nb =? 0 then Some 0 else u ← Md.bid buf snap 0; sub_price (Md.px u) bh);
  as_ ← (if na =? 0 then Some 0 else u ← Md.ask buf snap 0; sub_price ah (Md.px u));
  Some (set_horizons m bh ah bs as_).

Definition apply_pass (buf : list Z) (diff : Md.Record_) (drop_every pass : Z) (m : t) : option t :=
  m ← each (Md.n_bids diff) (Md.bid buf diff) (fun m u => touch m Buy u pass drop_every) m;
  each (Md.n_asks diff) (Md.ask buf diff) (fun m u => touch m Sell u pass drop_every) m.
Definition apply (buf : list Z) (diff : Md.Record_) (drop_every : Z) (m : t) : option t :=
  m ← apply_pass buf diff drop_every 0 m; apply_pass buf diff drop_every 1 m.

(** ** Queries *)

Definition level_updates (m : t) : Z := updates_ m.
Definition out_of_band (m : t) : Z := out_of_band_ m.
Definition phantom_trades (m : t) : option Z := CountingSink.count (sink_ m) Trade.
Definition rejects (m : t) : option Z := CountingSink.count (sink_ m) Rejected.
Definition book_full (m : t) : Z := book_full_ m.

Definition needs_reseed (m : t) : option bool :=
  match ba_best_bid (book_ m), ba_best_ask (book_ m) with
  | Some bb, Some ba =>
      a ← sub_price (ask_horizon_ m) ba; a2 ← add_price a a;
      if a2 <? ask_span0_ m then Some true else
      b ← sub_price bb (bid_horizon_ m); b2 ← add_price b b; Some (b2 <? bid_span0_ m)
  | _, _ => Some true
  end.

Definition qty_at (m : t) (side : Side) (px : Z) : option Z :=
  rel ← sub_price px (min_px_ m); if out_of_range m rel then Some 0 else (qtys m side).[rel].

(** The horizon of a side, and the visitor of [top]: [out] with its last entry first. *)
Definition beyond (m : t) (side : Side) (p : Z) : bool :=
  match side with Buy => p <? bid_horizon_ m | Sell => ask_horizon_ m <? p end.
Definition top_visit (m : t) (side : Side) (n : nat) (within_horizon : bool) (out : list (Z * Z)) (x : Z * Z * Z) : list (Z * Z) :=
  let '(p, _, q) := x in
  if within_horizon && beyond m side p then out else
  match out with
  | (p', q') :: out' => if p' =? p then (p', u64 (q' + q)) :: out' else if (length out <? n)%nat then (p, q) :: out else out
  | [] => if (0 <? n)%nat then [(p, q)] else []
  end.
Definition top (m : t) (side : Side) (n : nat) (within_horizon : bool) : option (list (Z * Z)) :=
  l ← ba_for_each_order (book_ m) side; Some (rev (foldl (top_visit m side n within_horizon) [] l)).
End mirror.
Arguments t : clear implicits.
End BookMirror.
