(* ===== verification/MirrorLaws.v ===== *)
(** * The mirror of a captured book is faithful (md_mirror.hpp)

    Whatever snapshots and diffs it is given, the mirror's book has one order for each level, no command of the mirror trades
    or is rejected, and within the horizon of its last seed the mirror shows the market. *)
From Stdlib Require Import Sorted.
From S2P Require Import Prelude Common Interfaces PriceBitmap OrderStore OrderIndex ReferenceBook OrderBook.
From S2P Require Import BookRefine BookEquiv BookLaws Engine Md BookApi Mirror.
Import ReferenceBook (Order, o_id, o_qty, o_owner).
Import BookRefine BookEquiv.
Import (hints) PriceBitmap HybridStore HybridLaws OrderIndex.

Module MirrorLaws.
Import BookMirror.
Import (hints) Quiet.

(** The non-empty levels of a book, by side. *)
Abbreviation sides := (Side -> gmap Z Z).
Definition upd (C : sides) (s : Side) (px q : Z) : sides := fun s' =>
  if decide (s' = s) then (if q =? 0 then delete px (C s) else <[px := q]> (C s)) else C s'.
Definition total (C : sides) : Z := Z.of_nat (size (C Buy)) + Z.of_nat (size (C Sell)).

Lemma upd_lookup C s px q s' p : upd C s px q s' !! p =
  if decide (s' = s /\ p = px) then (if q =? 0 then None else Some q) else C s' !! p.
Proof.
  unfold upd. destruct (decide (s' = s)) as [->|]; [|rewrite decide_False; [done|naive_solver]].
  destruct (decide (s = s /\ p = px)) as [[_ ->]|Hn].
  - destruct (q =? 0); [apply lookup_delete_eq|apply lookup_insert_eq].
  - assert (p <> px) by naive_solver. destruct (q =? 0); [apply lookup_delete_ne|apply lookup_insert_ne]; congruence.
Qed.

Lemma id_for_eq rel s : 0 <= rel < 4294967296 -> id_for rel s = 2 * rel + (match s with Sell => 1 | Buy => 0 end) + 1.
Proof.
  intros Hr. unfold id_for. rewrite (u64_small rel) by (words; lia). rewrite Z.shiftl_mul_pow2 by lia. change (2 ^ 1) with 2.
  rewrite (u64_small (rel * 2)) by (words; lia).
  assert (Z.lor (rel * 2) (match s with Sell => 1 | Buy => 0 end) = 2 * rel + match s with Sell => 1 | Buy => 0 end) as ->.
  { destruct s; [rewrite Z.lor_0_r; lia|]. rewrite Z.mul_comm. destruct rel as [|p|p]; [done|done|lia]. }
  rewrite u64_small; [lia|]. words. destruct s; lia.
Qed.

(** What the counting sink has not seen. *)
Definition quiet_sink (k : CountingSink.t) : Prop :=
  alen (CountingSink.by_type_ k) = 8 /\ CountingSink.count k Trade = Some 0 /\ CountingSink.count k Rejected = Some 0.

Lemma quiet_event k e : quiet_sink k -> e_type e <> Trade -> e_type e <> Rejected -> exists k', CountingSink.on_event k e = Some k' /\ quiet_sink k'.
Proof.
  intros (Hl & Ht & Hr) H1 H2. unfold CountingSink.on_event, quiet_sink, CountingSink.count in *.
  assert (0 <= Z.land (EventType_to_Z (e_type e)) 7 < alen (CountingSink.by_type_ k)) as Hi by (rewrite Hl; by destruct (e_type e)).
  aget_ex (CountingSink.by_type_ k) (Z.land (EventType_to_Z (e_type e)) 7) n Hn; [done|]. rewrite Hn. cbn [mbind option_bind].
  aset_ex (CountingSink.by_type_ k) (Z.land (EventType_to_Z (e_type e)) 7) (u64 (n + 1)) l Hset; [done|]. rewrite Hset. cbn [mbind option_bind].
  eexists. split; [done|]. simpl. rewrite (alen_aset _ _ _ _ Hset), !(aget_aset _ _ _ _ _ Hset).
  by destruct (e_type e).
Qed.

Section laws.
Context {Bk : Type} `{BookApiLaws Bk}.
Implicit Types (m : t Bk) (C D T : sides) (s : Side) (u : Md.LevelUpdate) (us : list Md.LevelUpdate).

(** The reference book beside the mirror's book has one order for each level of [C]. *)
Record shows m (r : RB.t) C : Prop := {
  sh_min : RB.min_price_ r = min_px_ m;
  sh_max : RB.max_price_ r = min_px_ m + n_ m - 1;
  sh_cap : RB.capacity_ r = max_orders_ m;
  sh_count : RB.order_count r = total C;
  sh_find s px : RB.map_find (RB.book r s) px = (fun q => [RB.mkOrder (id_for (px - min_px_ m) s) q 0]) <$> C s !! px;
}.

Record holds m C : Prop := {
  hd_cfg : cfg_ok (config (min_px_ m) (n_ m) (max_orders_ m));
  hd_book : exists r, ba_rep (book_ m) r /\ shows m r C;
  hd_len s : alen (qtys m s) = n_ m;
  hd_qty s rel : 0 <= rel < n_ m -> (qtys m s).[rel] = Some (default 0 (C s !! (min_px_ m + rel)));
  hd_band s px q : C s !! px = Some q -> 0 < q /\ min_px_ m <= px < min_px_ m + n_ m;
  hd_sink : quiet_sink (sink_ m);
  hd_full : book_full_ m = 0;
}.

(** What the operations keep. *)
Definition same_shape m m' : Prop :=
  min_px_ m' = min_px_ m /\ n_ m' = n_ m /\ max_orders_ m' = max_orders_ m /\
  bid_horizon_ m' = bid_horizon_ m /\ ask_horizon_ m' = ask_horizon_ m /\ bid_span0_ m' = bid_span0_ m /\ ask_span0_ m' = ask_span0_ m.

Lemma band_u32 m C s px q : holds m C -> C s !! px = Some q -> 0 <= px - min_px_ m < 4294967296.
Proof.
  intros Hh Hc. destruct (hd_band m C Hh s px q Hc) as [_ Hb]. pose proof (hd_cfg _ _ Hh) as ([[? ?] _] & _). simpl in *. lia.
Qed.

Lemma shows_prices m r C s px : RB.wf r -> shows m r C -> px ∈ RB.prices (RB.book r s) <-> is_Some (C s !! px).
Proof.
  intros Hw Hs. pose proof (sh_find m r C Hs s px) as Hf. split.
  - intros ([p q] & -> & Hin)%list_elem_of_fmap. apply (RB.map_find_elem s) in Hin; [|apply (RB.wf_sorted r Hw)]. simpl in *.
    rewrite Hf in Hin. destruct (C s !! p); [eauto|done].
  - intros [q Hq]. rewrite Hq in Hf. simpl in Hf. apply (RB.map_find_elem s) in Hf; [|apply (RB.wf_sorted r Hw)].
    apply list_elem_of_fmap. by eexists (px, _).
Qed.

Lemma shows_index m r C s px q : RB.wf r -> shows m r C -> C s !! px = Some q ->
  RB.index_ r !! id_for (px - min_px_ m) s = Some (RB.mkLoc s px) /\
  RB.deref r (RB.mkLoc s px) (id_for (px - min_px_ m) s) = Some (RB.mkOrder (id_for (px - min_px_ m) s) q 0).
Proof.
  intros Hw Hs Hc. pose proof (sh_find m r C Hs s px) as Hf. rewrite Hc in Hf. simpl in Hf. split.
  - apply (RB.wf_index r Hw _ (RB.mkLoc s px)). apply RB.elem_of_keys. simpl.
    exists [RB.mkOrder (id_for (px - min_px_ m) s) q 0], (RB.mkOrder (id_for (px - min_px_ m) s) q 0).
    split; [by apply (RB.map_find_elem s); [apply (RB.wf_sorted r Hw)|]|]. split; [set_solver|done].
  - unfold RB.deref. simpl. rewrite Hf. simpl. by rewrite Z.eqb_refl.
Qed.

Lemma shows_new m r C s px : holds m C -> RB.wf r -> shows m r C -> C s !! px = None -> 0 <= px - min_px_ m < n_ m ->
  RB.index_ r !! id_for (px - min_px_ m) s = None.
Proof.
  intros Hh Hw Hs Hc Hpx. destruct (RB.index_ r !! _) as [l|] eqn:Hl; [|done]. exfalso.
  apply (RB.wf_index r Hw) in Hl as (q & o & Hq & Ho & Hid)%RB.elem_of_keys.
  apply (RB.map_find_elem (RB.l_side l)) in Hq; [|apply (RB.wf_sorted r Hw)]. rewrite (sh_find m r C Hs) in Hq.
  destruct (C (RB.l_side l) !! RB.l_price l) as [v|] eqn:Hv; [|done]. simpl in Hq. injection Hq as <-.
  apply list_elem_of_singleton in Ho as ->. simpl in Hid. pose proof (hd_cfg _ _ Hh) as ([[? ?] _] & _). simpl in *.
  pose proof (band_u32 _ _ _ _ _ Hh Hv). rewrite !id_for_eq in Hid by lia.
  assert (RB.l_side l = s /\ RB.l_price l = px) as [E1 E2]; [|rewrite E1, E2 in Hv; congruence].
  destruct (RB.l_side l), s; split; try done; lia.
Qed.

(** *** One command of the book *)

Lemma total_upd C s px q : total (upd C s px q) = total C - (if C s !! px is Some _ then 1 else 0) + (if q =? 0 then 0 else 1).
Proof.
  assert (Z.of_nat (size (upd C s px q s)) =
    Z.of_nat (size (C s)) - (if C s !! px is Some _ then 1 else 0) + (if q =? 0 then 0 else 1)) as Hs.
  { unfold upd. rewrite decide_True by done. destruct (C s !! px) as [v|] eqn:Hv; destruct (q =? 0).
    - assert (size (delete px (C s)) = pred (size (C s))) as -> by (by apply map_size_delete_Some; eauto).
      assert (size (C s) <> 0%nat) by (intros Hz%map_size_empty_inv; by rewrite Hz, lookup_empty in Hv). lia.
    - rewrite map_size_insert_Some by eauto. lia.
    - rewrite map_size_delete_None by done. lia.
    - rewrite map_size_insert_None by done. lia. }
  unfold total. assert (forall s', s' <> s -> upd C s px q s' = C s') as Ho by (intros; unfold upd; by rewrite decide_False).
  destruct s; [rewrite (Ho Sell) by done|rewrite (Ho Buy) by done]; lia.
Qed.

Lemma count_delete r r' id l : RB.index_ r !! id = Some l -> RB.index_ r' = delete id (RB.index_ r) -> RB.order_count r' = RB.order_count r - 1.
Proof.
  intros Hl Hi. unfold RB.order_count. rewrite Hi.
  assert (size (delete id (RB.index_ r)) = pred (size (RB.index_ r))) as -> by (by apply map_size_delete_Some; eauto).
  assert (size (RB.index_ r) <> 0%nat) by (intros Hz%map_size_empty_inv; by rewrite Hz, lookup_empty in Hl). lia.
Qed.

Lemma shows_step m r r' C s px q : shows m r C -> RB.same_cfg r r' -> RB.order_count r' = total (upd C s px q) ->
  (forall p, RB.map_find (RB.book r' s) p = if p =? px then (if q =? 0 then None else Some [RB.mkOrder (id_for (px - min_px_ m) s) q 0])
    else RB.map_find (RB.book r s) p) ->
  RB.book r' (opposite s) = RB.book r (opposite s) -> shows m r' (upd C s px q).
Proof.
  intros [H1 H2 H3 _ H5] (_ & E2 & E3 & E4 & _) Hn Hf Ho. split; [congruence..|done|]. intros s' p. rewrite upd_lookup.
  destruct (BookLaws.BookLaws.sides s s') as [-> | ->].
  - rewrite Hf, H5. destruct (Z.eqb_spec p px) as [->|]; [rewrite decide_True by done; by destruct (q =? 0)|].
    rewrite decide_False; [done|naive_solver].
  - rewrite Ho, H5, decide_False; [done|]. by destruct s; intros [? _].
Qed.

Lemma quiet_opposite m r C s px : RB.wf r -> shows m r C -> (forall p, is_Some (C (opposite s) !! p) -> RB.in_range s px p = false) ->
  forall p, p ∈ RB.prices (RB.book r (opposite s)) -> RB.in_range s px p = false.
Proof. intros Hw Hs Hq p Hp. by apply Hq, (shows_prices m r). Qed.

Lemma cancel_effect m r C s u v : holds m C -> RB.wf r -> shows m r C -> C s !! Md.px u = Some v ->
  exists r' e, RB.step r (command Cancel (id_for (Md.px u - min_px_ m) s) s u) = Some (r', [e]) /\ e_type e = Canceled /\
    shows m r' (upd C s (Md.px u) 0).
Proof.
  intros Hh Hw Hs Hc. destruct (shows_index _ _ _ _ _ _ Hw Hs Hc) as [Hi Hd].
  destruct (Quiet.step_cancels r (command Cancel (id_for (Md.px u - min_px_ m) s) s u) _ Hw eq_refl Hi)
    as (r' & e & Hst & He & Hr & Hw' & Hcfg & Hix). exists r', e. split; [done|]. split; [done|].
  unfold RB.remove in Hr. simpl in Hr, Hix. rewrite (sh_find m r C Hs), Hc in Hr. simpl in Hr. rewrite Z.eqb_refl in Hr. injection Hr as <-.
  apply (shows_step m r); try done; simpl.
  - rewrite (count_delete r _ _ _ Hi Hix), total_upd, Hc, (sh_count _ _ _ Hs). simpl. lia.
  - intros p. rewrite RB.book_set_eq, (Quiet.map_find_put s); [done|apply (RB.wf_sorted r Hw)|]. rewrite (sh_find m r C Hs), Hc. eauto.
  - rewrite RB.book_set_ne; [done|]. by destruct s.
Qed.

Lemma add_effect m r C s u : holds m C -> RB.wf r -> shows m r C -> C s !! Md.px u = None -> 0 < Md.qty u ->
  0 <= Md.px u - min_px_ m < n_ m -> total C < max_orders_ m ->
  (forall p, is_Some (C (opposite s) !! p) -> RB.in_range s (Md.px u) p = false) ->
  exists r' e, RB.step r (command NewOrder (id_for (Md.px u - min_px_ m) s) s u) = Some (r', [e]) /\ e_type e = Accepted /\
    shows m r' (upd C s (Md.px u) (Md.qty u)) /\ RB.contains r' (id_for (Md.px u - min_px_ m) s) = true.
Proof.
  intros Hh Hw Hs Hc Hq Hb Hr Hx. set (c := command NewOrder (id_for (Md.px u - min_px_ m) s) s u).
  pose proof (hd_cfg _ _ Hh) as ([[_ Hn] _] & _). simpl in Hn.
  assert (RB.index_ r !! c_order_id c = None) as Hnew by (by apply (shows_new m r C)).
  assert (Quiet.joins r c) as Hj.
  { split; try done; simpl.
    - rewrite id_for_eq by lia. destruct s; lia.
    - rewrite (sh_min _ _ _ Hs), (sh_max _ _ _ Hs). lia.
    - by apply (quiet_opposite m r C).
    - by rewrite (sh_count _ _ _ Hs), (sh_cap _ _ _ Hs). }
  destruct (Quiet.step_joins r c Hw Hj) as (Hst & Hw' & Hcfg). eexists _, _. split; [exact Hst|]. split; [done|].
  split; [|unfold RB.contains, Quiet.joined; rewrite RB.index_set_book, lookup_insert_eq; by apply bool_decide_eq_true].
  apply (shows_step m r); try done; unfold Quiet.joined; simpl.
  - rewrite total_upd, Hc, (proj2 (Z.eqb_neq (Md.qty u) 0)) by lia. unfold RB.order_count. rewrite RB.index_set_book.
    rewrite map_size_insert_None by done. pose proof (sh_count _ _ _ Hs) as Hn'. unfold RB.order_count in Hn'. lia.
  - intros p. rewrite RB.book_set_eq, Quiet.map_find_push by apply (RB.wf_sorted r Hw). rewrite (sh_find m r C Hs), Hc. simpl.
    by rewrite (proj2 (Z.eqb_neq (Md.qty u) 0)) by lia.
  - rewrite RB.book_set_ne; [done|]. by destruct s.
Qed.

Lemma modify_effect m r C s u v : holds m C -> RB.wf r -> shows m r C -> C s !! Md.px u = Some v -> 0 < Md.qty u ->
  (forall p, is_Some (C (opposite s) !! p) -> RB.in_range s (Md.px u) p = false) ->
  exists r' e, RB.step r (command Modify (id_for (Md.px u - min_px_ m) s) s u) = Some (r', [e]) /\ e_type e = Modified /\
    shows m r' (upd C s (Md.px u) (Md.qty u)).
Proof.
  intros Hh Hw Hs Hc Hq Hx. set (c := command Modify (id_for (Md.px u - min_px_ m) s) s u).
  destruct (shows_index _ _ _ _ _ _ Hw Hs Hc) as [Hi Hd]. destruct (hd_band _ _ Hh _ _ _ Hc) as [_ Hb].
  destruct (Quiet.step_modifies r c _ _ Hw eq_refl Hi Hd Hq) as (r' & e & Hst & He & Hw' & Hcfg & Hix & q & Hf & Ho & Hbk);
    [rewrite (sh_min _ _ _ Hs), (sh_max _ _ _ Hs); simpl; lia|done|by apply (quiet_opposite m r C)|].
  exists r', e. split; [done|]. split; [done|]. simpl in *.
  assert (q = [RB.mkOrder (id_for (Md.px u - min_px_ m) s) v 0]) as -> by (rewrite (sh_find m r C Hs), Hc in Hf; by injection Hf).
  assert (is_Some (RB.map_find (RB.book r s) (Md.px u))) as Hsome by (rewrite Hf; eauto).
  pose proof (RB.wf_sorted r Hw s) as Hsort. apply (shows_step m r); try done.
  - rewrite total_upd, Hc, (proj2 (Z.eqb_neq (Md.qty u) 0)) by lia. unfold RB.order_count. rewrite Hix.
    pose proof (sh_count _ _ _ Hs) as Hn. unfold RB.order_count in Hn. lia.
  - intros p. rewrite Hbk, (proj2 (Z.eqb_neq (Md.qty u) 0)) by lia. simpl. rewrite Z.eqb_refl. destruct (Md.qty u <=? v).
    + by rewrite (Quiet.map_find_put s).
    + rewrite Quiet.map_find_push, !(Quiet.map_find_put s), Z.eqb_refl; try done; [by destruct (p =? Md.px u)|].
      destruct (RB.map_find_split _ _ _ Hf) as (m1 & m2 & Hm & Hput). rewrite Hput. rewrite Hm in Hsort.
      apply (RB.sorted_middle s m1 (Md.px u) [RB.mkOrder (id_for (Md.px u - min_px_ m) s) v 0] []); [by right|done].
Qed.

(** *** One level *)

Lemma shape_trans m1 m2 m3 : same_shape m1 m2 -> same_shape m2 m3 -> same_shape m1 m3.
Proof. unfold same_shape. intuition congruence. Qed.

Lemma submit_ok m r c r' e : ba_rep (book_ m) r -> quiet_sink (sink_ m) -> cmd_ok r c -> RB.step r c = Some (r', [e]) ->
  e_type e <> Trade -> e_type e <> Rejected ->
  exists b k, submit m c = Some (set_book m b k) /\ ba_rep b r' /\ quiet_sink k.
Proof.
  intros Hr Hk Hc Hst H1 H2. destruct (ba_rep_step _ _ _ Hr Hc) as (b & r2 & es & Hb & Hst' & Hr'). rewrite Hst in Hst'.
  injection Hst' as <- <-. unfold submit. rewrite Hb. cbn [mbind option_bind count_events].
  destruct (quiet_event _ _ Hk H1 H2) as (k & -> & Hk'). cbn [mbind option_bind]. eauto.
Qed.

Lemma command_ok m r C ty s u id : shows m r C -> in_i64 (Md.px u - min_px_ m) -> 0 <= Md.qty u -> cmd_ok r (command ty id s u).
Proof. intros Hs Hp Hq. split; [by rewrite (sh_min _ _ _ Hs)|done|]. intros _ Ht. done. Qed.

Lemma put_ok m m1 C s px q : holds m C -> same_shape m m1 -> (forall s', qtys m1 s' = qtys m s') ->
  (exists r', ba_rep (book_ m1) r' /\ shows m r' (upd C s px q)) -> quiet_sink (sink_ m1) -> book_full_ m1 = 0 ->
  0 <= q -> 0 <= px - min_px_ m < n_ m ->
  exists m', put_qty m1 s (px - min_px_ m) q = Some m' /\ holds m' (upd C s px q) /\ same_shape m m'.
Proof.
  intros Hh (E1 & E2 & E3 & E4 & E5 & E6 & E7) Ha (r' & Hr' & Hs') Hk Hf Hq Hpx. unfold put_qty.
  aset_ex (qtys m1 s) (px - min_px_ m) q l Hl; [by rewrite Ha, (hd_len _ _ Hh)|]. rewrite Hl. cbn [mbind option_bind].
  set (m' := match s with Buy => _ | Sell => _ end). exists m'. split; [done|].
  assert (qtys m' s = l /\ qtys m' (opposite s) = qtys m (opposite s)) as [Hq1 Hq2].
  { rewrite <- (Ha (opposite s)). unfold m'. by destruct s. }
  assert (min_px_ m' = min_px_ m /\ n_ m' = n_ m /\ max_orders_ m' = max_orders_ m /\ book_ m' = book_ m1 /\ sink_ m' = sink_ m1 /\
    book_full_ m' = book_full_ m1 /\ same_shape m m') as (F1 & F2 & F3 & F4 & F5 & F6 & F7).
  { unfold m', same_shape. by destruct s. }
  clearbody m'. split; [|done]. split.
  - rewrite F1, F2, F3. apply Hh.
  - exists r'. rewrite F4. split; [done|]. destruct Hs' as [S1 S2 S3 S4 S5]. split; rewrite ?F1, ?F2, ?F3; done.
  - intros s'. rewrite F2. destruct (BookLaws.BookLaws.sides s s') as [-> | ->]; [|rewrite Hq2; apply Hh].
    rewrite Hq1, (alen_aset _ _ _ _ Hl), Ha. apply Hh.
  - intros s' rel. rewrite F1, F2, upd_lookup. intros Hrel. destruct (BookLaws.BookLaws.sides s s') as [-> | ->].
    + rewrite Hq1, (aget_aset _ _ _ _ _ Hl), Ha. destruct (Z.eqb_spec rel (px - min_px_ m)).
      * rewrite decide_True by (split; [done|lia]). destruct (Z.eqb_spec q 0); [by subst|done].
      * rewrite decide_False by (intros [_ ?]; lia). by apply Hh.
    + rewrite Hq2, decide_False by (by destruct s; intros [? _]). by apply Hh.
  - intros s' p v. rewrite upd_lookup, F1, F2. destruct (decide _) as [[-> ->]|_]; [|apply Hh].
    destruct (Z.eqb_spec q 0); [done|]. intros [= <-]. lia.
  - by rewrite F5.
  - by rewrite F6.
Qed.

Lemma holds_counts m C a b d : holds m C -> holds (set_counts m a b (book_full_ m) d) C /\ same_shape m (set_counts m a b (book_full_ m) d).
Proof.
  intros [H1 (r & Hr & [S1 S2 S3 S4 S5]) H3 H4 H5 H6 H7]. split; [|done]. split; try done. exists r. split; [done|]. by split.
Qed.

Definition in_band m (px : Z) : Prop := 0 <= px - min_px_ m < n_ m.
#[global] Instance in_band_dec m px : Decision (in_band m px).
Proof. unfold in_band. solve_decision. Defined.
(** The levels after an update: a price outside the band is not held. *)
Definition put m C s u : sides := if decide (in_band m (Md.px u)) then upd C s (Md.px u) (Md.qty u) else C.

Lemma out_of_range_spec m px : out_of_range m (px - min_px_ m) = negb (bool_decide (in_band m px)).
Proof. unfold out_of_range, in_band. case_bool_decide; simpl; lia. Qed.

(** A command whose one event is neither a trade nor a rejection, and the new quantity of the level. *)
Lemma submit_put m r C s u ty r' e : holds m C -> ba_rep (book_ m) r -> shows m r C -> in_i64 (Md.px u - min_px_ m) -> 0 <= Md.qty u ->
  in_band m (Md.px u) -> RB.step r (command ty (id_for (Md.px u - min_px_ m) s) s u) = Some (r', [e]) -> e_type e <> Trade -> e_type e <> Rejected ->
  shows m r' (upd C s (Md.px u) (Md.qty u)) ->
  exists b k m', submit m (command ty (id_for (Md.px u - min_px_ m) s) s u) = Some (set_book m b k) /\ ba_rep b r' /\
    put_qty (set_book m b k) s (Md.px u - min_px_ m) (Md.qty u) = Some m' /\ holds m' (upd C s (Md.px u) (Md.qty u)) /\ same_shape m m'.
Proof.
  intros Hh Hr Hs Hp Hq Hb Hst H1 H2 Hs'.
  destruct (submit_ok m r _ r' e Hr (hd_sink _ _ Hh) (command_ok _ _ _ ty s u _ Hs Hp Hq) Hst H1 H2) as (b & k & Hsub & Hb' & Hk').
  destruct (put_ok m (set_book m b k) C s (Md.px u) (Md.qty u)) as (m' & ? & ? & ?); try done; [by exists r'|apply Hh|]. eauto 10.
Qed.

(** A level that is not held and stays empty. *)
Lemma shows_same m r C s px : shows m r C -> C s !! px = None -> shows m r (upd C s px 0).
Proof.
  intros [S1 S2 S3 S4 S5] Hc. split; try done; [rewrite total_upd, Hc; simpl; lia|].
  intros s' p. rewrite upd_lookup, S5. destruct (decide _) as [[-> ->]|]; [|done]. by rewrite Hc.
Qed.

Lemma set_level_ok m C s u allow : holds m C -> in_i64 (Md.px u - min_px_ m) -> 0 <= Md.qty u ->
  (allow = true \/ Md.qty u = 0 \/ is_Some (C s !! Md.px u)) -> total (put m C s u) <= max_orders_ m ->
  (in_band m (Md.px u) -> Md.qty u <> 0 -> forall p, is_Some (C (opposite s) !! p) -> RB.in_range s (Md.px u) p = false) ->
  exists m', set_level m s u allow = Some m' /\ holds m' (put m C s u) /\ same_shape m m'.
Proof.
  intros Hh0 Hp Hq Ha Hn Hx. unfold set_level, put in *. rewrite sub_price_ok by done. cbn [mbind option_bind].
  rewrite out_of_range_spec. destruct (decide (in_band m (Md.px u))) as [Hb|Hb].
  2: { rewrite bool_decide_false by done. cbn [negb]. eexists. split; [done|]. by apply holds_counts. }
  rewrite bool_decide_true by done. cbn [negb].
  destruct (holds_counts m C (u64 (updates_ m + 1)) (out_of_band_ m) (drop_counter_ m) Hh0) as [Hh Hsh]. clear Hh0.
  set (m1 := set_counts m _ _ _ _) in *. change (max_orders_ m) with (max_orders_ m1) in *.
  change (Md.px u - min_px_ m) with (Md.px u - min_px_ m1) in *. change (in_band m) with (in_band m1) in *. change (same_shape m) with (same_shape m1).
  clearbody m1. clear m Hsh. rename m1 into m. destruct (hd_book _ _ Hh) as (r & Hr & Hs). pose proof (ba_rep_wf _ _ Hr) as Hw.
  rewrite (hd_qty _ _ Hh) by done. cbn [mbind option_bind]. replace (min_px_ m + (Md.px u - min_px_ m)) with (Md.px u) by lia.
  destruct (C s !! Md.px u) as [v|] eqn:Hc.
  - destruct (hd_band _ _ Hh _ _ _ Hc) as [Hv _]. change (default 0 (Some v)) with v. rewrite (proj2 (Z.eqb_neq v 0)) by lia. cbn [negb].
    destruct (Z.eqb_spec (Md.qty u) 0) as [E0|E0].
    + destruct (cancel_effect m r C s u v Hh Hw Hs Hc) as (r' & e & Hst & He & Hs'). rewrite <- E0 in Hs'.
      destruct (submit_put m r C s u Cancel r' e) as (b & k & m' & -> & _ & Hput & ?); try done; [by rewrite He..|]. cbn [mbind option_bind].
      by exists m'.
    + destruct (modify_effect m r C s u v Hh Hw Hs Hc ltac:(lia) (Hx Hb E0)) as (r' & e & Hst & He & Hs').
      destruct (submit_put m r C s u Modify r' e) as (b & k & m' & -> & _ & Hput & ?); try done; [by rewrite He..|]. cbn [mbind option_bind].
      by exists m'.
  - change (default 0 None) with 0. change (negb (0 =? 0)) with false. change (0 =? 0) with true. cbn iota.
    destruct (Z.eqb_spec (Md.qty u) 0) as [E0|E0].
    + destruct (put_ok m m C s (Md.px u) (Md.qty u)) as (m' & Hput); try done; [|apply Hh..|eexists; exact Hput].
      exists r. rewrite E0. split; [done|]. by apply shows_same.
    + destruct Ha as [-> |[?|[? ?]]]; [|done|done]. cbn [negb]. rewrite total_upd, Hc, (proj2 (Z.eqb_neq (Md.qty u) 0) E0) in Hn.
      destruct (add_effect m r C s u Hh Hw Hs Hc ltac:(lia) Hb ltac:(lia) (Hx Hb E0)) as (r' & e & Hst & He & Hs' & Hin).
      destruct (submit_put m r C s u NewOrder r' e) as (b & k & m' & -> & Hb' & Hput & ?); try done; [by rewrite He..|]. cbn [mbind option_bind].
      change (book_ (set_book m b k)) with b. rewrite (ba_rep_contains _ _ _ Hb'), Hin. cbn [mbind option_bind]. by exists m'.
Qed.

(** *** A list of levels *)

Definition uncrossed C : Prop := forall b a, is_Some (C Buy !! b) -> is_Some (C Sell !! a) -> b < a.
Definition inside C (D : sides) : Prop := forall s px, is_Some (C s !! px) -> is_Some (D s !! px).

Lemma inside_total C D : inside C D -> total C <= total D.
Proof.
  intros Hi. unfold total. assert (forall s, (size (C s) <= size (D s))%nat) as Hs; [|pose proof (Hs Buy); pose proof (Hs Sell); lia].
  intros s. rewrite <- !size_dom. apply subseteq_size. intros px. rewrite !elem_of_dom. apply Hi.
Qed.

Lemma uncrossed_range D s px p : uncrossed D -> is_Some (D s !! px) -> is_Some (D (opposite s) !! p) -> RB.in_range s px p = false.
Proof. intros Hu H1 H2. destruct s; simpl in *; [specialize (Hu _ _ H1 H2)|specialize (Hu _ _ H2 H1)]; lia. Qed.

Definition fits (min px : Z) : Prop := -2305843009213693952 <= px - min < 2305843009213693952.
Definition sane (min : Z) u : Prop := fits min (Md.px u) /\ 0 <= Md.qty u.

Section fold.
Context (s : Side) (f : t Bk -> Md.LevelUpdate -> option (t Bk)) (sel : Z -> option Z -> bool).

(** [f] gives the level its new quantity if the price is in the band and [sel], and does nothing to it otherwise. *)
Definition chosen m C u : bool := bool_decide (in_band m (Md.px u)) && sel (Md.qty u) (C s !! Md.px u).
Definition sets_levels : Prop := forall m C u, holds m C -> sane (min_px_ m) u ->
  (chosen m C u = true -> total (upd C s (Md.px u) (Md.qty u)) <= max_orders_ m /\
    (Md.qty u <> 0 -> forall p, is_Some (C (opposite s) !! p) -> RB.in_range s (Md.px u) p = false)) ->
  exists m', f m u = Some m' /\ holds m' (if chosen m C u then upd C s (Md.px u) (Md.qty u) else C) /\ same_shape m m'.

(** After a list of levels of distinct prices, each has its new quantity where it was chosen. *)
Record folded m C (us : list Md.LevelUpdate) (C' : sides) : Prop := {
  fo_in u : u ∈ us -> C' s !! Md.px u = if chosen m C u then (if Md.qty u =? 0 then None else Some (Md.qty u)) else C s !! Md.px u;
  fo_out px : px ∉ (Md.px <$> us) -> C' s !! px = C s !! px;
  fo_other px : C' (opposite s) !! px = C (opposite s) !! px;
}.

Lemma opposite_side_ne : opposite s <> s.
Proof. by destruct s. Qed.

Lemma chosen_upd m C u u' : Md.px u' <> Md.px u -> chosen m (upd C s (Md.px u) (Md.qty u)) u' = chosen m C u'.
Proof. intros Hne. unfold chosen. rewrite upd_lookup, decide_False; [done|]. by intros [_ ?]. Qed.

Lemma band_shape m m1 px : same_shape m m1 -> in_band m1 px <-> in_band m px.
Proof. intros (E1 & E2 & _). unfold in_band. by rewrite E1, E2. Qed.

Lemma chosen_shape m m1 C u : same_shape m m1 -> chosen m1 C u = chosen m C u.
Proof. intros Hs. unfold chosen. f_equal. by apply bool_decide_ext, band_shape. Qed.

Lemma fold_levels D us : sets_levels -> uncrossed D -> forall m C, holds m C -> total D <= max_orders_ m -> inside C D ->
  NoDup (Md.px <$> us) -> Forall (sane (min_px_ m)) us ->
  (forall u, u ∈ us -> chosen m C u = true -> Md.qty u <> 0 -> is_Some (D s !! Md.px u)) ->
  exists m' C', foldl (fun o u => m ← o; f m u) (Some m) us = Some m' /\ holds m' C' /\ same_shape m m' /\ folded m C us C' /\ inside C' D.
Proof.
  intros Hf Hu. induction us as [|u us IH]; intros m C Hh Hd Hin Hnd Hs HD.
  { exists m, C. split_and!; try done. split; [|done|done]. by intros u Hu'%elem_of_nil. }
  rewrite fmap_cons in Hnd. apply NoDup_cons in Hnd as [Hn Hnd]. apply Forall_cons in Hs as [Hsu Hs].
  set (C1 := if chosen m C u then upd C s (Md.px u) (Md.qty u) else C).
  assert (inside C1 D) as Hin1.
  { unfold C1. destruct (chosen m C u) eqn:Ec; [|done]. intros s' px. rewrite upd_lookup. destruct (decide _) as [[-> ->]|]; [|apply Hin].
    destruct (Z.eqb_spec (Md.qty u) 0) as [|Hq]; [by intros [? ?]|]. intros _. apply HD; [set_solver|done|done]. }
  destruct (Hf m C u Hh Hsu) as (m1 & Hm1 & Hh1 & Hsh1).
  { intros Ec. unfold C1 in Hin1. rewrite Ec in Hin1. split; [pose proof (inside_total _ _ Hin1); lia|]. intros Hq p Hp.
    apply (uncrossed_range D); [done|apply HD; [set_solver|done|done]|by apply Hin]. }
  fold C1 in Hh1. pose proof Hsh1 as (E1 & E2 & E3 & _).
  assert (forall u', u' ∈ us -> chosen m1 C1 u' = chosen m C u') as Hch.
  { intros u' Hu'. assert (Md.px u' <> Md.px u) as Hne by (intros He; apply Hn; rewrite <- He; by apply list_elem_of_fmap_2).
    rewrite (chosen_shape m m1) by done. unfold C1. destruct (chosen m C u); [by apply chosen_upd|done]. }
  destruct (IH m1 C1 Hh1) as (m' & C' & Hfo & Hh' & Hsh' & [F1 F2 F3] & Hin'); [congruence|done|done|by rewrite E1| |].
  { intros u' Hu'. rewrite (Hch u' Hu'). apply HD. set_solver. }
  exists m', C'. simpl. rewrite Hm1. split_and!; [done|done|by eapply shape_trans| |done].
  assert (forall s' px, (s' = s -> px <> Md.px u) -> C1 s' !! px = C s' !! px) as HC1.
  { intros s' px Hne. unfold C1. destruct (chosen m C u); [|done]. rewrite upd_lookup, decide_False; [done|]. intros [-> ->]. by apply Hne. }
  split.
  - intros u' [->|Hu']%elem_of_cons.
    + rewrite F2 by done. unfold C1. destruct (chosen m C u); [|done]. by rewrite upd_lookup, decide_True.
    + rewrite F1, Hch by done. destruct (chosen m C u'); [done|]. apply HC1. intros _ He. apply Hn. rewrite <- He. by apply list_elem_of_fmap_2.
  - intros px Hpx. rewrite fmap_cons in Hpx. rewrite F2 by set_solver. apply HC1. set_solver.
  - intros px. rewrite F3. apply HC1. intros He. by destruct opposite_side_ne.
Qed.
End fold.

(** *** Both sides, and the three ways levels are set *)

Record settled (sel : Z -> option Z -> bool) m C (us : Side -> list Md.LevelUpdate) (C' : sides) : Prop := {
  se_in s u : u ∈ us s ->
    C' s !! Md.px u = if chosen s sel m C u then (if Md.qty u =? 0 then None else Some (Md.qty u)) else C s !! Md.px u;
  se_out s px : px ∉ (Md.px <$> us s) -> C' s !! px = C s !! px;
}.

Definition fold_side (f : t Bk -> Side -> Md.LevelUpdate -> option (t Bk)) (us : Side -> list Md.LevelUpdate) s m : option (t Bk) :=
  foldl (fun o u => m ← o; f m s u) (Some m) (us s).

Lemma fold_sides f sel D (us : Side -> list Md.LevelUpdate) : (forall s, sets_levels s (fun m u => f m s u) sel) -> uncrossed D -> forall m C, holds m C ->
  total D <= max_orders_ m -> inside C D -> (forall s, NoDup (Md.px <$> us s) /\ Forall (sane (min_px_ m)) (us s)) ->
  (forall s u, u ∈ us s -> chosen s sel m C u = true -> Md.qty u <> 0 -> is_Some (D s !! Md.px u)) ->
  exists m' C', (m ← fold_side f us Buy m; fold_side f us Sell m) = Some m' /\ holds m' C' /\ same_shape m m' /\
    settled sel m C us C' /\ inside C' D.
Proof.
  intros Hf Hu m C Hh Hd Hin Hus HD. destruct (Hus Buy) as [Hn1 Hs1]. destruct (Hus Sell) as [Hn2 Hs2].
  destruct (fold_levels Buy _ sel D (us Buy) (Hf Buy) Hu m C Hh Hd Hin Hn1 Hs1 (HD Buy)) as (m1 & C1 & Hf1 & Hh1 & Hsh1 & [A1 A2 A3] & Hin1).
  pose proof Hsh1 as (E1 & E2 & E3 & _).
  assert (forall u, chosen Sell sel m1 C1 u = chosen Sell sel m C u) as Hch.
  { intros u. rewrite (chosen_shape Sell sel m m1) by done. unfold chosen. by rewrite (A3 (Md.px u) : C1 Sell !! Md.px u = C Sell !! Md.px u). }
  destruct (fold_levels Sell _ sel D (us Sell) (Hf Sell) Hu m1 C1 Hh1) as (m2 & C2 & Hf2 & Hh2 & Hsh2 & [B1 B2 B3] & Hin2);
    [by rewrite E3|done|done|by rewrite E1|intros u Hu'; rewrite Hch; by apply HD|].
  exists m2, C2. split; [by rewrite (Hf1 : fold_side f us Buy m = Some m1)|]. split; [done|]. split; [by eapply shape_trans|]. split; [|done].
  simpl in A3, B3. split; intros [].
  - intros u Hu'. by rewrite B3, A1.
  - intros u Hu'. by rewrite B1, Hch, A3.
  - intros px Hpx. by rewrite B3, A2.
  - intros px Hpx. by rewrite B2, A3.
Qed.

Lemma sane_i64 min u : sane min u -> in_i64 (Md.px u - min).
Proof. unfold sane, fits, in_i64. lia. Qed.

Definition always (_ : Z) (_ : option Z) : bool := true.
Definition reducing (q : Z) (cur : option Z) : bool := q <? default 0 cur.
Definition keeping (q : Z) (cur : option Z) : bool := negb (q <? default 0 cur).

Lemma set_level_sets s : sets_levels s (fun m u => set_level m s u true) always.
Proof.
  intros m C u Hh [Hp Hq] Hc. unfold chosen, always in *. rewrite andb_true_r in *.
  destruct (set_level_ok m C s u true Hh) as (m' & Hs & Hh' & Hsh); try done; [by apply sane_i64|by left| | |].
  - unfold put. destruct (decide (in_band m (Md.px u))) as [Hb|Hb]; [apply Hc; by rewrite bool_decide_true|].
    destruct (hd_book _ _ Hh) as (r & Hr & Hs). rewrite <- (sh_count _ _ _ Hs), <- (sh_cap _ _ _ Hs). apply RB.wf_cap. by eapply ba_rep_wf.
  - intros Hb. apply Hc. by rewrite bool_decide_true.
  - exists m'. split; [done|]. split; [|done]. unfold put in Hh'. by destruct (decide _); [rewrite bool_decide_true|rewrite bool_decide_false].
Qed.

Lemma touch_sets s pass sel : pass = 0 /\ sel = reducing \/ pass = 1 /\ sel = keeping -> sets_levels s (fun m u => touch m s u pass 0) sel.
Proof.
  intros Hps m C u Hh [Hp Hq] Hc. unfold touch. change (negb (0 =? 0)) with false. cbn [andb]. cbn iota.
  rewrite sub_price_ok by (by apply sane_i64). cbn [mbind option_bind]. rewrite out_of_range_spec.
  unfold chosen in *. destruct (decide (in_band m (Md.px u))) as [Hb|Hb].
  2: { rewrite bool_decide_false by done. cbn [negb andb]. eexists. split; [done|]. destruct (pass =? 0); [by apply holds_counts|done]. }
  rewrite bool_decide_true in * by done. cbn [negb andb] in *. rewrite (hd_qty _ _ Hh) by done. cbn [mbind option_bind].
  replace (min_px_ m + (Md.px u - min_px_ m)) with (Md.px u) by lia.
  assert (forall allow, (allow = true \/ reducing (Md.qty u) (C s !! Md.px u) = true) -> sel (Md.qty u) (C s !! Md.px u) = true ->
    exists m', set_level m s u allow = Some m' /\ holds m' (upd C s (Md.px u) (Md.qty u)) /\ same_shape m m') as Hset.
  { intros allow Ha Hsel. specialize (Hc Hsel) as [Hn Hx].
    destruct (set_level_ok m C s u allow Hh) as (m' & Hs & Hh' & Hsh); try done; [by apply sane_i64| | |].
    - destruct Ha as [->|Hr]; [by left|]. right. unfold reducing in Hr. destruct (C s !! Md.px u); [right; eauto|]. simpl in Hr. lia.
    - unfold put. by rewrite decide_True.
    - unfold put in Hh'. rewrite decide_True in Hh' by done. eauto. }
  destruct Hps as [[-> ->]|[-> ->]]; unfold reducing, keeping in *; cbn [Z.eqb andb] in *; change (0 =? 0) with true; change (1 =? 1) with true;
    change (1 =? 0) with false; change (0 =? 1) with false; cbn [andb].
  - destruct (Md.qty u <? _); [by apply Hset; [right|]|]. by exists m.
  - destruct (Md.qty u <? _); cbn [negb] in *; [by exists m|]. by apply Hset; [left|].
Qed.

(** *** Records *)

(** The levels of a record of the capture. *)
Definition record_levels (buf : list Z) (r : Md.Record_) (us : Side -> list Md.LevelUpdate) : Prop :=
  0 <= Md.n_bids r /\ 0 <= Md.n_asks r /\
  mapM (Md.bid buf r) (seqZ 0 (Md.n_bids r)) = Some (us Buy) /\ mapM (Md.ask buf r) (seqZ 0 (Md.n_asks r)) = Some (us Sell).

Lemma each_eq n get us : mapM get (seqZ 0 n) = Some us -> forall (f : t Bk -> Md.LevelUpdate -> option (t Bk)) m,
  each n get f m = foldl (fun o u => m ← o; f m u) (Some m) us.
Proof.
  unfold each. intros Hg f m. generalize (Some m). revert us Hg. induction (seqZ 0 n) as [|i l IH]; intros us Hg o; simpl in Hg; [by injection Hg as <-|].
  destruct (get i) as [u|] eqn:Hu; [|done]. simpl in Hg. destruct (mapM get l) as [us'|]; [|done]. injection Hg as <-. simpl.
  rewrite (IH us' eq_refl). f_equal. destruct o; [|done]. simpl. by rewrite Hu.
Qed.

Lemma apply_pass_eq buf d (us : Side -> list Md.LevelUpdate) pass m : record_levels buf d us ->
  apply_pass buf d 0 pass m = (m ← fold_side (fun m s u => touch m s u pass 0) us Buy m; fold_side (fun m s u => touch m s u pass 0) us Sell m).
Proof.
  intros (_ & _ & Hb & Ha). unfold apply_pass, fold_side. rewrite (each_eq _ _ _ Hb).
  destruct (foldl _ (Some m) (us Buy)); [|done]. cbn [mbind option_bind]. by rewrite (each_eq _ _ _ Ha).
Qed.

(** ** The market *)

Definition banded m T : sides := fun s => filter (fun x => in_band m x.1) (T s).
Lemma banded_lookup m T s px q : banded m T s !! px = Some q <-> T s !! px = Some q /\ in_band m px.
Proof. unfold banded. by rewrite map_lookup_filter_Some. Qed.

(** A market the mirror can hold: not crossed, its levels not empty, and not more of them in the band than orders. *)
Record market_ok m T : Prop := {
  mk_uncrossed : uncrossed T;
  mk_positive s px q : T s !! px = Some q -> 0 < q;
  mk_size : total (banded m T) <= max_orders_ m;
}.

(** The levels [us] say how a market changed from [T] to [T']. *)
Record diff_of T (us : Side -> list Md.LevelUpdate) T' : Prop := {
  df_nodup s : NoDup (Md.px <$> us s);
  df_in s u : u ∈ us s -> T' s !! Md.px u = if Md.qty u =? 0 then None else Some (Md.qty u);
  df_out s px : px ∉ (Md.px <$> us s) -> T' s !! px = T s !! px;
}.

(** [C] agrees with [T] where it has a level, and everywhere within [w]. *)
Definition mirrors m (w : Side -> Z -> Prop) C T : Prop :=
  (forall s px q, C s !! px = Some q -> T s !! px = Some q) /\
  (forall s px, in_band m px -> w s px -> C s !! px = T s !! px).

Lemma uncrossed_inside C D : inside C D -> uncrossed D -> uncrossed C.
Proof. intros Hi Hu b a Hb Ha. apply Hu; by apply Hi. Qed.

Lemma banded_shape m m1 T s px : same_shape m m1 -> banded m1 T s !! px = banded m T s !! px.
Proof. intros Hs. apply option_eq. intros q. rewrite !banded_lookup. by rewrite (band_shape m m1). Qed.

Lemma total_ext C D : (forall s px, C s !! px = D s !! px) -> total C = total D.
Proof. intros He. unfold total. assert (forall s, C s = D s) as E by (intros s; by apply map_eq). by rewrite !E. Qed.

Lemma market_shape m m1 T : same_shape m m1 -> market_ok m T -> market_ok m1 T.
Proof.
  intros Hs [H1 H2 H3]. split; [done|done|]. rewrite (total_ext _ (banded m T)) by (intros; by apply banded_shape).
  by destruct Hs as (_ & _ & -> & _).
Qed.

(** *** A diff: reductions of both sides, then the rest *)

Lemma holds_total m C : holds m C -> total C <= max_orders_ m.
Proof.
  intros Hh. destruct (hd_book _ _ Hh) as (r & Hr & Hs). rewrite <- (sh_count _ _ _ Hs), <- (sh_cap _ _ _ Hs).
  apply RB.wf_cap. by eapply ba_rep_wf.
Qed.

Lemma holds_band m C s px : holds m C -> is_Some (C s !! px) -> in_band m px.
Proof. intros Hh [q Hq]. destruct (hd_band _ _ Hh _ _ _ Hq). unfold in_band. lia. Qed.

Lemma listed_or (l : list Md.LevelUpdate) px : (exists u, u ∈ l /\ Md.px u = px) \/ px ∉ (Md.px <$> l).
Proof. destruct (decide (px ∈ Md.px <$> l)) as [(u & -> & ?)%list_elem_of_fmap|]; [left; eauto|by right]. Qed.

(** After both passes a listed level has the quantity listed. *)
Lemma passes_set m m1 C C1 C2 (us : Side -> list Md.LevelUpdate) s u : same_shape m m1 -> holds m C -> settled reducing m C us C1 ->
  settled keeping m1 C1 us C2 -> u ∈ us s -> in_band m (Md.px u) -> 0 <= Md.qty u ->
  C2 s !! Md.px u = if Md.qty u =? 0 then None else Some (Md.qty u).
Proof.
  intros Hsh Hh [A _] [B _] Hu Hb Hq. rewrite (B s u Hu). unfold chosen. rewrite bool_decide_true by (by apply (band_shape m m1)).
  cbn [andb]. unfold keeping. destruct (Z.ltb_spec (Md.qty u) (default 0 (C1 s !! Md.px u))) as [Hlt|]; [|done]. exfalso. revert Hlt.
  rewrite (A s u Hu). unfold chosen. rewrite bool_decide_true by done. cbn [andb]. unfold reducing.
  destruct (Z.ltb_spec (Md.qty u) (default 0 (C s !! Md.px u))) as [|Hge]; [|lia]. destruct (Z.eqb_spec (Md.qty u) 0); simpl; lia.
Qed.

Lemma diff_inside m C C1 T T' (us : Side -> list Md.LevelUpdate) w : holds m C -> mirrors m w C T -> diff_of T us T' -> (forall s, Forall (sane (min_px_ m)) (us s)) ->
  settled reducing m C us C1 -> inside C1 C -> inside C1 (banded m T').
Proof.
  intros Hh [Hm _] [_ D1 D2] Hs [A1 A2] Hi s px H1. pose proof (Hi s px H1) as H2. pose proof (holds_band _ _ _ _ Hh H2) as Hb.
  destruct (listed_or (us s) px) as [(u & Hu & <-)|Hn].
  - pose proof (proj1 (Forall_forall _ _) (Hs s) u Hu) as [_ Hq]. destruct (Z.eqb_spec (Md.qty u) 0) as [E|E].
    + exfalso. revert H1. rewrite (A1 s u Hu). unfold chosen. rewrite bool_decide_true by done. unfold reducing. destruct H2 as [q Hc].
      rewrite Hc. destruct (hd_band _ _ Hh _ _ _ Hc) as [Hpos _]. simpl. rewrite E, (proj2 (Z.ltb_lt 0 q) Hpos). by intros [? ?].
    + exists (Md.qty u). apply banded_lookup. split; [|done]. rewrite (D1 s u Hu). by rewrite (proj2 (Z.eqb_neq _ _)).
  - destruct H2 as [q Hc]. exists q. apply banded_lookup. split; [|done]. rewrite D2 by done. by apply Hm.
Qed.

Lemma sane_of T T' (us : Side -> list Md.LevelUpdate) min m s : market_ok m T' -> diff_of T us T' -> Forall (fun u => fits min (Md.px u)) (us s) -> Forall (sane min) (us s).
Proof.
  intros Hk Hd Hf. rewrite Forall_forall in *. intros u Hu. split; [by apply Hf|]. pose proof (df_in _ _ _ Hd s u Hu) as He.
  destruct (Z.eqb_spec (Md.qty u) 0); [lia|]. pose proof (mk_positive _ _ Hk _ _ _ He). lia.
Qed.

Lemma apply_mirrors buf d (us : Side -> list Md.LevelUpdate) m C T T' w : holds m C -> mirrors m w C T -> market_ok m T -> market_ok m T' -> record_levels buf d us ->
  diff_of T us T' -> (forall s, Forall (fun u => fits (min_px_ m) (Md.px u)) (us s)) ->
  exists m' C', apply buf d 0 m = Some m' /\ holds m' C' /\ same_shape m m' /\ mirrors m' w C' T'.
Proof.
  intros Hh Hm Hk Hk' Hrec Hd Hfit. assert (forall s, Forall (sane (min_px_ m)) (us s)) as Hs by (intros s; by eapply sane_of).
  assert (inside C T) as HCT by (intros s px [q Hq]; exists q; by apply (proj1 Hm)).
  unfold apply. rewrite (apply_pass_eq _ _ us) by done.
  destruct (fold_sides (fun m s u => touch m s u 0 0) reducing C us) with (m := m) (C := C) as (m1 & C1 & -> & Hh1 & Hsh1 & A & Hi1);
    [intros s; apply touch_sets; by left|by eapply uncrossed_inside, mk_uncrossed|done|by apply holds_total|by intros ?|by split; [apply (df_nodup _ _ _ Hd)|]| |].
  { intros s u Hu Hc _. unfold chosen, reducing in Hc. destruct (C s !! Md.px u); [eauto|].
    destruct (proj1 (Forall_forall _ _) (Hs s) u Hu) as [_ Hq]. simpl in Hc. to_prop. lia. }
  cbn [mbind option_bind]. rewrite (apply_pass_eq _ _ us) by done. pose proof Hsh1 as (E1 & E2 & E3 & _).
  pose proof (market_shape m m1 T' Hsh1 Hk') as Hk1.
  destruct (fold_sides (fun m s u => touch m s u 1 0) keeping (banded m1 T') us) with (m := m1) (C := C1) as (m2 & C2 & -> & Hh2 & Hsh2 & B & Hi2);
    [intros s; apply touch_sets; by right| |done|apply Hk1| |by rewrite E1; split; [apply (df_nodup _ _ _ Hd)|]| |].
  { apply (uncrossed_inside _ T'); [|apply Hk']. intros s px [q [? _]%banded_lookup]. eauto. }
  { intros s px Hc. rewrite (banded_shape m m1) by done. by eapply (diff_inside m C C1). }
  { intros s u Hu Hc Hq. unfold chosen in Hc. apply andb_prop in Hc as [Hb%bool_decide_eq_true _]. exists (Md.qty u).
    apply banded_lookup. split; [|done]. rewrite (df_in _ _ _ Hd s u Hu). by rewrite (proj2 (Z.eqb_neq _ _)). }
  exists m2, C2. split; [done|]. split; [done|]. assert (same_shape m m2) as Hsh by (by eapply shape_trans). split; [done|].
  assert (forall s px, in_band m px -> C2 s !! px = T' s !! px \/ (px ∉ (Md.px <$> us s) /\ C2 s !! px = C s !! px)) as Hval.
  { intros s px Hb. destruct (listed_or (us s) px) as [(u & Hu & <-)|Hn].
    - left. rewrite (df_in _ _ _ Hd s u Hu). eapply (passes_set m m1); try done. by apply (proj1 (Forall_forall _ _) (Hs s)).
    - right. split; [done|]. rewrite (se_out _ _ _ _ _ B) by done. by apply (se_out _ _ _ _ _ A). }
  destruct Hm as [M1 M2]. split.
  - intros s px q Hq. assert (in_band m px) as Hb by (apply (band_shape m m2); [done|]; eapply holds_band; eauto).
    destruct (Hval s px Hb) as [<-|[Hn He]]; [done|]. rewrite (df_out _ _ _ Hd) by done. apply M1. by rewrite <- He.
  - intros s px Hb Hw. apply (band_shape m m2) in Hb; [|done]. destruct (Hval s px Hb) as [|[Hn He]]; [done|].
    rewrite He, (df_out _ _ _ Hd) by done. by apply M2.
Qed.

(** *** A snapshot *)

(** Within the horizon of a side. *)
Definition within m s (px : Z) : Prop := beyond m s px = false.

(** The levels [us] are those of the market [T] down to the deepest one listed, best first. *)
Record snapshot_of m T (us : Side -> list Md.LevelUpdate) : Prop := {
  sn_sorted s : StronglySorted (RB.lt_side s) (Md.px <$> us s);
  sn_in s u : u ∈ us s -> T s !! Md.px u = Some (Md.qty u);
  sn_all s px : in_band m px -> is_Some (T s !! px) ->
    (forall u, last (us s) = Some u -> RB.le_side s px (Md.px u)) -> px ∈ (Md.px <$> us s);
}.

Lemma sorted_nodup s (l : list Z) : StronglySorted (RB.lt_side s) l -> NoDup l.
Proof.
  induction 1 as [|x l _ IH Hx]; constructor; [|done]. intros Hin. rewrite Forall_forall in Hx. by apply (RB.lt_side_irrefl s x), Hx.
Qed.

Lemma sorted_last s u (l : list Md.LevelUpdate) x : StronglySorted (RB.lt_side s) (Md.px <$> u :: l) -> last (u :: l) = Some x ->
  RB.le_side s (Md.px u) (Md.px x).
Proof.
  rewrite fmap_cons. intros [_ Hf]%StronglySorted_inv Hl. rewrite last_cons in Hl. destruct (last l) as [y|] eqn:E; injection Hl as <-; [|by destruct s; simpl].
  apply last_Some in E as [l' ->]. rewrite Forall_forall in Hf. specialize (Hf (Md.px y)). destruct s; simpl in *; apply Z.lt_le_incl, Hf; set_solver.
Qed.

Lemma mapM_get n get (l : list Md.LevelUpdate) : 0 <= n -> mapM get (seqZ 0 n) = Some l -> alen l = n /\ forall i, 0 <= i < n -> get i = l.[i].
Proof.
  intros Hn Hg. apply mapM_Some in Hg. pose proof (Forall2_length _ _ _ Hg) as Hl. rewrite length_seqZ in Hl. unfold alen. split; [lia|].
  intros i Hi. destruct (lookup_lt_is_Some_2 l (Z.to_nat i)) as [u Hu]; [lia|].
  assert (seqZ 0 n !! Z.to_nat i = Some i) as Hs by (apply lookup_seqZ; lia).
  rewrite (Forall2_lookup_lr _ _ _ _ _ _ Hg Hs Hu). symmetry. apply aget_Some. split; [lia|done].
Qed.

(** The deepest and the best level a record lists. *)
Lemma deepest n get (l : list Md.LevelUpdate) : 0 <= n -> mapM get (seqZ 0 n) = Some l ->
  (n = 0 /\ l = []) \/ (n <> 0 /\ exists u x, head l = Some u /\ last l = Some x /\ get 0 = Some u /\ get (n - 1) = Some x).
Proof.
  intros Hn Hg. destruct (mapM_get n get l Hn Hg) as [Hl Hi]. destruct l as [|u l]; [left; split; [by rewrite <- Hl|done]|right].
  assert (n <> 0) as Hne by (rewrite <- Hl; unfold alen; simpl; lia). split; [done|].
  destruct (last (u :: l)) as [x|] eqn:Hx; [|by apply last_None in Hx]. exists u, x. split_and!; [done|done| |].
  - rewrite Hi by lia. by apply aget_Some.
  - rewrite Hi by lia. apply aget_Some. split; [lia|]. rewrite <- Hx, last_lookup. f_equal. unfold alen in Hl. lia.
Qed.

Definition empty : sides := fun _ => ∅.

Lemma reset_book_holds m l1 l2 : cfg_ok (config (min_px_ m) (n_ m) (max_orders_ m)) -> book_full_ m = 0 -> l1 = amake (n_ m) 0 -> l2 = amake (n_ m) 0 ->
  exists m0, reset_book (set_arrays m l1 l2) = Some m0 /\ holds m0 empty /\ same_shape m m0.
Proof.
  intros Hc Hf -> ->. unfold reset_book. destruct (ba_rep_make 0 _ Hc) as (b & Hb & Hr). simpl. rewrite Hb. simpl.
  eexists. split; [done|]. split; [|done]. pose proof Hc as ([[Hn _] _] & _). simpl in Hn. split; simpl; try done.
  - exists (RB.make 0 (config (min_px_ m) (n_ m) (max_orders_ m))). split; [done|]. split; simpl; try done. by intros [].
  - intros []; apply alen_amake; lia.
  - intros s rel Hrel. unfold empty. rewrite lookup_empty. destruct s; by apply aget_amake.
Qed.

Lemma holds_horizons m C a b c d : holds m C -> holds (set_horizons m a b c d) C.
Proof. intros [H1 (r & Hr & [S1 S2 S3 S4 S5]) H3 H4 H5 H6 H7]. split; try done. exists r. split; [done|]. by split. Qed.

Lemma sub_price_fits min p q : fits min p -> fits min q -> sub_price p q = Some (p - q).
Proof. unfold fits. intros. apply sub_price_ok. unfold in_i64. lia. Qed.

(** The spans of a mirror's horizons are not negative and its horizons near the band. *)
Definition spans_ok m : Prop :=
  0 <= bid_span0_ m /\ 0 <= ask_span0_ m /\ fits (min_px_ m) (bid_horizon_ m) /\ fits (min_px_ m) (ask_horizon_ m).

(** The horizon a seed takes from one side of its snapshot, and its span. *)
Lemma horizon_ok s n get (l : list Md.LevelUpdate) min dflt : 0 <= n -> mapM get (seqZ 0 n) = Some l -> fits min dflt ->
  StronglySorted (RB.lt_side s) (Md.px <$> l) -> Forall (fun u => fits min (Md.px u)) l ->
  exists h sp, (if n =? 0 then Some dflt else u ← get (n - 1); Some (Md.px u)) = Some h /\
    (if n =? 0 then Some 0 else u ← get 0; match s with Buy => sub_price (Md.px u) h | Sell => sub_price h (Md.px u) end) = Some sp /\
    0 <= sp /\ fits min h /\ (forall u, last l = Some u -> h = Md.px u) /\ (l = [] -> h = dflt).
Proof.
  intros Hn Hg Hd Hs Hf. destruct (deepest n get l Hn Hg) as [[-> ->]|(Hne & u & x & Hhd & Hx & Hget0 & Hget1)].
  - exists dflt, 0. by split_and!.
  - rewrite (proj2 (Z.eqb_neq n 0)), Hget0, Hget1 by done. simpl. destruct l as [|u' l]; [done|]. injection Hhd as ->.
    pose proof (sorted_last s u l x Hs Hx) as Hle. rewrite Forall_forall in Hf.
    assert (fits min (Md.px u)) as Hfu by (apply Hf; set_solver).
    assert (fits min (Md.px x)) as Hfx by (apply Hf; apply last_Some in Hx as [l' ->]; set_solver).
    exists (Md.px x). rewrite !(sub_price_fits min) by done.
    destruct s; simpl in Hle; eexists; (split; [done|]); (split; [done|]); (split; [lia|]); (split; [done|]); (split; [|done]); intros v Hv; congruence.
Qed.

Lemma market_settled m m1 T (us : Side -> list Md.LevelUpdate) C : same_shape m m1 -> market_ok m T -> snapshot_of m T us ->
  settled always m empty us C -> holds m1 C ->
  (forall s px q, C s !! px = Some q -> T s !! px = Some q) /\
  (forall s px, in_band m px -> (is_Some (T s !! px) -> px ∈ (Md.px <$> us s)) -> C s !! px = T s !! px).
Proof.
  intros Hsh Hk [_ S1 _] [A B] Hh.
  assert (forall s px, in_band m px -> px ∈ (Md.px <$> us s) -> C s !! px = T s !! px) as HA.
  { intros s px Hb (u & -> & Hu)%list_elem_of_fmap. rewrite (A s u Hu), (S1 s u Hu). unfold chosen, always.
    rewrite bool_decide_true by done. simpl. pose proof (mk_positive _ _ Hk _ _ _ (S1 s u Hu)). by rewrite (proj2 (Z.eqb_neq _ _)) by lia. }
  split.
  - intros s px q Hq. assert (in_band m px) as Hb by (apply (band_shape m m1); [done|]; eapply holds_band; eauto).
    destruct (decide (px ∈ Md.px <$> us s)) as [Hin|Hn]; [by rewrite <- HA|]. by rewrite (B s px Hn) in Hq.
  - intros s px Hb Hl. destruct (decide (px ∈ Md.px <$> us s)) as [Hin|Hn]; [by apply HA|]. rewrite (B s px Hn).
    unfold empty. rewrite lookup_empty. destruct (T s !! px) eqn:E; [|done]. exfalso. by apply Hn, Hl.
Qed.

Lemma cfg_fits m C : holds m C -> fits (min_px_ m) (min_px_ m) /\ fits (min_px_ m) (min_px_ m + n_ m) /\
  BookMirror.add_price (min_px_ m) (n_ m) = Some (min_px_ m + n_ m).
Proof.
  intros Hh. destruct (hd_cfg _ _ Hh) as ([[H1 H2] _] & _ & H3 & H4). simpl in *. unfold fits, add_price. unfold in_i64 in H4.
  split; [lia|]. split; [lia|]. by rewrite (proj2 (Z.leb_le _ _)), (proj2 (Z.ltb_lt _ _)) by lia.
Qed.

Definition same_band m m' : Prop := min_px_ m' = min_px_ m /\ n_ m' = n_ m /\ max_orders_ m' = max_orders_ m.

Lemma seed_mirrors buf snap (us : Side -> list Md.LevelUpdate) m T : cfg_ok (config (min_px_ m) (n_ m) (max_orders_ m)) -> book_full_ m = 0 ->
  market_ok m T -> record_levels buf snap us -> snapshot_of m T us -> (forall s, Forall (fun u => fits (min_px_ m) (Md.px u)) (us s)) ->
  exists m' C', seed buf snap m = Some m' /\ holds m' C' /\ same_band m m' /\ mirrors m' (within m') C' T /\ spans_ok m'.
Proof.
  intros Hc Hf Hk Hrec Hsn Hfit. unfold seed.
  destruct (reset_book_holds m _ _ Hc Hf eq_refl eq_refl) as (m0 & -> & Hh0 & Hsh0). cbn [mbind option_bind]. pose proof Hsh0 as (E1 & E2 & E3 & _).
  destruct Hrec as (Hnb & Hna & Hb & Ha). rewrite (each_eq _ _ _ Hb).
  assert (forall s, Forall (sane (min_px_ m0)) (us s)) as Hs.
  { intros s. rewrite E1, Forall_forall. intros u Hu. split; [by apply (proj1 (Forall_forall _ _) (Hfit s))|].
    pose proof (mk_positive _ _ Hk _ _ _ (sn_in _ _ _ Hsn s u Hu)). lia. }
  destruct (fold_sides (fun m s u => set_level m s u true) always (banded m T) us) with (m := m0) (C := empty) as (m1 & C & Hfold & Hh1 & Hsh1 & A & Hi).
  { intros s. apply set_level_sets. }
  { apply (uncrossed_inside _ T); [|apply Hk]. intros s px [q [? _]%banded_lookup]. eauto. }
  { done. } { rewrite E3. apply Hk. } { intros s px [? ?]. done. }
  { intros s. split; [by eapply sorted_nodup, sn_sorted|done]. }
  { intros s u Hu Hch _. unfold chosen in Hch. apply andb_prop in Hch as [Hbd%bool_decide_eq_true _]. exists (Md.qty u).
    apply banded_lookup. split; [by apply Hsn|]. by apply (band_shape m m0). }
  unfold fold_side in Hfold. destruct (foldl _ (Some m0) (us Buy)) as [m1b|]; [|done]. cbn [mbind option_bind] in *. rewrite (each_eq _ _ _ Ha), Hfold.
  cbn [mbind option_bind]. assert (same_shape m m1) as Hsh by (by eapply shape_trans). pose proof Hsh as (F1 & F2 & F3 & _).
  destruct (cfg_fits _ _ Hh1) as (Hf0 & Hf1 & Hadd). rewrite Hadd. rewrite F1, F2 in *.
  destruct (horizon_ok Buy _ _ _ _ _ Hnb Hb Hf0 (sn_sorted _ _ _ Hsn Buy) (Hfit Buy)) as (bh & bs & -> & Ebs & P1 & P2 & P3 & P4).
  destruct (horizon_ok Sell _ _ _ _ _ Hna Ha Hf1 (sn_sorted _ _ _ Hsn Sell) (Hfit Sell)) as (ah & as_ & -> & Eas & Q1 & Q2 & Q3 & Q4).
  cbn [mbind option_bind]. rewrite Ebs. cbn [mbind option_bind]. rewrite Eas. cbn [mbind option_bind].
  exists (set_horizons m1 bh ah bs as_), C. split; [done|]. split; [by apply holds_horizons|]. split; [done|].
  split; [|unfold spans_ok; simpl; by rewrite F1].
  assert (settled always m empty us C) as A'.
  { destruct A as [A1 A2]. split; [|done]. intros s u Hu. rewrite (A1 s u Hu). by rewrite (chosen_shape s always m m0). }
  destruct (market_settled m m1 T us C Hsh Hk Hsn A' Hh1) as [M1 M2]. split; [done|].
  intros s px Hbd Hw. apply (band_shape m m1) in Hbd; [|done]. apply M2; [done|]. intros Hp. apply (sn_all _ _ _ Hsn); [done|done|].
  intros u Hu. unfold within, beyond in Hw. simpl in Hw. destruct s; simpl; [rewrite (P3 u Hu) in Hw|rewrite (Q3 u Hu) in Hw]; lia.
Qed.

(** *** What the mirror answers *)

Lemma single_prices (l : list (Z * list Order)) : Forall (fun x => exists o, x.2 = [o]) l ->
  (fun x => x.1.1) <$> (x ← l; (fun o => (x.1, o_id o, o_qty o)) <$> x.2) = RB.prices l.
Proof. induction 1 as [|[p q] l [o Ho] _ IH]; [done|]. simpl in *. subst q. exact (f_equal (cons p) IH). Qed.

Lemma shows_orders m r C s : RB.wf r -> shows m r C ->
  StronglySorted (RB.lt_side s) ((fun x => x.1.1) <$> RB.for_each_order r s) /\
  forall p v, (p, v) ∈ ((fun x => (x.1.1, x.2)) <$> RB.for_each_order r s) <-> C s !! p = Some v.
Proof.
  intros Hw Hs. assert (RB.for_each_order r s = (x ← RB.book r s; (fun o => (x.1, o_id o, o_qty o)) <$> x.2)) as ->.
  { unfold RB.for_each_order. induction (RB.book r s) as [|[p q] l IH]; [done|].
    exact (f_equal (app ((fun o => (p, o_id o, o_qty o)) <$> q)) IH). }
  assert (forall p q, (p, q) ∈ RB.book r s -> exists v, q = [RB.mkOrder (id_for (p - min_px_ m) s) v 0] /\ C s !! p = Some v) as Hq.
  { intros p q Hin. apply (RB.map_find_elem s) in Hin; [|apply (RB.wf_sorted r Hw)]. rewrite (sh_find m r C Hs) in Hin.
    destruct (C s !! p) as [v|]; [|done]. injection Hin as <-. eauto. }
  split.
  - rewrite single_prices; [apply (RB.wf_sorted r Hw)|]. apply Forall_forall. intros [p q] Hin. destruct (Hq p q Hin) as (v & -> & _). eauto.
  - intros p v. rewrite list_elem_of_fmap. split.
    + intros (x & Hx & ([p1 q] & (o & -> & Ho)%list_elem_of_fmap & Hin)%list_elem_of_bind). simpl in *.
      destruct (Hq p1 q Hin) as (v1 & -> & Hc). apply list_elem_of_singleton in Ho as ->. simpl in Hx. by injection Hx as -> ->.
    + intros Hc. exists (p, id_for (p - min_px_ m) s, v). split; [done|]. apply list_elem_of_bind.
      exists (p, [RB.mkOrder (id_for (p - min_px_ m) s) v 0]). split; [simpl; set_solver|].
      apply (RB.map_find_elem s); [apply (RB.wf_sorted r Hw)|]. by rewrite (sh_find m r C Hs), Hc.
Qed.

(** A price [top] has not met joins its list while there is room. *)
Lemma top_visit_new m s n w out p i q : p ∉ out.*1 -> (w && beyond m s p) = false ->
  top_visit m s n w out (p, i, q) = if (length out <? n)%nat then (p, q) :: out else out.
Proof.
  intros Hn Hw. unfold top_visit. rewrite Hw. destruct out as [|[p' q'] out]; [done|].
  rewrite (proj2 (Z.eqb_neq p' p)); [done|]. intros ->. apply Hn. set_solver.
Qed.

Lemma take_snoc {A} n (l : list A) x : rev (take n (l ++ [x])) = if (length (rev (take n l)) <? n)%nat then x :: rev (take n l) else rev (take n l).
Proof.
  rewrite length_rev, length_take. destruct (Nat.ltb_spec (n `min` length l) n).
  - rewrite (take_ge l n) by lia. rewrite take_ge by (rewrite length_app; simpl; lia). by rewrite rev_app_distr.
  - by rewrite take_app_le by lia.
Qed.

Lemma top_fold m s n w E : forall L1, NoDup ((fun x => x.1.1) <$> E) -> (forall x, x ∈ E -> x.1.1 ∉ L1.*1) ->
  rev (foldl (top_visit m s n w) (rev (take n L1)) E) =
    take n (L1 ++ filter (fun x => (w && beyond m s x.1) = false) ((fun x => (x.1.1, x.2)) <$> E)).
Proof.
  induction E as [|[[p i] q] E IH]; intros L1 Hnd Hn; [simpl; by rewrite rev_involutive, app_nil_r|]. rewrite fmap_cons in Hnd.
  apply NoDup_cons in Hnd as [Hp Hnd]. rewrite fmap_cons, filter_cons. cbn [fst snd foldl].
  assert (p ∉ (rev (take n L1)).*1) as Hnew.
  { intros (y & Hy & Hin)%list_elem_of_fmap. apply (Hn (p, i, q)); [set_solver|]. simpl. rewrite Hy. apply list_elem_of_fmap_2.
    apply list_elem_of_In, in_rev, list_elem_of_In in Hin. rewrite <- (take_drop n L1). set_solver. }
  destruct (decide ((w && beyond m s p) = false)) as [Hw|Hw].
  - rewrite top_visit_new, <- take_snoc by done. rewrite IH; [by rewrite <- app_assoc|done|].
    intros x Hx. rewrite fmap_app, elem_of_app. intros [Hin|Hin%list_elem_of_singleton]; [by apply (Hn x); [set_solver|]|].
    apply Hp, list_elem_of_fmap. by exists x.
  - assert (top_visit m s n w (rev (take n L1)) (p, i, q) = rev (take n L1)) as ->.
    { unfold top_visit. by destruct (w && beyond m s p). }
    apply IH; [done|]. intros x Hx. apply Hn. set_solver.
Qed.

(** [p] is the market's best price of a side, among those in the band. *)
Definition best_of m T s (p : Z) : Prop :=
  is_Some (T s !! p) /\ forall p', in_band m p' -> is_Some (T s !! p') -> RB.le_side s p p'.

(** The mirror [m] is a faithful view of the market [T]. *)
Record mirrored m T : Prop := {
  mi_phantom : phantom_trades m = Some 0;
  mi_rejects : rejects m = Some 0;
  mi_full : book_full m = 0;
  mi_qty s px : fits (min_px_ m) px -> exists q, qty_at m s px = Some q /\ (q <> 0 -> T s !! px = Some q) /\
    (in_band m px -> within m s px -> q = default 0 (T s !! px));
  mi_top s n : exists L, top m s n true = Some (take n L) /\ StronglySorted (RB.lt_side s) (L.*1) /\
    forall p q, (p, q) ∈ L <-> T s !! p = Some q /\ in_band m p /\ within m s p;
  mi_reseed : exists b, needs_reseed m = Some b /\ (b = false -> exists bb ba,
    ba_best_bid (book_ m) = Some bb /\ ba_best_ask (book_ m) = Some ba /\ best_of m T Buy bb /\ best_of m T Sell ba);
}.

Lemma sorted_filter s (P : Z * Z -> Prop) `{forall x, Decision (P x)} (l : list (Z * Z)) :
  StronglySorted (RB.lt_side s) (l.*1) -> StronglySorted (RB.lt_side s) ((filter P l).*1).
Proof.
  induction l as [|x l IH]; [done|]. rewrite fmap_cons. intros [Hs Hx]%StronglySorted_inv. rewrite filter_cons.
  case_decide; [|by apply IH]. rewrite fmap_cons. constructor; [by apply IH|]. rewrite Forall_forall in *. intros y (z & -> & Hz)%list_elem_of_fmap.
  apply list_elem_of_filter in Hz as [_ Hz]. apply Hx. by apply list_elem_of_fmap_2.
Qed.

Lemma top_ok m C T s n : holds m C -> mirrors m (within m) C T ->
  exists L, top m s n true = Some (take n L) /\ StronglySorted (RB.lt_side s) (L.*1) /\
    forall p q, (p, q) ∈ L <-> T s !! p = Some q /\ in_band m p /\ within m s p.
Proof.
  intros Hh [M1 M2]. destruct (hd_book _ _ Hh) as (r & Hr & Hs). destruct (shows_orders m r C s (ba_rep_wf _ _ Hr) Hs) as [Hsort Hel].
  set (E := RB.for_each_order r s) in *.
  exists (filter (fun x => (true && beyond m s x.1) = false) ((fun x => (x.1.1, x.2)) <$> E)). split; [|split].
  - unfold top. rewrite (ba_rep_orders _ _ s Hr). cbn [mbind option_bind]. f_equal.
    pose proof (top_fold m s n true E [] (sorted_nodup _ _ Hsort)) as Hf. rewrite take_nil in Hf. apply Hf. intros x _. apply not_elem_of_nil.
  - apply sorted_filter. rewrite <- list_fmap_compose. exact Hsort.
  - intros p q. rewrite list_elem_of_filter, Hel. simpl. split.
    + intros [Hw Hc]. split; [by apply M1|]. split; [|done]. eapply holds_band; eauto.
    + intros (Ht & Hb & Hw). split; [done|]. by rewrite M2.
Qed.

Lemma best_ok m r C T s p : RB.wf r -> shows m r C -> holds m C -> mirrors m (within m) C T ->
  fst <$> head (RB.book r s) = Some p -> within m s p -> best_of m T s p.
Proof.
  intros Hw Hs Hh [M1 M2] Hb Hin. destruct (RB.book r s) as [|[p0 q0] l] eqn:E; [done|]. injection Hb as ->.
  assert (forall p', is_Some (C s !! p') <-> p' ∈ RB.prices ((p, q0) :: l)) as Hp by (intros p'; rewrite <- E; symmetry; by apply (shows_prices m)).
  split; [destruct (proj2 (Hp p)) as [v Hv]; [unfold RB.prices; simpl; set_solver|]; exists v; by apply M1|].
  intros p' Hbd Ht. destruct (Z.eq_dec p' p) as [->|Hne]; [by destruct s; simpl|].
  assert (RB.le_side s p p' \/ RB.lt_side s p' p) as [|Hgt] by (destruct s; simpl; lia); [done|exfalso].
  assert (within m s p') as Hw' by (unfold within, beyond in *; destruct s; simpl in *; lia).
  assert (p' ∈ RB.prices ((p, q0) :: l)) as Hin' by (apply Hp; by rewrite M2).
  pose proof (RB.wf_sorted r Hw s) as Hsort. rewrite E in Hsort. apply RB.sorted_cons in Hsort as [_ Hlt].
  unfold RB.prices in Hin'. simpl in Hin'. apply elem_of_cons in Hin' as [->|Hin']; [done|]. specialize (Hlt p' Hin'). destruct s; simpl in *; lia.
Qed.

Lemma reseed_ok m C T : holds m C -> mirrors m (within m) C T -> spans_ok m ->
  exists b, needs_reseed m = Some b /\ (b = false -> exists bb ba,
    ba_best_bid (book_ m) = Some bb /\ ba_best_ask (book_ m) = Some ba /\ best_of m T Buy bb /\ best_of m T Sell ba).
Proof.
  intros Hh Hm (P1 & P2 & P3 & P4). destruct (hd_book _ _ Hh) as (r & Hr & Hs). pose proof (ba_rep_wf _ _ Hr) as Hw.
  unfold needs_reseed. rewrite (ba_rep_bid _ _ Hr), (ba_rep_ask _ _ Hr).
  destruct (RB.best_bid r) as [bb|] eqn:Eb; [|by exists true]. destruct (RB.best_ask r) as [ba|] eqn:Ea; [|by exists true].
  assert (forall s p, fst <$> head (RB.book r s) = Some p -> 0 <= p - min_px_ m < n_ m) as Hband.
  { intros s p Hp. assert (p ∈ RB.prices (RB.book r s)) as Hin.
    { destruct (RB.book r s) as [|[p0 q0] l]; [done|]. injection Hp as ->. unfold RB.prices. simpl. set_solver. }
    apply (RB.wf_band r Hw) in Hin. rewrite (sh_min _ _ _ Hs), (sh_max _ _ _ Hs) in Hin. lia. }
  pose proof (Hband Buy bb Eb). pose proof (Hband Sell ba Ea). destruct (hd_cfg _ _ Hh) as ([[_ Hn] _] & _). simpl in Hn. unfold fits in *.
  rewrite (sub_price_ok (ask_horizon_ m) ba) by (unfold in_i64; lia). cbn [mbind option_bind].
  assert (forall x, -4611686018427387904 <= x < 4611686018427387904 -> add_price x x = Some (x + x)) as Hadd.
  { intros x Hx. unfold add_price. by rewrite (proj2 (Z.leb_le _ _)), (proj2 (Z.ltb_lt _ _)) by lia. }
  rewrite Hadd by lia. cbn [mbind option_bind]. destruct (Z.ltb_spec (ask_horizon_ m - ba + (ask_horizon_ m - ba)) (ask_span0_ m)); [by exists true|].
  rewrite (sub_price_ok bb (bid_horizon_ m)) by (unfold in_i64; lia). cbn [mbind option_bind]. rewrite Hadd by lia. cbn [mbind option_bind].
  eexists. split; [done|]. intros Hf. apply Z.ltb_ge in Hf. exists bb, ba. split; [done|]. split; [done|].
  split; (eapply (best_ok m r C); [done..|]); unfold within, beyond; lia.
Qed.

Lemma mirrored_ok m C T : holds m C -> mirrors m (within m) C T -> spans_ok m -> mirrored m T.
Proof.
  intros Hh Hm Hsp. destruct (hd_sink _ _ Hh) as (_ & Ht & Hr). split; try done; [apply Hh| | |by eapply reseed_ok].
  - intros s px Hf. unfold qty_at. rewrite sub_price_ok by (unfold fits, in_i64 in *; lia). cbn [mbind option_bind]. rewrite out_of_range_spec.
    destruct (decide (in_band m px)) as [Hb|Hb]; [rewrite bool_decide_true by done|rewrite bool_decide_false by done]; cbn [negb].
    + rewrite (hd_qty _ _ Hh) by done. replace (min_px_ m + (px - min_px_ m)) with px by lia. eexists. split; [done|]. destruct Hm as [M1 M2]. split.
      * intros Hne. destruct (C s !! px) as [v|] eqn:E; [|done]. by apply M1.
      * intros _ Hw. by rewrite M2.
    + exists 0. split; [done|]. split; [done|]. done.
  - intros s n. by eapply top_ok.
Qed.

(** *** The history of a mirror *)

Lemma market_band m m1 T : same_band m m1 -> market_ok m T -> market_ok m1 T.
Proof.
  intros (E1 & E2 & E3) [H1 H2 H3]. split; [done|done|]. rewrite (total_ext _ (banded m T)), E3; [done|].
  intros s px. apply option_eq. intros q. rewrite !banded_lookup. unfold in_band. by rewrite E1, E2.
Qed.

Lemma snapshot_band m m1 T (us : Side -> list Md.LevelUpdate) : same_band m m1 -> snapshot_of m T us -> snapshot_of m1 T us.
Proof. intros (E1 & E2 & _) [H1 H2 H3]. split; [done|done|]. intros s px Hb. apply H3. unfold in_band in *. by rewrite <- E1, <- E2. Qed.

(** What the callers of the mirror do with the records of a capture. *)
Inductive op := Seed (snap : Md.Record_) | Diff (d : Md.Record_).
Definition do_op (buf : list Z) m (o : op) : option (t Bk) :=
  match o with Seed snap => seed buf snap m | Diff d => apply buf d 0 m end.
Definition run (buf : list Z) m (ops : list op) : option (t Bk) := foldl (fun o x => m ← o; do_op buf m x) (Some m) ops.

(** [ops] are the records of a market that is now [T]: snapshots of it, and diffs of all that changed since the last. *)
Inductive history m (buf : list Z) : list op -> option sides -> Prop :=
  | hi_start : history m buf [] None
  | hi_seed ops before snap (us : Side -> list Md.LevelUpdate) T : history m buf ops before -> market_ok m T -> record_levels buf snap us -> snapshot_of m T us ->
      (forall s, Forall (fun u => fits (min_px_ m) (Md.px u)) (us s)) -> history m buf (ops ++ [Seed snap]) (Some T)
  | hi_diff ops T0 d (us : Side -> list Md.LevelUpdate) T : history m buf ops (Some T0) -> market_ok m T -> record_levels buf d us -> diff_of T0 us T ->
      (forall s, Forall (fun u => fits (min_px_ m) (Md.px u)) (us s)) -> history m buf (ops ++ [Diff d]) (Some T).

(** A mirror in the course of a history. *)
Record on_track m0 m (o : option sides) : Prop := {
  ot_band : same_band m0 m;
  ot_cfg : cfg_ok (config (min_px_ m) (n_ m) (max_orders_ m));
  ot_full : book_full_ m = 0;
  ot_view T : o = Some T -> market_ok m T /\ exists C, holds m C /\ mirrors m (within m) C T /\ spans_ok m;
}.

Lemma within_shape m m' s px : same_shape m m' -> within m' s px <-> within m s px.
Proof. intros (_ & _ & _ & E4 & E5 & _). unfold within, beyond. by rewrite E4, E5. Qed.

Lemma track_seed m0 m o buf snap (us : Side -> list Md.LevelUpdate) T : on_track m0 m o -> market_ok m0 T -> record_levels buf snap us ->
  snapshot_of m0 T us -> (forall s, Forall (fun u => fits (min_px_ m0) (Md.px u)) (us s)) ->
  exists m', seed buf snap m = Some m' /\ on_track m0 m' (Some T).
Proof.
  intros [Hb Hc' Hf' _] Hk Hrec Hsn Hfit. pose proof Hb as (E1 & E2 & E3). rewrite <- E1 in Hfit.
  pose proof (market_band _ _ _ Hb Hk) as Hkm.
  destruct (seed_mirrors buf snap us m T Hc' Hf' Hkm Hrec (snapshot_band _ _ _ _ Hb Hsn) Hfit)
    as (m' & C & Hm' & Hh & Hb' & Hmir & Hsp). exists m'. split; [exact Hm'|]. pose proof Hb' as (F1 & F2 & F3).
  split; [by split_and!; congruence|apply Hh|apply Hh|]. intros T' [= <-]. split; [by eapply market_band|]. eauto.
Qed.

Lemma track_diff m0 m buf d (us : Side -> list Md.LevelUpdate) T0 T : on_track m0 m (Some T0) -> market_ok m0 T -> record_levels buf d us ->
  diff_of T0 us T -> (forall s, Forall (fun u => fits (min_px_ m0) (Md.px u)) (us s)) ->
  exists m', apply buf d 0 m = Some m' /\ on_track m0 m' (Some T) /\ same_shape m m'.
Proof.
  intros [Hb Hc' Hf' Hv] Hk Hrec Hd Hfit. pose proof Hb as (E1 & E2 & E3). rewrite <- E1 in Hfit.
  destruct (Hv T0 eq_refl) as (Hk0 & C & Hh & Hmir & Hsp). pose proof (market_band _ _ _ Hb Hk) as Hkm.
  destruct (apply_mirrors buf d us m C T0 T (within m) Hh Hmir Hk0 Hkm Hrec Hd Hfit) as (m' & C' & Hm' & Hh' & Hsh & Hmir').
  exists m'. split; [exact Hm'|]. pose proof Hsh as (F1 & F2 & F3 & F4 & F5 & F6 & F7).
  split; [|done]. split; [by split_and!; congruence|apply Hh'|apply Hh'|]. intros T' [= <-]. split; [by eapply market_shape|].
  exists C'. split; [done|]. split.
  - destruct Hmir' as [M1 M2]. split; [done|]. intros s px Hbd Hw. apply M2; [done|]. by apply (within_shape m m').
  - destruct Hsp as (P1 & P2 & P3 & P4). unfold spans_ok. by rewrite F1, F4, F5, F6, F7.
Qed.

Lemma run_snoc buf m ops o : run buf m (ops ++ [o]) = (m ← run buf m ops; do_op buf m o).
Proof. unfold run. by rewrite foldl_app. Qed.

Lemma run_on_track m0 buf ops o : cfg_ok (config (min_px_ m0) (n_ m0) (max_orders_ m0)) -> book_full_ m0 = 0 ->
  history m0 buf ops o -> exists m, run buf m0 ops = Some m /\ on_track m0 m o.
Proof.
  intros Hc Hf. induction 1 as [|ops T0 snap us T _ (m & Hr & Hot) Hk Hrec Hsn Hfit|ops T0 d us T _ (m & Hr & Hot) Hk Hrec Hd Hfit].
  - exists m0. split; [done|]. by split.
  - destruct (track_seed m0 m T0 buf snap us T Hot Hk Hrec Hsn Hfit) as (m' & Hm' & Hot'). exists m'. by rewrite run_snoc, Hr.
  - destruct (track_diff m0 m buf d us T0 T Hot Hk Hrec Hd Hfit) as (m' & Hm' & Hot' & _). exists m'. by rewrite run_snoc, Hr.
Qed.
End laws.
End MirrorLaws.

Module MirrorTheorems.
Import BookMirror MirrorLaws.

(** C29: a mirror that has been given snapshots of a market and its diffs shows that market. It runs without undefined behaviour;
    its book never trades, rejects or overflows; a level it shows is the market's, and within the horizon and the band it
    shows them all, best first; and unless it asks for a new seed its best prices are the market's. *)
Theorem mirror_shows_market {Bk} `{BookApiLaws Bk} center n max_orders : cfg_ok (config (center - n / 2) n max_orders) ->
  exists m0 : t Bk, make center n max_orders = Some m0 /\
    forall buf ops T, history m0 buf ops (Some T) -> exists m, run buf m0 ops = Some m /\ mirrored m T.
Proof.
  intros Hc. pose proof Hc as (_ & _ & Hi & _). simpl in Hi. destruct (ba_rep_make 0 _ Hc) as (b & Hb & _).
  unfold make. rewrite sub_price_ok by done. cbn [mbind option_bind]. rewrite Hb. cbn [mbind option_bind]. eexists. split; [done|].
  intros buf ops T Hh. match type of Hh with history ?m0 _ _ _ => destruct (run_on_track m0 buf ops (Some T) Hc eq_refl Hh) as (m & Hr & Hot) end.
  exists m. split; [exact Hr|].
  destruct (ot_view _ _ _ Hot T eq_refl) as (_ & C & HC & Hm & Hs). by apply (mirrored_ok m C).
Qed.

(** A market that moves up through its old best ask in one diff. *)
Definition demo_market : sides := upd (upd (upd empty Buy 99 7) Buy 97 2) Sell 101 4.
Definition demo_market' : sides := upd (upd (upd (upd demo_market Buy 101 5) Buy 99 3) Sell 101 0) Sell 103 6.
Definition demo_bids (s : Side) : list Md.LevelUpdate := match s with Buy => [Md.mkLevel 99 7; Md.mkLevel 97 2] | Sell => [Md.mkLevel 101 4] end.
Definition demo_diff (s : Side) : list Md.LevelUpdate :=
  match s with Buy => [Md.mkLevel 101 5; Md.mkLevel 99 3] | Sell => [Md.mkLevel 101 0; Md.mkLevel 103 6] end.
Definition demo_buf : list Z :=
  Md.capture 2 5 [Md.MSnapshot 5 100 (demo_bids Buy) (demo_bids Sell); Md.MDiff 6 101 103 (demo_diff Buy) (demo_diff Sell)].
Definition demo_snap : Md.Record_ := Md.mkRecord Md.Snapshot 5 0 100 2 1 48 0 0 false.
Definition demo_rec : Md.Record_ := Md.mkRecord Md.Diff 6 101 103 2 2 136 0 0 false.
Abbreviation mirror_book := (OB.t HybridStore.t (OrderIndex.t LocalityHash) PriceBitmap.t).

Definition market_test (T : sides) : bool :=
  bool_decide (map_Forall (fun b _ => map_Forall (fun a _ => b < a) (T Sell)) (T Buy)) &&
  bool_decide (map_Forall (fun _ q => 0 < q) (T Buy)) && bool_decide (map_Forall (fun _ q => 0 < q) (T Sell)) && (total T <=? 8).
Lemma market_test_ok (m : t mirror_book) T : max_orders_ m = 8 -> market_test T = true -> market_ok m T.
Proof.
  intros Em Ht. unfold market_test in Ht. rewrite !andb_true_iff, !bool_decide_eq_true in Ht. destruct Ht as [[[Hx Hb] Ha] Hn]. split.
  - intros b a [qb Hqb] [qa Hqa]. exact (Hx b qb Hqb a qa Hqa).
  - intros [] px q; [exact (Hb px q)|exact (Ha px q)].
  - rewrite Em. etransitivity; [|apply Z.leb_le, Hn]. apply inside_total. intros s px [q [Hq _]%banded_lookup]. eauto.
Qed.

Lemma make_band (m : t mirror_book) center n cap : make center n cap = Some m -> in_i64 (center - n / 2) ->
  min_px_ m = center - n / 2 /\ n_ m = n /\ max_orders_ m = cap.
Proof.
  unfold make. intros Hm Hi. rewrite sub_price_ok in Hm by done. cbn [mbind option_bind] in Hm.
  destruct (bk_make _ _); [|done]. cbn [mbind option_bind] in Hm. by injection Hm as <-.
Qed.

Lemma demo_day (m : t mirror_book) : min_px_ m = 68 -> n_ m = 64 -> max_orders_ m = 8 ->
  history m demo_buf [Seed demo_snap; Diff demo_rec] (Some demo_market').
Proof.
  intros E1 E2 E3. apply (hi_diff m demo_buf [Seed demo_snap] demo_market demo_rec demo_diff).
  - apply (hi_seed m demo_buf [] None demo_snap demo_bids).
    + constructor.
    + by apply market_test_ok.
    + by vm_compute.
    + split.
      * intros []; repeat constructor.
      * intros [] u Hu; repeat (apply elem_of_cons in Hu as [->|Hu]; [vm_compute; reflexivity|]); by apply elem_of_nil in Hu.
      * intros s px _. unfold demo_market. rewrite !upd_lookup. repeat (case_decide as Hd; [destruct Hd as [-> ->]; intros _ _; simpl; set_solver|clear Hd]).
        unfold empty. rewrite lookup_empty. by intros [? ?].
    + intros []; rewrite E1; unfold fits; repeat (apply Forall_cons; split; [simpl; lia|]); by apply Forall_nil.
  - by apply market_test_ok.
  - by vm_compute.
  - split.
    + intros []; apply (bool_decide_eq_true_1 _); vm_compute; reflexivity.
    + intros [] u Hu; repeat (apply elem_of_cons in Hu as [->|Hu]; [vm_compute; reflexivity|]); by apply elem_of_nil in Hu.
    + intros s px Hpx. unfold demo_market'. rewrite !upd_lookup. repeat (case_decide as Hd; [destruct Hd as [-> ->]; exfalso; apply Hpx; simpl; set_solver|clear Hd]). done.
  - intros []; rewrite E1; unfold fits; repeat (apply Forall_cons; split; [simpl; lia|]); by apply Forall_nil.
Qed.

Lemma mirror_shows_market_witness : Md.load demo_buf = Some (inr ([demo_snap; demo_rec], 2, 5)) /\
  exists (m0 m : t mirror_book), make 100 64 8 = Some m0 /\ run demo_buf m0 [Seed demo_snap; Diff demo_rec] = Some m /\ mirrored m demo_market'.
Proof.
  split; [vm_compute; reflexivity|].
  assert (cfg_ok (config (100 - 64 / 2) 64 8)) as Hc by (unfold cfg_ok, level_count_ok, in_i64, kNil; simpl; split_and!; try done; lia).
  destruct (mirror_shows_market (Bk := mirror_book) 100 64 8 Hc) as (m0 & Hm0 & Hall). exists m0.
  destruct (make_band m0 100 64 8 Hm0) as (E1 & E2 & E3); [apply Hc|].
  destruct (Hall demo_buf _ demo_market' (demo_day m0 E1 E2 E3)) as (m & Hr & Hv). exists m. done.
Defined.
End MirrorTheorems.
