(* ===== verification/Rng.v ===== *)
(** * Random numbers (workload.hpp, [Rng])

    xoshiro256** seeded through splitmix64, on 64-bit words. A [double] is a [spec_float] of 53 bits: the literals of the
    code are its correctly rounded quotients, and what a draw is compared with is compared exactly. *)
From Stdlib Require Import Floats.SpecFloat.
From S2P Require Import Prelude Bits StateM.

Module Rng.

(** ** IEEE doubles *)

Definition prec : Z := 53.
Definition emax : Z := 1024.
Abbreviation double := spec_float.
Definition of_int (n : Z) : double := binary_normalize prec emax n 0 false.
(** The literal [n / d]. *)
Definition lit (n d : Z) : double := SFdiv prec emax (of_int n) (of_int d).
Definition dlt (x y : double) : bool := SFltb x y.

(** ** The generator *)

Record t := mk { s0 : Z; s1 : Z; s2 : Z; s3 : Z }.

Definition splitmix (seed : Z) : Z * Z :=
  let seed := u64 (seed + 0x9E3779B97F4A7C15) in
  let z := seed in
  let z := u64 (Z.lxor z (Z.shiftr z 30) * 0xBF58476D1CE4E5B9) in
  let z := u64 (Z.lxor z (Z.shiftr z 27) * 0x94D049BB133111EB) in
  (seed, Z.lxor z (Z.shiftr z 31)).
Definition make (seed : Z) : t :=
  let '(seed, w0) := splitmix seed in
  let '(seed, w1) := splitmix seed in
  let '(seed, w2) := splitmix seed in
  let '(_, w3) := splitmix seed in
  mk w0 w1 w2 w3.

Definition next (s : t) : t * Z :=
  let r := u64 (rotl64 (u64 (s1 s * 5)) 7 * 9) in
  let x := u64 (Z.shiftl (s1 s) 17) in
  let b2 := Z.lxor (s2 s) (s0 s) in
  let b3 := Z.lxor (s3 s) (s1 s) in
  let b1 := Z.lxor (s1 s) b2 in
  let b0 := Z.lxor (s0 s) b3 in
  let b2 := Z.lxor b2 x in
  let b3 := rotl64 b3 45 in
  (mk b0 b1 b2 b3, r).

Definition below (n : Z) (s : t) : t * Z :=
  let '(s, r) := next s in (s, Z.shiftr (u64 (Z.shiftr r 32 * n)) 32).
(** [static_cast<double>(next() >> 11) * 0x1.0p-53]: the product is exact. *)
Definition uniform (s : t) : t * double :=
  let '(s, r) := next s in (s, SFmul prec emax (of_int (Z.shiftr r 11)) (S754_finite false 4503599627370496 (-105))).
Definition chance (p : double) (s : t) : t * bool := let '(s, u) := uniform s in (s, dlt u p).

(** ** What it promises *)

Definition wf (s : t) : Prop := in_u64 (s0 s) /\ in_u64 (s1 s) /\ in_u64 (s2 s) /\ in_u64 (s3 s).

Lemma u64_rotl x k : 0 <= k <= 64 -> in_u64 x -> in_u64 (rotl64 x k).
Proof. intros. unfold rotl64. auto with exsim lia. Qed.

Lemma wf_splitmix seed : in_u64 (splitmix seed).2.
Proof.
  unfold splitmix. cbn [snd]. apply in_u64_lxor; [apply in_u64_u64|]. match goal with |- in_u64 (Z.shiftr (u64 ?x) 31) => pose proof (in_u64_u64 x) as Hx end.
  unfold in_u64 in *. rewrite Z.shiftr_div_pow2 by lia. split; [apply Z.div_pos; lia|]. apply Z.div_lt_upper_bound; lia.
Qed.
Lemma rng_wf_make seed : wf (make seed).
Proof.
  unfold make. do 4 (match goal with |- context [splitmix ?x] => pose proof (wf_splitmix x); destruct (splitmix x) end). done.
Qed.
Lemma wf_next s : wf s -> wf (next s).1 /\ in_u64 (next s).2.
Proof.
  intros (H0 & H1 & H2 & H3). unfold next, wf. cbn [fst snd s0 s1 s2 s3]. split_and!; try apply in_u64_u64; repeat apply in_u64_lxor; auto using in_u64_u64.
  apply u64_rotl; [lia|]. by apply in_u64_lxor.
Qed.
Lemma wf_below n s : wf s -> wf (below n s).1.
Proof. intros H. unfold below. destruct (wf_next s H) as [? _]. by destruct (next s). Qed.
Lemma wf_uniform s : wf s -> wf (uniform s).1.
Proof. intros H. unfold uniform. destruct (wf_next s H) as [? _]. by destruct (next s). Qed.
Lemma wf_chance p s : wf s -> wf (chance p s).1.
Proof. intros H. unfold chance. pose proof (wf_uniform s H). by destruct (uniform s). Qed.

(** A draw below [n] is below it, for the bounds the code allows. *)
Lemma below_lt n s : wf s -> 0 < n < 4294967296 -> 0 <= (below n s).2 < n.
Proof.
  intros H Hn. unfold below. destruct (wf_next s H) as [_ Hr]. destruct (next s) as [s' r]. cbn [snd] in *. unfold in_u64 in Hr.
  rewrite !Z.shiftr_div_pow2 by lia. change (2 ^ 32) with 4294967296.
  assert (0 <= r / 4294967296 < 4294967296) by (split; [apply Z.div_pos; lia|apply Z.div_lt_upper_bound; lia]).
  rewrite u64_small by (unfold in_u64; nia). split; [apply Z.div_pos; nia|]. apply Z.div_lt_upper_bound; nia.
Qed.
Lemma below_u64 n s : in_u64 (below n s).2.
Proof. unfold below. destruct (next s) as [s' r]. cbn [snd]. auto with exsim lia. Qed.
End Rng.
