(* ===== verification/Doubles.v ===== *)
(** * IEEE doubles

    A [double] is a [spec_float] of 53 bits ([Rng]); this file has the operations of the language and the library on them
    and what the proofs need: the value of a double scaled to an integer, the results of a rounding, and conversions. *)
From Stdlib Require Import Floats.SpecFloat.
From S2P Require Import Prelude Rng.
Import Rng (double, of_int, lit, dlt, prec, emax).

Definition dadd : double -> double -> double := SFadd prec emax.
Definition dsub : double -> double -> double := SFsub prec emax.
Definition dmul : double -> double -> double := SFmul prec emax.
Definition ddiv : double -> double -> double := SFdiv prec emax.
(** [std::min], [std::max], [std::clamp], [std::abs]. *)
Definition dmin (x y : double) : double := if dlt y x then y else x.
Definition dmax (x y : double) : double := if dlt x y then y else x.
Definition dclamp (x lo hi : double) : double := if dlt x lo then lo else if dlt hi x then hi else x.
Definition dabs : double -> double := SFabs.
(** [std::floor] and [std::ceil], as integers; none for infinities and not-a-number. *)
Definition dfloor (x : double) : option Z :=
  match x with
  | S754_zero _ => Some 0
  | S754_finite s m e =>
      let n := if s then Zneg m else Zpos m in
      Some (if 0 <=? e then n * 2 ^ e else n / 2 ^ (- e))
  | _ => None
  end.
Definition dceil (x : double) : option Z := Z.opp <$> dfloor (SFopp x).
(** Toward zero. *)
Definition dtrunc (x : double) : option Z :=
  match x with
  | S754_zero _ => Some 0
  | S754_finite s m e => let n := if 0 <=? e then Zpos m * 2 ^ e else Zpos m / 2 ^ (- e) in Some (if s then - n else n)
  | _ => None
  end.
(** A conversion to an integer type: undefined out of its range. *)
Definition to_u32 (x : option Z) : option Z := n ← x; if (0 <=? n) && (n <? 4294967296) then Some n else None.
Definition to_u64 (x : option Z) : option Z := n ← x; if (0 <=? n) && (n <? 18446744073709551616) then Some n else None.
Definition to_i64 (x : option Z) : option Z :=
  n ← x; if (-9223372036854775808 <=? n) && (n <? 9223372036854775808) then Some n else None.
Definition to_i32 (x : option Z) : option Z := n ← x; if (-2147483648 <=? n) && (n <? 2147483648) then Some n else None.

Module Doubles.

Abbreviation valid := (valid_binary prec emax).
Definition emin : Z := -1074.

(** ** Digits *)

Lemma digits2_bounds m : 2 ^ (Zpos (digits2_pos m) - 1) <= Zpos m < 2 ^ Zpos (digits2_pos m).
Proof.
  induction m as [m IH|m IH|]; cbn [digits2_pos]; [..|simpl; lia].
  - rewrite Pos2Z.inj_succ. replace (Z.succ (Zpos (digits2_pos m)) - 1) with (Z.succ (Zpos (digits2_pos m) - 1)) by lia. rewrite !Z.pow_succ_r by lia. lia.
  - rewrite Pos2Z.inj_succ. replace (Z.succ (Zpos (digits2_pos m)) - 1) with (Z.succ (Zpos (digits2_pos m) - 1)) by lia. rewrite !Z.pow_succ_r by lia. lia.
Qed.
Lemma digits2_unique m d : 0 < d -> 2 ^ (d - 1) <= Zpos m < 2 ^ d -> Zpos (digits2_pos m) = d.
Proof.
  intros Hd Hm. pose proof (digits2_bounds m) as Hb. set (k := Zpos (digits2_pos m)) in *.
  assert (~ k < d) by (intros Hlt; pose proof (Z.pow_le_mono_r 2 k (d - 1) ltac:(lia) ltac:(lia)); lia).
  assert (~ d < k) by (intros Hlt; pose proof (Z.pow_le_mono_r 2 d (k - 1) ltac:(lia) ltac:(lia)); lia). lia.
Qed.

(** ** The scaled value: an integer multiple of the least positive double *)

Definition sv (x : double) : Z :=
  match x with S754_finite s m e => cond_Zopp s (Zpos m) * 2 ^ (e - emin) | _ => 0 end.
Definition is_finite (x : double) : bool := match x with S754_zero _ | S754_finite _ _ _ => true | _ => false end.

Lemma valid_exponent s m e : valid (S754_finite s m e) = true -> emin <= e <= 971 /\ (Zpos m < 2 ^ 53) /\ (emin < e -> 2 ^ 52 <= Zpos m).
Proof.
  unfold valid_binary, bounded, canonical_mantissa, fexp, SpecFloat.emin, prec, emax, emin. rewrite andb_true_iff, Z.eqb_eq, Z.leb_le.
  intros [H1 H2]. pose proof (digits2_bounds m) as Hb. set (d := Zpos (digits2_pos m)) in *.
  assert (d <= 53) by lia. split; [lia|]. split.
  - destruct Hb as [_ Hb]. pose proof (Z.pow_le_mono_r 2 d 53 ltac:(lia) ltac:(lia)). lia.
  - intros He. assert (d = 53) as E by lia. rewrite E in Hb. exact (proj1 Hb).
Qed.

(** Comparison of valid magnitudes is that of the scaled values. *)
Lemma compare_magnitude m1 e1 m2 e2 : valid (S754_finite false m1 e1) = true -> valid (S754_finite false m2 e2) = true ->
  match Z.compare e1 e2 with Lt => Lt | Gt => Gt | Eq => Pos.compare_cont Eq m1 m2 end =
  Z.compare (Zpos m1 * 2 ^ (e1 - emin)) (Zpos m2 * 2 ^ (e2 - emin)).
Proof.
  intros H1 H2. apply valid_exponent in H1 as (A1 & B1 & C1), H2 as (A2 & B2 & C2).
  assert (forall m e m' e', emin <= e -> e < e' -> Zpos m < 2 ^ 53 -> 2 ^ 52 <= Zpos m' -> Zpos m * 2 ^ (e - emin) < Zpos m' * 2 ^ (e' - emin)) as Hlt.
  { intros m e m' e' He Hee Hm Hm'. replace (e' - emin) with (Z.succ (e - emin) + (e' - e - 1)) by lia.
    rewrite Z.pow_add_r, Z.pow_succ_r by lia. pose proof (Z.pow_pos_nonneg 2 (e - emin) ltac:(lia) ltac:(lia)).
    pose proof (Z.pow_pos_nonneg 2 (e' - e - 1) ltac:(lia) ltac:(lia)). generalize dependent (2 ^ (e - emin)). generalize dependent (2 ^ (e' - e - 1)).
    intros q Hq p Hp. assert (Zpos m < 2 * Zpos m') by lia. assert (p <= p * q) by nia. nia. }
  destruct (Z.compare_spec e1 e2) as [->|Hlt12|Hgt12].
  - change (Pos.compare_cont Eq m1 m2) with (Zpos m1 ?= Zpos m2). pose proof (Z.pow_pos_nonneg 2 (e2 - emin) ltac:(lia) ltac:(lia)).
    destruct (Z.compare_spec (Zpos m1) (Zpos m2)) as [->|?|?]; symmetry; [by apply Z.compare_eq_iff|apply Z.compare_lt_iff; nia|apply Z.compare_gt_iff; nia].
  - symmetry. apply Z.compare_lt_iff, Hlt; lia.
  - symmetry. apply Z.compare_gt_iff, Hlt; lia.
Qed.

Lemma sv_pos m e : 0 < sv (S754_finite false m e) \/ e < emin.
Proof. destruct (Z.lt_ge_cases e emin); [by right|left]. simpl. pose proof (Z.pow_pos_nonneg 2 (e - emin) ltac:(lia) ltac:(lia)). nia. Qed.

Lemma compare_spec x y : valid x = true -> valid y = true -> is_finite x = true -> is_finite y = true -> SFcompare x y = Some (Z.compare (sv x) (sv y)).
Proof.
  intros Hx Hy Fx Fy. destruct x as [sx| | |sx mx ex], y as [sy| | |sy my ey]; try done; cbn [SFcompare sv].
  - pose proof (valid_exponent _ _ _ Hy) as (He & _). pose proof (Z.pow_pos_nonneg 2 (ey - emin) ltac:(lia) ltac:(lia)).
    f_equal; symmetry; destruct sy; cbn [cond_Zopp]; [apply Z.compare_gt_iff; nia|apply Z.compare_lt_iff; nia].
  - pose proof (valid_exponent _ _ _ Hx) as (He & _). pose proof (Z.pow_pos_nonneg 2 (ex - emin) ltac:(lia) ltac:(lia)).
    f_equal; symmetry; destruct sx; cbn [cond_Zopp]; [apply Z.compare_lt_iff; nia|apply Z.compare_gt_iff; nia].
  - f_equal. pose proof (compare_magnitude mx ex my ey Hx Hy) as Hm. pose proof (valid_exponent _ _ _ Hx) as (He & _). pose proof (valid_exponent _ _ _ Hy) as (He' & _).
    pose proof (Z.pow_pos_nonneg 2 (ex - emin) ltac:(lia) ltac:(lia)). pose proof (Z.pow_pos_nonneg 2 (ey - emin) ltac:(lia) ltac:(lia)).
    destruct sx, sy; cbn [cond_Zopp].
    + rewrite !Z.mul_opp_l, Z.compare_opp, (Z.compare_antisym (Zpos mx * _)), <- Hm. by destruct (ex ?= ey).
    + symmetry. apply Z.compare_lt_iff. nia.
    + symmetry. apply Z.compare_gt_iff. nia.
    + exact Hm.
Qed.
Definition nan (x : double) : bool := match x with S754_nan => true | _ => false end.

Lemma dlt_finite x y : valid x = true -> valid y = true -> is_finite x = true -> is_finite y = true -> dlt x y = (sv x <? sv y).
Proof. intros. unfold dlt, SFltb. rewrite compare_spec by done. by rewrite Z.ltb_compare. Qed.

(** Nothing is less than not-a-number, and it is less than nothing. *)
Lemma dlt_nan x y : dlt x y = true -> nan x = false /\ nan y = false.
Proof. unfold dlt, SFltb. destruct x as [[]|[]| |[]], y as [[]|[]| |[]]; done. Qed.

(** ** Rounding *)

(** A valid double that is a number and has the sign asked for. *)
Definition signed (s : bool) (x : double) : Prop :=
  valid x = true /\ match x with S754_zero s' | S754_infinity s' | S754_finite s' _ _ => s' = s | S754_nan => False end.

Lemma shr_1_m r : 0 <= shr_m r -> shr_m (shr_1 r) = shr_m r / 2.
Proof.
  destruct r as [m r s]. simpl. intros Hm. destruct m as [|[p|p|]|]; try done; simpl.
  - rewrite (Pos2Z.inj_xI p). apply (Z.div_unique _ 2 _ 1); lia.
  - rewrite (Pos2Z.inj_xO p). apply (Z.div_unique _ 2 _ 0); lia.
Qed.

Lemma iter_shr_m p r : 0 <= shr_m r -> shr_m (SpecFloat.iter_pos shr_1 p r) = shr_m r / 2 ^ Zpos p.
Proof.
  revert r. induction p as [p IH|p IH|]; intros r Hr; cbn [SpecFloat.iter_pos].
  - assert (0 <= shr_m (shr_1 r)) by (rewrite shr_1_m by done; apply Z.div_pos; lia).
    assert (0 <= shr_m (SpecFloat.iter_pos shr_1 p (shr_1 r))) by (rewrite IH by done; apply Z.div_pos; [done|by apply Z.pow_pos_nonneg]).
    rewrite IH, IH, shr_1_m by done. rewrite !Z.div_div by (try apply Z.pow_nonzero; try apply Z.pow_pos_nonneg; lia).
    f_equal. rewrite (Pos2Z.inj_xI p), Z.pow_add_r, Z.pow_mul_r by lia. change (2 ^ 2) with (2 * 2). rewrite Z.pow_mul_l. lia.
  - assert (0 <= shr_m (SpecFloat.iter_pos shr_1 p r)) by (rewrite IH by done; apply Z.div_pos; [done|by apply Z.pow_pos_nonneg]).
    rewrite IH, IH by done. rewrite Z.div_div by (try apply Z.pow_nonzero; try apply Z.pow_pos_nonneg; lia).
    f_equal. rewrite (Pos2Z.inj_xO p), Z.pow_mul_r by lia. change (2 ^ 2) with (2 * 2). rewrite Z.pow_mul_l. lia.
  - rewrite shr_1_m by done. done.
Qed.

Lemma zdigits2_bounds m : 0 < m -> 0 < Zdigits2 m /\ 2 ^ (Zdigits2 m - 1) <= m < 2 ^ Zdigits2 m.
Proof. destruct m as [|m|m]; [lia| |lia]. intros _. split; [done|]. apply digits2_bounds. Qed.
Lemma zdigits2_unique m d : 0 < d -> 2 ^ (d - 1) <= m < 2 ^ d -> Zdigits2 m = d.
Proof.
  intros Hd Hm. destruct m as [|m|m]; [|by apply digits2_unique|]; pose proof (Z.pow_pos_nonneg 2 (d - 1) ltac:(lia) ltac:(lia)); lia.
Qed.

(** A shift to the format: the mantissa's value divided, its digits at most 53. *)
Lemma shr_fexp_spec m e l : 0 <= m -> exists r e', shr_fexp prec emax m e l = (r, e') /\
  e' = Z.max e (fexp prec emax (Zdigits2 m + e)) /\ shr_m r = m / 2 ^ (e' - e) /\ (e' = e -> r = shr_record_of_loc m l).
Proof.
  intros Hm. assert (shr_m (shr_record_of_loc m l) = m) as Hrec by (destruct l as [|[]]; done). unfold shr_fexp, shr.
  set (n := fexp prec emax (Zdigits2 m + e) - e). destruct n as [|p|p] eqn:En.
  - exists (shr_record_of_loc m l), e. split_and!; [done|lia| |done]. rewrite Z.sub_diag. simpl. by rewrite Hrec, Z.div_1_r.
  - eexists _, _. split; [done|]. split_and!; [lia| |lia]. rewrite iter_shr_m by lia. rewrite Hrec. f_equal. f_equal. lia.
  - exists (shr_record_of_loc m l), e. split_and!; [done|lia| |done]. rewrite Z.sub_diag. simpl. by rewrite Hrec, Z.div_1_r.
Qed.
Lemma fexp_eq e : fexp prec emax e = Z.max (e - 53) emin.
Proof. done. Qed.

(** The mantissa after a rounding is the shifted one or one more. *)
Lemma round_nearest_bound m l : m <= round_nearest_even m l <= m + 1.
Proof. destruct l as [|[]]; simpl; try lia. destruct (Z.even m); lia. Qed.

(** Finite, and at most [2 ^ k]. *)
Definition bounded_by (k : Z) (x : double) : Prop := is_finite x = true /\ Z.abs (sv x) <= 2 ^ (k - emin).

Lemma round_aux_spec s m e l : 0 < m -> e <= fexp prec emax (Zdigits2 m + e) ->
  signed s (binary_round_aux prec emax s m e l) /\ (Zdigits2 m + e <= 1000 -> bounded_by (Z.max (Zdigits2 m + e) emin) (binary_round_aux prec emax s m e l)).
Proof.
  intros Hm He. destruct (zdigits2_bounds m Hm) as [Hd0 Hd]. set (d := Zdigits2 m) in *. unfold binary_round_aux.
  destruct (shr_fexp_spec m e l ltac:(lia)) as (r1 & e1 & -> & He1 & Hm1 & _). fold d in He1. rewrite fexp_eq in *.
  set (m1 := shr_m r1) in *. assert (e1 = Z.max (d + e - 53) emin) as E1 by lia. clear He1.
  assert (0 <= m1 < 2 ^ 53 /\ (emin < e1 -> 2 ^ 52 <= m1)) as [Hm1b Hm1l].
  { assert (0 < 2 ^ (e1 - e)) as Hp by (apply Z.pow_pos_nonneg; lia). split; [split|].
    - rewrite Hm1. apply Z.div_pos; lia.
    - rewrite Hm1. apply Z.div_lt_upper_bound; [done|]. rewrite <- Z.pow_add_r by lia.
      pose proof (Z.pow_le_mono_r 2 d (e1 - e + 53) ltac:(lia) ltac:(lia)). lia.
    - intros Hgt. rewrite Hm1. apply Z.div_le_lower_bound; [done|]. rewrite <- Z.pow_add_r by lia. replace (e1 - e + 52) with (d - 1) by lia. lia. }
  pose proof (round_nearest_bound m1 (loc_of_shr_record r1)) as Hm2. set (m2 := round_nearest_even m1 (loc_of_shr_record r1)) in *.
  assert (m2 * 2 ^ (e1 - emin) <= 2 ^ (Z.max (d + e) emin - emin)) as Hbd.
  { assert (m1 <= 2 ^ (Z.max (d + e) emin - e1) - 1) as Hlt.
    { apply Z.lt_le_pred. rewrite Hm1. apply Z.div_lt_upper_bound; [apply Z.pow_pos_nonneg; lia|]. rewrite <- Z.pow_add_r by lia.
      pose proof (Z.pow_le_mono_r 2 d (e1 - e + (Z.max (d + e) emin - e1)) ltac:(lia) ltac:(lia)). lia. }
    replace (Z.max (d + e) emin - emin) with ((Z.max (d + e) emin - e1) + (e1 - emin)) by lia. rewrite (Z.pow_add_r 2 (Z.max (d + e) emin - e1)) by lia.
    apply Z.mul_le_mono_nonneg_r; [apply Z.pow_nonneg; lia|lia]. }
  destruct (shr_fexp_spec m2 e1 loc_Exact ltac:(lia)) as (r3 & e3 & -> & He3 & Hm3 & _). rewrite fexp_eq in He3.
  assert (e3 <= e1 + 1 /\ emin <= e3 /\ 0 <= shr_m r3 /\ (0 < shr_m r3 -> fexp prec emax (Zdigits2 (shr_m r3) + e3) = e3) /\
    shr_m r3 * 2 ^ (e3 - emin) <= m2 * 2 ^ (e1 - emin)) as (H1 & H2 & H3 & H4 & H5).
  { destruct (Z.eq_dec m2 0) as [E|Hne]; [rewrite E in *; change (Zdigits2 0) with 0 in He3; rewrite Hm3, Z.div_0_l by (apply Z.pow_nonzero; lia); lia|].
    destruct (zdigits2_bounds m2 ltac:(lia)) as [Hd20 Hd2]. set (d2 := Zdigits2 m2) in *.
    destruct (Z.eq_dec m2 (2 ^ 53)) as [E|Hne2].
    - assert (d2 = 54) as E2 by (unfold d2; rewrite E; reflexivity). assert (e3 = e1 + 1) as -> by lia. replace (e1 + 1 - e1) with 1 in Hm3 by lia.
      rewrite E in Hm3. change (2 ^ 53 / 2 ^ 1) with (2 ^ 52) in Hm3. rewrite Hm3. change (Zdigits2 (2 ^ 52)) with 53. rewrite fexp_eq, E.
      split_and!; [lia..|]. replace (e1 + 1 - emin) with (Z.succ (e1 - emin)) by lia. rewrite Z.pow_succ_r by lia. change (2 ^ 53) with (2 * 2 ^ 52). lia.
    - assert (d2 <= 53) by (pose proof (Z.pow_le_mono_r 2 53 (d2 - 1)); lia). assert (e3 = e1) as -> by lia. rewrite Z.sub_diag, Z.div_1_r in Hm3. rewrite Hm3.
      fold d2. rewrite fexp_eq. split; [lia|]. split; [lia|]. split; [lia|]. split; [|lia]. intros _. destruct (Z.eq_dec e1 emin); [lia|].
      assert (d2 = 53); [|lia]. apply zdigits2_unique; [lia|]. specialize (Hm1l ltac:(lia)). simpl in *. lia. }
  destruct (shr_m r3) as [|p|p] eqn:Ep; [split; [by split|]; intros _; split; [done|]; by apply Z.pow_nonneg|..|lia]. specialize (H4 ltac:(lia)). simpl in H4.
  destruct (Z.leb_spec e3 (emax - prec)) as [Hle|Hgt].
  - split; [|intros _; split; [done|]; cbn [sv]; destruct s; cbn [cond_Zopp]; lia]. split; [|done]. simpl. unfold bounded, canonical_mantissa. rewrite H4, Z.eqb_refl. by apply Z.leb_le.
  - split; [done|]. intros Hb. unfold emax, prec, emin in *. lia.
Qed.

(** Shifting a mantissa up. *)
Lemma iter_xO p m : Zpos (Pos.iter xO m p) = Zpos m * 2 ^ Zpos p.
Proof.
  induction p as [|p IH] using Pos.peano_ind; [simpl; lia|]. rewrite Pos.iter_succ, Pos2Z.inj_succ, Z.pow_succ_r by lia. rewrite Pos2Z.inj_xO, IH. lia.
Qed.
Lemma shl_align_spec m e e' : e' <= e -> exists m', shl_align m e e' = (m', e') /\ Zpos m' = Zpos m * 2 ^ (e - e').
Proof.
  intros He. unfold shl_align. destruct (e' - e) as [|p|p] eqn:E; [|lia|].
  - exists m. replace e' with e by lia. rewrite Z.sub_diag, Z.mul_1_r. done.
  - eexists. split; [done|]. replace (e - e') with (Zpos p) by lia. apply iter_xO.
Qed.
Lemma shl_align_ge m e e' : e <= e' -> shl_align m e e' = (m, e).
Proof. intros He. unfold shl_align. by destruct (e' - e) as [|p|p] eqn:E; [..|lia]. Qed.

Lemma digits_shift m k : 0 < m -> 0 <= k -> Zdigits2 (m * 2 ^ k) = Zdigits2 m + k.
Proof.
  intros Hm Hk. destruct (zdigits2_bounds m Hm) as [Hd Hb]. apply zdigits2_unique; [lia|].
  replace (Zdigits2 m + k - 1) with (Zdigits2 m - 1 + k) by lia. rewrite !Z.pow_add_r by lia.
  pose proof (Z.pow_pos_nonneg 2 k ltac:(lia) ltac:(lia)). nia.
Qed.

Lemma binary_round_spec s m e : signed s (binary_round prec emax s m e) /\
  (Zpos (digits2_pos m) + e <= 1000 -> bounded_by (Z.max (Zpos (digits2_pos m) + e) emin) (binary_round prec emax s m e)).
Proof.
  unfold binary_round. set (f := fexp prec emax (Zpos (digits2_pos m) + e)). destruct (Z.lt_ge_cases f e) as [Hlt|Hge].
  - destruct (shl_align_spec m e f ltac:(lia)) as (m' & -> & Hm'). assert (Zdigits2 (Zpos m') = Zpos (digits2_pos m) + (e - f)) as Hd.
    { rewrite Hm'. rewrite digits_shift by lia. done. }
    pose proof (round_aux_spec s (Zpos m') f loc_Exact ltac:(lia)) as Hr. rewrite Hd in Hr.
    replace (Zpos (digits2_pos m) + (e - f) + f) with (Zpos (digits2_pos m) + e) in Hr by lia. apply Hr. done.
  - rewrite shl_align_ge by lia. apply (round_aux_spec s (Zpos m) e loc_Exact); [lia|done].
Qed.

(** Zero or more, and a number. *)
Definition nonneg (x : double) : Prop := signed false x \/ exists s, x = S754_zero s.

(** An integer of at most 53 digits below the format is represented exactly. *)
Lemma binary_round_exact s m e : Zpos (digits2_pos m) <= 53 -> emin <= e + Zpos (digits2_pos m) - 53 -> e + Zpos (digits2_pos m) <= 1000 ->
  exists m' e', binary_round prec emax s m e = S754_finite s m' e' /\ e' = e + Zpos (digits2_pos m) - 53 /\ Zpos m' = Zpos m * 2 ^ (e - e').
Proof.
  intros Hd He Hmax. unfold binary_round. rewrite fexp_eq. set (f := Z.max (Zpos (digits2_pos m) + e - 53) emin).
  assert (f = e + Zpos (digits2_pos m) - 53) as Ef by lia. destruct (shl_align_spec m e f ltac:(lia)) as (m' & -> & Hm').
  assert (Zdigits2 (Zpos m') = 53) as Hd'. { rewrite Hm', digits_shift by lia. simpl. lia. }
  assert (forall r e', shr_fexp prec emax (Zpos m') f loc_Exact = (r, e') -> r = shr_record_of_loc (Zpos m') loc_Exact /\ e' = f) as Hshr.
  { intros r e' Hr. destruct (shr_fexp_spec (Zpos m') f loc_Exact ltac:(lia)) as (r2 & e2 & Hr2 & E2 & _ & Hx). rewrite Hr in Hr2. injection Hr2 as <- <-.
    rewrite Hd', fexp_eq in E2. assert (e' = f) as -> by lia. split; [by apply Hx|done]. }
  unfold binary_round_aux. destruct (shr_fexp prec emax (Zpos m') f loc_Exact) as [r e'] eqn:E1. destruct (Hshr r e' eq_refl) as [-> ->].
  cbn [shr_record_of_loc shr_m loc_of_shr_record round_nearest_even]. rewrite E1. cbn [shr_record_of_loc shr_m].
  rewrite (proj2 (Z.leb_le _ _)) by (unfold emax, prec; lia). by exists m', f.
Qed.

Lemma of_int_small n : Z.abs n < 2 ^ 53 -> valid (of_int n) = true /\ is_finite (of_int n) = true /\ sv (of_int n) = n * 2 ^ 1074 /\ dtrunc (of_int n) = Some n.
Proof.
  intros Hn. unfold of_int, binary_normalize. destruct n as [|p|p]; [by split_and!|..].
  all: pose proof (digits2_bounds p) as Hb; assert (Zpos (digits2_pos p) <= 53) as Hd by
    (destruct (Z.le_gt_cases (Zpos (digits2_pos p)) 53) as [|Hgt]; [done|pose proof (Z.pow_le_mono_r 2 53 (Zpos (digits2_pos p) - 1) ltac:(lia) ltac:(lia)); lia]).
  all: match goal with |- context [binary_round _ _ ?s ?q 0] => destruct (binary_round_spec s q 0) as [[Hv _] _]; destruct (binary_round_exact s q 0) as (m' & e' & E & Ee & Em); [lia|unfold emin; lia|lia|] end.
  all: rewrite E in *; split; [done|]; split; [done|]; cbn [sv dtrunc cond_Zopp].
  all: assert (Zpos m' * 2 ^ (e' - emin) = Zpos p * 2 ^ 1074) as Esv by
    (rewrite Em, <- Z.mul_assoc, <- Z.pow_add_r by (unfold emin; lia); do 2 f_equal; unfold emin; lia).
  all: assert ((if 0 <=? e' then Zpos m' * 2 ^ e' else Zpos m' / 2 ^ (- e')) = Zpos p) as Et.
  1,3: destruct (Z.leb_spec 0 e') as [H0|H0]; [assert (e' = 0) as Ez by lia; rewrite Em, Ez; lia|rewrite Em; replace (0 - e') with (- e') by lia; apply Z.div_mul, Z.pow_nonzero; lia].
  - by rewrite Et.
  - split; [lia|]. by rewrite Et.
Qed.

Lemma of_int_nonneg n : 0 <= n < 2 ^ 64 -> nonneg (of_int n) /\ bounded_by 64 (of_int n).
Proof.
  intros Hn. unfold of_int, binary_normalize. destruct n as [|p|p]; [by split; [right; eexists|]| |lia]. pose proof (digits2_bounds p) as Hb.
  destruct (binary_round_spec false p 0) as [Hs Hf]. split; [by left|].
  destruct (Z.le_gt_cases (Zpos (digits2_pos p)) 64) as [Hle|Hgt].
  { destruct (Hf ltac:(lia)) as [F1 F2]. split; [done|]. etransitivity; [exact F2|]. apply Z.pow_le_mono_r; unfold emin; lia. } pose proof (Z.pow_le_mono_r 2 64 (Zpos (digits2_pos p) - 1) ltac:(lia) ltac:(lia)). lia.
Qed.

(** ** Differences *)

Lemma normalize_spec m e s : valid (binary_normalize prec emax m e s) = true /\ nan (binary_normalize prec emax m e s) = false /\
  (0 <= m -> nonneg (binary_normalize prec emax m e s)) /\
  (forall k, emin <= k <= 999 -> emin <= e -> Z.abs m * 2 ^ (e - emin) <= 2 ^ (k - emin) -> bounded_by (k + 1) (binary_normalize prec emax m e s)).
Proof.
  assert (forall s p, let x := binary_round prec emax s p e in valid x = true /\ nan x = false /\ (s = false -> nonneg x) /\
    (forall k, emin <= k <= 999 -> emin <= e -> Zpos p * 2 ^ (e - emin) <= 2 ^ (k - emin) -> bounded_by (k + 1) x)) as Hr.
  { intros s' p x. destruct (binary_round_spec s' p e) as [Hs Hf]. fold x in Hs, Hf. pose proof Hs as [Hv Hm]. split; [done|]. split; [by destruct x|].
    split; [intros ->; by left|]. intros k Hk He Hb. pose proof (digits2_bounds p) as [Hd _]. set (d := Zpos (digits2_pos p)) in *.
    assert (d - 1 + (e - emin) <= k - emin) as Hle.
    { destruct (Z.le_gt_cases (d - 1 + (e - emin)) (k - emin)) as [|Hgt]; [done|]. pose proof (Z.pow_lt_mono_r 2 (k - emin) (d - 1 + (e - emin)) ltac:(lia) ltac:(lia) Hgt).
      rewrite Z.pow_add_r in * by lia. pose proof (Z.pow_pos_nonneg 2 (e - emin) ltac:(lia) ltac:(lia)). nia. }
    destruct (Hf ltac:(lia)) as [F1 F2]. split; [done|]. etransitivity; [exact F2|]. apply Z.pow_le_mono_r; lia. }
  destruct m as [|p|p]; cbn [binary_normalize].
  - split_and!; [done|done|by right; exists s|]. intros k Hk _ _. split; [done|]. simpl. apply Z.pow_nonneg. lia.
  - destruct (Hr false p) as (H1 & H2 & H3 & H4). split_and!; auto.
  - destruct (Hr true p) as (H1 & H2 & _ & H4). split_and!; [done|done|lia|exact H4].
Qed.

Lemma nonneg_valid x : nonneg x -> valid x = true /\ nan x = false.
Proof. intros [[Hv Hs]|[s ->]]; [|done]. split; [done|by destruct x]. Qed.
Lemma nonneg_sv x : nonneg x -> is_finite x = true -> 0 <= sv x.
Proof.
  intros [[Hv Hs]|[s ->]] Hf; [|done]. destruct x as [|s| |s m e]; try done. subst s. simpl.
  pose proof (Z.pow_nonneg 2 (e - emin) ltac:(lia)). nia.
Qed.
Lemma nonneg_infinite x : nonneg x -> is_finite x = false -> x = S754_infinity false.
Proof. intros [[Hv Hs]|[s ->]] Hf; [|done]. destruct x as [|s| |s m e]; try done. by subst s. Qed.

(** Not less than a finite double: finite, and at most its value; or the infinity is on the other side. *)
Lemma nonneg_not_above x y : nonneg x -> nonneg y -> is_finite y = true -> dlt y x = false -> is_finite x = true /\ sv x <= sv y.
Proof.
  intros Hx Hy Hf Hlt. destruct (is_finite x) eqn:Hfx.
  - destruct (nonneg_valid x Hx), (nonneg_valid y Hy). rewrite dlt_finite in Hlt by done. split; [done|lia].
  - exfalso. rewrite (nonneg_infinite x Hx Hfx) in Hlt. destruct y as [[]| | |[] ? ?]; done.
Qed.

Lemma align_values m1 e1 m2 e2 : emin <= e1 -> emin <= e2 ->
  exists k1 k2, fst (shl_align m1 e1 (Z.min e1 e2)) = k1 /\ fst (shl_align m2 e2 (Z.min e1 e2)) = k2 /\
    Zpos m1 * 2 ^ (e1 - emin) = Zpos k1 * 2 ^ (Z.min e1 e2 - emin) /\ Zpos m2 * 2 ^ (e2 - emin) = Zpos k2 * 2 ^ (Z.min e1 e2 - emin).
Proof.
  intros H1 H2. destruct (shl_align_spec m1 e1 (Z.min e1 e2) ltac:(lia)) as (k1 & -> & E1), (shl_align_spec m2 e2 (Z.min e1 e2) ltac:(lia)) as (k2 & -> & E2).
  exists k1, k2. split; [done|]. split; [done|]. rewrite E1, E2, <- !Z.mul_assoc, <- !Z.pow_add_r by lia. split; do 2 f_equal; lia.
Qed.

(** A difference of what is at least zero is a number, and at least zero when nothing more is taken than is there. *)
Lemma dsub_nonneg x y : nonneg x -> nonneg y -> is_finite y = true -> dlt x y = false -> nonneg (dsub x y).
Proof.
  intros Hx Hy Hf Hlt. destruct (is_finite x) eqn:Hfx.
  2: { rewrite (nonneg_infinite x Hx Hfx). left. destruct y; done. }
  destruct (nonneg_valid x Hx) as [Vx _], (nonneg_valid y Hy) as [Vy _]. rewrite dlt_finite in Hlt by done. apply Z.ltb_ge in Hlt.
  destruct x as [sx| | |sx mx ex], y as [sy| | |sy my ey]; try done; cbn [dsub SFsub].
  - destruct sx, sy; right; eauto.
  - exfalso. destruct Hy as [[_ ->]|[]]; [|done]. pose proof (valid_exponent _ _ _ Vy) as (He & _). simpl in Hlt.
    pose proof (Z.pow_pos_nonneg 2 (ey - emin) ltac:(lia) ltac:(lia)). nia.
  - destruct Hx as [[_ ->]|[]]; [|done]. destruct Hy as [[_ ->]|[]]; [|done]. unfold dsub, SFsub. apply normalize_spec. cbn [cond_Zopp].
    pose proof (valid_exponent _ _ _ Vx) as (He & _). pose proof (valid_exponent _ _ _ Vy) as (He' & _).
    destruct (align_values mx ex my ey) as (k1 & k2 & -> & -> & E1 & E2); [lia|lia|]. cbn [sv cond_Zopp] in Hlt. rewrite E1, E2 in Hlt.
    pose proof (Z.pow_pos_nonneg 2 (Z.min ex ey - emin) ltac:(lia) ltac:(lia)). nia.
Qed.

Lemma dsub_bounded k x y : emin <= k <= 999 -> nonneg x -> nonneg y -> bounded_by k x -> bounded_by k y -> bounded_by (k + 1) (dsub x y).
Proof.
  intros Hk Hx Hy [Fx Bx] [Fy By]. pose proof (nonneg_sv x Hx Fx) as Sx. pose proof (nonneg_sv y Hy Fy) as Sy.
  assert (2 ^ (k - emin) <= 2 ^ (k + 1 - emin)) as Hpow by (apply Z.pow_le_mono_r; lia).
  destruct (nonneg_valid x Hx) as [Vx _], (nonneg_valid y Hy) as [Vy _].
  destruct x as [sx| | |sx mx ex], y as [sy| | |sy my ey]; try done; unfold dsub, SFsub.
  - split; [by destruct sx, sy|]. assert (sv (match sx, sy with true, false | false, true => S754_zero sx | _, _ => S754_zero false end) = 0) as -> by (by destruct sx, sy).
    apply Z.pow_nonneg. lia.
  - split; [done|]. destruct Hy as [[_ ->]|[]]; [|done]. cbn [sv negb cond_Zopp] in *. lia.
  - split; [done|]. lia.
  - destruct Hx as [[_ ->]|[]]; [|done]. destruct Hy as [[_ ->]|[]]; [|done]. cbn [cond_Zopp].
    pose proof (valid_exponent _ _ _ Vx) as (He & _). pose proof (valid_exponent _ _ _ Vy) as (He' & _).
    destruct (align_values mx ex my ey) as (k1 & k2 & -> & -> & E1 & E2); [lia|lia|]. cbn [sv cond_Zopp] in *. rewrite E1 in *. rewrite E2 in *.
    apply normalize_spec; [lia|lia|]. pose proof (Z.pow_pos_nonneg 2 (Z.min ex ey - emin) ltac:(lia) ltac:(lia)) as Hp.
    assert (Z.abs (Zpos k1 - Zpos k2) <= Z.max (Zpos k1) (Zpos k2)) as Hm by lia. etransitivity; [apply (Z.mul_le_mono_nonneg_r _ _ _ (Z.lt_le_incl _ _ Hp) Hm)|].
    destruct (Z.max_spec (Zpos k1) (Zpos k2)) as [[_ ->]|[_ ->]]; lia.
Qed.

Lemma dsub_valid x y : nonneg x -> nonneg y -> is_finite x = true -> is_finite y = true -> valid (dsub x y) = true.
Proof.
  intros Hx Hy Fx Fy. destruct (nonneg_valid x Hx) as [Vx _], (nonneg_valid y Hy) as [Vy _].
  destruct x as [sx| | |sx mx ex], y as [sy| | |sy my ey]; try done; [by destruct sx, sy|]. unfold dsub, SFsub. apply normalize_spec.
Qed.

(** What is not negative as far as its sign goes: not-a-number, or a sign bit that is not set. *)
Definition unsigned (x : double) : Prop := match x with S754_zero _ | S754_nan => True | S754_infinity s | S754_finite s _ _ => s = false end.

Lemma unsigned_not_below x : unsigned x -> forall s, dlt x (S754_zero s) = false.
Proof. destruct x as [| | |[]]; try done; simpl; by intros ->. Qed.
Lemma nonneg_unsigned x : nonneg x -> unsigned x.
Proof. intros [[_ H]|[s ->]]; [|done]. by destruct x. Qed.
Lemma round_aux_unsigned m e l : unsigned (binary_round_aux prec emax false m e l).
Proof. unfold binary_round_aux. destruct (shr_fexp _ _ m e l) as [r e']. destruct (shr_fexp _ _ _ _ _) as [r' e'']. destruct (shr_m r'); [done| |done]. by destruct (_ <=? _). Qed.
Lemma dmul_unsigned x y : unsigned x -> unsigned y -> unsigned (dmul x y).
Proof. destruct x as [|s| |s m e], y as [|s'| |s' m' e']; try done; simpl; intros -> || intros _; intros -> || intros _; simpl; try done. apply round_aux_unsigned. Qed.
Lemma ddiv_unsigned x y : unsigned x -> unsigned y -> (forall s, y <> S754_zero s) -> unsigned (ddiv x y).
Proof.
  destruct x as [|s| |s m e], y as [|s'| |s' m' e']; try done; simpl; intros H1 H2 H3; subst; simpl; try done.
  1,2: match goal with H : forall s, S754_zero ?a <> _ |- _ => by destruct (H a) end.
  destruct (SFdiv_core_binary _ _ _ _ _ _) as [[mz ez] lz]. apply round_aux_unsigned.
Qed.

(** Taking away a part [z] not above [a], which is not above [x]: a valid number. *)
Lemma dsub_part x a z : nonneg x -> nonneg a -> is_finite a = true -> dlt x a = false -> unsigned z ->
  valid (dsub x (dmin a z)) = true /\ nan (dsub x (dmin a z)) = false.
Proof.
  intros Hx Ha Hfa Hxa Hz. destruct (nonneg_valid x Hx) as [Vx Nx], (nonneg_valid a Ha) as [Va Na]. unfold dmin. destruct (dlt z a) eqn:Hza.
  - destruct (dlt_nan _ _ Hza) as [Nz _]. destruct x as [sx|sx| |sx mx ex]; try done.
    + exfalso. destruct a as [sa|sa| |sa ma ea]; try done; [|destruct Ha as [[_ ->]|[]]; [|done]; by destruct sx..].
      by rewrite unsigned_not_below in Hza.
    + destruct Hx as [[_ ->]|[]]; [|done]. destruct z as [|[]| |]; try done. by destruct a as [[]|[]| |[]].
    + destruct z as [|sz| |sz mz ez]; try done. unfold dsub, SFsub. split; apply normalize_spec.
  - by apply nonneg_valid, dsub_nonneg.
Qed.

Lemma dclamp_ok v hi : valid v = true -> nan v = false -> nonneg hi -> is_finite hi = true ->
  nonneg (dclamp v (S754_zero false) hi) /\ is_finite (dclamp v (S754_zero false) hi) = true /\ sv (dclamp v (S754_zero false) hi) <= sv hi.
Proof.
  intros Hv Hn Hh Hf. unfold dclamp. destruct (dlt v (S754_zero false)) eqn:Hlo; [split; [right; eauto|split; [done|by apply nonneg_sv]]|].
  destruct (dlt hi v) eqn:Hhi; [by split|]. assert (nonneg v) as Hvn by (destruct v as [s|[]| |[]]; try done; [right; eauto|left; by split..]).
  split; [done|]. by apply nonneg_not_above.
Qed.

Lemma dmin_nonneg x y : nonneg x -> nonneg y -> nonneg (dmin x y).
Proof. intros. unfold dmin. by destruct (dlt y x). Qed.
Lemma dadd_nonneg x y : nonneg x -> nonneg y -> nonneg (dadd x y).
Proof.
  intros Hx Hy. destruct (nonneg_valid x Hx) as [Vx Nx], (nonneg_valid y Hy) as [Vy Ny].
  destruct x as [sx|sx| |sx mx ex], y as [sy|sy| |sy my ey]; try done; unfold dadd, SFadd.
  - destruct sx, sy; right; eauto.
  - destruct Hx as [[_ ->]|[]]; [|done]. destruct Hy as [[_ ->]|[]]; [|done]. by left.
  - destruct Hx as [[_ ->]|[]]; [|done]. destruct Hy as [[_ ->]|[]]; [|done]. apply normalize_spec. simpl. lia.
Qed.

(** A truncated double of at least zero and at most a small integer: an integer in that range. *)
Lemma dtrunc_at_most x n : nonneg x -> is_finite x = true -> 0 <= n -> sv x <= n * 2 ^ 1074 -> exists k, dtrunc x = Some k /\ 0 <= k <= n.
Proof.
  intros Hx Hf Hn Hle. destruct (nonneg_valid x Hx) as [Hv _]. destruct x as [s| | |s m e]; try done; [exists 0; split; [done|lia]|].
  destruct Hx as [[_ ->]|[]]; [|done]. pose proof (valid_exponent _ _ _ Hv) as (He & _). cbn [sv cond_Zopp dtrunc] in *.
  eexists. split; [done|]. destruct (Z.leb_spec 0 e) as [H0|H0].
  - split; [apply Z.mul_nonneg_nonneg; [lia|apply Z.pow_nonneg; lia]|]. replace (e - emin) with (e + 1074) in Hle by (unfold emin; lia).
    rewrite Z.pow_add_r, Z.mul_assoc in Hle by lia. apply (Z.mul_le_mono_pos_r _ _ (2 ^ 1074)); [apply Z.pow_pos_nonneg; lia|done].
  - split; [apply Z.div_pos; [lia|apply Z.pow_pos_nonneg; lia]|]. apply Z.div_le_upper_bound; [apply Z.pow_pos_nonneg; lia|].
    replace 1074 with ((e - emin) + (- e)) in Hle by (unfold emin; lia). rewrite Z.pow_add_r in Hle by (unfold emin in *; lia).
    pose proof (Z.pow_pos_nonneg 2 (e - emin) ltac:(lia) ltac:(lia)). nia.
Qed.

(** ** Integers *)

(** A shift that loses nothing. *)
Lemma iter_shr_exact p k : 0 <= k -> SpecFloat.iter_pos shr_1 p (Build_shr_record (k * 2 ^ Zpos p) false false) = Build_shr_record k false false.
Proof.
  assert (forall k, 0 <= k -> shr_1 (Build_shr_record (k * 2) false false) = Build_shr_record k false false) as H1 by (intros [|q|q] ?; [reflexivity|rewrite Z.mul_comm; reflexivity|lia]).
  revert k. induction p as [p IH|p IH|]; intros k Hk; cbn [SpecFloat.iter_pos]; [..|by apply H1].
  - replace (k * 2 ^ Zpos p~1) with (k * 2 ^ Zpos p * 2 ^ Zpos p * 2).
    2:{ rewrite (Pos2Z.inj_xI p), Z.pow_add_r, Z.pow_mul_r by lia. change (2 ^ 2) with (2 * 2). rewrite Z.pow_mul_l. lia. }
    pose proof (Z.pow_pos_nonneg 2 (Zpos p) ltac:(lia) ltac:(lia)). rewrite H1, IH, IH by nia. done.
  - replace (k * 2 ^ Zpos p~0) with (k * 2 ^ Zpos p * 2 ^ Zpos p).
    2:{ rewrite (Pos2Z.inj_xO p), Z.pow_mul_r by lia. change (2 ^ 2) with (2 * 2). rewrite Z.pow_mul_l. lia. }
    pose proof (Z.pow_pos_nonneg 2 (Zpos p) ltac:(lia) ltac:(lia)). rewrite IH, IH by nia. done.
Qed.

(** What is a multiple of the unit of its format is not rounded. *)
Lemma binary_round_multiple s m e k : let f := fexp prec emax (Zpos (digits2_pos m) + e) in
  Zpos (digits2_pos m) + e <= 1000 -> (e <= f -> Zpos m = k * 2 ^ (f - e)) -> (f < e -> k = Zpos m * 2 ^ (e - f)) ->
  exists m', binary_round prec emax s m e = S754_finite s m' f /\ Zpos m' = k.
Proof.
  intros f Hmax Hle Hgt. unfold binary_round. fold f. pose proof (fexp_eq (Zpos (digits2_pos m) + e)) as Ef. fold f in Ef.
  assert (exists m2 e2, shl_align m e f = (m2, e2) /\ e2 <= f /\ Zpos m2 = k * 2 ^ (f - e2) /\ Zdigits2 (Zpos m2) + e2 = Zpos (digits2_pos m) + e) as (m2 & e2 & -> & He2 & Hm2 & Hd2).
  { destruct (Z.lt_ge_cases f e) as [Hlt|Hge].
    - destruct (shl_align_spec m e f ltac:(lia)) as (m' & -> & Hm'). exists m', f. split; [done|]. split; [lia|]. rewrite Z.sub_diag, Z.mul_1_r, (Hgt Hlt).
      split; [done|]. rewrite Hm', digits_shift by lia. simpl. lia.
    - rewrite shl_align_ge by lia. exists m, e. split_and!; [done|lia|by apply Hle|done]. }
  assert (0 < k) as Hk by (pose proof (Z.pow_pos_nonneg 2 (f - e2) ltac:(lia) ltac:(lia)); nia).
  destruct (zdigits2_bounds k Hk) as [Hdk _]. assert (Zdigits2 (Zpos m2) = Zdigits2 k + (f - e2)) as Hdm by (rewrite Hm2; apply digits_shift; lia).
  assert (forall x, Zdigits2 k + f - 53 <= f -> shr_fexp prec emax k f x = (shr_record_of_loc k x, f)) as Hno.
  { intros x Hx. unfold shr_fexp. rewrite (fexp_eq (Zdigits2 k + f)). destruct (Z.max _ _ - f) as [|p|p] eqn:Ep; [done|lia|done]. }
  assert (shr_fexp prec emax (Zpos m2) e2 loc_Exact = (Build_shr_record k false false, f)) as Hs.
  { unfold shr_fexp. rewrite Hd2. fold f. unfold shr. destruct (f - e2) as [|p|p] eqn:Ep; [|..].
    - rewrite Z.mul_1_r in Hm2. rewrite Hm2. replace e2 with f by lia. done.
    - cbn [shr_record_of_loc]. rewrite Hm2. replace (e2 + Zpos p) with f by lia. f_equal. apply iter_shr_exact. lia.
    - lia. }
  unfold binary_round_aux. rewrite Hs. cbn [loc_of_shr_record shr_m round_nearest_even]. rewrite Hno by lia. cbn [shr_record_of_loc shr_m].
  destruct k as [|k|k]; [lia| |lia]. rewrite (proj2 (Z.leb_le _ _)) by (unfold emax, prec, emin in *; lia). by exists k.
Qed.
(** Integers below [2 ^ 53] are added and subtracted exactly. *)
Lemma round_int s m e n : emin <= e <= 0 -> Zpos m = Zpos n * 2 ^ (- e) -> Zpos n < 2 ^ 53 -> binary_round prec emax s m e = binary_round prec emax s n 0.
Proof.
  intros He Hm Hn. assert (Zpos (digits2_pos m) + e = Zpos (digits2_pos n) + 0) as Hd.
  { change (Zpos (digits2_pos m)) with (Zdigits2 (Zpos m)). rewrite Hm, digits_shift by lia. simpl. lia. }
  assert (Zpos (digits2_pos n) <= 53) as Hdn.
  { pose proof (digits2_bounds n) as Hb. destruct (Z.le_gt_cases (Zpos (digits2_pos n)) 53) as [|Hgt]; [done|].
    pose proof (Z.pow_le_mono_r 2 53 (Zpos (digits2_pos n) - 1) ltac:(lia) ltac:(lia)). lia. }
  set (f := fexp prec emax (Zpos (digits2_pos n) + 0)). assert (f <= 0 /\ emin <= f) as Hf by (unfold f; rewrite fexp_eq; unfold emin; lia).
  destruct (binary_round_multiple s m e (Zpos n * 2 ^ (- f))) as (m1 & -> & E1); rewrite ?Hd; fold f.
  - lia.
  - intros ?. rewrite Hm, <- Z.mul_assoc, <- Z.pow_add_r by lia. do 2 f_equal. lia.
  - intros ?. rewrite Hm, <- Z.mul_assoc, <- Z.pow_add_r by lia. do 2 f_equal. lia.
  - destruct (binary_round_multiple s n 0 (Zpos n * 2 ^ (- f))) as (m2 & -> & E2); fold f.
    + lia.
    + intros ?. rewrite <- Z.mul_assoc, <- Z.pow_add_r by lia. replace (- f + (f - 0)) with 0 by lia. lia.
    + intros ?. reflexivity.
    + assert (m1 = m2) as -> by lia. done.
Qed.
Lemma normalize_int k e n : emin <= e <= 0 -> k = n * 2 ^ (- e) -> Z.abs n < 2 ^ 53 -> binary_normalize prec emax k e false = of_int n.
Proof.
  intros He Hk Hn. unfold of_int. pose proof (Z.pow_pos_nonneg 2 (- e) ltac:(lia) ltac:(lia)). destruct n as [|n|n], k as [|k|k]; try lia; cbn [binary_normalize]; [done|apply round_int; lia..].
Qed.
(** The parts of an integer's double. *)
Lemma of_int_parts n : n <> 0 -> Z.abs n < 2 ^ 53 -> exists m e, of_int n = S754_finite (n <? 0) m e /\ emin <= e <= 0 /\ cond_Zopp (n <? 0) (Zpos m) = n * 2 ^ (- e).
Proof.
  intros H0 Hn. unfold of_int. destruct n as [|p|p]; [done|..]; cbn [binary_normalize].
  all: assert (Zpos (digits2_pos p) <= 53) by (pose proof (digits2_bounds p) as Hb; destruct (Z.le_gt_cases (Zpos (digits2_pos p)) 53) as [|Hgt]; [done|];
    pose proof (Z.pow_le_mono_r 2 53 (Zpos (digits2_pos p) - 1) ltac:(lia) ltac:(lia)); lia).
  all: match goal with |- context [binary_round _ _ ?s ?q 0] => destruct (binary_round_exact s q 0) as (m' & e' & -> & Ee & Em); [lia|unfold emin; lia|lia|] end.
  all: exists m', e'; split; [done|]; split; [unfold emin; lia|]; cbn [cond_Zopp Z.ltb]; simpl; rewrite Em; replace (0 - e') with (- e') by lia; lia.
Qed.
Lemma of_int_opp n : Z.abs n < 2 ^ 53 -> n <> 0 -> SFopp (of_int n) = of_int (- n).
Proof.
  intros Hn H0. destruct (of_int_parts n H0 Hn) as (m & e & E & He & Hm), (of_int_parts (- n)) as (m' & e' & E' & He' & Hm'); [lia|lia|]. rewrite E, E'. simpl.
  assert (e = e') as <-.
  { pose proof (of_int_small n Hn) as (V & _). pose proof (of_int_small (- n) ltac:(lia)) as (V' & _). rewrite E in V. rewrite E' in V'.
    apply valid_exponent in V as (_ & B & C), V' as (_ & B' & C'). unfold emin in *.
    assert (Zpos m = Z.abs n * 2 ^ (- e)) by (destruct (Z.ltb_spec n 0); simpl in Hm; [rewrite Z.abs_neq by lia|rewrite Z.abs_eq by lia]; lia).
    assert (Zpos m' = Z.abs n * 2 ^ (- e')) by (destruct (Z.ltb_spec (- n) 0); simpl in Hm'; [rewrite Z.abs_eq by lia|rewrite Z.abs_neq by lia]; lia).
    destruct (Z.lt_trichotomy e e') as [Hl|[->|Hl]]; [|done|].
    - specialize (C' ltac:(lia)). replace (- e) with (- e' + (e' - e - 1) + 1) in * by lia. rewrite !Z.pow_add_r in * by lia. pose proof (Z.pow_pos_nonneg 2 (e' - e - 1) ltac:(lia) ltac:(lia)). pose proof (Z.pow_pos_nonneg 2 (- e') ltac:(lia) ltac:(lia)). nia.
    - specialize (C ltac:(lia)). replace (- e') with (- e + (e - e' - 1) + 1) in * by lia. rewrite !Z.pow_add_r in * by lia. pose proof (Z.pow_pos_nonneg 2 (e - e' - 1) ltac:(lia) ltac:(lia)). pose proof (Z.pow_pos_nonneg 2 (- e) ltac:(lia) ltac:(lia)). nia. }
  assert ((- n <? 0) = negb (n <? 0)) as -> by lia. f_equal. destruct (Z.ltb_spec n 0), (Z.ltb_spec (- n) 0); simpl in *; lia.
Qed.
Lemma dadd_int a b : Z.abs a < 2 ^ 53 -> Z.abs b < 2 ^ 53 -> Z.abs (a + b) < 2 ^ 53 -> dadd (of_int a) (of_int b) = of_int (a + b).
Proof.
  intros Ha Hb Hab. destruct (Z.eq_dec a 0) as [->|Ha0].
  { rewrite Z.add_0_l. destruct (Z.eq_dec b 0) as [->|Hb0]; [done|]. destruct (of_int_parts b Hb0 Hb) as (m & e & -> & _). done. }
  destruct (Z.eq_dec b 0) as [->|Hb0]; [rewrite Z.add_0_r; by destruct (of_int_parts a Ha0 Ha) as (m & e & -> & _)|].
  destruct (of_int_parts a Ha0 Ha) as (m1 & e1 & -> & He1 & Hm1), (of_int_parts b Hb0 Hb) as (m2 & e2 & -> & He2 & Hm2). unfold dadd, SFadd.
  destruct (shl_align_spec m1 e1 (Z.min e1 e2) ltac:(lia)) as (k1 & -> & E1), (shl_align_spec m2 e2 (Z.min e1 e2) ltac:(lia)) as (k2 & -> & E2). cbn [fst].
  apply normalize_int; [lia| |done]. assert (forall s k m e, Zpos k = Zpos m * 2 ^ (e - Z.min e1 e2) -> cond_Zopp s (Zpos k) = cond_Zopp s (Zpos m) * 2 ^ (e - Z.min e1 e2)) as Hc.
  { intros [] k m e E; cbn [cond_Zopp]; lia. }
  rewrite (Hc _ _ _ _ E1), (Hc _ _ _ _ E2), Hm1, Hm2, <- !Z.mul_assoc, <- !Z.pow_add_r, Z.mul_add_distr_r by lia. f_equal; do 2 f_equal; lia.
Qed.
Lemma dsub_int a b : Z.abs a < 2 ^ 53 -> Z.abs b < 2 ^ 53 -> Z.abs (a - b) < 2 ^ 53 -> dsub (of_int a) (of_int b) = of_int (a - b).
Proof.
  intros Ha Hb Hab. destruct (Z.eq_dec b 0) as [->|Hb0].
  { rewrite Z.sub_0_r. destruct (Z.eq_dec a 0) as [->|Ha0]; [done|]. destruct (of_int_parts a Ha0 Ha) as (m & e & -> & _). done. }
  assert (dsub (of_int a) (of_int b) = dadd (of_int a) (SFopp (of_int b))) as ->.
  { destruct (of_int_parts b Hb0 Hb) as (m & e & -> & _). destruct (of_int a) as [| | |s1 m1 e1]; try done. cbn [SFopp]. unfold dsub, dadd, SFsub, SFadd. cbv zeta.
    f_equal. destruct (b <? 0); cbn [negb cond_Zopp]; lia. }
  rewrite of_int_opp by done. replace (a - b) with (a + - b) in * by lia. apply dadd_int; lia.
Qed.
Lemma dlt_int a b : Z.abs a < 2 ^ 53 -> Z.abs b < 2 ^ 53 -> dlt (of_int a) (of_int b) = (a <? b).
Proof.
  intros Ha Hb. destruct (of_int_small a Ha) as (V1 & F1 & S1 & _), (of_int_small b Hb) as (V2 & F2 & S2 & _). rewrite dlt_finite, S1, S2 by done.
  assert (0 < 2 ^ 1074) by (by apply Z.pow_pos_nonneg). generalize dependent (2 ^ 1074). intros p _ _ Hp. destruct (Z.ltb_spec a b); [apply Z.ltb_lt|apply Z.ltb_ge]; nia.
Qed.
Lemma dmin_int a b : Z.abs a < 2 ^ 53 -> Z.abs b < 2 ^ 53 -> dmin (of_int a) (of_int b) = of_int (Z.min a b).
Proof. intros Ha Hb. unfold dmin. rewrite dlt_int by done. destruct (Z.ltb_spec b a); f_equal; lia. Qed.
Lemma dmax_int a b : Z.abs a < 2 ^ 53 -> Z.abs b < 2 ^ 53 -> dmax (of_int a) (of_int b) = of_int (Z.max a b).
Proof. intros Ha Hb. unfold dmax. rewrite dlt_int by done. destruct (Z.ltb_spec a b); f_equal; lia. Qed.

(** A part of a whole is at most two, after rounding. *)
Lemma of_int_pos n : 0 < n < 2 ^ 53 -> exists m e, of_int n = S754_finite false m e /\ e <= 0 /\ emin <= e /\ Zpos m = n * 2 ^ (- e) /\ Zdigits2 (Zpos m) = 53.
Proof.
  intros Hn. unfold of_int. destruct n as [|p|p]; [lia| |lia]. cbn [binary_normalize]. pose proof (digits2_bounds p) as Hb.
  assert (Zpos (digits2_pos p) <= 53) by (destruct (Z.le_gt_cases (Zpos (digits2_pos p)) 53) as [|Hgt]; [done|]; pose proof (Z.pow_le_mono_r 2 53 (Zpos (digits2_pos p) - 1) ltac:(lia) ltac:(lia)); lia).
  destruct (binary_round_exact false p 0) as (m' & e' & -> & Ee & Em); [lia|unfold emin; lia|lia|]. exists m', e'. replace (- e') with (0 - e') by lia.
  split; [done|]. split; [lia|]. split; [unfold emin; lia|]. split; [done|]. rewrite Em, digits_shift by lia. simpl. lia.
Qed.
Lemma ddiv_part a b : 0 <= a <= b -> 0 < b < 2 ^ 53 -> nonneg (ddiv (of_int a) (of_int b)) /\ bounded_by 1 (ddiv (of_int a) (of_int b)).
Proof.
  intros Ha Hb. destruct (of_int_pos b Hb) as (m2 & e2 & E2 & He2 & _ & Hm2 & Hd2). rewrite E2. destruct (Z.eq_dec a 0) as [->|Hn].
  { split; [right; by eexists|]. split; [done|]. by vm_compute. }
  destruct (of_int_pos a ltac:(lia)) as (m1 & e1 & E1 & He1 & _ & Hm1 & Hd1). rewrite E1. unfold ddiv, SFdiv, SFdiv_core_binary. rewrite Hd1, Hd2, fexp_eq.
  pose proof (zdigits2_bounds (Zpos m1) ltac:(lia)) as [_ B1]. pose proof (zdigits2_bounds (Zpos m2) ltac:(lia)) as [_ B2]. rewrite Hd1 in B1. rewrite Hd2 in B2. change (53 - 1) with 52 in *.
  assert (e1 <= e2) as He.
  { destruct (Z.le_gt_cases e1 e2) as [|Hgt]; [done|]. exfalso. replace (- e2) with (- e1 + (e1 - e2)) in Hm2 by lia. rewrite Z.pow_add_r in Hm2 by lia.
    assert (2 <= 2 ^ (e1 - e2)) by (change 2 with (2 ^ 1) at 1; apply Z.pow_le_mono_r; lia). pose proof (Z.pow_pos_nonneg 2 (- e1) ltac:(lia) ltac:(lia)).
    set (x := 2 ^ (- e1)) in *. set (y := 2 ^ (e1 - e2)) in *. assert (Zpos m1 <= b * x) by nia. assert (b * x * 2 <= b * x * y) by nia. lia. }
  assert (-53 <= e1 /\ -53 <= e2) as [L1 L2].
  { split; [destruct (Z.le_gt_cases (-53) e1) as [|Hgt]|destruct (Z.le_gt_cases (-53) e2) as [|Hgt]]; try done; exfalso.
    - pose proof (Z.pow_le_mono_r 2 54 (- e1) ltac:(lia) ltac:(lia)). nia.
    - pose proof (Z.pow_le_mono_r 2 54 (- e2) ltac:(lia) ltac:(lia)). nia. }
  replace (Z.min (Z.max (53 + e1 - (53 + e2) - 53) emin) (e1 - e2)) with (e1 - e2 - 53) by (unfold emin; lia).
  replace (e1 - e2 - (e1 - e2 - 53)) with 53 by lia. rewrite Z.shiftl_mul_pow2 by lia.
  destruct (Z.div_eucl (Zpos m1 * 2 ^ 53) (Zpos m2)) as [q r] eqn:Eq. assert (q = Zpos m1 * 2 ^ 53 / Zpos m2) as Hq by (unfold Z.div; by rewrite Eq). clear Eq.
  assert (2 ^ 52 <= q) as Q1 by (rewrite Hq; apply Z.div_le_lower_bound; lia).
  assert (q < 2 ^ 54) as Q2 by (rewrite Hq; apply Z.div_lt_upper_bound; lia).
  assert (e1 = e2 -> q <= 2 ^ 53) as Q3.
  { intros ->. rewrite Hq. apply Z.div_le_upper_bound; [lia|]. assert (Zpos m1 <= Zpos m2); [|lia]. rewrite Hm1, Hm2. apply Z.mul_le_mono_nonneg_r; [apply Z.pow_nonneg; lia|lia]. }
  assert (53 <= Zdigits2 q <= 54) as Hdq.
  { destruct (zdigits2_bounds q ltac:(lia)) as [_ Bq]. split.
    - destruct (Z.le_gt_cases 53 (Zdigits2 q)) as [|Hgt]; [done|]. pose proof (Z.pow_le_mono_r 2 (Zdigits2 q) 52 ltac:(lia) ltac:(lia)). lia.
    - destruct (Z.le_gt_cases (Zdigits2 q) 54) as [|Hgt]; [done|]. pose proof (Z.pow_le_mono_r 2 54 (Zdigits2 q - 1) ltac:(lia) ltac:(lia)). lia. }
  destruct (round_aux_spec (xorb false false) q (e1 - e2 - 53) (new_location (Zpos m2) r)) as [R1 R2]; [lia|rewrite fexp_eq; lia|].
  split; [by left|]. destruct (R2 ltac:(lia)) as [F B]. split; [done|]. etransitivity; [exact B|]. apply Z.pow_le_mono_r; unfold emin; lia.
Qed.

(** Ten times as much is an integer of the C language, and not negative. *)
Lemma dmul_ten x : nonneg x -> bounded_by 1 x -> exists n, to_i32 (dtrunc (dmul x (of_int 10))) = Some n /\ 0 <= n.
Proof.
  intros Hx [Hf Hb]. assert (exists n, dtrunc (dmul x (of_int 10)) = Some n /\ 0 <= n <= 64) as (n & -> & Hn).
  2:{ exists n. cbn. rewrite (proj2 (Z.leb_le _ _)), (proj2 (Z.ltb_lt _ _)) by lia. split; [done|lia]. }
  destruct x as [s| | |s m e]; try done; [destruct s; exists 0; split; done || lia|]. destruct Hx as [[V ->]|[]]; [|done]. pose proof (valid_exponent _ _ _ V) as (He & Hm & _).
  destruct (of_int_pos 10 ltac:(lia)) as (m2 & e2 & E2 & He2 & He2' & Hm2 & Hd2). rewrite E2. unfold dmul, SFmul. cbn [xorb].
  assert (e2 = -49) as ->. { destruct (zdigits2_bounds (Zpos m2) ltac:(lia)) as [_ B]. rewrite Hd2 in B. rewrite Hm2 in B.
    destruct (Z.lt_trichotomy e2 (-49)) as [Hl|[->|Hl]]; [|done|].
    - pose proof (Z.pow_le_mono_r 2 50 (- e2) ltac:(lia) ltac:(lia)). lia.
    - pose proof (Z.pow_le_mono_r 2 (- e2) 48 ltac:(lia) ltac:(lia)). lia. }
  rewrite Pos2Z.inj_mul, Hm2. change (10 * 2 ^ (- -49)) with (10 * 2 ^ 49).
  assert (Zdigits2 (Zpos m * (10 * 2 ^ 49)) = Zdigits2 (Zpos m * 10) + 49) as Hd by (rewrite Z.mul_assoc; apply digits_shift; lia).
  destruct (zdigits2_bounds (Zpos m * 10) ltac:(lia)) as [Hd0 Hdb]. set (d := Zdigits2 (Zpos m * 10)) in *.
  assert (d + e <= 5) as Hde.
  { destruct (Z.le_gt_cases (d + e) 5) as [|Hgt]; [done|]. exfalso. cbn [sv cond_Zopp] in Hb. pose proof (Z.pow_pos_nonneg 2 (e - emin) ltac:(lia) ltac:(lia)) as Hp.
    assert (Zpos m * 10 * 2 ^ (e - emin) <= 10 * 2 ^ (1 - emin)) as H1 by lia.
    assert (2 ^ (d - 1) * 2 ^ (e - emin) <= Zpos m * 10 * 2 ^ (e - emin)) as H2 by nia. rewrite <- Z.pow_add_r in H2 by lia.
    pose proof (Z.pow_le_mono_r 2 (5 - emin) (d - 1 + (e - emin)) ltac:(lia) ltac:(lia)) as H3. replace (5 - emin) with (4 + (1 - emin)) in H3 by lia.
    rewrite Z.pow_add_r in H3 by (unfold emin; lia). pose proof (Z.pow_pos_nonneg 2 (1 - emin) ltac:(lia) ltac:(unfold emin; lia)). lia. }
  destruct (round_aux_spec false (Zpos m * (10 * 2 ^ 49)) (e + -49) loc_Exact) as [R1 R2]; [lia| |].
  - rewrite Hd, fexp_eq. assert (4 <= d); [|lia].
    destruct (Z.le_gt_cases 4 d) as [|Hgt]; [done|]. pose proof (Z.pow_le_mono_r 2 d 3 ltac:(lia) ltac:(lia)). lia.
  - rewrite Hd in R2. destruct (R2 ltac:(lia)) as [F B]. apply dtrunc_at_most; [by left|done|lia|]. apply (Z.le_trans _ _ _ (proj2 (proj1 (Z.abs_le _ _) (Z.le_refl _)))), (Z.le_trans _ _ _ B).
    change (64 * 2 ^ 1074) with (2 ^ 6 * 2 ^ 1074). rewrite <- Z.pow_add_r by lia. apply Z.pow_le_mono_r; unfold emin; lia.
Qed.
End Doubles.
