(* ===== verification/TextFormat.v ===== *)
(** * Decimal text: what [fprintf] writes and [istringstream] reads

    The tools exchange commands and events as lines of decimal fields. [Text] models the conversions they use (the [%u] and
    [PRId64] of [fprintf], [operator>>] into words and integers of a width, [std::getline]) and proves that a printed
    line is read back. An extraction that sets [failbit] has no result: the tools give up on the line then. *)
From Stdlib Require Import Decimal DecimalString DecimalN.
From Stdlib Require Export Ascii.
From stdpp Require Export strings.
From S2P Require Import Prelude.

Module Text.
Local Open Scope string_scope.
Local Open Scope Z_scope.

(** ** Printing *)

Definition u (n : Z) : string := NilEmpty.string_of_uint (N.to_uint (Z.to_N n)).
Definition d (z : Z) : string := if z <? 0 then "-" +:+ u (- z) else u z.
Definition newline : string := String "010"%char "".
(** ["TAG %. %. ...\n"]. *)
Definition fields (l : list string) : string := foldr (fun f s => " " +:+ f +:+ s) "" l.
Definition line (tag : string) (l : list string) : string := tag +:+ fields l +:+ newline.

(** ** Reading *)

Definition is_space (c : ascii) : bool := bool_decide (c ∈ [" "; "009"; "010"; "011"; "012"; "013"]%char).
Fixpoint skip_ws (s : string) : string := match s with String c s' => if is_space c then skip_ws s' else s | "" => "" end.
Fixpoint take_word (s : string) : string * string :=
  match s with "" => ("", "") | String c s' => if is_space c then ("", s) else let '(w, r) := take_word s' in (String c w, r) end.

(** [in >> tag]. *)
Definition get_word (s : string) : option (string * string) :=
  match take_word (skip_ws s) with ("", _) => None | r => Some r end.

Definition digit (c : ascii) : option (uint -> uint) :=
  match c with
  | "0" => Some D0 | "1" => Some D1 | "2" => Some D2 | "3" => Some D3 | "4" => Some D4
  | "5" => Some D5 | "6" => Some D6 | "7" => Some D7 | "8" => Some D8 | "9" => Some D9
  | _ => None
  end%char.
Fixpoint take_digits (s : string) : uint * string :=
  match s with
  | "" => (Nil, "")
  | String c s' => match digit c with Some D => let '(n, r) := take_digits s' in (D n, r) | None => (Nil, s) end
  end.
(** A sign and digits; no digit is a failure. *)
Definition get_sign (s : string) : bool * string :=
  match s with String "-"%char s' => (true, s') | String "+"%char s' => (false, s') | _ => (false, s) end.
Definition get_int (s : string) : option (bool * Z * string) :=
  let '(neg, s) := get_sign (skip_ws s) in
  match take_digits s with (Nil, _) => None | (n, r) => Some (neg, Z.of_N (N.of_uint n), r) end.
(** [in >> x] for an unsigned [x] of [w] values: a negative number is taken modulo [w]. *)
Definition get_unsigned (w : Z) (s : string) : option (Z * string) :=
  '(neg, v, r) ← get_int s;
  if w <=? v then None else Some (if neg : bool then (- v) mod w else v, r).
(** For a signed 64-bit [x]. *)
Definition get_i64 (s : string) : option (Z * string) :=
  '(neg, v, r) ← get_int s;
  let v := if neg : bool then - v else v in
  if (-9223372036854775808 <=? v) && (v <? 9223372036854775808) then Some (v, r) else None.
Definition get_u64 := get_unsigned 18446744073709551616.
Definition get_u32 := get_unsigned 4294967296.

(** The lines of [std::getline]; a last line needs no newline. *)
Fixpoint lines (s : string) : list string :=
  match s with
  | "" => []
  | String c s' => if bool_decide (c = "010"%char) then "" :: lines s'
                   else match lines s' with [] => [String c ""] | l :: ls => String c l :: ls end
  end.

(** ** What is printed is read back *)

(** A text that ends a number: its first character, if any, is no digit. *)
Definition stops (s : string) : Prop := match s with "" => True | String c _ => digit c = None end.

Lemma take_digits_uint n r : stops r -> take_digits (NilEmpty.string_of_uint n +:+ r) = (n, r).
Proof.
  intros Hr. induction n as [|n IH|n IH|n IH|n IH|n IH|n IH|n IH|n IH|n IH|n IH]; cbn [NilEmpty.string_of_uint]; [|simpl; by rewrite IH..].
  change (take_digits r = (Nil, r)). destruct r as [|c r]; [done|]. cbn [take_digits]. cbn in Hr. by rewrite Hr.
Qed.
Lemma to_uint_nonnil n : N.to_uint n <> Nil.
Proof. intros H. pose proof (DecimalN.Unsigned.of_to n) as E. rewrite H in E. destruct n; [done|discriminate E]. Qed.

(** The first character of a printed number is a digit: no space and no sign. *)
Lemma u_first n : exists c s, u n = String c s /\ is_space c = false /\ c <> "-"%char /\ c <> "+"%char /\ c <> "010"%char.
Proof.
  unfold u. pose proof (to_uint_nonnil (Z.to_N n)) as H. destruct (N.to_uint (Z.to_N n)); [done|..]; eexists _, _; by split_and!.
Qed.
Lemma u_starts n r : skip_ws (u n +:+ r) = u n +:+ r /\ get_sign (u n +:+ r) = (false, u n +:+ r).
Proof.
  destruct (u_first n) as (c & s & -> & Hs & Hm & Hp & _). change (String c s +:+ r) with (String c (s +:+ r)). cbn [skip_ws]. rewrite Hs.
  split; [done|]. clear Hs. by destruct c as [[] [] [] [] [] [] [] []].
Qed.
Lemma digits_u n r neg : 0 <= n -> stops r ->
  match take_digits (u n +:+ r) with (Nil, _) => None | (m, r) => Some (neg : bool, Z.of_N (N.of_uint m), r) end = Some (neg, n, r).
Proof.
  intros Hn Hr. unfold u. rewrite take_digits_uint by done. pose proof (to_uint_nonnil (Z.to_N n)) as Hu.
  pose proof (DecimalN.Unsigned.of_to (Z.to_N n)) as Hof. destruct (N.to_uint (Z.to_N n)); [done|..]; by rewrite Hof, Z2N.id.
Qed.

Lemma skip_space s : skip_ws (" " +:+ s) = skip_ws s.
Proof. done. Qed.
Lemma get_int_u n r : 0 <= n -> stops r -> get_int (" " +:+ u n +:+ r) = Some (false, n, r).
Proof. intros. unfold get_int. rewrite skip_space. destruct (u_starts n r) as [-> ->]. by apply digits_u. Qed.
Lemma get_int_minus n r : 0 <= n -> stops r -> get_int (" " +:+ "-" +:+ u n +:+ r) = Some (true, n, r).
Proof. intros. unfold get_int. rewrite skip_space. by apply digits_u. Qed.

Lemma get_unsigned_u w n r : 0 <= n < w -> stops r -> get_unsigned w (" " +:+ u n +:+ r) = Some (n, r).
Proof. intros. unfold get_unsigned. rewrite get_int_u by (done || lia). cbn. by rewrite (proj2 (Z.leb_gt _ _)) by lia. Qed.
Lemma string_app_assoc (a b c : string) : (a +:+ b) +:+ c = a +:+ b +:+ c.
Proof. induction a as [|x a IH]; [done|]. change (String x ((a +:+ b) +:+ c) = String x (a +:+ b +:+ c)). by rewrite IH. Qed.
Lemma string_app_nil (a : string) : a +:+ "" = a.
Proof. induction a as [|x a IH]; [done|]. change (String x (a +:+ "") = String x a). by rewrite IH. Qed.
Lemma get_i64_d z r : in_i64 z -> stops r -> get_i64 (" " +:+ d z +:+ r) = Some (z, r).
Proof.
  unfold in_i64. intros Hz Hr. unfold get_i64, d. destruct (Z.ltb_spec z 0).
  - rewrite string_app_assoc, get_int_minus by (done || lia). cbn. rewrite Z.opp_involutive.
    by rewrite (proj2 (Z.leb_le _ _)), (proj2 (Z.ltb_lt _ _)) by lia.
  - rewrite get_int_u by (done || lia). cbn. by rewrite (proj2 (Z.leb_le _ _)), (proj2 (Z.ltb_lt _ _)) by lia.
Qed.

Lemma fields_stop l : stops (fields l).
Proof. by destruct l. Qed.

(** A text without a newline; a file of such lines is read back line by line. *)
Fixpoint one_line (s : string) : bool := match s with "" => true | String c s => negb (bool_decide (c = "010"%char)) && one_line s end.

Lemma one_line_app a b : one_line (a +:+ b) = one_line a && one_line b.
Proof. induction a as [|c a IH]; [done|]. change (one_line (String c a +:+ b)) with (negb (bool_decide (c = "010"%char)) && one_line (a +:+ b)). rewrite IH. apply andb_assoc. Qed.
Lemma one_line_u n : one_line (u n).
Proof. unfold u. induction (N.to_uint (Z.to_N n)); done. Qed.
Lemma one_line_d z : one_line (d z).
Proof. unfold d. case_match; [|apply one_line_u]. rewrite one_line_app. apply andb_prop_intro. split; [done|apply one_line_u]. Qed.
Lemma one_line_fields l : Forall (fun f => one_line f) l -> one_line (fields l).
Proof. induction 1 as [|f l Hf _ IH]; [done|]. cbn [fields foldr]. rewrite !one_line_app. by apply andb_prop_intro; split; [|apply andb_prop_intro]. Qed.

Lemma lines_line s r : one_line s -> lines (s +:+ newline +:+ r) = s :: lines r.
Proof.
  induction s as [|c s IH]; intros Hs; [done|]. cbn [one_line] in Hs. apply andb_prop_elim in Hs as [Hc Hs].
  change (String c s +:+ newline +:+ r) with (String c (s +:+ newline +:+ r)). cbn [lines]. rewrite IH by done.
  by destruct (bool_decide (c = "010"%char)).
Qed.
Lemma lines_tag tag l r : one_line tag -> Forall (fun f => one_line f) l -> lines (line tag l +:+ r) = (tag +:+ fields l) :: lines r.
Proof.
  intros Ht Hl. unfold line. replace ((tag +:+ fields l +:+ newline) +:+ r) with ((tag +:+ fields l) +:+ newline +:+ r) by by rewrite !string_app_assoc.
  apply lines_line. rewrite one_line_app. by apply andb_prop_intro; split; [|apply one_line_fields].
Qed.
End Text.
