(* ===== verification/DiffFeed.v ===== *)
(** * The differential test of the books (tools/exsim_difffeed.cpp)

    One side writes a random stream of commands as text; the other reads it, runs a book, and prints the events. A run that
    has no result stopped: [die], or a configuration the book's constructor refuses. [random_command] uses the generator of
    Rng, so a stream is a function of its seed. *)
From Stdlib Require Import Floats.SpecFloat.
From S2P Require Import Prelude StateM TextFormat Rng Common Engine.

Module DiffFeed.
Import Text.
Local Open Scope string_scope.
Local Open Scope Z_scope.

(** ** The generator *)

Record Gen := mkGen { rng : Rng.t; mid : Z; next_id : Z }.
Definition G := M Gen.
Definition draw {A} (f : Rng.t -> Rng.t * A) : G A := fun s => let '(r, a) := f (rng s) in Some (mkGen r (mid s) (next_id s), a).
Definition chance (p : Rng.double) : G bool := draw (Rng.chance p).
Definition below (n : Z) : G Z := draw (Rng.below n).

(** [std::clamp]. *)
Definition clamp (v lo hi : Z) : Z := if v <? lo then lo else if hi <? v then hi else v.

Definition recent_id : G Z :=
  n ← gets next_id;
  if n <=? 1 then mret 1 else k ← below (Z.min (n - 1) 300); mret (u64 (n - 1 - k)).
Definition new_id : G Z := fun s => Some (mkGen (rng s) (mid s) (u64 (next_id s + 1)), next_id s).
Definition near_price : G Z := m ← gets mid; k ← below 31; mret (m + k - 15).

Definition new_order : G Command :=
  again ← chance (Rng.lit 2 100);
  id ← (if again : bool then recent_id else new_id);
  none ← chance (Rng.lit 5 1000);
  let id := if none : bool then 0 else id in
  buy ← chance (Rng.lit 5 10);
  px ← near_price;
  zero ← chance (Rng.lit 1 100);
  qty ← (if zero : bool then mret 0 else k ← below 20; mret (1 + k));
  owner ← below 4;
  t ← draw Rng.uniform;
  let from a b := negb (Rng.dlt t a) && Rng.dlt t b in
  let market := Rng.dlt t (Rng.lit 5 100) in
  let ioc := from (Rng.lit 5 100) (Rng.lit 13 100) in
  let fok := from (Rng.lit 13 100) (Rng.lit 17 100) in
  let post := from (Rng.lit 17 100) (Rng.lit 22 100) in
  stp ← chance (Rng.lit 3 10);
  mode ← (if stp : bool then k ← below 4; mret (stp_flag (Stp_of_Z k)) else mret 0);
  mret (mkCommand id px 0 0 qty (u32 (1 + owner)) 0 NewOrder (if buy : bool then Buy else Sell) (if market then Market else Limit)
    (if fok then Fok else if ioc then Ioc else Day) (Z.lor (if post then kFlagPostOnly else 0) mode)).

Definition some_id (p : Rng.double) : G Z :=
  recent ← chance p; if recent : bool then recent_id else n ← gets next_id; below (u64 (n + 10)).

Definition random_command (cfg : BookConfig) : G Command :=
  let lo := cfg_min_price cfg in
  let hi := cfg_min_price cfg + cfg_num_levels cfg - 1 in
  moves ← chance (Rng.lit 5 100);
  when moves (k ← below 5; update (fun s => mkGen (rng s) (clamp (mid s + k - 2) (lo + 5) (hi - 5)) (next_id s)));;
  r ← draw Rng.uniform;
  if Rng.dlt r (Rng.lit 5 10) then new_order
  else if Rng.dlt r (Rng.lit 8 10) then
    id ← some_id (Rng.lit 9 10);
    mret (mkCommand id 0 0 0 0 0 0 Cancel Buy Limit Day 0)
  else
    id ← some_id (Rng.lit 95 100);
    px ← near_price;
    zero ← chance (Rng.lit 1 100);
    qty ← (if zero : bool then mret 0 else k ← below 25; mret (1 + k));
    mret (mkCommand id px 0 0 qty 0 0 Modify Buy Limit Day 0).

(** ** The text of commands and events *)

Definition write_command (c : Command) : string :=
  match c_type c with
  | NewOrder => line "N" [u (c_order_id c); u (Side_to_Z (c_side c)); d (c_price c); u (c_qty c); u (OrdType_to_Z (c_ord_type c));
                          u (Tif_to_Z (c_tif c)); u (c_flags c); u (c_owner c)]
  | Cancel => line "X" [u (c_order_id c)]
  | Modify => line "U" [u (c_order_id c); d (c_price c); u (c_qty c)]
  end.
Definition write_config (cfg : BookConfig) : string :=
  line "CONFIG" [d (cfg_min_price cfg); u (cfg_num_levels cfg); u (cfg_max_orders cfg); u (Stp_to_Z (cfg_stp cfg))].

(** [static_cast] into an enumeration of one byte: a byte that is no enumerator has no result. *)
Definition cast {A} (values : list A) (v : Z) : option A := values.[u8 v].
Definition sides : list Side := [Buy; Sell].
Definition ord_types : list OrdType := [Limit; Market].
Definition tifs : list Tif := [Day; Ioc; Fok].
Definition stps : list Stp := [StpNone; CancelResting; CancelIncoming; DecrementCancel].

Definition get_new (s : string) : option (option Command) :=
  match ('(id, s) ← get_u64 s; '(side, s) ← get_u32 s; '(px, s) ← get_i64 s; '(qty, s) ← get_u64 s; '(ot, s) ← get_u32 s;
         '(tif, s) ← get_u32 s; '(flags, s) ← get_u32 s; '(owner, s) ← get_u32 s; Some (id, side, px, qty, ot, tif, flags, owner)) with
  | None => Some None
  | Some (id, side, px, qty, ot, tif, flags, owner) =>
      side ← cast sides side; ot ← cast ord_types ot; tif ← cast tifs tif;
      Some (Some (mkCommand id px 0 0 qty owner 0 NewOrder side ot tif (u8 flags)))
  end.

(** [parse_command]: [Some None] is the line it refuses. *)
Definition parse_command (s : string) : option (option Command) :=
  match get_word s with
  | None => Some None
  | Some (tag, s) =>
      if bool_decide (tag = "N") then get_new s
      else if bool_decide (tag = "X") then
        Some ('(id, _) ← get_u64 s; Some (mkCommand id 0 0 0 0 0 0 Cancel Buy Limit Day 0))
      else if bool_decide (tag = "U") then
        Some ('(id, s) ← get_u64 s; '(px, s) ← get_i64 s; '(qty, _) ← get_u64 s; Some (mkCommand id px 0 0 qty 0 0 Modify Buy Limit Day 0))
      else Some None
  end.

(** [Some None]: not a configuration. The fields are 64-bit signed, 32-bit, 32-bit, 32-bit. *)
Definition parse_config (s : string) : option (option BookConfig) :=
  match ('(tag, s) ← get_word s; '(mn, s) ← get_i64 s; '(n, s) ← get_u32 s; '(mx, s) ← get_u32 s; '(stp, _) ← get_u32 s; Some (tag, mn, n, mx, stp)) with
  | Some (tag, mn, n, mx, stp) =>
      if bool_decide (tag = "CONFIG") then m ← cast stps stp; Some (Some (mkBookConfig mn n mx m)) else Some None
  | None => Some None
  end.

(** [TextSink]. *)
Definition text_of (e : Event) : string :=
  let side := u (Side_to_Z (e_side e)) in
  let reason := u (Reason_to_Z (e_reason e)) in
  match e_type e with
  | Accepted => line "A" [u (e_order_id e); side; d (e_price e); u (e_qty e)]
  | Rejected => line "R" [u (e_order_id e); side; u (match e_request e with Some m => MsgType_to_Z m | None => 0 end); reason]
  | Trade => line "T" [u (e_order_id e); u (e_maker_id e); side; d (e_price e); u (e_qty e); u (e_leaves e)]
  | Canceled => line "C" [u (e_order_id e); side; d (e_price e); u (e_qty e); reason]
  | Modified => line "M" [u (e_order_id e); side; d (e_price e); u (e_qty e); reason]
  end.
Definition write_events (es : list Event) : string := foldr (fun e s => text_of e +:+ s) "" es.

(** The file [--gen n --seed seed --stp stp]: the configuration, then [n] commands. *)
Definition gen_config (stp : Stp) : BookConfig := mkBookConfig 1000 128 200 stp.
Fixpoint gen_commands (cfg : BookConfig) (n : nat) : G (list Command) :=
  match n with O => mret [] | S n => c ← random_command cfg; cs ← gen_commands cfg n; mret (c :: cs) end.
Definition write_commands (cs : list Command) : string := foldr (fun c s => write_command c +:+ s) "" cs.
Definition write_file (cfg : BookConfig) (cs : list Command) : string := write_config cfg +:+ write_commands cs.
Definition gen (n : nat) (seed : Z) (stp : option Stp) : option string :=
  let '(rng, k) := Rng.below 4 (Rng.make seed) in
  let cfg := gen_config (default (Stp_of_Z k) stp) in
  match gen_commands cfg n (mkGen rng (cfg_min_price cfg + cfg_num_levels cfg / 2) 1) with
  | Some (_, cs) => Some (write_file cfg cs)
  | None => None
  end.

(** ** The reader *)

Section replay.
Context {Bk : Type} `{BookImpl Bk}.

Record Run := mkRun { book : option Bk; n : Z; sink_n : Z; out : string }.

Definition on_line (l : string) : M Run unit :=
  cfg ← lift (parse_config l);
  match cfg with
  | Some cfg => b ← lift (bk_make 0 cfg); update (fun s => mkRun (Some b) (n s) (sink_n s) (out s))
  | None =>
      c ← lift (parse_command l);
      match c with
      | None => mret tt
      | Some c =>
          b ← gets book;
          b ← lift b;
          r ← lift (bk_step b c);
          update (fun s => mkRun (Some r.1) (u64 (n s + 1)) (u64 (sink_n s + Z.of_nat (length r.2))) (out s +:+ write_events r.2))
      end
  end.
(** The text printed, and the counts of commands and events. *)
Definition replay (file : string) : option (string * (Z * Z)) :=
  match for_each (lines file) on_line (mkRun None 0 0 "") with
  | Some (s, _) => Some (out s, (n s, sink_n s))
  | None => None
  end.
End replay.
Arguments Run : clear implicits.
End DiffFeed.
