(* ===== verification/DiffFeedLaws.v ===== *)
(** * What the differential test shows

    Every command and configuration that is written is read back, so a book that reads a written file takes exactly the
    commands that were written; on the generated streams all books print the text of the reference book, and none stops. *)
From Stdlib Require Import Floats.SpecFloat.
From S2P Require Import Prelude StateM TextFormat Rng Common Interfaces ReferenceBook OrderBook BookRefine BookEquiv Engine BookApi DiffFeed.
Import Text DiffFeed BookEquiv.
Local Open Scope string_scope.
Local Open Scope Z_scope.

Module DiffFeedLaws.

(** ** The text is read back *)

(** What the text of a command says: the other fields are those of [Command{}]. *)
Definition stripped (c : Command) : Command :=
  match c_type c with
  | NewOrder => mkCommand (c_order_id c) (c_price c) 0 0 (c_qty c) (c_owner c) 0 NewOrder (c_side c) (c_ord_type c) (c_tif c) (c_flags c)
  | Cancel => mkCommand (c_order_id c) 0 0 0 0 0 0 Cancel Buy Limit Day 0
  | Modify => mkCommand (c_order_id c) (c_price c) 0 0 (c_qty c) 0 0 Modify Buy Limit Day 0
  end.
Definition cfg_fits (cfg : BookConfig) : Prop := in_i64 (cfg_min_price cfg) /\ in_u32 (cfg_num_levels cfg) /\ in_u32 (cfg_max_orders cfg).

Lemma fields_cons f l : fields (f :: l) = " " +:+ f +:+ fields l.
Proof. done. Qed.
Lemma get_u64_field n l : in_u64 n -> get_u64 (fields (u n :: l)) = Some (n, fields l).
Proof. intros. rewrite fields_cons. apply get_unsigned_u; [done|apply fields_stop]. Qed.
Lemma get_u32_field n l : in_u32 n -> get_u32 (fields (u n :: l)) = Some (n, fields l).
Proof. intros. rewrite fields_cons. apply get_unsigned_u; [done|apply fields_stop]. Qed.
Lemma get_i64_field z l : in_i64 z -> get_i64 (fields (d z :: l)) = Some (z, fields l).
Proof. intros. rewrite fields_cons. apply get_i64_d; [done|apply fields_stop]. Qed.

(** The bytes of the enumerations. *)
Lemma side_u32 s : in_u32 (Side_to_Z s) /\ cast sides (Side_to_Z s) = Some s.
Proof. by destruct s. Qed.
Lemma ord_type_u32 o : in_u32 (OrdType_to_Z o) /\ cast ord_types (OrdType_to_Z o) = Some o.
Proof. by destruct o. Qed.
Lemma tif_u32 t : in_u32 (Tif_to_Z t) /\ cast tifs (Tif_to_Z t) = Some t.
Proof. by destruct t. Qed.
Lemma stp_u32 m : in_u32 (Stp_to_Z m) /\ cast stps (Stp_to_Z m) = Some m.
Proof. by destruct m. Qed.
Lemma u8_u32 x : in_u8 x -> in_u32 x.
Proof. unfold in_u8, in_u32. lia. Qed.

(** The tag and the fields of a line. *)
Definition tag_of (c : Command) : string := match c_type c with NewOrder => "N" | Cancel => "X" | Modify => "U" end.
Definition fields_of (c : Command) : list string :=
  match c_type c with
  | NewOrder => [u (c_order_id c); u (Side_to_Z (c_side c)); d (c_price c); u (c_qty c); u (OrdType_to_Z (c_ord_type c));
                 u (Tif_to_Z (c_tif c)); u (c_flags c); u (c_owner c)]
  | Cancel => [u (c_order_id c)]
  | Modify => [u (c_order_id c); d (c_price c); u (c_qty c)]
  end.
Lemma write_command_line c : write_command c = line (tag_of c) (fields_of c).
Proof. unfold write_command, tag_of, fields_of. by destruct (c_type c). Qed.
Lemma get_word_command c : get_word (tag_of c +:+ fields (fields_of c)) = Some (tag_of c, fields (fields_of c)).
Proof. unfold tag_of, fields_of. by destruct (c_type c). Qed.

Lemma parse_written c : command_wf c -> parse_command (tag_of c +:+ fields (fields_of c)) = Some (Some (stripped c)).
Proof.
  intros (Hid & Hpx & _ & _ & Hq & Ho & _ & Hf). unfold parse_command. rewrite get_word_command. unfold tag_of, fields_of, stripped.
  destruct (c_type c); cbn [bool_decide decide_rel decide].
  - rewrite bool_decide_true by done. unfold get_new. destruct (side_u32 (c_side c)) as [Hs Hs'].
    destruct (ord_type_u32 (c_ord_type c)) as [Ht Ht']. destruct (tif_u32 (c_tif c)) as [Hi Hi'].
    do 8 (first [rewrite get_u64_field by done|rewrite get_u32_field by auto using u8_u32|rewrite get_i64_field by done]; cbn [mbind option_bind]).
    rewrite Hs', Ht', Hi'. cbn [mbind option_bind]. by rewrite u8_small.
  - rewrite bool_decide_false, bool_decide_true by done. by rewrite get_u64_field.
  - rewrite !bool_decide_false, bool_decide_true by done. rewrite get_u64_field by done. cbn [mbind option_bind].
    rewrite get_i64_field by done. cbn [mbind option_bind]. by rewrite get_u64_field.
Qed.
Lemma parse_config_command c : parse_config (tag_of c +:+ fields (fields_of c)) = Some None.
Proof.
  unfold parse_config. rewrite get_word_command. cbn [mbind option_bind]. destruct (get_i64 _) as [[mn s1]|]; cbn [mbind option_bind]; [|done].
  destruct (get_u32 s1) as [[n s2]|]; cbn [mbind option_bind]; [|done]. destruct (get_u32 s2) as [[m s3]|]; cbn [mbind option_bind]; [|done].
  destruct (get_u32 s3) as [[k s4]|]; cbn [mbind option_bind]; [|done]. rewrite bool_decide_false; [done|].
  unfold tag_of. by destruct (c_type c).
Qed.

Definition config_fields (cfg : BookConfig) : list string :=
  [d (cfg_min_price cfg); u (cfg_num_levels cfg); u (cfg_max_orders cfg); u (Stp_to_Z (cfg_stp cfg))].
Lemma parse_written_config cfg : cfg_fits cfg -> parse_config ("CONFIG" +:+ fields (config_fields cfg)) = Some (Some cfg).
Proof.
  intros (H1 & H2 & H3). unfold parse_config. destruct (stp_u32 (cfg_stp cfg)) as [H4 H4'].
  replace (get_word ("CONFIG" +:+ fields (config_fields cfg))) with (Some ("CONFIG", fields (config_fields cfg))) by done.
  unfold config_fields. cbn [mbind option_bind]. rewrite get_i64_field by done. cbn [mbind option_bind].
  do 3 (rewrite get_u32_field by done; cbn [mbind option_bind]). rewrite bool_decide_true by done. rewrite H4'. by destruct cfg.
Qed.

Lemma fields_one_line c : one_line (tag_of c) /\ Forall (fun f => one_line f) (fields_of c).
Proof.
  unfold tag_of, fields_of. destruct (c_type c); split; try done; repeat constructor; first [apply one_line_u|apply one_line_d].
Qed.
Lemma config_one_line cfg : Forall (fun f => one_line f) (config_fields cfg).
Proof. repeat constructor; first [apply one_line_u|apply one_line_d]. Qed.

(** ** A book that reads what was written *)

Section reader.
Context {Bk : Type} `{BookImpl Bk}.
Implicit Types (s : Run Bk) (b : Bk) (c : Command).

Lemma lines_commands cs : lines (write_commands cs) = (fun c => tag_of c +:+ fields (fields_of c)) <$> cs.
Proof.
  induction cs as [|c cs IH]; [done|]. cbn [write_commands foldr fmap list_fmap]. rewrite write_command_line. destruct (fields_one_line c).
  rewrite lines_tag by done. by f_equal.
Qed.
Lemma lines_file cfg cs : lines (write_file cfg cs) = ("CONFIG" +:+ fields (config_fields cfg)) :: ((fun c => tag_of c +:+ fields (fields_of c)) <$> cs).
Proof. unfold write_file. change (write_config cfg) with (line "CONFIG" (config_fields cfg)). rewrite lines_tag; [|done|apply config_one_line]. f_equal. apply lines_commands. Qed.

Lemma on_command c s b : command_wf c -> book s = Some b ->
  on_line (tag_of c +:+ fields (fields_of c)) s =
    match bk_step b (stripped c) with
    | Some (b', es) => Some (mkRun (Some b') (u64 (n s + 1)) (u64 (sink_n s + Z.of_nat (length es))) (out s +:+ write_events es), tt)
    | None => None
    end.
Proof.
  intros Hc Hb. unfold on_line. rewrite parse_config_command, parse_written by done. unfold mbind, M_bind, lift, gets, update. rewrite Hb.
  by destruct (bk_step b (stripped c)) as [[b' es]|].
Qed.
Lemma on_config cfg s : cfg_fits cfg ->
  on_line ("CONFIG" +:+ fields (config_fields cfg)) s = match bk_make 0 cfg with Some b => Some (mkRun (Some b) (n s) (sink_n s) (out s), tt) | None => None end.
Proof. intros Hc. unfold on_line. rewrite parse_written_config by done. unfold mbind, M_bind, lift, update. by destruct (bk_make 0 cfg). Qed.

Lemma write_events_app es es' : write_events (es ++ es') = write_events es +:+ write_events es'.
Proof. induction es as [|e es IH]; [done|]. cbn [app write_events foldr]. unfold write_events in IH. by rewrite IH, string_app_assoc. Qed.

Lemma on_commands cs : forall s b, Forall command_wf cs -> book s = Some b -> in_u64 (n s) -> in_u64 (sink_n s) ->
  for_each ((fun c => tag_of c +:+ fields (fields_of c)) <$> cs) on_line s =
    match MatchingEngine.book_run b (stripped <$> cs) with
    | Some (b', es) => Some (mkRun (Some b') (u64 (n s + Z.of_nat (length cs))) (u64 (sink_n s + Z.of_nat (length es))) (out s +:+ write_events es), tt)
    | None => None
    end.
Proof.
  induction cs as [|c cs IH]; intros s b Hcs Hb Hn Hk; cbn [fmap list_fmap for_each MatchingEngine.book_run length].
  - rewrite !Z.add_0_r, !u64_small by done. destruct s as [bk n0 k0 o]. cbn in *. subst bk. unfold write_events. cbn [foldr].
    by rewrite string_app_nil.
  - apply Forall_cons in Hcs as [Hc Hcs]. unfold mbind at 1, M_bind. rewrite (on_command c s b) by done.
    destruct (bk_step b (stripped c)) as [[b1 es]|]; cbn [mbind option_bind]; [|done].
    rewrite (IH _ b1) by (done || apply in_u64_u64). destruct (MatchingEngine.book_run b1 (stripped <$> cs)) as [[b2 es2]|]; cbn [mbind option_bind]; [|done].
    cbn [n sink_n out]. rewrite !u64_add_l, write_events_app, string_app_assoc, length_app.
    do 3 f_equal; f_equal; lia.
Qed.

(** The text of a run, and its counts. *)
Definition printed (cfg : BookConfig) (cs : list Command) : option (string * (Z * Z)) :=
  b ← bk_make 0 cfg; '(_, es) ← MatchingEngine.book_run b cs;
  Some (write_events es, (u64 (Z.of_nat (length cs)), u64 (Z.of_nat (length es)))).

Lemma printed_of cfg cs b b' es : bk_make 0 cfg = Some b -> MatchingEngine.book_run b cs = Some (b', es) ->
  printed cfg cs = Some (write_events es, (u64 (Z.of_nat (length cs)), u64 (Z.of_nat (length es)))).
Proof. unfold printed. intros -> H1. cbn [mbind option_bind]. by rewrite H1. Qed.

Lemma replay_written cfg cs : cfg_fits cfg -> Forall command_wf cs -> replay (write_file cfg cs) = printed cfg (stripped <$> cs).
Proof.
  intros Hcfg Hcs. unfold replay, printed. rewrite lines_file. cbn [for_each]. unfold mbind at 1, M_bind. rewrite on_config by done.
  destruct (bk_make 0 cfg) as [b|]; [|done]. cbn [mbind option_bind]. rewrite (on_commands cs _ b) by (done || apply in_u64_u64).
  destruct (MatchingEngine.book_run b (stripped <$> cs)) as [[b' es]|]; [|done]. cbn [n sink_n out mbind option_bind].
  by rewrite length_fmap.
Qed.
End reader.

(** ** The generated streams *)

Section generator.
Context (cfg : BookConfig).
Definition lo : Z := cfg_min_price cfg.
Definition hi : Z := cfg_min_price cfg + cfg_num_levels cfg - 1.
Hypothesis Hroom : lo + 5 <= hi - 5.
Hypothesis Hband : -1000000000 <= lo /\ hi <= 1000000000.

Record gen_ok (s : Gen) : Prop := {
  go_rng : Rng.wf (rng s);
  go_mid : lo + 5 <= mid s <= hi - 5;
  go_id : in_u64 (next_id s);
}.
Record fits (c : Command) : Prop := {
  ft_wf : command_wf c;
  ft_text : stripped c = c;
  ft_price : -1000000010 <= c_price c <= 1000000010;
  ft_band : c_type c <> Cancel -> lo - 10 <= c_price c <= hi + 10;
  ft_qty : 0 <= c_qty c <= 25;
}.

Lemma wp_draw {A} (f : Rng.t -> Rng.t * A) (Q : A -> Gen -> Prop) s : gen_ok s -> (forall r, Rng.wf r -> Rng.wf (f r).1) ->
  (forall s', gen_ok s' -> Q (f (rng s)).2 s') -> wp False (draw f) Q s.
Proof.
  intros [H1 H2 H3] Hf HQ. unfold wp, draw. specialize (Hf _ H1). destruct (f (rng s)) as [r a]. apply HQ. by split.
Qed.
Lemma wp_chance p (Q : bool -> Gen -> Prop) s : gen_ok s -> (forall b s', gen_ok s' -> Q b s') -> wp False (chance p) Q s.
Proof. intros H HQ. apply wp_draw; [done|apply Rng.wf_chance|auto]. Qed.
Lemma wp_uniform (Q : Rng.double -> Gen -> Prop) s : gen_ok s -> (forall b s', gen_ok s' -> Q b s') -> wp False (draw Rng.uniform) Q s.
Proof. intros H HQ. apply wp_draw; [done|apply Rng.wf_uniform|auto]. Qed.
Lemma wp_below k (Q : Z -> Gen -> Prop) s : gen_ok s -> 0 < k < 4294967296 -> (forall v s', gen_ok s' -> 0 <= v < k -> Q v s') -> wp False (below k) Q s.
Proof. intros H Hk HQ. apply wp_draw; [done|apply Rng.wf_below|]. intros s' Hs'. apply HQ; [done|]. by apply Rng.below_lt; [apply H|]. Qed.
Lemma wp_below_any k (Q : Z -> Gen -> Prop) s : gen_ok s -> (forall v s', gen_ok s' -> in_u64 v -> Q v s') -> wp False (below k) Q s.
Proof. intros H HQ. apply wp_draw; [done|apply Rng.wf_below|]. intros s' Hs'. apply HQ; [done|]. by apply Rng.below_u64. Qed.

Lemma wp_recent_id (Q : Z -> Gen -> Prop) s : gen_ok s -> (forall v s', gen_ok s' -> in_u64 v -> Q v s') -> wp False recent_id Q s.
Proof.
  intros H HQ. unfold recent_id. repeat wp_step; [by apply HQ|]. apply wp_below_any; [done|]. intros v s' Hs' _. wp_step. apply HQ; [done|apply in_u64_u64].
Qed.
Lemma wp_new_id (Q : Z -> Gen -> Prop) s : gen_ok s -> (forall v s', gen_ok s' -> in_u64 v -> Q v s') -> wp False new_id Q s.
Proof. intros [H1 H2 H3] HQ. unfold wp, new_id. apply HQ; [|done]. split; [done|done|apply in_u64_u64]. Qed.
Lemma wp_some_id p (Q : Z -> Gen -> Prop) s : gen_ok s -> (forall v s', gen_ok s' -> in_u64 v -> Q v s') -> wp False (some_id p) Q s.
Proof.
  intros H HQ. unfold some_id. wp_step. apply wp_chance; [done|]. intros b s' Hs'. wp_step; [by apply wp_recent_id|].
  repeat wp_step. by apply wp_below_any.
Qed.
Lemma wp_near_price (Q : Z -> Gen -> Prop) s : gen_ok s -> (forall v s', gen_ok s' -> lo - 10 <= v <= hi + 10 -> Q v s') -> wp False near_price Q s.
Proof.
  intros H HQ. unfold near_price. repeat wp_step. pose proof (go_mid _ H). apply wp_below; [done|lia|]. intros v s' Hs' Hv. wp_step. apply HQ; [done|lia].
Qed.
(** [chance(p) ? 0 : 1 + below(k)]. *)
Lemma wp_size (b : bool) k (Q : Z -> Gen -> Prop) s : gen_ok s -> 0 < k <= 25 -> (forall v s', gen_ok s' -> 0 <= v <= 25 -> Q v s') ->
  wp False (if b then mret 0 else v ← below k; mret (1 + v)) Q s.
Proof.
  intros H Hk HQ. wp_step; [wp_step; apply HQ; [done|lia]|]. wp_step. apply wp_below; [done|lia|]. intros v s' Hs' Hv. wp_step. apply HQ; [done|lia].
Qed.
Lemma wp_mode (b : bool) (Q : Z -> Gen -> Prop) s : gen_ok s -> (forall m s', gen_ok s' -> (m = 0 \/ exists x, m = stp_flag x) -> Q m s') ->
  wp False (if b then k ← below 4; mret (stp_flag (Stp_of_Z k)) else mret 0) Q s.
Proof.
  intros H HQ. wp_step; [|wp_step; apply HQ; auto]. wp_step. apply wp_below; [done|lia|]. intros v s' Hs' _. wp_step. apply HQ; [done|]. eauto.
Qed.
Lemma flags_u8 (post : bool) m : m = 0 \/ (exists x, m = stp_flag x) -> in_u8 (Z.lor (if post then kFlagPostOnly else 0) m).
Proof. intros [->|[x ->]]; by destruct post; try destruct x. Qed.

Lemma wp_new_order s : gen_ok s -> wp False new_order (fun c s' => fits c /\ gen_ok s') s.
Proof.
  intros H. unfold new_order. wp_step. apply wp_chance; [done|]. intros again s1 H1. wp_step.
  assert (forall Q : Z -> Gen -> Prop, (forall v s', gen_ok s' -> in_u64 v -> Q v s') -> wp False (if again then recent_id else new_id) Q s1) as Hid.
  { intros Q HQ. wp_step; [by apply wp_recent_id|by apply wp_new_id]. }
  apply Hid. clear Hid H1. intros id s2 H2 Hid. wp_step. apply wp_chance; [done|]. intros none s3 H3.
  wp_step. apply wp_chance; [done|]. intros buy s4 H4. wp_step. apply wp_near_price; [done|]. intros px s5 H5 Hpx.
  wp_step. apply wp_chance; [done|]. intros zero s6 H6. wp_step. apply wp_size; [done|lia|]. intros qty s7 H7 Hq.
  wp_step. apply wp_below; [done|lia|]. intros owner s8 H8 Ho. wp_step. apply wp_uniform; [done|]. intros t s9 H9. cbv zeta.
  wp_step. apply wp_chance; [done|]. intros stp s10 H10. wp_step. apply wp_mode; [done|]. intros m s11 H11 Hm.
  wp_step. split; [|done]. assert (in_u64 (if none then 0 else id)) by (by destruct none).
  pose proof (in_u32_u32 (1 + owner)). pose proof (flags_u8 (negb (Rng.dlt t (Rng.lit 17 100)) && Rng.dlt t (Rng.lit 22 100)) m Hm).
  split; [|done|cbn; lia|cbn; lia|done]. unfold command_wf. cbn -[Z.lor u32]. split_and!; try done; unfold in_i64, in_u64; lia.
Qed.

Lemma wp_command s : gen_ok s -> wp False (random_command cfg) (fun c s' => fits c /\ gen_ok s') s.
Proof.
  intros H. unfold random_command. cbv zeta. wp_step. apply wp_chance; [done|]. intros moves s1 H1. wp_step.
  eapply (wp_mono _ _ (fun _ => gen_ok)).
  { wp_step; [|done]. wp_step. apply wp_below; [done|lia|]. intros k s2 H2 _. wp_step. split; cbn; [apply H2| |apply H2].
    clear -Hroom. unfold clamp, lo, hi in *. repeat case_if; lia. }
  intros _ s2 H2. wp_step. apply wp_uniform; [done|]. intros r s3 H3. wp_step; [by apply wp_new_order|]. wp_step; wp_step.
  - apply wp_some_id; [done|]. intros id s4 G4 Hid. wp_step. split; [|done]. split; [|done|cbn; lia|done|cbn; lia]. done.
  - apply wp_some_id; [done|]. intros id s4 G4 Hid. wp_step. apply wp_near_price; [done|]. intros px s5 G5 Hpx.
    wp_step. apply wp_chance; [done|]. intros zero s6 G6. wp_step. apply wp_size; [done|lia|]. intros qty s7 H7 Hq. wp_step. split; [|done].
    split; [|done|cbn; lia|cbn; lia|done]. unfold command_wf. cbn. split_and!; try done; unfold in_i64, in_u64; lia.
Qed.
Lemma wp_commands k s : gen_ok s -> wp False (gen_commands cfg k) (fun cs s' => Forall fits cs /\ length cs = k /\ gen_ok s') s.
Proof.
  revert s. induction k as [|k IH]; intros s H; cbn [gen_commands]; [by wp_step|]. wp_step. eapply wp_mono; [by apply wp_command|].
  intros c s1 [Hc H1]. wp_step. eapply wp_mono; [by apply IH|]. intros cs s2 (Hcs & Hl & H2). wp_step. split_and!; [by constructor|cbn; by f_equal|done].
Qed.
End generator.

Section streams.
Context {S I B : Type} {OF : OrderFields S} {OFL : OrderFieldsLaws S} {IX : IdIndex I} {IXL : IdIndexLaws I}
  {LS : LevelSet B} {LSL : LevelSetLaws B}.

(** Written commands whose sizes cannot wrap an aggregate: the fast book prints what the reference book prints. *)
Lemma printed_agree cfg cs : cfg_ok cfg -> commands_ok cfg cs ->
  exists text, printed (Bk := OB.t S I B) cfg cs = Some text /\ printed (Bk := RB.t) cfg cs = Some text.
Proof.
  intros Hcfg Hcs. destruct (whole_run (S := S) (I := I) (B := B) 0 cfg cs Hcfg Hcs) as (b & b' & r' & es & Hb & Hr & Hrr & _).
  eexists. split; [by apply (printed_of _ _ b b' es)|by apply (printed_of _ _ (RB.make 0 cfg) r' es)].
Qed.

(** C30: whatever the seed, the stream of any length is written, has that many commands, and the text the tool prints for it is
    the same over any layout, index and level set and over the reference book: none of them stops before the end. *)
Theorem differential_streams_agree k seed stp :
  exists file text events, gen k seed stp = Some file /\
    replay (Bk := OB.t S I B) file = Some (text, (u64 (Z.of_nat k), events)) /\
    replay (Bk := RB.t) file = Some (text, (u64 (Z.of_nat k), events)).
Proof.
  unfold gen. pose proof (Rng.wf_below 4 _ (Rng.rng_wf_make seed)) as Hw. destruct (Rng.below 4 (Rng.make seed)) as [r v].
  set (cfg := gen_config (default (Stp_of_Z v) stp)). destruct (wp_total _ _ _ (wp_commands cfg ltac:(done) ltac:(done) k
    (mkGen r (cfg_min_price cfg + cfg_num_levels cfg / 2) 1) ltac:(by split))) as (s' & cs & -> & Hcs & Hl & _).
  assert (stripped <$> cs = cs) as Hst by (clear -Hcs; induction Hcs as [|c cs [] _ IH]; cbn; congruence).
  assert (commands_ok cfg cs) as Hok.
  { split; [|right; exists 25; split_and!; [lia|done|]]; eapply Forall_impl; [done| |done|]; intros c [? ? Hp ? Hq]; [|lia].
    split; [cbn; unfold in_i64; lia|lia]. }
  assert (cfg_ok cfg) as Hcfg by (split_and!; try done; split; done).
  destruct (printed_agree cfg cs Hcfg Hok) as ([text [c e]] & H1 & H2). exists (write_file cfg cs), text, e. split; [done|].
  assert (Forall command_wf cs) as Hwf by (eapply Forall_impl; [done|]; by intros c' []).
  rewrite !replay_written, Hst, H1, H2 by done. enough (c = u64 (Z.of_nat k)) as -> by done.
  unfold printed in H2. inv_bind. destruct x0 as [b es]. inv_bind. congruence.
Qed.
End streams.
End DiffFeedLaws.
