(* ===== verification/L3Replay.v ===== *)
(** * The replay of an exchange's day (tools/exsim_l3replay.cpp, second pass)

    Two books run side by side: the truth book applies the exchange's messages literally, the engine gets the inputs alone
    (arrivals, cancels, modifies) and matches them itself. Each arrival or modify is an episode, whose predicted trades are
    compared with the exchange's. [Replay] is a program of StateM over the object's fields; what it prints as it goes, the
    trace and the counts of printed examples are left out, the command stream of [--emit-commands] is kept. *)
From stdpp Require Import sorting.
From S2P Require Import Prelude StateM TextFormat Common OrdMap ReferenceBook OrderBook Engine BookApi DiffFeed.
From S2P Require Import L3 L3Laws L3Infer.

Local Open Scope Z_scope.

(** The counters of a run. *)
Module Stats.
Inductive field :=
  | records | received | received_market | funds_derived | post_only_inferred | ioc_inferred | out_of_band | cancels | modifies
  | stp_changes | episodes | trading_episodes | exact | mismatched | mismatched_stp | cb_matches | matched_exact | rest_checked
  | rest_mismatch | book_checks | book_check_failures | rebuilds | repairs | gaps | truth_errors | resyncs | abandoned | unreplayed
  | unmatched_fill_done | unmatched_fill_qty | orphan_matches | clamped | fill_modifies | modify_out_of_band | stp_orders.
#[export] Instance field_eq_dec : EqDecision field.
Proof. solve_decision. Defined.
Definition t : Type := field -> Z.
Definition zero : t := fun _ => 0.
(** [st_.f += n], or [-=] for a negative [n]. *)
Definition bump (f : field) (n : Z) (st : t) : t := fun g => if decide (g = f) then u64 (st g + n) else st g.
End Stats.

Module Replay.
Import Inference (Rec, seq, ts, rid, rid2, rpx, rq, kind, otype, has, side_of, Life, opened, changed, taker_filled, stp_cancelled, stp, fresh_life,
  SnapOrder, SnapEnd, Received, Open, Done, Match, Change_, FundsOnly, Canceled_, StpFlag, FundsChange, sort_by_seq).
Import Stats.

Definition kLevels : Z := 16777216.
Definition kMaxOrders : Z := 2097152.

Record Trade := mkTrade { maker : Z; px : Z; qty : Z }.
#[export] Instance Trade_eq_dec : EqDecision Trade.
Proof. solve_decision. Defined.

(** What the run is given: the facts of the first pass and the options. *)
Record Options := mkOptions { life_ : gmap Z Life; stp_ : bool; check_every_ : Z; drop_cancel_every_ : Z; emitting : bool }.

Record Episode := mkEpisode {
  ep_active_ : bool; ep_stp_ : bool; ep_rest_known_ : bool; ep_taker_rested_ : bool;
  ep_taker_ : Z; ep_seq_ : Z; ep_pred_ : list Trade; ep_actual_ : list Trade; ep_taker_px_ : Z;
}.
Record Feed := mkFeed { loading_snap_ : bool; synced_ : bool; snap_seq_ : Z; last_seq_ : Z; pre_snapshot_ : list Rec }.
Record Checks := mkChecks { need_rebuild_ : bool; repair_px_ : list Z; last_check_ : Z; pending_check_ : bool }.

Section replay.
Context {Bk : Type} `{BookApi Bk} (opt : Options).

Record Engine := mkEngine { engine_ : option Bk; min_px_ : Z; accounts_ : Accounts.t; emit_ : string }.
Record t := mk {
  eng : Engine; truth_ : TruthBook.t; feed : Feed; ep : Episode; checks : Checks;
  modify_fills_ : gmap Z (list Trade); cancel_count_ : Z; st_ : Stats.t;
}.
Definition make (accounts : Accounts.t) : t :=
  mk (mkEngine None 0 accounts EmptyString) TruthBook.make (mkFeed false false 0 0 []) (mkEpisode false false false false 0 0 [] [] 0)
    (mkChecks false [] 0 false) ∅ 0 zero.

Abbreviation M := (StateM.M t).
Definition set_eng (f : Engine -> Engine) (s : t) : t := mk (f (eng s)) (truth_ s) (feed s) (ep s) (checks s) (modify_fills_ s) (cancel_count_ s) (st_ s).
Definition set_truth (b : TruthBook.t) (s : t) : t := mk (eng s) b (feed s) (ep s) (checks s) (modify_fills_ s) (cancel_count_ s) (st_ s).
Definition set_feed (f : Feed -> Feed) (s : t) : t := mk (eng s) (truth_ s) (f (feed s)) (ep s) (checks s) (modify_fills_ s) (cancel_count_ s) (st_ s).
Definition set_ep (f : Episode -> Episode) (s : t) : t := mk (eng s) (truth_ s) (feed s) (f (ep s)) (checks s) (modify_fills_ s) (cancel_count_ s) (st_ s).
Definition set_checks (f : Checks -> Checks) (s : t) : t := mk (eng s) (truth_ s) (feed s) (ep s) (f (checks s)) (modify_fills_ s) (cancel_count_ s) (st_ s).
Definition set_fills (m : gmap Z (list Trade)) (s : t) : t := mk (eng s) (truth_ s) (feed s) (ep s) (checks s) m (cancel_count_ s) (st_ s).
Definition set_cancel_count (n : Z) (s : t) : t := mk (eng s) (truth_ s) (feed s) (ep s) (checks s) (modify_fills_ s) n (st_ s).
Definition set_st (f : Stats.t -> Stats.t) (s : t) : t := mk (eng s) (truth_ s) (feed s) (ep s) (checks s) (modify_fills_ s) (cancel_count_ s) (f (st_ s)).

Definition with_active (b : bool) (e : Episode) : Episode :=
  mkEpisode b (ep_stp_ e) (ep_rest_known_ e) (ep_taker_rested_ e) (ep_taker_ e) (ep_seq_ e) (ep_pred_ e) (ep_actual_ e) (ep_taker_px_ e).
Definition with_stp (e : Episode) : Episode :=
  mkEpisode (ep_active_ e) true (ep_rest_known_ e) (ep_taker_rested_ e) (ep_taker_ e) (ep_seq_ e) (ep_pred_ e) (ep_actual_ e) (ep_taker_px_ e).
Definition with_rested (e : Episode) : Episode :=
  mkEpisode (ep_active_ e) (ep_stp_ e) (ep_rest_known_ e) true (ep_taker_ e) (ep_seq_ e) (ep_pred_ e) (ep_actual_ e) (ep_taker_px_ e).
Definition with_actual (l : list Trade) (e : Episode) : Episode :=
  mkEpisode (ep_active_ e) (ep_stp_ e) (ep_rest_known_ e) (ep_taker_rested_ e) (ep_taker_ e) (ep_seq_ e) (ep_pred_ e) l (ep_taker_px_ e).
Definition with_seq (n : Z) (e : Episode) : Episode :=
  mkEpisode (ep_active_ e) (ep_stp_ e) (ep_rest_known_ e) (ep_taker_rested_ e) (ep_taker_ e) n (ep_pred_ e) (ep_actual_ e) (ep_taker_px_ e).
Definition with_taker_px (p : Z) (e : Episode) : Episode :=
  mkEpisode (ep_active_ e) (ep_stp_ e) (ep_rest_known_ e) (ep_taker_rested_ e) (ep_taker_ e) (ep_seq_ e) (ep_pred_ e) (ep_actual_ e) p.

Definition count (f : field) (n : Z) : M unit := update (set_st (bump f n)).
(** [++st_.f]. *)
Definition tick (f : field) : M unit := count f 1.

(** ** The engine and its input stream *)

Definition emit (text : string) : M unit :=
  when (emitting opt) (update (set_eng (fun e => mkEngine (engine_ e) (min_px_ e) (accounts_ e) (emit_ e +:+ text)))).
Definition book : M Bk := b ← gets (fun s => engine_ (eng s)); lift b.

Definition engine_config : BookConfig := mkBookConfig 0 kLevels kMaxOrders (if stp_ opt then CancelResting else StpNone).
Definition make_engine : M unit :=
  b ← lift (bk_make 0 engine_config);
  update (set_eng (fun e => mkEngine (Some b) (cfg_min_price engine_config) (accounts_ e) (emit_ e)));;
  emit (DiffFeed.write_config engine_config).

(** [eng_add], [eng_cancel], [eng_modify]: the command is written, in the format of the differential test, and run. *)
Definition eng_run (c : Command) : M (list Event) :=
  emit (DiffFeed.write_command c);;
  b ← book;
  r ← lift (bk_step b c);
  update (set_eng (fun e => mkEngine (Some r.1) (min_px_ e) (accounts_ e) (emit_ e)));;
  mret r.2.
Definition cancel_command (id : Z) : Command := mkCommand id 0 0 0 0 0 0 Cancel Buy Limit Day 0.
Definition modify_command (id p q : Z) : Command := mkCommand id p 0 0 q 0 0 Modify Buy Limit Day 0.
Definition new_command (id : Z) (s : Side) (p q owner : Z) : Command := mkCommand id p 0 0 q owner 0 NewOrder s Limit Day 0.
Definition eng_cancel (id : Z) : M unit := eng_run (cancel_command id);; mret tt.

Definition owner (id : Z) : M Z :=
  a ← gets (fun s => accounts_ (eng s));
  r ← lift (Accounts.owner a id);
  update (set_eng (fun e => mkEngine (engine_ e) (min_px_ e) r.1 (emit_ e)));;
  mret r.2.

Definition in_band (min p : Z) : bool := (min <=? p) && (p <? min + kLevels).
Definition is_in_band (p : Z) : M bool := gets (fun s => in_band (min_px_ (eng s)) p).

(** An order of the truth book, sent to the engine. *)
Definition add_order (s : Side) (p : Z) (o : TruthBook.Order) : M (list Event) :=
  w ← owner (TruthBook.id o); eng_run (new_command (TruthBook.id o) s p (TruthBook.qty o) w).

Definition rebuild_from_truth : M unit :=
  tick rebuilds;;
  b ← book;
  buys ← lift (ba_for_each_order b Buy);
  sells ← lift (ba_for_each_order b Sell);
  for_each ((fun x : Z * Z * Z => x.1.2) <$> buys ++ sells) eng_cancel;;
  for_each [Buy; Sell] (fun s =>
    tr ← gets truth_;
    os ← lift (TruthBook.for_each tr s);
    for_each os (fun x =>
      ok ← is_in_band x.1;
      if (TruthBook.qty x.2 =? 0) || negb ok then mret tt else add_order s x.1 x.2;; mret tt)).

Definition no_trade (es : list Event) : bool := forallb (fun e => negb (bool_decide (e_type e = Common.Trade))) es.
Definition repair_order (s : Side) (p : Z) (o : TruthBook.Order) : M (list Event) :=
  if TruthBook.qty o =? 0 then mret [] else
  b ← book;
  there ← lift (ba_contains b (TruthBook.id o));
  es ← (if there : bool then eng_run (cancel_command (TruthBook.id o)) else mret []);
  es' ← add_order s p o;
  mret (es ++ es').
Definition repair_levels (prices : list Z) : M bool :=
  tick repairs;;
  es ← for_append prices (fun p =>
    b ← book;
    os ← lift (ba_for_each_order_at b p);
    for_append os (fun x => eng_run (cancel_command x.1.1)));
  es' ← for_append prices (fun p =>
    ok ← is_in_band p;
    if negb ok then mret [] else
    for_append [Buy; Sell] (fun s =>
      tr ← gets truth_;
      q ← lift (TruthBook.queue tr s p);
      match q with None => mret [] | Some os => for_append os (repair_order s p) end));
  mret (no_trade (es ++ es')).

(** The orders of a side of the truth book that the engine can hold. *)
Definition expected (tr : TruthBook.t) (min : Z) (s : Side) : option (list (Z * Z * Z)) :=
  os ← TruthBook.for_each tr s;
  Some (omap (M := list) (fun x : Z * TruthBook.Order => if negb (TruthBook.qty x.2 =? 0) && in_band min x.1 then Some (x.1, TruthBook.id x.2, TruthBook.qty x.2) else None) os).
Definition side_equal (s : Side) : M bool :=
  b ← book;
  a ← lift (ba_for_each_order b s);
  min ← gets (fun s => min_px_ (eng s));
  tr ← gets truth_;
  e ← lift (expected tr min s);
  mret (bool_decide (a = e)).
Definition books_equal : M bool := buys ← side_equal Buy; if buys : bool then side_equal Sell else mret false.

(** ** Episodes *)

Fixpoint common_prefix (l l' : list Trade) : nat :=
  match l, l' with x :: l, y :: l' => if decide (x = y) then S (common_prefix l l') else O | _, _ => O end.
Definition shown_prices (l : list Trade) : list Z := omap (M := list) (fun x => if 0 <=? px x then Some (px x) else None) l.
Definition add_repairs (l : list Z) : M unit :=
  update (set_checks (fun c => mkChecks (need_rebuild_ c) (repair_px_ c ++ l) (last_check_ c) (pending_check_ c))).
Definition set_need (b : bool) : M unit :=
  update (set_checks (fun c => mkChecks b (repair_px_ c) (last_check_ c) (pending_check_ c))).
Definition clear_repairs : M unit :=
  update (set_checks (fun c => mkChecks (need_rebuild_ c) [] (last_check_ c) (pending_check_ c))).
Definition set_pending (b : bool) : M unit :=
  update (set_checks (fun c => mkChecks (need_rebuild_ c) (repair_px_ c) (last_check_ c) b)).

Definition abandon_episode : M unit :=
  e ← gets ep;
  when (ep_active_ e) (update (set_ep (with_active false));; count episodes (-1);; tick abandoned).

Definition close_episode : M unit :=
  e ← gets ep;
  when (ep_active_ e) (
    update (set_ep (with_active false));;
    when (negb (bool_decide (ep_pred_ e = []) && bool_decide (ep_actual_ e = []))) (tick trading_episodes);;
    count cb_matches (Z.of_nat (length (ep_actual_ e)));;
    let same := bool_decide (ep_pred_ e = ep_actual_ e) in
    count matched_exact (Z.of_nat (if same then length (ep_actual_ e) else common_prefix (ep_pred_ e) (ep_actual_ e)));;
    if same then tick exact else
    tick mismatched;;
    when (ep_stp_ e) (tick mismatched_stp);;
    add_repairs (shown_prices (ep_pred_ e) ++ shown_prices (ep_actual_ e) ++ (if ep_taker_px_ e =? 0 then [] else [ep_taker_px_ e]));;
    set_need true).

Definition trades_of (es : list Event) : list Trade :=
  omap (M := list) (fun e => if decide (e_type e = Common.Trade) then Some (mkTrade (e_maker_id e) (e_price e) (e_qty e)) else None) es.
Definition open_episode (taker : Z) (ev : list Event) (expect_rest_known : bool) : M unit :=
  close_episode;;
  update (set_ep (fun e => mkEpisode true false expect_rest_known false taker (ep_seq_ e) (trades_of ev) [] (ep_taker_px_ e)));;
  tick episodes.

Definition in_episode (e : Episode) (r : Rec) : bool :=
  if negb (ep_active_ e) then false else
  if kind r =? Match then (rid r =? ep_taker_ e) && negb (ep_taker_rested_ e) else
  if (kind r =? Done) || (kind r =? Open) then true else
  if kind r =? Change_ then has r StpFlag else false.

(** ** Messages *)

Definition full_check : M unit :=
  tick book_checks;;
  same ← books_equal;
  when (negb same) (tick book_check_failures;; rebuild_from_truth).

(** The edge of the band on the side of [p]. *)
Definition clamped_px (min p : Z) : Z := if p <? min then min else min + kLevels - 1.
Definition set_seq (n : Z) : M unit := update (set_ep (with_seq n)).
Definition set_taker_px (p : Z) : M unit := update (set_ep (with_taker_px p)).

(** The command of an arrival; none for a limit order that rests beyond the band. *)
Definition limit_arrival (r : Rec) (side : Side) (info : Life) (w flags : Z) : M (option Command) :=
  min ← gets (fun s => min_px_ (eng s));
  if negb (in_band min (rpx r)) && opened info then tick out_of_band;; mret None else
  when (negb (in_band min (rpx r))) (tick clamped);;
  let p := if in_band min (rpx r) then rpx r else clamped_px min (rpx r) in
  if opened info then mret (Some (mkCommand (rid r) p 0 0 (rq r) w 0 NewOrder side Limit Day flags)) else
  if (taker_filled info =? 0) && negb (changed info) then
    tick post_only_inferred;; mret (Some (mkCommand (rid r) p 0 0 (rq r) w 0 NewOrder side Limit Ioc (Z.lor flags kFlagPostOnly)))
  else tick ioc_inferred;; mret (Some (mkCommand (rid r) p 0 0 (rq r) w 0 NewOrder side Limit Ioc flags)).
Definition market_arrival (r : Rec) (side : Side) (info : Life) (w flags : Z) : M (option Command) :=
  tick received_market;;
  when (has r FundsOnly) (tick funds_derived);;
  let q := if has r FundsOnly then u64 (taker_filled info + (if decide (stp info = DecrementCancel) then stp_cancelled info else 0)) else rq r in
  mret (Some (mkCommand (rid r) 0 0 0 q w 0 NewOrder side Market Day flags)).

Definition on_received (r : Rec) (side : Side) : M unit :=
  tick received;;
  let info := default fresh_life (life_ opt !! rid r) in
  w ← owner (rid r);
  let flags := if decide (stp info = StpNone) then 0 else stp_flag (stp info) in
  when (negb (bool_decide (stp info = StpNone))) (tick stp_orders);;
  c ← (if otype r =? 1 then market_arrival r side info w flags else limit_arrival r side info w flags);
  match c with
  | None => mret tt
  | Some c =>
      if c_qty c =? 0 then open_episode (rid r) [] false;; set_seq (seq r) else
      ev ← eng_run c;
      open_episode (rid r) ev true;;
      set_seq (seq r);;
      set_taker_px (if decide (c_ord_type c = Limit) then c_price c else 0)
  end.

(** [truth_.add], [fill], [remove], [change]. *)
Definition truth_step (o : TruthBook.Op) : M bool :=
  b ← gets truth_;
  r ← lift (TruthBook.step b o);
  update (set_truth r.1);;
  mret r.2.

Definition modify_episode (id : Z) (side : Side) (new_px old_px remainder seq : Z) : M unit :=
  m ← gets modify_fills_;
  let fills := default [] (m !! id) in
  update (set_fills (delete id m));;
  let filled := foldl (fun a x => u64 (a + qty x)) 0 fills in
  min ← gets (fun s => min_px_ (eng s));
  let through := negb (in_band min new_px) && (remainder =? 0) && (0 <? filled) in
  when through (tick clamped);;
  let new_px := if through then clamped_px min new_px else new_px in
  ev ← (if negb (in_band min new_px) then tick modify_out_of_band;; eng_run (cancel_command id);; mret [] else
        b ← book;
        there ← lift (ba_contains b id);
        if negb there then w ← owner id; eng_run (new_command id side new_px (u64 (remainder + filled)) w)
        else eng_run (modify_command id new_px (u64 (remainder + filled))));
  open_episode id ev true;;
  update (set_ep (with_actual fills));;
  when (remainder =? 0) (eng_cancel id);;
  set_seq seq;;
  set_taker_px new_px;;
  add_repairs [old_px].

Definition on_change (r : Rec) : M unit :=
  if has r FundsChange then mret tt else
  tr ← gets truth_;
  v ← lift (TruthBook.find tr (rid r));
  match v with
  | None => mret tt
  | Some (_, side, old_px) =>
      let new_px := if rpx r =? 0 then old_px else rpx r in
      truth_step (TruthBook.Change (rid r) new_px (rq r) (ts r));;
      if has r StpFlag then
        tick stp_changes;;
        e ← gets ep;
        when (ep_active_ e) (update (set_ep with_stp));;
        eng_run (modify_command (rid r) new_px (rq r));; mret tt
      else tick modifies;; modify_episode (rid r) side new_px old_px (rq r) (seq r)
  end.

Definition on_open (r : Rec) : M unit :=
  truth_step (TruthBook.Add (rid r) (side_of r) (rpx r) (rq r) (ts r));;
  e ← gets ep;
  let mine := ep_active_ e && (rid r =? ep_taker_ e) in
  when mine (update (set_ep with_rested));;
  ok ← is_in_band (rpx r);
  when (mine && ok) (
    tick rest_checked;;
    b ← book;
    v ← lift (ba_find_order b (rid r));
    let same := match v with Some v => (v_qty v =? rq r) && (v_price v =? rpx r) | None => false end in
    when (negb same) (
      tick rest_mismatch;;
      when (bool_decide (ep_pred_ e = ep_actual_ e)) (update (set_ep (fun e => with_actual (ep_actual_ e ++ [mkTrade 0 (-1) 0]) e))))).

(** A resting order reported filled although its matches leave part of it: the engine drops the rest too. *)
Definition drop_unmatched (r : Rec) : M unit :=
  tr ← gets truth_;
  v ← lift (TruthBook.find tr (rid r));
  match v with
  | Some (o, _, _) =>
      when (0 <? TruthBook.qty o) (tick unmatched_fill_done;; count unmatched_fill_qty (TruthBook.qty o);; eng_cancel (rid r))
  | None => mret tt
  end.
Definition on_cancelled (r : Rec) : M unit :=
  tick cancels;;
  e ← gets ep;
  when (ep_active_ e && negb (rid r =? ep_taker_ e) && negb (bool_decide (ep_actual_ e = []))) (update (set_ep with_stp));;
  n ← gets cancel_count_;
  if drop_cancel_every_ opt =? 0 then eng_cancel (rid r) else
  update (set_cancel_count (u64 (n + 1)));;
  when (negb (u64 (n + 1) mod drop_cancel_every_ opt =? 0)) (eng_cancel (rid r)).
Definition on_done (r : Rec) : M unit :=
  m ← gets modify_fills_;
  let fill_modify := bool_decide (is_Some (m !! rid r)) in
  when fill_modify (
    tr ← gets truth_;
    v ← lift (TruthBook.find tr (rid r));
    let '(mside, old_px) := match v with Some (_, s, p) => (s, p) | None => (Buy, 0) end in
    tick modifies;;
    tick fill_modifies;;
    modify_episode (rid r) mside (rpx r) old_px 0 (seq r));;
  tr ← gets truth_;
  let was_resting := TruthBook.contains tr (rid r) in
  when (negb (has r Canceled_) && was_resting && negb fill_modify) (drop_unmatched r);;
  truth_step (TruthBook.Remove (rid r));;
  when (has r Canceled_ && was_resting) (on_cancelled r).

Definition on_match (r : Rec) : M unit :=
  filled ← truth_step (TruthBook.Fill (rid2 r) (rq r));
  when (negb filled) (tick truth_errors);;
  e ← gets ep;
  tr ← gets truth_;
  let x := mkTrade (rid2 r) (rpx r) (rq r) in
  if ep_active_ e && (rid r =? ep_taker_ e) then update (set_ep (fun e => with_actual (ep_actual_ e ++ [x]) e))
  else if TruthBook.contains tr (rid r) then
    update (fun s => set_fills (<[rid r := default [] (modify_fills_ s !! rid r) ++ [x]]> (modify_fills_ s)) s)
  else tick orphan_matches.

(** [std::sort] and [std::unique]. *)
Fixpoint unique (l : list Z) : list Z :=
  match l with x :: l' => match l' with y :: _ => if x =? y then unique l' else x :: unique l' | [] => [x] end | [] => [] end.
Definition sorted_unique (l : list Z) : list Z := unique (merge_sort Z.le l).

(** The messages between which the books are repaired and compared. *)
Definition starts (r : Rec) : bool := (kind r =? Received) || ((kind r =? Change_) && negb (has r StpFlag)).
Definition prepare (r : Rec) : M unit :=
  e ← gets ep;
  when (negb (in_episode e r)) close_episode;;
  c ← gets checks;
  when (need_rebuild_ c && starts r) (
    set_need false;;
    c ← gets checks;
    ok ← repair_levels (sorted_unique (repair_px_ c));
    when (negb ok) rebuild_from_truth;;
    clear_repairs);;
  c ← gets checks;
  when (pending_check_ c && starts r) (set_pending false;; full_check).

Definition dispatch (r : Rec) : M unit :=
  if kind r =? Received then on_received r (side_of r)
  else if kind r =? Open then on_open r
  else if kind r =? Done then on_done r
  else if kind r =? Match then on_match r
  else if kind r =? Change_ then on_change r
  else mret tt.

Definition schedule_check (r : Rec) : M unit :=
  n ← gets (fun s => st_ s records);
  c ← gets checks;
  when (negb (check_every_ opt =? 0) && (check_every_ opt <=? u64 (n - last_check_ c)) && (kind r =? Received)) (
    update (set_checks (fun c => mkChecks (need_rebuild_ c) (repair_px_ c) n true))).

(** A message of the stream, in or out of sync. *)
Definition buffer (r : Rec) : M unit :=
  update (set_feed (fun f => mkFeed (loading_snap_ f) false (snap_seq_ f) (last_seq_ f) (pre_snapshot_ f ++ [r]))).
Definition on_gap (r : Rec) : M unit :=
  tick gaps;;
  abandon_episode;;
  update (set_fills ∅);;
  set_need false;;
  clear_repairs;;
  buffer r.
Definition on_message (r : Rec) : M unit :=
  f ← gets feed;
  if negb (synced_ f) then buffer r else
  if seq r <=? snap_seq_ f then mret tt else
  if negb (seq r =? u64 (last_seq_ f + 1)) then on_gap r else
  update (set_feed (fun f => mkFeed (loading_snap_ f) (synced_ f) (snap_seq_ f) (seq r) (pre_snapshot_ f)));;
  prepare r;;
  dispatch r;;
  schedule_check r.

Definition on_snap_order (r : Rec) : M unit :=
  f ← gets feed;
  when (negb (synced_ f)) (
    when (negb (loading_snap_ f)) (
      update (fun s => set_truth (TruthBook.clear (truth_ s)) s);;
      update (set_feed (fun f => mkFeed true (synced_ f) (snap_seq_ f) (last_seq_ f) (pre_snapshot_ f))));;
    truth_step (TruthBook.Add (rid r) (side_of r) (rpx r) (rq r) (ts r));; mret tt).

(** [a + b] of two prices: an overflow is undefined. *)
Definition add_px (a b : Z) : option Z :=
  if (-9223372036854775808 <=? a + b) && (a + b <? 9223372036854775808) then Some (a + b) else None.

(** The end of a snapshot, up to the loop over the messages that came before it: the result is those messages. *)
Definition seed (r : Rec) : M (list Rec) :=
  f ← gets feed;
  update (set_feed (fun f => mkFeed false true (seq r) (seq r) (pre_snapshot_ f)));;
  tr ← gets truth_;
  bid ← lift (TruthBook.best tr Buy);
  ask ← lift (TruthBook.best tr Sell);
  _ ← lift (add_px bid ask);
  make_engine;;
  rebuild_from_truth;;
  count rebuilds (-1);;
  when (negb (snap_seq_ f =? 0)) (tick resyncs);;
  f ← gets feed;
  update (set_feed (fun f => mkFeed (loading_snap_ f) (synced_ f) (snap_seq_ f) (last_seq_ f) []));;
  mret (sort_by_seq (pre_snapshot_ f)).

(** [on] calls itself on the buffered messages of a snapshot. *)
Fixpoint on (fuel : nat) (r : Rec) : M unit :=
  match fuel with
  | O => fail
  | S fuel =>
      if kind r =? SnapOrder then on_snap_order r
      else if kind r =? SnapEnd then
        f ← gets feed;
        when (negb (synced_ f)) (
          early ← seed r;
          s ← gets (fun s => snap_seq_ (feed s));
          for_each early (fun e => s ← gets (fun s => snap_seq_ (feed s)); when (s <? seq e) (on fuel e));;
          count unreplayed (Z.of_nat (length early) - Z.of_nat (length (filter (fun e => s < seq e) early))))
      else on_message r
  end.
(** Two levels of calls are enough (proved in L3ReplayLaws). *)
Definition on_record (fuel : nat) (r : Rec) : M unit := tick records;; on fuel r.
Definition taken (max_records : Z) (rs : list Rec) : list Rec := if max_records =? 0 then rs else take (Z.to_nat max_records) rs.
Definition run (fuel : nat) (max_records : Z) (rs : list Rec) : M unit :=
  for_each (taken max_records rs) (on_record fuel);;
  close_episode.

Definition ok (s : t) : bool :=
  (st_ s mismatched =? st_ s mismatched_stp) && (st_ s book_check_failures =? 0) && synced_ (feed s).
End replay.

(** [main]: both passes over the messages of the file. *)
Definition main_ {Bk} `{BookApi Bk} (stp : bool) (check_every drop_cancels : Z) (emitting : bool) (max_records : Z) (rs : list Rec) : option (t (Bk := Bk) * bool) :=
  inf ← Inference.run Inference.make (taken max_records rs);
  match run (mkOptions (Inference.life inf) stp check_every drop_cancels emitting) 2 max_records rs (make (Inference.accounts inf)) with
  | Some (s, _) => Some (s, ok s)
  | None => None
  end.
End Replay.
