(* ===== verification/L3ReplayLaws.v ===== *)
(** * The second pass ends, whatever the day holds

    [inv] holds between the operations of the replay: both books answer every question, the engine runs as a reference
    book, and what is buffered is no part of a snapshot. It is kept by every operation, each of which has a result; the
    only message that can stop the program is the end of a snapshot whose book has an empty side. *)
From stdpp Require Import sorting.
From S2P Require Import Prelude StateM TextFormat Common OrdMap ReferenceBook OrderBook BookRefine BookEquiv BookRules Engine BookApi DiffFeed.
From S2P Require Import L3 L3Laws L3Infer L3Replay.
Local Open Scope Z_scope.

(** ** The values of a truth book *)

Module TruthValues.
Import TruthBook TruthBookLaws OrdMap.

Record valued (b : t) : Prop := {
  U_live : live b;
  U_nodes : forall n o, nodes b !! n = Some o -> 0 <= qty o;
  U_levels : forall s p q, zm_find (levels b s) p = Some q -> in_i64 p;
}.
Definition op_valued (o : Op) : Prop :=
  match o with Add _ _ p q _ => in_i64 p /\ 0 <= q | Change _ p q _ => in_i64 p /\ 0 <= q | _ => True end.

Lemma levels_erased b l b' s p q : zm_ok (levels b (side l)) -> erase_at b l = Some b' -> zm_find (levels b' s) p = Some q ->
  is_Some (zm_find (levels b s) p).
Proof.
  unfold erase_at. intros Hok He. inv_bind. case_match; frame; case_decide as Hs; try (by eauto); subst s.
  - rewrite zm_find_erase by done. case_match; [done|eauto].
  - rewrite zm_find_put. case_match; [|eauto]. to_prop. subst. eauto.
Qed.
Lemma nodes_erased b l b' n o : erase_at b l = Some b' -> nodes b' !! n = Some o -> nodes b !! n = Some o.
Proof. unfold erase_at. intros He. inv_bind. case_match; frame; rewrite lookup_delete_Some; tauto. Qed.

Lemma valued_add b i s p q ts : valued b -> in_i64 p -> 0 <= q -> valued (add b i s p q ts).
Proof.
  intros [H1 H2 H3] Hp Hq. split; [by apply live_add| |].
  - intros n o. unfold add. cbv zeta. frame. rewrite lookup_insert_Some. intros [[_ <-]|[_ Ho]]; [done|by eapply H2].
  - intros s' p' q'. rewrite find_add. case_match; [|apply H3]. intros _. to_prop. naive_solver.
Qed.
Lemma valued_erase b i l b' : valued b -> where_ b !! i = Some l -> erase_at b l = Some b' -> valued (set_where b' (delete i (where_ b'))).
Proof.
  intros [H1 H2 H3] Hl He. destruct (live_erase _ _ _ H1 Hl) as (b'' & Hb & Hlive). assert (b'' = b') as -> by congruence.
  split; [exact Hlive| |].
  - intros n o. frame. intros Hn. eapply H2. by eapply nodes_erased.
  - intros s p q. frame. intros Hq. destruct (levels_erased _ _ _ _ _ _ (V_ok _ H1 _) He Hq) as [q' ?]. by eapply H3.
Qed.
Lemma valued_step b o : valued b -> op_valued o -> exists b' r, step b o = Some (b', r) /\ valued b'.
Proof.
  intros H Ho. destruct (live_step b o (U_live _ H)) as (b' & r & Hs & Hlive). exists b', r. split; [done|]. destruct o as [i s p q ts|i q|i|i p q ts]; cbn [step] in Hs.
  - injection Hs as <- _. by apply valued_add; [|apply Ho..].
  - unfold fill in Hs. destruct (where_ b !! i) as [l|] eqn:E; [|by injection Hs as <- _]. inv_bind. case_match; [by injection Hs as <- _|].
    injection Hs as <- _. pose proof (U_nodes _ H) as U2. pose proof (U_levels _ H) as U3. split; [done| |].
    + intros n o. frame. rewrite lookup_insert_Some. to_prop. intros [[_ <-]|[_ Hn]]; [cbn; lia|by eapply U2].
    + intros s p q'. frame. apply U3.
  - unfold remove in Hs. destruct (where_ b !! i) as [l|] eqn:E; inv_bind; [|done]. by eapply valued_erase.
  - unfold change in Hs. destruct (where_ b !! i) as [l|] eqn:E; inv_bind; [|done]. case_match; inv_bind.
    + destruct Ho. pose proof (U_nodes _ H) as U2. pose proof (U_levels _ H) as U3. split; [done| |].
      * intros n o. frame. rewrite lookup_insert_Some. intros [[_ <-]|[_ Hn]]; [done|by eapply U2].
      * intros s p' q'. frame. apply U3.
    + apply valued_add; [by eapply valued_erase|apply Ho..].
Qed.
Lemma valued_clear b : valued (clear b).
Proof. split; [apply live_clear| |]; [by intros n o ?|]. intros s p q. by destruct s. Qed.
Lemma valued_make : valued make.
Proof. split; [apply live_make| |]; [by intros n o ?|]. intros s p q. by destruct s. Qed.

(** ** The queries answer *)

Lemma deref_elem b q os o : deref b q = Some os -> o ∈ os -> exists n, n ∈ q /\ nodes b !! n = Some o.
Proof.
  revert os. induction q as [|n q IH]; intros os; cbn [deref]; [intros [= <-]; set_solver|].
  intros Hd. inv_bind. intros [->|Ho]%elem_of_cons; [exists n; set_solver|]. destruct (IH _ H0 Ho) as (m & ? & ?). exists m. set_solver.
Qed.
Lemma live_deref b q : (forall n, n ∈ q -> is_Some (nodes b !! n)) -> exists os, deref b q = Some os.
Proof.
  induction q as [|n q IH]; intros Hq; [by exists []|]. destruct (Hq n (list_elem_of_here _ _)) as [o Ho]. destruct IH as [os Hos]; [set_solver|].
  exists (o :: os). cbn [deref]. by rewrite Ho, Hos.
Qed.
Lemma in_order_find b s p q : live b -> (p, q) ∈ in_order b s -> zm_find (levels b s) p = Some q.
Proof. intros H Hin. apply zm_find_elem; [apply H|]. destruct s; [by apply elem_of_rev|done]. Qed.
Lemma valued_visit b s ls : valued b -> (forall x, x ∈ ls -> x ∈ in_order b s) ->
  exists l, visit b ls = Some l /\ forall x, x ∈ l -> in_i64 x.1 /\ 0 <= qty x.2.
Proof.
  intros H. induction ls as [|[p q] ls IH]; intros Hls; cbn [visit]; [exists []; split; [done|]; set_solver|].
  assert (zm_find (levels b s) p = Some q) as Hf by (apply in_order_find; [apply H|apply Hls; by left]).
  destruct (live_deref b q) as [os Hos]; [by intros n Hn; eapply (V_nodes _ (U_live _ H)) in Hf as [_ ?]|]. rewrite Hos. cbn [mbind option_bind].
  destruct IH as (r & -> & Hr); [intros; apply Hls; by right|]. eexists. split; [done|]. intros x [Hx|Hx]%elem_of_app; [|by apply Hr].
  change (map (pair p) os) with (pair p <$> os) in Hx. apply list_elem_of_fmap in Hx as (o & -> & Ho). destruct (deref_elem _ _ _ _ Hos Ho) as (n & _ & Hn). split; [by eapply U_levels|by eapply U_nodes].
Qed.
Lemma valued_for_each b s : valued b -> exists l, for_each b s = Some l /\ forall x, x ∈ l -> in_i64 x.1 /\ 0 <= qty x.2.
Proof. intros H. by apply (valued_visit b s). Qed.
Lemma valued_queue b s p : valued b -> exists v, queue b s p = Some v /\ forall os, v = Some os -> Forall (fun o => 0 <= qty o) os.
Proof.
  intros H. destruct (live_queue b s p (U_live _ H)) as [v Hv]. exists v. split; [done|]. intros os ->. unfold queue in Hv.
  destruct (zm_find (levels b s) p) as [q|]; [|done]. destruct (deref b q) as [os'|] eqn:Ed; cbn in Hv; [|done]. injection Hv as ->.
  apply Forall_forall. intros o Ho. destruct (deref_elem _ _ _ _ Ed Ho) as (n & _ & Hn). by eapply U_nodes.
Qed.
Lemma valued_find b i : valued b -> exists v, find b i = Some v /\ forall o s p, v = Some (o, s, p) -> in_i64 p /\ 0 <= qty o.
Proof.
  intros H. destruct (truth_find b i (U_live _ H)) as [v Hv]. exists v. split; [done|]. intros o s p ->. unfold find in Hv.
  destruct (where_ b !! i) as [l|] eqn:E; [|done]. destruct (nodes b !! it l) as [o'|] eqn:En; [|done]. cbn in Hv. injection Hv as <- <- <-.
  destruct (V_where _ (U_live _ H) _ _ E) as (q & Hq & _). split; [by eapply U_levels|by eapply U_nodes].
Qed.
End TruthValues.

Module ReplayLaws.
Import Replay TruthValues BookRules BookEquiv.
Import Inference (Rec, seq, rid, rid2, rpx, rq, kind, has, side_of, Life, SnapOrder, SnapEnd, Received, Open, Done, Match, Change_, StpFlag).

Section laws.
Context {Bk : Type} {BA : BookApi Bk} {BL : BookApiLaws Bk} (opt : Options).
Implicit Types (s : t (Bk := Bk)) (r : Rec).

(** What a message of the stream is: a price and a size of their types. *)
Definition rec_ok r : Prop := in_i64 (rpx r) /\ 0 <= rq r.
Definition plain r : Prop := rec_ok r /\ kind r <> SnapOrder /\ kind r <> SnapEnd.
Definition priced (l : list Trade) : Prop := Forall (fun x => in_i64 (px x)) l.

Record inv s : Prop := {
  I_truth : valued (truth_ s);
  I_accounts : AccountsLaws.down (accounts_ (eng s));
  I_min : min_px_ (eng s) = 0;
  I_pre : Forall plain (pre_snapshot_ (feed s));
  I_pred : priced (ep_pred_ (ep s));
  I_actual : priced (ep_actual_ (ep s));
  I_taker : in_i64 (ep_taker_px_ (ep s));
  I_repair : Forall in_i64 (repair_px_ (checks s));
  I_fills : forall i l, modify_fills_ s !! i = Some l -> priced l;
}.
(** The engine there is, and the reference book it runs as. *)
Definition runs_as s (x : RB.t) : Prop :=
  exists b, engine_ (eng s) = Some b /\ ba_rep b x /\ RB.min_price_ x = 0 /\ RB.max_price_ x = kLevels - 1.
Definition running s : Prop := inv s /\ exists x, runs_as s x.

Lemma running_eng s f : running s -> AccountsLaws.down (accounts_ (f (eng s))) -> min_px_ (f (eng s)) = 0 ->
  (exists x b, engine_ (f (eng s)) = Some b /\ ba_rep b x /\ RB.min_price_ x = 0 /\ RB.max_price_ x = kLevels - 1) -> running (set_eng f s).
Proof. intros [[? ? ? ? ? ? ? ? ?] _] ? ? ?. by split. Qed.
Lemma running_truth s b : running s -> valued b -> running (set_truth b s).
Proof. intros [[? ? ? ? ? ? ? ? ?] ?] ?. by split. Qed.
Lemma running_feed s f : running s -> Forall plain (pre_snapshot_ (f (feed s))) -> running (set_feed f s).
Proof. intros [[? ? ? ? ? ? ? ? ?] ?] ?. by split. Qed.
Lemma running_ep s f : running s -> priced (ep_pred_ (f (ep s))) -> priced (ep_actual_ (f (ep s))) -> in_i64 (ep_taker_px_ (f (ep s))) -> running (set_ep f s).
Proof. intros [[? ? ? ? ? ? ? ? ?] ?] ? ? ?. by split. Qed.
Lemma running_checks s f : running s -> Forall in_i64 (repair_px_ (f (checks s))) -> running (set_checks f s).
Proof. intros [[? ? ? ? ? ? ? ? ?] ?] ?. by split. Qed.
Lemma running_fills s m : running s -> (forall i l, m !! i = Some l -> priced l) -> running (set_fills m s).
Proof. intros [[? ? ? ? ? ? ? ? ?] ?] ?. by split. Qed.
Lemma running_cancels s n : running s -> running (set_cancel_count n s).
Proof. intros [[? ? ? ? ? ? ? ? ?] ?]. by split. Qed.
Lemma running_st s f : running s -> running (set_st f s).
Proof. intros [[? ? ? ? ? ? ? ? ?] ?]. by split. Qed.

(** An operation that has a result and keeps the replay running. *)
#[local] Abbreviation keeps := (StateM.keeps False running).

Lemma keeps_count f n : keeps (count f n).
Proof. apply keeps_update. intros. by apply running_st. Qed.
Lemma keeps_tick f : keeps (tick f).
Proof. apply keeps_count. Qed.

Ltac keep :=
  lazymatch goal with
  | |- StateM.keeps _ _ (count _ _) => apply keeps_count
  | |- StateM.keeps _ _ (tick _) => apply keeps_tick
  | |- _ => keep_step
  end.

(** ** The engine *)

Lemma keeps_emit text : keeps (emit opt text).
Proof.
  unfold emit. apply keeps_when, keeps_update. intros s Hs. pose proof Hs as [Hi (x & b & Hb)]. apply running_eng; [done|apply Hi..|]. cbn. eauto.
Qed.
Lemma keeps_book {A} (k : Bk -> StateM.M t A) :
  (forall b x, ba_rep b x -> RB.min_price_ x = 0 -> RB.max_price_ x = kLevels - 1 -> keeps (k b)) -> keeps (book ≫= k).
Proof.
  intros Hk s Hs. pose proof Hs as [_ (x & b & Hb & Hr & H1 & H2)]. unfold book. wp_step. wp_step. wp_step.
  apply wp_lift; [|by rewrite Hb]. rewrite Hb. intros ? [= <-]. by apply (Hk b x).
Qed.

(** The trades of a step are at prices of the book. *)
Lemma trades_of_app es es' : trades_of (es ++ es') = trades_of es ++ trades_of es'.
Proof. unfold trades_of. apply omap_app. Qed.
Lemma priced_app l l' : priced (l ++ l') <-> priced l /\ priced l'.
Proof. unfold priced. by rewrite Forall_app. Qed.
Lemma sweep_priced x side taker owner limit stp es : RB.wf x -> RB.min_price_ x = 0 -> RB.max_price_ x = kLevels - 1 ->
  Forall (sweep_event (RB.symbol_ x) taker owner side limit stp (RB.book x (opposite side))) es -> priced (trades_of es).
Proof.
  intros Hw H1 H2. induction 1 as [|e es He _ IH]; [constructor|]. unfold trades_of. cbn [omap list_omap].
  destruct He as [p q o fill Hp Ho|p q o|p q o v|v]; cbn; try exact IH. constructor; [|exact IH]. cbn.
  assert (p ∈ RB.prices (RB.book x (opposite side))) as Hin by (apply list_elem_of_fmap; by exists (p, q)).
  apply (RB.wf_band x Hw) in Hin. unfold kLevels in *. unfold in_i64. lia.
Qed.
Lemma step_priced x c x' es : RB.wf x -> RB.min_price_ x = 0 -> RB.max_price_ x = kLevels - 1 -> 0 <= c_qty c ->
  RB.step x c = Some (x', es) -> priced (trades_of es).
Proof.
  intros Hw H1 H2 Hq. unfold RB.step. destruct (c_type c).
  - intros [= He]. pose proof (add_outcome x c Hw ltac:(unfold kLevels in *; lia) Hq) as Ho. rewrite He in Ho. cbn [fst snd] in Ho.
    destruct Ho as [why|? ? ? ? ?|r1 left_ stop es1 r2 es2 _ Hp _ _ _ _ Hm Hs]; [constructor..|].
    change (accepted_of x c :: es1 ++ es2) with ([accepted_of x c] ++ es1 ++ es2). rewrite !trades_of_app, !priced_app. split; [constructor|].
    destruct (match_events _ _ _ _ _ _ _ _ _ _ _ Hw Hq Hm) as [He' _]. split; [by eapply sweep_priced|].
    destruct Hs as [| | |r2 es2 _ _ Hr]; [constructor..|]. unfold RB.rest in Hr. case_match; injection Hr as <- <-; constructor.
  - unfold RB.cancel. intros Hc. case_match; [|by injection Hc as <- <-; constructor]. inv_bind. constructor.
  - unfold RB.modify. intros Hc. case_match; [by injection Hc as <- <-; constructor|]. destruct (RB.index_ x !! c_order_id c) as [l|] eqn:Hl; [|by injection Hc as <- <-; constructor].
    case_match; [by injection Hc as <- <-; constructor|]. destruct (RB.deref x l (c_order_id c)) as [o|]; [|done]. cbn [mbind option_bind] in Hc.
    case_match; [inv_bind; constructor|]. destruct (RB.wf_remove x _ l Hw Hl) as (x1 & Hr & Hw1 & (_ & E1 & E2 & _) & _). rewrite Hr in Hc. cbn [mbind option_bind] in Hc.
    destruct (RB.match_ _ _ _ _ _ _ _) as [[[x2 left_] stop] es1] eqn:Hm. destruct (match_events _ _ _ _ _ _ _ _ _ _ _ Hw1 Hq Hm) as [He' _].
    pose proof (sweep_priced _ _ _ _ _ _ _ Hw1 (eq_trans E1 H1) (eq_trans E2 H2) He') as Hp. unfold RB.rest in Hc.
    repeat case_match; simplify_eq; match goal with |- priced (trades_of (?e :: ?l)) => change (priced (trades_of ([e] ++ l))) end;
      rewrite !trades_of_app, ?priced_app; split_and?; try done; apply Forall_nil_2.
Qed.

Definition sends (c : Command) : Prop := in_i64 (c_price c) /\ 0 <= c_qty c /\ c_tif c <> Fok.
Lemma wp_eng_run c s : sends c -> running s -> wp False (eng_run opt c) (fun es s' => running s' /\ priced (trades_of es)) s.
Proof.
  intros (Hp & Hq & Ht) Hs. unfold eng_run. wp_step. eapply wp_keeps; [apply keeps_emit|done|]. clear s Hs. intros _ s Hs.
  pose proof Hs as [Hi (x & b & Hb & Hr & H1 & H2)]. unfold book. wp_step. wp_step. wp_step. apply wp_lift; [|by rewrite Hb]. rewrite Hb. intros ? [= <-].
  assert (cmd_ok x c) as Hc by (split; [by rewrite H1, Z.sub_0_r|done|by intros _ ?]).
  destruct (ba_rep_step b x c Hr Hc) as (b' & x' & es & Hb' & Hx' & Hr'). wp_step. apply wp_lift; [|by rewrite Hb']. rewrite Hb'. intros ? [= <-].
  pose proof (ba_rep_wf _ _ Hr) as Hw. destruct (RB.step_ok x c Hw ltac:(unfold kLevels in *; lia) Hq) as (x1 & es1 & Hx1 & _ & (_ & E1 & E2 & _)).
  assert (x1 = x') as -> by congruence. wp_step. wp_step. wp_step. split; [|by eapply step_priced].
  apply running_eng; [done|apply Hi..|]. cbn. exists x', b'. split_and!; [done|done|congruence|congruence].
Qed.
Lemma keeps_eng_run c : sends c -> keeps (eng_run opt c).
Proof. intros Hc s Hs. eapply wp_mono; [by apply wp_eng_run|]. by intros ? ? [? _]. Qed.
Lemma sends_cancel id : sends (cancel_command id).
Proof. by split_and!. Qed.
Lemma keeps_cancel id : keeps (eng_cancel opt id).
Proof. unfold eng_cancel. keep; [|keep]. apply keeps_eng_run, sends_cancel. Qed.

Lemma wp_owner id s (Q : Z -> t -> Prop) : running s -> (forall w s', running s' -> Q w s') -> wp False (owner id) Q s.
Proof.
  intros Hs HQ. unfold owner. wp_step. wp_step. wp_step. pose proof Hs as [Hi Hx]. destruct (AccountsLaws.find_ok _ id (I_accounts _ Hi)) as (a & w & Hf & _ & Hk).
  unfold Accounts.owner. rewrite Hf. apply wp_lift; [|done]. intros ? [= <-]. wp_step. wp_step. wp_step. apply HQ.
  apply running_eng; [done|apply Hk|apply Hi|done].
Qed.
Lemma keeps_owner id : keeps (owner id).
Proof. intros s Hs. by apply wp_owner. Qed.
Lemma keeps_add_order sd p o : in_i64 p -> 0 <= TruthBook.qty o -> keeps (add_order opt sd p o).
Proof. intros Hp Hq. unfold add_order. keep; [apply keeps_owner|]. by apply keeps_eng_run. Qed.

(** What the truth book answers. *)
Lemma keeps_truth_each {A} sd (k : list (Z * TruthBook.Order) -> StateM.M t A) :
  (forall os, (forall x, x ∈ os -> in_i64 x.1 /\ 0 <= TruthBook.qty x.2) -> keeps (k os)) ->
  keeps (gets truth_ ≫= fun tr => lift (TruthBook.for_each tr sd) ≫= k).
Proof.
  intros Hk. apply keeps_gets. intros s Hs. destruct (valued_for_each (truth_ s) sd) as (os & Hos & Hv); [apply Hs|].
  by apply (keeps_lift _ os); [|apply Hk|].
Qed.
Lemma keeps_truth_find {A} id (k : option (TruthBook.Order * Side * Z) -> StateM.M t A) :
  (forall v, (forall o sd p, v = Some (o, sd, p) -> in_i64 p /\ 0 <= TruthBook.qty o) -> keeps (k v)) ->
  keeps (gets truth_ ≫= fun tr => lift (TruthBook.find tr id) ≫= k).
Proof.
  intros Hk. apply keeps_gets. intros s Hs. destruct (valued_find (truth_ s) id) as (v & Hv & Ho); [apply Hs|].
  by apply (keeps_lift _ v); [|apply Hk|].
Qed.
Lemma keeps_truth_queue {A} sd p (k : option (list TruthBook.Order) -> StateM.M t A) :
  (forall v, (forall os, v = Some os -> Forall (fun o => 0 <= TruthBook.qty o) os) -> keeps (k v)) ->
  keeps (gets truth_ ≫= fun tr => lift (TruthBook.queue tr sd p) ≫= k).
Proof.
  intros Hk. apply keeps_gets. intros s Hs. destruct (valued_queue (truth_ s) sd p) as (v & Hv & Ho); [apply Hs|].
  by apply (keeps_lift _ v); [|apply Hk|].
Qed.
Lemma keeps_truth_step o : op_valued o -> keeps (truth_step o).
Proof.
  intros Ho. unfold truth_step. apply keeps_gets. intros s Hs. destruct (valued_step (truth_ s) o) as (b & v & Hb & Hv); [apply Hs|done|].
  apply (keeps_lift _ (b, v)); [done| |done]. keep; [|keep]. apply keeps_update. intros. by apply running_truth.
Qed.

Lemma keeps_rebuild : keeps (rebuild_from_truth opt).
Proof.
  unfold rebuild_from_truth. keep; [keep|]. apply keeps_book. intros b x Hr _ _. eapply keeps_lift; [by apply ba_rep_orders|].
  eapply keeps_lift; [by apply ba_rep_orders|]. keep; [apply keeps_for; intros; apply keeps_cancel|].
  apply keeps_for. intros sd _. apply keeps_truth_each. intros os Hos. apply keeps_for. intros y Hy. destruct (Hos y Hy).
  unfold is_in_band. keep. keep; [keep|]. keep; [by apply keeps_add_order|keep].
Qed.
Lemma keeps_repair_order sd p o : in_i64 p -> 0 <= TruthBook.qty o -> keeps (repair_order opt sd p o).
Proof.
  intros Hp Hq. unfold repair_order. keep; [keep|]. apply keeps_book. intros b x Hr _ _. eapply keeps_lift; [by apply ba_rep_contains|].
  keep; [keep; [apply keeps_eng_run, sends_cancel|keep]|]. keep; [by apply keeps_add_order|keep].
Qed.
Lemma keeps_repair_levels ps : Forall in_i64 ps -> keeps (repair_levels opt ps).
Proof.
  intros Hps. rewrite Forall_forall in Hps. unfold repair_levels. keep; [keep|]. keep; [|keep; [|keep]].
  - apply keeps_append. intros p Hp. apply keeps_book. intros b x Hr H1 _. eapply keeps_lift; [apply ba_rep_at; [done|]|].
    { rewrite H1, Z.sub_0_r. by apply Hps. }
    apply keeps_append. intros. apply keeps_eng_run, sends_cancel.
  - apply keeps_append. intros p Hp. unfold is_in_band. keep. keep; [keep|]. apply keeps_append. intros sd _. apply keeps_truth_queue.
    intros [os|] Hos; [|keep]. apply keeps_append. intros o Ho. apply keeps_repair_order; [by apply Hps|].
    specialize (Hos os eq_refl). rewrite Forall_forall in Hos. by apply Hos.
Qed.
Lemma keeps_side_equal sd : keeps (side_equal sd).
Proof.
  unfold side_equal. apply keeps_book. intros b x Hr _ _. eapply keeps_lift; [by apply ba_rep_orders|]. keep. apply keeps_gets. intros s Hs.
  unfold expected. destruct (valued_for_each (truth_ s) sd) as (os & -> & _); [apply Hs|]. cbn [mbind option_bind].
  eapply keeps_lift; [done|keep|done].
Qed.
Lemma keeps_full_check : keeps (full_check opt).
Proof.
  unfold full_check, books_equal. keep; [keep|]. keep.
  - keep; [apply keeps_side_equal|]. keep; [apply keeps_side_equal|keep].
  - keep. keep; [keep|]. apply keeps_rebuild.
Qed.

(** ** Episodes *)

Lemma keeps_active b : keeps (update (set_ep (with_active b))).
Proof. apply keeps_update. intros s Hs. pose proof Hs as [Hi _]. apply running_ep; [done|apply Hi..]. Qed.
Lemma keeps_with_stp : keeps (update (set_ep with_stp)).
Proof. apply keeps_update. intros s Hs. pose proof Hs as [Hi _]. apply running_ep; [done|apply Hi..]. Qed.
Lemma keeps_rested : keeps (update (set_ep with_rested)).
Proof. apply keeps_update. intros s Hs. pose proof Hs as [Hi _]. apply running_ep; [done|apply Hi..]. Qed.
Lemma keeps_set_seq n : keeps (set_seq n).
Proof. apply keeps_update. intros s Hs. pose proof Hs as [Hi _]. apply running_ep; [done|apply Hi..]. Qed.
Lemma keeps_set_taker p : in_i64 p -> keeps (set_taker_px p).
Proof. intros Hp. apply keeps_update. intros s Hs. pose proof Hs as [Hi _]. apply running_ep; [done|apply Hi|apply Hi|done]. Qed.
Lemma keeps_actual l : priced l -> keeps (update (set_ep (with_actual l))).
Proof. intros Hl. apply keeps_update. intros s Hs. pose proof Hs as [Hi _]. apply running_ep; [done|apply Hi|done|apply Hi]. Qed.
Lemma keeps_push_actual x : in_i64 (px x) -> keeps (update (set_ep (fun e => with_actual (ep_actual_ e ++ [x]) e))).
Proof.
  intros Hx. apply keeps_update. intros s Hs. pose proof Hs as [Hi _]. apply running_ep; [done|apply Hi| |apply Hi]. cbn. apply priced_app.
  split; [apply Hi|by constructor].
Qed.
Lemma keeps_repairs l : Forall in_i64 l -> keeps (add_repairs l).
Proof. intros Hl. apply keeps_update. intros s Hs. pose proof Hs as [Hi _]. apply running_checks; [done|]. cbn. apply Forall_app. split; [apply Hi|done]. Qed.
Lemma keeps_need b : keeps (set_need b).
Proof. apply keeps_update. intros s Hs. pose proof Hs as [Hi _]. apply running_checks; [done|apply Hi]. Qed.
Lemma keeps_pending b : keeps (set_pending b).
Proof. apply keeps_update. intros s Hs. pose proof Hs as [Hi _]. apply running_checks; [done|apply Hi]. Qed.
Lemma keeps_clear : keeps clear_repairs.
Proof. apply keeps_update. intros s Hs. apply running_checks; [done|constructor]. Qed.
Lemma keeps_fills m : (forall i l, m !! i = Some l -> priced l) -> keeps (update (set_fills m)).
Proof. intros Hm. apply keeps_update. intros s Hs. by apply running_fills. Qed.

Lemma shown_priced l : priced l -> Forall in_i64 (shown_prices l).
Proof. induction 1 as [|x l Hx _ IH]; [constructor|]. unfold shown_prices. cbn [omap list_omap]. case_match; [|done]. case_match; simplify_eq. by constructor. Qed.
Definition ep_ok (e : Episode) : Prop := priced (ep_pred_ e) /\ priced (ep_actual_ e) /\ in_i64 (ep_taker_px_ e).
Lemma keeps_get_ep {B} (k : Episode -> StateM.M t B) : (forall e, ep_ok e -> keeps (k e)) -> keeps (gets ep ≫= k).
Proof. apply keeps_fact. intros s [[] _]. by split_and!. Qed.

Lemma keeps_close : keeps close_episode.
Proof.
  unfold close_episode. apply keeps_get_ep. intros e (Hp & Ha & Ht). cbv zeta. repeat (first [apply keeps_active|apply keeps_need|keep]). apply keeps_repairs.
  rewrite !Forall_app. split_and!; [by apply shown_priced..|]. case_match; repeat constructor; apply Ht.
Qed.
Lemma keeps_abandon : keeps abandon_episode.
Proof. unfold abandon_episode. apply keeps_get_ep. intros e _. repeat (first [apply keeps_active|keep]). Qed.
Lemma keeps_open taker es b : priced (trades_of es) -> keeps (open_episode taker es b).
Proof.
  intros He. unfold open_episode. keep; [apply keeps_close|]. keep; [|keep]. apply keeps_update. intros s Hs. pose proof Hs as [Hi _].
  apply running_ep; [done|done|constructor|apply Hi].
Qed.

(** ** Messages *)

Lemma keeps_modify_episode id sd p old q n : in_i64 p -> in_i64 old -> 0 <= q -> keeps (modify_episode opt id sd p old q n).
Proof.
  intros Hp Hold Hq. unfold modify_episode. apply (keeps_fact _ (fun m => forall i l, m !! i = Some l -> priced l)); [intros s [[] _]; done|].
  intros m Hm. cbv zeta. assert (priced (default [] (m !! id))) as Hf by (destruct (m !! id) eqn:E; [by eapply Hm|constructor]).
  keep; [apply keeps_fills; intros i l Hl; apply lookup_delete_Some in Hl as [_ ?]; by eapply Hm|].
  apply (keeps_fact _ (fun min => min = 0)); [intros s [[] _]; done|]. intros ? ->. keep; [repeat keep|].
  set (through := _ && (0 <? _)). set (fills := default [] (m !! id)) in *. set (filled := foldl _ 0 fills) in *.
  set (p' := if through then clamped_px 0 p else p). assert (in_i64 p') as Hp'.
  { unfold p'. destruct through; [|done]. unfold clamped_px, kLevels, in_i64. case_match; lia. }
  assert (0 <= u64 (q + filled)) as Hu by (pose proof (in_u64_u64 (q + filled)); unfold in_u64 in *; lia).
  assert (forall (mev : StateM.M t (list Event)), (forall s, running s -> wp False mev (fun es s' => running s' /\ priced (trades_of es)) s) ->
    keeps (ev ← mev; open_episode id ev true;; update (set_ep (with_actual fills));; when (q =? 0) (eng_cancel opt id);; set_seq n;; set_taker_px p';; add_repairs [old])) as Hrest.
  { intros mev Hmev s Hs. wp_step. eapply wp_mono; [by apply Hmev|]. intros es s' [Hs' He]. revert s' Hs'. change (keeps (open_episode id es true;;
      update (set_ep (with_actual fills));; when (q =? 0) (eng_cancel opt id);; set_seq n;; set_taker_px p';; add_repairs [old])).
    keep; [by apply keeps_open|]. keep; [by apply keeps_actual|]. keep; [keep; apply keeps_cancel|]. keep; [apply keeps_set_seq|].
    keep; [by apply keeps_set_taker|]. apply keeps_repairs. by apply Forall_singleton. }
  apply Hrest. clear Hrest. intros s Hs. wp_step.
  - wp_step. eapply wp_keeps; [apply keeps_tick|done|]. intros ? s1 H1. wp_step. eapply wp_mono; [apply wp_eng_run; [apply sends_cancel|done]|].
    intros ? s2 [H2 _]. wp_step. by split; [|constructor].
  - wp_step. pose proof Hs as [_ (x & b & Hb & Hr & _)]. unfold book. wp_step. wp_step. apply wp_lift; [|by rewrite Hb]. rewrite Hb. intros ? [= <-].
    wp_step. apply wp_lift; [|by erewrite ba_rep_contains by done]. intros there _. wp_step.
    + wp_step. apply wp_owner; [done|]. intros w s1 H1. by apply wp_eng_run.
    + by apply wp_eng_run.
Qed.

Lemma clamped_i64 p : in_i64 (clamped_px 0 p).
Proof. unfold clamped_px, kLevels, in_i64. case_match; lia. Qed.
(** What an arrival is sent as. *)
Definition sendable (c : option Command) : Prop := forall c', c = Some c' -> sends c'.
Lemma wp_limit_arrival r sd info w fl s : rec_ok r -> running s ->
  wp False (limit_arrival r sd info w fl) (fun c s' => running s' /\ sendable c) s.
Proof.
  intros [Hp Hq] Hs. unfold limit_arrival. wp_step. wp_step. rewrite (I_min s) by apply Hs.
  assert (in_i64 (if in_band 0 (rpx r) then rpx r else clamped_px 0 (rpx r))) as Hc by (case_match; [done|apply clamped_i64]).
  assert (forall f (c : Command) s, sends c -> running s -> wp False (tick f;; mret (Some c)) (fun c s' => running s' /\ sendable c) s) as Hsend.
  { intros f c s1 Hsc H1. wp_step. eapply wp_keeps; [apply keeps_tick|done|]. intros ? s2 H2. wp_step. split; [done|]. by intros ? [= <-]. }
  wp_step.
  - wp_step. eapply wp_keeps; [apply keeps_tick|done|]. intros ? s1 H1. wp_step. by split.
  - wp_step. eapply wp_keeps; [apply keeps_when, keeps_tick|done|]. intros ? s1 H1. cbv zeta. repeat wp_step; [split; [done|]; intros ? [= <-]; by split_and!| |]; by apply Hsend.
Qed.
Lemma wp_market_arrival r sd info w fl s : rec_ok r -> running s ->
  wp False (market_arrival r sd info w fl) (fun c s' => running s' /\ sendable c) s.
Proof.
  intros [Hp Hq] Hs. unfold market_arrival. wp_step. eapply wp_keeps; [apply keeps_tick|done|]. intros ? s1 H1.
  wp_step. eapply wp_keeps; [apply keeps_when, keeps_tick|done|]. intros ? s2 H2. cbv zeta. wp_step. split; [done|]. intros ? [= <-].
  split_and!; [done| |done]. cbn. case_match; [|done]. match goal with |- 0 <= u64 ?v => pose proof (in_u64_u64 v) as Hu end. unfold in_u64 in Hu. lia.
Qed.
Lemma keeps_received r sd : rec_ok r -> keeps (on_received opt r sd).
Proof.
  intros Hr. unfold on_received. cbv zeta. keep; [keep|]. keep; [apply keeps_owner|]. keep; [repeat keep|]. intros s Hs. wp_step.
  eapply (wp_mono _ _ (fun c s' => running s' /\ sendable c)).
  { wp_step; [by apply wp_market_arrival|by apply wp_limit_arrival]. }
  intros [c|] s1 [H1 Hc]; [|by wp_step]. specialize (Hc c eq_refl). wp_step.
  - revert s1 H1. change (keeps (open_episode (rid r) [] false;; set_seq (seq r))). keep; [apply keeps_open; constructor|apply keeps_set_seq].
  - wp_step. eapply wp_mono; [by apply wp_eng_run|]. intros es s2 [H2 He]. revert s2 H2.
    change (keeps (open_episode (rid r) es true;; set_seq (seq r);; set_taker_px (if decide (c_ord_type c = Limit) then c_price c else 0))).
    keep; [by apply keeps_open|]. keep; [apply keeps_set_seq|]. apply keeps_set_taker. case_match; [apply Hc|done].
Qed.
Lemma keeps_change r : rec_ok r -> keeps (on_change opt r).
Proof.
  intros [Hp Hq]. unfold on_change. keep; [keep|]. apply keeps_truth_find. intros [[[o sd] old]|] Hv; [|keep]. destruct (Hv _ _ _ eq_refl) as [Hold _].
  cbv zeta. assert (in_i64 (if rpx r =? 0 then old else rpx r)) as Hn by by case_match. keep; [by apply keeps_truth_step|]. keep.
  - keep; [keep|]. apply keeps_get_ep. intros e _. keep; [keep; apply keeps_with_stp|]. keep; [|keep]. by apply keeps_eng_run.
  - keep; [keep|]. by apply keeps_modify_episode.
Qed.
Lemma keeps_on_open r : rec_ok r -> keeps (on_open r).
Proof.
  intros [Hp Hq]. unfold on_open. keep; [by apply keeps_truth_step|]. apply keeps_get_ep. intros e _. cbv zeta. keep; [keep; apply keeps_rested|].
  unfold is_in_band. keep. keep. keep; [keep|]. apply keeps_book. intros b x Hr _ _. intros s Hs.
  assert (exists v, ba_find_order b (rid r) = Some v) as [v Hv].
  { erewrite ba_rep_find by done. pose proof (ba_rep_wf _ _ Hr) as Hw. unfold RB.find_order. destruct (RB.index_ x !! rid r) as [l|] eqn:Hl; [|eauto].
    destruct (RB.deref_spec x _ l Hw Hl) as (m1 & q1 & o & q2 & m2 & _ & _ & Hd & _). rewrite Hd. cbn. eauto. }
  revert s Hs. change (keeps (lift (ba_find_order b (rid r)) ≫= fun v => when (negb (match v with Some v => (v_qty v =? rq r) && (v_price v =? rpx r) | None => false end))
    (tick Stats.rest_mismatch;; when (bool_decide (ep_pred_ e = ep_actual_ e)) (update (set_ep (fun e => with_actual (ep_actual_ e ++ [mkTrade 0 (-1) 0]) e)))))).
  eapply keeps_lift; [done|]. keep. keep; [keep|]. keep. by apply keeps_push_actual.
Qed.
Lemma keeps_done r : rec_ok r -> keeps (on_done opt r).
Proof.
  intros [Hp Hq]. unfold on_done. keep. cbv zeta. keep.
  - keep. apply keeps_truth_find. intros v Hv. destruct v as [[[o sd] old]|].
    + destruct (Hv _ _ _ eq_refl) as [Hold _]. keep; [keep|]. keep; [keep|]. by apply keeps_modify_episode.
    + keep; [keep|]. keep; [keep|]. by apply keeps_modify_episode.
  - keep. keep.
    + keep. unfold drop_unmatched. apply keeps_truth_find. intros [[[o sd] old]|] _; [|keep]. repeat (first [apply keeps_cancel|keep]).
    + keep; [by apply keeps_truth_step|]. keep. unfold on_cancelled. keep; [keep|]. apply keeps_get_ep. intros e _. keep; [keep; apply keeps_with_stp|].
      keep. keep; [apply keeps_cancel|]. keep; [|keep; apply keeps_cancel]. apply keeps_update. intros. by apply running_cancels.
Qed.
Lemma keeps_match r : rec_ok r -> keeps (on_match r).
Proof.
  intros [Hp Hq]. unfold on_match. keep; [by apply keeps_truth_step|]. keep; [repeat keep|]. apply keeps_get_ep. intros e _. keep. cbv zeta.
  keep; [by apply keeps_push_actual|]. keep; [|keep]. apply keeps_update. intros s Hs. apply running_fills; [done|]. destruct Hs as [Hi _].
  intros i l [[-> <-]|[_ Hl]]%lookup_insert_Some; [|by eapply I_fills]. apply priced_app. split; [|by apply Forall_singleton].
  destruct (modify_fills_ s !! i) eqn:E; [by eapply I_fills|constructor].
Qed.
Lemma keeps_dispatch r : rec_ok r -> keeps (dispatch opt r).
Proof.
  intros Hr. unfold dispatch. repeat keep; auto using keeps_received, keeps_on_open, keeps_done, keeps_match, keeps_change.
Qed.

Lemma unique_elem l x : x ∈ unique l -> x ∈ l.
Proof.
  induction l as [|y l IH]; [done|]. cbn [unique]. destruct l as [|z l]; [done|]. case_match; [intros H1; right; by apply IH|].
  intros [->|H1]%elem_of_cons; [by left|right; by apply IH].
Qed.
Lemma sorted_unique_i64 l : Forall in_i64 l -> Forall in_i64 (sorted_unique l).
Proof.
  rewrite !Forall_forall. intros Hl x Hx%unique_elem. apply Hl. by rewrite <- (merge_sort_Permutation Z.le l).
Qed.
Lemma keeps_get_checks {B} (k : Checks -> StateM.M t B) : (forall c, Forall in_i64 (repair_px_ c) -> keeps (k c)) -> keeps (gets checks ≫= k).
Proof. apply keeps_fact. by intros s [[] _]. Qed.
Lemma keeps_prepare r : keeps (prepare opt r).
Proof.
  unfold prepare. keep. keep; [keep; apply keeps_close|]. apply keeps_get_checks. intros c _. keep.
  - keep. keep; [apply keeps_need|]. apply keeps_get_checks. intros c' Hc'. keep; [by apply keeps_repair_levels, sorted_unique_i64|].
    keep; [keep; apply keeps_rebuild|]. apply keeps_clear.
  - keep. keep. keep; [apply keeps_pending|apply keeps_full_check].
Qed.
Lemma keeps_schedule r : keeps (schedule_check opt r).
Proof.
  unfold schedule_check. keep. apply keeps_get_checks. intros c _. keep. apply keeps_update. intros s Hs. pose proof Hs as [Hi _]. apply running_checks; [done|apply Hi].
Qed.

(** Between two messages: in sync, the engine runs. *)
Definition idle s : Prop := inv s /\ (synced_ (feed s) = true -> exists x, runs_as s x).
Lemma running_idle s : running s -> idle s.
Proof. by intros [? ?]. Qed.
Lemma idle_count f n s : idle s -> wp False (count f n) (fun _ => idle) s.
Proof. intros [[? ? ? ? ? ? ? ? ?] ?]. apply wp_update. by split. Qed.
Lemma idle_feed s f : idle s -> Forall plain (pre_snapshot_ (f (feed s))) -> (synced_ (f (feed s)) = true -> synced_ (feed s) = true) -> idle (set_feed f s).
Proof. intros [[? ? ? ? ? ? ? ? ?] Hx] ? Hy. split; [by split|]. intros Hz%Hy. by apply Hx. Qed.
Lemma idle_truth s b : idle s -> valued b -> idle (set_truth b s).
Proof. intros [[? ? ? ? ? ? ? ? ?] Hx] ?. split; [by split|done]. Qed.

Lemma idle_buffer r s : idle s -> plain r -> wp False (buffer r) (fun _ => idle) s.
Proof. intros Hs Hr. apply wp_update. apply idle_feed; [done| |done]. cbn. apply Forall_app. split; [apply Hs|by constructor]. Qed.
Lemma keeps_gap r : plain r -> keeps (on_gap r).
Proof.
  intros Hr. unfold on_gap. repeat (first [apply keeps_abandon|apply keeps_need|apply keeps_clear|keep]); [by apply keeps_fills; intros ? ? ?%lookup_empty_Some|].
  apply keeps_update. intros s Hs. apply running_feed; [done|]. cbn. apply Forall_app. split; [apply Hs|by constructor].
Qed.
Lemma keeps_in_sync r : plain r -> keeps (
  update (set_feed (fun f => mkFeed (loading_snap_ f) (synced_ f) (snap_seq_ f) (seq r) (pre_snapshot_ f)));; prepare opt r;; dispatch opt r;; schedule_check opt r).
Proof.
  intros [Hr _]. keep; [|keep; [apply keeps_prepare|keep; [by apply keeps_dispatch|apply keeps_schedule]]].
  apply keeps_update. intros s Hs. apply running_feed; [done|apply Hs].
Qed.
Lemma idle_message r s : idle s -> plain r -> wp False (on_message opt r) (fun _ => idle) s.
Proof.
  intros Hs Hr. unfold on_message. wp_step. wp_step. destruct (synced_ (feed s)) eqn:E; cbn [negb]; [|by apply idle_buffer].
  assert (running s) as Hrun by (destruct Hs as [? Hs]; by split; [|apply Hs]). wp_step; [by wp_step|].
  eapply wp_mono; [|intros a s'; apply running_idle]. wp_step; [by apply keeps_gap|by apply keeps_in_sync].
Qed.
Lemma idle_snap_order r s : idle s -> rec_ok r -> wp False (on_snap_order r) (fun _ => idle) s.
Proof.
  intros Hs [Hp Hq]. unfold on_snap_order. wp_step. wp_step. wp_step; [|done]. wp_step. eapply (wp_mono _ _ (fun _ => idle)).
  { wp_step; [|done]. wp_step. wp_step. wp_step. apply idle_feed; [|apply Hs|done]. apply idle_truth; [done|apply valued_clear]. }
  intros _ s1 H1. wp_step. unfold truth_step. repeat wp_step.
  destruct (valued_step (truth_ s1) (TruthBook.Add (rid r) (side_of r) (rpx r) (rq r) (Inference.ts r))) as (b & v & Hb & Hv); [apply H1|done|].
  apply wp_lift; [|by rewrite Hb]. rewrite Hb. intros ? [= <-]. repeat wp_step. by apply idle_truth.
Qed.

(** ** Snapshots *)

(** The end of a snapshot finds two sides whose best prices add up within 64 bits. *)
Definition two_sided s r : bool :=
  if (kind r =? SnapEnd) && negb (synced_ (feed s)) then
    match TruthBook.best (truth_ s) Buy, TruthBook.best (truth_ s) Sell with
    | Some a, Some b => match add_px a b with Some _ => true | None => false end
    | _, _ => false
    end
  else true.

Lemma insert_by_seq_elem r l x : x ∈ Inference.insert_by_seq r l -> x = r \/ x ∈ l.
Proof.
  induction l as [|y l IH]; cbn [Inference.insert_by_seq]; [set_solver|]. case_match; [set_solver|].
  intros [->|H1]%elem_of_cons; [set_solver|]. destruct (IH H1); set_solver.
Qed.
Lemma sort_by_seq_plain l : Forall plain l -> Forall plain (Inference.sort_by_seq l).
Proof.
  unfold Inference.sort_by_seq. assert (forall acc, Forall plain acc -> Forall plain l -> Forall plain (foldl (fun a r => Inference.insert_by_seq r a) acc l)) as H1.
  { induction l as [|r l IH]; intros acc Ha Hl; [done|]. apply Forall_cons in Hl as [Hr Hl]. apply IH; [|done]. apply Forall_forall.
    rewrite Forall_forall in Ha. intros x [->|Hx]%insert_by_seq_elem; auto. }
  intros. apply H1; [constructor|done].
Qed.
Lemma config_fine : cfg_ok (engine_config opt).
Proof. by split_and!. Qed.

Lemma wp_seed r s : idle s -> kind r = SnapEnd -> synced_ (feed s) = false -> two_sided s r = true ->
  wp False (seed opt r) (fun early s' => running s' /\ Forall plain early) s.
Proof.
  intros Hs Hk Hsy Hts. unfold two_sided in Hts. rewrite Hk, Hsy in Hts. cbn in Hts. unfold seed. do 4 wp_step. wp_step. wp_step.
  cbn [truth_ set_feed]. destruct (TruthBook.best (truth_ s) Buy) as [p1|]; [|done]. destruct (TruthBook.best (truth_ s) Sell) as [p2|]; [|done].
  destruct (add_px p1 p2) as [m|] eqn:Em; [|done]. wp_step. apply wp_lift; [|done]. intros ? [= <-]. wp_step. apply wp_lift; [|done]. intros ? [= <-].
  wp_step. apply wp_lift; [|by rewrite Em]. intros _ _. destruct (ba_rep_make 0 (engine_config opt) config_fine) as (b & Hb & Hr).
  wp_step. unfold make_engine. wp_step. apply wp_lift; [|by rewrite Hb]. rewrite Hb. intros ? [= <-]. wp_step. wp_step.
  match goal with |- wp _ _ _ ?s1 => assert (running s1) as Hrun end.
  { destruct Hs as [[? ? ? ? ? ? ? ? ?] _]. split; [by split|]. eexists _, b. split_and!; [done|done|done|done]. }
  eapply wp_keeps; [apply keeps_emit|exact Hrun|]. intros ? s1 H1. wp_step. eapply wp_keeps; [apply keeps_rebuild|done|]. intros ? s2 H2.
  wp_step. eapply wp_keeps; [apply keeps_count|done|]. intros ? s3 H3. wp_step. eapply wp_keeps; [apply keeps_when, keeps_tick|done|]. intros ? s4 H4.
  repeat wp_step. split; [|apply sort_by_seq_plain; apply H4]. apply running_feed; [done|constructor].
Qed.
Lemma seed_fails r s : kind r = SnapEnd -> synced_ (feed s) = false -> two_sided s r = false -> seed opt r s = None.
Proof.
  intros Hk Hsy Hts. unfold two_sided in Hts. rewrite Hk, Hsy in Hts. cbn in Hts. unfold seed, mbind, M_bind, gets, update, lift. cbn [truth_ set_feed].
  destruct (TruthBook.best (truth_ s) Buy) as [p1|]; [|done]. destruct (TruthBook.best (truth_ s) Sell) as [p2|]; [|done].
  by destruct (add_px p1 p2).
Qed.

Lemma on_plain fuel r : plain r -> on opt (S fuel) r = on_message opt r.
Proof. intros (_ & H1 & H2). cbn [on]. by rewrite (proj2 (Z.eqb_neq _ _) H1), (proj2 (Z.eqb_neq _ _) H2). Qed.
Lemma on_snap fuel r : kind r = SnapOrder -> on opt (S fuel) r = on_snap_order r.
Proof. intros Hk. cbn [on]. by rewrite Hk. Qed.
Definition replay_early (fuel : nat) (early : list Rec) : StateM.M (t (Bk := Bk)) unit :=
  for_each early (fun e => s ← gets (fun s => snap_seq_ (feed s)); when (s <? seq e) (on opt fuel e)).
Lemma on_snap_end fuel r : kind r = SnapEnd -> on opt (S fuel) r =
  (f ← gets feed;
   when (negb (synced_ f)) (
     early ← seed opt r;
     s ← gets (fun s => snap_seq_ (feed s));
     replay_early fuel early;;
     count Stats.unreplayed (Z.of_nat (length early) - Z.of_nat (length (filter (fun e => s < seq e) early))))).
Proof. intros Hk. cbn [on]. by rewrite Hk. Qed.

Lemma idle_early fuel early s : Forall plain early -> idle s -> wp False (replay_early (S fuel) early) (fun _ => idle) s.
Proof.
  intros He Hs. rewrite Forall_forall in He. apply wp_for_each; [|done]. intros e s1 Hin H1. wp_step. wp_step. wp_step; [|done].
  rewrite on_plain by auto. by apply idle_message; [|apply He].
Qed.
Lemma idle_on fuel r s : idle s -> rec_ok r -> two_sided s r = true -> wp False (on opt (S (S fuel)) r) (fun _ => idle) s.
Proof.
  intros Hs Hr Hts. destruct (Z.eq_dec (kind r) SnapOrder) as [|Hn1]; [rewrite on_snap by done; by apply idle_snap_order|].
  destruct (Z.eq_dec (kind r) SnapEnd) as [Hk|Hn2]; [|rewrite on_plain by done; by apply idle_message].
  rewrite on_snap_end by done. wp_step. wp_step. wp_step; [|done]. to_prop. wp_step. eapply wp_mono; [by apply wp_seed|]. intros early s1 [H1 He]. wp_step. wp_step. wp_step.
  eapply wp_mono; [by apply idle_early; [|apply running_idle]|]. intros ? s2 H2. by apply idle_count.
Qed.

(** More levels of calls change nothing. *)
Lemma early_fuel fuel early s : Forall plain early -> replay_early (S fuel) early s = replay_early 1 early s.
Proof.
  intros He. rewrite Forall_forall in He. apply for_each_ext. intros e s1 Hin. unfold mbind, M_bind, gets. by rewrite !on_plain by auto.
Qed.
Lemma on_fuel fuel r s : idle s -> on opt (S (S fuel)) r s = on opt 2 r s.
Proof.
  intros Hs. destruct (Z.eq_dec (kind r) SnapOrder) as [|Hn1]; [by rewrite !on_snap|].
  destruct (Z.eq_dec (kind r) SnapEnd) as [Hk|Hn2]; [|cbn [on]; by rewrite (proj2 (Z.eqb_neq _ _) Hn1), (proj2 (Z.eqb_neq _ _) Hn2)].
  rewrite !on_snap_end by done. unfold mbind, M_bind, gets. destruct (synced_ (feed s)) eqn:Hsy; [done|]. cbn [negb when].
  destruct (two_sided s r) eqn:Hts; [|by rewrite seed_fails].
  destruct (wp_total _ _ _ (wp_seed r s Hs Hk Hsy Hts)) as (s1 & early & -> & _ & He). by rewrite early_fuel.
Qed.

(** Every snapshot of the day that is waited for has two sides. *)
Fixpoint snapshots_ok s (rs : list Rec) : bool :=
  match rs with [] => true | r :: rs => two_sided s r && match on_record opt 2 r s with Some (s, _) => snapshots_ok s rs | None => true end end.

Lemma idle_record fuel r s : idle s -> rec_ok r -> two_sided s r = true -> wp False (on_record opt (S (S fuel)) r) (fun _ => idle) s.
Proof.
  intros Hs Hr Hts. unfold on_record. wp_step. apply wp_update. apply idle_on; [|done..].
  exact (idle_count Stats.records 1 s Hs).
Qed.
Lemma record_fuel fuel r s : idle s -> on_record opt (S (S fuel)) r s = on_record opt 2 r s.
Proof. intros Hs. unfold on_record, mbind, M_bind, tick, count, update. apply on_fuel. by apply (idle_count Stats.records 1 s Hs). Qed.

Lemma records_end fuel rs s : idle s -> Forall rec_ok rs -> snapshots_ok s rs = true ->
  for_each rs (on_record opt (S (S fuel))) s = for_each rs (on_record opt 2) s /\
  exists s', for_each rs (on_record opt 2) s = Some (s', tt) /\ idle s'.
Proof.
  revert s. induction rs as [|r rs IH]; intros s Hs Hrs Hok; [by eauto|]. apply Forall_cons in Hrs as [Hr Hrs]. cbn [snapshots_ok] in Hok.
  apply andb_prop in Hok as [Hts Hok]. destruct (wp_total _ _ _ (idle_record 0 r s Hs Hr Hts)) as (s1 & [] & E & H1). rewrite E in Hok.
  cbn [for_each]. unfold mbind, M_bind. rewrite record_fuel, E by done. by apply IH.
Qed.

Lemma close_ends s : exists s', close_episode s = Some (s', tt).
Proof.
  unfold close_episode, mbind, M_bind, gets, when, count, tick, update, add_repairs, set_need. destruct (ep_active_ (ep s)); [|eauto].
  destruct (negb _), (bool_decide (ep_pred_ (ep s) = ep_actual_ (ep s))), (ep_stp_ (ep s)); cbn; eauto.
Qed.

Lemma make_idle accounts : AccountsLaws.down accounts -> idle (make accounts).
Proof.
  intros Ha. split; [|done]. split; cbn; try apply Forall_nil_2; try done. apply valued_make.
Qed.

(** The second pass ends. Whatever the stream of messages (gaps, repeated and unknown ids, inconsistent sizes, messages
    of a snapshot anywhere), the first pass' accounts and the options, and however many messages are buffered before a
    snapshot: if every snapshot that is waited for has two sides, whose best prices the code adds, then every operation has
    a result (no iterator of an order that is gone, no empty pointer, no overflow, no engine whose bookkeeping breaks), and
    the handler, which calls itself on the buffered messages, never does so more than one level deep. *)
Theorem second_pass_ends accounts max rs fuel (Ha : AccountsLaws.down accounts) (Hrs : Forall rec_ok rs)
  (Hsnap : snapshots_ok (make accounts) (taken max rs) = true) :
  exists s, run opt 2 max rs (make accounts) = Some (s, tt) /\ run opt (2 + fuel) max rs (make accounts) = Some (s, tt).
Proof.
  assert (Forall rec_ok (taken max rs)) as Ht by (unfold taken; case_match; [done|by apply Forall_take]).
  destruct (records_end fuel _ _ (make_idle accounts Ha) Ht Hsnap) as (E1 & s1 & E2 & _). destruct (close_ends s1) as [s2 E3].
  exists s2. unfold run, mbind, M_bind. change (2 + fuel)%nat with (S (S fuel)). by rewrite E1, E2, E3.
Qed.
End laws.

(** A day on a reference book: a message before the snapshot is newer than it, an arrival takes two orders, another rests. *)
Definition short_day : list Rec :=
  [Inference.mkRec 10 0 3 0 50 0 10 0 SnapOrder 0 0 0; Inference.mkRec 10 0 4 0 50 0 10 0 SnapOrder 0 0 0;
   Inference.mkRec 10 0 5 0 60 0 10 0 SnapOrder 1 0 0; Inference.mkRec 11 0 8 0 50 0 12 0 Received 1 0 0; Inference.mkRec 10 0 0 0 0 0 0 0 SnapEnd 0 0 0;
   Inference.mkRec 12 0 8 3 50 0 10 0 Match 0 0 0; Inference.mkRec 13 0 3 0 50 0 0 0 Done 0 0 0; Inference.mkRec 14 0 8 4 50 0 2 0 Match 0 0 0;
   Inference.mkRec 15 0 8 0 50 0 0 0 Done 1 0 0; Inference.mkRec 16 0 9 0 50 0 9 0 Received 1 0 0; Inference.mkRec 17 0 9 4 50 0 8 0 Match 0 0 0;
   Inference.mkRec 18 0 4 0 50 0 0 0 Done 0 0 0; Inference.mkRec 19 0 9 0 50 0 1 0 Open 1 0 0; Inference.mkRec 20 0 12 0 40 0 1 0 Received 0 0 0;
   Inference.mkRec 21 0 12 0 40 0 1 0 Open 0 0 0].
Definition short_options : Options :=
  mkOptions (match Inference.run Inference.make short_day with Some i => Inference.life i | None => ∅ end) false 1 0 true.
Lemma short_day_ok : Forall rec_ok short_day.
Proof. repeat constructor; cbn; lia. Qed.

Lemma second_pass_ends_witness : exists s, run (Bk := RB.t) short_options 2 0 short_day (make ∅) = Some (s, tt) /\
  run (Bk := RB.t) short_options 9 0 short_day (make ∅) = Some (s, tt).
Proof. apply (second_pass_ends short_options ∅ 0 short_day 7); [by intros x p|exact short_day_ok|vm_compute; reflexivity]. Defined.
End ReplayLaws.
