(* ===== verification/L3Emit.v ===== *)
(** * The command stream of the replay

    With [--emit-commands] the replay writes every configuration and command its engine receives, so that a second
    implementation can be run on exactly what this engine saw. [recorded] says so; every operation keeps it. *)
From S2P Require Import Prelude StateM TextFormat Common ReferenceBook Engine BookApi DiffFeed DiffFeedLaws L3 L3Infer L3Replay L3ReplayLaws.
Local Open Scope Z_scope.

Create HintDb emit discriminated.

Module ReplayEmit.
Import DiffFeed DiffFeedLaws Text Replay.
Import Inference (Rec, rid, rpx, rq, kind).

Section emit.
Context {Bk : Type} {BA : BookApi Bk} (opt : Options) (Hemit : emitting opt = true).
Implicit Types (s : t (Bk := Bk)) (r : Rec) (segs : list (list Command)).

(** The file of the segments: each starts with the configuration and has the commands of one engine. *)
Definition written segs : string := foldr (fun cs x => String.app (write_file (engine_config opt) cs) x) EmptyString segs.
(** The engine after the last of them. *)
Definition after segs : option Bk :=
  match last segs with None => None | Some cs => b ← bk_make 0 (engine_config opt); '(b, _) ← MatchingEngine.book_run b cs; Some b end.
(** Nothing is lost by the format: the commands have no sequence number, time or symbol. *)
Definition plain_text (c : Command) : Prop := stripped c = c.
Record recorded s : Prop := {
  E_segs : exists segs, emit_ (eng s) = written segs /\ engine_ (eng s) = after segs /\ Forall (Forall plain_text) segs /\
    Forall (fun cs => is_Some (after [cs])) segs;
}.

#[local] Abbreviation keeps := (StateM.keeps True recorded).

Lemma written_snoc segs cs : written (segs ++ [cs]) = String.app (written segs) (write_file (engine_config opt) cs).
Proof.
  unfold written. rewrite foldr_app. cbn [foldr]. generalize (write_file (engine_config opt) cs). intros x. induction segs as [|y segs IH]; cbn [foldr].
  - by rewrite string_app_nil.
  - by rewrite IH, string_app_assoc.
Qed.
Lemma write_commands_snoc (cs : list Command) c : write_commands (cs ++ [c]) = String.app (write_commands cs) (write_command c).
Proof.
  unfold write_commands. rewrite foldr_app. cbn [foldr]. generalize (write_command c). intros x. induction cs as [|y cs IH]; cbn [foldr].
  - by rewrite string_app_nil.
  - by rewrite IH, string_app_assoc.
Qed.
Lemma book_run_snoc (b b1 b2 : Bk) cs c es es' : MatchingEngine.book_run b cs = Some (b1, es) -> bk_step b1 c = Some (b2, es') ->
  exists es2, MatchingEngine.book_run b (cs ++ [c]) = Some (b2, es2).
Proof.
  revert b es. induction cs as [|x cs IH]; intros b es; cbn [app MatchingEngine.book_run].
  - intros [= <- <-] Hs. rewrite Hs. cbn. eauto.
  - intros Hr Hs. destruct (bk_step b x) as [[b3 es3]|]; [|done]. cbn [mbind option_bind] in *. destruct (MatchingEngine.book_run b3 cs) as [[b4 es4]|] eqn:E; [|done].
    cbn [mbind option_bind] in *. injection Hr as -> <-. destruct (IH _ _ E Hs) as [es2 ->]. cbn. eauto.
Qed.

(** Updates of the other fields, and of the accounts. *)
Lemma recorded_same s s' : recorded s -> emit_ (eng s') = emit_ (eng s) -> engine_ (eng s') = engine_ (eng s) -> recorded s'.
Proof. intros [(segs & ? & ? & ? & ?)] E1 E2. split. exists segs. by rewrite E1, E2. Qed.
Lemma emits_other f : (forall s, eng (f s) = eng s) -> keeps (update f).
Proof. intros Hf. apply keeps_update. intros s Hs. apply (recorded_same s); [done|by rewrite Hf..]. Qed.

Ltac keep :=
  lazymatch goal with
  | |- StateM.keeps _ _ (update (set_truth _)) => by apply emits_other
  | |- StateM.keeps _ _ (update (set_feed _)) => by apply emits_other
  | |- StateM.keeps _ _ (update (set_ep _)) => by apply emits_other
  | |- StateM.keeps _ _ (update (set_checks _)) => by apply emits_other
  | |- StateM.keeps _ _ (update (set_fills _)) => by apply emits_other
  | |- StateM.keeps _ _ (update (set_cancel_count _)) => by apply emits_other
  | |- StateM.keeps _ _ (update (set_st _)) => by apply emits_other
  | |- StateM.keeps _ _ (mbind _ (lift _)) => apply keeps_try; [done|intros ? ?]
  | |- _ => keep_step
  end.

Lemma emits_book {A} (k : Bk -> StateM.M t A) : (forall b, keeps (k b)) -> keeps (book ≫= k).
Proof. intros Hk. unfold book. intros s Hs. wp_step. wp_step. wp_step. apply wp_lift; [|done]. intros b _. by apply Hk. Qed.
Lemma emits_count f n : keeps (count f n).
Proof. unfold count. keep. Qed.
Lemma emits_tick f : keeps (tick f).
Proof. apply emits_count. Qed.
Lemma emits_owner id : keeps (owner id).
Proof. unfold owner. repeat keep. apply keeps_update. intros s Hs. by apply (recorded_same s). Qed.

(** The two operations that reach the engine. *)
Lemma emits_make : keeps (make_engine opt).
Proof.
  intros s [(segs & He & Hb & Hc & Hn)]. unfold make_engine. wp_step. apply wp_lift; [|done]. intros b Hm. wp_step. wp_step. unfold emit. rewrite Hemit. cbn [when]. wp_step.
  split. exists (segs ++ [[]]). cbn [eng set_eng emit_ engine_]. split_and!.
  - rewrite He, written_snoc. f_equal. unfold write_file. cbn [write_commands foldr]. by rewrite string_app_nil.
  - unfold after. rewrite last_snoc, Hm. done.
  - apply Forall_app. split; [done|]. by repeat constructor.
  - apply Forall_app. split; [done|]. apply Forall_singleton. unfold after. cbn [last]. rewrite Hm. by eexists.
Qed.
Lemma emits_run c : plain_text c -> keeps (eng_run opt c).
Proof.
  intros Hc s [(segs & He & Hb & Hs & Hn)]. unfold eng_run. wp_step. unfold emit. rewrite Hemit. cbn [when]. wp_step. wp_step. unfold book. wp_step. wp_step.
  cbn [eng set_eng engine_]. apply wp_lift; [|done]. intros b Eb. wp_step. apply wp_lift; [|done]. intros [b' es] Es. wp_step. wp_step. wp_step.
  rewrite Hb in Eb. unfold after in Eb. destruct (last segs) as [cs|] eqn:El; [|done]. apply last_Some in El as [segs' ->].
  destruct (bk_make 0 (engine_config opt)) as [b0|] eqn:Em; [|done]. cbn [mbind option_bind] in Eb.
  destruct (MatchingEngine.book_run b0 cs) as [[b1 es1]|] eqn:Er; [|done]. injection Eb as ->. destruct (book_run_snoc _ _ _ _ _ _ _ Er Es) as [es2 Er2].
  split. exists (segs' ++ [cs ++ [c]]). cbn [eng set_eng emit_ engine_]. split_and!.
  - rewrite He, !written_snoc, string_app_assoc. f_equal. unfold write_file. by rewrite write_commands_snoc, string_app_assoc.
  - unfold after. rewrite last_snoc, Em. cbn [mbind option_bind]. by rewrite Er2.
  - rewrite Forall_app, Forall_singleton in *. destruct Hs. split; [done|]. apply Forall_app. split; [done|by constructor].
  - rewrite Forall_app, Forall_singleton in *. destruct Hn. split; [done|]. unfold after. cbn [last]. rewrite Em. cbn [mbind option_bind]. rewrite Er2. by eexists.
Qed.

#[local] Hint Constants Opaque : emit.
#[local] Hint Resolve emits_owner emits_count emits_tick emits_make : emit.
#[local] Hint Extern 1 (StateM.keeps _ _ (eng_run _ _)) => apply emits_run; first [reflexivity|assumption] : emit.
#[local] Hint Extern 2 (StateM.keeps _ _ (update _)) => apply emits_other; done : emit.
Ltac ops :=
  repeat lazymatch goal with
  | |- StateM.keeps _ _ (mbind _ book) => apply emits_book; intros ?
  | |- StateM.keeps _ _ (for_each _ _) => apply keeps_for; intros ? ?
  | |- StateM.keeps _ _ (for_append _ _) => apply keeps_append; intros ? ?
  | |- StateM.keeps _ _ (match ?x with Some _ => _ | None => _ end) => destruct x
  | |- StateM.keeps _ _ (let '(_, _) := ?x in _) => destruct x
  | |- StateM.keeps _ _ (let _ := _ in _) => cbv zeta
  | |- _ => first [keep | solve [auto with emit nocore] | progress cbv zeta]
  end.

Lemma emits_cancel id : keeps (eng_cancel opt id).
Proof. unfold eng_cancel. ops. Qed.
#[local] Hint Resolve emits_cancel : emit.
Lemma emits_add_order sd p o : keeps (add_order opt sd p o).
Proof. unfold add_order. ops. Qed.
#[local] Hint Resolve emits_add_order : emit.
Lemma emits_repair_order sd p o : keeps (repair_order opt sd p o).
Proof. unfold repair_order. ops. Qed.
#[local] Hint Resolve emits_repair_order : emit.
Lemma emits_rebuild : keeps (rebuild_from_truth opt).
Proof. unfold rebuild_from_truth, is_in_band. ops. Qed.
#[local] Hint Resolve emits_rebuild : emit.
Lemma emits_repair ps : keeps (repair_levels opt ps).
Proof.
  unfold repair_levels, is_in_band. ops.
Qed.
#[local] Hint Resolve emits_repair : emit.
Lemma emits_side_equal sd : keeps (side_equal sd).
Proof. unfold side_equal. ops. Qed.
#[local] Hint Resolve emits_side_equal : emit.
Lemma emits_full_check : keeps (full_check opt).
Proof. unfold full_check, books_equal. ops. Qed.
#[local] Hint Resolve emits_full_check : emit.
Lemma emits_close : keeps close_episode.
Proof. unfold close_episode, add_repairs, set_need. ops. Qed.
#[local] Hint Resolve emits_close : emit.
Lemma emits_open x es b : keeps (open_episode x es b).
Proof. unfold open_episode. ops. Qed.
#[local] Hint Resolve emits_open : emit.
Lemma emits_truth o : keeps (truth_step o).
Proof. unfold truth_step. ops. Qed.
#[local] Hint Resolve emits_truth : emit.
Lemma emits_modify_episode id sd p old q n : keeps (modify_episode opt id sd p old q n).
Proof. unfold modify_episode, set_seq, set_taker_px, add_repairs. ops. Qed.
#[local] Hint Resolve emits_modify_episode : emit.
Lemma emits_change r : keeps (on_change opt r).
Proof. unfold on_change. ops. Qed.
#[local] Hint Resolve emits_change : emit.
Lemma emits_on_open r : keeps (on_open r).
Proof. unfold on_open, is_in_band. ops. Qed.
#[local] Hint Resolve emits_on_open : emit.
Lemma emits_done r : keeps (on_done opt r).
Proof. unfold on_done, drop_unmatched, on_cancelled. ops. Qed.
#[local] Hint Resolve emits_done : emit.
Lemma emits_match r : keeps (on_match r).
Proof. unfold on_match. ops. Qed.
#[local] Hint Resolve emits_match : emit.

(** Every arrival is sent with the fields of its text. *)
Lemma wp_arrival r sd info w fl s : recorded s ->
  wp True (if Inference.otype r =? 1 then market_arrival r sd info w fl else limit_arrival r sd info w fl)
    (fun c s' => recorded s' /\ forall c', c = Some c' -> plain_text c') s.
Proof.
  intros Hs. wp_step.
  - unfold market_arrival. wp_step. eapply wp_keeps; [apply emits_tick|done|]. intros ? s1 H1. wp_step. eapply wp_keeps; [apply keeps_when, emits_tick|done|].
    intros ? s2 H2. cbv zeta. wp_step. split; [done|]. by intros ? [= <-].
  - unfold limit_arrival. wp_step. wp_step. wp_step.
    + wp_step. eapply wp_keeps; [apply emits_tick|done|]. intros ? s1 H1. wp_step. by split.
    + wp_step. eapply wp_keeps; [apply keeps_when, emits_tick|done|]. intros ? s1 H1. cbv zeta. wp_step; [wp_step; split; [done|]; by intros ? [= <-]|].
      wp_step; wp_step; (eapply wp_keeps; [apply emits_tick|done|]; intros ? s2 G2; wp_step; split; [done|]; by intros ? [= <-]).
Qed.
Lemma emits_received r sd : keeps (on_received opt r sd).
Proof.
  unfold on_received. apply keeps_bind; [apply emits_tick|intros ?]. cbv zeta. apply keeps_bind; [apply emits_owner|intros w].
  apply keeps_bind; [apply keeps_when, emits_tick|intros ?]. intros s Hs. wp_step. eapply wp_mono; [by apply wp_arrival|]. intros [c|] s1 [H1 Hc]; [|by wp_step].
  specialize (Hc c eq_refl). revert s1 H1. match goal with |- forall s, _ -> wp True ?m _ _ => change (keeps m) end.
  unfold set_seq, set_taker_px. ops.
Qed.
#[local] Hint Resolve emits_received : emit.
Lemma emits_on_message r : keeps (on_message opt r).
Proof.
  unfold on_message, buffer, on_gap, prepare, dispatch, schedule_check, abandon_episode, set_need, clear_repairs, set_pending, buffer.
  ops.
Qed.
#[local] Hint Resolve emits_on_message : emit.
Lemma emits_on fuel r : keeps (on opt fuel r).
Proof.
  revert r. induction fuel as [|fuel IH]; intros r; [by apply keeps_fail|]. cbn [on]. apply keeps_if; [|apply keeps_if].
  - unfold on_snap_order. ops.
  - unfold seed. ops.
  - apply emits_on_message.
Qed.
#[local] Hint Resolve emits_on : emit.
Lemma emits_whole fuel max rs : keeps (run opt fuel max rs).
Proof. unfold run, on_record. ops. Qed.
#[local] Hint Resolve emits_whole : emit.

(** ** Reading it back *)

Lemma lines_commands_app (cs : list Command) x : lines (String.app (write_commands cs) x) = ((fun c => String.app (tag_of c) (fields (fields_of c))) <$> cs) ++ lines x.
Proof.
  induction cs as [|c cs IH]; [done|]. cbn [write_commands foldr fmap list_fmap app]. rewrite write_command_line, string_app_assoc. destruct (fields_one_line c).
  rewrite lines_tag by done. f_equal. exact IH.
Qed.
Lemma lines_file_app cfg (cs : list Command) x : lines (String.app (write_file cfg cs) x) = lines (write_file cfg cs) ++ lines x.
Proof.
  rewrite lines_file. unfold write_file. change (write_config cfg) with (line "CONFIG" (config_fields cfg)). rewrite string_app_assoc, lines_tag; [|done|apply config_one_line].
  cbn [app]. f_equal. apply lines_commands_app.
Qed.

Lemma read_segment (cs : list Command) (b : Bk) run : Forall command_wf cs -> Forall plain_text cs -> after [cs] = Some b -> in_u64 (n run) -> in_u64 (sink_n run) ->
  exists run', for_each (lines (write_file (engine_config opt) cs)) on_line run = Some (run', tt) /\ DiffFeed.book run' = Some b /\ in_u64 (n run') /\ in_u64 (sink_n run').
Proof.
  intros Hw Ht Ha Hn Hk. unfold after in Ha. cbn [last] in Ha. destruct (bk_make 0 (engine_config opt)) as [b0|] eqn:Em; [|done]. cbn [mbind option_bind] in Ha.
  destruct (MatchingEngine.book_run b0 cs) as [[b1 es]|] eqn:Er; [|done]. injection Ha as ->.
  assert (stripped <$> cs = cs) as Hs by (clear -Ht; induction Ht as [|c cs Hc _ IH]; cbn; congruence).
  rewrite lines_file. cbn [for_each]. unfold mbind, M_bind. rewrite on_config by done. rewrite Em.
  rewrite (on_commands cs _ b0), Hs, Er by done. eexists. split; [done|]. cbn. split_and!; [done|apply in_u64_u64..].
Qed.
Lemma read_written segs : Forall (Forall command_wf) segs -> Forall (Forall plain_text) segs -> Forall (fun cs => is_Some (after [cs])) segs ->
  forall run, in_u64 (n run) -> in_u64 (sink_n run) -> exists run', for_each (lines (written segs)) on_line run = Some (run', tt) /\
    DiffFeed.book run' = match last segs with Some _ => after segs | None => DiffFeed.DiffFeed.book run end.
Proof.
  intros Hw Ht Ha. induction segs as [|cs segs IH]; intros run Hn Hk; [by exists run|]. apply Forall_cons in Hw as [Hw1 Hw], Ht as [Ht1 Ht], Ha as [[b Ha1] Ha].
  change (written (cs :: segs)) with (String.app (write_file (engine_config opt) cs) (written segs)). rewrite lines_file_app, for_each_app. destruct (read_segment cs b run Hw1 Ht1 Ha1 Hn Hk) as (run1 & -> & Hb & Hn1 & Hk1).
  destruct (IH Hw Ht Ha run1 Hn1 Hk1) as (run' & -> & Hb'). exists run'. split; [done|]. rewrite Hb'. rewrite last_cons. unfold after in *. rewrite last_cons.
  destruct (last segs) as [cs'|]; [done|]. by rewrite Hb, <- Ha1.
Qed.

(** C31: the emitted file is exactly what the engine saw. Whatever the day, when the replay ends, the file is a sequence of
    segments, a configuration and commands each, and the engine is the book that a fresh engine becomes by the commands of
    the last one. The reader of the differential test, run on that file with any book of the same kind, accepts every line
    and ends with that very book: nothing of a command is lost in its text. *)
Theorem emitted_stream_replays accounts fuel max rs s (Hrun : run opt fuel max rs (make accounts) = Some (s, tt)) :
  exists segs, emit_ (eng s) = written segs /\ engine_ (eng s) = after segs /\
    (Forall (Forall command_wf) segs ->
     exists rd, for_each (lines (emit_ (eng s))) on_line (mkRun None 0 0 EmptyString) = Some (rd, tt) /\ DiffFeed.book rd = engine_ (eng s)).
Proof.
  assert (recorded (make (Bk := Bk) accounts)) as H0 by by (split; exists []).
  pose proof (wp_run _ _ _ _ _ _ (emits_whole fuel max rs _ H0) Hrun) as [(segs & H1 & H2 & H3 & H4)]. exists segs. split_and!; [done..|].
  intros Hw. destruct (read_written segs Hw H3 H4 (mkRun None 0 0 EmptyString)) as (rd & Hr & Hb); [done..|]. exists rd. rewrite H1, H2. split; [done|].
  rewrite Hb. unfold after. by destruct (last segs).
Qed.
End emit.

Lemma emitted_stream_replays_witness : exists (s : t (Bk := ReferenceBook.t)) segs,
  run ReplayLaws.short_options 2 0 ReplayLaws.short_day (make ∅) = Some (s, tt) /\
  emit_ (eng s) = written ReplayLaws.short_options segs /\ engine_ (eng s) = after ReplayLaws.short_options segs /\ base.size <$> (ReferenceBook.index_ <$> engine_ (eng s)) = Some 3%nat.
Proof.
  assert (match run (Bk := ReferenceBook.t) ReplayLaws.short_options 2 0 ReplayLaws.short_day (make ∅) with
    Some (s, _) => base.size <$> (ReferenceBook.index_ <$> engine_ (eng s)) | None => None end = Some 3%nat) as Hs by (vm_compute; reflexivity).
  destruct (run (Bk := ReferenceBook.t) ReplayLaws.short_options 2 0 ReplayLaws.short_day (make ∅)) as [[s []]|] eqn:E; [|discriminate Hs].
  destruct (emitted_stream_replays ReplayLaws.short_options eq_refl ∅ 2 0 ReplayLaws.short_day s E) as (segs & H1 & H2 & _).
  exists s, segs. split_and!; [reflexivity|exact H1|exact H2|exact Hs].
Defined.
End ReplayEmit.
