(* ===== verification/L3Exchange.v ===== *)
(** * An exchange that publishes its messages

    The counterpart of the replay: an exchange that runs the matching rules of [ReferenceBook] and publishes, for every
    command, the messages the replay reads (l3.hpp). [Anonymous]: without self-trade prevention a book does not depend on
    who owns the orders. [Exchange]: the messages; what the second pass sends to its engine for an arrival, from its
    published life alone, has the effect of the command itself; and how the trades of a sweep take the other side apart. *)
From stdpp Require Import sorting.
From S2P Require Import Prelude Common OrdMap ReferenceBook BookRules BookLaws BookApi.
From S2P Require Import L3 L3Laws L3Infer L3Replay.
Local Open Scope Z_scope.

Module Anonymous.
Import ReferenceBook.

Definition anon_order (o : Order) : Order := mkOrder (o_id o) (o_qty o) 0.
Definition anon_level (x : Z * list Order) : Z * list Order := (x.1, anon_order <$> x.2).
Definition anon_book (m : Book) : Book := anon_level <$> m.
Definition anon (r : t) : t :=
  mk (symbol_ r) (min_price_ r) (max_price_ r) (capacity_ r) (stp_ r) (anon_book (bids_ r)) (anon_book (asks_ r)) (index_ r).
Definition own (c : Command) (w : Z) : Command :=
  mkCommand (c_order_id c) (c_price c) (c_seq c) (c_ts c) (c_qty c) w (c_symbol c) (c_type c) (c_side c) (c_ord_type c) (c_tif c) (c_flags c).

Lemma book_anon r s : book (anon r) s = anon_book (book r s).
Proof. by destruct s. Qed.
Lemma set_book_anon r s m i : set_book (anon r) s (anon_book m) i = anon (set_book r s m i).
Proof. by destruct s. Qed.
Lemma find_anon m p : map_find (anon_book m) p = (fun q : list Order => anon_order <$> q) <$> map_find m p.
Proof. induction m as [|[p0 q] m IH]; [done|]. cbn. by case_match. Qed.
Lemma push_anon s m p o : map_push_back s (anon_book m) p (anon_order o) = anon_book (map_push_back s m p o).
Proof.
  induction m as [|[p0 q] m IH]; [done|]. cbn. unfold anon_book in IH. rewrite IH. unfold anon_level. repeat case_match; cbn; by rewrite ?fmap_app.
Qed.
Lemma put_anon m p q : map_put (anon_book m) p (anon_order <$> q) = anon_book (map_put m p q).
Proof. induction m as [|[p0 q0] m IH]; [done|]. cbn. unfold anon_book in IH. rewrite IH. case_match; [by destruct q|done]. Qed.
Lemma erase_anon q id : queue_erase (anon_order <$> q) id = anon_order <$> queue_erase q id.
Proof. induction q as [|o q IH]; [done|]. cbn. rewrite IH. by case_match. Qed.
Lemma update_anon q id v : queue_update (anon_order <$> q) id v = anon_order <$> queue_update q id v.
Proof. unfold queue_update. rewrite <- !list_fmap_compose. apply list_fmap_ext. intros ? o _. cbn. by case_match. Qed.
Lemma queue_deref_anon q id : queue_deref (anon_order <$> q) id = anon_order <$> queue_deref q id.
Proof. unfold queue_deref. induction q as [|o q IH]; [done|]. cbn. by case_match. Qed.
Lemma deref_anon r l id : deref (anon r) l id = anon_order <$> deref r l id.
Proof. unfold deref. rewrite book_anon, find_anon. destruct (map_find _ _); [apply queue_deref_anon|done]. Qed.
Lemma crosses_anon r s limit : crosses (anon r) s limit = crosses r s limit.
Proof. unfold crosses. rewrite book_anon. by destruct (book r (opposite s)) as [|[p q] m]. Qed.
Lemma orders_anon r s : for_each_order (anon r) s = for_each_order r s.
Proof.
  unfold for_each_order. rewrite book_anon. induction (book r s) as [|[p q] m IH]; [done|]. cbn. unfold anon_book in IH. rewrite IH. f_equal.
  by rewrite <- list_fmap_compose.
Qed.
Lemma find_order_anon r id : find_order (anon r) id = (fun o : option OrderView => (fun v => mkOrderView (v_price v) (v_qty v) (v_side v) 0) <$> o) <$> find_order r id.
Proof. unfold find_order. cbn [index_ anon]. destruct (index_ r !! id) as [l|]; [|done]. rewrite deref_anon. by destruct (deref r l id). Qed.

Lemma match_queue_anon sym taker w w' side limit px q : forall i n q' x,
  match_queue sym taker w side limit StpNone px q i n = (q', x) ->
  match_queue sym taker w' side limit StpNone px (anon_order <$> q) i n = (anon_order <$> q', x).
Proof.
  induction q as [|o q IH]; intros i n q' x; cbn [match_queue fmap list_fmap]; [by intros [= <- <-]|]. case_match; [by intros [= <- <-]|].
  cbn [bool_decide negb andb decide decide_rel Stp_eq_dec]. rewrite !(bool_decide_eq_true_2 (StpNone = StpNone)) by done. cbn [negb andb o_qty o_id anon_order].
  case_match; [|by intros [= <- <-]].
  destruct (match_queue sym taker w side limit StpNone px q _ _) as [q1 x1] eqn:E. intros [= <- <-]. by rewrite (IH _ _ _ _ E).
Qed.
Lemma match_side_anon sym taker w w' side limit m : forall i n m' x,
  match_side sym taker w side limit StpNone m i n = (m', x) ->
  match_side sym taker w' side limit StpNone (anon_book m) i n = (anon_book m', x).
Proof.
  induction m as [|[p q] m IH]; intros i n m' x; cbn [match_side anon_book fmap list_fmap anon_level fst snd]; [by intros [= <- <-]|]. case_match; [|by intros [= <- <-]].
  destruct (match_queue sym taker w side limit StpNone p q i n) as [q1 x1] eqn:E. rewrite (match_queue_anon _ _ w w' _ _ _ _ _ _ _ _ E).
  destruct q1 as [|o q1]; cbn [fmap list_fmap]; [|by intros [= <- <-]]. case_match; [by intros [= <- <-]|].
  destruct (match_side sym taker w side limit StpNone m _ _) as [m1 x2] eqn:E2. intros [= <- <-]. apply IH in E2. unfold anon_book in E2. by rewrite E2.
Qed.
Lemma match_anon r taker w w' s limit n : match_ (anon r) taker w' s limit n StpNone =
  let '(r', left_, stop, es) := match_ r taker w s limit n StpNone in (anon r', left_, stop, es).
Proof.
  unfold match_. rewrite book_anon. cbn [symbol_ anon index_].
  destruct (match_side (symbol_ r) taker w s limit StpNone (book r (opposite s)) (index_ r) n) as [m x] eqn:E.
  by rewrite (match_side_anon _ _ w w' _ _ _ _ _ _ _ E), set_book_anon.
Qed.
Lemma rest_anon r id w s px q : rest (anon r) id 0 s px q = let '(r', es) := rest r id w s px q in (anon r', es).
Proof.
  unfold rest, order_count. cbn [capacity_ anon index_]. case_match; [done|]. rewrite book_anon. change (mkOrder id q 0) with (anon_order (mkOrder id q w)).
  by rewrite push_anon, set_book_anon.
Qed.
Lemma scan_queue_anon w w' q : forall n, scan_queue w' StpNone (anon_order <$> q) n = scan_queue w StpNone q n.
Proof.
  induction q as [|o q IH]; intros n; [done|]. cbn [scan_queue fmap list_fmap]. rewrite !(bool_decide_eq_true_2 (StpNone = StpNone)) by done. cbn [negb andb o_qty anon_order].
  by case_match.
Qed.
Lemma scan_anon s limit w w' m : forall n, scan s limit w' StpNone (anon_book m) n = scan s limit w StpNone m n.
Proof.
  induction m as [|[p q] m IH]; intros n; [done|]. cbn [scan anon_book fmap list_fmap anon_level fst snd]. case_match; [done|].
  rewrite (scan_queue_anon w w'). case_match; [done|]. apply IH.
Qed.
Lemma remove_anon r l id : remove (anon r) l id = anon <$> remove r l id.
Proof.
  unfold remove. rewrite book_anon, find_anon. destruct (map_find _ _) as [q|]; [|done]. cbn. by rewrite erase_anon, put_anon, set_book_anon.
Qed.

Definition anon_result (x : t * list Event) : t * list Event := (anon x.1, x.2).
(** The next test of both sides. *)
Ltac branch := match goal with |- (if ?b then _ else _) = _ => destruct b; [done|] end.
Lemma add_anon r c : effective_stp (c_flags c) (stp_ r) = StpNone -> add (anon r) (own c 0) = anon_result (add r c).
Proof.
  intros Hs. unfold add, out_of_band, contains, fillable. rewrite crosses_anon. cbn [c_order_id c_qty c_ord_type c_price c_side c_flags c_tif c_owner own min_price_ max_price_ index_ symbol_ stp_ anon].
  rewrite Hs, book_anon, (scan_anon _ _ (c_owner c) 0). do 6 branch.
  rewrite (match_anon r (c_order_id c) (c_owner c) 0). destruct (match_ r _ _ _ _ _ _) as [[[r1 left_] stop] es]. do 3 branch.
  rewrite (rest_anon r1 _ (c_owner c)). by destruct (rest r1 _ _ _ _ _).
Qed.
Lemma cancel_anon r c : cancel (anon r) (own c 0) = anon_result <$> cancel r c.
Proof.
  unfold cancel. cbn [c_order_id own index_ anon]. destruct (index_ r !! c_order_id c) as [l|]; [|done]. rewrite deref_anon, remove_anon.
  destruct (deref r l _); [|done]. cbn. by destruct (remove r l _).
Qed.
Lemma modify_anon r c : stp_ r = StpNone -> modify (anon r) (own c 0) = anon_result <$> modify r c.
Proof.
  intros Hs. unfold modify, out_of_band. cbn [c_order_id c_qty c_price own index_ anon min_price_ max_price_ stp_ symbol_]. branch.
  destruct (index_ r !! c_order_id c) as [l|]; [|done]. branch. rewrite deref_anon. destruct (deref r l _) as [o|]; [|done]. cbn [fmap option_fmap option_map mbind option_bind o_qty o_owner anon_order].
  case_match.
  - rewrite book_anon, find_anon. destruct (map_find _ _) as [q|]; [|done]. cbn [fmap option_fmap option_map mbind option_bind]. by rewrite update_anon, put_anon, set_book_anon.
  - rewrite remove_anon. destruct (remove r l _) as [r1|] eqn:Er; [|done]. cbn [fmap option_fmap option_map mbind option_bind].
    assert (stp_ r1 = StpNone) as Hs1 by (unfold remove in Er; destruct (map_find _ _); [|done]; injection Er as <-; by destruct (l_side l)).
    change (stp_ (anon r1)) with (stp_ r1). rewrite Hs1, (match_anon r1 _ (o_owner o) 0).
    destruct (match_ r1 _ _ _ _ _ _) as [[[r2 left_] stop] es]. do 2 branch. rewrite (rest_anon r2 _ (o_owner o)). by destruct (rest r2 _ _ _ _ _).
Qed.
Lemma step_anon r c : stp_ r = StpNone -> effective_stp (c_flags c) StpNone = StpNone -> step (anon r) (own c 0) = anon_result <$> step r c.
Proof.
  intros Hs Hf. unfold step. cbn [c_type own]. destruct (c_type c); [|by rewrite cancel_anon|by rewrite modify_anon].
  cbn. by rewrite add_anon by (by rewrite Hs).
Qed.

(** Two books that differ in the owners alone take the same steps. *)
Lemma step_alike x y c c' x' es : anon y = anon x -> stp_ x = StpNone -> effective_stp (c_flags c) StpNone = StpNone -> own c' 0 = own c 0 ->
  step x c = Some (x', es) -> exists y', step y c' = Some (y', es) /\ anon y' = anon x'.
Proof.
  intros Ha Hs Hf Hc Hx. assert (stp_ y = StpNone) as Hy by (change (stp_ y) with (stp_ (anon y)); by rewrite Ha).
  assert (c_flags c' = c_flags c) as Hfl by (change (c_flags c') with (c_flags (own c' 0)); by rewrite Hc).
  pose proof (step_anon x c Hs Hf) as E1. pose proof (step_anon y c' Hy ltac:(by rewrite Hfl)) as E2. rewrite Ha, Hc, E1, Hx in E2.
  destruct (step y c') as [[y' es']|]; [|done]. change (Some (anon x', es) = Some (anon y', es')) in E2. exists y'. by split; congruence.
Qed.
End Anonymous.

Module Exchange.
Import Anonymous BookRules BookLaws BookRefine Replay.
Import ReferenceBook (limit_of, Order, o_id, o_qty, o_owner, map_find, match_queue, match_side, m_events, m_stop, m_qty, m_index, sorted, positive).
Import Inference (Rec, SnapOrder, SnapEnd, Received, Open, Done, Match, Change_, Canceled_).

(** ** What is published *)

Definition exchange_config : BookConfig := mkBookConfig 0 kLevels kMaxOrders StpNone.
Definition msg (k id id2 p q : Z) (s : Side) (otype flags : Z) : Rec := Inference.mkRec 0 0 id id2 p 0 q 0 k (Side_to_Z s) otype flags.

(** A trade, and the end of its maker when nothing of it is left. *)
Definition trade_messages (e : Event) : list Rec :=
  match e_type e with
  | Common.Trade =>
      msg Match (e_order_id e) (e_maker_id e) (e_price e) (e_qty e) (opposite (e_side e)) 0 0 ::
      (if e_leaves e =? 0 then [msg Done (e_maker_id e) 0 (e_price e) 0 (opposite (e_side e)) 0 0] else [])
  | _ => []
  end.
Definition left_of (c : Command) (es : list Event) : Z := c_qty c - traded es.
(** How an order ends its arrival: it rests, it is filled, or what is left of it is cancelled. *)
Definition ending (c : Command) (x' : RB.t) (es : list Event) : Rec :=
  if RB.contains x' (c_order_id c) then msg Open (c_order_id c) 0 (c_price c) (left_of c es) (c_side c) 0 0
  else msg Done (c_order_id c) 0 (c_price c) (left_of c es) (c_side c) 0 (if left_of c es =? 0 then 0 else Canceled_).
Definition type_code (t : OrdType) : Z := match t with Market => 1 | Limit => 0 end.
Definition arrival_messages (c : Command) (x' : RB.t) (es : list Event) : list Rec :=
  msg Received (c_order_id c) 0 (c_price c) (c_qty c) (c_side c) (type_code (c_ord_type c)) 0 :: (es ≫= trade_messages) ++ [ending c x' es].
Definition modify_messages (c : Command) (s : Side) (x' : RB.t) (es : list Event) : list Rec :=
  (es ≫= trade_messages) ++
  [if RB.contains x' (c_order_id c) then msg Change_ (c_order_id c) 0 (c_price c) (left_of c es) s 0 0
   else msg Done (c_order_id c) 0 (c_price c) 0 s 0 0].
(** A command that is rejected is not published. *)
Definition publish (c : Command) (x' : RB.t) (es : list Event) : list Rec :=
  match es with
  | [] => []
  | e :: _ =>
      if bool_decide (e_type e = Rejected) then [] else
      match c_type c with
      | NewOrder => arrival_messages c x' es
      | Cancel => [msg Done (c_order_id c) 0 (e_price e) (e_qty e) (e_side e) 0 Canceled_]
      | Modify => modify_messages c (e_side e) x' es
      end
  end.
Fixpoint session (x : RB.t) (cs : list Command) : option (RB.t * list (list Rec)) :=
  match cs with
  | [] => Some (x, [])
  | c :: cs => '(x', es) ← RB.step x c; '(x'', l) ← session x' cs; Some (x'', publish c x' es :: l)
  end.

Definition with_seq_no (n : Z) (r : Rec) : Rec :=
  Inference.mkRec n 0 (Inference.rid r) (Inference.rid2 r) (Inference.rpx r) 0 (Inference.rq r) 0 (Inference.kind r) (Inference.rside r)
    (Inference.otype r) (Inference.flags r).
Fixpoint number (n : Z) (l : list Rec) : list Rec := match l with [] => [] | r :: l => with_seq_no n r :: number (n + 1) l end.
Definition snapshot (x : RB.t) : list Rec :=
  s ← [Buy; Sell]; (fun y : Z * Z * Z => msg SnapOrder y.1.2 0 y.1.1 y.2 s 0 0) <$> RB.for_each_order x s.
(** The file of a day: a snapshot of the book as of message [n], and the messages that follow. *)
Definition day (x : RB.t) (n : Z) (ls : list (list Rec)) : list Rec :=
  snapshot x ++ with_seq_no n (msg SnapEnd 0 0 0 0 Buy 0 0) :: number (n + 1) (concat ls).

(** ** Listings *)

Abbreviation Listing := (list (Z * Z * Z)).
Definition lst (p : Z) (q : list Order) : Listing := (fun o => (p, o_id o, o_qty o)) <$> q.
Definition listing (m : list (Z * list Order)) : Listing := m ≫= fun x => lst x.1 x.2.
Definition at_px (p : Z) (L : Listing) : list (Z * Z) := omap (M := list) (fun x : Z * Z * Z => if decide (x.1.1 = p) then Some (x.1.2, x.2) else None) L.
Definition pairs (q : list Order) : list (Z * Z) := (fun o => (o_id o, o_qty o)) <$> q.
Definition lids (L : Listing) : list Z := (fun x : Z * Z * Z => x.1.2) <$> L.

Lemma listing_orders x s : RB.for_each_order x s = listing (RB.book x s).
Proof. unfold RB.for_each_order, listing. induction (RB.book x s) as [|[p q] m IH]; [done|]. cbn. by rewrite IH. Qed.
Lemma at_px_app p L L' : at_px p (L ++ L') = at_px p L ++ at_px p L'.
Proof. apply omap_app. Qed.
Lemma at_lst p p' q : at_px p (lst p' q) = if decide (p' = p) then pairs q else [].
Proof.
  induction q as [|o q IH]; [by case_decide|]. unfold lst in *. cbn [fmap list_fmap]. unfold at_px in *. cbn [omap list_omap fst snd].
  rewrite IH. by case_decide.
Qed.
Lemma at_listing s m p : sorted s m -> at_px p (listing m) = pairs (default [] (map_find m p)).
Proof.
  induction m as [|[p0 q] m IH]; intros Hs; [done|]. apply RB.sorted_cons in Hs as [Hs Hlt]. cbn [listing mbind list_bind fst snd map_find].
  rewrite at_px_app, at_lst. change (m ≫= fun x => lst x.1 x.2) with (listing m). rewrite (IH Hs). destruct (Z.eqb_spec p0 p) as [->|Hn].
  - rewrite decide_True by done. rewrite map_find_none; [by rewrite app_nil_r|]. intros Hp%Hlt. by apply RB.lt_side_irrefl in Hp.
  - by rewrite decide_False.
Qed.
Lemma lids_listing m : lids (listing m) = RB.ids m.
Proof.
  induction m as [|[p q] m IH]; [done|]. rewrite RB.ids_cons, <- IH. cbn [listing mbind list_bind fst snd]. unfold lids. rewrite fmap_app. f_equal.
  unfold lst. by rewrite <- list_fmap_compose.
Qed.

(** ** A sweep eats the listing of the other side *)

Section eats.
Context (sym taker : Z) (side : Side).
Inductive eats : Listing -> list Event -> Listing -> Prop :=
  | eats_end L : eats L [] L
  | eats_whole p i q L es L' : 0 < q -> eats L es L' -> eats ((p, i, q) :: L) (trade_event sym taker i side p q 0 :: es) L'
  | eats_part p i q f L : 0 < f < q -> eats ((p, i, q) :: L) [trade_event sym taker i side p f (q - f)] ((p, i, q - f) :: L).

Lemma match_queue_eats w limit px q : forall i n q' x, 0 <= n -> Forall (fun o => 0 < o_qty o) q ->
  match_queue sym taker w side limit StpNone px q i n = (q', x) ->
  m_stop x = false /\ (q' = [] /\ (forall L es L', eats L es L' -> eats (lst px q ++ L) (m_events x ++ es) L') \/ q' <> [] /\ forall L, eats (lst px q ++ L) (m_events x) (lst px q' ++ L)).
Proof.
  induction q as [|o q IH]; intros i n q' x Hn Hq; cbn [match_queue]; [intros [= <- <-]; split; [done|by left]|]. apply Forall_cons in Hq as [Ho Hq].
  destruct (Z.eqb_spec n 0); [intros [= <- <-]; split; [done|right; split; [done|intros; constructor]]|].
  rewrite (bool_decide_eq_true_2 (StpNone = StpNone)) by done. cbn [negb andb]. destruct (Z.eqb_spec (o_qty o - Z.min (o_qty o) n) 0) as [E|E].
  - destruct (match_queue _ _ _ _ _ _ _ _ _ _) as [q1 x1] eqn:Em. intros [= <- <-]. assert (0 <= n - Z.min (o_qty o) n) as Hn' by lia. destruct (IH _ _ _ _ Hn' Hq Em) as [Hs Hc]. split; [done|].
    rewrite E. replace (Z.min (o_qty o) n) with (o_qty o) by lia. cbn [m_events RB.emit app lst fmap list_fmap].
    destruct Hc as [[-> Hc]|[Hq1 Hc]]; [left|right]; (split; [done|]); intros; apply eats_whole; auto.
  - intros [= <- <-]. split; [done|]. right. split; [done|]. intros L. cbn [m_events lst fmap list_fmap app RB.set_qty o_id o_qty]. apply eats_part. lia.
Qed.
Lemma match_side_eats w limit m : forall i n m' x, 0 <= n -> positive m -> match_side sym taker w side limit StpNone m i n = (m', x) ->
  m_stop x = false /\ eats (listing m) (m_events x) (listing m').
Proof.
  induction m as [|[p q] m IH]; intros i n m' x Hn Hm; cbn [match_side]; [intros [= <- <-]; split; [done|constructor]|]. apply Forall_cons in Hm as [[_ Hq] Hm].
  case_match; [|intros [= <- <-]; split; [done|constructor]]. destruct (match_queue _ _ _ _ _ _ _ _ _ _) as [q1 x1] eqn:Eq.
  destruct (match_queue_eats _ _ _ _ _ _ _ _ Hn Hq Eq) as [Hs Hc]. cbn [listing mbind list_bind fst snd]. destruct q1 as [|o q1].
  - rewrite Hs. destruct (match_side _ _ _ _ _ _ _ _ _) as [m1 x2] eqn:Em. intros [= <- <-].
    pose proof (RB.match_queue_spec sym taker w side limit StpNone p q i n [] x1 Hn Hq Eq) as Hsp.
    destruct (IH (m_index x1) (m_qty x1) m1 x2) as [H1 H2]; [|done..|]; [|].
    2:{ split; [done|]. destruct Hc as [[_ Hc]|[? _]]; [|done]. by apply Hc. }
    destruct Hsp as (? & ?). naive_solver lia.
  - intros [= <- <-]. split; [done|]. destruct Hc as [[? _]|[_ Hc]]; [done|]. apply Hc.
Qed.
Lemma eats_traded L es L' : eats L es L' -> 0 <= traded es /\ (traded es =? 0) = bool_decide (trades_of es = []).
Proof.
  assert (forall i p f l es, trades_of (trade_event sym taker i side p f l :: es) <> []) as Hne by (intros; unfold trades_of; cbn [omap list_omap]; by rewrite decide_True).
  assert (forall i p f l es, traded (trade_event sym taker i side p f l :: es) = f + traded es) as Hcons by (intros; unfold traded; by rewrite filter_cons, decide_True).
  induction 1 as [L|p i q L es L' Hq _ [IH _]|p i q f L Hf]; [done|..]; rewrite Hcons, bool_decide_eq_false_2, Z.eqb_neq by apply Hne; [lia|].
  change (traded []) with 0. lia.
Qed.
End eats.

(** ** What the replay sends for an arrival *)

(** The command of the second pass, from what the first one saw of the order: that it came to rest, or that it traded. *)
Definition sent (c : Command) (opened_ filled : bool) : Command :=
  match c_ord_type c with
  | Market => mkCommand (c_order_id c) 0 0 0 (c_qty c) (c_owner c) 0 NewOrder (c_side c) Market Day 0
  | Limit =>
      if opened_ then mkCommand (c_order_id c) (c_price c) 0 0 (c_qty c) (c_owner c) 0 NewOrder (c_side c) Limit Day 0 else
      if filled then mkCommand (c_order_id c) (c_price c) 0 0 (c_qty c) (c_owner c) 0 NewOrder (c_side c) Limit Ioc 0
      else mkCommand (c_order_id c) (c_price c) 0 0 (c_qty c) (c_owner c) 0 NewOrder (c_side c) Limit Ioc kFlagPostOnly
  end.
(** No self-trade prevention is asked for, and a market order is not fill-or-kill. *)
Definition plain_order (c : Command) : Prop := effective_stp (c_flags c) StpNone = StpNone /\ (c_ord_type c = Market -> c_tif c <> Fok).
Definition no_trades (es : list Event) : Prop := Forall (fun e => e_type e <> Common.Trade) es.

Lemma no_trades_of es : no_trades es -> trades_of es = [].
Proof. unfold trades_of. induction 1 as [|e es He _ IH]; [done|]. cbn [omap list_omap]. by rewrite decide_False. Qed.
Lemma trades_cat es es' : trades_of (es ++ es') = trades_of es ++ trades_of es'.
Proof. apply omap_app. Qed.

(** The rules of an accepted order, without self-trade prevention. *)
Lemma sweep_plain x c x1 left_ stop es : RB.wf x -> 0 <= c_qty c -> stp_of x c = StpNone -> match_order x c = (x1, left_, stop, es) ->
  stop = false /\ eats (RB.symbol_ x) (c_order_id c) (c_side c) (RB.for_each_order x (opposite (c_side c))) es (RB.for_each_order x1 (opposite (c_side c))) /\
  RB.book x1 (c_side c) = RB.book x (c_side c).
Proof.
  intros Hw Hq Hs. unfold match_order. rewrite Hs. unfold RB.match_. destruct (match_side _ _ _ _ _ _ _ _ _) as [m y] eqn:E. intros [= <- <- <- <-].
  destruct (match_side_eats _ _ _ _ _ _ _ _ _ _ Hq (RB.wf_pos x Hw _) E) as [H1 H2]. rewrite !listing_orders, RB.book_set_eq, RB.book_set_ne by (by destruct (c_side c)). done.
Qed.
Lemma first_trade sym taker w side limit p o q m i n : 0 < n -> RB.in_range side limit p = true ->
  exists e es, m_events (match_side sym taker w side limit StpNone ((p, o :: q) :: m) i n).2 = e :: es /\ e_type e = Common.Trade.
Proof.
  intros Hn Hp. cbn [match_side match_queue]. rewrite Hp, (proj2 (Z.ltb_lt _ _) Hn), (proj2 (Z.eqb_neq n 0)), (bool_decide_eq_true_2 (StpNone = StpNone)) by (done || lia).
  cbn [negb andb]. destruct (_ - _ =? 0); [|do 2 eexists; split; done]. destruct (match_queue _ _ _ _ _ _ _ _ _ _) as [[|o1 q1] y]; [|do 2 eexists; split; done].
  cbn [RB.emit m_stop m_index m_qty m_events app]. destruct (m_stop y); [do 2 eexists; split; done|].
  destruct (match_side _ _ _ _ _ _ _ _ _) as [m1 y1]. do 2 eexists. split; done.
Qed.
Lemma crosses_trades x c x1 left_ stop es : RB.wf x -> 0 < c_qty c -> stp_of x c = StpNone -> match_order x c = (x1, left_, stop, es) ->
  RB.crosses x (c_side c) (limit_of x c) = true -> exists e es', es = e :: es' /\ e_type e = Common.Trade.
Proof.
  intros Hw Hq Hs. unfold match_order, RB.match_, RB.crosses. rewrite Hs. pose proof (RB.wf_pos x Hw (opposite (c_side c))) as Hp.
  destruct (RB.book x (opposite (c_side c))) as [|[p q] m]; [done|]. apply Forall_cons in Hp as [[Hne Hp] _]. destruct q as [|o q]; [done|]. intros Hm Hx.
  destruct (first_trade (RB.symbol_ x) (c_order_id c) (c_owner c) (c_side c) (limit_of x c) p o q m (RB.index_ x) (c_qty c) Hq Hx) as (e & es' & He & Ht).
  destruct (match_side _ _ _ _ _ _ _ _ _) as [m1 y]. injection Hm as _ _ _ <-. eauto.
Qed.

Lemma add_shape x c x1 left_ es : c_order_id c <> 0 -> 0 < c_qty c -> RB.contains x (c_order_id c) = false -> RB.min_price_ x <= limit_of x c <= RB.max_price_ x ->
  (post_only c = true -> RB.crosses x (c_side c) (limit_of x c) = false) -> c_tif c <> Fok -> match_order x c = (x1, left_, false, es) ->
  RB.add x c = if left_ =? 0 then (x1, accepted_of x c :: es) else
    if immediate c then (x1, accepted_of x c :: es ++ [killed_event x1 c left_ IocExpired]) else
    let '(x2, es2) := RB.rest x1 (c_order_id c) (c_owner c) (c_side c) (limit_of x c) left_ in (x2, accepted_of x c :: es ++ es2).
Proof.
  intros Hid Hq Hc Hb Hp Ht Hm. unfold RB.add. fold (limit_of x c) (stp_of x c) (post_only c) (accepted_of x c) (immediate c) (match_order x c).
  rewrite (proj2 (Z.eqb_neq _ _) Hid), (proj2 (Z.eqb_neq (c_qty c) 0)) by lia.
  assert (negb (bool_decide (c_ord_type c = Market)) && RB.out_of_band x (c_price c) = false) as ->.
  { unfold limit_of in Hb. case_bool_decide; [done|]. unfold RB.out_of_band. cbn. lia. }
  rewrite Hc. assert (post_only c && RB.crosses x (c_side c) (limit_of x c) = false) as -> by (destruct (post_only c); [by apply Hp|done]).
  rewrite (bool_decide_eq_false_2 (c_tif c = Fok)) by done. cbn [andb]. by rewrite Hm.
Qed.
Lemma rest_trades x id w s p q x' es : RB.rest x id w s p q = (x', es) -> no_trades es /\ (x' = x \/ RB.contains x' id = true).
Proof.
  unfold RB.rest. case_match; intros [= <- <-]; [split; [by constructor|by left]|]. split; [constructor|right].
  unfold RB.contains. rewrite RB.index_set_book, lookup_insert_eq. apply bool_decide_eq_true_2. by eexists.
Qed.
Lemma settle_rests x c limit left_ x2 es2 : settle x c limit left_ false x2 es2 -> no_trades es2 /\
  (x2 = x \/ (immediate c = false /\ 0 < left_ /\ RB.rest x (c_order_id c) (c_owner c) (c_side c) limit left_ = (x2, es2) /\ RB.contains x2 (c_order_id c) = true)).
Proof.
  intros Hs. split; [by eapply settle_no_trade|]. inversion Hs as [| | |r2 es H1 H2 Hr]; subst; try by left.
  destruct (rest_trades _ _ _ _ _ _ _ _ Hr) as [_ [->|Hc]]; [by left|right]. done.
Qed.
Lemma match_same x c c' : c_order_id c' = c_order_id c -> c_owner c' = c_owner c -> c_side c' = c_side c -> c_qty c' = c_qty c ->
  limit_of x c' = limit_of x c -> stp_of x c' = stp_of x c -> match_order x c' = match_order x c.
Proof. unfold match_order. by intros -> -> -> -> -> ->. Qed.

Lemma sent_fields c b b' : c_order_id (sent c b b') = c_order_id c /\ c_owner (sent c b b') = c_owner c /\ c_side (sent c b b') = c_side c /\
  c_qty (sent c b b') = c_qty c /\ c_ord_type (sent c b b') = c_ord_type c /\ c_tif (sent c b b') <> Fok /\ c_type (sent c b b') = NewOrder /\
  effective_stp (c_flags (sent c b b')) StpNone = StpNone.
Proof. unfold sent. by destruct (c_ord_type c), b, b'. Qed.
Lemma sent_limit x c b b' : limit_of x (sent c b b') = limit_of x c.
Proof. unfold limit_of, sent. by destruct (c_ord_type c), b, b'. Qed.

(** An immediate post-only order never changes the book. *)
Lemma post_only_attempt x c : RB.wf x -> RB.min_price_ x <= RB.max_price_ x -> 0 <= c_qty c -> post_only c = true -> c_tif c = Ioc ->
  exists es, RB.add x c = (x, es) /\ trades_of es = [].
Proof.
  intros Hw Hb Hq Hp Ht. pose proof (add_outcome x c Hw Hb Hq) as Ho. destruct (RB.add x c) as [x' es] eqn:E. cbn [fst snd] in Ho. exists es.
  inversion Ho as [why|? Hid Hq0 Hc Hf|x1 left_ stop es1 x2 es2 Hid Hq0 Hc Hfk Hpo Hlim Hm Hs]; subst; [done|congruence|].
  destruct (match_no_cross _ _ _ _ _ _ (Hpo Hp) Hm) as (-> & -> & -> & ->). destruct (settle_rests _ _ _ _ _ _ Hs) as [Hno [->|(Hi & _)]]; [|unfold immediate in Hi; by rewrite Ht, orb_true_r in Hi].
  split; [done|]. change (accepted_of x c :: [] ++ es2) with ([accepted_of x c] ++ es2). by rewrite trades_cat, (no_trades_of es2).
Qed.
Lemma trades_accepted x c es : trades_of (accepted_of x c :: es) = trades_of es.
Proof. done. Qed.

(** The command has the effect of the one it stands for. *)
Lemma sent_follows x c x' e es : RB.wf x -> RB.min_price_ x <= RB.max_price_ x -> 0 <= c_qty c -> RB.stp_ x = StpNone -> plain_order c ->
  RB.add x c = (x', e :: es) -> e_type e <> Rejected ->
  exists es', RB.add x (sent c (RB.contains x' (c_order_id c)) (negb (bool_decide (trades_of (e :: es) = [])))) = (x', es') /\ trades_of es' = trades_of (e :: es).
Proof.
  intros Hw Hb Hq Hn [Hp Hmk] Ha Hr. pose proof (add_outcome x c Hw Hb Hq) as Ho. rewrite Ha in Ho. cbn [fst snd] in Ho.
  remember (RB.contains x' (c_order_id c)) as o eqn:Eo. remember (negb (bool_decide (trades_of (e :: es) = []))) as f eqn:Ef.
  destruct (sent_fields c o f) as (E1 & E2 & E3 & E4 & E5 & E6 & E7 & E8). pose proof (sent_limit x c o f) as E9.
  inversion Ho as [why|Ht Hid Hq0 Hc Hf|x1 left_ stop es1 x2 es2 Hid Hq0 Hc Hfk Hpo Hlim Hm Hs]; subst e; [done| |].
  - assert (c_ord_type c = Limit) as Hl by (destruct (c_ord_type c); [done|by destruct (Hmk eq_refl)]). subst es x'. rewrite Hc in Eo.
    assert (trades_of [accepted_of x c; killed_event x c (c_qty c) FokUnfilled] = []) as Htr by done. rewrite Htr, bool_decide_eq_true_2 in Ef by done. rewrite Htr. cbn [negb] in Ef. subst o f.
    apply (post_only_attempt x (sent c false false) Hw Hb); [by rewrite E4|..]; unfold sent; by rewrite Hl.
  - assert (stp_of x c = StpNone /\ stp_of x (sent c o f) = StpNone) as [Hst Hst1] by (unfold stp_of; by rewrite Hn).
    destruct (sweep_plain _ _ _ _ _ _ Hw Hq Hst Hm) as (-> & Heats & _). destruct (settle_rests _ _ _ _ _ _ Hs) as [Hno Hend].
    pose proof (match_same x c _ E1 E2 E3 E4 E9 ltac:(by rewrite Hst, Hst1)) as Hm1. rewrite Hm in Hm1. subst x2 es.
    rewrite trades_accepted in *. rewrite trades_cat, (no_trades_of es2 Hno), app_nil_r in *.
    pose proof (match_contains _ _ _ _ _ _ Hw Hq Hm Hc) as Hc1.
    assert (post_only (sent c o f) = false -> RB.add x (sent c o f) = if left_ =? 0 then (x1, accepted_of x (sent c o f) :: es1) else
      if immediate (sent c o f) then (x1, accepted_of x (sent c o f) :: es1 ++ [killed_event x1 (sent c o f) left_ IocExpired]) else
      let '(x2, es2) := RB.rest x1 (c_order_id c) (c_owner c) (c_side c) (limit_of x c) left_ in (x2, accepted_of x (sent c o f) :: es1 ++ es2)) as Hshape.
    { intros Hpo1. rewrite <- E1, <- E2, <- E3, <- E9. apply add_shape; rewrite ?E1, ?E4, ?E9; [done..| |exact E6|done]. by rewrite Hpo1. }
    assert (immediate (sent c o f) = true -> x' = x1 -> post_only (sent c o f) = false -> exists es', RB.add x (sent c o f) = (x', es') /\ trades_of es' = trades_of es1) as Himm.
    { intros Hi -> Hpo1. rewrite (Hshape Hpo1), Hi. case_match; eexists; (split; [done|]); rewrite trades_accepted; [done|]. by rewrite trades_cat, app_nil_r. }
    destruct Hend as [->|(Hi & Hl & Hrest & Hcx)].
    + rewrite Hc1 in Eo. subst o. destruct (c_ord_type c) eqn:Et; [|apply Himm; [|done|]; unfold sent; by rewrite Et].
      destruct f eqn:Ef'; [apply Himm; [|done|]; unfold sent; by rewrite Et|]. case_bool_decide as Hnt; [|done].
      assert (RB.crosses x (c_side c) (limit_of x c) = false) as Hx.
      { destruct (RB.crosses _ _ _) eqn:Hx; [|done]. destruct (crosses_trades _ _ _ _ _ _ Hw Hq0 Hst Hm Hx) as (e1 & es1' & -> & He1).
        unfold trades_of in Hnt. cbn [omap list_omap] in Hnt. by rewrite decide_True in Hnt. }
      destruct (match_no_cross _ _ _ _ _ _ Hx Hm) as (-> & _ & _ & ->). apply (post_only_attempt x (sent c false false) Hw Hb); [by rewrite E4|..]; unfold sent; by rewrite Et.
    + rewrite Hcx in Eo. subst o. assert (c_ord_type c = Limit) as Et by (unfold immediate in Hi; by destruct (c_ord_type c)).
      rewrite Hshape by (unfold sent; by rewrite Et). rewrite (proj2 (Z.eqb_neq left_ 0)) by lia.
      assert (immediate (sent c true f) = false) as -> by (unfold sent, immediate; by rewrite Et). rewrite Hrest.
      eexists. split; [done|]. by rewrite trades_accepted, trades_cat, (no_trades_of es2 Hno), app_nil_r.
Qed.

(** An accepted arrival: a sweep, and then perhaps a rest. *)
Lemma arrival_shape x c x' ev es : RB.wf x -> RB.min_price_ x <= RB.max_price_ x -> 0 <= c_qty c -> RB.stp_ x = StpNone -> plain_order c ->
  RB.add x c = (x', ev :: es) -> e_type ev <> Rejected ->
  exists x1 es1 es2, es = es1 ++ es2 /\ no_trades es2 /\ e_type ev = Accepted /\ RB.wf x1 /\ RB.contains x1 (c_order_id c) = false /\
    eats (RB.symbol_ x) (c_order_id c) (c_side c) (RB.for_each_order x (opposite (c_side c))) es1 (RB.for_each_order x1 (opposite (c_side c))) /\
    RB.book x1 (c_side c) = RB.book x (c_side c) /\ 0 <= c_qty c - traded es1 <= c_qty c /\
    (x' = x1 \/ RB.rest x1 (c_order_id c) (c_owner c) (c_side c) (c_price c) (c_qty c - traded es1) = (x', es2) /\ RB.contains x' (c_order_id c) = true).
Proof.
  intros Hw Hb Hq Hn [Hp Hmk] Ha Hr. pose proof (add_outcome x c Hw Hb Hq) as Ho. rewrite Ha in Ho. cbn [fst snd] in Ho.
  inversion Ho as [why|Ht Hid Hq0 Hc Hf|x1 left_ stop es1 x2 es2 Hid Hq0 Hc Hfk Hpo Hlim Hm Hs]; subst; [done| |].
  - exists x', [], [killed_event x' c (c_qty c) FokUnfilled]. split_and!; try done; [by repeat constructor|constructor|cbn; lia|cbn; lia|by left].
  - assert (stp_of x c = StpNone) as Hst by (unfold stp_of; by rewrite Hn).
    destruct (sweep_plain _ _ _ _ _ _ Hw Hq Hst Hm) as (-> & Heats & Hbk). destruct (settle_rests _ _ _ _ _ _ Hs) as [Hno Hend].
    destruct (match_order_events _ _ _ _ _ _ Hw Hq Hm) as (_ & Hle & Hsum & _). specialize (Hsum ltac:(by rewrite Hst)).
    unfold match_order in Hm. destruct (RB.wf_match _ _ _ _ _ _ _ _ _ _ _ Hw Hq Hm) as (Hw1 & _ & Hl & _). exists x1, es1, es2.
    replace (c_qty c - traded es1) with left_ by lia. split_and!; try done; try lia; [by apply (match_contains x c x1 left_ false es1)|].
    destruct Hend as [->|(Hi & Hl0 & Hrest & Hcx)]; [by left|right]. assert (limit_of x c = c_price c) as Hlc.
    { unfold limit_of. unfold immediate in Hi. by destruct (c_ord_type c). }
    by rewrite <- Hlc.
Qed.
(** One that trades, and is not filled, and does not rest, has taken all it could. *)
Lemma arrival_stops x c x' ev es : RB.wf x -> RB.min_price_ x <= RB.max_price_ x -> 0 <= c_qty c -> RB.stp_ x = StpNone -> plain_order c ->
  RB.add x c = (x', ev :: es) -> e_type ev <> Rejected -> RB.contains x' (c_order_id c) = false -> 0 < traded es < c_qty c ->
  forall p, p ∈ RB.prices (RB.book x' (opposite (c_side c))) -> RB.in_range (c_side c) (limit_of x c) p = false.
Proof.
  intros Hw Hb Hq Hn [Hp Hmk] Ha Hr Hcx Ht. pose proof (add_outcome x c Hw Hb Hq) as Ho. rewrite Ha in Ho. cbn [fst snd] in Ho.
  inversion Ho as [why|? Hid Hq0 Hc Hf|x1 left_ stop es1 x2 es2 Hid Hq0 Hc Hfk Hpo Hlim Hm Hs]; subst; [done|change (0 < 0 < c_qty c) in Ht; lia|].
  assert (stp_of x c = StpNone) as Hst by (unfold stp_of; by rewrite Hn).
  destruct (sweep_plain _ _ _ _ _ _ Hw Hq Hst Hm) as (-> & _ & _). destruct (settle_rests _ _ _ _ _ _ Hs) as [Hno [->|(_ & _ & _ & Hc2)]]; [|congruence].
  destruct (match_order_events _ _ _ _ _ _ Hw Hq Hm) as (_ & _ & Hsum & _). specialize (Hsum ltac:(by rewrite Hst)).
  rewrite traded_app in Ht. destruct (traded_none _ Hno) as [E _]. rewrite E in Ht.
  unfold match_order in Hm. destruct (RB.wf_match _ _ _ _ _ _ _ _ _ _ _ Hw Hq Hm) as (_ & _ & _ & _ & _ & Hend & _). destruct Hend as [?|[?|Hend]]; [lia|done|exact Hend].
Qed.
Lemma shown_trades es1 es2 : no_trades es2 -> (es1 ++ es2) ≫= trade_messages = es1 ≫= trade_messages.
Proof.
  intros H. rewrite bind_app. assert (es2 ≫= trade_messages = []) as ->; [|by rewrite app_nil_r]. induction H as [|e es He _ IH]; [done|]. cbn [mbind list_bind].
  rewrite IH. unfold trade_messages. by destruct (e_type e).
Qed.
Lemma traded_more es1 es2 : no_trades es2 -> traded (es1 ++ es2) = traded es1.
Proof. intros H. rewrite traded_app. destruct (traded_none es2 H) as [-> _]. lia. Qed.
End Exchange.
