(* ===== verification/L3Track.v ===== *)
(** * The truth book follows the exchange's own book

    [tracks b F]: the truth book [b] has, on each side and at each price, the orders [F] lists, in their order. Each of its
    operations changes the lists as one expects, and the lists of a reference book change the same way under the command
    that the operations report. *)
From Stdlib Require Import Sorted.
From stdpp Require Import sorting.
From S2P Require Import Prelude Common OrdMap ReferenceBook BookRefine BookRules BookLaws BookApi.
From S2P Require Import L3 L3Laws L3Infer L3Replay L3Exchange.
Local Open Scope Z_scope.

Module Tracking.
Import TruthBook TruthBookLaws Exchange.

Abbreviation Lists := (Side -> Z -> list (Z * Z)).
Definition pair_of (o : Order) : Z * Z := (id o, qty o).
Definition p_set (i q : Z) (l : list (Z * Z)) : list (Z * Z) := (fun y : Z * Z => if decide (y.1 = i) then (i, q) else y) <$> l.
Definition p_del (i : Z) (l : list (Z * Z)) : list (Z * Z) := filter (fun y : Z * Z => y.1 <> i) l.
Record tracks (b : t) (F : Lists) : Prop := {
  T_rel : exists zs, rel b zs /\ forall s p, pair_of <$> s_queue zs.*2 s p = F s p;
}.

(** ** The lists of resting orders *)

Lemma queue_set l i q s p : s_queue (s_set l i q) s p = (fun o => if decide (id o = i) then with_qty o q else o) <$> s_queue l s p.
Proof.
  unfold s_queue, s_set. induction l as [|r l IH]; [done|]. cbn [map]. rewrite !filter_cons. destruct (decide (named i r)) as [Hi|Hi].
  - destruct (decide (at_level s p r)) as [Ha|Ha]; [rewrite decide_True by done|by rewrite decide_False]. cbn [map fmap list_fmap].
    unfold named in Hi. rewrite decide_True by done. by f_equal.
  - destruct (decide (at_level s p r)) as [Ha|Ha]; [|exact IH]. cbn [map fmap list_fmap]. unfold named in Hi. rewrite (decide_False (P := id (r_order r) = i)) by done. by f_equal.
Qed.
Lemma queue_remove l i s p : s_queue (s_remove l i) s p = filter (fun o => id o <> i) (s_queue l s p).
Proof.
  unfold s_queue, s_remove. induction l as [|r l IH]; [done|]. rewrite !filter_cons. unfold named. destruct (decide (id (r_order r) <> i)) as [Hi|Hi].
  - rewrite filter_cons. case_decide; [|exact IH]. cbn [map]. rewrite filter_cons, decide_True by done. by f_equal.
  - case_decide; [|exact IH]. cbn [map]. by rewrite filter_cons, decide_False.
Qed.
Lemma queue_snoc l r s p : s_queue (l ++ [r]) s p = s_queue l s p ++ (if decide (at_level s p r) then [r_order r] else []).
Proof. unfold s_queue. rewrite filter_app, map_app, filter_cons, filter_nil. by case_decide. Qed.

Lemma pairs_set l i q : pair_of <$> ((fun o => if decide (id o = i) then with_qty o q else o) <$> l) = p_set i q (pair_of <$> l).
Proof. unfold p_set. rewrite <- !list_fmap_compose. apply list_fmap_ext. intros ? o _. cbn. unfold pair_of. case_decide as Hi; [by rewrite <- Hi|done]. Qed.
Lemma pairs_del l i : pair_of <$> filter (fun o => id o <> i) l = p_del i (pair_of <$> l).
Proof. unfold p_del. induction l as [|o l IH]; [done|]. rewrite fmap_cons, !filter_cons. cbn [pair_of fst]. case_decide; [|done]. by rewrite fmap_cons, IH. Qed.

(** ** What a caller sees *)

Lemma find_here (l : list Resting) i r : NoDup (id <$> (r_order <$> l)) -> r ∈ l -> named i r -> s_find l i = Some r.
Proof.
  intros Hd Hr Hi. apply list_elem_of_split in Hr as (l1 & l2 & ->). unfold s_find. rewrite filter_app, filter_cons, decide_True by done.
  assert (filter (named i) l1 = []) as ->; [|done]. apply elem_of_nil_inv. intros r' [Hn Hin]%list_elem_of_filter. rewrite !fmap_app in Hd. apply NoDup_app in Hd as (_ & Hd & _).
  unfold named in *. apply (Hd (id (r_order r'))); [|rewrite !fmap_cons, Hn, <- Hi; left]. apply list_elem_of_fmap_2. by apply list_elem_of_fmap_2.
Qed.
Lemma rel_ids b zs : rel b zs -> NoDup (id <$> (r_order <$> zs.*2)).
Proof. intros H. rewrite <- !list_fmap_compose. apply (R_ids _ _ H). Qed.

Lemma tracks_seen b F i q s p : tracks b F -> (i, q) ∈ F s p -> exists o, find b i = Some (Some (o, s, p)) /\ contains b i = true /\ id o = i /\ qty o = q.
Proof.
  intros [(zs & Hr & Hl)] Hin. rewrite <- Hl in Hin. apply list_elem_of_fmap in Hin as (o & Ho & Hin). injection Ho as Ho1 Ho2. subst.
  unfold s_queue in Hin. apply list_elem_of_In, in_map_iff in Hin as (r & <- & Hin%list_elem_of_In). apply list_elem_of_filter in Hin as [[<- <-] Hin].
  pose proof (find_here zs.*2 (id (r_order r)) r (rel_ids _ _ Hr) Hin eq_refl) as Hf. pose proof (rel_describes _ _ Hr) as Hd. exists (r_order r).
  rewrite (d_find _ _ Hd), (d_contains _ _ Hd), Hf. by split_and!.
Qed.
Lemma tracks_unseen b F i : tracks b F -> (forall s p q, (i, q) ∉ F s p) -> find b i = Some None /\ contains b i = false /\ (forall zs, rel b zs -> s_find zs.*2 i = None).
Proof.
  intros [(zs & Hr & Hl)] Hn. assert (s_find zs.*2 i = None) as Hf.
  { destruct (s_find zs.*2 i) as [r|] eqn:E; [|done]. unfold s_find in E. apply head_Some_elem_of in E. apply list_elem_of_filter in E as [Hi Hin].
    destruct (Hn (r_side r) (r_px r) (qty (r_order r))). rewrite <- Hl. unfold named in Hi. apply list_elem_of_fmap. exists (r_order r). unfold pair_of. rewrite Hi. split; [done|].
    unfold s_queue. apply list_elem_of_In, in_map_iff. exists r. split; [done|]. apply list_elem_of_In, list_elem_of_filter. split; [by split|done]. }
  pose proof (rel_describes _ _ Hr) as Hd. split_and!.
  - by rewrite (d_find _ _ Hd), Hf.
  - rewrite (d_contains _ _ Hd), Hf. by apply bool_decide_eq_false_2, is_Some_None.
  - intros zs' Hr'. pose proof (d_find _ _ (rel_describes _ _ Hr') i) as E. rewrite (d_find _ _ Hd), Hf in E. by destruct (s_find zs'.*2 i).
Qed.
Lemma tracks_ext b F G : tracks b F -> (forall s p, G s p = F s p) -> tracks b G.
Proof. intros [(zs & Hr & Hl)] HG. split. exists zs. split; [done|]. intros. by rewrite HG. Qed.

(** ** Messages *)

Lemma tracks_fill b F i q f s p : tracks b F -> (i, q) ∈ F s p -> 0 <= f <= q -> in_u64 f ->
  exists b', step b (Fill i f) = Some (b', true) /\ tracks b' (fun s p => p_set i (q - f) (F s p)).
Proof.
  intros Ht Hin Hf H64. destruct (tracks_seen _ _ _ _ _ _ Ht Hin) as (o & Hfind & _ & Hi & Hq). destruct Ht as [(zs & Hr & Hl)].
  rewrite (d_find _ _ (rel_describes _ _ Hr)) in Hfind. destruct (s_find zs.*2 i) as [r|] eqn:E; [|done]. injection Hfind as Ho _ _.
  destruct (sim_step b zs (Fill i f) Hr (conj I H64)) as (b' & zs' & Hs & Hr' & Hz). cbn [s_step] in Hs, Hz. rewrite E, Ho, Hq, (proj2 (Z.ltb_ge _ _)) in Hs, Hz by lia.
  exists b'. split; [exact Hs|]. split. exists zs'. split; [done|]. intros s' p'. cbn [fst] in Hz. by rewrite Hz, queue_set, pairs_set, Hl.
Qed.
Lemma tracks_remove b F i : tracks b F -> exists b', step b (Remove i) = Some (b', true) /\ tracks b' (fun s p => p_del i (F s p)).
Proof.
  intros [(zs & Hr & Hl)]. destruct (sim_step b zs (Remove i) Hr (conj I I)) as (b' & zs' & Hs & Hr' & Hz). exists b'. split; [exact Hs|].
  split. exists zs'. split; [done|]. intros s' p'. cbn [s_step fst] in Hz. by rewrite Hz, queue_remove, pairs_del, Hl.
Qed.
Definition p_add (s : Side) (p i q : Z) (F : Lists) : Lists := fun s' p' => F s' p' ++ (if decide (s = s' /\ p = p') then [(i, q)] else []).
Lemma pairs_new i s p q ts s' p' : pair_of <$> (if decide (at_level s' p' (mkResting (mkOrder i q ts) s p)) then [mkOrder i q ts] else []) =
  if decide (s = s' /\ p = p') then [(i, q)] else [].
Proof. destruct (decide (at_level s' p' _)) as [[H1 H2]|Hn]; [by rewrite decide_True|by rewrite decide_False]. Qed.
Lemma tracks_add b F i s p q ts : tracks b F -> (forall s p q, (i, q) ∉ F s p) -> in_u64 q ->
  exists b', step b (Add i s p q ts) = Some (b', true) /\ tracks b' (p_add s p i q F).
Proof.
  intros Ht Hn Hq. destruct (tracks_unseen _ _ _ Ht Hn) as (_ & _ & Hf). destruct Ht as [(zs & Hr & Hl)].
  destruct (sim_step b zs (Add i s p q ts) Hr (conj (Hf _ Hr) Hq)) as (b' & zs' & Hs & Hr' & Hz). exists b'. split; [exact Hs|]. split. exists zs'. split; [done|].
  intros s' p'. cbn [s_step fst] in Hz. by rewrite Hz, queue_snoc, fmap_app, Hl, pairs_new.
Qed.
Lemma tracks_change b F i q s p p' q' ts : tracks b F -> (i, q) ∈ F s p -> in_u64 q' ->
  exists b', step b (Change i p' q' ts) = Some (b', true) /\
    tracks b' (if (p' =? p) && (q' <=? q) then (fun s p => p_set i q' (F s p)) else p_add s p' i q' (fun s p => p_del i (F s p))).
Proof.
  intros Ht Hin H64. destruct (tracks_seen _ _ _ _ _ _ Ht Hin) as (o & Hfind & _ & Hi & Hq). destruct Ht as [(zs & Hr & Hl)].
  rewrite (d_find _ _ (rel_describes _ _ Hr)) in Hfind. destruct (s_find zs.*2 i) as [r|] eqn:E; [|done]. injection Hfind as Ho Hsd Hpx.
  destruct (sim_step b zs (Change i p' q' ts) Hr (conj I H64)) as (b' & zs' & Hs & Hr' & Hz). cbn [s_step] in Hs, Hz. rewrite E, Ho, Hq, Hpx in Hs, Hz.
  exists b'. destruct ((p' =? p) && (q' <=? q)).
  - split; [exact Hs|]. split. exists zs'. split; [done|]. intros s1 p1. cbn [fst] in Hz. by rewrite Hz, queue_set, pairs_set, Hl.
  - split; [exact Hs|]. split. exists zs'. split; [done|]. intros s1 p1. cbn [fst] in Hz. rewrite Hz, queue_snoc, fmap_app, queue_remove, pairs_del, Hl, Hsd. by rewrite pairs_new.
Qed.
End Tracking.

(** ** The lists of a reference book *)

Module BookLists.
Import TruthBookLaws Tracking Exchange Anonymous.
Import ReferenceBook (Order, mkOrder, o_id, o_qty, o_owner, map_find, mkLoc, l_side, l_price).

Definition lists (x : RB.t) : Lists := fun s p => pairs (default [] (map_find (RB.book x s) p)).

Lemma lists_at x s p : RB.wf x -> lists x s p = at_px p (RB.for_each_order x s).
Proof. intros Hw. unfold lists. rewrite listing_orders. symmetry. apply (at_listing s), Hw. Qed.
Lemma lists_anon x y s p : anon y = anon x -> lists y s p = lists x s p.
Proof.
  intros Ha. assert (forall z, lists (anon z) s p = lists z s p) as H; [|by rewrite <- (H y), Ha, H].
  intros z. unfold lists. rewrite book_anon, find_anon. destruct (map_find _ _) as [q|]; [|done]. cbn. unfold pairs. by rewrite <- list_fmap_compose.
Qed.
Lemma lists_index x i q s p : RB.wf x -> (i, q) ∈ lists x s p -> RB.index_ x !! i = Some (mkLoc s p).
Proof.
  intros Hw Hin. unfold lists, pairs in Hin. apply list_elem_of_fmap in Hin as (o & [= -> ->] & Ho). apply (RB.wf_index x Hw). cbn.
  destruct (map_find (RB.book x s) p) as [l|] eqn:E; [|by apply elem_of_nil in Ho]. apply RB.elem_of_keys. exists l, o. split; [|done].
  by apply (RB.map_find_elem s); [apply Hw|].
Qed.
Lemma lists_fresh x i : RB.wf x -> RB.index_ x !! i = None -> forall s p q, (i, q) ∉ lists x s p.
Proof. intros Hw Hn s p q Hin. apply (lists_index x) in Hin; [congruence|done]. Qed.
Lemma p_del_fresh i (l : list (Z * Z)) : (forall q, (i, q) ∉ l) -> p_del i l = l.
Proof.
  unfold p_del. intros Hn. induction l as [|[j q] l IH]; [done|]. rewrite filter_cons, decide_True; [f_equal; apply IH; intros q' Hq; apply (Hn q'); by right|].
  cbn. intros ->. apply (Hn q). by left.
Qed.
Lemma p_set_fresh i v (l : list (Z * Z)) : (forall q, (i, q) ∉ l) -> p_set i v l = l.
Proof.
  unfold p_set. intros Hn. induction l as [|[j q] l IH]; [done|]. cbn [fmap list_fmap fst]. rewrite decide_False; [f_equal; apply IH; intros q' Hq; apply (Hn q'); by right|].
  intros ->. apply (Hn q). by left.
Qed.
Lemma p_del_set i v l : p_del i (p_set i v l) = p_del i l.
Proof.
  unfold p_del, p_set. induction l as [|[j q] l IH]; [done|]. cbn [fmap list_fmap fst]. destruct (decide (j = i)) as [->|Hj]; rewrite !filter_cons; cbn [fst].
  - rewrite !decide_False by tauto. exact IH.
  - rewrite !decide_True by done. by rewrite IH.
Qed.
Lemma p_del_app i l l' : p_del i (l ++ l') = p_del i l ++ p_del i l'.
Proof. apply filter_app. Qed.
Lemma pairs_app q q' : pairs (q ++ q') = pairs q ++ pairs q'.
Proof. apply fmap_app. Qed.

(** Whatever happens to the queue of a resting order happens to its list alone. *)
Lemma lists_put x i l q q' s p : RB.wf x -> RB.index_ x !! i = Some l -> map_find (RB.book x (l_side l)) (l_price l) = Some q ->
  lists (RB.set_book x (l_side l) (RB.map_put (RB.book x (l_side l)) (l_price l) q') (RB.index_ x)) s p =
    if decide (s = l_side l /\ p = l_price l) then pairs q' else lists x s p.
Proof.
  intros Hw Hl Hq. unfold lists. destruct (decide (s = l_side l)) as [->|Hs].
  - rewrite RB.book_set_eq, (Quiet.map_find_put (l_side l)) by (apply Hw || eauto). destruct (Z.eqb_spec p (l_price l)) as [->|Hp]; [|by rewrite decide_False by naive_solver].
    rewrite decide_True by done. by destruct q'.
  - rewrite RB.book_set_ne by done. by rewrite decide_False by naive_solver.
Qed.
Lemma lists_same_index x s m i i' s' p : lists (RB.set_book x s m i) s' p = lists (RB.set_book x s m i') s' p.
Proof. unfold lists. by destruct s, s'. Qed.
Lemma elsewhere x i l s p q : RB.wf x -> RB.index_ x !! i = Some l -> ~ (s = l_side l /\ p = l_price l) -> (i, q) ∉ lists x s p.
Proof. intros Hw Hl Hn Hin. apply (lists_index x) in Hin; [|done]. apply Hn. rewrite Hl in Hin. by injection Hin as ->. Qed.

Lemma lists_remove x i l x' s p : RB.wf x -> RB.index_ x !! i = Some l -> RB.remove x l i = Some x' -> lists x' s p = p_del i (lists x s p).
Proof.
  intros Hw Hl Hx. destruct (RB.deref_spec x i l Hw Hl) as (m1 & q1 & o & q2 & m2 & Hm & Hid & _ & Hf & Her & _).
  unfold RB.remove in Hx. rewrite Hf in Hx. cbn [mbind option_bind] in Hx. injection Hx as <-. rewrite (lists_same_index _ _ _ _ (RB.index_ x)), (lists_put x i l _ _ _ _ Hw Hl Hf), Her.
  case_decide as Hd; [|symmetry; apply p_del_fresh; intros q; by eapply elsewhere]. destruct Hd as [-> ->]. unfold lists. rewrite Hf. cbn [default from_option].
  unfold Datatypes.id. rewrite !pairs_app, p_del_app. unfold p_del at 2. cbn [pairs fmap list_fmap]. rewrite filter_cons, decide_False by (cbn; tauto).
  assert (NoDup (o_id <$> q1 ++ o :: q2)) as Hnd.
  { pose proof (RB.wf_ids x Hw (l_side l)) as Hd. rewrite Hm, RB.ids_app, RB.ids_cons in Hd. by apply NoDup_app in Hd as (_ & _ & (? & _)%NoDup_app). }
  rewrite fmap_app, fmap_cons in Hnd. apply NoDup_app in Hnd as (_ & H1 & [H2 _]%NoDup_cons). unfold pairs. f_equal; symmetry; apply p_del_fresh; intros v (o' & [= E _] & Ho)%list_elem_of_fmap.
  - apply (H1 (o_id o')); [by apply list_elem_of_fmap_2|]. rewrite <- E, Hid. left.
  - apply H2. rewrite Hid, E. by apply list_elem_of_fmap_2.
Qed.
Lemma lists_amend x i l q v s p : RB.wf x -> RB.index_ x !! i = Some l -> map_find (RB.book x (l_side l)) (l_price l) = Some q ->
  lists (RB.set_book x (l_side l) (RB.map_put (RB.book x (l_side l)) (l_price l) (RB.queue_update q i v)) (RB.index_ x)) s p = p_set i v (lists x s p).
Proof.
  intros Hw Hl Hf. rewrite (lists_put x i l _ _ _ _ Hw Hl Hf). case_decide as Hd; [|symmetry; apply p_set_fresh; intros w; by eapply elsewhere].
  destruct Hd as [-> ->]. unfold lists. rewrite Hf. cbn [default from_option]. unfold Datatypes.id, pairs, p_set, RB.queue_update. rewrite <- !list_fmap_compose.
  apply list_fmap_ext. intros ? o _. cbn. destruct (Z.eqb_spec (o_id o) i) as [<-|]; [by rewrite decide_True|by rewrite decide_False].
Qed.
Lemma lists_rest x i w s p q x' es s' p' : RB.wf x -> RB.rest x i w s p q = (x', es) -> RB.contains x' i = true -> RB.contains x i = false ->
  lists x' s' p' = p_add s p i q (lists x) s' p'.
Proof.
  intros Hw. unfold RB.rest. case_match; intros [= <- <-] H1 H2; [congruence|]. unfold lists, p_add. destruct (decide (s = s')) as [<-|Hs].
  - rewrite RB.book_set_eq, (Quiet.map_find_push s) by apply Hw. destruct (Z.eqb_spec p' p) as [->|Hp].
    + rewrite decide_True by done. cbn [default from_option]. unfold Datatypes.id. by rewrite pairs_app.
    + by rewrite decide_False, app_nil_r by naive_solver.
  - by rewrite RB.book_set_ne, decide_False, app_nil_r by naive_solver.
Qed.

(** A resting order, in its list. *)
Lemma lists_resting x i l : RB.wf x -> RB.index_ x !! i = Some l ->
  exists o, RB.deref x l i = Some o /\ (i, o_qty o) ∈ lists x (l_side l) (l_price l).
Proof.
  intros Hw Hl. destruct (RB.deref_spec x i l Hw Hl) as (m1 & q1 & o & q2 & m2 & _ & Hid & Hd & Hf & _). exists o. split; [done|].
  unfold lists. rewrite Hf. cbn [default from_option]. unfold Datatypes.id, pairs. apply list_elem_of_fmap. exists o. rewrite Hid. split; [done|]. apply elem_of_app. right. by left.
Qed.
(** A modify that does not trade: in place, or to the back of the queue of its price. *)
Lemma modify_quiet x c x' md es : RB.wf x -> RB.stp_ x = StpNone -> 0 <= c_qty c -> RB.modify x c = Some (x', md :: es) -> e_type md = Modified -> no_trades es ->
  exists l o, RB.index_ x !! c_order_id c = Some l /\ 0 < c_qty c /\ RB.out_of_band x (c_price c) = false /\ RB.deref x l (c_order_id c) = Some o /\
    e_side md = l_side l /\ RB.contains x' (c_order_id c) = true /\ es = [] /\
    forall s p, lists x' s p = if (c_price c =? l_price l) && (c_qty c <=? o_qty o) then p_set (c_order_id c) (c_qty c) (lists x s p)
      else p_add (l_side l) (c_price c) (c_order_id c) (c_qty c) (fun s p => p_del (c_order_id c) (lists x s p)) s p.
Proof.
  intros Hw Hs Hq Hm Hmd Hno. unfold RB.modify in Hm. case_match; [by injection Hm as _ <- _|]. destruct (RB.index_ x !! c_order_id c) as [l|] eqn:Hl; [|by injection Hm as _ <- _].
  destruct (RB.out_of_band x (c_price c)) eqn:Eb; [by injection Hm as _ <- _|]. to_prop. destruct (RB.deref_spec x _ l Hw Hl) as (m1 & q1 & o & q2 & m2 & _ & Hid & Hd & Hf & _).
  rewrite Hd in Hm. cbn [mbind option_bind] in Hm. exists l, o. destruct ((c_price c =? l_price l) && (c_qty c <=? o_qty o)) eqn:Ein.
  - rewrite Hf in Hm. cbn [mbind option_bind] in Hm. injection Hm as <- <- <-. split_and!; try done; [lia| |].
    + unfold RB.contains. rewrite RB.index_set_book, Hl. by apply bool_decide_eq_true_2.
    + intros s p. by apply lists_amend.
  - destruct (RB.wf_remove x _ l Hw Hl) as (x1 & Hr & Hw1 & (C1 & C2 & C3 & C4 & C5) & Hi). rewrite Hr in Hm. cbn [mbind option_bind] in Hm. rewrite C5, Hs in Hm.
    assert (RB.crosses x1 (l_side l) (c_price c) = false) as Hx.
    { destruct (RB.crosses x1 (l_side l) (c_price c)) eqn:Hx; [|done]. exfalso. unfold RB.crosses in Hx. unfold RB.match_ in Hm.
      pose proof (RB.wf_pos x1 Hw1 (opposite (l_side l))) as Hpos. destruct (RB.book x1 (opposite (l_side l))) as [|[p [|o1 q]] m] eqn:Em; [done|by apply Forall_cons in Hpos as [[? _] _]|].
      destruct (first_trade (RB.symbol_ x1) (c_order_id c) (o_owner o) (l_side l) (c_price c) p o1 q m (RB.index_ x1) (c_qty c)) as (e1 & es1 & He & Ht); [lia|done|].
      destruct (RB.match_side _ _ _ _ _ _ _ _ _) as [m3 y]. cbn [snd] in He. rewrite He in Hm. destruct (RB.m_qty y =? 0).
      - injection Hm as _ _ <-. by apply Forall_cons in Hno as [? _].
      - destruct (RB.m_stop y); [injection Hm as _ _ <-; by apply Forall_cons in Hno as [? _]|]. destruct (RB.rest _ _ _ _ _ _). injection Hm as _ _ <-. by apply Forall_cons in Hno as [? _]. }
    rewrite (Quiet.match_quiet _ _ _ _ _ _ _ Hx), (proj2 (Z.eqb_neq (c_qty c) 0)) in Hm by lia. destruct (RB.rest x1 _ _ _ _ _) as [x2 es2] eqn:Er. injection Hm as <- <- <-.
    assert (RB.contains x1 (c_order_id c) = false) as Hc1 by (unfold RB.contains; rewrite Hi, lookup_delete_eq; by apply bool_decide_eq_false_2, is_Some_None).
    assert (es2 = [] /\ RB.contains x2 (c_order_id c) = true) as [-> Hc2].
    { pose proof (Quiet.removed_room x x1 _ l Hw Hl Hi C4) as Hroom. unfold RB.rest in Er. rewrite (proj2 (Z.leb_gt _ _) Hroom) in Er. injection Er as <- <-. split; [done|].
      unfold RB.contains. rewrite RB.index_set_book, lookup_insert_eq. by apply bool_decide_eq_true_2. }
    split_and!; try done; [lia|]. intros s p. rewrite (lists_rest _ _ _ _ _ _ _ _ _ _ Hw1 Er Hc2 Hc1). unfold p_add. by rewrite (lists_remove _ _ _ _ _ _ Hw Hl Hr).
Qed.

(** ** A sweep *)

(** One side is listed by [L], the other as before. *)
Definition swept (s : Side) (L : Listing) (F : Lists) : Lists := fun s' p => if decide (s' = s) then at_px p L else F s' p.

Lemma at_elem p i q L : (i, q) ∈ at_px p L <-> (p, i, q) ∈ L.
Proof.
  unfold at_px. rewrite list_elem_of_omap. split.
  - intros ([[p0 i0] q0] & Hin & E). cbn in E. case_decide; [|done]. by simplify_eq.
  - intros Hin. exists (p, i, q). split; [done|]. cbn. by rewrite decide_True.
Qed.
Lemma at_fresh p i L : i ∉ lids L -> forall q, (i, q) ∉ at_px p L.
Proof. intros Hn q Hin%at_elem. apply Hn. apply list_elem_of_fmap. by exists (p, i, q). Qed.
Lemma swept_here s p i q L F : (i, q) ∈ swept s ((p, i, q) :: L) F s p.
Proof. unfold swept. rewrite decide_True by done. apply at_elem. by left. Qed.
Lemma swept_whole s p i q v L F s' p' : i ∉ lids L -> (forall s' p' q', s' <> s -> (i, q') ∉ F s' p') ->
  p_del i (p_set i v (swept s ((p, i, q) :: L) F s' p')) = swept s L F s' p'.
Proof.
  intros Hi HF. rewrite p_del_set. unfold swept. case_decide; [|by apply p_del_fresh; intros; apply HF]. unfold at_px. cbn [omap list_omap fst snd].
  case_decide; [unfold p_del; rewrite filter_cons, decide_False by (cbn; tauto)|]; by apply p_del_fresh, at_fresh.
Qed.
Lemma swept_part s p i q v L F s' p' : i ∉ lids L -> (forall s' p' q', s' <> s -> (i, q') ∉ F s' p') ->
  p_set i v (swept s ((p, i, q) :: L) F s' p') = swept s ((p, i, v) :: L) F s' p'.
Proof.
  intros Hi HF. unfold swept. case_decide; [|by apply p_set_fresh; intros; apply HF]. unfold at_px. cbn [omap list_omap fst snd].
  case_decide; [unfold p_set; cbn [fmap list_fmap fst]; rewrite decide_True by done; f_equal|]; by apply p_set_fresh, at_fresh.
Qed.
Lemma swept_lists x s s' p : RB.wf x -> swept s (RB.for_each_order x s) (lists x) s' p = lists x s' p.
Proof. intros Hw. unfold swept. case_decide as Hs; [|done]. subst. by rewrite lists_at. Qed.

Lemma swept_after x x1 s s' p : RB.wf x1 -> RB.book x1 (opposite s) = RB.book x (opposite s) ->
  lists x1 s' p = swept s (RB.for_each_order x1 s) (lists x) s' p.
Proof.
  intros Hw Hb. unfold swept. case_decide as Hs; [subst; by apply lists_at|]. assert (s' = opposite s) as -> by (by destruct s, s'). unfold lists. by rewrite Hb.
Qed.
Lemma eats_orders sym taker side L es L' : eats sym taker side L es L' -> forall p i q, (p, i, q) ∈ L' -> exists q0, q <= q0 /\ (p, i, q0) ∈ L.
Proof.
  induction 1 as [L|p i q L es L' Hq _ IH|p i q f L Hf]; intros p' i' q' Hin.
  - exists q'. by split; [lia|].
  - destruct (IH _ _ _ Hin) as (q0 & ? & ?). exists q0. split; [done|]. by right.
  - apply elem_of_cons in Hin as [[= -> -> ->]|Hin]; [exists q; split; [lia|by left]|exists q'; split; [lia|by right]].
Qed.
Lemma lists_find x i q s p : RB.wf x -> (i, q) ∈ lists x s p -> exists v, RB.find_order x i = Some (Some v) /\ v_qty v = q /\ v_price v = p.
Proof.
  intros Hw Hin. unfold lists, pairs in Hin. apply list_elem_of_fmap in Hin as (o & [= -> ->] & Ho).
  destruct (map_find (RB.book x s) p) as [l|] eqn:E; [|by apply elem_of_nil in Ho]. apply (RB.map_find_elem s) in E; [|apply Hw].
  eexists. split; [by eapply BookLaws.find_order_book|done].
Qed.
Lemma listing_ids x s : RB.wf x -> NoDup (lids (RB.for_each_order x s)).
Proof. intros Hw. rewrite listing_orders, lids_listing. apply Hw. Qed.
Lemma listed_side x s i q s' p : RB.wf x -> i ∈ lids (RB.for_each_order x s) -> (i, q) ∈ lists x s' p -> s' = s.
Proof.
  intros Hw ([[p0 i0] q0] & -> & Hin)%list_elem_of_fmap H2. cbn in H2. apply at_elem in Hin. rewrite <- lists_at in Hin by done.
  apply (lists_index x) in Hin, H2; [|done..]. rewrite H2 in Hin. by injection Hin.
Qed.

(** ** The listings agree *)

Lemma sorted_unique_prices s l l' : StronglySorted (RB.lt_side s) l -> StronglySorted (RB.lt_side s) l' -> (forall p, p ∈ l <-> p ∈ l') -> l = l'.
Proof.
  intros H1 H2 He. assert (forall k, StronglySorted (RB.lt_side s) k -> NoDup k) as Hnd.
  { induction 1 as [|p k _ IH Hp]; constructor; [|done]. intros Hin. rewrite Forall_forall in Hp. by apply (RB.lt_side_irrefl s p), Hp. }
  assert (AntiSymm (=) (RB.lt_side s)) by (intros p p' H3 H4; destruct (RB.lt_side_irrefl s p); by eapply RB.lt_side_trans).
  apply (StronglySorted_unique (RB.lt_side s)); [done..|]. by apply NoDup_Permutation; auto.
Qed.
Lemma listing_prices s m : RB.sorted s m -> listing m = concat (map (fun p => lst p (default [] (map_find m p))) (RB.prices m)).
Proof.
  induction m as [|[p q] m IH]; intros Hs; [done|]. apply RB.sorted_cons in Hs as [Hs Hlt]. cbn [listing mbind list_bind fst snd RB.prices fmap list_fmap map concat map_find].
  rewrite Z.eqb_refl. cbn [default from_option]. unfold Datatypes.id at 1. f_equal. rewrite <- (IH Hs) || (change (m ≫= fun x => lst x.1 x.2) with (listing m); rewrite (IH Hs)).
  f_equal. apply map_ext_in. intros p' Hp'%list_elem_of_In. assert (p <> p') as Hne by (intros ->; by apply (RB.lt_side_irrefl s p'), Hlt).
  by rewrite (proj2 (Z.eqb_neq _ _)).
Qed.

Lemma tracks_prices b x s ps zs : RB.wf x -> rel b zs -> (forall s p, pair_of <$> TruthBook.s_queue zs.*2 s p = lists x s p) ->
  StronglySorted (better_px s) ps -> (forall p, p ∈ ps <-> TruthBook.s_queue zs.*2 s p <> []) -> ps = RB.prices (RB.book x s).
Proof.
  intros Hw Hr Hl Hs Hp. apply (sorted_unique_prices s); [by destruct s|apply Hw|]. intros p. rewrite Hp.
  assert (TruthBook.s_queue zs.*2 s p <> [] <-> lists x s p <> []) as -> by (rewrite <- Hl; by destruct (TruthBook.s_queue _ _ _)).
  unfold lists. split.
  - intros Hne. destruct (map_find (RB.book x s) p) as [q|] eqn:E; [|done]. apply (RB.map_find_elem s) in E; [|apply Hw]. apply list_elem_of_fmap. by exists (p, q).
  - intros ([p' q] & -> & Hin)%list_elem_of_fmap. pose proof (RB.wf_pos x Hw s) as Hpos. unfold RB.positive in Hpos. rewrite Forall_forall in Hpos.
    destruct (Hpos _ Hin) as [Hne _]. cbn [fst]. apply (RB.map_find_elem s) in Hin as ->; [|apply Hw]. cbn in *. by destruct q.
Qed.
Lemma tracks_best b x s : RB.wf x -> tracks b (lists x) -> TruthBook.best b s = head (RB.prices (RB.book x s)).
Proof.
  intros Hw [(zs & Hr & Hl)]. destruct (d_levels _ _ (rel_describes _ _ Hr) s) as (ps & Hs & Hp & Hb & _). rewrite Hb. f_equal. by eapply tracks_prices.
Qed.
Lemma tracks_for_each b x s : RB.wf x -> tracks b (lists x) ->
  exists os, TruthBook.for_each b s = Some os /\ (fun y : Z * TruthBook.Order => (y.1, TruthBook.id y.2, TruthBook.qty y.2)) <$> os = RB.for_each_order x s.
Proof.
  intros Hw [(zs & Hr & Hl)]. destruct (d_levels _ _ (rel_describes _ _ Hr) s) as (ps & Hs & Hp & _ & Hf & _).
  pose proof (tracks_prices _ _ _ _ _ Hw Hr Hl Hs Hp) as ->. eexists. split; [exact Hf|]. rewrite listing_orders, (listing_prices s) by apply Hw.
  generalize (RB.prices (RB.book x s)) as l. induction l as [|p l IH]; [done|]. cbn [map concat]. rewrite fmap_app, IH. f_equal.
  assert (lst p (default [] (map_find (RB.book x s) p)) = (fun y : Z * Z => (p, y.1, y.2)) <$> lists x s p) as -> by (unfold lists, lst, pairs; by rewrite <- list_fmap_compose).
  rewrite <- Hl, <- list_fmap_compose. induction (TruthBook.s_queue zs.*2 s p) as [|o os IHo]; [done|]. cbn. by f_equal.
Qed.
Lemma lists_facts x s p i q : RB.wf x -> (i, q) ∈ lists x s p -> p ∈ RB.prices (RB.book x s) /\ RB.min_price_ x <= p <= RB.max_price_ x /\ 0 < q.
Proof.
  intros Hw Hin. unfold lists, pairs in Hin. apply list_elem_of_fmap in Hin as (o & [= -> ->] & Ho). destruct (map_find (RB.book x s) p) as [l|] eqn:E; [|by apply elem_of_nil in Ho].
  apply (RB.map_find_elem s) in E; [|apply Hw]. pose proof (RB.wf_pos x Hw s) as Hpos. unfold RB.positive in Hpos. rewrite Forall_forall in Hpos.
  destruct (Hpos _ E) as [_ Hpq]. cbn in Hpq, Ho. rewrite Forall_forall in Hpq. assert (p ∈ RB.prices (RB.book x s)) as Hp by (apply list_elem_of_fmap; by exists (p, l)).
  split_and!; [done|by apply (RB.wf_band x Hw s)..|by apply Hpq].
Qed.
Lemma tracks_expected b x min s : RB.wf x -> RB.min_price_ x = min -> RB.max_price_ x = min + Replay.kLevels - 1 -> tracks b (lists x) ->
  Replay.expected b min s = Some (RB.for_each_order x s).
Proof.
  intros Hw Hmin Hmax Ht. destruct (tracks_for_each b x s Hw Ht) as (os & Hf & He). unfold Replay.expected. rewrite Hf. cbn [mbind option_bind]. f_equal. rewrite <- He.
  assert (forall y, y ∈ os -> negb (TruthBook.qty y.2 =? 0) && Replay.in_band min y.1 = true) as Hall.
  { intros y Hy. assert ((y.1, TruthBook.id y.2, TruthBook.qty y.2) ∈ RB.for_each_order x s) as Hin by (rewrite <- He; by apply (list_elem_of_fmap_2 (fun y : Z * TruthBook.Order => (y.1, TruthBook.id y.2, TruthBook.qty y.2)))).
    apply at_elem in Hin. rewrite <- lists_at in Hin by done. apply lists_facts in Hin as (_ & Hp & Hq); [|done]. unfold Replay.in_band. lia. }
  clear He Hf. induction os as [|y os IH]; [done|]. cbn [omap list_omap fmap list_fmap]. rewrite (Hall y) by (by left). f_equal. apply IH. intros. apply Hall. by right.
Qed.

(** ** A book is its lists *)

Lemma book_prices s m : RB.sorted s m -> m = (fun p => (p, default [] (map_find m p))) <$> RB.prices m.
Proof.
  induction m as [|[p q] m IH]; intros Hs; [done|]. apply RB.sorted_cons in Hs as [Hs Hlt]. cbn [RB.prices fmap list_fmap fst map_find]. rewrite Z.eqb_refl. cbn [default from_option]. f_equal.
  rewrite (IH Hs) at 1. apply list_fmap_ext. intros ? p' Hp'%list_elem_of_lookup_2. assert (p <> p') as Hne by (intros ->; by apply (RB.lt_side_irrefl s p'), Hlt).
  by rewrite (proj2 (Z.eqb_neq _ _)).
Qed.
Lemma prices_lists x s p : RB.wf x -> p ∈ RB.prices (RB.book x s) <-> lists x s p <> [].
Proof.
  intros Hw. unfold lists. split.
  - intros ([p' q] & -> & Hin)%list_elem_of_fmap. pose proof (RB.wf_pos x Hw s) as Hpos. unfold RB.positive in Hpos. rewrite Forall_forall in Hpos.
    destruct (Hpos _ Hin) as [Hne _]. cbn [fst]. apply (RB.map_find_elem s) in Hin as ->; [|apply Hw]. cbn in *. by destruct q.
  - intros Hne. destruct (map_find (RB.book x s) p) as [q|] eqn:E; [|done]. apply (RB.map_find_elem s) in E; [|apply Hw]. apply list_elem_of_fmap. by exists (p, q).
Qed.
Lemma anon_pairs (q q' : list Order) : pairs q = pairs q' -> anon_order <$> q = anon_order <$> q'.
Proof.
  revert q'. induction q as [|o q IH]; intros [|o' q'] H; try done. unfold pairs in H. rewrite !fmap_cons in *. injection H as H1 H2 H3. f_equal; [|by apply IH].
  unfold anon_order. by rewrite H1, H2.
Qed.
Lemma lists_index_iff x i l : RB.wf x -> RB.index_ x !! i = Some l <-> exists q, (i, q) ∈ lists x (l_side l) (l_price l).
Proof.
  intros Hw. split.
  - intros Hl. destruct (lists_resting x i l Hw Hl) as (o & _ & Hin). by eexists.
  - intros [q Hin]. apply lists_index in Hin; [|done]. by destruct l.
Qed.
Lemma anon_lists x y : RB.wf x -> RB.wf y -> RB.same_cfg x y -> (forall s p, lists y s p = lists x s p) -> anon y = anon x.
Proof.
  intros Hx Hy (C1 & C2 & C3 & C4 & C5) Hl. assert (forall s, anon_book (RB.book y s) = anon_book (RB.book x s)) as Hb.
  { intros s. rewrite (book_prices s (RB.book y s)), (book_prices s (RB.book x s)) by (apply Hx || apply Hy).
    assert (RB.prices (RB.book y s) = RB.prices (RB.book x s)) as ->.
    { apply (sorted_unique_prices s); [apply Hy|apply Hx|]. intros p. by rewrite !prices_lists, Hl. }
    unfold anon_book. rewrite <- !list_fmap_compose. apply list_fmap_ext. intros ? p _. cbn. unfold anon_level. cbn [fst snd]. f_equal. apply anon_pairs, Hl. }
  assert (RB.index_ y = RB.index_ x) as Hi.
  { apply map_eq. intros i. apply option_eq. intros l. rewrite !lists_index_iff by done. by setoid_rewrite Hl. }
  unfold anon. by rewrite C1, C2, C3, C4, C5, Hi, (Hb Buy : anon_book (RB.bids_ y) = _), (Hb Sell : anon_book (RB.asks_ y) = _).
Qed.
Lemma lists_joined x c s p : RB.wf x -> lists (Quiet.joined x c) s p = p_add (c_side c) (c_price c) (c_order_id c) (c_qty c) (lists x) s p.
Proof.
  intros Hw. unfold lists, p_add, Quiet.joined. destruct (decide (c_side c = s)) as [<-|Hs].
  - rewrite RB.book_set_eq, (Quiet.map_find_push (c_side c)) by apply Hw. destruct (Z.eqb_spec p (c_price c)) as [->|Hp].
    + rewrite decide_True by done. cbn [default from_option]. unfold Datatypes.id. by rewrite pairs_app.
    + by rewrite decide_False, app_nil_r by naive_solver.
  - by rewrite RB.book_set_ne, decide_False, app_nil_r by naive_solver.
Qed.
Lemma count_orders x : RB.wf x -> RB.order_count x = Z.of_nat (length (RB.for_each_order x Buy) + length (RB.for_each_order x Sell)).
Proof.
  intros Hw. pose proof (RB.wf_check_invariants x Hw) as Hc. unfold RB.check_invariants in Hc. apply andb_prop in Hc as [_ Hc]. apply Z.eqb_eq in Hc. rewrite <- Hc. f_equal.
  rewrite !listing_orders. change (RB.bids_ x) with (RB.book x Buy). change (RB.asks_ x) with (RB.book x Sell).
  assert (forall m, length (listing m) = foldr (fun '(_, q) n => (length q + n)%nat) 0%nat m) as H.
  { induction m as [|[p q] m IH]; [done|]. cbn [listing mbind list_bind foldr fst snd]. change (m ≫= fun x => lst x.1 x.2) with (listing m). rewrite length_app, IH. unfold lst. by rewrite length_fmap. }
  rewrite foldr_app, !H. generalize (foldr (fun '(_, q) n => (length q + n)%nat) 0%nat (RB.book x Sell)) as k. intros k. induction (RB.book x Buy) as [|[p q] m IH]; [done|]. cbn. lia.
Qed.
End BookLists.
