(* ===== verification/L3Honest.v ===== *)
(** * A day of an exchange with the reference book's rules replays exactly

    [view]: what the replay holds while the messages of such an exchange arrive: an engine that is the exchange's book up to
    owners, a truth book that follows it message by message, an open episode whose reported trades are those published so
    far, and no counter of trouble. Each message of [Exchange] takes one view to the next. *)
From stdpp Require Import sorting.
From S2P Require Import Prelude StateM TextFormat Common OrdMap ReferenceBook OrderBook BookRefine BookEquiv BookRules BookLaws Engine BookApi DiffFeed.
From S2P Require Import L3 L3Laws L3Infer L3Replay L3ReplayLaws L3Exchange L3Track.
Local Open Scope Z_scope.

Module Honest.
Import BookRules BookEquiv Stats Tracking BookLists Exchange Anonymous Replay.
Import ReferenceBook (limit_of).
Import Inference (Rec, seq, rid, rid2, rpx, rq, kind, otype, has, side_of, Life, opened, changed, taker_filled, stp, fresh_life,
  SnapOrder, SnapEnd, Received, Open, Done, Match, Change_, StpFlag, FundsOnly, FundsChange, Canceled_).

(** ** Counters *)

(** What a run without trouble leaves at zero. *)
Definition troubles : list field :=
  [funds_derived; out_of_band; stp_changes; mismatched; mismatched_stp; rest_mismatch; book_check_failures; repairs; gaps; truth_errors; resyncs;
   abandoned; unreplayed; unmatched_fill_done; unmatched_fill_qty; orphan_matches; clamped; fill_modifies; modify_out_of_band; stp_orders].
Record good (st : Stats.t) (open : bool) : Prop := {
  G_trouble : forall f, f ∈ troubles -> st f = 0;
  G_exact : st episodes = u64 (st exact + Z.b2z open);
  G_matches : st matched_exact = st cb_matches;
  G_range : in_u64 (st exact);
}.
Definition scores : list field := [episodes; exact; matched_exact; cb_matches].
Lemma bump_eq st f n : bump f n st f = u64 (st f + n).
Proof. unfold bump. by rewrite decide_True. Qed.
Lemma bump_ne st f g n : g <> f -> bump f n st g = st g.
Proof. intros Hn. unfold bump. by rewrite decide_False. Qed.
Lemma good_bump st o f n : f ∉ troubles -> f ∉ scores -> good st o -> good (bump f n st) o.
Proof.
  intros H1 H2 [G1 G2 G3 G4]. unfold scores in H2. split; unfold bump.
  - intros g Hg. rewrite decide_False; [auto|]. by intros ->.
  - rewrite !decide_False; [done|..]; intros <-; apply H2; set_solver.
  - rewrite !decide_False; [done|..]; intros <-; apply H2; set_solver.
  - rewrite decide_False; [done|]. intros <-. apply H2. set_solver.
Qed.

(** ** The view of the replay *)

(** What the first pass must have learnt of an arrival. *)
Definition recalls (info : Life) (c : Command) (x' : RB.t) (es : list Event) : Prop :=
  stp info = StpNone /\ (c_ord_type c = Limit -> opened info = RB.contains x' (c_order_id c) /\
    (opened info = false -> (taker_filled info =? 0) && negb (changed info) = bool_decide (trades_of es = []))).

Section honest.
Context {Bk : Type} {BA : BookApi Bk} {BL : BookApiLaws Bk} (opt : Options).
Hypothesis no_stp : stp_ opt = false.
Hypothesis no_drops : drop_cancel_every_ opt = 0.
Implicit Types (s : t (Bk := Bk)) (x y : RB.t) (e : Episode) (r : Rec) (F : Lists).

Record market x : Prop := {
  K_wf : RB.wf x;
  K_min : RB.min_price_ x = 0;
  K_max : RB.max_price_ x = kLevels - 1;
  K_stp : RB.stp_ x = StpNone;
  K_orders : forall sd p i q, (i, q) ∈ lists x sd p -> in_u64 q /\ i <> 0;
}.
(** The engine is the exchange's book, up to owners. *)
Record engine_as (g : Engine (Bk := Bk)) x : Prop := {
  E_book : exists b y, engine_ g = Some b /\ ba_rep b y /\ anon y = anon x;
  E_min : min_px_ g = 0;
  E_down : AccountsLaws.down (accounts_ g);
}.
Record view s x F (n : Z) e : Prop := {
  W_eng : engine_as (eng s) x;
  W_truth : tracks (truth_ s) F;
  W_feed : exists k, feed s = mkFeed false true k n [] /\ k <= n;
  W_ep : ep s = e;
  W_need : need_rebuild_ (checks s) = false;
  W_fills : modify_fills_ s = ∅;
  W_st : good (st_ s) (ep_active_ e);
}.
(** An episode in which [act] has been reported so far. *)
Record playing e (taker : Z) (pred act : list Trade) : Prop := {
  P_active : ep_active_ e = true;
  P_taker : ep_taker_ e = taker;
  P_rested : ep_taker_rested_ e = false;
  P_pred : ep_pred_ e = pred;
  P_act : ep_actual_ e = act;
}.
Definition settled e : Prop := ep_active_ e = true -> ep_pred_ e = ep_actual_ e.

Lemma view_count s x F n e f k : f ∉ troubles -> f ∉ scores -> view s x F n e -> view (set_st (bump f k) s) x F n e.
Proof. intros H1 H2 []. split; try done. by apply good_bump. Qed.
Lemma view_ep s x F n e f : ep_active_ (f e) = ep_active_ e -> view s x F n e -> view (set_ep f s) x F n (f e).
Proof. intros Hf [? ? ? He ? ? ?]. split; try done; cbn; [by rewrite He|]. by rewrite Hf. Qed.
Lemma view_truth s x F F' n e b : tracks b F' -> view s x F n e -> view (set_truth b s) x F' n e.
Proof. intros Hb []. by split. Qed.
Lemma view_checks s x F n e f : (need_rebuild_ (checks s) = false -> need_rebuild_ (f (checks s)) = false) -> view s x F n e -> view (set_checks f s) x F n e.
Proof. intros Hf []. split; try done. by apply Hf. Qed.
Lemma view_lists s x F F' n e : (forall sd p, F' sd p = F sd p) -> view s x F n e -> view s x F' n e.
Proof. intros HF []. split; try done. by eapply tracks_ext. Qed.
Lemma view_cancels s x F n e k : view s x F n e -> view (set_cancel_count k s) x F n e.
Proof. by intros []. Qed.

(** Episodes open and close. *)
Lemma good_close st k : good st true -> good (bump exact 1 (bump matched_exact k (bump cb_matches k st))) false.
Proof.
  intros [G1 G2 G3 G4]. split.
  - intros f Hf. unfold bump. rewrite !decide_False; [auto|..]; intros ->; revert Hf; unfold troubles; set_solver.
  - rewrite bump_eq, !(bump_ne _ _ exact), !(bump_ne _ _ episodes), G2, u64_add_l by done. cbn. f_equal. lia.
  - rewrite (bump_ne _ exact matched_exact), (bump_ne _ exact cb_matches), (bump_ne _ matched_exact cb_matches), !bump_eq, bump_ne by done. by rewrite G3.
  - rewrite bump_eq. apply in_u64_u64.
Qed.
Lemma good_open st : good st false -> good (bump episodes 1 st) true.
Proof.
  intros [G1 G2 G3 G4]. split.
  - intros f Hf. unfold bump. rewrite !decide_False; [auto|..]; intros ->; revert Hf; unfold troubles; set_solver.
  - rewrite bump_eq, (bump_ne _ _ exact), G2, u64_add_l by done. cbn. f_equal. lia.
  - by rewrite !bump_ne.
  - by rewrite bump_ne.
Qed.
Lemma wp_close s x F n e (Q : unit -> t -> Prop) : view s x F n e -> settled e -> (forall s' e', view s' x F n e' -> ep_active_ e' = false -> Q tt s') ->
  wp False close_episode Q s.
Proof.
  intros Hv Hs HQ. unfold close_episode. wp_step. wp_step. rewrite (W_ep _ _ _ _ _ Hv). wp_step; [|by eapply HQ].
  rewrite (bool_decide_eq_true_2 (ep_pred_ e = ep_actual_ e)) by auto. destruct Hv as [V1 V2 V3 V4 V5 V6 V7]. rewrite H in V7. subst e.
  assert (good (bump trading_episodes 1 (st_ s)) true) as V8 by (apply good_bump; [unfold troubles; set_solver|unfold scores; set_solver|done]).
  repeat wp_step; (eapply HQ; [split; first [done|by apply good_close]|done]).
Qed.
Lemma wp_open taker es b s x F n e (Q : unit -> t -> Prop) : view s x F n e -> settled e ->
  (forall s' e', view s' x F n e' -> playing e' taker (trades_of es) [] -> Q tt s') -> wp False (open_episode taker es b) Q s.
Proof.
  intros Hv Hs HQ. unfold open_episode. wp_step. eapply wp_close; [done..|]. intros s1 e1 H1 Ha. destruct H1 as [V1 V2 V3 V4 V5 V6 V7].
  repeat wp_step. rewrite Ha in V7. eapply HQ; [split; first [done|by apply good_open]|by split].
Qed.

(** ** The engine *)

Lemma market_alike x y : market x -> anon y = anon x -> RB.wf y -> market y.
Proof.
  intros [H1 H2 H3 H4 H5] Ha Hw. split; [done|..].
  - change (RB.min_price_ y) with (RB.min_price_ (anon y)). by rewrite Ha.
  - change (RB.max_price_ y) with (RB.max_price_ (anon y)). by rewrite Ha.
  - change (RB.stp_ y) with (RB.stp_ (anon y)). by rewrite Ha.
  - intros sd p i q. rewrite (lists_anon x y) by done. apply H5.
Qed.
(** What the engine is sent has the effect of the command on the exchange's book. *)
Lemma wp_engine c c' s x F n e x' es (Q : list Event -> t -> Prop) : view s x F n e -> market x -> in_i64 (c_price c') -> 0 <= c_qty c' -> c_tif c' <> Fok ->
  effective_stp (c_flags c) StpNone = StpNone -> own c' 0 = own c 0 -> RB.step x c = Some (x', es) ->
  (forall s', view s' x' F n e -> Q es s') -> wp False (eng_run opt c') Q s.
Proof.
  intros Hv Hx Hp Hq Ht Hf Hc Hst HQ. unfold eng_run. wp_step. eapply (wp_mono _ _ (fun _ s' => view s' x F n e)).
  { unfold emit. wp_step; [|done]. wp_step. destruct Hv as [[? ? ?] ? ? ? ? ? ?]. by split. }
  intros _ s1 H1. destruct (E_book _ _ (W_eng _ _ _ _ _ H1)) as (b & y & Hb & Hr & Ha). unfold book. wp_step. wp_step. wp_step. apply wp_lift; [|by rewrite Hb]. rewrite Hb.
  intros ? [= <-]. pose proof (market_alike x y Hx Ha (ba_rep_wf _ _ Hr)) as Hy.
  assert (cmd_ok y c') as Hok by (split; [by rewrite (K_min _ Hy), Z.sub_0_r|done|by intros _ ?]).
  destruct (ba_rep_step b y c' Hr Hok) as (b' & y' & es' & Hb' & Hy' & Hr').
  destruct (step_alike x y c c' x' es Ha (K_stp _ Hx) Hf Hc Hst) as (y1 & Hy1 & Ha'). rewrite Hy1 in Hy'. injection Hy' as -> ->.
  wp_step. apply wp_lift; [|by rewrite Hb']. rewrite Hb'. intros ? [= <-]. repeat wp_step. apply HQ. destruct H1 as [[? ? ?] ? ? ? ? ? ?].
  split; try done. split; try done. by exists b', y'.
Qed.
Lemma wp_asks_owner id s x F n e (Q : Z -> t -> Prop) : view s x F n e -> (forall w s', view s' x F n e -> Q w s') -> wp False (owner id) Q s.
Proof.
  intros Hv HQ. unfold owner. repeat wp_step. destruct (AccountsLaws.find_ok _ id (E_down _ _ (W_eng _ _ _ _ _ Hv))) as (a & w & Hf & _ & Hk).
  unfold Accounts.owner. rewrite Hf. apply wp_lift; [|done]. intros ? [= <-]. repeat wp_step. apply HQ. destruct Hv as [[? ? ?] ? ? ? ? ? ?]. split; try done.
  split; [done..|]. apply Hk.
Qed.
(** What a caller sees of the engine. *)
Lemma wp_book {A} (k : Bk -> StateM.M t A) (Q : A -> t -> Prop) s x F n e : view s x F n e ->
  (forall b, (forall sd, ba_for_each_order b sd = Some (RB.for_each_order x sd)) -> (forall i, ba_contains b i = Some (RB.contains x i)) ->
     (forall i v, RB.find_order x i = Some (Some v) -> exists w, ba_find_order b i = Some (Some (mkOrderView (v_price v) (v_qty v) (v_side v) w))) -> wp False (k b) Q s) ->
  wp False (book ≫= k) Q s.
Proof.
  intros Hv Hk. destruct (E_book _ _ (W_eng _ _ _ _ _ Hv)) as (b & y & Hb & Hr & Ha). unfold book. wp_step. wp_step. wp_step. apply wp_lift; [|by rewrite Hb]. rewrite Hb.
  intros ? [= <-]. apply Hk.
  - intros sd. rewrite (ba_rep_orders _ _ _ Hr). by rewrite <- (orders_anon y), Ha, orders_anon.
  - intros i. rewrite (ba_rep_contains _ _ _ Hr). change (RB.contains y i) with (RB.contains (anon y) i). by rewrite Ha.
  - intros i v Hf. rewrite (ba_rep_find _ _ _ Hr). pose proof (find_order_anon y i) as E. rewrite Ha, find_order_anon, Hf in E. cbn in E.
    destruct (RB.find_order y i) as [[[p q sd w]|]|]; cbn in E; [|done..]. injection E as -> -> ->. by exists w.
Qed.

(** The comparison of the books finds them equal. *)
Lemma wp_check s x n e (Q : unit -> t -> Prop) : view s x (lists x) n e -> market x -> (forall s', view s' x (lists x) n e -> Q tt s') -> wp False (full_check opt) Q s.
Proof.
  intros Hv Hx HQ. unfold full_check. wp_step. unfold tick, count at 1. wp_step. assert (view (set_st (bump book_checks 1) s) x (lists x) n e) as H1.
  { apply view_count; [unfold troubles; set_solver|unfold scores; set_solver|done]. }
  revert H1. generalize (set_st (bump book_checks 1) s) as s1. intros s1 H1.
  assert (forall sd (R : bool -> t -> Prop), R true s1 -> wp False (side_equal sd) R s1) as Hside.
  { intros sd R HR. unfold side_equal. eapply wp_book; [done|]. intros b Ho _ _. wp_step. apply wp_lift; [|by rewrite Ho]. rewrite Ho. intros ? [= <-].
    repeat wp_step. rewrite (E_min _ _ (W_eng _ _ _ _ _ H1)), (tracks_expected _ x 0 sd (K_wf _ Hx) (K_min _ Hx)); [|rewrite (K_max _ Hx); lia|apply H1].
    apply wp_lift; [|done]. intros ? [= <-]. wp_step. by rewrite bool_decide_eq_true_2. }
  wp_step. unfold books_equal. wp_step. apply Hside. apply Hside. wp_step; [done|]. by apply HQ.
Qed.

(** ** One message *)

Ltac skip := first [unfold troubles; set_solver | unfold scores; set_solver].
Lemma wp_tick f k s x F n e (Q : unit -> t -> Prop) : f ∉ troubles -> f ∉ scores -> view s x F n e -> (forall s', view s' x F n e -> Q tt s') -> wp False (count f k) Q s.
Proof. intros. unfold count. wp_step. match goal with H : forall _, _ |- _ => apply H end. by apply view_count. Qed.

Lemma starts_outside e r : starts r = true -> in_episode e r = false.
Proof.
  unfold starts, in_episode, Received, Change_, Match, Done, Open. destruct (ep_active_ e); [|done]. cbn [negb].
  destruct (Z.eqb_spec (kind r) 3) as [->|]; [done|]. destruct (Z.eqb_spec (kind r) 7) as [->|]; [|done]. cbn. by destruct (has r StpFlag).
Qed.
Lemma wp_prepare_start r s x n e (Q : unit -> t -> Prop) : view s x (lists x) n e -> market x -> settled e -> starts r = true ->
  (forall s' e', view s' x (lists x) n e' -> ep_active_ e' = false -> Q tt s') -> wp False (prepare opt r) Q s.
Proof.
  intros Hv Hx He Hr HQ. unfold prepare. wp_step. wp_step. rewrite (W_ep _ _ _ _ _ Hv), starts_outside by done. cbn [negb when]. wp_step. eapply wp_close; [done..|].
  intros s1 e1 H1 Ha. wp_step. wp_step. rewrite (W_need _ _ _ _ _ H1). wp_step. wp_step; [done|]. wp_step. wp_step. wp_step; [|by eapply HQ]. unfold set_pending. wp_step. wp_step.
  eapply wp_check; [by apply view_checks|done|]. intros s2 H2. by eapply HQ.
Qed.
Lemma wp_prepare_inside r s x F n e (Q : unit -> t -> Prop) : view s x F n e -> starts r = false -> (ep_active_ e = true -> in_episode e r = true) ->
  Q tt s -> wp False (prepare opt r) Q s.
Proof.
  intros Hv Hr He HQ. unfold prepare. wp_step. wp_step. wp_step. rewrite (W_ep _ _ _ _ _ Hv). apply (wp_mono _ _ (fun _ s' => s' = s)).
  { wp_step; [|done]. unfold close_episode. wp_step. wp_step. rewrite (W_ep _ _ _ _ _ Hv). wp_step; [|done]. destruct (in_episode e r); [done|]. by discriminate He. }
  intros _ s1 ->. wp_step. wp_step. rewrite (W_need _ _ _ _ _ Hv). wp_step. wp_step; [done|]. wp_step. wp_step. rewrite Hr, andb_false_r. wp_step; [done|]. exact HQ.
Qed.
Lemma wp_schedule r s x F n e (Q : unit -> t -> Prop) : view s x F n e -> (forall s', view s' x F n e -> Q tt s') -> wp False (schedule_check opt r) Q s.
Proof.
  intros Hv HQ. unfold schedule_check. repeat wp_step; [|by apply HQ]. apply HQ. by apply view_checks.
Qed.
Lemma wp_message r s x F n e (Q : unit -> t -> Prop) : view s x F n e -> kind r <> SnapOrder -> kind r <> SnapEnd -> seq r = n + 1 -> 0 <= n < 18446744073709551615 ->
  (forall s', view s' x F (n + 1) e -> wp False (prepare opt r;; dispatch opt r) (fun _ s' => exists x' F' e', view s' x' F' (n + 1) e' /\ forall s', view s' x' F' (n + 1) e' -> Q tt s') s') ->
  wp False (on_record opt 2 r) Q s.
Proof.
  intros Hv H1 H2 Hs Hn Hm. unfold on_record. wp_step. eapply wp_tick; [skip..|done|]. intros s1 V1.
  cbn [on]. rewrite (proj2 (Z.eqb_neq _ _) H1), (proj2 (Z.eqb_neq _ _) H2). unfold on_message. wp_step. wp_step.
  destruct (W_feed _ _ _ _ _ V1) as (k & Hf & Hk). rewrite Hf. cbn [synced_ negb snap_seq_ last_seq_]. rewrite (proj2 (Z.leb_gt (seq r) k)) by lia.
  rewrite Hs, u64_small, Z.eqb_refl by (unfold in_u64; lia). cbn [negb]. wp_step. wp_step.
  assert (view (set_feed (fun f => mkFeed (loading_snap_ f) (synced_ f) (snap_seq_ f) (n + 1) (pre_snapshot_ f)) s1) x F (n + 1) e) as V2.
  { destruct V1 as [? ? _ ? ? ? ?]. split; try done. exists k. cbn. rewrite Hf. split; [done|lia]. }
  specialize (Hm _ V2). wp_step. unfold wp, mbind, M_bind in *. destruct (prepare opt r _) as [[s2 []]|]; [|done]. destruct (dispatch opt r s2) as [[s3 []]|]; [|done].
  destruct Hm as (x' & F' & e' & V3 & HQ). by eapply wp_schedule.
Qed.

(** ** An arrival *)

Definition known c x' (es : list Event) : Prop := recalls (default fresh_life (life_ opt !! c_order_id c)) c x' es.

Lemma accepted_facts x c x' ev es : 0 <= c_qty c -> market x -> RB.add x c = (x', ev :: es) -> e_type ev <> Rejected ->
  c_order_id c <> 0 /\ 0 < c_qty c /\ RB.index_ x !! c_order_id c = None /\ (c_ord_type c = Limit -> in_band 0 (c_price c) = true).
Proof.
  intros Hq Hx. unfold RB.add. case_match; [by intros [= <- <- <-]|]. case_match; [by intros [= <- <- <-]|]. case_match eqn:Eb; [by intros [= <- <- <-]|].
  case_match eqn:Ec; [by intros [= <- <- <-]|]. intros _ _. to_prop. split_and!; [done|lia|by apply RB.contains_false|].
  intros Hl. destruct Eb as [Eb|Eb]; [by rewrite Hl in Eb|]. unfold RB.out_of_band in Eb. rewrite (K_min _ Hx), (K_max _ Hx) in Eb. unfold in_band. lia.
Qed.
Lemma side_msg (s : Side) : (if Side_to_Z s =? 0 then Buy else Sell) = s.
Proof. by destruct s. Qed.
Lemma own_own c w w' : own (own c w) w' = own c w'.
Proof. done. Qed.

Definition received_msg (m : Z) (c : Command) : Rec := with_seq_no m (msg Received (c_order_id c) 0 (c_price c) (c_qty c) (c_side c) (type_code (c_ord_type c)) 0).
Lemma wp_decided (c : Command) x' es s x F n e w (Q : option Command -> t -> Prop) : view s x F n e -> known c x' es -> (c_ord_type c = Limit -> in_band 0 (c_price c) = true) ->
  (forall s', view s' x F n e -> Q (Some (own (sent c (RB.contains x' (c_order_id c)) (negb (bool_decide (trades_of es = [])))) w)) s') ->
  wp False (if otype (received_msg n c) =? 1 then market_arrival (received_msg n c) (c_side c) (default fresh_life (life_ opt !! c_order_id c)) w 0
    else limit_arrival (received_msg n c) (c_side c) (default fresh_life (life_ opt !! c_order_id c)) w 0) Q s.
Proof.
  intros Hv [Hk1 Hk2] Hb HQ. set (info := default _ _) in *. unfold received_msg, sent in *. cbn [otype with_seq_no msg Inference.otype]. destruct (c_ord_type c) eqn:Et; cbn [type_code Z.eqb].
  - destruct (Hk2 eq_refl) as [Ho Hf]. unfold limit_arrival. wp_step. wp_step. rewrite (E_min _ _ (W_eng _ _ _ _ _ Hv)).
    cbn [rpx with_seq_no msg Inference.rpx rid Inference.rid rq Inference.rq]. rewrite Hb by done. cbn [negb andb when]. wp_step. wp_step.
    rewrite <- Ho in HQ. destruct (opened info); [wp_step; by apply HQ|]. rewrite <- Hf in HQ by done.
    destruct ((taker_filled info =? 0) && negb (changed info)); cbn [negb]; wp_step; (eapply wp_tick; [skip..|done|]); intros s1 H1; wp_step; by apply HQ.
  - change (1 =? 1)%positive with true. cbn iota. unfold market_arrival. wp_step. eapply wp_tick; [skip..|done|]. intros s1 H1.
    change (has _ FundsOnly) with false. cbn [when]. repeat wp_step. by apply HQ.
Qed.
Lemma wp_received c x' ev es s x n e (Q : unit -> t -> Prop) : view s x (lists x) n e -> market x -> settled e -> 0 <= n < 18446744073709551615 ->
  0 <= c_qty c -> in_i64 (c_price c) -> plain_order c -> RB.add x c = (x', ev :: es) -> e_type ev <> Rejected -> known c x' (ev :: es) ->
  (forall s' e', view s' x' (lists x) (n + 1) e' -> playing e' (c_order_id c) (trades_of (ev :: es)) [] -> Q tt s') ->
  wp False (on_record opt 2 (received_msg (n + 1) c)) Q s.
Proof.
  intros Hv Hx He Hn Hq Hp Hpl Ha Hev Hk HQ. destruct (accepted_facts _ _ _ _ _ Hq Hx Ha Hev) as (Hid & Hq0 & Hnew & Hb).
  destruct (sent_follows x c x' ev es (K_wf _ Hx) ltac:(rewrite (K_min _ Hx), (K_max _ Hx); unfold kLevels; lia) Hq (K_stp _ Hx) Hpl Ha Hev) as (es' & Hs & Htr).
  destruct (sent_fields c (RB.contains x' (c_order_id c)) (negb (bool_decide (trades_of (ev :: es) = [])))) as (E1 & E2 & E3 & E4 & E5 & E6 & E7 & E8).
  eapply wp_message; [done|done|done|done|done|]. intros s1 V1. wp_step. eapply wp_prepare_start; [done..|]. intros s2 e2 V2 Ha2.
  unfold dispatch. change (kind (received_msg (n + 1) c) =? Received) with true. cbn iota. unfold on_received. change (side_of (received_msg (n + 1) c)) with (if Side_to_Z (c_side c) =? 0 then Buy else Sell).
  rewrite side_msg. wp_step. eapply wp_tick; [skip..|done|]. intros s3 V3. wp_step. eapply wp_asks_owner; [done|]. intros w s4 V4.
  change (rid (received_msg (n + 1) c)) with (c_order_id c). pose proof Hk as [Hk1 _]. rewrite Hk1. rewrite decide_True, (bool_decide_eq_true_2 (StpNone = StpNone)) by done. cbn [negb when].
  wp_step. wp_step. wp_step. eapply wp_decided; [done..|]. intros s5 V5. cbn [c_qty own]. rewrite E4, (proj2 (Z.eqb_neq (c_qty c) 0)) by lia.
  wp_step. eapply (wp_engine (sent c _ _)); [done|done| |by cbn [c_qty own]; rewrite E4|exact E6|exact E8|apply own_own| |].
  { cbn [c_price own]. unfold sent. destruct (c_ord_type c); [by destruct (RB.contains x' (c_order_id c)), (negb _)|by split]. }
  { unfold RB.step. rewrite E7. by rewrite Hs. }
  intros s6 V6. wp_step. eapply wp_open; [done|unfold settled; congruence|]. intros s7 e7 V7 P7. unfold set_seq, set_taker_px. wp_step. wp_step. wp_step.
  eexists _, _, _. split; [apply view_ep, view_ep; done|]. intros s8 V8. eapply HQ; [exact V8|]. destruct P7. by split; rewrite <- ?Htr.
Qed.

(** ** Its trades *)

Lemma wp_truth o s x F F' n e b v (Q : bool -> t -> Prop) : view s x F n e -> TruthBook.step (truth_ s) o = Some (b, v) -> tracks b F' ->
  (forall s', view s' x F' n e -> Q v s') -> wp False (truth_step o) Q s.
Proof.
  intros Hv Hs Hb HQ. unfold truth_step. wp_step. wp_step. wp_step. apply wp_lift; [|by rewrite Hs]. rewrite Hs. intros ? [= <-]. repeat wp_step.
  apply HQ. by eapply view_truth.
Qed.
Lemma wp_match m taker i q f p sd s x F n e pred act (Q : unit -> t -> Prop) : view s x F n e -> playing e taker pred act -> m = n + 1 -> 0 <= n < 18446744073709551615 ->
  (exists sd', (i, q) ∈ F sd' p) -> 0 <= f <= q -> in_u64 f ->
  (forall s' e', view s' x (fun sd p => p_set i (q - f) (F sd p)) (n + 1) e' -> playing e' taker pred (act ++ [mkTrade i p f]) -> Q tt s') ->
  wp False (on_record opt 2 (with_seq_no m (msg Match taker i p f sd 0 0))) Q s.
Proof.
  intros Hv [P1 P2 P3 P4 P5] -> Hn [sd' Hin] Hf H64 HQ. eapply wp_message; [done|done|done|done|done|]. intros s1 V1. wp_step.
  eapply wp_prepare_inside; [done|done| |]. { intros _. unfold in_episode. rewrite P1, P2, P3. cbn. by rewrite Z.eqb_refl. }
  unfold dispatch. cbn [kind with_seq_no msg Inference.kind]. change (Match =? Received) with false. change (Match =? Open) with false. change (Match =? Done) with false. change (Match =? Match) with true. cbn iota.
  unfold on_match. cbn [rid2 rq rpx rid with_seq_no msg Inference.rid2 Inference.rq Inference.rpx Inference.rid]. wp_step. destruct (tracks_fill _ _ _ _ _ _ _ (W_truth _ _ _ _ _ V1) Hin Hf H64) as (b & Hb & Hb').
  eapply wp_truth; [done..|]. intros s2 V2. cbn [negb when]. do 6 wp_step. rewrite (W_ep _ _ _ _ _ V2), P1, P2, Z.eqb_refl. cbn [andb]. wp_step. eexists _, _, _. split; [by apply view_ep|].
  intros s3 V3. eapply HQ; [exact V3|]. rewrite P5. by split.
Qed.

(** A maker with nothing left, or an order that never came to rest, is done. *)
Lemma wp_done m i p v sd fl s x F n e (Q : unit -> t -> Prop) : view s x F n e -> m = n + 1 -> 0 <= n < 18446744073709551615 ->
  (exists sd' p', (i, 0) ∈ F sd' p') /\ fl = 0 \/ (forall sd' p' q, (i, q) ∉ F sd' p') ->
  (forall s', view s' x (fun sd p => p_del i (F sd p)) (n + 1) e -> Q tt s') ->
  wp False (on_record opt 2 (with_seq_no m (msg Done i 0 p v sd 0 fl))) Q s.
Proof.
  intros Hv -> Hn Hin HQ. eapply wp_message; [done|done|done|done|done|]. intros s1 V1. wp_step.
  eapply wp_prepare_inside; [done|done| |]. { intros Ha. unfold in_episode. rewrite Ha. done. }
  unfold dispatch. cbn [kind with_seq_no msg Inference.kind]. change (Done =? Received) with false. change (Done =? Open) with false. change (Done =? Done) with true. cbn iota.
  unfold on_done. cbn [rid with_seq_no msg Inference.rid]. wp_step. wp_step. rewrite (W_fills _ _ _ _ _ V1), lookup_empty, bool_decide_eq_false_2 by apply is_Some_None. cbn [when].
  wp_step. wp_step. wp_step. wp_step. destruct (tracks_remove _ _ i (W_truth _ _ _ _ _ V1)) as (b & Hb & Hb').
  assert (forall R : unit -> t -> Prop, R tt s1 -> wp False (when (negb (has (with_seq_no (n + 1) (msg Done i 0 p v sd 0 fl)) Canceled_) && TruthBook.contains (truth_ s1) i && true)
    (drop_unmatched opt (with_seq_no (n + 1) (msg Done i 0 p v sd 0 fl)))) R s1) as Hdrop.
  { intros R HR. destruct Hin as [[(sd' & p' & Hin) ->]|Hin].
    - destruct (tracks_seen _ _ _ _ _ _ (W_truth _ _ _ _ _ V1) Hin) as (o & Ho & Hc & _ & Hq). rewrite Hc. wp_step; [|done]. unfold drop_unmatched.
      cbn [rid with_seq_no msg Inference.rid]. do 3 wp_step. apply wp_lift; [|by rewrite Ho]. rewrite Ho. intros ? [= <-]. rewrite Hq. change (0 <? 0) with false. cbn [when]. by wp_step.
    - destruct (tracks_unseen _ _ _ (W_truth _ _ _ _ _ V1) Hin) as (_ & Hc & _). by rewrite Hc, andb_false_r. }
  wp_step. apply Hdrop. wp_step. eapply wp_truth; [done..|]. intros s2 V2.
  assert (has (with_seq_no (n + 1) (msg Done i 0 p v sd 0 fl)) Canceled_ && TruthBook.contains (truth_ s1) i = false) as ->.
  { destruct Hin as [[_ ->]|Hin]; [done|]. destruct (tracks_unseen _ _ _ (W_truth _ _ _ _ _ V1) Hin) as (_ & Hc & _). by rewrite Hc, andb_false_r. }
  wp_step; [done|]. eexists _, _, _. split; [exact V2|]. exact HQ.
Qed.

(** What is left of an arrival comes to rest. *)
Lemma wp_rests m i p q sd v s x F n e pred (Q : unit -> t -> Prop) : view s x F n e -> playing e i pred pred -> m = n + 1 -> 0 <= n < 18446744073709551615 ->
  (forall sd' p' q', (i, q') ∉ F sd' p') -> in_u64 q -> in_band 0 p = true -> RB.find_order x i = Some (Some v) -> v_qty v = q -> v_price v = p ->
  (forall s' e', view s' x (p_add sd p i q F) (n + 1) e' -> settled e' -> Q tt s') ->
  wp False (on_record opt 2 (with_seq_no m (msg Open i 0 p q sd 0 0))) Q s.
Proof.
  intros Hv [P1 P2 P3 P4 P5] -> Hn Hin Hq Hb Hf Hvq Hvp HQ. eapply wp_message; [done|done|done|done|done|]. intros s1 V1. wp_step.
  eapply wp_prepare_inside; [done|done| |]. { intros Ha. unfold in_episode. rewrite Ha. done. }
  unfold dispatch. cbn [kind with_seq_no msg Inference.kind]. change (Open =? Received) with false. change (Open =? Open) with true. cbn iota.
  unfold on_open. cbn [rid rpx rq with_seq_no msg Inference.rid Inference.rpx Inference.rq Inference.ts].
  change (side_of (with_seq_no (n + 1) (msg Open i 0 p q sd 0 0))) with (if Side_to_Z sd =? 0 then Buy else Sell). rewrite side_msg.
  destruct (tracks_add _ _ i sd p q 0 (W_truth _ _ _ _ _ V1) Hin Hq) as (b & Hb1 & Hb'). wp_step. eapply wp_truth; [done..|]. intros s2 V2.
  wp_step. wp_step. rewrite (W_ep _ _ _ _ _ V2), P1, P2, Z.eqb_refl. cbn [andb when]. wp_step. wp_step. unfold is_in_band. wp_step. wp_step.
  assert (view (set_ep with_rested s2) x (p_add sd p i q F) (n + 1) (with_rested e)) as V3 by (by apply view_ep).
  rewrite (E_min _ _ (W_eng _ _ _ _ _ V3)), Hb. cbn [when]. wp_step. eapply wp_tick; [skip..|done|]. intros s4 V4. eapply wp_book; [done|]. intros bk _ _ Hbk.
  destruct (Hbk _ _ Hf) as [w Hw]. wp_step. apply wp_lift; [|by rewrite Hw]. rewrite Hw. intros ? [= <-]. cbn [v_qty v_price]. rewrite Hvq, Hvp, !Z.eqb_refl. cbn [andb negb when].
  wp_step. eexists _, _, _. split; [done|]. intros s5 V5. eapply HQ; [exact V5|]. intros _. cbn. congruence.
Qed.

(** ** Cancels and modifies *)

Lemma wp_cancelled c x' ev m s x n e (Q : unit -> t -> Prop) : view s x (lists x) n e -> market x -> settled e -> m = n + 1 -> 0 <= n < 18446744073709551615 ->
  RB.cancel x c = Some (x', [ev]) -> e_type ev = Canceled ->
  (forall s' e', view s' x' (lists x') (n + 1) e' -> settled e' -> Q tt s') ->
  wp False (on_record opt 2 (with_seq_no m (msg Done (c_order_id c) 0 (e_price ev) (e_qty ev) (e_side ev) 0 Canceled_))) Q s.
Proof.
  intros Hv Hx He -> Hn Hc Hev HQ. eapply wp_message; [done|done|done|done|done|]. intros s1 V1. wp_step.
  eapply wp_prepare_inside; [done|done| |]. { intros Ha. unfold in_episode. rewrite Ha. done. }
  set (r := with_seq_no _ _). unfold dispatch. change (kind r =? Received) with false. change (kind r =? Open) with false. change (kind r =? Done) with true. cbn iota.
  pose proof Hc as Hc'. unfold RB.cancel in Hc. destruct (RB.index_ x !! c_order_id c) as [l|] eqn:Hl; [|injection Hc as _ <-; done].
  destruct (lists_resting x _ l (K_wf _ Hx) Hl) as (o & Hd & Hin). rewrite Hd in Hc. cbn [mbind option_bind] in Hc.
  destruct (RB.remove x l (c_order_id c)) as [x1|] eqn:Hr; [|done]. cbn [mbind option_bind] in Hc. injection Hc as -> _.
  unfold on_done. change (rid r) with (c_order_id c). change (has r Canceled_) with true. cbn [negb andb]. wp_step. wp_step. rewrite (W_fills _ _ _ _ _ V1), lookup_empty, bool_decide_eq_false_2 by apply is_Some_None. cbn [when].
  wp_step. wp_step. wp_step. wp_step. destruct (tracks_seen _ _ _ _ _ _ (W_truth _ _ _ _ _ V1) Hin) as (ro & _ & Hcon & _). rewrite Hcon.
  wp_step. wp_step. destruct (tracks_remove _ _ (c_order_id c) (W_truth _ _ _ _ _ V1)) as (b & Hb & Hb'). wp_step. eapply wp_truth; [done..|]. intros s2 V2. cbn [when].
  unfold on_cancelled. wp_step. eapply wp_tick; [skip..|done|]. intros s3 V3. wp_step. wp_step. rewrite (W_ep _ _ _ _ _ V3). wp_step.
  assert (forall s' e', view s' x (fun sd p => p_del (c_order_id c) (lists x sd p)) (n + 1) e' -> settled e' ->
    wp False (k ← gets cancel_count_; if drop_cancel_every_ opt =? 0 then eng_cancel opt (rid r) else update (set_cancel_count (u64 (k + 1)));; when (negb (u64 (k + 1) mod drop_cancel_every_ opt =? 0)) (eng_cancel opt (rid r)))
      (fun _ s' => exists x' F' e', view s' x' F' (n + 1) e' /\ forall s', view s' x' F' (n + 1) e' -> Q tt s') s') as Hgo.
  { intros s4 e4 V4 H4. wp_step. wp_step. rewrite no_drops. cbn [Z.eqb]. unfold eng_cancel. wp_step.
    eapply (wp_engine (cancel_command (c_order_id c))); [done|done|by split|done|done|done|done| |].
    { rewrite <- Hc'. unfold RB.step, RB.cancel. cbn [c_type cancel_command c_order_id]. by rewrite Hl. }
    intros s5 V5. wp_step. eexists _, _, e4. split; [|intros s6 V6; by eapply HQ]. eapply view_lists; [|exact V5]. intros. by apply (lists_remove _ _ l); [apply Hx| |]. }
  wp_step.
  - wp_step. eapply Hgo; [by apply view_ep|exact He].
  - by eapply Hgo.
Qed.

Lemma wp_changed c x' md es m s x n e (Q : unit -> t -> Prop) : view s x (lists x) n e -> market x -> settled e -> m = n + 1 -> 0 <= n < 18446744073709551615 ->
  0 <= c_qty c -> in_u64 (c_qty c) -> c_price c <> 0 -> c_type c = Modify ->
  RB.modify x c = Some (x', md :: es) -> e_type md = Modified -> no_trades es ->
  (forall s' e', view s' x' (lists x') (n + 1) e' -> settled e' -> Q tt s') ->
  wp False (on_record opt 2 (with_seq_no m (msg Change_ (c_order_id c) 0 (c_price c) (c_qty c) (e_side md) 0 0))) Q s.
Proof.
  intros Hv Hx He -> Hn Hq H64 Hp Hty Hm Hmd Hno HQ. destruct (modify_quiet _ _ _ _ _ (K_wf _ Hx) (K_stp _ Hx) Hq Hm Hmd Hno) as (l & o & Hl & Hq0 & Hb & Hd & _ & Hc & -> & Hlists).
  destruct (lists_resting x _ l (K_wf _ Hx) Hl) as (o' & Hd' & Hin). assert (o' = o) as -> by congruence.
  eapply wp_message; [done|done|done|done|done|]. intros s1 V1. set (r := with_seq_no _ _). wp_step. eapply wp_prepare_start; [done..|]. intros s2 e2 V2 Ha2.
  unfold dispatch. change (kind r =? Received) with false. change (kind r =? Open) with false. change (kind r =? Done) with false. change (kind r =? Match) with false. change (kind r =? Change_) with true. cbn iota.
  unfold on_change. change (has r FundsChange) with false. change (has r StpFlag) with false. change (rid r) with (c_order_id c). change (rpx r) with (c_price c). change (rq r) with (c_qty c). cbn iota.
  do 3 wp_step. destruct (tracks_seen _ _ _ _ _ _ (W_truth _ _ _ _ _ V2) Hin) as (ro & Hfind & _). apply wp_lift; [|by rewrite Hfind]. rewrite Hfind. intros ? [= <-].
  rewrite (proj2 (Z.eqb_neq _ _) Hp). wp_step. destruct (tracks_change _ _ _ _ _ _ (c_price c) (c_qty c) (Inference.ts r) (W_truth _ _ _ _ _ V2) Hin H64) as (b & Hb1 & Hb').
  eapply wp_truth; [done|exact Hb1| |]. { eapply tracks_ext; [exact Hb'|]. intros sd p. rewrite Hlists. by case_match. }
  intros s3 V3. wp_step. eapply wp_tick; [skip..|done|]. intros s4 V4. unfold modify_episode. wp_step. wp_step. rewrite (W_fills _ _ _ _ _ V4), lookup_empty. cbn [default from_option]. unfold Datatypes.id.
  wp_step. wp_step. rewrite delete_empty. cbn [foldl].
  assert (view (set_fills ∅ s4) x (lists x') (n + 1) e2) as V5 by (destruct V4; by split). revert V5. generalize (set_fills ∅ s4). intros s5 V5.
  wp_step. wp_step. rewrite (E_min _ _ (W_eng _ _ _ _ _ V5)). assert (in_band 0 (c_price c) = true) as Hband.
  { unfold RB.out_of_band in Hb. rewrite (K_min _ Hx), (K_max _ Hx) in Hb. unfold in_band. lia. }
  rewrite Hband. cbn [negb andb when]. wp_step. wp_step. wp_step. rewrite Hband. cbn [negb]. eapply wp_book; [done|]. intros bk _ Hcon _. wp_step. apply wp_lift; [|by rewrite Hcon]. rewrite Hcon. intros ? [= <-].
  assert (RB.contains x (c_order_id c) = true) as -> by (unfold RB.contains; rewrite Hl; by apply bool_decide_eq_true_2). cbn [negb]. rewrite Z.add_0_r, u64_small by done.
  eapply (wp_engine (modify_command (c_order_id c) (c_price c) (c_qty c))); [done|done| |done|done|done|done| |].
  { cbn. unfold in_band, kLevels in Hband. unfold in_i64. lia. }
  { rewrite <- Hm. unfold RB.step, RB.modify. cbn [c_type modify_command c_order_id c_qty c_price]. by rewrite Hl, Hb, (proj2 (Z.eqb_neq (c_qty c) 0)) by lia. }
  intros s6 V6. wp_step. eapply wp_open; [done|unfold settled; congruence|]. intros s7 e7 V7 P7. wp_step. wp_step. rewrite (proj2 (Z.eqb_neq (c_qty c) 0)) by lia. cbn [when].
  wp_step. wp_step. unfold set_seq, set_taker_px, add_repairs. wp_step. wp_step. wp_step. wp_step. wp_step. eexists _, _, _. split; [apply view_checks; [done|]; apply view_ep, view_ep, view_ep; done|].
  intros s8 V8. eapply HQ; [exact V8|]. intros _. cbn. destruct P7 as [_ _ _ Hpred _]. rewrite Hpred. unfold trades_of. cbn. by rewrite Hmd.
Qed.

(** ** The messages of a command, in a row *)

Lemma number_app k l l' : number k (l ++ l') = number k l ++ number (k + Z.of_nat (length l)) l'.
Proof.
  revert k. induction l as [|r l IH]; intros k; cbn [app number length]; [by rewrite Z.add_0_r|]. rewrite IH. do 3 f_equal. lia.
Qed.
Lemma wp_for_app {A} (l l' : list A) (f : A -> StateM.M (t (Bk := Bk)) unit) (Q : unit -> t -> Prop) s : wp False (for_each l f) (fun _ => wp False (for_each l' f) Q) s -> wp False (for_each (l ++ l') f) Q s.
Proof. unfold wp. rewrite for_each_app. by destruct (for_each l f s) as [[? ?]|]. Qed.
Lemma wp_for_one {A} (a : A) (f : A -> StateM.M (t (Bk := Bk)) unit) (Q : unit -> t -> Prop) s : wp False (f a) (fun _ => Q tt) s -> wp False (for_each [a] f) Q s.
Proof. intros H. cbn [for_each]. wp_step. eapply wp_mono; [exact H|]. by intros [] s'. Qed.

Abbreviation records l := (for_each l (on_record opt 2)).

Lemma wp_trades sym taker side L es L' : eats sym taker side L es L' -> forall s x F n e pred act (Q : unit -> t -> Prop),
  view s x (swept (opposite side) L F) n e -> playing e taker pred act -> NoDup (lids L) -> (forall sd p i q, sd <> opposite side -> i ∈ lids L -> (i, q) ∉ F sd p) ->
  (forall p i q, (p, i, q) ∈ L -> in_u64 q) -> 0 <= n -> n + Z.of_nat (length (es ≫= trade_messages)) < 18446744073709551616 ->
  (forall s' e', view s' x (swept (opposite side) L' F) (n + Z.of_nat (length (es ≫= trade_messages))) e' -> playing e' taker pred (act ++ trades_of es) -> Q tt s') ->
  wp False (records (number (n + 1) (es ≫= trade_messages))) Q s.
Proof.
  induction 1 as [L|p i q L es L' Hq _ IH|p i q f L Hf]; intros s x F n e pred act Q Hv Hpl Hnd Hside H64 Hn Hlen HQ.
  - apply wp_ret. eapply HQ; [by rewrite Z.add_0_r|by rewrite app_nil_r].
  - assert (in_u64 q) as Hq64 by (eapply H64; by left). apply NoDup_cons in Hnd as [Hi Hnd]. cbn in Hi.
    cbn [mbind list_bind] in *. rewrite length_app in *. set (tail := length _) in *. unfold trade_messages at 1. cbn [e_type trade_event e_order_id e_maker_id e_price e_qty e_side e_leaves Z.eqb app number for_each].
    cbn in Hlen. wp_step. eapply (wp_match _ _ i q q p); [done|done|done|lia|exists (opposite side); apply swept_here|lia|done|]. intros s1 e1 V1 P1. wp_step.
    eapply (wp_done _ i p 0 _ 0); [exact V1|lia|lia| |].
    { left. split; [|done]. exists (opposite side), p. rewrite Z.sub_diag. apply list_elem_of_fmap. exists (i, q). cbn. rewrite decide_True by done. split; [done|apply swept_here]. }
    intros s2 V2. replace (n + 1 + 1 + 1) with (n + 2 + 1) by lia. apply (IH s2 x F (n + 2) e1 pred (act ++ [mkTrade i p q])).
    + replace (n + 2) with (n + 1 + 1) by lia. eapply view_lists; [|exact V2]. intros sd p'. symmetry. apply swept_whole; [done|]. intros. apply Hside; [done|left].
    + done.
    + done.
    + intros. apply Hside; [done|by right].
    + intros. eapply H64. by right.
    + lia.
    + lia.
    + intros s3 e3 V3 P3. eapply HQ; [|by rewrite <- app_assoc in P3]. change (length (trade_messages (trade_event sym taker i side p q 0)) + tail)%nat with (2 + tail)%nat. replace (n + Z.of_nat (2 + tail)) with (n + 2 + Z.of_nat tail) by lia. exact V3.
  - assert (in_u64 q) as Hq64 by (eapply H64; by left). apply NoDup_cons in Hnd as [Hi Hnd]. cbn in Hi. assert (in_u64 f) by (unfold in_u64 in *; lia).
    cbn [mbind list_bind] in *. unfold trade_messages in *. cbn [e_type trade_event e_order_id e_maker_id e_price e_qty e_side e_leaves] in *. rewrite (proj2 (Z.eqb_neq (q - f) 0)) in * by lia.
    cbn [app length number] in *. apply wp_for_one. eapply (wp_match _ _ i q f p); [done|done|done|lia|exists (opposite side); apply swept_here|lia|done|]. intros s1 e1 V1 P1.
    eapply HQ; [|exact P1]. eapply view_lists; [|exact V1]. intros sd p'. symmetry. apply swept_part; [done|]. intros. apply Hside; [done|left].
Qed.

(** What the commands of a day are: of their types, without self-trade prevention, no market order fill-or-kill, no modify
    to price zero (the messages cannot say it), no modify that trades. *)
Record valid x c : Prop := {
  D_qty : in_u64 (c_qty c);
  D_price : in_i64 (c_price c);
  D_plain : plain_order c;
  D_modify : c_type c = Modify -> c_price c <> 0 /\ forall x' es, RB.modify x c = Some (x', es) -> no_trades es;
}.
Lemma market_cfg x x' : market x -> RB.wf x' -> RB.same_cfg x x' -> (forall sd p i q, (i, q) ∈ lists x' sd p -> in_u64 q /\ i <> 0) -> market x'.
Proof. intros [H1 H2 H3 H4 H5] Hw (_ & C2 & C3 & _ & C5) Hq. split; [done|congruence..|done]. Qed.
Lemma market_in_band x : market x -> RB.min_price_ x <= RB.max_price_ x.
Proof. intros H. rewrite (K_min _ H), (K_max _ H). unfold kLevels. lia. Qed.
Lemma swept_qty x x1 sd : market x -> forall sym taker side es, sd = opposite side -> eats sym taker side (RB.for_each_order x sd) es (RB.for_each_order x1 sd) -> RB.wf x1 ->
  RB.book x1 (opposite sd) = RB.book x (opposite sd) -> forall sd' p i q, (i, q) ∈ lists x1 sd' p -> exists q0, q <= q0 /\ (i, q0) ∈ lists x sd' p.
Proof.
  intros Hx sym taker side es -> He Hw Hb sd' p i q. rewrite (swept_after x x1 (opposite side)) by done. unfold swept. case_decide as Hs; [subst|intros Hin; by exists q].
  intros Hin%at_elem. destruct (eats_orders _ _ _ _ _ _ He _ _ _ Hin) as (q0 & Hle & Hin0). exists q0. split; [done|]. rewrite lists_at by apply Hx. by apply at_elem.
Qed.

Lemma arrival_market x c x' ev es : market x -> in_u64 (c_qty c) -> plain_order c -> RB.add x c = (x', ev :: es) -> e_type ev <> Rejected -> market x'.
Proof.
  intros Hx Hq Hp Ha Hr. assert (0 <= c_qty c) as Hq0 by (unfold in_u64 in Hq; lia).
  destruct (arrival_shape x c x' ev es (K_wf _ Hx) (market_in_band _ Hx) Hq0 (K_stp _ Hx) Hp Ha Hr) as (x1 & es1 & es2 & -> & _ & _ & Hw1 & Hc1 & He & Hb & Hl & Hend).
  destruct (RB.add_wf x c (K_wf _ Hx) (market_in_band _ Hx) Hq0) as [Hw' Hcfg]. rewrite Ha in Hw', Hcfg. eapply market_cfg; [done..|].
  assert (forall sd p i q, (i, q) ∈ lists x1 sd p -> in_u64 q /\ i <> 0) as H1.
  { intros sd p i q Hin. destruct (lists_facts _ _ _ _ _ Hw1 Hin) as (_ & _ & ?). edestruct (swept_qty x x1) as (q0 & ? & Hin0); [done|done|exact He|done|by destruct (c_side c)|exact Hin|].
    destruct (K_orders _ Hx _ _ _ _ Hin0). unfold in_u64 in *. split; [lia|done]. }
  destruct Hend as [->|[Hrest Hcx]]; [done|]. intros sd p i q. cbn [fst]. rewrite (lists_rest _ _ _ _ _ _ _ _ _ _ Hw1 Hrest Hcx Hc1). unfold p_add. intros [Hin|Hin]%elem_of_app; [by eapply H1|].
  case_decide; [|by apply elem_of_nil in Hin]. apply list_elem_of_singleton in Hin as [= -> ->]. destruct (accepted_facts _ _ _ _ _ Hq0 Hx Ha Hr). unfold in_u64 in *. split; [lia|done].
Qed.

(** An arrival, to its end. *)
Lemma wp_arrives c x' ev es s x n e (Q : unit -> t -> Prop) : view s x (lists x) n e -> market x -> settled e -> valid x c -> RB.add x c = (x', ev :: es) -> e_type ev <> Rejected ->
  known c x' (ev :: es) -> 0 <= n -> n + Z.of_nat (length (arrival_messages c x' (ev :: es))) < 18446744073709551616 ->
  (forall s' e', view s' x' (lists x') (n + Z.of_nat (length (arrival_messages c x' (ev :: es)))) e' -> settled e' -> Q tt s') ->
  wp False (records (number (n + 1) (arrival_messages c x' (ev :: es)))) Q s.
Proof.
  intros Hv Hx He [Hq64 Hp64 Hpl _] Ha Hr Hk Hn Hlen HQ. assert (0 <= c_qty c) as Hq by (unfold in_u64 in Hq64; lia).
  destruct (accepted_facts _ _ _ _ _ Hq Hx Ha Hr) as (_ & _ & Hfresh & Hband).
  destruct (arrival_shape x c x' ev es (K_wf _ Hx) (market_in_band _ Hx) Hq (K_stp _ Hx) Hpl Ha Hr) as (x1 & es1 & es2 & -> & Hno & Hev & Hw1 & Hc1 & Heats & Hb & Hl & Hend).
  pose proof (arrival_market _ _ _ _ _ Hx Hq64 Hpl Ha Hr) as Hx'.
  assert ((ev :: es1 ++ es2) ≫= trade_messages = es1 ≫= trade_messages) as Hmsgs.
  { cbn [mbind list_bind]. unfold trade_messages at 1. rewrite Hev. by apply shown_trades. }
  assert (left_of c (ev :: es1 ++ es2) = c_qty c - traded es1) as Hleft.
  { unfold left_of. change (ev :: es1 ++ es2) with ([ev] ++ es1 ++ es2). rewrite traded_app, traded_more by done. assert (traded [ev] = 0) as -> by (unfold traded; rewrite filter_cons, Hev; done). lia. }
  assert (trades_of (ev :: es1 ++ es2) = trades_of es1) as Htr.
  { change (ev :: es1 ++ es2) with ([ev] ++ es1 ++ es2). rewrite !Exchange.trades_cat, (no_trades_of es2 Hno), app_nil_r. unfold trades_of at 1. cbn. by rewrite Hev. }
  unfold arrival_messages in *. rewrite Hmsgs in *. set (body := es1 ≫= trade_messages) in *. cbn [length number for_each] in *. rewrite length_app in Hlen, HQ. cbn [length] in Hlen, HQ.
  wp_step. eapply (wp_received c x' ev (es1 ++ es2)); [done|done|done|lia|done..|]. intros s1 e1 V1 P1. rewrite number_app. apply wp_for_app. rewrite Htr in P1.
  assert (forall p i q, (p, i, q) ∈ RB.for_each_order x (opposite (c_side c)) -> in_u64 q) as Hall.
  { intros p i q Hin. eapply (K_orders _ Hx (opposite (c_side c)) p i). rewrite lists_at by apply Hx. by apply at_elem. }
  assert (forall sd p i q, (i, q) ∈ lists x1 sd p -> i <> c_order_id c) as Hne.
  { intros sd p i q Hin ->. apply (lists_index x1) in Hin; [|done]. apply RB.contains_false in Hc1. congruence. }
  eapply (wp_trades _ _ _ _ _ _ Heats s1 x' (lists x) (n + 1)); [|exact P1|apply listing_ids, Hx| |exact Hall|lia|fold body; lia|].
  { eapply view_lists; [|exact V1]. intros. apply swept_lists, Hx. }
  { intros sd p i q Hs Hi Hin. apply Hs. by eapply listed_side; [apply Hx| |]. }
  fold body. intros s2 e2 V2 P2. cbn [app] in P2. replace (n + 1 + 1 + Z.of_nat (length body)) with (n + 1 + Z.of_nat (length body) + 1) by lia. set (k := n + 1 + Z.of_nat (length body)) in *.
  assert (view s2 x' (lists x1) k e2) as V3 by (eapply view_lists; [|exact V2]; intros; apply swept_after; [done|by destruct (c_side c)]).
  cbn [number]. apply wp_for_one. unfold ending. rewrite Hleft. replace (n + Z.of_nat (S (length body + 1))) with (k + 1) in HQ by lia.
  destruct Hend as [->|[Hrest Hcx]].
  - rewrite Hc1. eapply wp_done; [exact V3|done|lia| |].
    { right. intros sd p q Hin. by eapply Hne. }
    intros s4 V4. apply (HQ s4 e2); [|intros _; destruct P2; congruence]. eapply view_lists; [|exact V4]. intros. symmetry. apply p_del_fresh. intros q Hin. by eapply Hne.
  - rewrite Hcx. assert ((c_order_id c, c_qty c - traded es1) ∈ lists x' (c_side c) (c_price c)) as Hin.
    { rewrite (lists_rest _ _ _ _ _ _ _ _ _ _ Hw1 Hrest Hcx Hc1). unfold p_add. rewrite decide_True by done. apply elem_of_app. right. by left. }
    destruct (lists_find x' _ _ _ _ (K_wf _ Hx') Hin) as (v & Hv1 & Hv2 & Hv3).
    eapply wp_rests; [exact V3|exact P2|done|lia| |by eapply (K_orders _ Hx')| |exact Hv1|exact Hv2|exact Hv3|].
    { intros sd p q Hin'. by eapply Hne. }
    { assert (RB.index_ x' !! c_order_id c = Some (RB.mkLoc (c_side c) (c_price c))) as Hi by (by eapply lists_index; [apply Hx'|]).
      apply (RB.wf_index x' (K_wf _ Hx')) in Hi. apply RB.keys_prices, (RB.wf_band x' (K_wf _ Hx')) in Hi. rewrite (K_min _ Hx'), (K_max _ Hx') in Hi. unfold in_band. cbn in Hi. lia. }
    intros s4 e4 V4 H4. eapply HQ; [|exact H4]. eapply view_lists; [|exact V4]. intros. by apply (lists_rest _ _ _ _ _ _ _ _ _ _ Hw1 Hrest Hcx Hc1).
Qed.

Lemma step_cases x c x' es : market x -> 0 <= c_qty c -> RB.step x c = Some (x', es) -> exists ev es', es = ev :: es' /\
  (e_type ev = Rejected /\ x' = x \/
   match c_type c with
   | NewOrder => e_type ev = Accepted /\ RB.add x c = (x', es)
   | Cancel => e_type ev = Canceled /\ es' = [] /\ RB.cancel x c = Some (x', es)
   | Modify => e_type ev = Modified /\ RB.modify x c = Some (x', es)
   end).
Proof.
  intros Hx Hq. unfold RB.step. destruct (c_type c).
  - intros [= Ha]. pose proof (add_outcome x c (K_wf _ Hx) (market_in_band _ Hx) Hq) as Ho. rewrite Ha in *. cbn [fst snd] in Ho.
    inversion Ho; subst; do 2 eexists; (split; [done|]); [by left|right..]; (split; [done|congruence]).
  - intros Hc. pose proof Hc as Hc'. unfold RB.cancel in Hc. destruct (RB.index_ x !! c_order_id c) as [l|]; [|injection Hc as <- <-; do 2 eexists; split; [done|by left]].
    destruct (RB.deref x l _) as [o|]; [|done]. cbn [mbind option_bind] in Hc. destruct (RB.remove x l _) as [x1|]; [|done]. injection Hc as <- <-. do 2 eexists. split; [done|by right].
  - intros Hm. pose proof Hm as Hm'. unfold RB.modify in Hm. destruct (c_qty c =? 0); [injection Hm as <- <-; do 2 eexists; split; [done|by left]|].
    destruct (RB.index_ x !! c_order_id c) as [l|]; [|injection Hm as <- <-; do 2 eexists; split; [done|by left]].
    destruct (RB.out_of_band x _); [injection Hm as <- <-; do 2 eexists; split; [done|by left]|].
    assert (exists es', es = modified_event (RB.symbol_ x) (c_order_id c) (RB.l_side l) (c_price c) (c_qty c) :: es') as [es' ->]; [|do 2 eexists; split; [done|by right]].
    destruct (RB.deref x l _) as [o|]; [|done]. cbn [mbind option_bind] in Hm. destruct (_ && _).
    + destruct (RB.map_find _ _); [|done]. injection Hm as _ <-. by eexists.
    + destruct (RB.remove x l _) as [x1|]; [|done]. cbn [mbind option_bind] in Hm. destruct (RB.match_ _ _ _ _ _ _ _) as [[[x2 left_] stop] es2].
      destruct (left_ =? 0); [injection Hm as _ <-; by eexists|]. destruct stop; [injection Hm as _ <-; by eexists|]. destruct (RB.rest _ _ _ _ _ _). injection Hm as _ <-. by eexists.
Qed.

Lemma step_market x c x' es : market x -> valid x c -> RB.step x c = Some (x', es) -> market x'.
Proof.
  intros Hx Hd Hs. assert (0 <= c_qty c) as Hq by (pose proof (D_qty _ _ Hd) as H; unfold in_u64 in H; lia).
  destruct (RB.step_ok x c (K_wf _ Hx) (market_in_band _ Hx) Hq) as (x1 & es1 & Hs1 & Hw & Hcfg). rewrite Hs in Hs1. injection Hs1 as <- <-.
  destruct (step_cases x c x' es Hx Hq Hs) as (ev & es' & -> & [[_ ->]|Hc]); [done|]. destruct (c_type c) eqn:Ety.
  - destruct Hc as [Hev Ha]. eapply arrival_market; [done|apply Hd|apply Hd|exact Ha|by rewrite Hev].
  - destruct Hc as (Hev & -> & Hc). eapply market_cfg; [done..|]. unfold RB.cancel in Hc. destruct (RB.index_ x !! c_order_id c) as [l|] eqn:Hl; [|by injection Hc as _ <-].
    destruct (RB.deref x l _) as [o|]; [|done]. cbn [mbind option_bind] in Hc. destruct (RB.remove x l _) as [x1|] eqn:Hr; [|done]. injection Hc as -> _.
    intros sd p i q. rewrite (lists_remove _ _ _ _ _ _ (K_wf _ Hx) Hl Hr). intros [_ Hin]%list_elem_of_filter. by eapply (K_orders _ Hx).
  - destruct Hc as (Hev & Hm). eapply market_cfg; [done..|]. destruct (D_modify _ _ Hd Ety) as [_ Hno]. pose proof (Hno _ _ Hm) as Hno'. apply Forall_cons in Hno' as [_ Hno'].
    destruct (modify_quiet _ _ _ _ _ (K_wf _ Hx) (K_stp _ Hx) Hq Hm Hev Hno') as (l & o & Hix & _ & _ & _ & _ & _ & _ & Hl). intros sd p i q. rewrite Hl. case_match.
    + intros ([i0 q0] & E & Hin)%list_elem_of_fmap. cbn in E. destruct (K_orders _ Hx _ _ _ _ Hin). case_decide; injection E as -> ->; [split; [apply Hd|congruence]|done].
    + unfold p_add. intros [[_ Hin]%list_elem_of_filter|Hin]%elem_of_app; [by eapply (K_orders _ Hx)|]. case_decide; [|by apply elem_of_nil in Hin].
      apply list_elem_of_singleton in Hin as [= -> ->]. split; [apply Hd|].
      destruct (lists_resting x _ l (K_wf _ Hx) Hix) as (o' & _ & Hin'). by eapply (K_orders _ Hx).
Qed.

Lemma wp_published c x' es s x n e (Q : unit -> t -> Prop) : view s x (lists x) n e -> market x -> settled e -> valid x c -> RB.step x c = Some (x', es) ->
  (c_type c = NewOrder -> publish c x' es <> [] -> known c x' es) -> 0 <= n -> n + Z.of_nat (length (publish c x' es)) < 18446744073709551616 ->
  (forall s' e', view s' x' (lists x') (n + Z.of_nat (length (publish c x' es))) e' -> settled e' -> Q tt s') ->
  wp False (records (number (n + 1) (publish c x' es))) Q s.
Proof.
  intros Hv Hx He Hd Hs Hk Hn Hlen HQ. assert (0 <= c_qty c) as Hq by (pose proof (D_qty _ _ Hd) as H; unfold in_u64 in H; lia).
  destruct (step_cases x c x' es Hx Hq Hs) as (ev & es' & -> & [[Hev ->]|Hc]); unfold publish in *.
  { rewrite bool_decide_eq_true_2 in * by done. cbn [number for_each length] in *. apply wp_ret. eapply HQ; [|done]. by rewrite Z.add_0_r. }
  rewrite (bool_decide_eq_false_2 (e_type ev = Rejected)) in * by (destruct (c_type c), Hc as [-> _]; done). destruct (c_type c) eqn:Ety.
  - destruct Hc as [Hev Ha]. eapply wp_arrives; [done..|by rewrite Hev|by apply Hk|done|done|done].
  - destruct Hc as (Hev & -> & Hc). cbn [length number] in *. apply wp_for_one. eapply wp_cancelled; [done..|lia|done|done|done].
  - destruct Hc as (Hev & Hm). destruct (D_modify _ _ Hd Ety) as [Hp Hno]. pose proof (Hno _ _ Hm) as Hno'. apply Forall_cons in Hno' as [_ Hno'].
    destruct (modify_quiet _ _ _ _ _ (K_wf _ Hx) (K_stp _ Hx) Hq Hm Hev Hno') as (l & o & _ & _ & _ & _ & _ & Hc & -> & _).
    unfold modify_messages, left_of in *. rewrite Hc in *. assert ([ev] ≫= trade_messages = []) as Hm0 by (cbn; unfold trade_messages; by rewrite Hev).
    assert (traded [ev] = 0) as Ht0 by (unfold traded; rewrite filter_cons, Hev; done). rewrite Hm0, Ht0, Z.sub_0_r in *. cbn [app length number] in *. apply wp_for_one.
    eapply wp_changed; [done..|lia|done|apply Hd|done|done|exact Hm|done|done|done].
Qed.

(** ** A session *)

(** Every command is valid where it is carried out, and what the first pass learnt of the arrivals is true. *)
Fixpoint honest x (cs : list Command) : Prop :=
  match cs with
  | [] => True
  | c :: cs => valid x c /\ forall x' es, RB.step x c = Some (x', es) -> (c_type c = NewOrder -> publish c x' es <> [] -> known c x' es) /\ honest x' cs
  end.
Lemma wp_session cs : forall s x x' ls n e (Q : unit -> t -> Prop), view s x (lists x) n e -> market x -> settled e -> honest x cs -> session x cs = Some (x', ls) ->
  0 <= n -> n + Z.of_nat (length (concat ls)) < 18446744073709551616 ->
  (forall s' e', view s' x' (lists x') (n + Z.of_nat (length (concat ls))) e' -> settled e' -> Q tt s') ->
  wp False (records (number (n + 1) (concat ls))) Q s.
Proof.
  induction cs as [|c cs IH]; intros s x x' ls n e Q Hv Hx He Hh Hs Hn Hlen HQ; cbn [session] in Hs.
  - injection Hs as <- <-. apply wp_ret. eapply HQ; [|done]. by rewrite Z.add_0_r.
  - destruct Hh as [Hd Hh]. destruct (RB.step x c) as [[x1 es]|] eqn:Hst; [|done]. destruct (Hh _ _ eq_refl) as [Hk Hh'].
    cbn [mbind option_bind] in Hs. destruct (session x1 cs) as [[x2 l]|] eqn:Hs2; [|done]. injection Hs as <- <-. cbn [concat] in *. rewrite length_app in *. rewrite number_app.
    apply wp_for_app. eapply wp_published; [done..|lia|]. intros s1 e1 V1 H1. replace (n + 1 + Z.of_nat (length (publish c x1 es))) with (n + Z.of_nat (length (publish c x1 es)) + 1) by lia.
    eapply (IH s1 x1); [done|by eapply step_market|done..|lia|lia|]. intros s2 e2 V2 H2. eapply HQ; [|done].
    replace (n + Z.of_nat (length (publish c x1 es) + length (concat l))) with (n + Z.of_nat (length (publish c x1 es)) + Z.of_nat (length (concat l))) by lia. done.
Qed.

(** ** The snapshot *)

(** The orders of one side of the truth book go into an engine that has those before them. *)
Record loading x y sd (L : Listing) : Prop := {
  L_market : market y;
  L_cfg : RB.same_cfg x y;
  L_here : forall p, lists y sd p = at_px p L;
  L_there : forall p q i, (i, q) ∈ lists y (opposite sd) p -> (i, q) ∈ lists x (opposite sd) p;
}.
Lemma at_snoc p p0 i q L : at_px p (L ++ [(p0, i, q)]) = at_px p L ++ (if decide (p0 = p) then [(i, q)] else []).
Proof. rewrite at_px_app. unfold at_px at 2. cbn. by case_decide. Qed.
Lemma loads x y sd L p i q w L2 : market x -> loading x y sd L -> RB.for_each_order x sd = L ++ (p, i, q) :: L2 -> RB.order_count y < RB.capacity_ y ->
  Quiet.joins y (new_command i sd p q w) /\ loading x (Quiet.joined y (new_command i sd p q w)) sd (L ++ [(p, i, q)]) /\
  RB.order_count (Quiet.joined y (new_command i sd p q w)) = RB.order_count y + 1 /\
  forall p', lists (Quiet.joined y (new_command i sd p q w)) (opposite sd) p' = lists y (opposite sd) p'.
Proof.
  intros Hx [Hy Hc Hh Ht] HL Hroom. pose proof Hc as (C1 & C2 & C3 & C4 & C5).
  assert ((i, q) ∈ lists x sd p) as Hin by (rewrite lists_at by apply Hx; apply at_elem; rewrite HL; apply elem_of_app; right; by left).
  destruct (lists_facts _ _ _ _ _ (K_wf _ Hx) Hin) as (Hp & Hpb & Hq). destruct (K_orders _ Hx _ _ _ _ Hin) as [Hq64 Hid].
  pose proof (listing_ids x sd (K_wf _ Hx)) as Hnd. rewrite HL in Hnd. unfold lids in Hnd. rewrite fmap_app, fmap_cons in Hnd. apply NoDup_app in Hnd as (_ & Hnd & _).
  assert (RB.index_ y !! i = None) as Hnew.
  { destruct (RB.index_ y !! i) as [l|] eqn:E; [|done]. exfalso. destruct (lists_resting y i l (K_wf _ Hy) E) as (o & _ & Ho). destruct (decide (RB.l_side l = sd)) as [Hs|Hs].
    - rewrite Hs, Hh in Ho. apply at_elem in Ho. apply (Hnd i); [|by left]. apply list_elem_of_fmap. by exists (RB.l_price l, i, RB.o_qty o).
    - assert (RB.l_side l = opposite sd) as Hs' by (by destruct (RB.l_side l), sd). rewrite Hs' in Ho. apply Ht in Ho. apply lists_index in Hin, Ho; [|apply Hx..]. rewrite Hin in Ho. injection Ho as Ho _. by destruct sd. }
  assert (Quiet.joins y (new_command i sd p q w)) as Hj.
  { split; cbn; try done; [by rewrite C2, C3|]. intros p' Hp'. apply prices_lists in Hp'; [|apply Hy]. destruct (lists y (opposite sd) p') as [|[i' q'] l] eqn:E; [done|].
    assert ((i', q') ∈ lists x (opposite sd) p') as Hin' by (apply Ht; rewrite E; by left). destruct (lists_facts _ _ _ _ _ (K_wf _ Hx) Hin') as (Hpx & _).
    destruct sd; cbn in *; [pose proof (RB.wf_uncrossed x (K_wf _ Hx) _ _ Hp Hpx)|pose proof (RB.wf_uncrossed x (K_wf _ Hx) _ _ Hpx Hp)]; unfold RB.in_range; lia. }
  destruct (Quiet.step_joins y _ (K_wf _ Hy) Hj) as (_ & Hw' & Hcfg'). split; [done|]. split; [split|split].
  - eapply market_cfg; [exact Hy|done|done|]. intros sd' p' i' q'. rewrite lists_joined by apply Hy. unfold p_add. intros [H1|H1]%elem_of_app; [by eapply (K_orders _ Hy)|].
    case_decide; [|by apply elem_of_nil in H1]. apply list_elem_of_singleton in H1 as [= -> ->]. done.
  - by eapply RB.same_cfg_trans.
  - intros p'. rewrite lists_joined, at_snoc by apply Hy. unfold p_add. cbn. rewrite Hh. by destruct (decide (p = p')) as [->|]; [rewrite decide_True|rewrite decide_False by naive_solver].
  - intros p' q' i'. rewrite lists_joined by apply Hy. unfold p_add. cbn. rewrite decide_False, app_nil_r by (intros [? _]; by destruct sd). apply Ht.
  - unfold RB.order_count, Quiet.joined. rewrite RB.index_set_book, map_size_insert_None by done. lia.
  - intros p'. rewrite lists_joined by apply Hy. unfold p_add. cbn. by rewrite decide_False, app_nil_r by (intros [? _]; by destruct sd).
Qed.
Definition load_one (sd : Side) (z : Z * TruthBook.Order) : StateM.M (t (Bk := Bk)) unit :=
  ok ← is_in_band z.1; if (TruthBook.qty z.2 =? 0) || negb ok then mret tt else add_order opt sd z.1 z.2;; mret tt.
Lemma wp_load x sd F n e (os : list (Z * TruthBook.Order)) : forall s y L (Q : unit -> t -> Prop), market x -> view s y F n e -> loading x y sd L ->
  RB.for_each_order x sd = L ++ ((fun z : Z * TruthBook.Order => (z.1, TruthBook.id z.2, TruthBook.qty z.2)) <$> os) ->
  RB.order_count y + Z.of_nat (length os) <= RB.capacity_ x ->
  (forall s' y', view s' y' F n e -> loading x y' sd (RB.for_each_order x sd) -> RB.order_count y' = RB.order_count y + Z.of_nat (length os) ->
     (forall p, lists y' (opposite sd) p = lists y (opposite sd) p) -> Q tt s') ->
  wp False (for_each os (load_one sd)) Q s.
Proof.
  induction os as [|[p o] os IH]; intros s y L Q Hx Hv HL HF Hroom HQ.
  - apply wp_ret. apply (HQ s y); [done| |cbn; lia|done]. rewrite app_nil_r in HF. by rewrite HF.
  - cbn [fmap list_fmap length fst snd] in *. cbn [for_each]. wp_step. unfold load_one, is_in_band. wp_step. wp_step.
    assert ((TruthBook.id o, TruthBook.qty o) ∈ lists x sd p) as Hin by (rewrite lists_at by apply Hx; apply at_elem; rewrite HF; apply elem_of_app; right; by left).
    destruct (lists_facts _ _ _ _ _ (K_wf _ Hx) Hin) as (_ & Hp & Hq). rewrite (K_min _ Hx), (K_max _ Hx) in Hp. rewrite (E_min _ _ (W_eng _ _ _ _ _ Hv)).
    assert (in_band 0 p = true) as Hband by (unfold in_band; lia). cbn [fst snd]. rewrite Hband, (proj2 (Z.eqb_neq (TruthBook.qty o) 0)) by lia. cbn [negb orb]. wp_step. unfold add_order.
    wp_step. eapply wp_asks_owner; [done|]. intros w s1 V1. destruct (L_cfg _ _ _ _ HL) as (_ & _ & _ & C4 & _).
    destruct (loads x y sd L p (TruthBook.id o) (TruthBook.qty o) w _ Hx HL HF ltac:(lia)) as (Hj & HL' & Hcnt & Hopp).
    destruct (Quiet.step_joins y _ (K_wf _ (L_market _ _ _ _ HL)) Hj) as (Hst & _).
    eapply (wp_engine (new_command (TruthBook.id o) sd p (TruthBook.qty o) w)); [done|apply HL|cbn; unfold kLevels in Hp; unfold in_i64; lia|cbn; lia|done|done|done|exact Hst|].
    intros s2 V2. wp_step. eapply (IH s2 _ (L ++ [(p, TruthBook.id o, TruthBook.qty o)])); [done|exact V2|done|by rewrite <- app_assoc|lia|].
    intros s3 y3 V3 H3 Hc3 Ho3. eapply HQ; [exact V3|done|lia|]. intros p'. by rewrite Ho3, Hopp.
Qed.

Lemma view_alike s x y F n e : anon y = anon x -> view s y F n e -> view s x F n e.
Proof. intros Ha [[(b & z & Hb & Hr & Hz) ? ?] ? ? ? ? ? ?]. split; try done. split; try done. exists b, z. split_and!; [done..|congruence]. Qed.
(** The empty book of the same configuration. *)
Definition empty_book : RB.t := RB.make 0 exchange_config.
Lemma empty_market : market empty_book.
Proof. split; [by apply RB.make_wf|done..|]. intros [] p i q Hin; by apply elem_of_nil in Hin. Qed.
Lemma empty_lists sd p : lists empty_book sd p = [].
Proof. by destruct sd. Qed.

Lemma wp_rebuild s x n e (Q : unit -> t -> Prop) : market x -> RB.same_cfg empty_book x -> view s empty_book (lists x) n e ->
  (forall s', view s' x (lists x) n e -> Q tt s') -> wp False (rebuild_from_truth opt) Q s.
Proof.
  intros Hx Hcfg Hv HQ. unfold rebuild_from_truth. wp_step. eapply wp_tick; [skip..|done|]. intros s1 V1. eapply wp_book; [done|]. intros b Ho _ _.
  wp_step. apply wp_lift; [|by rewrite Ho]. rewrite Ho. intros ? [= <-]. wp_step. apply wp_lift; [|by rewrite Ho]. rewrite Ho. intros ? [= <-].
  change (RB.for_each_order empty_book Buy) with ([] : list (Z * Z * Z)). change (RB.for_each_order empty_book Sell) with ([] : list (Z * Z * Z)). cbn [app fmap list_fmap for_each].
  wp_step. wp_step. pose proof (RB.wf_cap x (K_wf _ Hx)) as Hcap. rewrite (count_orders x (K_wf _ Hx)) in Hcap.
  assert (RB.same_cfg x empty_book) as Hcfg' by (destruct Hcfg as (? & ? & ? & ? & ?); by split_and!).
  assert (forall s sd y F, view s y F n e -> tracks (truth_ s) (lists x) -> forall R : unit -> t -> Prop,
    (forall os, (fun z : Z * TruthBook.Order => (z.1, TruthBook.id z.2, TruthBook.qty z.2)) <$> os = RB.for_each_order x sd -> wp False (for_each os (load_one sd)) R s) ->
    wp False (tr ← gets truth_; os ← lift (TruthBook.for_each tr sd); for_each os (load_one sd)) R s) as Hside.
  { intros s2 sd y F V2 Ht R HR. do 3 wp_step. destruct (tracks_for_each _ x sd (K_wf _ Hx) Ht) as (os & Hos & He). apply wp_lift; [|by rewrite Hos]. rewrite Hos. intros ? [= <-]. by apply HR. }
  wp_step. eapply Hside; [done|apply V1|]. intros os1 H1.
  apply (wp_load x Buy (lists x) n e os1 s1 empty_book []); [done|done| |by rewrite H1| |].
  { split; [apply empty_market|done|by intros p; rewrite empty_lists|]. intros p q i. rewrite empty_lists. by intros ?%elem_of_nil. }
  { rewrite <- H1, length_fmap in Hcap. change (RB.order_count empty_book) with 0. lia. }
  intros s2 y V2 L2 C2 O2. wp_step. eapply Hside; [done|apply V2|]. intros os2 H2.
  apply (wp_load x Sell (lists x) n e os2 s2 y []); [done|done| |by rewrite H2| |].
  { split; [apply L2|apply L2|intros p; rewrite (O2 p : lists y Sell p = _); apply empty_lists|]. intros p q i. cbn [opposite]. rewrite (L_here _ _ _ _ L2), lists_at by apply Hx. done. }
  { rewrite <- H1, <- H2, !length_fmap in Hcap. rewrite C2. change (RB.order_count empty_book) with 0. lia. }
  intros s3 z V3 L3 _ O3. apply wp_ret. apply HQ. eapply view_alike; [|exact V3]. apply anon_lists; [apply Hx|apply L3|apply L3|].
  intros [] p; [rewrite (O3 p : lists z Buy p = _), (L_here _ _ _ _ L2)|rewrite (L_here _ _ _ _ L3)]; by rewrite lists_at by apply Hx.
Qed.

(** Before the end of the snapshot: no engine yet. *)
Record waiting s F (loaded : bool) : Prop := {
  B_eng : min_px_ (eng s) = 0 /\ AccountsLaws.down (accounts_ (eng s));
  B_truth : tracks (truth_ s) F;
  B_fresh : loaded = false -> truth_ s = TruthBook.make;
  B_feed : feed s = mkFeed loaded false 0 0 [];
  B_ep : ep_active_ (ep s) = false;
  B_need : need_rebuild_ (checks s) = false;
  B_fills : modify_fills_ s = ∅;
  B_st : good (st_ s) false;
}.
Lemma make_tracks : tracks TruthBook.make (fun _ _ => []).
Proof. split. exists []. split; [apply TruthBookLaws.rel_make|done]. Qed.
Lemma make_waiting accounts : AccountsLaws.down accounts -> waiting (make accounts) (fun _ _ => []) false.
Proof. intros Ha. split; try done. apply make_tracks. Qed.

Lemma wp_snap i p q sd s F b (Q : unit -> t -> Prop) : waiting s F b -> (forall sd' p' q', (i, q') ∉ F sd' p') -> in_u64 q ->
  (b = false -> forall sd p, F sd p = []) ->
  (forall s', waiting s' (p_add sd p i q F) true -> Q tt s') -> wp False (on_record opt 2 (msg SnapOrder i 0 p q sd 0 0)) Q s.
Proof.
  intros Hw Hi Hq Hb HQ. unfold on_record. wp_step. unfold tick, count. wp_step. cbn [on]. change (kind (msg SnapOrder i 0 p q sd 0 0) =? SnapOrder) with true. cbn iota.
  unfold on_snap_order. wp_step. wp_step. cbn [feed set_st]. rewrite (B_feed _ _ _ Hw). cbn [synced_ loading_snap_ negb when]. wp_step.
  assert (good (bump Stats.records 1 (st_ s)) false) as Hst by (apply good_bump; [skip..|apply Hw]).
  eapply (wp_mono _ _ (fun _ s' => waiting s' F true)).
  - destruct b; cbn [negb when].
    + wp_step. destruct Hw. by split.
    + wp_step. wp_step. wp_step. destruct Hw as [? ? Hf Hfeed ? ? ? ?]. split; try done; cbn.
      * rewrite Hf by done. eapply tracks_ext; [apply make_tracks|]. intros. by rewrite Hb.
      * by rewrite Hfeed.
  - intros _ s1 H1. wp_step. unfold truth_step. do 3 wp_step.
    change (rid (msg SnapOrder i 0 p q sd 0 0)) with i. change (side_of (msg SnapOrder i 0 p q sd 0 0)) with (if Side_to_Z sd =? 0 then Buy else Sell). rewrite side_msg.
    change (rpx (msg SnapOrder i 0 p q sd 0 0)) with p. change (rq (msg SnapOrder i 0 p q sd 0 0)) with q.
    destruct (tracks_add _ _ i sd p q (Inference.ts (msg SnapOrder i 0 p q sd 0 0)) (B_truth _ _ _ H1) Hi Hq) as (b' & Hb1 & Hb2). apply wp_lift; [|by rewrite Hb1]. rewrite Hb1. intros ? [= <-].
    repeat wp_step. apply HQ. destruct H1. by split.
Qed.

(** All of them. *)
Definition snap_messages (sd : Side) (L : Listing) : list Rec := (fun y : Z * Z * Z => msg SnapOrder y.1.2 0 y.1.1 y.2 sd 0 0) <$> L.
Lemma wp_snaps x sd L2 : forall L s F b (Q : unit -> t -> Prop), market x -> RB.for_each_order x sd = L ++ L2 -> waiting s F b -> (b = false -> forall sd p, F sd p = []) ->
  (forall p, F sd p = at_px p L) -> (forall p i q, (i, q) ∈ F (opposite sd) p -> (i, q) ∈ lists x (opposite sd) p) ->
  (forall s' F' b', waiting s' F' b' -> (b' = false -> forall sd p, F' sd p = []) -> (forall p, F' sd p = lists x sd p) -> (forall p, F' (opposite sd) p = F (opposite sd) p) -> Q tt s') ->
  wp False (records (snap_messages sd L2)) Q s.
Proof.
  induction L2 as [|[[p i] q] L2 IH]; intros L s F b Q Hx HL Hw Hb Hh Ht HQ.
  - apply wp_ret. eapply HQ; [done|done| |done]. intros p. rewrite Hh, lists_at by apply Hx. by rewrite HL, app_nil_r.
  - cbn [snap_messages fmap list_fmap for_each fst snd]. wp_step.
    assert ((i, q) ∈ lists x sd p) as Hin by (rewrite lists_at by apply Hx; apply at_elem; rewrite HL; apply elem_of_app; right; by left).
    pose proof (listing_ids x sd (K_wf _ Hx)) as Hnd. rewrite HL in Hnd. unfold lids in Hnd. rewrite fmap_app, fmap_cons in Hnd. apply NoDup_app in Hnd as (_ & Hnd & _).
    eapply wp_snap; [exact Hw| |by eapply (K_orders _ Hx)|done|].
    { intros sd' p' q' Hin'. destruct (decide (sd' = sd)) as [->|Hs].
      - rewrite Hh in Hin'. apply at_elem in Hin'. apply (Hnd i); [|by left]. apply list_elem_of_fmap. by exists (p', i, q').
      - assert (sd' = opposite sd) as -> by (by destruct sd', sd). apply Ht in Hin'. apply lists_index in Hin, Hin'; [|apply Hx..]. rewrite Hin in Hin'. injection Hin' as E _. by destruct sd. }
    intros s1 H1. eapply (IH (L ++ [(p, i, q)])); [done|by rewrite <- app_assoc|exact H1|done| | |].
    + intros p'. rewrite at_snoc. unfold p_add. rewrite Hh. by destruct (decide (p = p')) as [->|]; [rewrite decide_True|rewrite decide_False by naive_solver].
    + intros p' i' q'. unfold p_add. rewrite decide_False, app_nil_r by (intros [E _]; by destruct sd). apply Ht.
    + intros s2 F2 b2 W2 Hb2 H2 Ho2. eapply HQ; [done..|]. intros p'. rewrite Ho2. unfold p_add. by rewrite decide_False, app_nil_r by (intros [E _]; by destruct sd).
Qed.

Lemma wp_seeds x n s F b (Q : unit -> t -> Prop) : market x -> RB.same_cfg empty_book x -> RB.bids_ x <> [] -> RB.asks_ x <> [] -> 0 <= n ->
  waiting s F b -> (forall sd p, F sd p = lists x sd p) -> (forall s' e', view s' x (lists x) n e' -> settled e' -> Q tt s') ->
  wp False (on_record opt 2 (with_seq_no n (msg SnapEnd 0 0 0 0 Buy 0 0))) Q s.
Proof.
  intros Hx Hcfg Hbids Hasks Hn Hw HF HQ. unfold on_record. wp_step. unfold tick, count at 1. wp_step. set (r := with_seq_no _ _).
  assert (waiting (set_st (bump Stats.records 1) s) F b) as H1 by (destruct Hw; split; try done; by apply good_bump; [skip..|]). revert H1. generalize (set_st (bump Stats.records 1) s). clear s Hw. intros s Hw.
  rewrite ReplayLaws.on_snap_end by done. wp_step. wp_step. rewrite (B_feed _ _ _ Hw). cbn [synced_ negb when]. wp_step. unfold seed. wp_step. wp_step. rewrite (B_feed _ _ _ Hw). cbn [pre_snapshot_ snap_seq_].
  do 5 wp_step. cbn [truth_ set_feed]. assert (tracks (truth_ s) (lists x)) as Ht by (eapply tracks_ext; [apply Hw|done]).
  assert (forall sd, RB.book x sd <> [] -> exists p, TruthBook.best (truth_ s) sd = Some p /\ 0 <= p < kLevels) as Hbest.
  { intros sd Hne. rewrite (tracks_best _ x sd (K_wf _ Hx) Ht). destruct (RB.book x sd) as [|[p q] m] eqn:E; [done|]. exists p. split; [done|].
    assert (p ∈ RB.prices (RB.book x sd)) as Hp by (rewrite E; by left). apply (RB.wf_band x (K_wf _ Hx)) in Hp. rewrite (K_min _ Hx), (K_max _ Hx) in Hp. lia. }
  destruct (Hbest Buy Hbids) as (pb & -> & Hpb), (Hbest Sell Hasks) as (pa & -> & Hpa). apply wp_lift; [|done]. intros ? [= <-]. wp_step. apply wp_lift; [|done]. intros ? [= <-].
  assert (exists v, add_px pb pa = Some v) as [v Hv] by (unfold add_px, kLevels in *; eexists; case_match; [done|lia]). wp_step. apply wp_lift; [|by rewrite Hv]. intros _ _.
  wp_step. unfold make_engine. destruct (ba_rep_make 0 (engine_config opt) (ReplayLaws.config_fine opt)) as (bk & Hbk & Hrep). wp_step. apply wp_lift; [|by rewrite Hbk]. rewrite Hbk. intros ? [= <-].
  do 2 wp_step. assert (RB.make 0 (engine_config opt) = empty_book) as Hcfg2 by (unfold engine_config; by rewrite no_stp). rewrite Hcfg2 in Hrep.
  eapply (wp_mono _ _ (fun _ s' => exists e', view s' empty_book (lists x) n e' /\ settled e' /\ pre_snapshot_ (feed s') = [] /\ snap_seq_ (feed s') = n)).
  { unfold emit. destruct Hw as [[W1 W2] W3 _ W4 W5 W6 W7 W8]. assert (settled (ep s)) as He by (unfold settled; congruence).
    wp_step; [wp_step|]; exists (ep s); split_and!; try done; cbn; rewrite ?W4; try done; (split; try done; [split; try done; by exists bk, empty_book|exists n; cbn; by rewrite W4|cbn; by rewrite W5]). }
  intros _ s1 (e1 & V1 & H1 & Hpre & Hsn). wp_step. eapply wp_rebuild; [done|done|exact V1|]. intros s2 V2. wp_step. eapply wp_tick; [skip..|exact V2|]. intros s3 V3.
  cbn [Z.eqb negb when]. wp_step. wp_step. wp_step. wp_step. destruct (W_feed _ _ _ _ _ V3) as (k & Hf & Hk). rewrite Hf. cbn [pre_snapshot_]. wp_step. wp_step. wp_step.
  change (Inference.sort_by_seq []) with ([] : list Rec). wp_step. wp_step. wp_step. unfold ReplayLaws.replay_early. cbn [for_each]. wp_step. unfold count. wp_step.
  eapply HQ; [|exact H1]. destruct V3 as [? ? _ ? ? ? [G1 G2 G3 G4]]. split; try done.
  - exists k. cbn. by rewrite Hf.
  - split; cbn [st_ set_st set_feed].
    + intros f Hin. destruct (decide (f = unreplayed)) as [->|Hne]; [|rewrite bump_ne by done; by apply G1]. rewrite bump_eq. cbn. by rewrite G1.
    + by rewrite !bump_ne.
    + by rewrite !bump_ne.
    + by rewrite bump_ne.
Qed.
End honest.
End Honest.
