(* ===== verification/L3Learn.v ===== *)
(** * What the first pass learns of such a day

    [passing]: the state of the first pass between two messages of an exchange of L3Exchange: its truth book follows the
    exchange's, no account is linked, and the life of every order is the one a function [L] says. The file ends with what
    it knows of each arrival when the day is over. *)
From stdpp Require Import sorting.
From S2P Require Import Prelude StateM Common OrdMap ReferenceBook OrderBook BookRefine BookEquiv BookRules BookLaws BookApi.
From S2P Require Import L3 L3Laws L3Infer L3Replay L3Exchange L3Track L3Honest.
Local Open Scope Z_scope.

Module Learning.
Import BookRules Tracking BookLists Exchange Honest Inference.
Import Replay (trades_of, Trade, mkTrade).
Import ReferenceBook (limit_of).

Abbreviation Lives := (Z -> Life).
Definition set_life_at (i : Z) (f : Life -> Life) (L : Lives) : Lives := fun j => if decide (j = i) then f (L j) else L j.
Record passing (s : t) (F : Lists) (n : Z) (L : Lives) (b : Block) : Prop := {
  A_book : tracks (book_ s) F;
  A_sync : synced_ s = true /\ loading_ s = false /\ snap_seq_ s <= n /\ last_seq_ s = n /\ pre_ s = [];
  A_accounts : accounts s = ∅;
  A_life : forall i, life_of s i = L i;
  A_blk : blk s = b;
}.
Definition idle_block (b : Block) : Prop := block_ b = 0.

Lemma life_upd s i f j : life_of (upd_life s i f) j = if decide (j = i) then f (life_of s j) else life_of s j.
Proof.
  unfold life_of, upd_life, set_life. cbn [life]. case_decide as H; [subst; by rewrite lookup_insert_eq|by rewrite lookup_insert_ne].
Qed.

(** A message in sync: what [facts] makes of it, and then the book. *)
Lemma on_sync s r s1 F n L b L' b' : passing s F n L b -> kind r <> SnapOrder -> kind r <> SnapEnd -> seq r = n + 1 -> 0 <= n < 18446744073709551615 ->
  facts s r = Some s1 -> passing s1 F n L' b' -> on s r = apply s1 r.
Proof.
  intros H H1 H2 Hs Hn Hf [_ (A1 & A2 & A3 & A4 & A5) _ _ _]. unfold on. rewrite (proj2 (Z.eqb_neq _ _) H1), (proj2 (Z.eqb_neq _ _) H2), Hf. cbn [mbind option_bind].
  rewrite A1, A4, Hs. cbn [negb]. rewrite (proj2 (Z.leb_gt _ _)), u64_small, Z.eqb_refl by (unfold in_u64; lia). done.
Qed.
Lemma passing_book s F n L b b' F' m : passing s F n L b -> n <= m -> tracks b' F' ->
  passing (set_book (set_sync s (loading_ s) (synced_ s) (snap_seq_ s) m (pre_ s)) b') F' m L b.
Proof. intros [A1 (A2 & A3 & A4 & A5 & A6) A7 A8 A9] Hm Hb. split; try done. split_and!; try done. cbn. lia. Qed.

Lemma on_passes s r s1 F F' n L b L' b' bk : passing s F n L b -> kind r <> SnapOrder -> kind r <> SnapEnd -> seq r = n + 1 -> 0 <= n < 18446744073709551615 ->
  facts s r = Some s1 -> passing s1 F n L' b' ->
  apply s1 r = Some (set_book (set_sync s1 (loading_ s1) (synced_ s1) (snap_seq_ s1) (seq r) (pre_ s1)) bk) -> tracks bk F' ->
  exists s', on s r = Some s' /\ passing s' F' (n + 1) L' b'.
Proof.
  intros H H1 H2 Hs Hn Hf Hp Ha Hb. eexists. split; [rewrite (on_sync s r s1 F n L b L' b') by done; exact Ha|]. rewrite Hs. by eapply passing_book; [exact Hp|lia|].
Qed.
Lemma passing_upd s F n L b i f : passing s F n L b -> passing (upd_life s i f) F n (set_life_at i f L) b.
Proof. intros [A1 A2 A3 A4 A5]. split; try done. intros j. rewrite life_upd. unfold set_life_at. by case_decide; rewrite A4. Qed.
Lemma passing_blk s F n L b b' : passing s F n L b -> passing (set_block s b') F n L b'.
Proof. intros [A1 A2 A3 A4 A5]. by split. Qed.

(** ** Each message *)

Definition opened_life (l : Life) : Life := mkLife true (changed l) (taker_filled l) (stp_cancelled l) (stp l).
Definition filled_life (f : Z) (l : Life) : Life := mkLife (opened l) (changed l) (u64 (taker_filled l + f)) (stp_cancelled l) (stp l).
Definition changed_life (l : Life) : Life := mkLife (opened l) true (taker_filled l) (stp_cancelled l) (stp l).
Definition block_of (c : Command) (filled : Z) : Block :=
  mkBlock (c_order_id c) (c_side c) (c_price c) (bool_decide (c_ord_type c = Market)) false filled false false.

Lemma facts_none s r : on_received s r = s -> evidence s r = Some None -> facts s r = Some (end_block (branch s r None) r).
Proof. intros H1 H2. unfold facts. by rewrite H1, H2. Qed.

Lemma learn_received s F n L b c : passing s F n L b -> idle_block b -> 0 <= n < 18446744073709551615 ->
  exists s', on s (with_seq_no (n + 1) (msg Received (c_order_id c) 0 (c_price c) (c_qty c) (c_side c) (type_code (c_ord_type c)) 0)) = Some s' /\ passing s' F (n + 1) L (block_of c 0).
Proof.
  intros H Hb Hn. set (r := with_seq_no _ _). eapply (on_passes s r (set_block s (block_of c 0)) F F n L b); [done..| |by eapply passing_blk|reflexivity|apply H].
  assert (on_received s r = set_block s (block_of c 0)) as Hr.
  { unfold on_received. change (kind r =? Received) with true. cbn iota. unfold block_of. f_equal. f_equal; [apply side_msg|]. by destruct (c_ord_type c). }
  unfold facts. rewrite Hr. reflexivity.
Qed.
Lemma learn_match s F n L c k i p q f sd : passing s F n L (block_of c k) -> 0 <= n < 18446744073709551615 -> (exists sd', (i, q) ∈ F sd' p) -> 0 <= f <= q -> in_u64 f ->
  exists s', on s (with_seq_no (n + 1) (msg Match (c_order_id c) i p f sd 0 0)) = Some s' /\
    passing s' (fun sd p => p_set i (q - f) (F sd p)) (n + 1) (set_life_at (c_order_id c) (filled_life f) L) (block_of c (u64 (k + f))).
Proof.
  intros H Hn [sd' Hin] Hf H64. set (r := with_seq_no _ _). destruct (tracks_fill _ _ _ _ _ _ _ (A_book _ _ _ _ _ H) Hin Hf H64) as (bk & Hb & Hb').
  eapply (on_passes s r (set_block (upd_life s (c_order_id c) (filled_life f)) (block_of c (u64 (k + f)))) F _ n L _ _ _ bk); [exact H|done..| |by eapply passing_blk, passing_upd| |exact Hb'].
  - unfold facts. change (on_received s r) with s. change (evidence s r) with (Some (None : option Z)). cbn [mbind option_bind]. unfold branch, end_block. change (kind r =? Open) with false. change (kind r =? Match) with true. change (kind r =? Done) with false. cbn iota.
    change (rid r) with (c_order_id c). change (rq r) with f. rewrite (A_blk _ _ _ _ _ H). cbn [block_ block_of]. by rewrite Z.eqb_refl.
  - unfold apply. change (kind r =? Open) with false. change (kind r =? Match) with true. cbn iota. change (rid2 r) with i. change (rq r) with f.
    cbn [book_ set_sync set_block upd_life set_life]. cbn [TruthBook.step] in Hb. by rewrite Hb.
Qed.
Lemma learn_maker_done s F n L c k i p sd : passing s F n L (block_of c k) -> i <> c_order_id c -> 0 <= n < 18446744073709551615 ->
  exists s', on s (with_seq_no (n + 1) (msg Done i 0 p 0 sd 0 0)) = Some s' /\ passing s' (fun sd p => p_del i (F sd p)) (n + 1) L (block_of c k).
Proof.
  intros H Hi Hn. set (r := with_seq_no _ _). destruct (tracks_remove _ _ i (A_book _ _ _ _ _ H)) as (bk & Hb & Hb').
  eapply (on_passes s r s F _ n L _ _ _ bk); [exact H|done..| |exact H| |exact Hb'].
  - assert (forall s', blk s' = block_of c k -> cancels_other s' r = false /\ looks_up s' r = false /\ stops_short s' r = false) as Hno.
    { intros s' E. unfold cancels_other, looks_up, stops_short. rewrite E. change (has r Canceled_) with false. by rewrite !andb_false_r. }
    destruct (Hno s (A_blk _ _ _ _ _ H)) as (H1 & H2 & H3). rewrite facts_none; [|done|].
    + unfold branch, cancels_both, end_block. cbv zeta. rewrite H1, H2, H3. change (kind r =? Open) with false. change (kind r =? Match) with false. change (kind r =? Change_) with false.
      cbn [andb]. rewrite (A_blk _ _ _ _ _ H). change (rid r) with i. cbn [block_ block_of]. by rewrite (proj2 (Z.eqb_neq _ _) Hi), andb_false_r.
    + unfold evidence, cancels_both. cbv zeta. by rewrite H1, H2, H3.
  - unfold apply. change (kind r =? Open) with false. change (kind r =? Match) with false. change (kind r =? Done) with true. cbn iota. change (rid r) with i.
    cbn [book_ set_sync]. cbn [TruthBook.step] in Hb. destruct (TruthBook.remove (book_ s) i) as [bk'|]; [|done]. cbn in Hb. by injection Hb as ->.
Qed.
Definition ended (b : Block) : Block :=
  mkBlock 0 (block_side_ b) (block_px_ b) (block_market_ b) (block_funds_ b) (block_filled_ b) (block_cancelled_own_ b) (block_traded_after_cancel_ b).
Lemma passing_life s F n L L' b : (forall i, L' i = L i) -> passing s F n L b -> passing s F n L' b.
Proof. intros HL [A1 A2 A3 A4 A5]. split; try done. intros i. by rewrite HL. Qed.
Lemma passing_ext s F F' n L b : passing s F n L b -> (forall sd p, F sd p = F' sd p) -> passing s F' n L b.
Proof. intros [A1 A2 A3 A4 A5] HF. split; try done. eapply tracks_ext; [exact A1|]. intros. symmetry. apply HF. Qed.
Lemma passing_same s F n L b i : passing s F n L b -> passing (upd_life s i (fun l => l)) F n L b.
Proof. intros H. eapply passing_life; [|by eapply passing_upd]. intros j. unfold set_life_at. by case_decide. Qed.

Lemma learn_open s F n L c k p q sd : passing s F n L (block_of c k) -> 0 <= n < 18446744073709551615 -> (forall sd p q, (c_order_id c, q) ∉ F sd p) -> in_u64 q ->
  exists s', on s (with_seq_no (n + 1) (msg Open (c_order_id c) 0 p q sd 0 0)) = Some s' /\
    passing s' (p_add sd p (c_order_id c) q F) (n + 1) (set_life_at (c_order_id c) opened_life L) (ended (block_of c k)).
Proof.
  intros H Hn Hi Hq. set (r := with_seq_no _ _). destruct (tracks_add _ _ (c_order_id c) sd p q (n + 1) (A_book _ _ _ _ _ H) Hi Hq) as (bk & Hb & Hb').
  eapply (on_passes s r (set_block (upd_life s (c_order_id c) opened_life) (ended (block_of c k))) F _ n L _ _ _ bk); [exact H|done..| |by eapply passing_blk, passing_upd| |exact Hb'].
  - rewrite facts_none by done. unfold branch, end_block. cbv zeta. change (kind r =? Open) with true. cbn iota. change (blk (upd_life s _ _)) with (blk s). rewrite (A_blk _ _ _ _ _ H). change (rid r) with (c_order_id c). cbn [block_ block_of orb andb]. by rewrite Z.eqb_refl.
  - unfold apply. change (kind r =? Open) with true. cbn iota. change (rid r) with (c_order_id c). change (side_of r) with (if Side_to_Z sd =? 0 then Buy else Sell). rewrite side_msg.
    change (rpx r) with p. change (rq r) with q. change (seq r) with (n + 1). cbn [book_ set_sync set_block upd_life set_life]. cbn [TruthBook.step] in Hb. injection Hb as <-. done.
Qed.
Lemma learn_taker_done s F n L c k p q sd : passing s F n L (block_of c k) -> 0 <= n < 18446744073709551615 -> (0 < k -> 0 < q -> next_in_queue s = Some None) ->
  exists s', on s (with_seq_no (n + 1) (msg Done (c_order_id c) 0 p q sd 0 (if q =? 0 then 0 else Canceled_))) = Some s' /\
    passing s' (fun sd p => p_del (c_order_id c) (F sd p)) (n + 1) L (ended (block_of c k)).
Proof.
  intros H Hn Hnext. set (r := with_seq_no _ _). destruct (tracks_remove _ _ (c_order_id c) (A_book _ _ _ _ _ H)) as (bk & Hb & Hb').
  set (s1 := if looks_up s r then upd_life s (c_order_id c) (fun l => l) else s). assert (passing s1 F n L (block_of c k)) as H1 by (unfold s1; case_match; [by eapply passing_same|done]).
  assert (cancels_other s r = false /\ cancels_both s r = false) as [Hc1 Hc2].
  { unfold cancels_both, cancels_other. rewrite (A_blk _ _ _ _ _ H). cbn [block_ block_of block_cancelled_own_]. change (rid r) with (c_order_id c). rewrite (Z.eqb_refl (c_order_id c)). cbn [negb]. by rewrite !andb_false_r. }
  eapply (on_passes s r (set_block s1 (ended (block_of c k))) F _ n L _ _ _ bk); [exact H|done..| |by eapply passing_blk| |exact Hb'].
  - rewrite facts_none; [|done|].
    + unfold branch, end_block. cbv zeta. rewrite Hc1, Hc2. change (kind r =? Open) with false. change (kind r =? Match) with false. change (kind r =? Change_) with false. change (kind r =? Done) with true. cbn [orb].
      rewrite (A_blk _ _ _ _ _ H). cbn [block_ block_of]. fold s1. assert ((if stops_short s r then s1 else s1) = s1) as -> by (by case_match). rewrite (A_blk _ _ _ _ _ H1). change (rid r) with (c_order_id c). cbn [block_ block_of andb]. by rewrite Z.eqb_refl.
    + unfold evidence. cbv zeta. rewrite Hc1, Hc2. change (kind r =? Open) with false. change (kind r =? Match) with false. change (kind r =? Change_) with false. cbn iota.
      destruct (stops_short s r) eqn:E; [|done]. unfold stops_short in E. rewrite (A_blk _ _ _ _ _ H) in E. cbn [block_filled_ block_of] in E. change (rq r) with q in E. to_prop. by apply Hnext.
  - unfold apply. change (kind r =? Open) with false. change (kind r =? Match) with false. change (kind r =? Done) with true. cbn iota. change (rid r) with (c_order_id c).
    assert (book_ s1 = book_ s) as E by (unfold s1; by case_match). cbn [book_ set_sync set_block]. rewrite E. cbn [TruthBook.step] in Hb. destruct (TruthBook.remove (book_ s) (c_order_id c)) as [bk'|]; [|done]. cbn in Hb. by injection Hb as ->.
Qed.

Lemma learn_cancelled s F n L b i p q sd : passing s F n L b -> idle_block b -> i <> 0 -> 0 <= n < 18446744073709551615 ->
  exists s', on s (with_seq_no (n + 1) (msg Done i 0 p q sd 0 Canceled_)) = Some s' /\ passing s' (fun sd p => p_del i (F sd p)) (n + 1) L b.
Proof.
  intros H Hb0 Hi Hn. set (r := with_seq_no _ _). destruct (tracks_remove _ _ i (A_book _ _ _ _ _ H)) as (bk & Hb & Hb').
  assert (cancels_other s r = false /\ looks_up s r = false /\ stops_short s r = false /\ cancels_both s r = false) as (H1 & H2 & H3 & H4).
  { unfold cancels_both, cancels_other, looks_up, stops_short. rewrite (A_blk _ _ _ _ _ H), Hb0. change (rid r) with i. by rewrite (proj2 (Z.eqb_neq _ _) Hi), !andb_false_r. }
  eapply (on_passes s r s F _ n L _ _ _ bk); [exact H|done..| |exact H| |exact Hb'].
  - rewrite facts_none; [|done|].
    + unfold branch, end_block. cbv zeta. rewrite H1, H2, H3, H4. change (kind r =? Open) with false. change (kind r =? Match) with false. change (kind r =? Change_) with false.
      cbn iota. unfold idle_block in Hb0. rewrite (A_blk _ _ _ _ _ H), Hb0. change (rid r) with i. by rewrite (proj2 (Z.eqb_neq _ _) Hi), andb_false_r.
    + unfold evidence. cbv zeta. by rewrite H1, H3, H4.
  - unfold apply. change (kind r =? Open) with false. change (kind r =? Match) with false. change (kind r =? Done) with true. cbn iota. change (rid r) with i.
    cbn [book_ set_sync]. cbn [TruthBook.step] in Hb. destruct (TruthBook.remove (book_ s) i) as [bk'|]; [|done]. cbn in Hb. by injection Hb as ->.
Qed.
Lemma learn_changed s F n L b i q0 p0 p q sd sd' : passing s F n L b -> idle_block b -> (i, q0) ∈ F sd' p0 -> p <> 0 -> in_u64 q -> 0 <= n < 18446744073709551615 ->
  exists s', on s (with_seq_no (n + 1) (msg Change_ i 0 p q sd 0 0)) = Some s' /\
    passing s' (if (p =? p0) && (q <=? q0) then (fun sd p => p_set i q (F sd p)) else p_add sd' p i q (fun sd p => p_del i (F sd p))) (n + 1) (set_life_at i changed_life L) b.
Proof.
  intros H Hb0 Hin Hp Hq Hn. set (r := with_seq_no _ _). destruct (tracks_change _ _ _ _ _ _ p q (n + 1) (A_book _ _ _ _ _ H) Hin Hq) as (bk & Hb & Hb').
  destruct (tracks_seen _ _ _ _ _ _ (A_book _ _ _ _ _ H) Hin) as (o & Ho & _).
  eapply (on_passes s r (upd_life s i changed_life) F _ n L _ _ _ bk); [exact H|done..| |by eapply passing_upd| |exact Hb'].
  - rewrite facts_none; [|done|].
    + unfold branch, end_block. cbv zeta. change (kind r =? Open) with false. change (kind r =? Match) with false. change (kind r =? Change_) with true. change (kind r =? Done) with false. change (has r StpFlag) with false. done.
    + unfold evidence. cbv zeta. change (kind r =? Open) with false. change (kind r =? Match) with false. change (kind r =? Change_) with true. by change (has r StpFlag) with false.
  - unfold apply. change (kind r =? Open) with false. change (kind r =? Match) with false. change (kind r =? Done) with false. change (kind r =? Change_) with true. change (has r FundsChange) with false. cbn [negb andb]. change (rid r) with i.
    cbn [book_ set_sync upd_life set_life]. rewrite Ho. cbn [mbind option_bind]. change (rpx r) with p. rewrite (proj2 (Z.eqb_neq _ _) Hp). change (rq r) with q. change (seq r) with (n + 1).
    cbn [TruthBook.step] in Hb. destruct (TruthBook.change (book_ s) i p q (n + 1)) as [bk'|]; [|done]. cbn in Hb. by injection Hb as ->.
Qed.

(** ** The messages of a command, in a row *)

Definition reads s (rs : list Rec) (P : t -> Prop) : Prop := exists s', run s rs = Some s' /\ P s'.
Lemma reads_nil s (P : t -> Prop) : P s -> reads s [] P.
Proof. by exists s. Qed.
Lemma reads_cons s r rs (P : t -> Prop) s' : on s r = Some s' -> reads s' rs P -> reads s (r :: rs) P.
Proof. intros H (s2 & H2 & HP). exists s2. split; [|done]. cbn [run]. by rewrite H. Qed.
Lemma reads_app l l' (P : t -> Prop) : forall s, reads s l (fun s' => reads s' l' P) -> reads s (l ++ l') P.
Proof.
  induction l as [|r l IH]; intros s; cbn [app].
  - by intros (s' & [= <-] & H).
  - intros (s' & H & H'). cbn [run] in H. destruct (on s r) as [s1|] eqn:E; [|done]. eapply reads_cons; [done|]. apply IH. by exists s'.
Qed.

(** An arrival that has taken [k]. *)
Definition taking (k : Z) : Life := mkLife false false k 0 StpNone.
Lemma life_taking (L : Lives) i k f : L i = taking k -> 0 <= k + f < 18446744073709551616 -> forall j, set_life_at i (fun _ => taking (k + f)) L j = set_life_at i (filled_life f) L j.
Proof. intros Hi Hk j. unfold set_life_at. case_decide; [|done]. subst. rewrite Hi. unfold filled_life, taking. cbn. rewrite u64_small; [done|]. unfold in_u64. lia. Qed.
Lemma life_again (L : Lives) i (f g : Life -> Life) j : set_life_at i f (set_life_at i g L) j = set_life_at i (fun l => f (g l)) L j.
Proof. unfold set_life_at. by case_decide. Qed.

Lemma learn_trades c sym side L es L' : eats sym (c_order_id c) side L es L' -> forall s F n Lv k (P : t -> Prop),
  passing s (swept (opposite side) L F) n Lv (block_of c k) -> Lv (c_order_id c) = taking k -> 0 <= k -> k + traded es < 18446744073709551616 ->
  NoDup (lids L) -> c_order_id c ∉ lids L -> (forall sd p i q, sd <> opposite side -> i ∈ lids L -> (i, q) ∉ F sd p) ->
  0 <= n -> n + Z.of_nat (length (es ≫= trade_messages)) < 18446744073709551616 ->
  (forall s', passing s' (swept (opposite side) L' F) (n + Z.of_nat (length (es ≫= trade_messages))) (set_life_at (c_order_id c) (fun _ => taking (k + traded es)) Lv) (block_of c (k + traded es)) -> P s') ->
  reads s (number (n + 1) (es ≫= trade_messages)) P.
Proof.
  assert (forall i p f l es, traded (trade_event sym (c_order_id c) i side p f l :: es) = f + traded es) as Hcons by (intros; unfold traded; by rewrite filter_cons, decide_True).
  induction 1 as [L|p i q L es L' Hq He IH|p i q f L Hf]; intros s F n Lv k P Hv HL Hk Hle Hnd Hown Hside Hn Hlen HP.
  - apply reads_nil. apply HP. rewrite !Z.add_0_r. eapply passing_life; [|exact Hv]. intros j. unfold set_life_at. case_decide; congruence.
  - pose proof (proj1 (eats_traded _ _ _ _ _ _ He)) as Hpos. rewrite Hcons in *. apply NoDup_cons in Hnd as [Hi Hnd]. cbn in Hi. apply not_elem_of_cons in Hown as [Hne Hown]. cbn in Hne.
    cbn [mbind list_bind] in *. rewrite length_app in *. set (tail := length _) in *. unfold trade_messages at 1. cbn [e_type trade_event e_order_id e_maker_id e_price e_qty e_side e_leaves Z.eqb app number].
    cbn in Hlen. destruct (learn_match s _ n Lv c k i p q q (opposite side) Hv ltac:(lia)) as (s1 & E1 & V1); [exists (opposite side); apply swept_here|lia|unfold in_u64; lia|].
    eapply reads_cons; [exact E1|]. rewrite u64_small in V1 by (unfold in_u64; lia).
    destruct (learn_maker_done s1 _ (n + 1) _ c _ i p (opposite side) V1 ltac:(congruence) ltac:(lia)) as (s2 & E2 & V2). eapply reads_cons; [exact E2|].
    replace (n + 1 + 1 + 1) with (n + 2 + 1) by lia. apply (IH s2 F (n + 2) (set_life_at (c_order_id c) (fun _ => taking (k + q)) Lv) (k + q)); [|unfold set_life_at; by rewrite decide_True|lia|lia|done|done| |lia|fold tail; lia|].
    + replace (n + 2) with (n + 1 + 1) by lia. eapply passing_life; [apply life_taking; [exact HL|lia]|]. destruct V2 as [A1 A2 A3 A4 A5]. split; try done. eapply tracks_ext; [exact A1|].
      intros sd p'. symmetry. apply swept_whole; [done|]. intros. apply Hside; [done|left].
    + intros. apply Hside; [done|by right].
    + intros s3 V3. apply HP. fold tail in V3. change (length (trade_messages (trade_event sym (c_order_id c) i side p q 0)) + tail)%nat with (2 + tail)%nat.
      replace (n + Z.of_nat (2 + tail)) with (n + 2 + Z.of_nat tail) by lia. rewrite Z.add_assoc. eapply passing_life; [|exact V3]. intros j. by rewrite life_again.
  - rewrite Hcons in *. change (traded []) with 0 in *. rewrite Z.add_0_r in *. apply NoDup_cons in Hnd as [Hi Hnd]. cbn in Hi.
    cbn [mbind list_bind] in *. unfold trade_messages in *. cbn [e_type trade_event e_order_id e_maker_id e_price e_qty e_side e_leaves] in *. rewrite (proj2 (Z.eqb_neq (q - f) 0)) in * by lia.
    cbn [app length number] in *. destruct (learn_match s _ n Lv c k i p q f (opposite side) Hv ltac:(lia)) as (s1 & E1 & V1); [exists (opposite side); apply swept_here|lia|unfold in_u64; lia|].
    eapply reads_cons; [exact E1|]. apply reads_nil. apply HP. rewrite u64_small in V1 by (unfold in_u64; lia). eapply passing_life; [apply life_taking; [exact HL|lia]|].
    destruct V1 as [A1 A2 A3 A4 A5]. split; try done. eapply tracks_ext; [exact A1|]. intros sd p'. symmetry. apply swept_part; [done|]. intros. apply Hside; [done|left].
Qed.

Lemma market_limit x y c : market x -> market y -> limit_of x c = limit_of y c.
Proof. intros [_ H1 H2 _ _] [_ H3 H4 _ _]. unfold limit_of. by rewrite H1, H2, H3, H4. Qed.
(** A sweep that stops short has nothing left to take. *)
Lemma nothing_left s x n L c k : passing s (lists x) n L (block_of c k) -> market x ->
  (forall p, p ∈ RB.prices (RB.book x (opposite (c_side c))) -> RB.in_range (c_side c) (limit_of x c) p = false) -> next_in_queue s = Some None.
Proof.
  intros H Hx Hp. unfold next_in_queue. cbv zeta. rewrite (A_blk _ _ _ _ _ H). cbn [block_side_ block_market_ block_px_ block_of].
  rewrite (tracks_best _ x _ (K_wf _ Hx) (A_book _ _ _ _ _ H)). destruct (head _) as [p|] eqn:E; [|done]. apply head_Some_elem_of in E. specialize (Hp p E).
  destruct (A_book _ _ _ _ _ H) as [(zs & Hr & _)]. rewrite (TruthBookLaws.d_queue _ _ (TruthBookLaws.rel_describes _ _ Hr)). cbn [mbind option_bind].
  assert (bool_decide (c_ord_type c = Market) || match c_side c with Buy => p <=? c_price c | Sell => c_price c <=? p end = false) as ->; [|by destruct (TruthBook.s_queue _ _ _)].
  unfold limit_of in Hp. case_bool_decide as Hm; [|by destruct (c_side c)]. apply (RB.wf_band x (K_wf _ Hx)) in E. exfalso. destruct (c_side c); cbn in Hp; lia.
Qed.

Definition arrived (c : Command) (x' : RB.t) (es : list Event) : Life := mkLife (RB.contains x' (c_order_id c)) false (traded es) 0 StpNone.
Lemma arrived_after (L : Lives) i (f : Life -> Life) (l l' : Life) n F s b : passing s F n (set_life_at i f (set_life_at i (fun _ => l) L)) b -> f l = l' ->
  passing s F n (set_life_at i (fun _ => l') L) b.
Proof. intros H <-. eapply passing_life; [|exact H]. intros j. by rewrite life_again. Qed.
Lemma ended_idle b : idle_block (ended b).
Proof. done. Qed.

Lemma learn_arrival c x' ev es s x n L b (P : t -> Prop) : passing s (lists x) n L b -> idle_block b -> market x -> valid x c -> RB.add x c = (x', ev :: es) -> e_type ev <> Rejected ->
  L (c_order_id c) = fresh_life -> 0 <= n -> n + Z.of_nat (length (arrival_messages c x' (ev :: es))) < 18446744073709551616 ->
  (forall s' b', passing s' (lists x') (n + Z.of_nat (length (arrival_messages c x' (ev :: es)))) (set_life_at (c_order_id c) (fun _ => arrived c x' (ev :: es)) L) b' -> idle_block b' -> P s') ->
  reads s (number (n + 1) (arrival_messages c x' (ev :: es))) P.
Proof.
  intros Hv Hb0 Hx [Hq64 Hp64 Hpl _] Ha Hr HL Hn Hlen HP. assert (0 <= c_qty c) as Hq by (unfold in_u64 in Hq64; lia).
  destruct (accepted_facts _ _ _ _ _ Hq Hx Ha Hr) as (_ & _ & Hfresh & Hband).
  pose proof (arrival_stops x c x' ev es (K_wf _ Hx) (market_in_band _ Hx) Hq (K_stp _ Hx) Hpl Ha Hr) as Hstops.
  destruct (arrival_shape x c x' ev es (K_wf _ Hx) (market_in_band _ Hx) Hq (K_stp _ Hx) Hpl Ha Hr) as (x1 & es1 & es2 & -> & Hno & Hev & Hw1 & Hc1 & Heats & Hb & Hl & Hend).
  pose proof (arrival_market _ _ _ _ _ Hx Hq64 Hpl Ha Hr) as Hx'.
  assert ((ev :: es1 ++ es2) ≫= trade_messages = es1 ≫= trade_messages) as Hmsgs.
  { cbn [mbind list_bind]. unfold trade_messages at 1. rewrite Hev. by apply shown_trades. }
  assert (traded (ev :: es1 ++ es2) = traded es1) as Htr.
  { change (ev :: es1 ++ es2) with ([ev] ++ es1 ++ es2). rewrite traded_app, traded_more by done. assert (traded [ev] = 0) as -> by (unfold traded; rewrite filter_cons, Hev; done). lia. }
  rewrite (traded_more _ _ Hno) in Hstops. unfold arrived in HP. unfold arrival_messages, left_of in *. rewrite Hmsgs in *. rewrite Htr in *. set (body := es1 ≫= trade_messages) in *.
  cbn [length number] in *. rewrite length_app in Hlen, HP. cbn [length] in Hlen, HP.
  destruct (learn_received s _ n L b c Hv Hb0 ltac:(lia)) as (s1 & E1 & V1). eapply reads_cons; [exact E1|]. rewrite number_app. apply reads_app.
  assert (forall sd p i q, (i, q) ∈ lists x1 sd p -> i <> c_order_id c) as Hne.
  { intros sd p i q Hin ->. apply (lists_index x1) in Hin; [|done]. apply RB.contains_false in Hc1. congruence. }
  unfold in_u64 in Hq64. eapply (learn_trades _ _ _ _ _ _ Heats s1 (lists x) (n + 1) L 0); [|exact HL|done|lia|apply listing_ids, Hx| | |lia|fold body; lia|].
  { eapply passing_ext; [exact V1|]. intros. symmetry. apply swept_lists, Hx. }
  { intros ([[p i] q] & Hi & Hin)%list_elem_of_fmap. cbn in Hi. rewrite Hi in Hfresh. assert ((i, q) ∈ lists x (opposite (c_side c)) p) as Hin' by (rewrite lists_at by apply Hx; by apply at_elem). apply lists_index in Hin'; [congruence|apply Hx]. }
  { intros sd p i q Hs Hi Hin. apply Hs. by eapply listed_side; [apply Hx| |]. }
  fold body. intros s2 V2. replace (n + 1 + 1 + Z.of_nat (length body)) with (n + 1 + Z.of_nat (length body) + 1) by lia. set (k := n + 1 + Z.of_nat (length body)) in *.
  assert (passing s2 (lists x1) k (set_life_at (c_order_id c) (fun _ => taking (traded es1)) L) (block_of c (traded es1))) as V3.
  { eapply passing_ext; [exact V2|]. intros. symmetry. apply swept_after; [done|by destruct (c_side c)]. }
  cbn [number]. unfold ending, left_of. rewrite Htr. replace (n + Z.of_nat (S (length body + 1))) with (k + 1) in HP by lia.
  destruct Hend as [->|[Hrest Hcx]].
  - rewrite Hc1 in *. destruct (learn_taker_done s2 _ k _ c _ (c_price c) (c_qty c - traded es1) (c_side c) V3 ltac:(lia)) as (s3 & E3 & V4).
    { intros H1 H2. eapply nothing_left; [exact V3|exact Hx'|]. rewrite (market_limit x1 x) by done. apply Hstops; [done|lia]. }
    eapply reads_cons; [exact E3|]. apply reads_nil. eapply HP; [|apply ended_idle]. eapply passing_ext; [exact V4|]. intros. apply p_del_fresh. intros q Hin. by eapply Hne.
  - rewrite Hcx. assert ((c_order_id c, c_qty c - traded es1) ∈ lists x' (c_side c) (c_price c)) as Hin.
    { rewrite (lists_rest _ _ _ _ _ _ _ _ _ _ Hw1 Hrest Hcx Hc1). unfold p_add. rewrite decide_True by done. apply elem_of_app. right. by left. }
    destruct (learn_open s2 _ k _ c _ (c_price c) (c_qty c - traded es1) (c_side c) V3 ltac:(lia)) as (s3 & E3 & V4); [|by eapply (K_orders _ Hx')|].
    { intros sd p q Hin'. by eapply Hne. }
    eapply reads_cons; [exact E3|]. apply reads_nil. rewrite Hcx in HP. eapply HP; [|apply ended_idle]. eapply (arrived_after _ _ opened_life (taking (traded es1))); [|reflexivity]. eapply passing_ext; [exact V4|]. intros. symmetry. by apply (lists_rest _ _ _ _ _ _ _ _ _ _ Hw1 Hrest Hcx Hc1).
Qed.

(** ** What is learnt *)

Lemma arrival_lists x c x' ev es : market x -> 0 <= c_qty c -> plain_order c -> RB.add x c = (x', ev :: es) -> e_type ev <> Rejected ->
  forall sd p i q, (i, q) ∈ lists x' sd p -> i = c_order_id c /\ RB.contains x' (c_order_id c) = true \/ exists q0, (i, q0) ∈ lists x sd p.
Proof.
  intros Hx Hq Hp Ha Hr sd p i q Hin.
  destruct (arrival_shape x c x' ev es (K_wf _ Hx) (market_in_band _ Hx) Hq (K_stp _ Hx) Hp Ha Hr) as (x1 & es1 & es2 & -> & _ & _ & Hw1 & Hc1 & He & Hb & _ & Hend).
  assert (forall sd p i q, (i, q) ∈ lists x1 sd p -> exists q0, (i, q0) ∈ lists x sd p) as H1.
  { intros sd' p' i' q' Hin'. edestruct (swept_qty x x1) as (q0 & _ & Hin0); [done|done|exact He|done|by destruct (c_side c)|exact Hin'|by exists q0]. }
  destruct Hend as [->|[Hrest Hcx]]; [right; by eapply H1|]. rewrite (lists_rest _ _ _ _ _ _ _ _ _ _ Hw1 Hrest Hcx Hc1) in Hin.
  apply elem_of_app in Hin as [Hin|Hin]; [right; by eapply H1|]. case_decide; [|by apply elem_of_nil in Hin]. apply list_elem_of_singleton in Hin as [= -> _]. by left.
Qed.
Lemma arrived_recalls x c x' ev es : market x -> 0 <= c_qty c -> plain_order c -> RB.add x c = (x', ev :: es) -> e_type ev <> Rejected ->
  recalls (arrived c x' (ev :: es)) c x' (ev :: es).
Proof.
  intros Hx Hq Hp Ha Hr. split; [done|]. intros _. split; [done|]. intros _. cbn [taker_filled changed arrived negb]. rewrite andb_true_r.
  destruct (arrival_shape x c x' ev es (K_wf _ Hx) (market_in_band _ Hx) Hq (K_stp _ Hx) Hp Ha Hr) as (x1 & es1 & es2 & -> & Hno & Hev & _ & _ & He & _).
  assert (traded (ev :: es1 ++ es2) = traded es1) as ->.
  { change (ev :: es1 ++ es2) with ([ev] ++ es1 ++ es2). rewrite traded_app, traded_more by done. assert (traded [ev] = 0) as -> by (unfold traded; rewrite filter_cons, Hev; done). lia. }
  assert (trades_of (ev :: es1 ++ es2) = trades_of es1) as ->; [|by eapply eats_traded].
  change (ev :: es1 ++ es2) with ([ev] ++ es1 ++ es2). rewrite !Exchange.trades_cat, (no_trades_of es2 Hno), app_nil_r. unfold trades_of at 1. cbn. by rewrite Hev.
Qed.

Definition arrivals (cs : list Command) : list Z := c_order_id <$> filter (fun c => c_type c = NewOrder) cs.
(** The lives of the orders that have arrived ([seen]), rest, or are still to come; those of the starting book apart. *)
Record diary x (old : Z -> Prop) (seen : list Z) (L : Lives) : Prop := {
  I_new : forall i, i ∈ seen -> ~ old i;
  I_fresh : forall i, i ∉ seen -> ~ old i -> L i = fresh_life;
  I_open : forall sd p i q, (i, q) ∈ lists x sd p -> old i \/ i ∈ seen /\ opened (L i) = true;
}.
(** What matters of the life of an order that has arrived stays. *)
Record keeps (seen : list Z) (L L' : Lives) : Prop := {
  K_same : forall i, i ∈ seen -> stp (L' i) = stp (L i) /\ opened (L' i) = opened (L i) /\
    (opened (L i) = false -> taker_filled (L' i) = taker_filled (L i) /\ changed (L' i) = changed (L i));
}.
Lemma keeps_refl seen L : keeps seen L L.
Proof. by split. Qed.
Lemma keeps_trans seen seen' L L' L'' : (forall i, i ∈ seen -> i ∈ seen') -> keeps seen L L' -> keeps seen' L' L'' -> keeps seen L L''.
Proof.
  intros Hs [H1] [H2]. split. intros i Hi. destruct (H1 i Hi) as (A1 & A2 & A3), (H2 i (Hs i Hi)) as (B1 & B2 & B3). split_and!; [congruence..|].
  intros Ho. destruct (A3 Ho), (B3 ltac:(congruence)). split; congruence.
Qed.
Lemma keeps_set seen L i f : i ∉ seen -> keeps seen L (set_life_at i f L).
Proof. intros Hi. split. intros j Hj. unfold set_life_at. rewrite decide_False by (intros ->; done). done. Qed.
Lemma recalls_kept seen L L' c x' es : keeps seen L L' -> c_order_id c ∈ seen -> recalls (L (c_order_id c)) c x' es -> recalls (L' (c_order_id c)) c x' es.
Proof.
  intros [HK] Hi [H1 H2]. destruct (HK _ Hi) as (A1 & A2 & A3). split; [congruence|]. intros Hl. destruct (H2 Hl) as [B1 B2]. split; [congruence|].
  intros Ho. rewrite A2 in Ho. destruct (A3 Ho) as [-> ->]. by apply B2.
Qed.
Lemma diary_fewer x x' old seen L : diary x old seen L -> (forall sd p i q, (i, q) ∈ lists x' sd p -> exists sd0 p0 q0, (i, q0) ∈ lists x sd0 p0) -> diary x' old seen L.
Proof. intros [H1 H2 H3] Hs. split; [done..|]. intros sd p i q Hin. destruct (Hs _ _ _ _ Hin) as (? & ? & ? & Hin'). by eapply H3. Qed.
Lemma diary_arrived x x' old seen L i l : diary x old seen L -> ~ old i -> (forall sd p j q, (j, q) ∈ lists x' sd p -> j = i /\ opened l = true \/ j <> i /\ exists q0, (j, q0) ∈ lists x sd p) ->
  diary x' old (i :: seen) (set_life_at i (fun _ => l) L).
Proof.
  intros [H1 H2 H3] Hi Hs. split.
  - intros j [->|Hj]%elem_of_cons; auto.
  - intros j [Hj1 Hj2]%not_elem_of_cons Ho. unfold set_life_at. rewrite decide_False by done. auto.
  - intros sd p j q Hin. unfold set_life_at. destruct (Hs _ _ _ _ Hin) as [[-> Hl]|[Hj [q0 Hin0]]].
    + right. rewrite decide_True by done. split; [left|done].
    + rewrite decide_False by done. destruct (H3 _ _ _ _ Hin0) as [?|[? ?]]; [by left|right]. split; [by right|done].
Qed.
Lemma diary_changed x x' old seen L i sd0 p0 q0 : diary x old seen L -> (i, q0) ∈ lists x sd0 p0 ->
  (forall sd p j q, (j, q) ∈ lists x' sd p -> exists sd0 p0 q0, (j, q0) ∈ lists x sd0 p0) ->
  diary x' old seen (set_life_at i changed_life L) /\ keeps seen L (set_life_at i changed_life L).
Proof.
  intros Hd Hi Hs. pose proof (I_open _ _ _ _ Hd _ _ _ _ Hi) as Ho. split.
  - apply (diary_fewer x); [|done]. destruct Hd as [H1 H2 H3]. split; [done|..].
    + intros j Hj Hn. unfold set_life_at. rewrite decide_False; [auto|]. intros ->. destruct Ho as [?|[? _]]; done.
    + intros sd p j q Hin. unfold set_life_at. destruct (H3 _ _ _ _ Hin) as [?|[? ?]]; [by left|right]. split; [done|]. by case_decide.
  - split. intros j Hj. unfold set_life_at. case_decide; [subst|done]. split_and!; [done..|]. destruct Ho as [Ho|[_ Ho]]; [by destruct (I_new _ _ _ _ Hd _ Hj)|]. congruence.
Qed.
Lemma diary_add x old seen L i : diary x old seen L -> ~ old i -> diary x old (i :: seen) L.
Proof.
  intros [H1 H2 H3] Hi. split.
  - intros j [->|Hj]%elem_of_cons; auto.
  - intros j [_ Hj]%not_elem_of_cons. auto.
  - intros sd p j q Hin. destruct (H3 _ _ _ _ Hin) as [?|[? ?]]; [by left|right]. split; [by right|done].
Qed.

(** ** A command, and a session *)

Lemma learn_cancel c x' ev s x n L b : passing s (lists x) n L b -> idle_block b -> market x -> 0 <= n < 18446744073709551615 -> RB.cancel x c = Some (x', [ev]) -> e_type ev = Canceled ->
  (exists s', on s (with_seq_no (n + 1) (msg Done (c_order_id c) 0 (e_price ev) (e_qty ev) (e_side ev) 0 Canceled_)) = Some s' /\ passing s' (lists x') (n + 1) L b) /\
  forall sd p i q, (i, q) ∈ lists x' sd p -> exists sd0 p0 q0, (i, q0) ∈ lists x sd0 p0.
Proof.
  intros H Hb Hx Hn Hc Hev. unfold RB.cancel in Hc. destruct (RB.index_ x !! c_order_id c) as [l|] eqn:Hl; [|injection Hc as _ <-; done].
  destruct (lists_resting x _ l (K_wf _ Hx) Hl) as (o & Hd & Hin). rewrite Hd in Hc. cbn [mbind option_bind] in Hc.
  destruct (RB.remove x l (c_order_id c)) as [x1|] eqn:Hr; [|done]. cbn [mbind option_bind] in Hc. injection Hc as -> _.
  assert (forall sd p, lists x' sd p = p_del (c_order_id c) (lists x sd p)) as HL by (intros; by apply (lists_remove _ _ l); [apply Hx| |]). split.
  - destruct (learn_cancelled s _ n L b (c_order_id c) (e_price ev) (e_qty ev) (e_side ev) H Hb) as (s' & E & V); [by eapply (K_orders _ Hx)|done|]. exists s'. split; [done|]. eapply passing_ext; [exact V|]. done.
  - intros sd p i q. rewrite HL. intros [_ Hi]%list_elem_of_filter. eauto.
Qed.
Lemma learn_modify c x' md s x n L b : passing s (lists x) n L b -> idle_block b -> market x -> 0 <= n < 18446744073709551615 -> 0 <= c_qty c -> in_u64 (c_qty c) -> c_price c <> 0 ->
  RB.modify x c = Some (x', [md]) -> e_type md = Modified ->
  (exists s', on s (with_seq_no (n + 1) (msg Change_ (c_order_id c) 0 (c_price c) (c_qty c) (e_side md) 0 0)) = Some s' /\ passing s' (lists x') (n + 1) (set_life_at (c_order_id c) changed_life L) b) /\
  (exists sd0 p0 q0, (c_order_id c, q0) ∈ lists x sd0 p0) /\
  forall sd p i q, (i, q) ∈ lists x' sd p -> exists sd0 p0 q0, (i, q0) ∈ lists x sd0 p0.
Proof.
  intros H Hb Hx Hn Hq H64 Hp Hm Hmd. destruct (modify_quiet _ _ _ _ _ (K_wf _ Hx) (K_stp _ Hx) Hq Hm Hmd ltac:(constructor)) as (l & o & Hl & _ & _ & Hd & _ & _ & _ & Hlists).
  destruct (lists_resting x _ l (K_wf _ Hx) Hl) as (o' & Hd' & Hin). assert (o' = o) as -> by congruence. split; [|split; [by eauto|]].
  - destruct (learn_changed s _ n L b (c_order_id c) _ _ (c_price c) (c_qty c) (e_side md) _ H Hb Hin Hp H64 Hn) as (s' & E & V). exists s'. split; [done|]. eapply passing_ext; [exact V|]. intros. rewrite Hlists. by case_match.
  - intros sd p i q. rewrite Hlists. case_match.
    + intros ([j v] & E & Hi)%list_elem_of_fmap. cbn in E. case_decide; injection E as -> ->; subst; eauto.
    + unfold p_add. intros [[_ Hi]%list_elem_of_filter|Hi]%elem_of_app; [by eauto|]. case_decide; [|by apply elem_of_nil in Hi]. apply list_elem_of_singleton in Hi as [= -> _]. eauto.
Qed.

Lemma learn_published c x' es s x n old seen L b (P : t -> Prop) : passing s (lists x) n L b -> idle_block b -> market x -> valid x c -> RB.step x c = Some (x', es) -> diary x old seen L ->
  (c_type c = NewOrder -> c_order_id c ∉ seen /\ ~ old (c_order_id c)) -> 0 <= n -> n + Z.of_nat (length (publish c x' es)) < 18446744073709551616 ->
  (forall s' L' b', passing s' (lists x') (n + Z.of_nat (length (publish c x' es))) L' b' -> idle_block b' -> diary x' old (arrivals [c] ++ seen) L' -> keeps seen L L' ->
     (c_type c = NewOrder -> publish c x' es <> [] -> recalls (L' (c_order_id c)) c x' es) -> P s') ->
  reads s (number (n + 1) (publish c x' es)) P.
Proof.
  intros Hv Hb Hx Hd Hs Hdi Hnew Hn Hlen HP. assert (0 <= c_qty c) as Hq by (pose proof (D_qty _ _ Hd) as H; unfold in_u64 in H; lia).
  destruct (step_cases x c x' es Hx Hq Hs) as (ev & es' & -> & [[Hev ->]|Hc]); unfold publish in *.
  { rewrite bool_decide_eq_true_2 in * by done. cbn [number length] in *. apply reads_nil. eapply HP; [by rewrite Z.add_0_r|done| |apply keeps_refl|done].
    unfold arrivals. rewrite filter_cons. case_decide as Hc; [|done]. apply diary_add; [done|]. by apply Hnew. }
  rewrite (bool_decide_eq_false_2 (e_type ev = Rejected)) in * by (destruct (c_type c), Hc as [-> _]; done). unfold arrivals in HP. rewrite filter_cons in HP. destruct (c_type c) eqn:Ety.
  - destruct Hc as [Hev Ha]. destruct (Hnew eq_refl) as [Hi Ho]. assert (e_type ev <> Rejected) as Hr by congruence. eapply learn_arrival; [done..|by eapply I_fresh|done|done|].
    intros s' b' V1 B1. eapply HP; [exact V1|exact B1|..].
    + rewrite decide_True by done. eapply diary_arrived; [exact Hdi|exact Ho|]. intros sd p j q Hin. destruct (accepted_facts _ _ _ _ _ Hq Hx Ha Hr) as (_ & _ & Hf & _).
      destruct (arrival_lists _ _ _ _ _ Hx Hq (D_plain _ _ Hd) Ha Hr _ _ _ _ Hin) as [[-> Hcx]|[q0 Hin0]]; [by left|right]. split; [|by exists q0].
      intros ->. by destruct (lists_fresh x _ (K_wf _ Hx) Hf sd p q0).
    + by apply keeps_set.
    + intros _ _. unfold set_life_at. rewrite decide_True by done. apply (arrived_recalls x); [done|done|apply Hd|done|done].
  - destruct Hc as (Hev & -> & Hc). cbn [length number] in *. destruct (learn_cancel _ _ _ _ _ _ _ _ Hv Hb Hx ltac:(lia) Hc Hev) as [(s' & E & V) Hl]. eapply reads_cons; [exact E|]. apply reads_nil.
    eapply HP; [exact V|done| |apply keeps_refl|done]. rewrite decide_False by done. by eapply diary_fewer.
  - destruct Hc as (Hev & Hm). destruct (D_modify _ _ Hd Ety) as [Hp Hno]. pose proof (Hno _ _ Hm) as Hno'. apply Forall_cons in Hno' as [_ Hno'].
    destruct (modify_quiet _ _ _ _ _ (K_wf _ Hx) (K_stp _ Hx) Hq Hm Hev Hno') as (l & o & _ & _ & _ & _ & _ & Hc & -> & _).
    unfold modify_messages, left_of in *. rewrite Hc in *. assert ([ev] ≫= trade_messages = []) as Hm0 by (cbn; unfold trade_messages; by rewrite Hev).
    assert (traded [ev] = 0) as Ht0 by (unfold traded; rewrite filter_cons, Hev; done). rewrite Hm0, Ht0, Z.sub_0_r in *. cbn [app length number] in *.
    destruct (learn_modify _ _ _ _ _ _ _ _ Hv Hb Hx ltac:(lia) Hq (D_qty _ _ Hd) Hp Hm Hev) as [(s' & E & V) [(sd0 & p0 & q0 & Hin) Hl]]. eapply reads_cons; [exact E|]. apply reads_nil.
    destruct (diary_changed _ _ _ _ _ _ _ _ _ Hdi Hin Hl) as [Hd1 Hk]. eapply HP; [exact V|done|exact Hd1|exact Hk|done].
Qed.

Fixpoint allowed x (cs : list Command) : Prop :=
  match cs with [] => True | c :: cs => valid x c /\ forall x' es, RB.step x c = Some (x', es) -> allowed x' cs end.
Fixpoint learned (L : Lives) x (cs : list Command) : Prop :=
  match cs with
  | [] => True
  | c :: cs => forall x' es, RB.step x c = Some (x', es) -> (c_type c = NewOrder -> publish c x' es <> [] -> recalls (L (c_order_id c)) c x' es) /\ learned L x' cs
  end.
Lemma arrivals_cons c cs : arrivals (c :: cs) = arrivals [c] ++ arrivals cs.
Proof. unfold arrivals. by rewrite <- fmap_app, <- filter_app. Qed.
Lemma learn_session old cs : forall s x x' ls n seen L b (P : t -> Prop), passing s (lists x) n L b -> idle_block b -> market x -> allowed x cs -> session x cs = Some (x', ls) ->
  diary x old seen L -> NoDup (arrivals cs) -> (forall i, i ∈ arrivals cs -> i ∉ seen /\ ~ old i) -> 0 <= n -> n + Z.of_nat (length (concat ls)) < 18446744073709551616 ->
  (forall s' L' b', passing s' (lists x') (n + Z.of_nat (length (concat ls))) L' b' -> keeps seen L L' -> learned L' x cs -> P s') ->
  reads s (number (n + 1) (concat ls)) P.
Proof.
  induction cs as [|c cs IH]; intros s x x' ls n seen L b P Hv Hb Hx Hal Hs Hd Hnd Hnew Hn Hlen HP; cbn [session] in Hs.
  - injection Hs as <- <-. apply reads_nil. eapply HP; [by rewrite Z.add_0_r|apply keeps_refl|done].
  - destruct Hal as [Hval Hal]. destruct (RB.step x c) as [[x1 es]|] eqn:Hst; [|done]. specialize (Hal _ _ eq_refl).
    cbn [mbind option_bind] in Hs. destruct (session x1 cs) as [[x2 l]|] eqn:Hs2; [|done]. injection Hs as <- <-. cbn [concat] in *. rewrite length_app in *. rewrite number_app.
    rewrite arrivals_cons in Hnd, Hnew. apply NoDup_app in Hnd as (_ & Hnd1 & Hnd2).
    apply reads_app. eapply learn_published; [done..| |lia|lia|].
    { intros Hc. apply Hnew. apply elem_of_app. left. unfold arrivals. rewrite filter_cons, decide_True by done. left. }
    intros s1 L1 b1 V1 B1 D1 K1 R1. replace (n + 1 + Z.of_nat (length (publish c x1 es))) with (n + Z.of_nat (length (publish c x1 es)) + 1) by lia.
    eapply (IH s1 x1); [exact V1|exact B1|by eapply step_market|done|done|exact D1|done| |lia|lia|].
    { intros i Hi. destruct (Hnew i ltac:(apply elem_of_app; by right)) as [H1 H2]. split; [|done]. intros [Hi'|Hi']%elem_of_app; [|done]. by apply (Hnd1 i). }
    intros s2 L2 b2 V2 K2 R2. eapply HP.
    + replace (n + Z.of_nat (length (publish c x1 es) + length (concat l))) with (n + Z.of_nat (length (publish c x1 es)) + Z.of_nat (length (concat l))) by lia. exact V2.
    + eapply keeps_trans; [|exact K1|exact K2]. intros i Hi. apply elem_of_app. by right.
    + intros x1' es' E. rewrite Hst in E. injection E as <- <-. split; [|done]. intros Hc Hpub. eapply recalls_kept; [exact K2| |by apply R1]. apply elem_of_app. left.
      unfold arrivals. rewrite filter_cons, decide_True by done. left.
Qed.

(** ** The snapshot *)

Record opening s (F : Lists) (loaded : bool) : Prop := {
  O_book : tracks (book_ s) F;
  O_fresh : loaded = false -> book_ s = TruthBook.make;
  O_sync : loading_ s = loaded /\ synced_ s = false /\ pre_ s = [];
  O_none : accounts s = ∅ /\ life s = ∅ /\ idle_block (blk s);
}.
Lemma make_opening : opening make (fun _ _ => []) false.
Proof. by split; [apply make_tracks|..]. Qed.
Lemma learn_snap i p q sd s F b : opening s F b -> (forall sd' p' q', (i, q') ∉ F sd' p') -> in_u64 q -> (b = false -> forall sd p, F sd p = []) ->
  exists s', on s (msg SnapOrder i 0 p q sd 0 0) = Some s' /\ opening s' (p_add sd p i q F) true.
Proof.
  intros [O1 O2 (O3 & O4 & O5) (O6 & O7 & O8)] Hi Hq Hb. unfold on. change (kind (msg SnapOrder i 0 p q sd 0 0) =? SnapOrder) with true. cbn iota. rewrite O4.
  set (s1 := if loading_ s then s else _). assert (tracks (book_ s1) F /\ loading_ s1 = true /\ synced_ s1 = false /\ pre_ s1 = [] /\ accounts s1 = ∅ /\ life s1 = ∅ /\ blk s1 = blk s) as (H1 & H2 & H3 & H4 & H5 & H6 & H7).
  { unfold s1. rewrite O3. destruct b; [by rewrite O3|]. split_and!; try done. cbn. rewrite O2 by done. eapply tracks_ext; [apply make_tracks|]. intros. by rewrite Hb. }
  destruct (tracks_add _ _ i sd p q 0 H1 Hi Hq) as (b' & E & Hb'). eexists. split; [reflexivity|]. cbn [TruthBook.step] in E. injection E as <-.
  change (side_of (msg SnapOrder i 0 p q sd 0 0)) with (if Side_to_Z sd =? 0 then Buy else Sell). rewrite side_msg. split; [exact Hb'|done|by split_and!|]. cbn. by rewrite H7.
Qed.
Lemma learn_snaps x sd L2 : forall L s F b (P : t -> Prop), market x -> RB.for_each_order x sd = L ++ L2 -> opening s F b -> (b = false -> forall sd p, F sd p = []) ->
  (forall p, F sd p = at_px p L) -> (forall p i q, (i, q) ∈ F (opposite sd) p -> (i, q) ∈ lists x (opposite sd) p) ->
  (forall s' F' b', opening s' F' b' -> (b' = false -> forall sd p, F' sd p = []) -> (forall p, F' sd p = lists x sd p) -> (forall p, F' (opposite sd) p = F (opposite sd) p) -> P s') ->
  reads s (snap_messages sd L2) P.
Proof.
  induction L2 as [|[[p i] q] L2 IH]; intros L s F b P Hx HL Hw Hb Hh Ht HP.
  - apply reads_nil. eapply HP; [done|done| |done]. intros p. rewrite Hh, lists_at by apply Hx. by rewrite HL, app_nil_r.
  - cbn [snap_messages fmap list_fmap fst snd].
    assert ((i, q) ∈ lists x sd p) as Hin by (rewrite lists_at by apply Hx; apply at_elem; rewrite HL; apply elem_of_app; right; by left).
    destruct (learn_snap i p q sd s F b Hw) as (s1 & E & H1); [|by eapply (K_orders _ Hx)|done|].
    { intros sd' p' q' Hin'. destruct (decide (sd' = sd)) as [->|Hs].
      - pose proof (listing_ids x sd (K_wf _ Hx)) as Hnd. rewrite HL in Hnd. unfold lids in Hnd. rewrite fmap_app, fmap_cons in Hnd. apply NoDup_app in Hnd as (_ & Hnd & _).
        rewrite Hh in Hin'. apply at_elem in Hin'. apply (Hnd i); [|by left]. apply list_elem_of_fmap. by exists (p', i, q').
      - assert (sd' = opposite sd) as -> by (by destruct sd', sd). apply Ht in Hin'. apply lists_index in Hin, Hin'; [|apply Hx..]. rewrite Hin in Hin'. injection Hin' as E _. by destruct sd. }
    eapply reads_cons; [exact E|]. eapply (IH (L ++ [(p, i, q)])); [done|by rewrite <- app_assoc|exact H1|done| | |].
    + intros p'. rewrite at_snoc. unfold p_add. rewrite Hh. by destruct (decide (p = p')) as [->|]; [rewrite decide_True|rewrite decide_False by naive_solver].
    + intros p' i' q'. unfold p_add. rewrite decide_False, app_nil_r by (intros [E' _]; by destruct sd). apply Ht.
    + intros s2 F2 b2 W2 Hb2 H2 Ho2. eapply HP; [done..|]. intros p'. rewrite Ho2. unfold p_add. by rewrite decide_False, app_nil_r by (intros [E' _]; by destruct sd).
Qed.
Lemma learn_end s F b n : opening s F b -> exists s' b', on s (with_seq_no n (msg SnapEnd 0 0 0 0 Buy 0 0)) = Some s' /\ passing s' F n (fun _ => fresh_life) b' /\ idle_block b'.
Proof.
  intros [O1 _ (O3 & O4 & O5) (O6 & O7 & O8)]. unfold on. change (kind (with_seq_no n (msg SnapEnd 0 0 0 0 Buy 0 0)) =? SnapOrder) with false.
  change (kind (with_seq_no n (msg SnapEnd 0 0 0 0 Buy 0 0)) =? SnapEnd) with true. cbn iota. rewrite O4, O5. do 2 eexists. split; [reflexivity|]. split; [|exact O8].
  split; try done. intros i. unfold life_of. cbn [life set_sync]. by rewrite O7.
Qed.

Lemma snapshot_messages x : snapshot x = snap_messages Buy (RB.for_each_order x Buy) ++ snap_messages Sell (RB.for_each_order x Sell).
Proof. unfold snapshot. cbn [mbind list_bind]. by rewrite app_nil_r. Qed.
(** The first pass over a day. *)
Lemma learn_day x x' cs n ls (P : t -> Prop) : market x -> allowed x cs -> session x cs = Some (x', ls) -> NoDup (arrivals cs) -> (forall i, i ∈ arrivals cs -> RB.contains x i = false) ->
  0 <= n -> n + Z.of_nat (length (concat ls)) < 18446744073709551616 ->
  (forall s' L', (forall i, life_of s' i = L' i) -> accounts s' = ∅ -> learned L' x cs -> P s') -> reads make (day x n ls) P.
Proof.
  intros Hx Hal Hs Hnd Hnew Hn Hlen HP. unfold day. rewrite snapshot_messages, <- app_assoc. apply reads_app.
  eapply (learn_snaps x Buy _ []); [done|done|apply make_opening|done|done|intros ? ? ? H; by apply elem_of_nil in H|]. intros s1 F1 b1 O1 E1 H1 H2. apply reads_app.
  eapply (learn_snaps x Sell _ []); [done|done|exact O1|done|intros p; exact (H2 p)| |].
  { intros p i q. cbn [opposite]. by rewrite H1. }
  intros s2 F2 b2 O2 _ H3 H4. destruct (learn_end s2 F2 b2 n O2) as (s3 & b3 & E3 & V3 & B3). eapply reads_cons; [exact E3|].
  assert (passing s3 (lists x) n (fun _ => fresh_life) b3) as V4.
  { eapply passing_ext; [exact V3|]. intros [] p; [rewrite (H4 p : F2 Buy p = F1 Buy p)|]; auto. }
  eapply (learn_session (fun i => exists sd p q, (i, q) ∈ lists x sd p) cs s3 x x' ls n [] _ b3); [exact V4|exact B3|done..| |done| |done|done|].
  { split; [by intros i Hi%elem_of_nil|done|]. intros sd p i q Hin. left. eauto. }
  { intros i Hi. split; [apply not_elem_of_nil|]. intros (sd & p & q & Hin). specialize (Hnew i Hi). apply RB.contains_false in Hnew. by destruct (lists_fresh x i (K_wf _ Hx) Hnew sd p q). }
  intros s4 L4 b4 V5 _ H5. eapply HP; [apply V5|apply V5|exact H5].
Qed.
End Learning.
