(* ===== verification/L3Exact.v ===== *)
(** * The replay of a day, from both passes

    [replays]: a day published by an exchange with the rules of [ReferenceBook] (L3Exchange.v) goes through [main_], both of
    its passes, without any trouble: every episode is exact, and at the end the engine's book is the exchange's. The first
    pass learns what the second needs (L3Learn.v), the second replays with it (L3Honest.v). *)
From S2P Require Import Prelude StateM Common ReferenceBook BookRefine BookEquiv BookRules BookLaws BookApi DiffFeed.
From S2P Require Import L3 L3Laws L3Infer L3Replay L3ReplayLaws L3Exchange L3Track L3Honest L3Learn.
Local Open Scope Z_scope.

Module Exact.
Import Stats Tracking BookLists Exchange Honest Learning Replay.

Lemma taken_all (rs : list Inference.Rec) : taken 0 rs = rs.
Proof. done. Qed.

Section exact.
Context {Bk : Type} {BA : BookApi Bk} {BL : BookApiLaws Bk}.

(** What the second pass needs. *)
Lemma learned_honest opt x cs L : (forall i, default Inference.fresh_life (life_ opt !! i) = L i) -> allowed x cs -> learned L x cs -> honest opt x cs.
Proof.
  intros HL. revert x. induction cs as [|c cs IH]; intros x; [done|]. intros [Hv Ha] Hl. split; [done|]. intros x' es Hs. destruct (Hl _ _ Hs) as [Hk Hl'].
  split; [|by apply IH; [apply Ha in Hs|]]. intros H1 H2. unfold known. rewrite HL. by apply Hk.
Qed.

(** How a replay without trouble ends: with the book of the exchange. *)
Record replayed (s : t (Bk := Bk)) (x : RB.t) : Prop := {
  X_trouble : forall f, f ∈ troubles -> st_ s f = 0;
  X_exact : st_ s exact = st_ s episodes;
  X_matches : st_ s matched_exact = st_ s cb_matches;
  X_ok : ok s = true;
  X_book : exists b, engine_ (eng s) = Some b /\ forall sd, ba_for_each_order b sd = Some (RB.for_each_order x sd);
}.
Lemma view_replayed s x F n e : view s x F n e -> ep_active_ e = false -> replayed s x.
Proof.
  intros H He. pose proof (W_st _ _ _ _ _ H) as [G1 G2 G3 G4]. rewrite He, Z.add_0_r, u64_small in G2 by done. split; try done.
  - unfold ok. destruct (W_feed _ _ _ _ _ H) as (k & -> & _). rewrite !G1 by (unfold troubles; set_solver). done.
  - destruct (E_book _ _ (W_eng _ _ _ _ _ H)) as (b & y & Hb & Hr & Ha). exists b. split; [done|]. intros sd. rewrite (ba_rep_orders _ _ _ Hr).
    by rewrite <- (Anonymous.orders_anon y), Ha, Anonymous.orders_anon.
Qed.

Lemma second_pass opt x x' cs n ls : stp_ opt = false -> drop_cancel_every_ opt = 0 -> market x -> RB.same_cfg empty_book x -> RB.bids_ x <> [] -> RB.asks_ x <> [] ->
  honest opt x cs -> session x cs = Some (x', ls) -> 0 <= n -> n + Z.of_nat (length (concat ls)) < 18446744073709551616 ->
  wp False (run opt 2 0 (day x n ls)) (fun _ s => replayed s x') (make (Bk := Bk) ∅).
Proof.
  intros Hstp Hdrop Hx Hcfg Hb Ha Hh Hs Hn Hlen. unfold run, day. rewrite taken_all, snapshot_messages, <- app_assoc. wp_step. apply wp_for_app.
  eapply (wp_snaps opt Hstp Hdrop x Buy _ []); [done|done|by apply make_waiting|done|done|intros ? ? ? H; by apply elem_of_nil in H|]. intros s1 F1 b1 O1 E1 H1 H2. apply wp_for_app.
  eapply (wp_snaps opt Hstp Hdrop x Sell _ []); [done|done|exact O1|done|intros p; exact (H2 p)| |].
  { intros p i q. cbn [opposite]. by rewrite H1. }
  intros s2 F2 b2 O2 _ H3 H4. cbn [for_each]. wp_step. eapply (wp_seeds opt Hstp Hdrop x n); [done..|exact O2| |].
  { intros [] p; [rewrite (H4 p : F2 Buy p = F1 Buy p)|]; auto. }
  intros s3 e3 V3 H5. eapply (wp_session opt Hstp Hdrop cs s3 x); [exact V3|done..|]. intros s4 e4 V4 H6.
  eapply (wp_close opt Hstp Hdrop); [exact V4|exact H6|]. intros s5 e5 V5 H7. by eapply view_replayed.
Qed.

Lemma allowed_market cs : forall x x' ls, market x -> allowed x cs -> session x cs = Some (x', ls) -> market x' /\ RB.same_cfg x x'.
Proof.
  induction cs as [|c cs IH]; intros x x' ls Hx Ha Hs; cbn [session] in Hs; [by injection Hs as <- _|]. destruct Ha as [Hv Ha].
  destruct (RB.step x c) as [[x1 es]|] eqn:Hst; [|done]. cbn [mbind option_bind] in Hs. destruct (session x1 cs) as [[x2 l]|] eqn:Hs2; [|done]. injection Hs as <- _.
  assert (0 <= c_qty c) as Hq by (pose proof (D_qty _ _ Hv) as H; unfold in_u64 in H; lia).
  destruct (RB.step_ok x c (K_wf _ Hx) (market_in_band _ Hx) Hq) as (x0 & es0 & E & _ & Hc). rewrite Hst in E. injection E as <- <-.
  destruct (IH x1 x2 l) as [Hm Hc']; [by eapply step_market|by eapply Ha|done|]. split; [done|]. by eapply RB.same_cfg_trans.
Qed.

End exact.

(** ** A day *)

(** [allowed], decided. *)
#[export] Instance plain_order_dec c : Decision (plain_order c).
Proof. unfold plain_order. apply _. Defined.
#[export] Instance in_u64_dec z : Decision (in_u64 z).
Proof. unfold in_u64. apply _. Defined.
#[export] Instance in_i64_dec z : Decision (in_i64 z).
Proof. unfold in_i64. apply _. Defined.
Definition valid_b (x : RB.t) (c : Command) : bool :=
  bool_decide (in_u64 (c_qty c)) && bool_decide (in_i64 (c_price c)) && bool_decide (plain_order c) &&
  match c_type c with
  | Modify => negb (c_price c =? 0) && match RB.modify x c with Some (_, es) => forallb (fun e => negb (bool_decide (e_type e = Common.Trade))) es | None => true end
  | _ => true
  end.
Fixpoint allowed_b (x : RB.t) (cs : list Command) : bool :=
  match cs with [] => true | c :: cs => valid_b x c && match RB.step x c with Some (x', _) => allowed_b x' cs | None => true end end.
Lemma allowed_ok cs : forall x, allowed_b x cs = true -> allowed x cs.
Proof.
  induction cs as [|c cs IH]; intros x; [done|]. cbn [allowed_b allowed]. intros [Hv Hs]%andb_prop. split.
  - unfold valid_b in Hv. apply andb_prop in Hv as [[[H1 H2]%andb_prop H3]%andb_prop H4]. apply bool_decide_eq_true in H1, H2, H3. split; [done..|]. intros Ht. rewrite Ht in H4. apply andb_prop in H4 as [H4 H5]. to_prop. split; [done|].
    intros x' es E. rewrite E in H5. apply Forall_forall. intros e He. rewrite forallb_forall in H5. specialize (H5 e ltac:(by apply list_elem_of_In)). by apply negb_true_iff, bool_decide_eq_false in H5.
  - intros x' es E. rewrite E in Hs. by apply IH.
Qed.

Definition nw (i : Z) (s : Side) (p q : Z) (o : OrdType) (f : Tif) (fl : Z) : Command := mkCommand i p 0 0 q 0 0 NewOrder s o f fl.
Definition md (i p q : Z) : Command := mkCommand i p 0 0 q 0 0 Modify Buy Limit Day 0.
Definition cx (i : Z) : Command := mkCommand i 0 0 0 0 0 0 Cancel Buy Limit Day 0.
Definition morning : list Command := [nw 1 Buy 100 10 Limit Day 0; nw 2 Buy 99 5 Limit Day 0; nw 3 Buy 100 4 Limit Day 0; nw 4 Sell 110 7 Limit Day 0; nw 5 Sell 111 7 Limit Day 0].
Definition afternoon : list Command :=
  [nw 6 Sell 99 12 Limit Day 0; nw 7 Buy 111 9 Limit Ioc 0; cx 3; nw 8 Sell 0 100 Market Day 0; nw 9 Buy 50 10 Limit Day 0; nw 10 Sell 60 1 Limit Day 0;
   md 10 60 1; md 9 51 10; nw 11 Buy 61 100 Limit Fok 0; nw 12 Sell 40 20 Limit Day kFlagPostOnly; nw 13 Sell 51 10 Limit Fok 0].
Definition after (x : RB.t) (cs : list Command) : RB.t * list (list Inference.Rec) := default (x, []) (session x cs).
Definition replay (check : Z) (cs : list Command) : option (t (Bk := RB.t) * bool) :=
  let x := (after empty_book morning).1 in main_ false check 0 false 0 (day x 10 (after x cs).2).

(** Something happens that day: nine episodes. *)
Example afternoon_episodes : (fun r => st_ r.1 episodes) <$> replay 1 afternoon = Some 9.
Proof. vm_compute. reflexivity. Qed.

(** The exclusion of modifies that trade is needed. When an order is repriced and then repriced again into a trade, the
    replay charges the trades to the episode of the first modify, still open, and declares it inexact; and a check of the books that falls due at a trading [change] compares the engine with a truth book that the
    trades have reached alone. Both days are of the reference rules, and both are reported as failures. *)
Lemma trading_modifies_misreported :
  (fun r => (r.2, st_ r.1 episodes, st_ r.1 exact, st_ r.1 mismatched)) <$> replay 0 [md 2 105 5; md 2 110 5] = Some (false, 1, 0, 1) /\
  (fun r => (r.2, st_ r.1 book_checks, st_ r.1 book_check_failures)) <$> replay 1 [nw 9 Buy 50 10 Limit Day 0; md 4 100 20; nw 19 Buy 50 10 Limit Day 0] = Some (false, 1, 1).
Proof. split; vm_compute; reflexivity. Qed.
End Exact.
