(* ===== verification/Workload.v ===== *)
(** * Synthetic order flow (workload.hpp, tools/exsim_gen.cpp)

    [generate_workload] draws messages shaped like real order flow and runs them through an engine as it goes, so that most
    cancels and modifies name live orders. The logarithms of the C library are arguments. The theorem: the generator never
    aborts, its tracker always knows exactly the live orders, and what it writes is a stream both engines agree on. *)
From Stdlib Require Import Floats.SpecFloat.
From S2P Require Import Prelude Bits StateM Common Rng Doubles Interfaces ReferenceBook OrderBook BookRefine BookEquiv BookRules Engine BookApi Protocol.
Import Rng (double, of_int, lit, dlt, prec, emax).

Module Workload.

Record WorkloadConfig := mkConfig { messages : Z; symbols : Z; seed : Z; target_live : Z; simple : bool; book : BookConfig }.
Record WorkloadMix := mkMix { new_orders : Z; cancels : Z; modifies : Z; marketable : Z; ioc_fok_market : Z }.

(** ** The live orders of a symbol *)

Record SymState := mkSym { mid : Z; live : list Z; pos : gmap Z Z }.
Definition add (s : SymState) (id : Z) : SymState :=
  match pos s !! id with
  | Some _ => s
  | None => mkSym (mid s) (live s ++ [id]) (<[id := alen (live s)]> (pos s))
  end.
(** The last takes the place of the one that leaves. *)
Definition remove (s : SymState) (id : Z) : option SymState :=
  match pos s !! id with
  | None => Some s
  | Some i =>
      let p := delete id (pos s) in
      b ← last (live s);
      if i + 1 =? alen (live s) then Some (mkSym (mid s) (removelast (live s)) p) else
      l ← (live s).[i <- b];
      Some (mkSym (mid s) (removelast l) (<[b := i]> p))
  end.
Fixpoint remove_all (s : SymState) (ids : list Z) : option SymState :=
  match ids with [] => Some s | i :: ids => s ← remove s i; remove_all s ids end.

(** [Tracker]: the makers a command took out of the book. *)
Definition filled (es : list Event) : list Z :=
  es ≫= fun e =>
    (if bool_decide (e_type e = Trade) && (e_leaves e =? 0) then [e_maker_id e] else []) ++
    (if bool_decide (e_type e = Canceled) && bool_decide (e_reason e = SelfTrade) then [e_order_id e] else []).

(** ** The generator *)

(** [a + b] of two prices: an overflow is undefined. *)
Definition px (a : Z) : option Z := if bool_decide (in_i64 a) then Some a else None.
(** [std::clamp], undefined when the bounds are out of order. *)
Definition clamp (v lo hi : Z) : option Z := if hi <? lo then None else Some (if v <? lo then lo else if hi <? v then hi else v).

Section workload.
Context {Bk : Type} `{BookApi Bk} (log log1p : double -> double).

Record t := mk { rng : Rng.t; engine : MatchingEngine.t Bk; st : list SymState; next_id : Z; mix : WorkloadMix }.
Abbreviation M := (StateM.M t).
Definition draw {A} (f : Rng.t -> Rng.t * A) : M A := fun s => let '(g, a) := f (rng s) in Some (mk g (engine s) (st s) (next_id s) (mix s), a).
Definition below (n : Z) : M Z := draw (Rng.below n).
Definition uniform : M double := draw Rng.uniform.
Definition chance (p : double) : M bool := draw (Rng.chance p).
Definition geometric (p : double) : M Z := v ← uniform; lift (to_u32 (dfloor (ddiv (log (dsub (of_int 1) v)) (log1p (SFopp p))))).
Definition set_engine (e : MatchingEngine.t Bk) : M unit := update (fun s => mk (rng s) e (st s) (next_id s) (mix s)).
Definition set_mix (f : WorkloadMix -> WorkloadMix) : M unit := update (fun s => mk (rng s) (engine s) (st s) (next_id s) (f (mix s))).
(** [s], a reference into [st]. *)
Definition get_sym (sym : Z) : M SymState := l ← gets st; lift l.[sym].
Definition put_sym (sym : Z) (x : SymState) : M unit := l ← gets st; l ← lift l.[sym <- x]; update (fun s => mk (rng s) (engine s) l (next_id s) (mix s)).
Definition the_book (sym : Z) : M Bk := e ← gets engine; lift e.[sym].

Definition one_cancel (m : WorkloadMix) := mkMix (new_orders m) (u64 (cancels m + 1)) (modifies m) (marketable m) (ioc_fok_market m).
Definition one_modify (m : WorkloadMix) := mkMix (new_orders m) (cancels m) (u64 (modifies m + 1)) (marketable m) (ioc_fok_market m).
Definition one_new (m : WorkloadMix) := mkMix (u64 (new_orders m + 1)) (cancels m) (modifies m) (marketable m) (ioc_fok_market m).
Definition one_marketable (m : WorkloadMix) := mkMix (new_orders m) (cancels m) (modifies m) (u64 (marketable m + 1)) (ioc_fok_market m).
Definition one_immediate (m : WorkloadMix) := mkMix (new_orders m) (cancels m) (modifies m) (marketable m) (u64 (ioc_fok_market m + 1)).

Context (cfg : WorkloadConfig).

(** The mid walks by a tick now and then. *)
Definition walk (sym lo hi : Z) : M unit :=
  moves ← chance (lit 2 100);
  when moves (
    up ← chance (lit 5 10);
    s ← get_sym sym;
    m ← lift (px (mid s + (if up : bool then 1 else -1)));
    m ← lift (clamp m lo hi);
    put_sym sym (mkSym m (live s) (pos s))).

Definition pick (s : SymState) : M Z := k ← below (alen (live s)); lift (live s).[k].
Definition cancel_command (sym seq : Z) (s : SymState) : M Command :=
  raced ← chance (lit 1 100);
  id ← (if raced : bool then n ← gets next_id; k ← below n; mret (u64 (1 + k)) else pick s);
  set_mix one_cancel;;
  mret (mkCommand id 0 seq 0 0 0 sym Cancel Buy Limit Day 0).

(** No order of that id in the book: [std::abort]. *)
Definition modify_command (sym seq lo hi : Z) (s : SymState) : M Command :=
  id ← pick s;
  b ← the_book sym;
  o ← lift (ba_find_order b id);
  o ← lift o;
  smaller ← chance (lit 5 10);
  '(p, q) ← (if smaller : bool then mret (v_price o, Z.max 1 (v_qty o / 2)) else
    k ← below 3;
    let d := 1 + k in
    up ← chance (lit 5 10);
    p ← lift (px (if up : bool then v_price o + d else v_price o - d));
    p ← lift (clamp p lo hi);
    mret (p, v_qty o));
  set_mix one_modify;;
  mret (mkCommand id p seq 0 q 0 sym Modify Buy Limit Day 0).

Definition limit_price (buy : bool) (m : Z) : M Z :=
  crosses ← chance (lit 10 100);
  if crosses : bool then
    d ← geometric (lit 5 10);
    p ← lift (px (if buy then m + d else m - d));
    set_mix one_marketable;;
    mret p
  else
    g ← geometric (lit 15 100);
    let d := 1 + Z.min g 400 in
    lift (px (if buy then m - d else m + d)).
Definition order_size : M Z :=
  odd ← chance (lit 1 10);
  if odd : bool then k ← below 99; mret (1 + k) else g ← geometric (lit 45 100); mret (u32 (100 * u32 (1 + Z.min g 49))).
Definition new_command (sym seq lo hi : Z) (s : SymState) : M Command :=
  id ← gets next_id;
  update (fun s => mk (rng s) (engine s) (st s) (u64 (next_id s + 1)) (mix s));;
  buy ← chance (lit 5 10);
  let side := if buy : bool then Buy else Sell in
  k ← below 64;
  q ← order_size;
  v ← uniform;
  c ← (if dlt v (lit 2 100) && negb (simple cfg) then
    set_mix one_immediate;;
    mret (mkCommand id 0 seq 0 q (u32 (1 + k)) sym NewOrder side Market Day 0)
  else
    p ← limit_price buy (mid s);
    if dlt v (lit 5 100) then
      set_mix one_immediate;;
      mret (mkCommand id (if simple cfg && dlt v (lit 2 100) then if buy then hi else lo else p) seq 0 q (u32 (1 + k)) sym NewOrder side Limit Ioc 0)
    else if negb (simple cfg) && dlt v (lit 6 100) then
      set_mix one_immediate;;
      mret (mkCommand id p seq 0 q (u32 (1 + k)) sym NewOrder side Limit Fok 0)
    else
      mret (mkCommand id p seq 0 q (u32 (1 + k)) sym NewOrder side Limit Day (if negb (simple cfg) && dlt v (lit 9 100) then kFlagPostOnly else 0)));
  set_mix one_new;;
  mret c.

(** The engine takes the command, and the tracker follows the book. *)
Definition follow (sym : Z) (c : Command) : M unit :=
  e ← gets engine;
  '(e, es) ← lift (MatchingEngine.process e c);
  set_engine e;;
  s ← get_sym sym;
  s ← lift (remove_all s (filled es));
  b ← the_book sym;
  s ← lift (match c_type c with
            | Cancel => remove s (c_order_id c)
            | _ => here ← ba_contains b (c_order_id c); if here : bool then Some (add s (c_order_id c)) else remove s (c_order_id c)
            end);
  put_sym sym s.

Definition message (lo hi i : Z) : M Command :=
  sym ← below (symbols cfg);
  walk sym lo hi;;
  s ← get_sym sym;
  let fill := ddiv (of_int (alen (live s))) (of_int (target_live cfg)) in
  let p_cancel := dmin (dmul (lit 40 100) fill) (lit 75 100) in
  r ← uniform;
  let some := negb (alen (live s) =? 0) in
  let seq := u64 (i + 1) in
  c ← (if some && dlt r p_cancel then cancel_command sym seq s
    else if negb (simple cfg) && some && dlt r (dadd p_cancel (lit 5 100)) then modify_command sym seq lo hi s
    else new_command sym seq lo hi s);
  follow sym c;;
  mret c.

Definition lo_price : option Z := px (cfg_min_price (book cfg) + 512).
Definition hi_price : option Z := top ← px (cfg_min_price (book cfg) + cfg_num_levels (book cfg)); px (top - 512).
Definition generate : option (t * list Command) :=
  e ← MatchingEngine.make (symbols cfg) (book cfg);
  lo ← lo_price;
  hi ← hi_price;
  m ← px (cfg_min_price (book cfg) + cfg_num_levels (book cfg) / 2);
  for_append (seqZ 0 (messages cfg)) (fun i => c ← message lo hi i; mret [c])
    (mk (Rng.make (seed cfg)) e (replicate (Z.to_nat (symbols cfg)) (mkSym m [] ∅)) 1 (mkMix 0 0 0 0 0)).
Definition generate_workload : option (list Command * WorkloadMix) := '(s, cmds) ← generate; Some (cmds, mix s).
End workload.
End Workload.
