(* ===== verification/WorkloadLaws.v ===== *)
(** * The generator knows which orders are live

    The tracker of [Workload] keeps, for every symbol, exactly the orders that rest in the engine's book, each with its
    position; so a modify always finds its order, and the generator never aborts. *)
From Stdlib Require Import Floats.SpecFloat.
From S2P Require Import Prelude Bits StateM Common Rng Interfaces ReferenceBook OrderBook BookRefine BookEquiv BookRules Engine BookApi Protocol Doubles Workload.
Import Rng (double, of_int, lit, dlt).

Module Tracker.
Import Workload.

(** ** The table of live orders *)

(** Positions and orders name each other. *)
Definition sym_ok (s : SymState) : Prop := forall id i, pos s !! id = Some i <-> (live s).[i] = Some id.
Definition listed (s : SymState) (id : Z) : Prop := is_Some (pos s !! id).

Lemma aget_removelast (l : list Z) i : (removelast l).[i] = if i =? alen l - 1 then None else l.[i].
Proof.
  induction l as [|x l' _] using rev_ind.
  { cbn [removelast]. destruct (([] : list Z).[i]) eqn:E; [apply aget_bound in E; unfold alen in E; cbn in E; lia|by case_match]. }
  rewrite removelast_last, aget_snoc. unfold alen. rewrite length_app. cbn [length].
  replace (Z.of_nat (length l' + 1) - 1) with (Z.of_nat (length l')) by lia. destruct (Z.eqb_spec i (Z.of_nat (length l'))) as [->|]; [|done].
  destruct (l'.[Z.of_nat (length l')]) eqn:E; [|done]. apply aget_bound in E. unfold alen in E. lia.
Qed.
Lemma aget_last (l : list Z) b : last l = Some b -> l.[alen l - 1] = Some b.
Proof.
  intros H. apply last_Some in H as [l' ->]. rewrite aget_snoc. unfold alen. rewrite length_app. cbn [length].
  by rewrite (proj2 (Z.eqb_eq _ _)) by lia.
Qed.

Lemma sym_ok_empty m : sym_ok (mkSym m [] ∅).
Proof. intros id i. cbn. rewrite lookup_empty. split; [done|]. intros H%aget_bound. unfold alen in H. cbn in H. lia. Qed.
Lemma sym_ok_mid s m : sym_ok s -> sym_ok (mkSym m (live s) (pos s)).
Proof. done. Qed.
Lemma sym_ok_add s id : sym_ok s -> sym_ok (add s id) /\ mid (add s id) = mid s /\ forall x, listed (add s id) x <-> x = id \/ listed s x.
Proof.
  intros Hs. unfold add, listed. destruct (pos s !! id) as [i|] eqn:E.
  - split_and!; [done|done|]. intros x. split; [by right|]. intros [->|?]; [by exists i|done].
  - split_and!; [|done|].
    + intros x j. cbn [pos live]. rewrite aget_snoc. destruct (decide (x = id)) as [->|Hx].
      * rewrite lookup_insert_eq. split; [intros [= <-]; by rewrite Z.eqb_refl|]. destruct (Z.eqb_spec j (alen (live s))) as [->|Hj]; [done|]. intros H. apply Hs in H. congruence.
      * rewrite lookup_insert_ne by done. rewrite (Hs x j). destruct (Z.eqb_spec j (alen (live s))) as [->|Hj]; [|done]. split; [intros H%aget_bound; lia|congruence].
    + intros x. cbn [pos]. rewrite lookup_insert_is_Some. destruct (decide (x = id)); naive_solver.
Qed.
Lemma sym_ok_remove s id : sym_ok s -> exists s', remove s id = Some s' /\ sym_ok s' /\ mid s' = mid s /\ forall x, listed s' x <-> x <> id /\ listed s x.
Proof.
  intros Hs. unfold remove, listed. destruct (pos s !! id) as [i|] eqn:E.
  2:{ exists s. split_and!; try done. intros x. split; [|tauto]. intros Hx. split; [|done]. intros ->. rewrite E in Hx. by apply is_Some_None in Hx. }
  pose proof (proj1 (Hs id i) E) as Hi. pose proof (aget_bound _ _ _ Hi) as Hb. destruct (last (live s)) as [b|] eqn:El; [|apply last_None in El; rewrite El in Hb; unfold alen in Hb; cbn in Hb; lia].
  pose proof (aget_last _ _ El) as Hl. cbn [mbind option_bind]. destruct (Z.eqb_spec (i + 1) (alen (live s))) as [Hlast|Hlast].
  - eexists. split_and!; [done| |done|].
    + intros x j. cbn [pos live]. rewrite aget_removelast. replace (alen (live s) - 1) with i in * by lia.
      destruct (decide (x = id)) as [->|Hx].
      * rewrite lookup_delete_eq. split; [done|]. destruct (Z.eqb_spec j i); [done|]. intros Hj. apply Hs in Hj. congruence.
      * rewrite lookup_delete_ne by done. rewrite (Hs x j). destruct (Z.eqb_spec j i) as [->|]; [|done]. split; [congruence|done].
    + intros x. cbn [pos]. rewrite lookup_delete_is_Some. naive_solver.
  - destruct (aset_is_Some (live s) i b Hb) as [l' Hl']. rewrite Hl'. cbn [mbind option_bind].
    assert (b <> id) as Hbi by (intros ->; apply Hs in Hl; assert (i = alen (live s) - 1) by congruence; lia).
    eexists. split_and!; [done| |done|].
    + intros x j. cbn [pos live]. rewrite aget_removelast, (alen_aset _ _ _ _ Hl'), (aget_aset _ _ _ _ _ Hl'). destruct (decide (x = b)) as [->|Hx].
      * rewrite lookup_insert_eq. destruct (Z.eqb_spec j (alen (live s) - 1)) as [->|Hj]; [split; [intros [= ->]; lia|done]|].
        destruct (Z.eqb_spec j i) as [->|Hji]; [done|]. split; [intros [= ->]; done|]. intros H. apply Hs in H, Hl. congruence.
      * rewrite lookup_insert_ne by done. destruct (decide (x = id)) as [->|Hxi].
        -- rewrite lookup_delete_eq. split; [done|]. destruct (_ =? _); [done|]. destruct (Z.eqb_spec j i); [congruence|]. intros H. apply Hs in H. congruence.
        -- rewrite lookup_delete_ne by done. rewrite (Hs x j). destruct (Z.eqb_spec j (alen (live s) - 1)) as [->|]; [split; [congruence|done]|].
           destruct (Z.eqb_spec j i) as [->|]; [split; congruence|done].
    + intros x. cbn [pos]. rewrite lookup_insert_is_Some, lookup_delete_is_Some. apply Hs in Hl. destruct (decide (x = b)) as [->|]; naive_solver.
Qed.
Lemma sym_ok_remove_all ids : forall s, sym_ok s -> exists s', remove_all s ids = Some s' /\ sym_ok s' /\ mid s' = mid s /\ forall x, listed s' x <-> x ∉ ids /\ listed s x.
Proof.
  induction ids as [|id ids IH]; intros s Hs; cbn [remove_all].
  - exists s. split_and!; try done. intros x. rewrite elem_of_nil. tauto.
  - destruct (sym_ok_remove s id Hs) as (s1 & -> & H1 & M1 & L1). cbn [mbind option_bind]. destruct (IH s1 H1) as (s2 & -> & H2 & M2 & L2).
    exists s2. split_and!; [done|done|congruence|]. intros x. rewrite L2, L1, elem_of_cons. tauto.
Qed.
End Tracker.

(** ** What a command takes out of a book *)

Module Taken.
Import Workload Tracker BookRules.
Import ReferenceBook (match_queue, match_side, m_events, m_index, m_stop, m_qty, without, o_qty, o_id, o_owner).

Lemma filled_app es es' : filled (es ++ es') = filled es ++ filled es'.
Proof. apply bind_app. Qed.
Lemma filled_trade sym taker i side p f l es : filled (trade_event sym taker i side p f l :: es) = (if l =? 0 then [i] else []) ++ filled es.
Proof. unfold filled. cbn [mbind list_bind]. cbn [e_type e_leaves e_maker_id trade_event]. by rewrite (bool_decide_eq_true_2 (Trade = Trade)), (bool_decide_eq_false_2 (Trade = Canceled)), app_nil_r. Qed.
Lemma filled_self sym i side p q es : filled (canceled_event sym i side p q SelfTrade :: es) = i :: filled es.
Proof. unfold filled. cbn [mbind list_bind]. cbn [e_type e_reason e_order_id canceled_event]. by rewrite (bool_decide_eq_true_2 (Canceled = Canceled)), (bool_decide_eq_false_2 (Canceled = Trade)). Qed.
Lemma filled_decrement sym i side p q es : filled (stp_decrement_event sym i side p q :: es) = filled es.
Proof. unfold filled. cbn [mbind list_bind]. cbn [e_type stp_decrement_event]. by rewrite (bool_decide_eq_false_2 (Modified = Trade)), (bool_decide_eq_false_2 (Modified = Canceled)). Qed.

Lemma without_none index : without [] index index.
Proof. intros i. by rewrite decide_False by apply not_elem_of_nil. Qed.
Lemma without_delete i ids index index' : without ids (delete i index) index' -> without (i :: ids) index index'.
Proof.
  intros H j. rewrite H. destruct (decide (j ∈ ids)); [by rewrite decide_True by by right|]. destruct (decide (j = i)) as [->|]; [rewrite decide_True by left; apply lookup_delete_eq|].
  rewrite decide_False by (rewrite not_elem_of_cons; done). by apply lookup_delete_ne.
Qed.
Lemma without_cat ids ids' m1 m2 m3 : without ids m1 m2 -> without ids' m2 m3 -> without (ids ++ ids') m1 m3.
Proof.
  intros H1 H2 j. rewrite H2, H1. destruct (decide (j ∈ ids')); [by rewrite decide_True by (apply elem_of_app; by right)|].
  destruct (decide (j ∈ ids)); [by rewrite decide_True by (apply elem_of_app; by left)|]. rewrite decide_False; [done|]. rewrite elem_of_app. tauto.
Qed.

Lemma queue_takes sym taker w side limit stp px q : forall index n q' x, match_queue sym taker w side limit stp px q index n = (q', x) -> without (filled (m_events x)) index (m_index x).
Proof.
  induction q as [|o q IH]; intros index n q' x; cbn [match_queue]; [intros [= <- <-]; apply without_none|]. case_match; [intros [= <- <-]; apply without_none|]. case_match.
  - case_match; [intros [= <- <-]; apply without_none|]. case_match.
    { intros [= <- <-]. cbn [m_events m_index]. rewrite filled_decrement. apply without_none. }
    case_match.
    + case_match; [intros [= <- <-]; cbn [m_events m_index]; rewrite filled_self; apply without_delete, without_none|].
      destruct (match_queue _ _ _ _ _ _ _ _ _ _) as [q1 x1] eqn:E. intros [= <- <-]. cbn [m_events m_index RB.emit app]. rewrite filled_self, filled_decrement. apply without_delete. by eapply IH.
    + destruct (match_queue _ _ _ _ _ _ _ _ _ _) as [q1 x1] eqn:E. intros [= <- <-]. cbn [m_events m_index RB.emit app]. rewrite filled_self. apply without_delete. by eapply IH.
  - case_match eqn:Ez.
    + destruct (match_queue _ _ _ _ _ _ _ _ _ _) as [q1 x1] eqn:E. intros [= <- <-]. cbn [m_events m_index RB.emit app]. rewrite filled_trade, Ez. apply without_delete. by eapply IH.
    + intros [= <- <-]. cbn [m_events m_index]. rewrite filled_trade, Ez. apply without_none.
Qed.
Lemma side_takes sym taker w side limit stp m : forall index n m' x, match_side sym taker w side limit stp m index n = (m', x) -> without (filled (m_events x)) index (m_index x).
Proof.
  induction m as [|[p q] m IH]; intros index n m' x; cbn [match_side]; [intros [= <- <-]; apply without_none|]. case_match; [|intros [= <- <-]; apply without_none].
  destruct (match_queue _ _ _ _ _ _ _ _ _ _) as [q1 x1] eqn:E. apply queue_takes in E. destruct q1 as [|o1 q1]; [|by intros [= <- <-]]. case_match; [by intros [= <- <-]|].
  destruct (match_side _ _ _ _ _ _ _ _ _) as [m2 x2] eqn:E2. intros [= <- <-]. cbn [m_events m_index RB.emit]. rewrite filled_app. eapply without_cat; [exact E|]. by eapply IH.
Qed.
Lemma match_takes r taker w side limit n stp r' q' stop es : RB.match_ r taker w side limit n stp = (r', q', stop, es) -> without (filled es) (RB.index_ r) (RB.index_ r').
Proof.
  unfold RB.match_. destruct (match_side _ _ _ _ _ _ _ _ _) as [m x] eqn:E. intros [= <- <- <- <-]. rewrite RB.index_set_book. by eapply side_takes.
Qed.

(** The orders other than the command's own that rest after it are those that rested and were not taken. *)
Definition takes_others (r : RB.t) (i : Z) (r' : RB.t) (es : list Event) : Prop :=
  forall j, j <> i -> is_Some (RB.index_ r' !! j) <-> j ∉ filled es /\ is_Some (RB.index_ r !! j).
Lemma without_others ids r r' j : without ids (RB.index_ r) (RB.index_ r') -> is_Some (RB.index_ r' !! j) <-> j ∉ ids /\ is_Some (RB.index_ r !! j).
Proof. intros H. rewrite H. case_decide; [split; [by intros ?%is_Some_None|tauto]|tauto]. Qed.
Lemma rest_others r i w s p q r' es : RB.rest r i w s p q = (r', es) -> filled es = [] /\ forall j, j <> i -> RB.index_ r' !! j = RB.index_ r !! j.
Proof. unfold RB.rest. case_match; intros [= <- <-]; [done|]. split; [done|]. intros j Hj. by rewrite RB.index_set_book, lookup_insert_ne. Qed.
Lemma filled_killed r c q why j : j ∈ filled [killed_event r c q why] -> j = c_order_id c.
Proof. unfold filled, killed_event. cbn. rewrite (bool_decide_eq_false_2 (Canceled = Trade)) by done. cbn [andb app]. rewrite app_nil_r. case_match; [by intros ?%list_elem_of_singleton|by intros ?%elem_of_nil]. Qed.
Lemma step_takes r c r' es : RB.wf r -> RB.min_price_ r <= RB.max_price_ r -> 0 <= c_qty c -> RB.step r c = Some (r', es) -> takes_others r (c_order_id c) r' es.
Proof.
  intros Hw Hb Hq Hs j Hj. unfold RB.step in Hs. destruct (c_type c).
  - injection Hs as Ha. pose proof (add_outcome r c Hw Hb Hq) as Ho. rewrite Ha in Ho. cbn [fst snd] in Ho.
    inversion Ho as [why|? _ _ _ _|r1 left_ stop es1 r2 es2 _ _ _ _ _ _ Hm Hst]; subst.
    + split; [split; [apply not_elem_of_nil|done]|tauto].
    + split; [split; [|done]|tauto]. apply not_elem_of_nil.
    + unfold match_order in Hm. apply match_takes in Hm. change (accepted_of r c :: es1 ++ es2) with ([accepted_of r c] ++ es1 ++ es2). rewrite !filled_app, !elem_of_app.
      assert (j ∉ filled [accepted_of r c]) as Ha0 by apply not_elem_of_nil.
      assert (j ∉ filled es2 /\ (is_Some (RB.index_ r' !! j) <-> is_Some (RB.index_ r1 !! j))) as [H2 ->].
      { inversion Hst as [| | |r2 es Hl Hi Hr]; subst; try (split; [|done]); try (by intros ?%elem_of_nil); try (by intros ?%filled_killed).
        destruct (rest_others _ _ _ _ _ _ _ _ Hr) as [-> Hr']. split; [by intros ?%elem_of_nil|]. by rewrite Hr'. }
      rewrite (without_others _ _ _ _ Hm). tauto.
  - unfold RB.cancel in Hs. destruct (RB.index_ r !! c_order_id c) as [l|] eqn:Hl; [|injection Hs as <- <-; split; [split; [apply not_elem_of_nil|done]|tauto]].
    inv_bind. destruct (RB.wf_remove r _ l Hw Hl) as (r0 & Hr0 & _ & _ & Hi). simplify_eq. rewrite Hi, lookup_delete_ne by done. split; [|tauto]. split; [|done]. apply not_elem_of_nil.
  - unfold RB.modify in Hs. case_match; [injection Hs as <- <-; split; [split; [apply not_elem_of_nil|done]|tauto]|].
    destruct (RB.index_ r !! c_order_id c) as [l|] eqn:Hl; [|injection Hs as <- <-; split; [split; [apply not_elem_of_nil|done]|tauto]].
    case_match; [injection Hs as <- <-; split; [split; [apply not_elem_of_nil|done]|tauto]|]. inv_bind. case_match; inv_bind.
    { rewrite RB.index_set_book. split; [split; [apply not_elem_of_nil|done]|tauto]. }
    destruct (RB.wf_remove r _ l Hw Hl) as (r0 & Hr0 & _ & _ & Hi). assert (x0 = r0) as -> by congruence.
    assert (is_Some (RB.index_ r0 !! j) <-> is_Some (RB.index_ r !! j)) as Hj0 by (by rewrite Hi, lookup_delete_ne).
    match goal with H : context [RB.match_ ?a ?b ?d ?e ?f ?g ?h] |- _ => destruct (RB.match_ a b d e f g h) as [[[r1 q1] stop] es1] eqn:Hm end. apply match_takes in Hm.
    assert (forall ev es2 r2, filled [ev] = [] -> j ∉ filled es2 -> (is_Some (RB.index_ r2 !! j) <-> is_Some (RB.index_ r1 !! j)) -> (is_Some (RB.index_ r2 !! j) <-> j ∉ filled (ev :: es1 ++ es2) /\ is_Some (RB.index_ r !! j))) as Hgo.
    { intros ev es2 r2 He1 He2 ->. change (ev :: es1 ++ es2) with ([ev] ++ es1 ++ es2). rewrite !filled_app, He1, !elem_of_app, (without_others _ _ _ _ Hm), Hj0, elem_of_nil. tauto. }
    destruct (q1 =? 0); [simplify_eq; rewrite <- (app_nil_r es1); by apply Hgo; [done|apply not_elem_of_nil|]|]. destruct stop; [simplify_eq; apply Hgo; [done| |done]|].
    + intros Hin. apply Hj. unfold filled in Hin. cbn in Hin. by apply list_elem_of_singleton in Hin.
    + destruct (RB.rest _ _ _ _ _ _) as [r2 es2] eqn:Hr. simplify_eq. destruct (rest_others _ _ _ _ _ _ _ _ Hr) as [He Hr']. apply Hgo; [done|rewrite He; apply not_elem_of_nil|]. by rewrite Hr'.
Qed.
End Taken.

(** ** The generator *)

Module WorkloadLaws.
Import Workload Tracker Taken BookRules BookEquiv.

(** The configurations the generator can be given: books of at least 1024 levels (below, the bounds of the mid are out of
    order), away from the ends of the price range, and at least one symbol. *)
Record cfg_fine (cfg : WorkloadConfig) : Prop := {
  F_book : cfg_ok (book cfg);
  F_levels : 1024 <= cfg_num_levels (book cfg);
  F_min : -4611686018427387904 <= cfg_min_price (book cfg) <= 4611686018427387904;
  F_symbols : 0 < symbols cfg < 4294967296;
}.
(** What is asked of the C library: the number of failures before a success is one that fits in 32 bits, for each of the
    probabilities used and every number drawn. *)
Definition logs_ok (log log1p : double -> double) : Prop :=
  forall g p, p ∈ [lit 45 100; lit 5 10; lit 15 100] -> exists k, to_u32 (dfloor (ddiv (log (dsub (of_int 1) (Rng.uniform g).2)) (log1p (SFopp p)))) = Some k.
Definition lo_of (cfg : WorkloadConfig) : Z := cfg_min_price (book cfg) + 512.
Definition hi_of (cfg : WorkloadConfig) : Z := cfg_min_price (book cfg) + cfg_num_levels (book cfg) - 512.

(** What the generator writes. *)
Record fit (cfg : WorkloadConfig) (c : Command) : Prop := {
  T_wf : command_wf c;
  T_symbol : 0 <= c_symbol c < symbols cfg;
  T_price : in_i64 (c_price c - cfg_min_price (book cfg));
  T_qty : 0 <= c_qty c <= 5000;
}.

Lemma to_u32_range x k : to_u32 x = Some k -> 0 <= k < 4294967296.
Proof. unfold to_u32. destruct x as [n|]; [|done]. cbn [mbind option_bind]. case_match; [|done]. intros [= <-]. lia. Qed.

Section flow.
Context {Bk : Type} {BA : BookApi Bk} {BL : BookApiLaws Bk} (log log1p : double -> double) (cfg : WorkloadConfig).
Hypothesis fine : cfg_fine cfg.
Hypothesis logs : logs_ok log log1p.
Abbreviation lo := (lo_of cfg).
Abbreviation hi := (hi_of cfg).
Implicit Types (s : t (Bk := Bk)) (r : RB.t) (x : SymState).

(** Draws and counters change neither the engine nor the tracker. *)
Definition calm s : Prop := Rng.wf (rng s) /\ in_u64 (next_id s).
Definition same s s' : Prop := engine s' = engine s /\ st s' = st s.
Lemma wp_draws {A} (f : Rng.t -> Rng.t * A) (R : A -> Prop) (Q : A -> t (Bk := Bk) -> Prop) s : calm s -> (forall g, Rng.wf g -> Rng.wf (f g).1 /\ R (f g).2) ->
  (forall a s', calm s' -> same s s' -> R a -> Q a s') -> wp False (draw f) Q s.
Proof.
  intros [Hr Hi] Hf HQ. unfold wp, draw. destruct (Hf _ Hr) as [H1 H2]. destruct (f (rng s)) as [g a]. by apply HQ.
Qed.
Lemma wp_draws_below n (Q : Z -> t -> Prop) s : calm s -> 0 < n < 4294967296 -> (forall k s', calm s' -> same s s' -> 0 <= k < n -> Q k s') -> wp False (below n) Q s.
Proof. intros Hs Hn HQ. eapply (wp_draws _ (fun k => 0 <= k < n)); [done| |done]. intros g Hg. split; [by apply Rng.wf_below|by apply Rng.below_lt]. Qed.
Lemma wp_draws_uniform (Q : double -> t -> Prop) s : calm s -> (forall v s', calm s' -> same s s' -> Q v s') -> wp False uniform Q s.
Proof. intros Hs HQ. eapply (wp_draws _ (fun _ => True)); [done| |eauto]. intros g Hg. split; [by apply Rng.wf_uniform|done]. Qed.
Lemma wp_draws_chance p (Q : bool -> t -> Prop) s : calm s -> (forall v s', calm s' -> same s s' -> Q v s') -> wp False (chance p) Q s.
Proof. intros Hs HQ. eapply (wp_draws _ (fun _ => True)); [done| |eauto]. intros g Hg. split; [by apply Rng.wf_chance|done]. Qed.
Lemma wp_geometric p (Q : Z -> t -> Prop) s : calm s -> p ∈ [lit 45 100; lit 5 10; lit 15 100] -> (forall k s', calm s' -> same s s' -> 0 <= k < 4294967296 -> Q k s') ->
  wp False (geometric log log1p p) Q s.
Proof.
  intros Hs Hp HQ. unfold geometric. wp_step. eapply (wp_draws _ (fun v => exists g, v = (Rng.uniform g).2)); [done| |].
  { intros g Hg. split; [by apply Rng.wf_uniform|by exists g]. }
  intros v s' H1 H2 [g ->]. destruct (logs g p Hp) as [k Hk]. apply wp_lift; [|by rewrite Hk]. rewrite Hk. intros ? [= <-]. apply HQ; [done..|]. by eapply to_u32_range.
Qed.
Lemma wp_set_mix f (Q : unit -> t -> Prop) s : calm s -> (forall s', calm s' -> same s s' -> Q tt s') -> wp False (set_mix f) Q s.
Proof. intros Hs HQ. unfold set_mix. wp_step. by apply HQ. Qed.
Lemma same_refl s : same s s.
Proof. done. Qed.
Lemma same_trans s1 s2 s3 : same s1 s2 -> same s2 s3 -> same s1 s3.
Proof. intros [? ?] [? ?]. split; congruence. Qed.
Lemma px_ok a : in_i64 a -> px a = Some a.
Proof. intros H. unfold px. by rewrite bool_decide_eq_true_2. Qed.
Lemma clamp_ok v : exists p, clamp v lo hi = Some p /\ lo <= p <= hi.
Proof.
  unfold clamp. pose proof (F_levels _ fine). unfold lo_of, hi_of in *. rewrite (proj2 (Z.ltb_ge _ _)) by lia. eexists. split; [done|]. repeat case_match; lia.
Qed.

(** ** Books *)

Record book_fine r : Prop := {
  B_wf : RB.wf r;
  B_cfg : config_of (book cfg) r;
  B_max : RB.max_price_ r = cfg_min_price (book cfg) + cfg_num_levels (book cfg) - 1;
  B_small : bounded_book 5000 r;
  B_ids : forall id, is_Some (RB.index_ r !! id) -> in_u64 id;
}.
Record tracks_book x r : Prop := {
  K_ok : sym_ok x;
  K_mid : lo <= mid x <= hi;
  K_live : forall id, listed x id <-> is_Some (RB.index_ r !! id);
}.
Lemma live_count x r : book_fine r -> tracks_book x r -> alen (live x) < 4294967296.
Proof.
  intros [Hw (_ & _ & Hc & _) _ _ _] [Hk _ Hl]. pose proof (RB.wf_cap r Hw) as Hcap. unfold RB.order_count in Hcap.
  assert (NoDup (live x)) as Hnd.
  { apply NoDup_alt. intros i j id Hi Hj. assert (forall i, live x !! i = Some id -> pos x !! id = Some (Z.of_nat i)) as H.
    { intros k E. apply Hk. apply aget_Some. split; [lia|]. by rewrite Nat2Z.id. }
    apply H in Hi, Hj. rewrite Hi in Hj. injection Hj. lia. }
  assert (length (live x) <= size (RB.index_ r))%nat as Hle.
  { rewrite <- size_dom, <- (size_list_to_set (C := gset Z)) by done. apply subseteq_size. intros id. rewrite elem_of_list_to_set, elem_of_dom. intros [i Hi]%list_elem_of_lookup.
    apply Hl. exists (Z.of_nat i). apply Hk, aget_Some. split; [lia|]. by rewrite Nat2Z.id. }
  destruct (F_book _ fine) as (_ & Hm & _). unfold kNil in Hm. unfold alen. lia.
Qed.
Lemma wp_pick x r (Q : Z -> t -> Prop) s : calm s -> book_fine r -> tracks_book x r -> (alen (live x) =? 0) = false ->
  (forall id s', calm s' -> same s s' -> is_Some (RB.index_ r !! id) -> Q id s') -> wp False (pick x) Q s.
Proof.
  intros Hs Hr Hx Hn HQ. pose proof (live_count x r Hr Hx) as Hc. pose proof (alen_nonneg (live x)). unfold pick. wp_step.
  eapply wp_draws_below; [done|lia|]. intros k s' H1 H2 Hk. destruct (aget_is_Some (live x) k Hk) as [id Hid]. apply wp_lift; [|by rewrite Hid]. rewrite Hid. intros ? [= <-].
  apply HQ; [done..|]. apply (K_live _ _ Hx). exists k. by apply (K_ok _ _ Hx).
Qed.

Lemma view_facts r id : book_fine r -> is_Some (RB.index_ r !! id) -> exists v, RB.find_order r id = Some (Some v) /\
  cfg_min_price (book cfg) <= v_price v < cfg_min_price (book cfg) + cfg_num_levels (book cfg) /\ 0 < v_qty v <= 5000.
Proof.
  intros [Hw (Hmin & _ & _ & _) Hmax Hb _] [l Hl]. destruct (RB.deref_spec r id l Hw Hl) as (m1 & q1 & o & q2 & m2 & Hm & _ & Hd & Hf & _).
  unfold RB.find_order. rewrite Hl, Hd. cbn [mbind option_bind]. eexists. split; [done|]. cbn [v_price v_qty].
  assert ((RB.l_price l, q1 ++ o :: q2) ∈ RB.book r (RB.l_side l)) as Hin by (rewrite Hm; set_solver).
  assert (RB.l_price l ∈ RB.prices (RB.book r (RB.l_side l))) as Hp by (apply list_elem_of_fmap; by exists (RB.l_price l, q1 ++ o :: q2)). apply (RB.wf_band r Hw) in Hp.
  pose proof (RB.wf_pos r Hw (RB.l_side l)) as Hpos. unfold RB.positive in Hpos. rewrite Forall_forall in Hpos. destruct (Hpos _ Hin) as [_ Hq]. cbn [snd] in Hq.
  specialize (Hb (RB.l_side l)). unfold bounded in Hb. rewrite Forall_forall in Hb. specialize (Hb _ Hin). cbn [snd] in Hb. rewrite Forall_forall in Hq, Hb.
  specialize (Hq o ltac:(set_solver)). specialize (Hb o ltac:(set_solver)). cbn in Hq, Hb. lia.
Qed.

(** ** Commands *)

Lemma bounds : 1024 <= cfg_num_levels (book cfg) <= 1073741824 /\ -4611686018427387904 <= cfg_min_price (book cfg) <= 4611686018427387904 /\ 0 < symbols cfg < 4294967296.
Proof. destruct fine as [[[? _] _] ? ? ?]. lia. Qed.
Ltac range := pose proof bounds; unfold lo_of, hi_of, in_u64, in_u32, in_u8, in_i64 in *; lia.
Lemma fits sym seq id p q w ty sd ot tf fl : 0 <= sym < symbols cfg -> in_u64 id -> in_u64 seq -> in_i64 p -> in_i64 (p - cfg_min_price (book cfg)) -> 0 <= q <= 5000 -> in_u32 w -> 0 <= fl < 256 ->
  fit cfg (mkCommand id p seq 0 q w sym ty sd ot tf fl).
Proof. intros. split; [split_and!; cbn; try done; range|done..]. Qed.

Lemma wp_cancel_command sym seq x r (Q : Command -> t -> Prop) s : calm s -> book_fine r -> tracks_book x r -> (alen (live x) =? 0) = false -> 0 <= sym < symbols cfg -> in_u64 seq ->
  (forall c s', calm s' -> same s s' -> fit cfg c -> c_symbol c = sym -> Q c s') -> wp False (cancel_command sym seq x) Q s.
Proof.
  intros Hs Hr Hx Hn Hsym Hseq HQ. unfold cancel_command. wp_step. eapply wp_draws_chance; [done|]. intros raced s1 H1 S1. wp_step.
  assert (forall id s2, calm s2 -> same s1 s2 -> in_u64 id -> wp False (set_mix one_cancel;; mret (mkCommand id 0 seq 0 0 0 sym Cancel Buy Limit Day 0)) Q s2) as Hgo.
  { intros id s2 H2 S2 Hid. wp_step. eapply wp_set_mix; [done|]. intros s3 H3 S3. wp_step. apply HQ; [done|by eapply same_trans, same_trans| |done]. apply fits; try done; range. }
  destruct raced.
  - wp_step. wp_step. wp_step. eapply (wp_draws _ (fun _ => True)); [done| |].
    { intros g Hg. split; [by apply Rng.wf_below|done]. }
    intros k s2 H2 S2 _. wp_step. apply Hgo; [done|done|apply in_u64_u64].
  - eapply wp_pick; [done..|]. intros id s2 H2 S2 Hid. apply Hgo; [done|done|]. by apply (B_ids _ Hr).
Qed.

Lemma wp_modify_command sym seq x b r (Q : Command -> t -> Prop) s : calm s -> (engine s).[sym] = Some b -> ba_rep b r -> book_fine r -> tracks_book x r -> (alen (live x) =? 0) = false ->
  0 <= sym < symbols cfg -> in_u64 seq -> (forall c s', calm s' -> same s s' -> fit cfg c -> c_symbol c = sym -> Q c s') -> wp False (modify_command sym seq lo hi x) Q s.
Proof.
  intros Hs Hb Hrep Hr Hx Hn Hsym Hseq HQ. unfold modify_command. wp_step. eapply wp_pick; [done..|]. intros id s1 H1 S1 Hid. wp_step. unfold the_book. wp_step. wp_step.
  rewrite (proj1 S1). apply wp_lift; [|by rewrite Hb]. rewrite Hb. intros ? [= <-]. destruct (view_facts r id Hr Hid) as (v & Hv & Hp & Hq).
  wp_step. rewrite (ba_rep_find _ _ _ Hrep). apply wp_lift; [|by rewrite Hv]. rewrite Hv. intros ? [= <-]. wp_step. apply wp_lift; [|done]. intros ? [= <-].
  wp_step. eapply wp_draws_chance; [done|]. intros smaller s2 H2 S2. wp_step.
  assert (forall p q s3, calm s3 -> same s2 s3 -> cfg_min_price (book cfg) <= p < cfg_min_price (book cfg) + cfg_num_levels (book cfg) -> 0 <= q <= 5000 ->
    wp False (set_mix one_modify;; mret (mkCommand id p seq 0 q 0 sym Modify Buy Limit Day 0)) Q s3) as Hgo.
  { intros p q s3 H3 S3 Hp' Hq'. wp_step. eapply wp_set_mix; [done|]. intros s4 H4 S4. wp_step. apply HQ; [done|by do 3 (eapply same_trans; [done|])| |done].
    apply fits; try done; [by apply (B_ids _ Hr)|range..]. }
  destruct smaller.
  - wp_step. apply Hgo; [done|done|done|]. assert (v_qty v / 2 <= v_qty v) by (apply Z.div_le_upper_bound; lia). lia.
  - wp_step. eapply wp_draws_below; [done|lia|]. intros k s3 H3 S3 Hk. wp_step. eapply wp_draws_chance; [done|]. intros up s4 H4 S4.
    wp_step. rewrite px_ok by (destruct up; range). apply wp_lift; [|done]. intros ? [= <-]. wp_step.
    destruct (clamp_ok (if up then v_price v + (1 + k) else v_price v - (1 + k))) as (p & -> & Hp'). apply wp_lift; [|done]. intros ? [= <-]. wp_step.
    apply Hgo; [done|by eapply same_trans|range|lia].
Qed.

Lemma wp_limit_price buy m (Q : Z -> t -> Prop) s : calm s -> lo <= m <= hi -> (forall p s', calm s' -> same s s' -> m - 4294967296 <= p <= m + 4294967296 -> Q p s') ->
  wp False (limit_price log log1p buy m) Q s.
Proof.
  intros Hs Hm HQ. unfold limit_price. wp_step. eapply wp_draws_chance; [done|]. intros crosses s1 H1 S1. destruct crosses.
  - wp_step. eapply wp_geometric; [done|set_solver|]. intros k s2 H2 S2 Hk. wp_step. rewrite px_ok by (destruct buy; range). apply wp_lift; [|done]. intros ? [= <-].
    wp_step. eapply wp_set_mix; [done|]. intros s3 H3 S3. wp_step. apply HQ; [done|by do 2 (eapply same_trans; [done|])|destruct buy; lia].
  - wp_step. eapply wp_geometric; [done|set_solver|]. intros k s2 H2 S2 Hk. rewrite px_ok by (destruct buy; range). apply wp_lift; [|done]. intros ? [= <-].
    apply HQ; [done|by eapply same_trans|destruct buy; lia].
Qed.
Lemma wp_order_size (Q : Z -> t -> Prop) s : calm s -> (forall q s', calm s' -> same s s' -> 0 <= q <= 5000 -> Q q s') -> wp False (order_size log log1p) Q s.
Proof.
  intros Hs HQ. unfold order_size. wp_step. eapply wp_draws_chance; [done|]. intros odd s1 H1 S1. destruct odd.
  - wp_step. eapply wp_draws_below; [done|lia|]. intros k s2 H2 S2 Hk. wp_step. apply HQ; [done|by eapply same_trans|lia].
  - wp_step. eapply wp_geometric; [done|set_solver|]. intros k s2 H2 S2 Hk. wp_step. apply HQ; [done|by eapply same_trans|].
    rewrite (u32_small (1 + Z.min k 49)) by (unfold in_u32; lia). rewrite u32_small by (unfold in_u32; lia). lia.
Qed.
Lemma wp_new_command sym seq x (Q : Command -> t -> Prop) s : calm s -> lo <= mid x <= hi -> 0 <= sym < symbols cfg -> in_u64 seq ->
  (forall c s', calm s' -> same s s' -> fit cfg c -> c_symbol c = sym -> Q c s') -> wp False (new_command log log1p cfg sym seq lo hi x) Q s.
Proof.
  intros Hs Hm Hsym Hseq HQ. unfold new_command. wp_step. wp_step. wp_step. wp_step. assert (in_u64 (next_id s)) as Hid by apply Hs.
  set (s0 := mk _ _ _ _ _). assert (calm s0 /\ same s s0) as [H0 S0] by (split; [split; [apply Hs|apply in_u64_u64]|done]). revert H0 S0. generalize s0. clear s0. intros s0 H0 S0.
  wp_step. eapply wp_draws_chance; [done|]. intros buy s1 H1 S1. wp_step. eapply wp_draws_below; [done|lia|]. intros k s2 H2 S2 Hk. wp_step. eapply wp_order_size; [done|]. intros q s3 H3 S3 Hq.
  wp_step. eapply wp_draws_uniform; [done|]. intros v s4 H4 S4. assert (same s s4) as S by (do 4 (eapply same_trans; [done|]); done). clear S0 S1 S2 S3 S4.
  assert (in_u32 (u32 (1 + k))) as Hw by apply in_u32_u32. wp_step.
  assert (forall c s5, calm s5 -> same s s5 -> fit cfg c -> c_symbol c = sym -> wp False (set_mix one_new;; mret c) Q s5) as Hgo.
  { intros c s5 H5 S5 Hf Hc. wp_step. eapply wp_set_mix; [done|]. intros s6 H6 S6. wp_step. apply HQ; [done|by eapply same_trans|done..]. }
  wp_step.
  { wp_step. eapply wp_set_mix; [done|]. intros s5 H5 S5. wp_step. apply Hgo; [done|by eapply same_trans| |done]. apply fits; try done; range. }
  wp_step. eapply wp_limit_price; [done..|]. intros p s5 H5 S5 Hp. assert (same s s5) as S' by by eapply same_trans.
  wp_step; [|wp_step].
  - wp_step. eapply wp_set_mix; [done|]. intros s6 C6 S6. wp_step. apply Hgo; [done|by eapply same_trans| |done].
    apply fits; try done; destruct (simple cfg && _), buy; range.
  - wp_step. eapply wp_set_mix; [done|]. intros s6 C6 S6. wp_step. apply Hgo; [done|by eapply same_trans| |done]. apply fits; try done; range.
  - wp_step. apply Hgo; [done|done| |done]. apply fits; try done; [range..|]. unfold kFlagPostOnly. case_match; lia.
Qed.

(** ** A message *)

Lemma fit_ok r c : book_fine r -> fit cfg c -> cmd_ok r c.
Proof.
  intros [Hw (Hmin & Hstp & Hcap & Hb) _ Hs _] [_ _ Hp Hq]. split; [by rewrite Hmin|lia|]. intros _ _ _. apply (bounded_agg 5000); [done|done|lia|].
  rewrite Hcap. destruct (F_book _ fine) as (_ & Hm & _). unfold kNil in Hm. lia.
Qed.
Lemma book_step r c r' es : book_fine r -> fit cfg c -> RB.step r c = Some (r', es) -> book_fine r' /\ takes_others r (c_order_id c) r' es.
Proof.
  intros [Hw Hc Hmax Hs Hids] [Hwf _ Hp Hq] Hst. pose proof Hc as (E1 & E2 & E3 & E4). destruct (RB.step_ok r c Hw E4 (proj1 Hq)) as (r1 & es1 & E & Hw' & Hcfg). rewrite Hst in E. injection E as <- <-.
  pose proof (step_takes r c r' es Hw E4 (proj1 Hq) Hst) as Ht. split; [|done]. split; [done|by eapply config_step| |exact (step_bounded 5000 r c r' es Hw Hs Hq Hst)|].
  - destruct Hcfg as (_ & _ & E & _). congruence.
  - intros id Hid. destruct (decide (id = c_order_id c)) as [->|Hn]; [apply Hwf|]. apply Hids. by apply (Ht id Hn).
Qed.
Lemma cancelled_gone r c r' es : RB.wf r -> c_type c = Cancel -> RB.step r c = Some (r', es) -> RB.index_ r' !! c_order_id c = None.
Proof.
  intros Hw Ht. unfold RB.step, RB.cancel. rewrite Ht. destruct (RB.index_ r !! c_order_id c) as [l|] eqn:Hl; [|by intros [= <- <-]].
  intros E. inv_bind. destruct (RB.wf_remove r _ l Hw Hl) as (r0 & Hr0 & _ & _ & Hi). simplify_eq. rewrite Hi. apply lookup_delete_eq.
Qed.

Record flowing s (rs : list RB.t) (e0 : MatchingEngine.t Bk) (cs : list Command) : Prop := {
  W_calm : calm s;
  W_books : Forall2 ba_rep (engine s) rs;
  W_fine : Forall book_fine rs;
  W_syms : Forall2 tracks_book (st s) rs;
  W_count : alen rs = symbols cfg;
  W_run : exists es, MatchingEngine.run e0 cs = Some (engine s, es);
}.
Lemma flowing_same s s' rs e0 cs : flowing s rs e0 cs -> calm s' -> same s s' -> flowing s' rs e0 cs.
Proof. intros [? ? ? ? ? ?] Hc [E1 E2]. by split; rewrite ?E1, ?E2. Qed.
Lemma ran_snoc (e0 e1 e2 : MatchingEngine.t Bk) cs c es es' : MatchingEngine.run e0 cs = Some (e1, es) -> MatchingEngine.process e1 c = Some (e2, es') ->
  MatchingEngine.run e0 (cs ++ [c]) = Some (e2, es ++ es').
Proof.
  revert e0 es. induction cs as [|c0 cs IH]; intros e0 es H Hp; cbn [MatchingEngine.run app] in *.
  - injection H as -> <-. rewrite Hp. cbn. by rewrite app_nil_r.
  - destruct (MatchingEngine.process e0 c0) as [[e3 es3]|]; [|done]. cbn [mbind option_bind] in *. destruct (MatchingEngine.run e3 cs) as [[e4 es4]|] eqn:E; [|done].
    injection H as -> <-. rewrite (IH _ _ E Hp). cbn. by rewrite app_assoc.
Qed.
Lemma lookup_Forall2 {A B} (R : A -> B -> Prop) (l : list A) (k : list B) i : Forall2 R l k -> 0 <= i < alen k ->
  exists a b, l.[i] = Some a /\ k.[i] = Some b /\ R a b.
Proof.
  intros H Hi. pose proof (Forall2_length _ _ _ H) as Hl. destruct (aget_is_Some k i Hi) as [b Hb]. destruct (aget_is_Some l i) as [a Ha]; [unfold alen in *; lia|].
  exists a, b. split_and!; [done|done|]. apply aget_Some in Ha as [_ Ha], Hb as [_ Hb]. by eapply Forall2_lookup_lr.
Qed.
Lemma store_Forall2 {A B} (R : A -> B -> Prop) (l : list A) (k : list B) i a b : Forall2 R l k -> 0 <= i < alen k -> R a b ->
  exists l', l.[i <- a] = Some l' /\ Forall2 R l' (<[Z.to_nat i := b]> k).
Proof.
  intros H Hi Hab. pose proof (Forall2_length _ _ _ H) as Hl. destruct (aset_is_Some l i a) as [l' Hl']; [unfold alen in *; lia|]. exists l'. split; [done|].
  unfold aset in Hl'. destruct (in_range l i); simplify_eq. by apply Forall2_insert.
Qed.

(** The tracker follows the engine. *)
Lemma wp_follow sym c s rs e0 cs (Q : unit -> t -> Prop) : flowing s rs e0 cs -> fit cfg c -> c_symbol c = sym ->
  (forall s' rs', flowing s' rs' e0 (cs ++ [c]) -> Q tt s') -> wp False (follow sym c) Q s.
Proof.
  intros H Hf Hsym HQ. assert (0 <= sym < alen rs) as Hi by (rewrite (W_count _ _ _ _ H), <- Hsym; apply Hf).
  destruct (lookup_Forall2 _ _ _ _ (W_books _ _ _ _ H) Hi) as (b & r & Hb & Hr & Hrep). destruct (lookup_Forall2 _ _ _ _ (W_syms _ _ _ _ H) Hi) as (x & r1 & Hx & Hr1 & Htr). assert (r1 = r) as -> by congruence.
  assert (book_fine r) as Hfine by (pose proof (W_fine _ _ _ _ H) as Hall; apply aget_Some in Hr as [_ Hr]; by eapply Forall_lookup_1).
  destruct (ba_rep_step b r c Hrep (fit_ok r c Hfine Hf)) as (b' & r' & es & Hbs & Hrs & Hrep'). destruct (book_step r c r' es Hfine Hf Hrs) as [Hfine' Ht].
  destruct (store_Forall2 _ _ _ _ b' r' (W_books _ _ _ _ H) Hi Hrep') as (e' & He' & Hbooks').
  assert (MatchingEngine.process (engine s) c = Some (e', es)) as Hp.
  { unfold MatchingEngine.process. rewrite Hsym, (proj2 (Z.leb_gt _ _)) by (apply aget_bound in Hb; lia). rewrite Hb. cbn [mbind option_bind]. rewrite Hbs. cbn [mbind option_bind]. by rewrite He'. }
  unfold follow. wp_step. wp_step. wp_step. apply wp_lift; [|by rewrite Hp]. rewrite Hp. intros ? [= <-]. unfold set_engine, get_sym, the_book, put_sym. do 5 wp_step. cbn [st engine]. apply wp_lift; [|by rewrite Hx]. rewrite Hx. intros ? [= <-].
  destruct (sym_ok_remove_all (filled es) x (K_ok _ _ Htr)) as (x1 & Hx1 & Hok1 & Hmid1 & Hl1). wp_step. apply wp_lift; [|by rewrite Hx1]. rewrite Hx1. intros ? [= <-].
  do 3 wp_step. cbn [engine]. rewrite (aget_aset_eq _ _ _ _ He'). apply wp_lift; [|done]. intros ? [= <-]. wp_step.
  assert (exists x2, match c_type c with Cancel => remove x1 (c_order_id c) | _ => here ← ba_contains b' (c_order_id c); if here : bool then Some (add x1 (c_order_id c)) else remove x1 (c_order_id c) end = Some x2 /\ tracks_book x2 r') as (x2 & Hx2 & Htr').
  { assert (forall x2, sym_ok x2 -> mid x2 = mid x1 -> (listed x2 (c_order_id c) <-> is_Some (RB.index_ r' !! c_order_id c)) -> (forall j, j <> c_order_id c -> listed x2 j <-> listed x1 j) -> tracks_book x2 r') as Hgo.
    { intros x2 Hok2 Hm2 Hown Hoth. split; [done|rewrite Hm2, Hmid1; apply Htr|]. intros j. destruct (decide (j = c_order_id c)) as [->|Hj]; [done|]. rewrite (Hoth j Hj), Hl1, (Ht j Hj), (K_live _ _ Htr). tauto. }
    destruct (sym_ok_remove x1 (c_order_id c) Hok1) as (xr & Hxr & Hokr & Hmr & Hlr). destruct (sym_ok_add x1 (c_order_id c) Hok1) as (Hoka & Hma & Hla).
    assert (RB.index_ r' !! c_order_id c = None -> tracks_book xr r') as Hremoved.
    { intros Hn. apply Hgo; [done|congruence| |intros j Hj; rewrite Hlr; tauto]. rewrite Hlr, Hn. split; [tauto|by intros ?%is_Some_None]. }
    assert (exists x2, (here ← ba_contains b' (c_order_id c); if here : bool then Some (add x1 (c_order_id c)) else remove x1 (c_order_id c)) = Some x2 /\ tracks_book x2 r') as Hother.
    { rewrite (ba_rep_contains _ _ _ Hrep'). cbn [mbind option_bind]. unfold RB.contains. case_bool_decide as Hin.
      - exists (add x1 (c_order_id c)). split; [done|]. apply Hgo; [done|congruence|rewrite Hla; tauto|intros j Hj; rewrite Hla; tauto].
      - exists xr. split; [done|]. apply Hremoved. by apply eq_None_not_Some. }
    destruct (c_type c) eqn:Ety; [done| |done]. exists xr. split; [done|]. apply Hremoved. eapply cancelled_gone; [apply Hfine|done..]. }
  apply wp_lift; [|by rewrite Hx2]. rewrite Hx2. intros ? [= <-].
  destruct (store_Forall2 _ _ _ _ x2 r' (W_syms _ _ _ _ H) Hi Htr') as (l' & Hl' & Hsyms'). wp_step. wp_step. cbn [st]. wp_step. apply wp_lift; [|by rewrite Hl']. rewrite Hl'. intros ? [= <-]. wp_step.
  apply (HQ _ (<[Z.to_nat sym := r']> rs)). destruct (W_run _ _ _ _ H) as [es0 Hrun]. split; cbn [rng engine st next_id].
  - apply H.
  - done.
  - apply Forall_insert; [apply H|done].
  - done.
  - unfold alen. rewrite length_insert. apply H.
  - eexists. by eapply ran_snoc.
Qed.
Lemma wp_walk sym s rs e0 cs (Q : unit -> t -> Prop) : flowing s rs e0 cs -> 0 <= sym < symbols cfg -> (forall s', flowing s' rs e0 cs -> Q tt s') -> wp False (walk sym lo hi) Q s.
Proof.
  intros H Hsym HQ. unfold walk. wp_step. eapply wp_draws_chance; [apply H|]. intros moves s1 H1 S1. pose proof (flowing_same _ _ _ _ _ H H1 S1) as V1. wp_step; [|by apply HQ].
  wp_step. eapply wp_draws_chance; [done|]. intros up s2 H2 S2. pose proof (flowing_same _ _ _ _ _ V1 H2 S2) as V2. rewrite <- (W_count _ _ _ _ H) in Hsym.
  destruct (lookup_Forall2 _ _ _ _ (W_syms _ _ _ _ V2) Hsym) as (x & r & Hx & Hr & Htr). wp_step. unfold get_sym. wp_step. wp_step. apply wp_lift; [|by rewrite Hx]. rewrite Hx. intros ? [= <-].
  pose proof (K_mid _ _ Htr) as Hm. wp_step. rewrite px_ok by (destruct up; range). apply wp_lift; [|done]. intros ? [= <-]. wp_step.
  destruct (clamp_ok (mid x + (if up then 1 else -1))) as (m & -> & Hm'). apply wp_lift; [|done]. intros ? [= <-].
  assert (tracks_book (mkSym m (live x) (pos x)) r) as Htr' by (destruct Htr as [K1 K2 K3]; by split).
  destruct (store_Forall2 _ _ _ _ _ r (W_syms _ _ _ _ V2) Hsym Htr') as (l' & Hl' & Hall). unfold put_sym. wp_step. wp_step. wp_step. apply wp_lift; [|by rewrite Hl']. rewrite Hl'. intros ? [= <-]. wp_step.
  apply HQ. destruct V2 as [C1 C2 C3 C4 C5 C6]. split; try done. cbn [st]. apply aget_Some in Hr as [_ Hr]. by rewrite list_insert_id in Hall.
Qed.

Lemma wp_send i s rs e0 cs (Q : Command -> t -> Prop) : flowing s rs e0 cs ->
  (forall c s' rs', fit cfg c -> flowing s' rs' e0 (cs ++ [c]) -> Q c s') -> wp False (message log log1p cfg lo hi i) Q s.
Proof.
  intros H HQ. unfold message. wp_step. eapply wp_draws_below; [apply H|range|]. intros sym s1 H1 S1 Hsym. pose proof (flowing_same _ _ _ _ _ H H1 S1) as V1.
  wp_step. eapply wp_walk; [done..|]. intros s2 V2. pose proof Hsym as Hi. rewrite <- (W_count _ _ _ _ V2) in Hi.
  destruct (lookup_Forall2 _ _ _ _ (W_syms _ _ _ _ V2) Hi) as (x & r & Hx & Hr & Htr). destruct (lookup_Forall2 _ _ _ _ (W_books _ _ _ _ V2) Hi) as (b & r1 & Hb & Hr1 & Hrep). assert (r1 = r) as -> by congruence.
  assert (book_fine r) as Hfine by (pose proof (W_fine _ _ _ _ V2) as Hall; apply aget_Some in Hr as [_ Hr]; by eapply Forall_lookup_1).
  wp_step. unfold get_sym. wp_step. wp_step. apply wp_lift; [|by rewrite Hx]. rewrite Hx. intros ? [= <-]. cbv zeta. wp_step. eapply wp_draws_uniform; [apply V2|]. intros v s3 H3 S3.
  pose proof (flowing_same _ _ _ _ _ V2 H3 S3) as V3. assert (in_u64 (u64 (i + 1))) as Hseq by apply in_u64_u64. wp_step.
  assert (forall c s4, calm s4 -> same s3 s4 -> fit cfg c -> c_symbol c = sym -> wp False (follow sym c;; mret c) Q s4) as Hgo.
  { intros c s4 H4 S4 Hf Hc. wp_step. eapply wp_follow; [by eapply flowing_same|done..|]. intros s5 rs5 V5. wp_step. by eapply HQ. }
  wp_step; [|wp_step].
  - to_prop. eapply wp_cancel_command; [done..| |done|done|done]. by apply Z.eqb_neq.
  - to_prop. eapply wp_modify_command; [done|by rewrite (proj1 S3)|done..| |done|done|done]. by apply Z.eqb_neq.
  - eapply wp_new_command; [done|apply Htr|done..].
Qed.

Lemma wp_messages e0 l : forall s rs cs (Q : list Command -> t -> Prop), flowing s rs e0 cs ->
  (forall out s' rs', length out = length l -> Forall (fit cfg) out -> flowing s' rs' e0 (cs ++ out) -> Q out s') ->
  wp False (for_append l (fun i => c ← message log log1p cfg lo hi i; mret [c])) Q s.
Proof.
  induction l as [|i l IH]; intros s rs cs Q H HQ; cbn [for_append].
  - wp_step. eapply (HQ [] s rs); [done|done|]. by rewrite app_nil_r.
  - wp_step. wp_step. eapply wp_send; [done|]. intros c s1 rs1 Hf V1. wp_step. wp_step. eapply IH; [done|]. intros out s2 rs2 Hl Hall V2. wp_step.
    apply (HQ _ _ rs2); [cbn; lia|by constructor|]. by rewrite <- app_assoc in V2.
Qed.
Lemma made_engine : exists e0 : MatchingEngine.t Bk, MatchingEngine.make (symbols cfg) (book cfg) = Some e0 /\ Forall2 ba_rep e0 ((fun i => RB.make i (book cfg)) <$> seqZ 0 (symbols cfg)).
Proof.
  unfold MatchingEngine.make. induction (seqZ 0 (symbols cfg)) as [|i l (e & He & Hall)]; [by exists []|]. destruct (ba_rep_make i (book cfg) (F_book _ fine)) as (b & Hb & Hrep).
  exists (b :: e). cbn [mapM]. rewrite Hb. cbn [mbind option_bind]. rewrite He. split; [done|by constructor].
Qed.
Lemma made_book i : book_fine (RB.make i (book cfg)).
Proof. destruct (make_config i (book cfg) (F_book _ fine)) as (H1 & H2 & H3). split; [done|done|done|apply H3|]. intros id. cbn. rewrite lookup_empty. by intros ?%is_Some_None. Qed.

(** What the generator leaves behind. *)
Record flow s (cmds : list Command) : Prop := {
  L_count : length cmds = Z.to_nat (messages cfg);
  L_fit : Forall (fit cfg) cmds;
  L_ran : exists e0 es, MatchingEngine.make (symbols cfg) (book cfg) = Some e0 /\ MatchingEngine.run e0 cmds = Some (engine s, es);
  L_live : forall sym b, (engine s).[sym] = Some b -> exists x, (st s).[sym] = Some x /\ sym_ok x /\ forall id, ba_contains b id = Some (bool_decide (listed x id));
}.
Lemma generated : exists s cmds, generate log log1p cfg = Some (s, cmds) /\ flow s cmds.
Proof.
  destruct made_engine as (e0 & He & Hall). pose proof bounds as Hb. unfold generate. rewrite He. cbn [mbind option_bind].
  assert (512 <= cfg_num_levels (book cfg) / 2 <= cfg_num_levels (book cfg)) by (split; [apply Z.div_le_lower_bound|apply Z.div_le_upper_bound]; lia).
  assert (cfg_num_levels (book cfg) / 2 <= cfg_num_levels (book cfg) - 512) by (apply Z.div_le_upper_bound; lia).
  unfold lo_price, hi_price. rewrite (px_ok (cfg_min_price (book cfg) + 512)) by (unfold in_i64; lia). cbn [mbind option_bind].
  rewrite (px_ok (cfg_min_price (book cfg) + cfg_num_levels (book cfg))) by (unfold in_i64; lia). cbn [mbind option_bind]. rewrite (px_ok (_ - 512)) by (unfold in_i64; lia). cbn [mbind option_bind].
  rewrite px_ok by (unfold in_i64; lia). cbn [mbind option_bind].
  set (m := cfg_min_price (book cfg) + cfg_num_levels (book cfg) / 2). set (s0 := mk _ _ _ _ _). set (rs := (fun i => RB.make i (book cfg)) <$> seqZ 0 (symbols cfg)) in *.
  assert (flowing s0 rs e0 []) as V0.
  { split.
    - split; [apply Rng.rng_wf_make|cbn; unfold in_u64; lia].
    - done.
    - apply Forall_fmap, Forall_true. intros i. apply made_book.
    - cbn [st s0]. unfold rs. apply Forall2_fmap_r. assert (Z.to_nat (symbols cfg) = length (seqZ 0 (symbols cfg))) as -> by (rewrite length_seqZ; lia).
      generalize (seqZ 0 (symbols cfg)) as l. intros l. induction l as [|i l IH]; [constructor|]. cbn [length replicate]. constructor; [|done]. split; [apply sym_ok_empty|cbn; unfold lo_of, hi_of, m; lia|].
      intros id. unfold listed. cbn. by rewrite !lookup_empty.
    - unfold alen, rs. rewrite length_fmap, length_seqZ. lia.
    - by exists []. }
  assert (wp False (for_append (seqZ 0 (messages cfg)) (fun i => c ← message log log1p cfg lo hi i; mret [c]))
    (fun cmds s => exists rs', length cmds = length (seqZ 0 (messages cfg)) /\ Forall (fit cfg) cmds /\ flowing s rs' e0 cmds) s0) as Hwp by (eapply wp_messages; [exact V0|by eauto]).
  apply wp_total in Hwp as (s & cmds & E & rs' & Hl & Hf & V). exists s, cmds. split; [exact E|]. split; [by rewrite Hl, length_seqZ|done| |].
  - destruct (W_run _ _ _ _ V) as [es Hes]. by exists e0, es.
  - intros sym b Hsb. assert (0 <= sym < alen rs') as Hi by (apply aget_bound in Hsb; pose proof (Forall2_length _ _ _ (W_books _ _ _ _ V)); unfold alen in *; lia).
    destruct (lookup_Forall2 _ _ _ _ (W_books _ _ _ _ V) Hi) as (b0 & r & Hb0 & Hr & Hrep). assert (b0 = b) as -> by congruence.
    destruct (lookup_Forall2 _ _ _ _ (W_syms _ _ _ _ V) Hi) as (x & r0 & Hx & Hr0 & [K1 _ K3]). assert (r0 = r) as -> by congruence. exists x. split_and!; [done|done|].
    intros id. rewrite (ba_rep_contains _ _ _ Hrep). unfold RB.contains. f_equal. apply bool_decide_ext. by rewrite K3.
Qed.
Lemma fit_commands cmds : Forall (fit cfg) cmds -> commands_ok (book cfg) cmds.
Proof.
  intros H. split; [|right; exists 5000; split_and!; [lia| |]].
  - eapply Forall_impl; [exact H|]. intros c [_ _ Hp Hq]. split; [done|lia].
  - destruct (F_book _ fine) as (_ & Hm & _). unfold kNil in Hm. lia.
  - eapply Forall_impl; [exact H|]. intros c [_ _ _ Hq]. lia.
Qed.
End flow.

(** C33: for every configuration the generator takes, over any book that keeps the interface's promise, it never aborts:
    it writes the messages asked for, on an engine that has carried them all out; its table of live orders is at the end
    (and, the number of messages being any, after each of them) exactly the orders in the books; the stream is one on which
    the engine and the reference engine agree; and the file that exsim_gen writes of it reads back as the same messages. *)
Theorem workload_generated {Bk} {BA : BookApi Bk} {BL : BookApiLaws Bk} log log1p cfg : cfg_fine cfg -> logs_ok log log1p ->
  exists (s : t (Bk := Bk)) cmds, generate log log1p cfg = Some (s, cmds) /\ generate_workload (Bk := Bk) log log1p cfg = Some (cmds, mix s) /\ flow cfg s cmds /\ commands_ok (book cfg) cmds /\
    Wire.decode_stream (Wire.encode_stream cmds) = Some (Wire.wire_view <$> cmds, Wire.mkStats (Z.of_nat (length cmds)) 0 false).
Proof.
  intros Hf Hl. destruct (generated (Bk := Bk) log log1p cfg Hf Hl) as (s & cmds & E & Hflow). exists s, cmds. split_and!; [done| |done| |].
  - unfold generate_workload. by rewrite E.
  - apply fit_commands; [done|apply Hflow].
  - apply Wire.capture_round_trip. eapply Forall_impl; [apply (L_fit _ _ _ Hflow)|]. by intros c [].
Qed.
End WorkloadLaws.

(** ** A flow *)

Module WorkloadDemo.
Import Workload WorkloadLaws.

(** Logarithms coarse enough to compute with. *)
Definition coarse_log (v : double) : double := if dlt v (lit 1 2) then of_int (-2) else of_int (-1).
Definition coarse_log1p (_ : double) : double := of_int (-1).
Lemma coarse_logs_ok : logs_ok coarse_log coarse_log1p.
Proof. intros g p _. unfold coarse_log, coarse_log1p. destruct (dlt _ _); eexists; vm_compute; reflexivity. Qed.
Definition demo : WorkloadConfig := mkConfig 60 2 7 8 false (mkBookConfig (-100) 1024 64 DecrementCancel).
Lemma demo_fine : cfg_fine demo.
Proof. split; cbn; [split_and!|lia..]; try done; lia. Qed.
Lemma workload_generated_witness : exists (s : t (Bk := RB.t)) cmds, generate coarse_log coarse_log1p demo = Some (s, cmds) /\ flow demo s cmds.
Proof. destruct (workload_generated (Bk := RB.t) coarse_log coarse_log1p demo demo_fine coarse_logs_ok) as (s & cmds & E & _ & Hf & _). exists s, cmds. split; [exact E|exact Hf]. Defined.
(** Of these sixty messages forty are new orders, seventeen cancels and three modifies. *)
Example demo_mix : (fun x => (length x.1, new_orders x.2, cancels x.2, modifies x.2)) <$> generate_workload (Bk := RB.t) coarse_log coarse_log1p demo = Some (60%nat, 40, 17, 3).
Proof. vm_compute. reflexivity. Qed.
End WorkloadDemo.
