(* ===== verification/Wasm.v ===== *)
(** * The browser's interface to one order book (wasm/engine_wasm.cpp)

    The C functions a script calls: they share one book, the events of the last command and two buffers the script reads
    through pointers. [Wasm] models them; [WasmSpec] is the same interface over the reference book, each answer said
    outright; the theorem is that a script cannot tell them apart, whatever it calls. *)
From Stdlib Require Import Floats.SpecFloat.
From S2P Require Import Prelude Bits StateM Common Rng Interfaces PriceBitmap OrderStore OrderIndex ReferenceBook OrderBook BookRefine BookEquiv BookRules BookQueries BookLaws BookApi.
Import Rng (double, of_int, lit).

(** [static_cast<int>]. *)
Definition i32 (x : Z) : Z := (x + 2147483648) mod 4294967296 - 2147483648.
Definition in_i32 (x : Z) : Prop := -2147483648 <= x < 2147483648.
Lemma i32_small x : in_i32 x -> i32 x = x.
Proof. unfold i32, in_i32. intros. rewrite Z.mod_small; lia. Qed.

Module Wasm.

Record Level := mkLevel { px : Z; qty : Z; orders : Z }.
Record Resting := mkResting { id : Z; r_qty : Z; owner : Z }.

(** [g_book], null until [ex_init], [g_sink], [g_depth] and [g_queue]. *)
Record t (Bk : Type) := mk { g_book : option Bk; g_sink : list Event; g_depth : list Level; g_queue : list Resting }.
Arguments mk {Bk}.
Arguments g_book {Bk}.
Arguments g_sink {Bk}.
Arguments g_depth {Bk}.
Arguments g_queue {Bk}.
Definition loaded {Bk} : t Bk := mk None [] [] [].

Definition kMinPrice : Z := 0.
Definition kLevels : Z := 4096.
Definition config : BookConfig := mkBookConfig kMinPrice kLevels 65536 StpNone.

(** *** What a script passes *)

(** A conversion of a double to [OrderId]: toward zero, undefined out of range. *)
Definition trunc (x : double) : option Z :=
  match x with
  | S754_zero _ => Some 0
  | S754_finite s m e => let n := if 0 <=? e then Zpos m * 2 ^ e else Zpos m / 2 ^ (- e) in Some (if s then - n else n)
  | _ => None
  end.
Definition to_id (x : double) : option Z := n ← trunc x; if (0 <=? n) && (n <? 18446744073709551616) then Some n else None.
(** The enumerations have a byte; a value that names nothing has no model. *)
Definition to_side (v : Z) : option Side := match u8 v with 0 => Some Buy | 1 => Some Sell | _ => None end.
Definition to_ord_type (v : Z) : option OrdType := match u8 v with 0 => Some Limit | 1 => Some Market | _ => None end.
Definition to_tif (v : Z) : option Tif := match u8 v with 0 => Some Day | 1 => Some Ioc | 2 => Some Fok | _ => None end.
(** The [switch] of [ex_submit]: no case for other values. *)
Definition to_type (v : Z) : option MsgType := match u8 v with 1 => Some NewOrder | 2 => Some Cancel | 3 => Some Modify | _ => None end.
Definition command (ty : MsgType) (id : Z) (side : Side) (ord_type : OrdType) (tif : Tif) (post_only price qty owner : Z) : Command :=
  mkCommand id price 0 0 qty owner 0 ty side ord_type tif (if post_only =? 0 then 0 else kFlagPostOnly).

Inductive Call :=
  | Init
  | Submit (type : Z) (id : double) (side ord_type tif post_only price qty owner : Z)
  | Events
  | EventSize
  | BestBid
  | BestAsk
  | OrderCount
  | CheckInvariants
  | Depth (side max_levels : Z)
  | DepthPtr
  | Queue (side price : Z)
  | QueuePtr
  | Find (id : double).

(** What comes back: a number, what a pointer points to, or an order with its out parameters when they are written. *)
Inductive Answer :=
  | Nothing
  | Int (n : Z)
  | TheEvents (es : list Event)
  | TheDepth (l : list Level)
  | TheQueue (l : list Resting)
  | Found (qty : Z) (out : option (Z * Z * Z)).

Section book.
Context {S I B : Type} `{OrderFields S, IdIndex I, LevelSet B}.
Abbreviation Book := (OB.t S I B).
Implicit Types (s : t Book).

Definition ex_init s : option (t Book) :=
  b ← OB.make 0 config;
  Some (mk (Some b) [] (g_depth s) (g_queue s)).

Definition ex_submit s (type : Z) (id : double) (side ord_type tif post_only price qty owner : Z) : option (t Book * Z) :=
  i ← to_id id;
  sd ← to_side side;
  o ← to_ord_type ord_type;
  f ← to_tif tif;
  match to_type type with
  | None => Some (mk (g_book s) [] (g_depth s) (g_queue s), 0)
  | Some ty =>
      let c := command ty i sd o f post_only price qty owner in
      b ← g_book s;
      '(b, es) ← match ty with NewOrder => OB.add b c | Cancel => OB.cancel b c | Modify => OB.modify b c end;
      Some (mk (Some b) es (g_depth s) (g_queue s), i32 (alen es))
  end.

Definition ex_events s : list Event := g_sink s.
Definition ex_event_size : Z := 48.

Definition ex_best_bid s : option Z := b ← g_book s; Some (match OB.best_bid b with Some p => i32 p | None => -1 end).
Definition ex_best_ask s : option Z := b ← g_book s; Some (match OB.best_ask b with Some p => i32 p | None => -1 end).
Definition ex_order_count s : option Z := b ← g_book s; Some (i32 (OB.order_count b)).
Definition ex_check_invariants s : option Z := b ← g_book s; ok ← OB.check_invariants b; Some (if ok : bool then 1 else 0).

(** The callback of [ex_depth]. *)
Definition depth_visit (max_levels : Z) (l : list Level) (x : Z * Z * Z) : list Level :=
  let '(p, _, q) := x in
  match last l with
  | Some b => if px b =? p then removelast l ++ [mkLevel (px b) (u32 (qty b + u32 q)) (u32 (orders b + 1))]
              else if i32 (alen l) <? max_levels then l ++ [mkLevel (i32 p) (u32 q) 1] else l
  | None => if i32 (alen l) <? max_levels then l ++ [mkLevel (i32 p) (u32 q) 1] else l
  end.
Definition ex_depth s (side max_levels : Z) : option (t Book * Z) :=
  sd ← to_side side;
  b ← g_book s;
  xs ← OB.for_each_order b sd;
  let l := foldl (depth_visit max_levels) [] xs in
  Some (mk (Some b) (g_sink s) l (g_queue s), i32 (alen l)).
Definition ex_depth_ptr s : list Level := g_depth s.

(** The callback of [ex_queue]. *)
Definition queue_visit (b : Book) (price : Z) (l : list Resting) (x : Z * Z * Z) : option (list Resting) :=
  let '(p, i, q) := x in
  if p =? price then
    v ← OB.find_order b i;
    Some (l ++ [mkResting i (u32 q) (match v with Some v => v_owner v | None => 0 end)])
  else Some l.
Fixpoint queue_visits (b : Book) (price : Z) (l : list Resting) (xs : list (Z * Z * Z)) : option (list Resting) :=
  match xs with [] => Some l | x :: xs => l ← queue_visit b price l x; queue_visits b price l xs end.
Definition ex_queue s (side price : Z) : option (t Book * Z) :=
  sd ← to_side side;
  b ← g_book s;
  xs ← OB.for_each_order b sd;
  l ← queue_visits b price [] xs;
  Some (mk (Some b) (g_sink s) (g_depth s) l, i32 (alen l)).
Definition ex_queue_ptr s : list Resting := g_queue s.

Definition ex_find s (id : double) : option (Z * option (Z * Z * Z)) :=
  i ← to_id id;
  b ← g_book s;
  o ← OB.find_order b i;
  Some (match o with
        | None => (0, None)
        | Some v => (u32 (v_qty v), Some (i32 (v_price v), match v_side v with Buy => 0 | Sell => 1 end, v_owner v))
        end).

(** A call of the script. *)
Definition call s (c : Call) : option (t Book * Answer) :=
  let ask (o : option Z) := n ← o; Some (s, Int n) in
  let change (o : option (t Book * Z)) := '(s, n) ← o; Some (s, Int n) in
  match c with
  | Init => s ← ex_init s; Some (s, Nothing)
  | Submit ty i sd o f p px q w => change (ex_submit s ty i sd o f p px q w)
  | Events => Some (s, TheEvents (ex_events s))
  | EventSize => Some (s, Int ex_event_size)
  | BestBid => ask (ex_best_bid s)
  | BestAsk => ask (ex_best_ask s)
  | OrderCount => ask (ex_order_count s)
  | CheckInvariants => ask (ex_check_invariants s)
  | Depth sd n => change (ex_depth s sd n)
  | DepthPtr => Some (s, TheDepth (ex_depth_ptr s))
  | Queue sd p => change (ex_queue s sd p)
  | QueuePtr => Some (s, TheQueue (ex_queue_ptr s))
  | Find i => '(q, out) ← ex_find s i; Some (s, Found q out)
  end.
Fixpoint script s (cs : list Call) : option (t Book * list Answer) :=
  match cs with
  | [] => Some (s, [])
  | c :: cs => '(s, a) ← call s c; '(s, l) ← script s cs; Some (s, a :: l)
  end.
End book.
End Wasm.

(** ** What the script is told *)

Module WasmSpec.
Import Wasm.

Definition total (q : list RB.Order) : Z := foldr (fun o n => RB.o_qty o + n) 0 q.
(** The levels of a side, best first: as many as asked for. *)
Definition depth (r : RB.t) (s : Side) (n : Z) : list Level :=
  (fun x => mkLevel x.1 (u32 (total x.2)) (alen x.2)) <$> take (Z.to_nat n) (RB.book r s).
(** The queue at a price, in time order. *)
Definition queue (r : RB.t) (s : Side) (p : Z) : list Resting :=
  (fun o => mkResting (RB.o_id o) (RB.o_qty o) (RB.o_owner o)) <$> default [] (RB.map_find (RB.book r s) p).

Definition call (s : t RB.t) (c : Call) : option (t RB.t * Answer) :=
  match c with
  | Init => Some (mk (Some (RB.make 0 config)) [] (g_depth s) (g_queue s), Nothing)
  | Events => Some (s, TheEvents (g_sink s))
  | DepthPtr => Some (s, TheDepth (g_depth s))
  | QueuePtr => Some (s, TheQueue (g_queue s))
  | EventSize => Some (s, Int 48)
  | Submit ty i sd o f p px q w =>
      i ← to_id i; sd ← to_side sd; o ← to_ord_type o; f ← to_tif f;
      match to_type ty with
      | None => Some (mk (g_book s) [] (g_depth s) (g_queue s), Int 0)
      | Some ty =>
          r ← g_book s;
          '(r, es) ← RB.step r (command ty i sd o f p px q w);
          Some (mk (Some r) es (g_depth s) (g_queue s), Int (i32 (alen es)))
      end
  | BestBid => r ← g_book s; Some (s, Int (default (-1) (RB.best_bid r)))
  | BestAsk => r ← g_book s; Some (s, Int (default (-1) (RB.best_ask r)))
  | OrderCount => r ← g_book s; Some (s, Int (RB.order_count r))
  | CheckInvariants => r ← g_book s; Some (s, Int 1)
  | Depth sd n => sd ← to_side sd; r ← g_book s; let l := depth r sd n in Some (mk (g_book s) (g_sink s) l (g_queue s), Int (alen l))
  | Queue sd p => sd ← to_side sd; r ← g_book s; let l := queue r sd p in Some (mk (g_book s) (g_sink s) (g_depth s) l, Int (alen l))
  | Find i =>
      i ← to_id i; r ← g_book s; o ← RB.find_order r i;
      Some (s, match o with Some v => Found (v_qty v) (Some (v_price v, Side_to_Z (v_side v), v_owner v)) | None => Found 0 None end)
  end.
Fixpoint script (s : t RB.t) (cs : list Call) : option (t RB.t * list Answer) :=
  match cs with
  | [] => Some (s, [])
  | c :: cs => '(s, a) ← call s c; '(s, l) ← script s cs; Some (s, a :: l)
  end.
End WasmSpec.

Module WasmLaws.
Import Wasm.
Import BookRefine BookEquiv BookQueries.

(** A reference book of this interface. *)
Record fine (r : RB.t) : Prop := {
  F_wf : RB.wf r;
  F_cfg : config_of config r;
  F_max : RB.max_price_ r = 4095;
  F_qty : bounded_book 4294967295 r;
}.
Lemma fine_made : fine (RB.make 0 config).
Proof.
  destruct (make_config 0 config) as (Hc & Hw & Hb); [|by split; [| |vm_compute|apply Hb]].
  unfold cfg_ok, level_count_ok, in_i64, kNil. simpl. unfold kLevels, kMinPrice. split_and!; try done; lia.
Qed.

(** What a script can pass: numbers of the widths of the parameters. *)
Definition passes (c : Call) : Prop :=
  match c with
  | Submit ty _ sd o f p px q w => in_i32 px /\ in_u32 q
  | Depth sd n => in_i32 n
  | Queue sd p => in_i32 p
  | _ => True
  end.

Section ref.
Context (r : RB.t) (Hr : fine r).

Lemma price_small s p q : (p, q) ∈ RB.book r s -> 0 <= p <= 4095.
Proof.
  intros Hin. assert (p ∈ RB.prices (RB.book r s)) as Hp%(RB.wf_band r (F_wf r Hr)) by (apply list_elem_of_fmap; by exists (p, q)).
  destruct (F_cfg r Hr) as (Hmin & _). rewrite (F_max r Hr), Hmin in Hp. exact Hp.
Qed.
Lemma prices_NoDup s : NoDup (RB.prices (RB.book r s)).
Proof.
  pose proof (RB.wf_sorted r (F_wf r Hr) s) as Hs. induction (RB.book r s) as [|[p q] m IH]; [constructor|].
  apply RB.sorted_cons in Hs as [Hs Hlt]. apply NoDup_cons. split; [|auto]. intros Hp%Hlt. by apply RB.lt_side_irrefl in Hp.
Qed.
Lemma levels_small s : (length (RB.book r s) <= 4096)%nat.
Proof.
  rewrite <- (length_fmap fst). transitivity (length (seqZ 0 4096)); [|by rewrite length_seqZ].
  apply submseteq_length, NoDup_submseteq; [apply prices_NoDup|]. intros p ([p' q] & -> & Hin)%list_elem_of_fmap.
  apply elem_of_seqZ. pose proof (price_small s _ _ Hin). cbn. lia.
Qed.
Lemma count_small : 0 <= RB.order_count r <= 65536.
Proof. pose proof (RB.wf_cap r (F_wf r Hr)) as H. destruct (F_cfg r Hr) as (_ & _ & Hc & _). rewrite Hc in H. unfold RB.order_count in *. cbn in *. lia. Qed.
Lemma queue_small s p q : (p, q) ∈ RB.book r s -> alen q <= 65536.
Proof.
  intros Hin. pose proof count_small as Hc. unfold RB.order_count, alen in *. assert (length q <= size (RB.index_ r))%nat; [|lia].
  assert (NoDup (RB.o_id <$> q)) as Hn.
  { pose proof (RB.wf_ids r (F_wf r Hr) s) as Hn. apply list_elem_of_split in Hin as (m1 & m2 & E). rewrite E, RB.ids_app, RB.ids_cons in Hn.
    apply NoDup_app in Hn as (_ & _ & Hn). by apply NoDup_app in Hn as [Hn _]. }
  rewrite <- size_dom, <- (length_fmap RB.o_id), <- (size_list_to_set (C := gset Z)) by done. apply subseteq_size. intros i.
  rewrite elem_of_list_to_set, elem_of_dom. intros (o & -> & Ho)%list_elem_of_fmap. exists (RB.mkLoc s p). apply (RB.wf_index r (F_wf r Hr)).
  apply RB.elem_of_keys. exists q, o. done.
Qed.
Lemma order_small s p q o : (p, q) ∈ RB.book r s -> o ∈ q -> 0 < RB.o_qty o <= 4294967295.
Proof.
  intros Hin Ho. pose proof (RB.wf_pos r (F_wf r Hr) s) as H1. pose proof (F_qty r Hr s) as H2. unfold RB.positive, bounded in *. rewrite Forall_forall in H1, H2.
  destruct (H1 _ Hin) as [_ H3]. specialize (H2 _ Hin). rewrite Forall_forall in H2, H3. specialize (H2 _ Ho). specialize (H3 _ Ho). cbn in *. lia.
Qed.

(** *** Depth *)

Lemma last_px (l : list Level) b : last (l ++ [b]) = Some b /\ removelast (l ++ [b]) = l.
Proof. split; [apply last_snoc|apply removelast_last]. Qed.

(** The rest of a level whose first order is in the list. *)
Lemma level_visits n p q : forall l u k, 0 <= u < 4294967296 -> 0 <= k -> k + alen q < 4294967296 ->
  foldl (depth_visit n) (l ++ [mkLevel p u k]) ((fun o => (p, RB.o_id o, RB.o_qty o)) <$> q) = l ++ [mkLevel p (u32 (u + WasmSpec.total q)) (k + alen q)].
Proof.
  induction q as [|o q IH]; intros l u k Hu Hk Hq; cbn [fmap list_fmap foldl].
  - unfold alen, WasmSpec.total. cbn. rewrite !Z.add_0_r, u32_small by done. done.
  - unfold depth_visit at 2. destruct (last_px l (mkLevel p u k)) as [-> ->]. cbn [px qty orders]. rewrite Z.eqb_refl.
    unfold alen in Hq. cbn [length] in Hq. unfold alen in IH. rewrite IH; [|apply in_u32_u32|unfold u32; apply Z.mod_pos_bound; lia|rewrite u32_small by (unfold in_u32; lia); lia].
    rewrite (u32_small (k + 1)) by (unfold in_u32; lia). do 3 f_equal; [|unfold alen; cbn [length]; lia].
    unfold u32, WasmSpec.total. cbn [foldr]. rewrite Zplus_mod_idemp_l, <- (Zplus_mod_idemp_l (u + _ mod _)), Zplus_mod_idemp_r, Zplus_mod_idemp_l. f_equal. lia.
Qed.
(** A level the list has no room for. *)
Lemma level_skipped n p q l : n <= alen l -> alen l <= 4096 -> (forall b, last l = Some b -> px b <> p) ->
  foldl (depth_visit n) l ((fun o => (p, RB.o_id o, RB.o_qty o)) <$> q) = l.
Proof.
  intros Hn Hl Hp. induction q as [|o q IH]; [done|]. cbn [fmap list_fmap foldl]. unfold depth_visit at 2.
  rewrite (i32_small (alen l)) by (pose proof (alen_nonneg l); unfold in_i32; lia). rewrite (proj2 (Z.ltb_ge _ _)) by lia.
  destruct (last l) as [b|]; [|done]. rewrite (proj2 (Z.eqb_neq _ _)) by auto. done.
Qed.
Lemma depth_visits n m : forall l, 0 <= n -> alen l + Z.of_nat (length m) <= 4096 -> NoDup (RB.prices m) -> (forall b, last l = Some b -> px b ∉ RB.prices m) ->
  Forall (fun x => 0 <= x.1 <= 4095 /\ x.2 <> [] /\ alen x.2 <= 65536) m ->
  foldl (depth_visit n) l ('(p, q) ← m; (fun o => (p, RB.o_id o, RB.o_qty o)) <$> q) =
  l ++ ((fun x => mkLevel x.1 (u32 (WasmSpec.total x.2)) (alen x.2)) <$> take (Z.to_nat (n - alen l)) m).
Proof.
  induction m as [|[p q] m IH]; intros l Hn Hl Hd Hb Hm; [by rewrite take_nil, app_nil_r|].
  apply NoDup_cons in Hd as [Hp Hd]. apply Forall_cons in Hm as [(Hp' & Hq & Hs) Hm]. cbn [fst snd length] in *. pose proof (alen_nonneg l) as Hl0.
  change (('(p0, q0) ← (p, q) :: m; (fun o => (p0, RB.o_id o, RB.o_qty o)) <$> q0)) with
    (((fun o => (p, RB.o_id o, RB.o_qty o)) <$> q) ++ ('(p, q) ← m; (fun o => (p, RB.o_id o, RB.o_qty o)) <$> q)). rewrite foldl_app.
  assert (forall b, last l = Some b -> px b <> p) as Hlast by (intros b Hb' <-; apply (Hb b Hb'); by left).
  destruct (decide (alen l < n)) as [Hroom|Hfull].
  - destruct q as [|o q]; [done|]. cbn [fmap list_fmap foldl]. assert (depth_visit n l (p, RB.o_id o, RB.o_qty o) = l ++ [mkLevel p (u32 (RB.o_qty o)) 1]) as ->.
    { unfold depth_visit. rewrite (i32_small (alen l)), (i32_small p) by (unfold in_i32; lia). rewrite (proj2 (Z.ltb_lt _ _) Hroom).
      destruct (last l) as [b|]; [|done]. by rewrite (proj2 (Z.eqb_neq _ _)) by auto. }
    unfold alen in Hs. cbn [length] in Hs. rewrite level_visits by (try apply in_u32_u32; unfold alen in *; lia). rewrite IH; [|done| |done| |done].
    + replace (Z.to_nat (n - alen l)) with (Datatypes.S (Z.to_nat (n - alen (l ++ [mkLevel p (u32 (u32 (RB.o_qty o) + WasmSpec.total q)) (1 + alen q)])))) by (unfold alen in *; rewrite length_app; cbn; lia).
      cbn [take]. rewrite fmap_cons, <- app_assoc. cbn [fst snd app]. f_equal. f_equal. f_equal; [|unfold alen; cbn [length]; lia].
      unfold u32, WasmSpec.total. cbn [foldr]. by rewrite Zplus_mod_idemp_l.
    + unfold alen in *. rewrite length_app. cbn. lia.
    + intros b. rewrite last_snoc. intros [= <-]. done.
  - rewrite level_skipped; [|lia|lia|done]. rewrite IH; [|done|lia|done| |done].
    + by replace (Z.to_nat (n - alen l)) with 0%nat by lia.
    + intros b Hb' Hin. apply (Hb b Hb'). by right.
Qed.
Lemma depth_ok s n : foldl (depth_visit n) [] (RB.for_each_order r s) = WasmSpec.depth r s n.
Proof.
  unfold RB.for_each_order, WasmSpec.depth. destruct (decide (0 <= n)) as [Hn|Hn].
  - rewrite depth_visits; [by unfold alen; rewrite Z.sub_0_r|done| |apply prices_NoDup|done|].
    + pose proof (levels_small s). unfold alen. cbn. lia.
    + apply Forall_forall. intros [p q] Hin. pose proof (price_small s p q Hin). pose proof (queue_small s p q Hin).
      pose proof (RB.wf_pos r (F_wf r Hr) s) as H1. unfold RB.positive in H1. rewrite Forall_forall in H1. by destruct (H1 _ Hin).
  - replace (Z.to_nat n) with 0%nat by lia. cbn [take fmap list_fmap]. generalize ('(px, q) ← RB.book r s; (fun o => (px, RB.o_id o, RB.o_qty o)) <$> q).
    intros l. induction l as [|[[p i] q] l IH]; [done|]. cbn [foldl]. unfold depth_visit at 2. cbn [last]. rewrite (i32_small (alen [])) by (unfold in_i32, alen; cbn; lia).
    unfold alen. cbn [length]. by rewrite (proj2 (Z.ltb_ge _ _)) by lia.
Qed.
End ref.

(** *** The interface follows the reference *)

Section follow.
Context {S I B : Type} {OF : OrderFields S} {OFL : OrderFieldsLaws S} {IX : IdIndex I} {IXL : IdIndexLaws I}
  {LS : LevelSet B} {LSL : LevelSetLaws B}.
Abbreviation st := (t (OB.t S I B)).

Abbreviation resting := (fun o => mkResting (RB.o_id o) (RB.o_qty o) (RB.o_owner o)).
Lemma level_queued (b : OB.t S I B) r s p q price xs : fine r -> R b r -> (p, q) ∈ RB.book r s -> forall q1 q2 l, q = q1 ++ q2 ->
  queue_visits b price l (((fun o => (p, RB.o_id o, RB.o_qty o)) <$> q2) ++ xs) =
  queue_visits b price (if p =? price then l ++ (resting <$> q2) else l) xs.
Proof.
  intros Hr HR Hin q1 q2. revert q1. induction q2 as [|o q2 IH]; intros q1 l E; [rewrite app_nil_r; by case_match|].
  cbn [fmap list_fmap app queue_visits queue_visit].
  assert (o ∈ q) as Ho by (rewrite E; set_solver). rewrite (find_order_spec b r _ HR), (BookLaws.find_order_book r s p q o (F_wf r Hr) Hin Ho).
  pose proof (order_small r Hr s p q o Hin Ho) as Hs. rewrite (u32_small (RB.o_qty o)) by (unfold in_u32; lia).
  cbn [mbind option_bind v_owner]. rewrite (cons_middle o q1 q2), app_assoc in E. destruct (p =? price) eqn:Ep; cbn [mbind option_bind].
  - etransitivity; [exact (IH _ _ E)|]. rewrite ?Ep, <- app_assoc. done.
  - etransitivity; [exact (IH _ _ E)|]. by rewrite ?Ep.
Qed.
Lemma levels_queued (b : OB.t S I B) r s price : fine r -> R b r -> forall m l, (forall x, x ∈ m -> x ∈ RB.book r s) -> NoDup (RB.prices m) ->
  queue_visits b price l ('(p, q) ← m; (fun o => (p, RB.o_id o, RB.o_qty o)) <$> q) = Some (l ++ (resting <$> default [] (RB.map_find m price))).
Proof.
  intros Hr HR m. induction m as [|[p q] m IH]; intros l Hm Hd; [cbn; by rewrite app_nil_r|]. apply NoDup_cons in Hd as [Hp Hd].
  assert ((p, q) ∈ RB.book r s) as Hin by (apply Hm; by left).
  etransitivity; [exact (level_queued b r s p q price _ Hr HR Hin [] q l eq_refl)|]. etransitivity; [apply IH; [|done]; intros; apply Hm; by right|].
  cbn [RB.map_find]. destruct (Z.eqb_spec p price) as [->|]; [|done]. rewrite BookApi.map_find_none by done. cbn [default from_option id]. by rewrite app_nil_r.
Qed.

(** The same state, over the reference book. *)
Record follows (s : st) (s' : t RB.t) : Prop := {
  W_book : match g_book s, g_book s' with Some b, Some r => R b r /\ fine r | None, None => True | _, _ => False end;
  W_sink : g_sink s = g_sink s';
  W_depth : g_depth s = g_depth s';
  W_queue : g_queue s = g_queue s';
}.
Lemma follows_loaded : follows loaded loaded.
Proof. by split. Qed.
(** Both fail, or both go on alike. *)
Definition alike {A} (o : option (t (OB.t S I B) * A)) (o' : option (t RB.t * A)) : Prop :=
  match o, o' with Some (s, a), Some (s', a') => follows s s' /\ a = a' | None, None => True | _, _ => False end.

Lemma step_fine r c : fine r -> in_i64 (c_price c) -> in_u32 (c_qty c) ->
  cmd_ok r c /\ forall r' es, RB.step r c = Some (r', es) -> fine r'.
Proof.
  intros [Hw Hc Hmax Hb] Hp Hq. pose proof Hc as (Hmin & Hstp & Hcap & Hband). unfold in_i64, in_u32 in *. split.
  - split; [rewrite Hmin; cbn; unfold kMinPrice, in_i64; lia|lia|]. intros _ _ _. apply (bounded_agg 4294967295); [done|done|lia|]. rewrite Hcap. cbn. lia.
  - intros r' es E. destruct (RB.step_ok r c Hw Hband (proj1 Hq)) as (r1 & es1 & E1 & Hw' & Hs). rewrite E in E1. injection E1 as <- <-.
    split; [done|by eapply config_step| |eapply (step_bounded _ r c); [..|exact E]; try done; lia].
    destruct Hs as (_ & _ & -> & _). done.
Qed.
Lemma submit_alike s s' ty i sd o f p px q w : follows s s' -> in_i32 px -> in_u32 q ->
  alike ('(s, n) ← ex_submit s ty i sd o f p px q w; Some (s, Int n)) (WasmSpec.call s' (Submit ty i sd o f p px q w)).
Proof.
  intros [Hb Hs Hd Hq] Hp Hu. unfold ex_submit. cbn [WasmSpec.call]. destruct (to_id i) as [i'|]; [|done]. destruct (to_side sd) as [sd'|]; [|done].
  destruct (to_ord_type o) as [o'|]; [|done]. destruct (to_tif f) as [f'|]; [|done]. cbn [mbind option_bind].
  destruct (to_type ty) as [ty'|]; [|by split; [split|]]. destruct (g_book s) as [b|], (g_book s') as [r|]; try done. destruct Hb as [HR Hf].
  destruct (step_fine r (command ty' i' sd' o' f' p px q w) Hf ltac:(cbn; unfold in_i32, in_i64 in *; lia) Hu) as [Hok Hfine]. cbn [mbind option_bind].
  destruct (step_refines b r _ HR Hok) as (b' & r' & es & E1 & E2 & HR'). rewrite E2. unfold OB.step in E1. cbn [c_type command] in E1. rewrite E1. cbn [mbind option_bind].
  split; [split; cbn; eauto|done].
Qed.
Lemma made_alike s s' : follows s s' -> alike (s ← ex_init s; Some (s, Nothing)) (WasmSpec.call s' Init).
Proof.
  intros [Hb Hs Hd Hq]. unfold ex_init. destruct (make_refines (S := S) (I := I) (B := B) 0 config) as (b & -> & HR).
  { unfold cfg_ok, level_count_ok, in_i64, kNil. simpl. unfold kLevels, kMinPrice. split_and!; try done; lia. }
  cbn [mbind option_bind WasmSpec.call]. split; [|done]. split; cbn; try done. split; [done|apply fine_made].
Qed.
Lemma best_small r s p : fine r -> p ∈ RB.prices (RB.book r s) -> i32 p = p.
Proof. intros Hf ([p' q] & -> & Hin)%list_elem_of_fmap. pose proof (price_small r Hf s p' q Hin). apply i32_small. cbn. unfold in_i32. lia. Qed.
Lemma view_small r i v : fine r -> RB.find_order r i = Some (Some v) -> i32 (v_price v) = v_price v /\ u32 (v_qty v) = v_qty v.
Proof.
  intros Hf. unfold RB.find_order. destruct (RB.index_ r !! i) as [l|] eqn:Hl; [|done].
  destruct (RB.deref_spec r i l (F_wf r Hf) Hl) as (m1 & q1 & o & q2 & m2 & Hm & _ & -> & _). cbn [mbind option_bind]. intros [= <-]. cbn [v_price v_qty].
  assert ((RB.l_price l, q1 ++ o :: q2) ∈ RB.book r (RB.l_side l)) as Hin by (rewrite Hm; set_solver).
  pose proof (price_small r Hf _ _ _ Hin). pose proof (order_small r Hf _ _ _ o Hin ltac:(set_solver)).
  split; [apply i32_small; unfold in_i32; lia|apply u32_small; unfold in_u32; lia].
Qed.
Lemma find_total r i : RB.wf r -> RB.find_order r i <> None.
Proof.
  intros Hw. unfold RB.find_order. destruct (RB.index_ r !! i) as [l|] eqn:Hl; [|done].
  by destruct (RB.deref_spec r i l Hw Hl) as (m1 & q1 & o & q2 & m2 & _ & _ & -> & _).
Qed.

(** One call. *)
Lemma call_alike s s' c : follows s s' -> passes c -> alike (call s c) (WasmSpec.call s' c).
Proof.
  intros HF. destruct c; cbn [passes]; try (by intros [? ?]; apply submit_alike); intros Hp; try (by apply made_alike);
    pose proof HF as [Hb Hs Hd Hq]; cbn [call WasmSpec.call]; unfold ex_events, ex_event_size, ex_depth_ptr, ex_queue_ptr; rewrite ?Hs, ?Hd, ?Hq; try by split.
  - unfold ex_best_bid. destruct (g_book s) as [b|], (g_book s') as [r|]; try done. destruct Hb as [HR Hf]. cbn [mbind option_bind]. rewrite (best_bid_spec b r HR).
    split; [done|]. unfold RB.best_bid. destruct (RB.bids_ r) as [|[p q] m] eqn:E; [done|]. cbn. f_equal. apply (best_small r Buy); [done|]. cbn. rewrite E. by left.
  - unfold ex_best_ask. destruct (g_book s) as [b|], (g_book s') as [r|]; try done. destruct Hb as [HR Hf]. cbn [mbind option_bind]. rewrite (best_ask_spec b r HR).
    split; [done|]. unfold RB.best_ask. destruct (RB.asks_ r) as [|[p q] m] eqn:E; [done|]. cbn. f_equal. apply (best_small r Sell); [done|]. cbn. rewrite E. by left.
  - unfold ex_order_count. destruct (g_book s) as [b|], (g_book s') as [r|]; try done. destruct Hb as [HR Hf]. cbn [mbind option_bind]. rewrite (order_count_spec b r HR).
    split; [done|]. f_equal. apply i32_small. pose proof (count_small r Hf). unfold in_i32. lia.
  - unfold ex_check_invariants. destruct (g_book s) as [b|], (g_book s') as [r|]; try done. destruct Hb as [HR Hf]. cbn [mbind option_bind]. by rewrite (check_invariants_spec b r HR).
  - unfold ex_depth. destruct (to_side side) as [sd|]; [|done]. destruct (g_book s) as [b|], (g_book s') as [r|] eqn:Er; try done. destruct Hb as [HR Hf]. cbn [mbind option_bind].
    rewrite (for_each_order_spec b r sd HR). cbn [mbind option_bind]. rewrite (depth_ok r Hf). split; [by split; cbn|]. f_equal. apply i32_small.
    pose proof (levels_small r Hf sd). unfold WasmSpec.depth, alen, in_i32. rewrite length_fmap, length_take. lia.
  - unfold ex_queue. destruct (to_side side) as [sd|]; [|done]. destruct (g_book s) as [b|], (g_book s') as [r|] eqn:Er; try done. destruct Hb as [HR Hf]. cbn [mbind option_bind].
    rewrite (for_each_order_spec b r sd HR). cbn [mbind option_bind]. unfold RB.for_each_order.
    rewrite (levels_queued b r sd price Hf HR _ []) by (done || apply (prices_NoDup r Hf)). cbn [mbind option_bind app]. split; [by split; cbn|]. f_equal. apply i32_small.
    unfold alen, in_i32, WasmSpec.queue. rewrite length_fmap. destruct (RB.map_find (RB.book r sd) price) as [q|] eqn:E; cbn; [|lia].
    apply (RB.map_find_elem sd) in E; [|apply Hf]. pose proof (queue_small r Hf sd _ _ E). unfold alen in *. lia.
  - unfold ex_find. destruct (to_id id0) as [i|]; [|done]. destruct (g_book s) as [b|], (g_book s') as [r|]; try done. destruct Hb as [HR Hf]. cbn [mbind option_bind].
    rewrite (find_order_spec b r i HR). destruct (RB.find_order r i) as [[v|]|] eqn:E; [|by split|by apply find_total in E; [|apply Hf]].
    cbn [mbind option_bind]. destruct (view_small r i v Hf E) as [-> ->]. by split.
Qed.
Lemma script_alike cs : forall s s', follows s s' -> Forall passes cs -> alike (script s cs) (WasmSpec.script s' cs).
Proof.
  induction cs as [|c cs IH]; intros s s' HF Hcs; [done|]. apply Forall_cons in Hcs as [Hc Hcs]. cbn [script WasmSpec.script].
  pose proof (call_alike s s' c HF Hc) as H. destruct (call s c) as [[s1 a1]|], (WasmSpec.call s' c) as [[s2 a2]|]; try done. destruct H as [H ->]. cbn [mbind option_bind].
  pose proof (IH _ _ H Hcs) as H'. destruct (script s1 cs) as [[s3 l3]|], (WasmSpec.script s2 cs) as [[s4 l4]|]; try done. destruct H' as [H' ->]. done.
Qed.
End follow.

(** C34: the browser's view of the book is exact: whatever functions a script calls, in whatever order, it is answered as
    the specification over the reference book answers - the events of its commands, the best prices, the aggregated depth of
    a side best first, the queue at a price in time order with each order's owner, an order by its id - and the interface
    fails only where the specification says: before the book is made, and on a code or id that is none. *)
Theorem script_sees_reference {S I B} `{OrderFieldsLaws S, IdIndexLaws I, LevelSetLaws B} (cs : list Call) : Forall passes cs ->
  snd <$> script (S := S) (I := I) (B := B) loaded cs = snd <$> WasmSpec.script loaded cs.
Proof.
  intros Hcs. pose proof (script_alike cs _ _ (follows_loaded (S := S) (I := I) (B := B)) Hcs) as Ha. unfold alike in Ha.
  destruct (script loaded cs) as [[s l]|], (WasmSpec.script loaded cs) as [[s' l']|]; try done. by destruct Ha as [_ ->].
Qed.
End WasmLaws.

(** ** A session *)

Module WasmDemo.
Import Wasm WasmLaws.
Import (hints) PriceBitmap AosStore AosLaws OrderIndex.

Definition session : list Call :=
  [Init; Submit 1 (of_int 1) 1 0 0 0 110 5 1; Submit 1 (of_int 2) 1 0 0 0 110 7 2; Submit 1 (of_int 3) 1 0 0 0 112 4 3;
   Submit 1 (of_int 4) 0 0 0 0 105 6 1; Depth 1 1; DepthPtr; Queue 1 110; QueuePtr; Submit 1 (of_int 5) 0 0 1 0 112 8 9; Events; Find (of_int 2);
   Find (of_int 1); Submit 9 (of_int 1) 0 0 0 0 0 0 0; BestBid; BestAsk; OrderCount; CheckInvariants].
Lemma session_passes : Forall passes session.
Proof. unfold session. repeat (apply Forall_cons; split; [cbn; words; unfold in_i32; lia|]). done. Qed.
Lemma script_sees_reference_witness : Forall passes session /\
  snd <$> script (S := AosStore.t) (I := OrderIndex.t LocalityHash) (B := PriceBitmap.t) loaded session = snd <$> WasmSpec.script loaded session.
Proof. split; [exact session_passes|]. exact (script_sees_reference session session_passes). Defined.
(** What the script reads: five units of order 1 and three of order 2 trade; order 2 keeps four. *)
Example session_answers : snd <$> WasmSpec.script loaded session = Some
  [Nothing; Int 1; Int 1; Int 1; Int 1; Int 1; TheDepth [mkLevel 110 12 2]; Int 2; TheQueue [mkResting 1 5 1; mkResting 2 7 2]; Int 3;
   TheEvents [accepted_event 0 5 Buy 112 8; trade_event 0 5 1 Buy 110 5 0; trade_event 0 5 2 Buy 110 3 4]; Found 4 (Some (110, 1, 2)); Found 0 None;
   Int 0; Int 105; Int 110; Int 3; Int 1].
Proof. vm_compute. reflexivity. Qed.
End WasmDemo.
