(* ===== verification/WasmBench.v ===== *)
(** * The throughput test of the browser's module (wasm/engine_wasm.cpp, [ex_bench])

    Random orders and cancels on a private book, the clock an argument. It runs to the end whatever the seed, and the list
    it draws its cancels from never misses a resting order. *)
From Stdlib Require Import Floats.SpecFloat.
From S2P Require Import Prelude Bits StateM Common Rng Doubles Interfaces ReferenceBook OrderBook BookRefine BookEquiv BookRules BookQueries BookLaws BookApi Workload WorkloadLaws Wasm.
Import Rng (double, of_int, lit, dlt).

Module WasmBench.
Import Wasm (kLevels).

Definition config : BookConfig := mkBookConfig 0 kLevels 65536 StpNone.

Section bench.
Context {S I B : Type} `{OrderFields S, IdIndex I, LevelSet B}.
Abbreviation Book := (OB.t S I B).

Record t := mk { book : Book; trades : Z; rng : Rng.t; mid : Z; live : list Z; next : Z }.
Abbreviation M := (StateM.M t).
Definition draw {A} (f : Rng.t -> Rng.t * A) : M A := fun s => let '(g, a) := f (rng s) in Some (mk (book s) (trades s) g (mid s) (live s) (next s), a).
Definition set_mid (m : Z) : M unit := update (fun s => mk (book s) (trades s) (rng s) m (live s) (next s)).
Definition set_live (l : list Z) : M unit := update (fun s => mk (book s) (trades s) (rng s) (mid s) l (next s)).
Definition new_id : M Z := fun s => Some (mk (book s) (trades s) (rng s) (mid s) (live s) (u64 (next s + 1)), next s).
(** The book takes a command; the sink counts trades. *)
Definition on (f : Book -> option (Book * list Event)) : M unit :=
  b ← gets book;
  '(b, es) ← lift (f b);
  update (fun s => mk b (foldl (fun n e => if bool_decide (e_type e = Trade) then u64 (n + 1) else n) (trades s) es) (rng s) (mid s) (live s) (next s)).

Definition walk : M unit :=
  moves ← draw (Rng.chance (lit 1 10));
  when moves (
    up ← draw (Rng.chance (lit 5 10));
    m ← gets mid;
    m ← lift (Workload.px (m + (if up : bool then 1 else -1)));
    set_mid m).
(** The last takes the place of the one that leaves. *)
Definition cancel_one : M unit :=
  l ← gets live;
  k ← draw (Rng.below (alen l));
  id ← lift l.[k];
  b ← lift (last l);
  l ← lift l.[k <- b];
  set_live (removelast l);;
  on (fun bk => OB.cancel bk (mkCommand id 0 0 0 0 0 0 Cancel Buy Limit Day 0)).
Definition add_one : M unit :=
  id ← new_id;
  buy ← draw (Rng.chance (lit 5 10));
  cross ← draw (Rng.chance (lit 1 10));
  k ← draw (Rng.below 8);
  let d := 1 + k in
  m ← gets mid;
  p ← lift (Workload.px (if buy : bool then m + (if cross : bool then d else - d) else m - (if cross : bool then d else - d)));
  q ← draw (Rng.below 6);
  on (fun bk => OB.add bk (mkCommand id p 0 0 (50 * (1 + q)) 0 0 NewOrder (if buy : bool then Buy else Sell) Limit Day 0));;
  b ← gets book;
  here ← lift (OB.contains b id);
  l ← gets live;
  when here (set_live (l ++ [id])).
Definition one : M unit :=
  walk;;
  l ← gets live;
  cancels ← (if 3000 <? alen l then draw (Rng.chance (lit 4 10)) else mret false);
  if cancels : bool then cancel_one else add_one.

(** [n] rounds, [secs] the time they took. *)
Definition ex_bench (n seed : Z) (secs : double) : option (t * double) :=
  b ← OB.make 0 config;
  '(s, _) ← for_each (seqZ 0 n) (fun _ => one) (mk b 0 (Rng.make (u64 seed)) 2000 [] 1);
  Some (s, if dlt (of_int 0) secs then ddiv (of_int n) secs else of_int 0).
End bench.
Arguments t : clear implicits.
End WasmBench.

Module WasmBenchLaws.
Import WasmBench BookRefine BookEquiv BookQueries WorkloadLaws Taken.
Import WasmLaws (fine, step_fine, fine_made).

Section laws.
Context {S I B : Type} {OF : OrderFields S} {OFL : OrderFieldsLaws S} {IX : IdIndex I} {IXL : IdIndexLaws I}
  {LS : LevelSet B} {LSL : LevelSetLaws B}.
Abbreviation st := (t S I B).
Implicit Types (s : st).

(** After [i] rounds at most: the book is sound and the list has every resting order. *)
Record benching (i : Z) s (r : RB.t) : Prop := {
  N_rng : Rng.wf (rng s);
  N_book : R (book s) r;
  N_fine : fine r;
  N_mid : 2000 - i <= mid s <= 2000 + i;
  N_live : forall id, is_Some (RB.index_ r !! id) -> id ∈ live s;
  N_count : alen (live s) <= i;
}.
Definition busy (i : Z) s : Prop := exists r, benching i s r.

Lemma wp_drawn {A} (f : Rng.t -> Rng.t * A) (R : A -> Prop) (Q : A -> st -> Prop) i s r : benching i s r -> (forall g, Rng.wf g -> Rng.wf (f g).1 /\ R (f g).2) ->
  (forall a s', benching i s' r -> mid s' = mid s -> live s' = live s -> R a -> Q a s') -> wp False (draw f) Q s.
Proof.
  intros [] Hf HQ. unfold wp, draw. destruct (Hf _ N_rng0) as [H1 H2]. destruct (f (rng s)) as [g a]. by apply HQ.
Qed.
Lemma wp_drawn_below n (Q : Z -> st -> Prop) i s r : benching i s r -> 0 < n < 4294967296 ->
  (forall k s', benching i s' r -> mid s' = mid s -> live s' = live s -> 0 <= k < n -> Q k s') -> wp False (draw (Rng.below n)) Q s.
Proof. intros Hs Hn HQ. eapply (wp_drawn _ (fun k => 0 <= k < n)); [done| |done]. intros g Hg. split; [by apply Rng.wf_below|by apply Rng.below_lt]. Qed.
Lemma wp_drawn_chance p (Q : bool -> st -> Prop) i s r : benching i s r ->
  (forall v s', benching i s' r -> mid s' = mid s -> live s' = live s -> Q v s') -> wp False (draw (Rng.chance p)) Q s.
Proof. intros Hs HQ. eapply (wp_drawn _ (fun _ => True)); [done| |eauto]. intros g Hg. split; [by apply Rng.wf_chance|done]. Qed.

(** The book takes a command. *)
Lemma wp_on (f : OB.t S I B -> option (OB.t S I B * list Event)) c (Q : unit -> st -> Prop) s r : R (book s) r -> fine r -> Rng.wf (rng s) -> f (book s) = OB.step (book s) c ->
  in_i64 (c_price c) -> in_u32 (c_qty c) ->
  (forall s' r' es, RB.step r c = Some (r', es) -> takes_others r (c_order_id c) r' es -> R (book s') r' -> fine r' -> Rng.wf (rng s') -> mid s' = mid s -> live s' = live s -> Q tt s') ->
  wp False (on f) Q s.
Proof.
  intros HR Hf Hg Ef Hp Hq HQ. unfold on. wp_step. wp_step. wp_step. destruct (step_fine r c Hf Hp Hq) as [Hok Hfine].
  destruct (step_refines (book s) r c HR Hok) as (b' & r' & es & E1 & E2 & HR'). rewrite Ef, E1. apply wp_lift; [|done]. intros ? [= <-].
  apply wp_update. eapply (HQ _ r' es); cbn; try done; [|by eapply Hfine]. destruct (WasmLaws.F_cfg r Hf) as (_ & _ & _ & Hb).
  apply (step_takes r c); [apply Hf|done| |done]. unfold in_u32 in Hq. lia.
Qed.

Lemma wp_walk_bench i s r (Q : unit -> st -> Prop) : benching i s r -> i < 2147483648 -> (forall s', benching (i + 1) s' r -> alen (live s') <= i -> Q tt s') -> wp False walk Q s.
Proof.
  intros Hs Hi HQ. assert (forall s', benching i s' r -> Q tt s') as Hgo.
  { intros s' []. apply HQ; [|done]. split; try done; lia. }
  unfold walk. wp_step. eapply wp_drawn_chance; [done|]. intros v s1 H1 Em El. wp_step; [|by apply Hgo].
  wp_step. eapply wp_drawn_chance; [done|]. intros up s2 H2 Em2 El2. wp_step. wp_step. wp_step.
  assert (in_i64 (mid s2 + (if up then 1 else -1))) as Hx by (destruct H2; unfold in_i64; destruct up; lia). rewrite px_ok by done.
  apply wp_lift; [|done]. intros ? [= <-]. apply wp_update. apply HQ; destruct H2; [|done]. split; cbn; try done; destruct up; lia.
Qed.

(** What is not dropped from the list. *)
Lemma elem_aget (l : list Z) x : x ∈ l <-> exists j, l.[j] = Some x.
Proof.
  split; [intros [j Hj]%list_elem_of_lookup; exists (Z.of_nat j); apply aget_Some; split; [lia|by rewrite Nat2Z.id]|].
  intros (j & [_ Hj]%aget_Some). by eapply list_elem_of_lookup_2.
Qed.
Lemma dropped_elem (l l' : list Z) k b id x : l.[k] = Some id -> last l = Some b -> l.[k <- b] = Some l' -> x ∈ l -> x <> id -> x ∈ removelast l'.
Proof.
  intros Hk Hb Hl' [j Hj]%elem_aget Hn. pose proof (Tracker.aget_last l b Hb) as Hlast. pose proof (alen_aset _ _ _ _ Hl') as Hlen. apply elem_aget.
  assert (j <> k) as Hjk by (intros ->; congruence). destruct (decide (j = alen l - 1)) as [->|Hne].
  - exists k. rewrite Tracker.aget_removelast, Hlen, (proj2 (Z.eqb_neq _ _)) by lia. rewrite (aget_aset_eq _ _ _ _ Hl'). congruence.
  - exists j. rewrite Tracker.aget_removelast, Hlen, (proj2 (Z.eqb_neq _ _)) by lia. by rewrite (aget_aset_ne _ _ _ _ _ Hl').
Qed.
Lemma alen_removelast (l : list Z) b : last l = Some b -> alen (removelast l) = alen l - 1.
Proof. intros [l' ->]%last_Some. rewrite removelast_last. unfold alen. rewrite length_app. cbn. lia. Qed.

Lemma wp_cancel_one i s r : benching (i + 1) s r -> 3000 < alen (live s) <= i -> i < 2147483648 -> wp False cancel_one (fun _ => busy (i + 1)) s.
Proof.
  intros Hs Hl Hi. unfold cancel_one. wp_step. wp_step. wp_step. eapply wp_drawn_below; [done|lia|]. intros k s1 H1 Em El Hk.
  wp_step. destruct (aget_is_Some (live s) k Hk) as [id Hid]. apply wp_lift; [|by rewrite Hid]. rewrite Hid. intros ? [= <-].
  wp_step. destruct (last (live s)) as [b|] eqn:Eb; [|apply last_None in Eb; rewrite Eb in Hl; unfold alen in Hl; cbn in Hl; lia].
  apply wp_lift; [|done]. intros ? [= <-]. wp_step. destruct (aset_is_Some (live s) k b Hk) as [l' Hl']. apply wp_lift; [|by rewrite Hl']. rewrite Hl'. intros ? [= <-].
  wp_step. unfold set_live. wp_step. assert (alen (removelast l') = alen (live s) - 1) as Hlen.
  { rewrite <- (alen_aset _ _ _ _ Hl'). destruct (last l') as [b'|] eqn:E; [by eapply alen_removelast|]. apply last_None in E. subst l'.
    apply alen_aset in Hl'. unfold alen in *. cbn in *. lia. }
  destruct H1. eapply (wp_on _ (mkCommand id 0 0 0 0 0 0 Cancel Buy Limit Day 0)); [done|done|done|done|cbn; unfold in_i64; lia|cbn; unfold in_u32; lia|].
  intros s' r' es E Hto HR Hf Hg Em' El'. cbn [mid live] in Em', El'. exists r'. split; [done|done|done|lia| |rewrite El'; lia].
  intros x Hx. rewrite El'. destruct (decide (x = id)) as [->|Hn].
  - apply cancelled_gone in E; [|apply N_fine0|done]. cbn [c_order_id] in E. rewrite E in Hx. by apply is_Some_None in Hx.
  - eapply dropped_elem; try done. rewrite <- El. apply N_live0. by apply (Hto x Hn).
Qed.

Lemma wp_add_one i s r : benching (i + 1) s r -> alen (live s) <= i -> i < 2147483648 -> wp False add_one (fun _ => busy (i + 1)) s.
Proof.
  intros Hs Hl Hi. unfold add_one. wp_step. unfold new_id, wp at 1. cbn beta iota.
  match goal with |- context [mk ?a ?b ?c ?d ?e ?f] => set (s0 := mk a b c d e f) end. assert (benching (i + 1) s0 r) as H0 by (destruct Hs; by split).
  wp_step. eapply wp_drawn_chance; [done|]. intros buy s1 H1 Em1 El1. wp_step. eapply wp_drawn_chance; [done|]. intros cross s2 H2 Em2 El2.
  wp_step. eapply wp_drawn_below; [done|lia|]. intros k s3 H3 Em3 El3 Hk. cbv zeta. wp_step. wp_step.
  assert (in_i64 (if buy then mid s3 + (if cross then 1 + k else - (1 + k)) else mid s3 - (if cross then 1 + k else - (1 + k)))) as Hp.
  { destruct H3. unfold in_i64. destruct buy, cross; lia. }
  wp_step. rewrite px_ok by done. apply wp_lift; [|done]. intros ? [= <-]. wp_step. eapply wp_drawn_below; [done|lia|]. intros q s4 H4 Em4 El4 Hq.
  wp_step. destruct H4. match goal with |- context [OB.add _ ?c] => eapply (wp_on _ c); [done|done|done|reflexivity|done|cbn; unfold in_u32; lia|] end. cbn [c_order_id].
  intros s' r' es E Hto HR Hf Hg Em' El'. wp_step. wp_step. wp_step. rewrite (contains_spec _ r' _ HR). apply wp_lift; [|done]. intros ? [= <-].
  wp_step. wp_step. assert (live s' = live s) as Elive by (rewrite El', El4, El3, El2, El1; done).
  assert (forall x, x <> next s -> is_Some (RB.index_ r' !! x) -> x ∈ live s) as Hold.
  { intros x Hn Hx. rewrite <- Elive, El'. apply N_live0. by apply (Hto x Hn). }
  unfold RB.contains. wp_step.
  - unfold set_live. apply wp_update. exists r'. split; cbn [rng book mid live]; try done; [lia| |].
    + intros x Hx. rewrite Elive. destruct (decide (x = next s)) as [->|Hn]; [set_solver|]. apply elem_of_app. left. by apply Hold.
    + unfold alen in *. rewrite Elive, length_app. cbn. lia.
  - exists r'. split; try done; [lia| |rewrite Elive; lia]. intros x Hx. rewrite Elive. apply Hold; [|done]. intros ->.
    by apply bool_decide_eq_false in H.
Qed.

Lemma wp_one i s r : benching i s r -> i < 2147483648 -> wp False one (fun _ => busy (i + 1)) s.
Proof.
  intros Hs Hi. unfold one. wp_step. eapply wp_walk_bench; [done..|]. intros s1 H1 Hl. wp_step. wp_step. wp_step. wp_step.
  - eapply wp_drawn_chance; [done|]. intros v s2 H2 Em El. wp_step; [|eapply wp_add_one; [done|rewrite El; lia|done]].
    eapply wp_cancel_one; [done|rewrite El; lia|done].
  - wp_step. by eapply wp_add_one.
Qed.
Lemma wp_rounds l : forall i s r, benching i s r -> i + Z.of_nat (length l) <= 2147483648 -> wp False (for_each l (fun _ : Z => one)) (fun _ => busy (i + Z.of_nat (length l))) s.
Proof.
  induction l as [|x l IH]; intros i s r Hs Hi; cbn [for_each length] in *.
  - wp_step. exists r. by replace (i + Z.of_nat 0) with i by lia.
  - wp_step. eapply wp_mono; [exact (wp_one i s r Hs ltac:(lia))|]. intros ? s' [r' H']. eapply wp_mono; [eapply IH; [done|lia]|]. intros ? s'' H''.
    by replace (i + Z.of_nat (Datatypes.S (length l))) with (i + 1 + Z.of_nat (length l)) by lia.
Qed.

(** It runs to the end, on a book that passes the audit and whose orders are all in the list. *)
Lemma bench_runs n seed secs : in_i32 n -> exists (s : st) v, ex_bench n seed secs = Some (s, v) /\ OB.check_invariants (book s) = Some true /\
  forall id, OB.contains (book s) id = Some true -> id ∈ live s.
Proof.
  intros Hn. unfold ex_bench. destruct (make_refines (S := S) (I := I) (B := B) 0 config) as (b & -> & HR).
  { unfold cfg_ok, level_count_ok, in_i64, kNil. simpl. unfold Wasm.kLevels. split_and!; try done; lia. }
  cbn [mbind option_bind]. destruct (wp_total _ _ _ (wp_rounds (seqZ 0 n) 0 (mk b 0 (Rng.make (u64 seed)) 2000 [] 1) (RB.make 0 config)
    ltac:(split; cbn; try done; [apply Rng.rng_wf_make|apply fine_made|by intros ? [? ?%lookup_empty_Some]]) ltac:(rewrite length_seqZ; unfold in_i32 in Hn; lia)))
    as (s & ? & -> & r & H). cbn [mbind option_bind]. eexists s, _. split; [done|]. destruct H. split; [by eapply check_invariants_spec|].
  intros id. rewrite (contains_spec _ r id N_book0). intros [= Hc]. apply N_live0. by apply bool_decide_eq_true in Hc.
Qed.
End laws.
End WasmBenchLaws.
