(* ===== verification/Pipeline.v ===== *)
(** * The exchange as three threads (tools/exsim_pipeline.cpp), and the replay it must agree with (tools/exsim_replay.cpp)

    A feed thread decodes a capture, an engine thread matches, a publisher thread consumes market data; two rings join
    them. A state holds what each thread is about to do; a step is one attempt of one thread: a failed push and an empty
    ring are steps too. What a load of another thread's index or flag returns is an argument, which the step relation bounds
    by the memory order the code asks for. Clocks are arguments. [Pipeline] is the program; PipelineLaws proves that no
    interleaving changes its results and that it can always finish. *)
From S2P Require Import Prelude Bytes Bits Common Interfaces PriceBitmap OrderStore OrderIndex ReferenceBook OrderBook BookRefine BookEquiv Engine LatencyHistogram SpscQueue Protocol.
Import (hints) PriceBitmap AosStore SoaStore HybridStore OrderIndex.

(** [BookConfig{}]. *)
Definition default_config : BookConfig := mkBookConfig 0 65536 262144 StpNone.

(** ** exsim_replay *)

Module ReplayTool.

(** [JournalSink]: the counts, and the bytes of the events where a journal is kept. *)
Record JournalSink := mkSink { counts : CountingSink.t; journal : option (list Z) }.
Definition event_bytes (e : Event) : list Z := EventDigest.event_words e ≫= le 8.
Definition on_event (k : JournalSink) (e : Event) : option JournalSink :=
  c ← CountingSink.on_event (counts k) e;
  Some (mkSink c ((fun j => j ++ event_bytes e) <$> journal k)).
Fixpoint on_events (k : JournalSink) (es : list Event) : option JournalSink :=
  match es with [] => Some k | e :: es => k ← on_event k e; on_events k es end.

Section replay.
Context {Bk : Type} `{BookImpl Bk}.
Fixpoint replay_loop (e : MatchingEngine.t Bk) (k : JournalSink) (cmds : list Command) : option (MatchingEngine.t Bk * JournalSink) :=
  match cmds with
  | [] => Some (e, k)
  | c :: cmds => '(e, es) ← MatchingEngine.process e c; k ← on_events k es; replay_loop e k cmds
  end.
Definition replay (cmds : list Command) (symbols : Z) (with_journal : bool) : option JournalSink :=
  e ← MatchingEngine.make symbols default_config;
  '(_, k) ← replay_loop e (mkSink CountingSink.init (if with_journal then Some [] else None)) cmds;
  Some k.
End replay.

Inductive BookName := Hybrid | Aos | Soa | Ref.
Abbreviation HybridBook := (OB.t HybridStore.t (OrderIndex.t LocalityHash) PriceBitmap.t).
Abbreviation AosBook := (OB.t AosStore.t (OrderIndex.t LocalityHash) PriceBitmap.t).
Abbreviation SoaBook := (OB.t SoaStore.t (OrderIndex.t LocalityHash) PriceBitmap.t).
Definition replay_book (book : BookName) : list Command -> Z -> bool -> option JournalSink :=
  match book with
  | Hybrid => replay (Bk := HybridBook)
  | Aos => replay (Bk := AosBook)
  | Soa => replay (Bk := SoaBook)
  | Ref => replay (Bk := RB.t)
  end.
(** [main], from the bytes of the capture; what it prints of the decoding, and the sink. *)
Definition main (buf : list Z) (book : BookName) (symbols : Z) (with_journal : bool) : option (Wire.DecodeStats * JournalSink) :=
  '(cmds, st) ← Wire.decode_stream buf;
  k ← replay_book book cmds symbols with_journal;
  Some (st, k).
End ReplayTool.

(** ** exsim_pipeline *)

Module Pipeline.

Inductive MdKind := MdTrade | MdBbo.
Record MdMsg := mkMd { ingress_ts : Z; px_a : Z; px_b : Z; qty_a : Z; qty_b : Z; md_symbol : Z; kind : MdKind; md_side : Side }.

(** [INT64_MIN]: no price. *)
Definition kNoPrice : Z := -9223372036854775808.
Record Tob := mkTob { bid : Z; ask : Z; bid_qty : Z; ask_qty : Z }.
#[export] Instance Tob_eq_dec : EqDecision Tob.
Proof. solve_decision. Defined.
Definition no_tob : Tob := mkTob kNoPrice kNoPrice 0 0.

Module CrossCoreLatency.
Record t := mk { hist : LatencyHistogram.t; negative : Z }.
Definition init : t := mk LatencyHistogram.reset 0.
Definition record (l : t) (now stamp : Z) : option t :=
  let d := i64 (u64 (now - stamp)) in
  h ← LatencyHistogram.record (hist l) (if d <? 0 then 0 else d);
  Some (mk h (if d <? 0 then u64 (negative l + 1) else negative l)).
End CrossCoreLatency.

(** [EngineSink]: the counts, and what it publishes of the events of one command, in order. *)
Definition on_event (ingress : Z) (k : CountingSink.t) (e : Event) : option (CountingSink.t * list MdMsg) :=
  k ← CountingSink.on_event k e;
  Some (k, if bool_decide (e_type e = Trade) then [mkMd ingress (e_price e) 0 (e_qty e) 0 (e_symbol e) MdTrade (e_side e)] else []).
Fixpoint on_events (ingress : Z) (k : CountingSink.t) (es : list Event) : option (CountingSink.t * list MdMsg) :=
  match es with
  | [] => Some (k, [])
  | e :: es => '(k, ms) ← on_event ingress k e; '(k, ms') ← on_events ingress k es; Some (k, ms ++ ms')
  end.

(** The event a market-data message is folded into the digest as: price, quantity and symbol, the rest of [Event{}] zero. *)
Definition md_words (m : MdMsg) : list Z := [0; 0; u64 (Z.lxor (px_a m) (px_b m)); Z.lxor (qty_a m) (qty_b m); 0; md_symbol m].
Definition md_on_event (d : EventDigest.t) (m : MdMsg) : EventDigest.t :=
  EventDigest.mk (foldl EventDigest.mix (EventDigest.h_ d) (md_words m)) (u64 (EventDigest.count_ d + 1)).

Section pipeline.
Context {S I B : Type} `{OrderFields S, IdIndex I, LevelSet B}.
Context (symbols warmup : Z).
Abbreviation Book := (OB.t S I B).

(** *** What each thread is about to do *)

Inductive FeedPc := FDecode | FPush (c : Command) | FDone.
Record Feed := mkFeed { f_pc : FeedPc; f_rest : list Z; fed : Z; malformed : Z; in_stalls : Z }.

(** [MCheck]: the ring looked empty, the flag is next; [MRecheck]: the flag was set, the ring is next. [MSend c ms]: [c], still
    at the front of the ring, has been carried out, [ms] is left to publish. *)
Inductive MatcherPc := MFront | MCheck | MRecheck | MSend (c : Command) (ms : list MdMsg) | MDone.
Record Core := mkCore { engine : MatchingEngine.t Book; tob : list Tob; counts : CountingSink.t }.
Record Matcher := mkMatcher { m_pc : MatcherPc; m_core : Core; md_stalls : Z; processed : Z; h_match : CrossCoreLatency.t }.

Inductive PublisherPc := PFront | PCheck | PRecheck | PDone.
Record Publisher := mkPublisher { p_pc : PublisherPc; md_msgs : Z; h_md : CrossCoreLatency.t; md_digest : EventDigest.t }.

Record t := mk { feed : Feed; q_in : SpscQueue.t Command; feed_done : bool; matcher : Matcher; q_md : SpscQueue.t MdMsg; engine_done : bool; publisher : Publisher }.

Definition stamp (ts : Z) (c : Command) : Command :=
  mkCommand (c_order_id c) (c_price c) (c_seq c) ts (c_qty c) (c_owner c) (c_symbol c) (c_type c) (c_side c) (c_ord_type c) (c_tif c) (c_flags c).

(** *** The feed thread; [ts] is the stamp, [head] what a load of the ring's head returns. *)
Definition feed_step (s : t) (ts head : Z) : option t :=
  let f := feed s in
  let goes f q done := Some (mk f q done (matcher s) (q_md s) (engine_done s) (publisher s)) in
  match f_pc f with
  | FDecode =>
      match f_rest f with
      | [] => goes (mkFeed FDone (f_rest f) (fed f) (malformed f) (in_stalls f)) (q_in s) true
      | _ =>
          let r := Wire.decode (f_rest f) in
          let rest := drop (Z.to_nat (Wire.consumed r)) (f_rest f) in
          match Wire.status r, Wire.decoded r with
          | Wire.Ok, Some c => goes (mkFeed (FPush (stamp ts c)) rest (fed f) (malformed f) (in_stalls f)) (q_in s) (feed_done s)
          | _, _ =>
              if Wire.consumed r =? 0 then goes (mkFeed FDone (f_rest f) (fed f) (malformed f) (in_stalls f)) (q_in s) true
              else goes (mkFeed FDecode rest (fed f) (u64 (malformed f + 1)) (in_stalls f)) (q_in s) (feed_done s)
          end
      end
  | FPush c =>
      '(ok, q) ← SpscQueue.try_push (q_in s) head c;
      if ok : bool then goes (mkFeed FDecode (f_rest f) (u64 (fed f + 1)) (malformed f) (in_stalls f)) q (feed_done s)
      else goes (mkFeed (FPush c) (f_rest f) (fed f) (malformed f) (u64 (in_stalls f + 1))) q (feed_done s)
  | FDone => None
  end.

(** *** The engine thread *)

(** One command: the engine, the counts, the messages, the top of the book if it changed. *)
Definition handle (m : Core) (c : Command) : option (Core * list MdMsg) :=
  '(e, es) ← MatchingEngine.process (engine m) c;
  '(k, ms) ← on_events (c_ts c) (counts m) es;
  if c_symbol c <? symbols then
    b ← e.[c_symbol c];
    bq ← OB.best_bid_qty b;
    aq ← OB.best_ask_qty b;
    let now := mkTob (default kNoPrice (OB.best_bid b)) (default kNoPrice (OB.best_ask b)) bq aq in
    old ← (tob m).[c_symbol c];
    if bool_decide (now = old) then Some (mkCore e (tob m) k, ms) else
    tobs ← (tob m).[c_symbol c <- now];
    Some (mkCore e tobs k, ms ++ [mkMd (c_ts c) (bid now) (ask now) (bid_qty now) (ask_qty now) (c_symbol c) MdBbo Buy])
  else Some (mkCore e (tob m) k, ms).

(** [tail], [head]: what loads of the input ring's tail and the output ring's head return; [flag] of [feed_done]; [now] the
    clock. [SpscQueue::prefetch] touches memory and changes nothing. *)
Definition matcher_step (s : t) (tail head : Z) (flag : bool) (now : Z) : option t :=
  let m := matcher s in
  let goes m q_in q_md done := Some (mk (feed s) q_in (feed_done s) m q_md done (publisher s)) in
  let at_pc pc := mkMatcher pc (m_core m) (md_stalls m) (processed m) (h_match m) in
  match m_pc m with
  | MFront =>
      '(p, q) ← SpscQueue.front (q_in s) tail;
      match p with
      | None => goes (at_pc MCheck) q (q_md s) (engine_done s)
      | Some c => '(core, ms) ← handle (m_core m) c; goes (mkMatcher (MSend c ms) core (md_stalls m) (processed m) (h_match m)) q (q_md s) (engine_done s)
      end
  | MCheck => goes (at_pc (if flag then MRecheck else MFront)) (q_in s) (q_md s) (engine_done s)
  | MRecheck =>
      '(p, q) ← SpscQueue.front (q_in s) tail;
      match p with None => goes (at_pc MDone) q (q_md s) true | Some _ => goes (at_pc MFront) q (q_md s) (engine_done s) end
  | MSend c (x :: ms) =>
      '(ok, q) ← SpscQueue.try_push (q_md s) head x;
      if ok : bool then goes (at_pc (MSend c ms)) (q_in s) q (engine_done s)
      else goes (mkMatcher (MSend c (x :: ms)) (m_core m) (u64 (md_stalls m + 1)) (processed m) (h_match m)) (q_in s) q (engine_done s)
  | MSend c [] =>
      h ← if warmup <=? processed m then CrossCoreLatency.record (h_match m) now (c_ts c) else Some (h_match m);
      goes (mkMatcher MFront (m_core m) (md_stalls m) (u64 (processed m + 1)) h) (SpscQueue.pop (q_in s)) (q_md s) (engine_done s)
  | MDone => None
  end.

(** *** The publisher thread *)
Definition publisher_step (s : t) (tail : Z) (flag : bool) (now : Z) : option t :=
  let p := publisher s in
  let goes p q := Some (mk (feed s) (q_in s) (feed_done s) (matcher s) q (engine_done s) p) in
  let at_pc pc := mkPublisher pc (md_msgs p) (h_md p) (md_digest p) in
  match p_pc p with
  | PFront =>
      '(x, q) ← SpscQueue.front (q_md s) tail;
      match x with
      | None => goes (at_pc PCheck) q
      | Some x =>
          h ← if warmup <=? md_msgs p then CrossCoreLatency.record (h_md p) now (ingress_ts x) else Some (h_md p);
          goes (mkPublisher PFront (u64 (md_msgs p + 1)) h (md_on_event (md_digest p) x)) (SpscQueue.pop q)
      end
  | PCheck => goes (at_pc (if flag then PRecheck else PFront)) (q_md s)
  | PRecheck =>
      '(x, q) ← SpscQueue.front (q_md s) tail;
      match x with None => goes (at_pc PDone) q | Some _ => goes (at_pc PFront) q end
  | PDone => None
  end.

(** *** The program *)

(** The rings' memory starts out as [zc] and [zm]. *)
Definition init (buf : list Z) (qcap : Z) (zc : Command) (zm : MdMsg) : option t :=
  e ← MatchingEngine.make symbols default_config;
  Some (mk (mkFeed FDecode buf 0 0 0) (SpscQueue.make qcap zc) false
    (mkMatcher MFront (mkCore e (amake symbols no_tob) CountingSink.init) 0 0 CrossCoreLatency.init) (SpscQueue.make qcap zm) false
    (mkPublisher PFront 0 CrossCoreLatency.init EventDigest.init)).

(** A load of an index returns a value it has had since the cached one ([SpscQueue.may_load]). A flag that reads true was set,
    and its release makes every push before it visible: the load of the tail that follows returns the latest. *)
Inductive step (s : t) : t -> Prop :=
  | step_feed ts head s' : in_u64 ts -> SpscQueue.may_load (SpscQueue.head_cache_ (q_in s)) (SpscQueue.head_ (q_in s)) head ->
      feed_step s ts head = Some s' -> step s s'
  | step_matcher tail head flag now s' : in_u64 now ->
      SpscQueue.may_load (SpscQueue.tail_cache_ (q_in s)) (SpscQueue.tail_ (q_in s)) tail ->
      SpscQueue.may_load (SpscQueue.head_cache_ (q_md s)) (SpscQueue.head_ (q_md s)) head ->
      (flag = true -> feed_done s = true) -> (m_pc (matcher s) = MRecheck -> tail = SpscQueue.tail_ (q_in s)) ->
      matcher_step s tail head flag now = Some s' -> step s s'
  | step_publisher tail flag now s' : in_u64 now ->
      SpscQueue.may_load (SpscQueue.tail_cache_ (q_md s)) (SpscQueue.tail_ (q_md s)) tail ->
      (flag = true -> engine_done s = true) -> (p_pc (publisher s) = PRecheck -> tail = SpscQueue.tail_ (q_md s)) ->
      publisher_step s tail flag now = Some s' -> step s s'.

(** The three joins of [main] return. *)
Definition joined (s : t) : Prop := f_pc (feed s) = FDone /\ m_pc (matcher s) = MDone /\ p_pc (publisher s) = PDone.
End pipeline.
Arguments t : clear implicits.
End Pipeline.
