(* ===== verification/PipelineLaws.v ===== *)
(** * The three threads agree with the replay, and can always finish

    [Rings]: what a ring of the pipeline holds, with the numbers of SpscLaws hidden. [Decoding]: the feed thread's loop is
    that of [decode_stream]. [Carrying]: the engine thread alone, command by command, against the engine's run. Then one
    invariant over the three threads, kept by every step, from which the two theorems follow. *)
From stdpp Require Import relations.
From S2P Require Import Prelude Bytes Bits Common Interfaces PriceBitmap OrderStore OrderIndex ReferenceBook OrderBook BookRefine BookEquiv BookQueries Engine LatencyHistogram SpscQueue Protocol Pipeline.

Module Rings.
Import SpscQueue SpscLaws.
Section rings.
Context {A : Type}.
Implicit Types (q : t A) (xs : list A).

(** [q] holds [xs]; [pk]: its reader has seen that it is not empty. *)
Definition held (cap : Z) (pk : bool) q xs : Prop := exists k H Hc Tc, holds q xs k H Hc Tc /\ (pk = true -> H < Tc) /\ cap_ q = cap.

Lemma held_make capacity zero : capacity <= 9223372036854775808 -> exists cap, held cap false (make capacity zero) [] /\ 2 <= cap.
Proof. intros Hc. destruct (make_holds capacity zero Hc) as (k & Hm & _). exists (cap_ (make capacity zero)). split; [|pose proof (hd_small _ _ _ _ _ _ Hm); lia]. by exists k, 0, 0, 0. Qed.
Lemma held_push cap pk q xs loaded v : held cap pk q xs -> may_load (head_cache_ q) (head_ q) loaded ->
  exists b q', try_push q loaded v = Some (b, q') /\ held cap pk q' (if b : bool then xs ++ [v] else xs) /\ (loaded = head_ q -> alen xs < cap -> b = true).
Proof.
  intros (k & H & Hc & Tc & Hq & Hpk & <-) Hl. destruct (try_push_holds _ _ _ _ _ _ _ v Hq Hl) as (b & q' & Hc' & Hp & Hq' & Hcap & Hf & _).
  exists b, q'. split; [done|]. split; [by exists k, H, Hc', Tc|]. intros E Hlt. rewrite (Hf E). lia.
Qed.
Lemma held_front cap q xs loaded : held cap false q xs -> may_load (tail_cache_ q) (tail_ q) loaded ->
  exists p q', front q loaded = Some (p, q') /\ held cap (bool_decide (p <> None)) q' xs /\ (p = None \/ p = head xs) /\ (loaded = tail_ q -> p = head xs).
Proof.
  intros (k & H & Hc & Tc & Hq & _ & <-) Hl. destruct (front_holds _ _ _ _ _ _ _ Hq Hl) as (p & q' & Tc' & Hp & Hq' & Hcap & Hf & Hs).
  exists p, q'. split; [done|]. split; [|split; [|done]].
  - exists k, H, Hc, Tc'. split_and!; [done| |done]. intros Hp'. destruct p as [x|]; [by apply (Hs x)|done].
  - destruct p as [x|]; [right|by left]. destruct (Hs x eq_refl) as [-> _]. done.
Qed.
Lemma held_pop cap q x xs : held cap true q (x :: xs) -> held cap false (pop q) xs.
Proof. intros (k & H & Hc & Tc & Hq & Hpk & <-). exists k, (H + 1), Hc, Tc. split_and!; [|done|done]. eapply pop_holds; [done|by apply Hpk]. Qed.
Lemma held_unpeek cap pk q xs : held cap pk q xs -> held cap false q xs.
Proof. intros (k & H & Hc & Tc & Hq & _ & E). by exists k, H, Hc, Tc. Qed.
(** Each side may see the other's latest index. *)
Lemma held_fresh cap pk q xs : held cap pk q xs -> may_load (tail_cache_ q) (tail_ q) (tail_ q) /\ may_load (head_cache_ q) (head_ q) (head_ q).
Proof.
  intros (k & H & Hc & Tc & Hq & _ & _). pose proof (hd_small _ _ _ _ _ _ Hq). destruct (hd_order _ _ _ _ _ _ Hq) as (? & ? & ?).
  rewrite (hd_tc _ _ _ _ _ _ Hq), (hd_hc _ _ _ _ _ _ Hq), (hd_head _ _ _ _ _ _ Hq), (hd_tail _ _ _ _ _ _ Hq). pose proof (alen_nonneg xs).
  split; apply fresh_load; lia.
Qed.
End rings.
End Rings.

Module Decoding.
Import Wire.

(** The messages of a buffer and how many are malformed. *)
Inductive decodes : list Z -> list Command -> Z -> Prop :=
  | dec_end buf : buf = [] \/ status (decode buf) <> Ok /\ consumed (decode buf) = 0 -> decodes buf [] 0
  | dec_ok buf c cs n : buf <> [] -> status (decode buf) = Ok -> decoded (decode buf) = Some c ->
      decodes (drop (Z.to_nat (consumed (decode buf))) buf) cs n -> decodes buf (c :: cs) n
  | dec_bad buf cs n : buf <> [] -> status (decode buf) <> Ok -> consumed (decode buf) <> 0 ->
      decodes (drop (Z.to_nat (consumed (decode buf))) buf) cs n -> decodes buf cs (n + 1).

Lemma decode_shape p : (status (decode p) = Ok /\ 0 < consumed (decode p) /\ exists c, decoded (decode p) = Some c) \/
  (status (decode p) <> Ok /\ decoded (decode p) = None /\ 0 <= consumed (decode p) /\ (status (decode p) = Incomplete -> consumed (decode p) = 0)).
Proof.
  destruct (decode_cases p) as [[_ ->]|(len & ty & v & sy & sq & _ & _ & [[_ ->]|[(_ & _ & ->)|[(? & _ & c & _ & ->)|[? ->]]]])]; cbn; try by (right; split_and!; [|done|lia|]).
  left. split_and!; [done|lia|eauto].
Qed.
Lemma drop_shorter (buf : list Z) n : buf <> [] -> 0 < n -> (length (drop (Z.to_nat n) buf) < length buf)%nat.
Proof. intros Hb Hn. rewrite length_drop. destruct buf; [done|]. cbn [length]. lia. Qed.
Lemma decode_loop_decodes fuel : forall buf st out st', decode_loop fuel buf st = Some (out, st') ->
  decodes buf out (st_malformed st' - st_malformed st).
Proof.
  induction fuel as [|fuel IH]; intros buf st out st'; [done|]. cbn [decode_loop]. destruct buf as [|b buf0] eqn:Eb.
  { intros [= <- <-]. rewrite Z.sub_diag. apply dec_end. by left. }
  rewrite <- Eb. assert (buf <> []) as Hne by (by subst). clear Eb b buf0.
  destruct (decode_shape buf) as [(Hs & _ & c & Hc)|(Hs & Hc & _ & Hi)]; rewrite Hc.
  - rewrite Hs. intros Hl. destruct (decode_loop fuel _ _) as [[out1 st1]|] eqn:E; [|done]. injection Hl as <- <-. apply IH in E. cbn [st_malformed] in E. by eapply dec_ok.
  - destruct (status (decode buf)) eqn:Es; [done| |].
    + intros [= <- <-]. cbn. rewrite Z.sub_diag. apply dec_end. right. split; [by rewrite Es|auto].
    + destruct (Z.eqb_spec (consumed (decode buf)) 0) as [E|Hn]; cbn [negb].
      * intros [= <- <-]. cbn. rewrite Z.sub_diag. apply dec_end. right. by rewrite Es.
      * intros Hl. apply IH in Hl. cbn [st_malformed] in Hl. replace (st_malformed st' - st_malformed st) with (st_malformed st' - (st_malformed st + 1) + 1) by lia.
        apply dec_bad; [done|by rewrite Es|done|done].
Qed.
Lemma decode_stream_decodes buf out st : decode_stream buf = Some (out, st) -> decodes buf out (st_malformed st).
Proof. intros H%decode_loop_decodes. cbn in H. by rewrite Z.sub_0_r in H. Qed.
End Decoding.

Module Carrying.
Import MatchingEngine EngineEquiv EngineTheorems BookRefine BookEquiv BookQueries Pipeline.

(** The counts of a stream of events. *)
Fixpoint counted (k : CountingSink.t) (es : list Event) : option CountingSink.t :=
  match es with [] => Some k | e :: es => k ← CountingSink.on_event k e; counted k es end.
Lemma counted_app k es es' : counted k (es ++ es') = k ← counted k es; counted k es'.
Proof. revert k. induction es as [|e es IH]; intros k; [done|]. cbn. by destruct (CountingSink.on_event k e) as [k'|]; cbn; [apply IH|]. Qed.
Definition eight (k : CountingSink.t) : Prop := alen (CountingSink.by_type_ k) = 8.
Lemma counted_ok es : forall k, eight k -> exists k', counted k es = Some k' /\ eight k'.
Proof.
  unfold eight. induction es as [|e es IH]; intros k Hk; [by exists k|]. cbn [counted]. unfold CountingSink.on_event.
  set (i := Z.land (EventType_to_Z (e_type e)) 7). assert (0 <= i < alen (CountingSink.by_type_ k)) as Hi by (rewrite Hk; unfold i; by destruct (e_type e)).
  destruct (aget_is_Some _ _ Hi) as [n ->]. cbn [mbind option_bind]. destruct (aset_is_Some (CountingSink.by_type_ k) i (u64 (n + 1)) Hi) as [l Hl]. rewrite Hl. cbn [mbind option_bind].
  apply IH. cbn. by rewrite (alen_aset _ _ _ _ Hl).
Qed.

(** The messages of the trades. *)
Definition trade_msgs (ts : Z) (es : list Event) : list MdMsg :=
  es ≫= fun e => if bool_decide (e_type e = Trade) then [mkMd ts (e_price e) 0 (e_qty e) 0 (e_symbol e) MdTrade (e_side e)] else [].
Lemma on_events_eq ts es : forall k, on_events ts k es = k ← counted k es; Some (k, trade_msgs ts es).
Proof.
  induction es as [|e es IH]; intros k; [done|]. cbn [on_events counted]. unfold on_event. destruct (CountingSink.on_event k e) as [k'|]; [|done]. cbn [mbind option_bind].
  rewrite IH. destruct (counted k' es) as [k''|]; [|done]. done.
Qed.
Lemma replay_events_eq es : forall k, ReplayTool.counts <$> ReplayTool.on_events k es = counted (ReplayTool.counts k) es.
Proof.
  induction es as [|e es IH]; intros k; [done|]. cbn [ReplayTool.on_events counted]. unfold ReplayTool.on_event.
  destruct (CountingSink.on_event (ReplayTool.counts k) e) as [k'|]; [|done]. cbn [mbind option_bind]. by rewrite IH.
Qed.

Section run.
Context {Bk : Type} `{BookImpl Bk}.
Lemma run_app (e : MatchingEngine.t Bk) cs cs' : run e (cs ++ cs') = '(e1, es) ← run e cs; '(e2, es') ← run e1 cs'; Some (e2, es ++ es').
Proof.
  revert e. induction cs as [|c cs IH]; intros e; cbn [app run]; [cbn; by destruct (run e cs') as [[]|]|].
  destruct (process e c) as [[e1 es1]|]; [|done]. cbn [mbind option_bind]. rewrite IH. destruct (run e1 cs) as [[e2 es2]|]; [|done]. cbn [mbind option_bind].
  destruct (run e2 cs') as [[e3 es3]|]; [|done]. cbn. by rewrite app_assoc.
Qed.
Lemma run_last (e e1 e2 : MatchingEngine.t Bk) cs c es es2 : run e cs = Some (e1, es) -> run e (cs ++ [c]) = Some (e2, es2) ->
  exists es1, process e1 c = Some (e2, es1) /\ es2 = es ++ es1.
Proof.
  intros H1. rewrite run_app, H1. cbn. destruct (process e1 c) as [[e3 es3]|]; [|done]. cbn. rewrite app_nil_r. intros [= <- <-]. eauto.
Qed.
(** The replay's loop is the engine's run and the counts of its events. *)
Lemma replay_loop_counts (e : MatchingEngine.t Bk) cs : forall k, snd <$> ReplayTool.replay_loop e k cs = '(_, es) ← run e cs; ReplayTool.on_events k es.
Proof.
  assert (forall es es' k, ReplayTool.on_events k (es ++ es') = k ← ReplayTool.on_events k es; ReplayTool.on_events k es') as Happ.
  { intros es es'. induction es as [|x es IH]; intros k; [done|]. cbn. by destruct (ReplayTool.on_event k x) as [k'|]; cbn; [apply IH|]. }
  revert e. induction cs as [|c cs IH]; intros e k; [done|]. cbn [ReplayTool.replay_loop run]. destruct (process e c) as [[e1 es1]|]; [|done]. cbn [mbind option_bind].
  destruct (run e1 cs) as [[e2 es2]|] eqn:E; cbn [mbind option_bind].
  - rewrite Happ. destruct (ReplayTool.on_events k es1) as [k'|]; [|done]. cbn [mbind option_bind]. rewrite IH, E. done.
  - destruct (ReplayTool.on_events k es1) as [k'|]; [|done]. cbn [mbind option_bind]. rewrite IH, E. done.
Qed.
End run.

(** A stamp changes nothing the books do. *)
Definition stamped (c d : Command) : Prop := exists ts, in_u64 ts /\ d = stamp ts c.
Lemma step_stamp r ts c : RB.step r (stamp ts c) = RB.step r c.
Proof. by destruct c as [? ? ? ? ? ? ? [] ? ? ? ?]. Qed.
Lemma run_stamped cs ds : Forall2 stamped cs ds -> forall f, run (Bk := RB.t) f ds = run f cs.
Proof.
  induction 1 as [|c d cs ds [ts [_ ->]] _ IH]; intros f; [done|]. cbn [run]. assert (process f (stamp ts c) = process f c) as ->.
  { unfold process. cbn [c_symbol stamp]. case_match; [done|]. destruct (f.[c_symbol c]) as [b|]; [|done]. cbn [mbind option_bind].
    change (bk_step b (stamp ts c)) with (RB.step b (stamp ts c)). by rewrite step_stamp. }
  destruct (process f c) as [[f1 es]|]; [|done]. cbn. by rewrite IH.
Qed.
Definition fine (cs : list Command) : Prop := Forall (fun c => 0 <= c_symbol c) cs /\ commands_ok default_config cs.
Lemma fine_stamped cs ds : Forall2 stamped cs ds -> fine cs -> fine ds.
Proof.
  intros Hs [H1 [Hp Ho]].
  assert (forall P : Command -> Prop, (forall c ts, P c -> P (stamp ts c)) -> Forall P cs -> Forall P ds) as Hgo.
  { intros P HP. clear -Hs HP. induction Hs as [|c d cs ds [ts [_ ->]] _ IH]; [done|]. intros [H1 H2]%Forall_cons. constructor; auto. }
  split; [by apply (Hgo (fun c => 0 <= c_symbol c))|]. split; [by apply (Hgo (price_ok default_config))|].
  destruct Ho as [Ho|(Q & ? & ? & Ho)]; [left; by apply (Hgo (protected default_config))|right]. exists Q. split_and!; [done..|]. by apply (Hgo (fun c => c_qty c <= Q)).
Qed.
Lemma fine_app cs ds : fine (cs ++ ds) -> fine cs.
Proof.
  unfold fine, commands_ok. rewrite !Forall_app. intros [[? _] [[? _] Ho]]. split_and!; [done..|]. destruct Ho as [[? _]|(Q & ? & ? & Ho)]; [by left|right].
  exists Q. split_and!; [done..|]. by apply Forall_app in Ho as [? _].
Qed.
Lemma default_config_ok : cfg_ok default_config.
Proof. unfold cfg_ok, level_count_ok, in_i64, kNil. simpl. split_and!; try done; lia. Qed.

Section handling.
Context {S I B : Type} {OF : OrderFields S} {OFL : OrderFieldsLaws S} {IX : IdIndex I} {IXL : IdIndexLaws I}
  {LS : LevelSet B} {LSL : LevelSetLaws B}.
Context (symbols : Z) (e0 : MatchingEngine.t (OB.t S I B)) (f0 : MatchingEngine.t RB.t).
Hypothesis made_fast : make symbols default_config = Some e0.
Hypothesis made_reference : make symbols default_config = Some f0.
Abbreviation core := (Core (S := S) (I := I) (B := B)).

(** What the top of a book looks like. *)
Definition top (b : OB.t S I B) : option Tob :=
  bq ← OB.best_bid_qty b; aq ← OB.best_ask_qty b; Some (mkTob (default kNoPrice (OB.best_bid b)) (default kNoPrice (OB.best_ask b)) bq aq).
Definition init_core : core := mkCore e0 (amake symbols no_tob) CountingSink.init.

(** The engine thread's state after the commands [cs]: the engine's run of them, the counts of its events, and the last top
    published of every book is its top. *)
Record carried (cs : list Command) (m : core) : Prop := {
  K_run : exists f es, run e0 cs = Some (engine m, es) /\ run f0 cs = Some (f, es) /\ Forall2 R (engine m) f /\ counted CountingSink.init es = Some (counts m);
  K_eight : eight (counts m);
  K_size : alen (engine m) = Z.max 0 symbols /\ alen (tob m) = Z.max 0 symbols;
  K_tob s b : (engine m).[s] = Some b -> top b = (tob m).[s];
}.
Lemma engines cs : fine cs -> exists e f es, run e0 cs = Some (e, es) /\ run f0 cs = Some (f, es) /\ Forall2 R e f.
Proof.
  intros [Hs Hc]. destruct (engines_run (S := S) (I := I) (B := B) symbols default_config cs default_config_ok Hs Hc) as (e & e' & f' & es & He & Hf & Hre & Hrf & _ & HR).
  rewrite made_fast in He. rewrite made_reference in Hf. injection He as <-. injection Hf as ->. eauto 10.
Qed.
Lemma top_total b r : R b r -> exists x, top b = Some x.
Proof. intros HR. unfold top. rewrite (best_bid_qty_spec b r HR), (best_ask_qty_spec b r HR). cbn. eauto. Qed.
Lemma size_made : alen e0 = Z.max 0 symbols.
Proof.
  destruct (make_engines (S := S) (I := I) (B := B) symbols default_config default_config_ok) as (e & f & He & _ & HR & Hf). rewrite made_fast in He. injection He as <-.
  unfold alen. rewrite (Forall2_length _ _ _ HR), Hf, length_fmap, length_seqZ. lia.
Qed.
Lemma carried_init : carried [] init_core.
Proof.
  split; cbn; [|done| |].
  - destruct (engines []) as (e & f & es & He & Hf & HR); [split; [done|split; [done|left; done]]|]. cbn in He, Hf. simplify_eq. eauto 10.
  - rewrite size_made. split; [done|]. unfold alen, amake. rewrite length_replicate. lia.
  - intros s b Hb. destruct (make_engines (S := S) (I := I) (B := B) symbols default_config default_config_ok) as (e & f & He & _ & HR & Hf).
    rewrite made_fast in He. injection He as <-. pose proof (aget_bound _ _ _ Hb) as Hs. rewrite size_made in Hs.
    apply aget_Some in Hb as [_ Hb]. destruct (Forall2_lookup_l _ _ _ _ _ HR Hb) as (r & Hr & HRb). rewrite Hf in Hr. apply list_lookup_fmap_Some in Hr as (i & -> & _).
    unfold top. rewrite (best_bid_qty_spec _ _ HRb), (best_ask_qty_spec _ _ HRb), (best_bid_spec _ _ HRb), (best_ask_spec _ _ HRb).
    cbn. symmetry. apply aget_Some. split; [lia|]. unfold amake. apply lookup_replicate. split; [done|lia].
Qed.

(** One more command. *)
Lemma carried_step cs c m : fine (cs ++ [c]) -> carried cs m -> exists m' ms, handle symbols m c = Some (m', ms) /\ carried (cs ++ [c]) m'.
Proof.
  intros Hf [(f & es & Hre & Hrf & HR & Hk) H8 [He Ht] Htob]. destruct (engines _ Hf) as (e' & f' & es' & Hre' & Hrf' & HR').
  destruct (run_last _ _ _ _ _ _ _ Hre Hre') as (es1 & Hp & ->). unfold handle. rewrite Hp. cbn [mbind option_bind]. rewrite on_events_eq.
  destruct (counted_ok es1 (counts m) H8) as (k & Hk1 & H8'). rewrite Hk1. cbn [mbind option_bind].
  assert (alen e' = Z.max 0 symbols) as He' by (by rewrite (process_length _ _ _ _ Hp)).
  assert (counted CountingSink.init (es ++ es1) = Some k) as Hk' by (by rewrite counted_app, Hk).
  assert (0 <= c_symbol c) as Hc0 by (destruct Hf as [Hf _]; apply Forall_app in Hf as [_ Hf]; by apply Forall_cons in Hf as [? _]).
  assert (forall s, s <> c_symbol c -> e'.[s] = (engine m).[s]) as Hother.
  { intros s Hs. unfold process in Hp. case_match; [by simplify_eq|]. inv_bind. destruct x0 as [b1 es2]. inv_bind. by erewrite aget_aset_ne. }
  destruct (Z.ltb_spec (c_symbol c) symbols) as [Hlt|Hge].
  - destruct (aget_is_Some e' (c_symbol c)) as [b Hb]; [lia|]. rewrite Hb. cbn [mbind option_bind]. pose proof Hb as Hb'. apply aget_Some in Hb' as [_ Hb'].
    destruct (Forall2_lookup_l _ _ _ _ _ HR' Hb') as (r & _ & HRb). destruct (top_total b r HRb) as [x Hx]. unfold top in Hx.
    destruct (OB.best_bid_qty b) as [bq|] eqn:Ebq; [|done]. destruct (OB.best_ask_qty b) as [aq|] eqn:Eaq; [|done]. cbn [mbind option_bind] in *. injection Hx as Ex.
    destruct (aget_is_Some (tob m) (c_symbol c)) as [old Hold]; [lia|]. rewrite Hold. cbn [mbind option_bind]. rewrite Ex.
    assert (top b = Some x) as Htop by (unfold top; rewrite Ebq, Eaq; cbn; by rewrite Ex). case_bool_decide as Hsame.
    + eexists _, _. split; [done|]. split; cbn; [eauto 10|done|done|]. intros s b' Hs. destruct (decide (s = c_symbol c)) as [->|Hn]; [congruence|].
      rewrite Hother in Hs by done. by apply Htob.
    + destruct (aset_is_Some (tob m) (c_symbol c) x) as [tobs Hset]; [lia|]. rewrite Hset. cbn [mbind option_bind]. eexists _, _. split; [done|].
      split; cbn; [eauto 10|done|by rewrite (alen_aset _ _ _ _ Hset)|]. intros s b' Hs. destruct (decide (s = c_symbol c)) as [->|Hn].
      * rewrite (aget_aset_eq _ _ _ _ Hset). congruence.
      * rewrite (aget_aset_ne _ _ _ _ _ Hset) by done. rewrite Hother in Hs by done. by apply Htob.
  - eexists _, _. split; [done|]. split; cbn; [eauto 10|done|done|]. intros s b' Hs. destruct (decide (s = c_symbol c)) as [->|Hn].
    + pose proof (aget_bound _ _ _ Hs). lia.
    + rewrite Hother in Hs by done. by apply Htob.
Qed.

(** Every command in turn, and all it publishes. *)
Fixpoint carry (m : core) (cs : list Command) : option (core * list MdMsg) :=
  match cs with [] => Some (m, []) | c :: cs => '(m, ms) ← handle symbols m c; '(m, ms') ← carry m cs; Some (m, ms ++ ms') end.
Lemma carry_snoc cs c m m1 ms m2 ms' : carry m cs = Some (m1, ms) -> handle symbols m1 c = Some (m2, ms') -> carry m (cs ++ [c]) = Some (m2, ms ++ ms').
Proof.
  revert m ms. induction cs as [|x cs IH]; intros m ms; cbn [carry app].
  - intros [= -> <-] ->. cbn. by rewrite app_nil_r.
  - destruct (handle symbols m x) as [[m' ms1]|]; [|done]. cbn [mbind option_bind]. destruct (carry m' cs) as [[m3 ms3]|] eqn:E; [|done]. cbn [mbind option_bind].
    intros [= -> <-] Hh. rewrite (IH _ _ E Hh). cbn. by rewrite app_assoc.
Qed.
End handling.
End Carrying.

(** ** The three threads *)

Module Threads.
Import Rings Decoding Carrying Pipeline.

(** A latency histogram that takes any value. *)
Definition sound (l : CrossCoreLatency.t) : Prop := alen (LatencyHistogram.counts_ (CrossCoreLatency.hist l)) = LatencyHistogram.kBuckets.
Lemma sound_init : sound CrossCoreLatency.init.
Proof. done. Qed.
Lemma sound_record l now stamp : sound l -> exists l', CrossCoreLatency.record l now stamp = Some l' /\ sound l'.
Proof.
  unfold sound, CrossCoreLatency.record. intros Hl. set (d := i64 (u64 (now - stamp))). assert (in_u64 (if d <? 0 then 0 else d)) as Hd.
  { pose proof (in_i64_i64 (u64 (now - stamp))) as H. fold d in H. unfold in_i64, in_u64 in *. destruct (Z.ltb_spec d 0); lia. }
  destruct (LatencyHistogram.index_bounds _ Hd) as [Hi _]. unfold LatencyHistogram.record. rewrite <- Hl in Hi.
  destruct (aget_is_Some _ _ Hi) as [n ->]. cbn [mbind option_bind].
  destruct (aset_is_Some (LatencyHistogram.counts_ (CrossCoreLatency.hist l)) (LatencyHistogram.index (if d <? 0 then 0 else d)) (u64 (n + 1)) Hi) as [c Hc]. rewrite Hc. cbn [mbind option_bind].
  eexists. split; [done|]. cbn. by rewrite (alen_aset _ _ _ _ Hc).
Qed.
Lemma sound_maybe (w p : Z) l now stamp : sound l -> exists l', (if w <=? p then CrossCoreLatency.record l now stamp else Some l) = Some l' /\ sound l'.
Proof. intros Hl. destruct (w <=? p); [by apply sound_record|eauto]. Qed.

Section threads.
Context {S I B : Type} {OF : OrderFields S} {OFL : OrderFieldsLaws S} {IX : IdIndex I} {IXL : IdIndexLaws I}
  {LS : LevelSet B} {LSL : LevelSetLaws B}.
Context (symbols warmup : Z) (e0 : MatchingEngine.t (OB.t S I B)) (f0 : MatchingEngine.t RB.t).
Hypothesis made_fast : MatchingEngine.make symbols default_config = Some e0.
Hypothesis made_reference : MatchingEngine.make symbols default_config = Some f0.
(** The commands of the capture and how many of its messages are malformed; the capacities of the rings. *)
Context (cs0 : list Command) (n0 ci co : Z).
Hypothesis fine0 : fine cs0.
Hypothesis roomy : 2 <= ci /\ 2 <= co.
Abbreviation st := (t S I B).
Implicit Types (s : st).

Definition pending s : list Command := match f_pc (feed s) with FPush c => [c] | _ => [] end.
Definition peeking s : bool := match m_pc (matcher s) with MSend _ _ => true | _ => false end.
Definition unsent s : list MdMsg := match m_pc (matcher s) with MSend _ ms => ms | _ => [] end.
(** The command at the front of the ring counts once its carrying out has begun. *)
Definition begun s (D : list Command) : list Command := match m_pc (matcher s) with MSend c _ => D ++ [c] | _ => D end.

(** [P]: pushed, [rest]: not yet decoded, [D]: popped, [xs]: in the ring; [sent], [got], [ys] the same of the messages. *)
Record tied s (P rest : list Command) (n : Z) (D xs : list Command) (sent got ys : list MdMsg) : Prop := {
  T_split : exists cp, cs0 = cp ++ rest /\ Forall2 stamped cp (P ++ pending s);
  T_rest : match f_pc (feed s) with FDone => rest = [] /\ n = 0 | _ => decodes (f_rest (feed s)) rest n end;
  T_bad : exists k, malformed (feed s) = u64 k /\ k + n = n0;
  T_fed : fed (feed s) = u64 (alen P);
  T_done : feed_done s = true <-> f_pc (feed s) = FDone;
  T_in : held ci (peeking s) (q_in s) xs;
  T_fifo : P = D ++ xs;
  T_core : carried symbols e0 f0 (begun s D) (m_core (matcher s)) /\ carry symbols (init_core symbols e0) (begun s D) = Some (m_core (matcher s), sent ++ unsent s);
  T_matcher : match m_pc (matcher s) with MSend c _ => head xs = Some c | MRecheck => feed_done s = true | MDone => feed_done s = true /\ xs = [] | _ => True end;
  T_processed : processed (matcher s) = u64 (alen D);
  T_lat : sound (h_match (matcher s)) /\ sound (h_md (publisher s));
  T_edone : engine_done s = true <-> m_pc (matcher s) = MDone;
  T_md : held co false (q_md s) ys /\ sent = got ++ ys;
  T_got : md_msgs (publisher s) = u64 (alen got) /\ md_digest (publisher s) = foldl md_on_event EventDigest.init got;
  T_publisher : match p_pc (publisher s) with PRecheck => engine_done s = true | PDone => engine_done s = true /\ ys = [] | _ => True end;
}.

(** *** The feed thread *)

(** What the feed has left to do. *)
Definition feed_left s : nat := 2 * length (f_rest (feed s)) + match f_pc (feed s) with FDecode => 1 | FPush _ => 2 | FDone => 0 end.

Lemma alen_snoc {A} (l : list A) x : alen (l ++ [x]) = alen l + 1.
Proof. unfold alen. rewrite length_app. cbn. lia. Qed.

Lemma feed_decodes s ts head P rest n D xs sent got ys : tied s P rest n D xs sent got ys -> in_u64 ts -> f_pc (feed s) = FDecode ->
  exists s' rest' n', feed_step s ts head = Some s' /\ tied s' P rest' n' D xs sent got ys /\ (feed_left s' < feed_left s)%nat /\
    matcher s' = matcher s /\ publisher s' = publisher s.
Proof.
  intros [] Hts Hpc. unfold feed_step, feed_left. rewrite Hpc in *. unfold pending in T_split0. rewrite Hpc, app_nil_r in T_split0. destruct T_split0 as (cp & Ecs & Hst).
  assert (feed_done s = false) as Hnd by (destruct (feed_done s); [by discriminate (proj1 T_done0 eq_refl)|done]).
  assert (forall s', feed s' = mkFeed FDone (f_rest (feed s)) (fed (feed s)) (malformed (feed s)) (in_stalls (feed s)) -> feed_done s' = true ->
    q_in s' = q_in s -> matcher s' = matcher s -> q_md s' = q_md s -> engine_done s' = engine_done s -> publisher s' = publisher s -> rest = [] /\ n = 0 -> tied s' P [] 0 D xs sent got ys) as Hstop.
  { intros s' E1 E2 E3 E4 E5 E6 E7 [-> ->]. split; unfold pending, peeking, unsent, begun in *; rewrite ?E1, ?E2, ?E3, ?E4, ?E5, ?E6, ?E7; cbn; try done.
    - exists cp. by rewrite !app_nil_r in *.
    - by destruct (m_pc (matcher s)) eqn:Em; rewrite ?Hnd in T_matcher0; naive_solver. }
  destruct (f_rest (feed s)) as [|x l] eqn:Erest.
  - eexists _, [], 0. split; [done|]. split; [|split; [cbn; lia|done]]. apply Hstop; try done; inversion T_rest0 as [| |]; subst; try done.
  - rewrite <- Erest in *. assert (f_rest (feed s) <> []) as Hne by (by rewrite Erest).
    destruct (decode_shape (f_rest (feed s))) as [(Hs & Hc & c & Hd)|(Hs & Hd & Hc & Hi)]; rewrite Hd.
    + rewrite Hs. pose proof (drop_shorter (f_rest (feed s)) _ Hne Hc) as Hlt. inversion T_rest0 as [b [|[]]|b c' cs n' _ _ Hd' Hrest|b cs n' _ Hs' _ _]; subst; try done.
      assert (c' = c) as -> by congruence. eexists _, cs, n. split; [done|]. split; [|split; [cbn; lia|done]].
      split; cbn; try done; [|split; [by rewrite Hnd|done]]. exists (cp ++ [c]). split; [by rewrite <- app_assoc|]. apply Forall2_app; [done|]. constructor; [|done]. by exists ts.
    + assert (match Wire.status (Wire.decode (f_rest (feed s))) with Wire.Ok => False | _ => True end) as Hm by (by destruct (Wire.status _)).
      set (step1 := if Wire.consumed _ =? 0 then _ else _). assert (exists s' rest' n', step1 = Some s' /\ tied s' P rest' n' D xs sent got ys /\
        (2 * length (f_rest (feed s')) + match f_pc (feed s') with FDecode => 1 | FPush _ => 2 | FDone => 0 end < 2 * length (f_rest (feed s)) + 1)%nat /\
        matcher s' = matcher s /\ publisher s' = publisher s) as Hgo; [|by destruct (Wire.status _)].
      unfold step1. destruct (Z.eqb_spec (Wire.consumed (Wire.decode (f_rest (feed s)))) 0) as [E|Hn].
      * eexists _, [], 0. split; [done|]. split; [|split; [cbn; lia|done]]. apply Hstop; try done. by inversion T_rest0 as [| |]; subst.
      * pose proof (drop_shorter (f_rest (feed s)) (Wire.consumed (Wire.decode (f_rest (feed s)))) Hne ltac:(lia)) as Hlt.
        inversion T_rest0 as [b [|[]]|b c' cs n' _ Hs' _ _|b cs n' _ _ _ Hrest]; subst; try done. destruct T_bad0 as (k & Ek & Hk).
        eexists _, rest, n'. split; [done|]. split; [|split; [cbn; lia|done]]. split; cbn; try done; [by exists cp; rewrite app_nil_r|].
        exists (k + 1). rewrite Ek, u64_add_l. split; [done|lia].
Qed.
Lemma feed_pushes s c ts head P rest n D xs sent got ys : tied s P rest n D xs sent got ys -> f_pc (feed s) = FPush c ->
  SpscQueue.may_load (SpscQueue.head_cache_ (q_in s)) (SpscQueue.head_ (q_in s)) head ->
  exists s' P' xs', feed_step s ts head = Some s' /\ tied s' P' rest n D xs' sent got ys /\ matcher s' = matcher s /\ publisher s' = publisher s /\
    (head = SpscQueue.head_ (q_in s) -> alen xs < ci -> (feed_left s' < feed_left s)%nat).
Proof.
  intros [] Hpc Hl. unfold feed_step, feed_left. rewrite Hpc in *. unfold pending in T_split0. rewrite Hpc in T_split0. destruct T_split0 as (cp & Ecs & Hst).
  assert (feed_done s = false) as Hnd by (destruct (feed_done s); [by discriminate (proj1 T_done0 eq_refl)|done]).
  destruct (held_push _ _ _ _ _ c T_in0 Hl) as (b & q' & -> & Hq & Hb). cbn [mbind option_bind]. destruct b.
  - eexists _, (P ++ [c]), (xs ++ [c]). split; [done|]. split; [|split_and!; [done|done|cbn; lia]].
    split; cbn; try done; [by exists cp; rewrite app_nil_r|by rewrite T_fed0, alen_snoc, u64_add_l|split; [by rewrite Hnd|done]|by rewrite T_fifo0, app_assoc|].
    rewrite Hnd in *. destruct (m_pc (matcher s)); try done; [|naive_solver]. destruct xs; [done|]. done.
  - eexists _, P, xs. split; [done|]. split; [|split_and!; [done|done|intros E1 E2; by specialize (Hb E1 E2)]].
    split; cbn; try done. by exists cp.
Qed.

(** *** The engine thread *)

Lemma not_done s P rest n D xs sent got ys pc : tied s P rest n D xs sent got ys -> m_pc (matcher s) = pc -> pc <> MDone -> engine_done s = false.
Proof. intros [] Hpc Hn. destruct (engine_done s); [|done]. by destruct Hn; rewrite <- Hpc; apply T_edone0. Qed.

Lemma matcher_fronts s tail head flag now P rest n D xs sent got ys : tied s P rest n D xs sent got ys -> m_pc (matcher s) = MFront ->
  SpscQueue.may_load (SpscQueue.tail_cache_ (q_in s)) (SpscQueue.tail_ (q_in s)) tail ->
  exists s', matcher_step symbols warmup s tail head flag now = Some s' /\ tied s' P rest n D xs sent got ys /\ feed s' = feed s /\ publisher s' = publisher s /\
    (m_pc (matcher s') = MCheck \/ exists c ms, m_pc (matcher s') = MSend c ms) /\
    (tail = SpscQueue.tail_ (q_in s) -> xs <> [] -> exists c ms, m_pc (matcher s') = MSend c ms).
Proof.
  intros HT Hpc Hl. pose proof (not_done _ _ _ _ _ _ _ _ _ _ HT Hpc ltac:(done)) as Hnd. destruct HT. unfold peeking, unsent, begun in *. rewrite Hpc in *.
  unfold matcher_step. rewrite Hpc. destruct (held_front _ _ _ _ T_in0 Hl) as (p & q' & -> & Hq & Hp & Hfresh). cbn [mbind option_bind].
  destruct p as [c|].
  - destruct Hp as [|Hp]; [done|]. destruct xs as [|c' xs]; [done|]. injection Hp as <-. destruct T_core0 as [Hcar Hcarry].
    assert (fine (D ++ [c])) as Hfine.
    { destruct T_split0 as (cp & -> & Hst). apply fine_app in fine0. pose proof (fine_stamped _ _ Hst fine0) as Hf. rewrite T_fifo0 in Hf.
      replace ((D ++ c :: xs) ++ pending s) with ((D ++ [c]) ++ xs ++ pending s) in Hf by (by rewrite <- !app_assoc). by apply fine_app in Hf. }
    destruct (carried_step symbols e0 f0 made_fast made_reference D c _ Hfine Hcar) as (core & ms & Hh & Hcar'). rewrite Hh. cbn [mbind option_bind].
    eexists. split; [done|]. split; [|split_and!; try done; eauto]. split; cbn; try done.
    + split; [done|]. rewrite app_nil_r in Hcarry. by apply (carry_snoc _ _ _ _ _ _ _ _ Hcarry).
    + split; [by rewrite Hnd|done].
  - eexists. split; [done|]. split; [|split_and!; try done; [by left|]]. { split; cbn; try done. split; [by rewrite Hnd|done]. }
    intros E Hxs. specialize (Hfresh E). by destruct xs.
Qed.
Lemma matcher_checks s tail head (flag : bool) now P rest n D xs sent got ys : tied s P rest n D xs sent got ys -> m_pc (matcher s) = MCheck ->
  (flag = true -> feed_done s = true) ->
  exists s', matcher_step symbols warmup s tail head flag now = Some s' /\ tied s' P rest n D xs sent got ys /\ feed s' = feed s /\ publisher s' = publisher s /\
    m_pc (matcher s') = (if flag then MRecheck else MFront).
Proof.
  intros HT Hpc Hf. pose proof (not_done _ _ _ _ _ _ _ _ _ _ HT Hpc ltac:(done)) as Hnd. destruct HT. unfold peeking, unsent, begun in *. rewrite Hpc in *.
  unfold matcher_step. rewrite Hpc. eexists. split; [done|]. split; [|done]. destruct flag; split; cbn; try done; auto; split; try done; by rewrite Hnd.
Qed.
Lemma matcher_rechecks s head flag now P rest n D xs sent got ys : tied s P rest n D xs sent got ys -> m_pc (matcher s) = MRecheck ->
  exists s', matcher_step symbols warmup s (SpscQueue.tail_ (q_in s)) head flag now = Some s' /\ tied s' P rest n D xs sent got ys /\ feed s' = feed s /\ publisher s' = publisher s /\
    m_pc (matcher s') = (if xs is [] then MDone else MFront).
Proof.
  intros HT Hpc. pose proof (not_done _ _ _ _ _ _ _ _ _ _ HT Hpc ltac:(done)) as Hnd. destruct HT. unfold peeking, unsent, begun in *. rewrite Hpc in *.
  unfold matcher_step. rewrite Hpc. destruct (held_fresh _ _ _ _ T_in0) as [Hl _]. destruct (held_front _ _ _ _ T_in0 Hl) as (p & q' & -> & Hq & _ & Hfresh). cbn [mbind option_bind].
  rewrite (Hfresh eq_refl) in *. apply held_unpeek in Hq. destruct xs as [|c xs]; cbn [list.head]; (eexists; split; [done|]; split; [|done]); split; cbn; try done.
  - destruct (p_pc (publisher s)); try done; rewrite Hnd in *; naive_solver.
  - split; [by rewrite Hnd|done].
Qed.
Lemma matcher_sends s c x ms tail head flag now P rest n D xs sent got ys : tied s P rest n D xs sent got ys -> m_pc (matcher s) = MSend c (x :: ms) ->
  SpscQueue.may_load (SpscQueue.head_cache_ (q_md s)) (SpscQueue.head_ (q_md s)) head ->
  exists s' sent' ys', matcher_step symbols warmup s tail head flag now = Some s' /\ tied s' P rest n D xs sent' got ys' /\ feed s' = feed s /\ publisher s' = publisher s /\
    (head = SpscQueue.head_ (q_md s) -> alen ys < co -> m_pc (matcher s') = MSend c ms).
Proof.
  intros HT Hpc Hl. pose proof (not_done _ _ _ _ _ _ _ _ _ _ HT Hpc ltac:(done)) as Hnd. destruct HT. unfold peeking, unsent, begun in *. rewrite Hpc in *.
  unfold matcher_step. rewrite Hpc. destruct T_md0 as [Hmd ->]. destruct (held_push _ _ _ _ _ x Hmd Hl) as (b & q' & -> & Hq & Hb). cbn [mbind option_bind]. destruct b.
  - eexists _, ((got ++ ys) ++ [x]), (ys ++ [x]). split; [done|]. split; [|done]. split; cbn; try done.
    + by rewrite <- app_assoc.
    + split; [by rewrite Hnd|done].
    + by rewrite app_assoc.
    + destruct (p_pc (publisher s)); try done; rewrite Hnd in *; naive_solver.
  - eexists _, (got ++ ys), ys. split; [done|]. split; [|split_and!; [done..|intros E1 E2; by specialize (Hb E1 E2)]]. by split.
Qed.
Lemma matcher_pops s c tail head flag now P rest n D xs sent got ys : tied s P rest n D xs sent got ys -> m_pc (matcher s) = MSend c [] ->
  exists s' xs', matcher_step symbols warmup s tail head flag now = Some s' /\ tied s' P rest n (D ++ [c]) xs' sent got ys /\ feed s' = feed s /\ publisher s' = publisher s /\
    m_pc (matcher s') = MFront /\ xs = c :: xs'.
Proof.
  intros HT Hpc. pose proof (not_done _ _ _ _ _ _ _ _ _ _ HT Hpc ltac:(done)) as Hnd. destruct HT. unfold peeking, unsent, begun in *. rewrite Hpc in *.
  unfold matcher_step. rewrite Hpc. destruct T_lat0 as [L1 L2]. destruct (sound_maybe warmup (processed (matcher s)) (h_match (matcher s)) now (c_ts c) L1) as (h & -> & Hh). cbn [mbind option_bind].
  destruct xs as [|c' xs]; [done|]. injection T_matcher0 as ->. eexists _, xs. split; [done|]. split; [|done]. split; cbn; try done.
  - by apply held_pop in T_in0.
  - by rewrite T_fifo0, <- app_assoc.
  - by rewrite T_processed0, alen_snoc, u64_add_l.
  - split; [by rewrite Hnd|done].
Qed.

(** *** The publisher thread *)

Lemma publisher_fronts s tail flag now P rest n D xs sent got ys : tied s P rest n D xs sent got ys -> p_pc (publisher s) = PFront ->
  SpscQueue.may_load (SpscQueue.tail_cache_ (q_md s)) (SpscQueue.tail_ (q_md s)) tail ->
  exists s' got' ys', publisher_step warmup s tail flag now = Some s' /\ tied s' P rest n D xs sent got' ys' /\ feed s' = feed s /\ matcher s' = matcher s /\
    ((ys' = ys /\ p_pc (publisher s') = PCheck) \/ (length ys' < length ys)%nat) /\
    (tail = SpscQueue.tail_ (q_md s) -> ys <> [] -> (length ys' < length ys)%nat).
Proof.
  intros [] Hpc Hl. rewrite Hpc in *. unfold publisher_step. rewrite Hpc. destruct T_md0 as [Hmd Hsent].
  destruct (held_front _ _ _ _ Hmd Hl) as (p & q' & -> & Hq & Hp & Hfresh). cbn [mbind option_bind]. destruct p as [x|].
  - destruct Hp as [|Hp]; [done|]. destruct ys as [|x' ys]; [done|]. injection Hp as <-. destruct T_lat0 as [L1 L2].
    destruct (sound_maybe warmup (md_msgs (publisher s)) (h_md (publisher s)) now (ingress_ts x) L2) as (h & -> & Hh). cbn [mbind option_bind].
    eexists _, (got ++ [x]), ys. split; [done|]. split; [|split_and!; try done; [right; cbn; lia|cbn; lia]]. destruct T_got0 as [G1 G2].
    rewrite bool_decide_eq_true_2 in Hq by done. split; cbn; try done.
    + split; [by apply held_pop in Hq|by rewrite Hsent, <- app_assoc].
    + split; [by rewrite G1, alen_snoc, u64_add_l|by rewrite G2, foldl_app].
  - eexists _, got, ys. split; [done|]. split; [|split_and!; try done; [by left|]]. { split; cbn; try done. }
    intros E Hys. specialize (Hfresh E). by destruct ys.
Qed.
Lemma publisher_checks s tail (flag : bool) now P rest n D xs sent got ys : tied s P rest n D xs sent got ys -> p_pc (publisher s) = PCheck ->
  (flag = true -> engine_done s = true) ->
  exists s', publisher_step warmup s tail flag now = Some s' /\ tied s' P rest n D xs sent got ys /\ feed s' = feed s /\ matcher s' = matcher s /\
    p_pc (publisher s') = (if flag then PRecheck else PFront).
Proof.
  intros [] Hpc Hf. rewrite Hpc in *. unfold publisher_step. rewrite Hpc. eexists. split; [done|]. split; [|done]. destruct flag; split; cbn; try done; auto.
Qed.
Lemma publisher_rechecks s flag now P rest n D xs sent got ys : tied s P rest n D xs sent got ys -> p_pc (publisher s) = PRecheck ->
  exists s', publisher_step warmup s (SpscQueue.tail_ (q_md s)) flag now = Some s' /\ tied s' P rest n D xs sent got ys /\ feed s' = feed s /\ matcher s' = matcher s /\
    p_pc (publisher s') = (if ys is [] then PDone else PFront).
Proof.
  intros [] Hpc. rewrite Hpc in *. unfold publisher_step. rewrite Hpc. destruct T_md0 as [Hmd Hsent]. destruct (held_fresh _ _ _ _ Hmd) as [Hl _].
  destruct (held_front _ _ _ _ Hmd Hl) as (p & q' & -> & Hq & _ & Hfresh). cbn [mbind option_bind]. rewrite (Hfresh eq_refl) in *. apply held_unpeek in Hq.
  destruct ys as [|x ys]; cbn [list.head]; (eexists; split; [done|]; split; [|done]); split; cbn; try done.
Qed.

(** *** Any step *)

Definition going s : Prop := exists P rest n D xs sent got ys, tied s P rest n D xs sent got ys.

(** A thread that has not ended can move, whatever its loads return: nothing is undefined. *)
Lemma feed_moves s ts head : going s -> f_pc (feed s) <> FDone -> in_u64 ts -> SpscQueue.may_load (SpscQueue.head_cache_ (q_in s)) (SpscQueue.head_ (q_in s)) head ->
  exists s', feed_step s ts head = Some s' /\ going s'.
Proof.
  intros (P & rest & n & D & xs & sent & got & ys & HT) Hnd Hts Hl. unfold going. destruct (f_pc (feed s)) as [|c|] eqn:Hpc; [| |done].
  - destruct (feed_decodes s ts head _ _ _ _ _ _ _ _ HT Hts Hpc) as (s1 & rest' & n' & E & H & _). eauto 12.
  - destruct (feed_pushes s c ts head _ _ _ _ _ _ _ _ HT Hpc Hl) as (s1 & P' & xs' & E & H & _). eauto 12.
Qed.
Lemma matcher_moves s tail head flag now : going s -> m_pc (matcher s) <> MDone ->
  SpscQueue.may_load (SpscQueue.tail_cache_ (q_in s)) (SpscQueue.tail_ (q_in s)) tail ->
  SpscQueue.may_load (SpscQueue.head_cache_ (q_md s)) (SpscQueue.head_ (q_md s)) head ->
  (flag = true -> feed_done s = true) -> (m_pc (matcher s) = MRecheck -> tail = SpscQueue.tail_ (q_in s)) ->
  exists s', matcher_step symbols warmup s tail head flag now = Some s' /\ going s'.
Proof.
  intros (P & rest & n & D & xs & sent & got & ys & HT) Hnd Ht Hh Hf Hr. unfold going. destruct (m_pc (matcher s)) as [| | |c [|x ms]|] eqn:Hpc; [| | | | |done].
  - destruct (matcher_fronts s tail head flag now _ _ _ _ _ _ _ _ HT Hpc Ht) as (s1 & E & H & _). eauto 12.
  - destruct (matcher_checks s tail head flag now _ _ _ _ _ _ _ _ HT Hpc Hf) as (s1 & E & H & _). eauto 12.
  - rewrite (Hr eq_refl). destruct (matcher_rechecks s head flag now _ _ _ _ _ _ _ _ HT Hpc) as (s1 & E & H & _). eauto 12.
  - destruct (matcher_pops s c tail head flag now _ _ _ _ _ _ _ _ HT Hpc) as (s1 & xs' & E & H & _). eauto 12.
  - destruct (matcher_sends s c x ms tail head flag now _ _ _ _ _ _ _ _ HT Hpc Hh) as (s1 & sent' & ys' & E & H & _). eauto 12.
Qed.
Lemma publisher_moves s tail flag now : going s -> p_pc (publisher s) <> PDone ->
  SpscQueue.may_load (SpscQueue.tail_cache_ (q_md s)) (SpscQueue.tail_ (q_md s)) tail ->
  (flag = true -> engine_done s = true) -> (p_pc (publisher s) = PRecheck -> tail = SpscQueue.tail_ (q_md s)) ->
  exists s', publisher_step warmup s tail flag now = Some s' /\ going s'.
Proof.
  intros (P & rest & n & D & xs & sent & got & ys & HT) Hnd Ht Hf Hr. unfold going. destruct (p_pc (publisher s)) eqn:Hpc; [| | |done].
  - destruct (publisher_fronts s tail flag now _ _ _ _ _ _ _ _ HT Hpc Ht) as (s1 & got' & ys' & E & H & _). eauto 12.
  - destruct (publisher_checks s tail flag now _ _ _ _ _ _ _ _ HT Hpc Hf) as (s1 & E & H & _). eauto 12.
  - rewrite (Hr eq_refl). destruct (publisher_rechecks s flag now _ _ _ _ _ _ _ _ HT Hpc) as (s1 & E & H & _). eauto 12.
Qed.
Lemma step_going s s' : going s -> step symbols warmup s s' -> going s'.
Proof.
  intros HG Hst. destruct Hst as [ts head s' Hts Hl Hs|tail head flag now s' _ Ht Hh Hf Hr Hs|tail flag now s' _ Ht Hf Hr Hs].
  - destruct (feed_moves s ts head) as (s1 & E & H); [done| |done|done|congruence]. intros Hpc. unfold feed_step in Hs. by rewrite Hpc in Hs.
  - destruct (matcher_moves s tail head flag now) as (s1 & E & H); [done| |done..|congruence]. intros Hpc. unfold matcher_step in Hs. by rewrite Hpc in Hs.
  - destruct (publisher_moves s tail flag now) as (s1 & E & H); [done| |done..|congruence]. intros Hpc. unfold publisher_step in Hs. by rewrite Hpc in Hs.
Qed.
Lemma rtc_going s s' : going s -> rtc (step symbols warmup) s s' -> going s'.
Proof. intros HG. induction 1; [done|]. eauto using step_going. Qed.

(** *** Progress *)

(** What is left, most significant first: decoding and pushing, the commands in the ring, messages to publish, messages in the
    ring, and the way to the end of a thread that has nothing left. *)
Definition ring_left s (xs : list Command) : nat := 2 * length xs - (if peeking s then 1 else 0).
Definition idle_left s (xs : list Command) (ys : list MdMsg) : nat :=
  match xs, m_pc (matcher s) with [], MFront => 3 | [], MCheck => 2 | [], MRecheck => 1 | _ :: _, MCheck | _ :: _, MRecheck => 1 | _, _ => 0 end +
  match ys, p_pc (publisher s) with [], PFront => 3 | [], PCheck => 2 | [], PRecheck => 1 | _ :: _, PCheck | _ :: _, PRecheck => 1 | _, _ => 0 end.
Definition lexico_lt (x y : nat * nat * nat * nat * nat) : Prop :=
  let '(a, b, c, d, e) := x in let '(a', b', c', d', e') := y in
  (a < a' \/ a = a' /\ (b < b' \/ b = b' /\ (c < c' \/ c = c' /\ (d < d' \/ d = d' /\ e < e'))))%nat.
Lemma lexico_ind (Q : nat * nat * nat * nat * nat -> Prop) : (forall x, (forall y, lexico_lt y x -> Q y) -> Q x) -> forall x, Q x.
Proof.
  intros HQ [[[[a b] c] d] e]. revert b c d e. induction (lt_wf a) as [a _ IHa]. intros b. induction (lt_wf b) as [b _ IHb]. intros c. induction (lt_wf c) as [c _ IHc].
  intros d. induction (lt_wf d) as [d _ IHd]. intros e. induction (lt_wf e) as [e _ IHe]. apply HQ. intros [[[[a' b'] c'] d'] e'] Hlt.
  unfold lexico_lt in Hlt. destruct Hlt as [|[-> [|[-> [|[-> [|[-> ?]]]]]]]]; auto.
Qed.
Definition left_over s xs ys : nat * nat * nat * nat * nat := (feed_left s, ring_left s xs, length (unsent s), length ys, idle_left s xs ys).

Lemma fresh s P rest n D xs sent got ys : tied s P rest n D xs sent got ys ->
  SpscQueue.may_load (SpscQueue.tail_cache_ (q_in s)) (SpscQueue.tail_ (q_in s)) (SpscQueue.tail_ (q_in s)) /\
  SpscQueue.may_load (SpscQueue.head_cache_ (q_in s)) (SpscQueue.head_ (q_in s)) (SpscQueue.head_ (q_in s)) /\
  SpscQueue.may_load (SpscQueue.tail_cache_ (q_md s)) (SpscQueue.tail_ (q_md s)) (SpscQueue.tail_ (q_md s)) /\
  SpscQueue.may_load (SpscQueue.head_cache_ (q_md s)) (SpscQueue.head_ (q_md s)) (SpscQueue.head_ (q_md s)).
Proof. intros []. destruct T_md0 as [Hmd _]. destruct (held_fresh _ _ _ _ T_in0), (held_fresh _ _ _ _ Hmd). done. Qed.

Lemma feed_left_feed s s' : feed s' = feed s -> feed_left s' = feed_left s.
Proof. intros E. unfold feed_left. by rewrite E. Qed.
(** The three kinds of turn, with what they leave. *)
Lemma publisher_turn s P rest n D xs sent got ys : tied s P rest n D xs sent got ys -> (ys <> [] \/ engine_done s = true) -> p_pc (publisher s) <> PDone ->
  exists s' got' ys', step symbols warmup s s' /\ tied s' P rest n D xs sent got' ys' /\ lexico_lt (left_over s' xs ys') (left_over s xs ys).
Proof.
  intros HT Hor Hnd. destruct (fresh _ _ _ _ _ _ _ _ _ HT) as (_ & _ & Hl & _).
  assert (forall s' ys', feed s' = feed s -> matcher s' = matcher s -> (length ys' < length ys)%nat \/ (ys' = ys /\ (idle_left s' xs ys < idle_left s xs ys)%nat) -> lexico_lt (left_over s' xs ys') (left_over s xs ys)) as Hlt.
  { intros s' ys' E1 E2 Hc. unfold left_over, lexico_lt, ring_left, unsent, peeking. rewrite (feed_left_feed _ _ E1), E2. destruct Hc as [|[-> ?]]; lia. }
  destruct (p_pc (publisher s)) eqn:Hpc; [| | |done].
  - destruct (publisher_fronts s _ false 0 _ _ _ _ _ _ _ _ HT Hpc Hl) as (s' & got' & ys' & Hs & HT' & E1 & E2 & Hc & Hf).
    exists s', got', ys'. split; [by eapply (step_publisher _ _ _ _ false 0); [|done| |by rewrite Hpc|]|]. split; [done|]. apply Hlt; [done|done|].
    destruct Hc as [[-> Hpc']|]; [|by left]. destruct ys as [|y ys]; [|left; by apply Hf]. right. split; [done|]. unfold idle_left. rewrite E2, Hpc, Hpc'. lia.
  - assert ((if ys is [] then true else false) = true -> engine_done s = true) as Hf by (destruct ys; [by destruct Hor|done]).
    destruct (publisher_checks s (SpscQueue.tail_ (q_md s)) _ 0 _ _ _ _ _ _ _ _ HT Hpc Hf) as (s' & Hs & HT' & E1 & E2 & Hpc').
    exists s', got, ys. split; [by eapply (step_publisher _ _ _ _ _ 0); [|done|exact Hf|by rewrite Hpc|]|]. split; [done|]. apply Hlt; [done|done|]. right. split; [done|].
    unfold idle_left. rewrite E2, Hpc, Hpc'. destruct ys; lia.
  - destruct (publisher_rechecks s false 0 _ _ _ _ _ _ _ _ HT Hpc) as (s' & Hs & HT' & E1 & E2 & Hpc').
    exists s', got, ys. split; [by eapply (step_publisher _ _ _ _ false 0); [|done| |done|]|]. split; [done|]. apply Hlt; [done|done|]. right. split; [done|].
    unfold idle_left. rewrite E2, Hpc, Hpc'. destruct ys; lia.
Qed.
Lemma matcher_turn s P rest n D xs sent got : tied s P rest n D xs sent got [] -> (xs <> [] \/ feed_done s = true) -> m_pc (matcher s) <> MDone ->
  exists s' D' xs' sent' ys', step symbols warmup s s' /\ tied s' P rest n D' xs' sent' got ys' /\ lexico_lt (left_over s' xs' ys') (left_over s xs []).
Proof.
  intros HT Hor Hnd. destruct (fresh _ _ _ _ _ _ _ _ _ HT) as (Hl & _ & _ & Hl'). set (tl := SpscQueue.tail_ (q_in s)). set (hd := SpscQueue.head_ (q_md s)).
  unfold left_over, lexico_lt, ring_left, unsent, peeking. destruct (m_pc (matcher s)) as [| | |c [|x ms]|] eqn:Hpc; [| | | | |done].
  - destruct (matcher_fronts s tl hd false 0 _ _ _ _ _ _ _ _ HT Hpc Hl) as (s' & Hs & HT' & E1 & E2 & Hc & Hf).
    exists s', D, xs, sent, []. split; [by eapply (step_matcher _ _ _ tl hd false 0); [|done|done| |by rewrite Hpc|]|]. split; [done|]. rewrite (feed_left_feed _ _ E1).
    destruct xs as [|c xs].
    + assert (m_pc (matcher s') = MCheck) as Hpc'. { destruct Hc as [|(c & ms & Hc)]; [done|]. pose proof (T_matcher _ _ _ _ _ _ _ _ _ HT') as Hm. by rewrite Hc in Hm. }
      rewrite Hpc'. unfold idle_left. rewrite E2, Hpc, Hpc'. cbn. lia.
    + destruct (Hf eq_refl) as (c' & ms & ->); [done|]. cbn [length]. lia.
  - assert ((if xs is [] then true else false) = true -> feed_done s = true) as Hf by (destruct xs; [by destruct Hor|done]).
    destruct (matcher_checks s tl hd _ 0 _ _ _ _ _ _ _ _ HT Hpc Hf) as (s' & Hs & HT' & E1 & E2 & Hpc').
    exists s', D, xs, sent, []. split; [by eapply (step_matcher _ _ _ tl hd _ 0); [|done|done|exact Hf|by rewrite Hpc|]|]. split; [done|]. rewrite (feed_left_feed _ _ E1).
    unfold idle_left. rewrite E2, Hpc, Hpc'. destruct xs; cbn; lia.
  - destruct (matcher_rechecks s hd false 0 _ _ _ _ _ _ _ _ HT Hpc) as (s' & Hs & HT' & E1 & E2 & Hpc').
    exists s', D, xs, sent, []. split; [by eapply (step_matcher _ _ _ tl hd false 0)|]. split; [done|]. rewrite (feed_left_feed _ _ E1).
    unfold idle_left. rewrite E2, Hpc, Hpc'. destruct xs; cbn; lia.
  - destruct (matcher_pops s c tl hd false 0 _ _ _ _ _ _ _ _ HT Hpc) as (s' & xs' & Hs & HT' & E1 & E2 & Hpc' & ->).
    exists s', (D ++ [c]), xs', sent, []. split; [by eapply (step_matcher _ _ _ tl hd false 0); [|done|done| |by rewrite Hpc|]|]. split; [done|]. rewrite (feed_left_feed _ _ E1), Hpc'. cbn [length]. lia.
  - destruct (matcher_sends s c x ms tl hd false 0 _ _ _ _ _ _ _ _ HT Hpc Hl') as (s' & sent' & ys' & Hs & HT' & E1 & E2 & Hf).
    exists s', D, xs, sent', ys'. split; [by eapply (step_matcher _ _ _ tl hd false 0); [|done|done| |by rewrite Hpc|]|]. split; [done|]. rewrite (feed_left_feed _ _ E1).
    rewrite Hf by (done || (unfold alen; cbn; lia)). cbn [length]. lia.
Qed.
Lemma feed_turn s P rest n D sent got : tied s P rest n D [] sent got [] -> f_pc (feed s) <> FDone ->
  exists s' P' rest' n' xs', step symbols warmup s s' /\ tied s' P' rest' n' D xs' sent got [] /\ lexico_lt (left_over s' xs' []) (left_over s [] []).
Proof.
  intros HT Hnd. destruct (fresh _ _ _ _ _ _ _ _ _ HT) as (_ & Hl & _ & _). unfold left_over, lexico_lt. destruct (f_pc (feed s)) as [|c|] eqn:Hpc; [| |done].
  - destruct (feed_decodes s 0 (SpscQueue.head_ (q_in s)) _ _ _ _ _ _ _ _ HT ltac:(by unfold in_u64) Hpc) as (s' & rest' & n' & Hs & HT' & Hlt & _).
    exists s', P, rest', n', []. split; [by eapply (step_feed _ _ _ 0)|]. split; [done|]. lia.
  - destruct (feed_pushes s c 0 (SpscQueue.head_ (q_in s)) _ _ _ _ _ _ _ _ HT Hpc Hl) as (s' & P' & xs' & Hs & HT' & _ & _ & Hlt).
    exists s', P', rest, n, xs'. split; [by eapply (step_feed _ _ _ 0)|]. split; [done|]. specialize (Hlt eq_refl ltac:(unfold alen; cbn; lia)). lia.
Qed.

(** Whatever the threads have done so far, they can go on to the end. *)
Lemma can_finish s : going s -> exists s', rtc (step symbols warmup) s s' /\ joined s'.
Proof.
  intros (P & rest & n & D & xs & sent & got & ys & HT). remember (left_over s xs ys) as x eqn:Ex. revert s P rest n D xs sent got ys HT Ex.
  induction x as [x IH] using lexico_ind. intros s P rest n D xs sent got ys HT ->.
  assert (forall s' P' rest' n' D' xs' sent' got' ys', step symbols warmup s s' -> tied s' P' rest' n' D' xs' sent' got' ys' ->
    lexico_lt (left_over s' xs' ys') (left_over s xs ys) -> exists s'', rtc (step symbols warmup) s s'' /\ joined s'') as Hgo.
  { intros s' P' rest' n' D' xs' sent' got' ys' Hst HT' Hlt. destruct (IH _ Hlt s' _ _ _ _ _ _ _ _ HT' eq_refl) as (s'' & H1 & H2). exists s''. split; [by eapply rtc_l|done]. }
  destruct (decide (ys = [])) as [->|Hys].
  - destruct (decide (xs = [])) as [->|Hxs].
    + destruct (f_pc (feed s)) eqn:Hf; [edestruct (feed_turn s) as (? & ? & ? & ? & ? & ? & ? & ?); [done|by rewrite Hf|eauto]..|].
      assert (feed_done s = true) as Hfd by (by apply (T_done _ _ _ _ _ _ _ _ _ HT)).
      destruct (m_pc (matcher s)) eqn:Hm; [edestruct (matcher_turn s) as (? & ? & ? & ? & ? & ? & ? & ?); [done|by right|by rewrite Hm|eauto]..|].
      assert (engine_done s = true) as Hed by (by apply (T_edone _ _ _ _ _ _ _ _ _ HT)).
      destruct (p_pc (publisher s)) eqn:Hp; [edestruct (publisher_turn s) as (? & ? & ? & ? & ? & ?); [done|by right|by rewrite Hp|eauto]..|].
      by exists s.
    + edestruct (matcher_turn s) as (? & ? & ? & ? & ? & ? & ? & ?); [done|by left| |eauto]. intros Hm.
      pose proof (T_matcher _ _ _ _ _ _ _ _ _ HT) as Hx. rewrite Hm in Hx. by destruct Hx.
  - edestruct (publisher_turn s) as (? & ? & ? & ? & ? & ?); [done|by left| |eauto]. intros Hp.
    pose proof (T_publisher _ _ _ _ _ _ _ _ _ HT) as Hx. rewrite Hp in Hx. by destruct Hx.
Qed.

(** The threads have ended: the ring ghosts are empty. *)
Lemma joined_results s : going s -> joined s -> exists D got, Forall2 stamped cs0 D /\ carried symbols e0 f0 D (m_core (matcher s)) /\
  carry symbols (init_core symbols e0) D = Some (m_core (matcher s), got) /\
  fed (feed s) = u64 (alen cs0) /\ malformed (feed s) = u64 n0 /\ processed (matcher s) = u64 (alen cs0) /\
  md_msgs (publisher s) = u64 (alen got) /\ md_digest (publisher s) = foldl md_on_event EventDigest.init got.
Proof.
  intros (P & rest & n & D & xs & sent & got & ys & []) (Hf & Hm & Hp). unfold pending, unsent, begun in *. rewrite Hf, Hm, Hp, ?app_nil_r in *.
  destruct T_rest0 as [-> ->], T_matcher0 as [_ ->], T_publisher0 as [_ ->], T_md0 as [_ ->], T_split0 as (cp & Ecs & Hst), T_core0 as [Hc1 Hc2], T_bad0 as (k & Ek & Hk).
  rewrite !app_nil_r in *. subst P cs0. assert (alen D = alen cp) as El by (unfold alen; by rewrite (Forall2_length _ _ _ Hst)). rewrite El in *.
  exists D, got. destruct T_got0 as [G1 G2]. split_and!; try done. rewrite Ek. f_equal. lia.
Qed.
End threads.
End Threads.

(** ** The theorems *)

Module PipelineTheorems.
Import Rings Decoding Carrying Threads BookEquiv Pipeline.
Import (hints) PriceBitmap AosStore AosLaws SoaStore SoaLaws HybridStore HybridLaws OrderIndex.

(** A capture that stays within the bounds the engine's theorems need. *)
Definition good_capture (buf : list Z) : Prop := bytes buf /\ forall cs st, Wire.decode_stream buf = Some (cs, st) -> commands_ok default_config cs.

Section theorems.
Context {S I B : Type} {OF : OrderFields S} {OFL : OrderFieldsLaws S} {IX : IdIndex I} {IXL : IdIndexLaws I}
  {LS : LevelSet B} {LSL : LevelSetLaws B}.
Context (symbols warmup : Z).

Lemma good_decodes buf : good_capture buf -> exists cs st, Wire.decode_stream buf = Some (cs, st) /\ decodes buf cs (Wire.st_malformed st) /\ fine cs.
Proof.
  intros [Hb Hc]. destruct (Wire.decode_loop_total (Datatypes.S (length buf)) buf (Wire.mkStats 0 0 false) Hb ltac:(lia)) as (cs & st & E & Hw & _).
  exists cs, st. split; [exact E|]. split; [by apply decode_stream_decodes|]. split; [|by eapply Hc]. eapply Forall_impl; [exact Hw|].
  intros c Hwf. unfold command_wf, in_u32 in Hwf. lia.
Qed.
Lemma starts buf qcap zc zm : good_capture buf -> qcap <= 9223372036854775808 ->
  exists (s0 : t S I B) e0 f0 cs st ci, init symbols buf qcap zc zm = Some s0 /\ Wire.decode_stream buf = Some (cs, st) /\ fine cs /\ 2 <= ci /\
    MatchingEngine.make symbols default_config = Some e0 /\ MatchingEngine.make symbols default_config = Some f0 /\
    going symbols e0 f0 cs (Wire.st_malformed st) ci ci s0.
Proof.
  intros Hg Hq. destruct (good_decodes buf Hg) as (cs & st & Hd & Hdec & Hfine).
  destruct (EngineEquiv.make_engines (S := S) (I := I) (B := B) symbols default_config default_config_ok) as (e0 & f0 & He & Hf & _).
  unfold init. rewrite He. cbn [mbind option_bind]. destruct (held_make qcap zc Hq) as (ci & Hci & Hroom). destruct (held_make qcap zm Hq) as (co & Hco & _).
  assert (co = ci) as -> by (destruct Hci as (? & ? & ? & ? & _ & _ & <-), Hco as (? & ? & ? & ? & _ & _ & <-); done).
  eexists _, e0, f0, cs, st, ci. split_and!; try done. exists [], cs, (Wire.st_malformed st), [], [], [], [], [].
  split; cbn; try done; [by exists []|by exists 0|split; [by apply carried_init|done]].
Qed.
Lemma same_counts (Bk : Type) `{BookImpl Bk} (e e' : MatchingEngine.t Bk) cs es k j :
  MatchingEngine.make symbols default_config = Some e -> MatchingEngine.run e cs = Some (e', es) -> counted CountingSink.init es = Some k ->
  exists x, ReplayTool.replay (Bk := Bk) cs symbols j = Some x /\ ReplayTool.counts x = k.
Proof.
  intros He Hr Hk. unfold ReplayTool.replay. rewrite He. cbn [mbind option_bind]. set (k0 := ReplayTool.mkSink _ _).
  pose proof (replay_loop_counts e cs k0) as H1. pose proof (replay_events_eq es k0) as H2. rewrite Hr in H1. cbn [mbind option_bind] in H1.
  change (counted (ReplayTool.counts k0) es) with (counted CountingSink.init es) in H2. rewrite Hk in H2.
  destruct (ReplayTool.on_events k0 es) as [x|]; [|done]. destruct (ReplayTool.replay_loop e k0 cs) as [[e1 x1]|]; [|done]. cbn in H1, H2. injection H1 as ->. injection H2 as <-.
  by exists x.
Qed.

Lemma fast_counts {S' I' B' : Type} `{OrderFieldsLaws S', IdIndexLaws I', LevelSetLaws B'} f0 cs f es k j : fine cs ->
  MatchingEngine.make symbols default_config = Some f0 -> MatchingEngine.run f0 cs = Some (f, es) -> counted CountingSink.init es = Some k ->
  exists x, ReplayTool.replay (Bk := OB.t S' I' B') cs symbols j = Some x /\ ReplayTool.counts x = k.
Proof.
  intros [Hs Hc] Hf Hrf Hk. destruct (EngineTheorems.engines_run (S := S') (I := I') (B := B') symbols default_config cs default_config_ok Hs Hc)
    as (e & e' & f' & es' & He' & Hf' & Hre & Hrf' & _). rewrite Hf in Hf'. injection Hf' as ->. rewrite Hrf in Hrf'. injection Hrf' as <- <-. by eapply same_counts.
Qed.

(** C35: threading does not change results. Whatever the interleaving of the three threads and however stale the indices they
    see, once they have ended every message of the capture has been fed and matched, in order and once; the engine's counts
    and digest are those exsim_replay prints for the same capture over every book; and the publisher has consumed exactly the
    messages the engine published, in order - the trades of each command and then its new top of book - so that the last top
    published of every symbol is its book's. *)
Theorem threads_agree_with_replay buf qcap zc zm (s0 s : t S I B) : good_capture buf -> qcap <= 9223372036854775808 ->
  init symbols buf qcap zc zm = Some s0 -> rtc (step symbols warmup) s0 s -> joined s ->
  exists cs st, Wire.decode_stream buf = Some (cs, st) /\
    fed (feed s) = u64 (alen cs) /\ processed (matcher s) = u64 (alen cs) /\ malformed (feed s) = u64 (Wire.st_malformed st) /\
    (forall book j, exists k, ReplayTool.main buf book symbols j = Some (st, k) /\ ReplayTool.counts k = counts (m_core (matcher s))) /\
    (exists e0 ds ms, MatchingEngine.make symbols default_config = Some e0 /\ Forall2 stamped cs ds /\
      carry symbols (init_core symbols e0) ds = Some (m_core (matcher s), ms) /\
      md_msgs (publisher s) = u64 (alen ms) /\ md_digest (publisher s) = foldl md_on_event EventDigest.init ms) /\
    (forall sy b, (engine (m_core (matcher s))).[sy] = Some b -> top b = (tob (m_core (matcher s))).[sy]).
Proof.
  intros Hg Hq Hi Hr Hj. destruct (starts buf qcap zc zm Hg Hq) as (s1 & e0 & f0 & cs & st & ci & E & Hd & Hfine & Hroom & He & Hf & HG).
  rewrite Hi in E. injection E as <-. assert (going symbols e0 f0 cs (Wire.st_malformed st) ci ci s) as HG' by (eapply rtc_going; done).
  edestruct (joined_results (S := S) (I := I) (B := B)) as (ds & ms & Hst & Hcar & Hcarry & R1 & R2 & R3 & R4 & R5); [exact Hfine|exact HG'|exact Hj|].
  exists cs, st. split_and!; try done; [|by exists e0, ds, ms|by apply (K_tob _ _ _ _ _ Hcar)].
  destruct (K_run _ _ _ _ _ Hcar) as (f & es & _ & Hrf & _ & Hk). rewrite (run_stamped _ _ Hst) in Hrf.
  intros book j. unfold ReplayTool.main. rewrite Hd. cbn [mbind option_bind].
  assert (exists k, ReplayTool.replay_book book cs symbols j = Some k /\ ReplayTool.counts k = counts (m_core (matcher s))) as (k & -> & Ek); [|by exists k].
  destruct book; [apply (fast_counts _ _ _ _ _ _ Hfine Hf Hrf Hk)..|by eapply same_counts].
Qed.

(** C36: the three threads never come to a state they cannot end from: from any capture the rings start empty, and whatever
    the threads have done since, a thread that has not ended has a move whatever its loads return (nothing is undefined),
    and some schedule brings all three to their joins. *)
Theorem threads_can_always_finish buf qcap zc zm : good_capture buf -> qcap <= 9223372036854775808 ->
  exists s0 : t S I B, init symbols buf qcap zc zm = Some s0 /\ forall s, rtc (step symbols warmup) s0 s ->
    (exists s', rtc (step symbols warmup) s s' /\ joined s') /\
    (forall ts head, f_pc (feed s) <> FDone -> in_u64 ts -> SpscQueue.may_load (SpscQueue.head_cache_ (q_in s)) (SpscQueue.head_ (q_in s)) head ->
      is_Some (feed_step s ts head)) /\
    (forall tail head flag now, m_pc (matcher s) <> MDone -> SpscQueue.may_load (SpscQueue.tail_cache_ (q_in s)) (SpscQueue.tail_ (q_in s)) tail ->
      SpscQueue.may_load (SpscQueue.head_cache_ (q_md s)) (SpscQueue.head_ (q_md s)) head -> (flag = true -> feed_done s = true) ->
      (m_pc (matcher s) = MRecheck -> tail = SpscQueue.tail_ (q_in s)) -> is_Some (matcher_step symbols warmup s tail head flag now)) /\
    (forall tail flag now, p_pc (publisher s) <> PDone -> SpscQueue.may_load (SpscQueue.tail_cache_ (q_md s)) (SpscQueue.tail_ (q_md s)) tail ->
      (flag = true -> engine_done s = true) -> (p_pc (publisher s) = PRecheck -> tail = SpscQueue.tail_ (q_md s)) -> is_Some (publisher_step warmup s tail flag now)).
Proof.
  intros Hg Hq. destruct (starts buf qcap zc zm Hg Hq) as (s0 & e0 & f0 & cs & st & ci & Hi & Hd & Hfine & Hroom & He & Hf & HG).
  exists s0. split; [done|]. intros s Hr. assert (going symbols e0 f0 cs (Wire.st_malformed st) ci ci s) as HG' by (eapply rtc_going; done).
  split; [by eapply can_finish|]. split_and!.
  - intros ts head Hn Hts Hl. edestruct (feed_moves (S := S) (I := I) (B := B)) as (s' & -> & _); try done; eauto.
  - intros tail head flag now Hn Ht Hh Hfl Hre. edestruct (matcher_moves (S := S) (I := I) (B := B)) as (s' & -> & _); try done; eauto.
  - intros tail flag now Hn Ht Hfl Hre. edestruct (publisher_moves (S := S) (I := I) (B := B)) as (s' & -> & _); try done; eauto.
Qed.
End theorems.
End PipelineTheorems.

(** ** A capture of three messages and a broken one *)

Module PipelineDemo.
Import Rings Decoding Carrying Threads BookEquiv Pipeline PipelineTheorems.
Import (hints) PriceBitmap AosStore AosLaws OrderIndex.

Definition sell : Command := mkCommand 1 100 1 0 5 1 0 NewOrder Sell Limit Day 0.
Definition buy : Command := mkCommand 2 101 2 0 8 2 0 NewOrder Buy Limit Day 0.
Definition unknown : Command := mkCommand 9 0 3 0 0 0 4 Cancel Buy Limit Day 0.
(** The broken message has the version byte of another protocol. *)
Definition capture : list Z := Wire.encode sell ++ <[3%nat := 7]> (Wire.encode unknown) ++ Wire.encode buy ++ Wire.encode unknown.
Definition no_msg : MdMsg := mkMd 0 0 0 0 0 0 MdTrade Buy.

Lemma capture_decodes : Wire.decode_stream capture = Some ([sell; buy; unknown], Wire.mkStats 3 1 false).
Proof. vm_compute. reflexivity. Qed.
Lemma capture_good : good_capture capture.
Proof.
  split; [apply Forall_forall; intros x Hx; assert (forallb (fun x => (0 <=? x) && (x <? 256)) capture = true) as Hb by (vm_compute; reflexivity);
    rewrite forallb_forall in Hb; apply list_elem_of_In, Hb in Hx; unfold in_u8; lia|].
  intros cs st E. rewrite capture_decodes in E. injection E as <- <-. split; [repeat constructor; cbn; unfold in_i64; lia|].
  right. exists 8. split_and!; [lia|done|repeat constructor; cbn; lia].
Qed.
Lemma threads_can_always_finish_witness : exists s0 : t AosStore.t (OrderIndex.t LocalityHash) PriceBitmap.t, init 1 capture 4 sell no_msg = Some s0 /\
  exists s, rtc (step 1 0) s0 s /\ joined s.
Proof.
  destruct (threads_can_always_finish (S := AosStore.t) (I := OrderIndex.t LocalityHash) (B := PriceBitmap.t) 1 0 capture 4 sell no_msg capture_good ltac:(lia)) as (s0 & Hi & H).
  exists s0. split; [exact Hi|]. apply (H s0), rtc_refl.
Defined.
Lemma threads_agree_with_replay_witness : exists s : t AosStore.t (OrderIndex.t LocalityHash) PriceBitmap.t, joined s /\ processed (matcher s) = 3 /\ malformed (feed s) = 1.
Proof.
  destruct (starts (S := AosStore.t) (I := OrderIndex.t LocalityHash) (B := PriceBitmap.t) 1 capture 4 sell no_msg capture_good ltac:(lia))
    as (s0 & e0 & f0 & cs & st & ci & Hi & Hd & Hfine & Hroom & He & Hf & HG).
  destruct (can_finish 1 0 e0 f0 He Hf cs (Wire.st_malformed st) ci ci Hfine (conj Hroom Hroom) s0 HG) as (s & Hr & Hj). exists s. split; [exact Hj|].
  destruct (threads_agree_with_replay 1 0 capture 4 sell no_msg s0 s capture_good ltac:(lia) Hi Hr Hj) as (cs' & st' & Hd' & _ & Hp & Hm & _).
  rewrite capture_decodes in Hd'. injection Hd' as <- <-. split; [exact Hp|exact Hm].
Defined.
(** What exsim_replay counts of it: two orders accepted, one trade, one unknown symbol rejected. *)
Example capture_replayed : (fun x => (CountingSink.events (ReplayTool.counts x.2), CountingSink.volume (ReplayTool.counts x.2), CountingSink.count (ReplayTool.counts x.2) Trade)) <$>
  ReplayTool.main capture ReplayTool.Ref 1 false = Some (4, 5, Some 1).
Proof. vm_compute. reflexivity. Qed.
End PipelineDemo.
