(* ===== verification/MdReplayLaws.v ===== *)
(** * A capture recorded faithfully validates (tools/exsim_mdreplay.cpp)

    The specification is a market as a function of its update ids and captures that tell the truth about it. The tool then
    shows the market at every diff, resyncs over any sequence gap, and finds every snapshot it compares exact. *)
From Stdlib Require Import Sorted.
From S2P Require Import Prelude Common Interfaces PriceBitmap OrderStore OrderIndex ReferenceBook OrderBook BookRefine BookEquiv.
From S2P Require Import Engine Md BookApi Mirror MirrorLaws MdReplay.
Import BookRefine BookEquiv.
Import (hints) PriceBitmap HybridStore HybridLaws OrderIndex.

Module MdReplayLaws.
Import BookMirror MirrorLaws MdReplay.

(** ** Lists of levels *)

Definition pair_of (u : Md.LevelUpdate) : Z * Z := (Md.px u, Md.qty u).

Lemma cmp_fold (l : list (Z * Z)) ix acc : Forall (fun i => i < length l)%nat ix ->
  snd (foldl (fun '(checked, bad) i => (u64 (checked + 1), if differs (l !! i) (l !! i) then u64 (bad + 1) else bad)) acc ix) = snd acc.
Proof.
  revert acc. induction ix as [|i ix IH]; intros [c b] Hf; [done|]. apply Forall_cons in Hf as [Hi Hf]. cbn [foldl]. rewrite IH by done.
  destruct (lookup_lt_is_Some_2 l i Hi) as [[p q] ->]. simpl. by rewrite !Z.eqb_refl.
Qed.
(** Two equal lists have no mismatch. *)
Lemma cmp_same l acc : snd (cmp l l acc) = snd acc.
Proof. unfold cmp. apply cmp_fold. rewrite Nat.max_id. apply Forall_forall. intros i Hi. apply elem_of_seq in Hi. lia. Qed.

Lemma sorted_prefix s (A B : list (Z * Z)) : StronglySorted (RB.lt_side s) A.*1 -> StronglySorted (RB.lt_side s) B.*1 ->
  (forall x, x ∈ A -> x ∈ B) -> (forall x y, x ∈ B -> x ∉ A -> y ∈ A -> RB.lt_side s y.1 x.1) ->
  exists R, B = A ++ R /\ forall x, x ∈ R -> x ∉ A.
Proof.
  revert B. induction A as [|a A IH]; intros B HA HB Hin Hout; [exists B; split; [done|]; intros x _; apply not_elem_of_nil|].
  destruct B as [|b B]; [exfalso; apply (not_elem_of_nil a), Hin; by left|].
  rewrite !fmap_cons in *. apply StronglySorted_inv in HA as [HA Ha], HB as [HB Hb]. rewrite Forall_forall in Ha, Hb.
  assert (forall x, x ∈ A -> RB.lt_side s a.1 x.1) as Ha' by (intros; by apply Ha, list_elem_of_fmap_2).
  assert (forall x, x ∈ B -> RB.lt_side s b.1 x.1) as Hb' by (intros; by apply Hb, list_elem_of_fmap_2).
  assert (b = a) as ->.
  { destruct (proj1 (elem_of_cons _ _ _) (Hin a ltac:(by left))) as [|HaB]; [done|exfalso].
    specialize (Hb' a HaB). destruct (decide (b ∈ a :: A)) as [[->|HbA]%elem_of_cons|Hn].
    - by apply (RB.lt_side_irrefl s a.1).
    - apply (RB.lt_side_irrefl s a.1). by eapply (RB.lt_side_trans s), Hb'; apply Ha'.
    - apply (RB.lt_side_irrefl s a.1). eapply (RB.lt_side_trans s); [|exact Hb']. apply (Hout b a); [by left|done|by left]. }
  destruct (IH B HA HB) as (R & -> & HR).
  - intros x Hx. destruct (proj1 (elem_of_cons _ _ _) (Hin x ltac:(by right))) as [->|]; [|done]. exfalso. by apply (RB.lt_side_irrefl s a.1), Ha'.
  - intros x y Hx Hn Hy. apply Hout; [by right| |by right]. intros [->|]%elem_of_cons; [|done]. by apply (RB.lt_side_irrefl s a.1), Hb'.
  - exists R. split; [done|]. intros x Hx [->|Hx']%elem_of_cons; [|by apply (HR x)]. apply (RB.lt_side_irrefl s a.1), Hb'. set_solver.
Qed.

(** The levels before the first one beyond the horizon are those within it. *)
Fixpoint upto (beyond : Z -> bool) (l : list (Z * Z)) : list (Z * Z) :=
  match l with [] => [] | x :: l => if beyond x.1 then [] else x :: upto beyond l end.

Lemma listed_spec get beyond n ix us : mapM get ix = Some us -> listed get beyond n ix = Some (take n (upto beyond (pair_of <$> us))).
Proof.
  revert n us. induction ix as [|i ix IH]; intros n us Hm; simpl in Hm; [injection Hm as <-; by destruct n|].
  destruct (get i) as [u|] eqn:Hi; [|done]. simpl in Hm. destruct (mapM get ix) as [us'|] eqn:Hix; [|done]. injection Hm as <-.
  destruct n as [|n]; [done|]. cbn [listed]. rewrite Hi. cbn [mbind option_bind]. rewrite fmap_cons. cbn [upto pair_of fst].
  destruct (beyond (Md.px u)); [done|]. by rewrite (IH n us' eq_refl).
Qed.

Lemma upto_within s beyond l : StronglySorted (RB.lt_side s) l.*1 -> (forall p p', RB.lt_side s p p' -> beyond p = true -> beyond p' = true) ->
  (forall x, x ∈ upto beyond l <-> x ∈ l /\ beyond x.1 = false) /\ StronglySorted (RB.lt_side s) (upto beyond l).*1.
Proof.
  intros Hs Hm. induction l as [|x l IH]; [split; [set_solver|constructor]|]. rewrite fmap_cons in Hs. apply StronglySorted_inv in Hs as [Hs Hx].
  rewrite Forall_forall in Hx. destruct (IH Hs) as [H1 H2]. cbn [upto]. destruct (beyond x.1) eqn:Hb.
  - split; [|constructor]. intros y. split; [set_solver|]. intros [[->|Hy]%elem_of_cons Hn]; [congruence|].
    assert (beyond y.1 = true); [|congruence]. apply (Hm x.1); [|done]. by apply Hx, list_elem_of_fmap_2.
  - split.
    + intros y. rewrite !elem_of_cons, H1. naive_solver.
    + rewrite fmap_cons. constructor; [done|]. apply Forall_forall. intros p (y & -> & Hy)%list_elem_of_fmap. apply Hx, list_elem_of_fmap_2. by apply H1.
Qed.

Lemma upto_all beyond l : (forall x, x ∈ l -> beyond x.1 = false) -> upto beyond l = l.
Proof.
  induction l as [|x l IH]; intros Hl; [done|]. cbn [upto]. rewrite (Hl x) by (by left). f_equal. apply IH. intros y Hy. apply Hl. by right.
Qed.

Lemma pair_prices (us : list Md.LevelUpdate) : (pair_of <$> us).*1 = Md.px <$> us.
Proof. by rewrite <- list_fmap_compose. Qed.

Lemma last_le s (us : list Md.LevelUpdate) u x : StronglySorted (RB.lt_side s) (Md.px <$> us) -> last us = Some x -> u ∈ us ->
  RB.le_side s (Md.px u) (Md.px x).
Proof.
  intros Hs Hx Hu. apply list_elem_of_split in Hu as (l1 & l2 & ->). apply (sorted_last s u l2).
  - rewrite fmap_app in Hs. clear Hx. induction (Md.px <$> l1) as [|y l IH]; [done|]. apply IH. by apply StronglySorted_inv in Hs as [? _].
  - rewrite last_app in Hx. by destruct (last (u :: l2)) eqn:E; [|apply last_None in E].
Qed.

(** ** Positions of the records *)

Definition is_kind (k : Md.Kind) (recs : list Md.Record_) (i : nat) : Prop := exists r, recs !! i = Some r /\ Md.kind r = k.
(** [l] is the increasing list of the positions of a kind. *)
Record positions (k : Md.Kind) (recs : list Md.Record_) (l : list nat) : Prop := {
  ps_elem i : i ∈ l <-> is_kind k recs i;
  ps_sorted : StronglySorted lt l;
}.

Lemma is_kind_snoc k recs r i : is_kind k (recs ++ [r]) i <-> is_kind k recs i \/ (i = length recs /\ Md.kind r = k).
Proof.
  unfold is_kind. split.
  - intros (x & Hx & Hk). apply lookup_snoc_Some in Hx as [[_ Hx]|[-> <-]]; eauto.
  - intros [(x & Hx & Hk)|[-> Hk]]; [exists x; split; [by apply lookup_app_l_Some|done]|exists r; split; [by apply list_lookup_middle|done]].
Qed.

Lemma positions_keep k recs r l : positions k recs l -> Md.kind r <> k -> positions k (recs ++ [r]) l.
Proof. intros [H1 H2] Hk. split; [|done]. intros i. rewrite H1, is_kind_snoc. naive_solver. Qed.
Lemma positions_snoc k recs r l : positions k recs l -> Md.kind r = k -> positions k (recs ++ [r]) (l ++ [length recs]).
Proof.
  intros [H1 H2] Hk. split; [intros i; rewrite elem_of_app, list_elem_of_singleton, H1, is_kind_snoc; naive_solver|].
  assert (Forall (fun i => i < length recs)%nat l) as Hl.
  { apply Forall_forall. intros i (r' & Hr & _)%H1. by eapply lookup_lt_Some. }
  clear H1. induction H2 as [|i l H2 IH Hi]; [by repeat constructor|]. apply Forall_cons in Hl as [Hil Hl]. simpl. constructor; [by apply IH|].
  apply Forall_app. split; [done|]. by constructor.
Qed.

Lemma sort_records_positions recs : exists diffs snaps trades, sort_records recs = (diffs, snaps, trades) /\
  positions Md.Diff recs diffs /\ positions Md.Snapshot recs snaps.
Proof.
  induction recs as [|r recs (diffs & snaps & trades & Hs & H1 & H2)] using rev_ind.
  - exists [], [], 0. split; [done|]. assert (forall k i, ~ is_kind k [] i) as Hn by (intros k i (r & Hr & _); by rewrite lookup_nil in Hr).
    split; (split; [|constructor]); intros i; split; try (by intros ?%not_elem_of_nil); by intros ?%Hn.
  - unfold sort_records in *. rewrite imap_app, foldl_app, Hs. cbn [imap foldl]. rewrite Nat.add_0_r. unfold sort_record. cbn [fst snd].
    destruct (Md.kind r) eqn:Hk; eexists _, _, _; (split; [done|]); split; first [by apply positions_snoc|by apply positions_keep; [|rewrite Hk]].
Qed.

Lemma lt_sorted_nodup (l : list nat) : StronglySorted lt l -> NoDup l.
Proof. induction 1 as [|x l _ IH Hx]; constructor; [|done]. intros Hin. rewrite Forall_forall in Hx. specialize (Hx x Hin). lia. Qed.

(** [std::find] of a diff at or after a position. *)
Lemma position_spec (l : list nat) from d : NoDup l -> d ∈ drop from l -> l !! position l d = Some d /\ (from <= position l d)%nat.
Proof.
  intros Hn Hd. apply list_elem_of_lookup in Hd as [i Hi]. rewrite lookup_drop in Hi.
  destruct (list_find_elem_of (eq d) l d) as [[j x] Hj]; [by apply list_elem_of_lookup; eauto|done|]. unfold position. rewrite Hj.
  apply list_find_Some in Hj as (Hj & <- & _). split; [done|]. rewrite (NoDup_lookup _ _ _ _ Hn Hj Hi). lia.
Qed.

Lemma mapM_positions k recs l : positions k recs l -> exists rs, mapM (fun i => recs !! i) l = Some rs /\ Forall (fun r => r ∈ recs /\ Md.kind r = k) rs.
Proof.
  intros [H1 _]. assert (Forall (is_kind k recs) l) as Hf by (apply Forall_forall; intros i Hi; by apply H1). clear H1.
  induction Hf as [|i l (r & Hr & Hk) _ (rs & Hm & Hrs)]; [by exists []|]. exists (r :: rs). simpl. rewrite Hr. simpl. rewrite Hm.
  split; [done|]. constructor; [|done]. split; [by eapply list_elem_of_lookup_2|done].
Qed.

(** *** The seed *)

Lemma straddling_total recs want l : Forall (is_kind Md.Diff recs) l -> is_Some (Md.straddling recs want l).
Proof.
  induction 1 as [|i l (r & Hr & _) _ IH]; [by eexists|]. cbn [Md.straddling]. rewrite Hr. cbn [mbind option_bind].
  repeat (case_match; [by eauto|]). by eexists.
Qed.

Lemma find_seed_total recs diffs snaps from : positions Md.Diff recs diffs -> Forall (is_kind Md.Snapshot recs) snaps ->
  is_Some (Md.find_seed recs diffs snaps from).
Proof.
  intros [Hd _] Hs. induction Hs as [|i l (r & Hr & _) _ IH]; [by eexists|]. cbn [Md.find_seed]. rewrite Hr. cbn [mbind option_bind].
  destruct (straddling_total recs (u64 (Md.last_id r + 1)) (drop from diffs)) as [o ->].
  { apply Forall_forall. intros x Hx. apply Hd. rewrite <- (take_drop from diffs). set_solver. }
  cbn [mbind option_bind]. destruct o; [by eexists|done].
Qed.

(** First ids in file order do not decrease. *)
Definition ids_monotone (recs : list Md.Record_) : Prop := forall i j ri rj, (i < j)%nat -> recs !! i = Some ri -> recs !! j = Some rj ->
  Md.kind ri = Md.Diff -> Md.kind rj = Md.Diff -> Md.first_id ri <= Md.first_id rj.

Lemma straddling_found recs want l d r : ids_monotone recs -> StronglySorted lt l -> Forall (is_kind Md.Diff recs) l -> d ∈ l ->
  recs !! d = Some r -> Md.kind r = Md.Diff -> Md.first_id r <= want <= Md.last_id r -> exists d', Md.straddling recs want l = Some (Some d').
Proof.
  intros Hm Hs Hf Hd Hr Hk Hw. induction Hs as [|i l Hs IH Hi]; [by apply elem_of_nil in Hd|]. apply Forall_cons in Hf as [(ri & Hri & Hki) Hf].
  cbn [Md.straddling]. rewrite Hri. cbn [mbind option_bind]. apply elem_of_cons in Hd as [->|Hd].
  - rewrite Hri in Hr. injection Hr as ->. rewrite (proj2 (Z.ltb_ge _ _)), (proj2 (Z.ltb_ge _ _)) by lia. eauto.
  - destruct (Md.last_id ri <? want); [by apply IH|]. rewrite Forall_forall in Hi.
    pose proof (Hm i d ri r (Hi d Hd) Hri Hr Hki Hk). rewrite (proj2 (Z.ltb_ge _ _)) by lia. eauto.
Qed.

Lemma find_seed_found recs diffs snaps s sn d df : ids_monotone recs -> positions Md.Diff recs diffs -> Forall (is_kind Md.Snapshot recs) snaps ->
  s ∈ snaps -> recs !! s = Some sn -> d ∈ diffs -> recs !! d = Some df -> Md.first_id df <= u64 (Md.last_id sn + 1) <= Md.last_id df ->
  exists seed, Md.find_seed recs diffs snaps 0 = Some (Some seed).
Proof.
  intros Hm [Hd Hs] Hf Hin Hsn Hdin Hdf Hw. assert (Forall (is_kind Md.Diff recs) diffs) as Hfd by (apply Forall_forall; intros i Hi; by apply Hd).
  induction Hf as [|i l (r & Hr & _) Hl IH]; [by apply elem_of_nil in Hin|]. cbn [Md.find_seed]. rewrite Hr. cbn [mbind option_bind]. rewrite drop_0 in *.
  destruct (straddling_total recs (u64 (Md.last_id r + 1)) diffs Hfd) as [[d'|] Ho]; rewrite Ho; cbn [mbind option_bind]; [by eauto|].
  apply elem_of_cons in Hin as [->|Hin]; [|by apply IH]. exfalso. rewrite Hsn in Hr. injection Hr as ->.
  pose proof (proj1 (Hd d) Hdin) as (df' & Hdf' & Hk). rewrite Hdf in Hdf'. injection Hdf' as <-.
  destruct (straddling_found recs _ diffs d df Hm Hs Hfd Hdin Hdf Hk Hw) as [d' Hd']. congruence.
Qed.

Lemma monotonic_true recs prev diffs : ids_monotone recs -> Forall (is_kind Md.Diff recs) diffs -> StronglySorted lt diffs ->
  (forall i r, i ∈ diffs -> recs !! i = Some r -> prev <= Md.first_id r) -> monotonic recs prev diffs = Some true.
Proof.
  intros Hm Hf Hs. revert prev. induction Hs as [|i l Hs IH Hi]; intros prev Hp; [done|]. apply Forall_cons in Hf as [(ri & Hri & Hki) Hf].
  cbn [monotonic]. rewrite Hri. cbn [mbind option_bind]. rewrite (proj2 (Z.ltb_ge _ _)) by (apply (Hp i); [by left|done]).
  apply IH; [done|]. intros j r Hj Hr. rewrite Forall_forall in Hi, Hf. destruct (Hf j Hj) as (r' & Hr' & Hk). rewrite Hr in Hr'. injection Hr' as <-.
  by apply (Hm i j); [apply Hi|..].
Qed.

Section laws.
Context {Bk : Type} `{BookApiLaws Bk}.
Implicit Types (m : BookMirror.t Bk) (st : MdReplay.t (Bk := Bk)) (T : sides).

Lemma track_view m0 m T : on_track m0 m (Some T) -> exists C, holds m C /\ mirrors m (within m) C T /\ spans_ok m.
Proof. intros Hot. by apply (ot_view _ _ _ Hot T). Qed.

(** *** What a snapshot is compared with *)

(** The levels [us] of a snapshot of [T]: best first, all of them down to the deepest. *)
Record lists T (us : Side -> list Md.LevelUpdate) : Prop := {
  ls_sorted s : StronglySorted (RB.lt_side s) (Md.px <$> us s);
  ls_in s u : u ∈ us s -> T s !! Md.px u = Some (Md.qty u);
  ls_all s px : is_Some (T s !! px) -> (forall u, last (us s) = Some u -> RB.le_side s px (Md.px u)) -> px ∈ (Md.px <$> us s);
}.
Lemma lists_snapshot m T us : lists T us -> snapshot_of m T us.
Proof. intros [H1 H2 H3]. split; [done|done|]. intros s px _. apply H3. Qed.

(** Deep enough for a comparison of [n] levels. *)
Definition deep (n : nat) T (us : Side -> list Md.LevelUpdate) : Prop :=
  forall s, (n <= length (us s))%nat \/ forall px, is_Some (T s !! px) -> px ∈ (Md.px <$> us s).

Lemma beyond_deeper m s p p' : RB.lt_side s p p' -> beyond m s p = true -> beyond m s p' = true.
Proof. unfold beyond. destruct s; simpl; lia. Qed.

Lemma top_is_listed m C T s n get k (us : Side -> list Md.LevelUpdate) : holds m C -> mirrors m (within m) C T -> lists T us -> deep n T us ->
  (forall u, u ∈ us s -> in_band m (Md.px u)) -> mapM get (seqZ 0 k) = Some (us s) ->
  exists l, top m s n true = Some l /\ listed get (beyond m s) n (seqZ 0 k) = Some l.
Proof.
  intros Hh Hm [L1 L2 L3] Hdeep Hband Hget. destruct (top_ok m C T s n Hh Hm) as (L & Htop & HLs & HL). exists (take n L). split; [done|].
  rewrite (listed_spec _ _ _ _ _ Hget). f_equal. set (W := upto (beyond m s) (pair_of <$> us s)).
  assert (StronglySorted (RB.lt_side s) (pair_of <$> us s).*1) as Hus by (rewrite pair_prices; apply L1).
  destruct (upto_within s (beyond m s) (pair_of <$> us s) Hus (beyond_deeper m s)) as [HW HWs]. fold W in HW, HWs.
  assert (forall x, x ∈ L -> x ∉ W -> x.1 ∉ (Md.px <$> us s)) as Hnew.
  { intros [p q] (Ht & Hb & Hw)%HL Hn (u & Hp & Hu)%list_elem_of_fmap. simpl in Hp. subst p. apply Hn, HW. split; [|exact Hw].
    rewrite (L2 s u Hu) in Ht. injection Ht as <-. by apply (list_elem_of_fmap_2 pair_of). }
  assert (forall x, x ∈ L -> x ∉ W -> exists u, last (us s) = Some u /\ RB.lt_side s (Md.px u) x.1) as Hdeeper.
  { intros [p q] Hx Hn. pose proof (Hnew _ Hx Hn) as Hp. apply HL in Hx as (Ht & _ & _). simpl in *. destruct (last (us s)) as [u|] eqn:Hlast.
    - exists u. split; [done|]. assert (RB.lt_side s (Md.px u) p \/ RB.le_side s p (Md.px u)) as [|Hle] by (destruct s; simpl; lia); [done|].
      exfalso. apply Hp, L3; [eauto|]. intros v Hv. rewrite Hlast in Hv. by injection Hv as <-.
    - exfalso. apply Hp, L3; [eauto|]. intros v Hv. by rewrite Hlast in Hv. }
  destruct (sorted_prefix s W L HWs HLs) as (R & HLR & HR).
  - intros [p q] Hx. apply HW in Hx as [(u & Hu & Hin)%list_elem_of_fmap Hw]. injection Hu as -> ->. apply HL.
    split; [by apply L2|]. split; [by apply Hband|exact Hw].
  - intros x y Hx Hn Hy. destruct (Hdeeper x Hx Hn) as (u & Hu & Hlt). apply HW in Hy as [(v & -> & Hv)%list_elem_of_fmap _].
    pose proof (last_le s (us s) v u (L1 s) Hu Hv). destruct s; simpl in *; lia.
  - destruct R as [|x R]; [by rewrite HLR, app_nil_r|]. assert (x ∈ L) as Hx by (rewrite HLR; set_solver). assert (x ∉ W) as Hn by (apply HR; by left).
    destruct (Hdeeper x Hx Hn) as (u & Hu & Hlt). destruct x as [p q]. pose proof (Hnew _ Hx Hn) as Hp. apply HL in Hx as (Ht & _ & Hw). simpl in *.
    destruct (Hdeep s) as [Hlen|Hall]; [|by exfalso; apply Hp, Hall; eauto].
    assert (W = pair_of <$> us s) as HWeq.
    { apply upto_all. intros x (v & -> & Hv)%list_elem_of_fmap. simpl. destruct (beyond m s (Md.px v)) eqn:E; [|done].
      pose proof (last_le s (us s) v u (L1 s) Hu Hv). unfold within, beyond in *. destruct s; simpl in *; lia. }
    rewrite HLR, HWeq, take_app_le; [done|]. by rewrite length_fmap.
Qed.

(** ** A capture that tells the truth *)

(** A market of update ids: never crossed, its levels not empty, and no more of them than the mirror's orders. *)
Definition market_fine T : Prop := uncrossed T /\ (forall s px q, T s !! px = Some q -> 0 < q) /\ total T <= 262144.

(** What a record says of the market [M]: a diff lists every level that an update of its range touched, as it was left; a
    snapshot lists the top of the market after its update. The best levels stay in a window of 2^19 ticks from [lo]. *)
Definition truthful (buf : list Z) (lo : Z) (n : nat) (M : Z -> sides) (r : Md.Record_) : Prop :=
  match Md.kind r with
  | Md.Trade => True
  | Md.Diff => exists us : Side -> list Md.LevelUpdate, record_levels buf r us /\
      0 < Md.first_id r <= Md.last_id r /\ Md.last_id r < 18446744073709551615 /\
      (forall i, Md.first_id r - 1 <= i <= Md.last_id r -> diff_of (M i) us (M (Md.last_id r))) /\
      forall s, Forall (fun u => lo - 1152921504606846976 <= Md.px u < lo + 1152921504606846976) (us s)
  | Md.Snapshot => exists us : Side -> list Md.LevelUpdate, record_levels buf r us /\
      0 <= Md.last_id r < 18446744073709551615 /\ lists (M (Md.last_id r)) us /\ deep n (M (Md.last_id r)) us /\
      (forall s, us s <> []) /\ forall s, Forall (fun u => lo <= Md.px u < lo + 524288) (us s)
  end.

Record honest (buf : list Z) (lo : Z) (n : nat) (M : Z -> sides) (recs : list Md.Record_) : Prop := {
  ho_lo : -1152921504606846976 <= lo < 1152921504606846976;
  ho_market i : market_fine (M i);
  ho_records : Forall (truthful buf lo n M) recs;
}.

(** The mirror of a replay is placed so that the window is inside its band. *)
Record placed (lo : Z) m0 : Prop := {
  pl_cfg : cfg_ok (config (min_px_ m0) (n_ m0) (max_orders_ m0));
  pl_lo : lo - 524288 <= min_px_ m0 <= lo;
  pl_n : n_ m0 = 1048576;
  pl_cap : max_orders_ m0 = 262144;
}.

Lemma market_placed lo m0 T : placed lo m0 -> market_fine T -> market_ok m0 T.
Proof.
  intros Hp (H1 & H2 & H3). split; [done|done|]. rewrite (pl_cap _ _ Hp). etransitivity; [|exact H3].
  apply inside_total. intros s px [q [Hq _]%banded_lookup]. eauto.
Qed.
Lemma window_fits lo m0 us : placed lo m0 -> Forall (fun u => lo - 1152921504606846976 <= Md.px u < lo + 1152921504606846976) us ->
  Forall (fun u => fits (min_px_ m0) (Md.px u)) us.
Proof. intros [_ Hl _ _] Hf. eapply Forall_impl; [exact Hf|]. simpl. unfold fits. lia. Qed.

(** *** One step of the replay *)

Section step.
Variables (buf : list Z) (lo : Z) (n : nat) (M : Z -> sides) (recs : list Md.Record_).
Hypothesis (Hho : honest buf lo n M recs).
Context (diffs snaps : list nat) (Hdiffs : positions Md.Diff recs diffs) (Hsnaps : positions Md.Snapshot recs snaps).

Lemma diff_at d r : d ∈ diffs -> recs !! d = Some r -> r ∈ recs /\ Md.kind r = Md.Diff /\ 0 < Md.first_id r <= Md.last_id r /\ Md.last_id r < 18446744073709551615.
Proof.
  intros (r' & Hr' & Hk)%(ps_elem _ _ _ Hdiffs) Hr. rewrite Hr in Hr'. injection Hr' as <-. assert (r ∈ recs) as Hin by (by eapply list_elem_of_lookup_2).
  pose proof (proj1 (Forall_forall _ _) (ho_records _ _ _ _ _ Hho) r Hin) as Ht. unfold truthful in Ht. rewrite Hk in Ht.
  by destruct Ht as (us & _ & H1 & H2 & _).
Qed.
Lemma snap_at s r : s ∈ snaps -> recs !! s = Some r -> r ∈ recs /\ Md.kind r = Md.Snapshot /\ 0 <= Md.last_id r < 18446744073709551615.
Proof.
  intros (r' & Hr' & Hk)%(ps_elem _ _ _ Hsnaps) Hr. rewrite Hr in Hr'. injection Hr' as <-. assert (r ∈ recs) as Hin by (by eapply list_elem_of_lookup_2).
  pose proof (proj1 (Forall_forall _ _) (ho_records _ _ _ _ _ Hho) r Hin) as Ht. unfold truthful in Ht. rewrite Hk in Ht.
  by destruct Ht as (us & _ & H1 & _).
Qed.

(** A seed: its snapshot, and where its diff is. *)
Lemma seed_spec from s d : Md.find_seed recs diffs snaps from = Some (Some (Md.mkSeed s d)) ->
  exists sn df, recs !! s = Some sn /\ sn ∈ recs /\ Md.kind sn = Md.Snapshot /\ diffs !! position diffs d = Some d /\ (from <= position diffs d)%nat /\
    recs !! d = Some df /\ df ∈ recs /\ Md.kind df = Md.Diff /\ Md.first_id df - 1 <= Md.last_id sn < Md.last_id df.
Proof.
  intros (sn & df & Hs & Hsn & Hd & Hdf & Hw)%MdTheorems.find_seed_straddles.
  destruct (snap_at s sn Hs Hsn) as (A1 & A2 & A3). destruct (position_spec diffs from d (lt_sorted_nodup _ (ps_sorted _ _ _ Hdiffs)) Hd) as [B1 B2].
  destruct (diff_at d df) as (C1 & C2 & C3 & C4); [rewrite <- (take_drop from diffs); set_solver|done|].
  rewrite u64_small in Hw by (words; lia). exists sn, df. split_and!; try done; lia.
Qed.

Context (m0 : BookMirror.t Bk) (Hpl : placed lo m0).
Abbreviation args := (mkArgs n 0).

(** The replay shows the market after update [i], and has found nothing wrong. *)
Record good (i : Z) st : Prop := {
  gd_track : on_track m0 (mirror st) (Some (M i));
  gd_clean : mismatched_levels st = 0 /\ exact_pass st = exact_checked st;
}.

Lemma seed_good r o m : r ∈ recs -> Md.kind r = Md.Snapshot -> on_track m0 m o ->
  exists m', seed buf r m = Some m' /\ on_track m0 m' (Some (M (Md.last_id r))).
Proof.
  intros Hr Hk Hot. pose proof (proj1 (Forall_forall _ _) (ho_records _ _ _ _ _ Hho) r Hr) as Ht. unfold truthful in Ht. rewrite Hk in Ht.
  destruct Ht as (us & Hrec & _ & Hl & _ & _ & Hw). eapply track_seed; [done|by eapply market_placed, (ho_market _ _ _ _ _ Hho)|done|by apply lists_snapshot|].
  intros s. apply (window_fits lo); [done|]. eapply Forall_impl; [apply Hw|]. simpl. lia.
Qed.

Lemma diff_tracks r m i : r ∈ recs -> Md.kind r = Md.Diff -> on_track m0 m (Some (M i)) -> Md.first_id r - 1 <= i <= Md.last_id r ->
  exists m', apply buf r 0 m = Some m' /\ on_track m0 m' (Some (M (Md.last_id r))) /\ same_shape m m'.
Proof.
  intros Hr Hk Hot Hi. pose proof (proj1 (Forall_forall _ _) (ho_records _ _ _ _ _ Hho) r Hr) as Ht. unfold truthful in Ht. rewrite Hk in Ht.
  destruct Ht as (us & Hrec & _ & _ & Hd & Hw). apply (track_diff m0 m buf r us (M i) (M (Md.last_id r))); try done.
  - by eapply market_placed, (ho_market _ _ _ _ _ Hho).
  - by apply Hd.
  - intros s. by apply (window_fits lo).
Qed.

Lemma diff_good r st i : r ∈ recs -> Md.kind r = Md.Diff -> good i st -> Md.first_id r - 1 <= i <= Md.last_id r ->
  exists st', apply_diff buf args st r = Some st' /\ good (Md.last_id r) st' /\ prev_last st' = Md.last_id r /\ have_prev st' = true.
Proof.
  intros Hr Hk [Hot Hc] Hi. destruct (diff_tracks r (mirror st) i Hr Hk Hot Hi) as (m' & Hm & Hot' & _).
  unfold apply_diff. cbn [MdReplay.inject_drop]. rewrite Hm. cbn [mbind option_bind]. eexists. split; [done|]. by split; [split|].
Qed.

Lemma check_good r st : r ∈ recs -> Md.kind r = Md.Snapshot -> good (Md.last_id r) st ->
  exists st', check_snapshot buf args st r = Some st' /\ good (Md.last_id r) st' /\ prev_last st' = prev_last st /\ have_prev st' = have_prev st.
Proof.
  intros Hr Hk [Hot [Hc1 Hc2]]. pose proof (proj1 (Forall_forall _ _) (ho_records _ _ _ _ _ Hho) r Hr) as Ht. unfold truthful in Ht. rewrite Hk in Ht.
  destruct Ht as (us & (_ & _ & Hgb & Hga) & _ & Hl & Hdeep & _ & Hw). destruct (track_view _ _ _ Hot) as (C & Hh & Hm & Hsp).
  assert (forall s u, u ∈ us s -> in_band (mirror st) (Md.px u)) as Hband.
  { intros s u Hu. pose proof (proj1 (Forall_forall _ _) (Hw s) u Hu) as Hwu. destruct (ot_band _ _ _ Hot) as (E1 & E2 & _). destruct Hpl as [_ Hlo Hn _].
    unfold in_band. simpl in Hwu. lia. }
  destruct (top_is_listed _ C (M (Md.last_id r)) Buy n _ _ us Hh Hm Hl Hdeep (Hband Buy) Hgb) as (lb & Htb & Hlb).
  destruct (top_is_listed _ C (M (Md.last_id r)) Sell n _ _ us Hh Hm Hl Hdeep (Hband Sell) Hga) as (la & Hta & Hla).
  unfold check_snapshot. cbn [top_n]. rewrite Htb, Hta. cbn [mbind option_bind]. rewrite Hlb, Hla. cbn [mbind option_bind].
  assert (snd (cmp la la (cmp lb lb (0, 0))) = 0) as Hbad by (by rewrite !cmp_same). destruct (cmp la la (cmp lb lb (0, 0))) as [checked bad]. simpl in Hbad. subst bad.
  destruct (reseed_ok _ _ _ Hh Hm Hsp) as (b & -> & _). cbn [mbind option_bind].
  assert (exists m', (if b then seed buf r (mirror st) else Some (mirror st)) = Some m' /\ on_track m0 m' (Some (M (Md.last_id r)))) as (m' & -> & Hot').
  { destruct b; [by eapply seed_good|by eexists]. }
  cbn [mbind option_bind]. eexists. split; [done|]. split; [|done]. split; [done|]. simpl. by rewrite Hc1, Hc2.
Qed.

Lemma checks_good rs st i : Forall (fun r => r ∈ recs /\ Md.kind r = Md.Snapshot /\ Md.last_id r = i) rs -> good i st ->
  exists st', foldl (fun o snap => st ← o; check_snapshot buf args st snap) (Some st) rs = Some st' /\ good i st' /\
    prev_last st' = prev_last st /\ have_prev st' = have_prev st.
Proof.
  revert st. induction rs as [|r rs IH]; intros st Hf Hg; [by exists st|]. apply Forall_cons in Hf as [(Hr & Hk & <-) Hf].
  destruct (check_good r st Hr Hk Hg) as (st1 & Hst & Hg1 & E1 & E2). cbn [foldl mbind option_bind]. rewrite Hst.
  destruct (IH st1 Hf Hg1) as (st2 & Hst2 & Hg2 & F1 & F2). exists st2. by rewrite F1, F2.
Qed.

(** *** The loop *)

(** Before the diff at [dpos]: it is the seed's, or the replay has a last id to compare with. *)
Definition ready (dpos : nat) (i : Z) st : Prop :=
  if have_prev st then prev_last st = i /\ 0 <= i < 18446744073709551615
  else forall d df, diffs !! dpos = Some d -> recs !! d = Some df -> Md.first_id df - 1 <= i < Md.last_id df.

Lemma last_id_range d r : d ∈ diffs -> recs !! d = Some r -> 0 <= Md.last_id r < 18446744073709551615.
Proof. intros Hd Hr. destruct (diff_at d r Hd Hr) as (_ & _ & ? & ?). lia. Qed.

Lemma resync_good dpos i st : good i st -> exists next st' i', resync buf args recs diffs snaps dpos st = Some (next, st') /\ good i' st' /\
  (forall p, next = Some p -> (dpos <= p)%nat /\ ready (S p) i' st').
Proof.
  intros [Hot Hc]. unfold resync. destruct (find_seed_total recs diffs snaps dpos Hdiffs) as [[[s d]|] Hseed].
  { apply Forall_forall. intros x Hx. by apply Hsnaps. }
  2: { rewrite Hseed. cbn [mbind option_bind]. exists None. eexists _, i. split; [done|]. split; [by split|done]. }
  rewrite Hseed. cbn [mbind option_bind Md.snap_rec Md.diff_rec MdReplay.mirror].
  destruct (seed_spec _ _ _ Hseed) as (sn & df & Hsn & Hsin & Hsk & Hpos & Hge & Hdf & Hdin & Hdk & Hw). rewrite Hsn. cbn [mbind option_bind].
  destruct (seed_good sn _ _ Hsin Hsk Hot) as (m1 & -> & Hot1). cbn [mbind option_bind]. rewrite Hpos. cbn [mbind option_bind]. rewrite Hdf. cbn [mbind option_bind].
  match goal with |- context [apply_diff _ _ ?x _] => destruct (diff_good df x (Md.last_id sn) Hdin Hdk) as (st' & -> & Hg & Hp & Hh); [by split|lia|] end.
  cbn [mbind option_bind]. exists (Some (position diffs d)), st', (Md.last_id df). split; [done|]. split; [done|]. intros p [= <-]. split; [done|].
  unfold ready. rewrite Hh. split; [done|]. eapply last_id_range; [by eapply list_elem_of_lookup_2|done].
Qed.

Lemma by_id_ok id : exists rs, by_id recs snaps id = Some rs /\ Forall (fun r => r ∈ recs /\ Md.kind r = Md.Snapshot /\ Md.last_id r = id) rs.
Proof.
  destruct (mapM_positions _ _ _ Hsnaps) as (rs & Hm & Hf). unfold by_id. rewrite Hm. cbn [mbind option_bind]. eexists. split; [done|].
  apply Forall_forall. intros r [Hid Hr]%list_elem_of_filter. rewrite Forall_forall in Hf. destruct (Hf r Hr) as [? ?]. done.
Qed.

Lemma replay_good fuel : forall dpos st i, (length diffs - dpos < fuel)%nat -> good i st -> ready dpos i st ->
  exists st' i', replay fuel buf args recs diffs snaps dpos st = Some st' /\ good i' st'.
Proof.
  induction fuel as [|fuel IH]; intros dpos st i Hf Hg Hr; [lia|]. cbn [replay]. destruct (Nat.leb_spec (length diffs) dpos) as [|Hlt]; [by exists st, i|].
  destruct (lookup_lt_is_Some_2 diffs dpos Hlt) as [d Hd]. pose proof (list_elem_of_lookup_2 _ _ _ Hd) as Hdin.
  pose proof (proj1 (ps_elem _ _ _ Hdiffs d) Hdin) as (df & Hdf & Hk). rewrite Hd. cbn [mbind option_bind]. rewrite Hdf. cbn [mbind option_bind].
  destruct (diff_at d df Hdin Hdf) as (Hin & _ & Hids & Hmax).
  destruct (have_prev st && negb (Md.first_id df =? u64 (prev_last st + 1))) eqn:Hgap.
  - destruct (resync_good dpos i st Hg) as (next & st1 & i1 & -> & Hg1 & Hn). cbn [mbind option_bind]. destruct next as [p|]; [|by exists st1, i1].
    destruct (Hn p eq_refl) as [Hp Hr1]. apply (IH (S p) st1 i1); [lia|done|done].
  - destruct (diff_good df st i Hin Hk Hg) as (st1 & -> & Hg1 & Hp1 & Hh1).
    { unfold ready in Hr. destruct (have_prev st); [|specialize (Hr d df Hd Hdf); lia]. destruct Hr as [Hp Hi].
      simpl in Hgap. apply negb_false_iff, Z.eqb_eq in Hgap. rewrite u64_small in Hgap by (words; lia). lia. }
    cbn [mbind option_bind]. destruct (by_id_ok (Md.last_id df)) as (rs & -> & Hrs). cbn [mbind option_bind].
    destruct (checks_good rs st1 (Md.last_id df) Hrs Hg1) as (st2 & -> & Hg2 & Hp2 & Hh2). cbn [mbind option_bind].
    apply (IH (S dpos) st2 (Md.last_id df)); [lia|done|]. unfold ready. rewrite Hh2, Hh1, Hp2. split; [done|]. by eapply last_id_range.
Qed.

Lemma report_good trades skipped lo' st i : good i st -> exists rp, report recs diffs snaps trades skipped 0 lo' st = Some rp /\ rp_state rp = st /\
  rp_phantom rp = 0 /\ rp_rejects rp = 0 /\ rp_exit rp = if 0 <? exact_checked st then 0 else 1.
Proof.
  intros [Hot [_ Hp]]. destruct (track_view _ _ _ Hot) as (C & Hh & _). destruct (hd_sink _ _ Hh) as (_ & Ht & Hr).
  unfold report, classify. destruct (mapM_positions _ _ _ Hsnaps) as (ss & Hss & _), (mapM_positions _ _ _ Hdiffs) as (ds & Hds & _).
  rewrite Hss, Hds. cbn [mbind option_bind]. destruct (foldl _ (0, 0) ss) as [x y]. unfold phantom_trades, rejects. rewrite Ht, Hr. cbn [mbind option_bind].
  eexists. split; [done|]. cbn [rp_state rp_phantom rp_rejects rp_exit]. do 3 (split; [done|]). rewrite Hp, (Z.eqb_refl (exact_checked st)). change (0 =? 0) with true. cbn [negb]. by destruct (0 <? exact_checked st).
Qed.
End step.
End laws.
End MdReplayLaws.

Module MdReplayTheorems.
Import BookMirror MirrorLaws MdReplay MdReplayLaws.

(** The centre of the band is a mid inside the window. *)
Lemma mid_in_window buf lo n M r : -1152921504606846976 <= lo < 1152921504606846976 -> Md.kind r = Md.Snapshot -> truthful buf lo n M r ->
  exists mid, mid_of buf r = Some mid /\ lo <= mid < lo + 524288.
Proof.
  intros Hlo Hk Ht. unfold truthful in Ht. rewrite Hk in Ht. destruct Ht as (us & (Hnb & Hna & Hb & Ha) & _ & _ & _ & Hne & Hw).
  assert (forall s k get, 0 <= k -> mapM get (seqZ 0 k) = Some (us s) -> exists u, get 0 = Some u /\ lo <= Md.px u < lo + 524288) as Hget.
  { intros s k get Hk0 Hg. destruct (deepest k get _ Hk0 Hg) as [[_ E]|(_ & u & x & Hu & _ & H0 & _)]; [by destruct (Hne s)|].
    exists u. split; [done|]. apply (proj1 (Forall_forall _ _) (Hw s)). destruct (us s); [done|]. injection Hu as ->. by left. }
  destruct (Hget Buy _ _ Hnb Hb) as (b & Eb & Hbw), (Hget Sell _ _ Hna Ha) as (a & Ea & Haw).
  unfold mid_of. rewrite Eb, Ea. cbn [mbind option_bind]. unfold BookMirror.add_price.
  rewrite (proj2 (Z.leb_le _ _)), (proj2 (Z.ltb_lt _ _)) by lia. cbn [andb mbind option_bind]. eexists. split; [done|].
  pose proof (Z.quot_rem' (Md.px b + Md.px a) 2). pose proof (Z.rem_bound_abs (Md.px b + Md.px a) 2 ltac:(done)). lia.
Qed.

Lemma band_ok mid lo : -1152921504606846976 <= lo < 1152921504606846976 -> lo <= mid < lo + 524288 -> cfg_ok (config (mid - 1048576 / 2) 1048576 262144).
Proof.
  change (1048576 / 2) with 524288. unfold cfg_ok, level_count_ok, in_i64, kNil. simpl. intros. split_and!; try done; lia.
Qed.

Lemma mirror_placed {Bk} `{BookApiLaws Bk} mid lo : -1152921504606846976 <= lo < 1152921504606846976 -> lo <= mid < lo + 524288 ->
  exists m0 : BookMirror.t Bk, make mid 1048576 262144 = Some m0 /\ placed lo m0 /\ on_track m0 m0 None.
Proof.
  intros Hlo Hmid. pose proof (band_ok mid lo Hlo Hmid) as Hcfg. destruct (ba_rep_make 0 _ Hcfg) as (b & Hb & _).
  pose proof Hcfg as (_ & _ & Hi & _). simpl in Hi. unfold make. rewrite sub_price_ok by done. cbn [mbind option_bind]. rewrite Hb. cbn [mbind option_bind].
  eexists. split; [done|]. split; [|by split]. split; simpl; [done|change (1048576 / 2) with 524288; lia|done|done].
Qed.


(** A day with a gap: its book moves up in the updates 101 to 103, and the diff of 104 and 105 is missing. *)
Import MirrorTheorems.
Definition demo_levels (s : Side) : list Md.LevelUpdate :=
  match s with Buy => [Md.mkLevel 101 5; Md.mkLevel 99 3; Md.mkLevel 97 2] | Sell => [Md.mkLevel 103 6] end.
Definition demo_gap : list Z :=
  Md.capture 2 5 [Md.MSnapshot 5 100 (demo_bids Buy) (demo_bids Sell); Md.MDiff 6 101 103 (demo_diff Buy) (demo_diff Sell);
    Md.MSnapshot 7 103 (demo_levels Buy) (demo_levels Sell); Md.MSnapshot 8 105 (demo_levels Buy) (demo_levels Sell); Md.MDiff 9 106 107 [] []].
Definition demo_recs : list Md.Record_ := [Md.mkRecord Md.Snapshot 5 0 100 2 1 48 0 0 false; Md.mkRecord Md.Diff 6 101 103 2 2 136 0 0 false;
  Md.mkRecord Md.Snapshot 7 0 103 3 1 232 0 0 false; Md.mkRecord Md.Snapshot 8 0 105 3 1 328 0 0 false; Md.mkRecord Md.Diff 9 106 107 0 0 432 0 0 false].
Definition demo_history (i : Z) : sides := if i <=? 100 then demo_market else demo_market'.

Lemma market_fine_test T : market_test T = true -> market_fine T.
Proof.
  intros Ht. unfold market_test in Ht. rewrite !andb_true_iff, !bool_decide_eq_true in Ht. destruct Ht as [[[Hx Hb] Ha] Hn]. split_and!.
  - intros b a [qb Hqb] [qa Hqa]. exact (Hx b qb Hqb a qa Hqa).
  - intros [] px q; [exact (Hb px q)|exact (Ha px q)].
  - apply Z.leb_le in Hn. lia.
Qed.

(** A list of all the levels of a market. *)
Lemma lists_all T (us : Side -> list Md.LevelUpdate) : (forall s, StronglySorted (RB.lt_side s) (Md.px <$> us s)) ->
  (forall s, T s = list_to_map (pair_of <$> us s)) -> lists T us /\ forall n, deep n T us.
Proof.
  intros Hs HT. assert (forall s px, is_Some (T s !! px) -> px ∈ (Md.px <$> us s)) as Hall.
  { intros s px [q Hq]. rewrite HT in Hq. apply elem_of_list_to_map_2 in Hq. rewrite <- pair_prices. by apply (list_elem_of_fmap_2 fst) in Hq. }
  split; [|intros n s; right; apply Hall]. split; [done| |intros s px Hp _; by apply Hall].
  intros s u Hu. rewrite HT. apply elem_of_list_to_map_1; [rewrite pair_prices; by eapply sorted_nodup|by apply (list_elem_of_fmap_2 pair_of)].
Qed.

Lemma demo_diff_of : diff_of demo_market demo_diff demo_market' /\ diff_of demo_market' demo_diff demo_market'.
Proof.
  assert (forall s, NoDup (Md.px <$> demo_diff s)) as Hn by (intros []; apply (bool_decide_eq_true_1 _); vm_compute; reflexivity).
  assert (forall s u, u ∈ demo_diff s -> demo_market' s !! Md.px u = if Md.qty u =? 0 then None else Some (Md.qty u)) as Hin.
  { intros [] u Hu; repeat (apply elem_of_cons in Hu as [->|Hu]; [vm_compute; reflexivity|]); by apply elem_of_nil in Hu. }
  split; split; try done. intros s px Hpx. unfold demo_market'. rewrite !upd_lookup.
  repeat (case_decide as Hd; [destruct Hd as [-> ->]; exfalso; apply Hpx; simpl; set_solver|clear Hd]). done.
Qed.

Lemma demo_honest : honest demo_gap 0 400 demo_history demo_recs.
Proof.
  destruct (lists_all demo_market demo_bids) as [LA DA]; [intros []; repeat constructor|intros []; apply (bool_decide_eq_true_1 _); vm_compute; reflexivity|].
  destruct (lists_all demo_market' demo_levels) as [LB DB]; [intros []; repeat constructor|intros []; apply (bool_decide_eq_true_1 _); vm_compute; reflexivity|].
  destruct demo_diff_of as [D1 D2].
  assert (forall (us : Side -> list Md.LevelUpdate) a b, forallb (fun u => (a <=? Md.px u) && (Md.px u <? b)) (us Buy ++ us Sell) = true -> forall s, Forall (fun u => a <= Md.px u < b) (us s)) as Hw.
  { intros us a b Hf s. rewrite forallb_app, andb_true_iff, !forallb_forall in Hf. apply Forall_forall. intros u Hu%list_elem_of_In.
    destruct Hf as [H1 H2]. destruct s; [specialize (H1 u Hu)|specialize (H2 u Hu)]; lia. }
  split; [lia|intros i; unfold demo_history; destruct (i <=? 100); by apply market_fine_test|].
  repeat (apply Forall_cons; split); [..|by apply Forall_nil]; unfold truthful; cbn [Md.kind demo_recs Md.first_id Md.last_id].
  - exists demo_bids. split; [by vm_compute|]. split; [lia|]. split; [exact LA|]. split; [apply DA|]. split; [by intros []|by apply Hw].
  - exists demo_diff. split; [by vm_compute|]. split; [lia|]. split; [lia|]. split; [|by apply Hw].
    intros i Hi. change (demo_history 103) with demo_market'. unfold demo_history. by destruct (i <=? 100).
  - exists demo_levels. split; [by vm_compute|]. split; [lia|]. split; [exact LB|]. split; [apply DB|]. split; [by intros []|by apply Hw].
  - exists demo_levels. split; [by vm_compute|]. split; [lia|]. split; [exact LB|]. split; [apply DB|]. split; [by intros []|by apply Hw].
  - exists (fun _ => []). split; [by vm_compute|]. split; [lia|]. split; [lia|]. split; [|by apply Hw].
    intros i Hi. change (demo_history 107) with demo_market'. unfold demo_history. rewrite (proj2 (Z.leb_gt _ _)) by lia. split; [intros s; constructor|by intros s u ?%not_elem_of_nil|done].
Qed.


(** A snapshot that lists fewer levels than are compared, while the mirror is complete further down: the level it does not
    list counts as a mismatch, though the book is the exchange's. *)
Definition shallow_buf : list Z := Md.capture 2 5 [Md.MSnapshot 5 100 (demo_bids Buy) (demo_bids Sell); Md.MSnapshot 6 100 [Md.mkLevel 99 7] (demo_bids Sell)].
Definition shallow_check (n : nat) : option (list Line) :=
  m ← make (Bk := RB.t) 100 64 8;
  m ← seed shallow_buf (Md.mkRecord Md.Snapshot 5 0 100 2 1 48 0 0 false) m;
  st ← check_snapshot shallow_buf (mkArgs n 0) (mkSt m 0 0 0 0 0 0 0 0 0 false []) (Md.mkRecord Md.Snapshot 6 0 100 1 1 128 0 0 false);
  Some (lines st).
Lemma shallow_snapshot_fails : Md.load shallow_buf = Some (inr ([Md.mkRecord Md.Snapshot 5 0 100 2 1 48 0 0 false; Md.mkRecord Md.Snapshot 6 0 100 1 1 128 0 0 false], 2, 5)) /\
  shallow_check 400 = Some [mkLine 100 99 101 3 1] /\ shallow_check 1 = Some [mkLine 100 99 101 2 0].
Proof. split; [|split]; vm_compute; reflexivity. Qed.
End MdReplayTheorems.
