(* ===== verification/Mm.v ===== *)
(** * A market maker's quotes, strategies and volatility (mm.hpp)

    Quotes are virtual: each tracks its own place in the exchange's queue. Quantities of the queue are doubles; the functions
    of the C library ([pow], [exp], [log1p]) are arguments. A conversion of a double out of the integer's range, and an
    overflow of a signed integer, have no result. *)
From Stdlib Require Import Floats.SpecFloat.
From S2P Require Import Prelude Common Rng Doubles OrderBook Mirror.
Import Rng (double, of_int, lit, dlt).

Module Mm.

Inductive StrategyKind := AvellanedaStoikov | FixedSpread | JoinTouch.
Inductive FillModel := Queue | Optimistic.

Record Config := mkConfig {
  strategy : StrategyKind;
  fill_model : FillModel;
  size_lots : Z;
  max_inventory_units : double;
  gamma : double;
  k_ : double;
  tau_s : double;
  half_spread_ticks : double;
  vol_halflife_s : double;
  requote_ticks : Z;
  latency_ns : Z;
  fee_bps : double;
  cancel_power : double;
  warmup_ns : Z;
  price_scale : double;
  qty_scale : double;
}.
Definition default_config : Config :=
  mkConfig AvellanedaStoikov Queue 1000 (of_int 10) (lit 1 10) (lit 1 2) (of_int 30) (of_int 2) (of_int 10) 2 10000000 (of_int 0) (of_int 1)
    30000000000 (lit 1 100) (lit 1 100000).

Record Fill := mkFill { f_t : Z; f_side : Side; f_px : Z; f_qty : Z; mid_at_fill : double; queue_wait_s : double }.

Record Quote := mkQuote {
  active : bool;
  px : Z;
  remaining : Z;
  ahead : double;
  traded_since_diff : double;
  live_since : Z;
  has_pending : bool;
  pend_px : option Z;
  eff : Z;
}.
Definition zero : double := S754_zero false.
Definition no_quote : Quote := mkQuote false 0 0 zero zero 0 false None 0.
Definition set_queue (q : Quote) (ahead traded : double) : Quote :=
  mkQuote (active q) (px q) (remaining q) ahead traded (live_since q) (has_pending q) (pend_px q) (eff q).
Definition set_remaining (q : Quote) (remaining : Z) (active : bool) : Quote :=
  mkQuote active (px q) remaining (ahead q) (traded_since_diff q) (live_since q) (has_pending q) (pend_px q) (eff q).
Definition set_pending (q : Quote) (has_pending : bool) (pend_px : option Z) (eff : Z) : Quote :=
  mkQuote (active q) (px q) (remaining q) (ahead q) (traded_since_diff q) (live_since q) has_pending pend_px eff.

(** ** [QuoteLogic] *)

(** How much of a trade fills us: swept through, the naive model, or what is left after the queue ahead. *)
Definition fill_of (q : Quote) (through : bool) (qty : Z) (model : FillModel) : option (Quote * Z) :=
  if through then Some (q, remaining q) else
  match model with
  | Optimistic => Some (q, Z.min (remaining q) qty)
  | Queue =>
      let consumed := dmin (ahead q) (of_int qty) in
      let q := set_queue q (dsub (ahead q) consumed) (dadd (traded_since_diff q) (of_int qty)) in
      fill ← to_u64 (dtrunc (dmin (dsub (of_int qty) consumed) (of_int (remaining q))));
      Some (q, fill)
  end.
Definition on_trade (q : Quote) (side : Side) (trade_px qty : Z) (model : FillModel) : option (Quote * Z) :=
  if negb (active q) || (remaining q =? 0) then Some (q, 0) else
  let through := match side with Buy => trade_px <? px q | Sell => px q <? trade_px end in
  if negb through && negb (trade_px =? px q) then Some (q, 0) else
  '(q, fill) ← fill_of q through qty model;
  let left_ := u64 (remaining q - fill) in
  Some (set_remaining q left_ (if left_ =? 0 then false else active q), fill).

(** The part of the cancellations that was ahead of us. *)
Definition cancelled_ahead (pow : double -> double -> double) (q : Quote) (cancelled base power : double) : double :=
  let a := dmin (ahead q) base in
  let b := dsub base a in
  let an := pow a power in
  let bn := pow b power in
  let share := if dlt zero (dadd an bn) then ddiv an (dadd an bn) else zero in
  dmin a (dmul cancelled share).
Definition on_level_change (pow : double -> double -> double) (q : Quote) (before after power : double) : Quote :=
  if negb (active q) then q else
  let shrink := dsub before after in
  let ahead_ :=
    if dlt zero shrink then
      let explained := dmin shrink (traded_since_diff q) in
      let cancelled := dsub shrink explained in
      let base := dsub before explained in
      if dlt zero cancelled && dlt zero base then dsub (ahead q) (cancelled_ahead pow q cancelled base power) else ahead q
    else ahead q in
  set_queue q (dclamp ahead_ zero (dmax after zero)) zero.

(** ** [Strategy] *)

Section strategy.
Context (log1p exp : double -> double).

Definition half := lit 1 2.
(** The quotes the strategy computes, before they are kept from crossing. *)
Definition target (c : Config) (mid : double) (best_bid best_ask : Z) (inv_units sigma2 : double) : option (Z * Z) :=
  '(bid, ask) ← match strategy c with
    | AvellanedaStoikov =>
        let s2 := sigma2 in
        let r := dsub mid (dmul (dmul (dmul inv_units (gamma c)) s2) (tau_s c)) in
        let h := dadd (dmul (dmul (dmul half (gamma c)) s2) (tau_s c)) (ddiv (log1p (ddiv (gamma c) (k_ c))) (gamma c)) in
        Some (dfloor (dsub r h), dceil (dadd r h))
    | FixedSpread => Some (dfloor (dsub mid (half_spread_ticks c)), dceil (dadd mid (half_spread_ticks c)))
    | JoinTouch => Some (dtrunc (of_int best_bid), dtrunc (of_int best_ask))
    end;
  bid ← to_i64 bid; ask ← to_i64 ask; Some (bid, ask).
Definition desired (c : Config) (mid : double) (best_bid best_ask : Z) (inv_units sigma2 : double) : option (option Z * option Z) :=
  '(bid, ask) ← target c mid best_bid best_ask inv_units sigma2;
  below ← sub_price best_ask 1;
  above ← BookMirror.add_price best_bid 1;
  Some (if dlt inv_units (max_inventory_units c) then Some (Z.min bid below) else None,
        if dlt (SFopp (max_inventory_units c)) inv_units then Some (Z.max ask above) else None).

(** ** [VolEstimator] *)

Record Vol := mkVol { hl_ : double; var_ : double; last_mid_ : double; last_t_ : Z; have_ : bool }.
Definition vol_make (halflife_s : double) : Vol := mkVol halflife_s (of_int 1) zero 0 false.
Definition vol_update (v : Vol) (mid : double) (t_ns : Z) : Vol :=
  let dt := dmul (of_int (u64 (t_ns - last_t_ v))) (lit 1 1000000000) in
  let var :=
    if have_ v && dlt zero dt then
      let a := dsub (of_int 1) (exp (ddiv (dmul (SFopp dt) (lit 693147 1000000)) (hl_ v))) in
      let dm := dsub mid (last_mid_ v) in
      dadd (var_ v) (dmul a (dsub (ddiv (dmul dm dm) dt) (var_ v)))
    else var_ v in
  mkVol (hl_ v) var mid t_ns true.
Definition variance_rate (v : Vol) : double := var_ v.
End strategy.
End Mm.
