(* ===== verification/MmSim.v ===== *)
(** * The market-making simulation (mm_sim.hpp)

    [run] replays a capture through the mirror and a strategy's two virtual quotes beside it: pending replacements become
    live after the latency, trades and book updates fill them, every update decides anew. Doubles are rounded operation by
    operation. Dereferencing an empty best price, a conversion out of range and a signed overflow have no result. *)
From Stdlib Require Import Floats.SpecFloat.
From S2P Require Import Prelude Common Rng Doubles OrderBook Engine Md BookApi Mirror MdReplay Mm.
Import Rng (double, of_int, lit, dlt).
Import Mm.

Module MmSim.

#[export] Instance kind_eq_dec : EqDecision Md.Kind.
Proof. solve_decision. Defined.

Section sim.
Context {Bk : Type} `{BookApi Bk}.
Context (pow : double -> double -> double) (log1p exp : double -> double).

(** ** The state of the loop *)

(** The money and the fills. *)
Record Acc := mkAcc {
  cash : double; fees : double; spread_capture : double; inv : Z;
  fills : Z; buys : Z; sells : Z; volume_base : double; notional : double; wait_sum : double; fill_log : list Fill;
}.
Record Counts := mkCounts { quotes_live : Z; cancels : Z; post_only_rejects : Z }.
(** [t_start] ... [next_sample]. *)
Record Clock := mkClock { prev_last : Z; have_prev : bool; t_prev : Z; t_start : Z; live_ns : Z; span_ns : Z; next_sample : Z }.
Record SeriesPoint := mkPoint { t_s : double; p_mid : double; inv_btc : double; pnl_usdt : double }.
Record Stats := mkStats { abs_inv_sum : double; abs_inv_n : Z; max_abs_inv : double; reseeds : Z; series : list SeriesPoint }.
Record t := mkSim {
  mirror : BookMirror.t Bk;
  quote : Side -> Quote;
  acc : Acc;
  counts : Counts;
  vol : Vol;
  mids : list (Z * double);
  clock : Clock;
  stats : Stats;
}.
Definition put (f : Side -> Quote) (s : Side) (q : Quote) : Side -> Quote := fun s' => if decide (s' = s) then q else f s'.
Definition set_mirror (st : t) (m : BookMirror.t Bk) : t := mkSim m (quote st) (acc st) (counts st) (vol st) (mids st) (clock st) (stats st).
Definition set_quotes (st : t) (f : Side -> Quote) : t := mkSim (mirror st) f (acc st) (counts st) (vol st) (mids st) (clock st) (stats st).
Definition set_acc (st : t) (a : Acc) : t := mkSim (mirror st) (quote st) a (counts st) (vol st) (mids st) (clock st) (stats st).
Definition set_clock (st : t) (c : Clock) : t := mkSim (mirror st) (quote st) (acc st) (counts st) (vol st) (mids st) c (stats st).

Definition mid_now (m : BookMirror.t Bk) : option double :=
  bb ← ba_best_bid (BookMirror.book_ m); ba ← ba_best_ask (BookMirror.book_ m); s ← BookMirror.add_price bb ba; Some (dmul half (of_int s)).

Definition record_fill (cfg : Config) (m : BookMirror.t Bk) (side : Side) (px qty time live : Z) (a : Acc) : option Acc :=
  if qty =? 0 then Some a else
  let sign := of_int (match side with Buy => 1 | Sell => -1 end) in
  let worth := dmul (dmul (dmul (of_int px) (price_scale cfg)) (of_int qty)) (qty_scale cfg) in
  change ← match side with Buy => Some (i64 qty) | Sell => sub_price 0 (i64 qty) end;
  inv' ← BookMirror.add_price (inv a) change;
  mid ← mid_now m;
  let captured := dmul (dmul (dmul (dmul sign (dsub mid (of_int px))) (price_scale cfg)) (of_int qty)) (qty_scale cfg) in
  let wait := dmul (of_int (u64 (time - live))) (lit 1 1000000000) in
  Some (mkAcc (dsub (cash a) (dmul sign worth)) (dadd (fees a) (dmul (dmul (fee_bps cfg) (lit 1 10000)) worth)) (dadd (spread_capture a) captured) inv'
    (u64 (fills a + 1)) (match side with Buy => u64 (buys a + 1) | Sell => buys a end) (match side with Buy => sells a | Sell => u64 (sells a + 1) end)
    (dadd (volume_base a) (dmul (of_int qty) (qty_scale cfg))) (dadd (notional a) worth) (dadd (wait_sum a) wait)
    (fill_log a ++ [mkFill time side px qty mid wait])).

(** ** Replacements that take effect *)

Definition crossing (m : BookMirror.t Bk) (side : Side) (px : Z) : option bool :=
  match side with
  | Buy => a ← ba_best_ask (BookMirror.book_ m); Some (a <=? px)
  | Sell => b ← ba_best_bid (BookMirror.book_ m); Some (px <=? b)
  end.
Definition settle (cfg : Config) (m : BookMirror.t Bk) (time : Z) (side : Side) (q : Quote) (n : Counts) : option (Quote * Counts) :=
  if negb (has_pending q) || (time <? eff q) then Some (q, n) else
  let n := if active q then mkCounts (quotes_live n) (u64 (cancels n + 1)) (post_only_rejects n) else n in
  let q := mkQuote false (px q) (remaining q) (ahead q) (traded_since_diff q) (live_since q) (has_pending q) (pend_px q) (eff q) in
  '(q, n) ← match pend_px q with
    | None => Some (q, n)
    | Some px =>
        crosses ← crossing m side px;
        if crosses : bool then Some (q, mkCounts (quotes_live n) (cancels n) (u64 (post_only_rejects n + 1))) else
        level ← BookMirror.qty_at m side px;
        Some (mkQuote true px (size_lots cfg) (of_int level) zero time (has_pending q) (pend_px q) (eff q),
              mkCounts (u64 (quotes_live n + 1)) (cancels n) (post_only_rejects n))
    end;
  Some (set_pending q false None (eff q), n).
Definition process_pending (cfg : Config) (st : t) (time : Z) : option t :=
  '(b, n) ← settle cfg (mirror st) time Buy (quote st Buy) (counts st);
  '(a, n) ← settle cfg (mirror st) time Sell (quote st Sell) n;
  Some (mkSim (mirror st) (put (put (quote st) Buy b) Sell a) (acc st) n (vol st) (mids st) (clock st) (stats st)).

(** ** A trade *)

Definition trade (cfg : Config) (st : t) (r : Md.Record_) : option t :=
  let side := if Md.buyer_is_maker r then Buy else Sell in
  let q := quote st side in
  '(q', f) ← on_trade q side (Md.trade_px r) (Md.trade_qty r) (fill_model cfg);
  a ← record_fill cfg (mirror st) side (px q) f (Md.rx_ns r) (live_since q') (acc st);
  Some (set_acc (set_quotes st (put (quote st) side q')) a).

(** ** A book update *)

(** The displayed quantity at the price of a live quote. *)
Definition shown (m : BookMirror.t Bk) (side : Side) (q : Quote) : option double :=
  if active q then n ← BookMirror.qty_at m side (px q); Some (of_int n) else Some zero.
Definition level_changed (cfg : Config) (m : BookMirror.t Bk) (side : Side) (before : double) (q : Quote) : option Quote :=
  if active q then after ← shown m side q; Some (on_level_change pow q before after (cancel_power cfg)) else Some q.
(** The market moved to or through a quote: filled in full. *)
Definition run_over (cfg : Config) (time : Z) (side : Side) (st : t) : option t :=
  let q := quote st side in
  if negb (active q) then Some st else
  hit ← crossing (mirror st) side (px q);
  if negb hit then Some st else
  let q' := set_remaining q 0 false in
  a ← record_fill cfg (mirror st) side (px q) (remaining q) time (live_since q) (acc st);
  Some (set_acc (set_quotes st (put (quote st) side q')) a).

(** The last snapshot with an id. *)
Definition snap_by_id (recs : list Md.Record_) (snaps : list nat) (id : Z) : option (option Md.Record_) :=
  ss ← MdReplay.by_id recs snaps id; Some (last ss).
Definition update_mirror (buf : list Z) (recs : list Md.Record_) (snaps : list nat) (r : Md.Record_) (m : BookMirror.t Bk) : option (BookMirror.t Bk * bool) :=
  m ← BookMirror.apply buf r 0 m;
  found ← snap_by_id recs snaps (Md.last_id r);
  match found with
  | None => Some (m, false)
  | Some snap =>
      again ← BookMirror.needs_reseed m;
      if again : bool then m ← BookMirror.seed buf snap m; Some (m, true) else Some (m, false)
  end.

Definition current (q : Quote) : option Z := if has_pending q then pend_px q else if active q then Some (px q) else None.
Definition distance (a b : Z) : option Z := d ← sub_price a b; if d <? 0 then sub_price 0 d else Some d.
Definition requote (cfg : Config) (time : Z) (want : option Z) (q : Quote) : option Quote :=
  if decide (want = current q) then Some q else
  let thr := match strategy cfg with JoinTouch => 1 | _ => requote_ticks cfg end in
  small ← match want, current q with Some w, Some c => d ← distance w c; Some (d <? thr) | _, _ => Some false end;
  if small : bool then Some q else
  Some (if has_pending q then set_pending q true want (eff q) else set_pending q true want (u64 (time + latency_ns cfg))).

Definition inv_units (cfg : Config) (a : Acc) : double := ddiv (of_int (inv a)) (of_int (size_lots cfg)).
(** A decision and a sample of the series. *)
Definition sample (cfg : Config) (time : Z) (mid : double) (a : Acc) (c : Clock) (s : Stats) : Clock * Stats :=
  let held := dmul (dabs (of_int (inv a))) (qty_scale cfg) in
  let s := mkStats (dadd (abs_inv_sum s) held) (u64 (abs_inv_n s + 1)) (dmax (max_abs_inv s) held) (reseeds s) (series s) in
  if time <? next_sample c then (c, s) else
  let base := dmul (of_int (inv a)) (qty_scale cfg) in
  let pnl := dsub (dadd (cash a) (dmul (dmul base mid) (price_scale cfg))) (fees a) in
  (mkClock (prev_last c) (have_prev c) (t_prev c) (t_start c) (live_ns c) (span_ns c) (u64 (next_sample c + 1000000000)),
   mkStats (abs_inv_sum s) (abs_inv_n s) (max_abs_inv s) (reseeds s)
     (series s ++ [mkPoint (dmul (of_int (u64 (time - u64 (t_start c + warmup_ns cfg)))) (lit 1 1000000000)) mid base pnl])).
Definition decide_quotes (cfg : Config) (time : Z) (mid : double) (st : t) : option t :=
  let c := clock st in
  if time <? u64 (t_start c + warmup_ns cfg) then Some st else
  let c := mkClock (prev_last c) (have_prev c) (t_prev c) (t_start c) (live_ns c) (span_ns c) (if next_sample c =? 0 then time else next_sample c) in
  bb ← ba_best_bid (BookMirror.book_ (mirror st));
  ba ← ba_best_ask (BookMirror.book_ (mirror st));
  '(want_bid, want_ask) ← desired log1p cfg mid bb ba (inv_units cfg (acc st)) (variance_rate (vol st));
  b ← requote cfg time want_bid (quote st Buy);
  a ← requote cfg time want_ask (quote st Sell);
  let '(c, s) := sample cfg time mid (acc st) c (stats st) in
  Some (mkSim (mirror st) (put (put (quote st) Buy b) Sell a) (acc st) (counts st) (vol st) (mids st) c s).

Definition tick (time : Z) (both : bool) (r : Md.Record_) (c : Clock) : Clock :=
  let d := u64 (time - t_prev c) in
  mkClock (Md.last_id r) true time (t_start c)
    (if negb (t_prev c =? 0) && both then u64 (live_ns c + d) else live_ns c) (if negb (t_prev c =? 0) then u64 (span_ns c + d) else span_ns c) (next_sample c).
Definition book_update (buf : list Z) (recs : list Md.Record_) (snaps : list nat) (cfg : Config) (st : t) (r : Md.Record_) : option t :=
  let time := Md.rx_ns r in
  before_b ← shown (mirror st) Buy (quote st Buy);
  before_a ← shown (mirror st) Sell (quote st Sell);
  '(m, reseeded) ← update_mirror buf recs snaps r (mirror st);
  let s := stats st in
  let s := if reseeded : bool then mkStats (abs_inv_sum s) (abs_inv_n s) (max_abs_inv s) (u64 (reseeds s + 1)) (series s) else s in
  b ← level_changed cfg m Buy before_b (quote st Buy);
  a ← level_changed cfg m Sell before_a (quote st Sell);
  let st := mkSim m (put (put (quote st) Buy b) Sell a) (acc st) (counts st) (vol st) (mids st) (clock st) s in
  st ← run_over cfg time Buy st;
  st ← run_over cfg time Sell st;
  mid ← mid_now (mirror st);
  decide_quotes cfg time mid
    (mkSim (mirror st) (quote st) (acc st) (counts st) (vol_update exp (vol st) mid time) (mids st ++ [(time, mid)])
      (tick time (active (quote st Buy) && active (quote st Sell)) r (clock st)) (stats st)).

(** ** The loop *)

(** [t_start] is the time of the first diff. *)
Definition begin_clock (st : t) (r : Md.Record_) : t :=
  let c := clock st in
  if negb (have_prev c) && bool_decide (Md.kind r = Md.Diff)
  then set_clock st (mkClock (prev_last c) (have_prev c) (t_prev c) (Md.rx_ns r) (live_ns c) (span_ns c) (next_sample c)) else st.
(** One record; [true]: a sequence gap ends the simulation. *)
Definition on_record (buf : list Z) (recs : list Md.Record_) (snaps : list nat) (cfg : Config) (st : t) (r : Md.Record_) : option (t * bool) :=
  if bool_decide (Md.kind r = Md.Snapshot) then Some (st, false) else
  let st := begin_clock st r in
  if t_start (clock st) =? 0 then Some (st, false) else
  st ← process_pending cfg st (Md.rx_ns r);
  if bool_decide (Md.kind r = Md.Trade) then st ← trade cfg st r; Some (st, false) else
  if have_prev (clock st) && negb (Md.first_id r =? u64 (prev_last (clock st) + 1)) then Some (st, true) else
  st ← book_update buf recs snaps cfg st r; Some (st, false).

Fixpoint loop (buf : list Z) (recs : list Md.Record_) (snaps : list nat) (cfg : Config) (st : t) (rest : list Md.Record_) : option (t * bool) :=
  match rest with
  | [] => Some (st, false)
  | r :: rest =>
      '(st, stop) ← on_record buf recs snaps cfg st r;
      if stop : bool then Some (st, true) else loop buf recs snaps cfg st rest
  end.

(** ** The result *)

(** [std::lower_bound] on times; its range must be partitioned. *)
Fixpoint not_before (v : Z) (mids : list (Z * double)) : list (Z * double) :=
  match mids with [] => [] | x :: rest => if x.1 <? v then not_before v rest else mids end.
Definition lower_bound (mids : list (Z * double)) (v : Z) : option (option double) :=
  let later := not_before v mids in
  if forallb (fun x => v <=? x.1) later then Some (snd <$> head later) else None.
Definition horizons : list Z := [1000000000; 5000000000; 30000000000].
(** Markout, realized spread and their number at one horizon, of one fill. *)
Definition mark (mids : list (Z * double)) (f : Fill) (x : double * double * Z) (h : Z) : option (double * double * Z) :=
  let '(markout, realized, n) := x in
  let sign := of_int (match f_side f with Buy => 1 | Sell => -1 end) in
  later ← lower_bound mids (u64 (f_t f + h));
  Some (match later with
    | None => (markout, realized, n)
    | Some mid => (dadd markout (dmul sign (dsub mid (mid_at_fill f))), dadd realized (dmul sign (dsub mid (of_int (f_px f)))), u64 (n + 1))
    end).
Fixpoint marks (mids : list (Z * double)) (h : Z) (fs : list Fill) (x : double * double * Z) : option (double * double * Z) :=
  match fs with [] => Some x | f :: fs => x ← mark mids f x h; marks mids h fs x end.
Definition mean (x : double) (n : Z) : double := if n =? 0 then zero else ddiv x (of_int n).
Definition average (x : double * double * Z) : double * double * Z :=
  let '(markout, realized, n) := x in if n =? 0 then x else (ddiv markout (of_int n), ddiv realized (of_int n), n).
Definition edge_sum (fs : list Fill) : double :=
  foldl (fun e f => dadd e (dmul (of_int (match f_side f with Buy => 1 | Sell => -1 end)) (dsub (mid_at_fill f) (of_int (f_px f))))) zero fs.

Record Result := mkResult {
  final : t; gaps : Z; duration_s : double; final_inv : double; total_pnl : double; inventory_pnl : double; mean_abs_inv : double;
  mean_queue_wait_s : double; both_sides_live_frac : double; avg_edge_ticks : double; markouts : list (double * double * Z);
}.
Definition finish (cfg : Config) (st : t) (stop : bool) : option Result :=
  let a := acc st in
  let mid_end := default zero (snd <$> last (mids st)) in
  let base := dmul (of_int (inv a)) (qty_scale cfg) in
  let total := dsub (dadd (cash a) (dmul (dmul base mid_end) (price_scale cfg))) (fees a) in
  ms ← mapM (fun h => marks (mids st) h (fill_log a) (zero, zero, 0)) horizons;
  Some (mkResult st (if stop then 1 else 0) (default zero (t_s <$> last (series (stats st)))) base total (dsub (dadd total (fees a)) (spread_capture a))
    (mean (abs_inv_sum (stats st)) (abs_inv_n (stats st))) (mean (wait_sum a) (fills a))
    (if span_ns (clock st) =? 0 then zero else ddiv (of_int (live_ns (clock st))) (of_int (span_ns (clock st))))
    (if fills a =? 0 then zero else ddiv (edge_sum (fill_log a)) (of_int (fills a))) (average <$> ms)).

Definition start (cfg : Config) (m : BookMirror.t Bk) : t :=
  mkSim m (fun _ => no_quote) (mkAcc zero zero zero 0 0 0 0 zero zero zero []) (mkCounts 0 0 0) (vol_make (vol_halflife_s cfg)) []
    (mkClock 0 false 0 0 0 0 0) (mkStats zero 0 zero 0 []).
(** [run]; [inl]: the exception of a capture with no usable pair. *)
Definition run (buf : list Z) (recs : list Md.Record_) (cfg : Config) : option (unit + Result) :=
  let '(diffs, snaps, _) := MdReplay.sort_records recs in
  if bool_decide (diffs = []) || bool_decide (snaps = []) then Some (inl tt) else
  seed ← Md.find_seed recs diffs snaps 0;
  match seed with
  | None => Some (inl tt)
  | Some seed =>
      s0 ← recs !! Md.snap_rec seed;
      mid ← MdReplay.mid_of buf s0;
      m ← BookMirror.make mid 1048576 262144;
      m ← BookMirror.seed buf s0 m;
      '(st, stop) ← loop buf recs snaps cfg (start cfg m) (drop (Md.diff_rec seed) recs);
      r ← finish cfg st stop;
      Some (inr r)
  end.
End sim.
End MmSim.
