(* ===== verification/MmLaws.v ===== *)
(** * What the quotes of the simulation keep (mm.hpp, mm_sim.hpp)

    A trade never fills a quote for more than is left of it, whatever rounding does; the estimated place in the queue is
    always a number between nothing and the level; a quote that goes live does not cross; and the position never exceeds
    its cap by more than two quotes. *)
From Stdlib Require Import Floats.SpecFloat.
From S2P Require Import Prelude Bytes Common Rng Doubles OrderBook Engine Md BookApi Mirror MdReplay Mm MmSim.
Import Rng (double, of_int, lit, dlt).

Module MmLaws.
Import Mm MmSim Doubles.

(** ** Quotes *)

Section quotes.
Variable size : Z.
Hypothesis Hsize : 0 < size < 9007199254740992.

Record quote_ok (q : Quote) : Prop := {
  qo_remaining : 0 <= remaining q <= size;
  qo_ahead : nonneg (ahead q);
  qo_traded : nonneg (traded_since_diff q);
}.

(** What a quote may still be filled for: what is left of it, and the quote that replaces it. *)
Definition resting (q : Quote) : Z := if active q then remaining q else 0.
Definition coming (q : Quote) : Z := if has_pending q then match pend_px q with Some _ => size | None => 0 end else 0.
Definition exposure (q : Quote) : Z := resting q + coming q.

Lemma resting_bounds q : quote_ok q -> 0 <= resting q <= size.
Proof. intros [H _ _]. unfold resting. destruct (active q); lia. Qed.
Lemma coming_bounds q : 0 <= coming q <= size.
Proof. unfold coming. destruct (has_pending q), (pend_px q); lia. Qed.
Lemma exposure_bounds q : quote_ok q -> 0 <= exposure q <= 2 * size.
Proof. intros H. pose proof (resting_bounds q H). pose proof (coming_bounds q). unfold exposure. lia. Qed.

Lemma of_int_u64 n : in_u64 n -> nonneg (of_int n) /\ bounded_by 64 (of_int n).
Proof. intros H. apply of_int_nonneg. exact H. Qed.

(** The part of a trade that reaches us is at most what is left of the quote. *)
Lemma fill_of_ok q through qty model : quote_ok q -> in_u64 qty -> exists q' f, fill_of q through qty model = Some (q', f) /\ 0 <= f <= remaining q /\
  nonneg (ahead q') /\ nonneg (traded_since_diff q') /\ q' = set_queue q (ahead q') (traded_since_diff q').
Proof.
  intros [Hr Ha Ht] Hq. unfold fill_of. destruct through; [exists q, (remaining q); split_and!; try done; first [lia|by destruct q]|].
  destruct model; [|exists q, (Z.min (remaining q) qty); unfold in_u64 in Hq; split_and!; try done; first [lia|by destruct q]].
  destruct (of_int_u64 qty Hq) as [Nq [Fq _]]. set (d := of_int qty) in *. set (consumed := dmin (ahead q) d).
  assert (nonneg consumed /\ is_finite consumed = true /\ dlt d consumed = false /\ dlt (ahead q) consumed = false) as (Nc & Fc & Hdc & Hac).
  { unfold consumed, dmin. destruct (dlt d (ahead q)) eqn:Hlt.
    - destruct (nonneg_valid d Nq). split_and!; try done; [rewrite dlt_finite by done; lia|].
      destruct (is_finite (ahead q)) eqn:Fa; [|by rewrite (nonneg_infinite _ Ha Fa); destruct d].
      destruct (nonneg_valid _ Ha). rewrite dlt_finite in * by done. lia.
    - destruct (nonneg_not_above (ahead q) d Ha Nq Fq Hlt) as [Fa _]. destruct (nonneg_valid _ Ha). split_and!; try done. rewrite dlt_finite by done. lia. }
  destruct (of_int_small (remaining q)) as (Vr & Fr & Sr & _); [lia|].
  assert (nonneg (of_int (remaining q))) as Nr by (apply of_int_nonneg; lia).
  pose proof (dsub_nonneg d consumed Nq Nc Fc Hdc) as Nx. set (x := dsub d consumed) in *.
  destruct (dtrunc_at_most (dmin x (of_int (remaining q))) (remaining q)) as (f & Hf & Hb).
  - by apply dmin_nonneg.
  - unfold dmin. destruct (dlt (of_int (remaining q)) x) eqn:E; [done|]. by apply (nonneg_not_above x (of_int (remaining q))).
  - lia.
  - rewrite <- Sr. unfold dmin. destruct (dlt (of_int (remaining q)) x) eqn:E; [lia|]. by apply (nonneg_not_above x (of_int (remaining q))).
  - cbn [remaining set_queue]. rewrite Hf. cbn [to_u64 mbind option_bind]. rewrite (proj2 (Z.leb_le _ _)), (proj2 (Z.ltb_lt _ _)) by lia. cbn [andb mbind option_bind].
    eexists _, f. split; [done|]. split; [done|]. split; [by apply dsub_nonneg|]. split; [by apply dadd_nonneg|done].
Qed.

(** The estimate after a trade, and what it may still be filled for. *)
Lemma on_trade_ok q side trade_px qty model : quote_ok q -> in_u64 qty -> exists q' f, on_trade q side trade_px qty model = Some (q', f) /\
  0 <= f <= resting q /\ quote_ok q' /\ exposure q' = exposure q - f /\ px q' = px q /\ (active q' = true -> active q = true) /\
  pend_px q' = pend_px q /\ has_pending q' = has_pending q.
Proof.
  intros Hq Hqty. unfold on_trade. pose proof (resting_bounds q Hq).
  destruct (negb (active q) || (remaining q =? 0)) eqn:H0; [exists q, 0; split_and!; try done; lia|].
  set (through := match side with Buy => trade_px <? px q | Sell => px q <? trade_px end).
  destruct (negb through && negb (trade_px =? px q)); [exists q, 0; split_and!; try done; lia|].
  destruct (fill_of_ok q through qty model Hq Hqty) as (q1 & f & -> & Hf & Na & Nt & Eq1). cbn [mbind option_bind].
  apply orb_false_iff in H0 as [Hact%negb_false_iff Hne%Z.eqb_neq]. destruct Hq as [Hr _ _].
  assert (remaining q1 = remaining q /\ active q1 = active q /\ px q1 = px q /\ has_pending q1 = has_pending q /\ pend_px q1 = pend_px q) as (E1 & E2 & E3 & E4 & E5) by (by rewrite Eq1).
  rewrite u64_small by (unfold in_u64; lia). eexists _, f. split; [done|].
  unfold exposure, resting, coming. cbn [set_remaining active remaining px has_pending pend_px]. rewrite E1, E2, E3, E4, E5, Hact.
  split; [lia|]. split; [split; cbn; [lia|done|done]|]. split; [|by split_and!].
  destruct (Z.eqb_spec (remaining q - f) 0); lia.
Qed.

(** ** The place in the queue *)

Variable pow : double -> double -> double.
(** [std::pow] of what is not negative is not negative, or not a number. *)
Hypothesis Hpow : forall x p, nonneg x -> unsigned (pow x p).

Lemma positive_unsigned x : dlt zero x = true -> unsigned x /\ forall s, x <> S754_zero s.
Proof. unfold zero. by destruct x as [|[]| |[]]. Qed.

Lemma positive_nonneg x : valid_binary Rng.prec Rng.emax x = true -> dlt zero x = true -> nonneg x.
Proof. intros Hv Hx. destruct x as [|[]| |[]]; try done; left; by split. Qed.

Lemma cancelled_ahead_ok q cancelled base power : nonneg (ahead q) -> nonneg base -> is_finite base = true -> dlt zero cancelled = true ->
  exists a z, cancelled_ahead pow q cancelled base power = dmin a z /\ nonneg a /\ is_finite a = true /\ dlt (ahead q) a = false /\ unsigned z.
Proof.
  intros Ha Hb Fb Hc. unfold cancelled_ahead. set (a := dmin (ahead q) base). eexists a, _. split; [done|].
  assert (nonneg a /\ is_finite a = true /\ dlt (ahead q) a = false /\ dlt base a = false) as (Na & Fa & H1 & H2).
  { unfold a, dmin. destruct (nonneg_valid base Hb). destruct (dlt base (ahead q)) eqn:Hlt.
    - split_and!; try done; [|rewrite dlt_finite by done; lia]. destruct (is_finite (ahead q)) eqn:Fa; [|by rewrite (nonneg_infinite _ Ha Fa); destruct base].
      destruct (nonneg_valid _ Ha). rewrite dlt_finite in * by done. lia.
    - destruct (nonneg_not_above (ahead q) base Ha Hb Fb Hlt) as [Fa _]. destruct (nonneg_valid _ Ha). split_and!; try done. rewrite dlt_finite by done. lia. }
  split_and!; try done. apply dmul_unsigned; [by apply positive_unsigned|].
  destruct (dlt zero (dadd _ _)) eqn:Hs; [|done]. apply positive_unsigned in Hs as [Hs Hz]. apply ddiv_unsigned; [|done|done]. by apply Hpow.
Qed.

(** After a book update the place is between nothing and the level shown. *)
Lemma on_level_change_ok q before after power : quote_ok q -> nonneg before -> bounded_by 64 before -> nonneg after -> bounded_by 64 after ->
  let q' := on_level_change pow q before after power in
  quote_ok q' /\ (active q = true -> is_finite (ahead q') = true /\ sv (ahead q') <= sv after) /\ exposure q' = exposure q /\ px q' = px q /\
  active q' = active q /\ remaining q' = remaining q /\ pend_px q' = pend_px q /\ has_pending q' = has_pending q.
Proof.
  intros Hq Nb Bb Na Ba. unfold on_level_change. destruct (active q) eqn:Hact; [|by split_and!]. cbn [negb].
  assert (dmax after zero = after) as ->.
  { unfold dmax. destruct (dlt after zero) eqn:E; [|done]. pose proof (unsigned_not_below after (nonneg_unsigned _ Na) false). unfold zero in E. congruence. }
  pose proof Hq as [Hr Ha Ht]. match goal with |- context [dclamp ?v _ _] => assert (valid_binary Rng.prec Rng.emax v = true /\ nan v = false) as [Vv Nv] end.
  { destruct (dlt zero (dsub before after)) eqn:Hs; [|by apply nonneg_valid].
    destruct (dsub_bounded 64 before after) as [Fs Bs]; [unfold emin; lia|done..|]. set (shrink := dsub before after) in *.
    assert (nonneg shrink) as Ns.
    { apply positive_nonneg; [|done]. apply dsub_valid; [done..|apply Bb|apply Ba]. }
    set (explained := dmin shrink (traded_since_diff q)).
    assert (nonneg explained /\ bounded_by 65 explained) as [Ne Be].
    { unfold explained, dmin. destruct (dlt (traded_since_diff q) shrink) eqn:Hlt; [|by split]. split; [done|].
      destruct (is_finite (traded_since_diff q)) eqn:Ft; [|by rewrite (nonneg_infinite _ Ht Ft) in Hlt; destruct shrink].
      split; [done|]. destruct (nonneg_valid _ Ht), (nonneg_valid _ Ns). rewrite dlt_finite in Hlt by done. pose proof (nonneg_sv _ Ht Ft).
      change (64 + 1) with 65 in Bs. revert Bs. generalize (2 ^ (65 - emin)). lia. }
    destruct (dlt zero (dsub shrink explained) && dlt zero (dsub before explained)) eqn:Hcb; [|by apply nonneg_valid].
    apply andb_true_iff in Hcb as [Hc Hbase].
    assert (bounded_by 65 before) as Bb' by (destruct Bb as [F B]; split; [done|]; etransitivity; [exact B|]; apply Z.pow_le_mono_r; unfold emin; lia).
    destruct (dsub_bounded 65 before explained) as [Fbase _]; [unfold emin; lia|done..|].
    assert (nonneg (dsub before explained)) as Nbase.
    { apply positive_nonneg; [|done]. apply dsub_valid; [done..|apply Bb|apply Be]. }
    destruct (cancelled_ahead_ok q (dsub shrink explained) (dsub before explained) power Ha Nbase Fbase Hc) as (a & z & -> & H1 & H2 & H3 & H4).
    by apply dsub_part. }
  destruct Ba as [Fa _]. destruct (dclamp_ok _ after Vv Nv Na Fa) as (N1 & F1 & S1).
  split; [split; cbn; [done|exact N1|right; by eexists]|]. split; [intros _; by split|]. unfold exposure, resting, coming. cbn. by rewrite Hact.
Qed.
End quotes.

(** ** The quantities the mirror shows *)

Section mirror.
Context {Bk : Type} `{BookApi Bk}.
Implicit Types m : BookMirror.t Bk.

Definition arrays_ok m : Prop := Forall in_u64 (BookMirror.bid_qty_ m) /\ Forall in_u64 (BookMirror.ask_qty_ m).
(** What leaves the arrays as they are. *)
Definition same_arrays m m' : Prop := BookMirror.bid_qty_ m' = BookMirror.bid_qty_ m /\ BookMirror.ask_qty_ m' = BookMirror.ask_qty_ m.

Lemma arrays_same m m' : same_arrays m m' -> arrays_ok m -> arrays_ok m'.
Proof. intros [E1 E2]. unfold arrays_ok. by rewrite E1, E2. Qed.

Lemma qty_at_u64 m side p q : arrays_ok m -> BookMirror.qty_at m side p = Some q -> in_u64 q.
Proof.
  intros [Hb Ha] Hq. unfold BookMirror.qty_at in Hq. apply bind_Some in Hq as (rel & _ & Hq). destruct (BookMirror.out_of_range m rel); [by injection Hq as <-|].
  apply aget_Some in Hq as [_ Hq]. destruct side; [exact (Forall_lookup_1 _ _ _ _ Hb Hq)|exact (Forall_lookup_1 _ _ _ _ Ha Hq)].
Qed.

Lemma put_qty_arrays m side rel q m' : BookMirror.put_qty m side rel q = Some m' -> in_u64 q -> arrays_ok m -> arrays_ok m'.
Proof.
  unfold BookMirror.put_qty, aset. intros Hp Hq [Hb Ha]. apply bind_Some in Hp as (l & Hl & Hp). destruct (in_range _ rel); [|done].
  injection Hl as <-. injection Hp as <-. destruct side; split; cbn; try done; by apply Forall_insert.
Qed.

Lemma submit_arrays m c m' : BookMirror.submit m c = Some m' -> same_arrays m m'.
Proof. unfold BookMirror.submit. intros Hs. apply bind_Some in Hs as ([b es] & _ & Hs). apply bind_Some in Hs as (k & _ & Hs). by injection Hs as <-. Qed.

Lemma set_level_arrays m side u add m' : BookMirror.set_level m side u add = Some m' -> in_u64 (Md.qty u) -> arrays_ok m -> arrays_ok m'.
Proof.
  unfold BookMirror.set_level. intros Hs Hu Hm. apply bind_Some in Hs as (rel & _ & Hs).
  destruct (BookMirror.out_of_range m rel); [by injection Hs as <-|]. apply bind_Some in Hs as (cur & _ & Hs).
  destruct (Md.qty u =? 0); [|destruct (cur =? 0)].
  - apply bind_Some in Hs as (m1 & H1 & Hs). eapply put_qty_arrays; [exact Hs|done|]. destruct (negb (cur =? 0)); [|by injection H1 as <-].
    eapply arrays_same; [by eapply submit_arrays|done].
  - destruct add; [|by injection Hs as <-]. cbn [negb] in Hs. apply bind_Some in Hs as (m1 & H1 & Hs). apply bind_Some in Hs as (b & _ & Hs).
    eapply put_qty_arrays; [exact Hs|done|]. apply submit_arrays in H1. eapply (arrays_same m1); [by destruct b|]. by eapply arrays_same.
  - apply bind_Some in Hs as (m1 & H1 & Hs). eapply put_qty_arrays; [exact Hs|done|]. eapply arrays_same; [by eapply submit_arrays|done].
Qed.

Lemma touch_arrays m side u pass every m' : BookMirror.touch m side u pass every = Some m' -> in_u64 (Md.qty u) -> arrays_ok m -> arrays_ok m'.
Proof.
  unfold BookMirror.touch. intros Ht Hu Hm. set (m1 := if negb (every =? 0) then _ else m) in Ht. assert (arrays_ok m1) as Hm1 by (unfold m1; by destruct (negb (every =? 0))).
  destruct (_ && _) in Ht; [by injection Ht as <-|]. apply bind_Some in Ht as (rel & _ & Ht).
  destruct (BookMirror.out_of_range m1 rel); [destruct (pass =? 0); by injection Ht as <-|]. apply bind_Some in Ht as (cur & _ & Ht).
  destruct (_ && _) in Ht; [by eapply set_level_arrays|]. destruct (_ && _) in Ht; [by eapply set_level_arrays|by injection Ht as <-].
Qed.

Lemma level_qty buf r i u : bytes buf -> Md.level buf r i = Some u -> in_u64 (Md.qty u).
Proof.
  intros Hb Hl. unfold Md.level in Hl. apply bind_Some in Hl as (b & Hv & Hl). apply MdTheorems.view_bytes in Hv as [Hbb Hn]; [|done].
  pose proof (unpack_bound [8; 8]%nat b Hbb ltac:(rewrite Hn; simpl; lia)) as Hf. destruct (unpack [8; 8]%nat b) as [|p [|q [|]]]; try done.
  injection Hl as <-. cbn [zip zip_with] in Hf. fields. done.
Qed.

Lemma each_arrays n get (f : BookMirror.t Bk -> Md.LevelUpdate -> option (BookMirror.t Bk)) m m' : (forall i u, get i = Some u -> in_u64 (Md.qty u)) ->
  (forall m u m', f m u = Some m' -> in_u64 (Md.qty u) -> arrays_ok m -> arrays_ok m') -> BookMirror.each n get f m = Some m' -> arrays_ok m -> arrays_ok m'.
Proof.
  intros Hg Hf He Hm. unfold BookMirror.each in He. assert (forall o, (forall m, o = Some m -> arrays_ok m) -> foldl (fun o i => m ← o; u ← get i; f m u) o (seqZ 0 n) = Some m' -> arrays_ok m') as Hall.
  { clear He. induction (seqZ 0 n) as [|i l IH]; intros o Ho Hfold; [by apply Ho|]. cbn [foldl] in Hfold. eapply IH; [|exact Hfold].
    intros m2 H2. apply bind_Some in H2 as (m1 & H1 & H2). apply bind_Some in H2 as (u & Hu & H2). eapply Hf; [exact H2|by eapply Hg|by apply Ho]. }
  apply (Hall (Some m)); [|done]. by intros ? [= <-].
Qed.

Lemma apply_arrays buf d m m' : bytes buf -> BookMirror.apply buf d 0 m = Some m' -> arrays_ok m -> arrays_ok m'.
Proof.
  intros Hb Ha Hm. assert (forall pass m m', BookMirror.apply_pass buf d 0 pass m = Some m' -> arrays_ok m -> arrays_ok m') as Hpass.
  { intros pass x x' Hp Hx. apply bind_Some in Hp as (y & Hy & Hp). eapply each_arrays; [| |exact Hp|eapply each_arrays; [| |exact Hy|done]].
    1,3: intros i u Hu; exact (level_qty _ _ _ _ Hb Hu). all: intros ? ? ? Ht Hu Hx'; exact (touch_arrays _ _ _ _ _ _ Ht Hu Hx'). }
  apply bind_Some in Ha as (y & Hy & Ha). eapply Hpass; [exact Ha|]. by eapply Hpass.
Qed.

Lemma seed_arrays buf r m m' : bytes buf -> BookMirror.seed buf r m = Some m' -> arrays_ok m'.
Proof.
  intros Hb Hs. unfold BookMirror.seed in Hs. apply bind_Some in Hs as (m1 & H1 & Hs). apply bind_Some in Hs as (m2 & H2 & Hs). apply bind_Some in Hs as (m3 & H3 & Hs).
  do 4 (apply bind_Some in Hs as (? & _ & Hs)). injection Hs as <-. apply (arrays_same m3); [done|].
  eapply each_arrays; [| |exact H3|eapply each_arrays; [| |exact H2|]]. 1,3: intros i u Hu; exact (level_qty _ _ _ _ Hb Hu). 1,2: intros ? ? ? Ht Hu Hx'; exact (set_level_arrays _ _ _ _ _ Ht Hu Hx').
  apply bind_Some in H1 as (b & _ & H1). injection H1 as <-. assert (forall n, Forall in_u64 (amake n 0)) as Hz by (intros n; by apply Forall_replicate).
  split; apply Hz.
Qed.
End mirror.
End MmLaws.
