(* ===== verification/MmSimLaws.v ===== *)
(** * The simulation keeps its books and its position limit (mm_sim.hpp)

    Whatever the capture and the strategy, what the simulation reports is an exact account of its fills: inventory, numbers
    and quantities; and the inventory stays within the cap plus two quotes. *)
From Stdlib Require Import Floats.SpecFloat.
From S2P Require Import Prelude Bytes Common Rng Doubles OrderBook BookRefine BookEquiv Engine Md BookApi Mirror MdReplay Mm MmSim MmLaws.
Import Rng (double, of_int, lit, dlt).
Import BookRefine BookEquiv.

Module MmSimLaws.
Import Mm MmSim Doubles MmLaws.

(** ** The account *)

Definition signed_qty (f : Fill) : Z := match f_side f with Buy => f_qty f | Sell => - f_qty f end.
Definition position (fs : list Fill) : Z := foldr (fun f x => signed_qty f + x) 0 fs.
Definition of_side (s : Side) (fs : list Fill) : Z := Z.of_nat (length (filter (fun f => f_side f = s) fs)).

Lemma position_app fs gs : position (fs ++ gs) = position fs + position gs.
Proof. induction fs as [|f fs IH]; [done|]. simpl. rewrite IH. lia. Qed.

Record account (size : Z) (a : Acc) : Prop := {
  ac_inv : inv a = position (fill_log a);
  ac_fills : fills a = u64 (alen (fill_log a));
  ac_buys : buys a = u64 (of_side Buy (fill_log a));
  ac_sells : sells a = u64 (of_side Sell (fill_log a));
  ac_each : Forall (fun f => 0 < f_qty f <= size) (fill_log a);
}.

Section sim.
Context {Bk : Type} `{BookApi Bk}.
Context (pow : double -> double -> double) (log1p exp : double -> double).
Context (cfg : Config) (L : Z).
Abbreviation size := (size_lots cfg).
Hypothesis Hsize : 0 < size < 9007199254740992.
Hypothesis Hpow : forall x p, nonneg x -> unsigned (pow x p).
Implicit Types (m : BookMirror.t Bk) (st : MmSim.t (Bk := Bk)) (a : Acc) (q : Quote).

Definition units (i : Z) : double := ddiv (of_int i) (of_int size).
(** From [L] lots on, the strategies quote that side no more. *)
Definition capped : Prop := forall i, L <= i < L + 2 * size ->
  dlt (units i) (max_inventory_units cfg) = false /\ dlt (SFopp (max_inventory_units cfg)) (units (- i)) = false.
Hypothesis Hcap : capped.
Hypothesis HL : 0 < L + 2 * size <= 4611686018427387904.

Definition held (side : Side) a : Z := match side with Buy => inv a | Sell => - inv a end.
Record inv_ok st : Prop := {
  io_quote s : quote_ok size (quote st s);
  io_account : account size (acc st);
  io_position s : held s (acc st) + exposure size (quote st s) < L + 2 * size;
  io_arrays : arrays_ok (mirror st);
}.

Lemma held_bounds st : inv_ok st -> - (L + 2 * size) < inv (acc st) < L + 2 * size.
Proof.
  intros [Hq _ Hp _]. pose proof (Hp Buy) as H1. pose proof (Hp Sell) as H2. simpl in *.
  pose proof (exposure_bounds size Hsize _ (Hq Buy)). pose proof (exposure_bounds size Hsize _ (Hq Sell)). lia.
Qed.

(** A fill changes the account by its quantity, and nothing else. *)
Lemma record_fill_account m side p qty time live a a' : 0 <= qty <= size -> account size a -> record_fill cfg m side p qty time live a = Some a' ->
  account size a' /\ held side a' = held side a + qty /\ held (opposite side) a' = held (opposite side) a - qty.
Proof.
  intros Hq [A1 A2 A3 A4 A5] Hr. unfold record_fill in Hr. destruct (Z.eqb_spec qty 0) as [->|Hne]; [injection Hr as <-; split; [done|lia]|].
  apply bind_Some in Hr as (change & Hc & Hr). apply bind_Some in Hr as (inv' & Hi & Hr). apply bind_Some in Hr as (mid & _ & Hr). injection Hr as <-.
  assert (i64 qty = qty) as E by (apply i64_small; unfold in_i64; lia).
  assert (change = match side with Buy => qty | Sell => - qty end) as ->.
  { rewrite E in Hc. destruct side; [by injection Hc|]. rewrite sub_price_ok in Hc by (unfold in_i64; lia). injection Hc as <-. lia. }
  assert (inv' = inv a + match side with Buy => qty | Sell => - qty end) as -> by (unfold BookMirror.add_price in Hi; case_match; [by injection Hi|done]).
  split; [|destruct side; simpl; lia]. split; cbn [inv fills buys sells fill_log].
  - rewrite position_app, A1. simpl. unfold signed_qty. simpl. destruct side; lia.
  - rewrite A2, u64_add_l. unfold alen. rewrite length_app. simpl. f_equal. lia.
  - rewrite A3. unfold of_side. rewrite filter_app. simpl. destruct side; rewrite length_app; [rewrite u64_add_l|]; simpl; f_equal; lia.
  - rewrite A4. unfold of_side. rewrite filter_app. simpl. destruct side; rewrite length_app; [|rewrite u64_add_l]; simpl; f_equal; lia.
  - apply Forall_app. split; [done|]. constructor; [simpl; lia|constructor].
Qed.

Lemma put_eq (f : Side -> Quote) s q : put f s q s = q.
Proof. unfold put. by rewrite decide_True. Qed.
Lemma put_ne (f : Side -> Quote) s s' q : s' <> s -> put f s q s' = f s'.
Proof. intros. unfold put. by rewrite decide_False. Qed.

(** Another quote of one side, filled for [f] lots. *)
Lemma filled_ok st side q' f a' : inv_ok st -> quote_ok size q' -> 0 <= f -> exposure size q' + f <= exposure size (quote st side) -> account size a' ->
  held side a' = held side (acc st) + f -> held (opposite side) a' = held (opposite side) (acc st) - f ->
  inv_ok (set_acc (set_quotes st (put (quote st) side q')) a').
Proof.
  intros [Hq _ Hp Ha] Hq' Hf He Hacc H1 H2. split; cbn; [|done| |done].
  - intros s. unfold put. by case_decide.
  - intros s. unfold put. pose proof (Hp side). pose proof (Hp s). case_decide as E; [subst s; lia|].
    assert (s = opposite side) as -> by (by destruct s, side). lia.
Qed.

Lemma trade_inv st r st' : inv_ok st -> in_u64 (Md.trade_qty r) -> trade cfg st r = Some st' -> inv_ok st'.
Proof.
  intros Hi Hr Ht. unfold trade in Ht. set (side := if Md.buyer_is_maker r then Buy else Sell) in *.
  destruct (on_trade_ok size Hsize (quote st side) side (Md.trade_px r) (Md.trade_qty r) (fill_model cfg) (io_quote _ Hi side) Hr)
    as (q' & f & Hot & Hf & Hq' & He & _). rewrite Hot in Ht. cbn [mbind option_bind] in Ht. apply bind_Some in Ht as (a' & Ha & Ht). injection Ht as <-.
  pose proof (resting_bounds size Hsize _ (io_quote _ Hi side)). assert (0 <= f <= size) as Hfs by lia. destruct (record_fill_account _ _ _ _ _ _ _ _ Hfs (io_account _ Hi) Ha) as (H1 & H2 & H3).
  apply (filled_ok st side q' f); try done; lia.
Qed.

Lemma run_over_inv time side st st' : inv_ok st -> run_over cfg time side st = Some st' -> inv_ok st'.
Proof.
  intros Hi Hr. unfold run_over in Hr. destruct (active (quote st side)) eqn:Hact; [|by injection Hr as <-]. cbn [negb] in Hr.
  apply bind_Some in Hr as (hit & _ & Hr). destruct hit; [|by injection Hr as <-]. cbn [negb] in Hr. apply bind_Some in Hr as (a' & Ha & Hr). injection Hr as <-.
  pose proof (io_quote _ Hi side) as [Hq1 Hq2 Hq3].
  destruct (record_fill_account _ _ _ _ _ _ _ _ Hq1 (io_account _ Hi) Ha) as (H1 & H2 & H3).
  apply (filled_ok st side _ (remaining (quote st side))); try done; [|lia|].
  - split; cbn; [lia|done|done].
  - unfold exposure, resting, coming. cbn. rewrite Hact. lia.
Qed.

Lemma settle_inv m time side q n q' n' : arrays_ok m -> quote_ok size q -> settle cfg m time side q n = Some (q', n') ->
  quote_ok size q' /\ exposure size q' <= exposure size q.
Proof.
  intros Hm Hq Hs. unfold settle in Hs. destruct (negb (has_pending q) || _) eqn:Hp; [by injection Hs as <- <-|]. apply orb_false_iff in Hp as [Hp%negb_false_iff _].
  pose proof (resting_bounds size Hsize q Hq). destruct Hq as [Hq1 Hq2 Hq3]. apply bind_Some in Hs as ([q1 n1] & H1 & Hs). injection Hs as <- _. cbn [pend_px] in H1.
  unfold exposure, coming at 2. rewrite Hp. destruct (pend_px q) as [p|].
  - apply bind_Some in H1 as (c & _ & H1). destruct c.
    + injection H1 as <- _. split; [by split|]. unfold resting at 1. unfold coming. cbn. lia.
    + apply bind_Some in H1 as (l & Hl & H1). injection H1 as <- _. apply qty_at_u64 in Hl; [|done]. destruct (of_int_u64 l Hl) as [Nl _].
      split; [split; cbn; [lia|done|right; by eexists]|]. unfold resting at 1. unfold coming. cbn. lia.
  - injection H1 as <- _. split; [by split|]. unfold resting at 1. unfold coming. cbn. lia.
Qed.

(** Other quotes, none of them for more. *)
Lemma quotes_ok st m f n v ms c s : inv_ok st -> arrays_ok m -> (forall side, quote_ok size (f side) /\ exposure size (f side) <= exposure size (quote st side)) ->
  inv_ok (mkSim m f (acc st) n v ms c s).
Proof. intros [Hq Ha Hp _] Hm Hf. split; cbn; [intros s'; apply Hf|done| |done]. intros s'. specialize (Hp s'). destruct (Hf s'). lia. Qed.

Lemma put_both (P : Side -> Quote -> Prop) f qb qa : P Buy qb -> P Sell qa -> forall s, P s (put (put f Buy qb) Sell qa s).
Proof. intros Hb Ha []; [rewrite put_ne by done|]; by rewrite put_eq. Qed.

Lemma process_pending_inv st time st' : inv_ok st -> process_pending cfg st time = Some st' -> inv_ok st'.
Proof.
  intros Hi Hp. unfold process_pending in Hp. apply bind_Some in Hp as ([b n] & Hb & Hp). apply bind_Some in Hp as ([a' n'] & Ha & Hp). injection Hp as <-.
  apply quotes_ok; [done|apply Hi|]. apply (put_both (fun side q => quote_ok size q /\ exposure size q <= exposure size (quote st side))).
  - by apply (settle_inv _ _ _ _ _ _ _ (io_arrays _ Hi) (io_quote _ Hi Buy) Hb).
  - by apply (settle_inv _ _ _ _ _ _ _ (io_arrays _ Hi) (io_quote _ Hi Sell) Ha).
Qed.

(** *** A book update *)

Lemma shown_ok m side q x : arrays_ok m -> shown m side q = Some x -> nonneg x /\ bounded_by 64 x.
Proof.
  intros Hm Hs. unfold shown in Hs. destruct (active q).
  - apply bind_Some in Hs as (l & Hl & Hs). injection Hs as <-. apply of_int_u64. by eapply qty_at_u64.
  - injection Hs as <-. split; [right; by eexists|]. split; [done|]. cbn. apply Z.pow_nonneg. lia.
Qed.

Lemma level_changed_inv m side before q q' : arrays_ok m -> quote_ok size q -> nonneg before -> bounded_by 64 before ->
  level_changed pow cfg m side before q = Some q' -> quote_ok size q' /\ exposure size q' = exposure size q.
Proof.
  intros Hm Hq Nb Bb Hl. unfold level_changed in Hl. destruct (active q) eqn:Hact; [|by injection Hl as <-].
  apply bind_Some in Hl as (after & Ha & Hl). injection Hl as <-. destruct (shown_ok _ _ _ _ Hm Ha) as [Na Ba].
  destruct (on_level_change_ok size pow Hpow q before after (cancel_power cfg) Hq Nb Bb Na Ba) as (H1 & _ & H2 & _). done.
Qed.

Lemma update_mirror_arrays buf recs snaps r m m' b : bytes buf -> update_mirror buf recs snaps r m = Some (m', b) -> arrays_ok m -> arrays_ok m'.
Proof.
  intros Hb Hu Hm. unfold update_mirror in Hu. apply bind_Some in Hu as (m1 & H1 & Hu). apply bind_Some in Hu as (o & _ & Hu).
  apply apply_arrays in H1; [|done..]. destruct o as [snap|]; [|by injection Hu as <- _]. apply bind_Some in Hu as (again & _ & Hu).
  destruct again; [|by injection Hu as <- _]. apply bind_Some in Hu as (m2 & H2 & Hu). injection Hu as <- _. by eapply seed_arrays.
Qed.

Lemma requote_inv time want q q' : quote_ok size q -> requote cfg time want q = Some q' ->
  quote_ok size q' /\ (want = None -> exposure size q' <= exposure size q) /\ resting q' = resting q.
Proof.
  intros Hq Hr. unfold requote in Hr. destruct (decide (want = current q)); [by injection Hr as <-|].
  apply bind_Some in Hr as (small & Hs & Hr). destruct small; [by injection Hr as <-|]. injection Hr as <-.
  pose proof (coming_bounds size Hsize q). destruct Hq as [H1 H2 H3]. split_and!; [by destruct (has_pending q); split| |by destruct (has_pending q)].
  intros ->. unfold exposure, resting, coming. destruct (has_pending q), (pend_px q); cbn; lia.
Qed.

Lemma desired_inv mid bb ba u v wb wa : desired log1p cfg mid bb ba u v = Some (wb, wa) ->
  (dlt u (max_inventory_units cfg) = false -> wb = None) /\ (dlt (SFopp (max_inventory_units cfg)) u = false -> wa = None).
Proof.
  unfold desired. intros Hd. apply bind_Some in Hd as ([b a] & _ & Hd). apply bind_Some in Hd as (below & _ & Hd). apply bind_Some in Hd as (above & _ & Hd).
  injection Hd as <- <-. split; by intros ->.
Qed.

(** A decision may add to a position that is below [L], and only then. *)
Lemma decided_position side st want q' time : inv_ok st -> requote cfg time want (quote st side) = Some q' ->
  (L <= held side (acc st) -> want = None) -> held side (acc st) + exposure size q' < L + 2 * size.
Proof.
  intros Hi Hr Hw. destruct (requote_inv _ _ _ _ (io_quote _ Hi side) Hr) as (Hq' & Hnone & _).
  pose proof (exposure_bounds size Hsize _ Hq'). pose proof (io_position _ Hi side). destruct (Z.lt_ge_cases (held side (acc st)) L) as [|Hge]; [lia|].
  specialize (Hnone (Hw Hge)). lia.
Qed.

Lemma decide_quotes_inv time mid st st' : inv_ok st -> decide_quotes log1p cfg time mid st = Some st' -> inv_ok st'.
Proof.
  intros Hi Hd. unfold decide_quotes in Hd. destruct (time <? _); [by injection Hd as <-|].
  apply bind_Some in Hd as (bb & _ & Hd). apply bind_Some in Hd as (ba & _ & Hd). apply bind_Some in Hd as ([wb wa] & Hw & Hd).
  apply bind_Some in Hd as (qb & Hb & Hd). apply bind_Some in Hd as (qa & Ha & Hd). destruct (sample _ _ _ _ _ _) as [c s]. injection Hd as <-.
  apply desired_inv in Hw as [Hwb Hwa]. pose proof (held_bounds _ Hi) as Hbd.
  assert (held Buy (acc st) + exposure size qb < L + 2 * size) as Pb.
  { apply (decided_position Buy _ _ _ _ Hi Hb). intros Hge. apply Hwb. apply (Hcap (inv (acc st))). simpl in Hge. lia. }
  assert (held Sell (acc st) + exposure size qa < L + 2 * size) as Pa.
  { apply (decided_position Sell _ _ _ _ Hi Ha). intros Hge. apply Hwa. simpl in Hge. destruct (Hcap (- inv (acc st))) as [_ Hc]; [lia|]. by rewrite Z.opp_involutive in Hc. }
  apply requote_inv in Hb as [Qb _]; [|apply Hi]. apply requote_inv in Ha as [Qa _]; [|apply Hi].
  split; cbn; [|apply Hi| |apply Hi].
  - by apply (put_both (fun _ q => quote_ok size q)).
  - by apply (put_both (fun s q => held s (acc st) + exposure size q < L + 2 * size)).
Qed.

Lemma book_update_inv buf recs snaps st r st' : bytes buf -> inv_ok st -> book_update pow log1p exp buf recs snaps cfg st r = Some st' -> inv_ok st'.
Proof.
  intros Hb Hi Hu. unfold book_update in Hu. apply bind_Some in Hu as (xb & Hxb & Hu). apply bind_Some in Hu as (xa & Hxa & Hu).
  apply bind_Some in Hu as ([m re] & Hm & Hu). apply bind_Some in Hu as (qb & Hqb & Hu). apply bind_Some in Hu as (qa & Hqa & Hu).
  apply update_mirror_arrays in Hm; [|done|apply Hi]. destruct (shown_ok _ _ _ _ (io_arrays _ Hi) Hxb), (shown_ok _ _ _ _ (io_arrays _ Hi) Hxa).
  apply level_changed_inv in Hqb as [Q1 E1]; [|done|apply Hi|done..]. apply level_changed_inv in Hqa as [Q2 E2]; [|done|apply Hi|done..].
  apply bind_Some in Hu as (st1 & R1 & Hu). apply bind_Some in Hu as (st2 & R2 & Hu). apply bind_Some in Hu as (mid & _ & Hu).
  apply decide_quotes_inv in Hu; [done|]. apply run_over_inv in R1; [|].
  - apply run_over_inv in R2 as [I1 I2 I3 I4]; [|done]. by split.
  - apply quotes_ok; [done|done|]. apply (put_both (fun s q => quote_ok size q /\ exposure size q <= exposure size (quote st s))); (split; [done|lia]).
Qed.

(** ** The loop *)

Lemma on_record_inv buf recs snaps st r st' stop : bytes buf -> in_u64 (Md.trade_qty r) -> inv_ok st ->
  on_record pow log1p exp buf recs snaps cfg st r = Some (st', stop) -> inv_ok st'.
Proof.
  intros Hb Hr Hi Ho. unfold on_record in Ho. destruct (bool_decide _); [by injection Ho as <- _|].
  set (st1 := begin_clock st r) in Ho. assert (inv_ok st1) as Hi1 by (unfold st1, begin_clock; destruct (_ && _); [by destruct Hi; split|done]). clearbody st1.
  destruct (_ =? 0); [by injection Ho as <- _|]. apply bind_Some in Ho as (st2 & H2 & Ho). apply process_pending_inv in H2; [|done].
  destruct (bool_decide _).
  - apply bind_Some in Ho as (st3 & H3 & Ho). injection Ho as <- _. exact (trade_inv _ _ _ H2 Hr H3).
  - destruct (_ && _); [by injection Ho as <- _|]. apply bind_Some in Ho as (st3 & H3 & Ho). injection Ho as <- _. exact (book_update_inv _ _ _ _ _ _ Hb H2 H3).
Qed.

Lemma loop_inv buf recs snaps rest : bytes buf -> Forall (fun r => in_u64 (Md.trade_qty r)) rest -> forall st st' stop, inv_ok st ->
  loop pow log1p exp buf recs snaps cfg st rest = Some (st', stop) -> inv_ok st'.
Proof.
  intros Hb. induction 1 as [|r rest Hr _ IH]; intros st st' stop Hi Hl; [by injection Hl as <- _|]. cbn [loop] in Hl.
  apply bind_Some in Hl as ([st1 b] & H1 & Hl). apply on_record_inv in H1; [|done..]. destruct b; [by injection Hl as <- _|]. by eapply IH.
Qed.

Lemma start_inv m : arrays_ok m -> inv_ok (start cfg m).
Proof.
  intros Hm. split; [|split; try done; constructor| |done].
  - intros s. split; cbn; [lia|right; by eexists..].
  - intros s. unfold exposure, resting, coming. cbn. destruct s; simpl; lia.
Qed.
End sim.
End MmSimLaws.
