(* ===== verification/MmRuns.v ===== *)
(** * The simulation runs to its result (mm_sim.hpp)

    [position_bounded]: whatever it returns is a true account within the position limit. [simulation_runs]: on a capture that
    tells the truth about a market that stays within the depth of its snapshots, the simulation of the strategy that joins
    the touch has a result: no empty best price is read, no conversion or sum overflows. *)
From Stdlib Require Import Sorted Floats.SpecFloat.
From S2P Require Import Prelude Bytes Common Rng Doubles Interfaces PriceBitmap OrderStore OrderIndex ReferenceBook OrderBook BookRefine BookEquiv.
From S2P Require Import Engine Md BookApi Mirror MirrorLaws MdReplay MdReplayLaws Mm MmSim MmLaws MmSimLaws.
Import BookRefine BookEquiv.
Import Rng (double, of_int, lit, dlt).
Import (hints) PriceBitmap HybridStore HybridLaws OrderIndex.

Module MmRuns.
Import MirrorLaws MdReplayLaws Mm MmSim Doubles MmLaws MmSimLaws.

Section runs.
Context {Bk : Type} `{BookApiLaws Bk}.
Context (pow : double -> double -> double) (log1p exp : double -> double).
Implicit Types (m : BookMirror.t Bk) (st : MmSim.t (Bk := Bk)).

Definition horizon m (s : Side) : Z := match s with Buy => BookMirror.bid_horizon_ m | Sell => BookMirror.ask_horizon_ m end.

(** A seed takes its horizons from the deepest levels of the snapshot. *)
Lemma seed_horizon buf snap (us : Side -> list Md.LevelUpdate) m m' : record_levels buf snap us -> (forall s, us s <> []) ->
  BookMirror.seed buf snap m = Some m' -> forall s u, last (us s) = Some u -> horizon m' s = Md.px u.
Proof.
  intros (Hnb & Hna & Hb & Ha) Hne Hs. unfold BookMirror.seed in Hs. apply bind_Some in Hs as (m1 & _ & Hs). apply bind_Some in Hs as (m2 & _ & Hs).
  apply bind_Some in Hs as (m3 & _ & Hs). apply bind_Some in Hs as (bh & Hbh & Hs). apply bind_Some in Hs as (ah & Hah & Hs).
  do 2 (apply bind_Some in Hs as (? & _ & Hs)). injection Hs as <-.
  destruct (deepest _ _ _ Hnb Hb) as [[_ E]|(Nb & u1 & x1 & _ & L1 & _ & G1)]; [by destruct (Hne Buy)|].
  destruct (deepest _ _ _ Hna Ha) as [[_ E]|(Na & u2 & x2 & _ & L2 & _ & G2)]; [by destruct (Hne Sell)|].
  rewrite (proj2 (Z.eqb_neq _ _) Nb), G1 in Hbh. rewrite (proj2 (Z.eqb_neq _ _) Na), G2 in Hah. injection Hbh as <-. injection Hah as <-.
  intros [] u Hu; cbn; congruence.
Qed.

(** ** A capture whose market stays in sight *)

Context (buf : list Z) (lo : Z) (M : Z -> sides) (recs : list Md.Record_).
Hypothesis Hho : honest buf lo 0 M recs.

(** Whatever snapshot the mirror was seeded from, the market after any diff has a level no deeper. *)
Definition in_sight : Prop := forall sn df (us : Side -> list Md.LevelUpdate) s u, sn ∈ recs -> Md.kind sn = Md.Snapshot -> df ∈ recs -> Md.kind df = Md.Diff ->
  record_levels buf sn us -> last (us s) = Some u ->
  exists p, is_Some (M (Md.last_id df) s !! p) /\ lo <= p < lo + 524288 /\ RB.le_side s p (Md.px u).
Hypothesis Hsight : in_sight.

Context (m0 : BookMirror.t Bk) (Hpl : placed lo m0).

Record sees (i : Z) m : Prop := {
  se_track : on_track m0 m (Some (M i));
  se_horizon : exists sn (us : Side -> list Md.LevelUpdate), sn ∈ recs /\ Md.kind sn = Md.Snapshot /\ record_levels buf sn us /\ (forall s, us s <> []) /\
    forall s u, last (us s) = Some u -> horizon m s = Md.px u;
}.

Lemma seed_sees r o m : r ∈ recs -> Md.kind r = Md.Snapshot -> on_track m0 m o -> exists m', BookMirror.seed buf r m = Some m' /\ sees (Md.last_id r) m'.
Proof.
  intros Hr Hk Hot. destruct (seed_good buf lo 0 M recs Hho m0 Hpl r o m Hr Hk Hot) as (m' & Hm & Hot'). exists m'. split; [done|]. split; [done|].
  pose proof (proj1 (Forall_forall _ _) (ho_records _ _ _ _ _ Hho) r Hr) as Ht. unfold truthful in Ht. rewrite Hk in Ht.
  destruct Ht as (us & Hrec & _ & _ & _ & Hne & _). exists r, us. split_and!; try done. by eapply seed_horizon.
Qed.

Lemma diff_sees r i m : r ∈ recs -> Md.kind r = Md.Diff -> sees i m -> Md.first_id r - 1 <= i <= Md.last_id r ->
  exists m', BookMirror.apply buf r 0 m = Some m' /\ sees (Md.last_id r) m'.
Proof.
  intros Hr Hk [Hot (sn & us & H1 & H2 & H3 & H4 & H5)] Hi. destruct (diff_tracks buf lo 0 M recs Hho m0 Hpl r m i Hr Hk Hot Hi) as (m' & Hm & Hot' & Hsh).
  exists m'. split; [done|]. split; [done|]. exists sn, us. split_and!; try done. intros s u Hu. rewrite <- (H5 s u Hu).
  destruct Hsh as (_ & _ & _ & E4 & E5 & _). by destruct s.
Qed.

(** Both best prices are there, in the band, and not crossed. *)
Lemma best_prices m df : df ∈ recs -> Md.kind df = Md.Diff -> sees (Md.last_id df) m -> exists bb ba,
  ba_best_bid (BookMirror.book_ m) = Some bb /\ ba_best_ask (BookMirror.book_ m) = Some ba /\ lo - 524288 <= bb < lo + 1048576 /\ lo - 524288 <= ba < lo + 1048576.
Proof.
  intros Hd Hk [Hot (sn & us & Hsn & Hsk & Hrec & Hne & Hhz)]. destruct (track_view _ _ _ Hot) as (C & Hh & [_ Hm] & _).
  destruct (hd_book _ _ Hh) as (r & Hr & Hs). pose proof (ba_rep_wf _ _ Hr) as Hw. destruct (ot_band _ _ _ Hot) as (E1 & E2 & _). destruct Hpl as [_ Hlo Hn _].
  assert (forall s, exists p, fst <$> head (RB.book r s) = Some p /\ lo - 524288 <= p < lo + 1048576) as Hbest.
  { intros s. destruct (last (us s)) as [u|] eqn:Hu; [|by apply last_None in Hu; destruct (Hne s)].
    destruct (Hsight sn df us s u Hsn Hsk Hd Hk Hrec Hu) as (p & Hp & Hwin & Hle).
    assert (in_band m p) as Hb by (unfold in_band; lia). assert (within m s p) as Hwi.
    { specialize (Hhz s u Hu). unfold within, BookMirror.beyond, horizon in *. destruct s; simpl in *; lia. }
    rewrite <- (Hm s p Hb Hwi) in Hp. apply (shows_prices m r C s p Hw Hs) in Hp.
    destruct (RB.book r s) as [|[p0 q0] l] eqn:Hbk; [by apply elem_of_nil in Hp|]. exists p0. split; [done|].
    assert (p0 ∈ RB.prices (RB.book r s)) as Hin by (rewrite Hbk; unfold RB.prices; simpl; set_solver).
    apply (RB.wf_band r Hw) in Hin. rewrite (sh_min _ _ _ Hs), (sh_max _ _ _ Hs) in Hin. lia. }
  rewrite (ba_rep_bid _ _ Hr), (ba_rep_ask _ _ Hr). destruct (Hbest Buy) as (bb & Hbb & ?), (Hbest Sell) as (ba & Hba & ?). by exists bb, ba.
Qed.

(** A quantity at any price near the band. *)
Definition near (p : Z) : Prop := lo - 1048576 <= p < lo + 2097152.
Lemma qty_near i m side p : sees i m -> near p -> exists q, BookMirror.qty_at m side p = Some q.
Proof.
  intros [Hot _] Hp. destruct (track_view _ _ _ Hot) as (C & Hh & Hm & Hsp). destruct (mirrored_ok _ _ _ Hh Hm Hsp) as [_ _ _ Hq _ _].
  destruct (ot_band _ _ _ Hot) as (E1 & _). destruct Hpl as [_ Hlo _ _]. destruct (Hq side p) as (q & Hq' & _); [unfold fits, near in *; lia|eauto].
Qed.

Lemma reseed_total i m : sees i m -> exists b, BookMirror.needs_reseed m = Some b.
Proof.
  intros [Hot _]. destruct (track_view _ _ _ Hot) as (C & Hh & Hm & Hsp). destruct (reseed_ok _ _ _ Hh Hm Hsp) as (b & Hb & _). by exists b.
Qed.

Context (snaps : list nat) (Hsnaps : positions Md.Snapshot recs snaps).

Lemma update_mirror_sees r i m : r ∈ recs -> Md.kind r = Md.Diff -> sees i m -> Md.first_id r - 1 <= i <= Md.last_id r ->
  exists m' b, update_mirror buf recs snaps r m = Some (m', b) /\ sees (Md.last_id r) m'.
Proof.
  intros Hr Hk Hs Hi. destruct (diff_sees r i m Hr Hk Hs Hi) as (m1 & Hm1 & Hs1). unfold update_mirror. rewrite Hm1. cbn [mbind option_bind].
  destruct (by_id_ok recs snaps Hsnaps (Md.last_id r)) as (rs & Hrs & Hf). unfold snap_by_id. rewrite Hrs. cbn [mbind option_bind].
  destruct (last rs) as [sn|] eqn:Hl; [|by exists m1, false]. destruct (reseed_total _ _ Hs1) as [b Hb]. rewrite Hb. cbn [mbind option_bind].
  destruct b; [|by exists m1, false]. apply last_Some in Hl as [l ->]. apply Forall_app in Hf as [_ Hf]. apply Forall_cons in Hf as [(H1 & H2 & H3) _].
  destruct (seed_sees sn _ m1 H1 H2 (se_track _ _ Hs1)) as (m2 & -> & Hs2). cbn [mbind option_bind]. exists m2, true. by rewrite <- H3.
Qed.

(** ** Nothing in a step is undefined *)

Context (cfg : Config) (L : Z).
Abbreviation size := (size_lots cfg).
Hypothesis Hbuf : bytes buf.
Hypothesis Hsize : 0 < size < 9007199254740992.
Hypothesis Hpow : forall x p, nonneg x -> unsigned (pow x p).
Hypothesis Hcap : capped cfg L.
Hypothesis HL : 0 < L + 2 * size <= 4611686018427387904.
Hypothesis Hjoin : strategy cfg = JoinTouch.
Hypothesis Hlo : -1125899906842624 <= lo < 1125899906842624.
Hypothesis Htrades : Forall (fun r => in_u64 (Md.trade_qty r)) recs.

Definition two_sided m : Prop := exists bb ba, ba_best_bid (BookMirror.book_ m) = Some bb /\ ba_best_ask (BookMirror.book_ m) = Some ba /\
  lo - 524288 <= bb < lo + 1048576 /\ lo - 524288 <= ba < lo + 1048576.

Record near_quote (q : Quote) : Prop := {
  nq_px : active q = true -> near (px q);
  nq_pend p : pend_px q = Some p -> near p;
}.
(** The simulation beside a mirror of the market after update [i]. *)
Record ready (i : Z) st : Prop := {
  rd_inv : inv_ok cfg L st;
  rd_sees : sees i (mirror st);
  rd_near s : near_quote (quote st s);
}.

Lemma mid_total m : two_sided m -> exists mid, mid_now m = Some mid.
Proof.
  intros (bb & ba & Hb & Ha & H1 & H2). unfold mid_now. rewrite Hb, Ha. cbn [mbind option_bind]. unfold BookMirror.add_price.
  rewrite (proj2 (Z.leb_le _ _)), (proj2 (Z.ltb_lt _ _)) by lia. cbn. eauto.
Qed.
Lemma crossing_total m side p : two_sided m -> exists b, crossing m side p = Some b.
Proof. intros (bb & ba & Hb & Ha & _). unfold crossing. destruct side; [rewrite Ha|rewrite Hb]; cbn; eauto. Qed.

Lemma record_fill_total m side p qty time live a : two_sided m -> 0 <= qty <= size -> - (L + 2 * size) < inv a < L + 2 * size ->
  exists a', record_fill cfg m side p qty time live a = Some a'.
Proof.
  intros Hm Hq Hi. unfold record_fill. destruct (qty =? 0); [eauto|]. rewrite i64_small by (unfold in_i64; lia).
  assert (exists c, (match side with Buy => Some qty | Sell => sub_price 0 qty end) = Some c /\ - size <= c <= size) as (c & -> & Hc).
  { destruct side; [exists qty; split; [done|lia]|]. rewrite sub_price_ok by (unfold in_i64; lia). eexists. split; [done|lia]. }
  cbn [mbind option_bind]. unfold BookMirror.add_price. rewrite (proj2 (Z.leb_le _ _)), (proj2 (Z.ltb_lt _ _)) by lia. cbn [andb mbind option_bind].
  destruct (mid_total m Hm) as [mid ->]. cbn [mbind option_bind]. eauto.
Qed.

(** A quote of one side and the account, after a fill. *)
Lemma fill_ready i st side q' a' f : ready i st -> near_quote q' -> inv_ok cfg L (set_acc (set_quotes st (f side q')) a') ->
  f = (fun s q => put (quote st) s q) -> ready i (set_acc (set_quotes st (put (quote st) side q')) a').
Proof.
  intros [H1 H2 H3] Hq Hi ->. split; [done|done|]. intros s. cbn. unfold put. by case_decide.
Qed.

Lemma trade_total i st r : ready i st -> two_sided (mirror st) -> in_u64 (Md.trade_qty r) -> exists st', trade cfg st r = Some st' /\ ready i st' /\
  mirror st' = mirror st /\ clock st' = clock st /\ mids st' = mids st.
Proof.
  intros Hr H2 Hq. assert (exists st', trade cfg st r = Some st') as [st' Ht].
  { unfold trade. set (side := if Md.buyer_is_maker r then Buy else Sell).
    destruct (on_trade_ok size Hsize (quote st side) side (Md.trade_px r) (Md.trade_qty r) (fill_model cfg) (io_quote _ _ _ (rd_inv _ _ Hr) side) Hq) as (q' & f & -> & Hf & _).
    cbn [mbind option_bind]. pose proof (resting_bounds size Hsize _ (io_quote _ _ _ (rd_inv _ _ Hr) side)).
    destruct (record_fill_total (mirror st) side (px (quote st side)) f (Md.rx_ns r) (live_since q') (acc st)) as [a' ->];
      [done|lia|exact (held_bounds cfg L Hsize _ (rd_inv _ _ Hr))|]. cbn. eauto. }
  exists st'. split; [done|]. pose proof (trade_inv cfg L Hsize st r st' (rd_inv _ _ Hr) Hq Ht) as Hi. unfold trade in Ht.
  set (side := if Md.buyer_is_maker r then Buy else Sell) in *.
  destruct (on_trade_ok size Hsize (quote st side) side (Md.trade_px r) (Md.trade_qty r) (fill_model cfg) (io_quote _ _ _ (rd_inv _ _ Hr) side) Hq)
    as (q' & f & Hot & _ & _ & _ & Epx & Eact & Epd & _). rewrite Hot in Ht. cbn [mbind option_bind] in Ht. apply bind_Some in Ht as (a' & _ & Ht). injection Ht as <-.
  split; [|done]. eapply fill_ready; [done| |exact Hi|reflexivity]. destruct (rd_near _ _ Hr side) as [N1 N2]. split; [rewrite Epx; auto|by rewrite Epd].
Qed.

Lemma run_over_total i time side st : ready i st -> two_sided (mirror st) -> exists st', run_over cfg time side st = Some st' /\ ready i st' /\
  mirror st' = mirror st /\ clock st' = clock st /\ mids st' = mids st.
Proof.
  intros Hr H2. assert (exists st', run_over cfg time side st = Some st') as [st' Ht].
  { unfold run_over. destruct (negb (active (quote st side))); [eauto|]. destruct (crossing_total (mirror st) side (px (quote st side)) H2) as [b ->]. cbn [mbind option_bind].
    destruct (negb b); [eauto|]. pose proof (qo_remaining _ _ (io_quote _ _ _ (rd_inv _ _ Hr) side)) as Hq.
    destruct (record_fill_total (mirror st) side (px (quote st side)) (remaining (quote st side)) time (live_since (quote st side)) (acc st)) as [a' ->];
      [done|done|exact (held_bounds cfg L Hsize _ (rd_inv _ _ Hr))|]. cbn. eauto. }
  exists st'. split; [done|]. pose proof (run_over_inv cfg L Hsize time side st st' (rd_inv _ _ Hr) Ht) as Hi. unfold run_over in Ht.
  destruct (negb (active (quote st side))); [by injection Ht as <-|]. apply bind_Some in Ht as (b & _ & Ht). destruct (negb b); [by injection Ht as <-|].
  apply bind_Some in Ht as (a' & _ & Ht). injection Ht as <-. split; [|done]. eapply fill_ready; [done| |exact Hi|reflexivity].
  destruct (rd_near _ _ Hr side) as [N1 N2]. by split.
Qed.

Lemma settle_total i m time side q n : sees i m -> quote_ok size q -> near_quote q -> (has_pending q = true -> two_sided m) ->
  exists q' n', settle cfg m time side q n = Some (q', n') /\ near_quote q'.
Proof.
  intros Hs Hq [N1 N2] H2. unfold settle. destruct (negb (has_pending q) || (time <? eff q)) eqn:Hp; [exists q, n; split; [done|by split]|].
  apply orb_false_iff in Hp as [Hp%negb_false_iff _]. specialize (H2 Hp). cbn [pend_px]. destruct (pend_px q) as [p|] eqn:Ep.
  - destruct (crossing_total m side p H2) as [b ->]. cbn [mbind option_bind]. destruct b.
    + cbn. eexists _, _. split; [done|]. by split.
    + destruct (qty_near i m side p Hs (N2 p eq_refl)) as [x ->]. cbn. eexists _, _. split; [done|]. split; [intros _; by apply N2|done].
  - cbn. eexists _, _. split; [done|]. by split.
Qed.

Lemma process_pending_total i st time : ready i st -> (forall s, has_pending (quote st s) = true -> two_sided (mirror st)) ->
  exists st', process_pending cfg st time = Some st' /\ ready i st' /\ mirror st' = mirror st /\ clock st' = clock st /\ mids st' = mids st.
Proof.
  intros Hr H2. assert (exists b na q a, settle cfg (mirror st) time Buy (quote st Buy) (counts st) = Some (b, na) /\ near_quote b /\
    settle cfg (mirror st) time Sell (quote st Sell) na = Some (q, a) /\ near_quote q) as (b & na & q & n' & E1 & N1 & E2 & N2).
  { destruct (settle_total i (mirror st) time Buy (quote st Buy) (counts st)) as (b & na & E1 & N1); [apply Hr|apply (io_quote _ _ _ (rd_inv _ _ Hr))|apply Hr|apply H2|].
    destruct (settle_total i (mirror st) time Sell (quote st Sell) na) as (q & n' & E2 & N2); [apply Hr|apply (io_quote _ _ _ (rd_inv _ _ Hr))|apply Hr|apply H2|]. by exists b, na, q, n'. }
  assert (process_pending cfg st time = Some (mkSim (mirror st) (put (put (quote st) Buy b) Sell q) (acc st) n' (vol st) (mids st) (clock st) (stats st))) as E.
  { unfold process_pending. rewrite E1. cbn [mbind option_bind]. rewrite E2. done. }
  eexists. split; [exact E|]. split; [|done]. split; [exact (process_pending_inv cfg L Hsize _ _ _ (rd_inv _ _ Hr) E)|apply Hr|].
  by apply (put_both (fun _ q => near_quote q)).
Qed.

(** *** A decision *)

Lemma to_i64_of_int p : near p -> to_i64 (dtrunc (of_int p)) = Some p.
Proof.
  intros Hp. unfold near in Hp. destruct (of_int_small p) as (_ & _ & _ & ->); [lia|]. cbn [to_i64 mbind option_bind].
  by rewrite (proj2 (Z.leb_le _ _)), (proj2 (Z.ltb_lt _ _)) by lia.
Qed.

Lemma desired_total mid bb ba u v : lo - 524288 <= bb < lo + 1048576 -> lo - 524288 <= ba < lo + 1048576 ->
  exists wb wa, desired log1p cfg mid bb ba u v = Some (wb, wa) /\ (forall p, wb = Some p -> near p) /\ (forall p, wa = Some p -> near p).
Proof.
  intros H1 H2. unfold desired, target. rewrite Hjoin. cbn [mbind option_bind]. rewrite !to_i64_of_int by (unfold near; lia). cbn [mbind option_bind].
  rewrite sub_price_ok by (unfold in_i64; lia). unfold BookMirror.add_price. rewrite (proj2 (Z.leb_le _ _)), (proj2 (Z.ltb_lt _ _)) by lia.
  cbn [andb mbind option_bind]. eexists _, _. split; [done|]. split; intros p Hp; case_match; try done; injection Hp as <-; unfold near; lia.
Qed.

Lemma requote_total time want q : (forall p, want = Some p -> near p) -> near_quote q -> exists q', requote cfg time want q = Some q' /\ near_quote q'.
Proof.
  intros Hw [N1 N2]. unfold requote. destruct (decide (want = current q)); [exists q; split; [done|by split]|].
  assert (forall p, current q = Some p -> near p) as Hc.
  { intros p Hp. unfold current in Hp. destruct (has_pending q); [by apply N2|]. destruct (active q); [|done]. injection Hp as <-. by apply N1. }
  match goal with |- context [mbind _ ?s] => assert (exists b, s = Some b) as [b ->] end.
  { destruct want as [w|], (current q) as [c|]; try by eexists. specialize (Hw w eq_refl). specialize (Hc c eq_refl). unfold near in *. unfold distance.
    rewrite sub_price_ok by (unfold in_i64; lia). cbn [mbind option_bind]. destruct (_ <? 0); [|cbn; eauto]. rewrite sub_price_ok by (unfold in_i64; lia). cbn. eauto. }
  cbn [mbind option_bind]. destruct b; [exists q; split; [done|by split]|]. eexists. split; [done|]. destruct (has_pending q); by split.
Qed.

Lemma decide_quotes_total i time mid st : ready i st -> two_sided (mirror st) -> exists st', decide_quotes log1p cfg time mid st = Some st' /\ ready i st' /\
  mirror st' = mirror st /\ prev_last (clock st') = prev_last (clock st) /\ have_prev (clock st') = have_prev (clock st) /\ t_start (clock st') = t_start (clock st) /\
  mids st' = mids st.
Proof.
  intros Hr (bb & ba & Hb & Ha & H1 & H2). assert (exists st', decide_quotes log1p cfg time mid st = Some st' /\ (forall s, near_quote (quote st' s)) /\
    mirror st' = mirror st /\ prev_last (clock st') = prev_last (clock st) /\ have_prev (clock st') = have_prev (clock st) /\ t_start (clock st') = t_start (clock st) /\
    mids st' = mids st) as (st' & Hd & Hn & Hm & E).
  { unfold decide_quotes. destruct (time <? _); [exists st; split; [done|]; by split; [apply Hr|]|]. rewrite Hb, Ha. cbn [mbind option_bind].
    destruct (desired_total mid bb ba (inv_units cfg (acc st)) (variance_rate (vol st)) H1 H2) as (wb & wa & -> & Wb & Wa). cbn [mbind option_bind].
    destruct (requote_total time wb (quote st Buy) Wb (rd_near _ _ Hr Buy)) as (qb & -> & Nb), (requote_total time wa (quote st Sell) Wa (rd_near _ _ Hr Sell)) as (qa & -> & Na).
    cbn [mbind option_bind]. destruct (sample _ _ _ _ _ _) as [c s] eqn:Es. eexists. split; [done|]. cbn. split; [by apply (put_both (fun _ q => near_quote q))|].
    split; [done|]. unfold sample in Es. destruct (time <? _); injection Es as <- _; by cbn. }
  exists st'. split; [done|]. split; [|by split]. split; [exact (decide_quotes_inv log1p cfg L Hsize Hcap _ _ _ _ (rd_inv _ _ Hr) Hd)| |done]. rewrite Hm. apply Hr.
Qed.

(** *** A book update *)

Lemma shown_total i m side q : sees i m -> near_quote q -> exists x, shown m side q = Some x.
Proof.
  intros Hs [N1 _]. unfold shown. destruct (active q); [|eauto]. destruct (qty_near i m side (px q) Hs (N1 eq_refl)) as [x ->]. cbn. eauto.
Qed.
Lemma level_changed_total i m side before q : sees i m -> near_quote q -> exists q', level_changed pow cfg m side before q = Some q' /\ near_quote q'.
Proof.
  intros Hs Hn. unfold level_changed. destruct (active q) eqn:Ha; [|eauto]. destruct (shown_total i m side q Hs Hn) as [x ->]. cbn [mbind option_bind].
  eexists. split; [done|]. unfold on_level_change. rewrite Ha. cbn [negb]. destruct Hn as [N1 N2]. by split.
Qed.

Lemma book_update_total i st r : ready i st -> r ∈ recs -> Md.kind r = Md.Diff -> Md.first_id r - 1 <= i <= Md.last_id r ->
  exists st' mid, book_update pow log1p exp buf recs snaps cfg st r = Some st' /\ ready (Md.last_id r) st' /\
    prev_last (clock st') = Md.last_id r /\ have_prev (clock st') = true /\ t_start (clock st') = t_start (clock st) /\ mids st' = mids st ++ [(Md.rx_ns r, mid)].
Proof.
  intros Hr Hin Hk Hi. unfold book_update. pose proof (rd_inv _ _ Hr) as Hinv.
  destruct (shown_total i _ Buy _ (rd_sees _ _ Hr) (rd_near _ _ Hr Buy)) as [xb Hxb], (shown_total i _ Sell _ (rd_sees _ _ Hr) (rd_near _ _ Hr Sell)) as [xa Hxa].
  rewrite Hxb, Hxa. cbn [mbind option_bind]. destruct (update_mirror_sees r i (mirror st) Hin Hk (rd_sees _ _ Hr) Hi) as (m & b & Hm & Hs). rewrite Hm. cbn [mbind option_bind].
  destruct (level_changed_total _ m Buy xb _ Hs (rd_near _ _ Hr Buy)) as (qb & Hqb & Nb), (level_changed_total _ m Sell xa _ Hs (rd_near _ _ Hr Sell)) as (qa & Hqa & Na).
  rewrite Hqb, Hqa. cbn [mbind option_bind]. apply update_mirror_arrays in Hm; [|done|apply Hinv].
  destruct (shown_ok _ _ _ _ (io_arrays _ _ _ Hinv) Hxb), (shown_ok _ _ _ _ (io_arrays _ _ _ Hinv) Hxa).
  apply (level_changed_inv pow cfg Hpow) in Hqb as [Q1 E1]; [|done|apply Hinv|done..]. apply (level_changed_inv pow cfg Hpow) in Hqa as [Q2 E2]; [|done|apply Hinv|done..].
  assert (two_sided m) as Htwo by (by apply (best_prices m r)).
  match goal with |- context [run_over cfg _ Buy ?s] => assert (ready (Md.last_id r) s) as R0 end.
  { split; [|done|by apply (put_both (fun _ q => near_quote q))]. apply quotes_ok; [done|done|].
    apply (put_both (fun s q => quote_ok size q /\ exposure size q <= exposure size (quote st s))); (split; [done|lia]). }
  destruct (run_over_total _ (Md.rx_ns r) Buy _ R0 Htwo) as (st1 & -> & R1 & M1 & C1 & D1). cbn [mbind option_bind]. cbn in M1, C1, D1.
  destruct (run_over_total _ (Md.rx_ns r) Sell _ R1) as (st2 & -> & R2 & M2 & C2 & D2); [by rewrite M1|]. cbn [mbind option_bind].
  destruct (mid_total (mirror st2)) as [mid ->]; [by rewrite M2, M1|]. cbn [mbind option_bind].
  match goal with |- context [decide_quotes _ _ _ _ ?s] => assert (ready (Md.last_id r) s) as R3 end.
  { destruct R2 as [[I1 I2 I3 I4] S2 N2]. by split; [split| |]. }
  destruct (decide_quotes_total _ (Md.rx_ns r) mid _ R3) as (st3 & Hst3 & R4 & _ & P1 & P2 & P3 & P4); [cbn; by rewrite M2, M1|].
  exists st3, mid. split; [exact Hst3|]. split; [done|]. rewrite P1, P2, P3, P4. cbn. by rewrite D2, D1, C2, C1.
Qed.

(** *** The loop *)

(** After the first diff: the last one applied is known, and its market is the mirror's. *)
Record going (i : Z) st : Prop := {
  gg_ready : ready i st;
  gg_prev : have_prev (clock st) = true /\ prev_last (clock st) = i /\ t_start (clock st) <> 0;
  gg_diff : exists df, df ∈ recs /\ Md.kind df = Md.Diff /\ Md.last_id df = i;
}.
Lemma going_two_sided i st : going i st -> two_sided (mirror st).
Proof. intros [Hr _ (df & H1 & H2 & <-)]. apply (best_prices _ df); [done|done|apply Hr]. Qed.

Lemma diff_ids r : r ∈ recs -> Md.kind r = Md.Diff -> 0 < Md.first_id r <= Md.last_id r /\ Md.last_id r < 18446744073709551615.
Proof.
  intros Hr Hk. pose proof (proj1 (Forall_forall _ _) (ho_records _ _ _ _ _ Hho) r Hr) as Ht. unfold truthful in Ht. rewrite Hk in Ht.
  by destruct Ht as (us & _ & ? & ? & _).
Qed.

Lemma on_record_total i st r : going i st -> r ∈ recs -> exists st' stop, on_record pow log1p exp buf recs snaps cfg st r = Some (st', stop) /\
  (mids st' = mids st \/ exists mid, mids st' = mids st ++ [(Md.rx_ns r, mid)]) /\ (stop = false -> exists i', going i' st').
Proof.
  intros Hg Hr. pose proof (going_two_sided i st Hg) as H2. pose proof Hg as [Hrd (Hp & Hi & Ht) (df & Hdf & Hdk & Hdi)].
  unfold on_record. destruct (bool_decide_reflect (Md.kind r = Md.Snapshot)) as [Hk|Hk]; [exists st, false; split; [done|]; split; [by left|eauto]|].
  unfold begin_clock. rewrite Hp. cbn [negb andb]. rewrite (proj2 (Z.eqb_neq _ _) Ht).
  destruct (process_pending_total i st (Md.rx_ns r) Hrd ltac:(done)) as (st1 & -> & Hrd1 & M1 & C1 & D1). cbn [mbind option_bind].
  destruct (bool_decide_reflect (Md.kind r = Md.Trade)) as [Hk2|Hk2].
  - destruct (trade_total i st1 r Hrd1) as (st2 & -> & Hrd2 & M2 & C2 & D2); [by rewrite M1|by apply (proj1 (Forall_forall _ _) Htrades)|]. cbn [mbind option_bind].
    exists st2, false. split; [done|]. rewrite D2, D1. split; [by left|]. intros _. exists i. split; [done|by rewrite C2, C1|by exists df].
  - rewrite C1, Hp, Hi. assert (Md.kind r = Md.Diff) as Hk3 by (by destruct (Md.kind r)). pose proof (diff_ids r Hr Hk3) as [Hf Hl].
    pose proof (diff_ids df Hdf Hdk) as [Hf' Hl']. rewrite u64_small by (unfold in_u64; lia). cbn [andb]. destruct (Z.eqb_spec (Md.first_id r) (i + 1)) as [E|E].
    + cbn [negb]. destruct (book_update_total i st1 r Hrd1 Hr Hk3 ltac:(lia)) as (st2 & mid & -> & Hrd2 & P1 & P2 & P3 & D2). cbn [mbind option_bind].
      exists st2, false. split; [done|]. rewrite D2, D1. split; [right; eauto|]. intros _. exists (Md.last_id r). split; [done|by rewrite P3, C1|by exists r].
    + cbn [negb]. exists st1, true. split; [done|]. rewrite D1. split; [by left|done].
Qed.

(** Times of the mids do not decrease, and do not come after what is still to be read. *)
Definition in_time st (rest : list Md.Record_) : Prop :=
  StronglySorted Z.le ((mids st).*1) /\ forall x r, x ∈ mids st -> r ∈ rest -> x.1 <= Md.rx_ns r.

Lemma sorted_snoc (l : list Z) x : StronglySorted Z.le l -> (forall y, y ∈ l -> y <= x) -> StronglySorted Z.le (l ++ [x]).
Proof.
  induction 1 as [|y l Hs IH Hy]; intros Hx; [repeat constructor|]. simpl. constructor; [apply IH; intros; apply Hx; by right|].
  apply Forall_app. split; [done|]. constructor; [apply Hx; by left|constructor].
Qed.

Lemma in_time_step st st' r rest : in_time st (r :: rest) -> StronglySorted Z.le (Md.rx_ns <$> r :: rest) ->
  mids st' = mids st \/ (exists mid, mids st' = mids st ++ [(Md.rx_ns r, mid)]) -> in_time st' rest.
Proof.
  intros [H1 H2] Hs Hm. rewrite fmap_cons in Hs. apply StronglySorted_inv in Hs as [_ Hs]. rewrite Forall_forall in Hs.
  destruct Hm as [E|[mid E]]; unfold in_time; rewrite E; (split; [|intros x r' Hx Hr']).
  - done.
  - apply H2; [done|by right].
  - rewrite fmap_app. apply sorted_snoc; [done|]. intros y (x & -> & Hx)%list_elem_of_fmap. apply H2; [done|by left].
  - apply elem_of_app in Hx as [Hx|Hx%list_elem_of_singleton]; [apply H2; [done|by right]|]. subst x. apply Hs. by apply list_elem_of_fmap_2.
Qed.

Lemma loop_total rest : forall i st, going i st -> (forall r, r ∈ rest -> r ∈ recs) -> StronglySorted Z.le (Md.rx_ns <$> rest) -> in_time st rest ->
  exists st' stop, loop pow log1p exp buf recs snaps cfg st rest = Some (st', stop) /\ StronglySorted Z.le ((mids st').*1).
Proof.
  induction rest as [|r rest IH]; intros i st Hg Hin Hs Ht; [exists st, false; split; [done|apply Ht]|]. cbn [loop].
  destruct (on_record_total i st r Hg) as (st1 & stop & -> & Hm & Hn); [apply Hin; by left|]. cbn [mbind option_bind]. pose proof (in_time_step _ _ _ _ Ht Hs Hm) as Ht1.
  destruct stop; [exists st1, true; split; [done|apply Ht1]|]. destruct (Hn eq_refl) as [i' Hg']. apply (IH i'); [done|intros; apply Hin; by right| |done].
  rewrite fmap_cons in Hs. by apply StronglySorted_inv in Hs as [? _].
Qed.

(** The first record is the diff of the seed. *)
Lemma first_record_total i m r : arrays_ok m -> sees i m -> r ∈ recs -> Md.kind r = Md.Diff -> Md.first_id r - 1 <= i <= Md.last_id r -> 0 < Md.rx_ns r ->
  exists st mid, on_record pow log1p exp buf recs snaps cfg (start cfg m) r = Some (st, false) /\ going (Md.last_id r) st /\ mids st = [(Md.rx_ns r, mid)].
Proof.
  intros Ha Hs Hr Hk Hi Ht. unfold on_record. rewrite !bool_decide_false by (by rewrite Hk). unfold begin_clock. cbn [clock start have_prev negb andb].
  rewrite bool_decide_true by done. cbn [set_clock clock t_start start]. rewrite (proj2 (Z.eqb_neq _ _)) by lia.
  match goal with |- context [process_pending cfg ?s _] => assert (ready i s) as Hrd end.
  { destruct (start_inv cfg L Hsize ltac:(lia) m Ha) as [I1 I2 I3 I4]. split; [by split|done|]. intros s. by split. }
  destruct (process_pending_total i _ (Md.rx_ns r) Hrd ltac:(done)) as (st1 & -> & Hrd1 & M1 & C1 & D1). cbn [mbind option_bind]. rewrite C1. cbn [have_prev clock andb].
  destruct (book_update_total i st1 r Hrd1 Hr Hk Hi) as (st2 & mid & -> & Hrd2 & P1 & P2 & P3 & D2). cbn [mbind option_bind]. exists st2, mid. split; [done|].
  rewrite D2, D1. split; [|done]. split; [done| |by exists r]. split; [done|]. split; [done|]. rewrite P3, C1. cbn. lia.
Qed.

(** *** The result *)

Lemma lower_bound_total (l : list (Z * double)) v : StronglySorted Z.le (l.*1) -> exists o, lower_bound l v = Some o.
Proof.
  intros Hs. unfold lower_bound. assert (forallb (fun x => v <=? x.1) (not_before v l) = true) as ->; [|eauto].
  induction l as [|x l IH]; [done|]. rewrite fmap_cons in Hs. apply StronglySorted_inv in Hs as [Hs Hx]. cbn [not_before]. destruct (Z.ltb_spec x.1 v); [by apply IH|].
  apply forallb_forall. intros y [<-|Hy]; [lia|]. rewrite Forall_forall in Hx. apply list_elem_of_In in Hy. specialize (Hx y.1 (list_elem_of_fmap_2 fst _ _ Hy)). lia.
Qed.

Lemma finish_total st stop : StronglySorted Z.le ((mids st).*1) -> exists r, finish cfg st stop = Some r /\ final r = st.
Proof.
  intros Hs. unfold finish. assert (forall h fs x, exists y, marks (mids st) h fs x = Some y) as Hm.
  { intros h fs. induction fs as [|f fs IH]; intros [[a b] c]; [eauto|]. cbn [marks]. unfold mark. destruct (lower_bound_total (mids st) (u64 (f_t f + h)) Hs) as [o ->].
    cbn [mbind option_bind]. apply IH. }
  match goal with |- context [mapM ?f ?l] => assert (exists ms, mapM f l = Some ms) as [ms ->] end; [|cbn; eauto].
  unfold horizons. cbn [mapM]. repeat (match goal with |- context [marks ?a ?b ?c ?d] => destruct (Hm b c d) as [? ->] end; cbn [mbind option_bind]). cbn. eauto.
Qed.
End runs.

(** ** The records of a capture *)

Lemma parse_trade buf p len r : bytes buf -> Md.parse buf p len = Some (inr r) -> in_u64 (Md.trade_qty r).
Proof.
  intros Hb. unfold Md.parse. intros Hp. inv_bind. repeat (case_match; simplify_eq; inv_bind).
  all: match goal with C : Md.check _ _ _ = inr _ |- _ => apply MdTheorems.check_ok in C as [_ ->] end; cbn [Md.trade_qty]; try (unfold in_u64; lia).
  match goal with Hv : Md.view _ _ _ = Some ?b, U : unpack ?ws ?b = _ |- _ =>
    apply MdTheorems.view_bytes in Hv as [Hbs Hn]; [|assumption]; pose proof (unpack_bound ws b Hbs ltac:(rewrite Hn; reflexivity || (simpl; lia))) as Hf; rewrite U in Hf; cbn [zip zip_with] in Hf; fields end.
  assumption.
Qed.

Lemma records_trades fuel buf off rs : bytes buf -> Md.load_records fuel buf off = Some (inr rs) -> Forall (fun r => in_u64 (Md.trade_qty r)) rs.
Proof.
  intros Hb. revert off rs. induction fuel as [|fuel IH]; intros off rs Hl; [done|]. cbn [Md.load_records] in Hl. case_match; [simplify_eq; constructor|].
  apply bind_Some in Hl as (b & _ & Hl). case_match; [done|]. apply bind_Some in Hl as ([e|r] & Hp & Hl); [done|]. apply bind_Some in Hl as ([e|rs'] & Hr & Hl); simplify_eq.
  constructor; [by eapply parse_trade|by eapply IH].
Qed.

Lemma load_trades buf rs pd qd : bytes buf -> Md.load buf = Some (inr (rs, pd, qd)) -> Forall (fun r => in_u64 (Md.trade_qty r)) rs.
Proof.
  intros Hb Hl. unfold Md.load in Hl. case_match; [done|]. repeat (case_match; try done). apply bind_Some in Hl as ([e|rs'] & Hrs & Hl); simplify_eq.
  by eapply records_trades.
Qed.

(** What a run leaves is a true account, within the limit. *)
Lemma run_account {Bk} `{BookApi Bk} pow log1p exp buf recs pd qd cfg L r : bytes buf -> Md.load buf = Some (inr (recs, pd, qd)) ->
  (forall x p, nonneg x -> unsigned (pow x p)) -> 0 < size_lots cfg < 9007199254740992 -> 0 < L + 2 * size_lots cfg <= 4611686018427387904 -> capped cfg L ->
  run (Bk := Bk) pow log1p exp buf recs cfg = Some (inr r) ->
  account (size_lots cfg) (acc (final r)) /\ - (L + 2 * size_lots cfg) < inv (acc (final r)) < L + 2 * size_lots cfg.
Proof.
  intros Hb Hl Hpow Hsize HL Hcap Hr. pose proof (load_trades _ _ _ _ Hb Hl) as Htr. unfold run in Hr. destruct (MdReplay.sort_records recs) as [[diffs snaps] trades].
  case_match; [done|]. apply bind_Some in Hr as ([seed|] & _ & Hr); [|done]. apply bind_Some in Hr as (s0 & _ & Hr). apply bind_Some in Hr as (mid & _ & Hr).
  apply bind_Some in Hr as (m1 & _ & Hr). apply bind_Some in Hr as (m & Hm & Hr). apply bind_Some in Hr as ([st stop] & Hloop & Hr). apply bind_Some in Hr as (res & Hf & Hr).
  injection Hr as ->. assert (final r = st) as ->.
  { unfold finish in Hf. apply bind_Some in Hf as (ms & _ & Hf). by injection Hf as <-. }
  apply seed_arrays in Hm; [|done]. apply (loop_inv pow log1p exp cfg L Hsize Hpow Hcap) in Hloop; [|done|by apply Forall_drop|by apply (start_inv cfg L Hsize HL)].
  split; [apply Hloop|]. by apply (held_bounds cfg L Hsize).
Qed.
End MmRuns.

Module MmTheorems.
Import MirrorLaws MdReplayLaws Mm MmSim Doubles MmLaws MmSimLaws MmRuns.

(** C38: whatever the capture, the strategy and its parameters, what a simulation returns is a true account of its fills:
    the inventory is their signed sum, the counters count them, each is for at least one lot and at most a quote; and if the
    strategy stops quoting a side at [L] lots, the inventory never comes to [L] plus two quotes on either side. *)
Theorem position_bounded {Bk} `{BookApi Bk} pow log1p exp buf recs pd qd cfg L r : bytes buf -> Md.load buf = Some (inr (recs, pd, qd)) ->
  (forall x p, nonneg x -> unsigned (pow x p)) -> 0 < size_lots cfg < 9007199254740992 -> 0 < L + 2 * size_lots cfg <= 4611686018427387904 -> capped cfg L ->
  run (Bk := Bk) pow log1p exp buf recs cfg = Some (inr r) ->
  inv (acc (final r)) = position (fill_log (acc (final r))) /\ - (L + 2 * size_lots cfg) < inv (acc (final r)) < L + 2 * size_lots cfg /\
  Forall (fun f => 0 < f_qty f <= size_lots cfg) (fill_log (acc (final r))) /\ fills (acc (final r)) = u64 (alen (fill_log (acc (final r)))) /\
  buys (acc (final r)) = u64 (of_side Buy (fill_log (acc (final r)))) /\ sells (acc (final r)) = u64 (of_side Sell (fill_log (acc (final r)))).
Proof. intros Hb Hl Hp Hs HL Hc Hr. destruct (run_account _ _ _ _ _ _ _ _ _ _ Hb Hl Hp Hs HL Hc Hr) as [[A1 A2 A3 A4 A5] B]. done. Qed.

Lemma run_total {Bk} `{BookApiLaws Bk} pow log1p exp buf lo M recs pd qd cfg L sn df : bytes buf -> Md.load buf = Some (inr (recs, pd, qd)) ->
  honest buf lo 0 M recs -> in_sight buf lo M recs -> -1125899906842624 <= lo < 1125899906842624 ->
  StronglySorted Z.le (Md.rx_ns <$> recs) -> Forall (fun r => 0 < Md.rx_ns r) recs -> ids_monotone recs ->
  sn ∈ recs -> Md.kind sn = Md.Snapshot -> df ∈ recs -> Md.kind df = Md.Diff -> Md.first_id df <= Md.last_id sn + 1 <= Md.last_id df ->
  strategy cfg = JoinTouch -> (forall x p, nonneg x -> unsigned (pow x p)) ->
  0 < size_lots cfg < 9007199254740992 -> 0 < L + 2 * size_lots cfg <= 4611686018427387904 -> capped cfg L ->
  exists r, run (Bk := Bk) pow log1p exp buf recs cfg = Some (inr r).
Proof.
  intros Hbuf Hload Hho Hsight Hlo Hsort Hpos Hmono Hsn Hsk Hdf Hdk Hw Hjoin Hpow Hsize HL Hcap. pose proof (load_trades _ _ _ _ Hbuf Hload) as Htr.
  unfold run. destruct (sort_records_positions recs) as (diffs & snaps & trades & -> & Hd & Hs).
  apply list_elem_of_lookup in Hsn as [s Hsn], Hdf as [d Hdf].
  assert (s ∈ snaps) as Hsin by (apply Hs; by eexists). assert (d ∈ diffs) as Hdin by (apply Hd; by eexists).
  rewrite !bool_decide_eq_false_2 by (intros ->; by eapply not_elem_of_nil). cbn [orb].
  assert (Forall (is_kind Md.Snapshot recs) snaps) as Hfs by (apply Forall_forall; intros i Hi; by apply Hs).
  destruct (snap_at buf lo 0 M recs Hho snaps Hs s sn Hsin Hsn) as (_ & _ & Hid).
  destruct (find_seed_found recs diffs snaps s sn d df Hmono Hd Hfs Hsin Hsn Hdin Hdf) as [[s0 d0] Hseed]; [by rewrite u64_small by (words; lia)|].
  destruct (seed_spec buf lo 0 M recs Hho diffs snaps Hd Hs 0 s0 d0 Hseed) as (sn0 & df0 & Hs0 & Hsin0 & Hsk0 & _ & _ & Hd0 & Hdin0 & Hdk0 & Hw0).
  rewrite Hseed. cbn [mbind option_bind Md.snap_rec Md.diff_rec]. rewrite Hs0. cbn [mbind option_bind].
  pose proof (proj1 (Forall_forall _ _) (ho_records _ _ _ _ _ Hho) sn0 Hsin0) as Ht.
  destruct (MdReplayTheorems.mid_in_window _ _ _ _ _ (ho_lo _ _ _ _ _ Hho) Hsk0 Ht) as (mid & -> & Hmid). cbn [mbind option_bind].
  destruct (MdReplayTheorems.mirror_placed mid lo (ho_lo _ _ _ _ _ Hho) Hmid) as (m0 & -> & Hpl & Hot0). cbn [mbind option_bind].
  destruct (seed_sees buf lo M recs Hho m0 Hpl sn0 _ _ Hsin0 Hsk0 Hot0) as (m1 & Hm1 & Hsees). rewrite Hm1. cbn [mbind option_bind]. apply seed_arrays in Hm1; [|done].
  assert (drop d0 recs = df0 :: drop (Datatypes.S d0) recs) as -> by (by apply drop_S). cbn [loop]. rewrite Forall_forall in Hpos.
  destruct (first_record_total pow log1p exp buf lo M recs Hho Hsight m0 Hpl snaps Hs cfg L Hbuf Hsize Hpow Hcap HL Hjoin Hlo (Md.last_id sn0) m1 df0) as (st & xm & -> & Hg & Hm);
    [done|done|done|done|lia|by apply Hpos|]. cbn [mbind option_bind].
  assert (StronglySorted Z.le (Md.rx_ns <$> df0 :: drop (Datatypes.S d0) recs)) as Hrest.
  { rewrite <- (drop_S _ _ _ Hd0). rewrite fmap_drop. clear -Hsort. revert d0. generalize dependent (Md.rx_ns <$> recs). induction 1 as [|x l Hl IH Hx]; intros [|n]; try constructor; try done. apply IH. }
  rewrite fmap_cons in Hrest. apply StronglySorted_inv in Hrest as [Hrest Hge]. rewrite Forall_forall in Hge.
  destruct (loop_total pow log1p exp buf lo M recs Hho Hsight m0 Hpl snaps Hs cfg L Hbuf Hsize Hpow Hcap HL Hjoin Hlo Htr (drop (Datatypes.S d0) recs) (Md.last_id df0) st)
    as (st' & stop & -> & Hsorted); [done| |done| |].
  { intros r Hr. rewrite <- (take_drop (Datatypes.S d0) recs). set_solver. }
  { split; rewrite Hm; [repeat constructor|]. intros x r Hx%list_elem_of_singleton Hr. subst x. apply Hge. by apply list_elem_of_fmap_2. }
  cbn [mbind option_bind]. destruct (finish_total cfg st' stop Hsorted) as (r & -> & _). cbn. eauto.
Qed.

(** A capture of a market that tells the truth, in order of time, stays in sight of its snapshots, and can be started. *)
Record replayable (buf : list Z) (lo : Z) (M : Z -> sides) (recs : list Md.Record_) : Prop := {
  rp_bytes : bytes buf;
  rp_load : exists pd qd, Md.load buf = Some (inr (recs, pd, qd));
  rp_honest : honest buf lo 0 M recs;
  rp_sight : in_sight buf lo M recs;
  rp_prices : -1125899906842624 <= lo < 1125899906842624;
  rp_time : StronglySorted Z.le (Md.rx_ns <$> recs) /\ Forall (fun r => 0 < Md.rx_ns r) recs;
  rp_ids : ids_monotone recs;
  rp_start : exists sn df, sn ∈ recs /\ Md.kind sn = Md.Snapshot /\ df ∈ recs /\ Md.kind df = Md.Diff /\ Md.first_id df <= Md.last_id sn + 1 <= Md.last_id df;
}.


(** ** A small day *)

Definition day_before : sides := upd (upd (upd (upd empty Buy 99 7) Buy 97 2) Sell 101 4) Sell 105 6.
Definition day_after : sides := upd (upd (upd day_before Buy 100 3) Sell 101 0) Sell 103 5.
Definition day_market (i : Z) : sides := if i <=? 100 then day_before else day_after.
Definition day_levels (s : Side) : list Md.LevelUpdate := match s with Buy => [Md.mkLevel 99 7; Md.mkLevel 97 2] | Sell => [Md.mkLevel 101 4; Md.mkLevel 105 6] end.
Definition day_diff (s : Side) : list Md.LevelUpdate := match s with Buy => [Md.mkLevel 100 3] | Sell => [Md.mkLevel 101 0; Md.mkLevel 103 5] end.
Definition day_buf : list Z :=
  Md.capture 2 5 [Md.MSnapshot 5 100 (day_levels Buy) (day_levels Sell); Md.MDiff 6 101 103 (day_diff Buy) (day_diff Sell); Md.MTrade 7 100 9 true; Md.MDiff 8 104 104 [] []].
Definition day_recs : list Md.Record_ := [Md.mkRecord Md.Snapshot 5 0 100 2 2 48 0 0 false; Md.mkRecord Md.Diff 6 101 103 1 2 152 0 0 false;
  Md.mkRecord Md.Trade 7 0 0 0 0 0 100 9 true; Md.mkRecord Md.Diff 8 104 104 0 0 280 0 0 false].
(** Quotes of five lots, a cap of two quotes, no latency. *)
Definition day_config : Config := mkConfig JoinTouch Queue 5 (of_int 2) (lit 1 10) (lit 1 2) (of_int 30) (of_int 2) (of_int 10) 2 0 (of_int 0) (of_int 1) 0 (lit 1 100) (lit 1 100000).
Definition pow_one (x _ : double) : double := x.

(** The same day on the reference book, in a narrow band: the bid that joined 100 behind 3 lots is filled by a trade of 9. *)
Definition day_fills : option (Z * list (Z * Z * Z)) :=
  m ← BookMirror.make (Bk := RB.t) 100 64 16; m ← BookMirror.seed day_buf (Md.mkRecord Md.Snapshot 5 0 100 2 2 48 0 0 false) m;
  '(st, _) ← loop pow_one (fun x => x) (fun x => x) day_buf day_recs [0%nat] day_config (start day_config m) (drop 1 day_recs);
  Some (inv (acc st), (fun f => (f_t f, f_px f, f_qty f)) <$> fill_log (acc st)).
Lemma day_fills_example : day_fills = Some (5, [(7, 100, 5)]).
Proof. vm_compute. reflexivity. Qed.

Lemma day_diff_of : diff_of day_before day_diff day_after /\ diff_of day_after day_diff day_after.
Proof.
  assert (forall s, NoDup (Md.px <$> day_diff s)) as Hn by (intros []; apply (bool_decide_eq_true_1 _); vm_compute; reflexivity).
  assert (forall s u, u ∈ day_diff s -> day_after s !! Md.px u = if Md.qty u =? 0 then None else Some (Md.qty u)) as Hin.
  { intros [] u Hu; repeat (apply elem_of_cons in Hu as [->|Hu]; [vm_compute; reflexivity|]); by apply elem_of_nil in Hu. }
  split; split; try done. intros s px Hpx. unfold day_after. rewrite !upd_lookup.
  repeat (case_decide as Hd; [destruct Hd as [-> ->]; exfalso; apply Hpx; simpl; set_solver|clear Hd]). done.
Qed.

Lemma day_honest : honest day_buf 0 0 day_market day_recs.
Proof.
  destruct (MdReplayTheorems.lists_all day_before day_levels) as [LA DA]; [intros []; repeat constructor|intros []; apply (bool_decide_eq_true_1 _); vm_compute; reflexivity|].
  destruct day_diff_of as [D1 D2]. split; [lia|intros i; unfold day_market; destruct (i <=? 100); by apply MdReplayTheorems.market_fine_test|].
  repeat (apply Forall_cons; split); [..|by apply Forall_nil]; unfold truthful; cbn [Md.kind day_recs Md.first_id Md.last_id]; [..|done|].
  - exists day_levels. split; [by vm_compute|]. split; [lia|]. split; [exact LA|]. split; [apply DA|]. split; [by intros []|].
    intros []; repeat (apply Forall_cons; split; [simpl; lia|]); by apply Forall_nil.
  - exists day_diff. split; [by vm_compute|]. split; [lia|]. split; [lia|]. split.
    + intros i Hi. change (day_market 103) with day_after. unfold day_market. by destruct (i <=? 100).
    + intros []; repeat (apply Forall_cons; split; [simpl; lia|]); by apply Forall_nil.
  - exists (fun _ => []). split; [by vm_compute|]. split; [lia|]. split; [lia|]. split; [|intros s; by apply Forall_nil].
    intros i Hi. change (day_market 104) with day_after. unfold day_market. rewrite (proj2 (Z.leb_gt _ _)) by lia. split; [intros s; constructor|by intros s u ?%not_elem_of_nil|done].
Qed.

Lemma day_in_sight : in_sight day_buf 0 day_market day_recs.
Proof.
  intros sn df us s u Hsn Hsk Hdf Hdk (_ & _ & Hb & Ha) Hu.
  assert (sn = Md.mkRecord Md.Snapshot 5 0 100 2 2 48 0 0 false) as ->.
  { unfold day_recs in Hsn. repeat (apply elem_of_cons in Hsn as [->|Hsn]; [done|]). by apply elem_of_nil in Hsn. }
  assert (day_market (Md.last_id df) = day_after) as ->.
  { unfold day_recs in Hdf. repeat (apply elem_of_cons in Hdf as [->|Hdf]; [done|]). by apply elem_of_nil in Hdf. }
  assert (us Buy = day_levels Buy /\ us Sell = day_levels Sell) as [Eb Ea].
  { vm_compute in Hb. vm_compute in Ha. split; [by injection Hb|by injection Ha]. }
  destruct s; [rewrite Eb in Hu; exists 99|rewrite Ea in Hu; exists 103]; injection Hu as <-; (split; [by eexists; vm_compute|simpl; lia]).
Qed.

Lemma day_replayable : replayable day_buf 0 day_market day_recs.
Proof.
  split; [|exists 2, 5; vm_compute; reflexivity|exact day_honest|exact day_in_sight|lia| | |].
  - apply Forall_forall. intros b Hb. assert (forallb (fun b => (0 <=? b) && (b <? 256)) day_buf = true) as Hall by (vm_compute; reflexivity).
    rewrite forallb_forall in Hall. specialize (Hall b (proj1 (list_elem_of_In _ _) Hb)). unfold in_u8. lia.
  - split; [repeat constructor; simpl; lia|repeat constructor].
  - intros i j ri rj Hij Hi Hj Ki Kj. unfold day_recs in *. destruct i as [|[|[|[|i]]]]; simplify_eq/=; destruct j as [|[|[|[|j]]]]; simplify_eq/=; lia.
  - exists (Md.mkRecord Md.Snapshot 5 0 100 2 2 48 0 0 false), (Md.mkRecord Md.Diff 6 101 103 1 2 152 0 0 false). unfold day_recs. split_and!; try done; set_solver.
Qed.

Lemma day_capped : capped day_config 10.
Proof.
  intros i Hi. assert (forallb (fun i => negb (dlt (units day_config i) (max_inventory_units day_config)) && negb (dlt (SFopp (max_inventory_units day_config)) (units day_config (- i))))
    (seqZ 10 10) = true) as Hall by (vm_compute; reflexivity).
  rewrite forallb_forall in Hall. change (size_lots day_config) with 5 in Hi.
  assert (i ∈ seqZ 10 10) as Hin by (apply elem_of_seqZ; lia). specialize (Hall i (proj1 (list_elem_of_In _ _) Hin)). cbv beta in Hall.
  apply andb_true_iff in Hall as [H1 H2]. by apply negb_true_iff in H1, H2.
Qed.

Abbreviation book := (OB.t HybridStore.t (OrderIndex.t LocalityHash) PriceBitmap.t).


Lemma day_runs : exists r : Result (Bk := book), run pow_one (fun x => x) (fun x => x) day_buf day_recs day_config = Some (inr r).
Proof.
  destruct day_replayable as [H1 (pd & qd & H2) H3 H4 H5 [H6 H7] H8 (sn & df & G1 & G2 & G3 & G4 & G5)].
  apply (run_total (Bk := book) pow_one (fun x => x) (fun x => x) day_buf 0 day_market day_recs pd qd day_config 10 sn df); try done.
  - intros x p. apply nonneg_unsigned.
  - exact day_capped.
Qed.

Lemma position_bounded_witness : exists r : Result (Bk := book), run pow_one (fun x => x) (fun x => x) day_buf day_recs day_config = Some (inr r) /\
  inv (acc (final r)) = position (fill_log (acc (final r))) /\ -20 < inv (acc (final r)) < 20.
Proof.
  destruct day_runs as [r Hr]. exists r. split; [exact Hr|].
  destruct (position_bounded pow_one (fun x => x) (fun x => x) day_buf day_recs 2 5 day_config 10 r) as (H1 & H2 & _).
  - exact (rp_bytes _ _ _ _ day_replayable).
  - vm_compute. reflexivity.
  - intros x p. apply nonneg_unsigned.
  - simpl. lia.
  - simpl. lia.
  - exact day_capped.
  - exact Hr.
  - split; [exact H1|]. simpl in H2. lia.
Defined.
End MmTheorems.
