(* ===== verification/Features.v ===== *)
(** * Features of a day of messages (tools/exsim_features.cpp)

    The signal study: the book is rebuilt from the exchange's messages; every bar of exchange time gives a row with the
    best quotes and depth at its end and the flow during it, and every change of the mid price is listed. The rows are
    what the program prints. A division by a bar of no length and an overflowing sum of prices have no result; the loop
    over the bars that ended has their number as fuel. *)
From Stdlib Require Import Floats.SpecFloat.
From S2P Require Import Prelude Common Rng Doubles L3 L3Laws L3Infer Mirror.
Import Rng (double, of_int).

Module Features.
Import TruthBook.
Import Inference (Rec, seq, ts, rid, rid2, rpx, rq, kind, has, side_of, SnapOrder, SnapEnd, Open, Done, Match, Change_, FundsChange, sort_by_seq).

Definition u64_max : Z := 18446744073709551615.

(** A row of the bars file. *)
Record Bar := mkBar {
  t_ns : Z; bid : Z; ask : Z; bid_qty : Z; ask_qty : Z; bid5 : Z; ask5 : Z; ofi : double; buy_vol : Z; sell_vol : Z; events : Z; valid : bool;
}.
Record Top := mkTop { pb_ : Z; pa_ : Z; qb_ : Z; qa_ : Z }.
Record Flow := mkFlow { ofi_ : double; buy_vol_ : Z; sell_vol_ : Z; events_ : Z }.
Definition no_flow : Flow := mkFlow (of_int 0) 0 0 0.
(** [loading_], [synced_], the sequence numbers, what came before a snapshot, and the last gap in exchange time. *)
Record Sync := mkSync {
  loading_ : bool; synced_ : bool; snap_seq_ : Z; last_seq_ : Z; pre_ : list Rec; gaps_ : Z; last_ts_ : Z; gap_from_ : Z; gap_to_ : Z;
}.
(** [top_] is [pb_] ... [qa_] when [have_prev_]; [bars_] and [moves_] are the rows of the two files, in order. *)
Record t := mk { truth_ : TruthBook.t; sync : Sync; top_ : option Top; flow : Flow; bar_end_ : Z; bars_ : list Bar; moves_ : list (Z * Z) }.
Definition make : t := mk TruthBook.make (mkSync false false 0 0 [] 0 0 u64_max 0) None no_flow 0 [] [].

Definition set_truth (f : t) (b : TruthBook.t) : t := mk b (sync f) (top_ f) (flow f) (bar_end_ f) (bars_ f) (moves_ f).
Definition set_sync (f : t) (y : Sync) : t := mk (truth_ f) y (top_ f) (flow f) (bar_end_ f) (bars_ f) (moves_ f).
Definition set_flow (f : t) (x : Flow) : t := mk (truth_ f) (sync f) (top_ f) x (bar_end_ f) (bars_ f) (moves_ f).
Definition set_bar_end (f : t) (e : Z) : t := mk (truth_ f) (sync f) (top_ f) (flow f) e (bars_ f) (moves_ f).

Definition apply (f : t) (r : Rec) : option t :=
  let b := truth_ f in
  let x := flow f in
  if kind r =? Open then Some (set_truth f (add b (rid r) (side_of r) (rpx r) (rq r) (seq r))) else
  if kind r =? Match then
    '(b, _) ← fill b (rid2 r) (rq r);
    Some (set_flow (set_truth f b) (match side_of r with
      | Sell => mkFlow (ofi_ x) (u64 (buy_vol_ x + rq r)) (sell_vol_ x) (events_ x)
      | Buy => mkFlow (ofi_ x) (buy_vol_ x) (u64 (sell_vol_ x + rq r)) (events_ x)
      end))
  else if kind r =? Done then b ← remove b (rid r); Some (set_truth f b) else
  if (kind r =? Change_) && negb (has r FundsChange) then b ← change b (rid r) (rpx r) (rq r) (seq r); Some (set_truth f b) else
  Some f.

(** The increment [e] of the order-flow imbalance between two states of the best quotes. *)
Definition increment (p n : Top) : double :=
  let e := of_int 0 in
  let e := if pb_ p <=? pb_ n then dadd e (of_int (qb_ n)) else e in
  let e := if pb_ n <=? pb_ p then dsub e (of_int (qb_ p)) else e in
  let e := if pa_ n <=? pa_ p then dsub e (of_int (qa_ n)) else e in
  if pa_ p <=? pa_ n then dadd e (of_int (qa_ p)) else e.
Definition mid2 (x : Top) : option Z := BookMirror.add_price (pb_ x) (pa_ x).
Definition quote (b : TruthBook.t) : option Top :=
  pb ← best b Buy; pa ← best b Sell; Some (mkTop pb pa (level_qty b Buy pb) (level_qty b Sell pa)).
Definition observe (f : t) (time : Z) : option t :=
  match quote (truth_ f) with
  | None => Some f
  | Some n =>
      '(x, ms) ← match top_ f with
        | None => Some (flow f, moves_ f)
        | Some p =>
            let x := flow f in
            m ← mid2 n; m0 ← mid2 p;
            Some (mkFlow (dadd (ofi_ x) (increment p n)) (buy_vol_ x) (sell_vol_ x) (events_ x), if m =? m0 then moves_ f else moves_ f ++ [(time, m)])
        end;
      Some (mk (truth_ f) (sync f) (Some n) x (bar_end_ f) (bars_ f) ms)
  end.

(** The quantity of the five best levels. *)
Definition depth (b : TruthBook.t) (s : Side) : option Z := ls ← for_each_level b s 5; Some (foldl (fun a x => u64 (a + x.2)) 0 ls).
Definition flush_bar (bar_ns : Z) (f : t) : option t :=
  match top_ f with
  | None => Some f
  | Some p =>
      if bar_end_ f =? 0 then Some f else
      b5 ← depth (truth_ f) Buy; a5 ← depth (truth_ f) Sell;
      let y := sync f in
      let x := flow f in
      let ok := (bar_end_ f <=? gap_from_ y) || (gap_to_ y <=? u64 (bar_end_ f - bar_ns)) in
      Some (mk (truth_ f) y (top_ f) no_flow (bar_end_ f)
        (bars_ f ++ [mkBar (bar_end_ f) (pb_ p) (pa_ p) (qb_ p) (qa_ p) b5 a5 (ofi_ x) (buy_vol_ x) (sell_vol_ x) (events_ x) ok]) (moves_ f))
  end.
Fixpoint flush_until (fuel : nat) (bar_ns time : Z) (f : t) : option t :=
  if time <? bar_end_ f then Some f else
  match fuel with
  | O => None
  | S fuel => f ← flush_bar bar_ns f; flush_until fuel bar_ns time (set_bar_end f (u64 (bar_end_ f + bar_ns)))
  end.
Definition roll_bars (bar_ns time : Z) (f : t) : option t :=
  if bar_end_ f =? 0 then
    if bar_ns =? 0 then None else Some (set_bar_end f (u64 (u64 (time / bar_ns + 1) * bar_ns)))
  else flush_until (S (Z.to_nat ((time - bar_end_ f) / bar_ns))) bar_ns time f.

Definition buffer (f : t) (r : Rec) : t :=
  let y := sync f in
  set_sync f (mkSync (loading_ y) (synced_ y) (snap_seq_ y) (last_seq_ y) (pre_ y ++ [r]) (gaps_ y) (last_ts_ y) (gap_from_ y) (gap_to_ y)).
(** [on] for a message that is no part of a snapshot. *)
Definition on_message (bar_ns : Z) (f : t) (r : Rec) : option t :=
  let y := sync f in
  if negb (synced_ y) then Some (buffer f r) else
  if seq r <=? snap_seq_ y then Some f else
  if negb (seq r =? u64 (last_seq_ y + 1)) then
    Some (buffer (set_sync f (mkSync (loading_ y) false (snap_seq_ y) (last_seq_ y) (pre_ y) (u64 (gaps_ y + 1)) (last_ts_ y) (last_ts_ y) u64_max)) r)
  else
  let y := mkSync (loading_ y) (synced_ y) (snap_seq_ y) (seq r) (pre_ y) (gaps_ y) (ts r) (gap_from_ y) (if gap_to_ y =? u64_max then ts r else gap_to_ y) in
  f ← roll_bars bar_ns (ts r) (set_sync f y);
  f ← apply f r;
  let x := flow f in
  observe (set_flow f (mkFlow (ofi_ x) (buy_vol_ x) (sell_vol_ x) (u64 (events_ x + 1)))) (ts r).
Fixpoint replay_early (bar_ns : Z) (f : t) (early : list Rec) : option t :=
  match early with
  | [] => Some f
  | e :: early => f ← (if snap_seq_ (sync f) <? seq e then on_message bar_ns f e else Some f); replay_early bar_ns f early
  end.
(** The handler calls itself on the buffered messages only, which are no part of a snapshot. *)
Definition on (bar_ns : Z) (f : t) (r : Rec) : option t :=
  let y := sync f in
  if kind r =? SnapOrder then
    if synced_ y then Some f else
    let f := if loading_ y then f else
      set_sync (set_truth f (clear (truth_ f))) (mkSync true (synced_ y) (snap_seq_ y) (last_seq_ y) (pre_ y) (gaps_ y) (last_ts_ y) (gap_from_ y) (gap_to_ y)) in
    Some (set_truth f (add (truth_ f) (rid r) (side_of r) (rpx r) (rq r) 0))
  else if kind r =? SnapEnd then
    if synced_ y then Some f else
    replay_early bar_ns
      (mk (truth_ f) (mkSync false true (seq r) (seq r) [] (gaps_ y) (last_ts_ y) (gap_from_ y) (gap_to_ y)) None (flow f) (bar_end_ f) (bars_ f) (moves_ f))
      (sort_by_seq (pre_ y))
  else on_message bar_ns f r.
Fixpoint on_records (bar_ns : Z) (f : t) (rs : list Rec) : option t :=
  match rs with [] => Some f | r :: rs => f ← on bar_ns f r; on_records bar_ns f rs end.
Definition finish (bar_ns : Z) (f : t) : option t := flush_bar bar_ns f.
(** [main]: from the records of the file to the rows. *)
Definition main (bar_ms : Z) (rs : list Rec) : option t :=
  let bar_ns := u64 (bar_ms * 1000000) in
  f ← on_records bar_ns make rs;
  finish bar_ns f.
End Features.
