(* ===== verification/FeaturesLaws.v ===== *)
(** * The features are those of the exchange's day (tools/exsim_features.cpp)

    The program reads the messages once and keeps running totals. The reference reads the whole history of the book, bar by
    bar: a row is the last quotes and depth up to the end of its bar, and the sums over what happened in it. *)
From Stdlib Require Import Floats.SpecFloat Sorted.
From stdpp Require Import sorting.
From S2P Require Import Prelude Common Rng Doubles L3 L3Laws L3Infer Mirror Features.
Import Rng (double, of_int).

Module FeaturesLaws.
Import TruthBook TruthBookLaws Features Doubles.
Import Inference (Rec, seq, ts, rid, rid2, rpx, rq, kind, has, side_of, SnapOrder, SnapEnd, Open, Done, Match, Change_, FundsChange).

(** ** The reference *)

(** What a message does to the book. *)
Definition op_of (r : Rec) : option Op :=
  if kind r =? Open then Some (Add (rid r) (side_of r) (rpx r) (rq r) (seq r)) else
  if kind r =? Match then Some (Fill (rid2 r) (rq r)) else
  if kind r =? Done then Some (Remove (rid r)) else
  if (kind r =? Change_) && negb (has r FundsChange) then Some (Change (rid r) (rpx r) (rq r) (seq r)) else None.
Definition book_after (b : TruthBook.t) (r : Rec) : option TruthBook.t :=
  match op_of r with Some o => fst <$> step b o | None => Some b end.
(** The messages of the day, each with the book after it. *)
Abbreviation Step := (Rec * TruthBook.t)%type.
Fixpoint chain (b : TruthBook.t) (h : list Step) : Prop :=
  match h with [] => True | (r, b') :: h => book_after b r = Some b' /\ chain b' h end.

Fixpoint pairs {A} (l : list A) : list (A * A) :=
  match l with x :: ((y :: _) as l') => (x, y) :: pairs l' | _ => [] end.
(** The states of the best quotes in which both sides are quoted, with their times. *)
Definition quotes (h : list Step) : list (Z * Top) := omap (fun x : Step => pair (ts x.1) <$> quote x.2) h.
Definition changes (h : list Step) : list ((Z * Top) * (Z * Top)) := pairs (quotes h).

Definition imbalance (p n : Top) : Z :=
  (if pb_ p <=? pb_ n then qb_ n else 0) - (if pb_ n <=? pb_ p then qb_ p else 0) -
  (if pa_ n <=? pa_ p then qa_ n else 0) + (if pa_ p <=? pa_ n then qa_ p else 0).
Definition weight (x : (Z * Top) * (Z * Top)) : Z := Z.abs (qb_ x.1.2) + Z.abs (qb_ x.2.2) + Z.abs (qa_ x.1.2) + Z.abs (qa_ x.2.2).
Definition turnover (h : list Step) : Z := zsum (map weight (changes h)).

Section reference.
Context (bar : Z).
Definition net (k : Z) (h : list Step) : Z := zsum (map (fun x => imbalance x.1.2 x.2.2) (filter (fun x => x.2.1 / bar = k) (changes h))).
Definition inside (k : Z) (h : list Step) : list Step := filter (fun x => ts x.1 / bar = k) h.
Definition volume (maker : Side) (k : Z) (h : list Step) : Z :=
  u64 (zsum (map (fun x => rq x.1) (filter (fun x => kind x.1 = Match /\ side_of x.1 = maker) (inside k h)))).
Definition flow_of (k : Z) (h : list Step) : Flow := mkFlow (of_int (net k h)) (volume Sell k h) (volume Buy k h) (u64 (alen (inside k h))).
Definition row (h : list Step) (k : Z) : Bar :=
  let before := filter (fun x => ts x.1 / bar <= k) h in
  let b := default TruthBook.make (snd <$> last before) in
  let q := default (mkTop 0 0 0 0) (snd <$> last (quotes before)) in
  let x := flow_of k h in
  mkBar ((k + 1) * bar) (pb_ q) (pa_ q) (qb_ q) (qa_ q) (default 0 (depth b Buy)) (default 0 (depth b Sell)) (ofi_ x) (buy_vol_ x) (sell_vol_ x) (events_ x) true.
Definition first_bar (h : list Step) : Z := default 0 ((fun x : Step => ts x.1 / bar) <$> head h).
Definition last_bar (h : list Step) : Z := default 0 ((fun x : Step => ts x.1 / bar) <$> last h).
Definition rows (h : list Step) : list Bar := row h <$> seqZ (first_bar h) (last_bar h - first_bar h + 1).
End reference.
Definition moves (h : list Step) : list (Z * Z) :=
  omap (fun x : (Z * Top) * (Z * Top) => let m := pb_ x.2.2 + pa_ x.2.2 in if m =? pb_ x.1.2 + pa_ x.1.2 then None else Some (x.2.1, m)) (changes h).

(** ** Lists *)

Lemma pairs_snoc {A} (l : list A) x : pairs (l ++ [x]) = pairs l ++ match last l with Some y => [(y, x)] | None => [] end.
Proof. induction l as [|y [|z l] IH]; [done..|]. cbn [app pairs] in *. rewrite IH. rewrite (last_cons y (z :: l)). by destruct (last (z :: l)) eqn:E; [|apply last_None in E]. Qed.
Lemma quotes_snoc h r b : quotes (h ++ [(r, b)]) = quotes h ++ match quote b with Some q => [(ts r, q)] | None => [] end.
Proof. unfold quotes. rewrite omap_app. cbn. by destruct (quote b). Qed.
Lemma changes_snoc h r b : changes (h ++ [(r, b)]) = changes h ++ match quote b, last (quotes h) with Some q, Some p => [(p, (ts r, q))] | _, _ => [] end.
Proof. unfold changes. rewrite quotes_snoc. destruct (quote b) as [q|]; [|by rewrite !app_nil_r]. rewrite pairs_snoc. done. Qed.

(** The time of a change of the quotes is that of a message. *)
Lemma changes_time h x : x ∈ changes h -> exists y, y ∈ h /\ x.2.1 = ts y.1.
Proof.
  assert (forall (l : list (Z * Top)) x, x ∈ pairs l -> x.2 ∈ l) as Hp.
  { induction l as [|y [|z l] IH]; intros w Hw; cbn [pairs] in Hw; try by apply elem_of_nil in Hw. apply elem_of_cons in Hw as [->|Hw]; [set_solver|]. right. by apply IH. }
  intros Hx%Hp. unfold quotes in Hx. apply list_elem_of_omap in Hx as (y & Hy & E). exists y. split; [done|]. destruct (quote y.2); [|done]. injection E as E. by rewrite <- E.
Qed.

(** ** Sums along the day *)

Definition prev_of (h : list Step) (r : Rec) (b : TruthBook.t) : list ((Z * Top) * (Z * Top)) :=
  match quote b, last (quotes h) with Some q, Some p => [(p, (ts r, q))] | _, _ => [] end.

Section bars.
Context (bar : Z) (Hbar : 0 < bar).

Lemma net_snoc k h r b : net bar k (h ++ [(r, b)]) = net bar k h +
  (if decide (ts r / bar = k) then zsum (map (fun x => imbalance x.1.2 x.2.2) (prev_of h r b)) else 0).
Proof.
  unfold net. rewrite changes_snoc. fold (prev_of h r b). rewrite filter_app, map_app, zsum_app. f_equal. unfold prev_of. destruct (quote b) as [q|], (last (quotes h)) as [p|]; try by case_decide.
  rewrite filter_cons. cbn [snd fst]. by case_decide.
Qed.
Lemma inside_snoc k h r b : inside bar k (h ++ [(r, b)]) = inside bar k h ++ (if decide (ts r / bar = k) then [(r, b)] else []).
Proof. unfold inside. by rewrite filter_app. Qed.
Lemma volume_snoc m k h r b : volume bar m k (h ++ [(r, b)]) =
  u64 (volume bar m k h + if decide (ts r / bar = k) then (if decide (kind r = Match /\ side_of r = m) then rq r else 0) else 0).
Proof.
  unfold volume. rewrite inside_snoc, filter_app, map_app, zsum_app, u64_add_l. do 2 f_equal. case_decide; [|done]. rewrite filter_cons. cbn [fst]. case_decide; [|done].
  unfold zsum. simpl. lia.
Qed.
Lemma turnover_snoc h r b : turnover (h ++ [(r, b)]) = turnover h + zsum (map weight (prev_of h r b)).
Proof. unfold turnover. rewrite changes_snoc, map_app, zsum_app. done. Qed.
Lemma weight_nonneg x : 0 <= weight x.
Proof. unfold weight. lia. Qed.
Lemma turnover_nonneg h : 0 <= turnover h.
Proof. unfold turnover. induction (changes h) as [|x l IH]; [done|]. simpl. pose proof (weight_nonneg x). unfold zsum in *. simpl. lia. Qed.
Lemma turnover_app h h' : turnover h <= turnover (h ++ h').
Proof.
  induction h' as [|[r b] h' IH] using rev_ind; [by rewrite app_nil_r|]. rewrite app_assoc, turnover_snoc.
  assert (0 <= zsum (map weight (prev_of (h ++ h') r b))); [|lia]. generalize (prev_of (h ++ h') r b). intros l. unfold zsum.
  induction l as [|x l IHl]; [done|]. simpl. pose proof (weight_nonneg x). lia.
Qed.
Lemma net_turnover k h : Z.abs (net bar k h) <= turnover h.
Proof.
  unfold net, turnover. induction (changes h) as [|x l IH]; [done|]. rewrite filter_cons. unfold zsum in *. cbn [map foldr].
  assert (Z.abs (imbalance x.1.2 x.2.2) <= weight x) by (unfold imbalance, weight; repeat case_match; lia). pose proof (weight_nonneg x). case_decide; cbn [map foldr]; lia.
Qed.

Lemma filter_none {A} (P : A -> Prop) `{!forall x, Decision (P x)} l : (forall x, x ∈ l -> ~ P x) -> filter P l = [].
Proof. induction l as [|x l IH]; intros Hl; [done|]. rewrite filter_cons, decide_False, IH; [done| |]; intros; apply Hl; set_solver. Qed.
(** Nothing of a bar that none of the messages is in. *)
Lemma flow_empty k h : Forall (fun x => ts x.1 / bar < k) h -> flow_of bar k h = no_flow.
Proof.
  intros Hh. rewrite Forall_forall in Hh. assert (inside bar k h = []) as E by (apply filter_none; intros x Hx; specialize (Hh x Hx); simpl in *; lia).
  unfold flow_of, volume, no_flow. rewrite E. cbn. assert (net bar k h = 0) as ->; [|done]. unfold net.
  assert (filter (fun x : Z * Top * (Z * Top) => x.2.1 / bar = k) (changes h) = []) as ->; [|done].
  apply filter_none. intros x Hx. destruct (changes_time h x Hx) as (y & Hy & ->). specialize (Hh y Hy). simpl in *. lia.
Qed.
(** A row does not change with what comes after its bar. *)
Lemma flow_stable k h r b : k < ts r / bar -> flow_of bar k (h ++ [(r, b)]) = flow_of bar k h.
Proof.
  intros Hk. unfold flow_of. rewrite net_snoc, !volume_snoc, inside_snoc. rewrite !decide_False by lia. rewrite !Z.add_0_r, app_nil_r. unfold volume.
  by rewrite !(u64_small (u64 _)) by apply in_u64_u64.
Qed.
Lemma row_stable k h r b : k < ts r / bar -> row bar (h ++ [(r, b)]) k = row bar h k.
Proof.
  intros Hk. unfold row. rewrite flow_stable by done. rewrite filter_app, filter_cons, decide_False by (cbn [fst]; lia). by rewrite filter_nil, app_nil_r.
Qed.
Lemma row_full k h : Forall (fun x => ts x.1 / bar <= k) h -> row bar h k =
  let q := default (mkTop 0 0 0 0) (snd <$> last (quotes h)) in let b := default TruthBook.make (snd <$> last h) in let x := flow_of bar k h in
  mkBar ((k + 1) * bar) (pb_ q) (pa_ q) (qb_ q) (qa_ q) (default 0 (depth b Buy)) (default 0 (depth b Sell)) (ofi_ x) (buy_vol_ x) (sell_vol_ x) (events_ x) true.
Proof. intros Hh. unfold row. assert (filter (fun x : Step => ts x.1 / bar <= k) h = h) as ->; [|done].
  induction Hh as [|x h Hx Hh IH]; [done|]. by rewrite filter_cons, decide_True, IH. Qed.

(** ** The program keeps the reference's sums *)

Record good (b : TruthBook.t) : Prop := {
  g_depth : forall s, is_Some (depth b s);
  g_mid : forall q, quote b = Some q -> in_i64 (pb_ q + pa_ q);
}.
Definition seen (h : list Step) : TruthBook.t := default TruthBook.make (snd <$> last h).

Record running (n : Z) (f : t) (h : list Step) : Prop := {
  r_truth : truth_ f = seen h;
  r_sync : sync f = mkSync false true n (n + alen h) [] 0 (default 0 ((fun x : Step => ts x.1) <$> last h)) u64_max 0;
  r_top : top_ f = snd <$> last (quotes h);
  r_flow : flow f = flow_of bar (last_bar bar h) h;
  r_end : bar_end_ f = (last_bar bar h + 1) * bar;
  r_bars : bars_ f = row bar h <$> seqZ (first_bar bar h) (last_bar bar h - first_bar bar h);
  r_moves : moves_ f = moves h;
  r_ordered : Forall (fun x => ts x.1 / bar <= last_bar bar h) h;
}.

(** One bar is written: its row. *)
Lemma flush_bar_row f h k p : top_ f = Some p -> top_ f = snd <$> last (quotes h) -> truth_ f = seen h -> good (truth_ f) ->
  gap_from_ (sync f) = u64_max -> 0 <= k -> (k + 1) * bar <= u64_max -> Forall (fun x => ts x.1 / bar <= k) h ->
  bar_end_ f = (k + 1) * bar -> flow f = flow_of bar k h ->
  flush_bar bar f = Some (mk (truth_ f) (sync f) (top_ f) no_flow (bar_end_ f) (bars_ f ++ [row bar h k]) (moves_ f)).
Proof.
  intros Hp Ht Hb Hg Hgap Hk Hmax Hall He Hf. unfold flush_bar. rewrite Hp, He, (proj2 (Z.eqb_neq _ _)) by nia.
  destruct (g_depth _ Hg Buy) as [b5 E5], (g_depth _ Hg Sell) as [a5 E6]. rewrite E5, E6. cbn [mbind option_bind]. rewrite row_full by done. cbv zeta.
  rewrite <- Ht, Hp. cbn [default]. change (default TruthBook.make (snd <$> last h)) with (seen h). rewrite <- Hb, E5, E6. cbn [default].
  rewrite Hgap, (proj2 (Z.leb_le _ _)) by done. by rewrite Hf.
Qed.

Lemma flush_until_rows h time : forall m fuel f k p, (m <= fuel)%nat -> time / bar = k + Z.of_nat m ->
  top_ f = Some p -> top_ f = snd <$> last (quotes h) -> truth_ f = seen h -> good (truth_ f) ->
  gap_from_ (sync f) = u64_max -> 0 <= k -> (time / bar + 1) * bar <= u64_max -> Forall (fun x => ts x.1 / bar <= k) h ->
  bar_end_ f = (k + 1) * bar -> flow f = flow_of bar k h ->
  flush_until fuel bar time f = Some (mk (truth_ f) (sync f) (top_ f) (flow_of bar (time / bar) h) ((time / bar + 1) * bar)
    (bars_ f ++ (row bar h <$> seqZ k (Z.of_nat m))) (moves_ f)).
Proof.
  assert (time < (time / bar + 1) * bar) as Hlt by (pose proof (Z.mod_pos_bound time bar Hbar); pose proof (Z.div_mod time bar ltac:(lia)); lia).
  induction m as [|m IH]; intros fuel f k p Hm Hk Hp Ht Hb Hg Hgap Hk0 Hmax Hall He Hf.
  - destruct f as [b y tp x e bs ms]. cbn [top_ truth_ sync flow bar_end_ bars_ moves_] in *. subst e x. replace (time / bar) with k in * by lia.
    assert ((time <? (k + 1) * bar) = true) as Hc by lia. destruct fuel; cbn [flush_until bar_end_]; by rewrite Hc, app_nil_r.
  - destruct fuel as [|fuel]; [lia|]. cbn [flush_until]. assert (k < time / bar) by lia. rewrite He, (proj2 (Z.ltb_ge _ _)).
    2:{ pose proof (Z.mul_div_le time bar Hbar). nia. }
    rewrite (flush_bar_row f h k p) by (done || nia). cbn [mbind option_bind]. erewrite (IH fuel _ (k + 1) p); cbn [set_bar_end top_ truth_ sync flow bar_end_ bars_ moves_]; try done; try lia.
    + rewrite <- app_assoc. do 3 f_equal. rewrite (seqZ_cons k) by lia. cbn. f_equal. do 2 f_equal; lia.
    + eapply Forall_impl; [exact Hall|]. intros x Hx. simpl in *. lia.
    + rewrite He. rewrite u64_small; [lia|]. unfold in_u64. unfold u64_max in Hmax. nia.
    + symmetry. apply flow_empty. eapply Forall_impl; [exact Hall|]. intros x Hx. simpl in *. lia.
Qed.

(** What a message adds to the traded volumes. *)
Definition traded (m : Side) (r : Rec) (v : Z) : Z := if decide (kind r = Match /\ side_of r = m) then u64 (v + rq r) else v.
Lemma apply_book f r b : book_after (truth_ f) r = Some b ->
  apply f r = Some (mk b (sync f) (top_ f) (mkFlow (ofi_ (flow f)) (traded Sell r (buy_vol_ (flow f))) (traded Buy r (sell_vol_ (flow f))) (events_ (flow f)))
    (bar_end_ f) (bars_ f) (moves_ f)).
Proof.
  unfold book_after, op_of, apply, traded. destruct f as [b0 y p [x1 x2 x3 x4] e bs ms]. cbn [truth_ sync top_ flow bar_end_ bars_ moves_ ofi_ buy_vol_ sell_vol_ events_].
  destruct (Z.eqb_spec (kind r) Open) as [->|Ho]; [cbn; intros [= <-]; done|]. destruct (Z.eqb_spec (kind r) Match) as [->|Hm].
  - cbn [step fmap option_fmap option_map]. destruct (fill b0 (rid2 r) (rq r)) as [[b' ok]|]; [|done]. intros [= <-]. cbn. by destruct (side_of r).
  - rewrite !decide_False by tauto. destruct (kind r =? Done); [|destruct ((kind r =? Change_) && negb (has r FundsChange)); [|by intros [= <-]]].
    + cbn [step fmap option_fmap option_map]. destruct (remove b0 (rid r)) as [b'|]; [|done]. by intros [= <-].
    + cbn [step fmap option_fmap option_map]. destruct (change b0 _ _ _ _) as [b'|]; [|done]. by intros [= <-].
Qed.

Lemma increment_int p q time : weight ((time, p), (time, q)) < 2 ^ 53 -> increment p q = of_int (imbalance p q).
Proof.
  unfold weight, increment, imbalance. cbn [fst snd]. intros Hw.
  destruct (pb_ p <=? pb_ q), (pb_ q <=? pb_ p), (pa_ q <=? pa_ p), (pa_ p <=? pa_ q); rewrite ?dadd_int, ?dsub_int, ?dadd_int by lia; f_equal; lia.
Qed.

(** The books and the sums, after the bars that ended are written. *)
Record rolled (n : Z) (f : t) (h : list Step) (r : Rec) : Prop := {
  l_truth : truth_ f = seen h \/ h = [];
  l_sync : sync f = mkSync false true n (n + alen h + 1) [] 0 (ts r) u64_max 0;
  l_top : top_ f = snd <$> last (quotes h);
  l_flow : flow f = flow_of bar (ts r / bar) h;
  l_end : bar_end_ f = (ts r / bar + 1) * bar;
  l_bars : bars_ f = row bar h <$> seqZ (first_bar bar (h ++ [(r, seen h)])) (ts r / bar - first_bar bar (h ++ [(r, seen h)]));
  l_moves : moves_ f = moves h;
  l_order : Forall (fun x => ts x.1 / bar <= ts r / bar) h;
}.

Lemma first_bar_snoc h r b b' : first_bar bar (h ++ [(r, b)]) = first_bar bar (h ++ [(r, b')]).
Proof. by destruct h. Qed.
Lemma last_bar_snoc h r b : last_bar bar (h ++ [(r, b)]) = ts r / bar.
Proof. unfold last_bar. by rewrite last_snoc. Qed.
Lemma quotes_last h x : last (quotes h) = Some x -> quotes h <> [] /\ exists y, y ∈ h /\ quote y.2 = Some x.2.
Proof.
  intros Hl. split; [by intros E; rewrite E in Hl|]. apply last_Some in Hl as [l Hl]. assert (x ∈ quotes h) as Hx by (rewrite Hl; set_solver).
  unfold quotes in Hx. apply list_elem_of_omap in Hx as (y & Hy & E). exists y. split; [done|]. destruct (quote y.2); [|done]. by injection E as <-.
Qed.

(** The state after the message is that of the longer history. *)
Lemma next_running n f h r b : rolled n f h r -> let h' := h ++ [(r, b)] in let x := flow f in
  running n (mk b (sync f) (snd <$> last (quotes h'))
    (mkFlow (of_int (net bar (ts r / bar) h')) (traded Sell r (buy_vol_ x)) (traded Buy r (sell_vol_ x)) (u64 (events_ x + 1)))
    (bar_end_ f) (bars_ f) (moves h')) h'.
Proof.
  intros [_ L2 L3 L4 L5 L6 L7 L8] h' x. unfold x. clear x. rewrite L4.
  assert (forall m, traded m r (volume bar m (ts r / bar) h) = volume bar m (ts r / bar) h') as Hvol.
  { intros m. unfold h'. rewrite volume_snoc. rewrite decide_True by done. unfold traded. case_decide; [done|]. rewrite Z.add_0_r. unfold volume. by rewrite (u64_small (u64 _)) by apply in_u64_u64. }
  assert (alen (inside bar (ts r / bar) h') = alen (inside bar (ts r / bar) h) + 1) as Hin.
  { unfold h'. rewrite inside_snoc, decide_True by done. unfold alen. rewrite length_app. simpl. lia. }
  split; cbn [truth_ sync top_ flow bar_end_ bars_ moves_]; unfold h'; rewrite ?last_bar_snoc; try done.
  - unfold seen. by rewrite last_snoc.
  - rewrite L2, last_snoc. f_equal. unfold alen. rewrite length_app. simpl. lia.
  - unfold flow_of. cbn [flow_of ofi_ buy_vol_ sell_vol_ events_]. fold h'. by rewrite !Hvol, Hin, u64_add_l.
  - rewrite L6, (first_bar_snoc h r (seen h) b). apply list_fmap_ext. intros i k Hi. apply lookup_seqZ in Hi as [-> Hi]. symmetry. apply row_stable. lia.
  - apply Forall_app. split; [done|]. by apply Forall_singleton.
Qed.

Lemma mid2_good b q : good b -> quote b = Some q -> mid2 q = Some (pb_ q + pa_ q).
Proof.
  intros Hg Hq. pose proof (g_mid _ Hg q Hq) as Hm. unfold mid2, BookMirror.add_price. unfold in_i64 in Hm.
  by rewrite (proj2 (Z.leb_le _ _)), (proj2 (Z.ltb_lt _ _)) by lia.
Qed.

Lemma seen_next n f h r b : rolled n f h r -> good b -> book_after (truth_ f) r = Some b -> Forall (fun x => good x.2) h ->
  turnover (h ++ [(r, b)]) < 2 ^ 53 ->
  exists f', (f' ← apply f r; observe (set_flow f' (mkFlow (ofi_ (flow f')) (buy_vol_ (flow f')) (sell_vol_ (flow f')) (u64 (events_ (flow f') + 1)))) (ts r)) = Some f' /\
    running n f' (h ++ [(r, b)]).
Proof.
  intros L Hg Hb Hh Ht. rewrite (apply_book f r b Hb). cbn [mbind option_bind set_flow flow truth_ sync top_ bar_end_ bars_ moves_ ofi_ buy_vol_ sell_vol_ events_].
  eexists. split; [|by apply next_running]. pose proof (l_top _ _ _ _ L) as L3. pose proof (l_flow _ _ _ _ L) as L4. pose proof (l_moves _ _ _ _ L) as L7.
  assert (net bar (ts r / bar) (h ++ [(r, b)]) = net bar (ts r / bar) h + zsum (map (fun x => imbalance x.1.2 x.2.2) (prev_of h r b))) as Hnet by (by rewrite net_snoc, decide_True).
  rewrite Hnet. unfold moves. rewrite changes_snoc, quotes_snoc, omap_app. fold (prev_of h r b) (moves h). rewrite <- L7.
  unfold observe, set_flow. cbn [truth_ top_ flow moves_ sync bar_end_ bars_ ofi_ buy_vol_ sell_vol_ events_]. rewrite turnover_snoc in Ht. unfold prev_of in *. destruct (quote b) as [q|] eqn:Eq.
  2:{ cbn [omap list_omap map zsum foldr]. by rewrite !app_nil_r, <- L3, Z.add_0_r, L4. }
  rewrite L3, last_snoc. destruct (last (quotes h)) as [[tp p]|] eqn:El; cbn [fmap option_fmap option_map snd].
  2:{ cbn [omap list_omap map zsum foldr]. by rewrite app_nil_r, Z.add_0_r, L4. }
  destruct (quotes_last _ _ El) as (_ & y & Hy & Eqy). rewrite Forall_forall in Hh.
  rewrite (mid2_good b q), (mid2_good _ p (Hh y Hy)) by done. cbn [mbind option_bind map zsum foldr] in *. pose proof (turnover_nonneg h). pose proof (net_turnover (ts r / bar) h).
  unfold weight in Ht. cbn [fst snd] in *. rewrite (increment_int p q (ts r)) by (unfold weight; cbn [fst snd]; lia).
  assert (Z.abs (imbalance p q) <= Z.abs (qb_ p) + Z.abs (qb_ q) + Z.abs (qa_ p) + Z.abs (qa_ q)) by (unfold imbalance; repeat case_match; lia).
  rewrite L4. cbn [ofi_ flow_of]. rewrite dadd_int, Z.add_0_r by lia. cbn. by case_match; rewrite ?app_nil_r.
Qed.

(** ** The messages, one by one *)

(** A message of the stream at its place: numbered, and at a time whose bar ends in range. *)
Record in_place (n : Z) (h : list Step) (r : Rec) : Prop := {
  ip_kind : kind r <> SnapOrder /\ kind r <> SnapEnd;
  ip_seq : seq r = n + alen h + 1;
  ip_range : 0 <= n /\ seq r < 18446744073709551616;
  ip_time : 0 <= ts r /\ (ts r / bar + 1) * bar <= u64_max;
  ip_later : Forall (fun x => 0 <= ts x.1 <= ts r) h;
}.
Lemma plain_message f r : kind r <> SnapOrder /\ kind r <> SnapEnd -> on bar f r = on_message bar f r.
Proof. intros [H1 H2]. unfold on. by rewrite (proj2 (Z.eqb_neq _ _) H1), (proj2 (Z.eqb_neq _ _) H2). Qed.
Lemma numbered n h r y : in_place n h r -> synced_ y = true -> snap_seq_ y = n -> last_seq_ y = n + alen h ->
  (seq r <=? snap_seq_ y) = false /\ (seq r =? u64 (last_seq_ y + 1)) = true.
Proof.
  intros [_ Hs [Hn Hr] _ _] _ -> ->. assert (0 <= alen h) by (unfold alen; lia). rewrite u64_small by (unfold in_u64; lia). lia.
Qed.

Lemma first_message n b0 r b : in_place n [] r -> good b -> book_after b0 r = Some b -> turnover [(r, b)] < 2 ^ 53 ->
  exists f, on bar (mk b0 (mkSync false true n n [] 0 0 u64_max 0) None no_flow 0 [] []) r = Some f /\ running n f [(r, b)].
Proof.
  intros Hi Hg Hb Ht. rewrite plain_message by apply Hi. unfold on_message. cbn [sync synced_ negb].
  destruct (numbered n [] r (mkSync false true n n [] 0 0 u64_max 0) Hi) as [-> ->]; [done|done|unfold alen; simpl; lia|]. cbn [negb gap_to_ loading_ synced_ snap_seq_ last_seq_ pre_ gaps_ gap_from_].
  unfold roll_bars. cbn [bar_end_ set_sync Z.eqb]. rewrite (proj2 (Z.eqb_neq bar 0)) by lia. cbn [mbind option_bind].
  destruct (ip_time _ _ _ Hi) as [Ht0 Hmax]. unfold u64_max in Hmax. assert (0 <= ts r / bar) by (apply Z.div_pos; lia).
  apply (seen_next n _ [] r b); [|done|done|by apply Forall_nil_2|done]. split; cbn [set_bar_end truth_ sync top_ flow bar_end_ bars_ moves_]; [by right|..]; try done.
  - destruct Hi as [_ E _ _ _]. rewrite E. cbn. f_equal; unfold alen; simpl; lia.
  - rewrite (u64_small (ts r / bar + 1)), u64_small; [done|unfold in_u64; nia..].
  - unfold first_bar. cbn. by rewrite Z.sub_diag.
Qed.

Lemma next_message n f h r b : running n f h -> h <> [] -> is_Some (top_ f) -> in_place n h r -> good b -> book_after (seen h) r = Some b ->
  Forall (fun x => good x.2) h -> turnover (h ++ [(r, b)]) < 2 ^ 53 ->
  exists f', on bar f r = Some f' /\ running n f' (h ++ [(r, b)]).
Proof.
  intros [R1 R2 R3 R4 R5 R6 R7 R8] Hne [p Hp] Hi Hg Hb Hh Ht. rewrite plain_message by apply Hi. unfold on_message.
  assert (exists x, last h = Some x) as [x Hx] by (apply is_Some_alt; destruct (last h) eqn:E; [eauto|by apply last_None in E]).
  assert (last_bar bar h = ts x.1 / bar) as Elast by (unfold last_bar; by rewrite Hx). rewrite Hx in R2. cbn [fmap option_fmap option_map default] in R2.
  assert (x ∈ h) as Hin by (apply last_Some in Hx as [l ->]; set_solver).
  destruct (ip_time _ _ _ Hi) as [Ht0 Hmax]. pose proof (ip_later _ _ _ Hi) as Hle. rewrite Forall_forall in Hle. destruct (Hle x Hin) as [Hx0 Hxr].
  assert (0 <= ts x.1 / bar <= ts r / bar) as Hk by (split; [by apply Z.div_pos|by apply Z.div_le_mono]).
  destruct (numbered n h r (sync f) Hi) as [E1 E2]; [by rewrite R2..|]. rewrite E1, E2, R2. cbn [synced_ negb gap_to_ loading_ snap_seq_ last_seq_ pre_ gaps_ gap_from_].
  rewrite (proj2 (Z.eqb_neq 0 u64_max)) by done. unfold roll_bars, set_sync. cbn [bar_end_]. rewrite R5, (proj2 (Z.eqb_neq _ 0)) by nia.
  rewrite Elast in *. pose proof (Z.mod_pos_bound (ts r) bar Hbar) as Hmod. pose proof (Z.div_mod (ts r) bar ltac:(lia)) as Hdiv.
  assert ((ts r - (ts x.1 / bar + 1) * bar) / bar = ts r / bar - ts x.1 / bar - 1) as Hn by (symmetry; apply (Z.div_unique _ _ _ (ts r mod bar)); lia).
  rewrite (flush_until_rows h (ts r) (Z.to_nat (ts r / bar - ts x.1 / bar)) _ _ (ts x.1 / bar) p);
    cbn [top_ truth_ sync bar_end_ flow gap_from_]; [|rewrite Hn; lia|lia|done|done|done| |done|lia|done|done|done|done].
  2:{ rewrite R1. unfold seen. rewrite Hx. cbn. rewrite Forall_forall in Hh. by apply Hh. }
  cbn [mbind option_bind]. apply (seen_next n _ h r b); [|done|by cbn; rewrite R1|done|done].
  split; cbn [truth_ sync top_ flow bar_end_ bars_ moves_]; try done.
  - by left.
  - f_equal. rewrite (ip_seq _ _ _ Hi). lia.
  - rewrite R6. assert (first_bar bar (h ++ [(r, seen h)]) = first_bar bar h) as -> by (by destruct h).
    assert (first_bar bar h <= ts x.1 / bar) as Hf by (destruct h as [|z h]; [done|]; apply Forall_cons in R8 as [R8 _]; done).
    rewrite <- fmap_app. f_equal. rewrite Z2Nat.id by lia. replace (ts x.1 / bar) with (first_bar bar h + (ts x.1 / bar - first_bar bar h)) at 2 by lia.
    rewrite <- seqZ_app by lia. f_equal. lia.
  - apply Forall_forall. intros y Hy. apply Z.div_le_mono; [done|]. by apply Hle.
Qed.

Lemma next_messages n : forall hs f h, running n f h -> h <> [] -> is_Some (top_ f) -> chain (seen h) hs -> Forall (fun x => good x.2) (h ++ hs) ->
  (forall h1 r b h2, hs = h1 ++ (r, b) :: h2 -> in_place n (h ++ h1) r) -> turnover (h ++ hs) < 2 ^ 53 ->
  exists f', on_records bar f hs.*1 = Some f' /\ running n f' (h ++ hs).
Proof.
  induction hs as [|[r b] hs IH]; intros f h Hf Hne Htop Hc Hg Hp Ht; [exists f; by rewrite app_nil_r|]. destruct Hc as [Hb Hc].
  pose proof (turnover_app (h ++ [(r, b)]) hs) as Hto. rewrite <- app_assoc in Hto. cbn [app] in Hto.
  pose proof Hg as Hg0. apply Forall_app in Hg0 as [Hgh [Hgb _]%Forall_cons].
  destruct (next_message n f h r b Hf Hne Htop) as (f1 & E1 & R1); [by specialize (Hp [] r b hs eq_refl); rewrite app_nil_r in Hp|done..|lia|].
  cbn [fmap list_fmap fst on_records]. rewrite E1. cbn [mbind option_bind]. replace (h ++ (r, b) :: hs) with ((h ++ [(r, b)]) ++ hs) in * by (by rewrite <- app_assoc).
  apply IH; [done|by destruct h| | |done| |done].
  - rewrite (r_top _ _ _ R1), quotes_snoc. rewrite (r_top _ _ _ Hf) in Htop. destruct (quote b); [by rewrite last_snoc|by rewrite app_nil_r].
  - unfold seen. by rewrite last_snoc.
  - intros h1 r' b' h2 ->. rewrite <- app_assoc. by apply (Hp ((r, b) :: h1) r' b' h2).
Qed.
End bars.

(** ** The books of a day *)

Definition price_ok (p : Z) : Prop := -4611686018427387904 <= p < 4611686018427387904.
Definition priced (l : list Resting) : Prop := Forall (fun r => price_ok (r_px r)) l.
Definition op_price (o : Op) : Prop := match o with Add _ _ p _ _ | Change _ p _ _ => price_ok p | _ => True end.

Lemma priced_step l o : priced l -> op_price o -> priced (s_step l o).1.
Proof.
  intros Hl Ho. assert (forall i q, priced (s_set l i q)) as Hset.
  { intros i q. unfold priced, s_set in *. rewrite Forall_forall in *. intros r Hr. apply list_elem_of_fmap in Hr as (r0 & -> & Hr0). specialize (Hl r0 Hr0). by case_decide. }
  assert (forall i, priced (s_remove l i)) as Hrem.
  { intros i. unfold priced, s_remove in *. rewrite Forall_forall in *. intros r [_ Hr]%list_elem_of_filter. by apply Hl. }
  destruct o as [i s p q t|i q|i|i p q t]; cbn [s_step].
  - apply Forall_app. split; [done|]. by apply Forall_singleton.
  - destruct (s_find l i) as [r|]; [|done]. destruct (qty (r_order r) <? q); [done|apply Hset].
  - apply Hrem.
  - destruct (s_find l i) as [r|]; [|done]. destruct ((p =? r_px r) && (q <=? qty (r_order r))); [apply Hset|]. apply Forall_app. split; [apply Hrem|]. by apply Forall_singleton.
Qed.
Lemma describes_good b l : describes b l -> priced l -> good b.
Proof.
  intros Hd Hl. split.
  - intros s. destruct (d_levels _ _ Hd s) as (ps & _ & _ & _ & _ & Hv). unfold depth. rewrite Hv. by eexists.
  - assert (forall s p, best b s = Some p -> price_ok p) as Hp.
    { intros s p Hb. destruct (d_levels _ _ Hd s) as (ps & _ & Hps & Hh & _ & _). rewrite Hb in Hh. assert (p ∈ ps) as Hin by (destruct ps; [done|]; injection Hh as ->; by left).
      apply Hps in Hin. unfold s_queue in Hin. destruct (filter (at_level s p) l) as [|r rs] eqn:E; [done|].
      assert (r ∈ filter (at_level s p) l) as Hr by (rewrite E; by left). apply list_elem_of_filter in Hr as [[_ <-] Hr]. unfold priced in Hl. rewrite Forall_forall in Hl. by apply Hl. }
    intros q Hq. unfold quote in Hq. inv_bind. cbn [pb_ pa_]. unfold in_i64. pose proof (Hp _ _ ltac:(eassumption)) as H1. pose proof (Hp Buy _ ltac:(eassumption)) as H2.
    unfold price_ok in *. lia.
Qed.

Lemma books ms : forall b zs, rel b zs -> priced zs.*2 -> sound zs.*2 (omap op_of ms) -> Forall (fun r => price_ok (rpx r)) ms ->
  exists h, h.*1 = ms /\ chain b h /\ Forall (fun x => good x.2) h.
Proof.
  induction ms as [|r ms IH]; intros b zs Hb Hp Hs Hm; [by exists []|]. apply Forall_cons in Hm as [Hr Hm]. cbn [omap list_omap] in Hs. destruct (op_of r) as [o|] eqn:Eo.
  - destruct Hs as (H1 & H2 & Hs). destruct (sim_step b zs o Hb (conj H1 H2)) as (b' & zs' & E & Hb' & Hl).
    assert (priced zs'.*2) as Hp'. { rewrite Hl. apply priced_step; [done|]. clear -Eo Hr. unfold op_of in Eo. repeat case_match; by simplify_eq. }
    rewrite <- Hl in Hs. destruct (IH b' zs' Hb' Hp' Hs Hm) as (h & <- & Hc & Hg). exists ((r, b') :: h). split; [done|]. split.
    + split; [|done]. unfold book_after. by rewrite Eo, E.
    + constructor; [|done]. by eapply describes_good; [apply rel_describes|].
  - destruct (IH b zs Hb Hp Hs Hm) as (h & <- & Hc & Hg). exists ((r, b) :: h). split; [done|]. split.
    + split; [|done]. unfold book_after. by rewrite Eo.
    + constructor; [|done]. by eapply describes_good; [apply rel_describes|].
Qed.

Definition snap_op (r : Rec) : Op := Add (rid r) (side_of r) (rpx r) (rq r) 0.
Lemma snapshot_loads bar snaps : Forall (fun r => kind r = SnapOrder) snaps -> forall ld b b' rs, (ld = false -> b = TruthBook.make) ->
  run b (snap_op <$> snaps) = Some (b', rs) ->
  exists ld', on_records bar (mk b (mkSync ld false 0 0 [] 0 0 u64_max 0) None no_flow 0 [] []) snaps =
    Some (mk b' (mkSync ld' false 0 0 [] 0 0 u64_max 0) None no_flow 0 [] []).
Proof.
  induction 1 as [|r snaps Hr _ IH]; intros ld b b' rs Hld; [intros [= <- <-]; by exists ld|]. cbn [fmap list_fmap run snap_op step mbind option_bind].
  intros Hrun. destruct (run (add b (rid r) (side_of r) (rpx r) (rq r) 0) (snap_op <$> snaps)) as [[b1 rs1]|] eqn:E; [|done]. injection Hrun as <- <-.
  destruct (IH true (add b (rid r) (side_of r) (rpx r) (rq r) 0) _ _ ltac:(done) E) as [ld' IHr]. exists ld'. cbn [on_records]. unfold on at 1. rewrite Hr. cbn [Z.eqb SnapOrder Pos.eqb sync synced_ loading_].
  destruct ld; cbn [mbind option_bind]; [exact IHr|]. rewrite (Hld eq_refl) in *. exact IHr.
Qed.

(** ** A day of the exchange *)

(** The snapshot of message [n] and the messages that follow it: none missing, in order of time, of orders that are new when
    they open, at prices whose sum is in range. *)
Record day_ok (n : Z) (snaps : list Rec) (fin : Rec) (ms : list Rec) : Prop := {
  d_snaps : Forall (fun r => kind r = SnapOrder) snaps;
  d_fin : kind fin = SnapEnd /\ seq fin = n /\ 0 <= n;
  d_plain : Forall (fun r => kind r <> SnapOrder /\ kind r <> SnapEnd) ms;
  d_seq : forall i r, ms !! i = Some r -> seq r = n + 1 + Z.of_nat i;
  d_range : n + alen ms < 18446744073709551616;
  d_time : StronglySorted Z.le (ts <$> ms) /\ Forall (fun r => 0 <= ts r < 4611686018427387904) ms;
  d_sound : sound [] ((snap_op <$> snaps) ++ omap op_of ms);
  d_prices : Forall (fun r => price_ok (rpx r)) (snaps ++ ms);
}.
(** The history of the book over the day. *)
Fixpoint track (b : TruthBook.t) (ms : list Rec) : option (list Step) :=
  match ms with [] => Some [] | r :: ms => b ← book_after b r; h ← track b ms; Some ((r, b) :: h) end.
Definition history (snaps ms : list Rec) : option (list Step) := '(b, _) ← run TruthBook.make (snap_op <$> snaps); track b ms.
Lemma track_chain h : forall b, chain b h -> track b h.*1 = Some h.
Proof. induction h as [|[r b'] h IH]; intros b Hc; [done|]. destruct Hc as [Hb Hc]. cbn [fmap list_fmap fst track]. rewrite Hb. cbn [mbind option_bind]. by rewrite (IH _ Hc). Qed.

Lemma sound_app l1 : forall l2 l, sound l (l1 ++ l2) -> sound l l1 /\ sound (s_run l l1).1 l2.
Proof.
  induction l1 as [|o l1 IH]; intros l2 l Hs; [done|]. destruct Hs as (H1 & H2 & Hs). apply IH in Hs as [Hs Hs2]. split; [done|].
  cbn [s_run]. destruct (s_step l o) as [l' r']. cbn [fst] in *. by destruct (s_run l' l1).
Qed.
Lemma priced_run ops : forall l, priced l -> Forall op_price ops -> priced (s_run l ops).1.
Proof.
  induction ops as [|o ops IH]; intros l Hl Ho; [done|]. apply Forall_cons in Ho as [Ho1 Ho]. pose proof (priced_step l o Hl Ho1) as Hp. cbn [s_run].
  destruct (s_step l o) as [l' r']. specialize (IH l' Hp Ho). by destruct (s_run l' ops).
Qed.

Lemma day_history n snaps fin ms : day_ok n snaps fin ms -> exists h b rs, history snaps ms = Some h /\ h.*1 = ms /\
  run TruthBook.make (snap_op <$> snaps) = Some (b, rs) /\ chain b h /\ Forall (fun x => good x.2) h.
Proof.
  intros [_ _ _ _ _ _ Hs Hp]. apply sound_app in Hs as [Hs1 Hs2]. apply Forall_app in Hp as [Hp1 Hp2].
  destruct (sim_run _ TruthBook.make [] rel_make Hs1) as (b & zs & Hrun & Hrel & Hl). change (([] : list Cell).*2) with ([] : list Resting) in *.
  destruct (books ms b zs) as (h & Hh & Hc & Hg); [done| |by rewrite Hl|done|].
  - rewrite Hl. apply priced_run; [by apply Forall_nil_2|]. apply Forall_fmap. eapply Forall_impl; [exact Hp1|]. done.
  - exists h, b, (s_run [] (snap_op <$> snaps)).2. split_and!; try done. unfold history. rewrite Hrun. cbn [mbind option_bind]. rewrite <- Hh. by apply track_chain.
Qed.

Section day.
Context (bar n : Z) (snaps : list Rec) (fin : Rec) (ms : list Rec) (Hday : day_ok n snaps fin ms) (Hbar : 0 < bar <= 4611686018427387904).

Lemma day_in_place h : h.*1 = ms -> forall h1 r b h2, h = h1 ++ (r, b) :: h2 -> in_place bar n h1 r.
Proof.
  intros Hh h1 r b h2 ->. rewrite fmap_app, fmap_cons in Hh. destruct Hday as [_ (_ & _ & Hn) Hk Hq Hrng [Hts Ht] _ _]. cbn [fst] in Hh.
  assert (ms !! length h1 = Some r) as Hr by (rewrite <- Hh, lookup_app_r; rewrite length_fmap; [by rewrite Nat.sub_diag|done]).
  assert (r ∈ ms) as Hin by (by eapply list_elem_of_lookup_2). rewrite Forall_forall in Hk, Ht. pose proof (Ht r Hin) as Htr. pose proof (Hq _ _ Hr) as Hs.
  assert (alen ms = alen h1 + 1 + alen h2) as Hlen by (rewrite <- Hh; unfold alen; rewrite length_app, length_cons, !length_fmap; lia).
  assert (0 <= alen h2) by (unfold alen; lia). split; [by apply Hk|unfold alen; lia|split; [done|unfold alen in *; lia]| |].
  - split; [lia|]. unfold u64_max. pose proof (Z.mul_div_le (ts r) bar ltac:(lia)). nia.
  - apply Forall_forall. intros x Hx. split; [apply Ht; rewrite <- Hh; apply elem_of_app; left; by apply list_elem_of_fmap_2|].
    rewrite <- Hh, fmap_app, fmap_cons in Hts. eapply StronglySorted_app_1_elem_of; [exact Hts|by apply list_elem_of_fmap_2, list_elem_of_fmap_2|by left].
Qed.

End day.
Lemma last_in_range (bar n : Z) h : 0 < bar -> h <> [] -> (forall h1 r b h2, h = h1 ++ (r, b) :: h2 -> in_place bar n h1 r) ->
  (last_bar bar h + 1) * bar <= u64_max /\ 0 <= last_bar bar h.
Proof.
  intros Hb Hne Hp. destruct h as [|[r b] l _] using rev_ind; [done|]. destruct (ip_time _ _ _ _ (Hp l r b [] eq_refl)) as [H1 H2]. rewrite last_bar_snoc. split; [done|by apply Z.div_pos].
Qed.
Lemma running_finish bar n f h : 0 < bar -> running bar n f h -> h <> [] -> is_Some (top_ f) -> Forall (fun x => good x.2) h ->
  (last_bar bar h + 1) * bar <= u64_max -> 0 <= last_bar bar h ->
  exists f', finish bar f = Some f' /\ bars_ f' = rows bar h /\ moves_ f' = moves h /\ gaps_ (sync f') = 0.
Proof.
  intros Hbar [R1 R2 R3 R4 R5 R6 R7 R8] Hne [p Hp] Hg Hmax Hk. unfold finish. rewrite (flush_bar_row bar ltac:(lia) f h (last_bar bar h) p); try done.
  - eexists. split; [done|]. cbn [bars_ moves_ sync]. rewrite R2. split_and!; [|done|done]. rewrite R6. unfold rows.
    assert (first_bar bar h <= last_bar bar h) by (destruct h as [|x h]; [done|]; by apply Forall_cons in R8 as [R8 _]).
    rewrite (seqZ_app (first_bar bar h) (last_bar bar h - first_bar bar h) 1) by lia. rewrite fmap_app. f_equal. replace (first_bar bar h + (last_bar bar h - first_bar bar h)) with (last_bar bar h) by lia. done.
  - rewrite R1. unfold seen. assert (exists x, last h = Some x) as [x Hx] by (apply is_Some_alt; destruct (last h) eqn:E; [eauto|by apply last_None in E]).
    rewrite Hx. cbn. rewrite Forall_forall in Hg. apply Hg. apply last_Some in Hx as [l ->]. set_solver.
  - by rewrite R2.
Qed.
End FeaturesLaws.

Module FeaturesTheorems.
Import TruthBook TruthBookLaws Features FeaturesLaws.
Import Inference (Rec, seq, ts, rid, rid2, rpx, rq, kind, has, side_of, SnapOrder, SnapEnd, Open, Done, Match, Change_, FundsChange).


(** A day of four messages in two bars, with two bars between them in which nothing happens: a bid at 100 opens and leaves,
    and the ask is traded with. *)
Definition demo_rec (k n t i i2 p q side : Z) : Rec := Inference.mkRec n t i i2 p 0 q 0 k side 0 0.
Definition demo_snaps : list Rec := [demo_rec SnapOrder 10 0 1 0 99 5 0; demo_rec SnapOrder 10 0 2 0 101 4 1].
Definition demo_end : Rec := demo_rec SnapEnd 10 0 0 0 0 0 0.
Definition demo_day : list Rec :=
  [demo_rec Inference.Received 11 1200000000 3 0 100 3 0; demo_rec Open 12 1300000000 3 0 100 3 0;
   demo_rec Match 13 1400000000 4 2 101 1 1; demo_rec Done 14 4500000000 3 0 0 3 0].
Lemma demo_day_ok : day_ok 10 demo_snaps demo_end demo_day.
Proof.
  split.
  - by repeat constructor.
  - done.
  - apply (bool_decide_eq_true_1 _). by vm_compute.
  - intros [|[|[|[|i]]]] r Hr; by simplify_eq/=.
  - done.
  - split; [repeat constructor; vm_compute; congruence|]. apply (bool_decide_eq_true_1 _). by vm_compute.
  - vm_compute. repeat split; congruence.
  - unfold price_ok. apply (bool_decide_eq_true_1 _). by vm_compute.
Qed.

(** Two things the files say otherwise. A change that names no price (the converter writes zero, and the other readers of
    the file take the order's own price) moves the order to price zero. And bars in which the book has one side only are
    left out, but what flowed in them is counted in the row of a later bar, which is marked valid. *)
Lemma change_without_price : exists f, main 1000 (demo_snaps ++ demo_end ::
    [demo_rec Inference.Received 11 1200000000 3 0 100 3 0; demo_rec Change_ 12 1300000000 1 0 0 2 0]) = Some f /\
  bid <$> bars_ f = [0] /\ moves_ f = [(1300000000, 101)].
Proof. eexists. split; [vm_compute; reflexivity|]. by vm_compute. Qed.
Lemma flow_of_other_bars : exists f, main 1000 (demo_rec SnapOrder 10 0 2 0 101 4 1 :: demo_end ::
    [demo_rec Inference.Received 11 1200000000 3 0 100 3 0; demo_rec Match 12 1300000000 3 2 101 1 1; demo_rec Open 13 5400000000 3 0 100 2 0]) = Some f /\
  (fun x => (t_ns x, buy_vol x, events x, valid x)) <$> bars_ f = [(6000000000, 1, 3, true)].
Proof. eexists. split; [vm_compute; reflexivity|]. by vm_compute. Qed.
End FeaturesTheorems.
